(* ===== verification/_CoqProject ===== *)
-Q . S2P
Prelude.v
Bytes.v
NetAddr.v
Http.v
Config.v
Io.v
ProxyHead.v
ProxyBody.v
ProxySession.v
Tunnel.v
Server.v
Uint256.v
Sha256.v
Encoding.v
Poly1305.v
ChaCha20.v
Primes.v
Curve.v
Polynomials.v
Coordinates.v
CurveGroup.v
P256.v
Ecdsa.v
Der.v
Pem.v
Keys.v
X509.v
TlsIdentity.v
Runtime.v
App.v
TlsRecord.v
TlsMessages.v
TlsHello.v
TlsCredentials.v
TlsHandshake.v
TlsApplication.v
TlsServer.v
TlsClient.v
Transport.v
TlsAccept.v
TlsProbe.v
