(* ===== verification/Prelude.v ===== *)
(** * BareProxy: verification development

    BareProxy is a reverse proxy for HTTP/1.1 and HTTPS that is written in Rust without dependencies: HTTP,
    TLS 1.3, its cryptography, X.509 and the configuration are all in [src/src/]. This development models these parts
    as functions that run, and proves what makes each of them correct, up to the bytes on the sockets.

    ** The program and its model

    A connection is accepted by the main loop of [server.rs] and served by a thread of its own. Over TLS the thread first
    runs the handshake ([tls_probe.rs], which calls [tls.rs], [p256.rs], [crypto.rs] and [tls_identity.rs]). It reads
    request heads ([server.rs], [http.rs]), finds a route ([config.rs]) and relays each request and its response
    ([proxy.rs]). Identities are loaded from PEM files ([tls_identity.rs], [asn1.rs]).

    Each file of the library models one part, after the files it calls:
    - [Prelude], [Bytes], [NetAddr], [Io]: what the program uses of Rust's language and standard library. [Prelude] has
      results, effectful code, slices, loops over slices and the lemmas and hints about them; [Bytes] has bytes, text
      and numerals; [NetAddr] has [std::net]'s addresses as text; [Io] has errors, readers and writers with their
      laws, [read_exact], and the weakest preconditions in which the effectful parts are proved.
    - [Http] ([http.rs]): the request parser, host authorities, and the responses the server makes itself.
    - [Config] ([config.rs]): the configuration file, normal forms of host names, the lookup of a route.
    - [ProxyHead], [ProxyBody], [ProxySession], [Tunnel] ([proxy.rs]): the heads that are forwarded, the copies of bodies
      in their framings, an exchange with an upstream and the connection kept to it, and the two threads of an
      upgraded connection.
    - [Server], [Runtime] ([server.rs]): one client connection, and the loop around all of them with its reload,
      its limit and its threads. [App] ([app.rs]): the command line, and the start of that loop from a configuration file.
    - [Uint256], [Primes], [Curve], [P256], [Ecdsa] ([p256.rs]): limbs, the two fields, the points, signatures.
      [Polynomials], [Coordinates] and [CurveGroup] model no code: they prove that the points form a group, for the
      key exchange. [Polynomials] is the one file on MathComp, whose polynomials it gives a plain interface.
    - [Sha256], [Encoding], [Poly1305], [ChaCha20] ([crypto.rs]): hashing and key derivation, hexadecimal and Base64, the AEAD.
    - [Der], [Pem], [Keys], [X509] ([asn1.rs]): DER and PEM, keys and certification requests, certificates.
    - [TlsIdentity] ([tls_identity.rs]): identities, their store, the choice by server name.
    - [TlsRecord], [TlsMessages], [TlsHello], [TlsHandshake] ([tls.rs]): the record layer, the messages, and the states of
      both ends of a handshake. [TlsCredentials], [TlsServer], [TlsClient] and [TlsApplication] prove what these
      definitions do: the server's credentials, its flights, the agreement of both ends, the state that follows.
    - [Transport], [TlsAccept] ([tls_probe.rs]): TLS records on a socket, the stream of application data, and a connection from
      its first byte to its application keys. [TlsProbe] ([tls_client_probe.rs]): the same for a client up to the keys of the handshake.

    ** How code is modelled

    A [Result] is [res], which has two more outcomes: [Panic] wherever the code would panic (an index or slice out of
    range, an [unwrap] or [expect], an overflow in a checked build, an assertion), and [Fuel]. Every theorem about
    an operation excludes [Panic]. Code that changes state is an [io], a function from a state to a result and
    a state, so that what happened before an error is kept. Integers are in [Z] with their width written out where it
    can be reached; the arithmetic of [p256.rs] and [crypto.rs] is on limbs and words as in the source. Hash maps and
    sets are those of stdpp. Structures have the fields, enumerations the constructors, and functions the names
    of the source; a loop body that is a definition of its own is mapped to its lines.

    What is not under [src/] is a class or a parameter with its documented behaviour as its law: [Read] and [Write] (a reader
    delivers a fixed stream of bytes and errors, cut into pieces as it likes; a writer writes all or a first part),
    [RandomDevice] (a buffer is filled or an error reported), [Files], name resolution and the calls on sockets and
    listeners. Nothing is assumed of peers: theorems hold for every stream that they may send. Threads are interleaved by
    explicit schedules: in [Tunnel] a list says which thread makes the next step, in [Runtime] a turn of the main
    loop says which workers end at each of its points; the theorems are for all of them.

    ** Fuel

    A loop that is not structural takes fuel. Loops that read a stream take [stream_fuel], one more than the bytes and errors
    to come: each round takes at least one of them, and the theorems show that the fuel is enough. Loops over
    buffers take the length of the buffer in the same way. Two loops are bounded by probability only, the draw of a
    private key and the search for a nonce: their fuel is an argument, and the theorems say of a run out of fuel that all the
    candidates drawn had to be rejected ([no_key_in] in [TlsServer]; [ecdsa_sign_correct] in [Ecdsa]).

    ** What the theorems show

    - HTTP and relaying: the request parser accepts exactly the grammar, with and without all its bytes; a forwarded head is
      framed as the client's, cannot smuggle a second request, and is read back by the same parser; bodies are relayed whole, or
      a first part of them with an error, however the network cuts them; responses are sanitised; an exchange answers once,
      and keeps a connection only after a whole answer; tunnels end and deliver both directions; a connection's
      conversation is its requests with their answers in order, each failure answered, counted and closed as its kind asks.
    - Configuration and the main loop: what is accepted is well formed, lookups find the one route, a reload changes everything
      or nothing, and under all interleavings each turn admits, refuses or collects as a specification of turns says, with a
      count of connections that is exact and within the limit.
    - Cryptography: the limbs compute the integers, fields, curve and authenticator of the standards, and the curve is a group;
      the ciphers are RFC 8439's, and a text is opened exactly when its tag is that of all that is authenticated;
      signatures are RFC 6979's and are verified by the verification equation.
    - Encodings: DER, PEM, keys, certificates and the hellos of TLS are accepted exactly when they are encodings of what is returned.
    - TLS: records sent are the records received, no nonce is used twice; negotiation, retry, authentication and completion are
      those of RFC 8446; both ends derive the same keys, without a hypothesis on the exchange; after the handshake the state refines a machine of
      open, closed and failed connections. On a socket: keys are given only after a Finished that matches the
      transcript, to a client that asked for a name with an identity and a route; the stream of application data
      delivers what was sent, writes what it was given, and is safe whatever arrives.

    ** What is not modelled

    Log lines, time limits and the clock; the wiping of secrets, which no pure function can show (the keys that a state
    zeroes are modelled); the storage of key files with their permissions ([asn1.rs]); what [app.rs] prints, and how it runs
    the three probes, each of which is a call of parts above. The requests of a TLS connection are
    handled by the same code as those of a plain one, and [Server] proves it over any reader and any writer, which are two
    halves without shared state; [Transport] shows that each half of a TLS stream obeys these laws as long as the other
    one has not failed, but since both halves share the application state the two are not composed into one theorem. *)
From Stdlib Require Import ZArith Lia.
From stdpp Require Import prelude.
Set Warnings "-clear-no-such-hyp".

(** ** Results

    [res E A] is Rust's [Result<A, E>] together with the two outcomes a Rust
    [Result] does not name: [Panic] is a panic (an index or slice out of range, an
    [unwrap] or [expect] of the wrong variant, an arithmetic overflow in a checked
    build) and [Fuel] is the exhaustion of a fuel argument of this model, which
    corresponds to no behaviour of the code; the theorems show that neither
    occurs where the code is meant to return. *)
Inductive res (E A : Type) : Type :=
| Ok (a : A)
| Err (e : E)
| Panic
| Fuel.
Arguments Ok {E A} a.
Arguments Err {E A} e.
Arguments Panic {E A}.
Arguments Fuel {E A}.

Definition res_bind {E A B : Type} (m : res E A) (k : A -> res E B) : res E B :=
  match m with
  | Ok a => k a
  | Err e => Err e
  | Panic => Panic
  | Fuel => Fuel
  end.

Definition map_err {E F A : Type} (f : E -> F) (m : res E A) : res F A :=
  match m with
  | Ok a => Ok a
  | Err e => Err (f e)
  | Panic => Panic
  | Fuel => Fuel
  end.

(** [Option::ok_or] and [Option::ok_or_else]. *)
Definition ok_or {E A : Type} (o : option A) (e : E) : res E A :=
  match o with
  | Some a => Ok a
  | None => Err e
  end.

(** [Option::expect] and [Option::unwrap]: a panic on [None]. *)
Definition expect {E A : Type} (o : option A) : res E A :=
  match o with
  | Some a => Ok a
  | None => Panic
  end.

(** [Option::filter]. *)
Definition option_filter {A : Type} (p : A -> bool) (o : option A) : option A :=
  match o with
  | Some a => if p a then Some a else None
  | None => None
  end.

Definition is_ok {E A : Type} (m : res E A) : bool :=
  match m with
  | Ok _ => true
  | _ => false
  end.

(** The outcomes a Rust function that does not panic can have. *)
Definition returns {E A : Type} (m : res E A) : Prop :=
  match m with
  | Ok _ | Err _ => True
  | Panic | Fuel => False
  end.

(** ** Effectful code

    [io S E A] is code that runs on a mutable state [S] (sockets, buffers, counters)
    and returns a result; the state changes made before an error are kept. *)
Definition io (S E A : Type) : Type := S -> res E A * S.

Definition io_ret {S E A : Type} (a : A) : io S E A := fun s => (Ok a, s).

Definition io_err {S E A : Type} (e : E) : io S E A := fun s => (Err e, s).

Definition modify {S E : Type} (f : S -> S) : io S E unit := fun s => (Ok tt, f s).
Definition gets {S E A : Type} (f : S -> A) : io S E A := fun s => (Ok (f s), s).

Definition io_lift {S E A : Type} (m : res E A) : io S E A := fun s => (m, s).

Definition io_bind {S E A B : Type} (m : io S E A) (k : A -> io S E B) : io S E B :=
  fun s =>
    match m s with
    | (Ok a, s') => k a s'
    | (Err e, s') => (Err e, s')
    | (Panic, s') => (Panic, s')
    | (Fuel, s') => (Fuel, s')
    end.

Definition io_map_err {S E F A : Type} (f : E -> F) (m : io S E A) : io S F A :=
  fun s => let '(r, s') := m s in (map_err f r, s').

(** Running code on one component of a larger state. *)
Definition io_zoom {S T E A : Type} (get : S -> T) (put : T -> S -> S) (m : io T E A) : io S E A :=
  fun s => let '(r, t) := m (get s) in (r, put t s).

Declare Scope proxy_scope.
Delimit Scope proxy_scope with proxy.
Notation "'let?' x ':=' m 'in' k" := (res_bind m (fun x => k))
  (at level 10, x pattern, m at level 100, k at level 200) : proxy_scope.
Notation "'let!' x ':=' m 'in' k" := (io_bind m (fun x => k))
  (at level 10, x pattern, m at level 100, k at level 200) : proxy_scope.
#[global] Open Scope proxy_scope.

(** ** Machine integers

    [usize] is 64 bits wide on the targets of the program; sizes and counters are
    kept in [Z] and wrap-around is written out where the code can reach it. *)
Definition u8_max : Z := 255.
Definition u16_max : Z := 65535.
Definition u32_max : Z := 4294967295.
Definition u64_max : Z := 18446744073709551615.
Definition usize_max : Z := u64_max.

(** [Vec::len] and [slice::len]. *)
Definition len {A : Type} (l : list A) : Z := Z.of_nat (length l).

Definition checked_add (bound a b : Z) : option Z :=
  if (a + b <=? bound)%Z then Some (a + b)%Z else None.

Definition checked_mul (bound a b : Z) : option Z :=
  if (a * b <=? bound)%Z then Some (a * b)%Z else None.

(** ** Slices: indexing and range indexing panic when out of bounds *)
Definition slice_to {E A : Type} (l : list A) (j : nat) : res E (list A) :=
  if decide (j <= length l) then Ok (take j l) else Panic.

Definition slice_from {E A : Type} (l : list A) (i : nat) : res E (list A) :=
  if decide (i <= length l) then Ok (drop i l) else Panic.

Definition slice {E A : Type} (l : list A) (i j : nat) : res E (list A) :=
  if decide (i <= j /\ j <= length l) then Ok (take (j - i) (drop i l)) else Panic.

Definition index {E A : Type} (l : list A) (i : nat) : res E A := expect (l !! i).

(** [dst[i..j].copy_from_slice(src)]: the lengths have to agree. *)
Definition copy_from_slice {E A : Type} (dst : list A) (i j : nat) (src : list A) : res E (list A) :=
  if decide (i <= j /\ j <= length dst /\ length src = j - i) then Ok (take i dst ++ src ++ drop j dst) else Panic.

(** [chunks_exact]: the whole chunks of [n], and what remains. *)
Fixpoint chunks_exact_loop {A : Type} (fuel n : nat) (l : list A) : list (list A) * list A :=
  match fuel with
  | O => ([], l)
  | S fuel' =>
      if decide (n <= length l) then
        let '(cs, r) := chunks_exact_loop fuel' n (drop n l) in (take n l :: cs, r)
      else ([], l)
  end.

Definition chunks_exact {A : Type} (n : nat) (l : list A) : list (list A) * list A :=
  chunks_exact_loop (length l) n l.

(** [chunks]: the same, with what remains as the last chunk. *)
Definition chunks {A : Type} (n : nat) (l : list A) : list (list A) :=
  let '(cs, r) := chunks_exact n l in
  match r with
  | [] => cs
  | _ => cs ++ [r]
  end.

(** ** Loops over slices that may return early *)
Fixpoint res_mapM {E A B : Type} (f : A -> res E B) (l : list A) : res E (list B) :=
  match l with
  | [] => Ok []
  | a :: l' => let? b := f a in let? bs := res_mapM f l' in Ok (b :: bs)
  end.

Fixpoint res_foldM {E A S : Type} (f : S -> A -> res E S) (s : S) (l : list A) : res E S :=
  match l with
  | [] => Ok s
  | a :: l' => let? s' := f s a in res_foldM f s' l'
  end.

(** [iter().all(f)]: stops at the first element that fails. *)
Fixpoint res_all {E A : Type} (f : A -> res E bool) (l : list A) : res E bool :=
  match l with
  | [] => Ok true
  | a :: l' => let? b := f a in if b then res_all f l' else Ok false
  end.

(** ** Reasoning about results *)
Create HintDb proxy discriminated.
Create Rewrite HintDb proxy.

(** [injection] would evaluate the values. *)
Lemma Ok_inj {E A : Type} (a b : A) : Ok a = Ok b :> res E A -> a = b.
Proof. congruence. Qed.

Lemma res_bind_Ok {E A B : Type} (m : res E A) (k : A -> res E B) (b : B) :
  res_bind m k = Ok b <-> exists a, m = Ok a /\ k a = Ok b.
Proof.
  destruct m; simpl; split.
  2,4,6,8: intros (? & ? & ?); congruence.
  all: intros; simplify_eq; eauto.
Qed.

Lemma res_bind_returns {E A B : Type} (m : res E A) (k : A -> res E B) :
  returns m -> (forall a, m = Ok a -> returns (k a)) -> returns (res_bind m k).
Proof. destruct m; simpl; auto. Qed.

Lemma res_bind_assoc {E A B C : Type} (m : res E A) (f : A -> res E B) (g : B -> res E C) :
  res_bind (res_bind m f) g = res_bind m (fun a => res_bind (f a) g).
Proof. by destruct m. Qed.

Lemma ok_or_Ok {E A : Type} (o : option A) (e : E) (a : A) : ok_or o e = Ok a <-> o = Some a.
Proof. destruct o; simpl; split; congruence. Qed.

Lemma ok_or_returns {E A : Type} (o : option A) (e : E) : returns (ok_or o e).
Proof. by destruct o. Qed.

Lemma res_mapM_Ok {E A B : Type} (f : A -> res E B) (l : list A) (k : list B) :
  res_mapM f l = Ok k <-> Forall2 (fun a b => f a = Ok b) l k.
Proof.
  revert k. induction l as [|a l IH]; intros k; simpl.
  - split; [intros; by simplify_eq|intros H; by inversion H].
  - rewrite res_bind_Ok. setoid_rewrite res_bind_Ok. split.
    + intros (b & Hb & bs & Hbs & ?). simplify_eq. constructor; [done|]. by apply IH.
    + inversion 1; subst. eexists; split; [done|]. eexists; split; [by apply IH|done].
Qed.

Lemma res_mapM_returns {E A B : Type} (f : A -> res E B) (l : list A) :
  (forall a, a ∈ l -> returns (f a)) -> returns (res_mapM f l).
Proof.
  induction l as [|a l IH]; simpl; intros Hf; [done|].
  apply res_bind_returns; [apply Hf; by left|]. intros b _.
  apply res_bind_returns; [|done]. apply IH. intros; apply Hf. by right.
Qed.

Lemma res_foldM_returns {E A S : Type} (f : S -> A -> res E S) (s : S) (l : list A) :
  (forall s a, a ∈ l -> returns (f s a)) -> returns (res_foldM f s l).
Proof.
  revert s. induction l as [|a l IH]; simpl; intros s Hf; [done|].
  apply res_bind_returns; [apply Hf; by left|]. intros s' _.
  apply IH. intros; apply Hf. by right.
Qed.

Lemma res_foldM_app {E A S : Type} (f : S -> A -> res E S) (s : S) (l k : list A) :
  res_foldM f s (l ++ k) = res_bind (res_foldM f s l) (fun s' => res_foldM f s' k).
Proof.
  revert s. induction l as [|a l IH]; simpl; intros s; [done|].
  rewrite res_bind_assoc. by destruct (f s a); simpl.
Qed.

Lemma res_foldM_inv {E A S : Type} (P : S -> Prop) (f : S -> A -> res E S) (s s' : S) (l : list A) :
  (forall t a t', P t -> f t a = Ok t' -> P t') -> P s -> res_foldM f s l = Ok s' -> P s'.
Proof.
  intros Hf. revert s. induction l as [|a l IH]; simpl; intros s Hs H; [by injection H as <-|].
  apply res_bind_Ok in H as (t & Ht & H). eauto.
Qed.

(** Code that is the same for every error type. *)
Lemma map_err_bind {E F A B : Type} (f : E -> F) (m : res E A) (k : A -> res E B) :
  map_err f (res_bind m k) = res_bind (map_err f m) (fun a => map_err f (k a)).
Proof. by destruct m. Qed.

Lemma map_err_foldM {E F A S : Type} (f : E -> F) (g : S -> A -> res E S) (h : S -> A -> res F S) (s : S) (l : list A) :
  (forall s a, map_err f (g s a) = h s a) -> map_err f (res_foldM g s l) = res_foldM h s l.
Proof.
  intros Hg. revert s. induction l as [|a l IH]; intros s; [done|]. cbn [res_foldM]. rewrite map_err_bind, Hg.
  by destruct (h s a); cbn [res_bind].
Qed.

Lemma map_err_mapM {E F A B : Type} (f : E -> F) (g : A -> res E B) (h : A -> res F B) (l : list A) :
  (forall a, map_err f (g a) = h a) -> map_err f (res_mapM g l) = res_mapM h l.
Proof.
  intros Hg. induction l as [|a l IH]; [done|]. cbn [res_mapM]. rewrite map_err_bind, Hg.
  destruct (h a); [|done..]. cbn [res_bind]. rewrite map_err_bind, IH. by destruct (res_mapM h l).
Qed.

Lemma map_err_index {E F A : Type} (f : E -> F) (l : list A) (i : nat) : map_err f (index l i) = index l i.
Proof. unfold index. by destruct (l !! i). Qed.

Lemma res_all_pure {E A : Type} (f : A -> res E bool) (g : A -> bool) (l : list A) :
  (forall a, f a = Ok (g a)) -> res_all f l = Ok (forallb g l).
Proof.
  intros Hf. induction l as [|a l IH]; [done|]. cbn [res_all forallb]. rewrite Hf. cbn [res_bind].
  by destruct (g a).
Qed.

#[export] Hint Resolve res_bind_returns ok_or_returns : proxy.

(** ** Slices *)
Lemma slice_to_Ok {E A : Type} (l : list A) (j : nat) :
  j <= length l -> slice_to l j = Ok (take j l) :> res E _.
Proof. intros. unfold slice_to. by rewrite decide_True. Qed.

Lemma slice_from_Ok {E A : Type} (l : list A) (i : nat) :
  i <= length l -> slice_from l i = Ok (drop i l) :> res E _.
Proof. intros. unfold slice_from. by rewrite decide_True. Qed.

Lemma slice_Ok {E A : Type} (l : list A) (i j : nat) :
  i <= j -> j <= length l -> slice l i j = Ok (take (j - i) (drop i l)) :> res E _.
Proof. intros. unfold slice. by rewrite decide_True. Qed.

Lemma slice_to_inv {E A : Type} (l k : list A) (j : nat) :
  slice_to l j = Ok k :> res E _ <-> j <= length l /\ k = take j l.
Proof. unfold slice_to. case_decide; split; naive_solver. Qed.

Lemma slice_from_inv {E A : Type} (l k : list A) (i : nat) :
  slice_from l i = Ok k :> res E _ <-> i <= length l /\ k = drop i l.
Proof. unfold slice_from. case_decide; split; naive_solver. Qed.

Lemma slice_inv {E A : Type} (l k : list A) (i j : nat) :
  slice l i j = Ok k :> res E _ <-> i <= j /\ j <= length l /\ k = take (j - i) (drop i l).
Proof. unfold slice. case_decide; split; naive_solver. Qed.

Lemma copy_from_slice_Ok {E A : Type} (dst src : list A) (i j : nat) :
  i <= j -> j <= length dst -> length src = j - i ->
  copy_from_slice dst i j src = Ok (take i dst ++ src ++ drop j dst) :> res E _.
Proof. intros. unfold copy_from_slice. by rewrite decide_True. Qed.

Lemma drop_repeat {A : Type} (x : A) (n m : nat) : drop n (repeat x m) = repeat x (m - n).
Proof. revert m. induction n as [|n IH]; intros [|m]; [done..|]. cbn [repeat]. apply IH. Qed.

Section chunks.
Context {A : Type}.
Implicit Types l k : list A.

Lemma chunks_exact_loop_fuel (n f g : nat) l :
  0 < n -> length l <= f -> length l <= g -> chunks_exact_loop f n l = chunks_exact_loop g n l.
Proof.
  intros Hn. revert g l. induction f as [|f IH]; intros g l Hf Hg.
  - destruct g; [done|]. simpl. case_decide; [lia|done].
  - destruct g as [|g]; simpl; [case_decide; [lia|done]|]. case_decide; [|done].
    rewrite (IH g); [done| |]; rewrite length_drop; lia.
Qed.

Lemma chunks_exact_short (n : nat) l : length l < n -> chunks_exact n l = ([], l).
Proof. intros H. unfold chunks_exact. destruct (length l) eqn:E; [done|]. simpl. rewrite decide_False by lia. done. Qed.

Lemma chunks_exact_step (n : nat) l : 0 < n -> n <= length l ->
  chunks_exact n l = (take n l :: (chunks_exact n (drop n l)).1, (chunks_exact n (drop n l)).2).
Proof.
  intros Hn Hl. unfold chunks_exact. destruct (length l) as [|m] eqn:E; [lia|]. cbn [chunks_exact_loop].
  rewrite decide_True by lia.
  rewrite (chunks_exact_loop_fuel n m (length (drop n l))) by (try done; rewrite length_drop; lia).
  by destruct (chunks_exact_loop _ _ _).
Qed.

Lemma chunks_exact_app (n : nat) (c l : list A) : 0 < n -> length c = n ->
  chunks_exact n (c ++ l) = (c :: (chunks_exact n l).1, (chunks_exact n l).2).
Proof.
  intros Hn Hc. rewrite chunks_exact_step by (try done; rewrite length_app; lia).
  by rewrite take_app_length', drop_app_length' by done.
Qed.

Lemma chunks_exact_spec (n : nat) l : 0 < n ->
  concat (chunks_exact n l).1 ++ (chunks_exact n l).2 = l /\
  Forall (fun c => length c = n) (chunks_exact n l).1 /\ length (chunks_exact n l).2 < n.
Proof.
  intros Hn. remember (length l) as m eqn:E. revert l E. induction (lt_wf m) as [m _ IH]. intros l ->.
  destruct (decide (length l < n)) as [Hs|Hs]; [rewrite chunks_exact_short by done; split_and!; [done|constructor|done]|].
  rewrite chunks_exact_step by lia. cbn [fst snd concat].
  destruct (IH (length (drop n l)) ltac:(rewrite length_drop; lia) (drop n l) eq_refl) as (Hc & Hf & Hr).
  split_and!; [by rewrite <- app_assoc, Hc, take_drop| |done].
  constructor; [rewrite length_take; lia|done].
Qed.

(** Chunking what remains together with what follows. *)
Lemma chunks_exact_more (n : nat) l k : 0 < n ->
  chunks_exact n (l ++ k) =
    ((chunks_exact n l).1 ++ (chunks_exact n ((chunks_exact n l).2 ++ k)).1,
     (chunks_exact n ((chunks_exact n l).2 ++ k)).2).
Proof.
  intros Hn. destruct (chunks_exact_spec n l Hn) as (Hc & Hf & _).
  destruct (chunks_exact n l) as [cs r]. cbn [fst snd] in *. subst l. rewrite <- app_assoc.
  induction Hf as [|c cs Hc Hf IH]; [simpl; by destruct (chunks_exact n (r ++ k))|].
  cbn [concat app]. by rewrite <- app_assoc, chunks_exact_app, IH.
Qed.

Lemma chunks_exact_all (n : nat) l : 0 < n -> (chunks_exact n l).2 = [] -> concat (chunks_exact n l).1 = l.
Proof. intros Hn Hr. destruct (chunks_exact_spec n l Hn) as (Hc & _ & _). by rewrite Hr, app_nil_r in Hc. Qed.

Lemma length_concat_chunks (n : nat) (cs : list (list A)) :
  Forall (fun c => length c = n) cs -> length (concat cs) = (length cs * n).
Proof. induction 1 as [|c cs Hc Hf IH]; [done|]. cbn [concat length]. rewrite length_app. lia. Qed.

Lemma length_chunks_exact (n : nat) l : 0 < n ->
  (length (chunks_exact n l).1 * n + length (chunks_exact n l).2 = length l).
Proof.
  intros Hn. destruct (chunks_exact_spec n l Hn) as (Hc & Hf & _).
  by rewrite <- (length_concat_chunks _ _ Hf), <- length_app, Hc.
Qed.

Lemma chunks_nil (n : nat) : chunks n (@nil A) = [].
Proof. done. Qed.

(** [chunks] as a recursion. *)
Lemma chunks_step (n : nat) l : 0 < n -> l <> [] -> chunks n l = take n l :: chunks n (drop n l).
Proof.
  intros Hn Hl. unfold chunks. destruct (decide (length l < n)) as [Hs|Hs].
  - rewrite chunks_exact_short, take_ge, drop_ge by (done || lia). by destruct l.
  - rewrite chunks_exact_step by lia. destruct (chunks_exact n (drop n l)) as [cs r]. cbn [fst snd]. by destruct r.
Qed.

End chunks.

Lemma index_Ok {E A : Type} (l : list A) (i : nat) (a : A) :
  l !! i = Some a -> index l i = Ok a :> res E _.
Proof. unfold index. by intros ->. Qed.

Lemma index_returns {E A : Type} (l : list A) (i : nat) :
  i < length l -> returns (index l i : res E A).
Proof. intros [a Ha]%lookup_lt_is_Some. by erewrite index_Ok. Qed.

Lemma len_nonneg {A : Type} (l : list A) : (0 <= len l)%Z.
Proof. unfold len. lia. Qed.

Lemma len_app {A : Type} (l k : list A) : len (l ++ k) = (len l + len k)%Z.
Proof. unfold len. rewrite length_app. lia. Qed.

Lemma len_cons {A : Type} (a : A) (l : list A) : len (a :: l) = (len l + 1)%Z.
Proof. unfold len. simpl. lia. Qed.

Lemma len_nil {A : Type} : len (@nil A) = 0%Z.
Proof. done. Qed.

#[export] Hint Rewrite @len_app @len_cons @len_nil : proxy.
#[export] Hint Resolve len_nonneg : proxy.

(** Peels the binds, guards and constructors off hypotheses [_ = Ok _]. *)
Ltac inv_res_step :=
  match goal with
  | H : Ok _ = Ok _ |- _ => injection H as H; subst
  | H : (_, _) = (_, _) |- _ => injection H as H; subst
  | H : res_bind _ _ = Ok _ |- _ => apply res_bind_Ok in H as (? & ? & H)
  | H : ok_or _ _ = Ok _ |- _ => apply ok_or_Ok in H
  | H : slice_to _ _ = Ok _ |- _ => apply slice_to_inv in H as [? ->]
  | H : slice_from _ _ = Ok _ |- _ => apply slice_from_inv in H as [? ->]
  | H : slice _ _ _ = Ok _ |- _ => apply slice_inv in H as (? & ? & ->)
  | H : Err _ = Ok _ |- _ => discriminate H
  | H : Panic = Ok _ |- _ => discriminate H
  | H : Fuel = Ok _ |- _ => discriminate H
  | H : (if ?b then _ else _) = Ok _ |- _ => destruct b eqn:?
  | H : (match ?x with _ => _ end) = Ok _ |- _ => destruct x eqn:?
  end.
Ltac inv_res := repeat (inv_res_step; simpl in *).

Lemma filter_all {A : Type} (P : A -> Prop) `{!forall a, Decision (P a)} (l : list A) : Forall P l -> filter P l = l.
Proof. induction 1 as [|a l Ha _ IH]; [done|]. by rewrite filter_cons_True, IH. Qed.

(** ** Bits *)
Section bits.
Local Open Scope Z_scope.

(** The bits of a number above its width. *)
Lemma testbit_high (b k i : Z) : 0 <= b < 2 ^ k -> 0 <= k <= i -> Z.testbit b i = false.
Proof. intros Hb Hk. rewrite <- (Z.mod_small b (2 ^ k)) by done. by apply Z.mod_pow2_bits_high. Qed.

Lemma lor_add (a b : Z) : Z.land a b = 0 -> Z.lor a b = a + b.
Proof. intros H. by rewrite Z.add_nocarry_lxor, Z.lxor_lor by done. Qed.

(** Bits that do not overlap are added. *)
Lemma lor_shiftl_add (a b k : Z) : 0 <= k -> 0 <= b < 2 ^ k -> Z.lor (Z.shiftl a k) b = a * 2 ^ k + b.
Proof.
  intros Hk Hb. rewrite lor_add; [by rewrite Z.shiftl_mul_pow2|].
  apply Z.bits_inj'. intros i Hi. rewrite Z.land_spec, Z.bits_0. destruct (Z_lt_ge_dec i k).
  - by rewrite Z.shiftl_spec_low.
  - by rewrite (testbit_high b k i), andb_false_r by lia.
Qed.

Lemma lor_mul_add (a b k : Z) : 0 <= k -> 0 <= b < 2 ^ k -> Z.lor (a * 2 ^ k) b = a * 2 ^ k + b.
Proof. intros Hk Hb. pose proof (lor_shiftl_add a b k Hk Hb) as H. by rewrite Z.shiftl_mul_pow2 in H. Qed.

(** [land] with a mask of ones. *)
Lemma land_mask (a k : Z) : 0 <= k -> Z.land a (2 ^ k - 1) = a mod 2 ^ k.
Proof. intros. rewrite <- Z.land_ones by done. f_equal. rewrite Z.ones_equiv. lia. Qed.

End bits.
