(* ===== verification/Bytes.v ===== *)
(** * Bytes and text: the parts of Rust's [core] and [std] the program relies on

    [u8] is [Byte.byte]; a byte slice, a [Vec<u8>] and the contents of a [&str] or
    [String] are [bytes].  A [&str] is a byte list that satisfies [utf8_valid]; the
    functions of the standard library below agree with Rust on such lists. *)
From Stdlib Require Import ZArith Lia.
From Stdlib Require Export Strings.Byte.
From Stdlib Require String.
From stdpp Require Import countable prelude.
Export String.StringSyntax.
From S2P Require Import Prelude.
Local Open Scope Z_scope.
Set Warnings "-clear-no-such-hyp".

Abbreviation bytes := (list byte).

(** A string literal of the source, as its bytes. *)
Definition str (s : String.string) : bytes := String.list_byte_of_string s.
Arguments str s%_string_scope.

Definition u8 (b : byte) : Z := Z.of_N (Byte.to_N b).

(** [as u8]: truncation to eight bits. *)
Definition of_u8 (z : Z) : byte :=
  match Byte.of_N (Z.to_N (z mod 256)) with
  | Some b => b
  | None => x00
  end.

#[global] Instance byte_eq_dec : EqDecision byte := Byte.byte_eq_dec.

Lemma byte_decode_encode (b : byte) :
  (fun p => Byte.of_N (Pos.pred_N p)) (N.succ_pos (Byte.to_N b)) = Some b.
Proof. cbn. rewrite N.pos_pred_succ. apply Byte.of_to_N. Qed.

#[global] Instance byte_countable : Countable byte :=
  {| encode b := N.succ_pos (Byte.to_N b);
     decode p := Byte.of_N (Pos.pred_N p);
     decode_encode := byte_decode_encode |}.

Definition byte_eqb (a b : byte) : bool := u8 a =? u8 b.

Fixpoint bytes_eqb (l k : bytes) : bool :=
  match l, k with
  | [], [] => true
  | a :: l', b :: k' => byte_eqb a b && bytes_eqb l' k'
  | _, _ => false
  end.

Definition CR : byte := x0d.
Definition LF : byte := x0a.
Definition CRLF : bytes := [CR; LF].
Definition SP : byte := x20.
Definition HTAB : byte := x09.

(** [b'lo'..=b'hi'] *)
Definition in_range (lo hi b : byte) : bool := (u8 lo <=? u8 b) && (u8 b <=? u8 hi).

(** ** [u8] and [char] classes *)
Definition is_ascii (b : byte) : bool := u8 b <? 128.
Definition is_ascii_digit (b : byte) : bool := in_range x30 x39 b.
Definition is_ascii_uppercase (b : byte) : bool := in_range x41 x5a b.
Definition is_ascii_lowercase (b : byte) : bool := in_range x61 x7a b.
Definition is_ascii_alphabetic (b : byte) : bool := is_ascii_uppercase b || is_ascii_lowercase b.
Definition is_ascii_alphanumeric (b : byte) : bool := is_ascii_alphabetic b || is_ascii_digit b.
Definition is_ascii_hexdigit (b : byte) : bool :=
  is_ascii_digit b || in_range x61 x66 b || in_range x41 x46 b.
Definition is_ascii_control (b : byte) : bool := (u8 b <? 32) || (u8 b =? 127).
Definition is_ascii_whitespace (b : byte) : bool :=
  byte_eqb b x09 || byte_eqb b x0a || byte_eqb b x0c || byte_eqb b x0d || byte_eqb b x20.

Definition to_ascii_lowercase (b : byte) : byte :=
  if is_ascii_uppercase b then of_u8 (u8 b + 32) else b.

Definition lowercase (l : bytes) : bytes := map to_ascii_lowercase l.

Definition eq_ignore_ascii_case (l k : bytes) : bool := bytes_eqb (lowercase l) (lowercase k).

Definition all (p : byte -> bool) (l : bytes) : bool := forallb p l.

(** ** Searching *)
Fixpoint starts_with (needle hay : bytes) : bool :=
  match needle, hay with
  | [], _ => true
  | _ :: _, [] => false
  | a :: needle', b :: hay' => byte_eqb a b && starts_with needle' hay'
  end.

(** [haystack.windows(needle.len()).position(|window| window == needle)]. *)
Fixpoint windows_position (needle hay : bytes) : option nat :=
  if starts_with needle hay then Some 0%nat
  else match hay with
       | [] => None
       | _ :: hay' => S <$> windows_position needle hay'
       end.

(** [iter().position(p)] *)
Fixpoint position (p : byte -> bool) (l : bytes) : option nat :=
  match l with
  | [] => None
  | b :: l' => if p b then Some 0%nat else S <$> position p l'
  end.

(** [contains(byte)] *)
Definition contains (c : byte) (l : bytes) : bool := existsb (byte_eqb c) l.

(** [slice::split(p)] and [str::split(char)] *)
Fixpoint split_on (p : byte -> bool) (l : bytes) : list bytes :=
  match l with
  | [] => [[]]
  | b :: l' =>
      if p b then [] :: split_on p l'
      else match split_on p l' with
           | [] => [[b]]
           | h :: t => (b :: h) :: t
           end
  end.

(** [str::split_once(pattern)] *)
Fixpoint split_once (needle l : bytes) : option (bytes * bytes) :=
  if starts_with needle l then Some ([], drop (length needle) l)
  else match l with
       | [] => None
       | b :: l' =>
           match split_once needle l' with
           | Some (pre, post) => Some (b :: pre, post)
           | None => None
           end
       end.

(** [str::rsplit_once(char)] *)
Fixpoint rsplit_once (c : byte) (l : bytes) : option (bytes * bytes) :=
  match l with
  | [] => None
  | b :: l' =>
      match rsplit_once c l' with
      | Some (pre, post) => Some (b :: pre, post)
      | None => if byte_eqb b c then Some ([], l') else None
      end
  end.

Definition strip_prefix (c : byte) (l : bytes) : option bytes :=
  match l with
  | b :: l' => if byte_eqb b c then Some l' else None
  | [] => None
  end.

Definition strip_suffix (c : byte) (l : bytes) : option bytes :=
  match list.last l with
  | Some b => if byte_eqb b c then Some (removelast l) else None
  | None => None
  end.

Definition ends_with (needle hay : bytes) : bool := starts_with (rev needle) (rev hay).

Fixpoint drop_while (p : byte -> bool) (l : bytes) : bytes :=
  match l with
  | b :: l' => if p b then drop_while p l' else l
  | [] => []
  end.

(** [trim_end_matches(p)] *)
Definition trim_end_matches (p : byte -> bool) (l : bytes) : bytes := rev (drop_while p (rev l)).

(** [trim_matches(p)] *)
Definition trim_matches (p : byte -> bool) (l : bytes) : bytes :=
  trim_end_matches p (drop_while p l).

(** ** UTF-8: [std::str::from_utf8] accepts exactly these lists *)
Definition utf8_tail (b : byte) : bool := in_range x80 xbf b.

Definition utf8_second3 (a b : byte) : bool :=
  if byte_eqb a xe0 then in_range xa0 xbf b
  else if byte_eqb a xed then in_range x80 x9f b
  else in_range xe1 xef a && utf8_tail b.

Definition utf8_second4 (a b : byte) : bool :=
  if byte_eqb a xf0 then in_range x90 xbf b
  else if byte_eqb a xf4 then in_range x80 x8f b
  else in_range xf1 xf3 a && utf8_tail b.

Fixpoint utf8_valid (l : bytes) : bool :=
  match l with
  | [] => true
  | a :: l1 =>
      if is_ascii a then utf8_valid l1
      else match l1 with
           | [] => false
           | b :: l2 =>
               if in_range xc2 xdf a then utf8_tail b && utf8_valid l2
               else match l2 with
                    | [] => false
                    | c :: l3 =>
                        if in_range xe0 xef a then utf8_second3 a b && utf8_tail c && utf8_valid l3
                        else match l3 with
                             | [] => false
                             | d :: l4 =>
                                 in_range xf0 xf4 a && utf8_second4 a b && utf8_tail c
                                 && utf8_tail d && utf8_valid l4
                             end
                    end
           end
  end.

(** ** [str::trim]: removal of Unicode [White_Space] at both ends *)
Definition ws1 (a : byte) : bool := in_range x09 x0d a || byte_eqb a x20.
Definition ws2 (a b : byte) : bool := byte_eqb a xc2 && (byte_eqb b x85 || byte_eqb b xa0).
Definition ws3 (a b c : byte) : bool :=
  (byte_eqb a xe1 && byte_eqb b x9a && byte_eqb c x80)
  || (byte_eqb a xe2 && byte_eqb b x80
      && (in_range x80 x8a c || byte_eqb c xa8 || byte_eqb c xa9 || byte_eqb c xaf))
  || (byte_eqb a xe2 && byte_eqb b x81 && byte_eqb c x9f)
  || (byte_eqb a xe3 && byte_eqb b x80 && byte_eqb c x80).

Fixpoint trim_start (l : bytes) : bytes :=
  match l with
  | [] => []
  | a :: l1 =>
      if ws1 a then trim_start l1
      else match l1 with
           | [] => l
           | b :: l2 =>
               if ws2 a b then trim_start l2
               else match l2 with
                    | [] => l
                    | c :: l3 => if ws3 a b c then trim_start l3 else l
                    end
           end
  end.

(** The same from the right, on the reversed list. *)
Fixpoint trim_start_rev (l : bytes) : bytes :=
  match l with
  | [] => []
  | a :: l1 =>
      if ws1 a then trim_start_rev l1
      else match l1 with
           | [] => l
           | b :: l2 =>
               if ws2 b a then trim_start_rev l2
               else match l2 with
                    | [] => l
                    | c :: l3 => if ws3 c b a then trim_start_rev l3 else l
                    end
           end
  end.

Definition trim_end (l : bytes) : bytes := rev (trim_start_rev (rev l)).
Definition trim (l : bytes) : bytes := trim_end (trim_start l).

(** ** [str::lines] *)
Definition strip_cr (l : bytes) : bytes :=
  match strip_suffix CR l with
  | Some l' => l'
  | None => l
  end.

Definition lines (l : bytes) : list bytes :=
  let parts := split_on (byte_eqb LF) l in
  map strip_cr (removelast parts)
  ++ match List.last parts [] with
     | [] => []
     | rest => [rest]
     end.

(** ** Integers as text *)
Definition to_digit (radix : Z) (b : byte) : option Z :=
  let d :=
    if is_ascii_digit b then Some (u8 b - 48)
    else if is_ascii_lowercase b then Some (u8 b - 97 + 10)
    else if is_ascii_uppercase b then Some (u8 b - 65 + 10)
    else None in
  match d with
  | Some v => if v <? radix then Some v else None
  | None => None
  end.

Fixpoint parse_digits (radix bound acc : Z) (l : bytes) : option Z :=
  match l with
  | [] => Some acc
  | b :: l' =>
      match to_digit radix b with
      | None => None
      | Some d =>
          match checked_mul bound acc radix with
          | None => None
          | Some m =>
              match checked_add bound m d with
              | None => None
              | Some acc' => parse_digits radix bound acc' l'
              end
          end
      end
  end.

(** [from_str_radix] of an unsigned type whose largest value is [bound]. *)
Definition from_str_radix (radix bound : Z) (l : bytes) : option Z :=
  match l with
  | [] => None
  | b :: l' =>
      if byte_eqb b x2b
      then match l' with
           | [] => None
           | _ => parse_digits radix bound 0 l'
           end
      else parse_digits radix bound 0 l
  end.

(** [str::parse] of an unsigned integer type. *)
Definition parse_uint (bound : Z) (l : bytes) : option Z := from_str_radix 10 bound l.

(** The digit of value [d], as [{:x}] and [{}] print it. *)
Definition digit_char (d : Z) : byte := if d <? 10 then of_u8 (48 + d) else of_u8 (87 + d).

Fixpoint radix_digits (fuel : nat) (radix n : Z) (acc : bytes) : bytes :=
  match fuel with
  | O => acc
  | S fuel' =>
      let acc' := digit_char (n mod radix) :: acc in
      if n <? radix then acc' else radix_digits fuel' radix (n / radix) acc'
  end.

(** [Display] ([radix = 10]) and [LowerHex] ([radix = 16]) of an unsigned integer. *)
Definition to_radix (radix n : Z) : bytes := radix_digits (S (Z.to_nat (Z.log2 n))) radix n [].
Definition to_dec (n : Z) : bytes := to_radix 10 n.
Definition to_hex (n : Z) : bytes := to_radix 16 n.

(** ** Bytes *)
Lemma u8_range (b : byte) : 0 <= u8 b < 256.
Proof. unfold u8. pose proof (Byte.to_N_bounded b). lia. Qed.

Lemma u8_inj (a b : byte) : u8 a = u8 b -> a = b.
Proof.
  unfold u8. intros H%N2Z.inj.
  pose proof (Byte.of_to_N a) as Ha. pose proof (Byte.of_to_N b) as Hb. congruence.
Qed.

Lemma u8_of_u8 (z : Z) : 0 <= z < 256 -> u8 (of_u8 z) = z.
Proof.
  intros Hz. unfold of_u8. rewrite Z.mod_small by lia.
  destruct (Byte.of_N (Z.to_N z)) as [b|] eqn:E.
  - unfold u8. apply Byte.to_of_N in E. rewrite E. lia.
  - apply Byte.of_N_None_iff in E. lia.
Qed.

Lemma of_u8_u8 (b : byte) : of_u8 (u8 b) = b.
Proof. apply u8_inj, u8_of_u8, u8_range. Qed.

Lemma byte_eqb_eq (a b : byte) : byte_eqb a b = true <-> a = b.
Proof. unfold byte_eqb. rewrite Z.eqb_eq. split; [apply u8_inj|by intros ->]. Qed.

Lemma byte_eqb_refl (a : byte) : byte_eqb a a = true.
Proof. by apply byte_eqb_eq. Qed.

Lemma byte_eqb_neq (a b : byte) : byte_eqb a b = false <-> a <> b.
Proof. rewrite <- byte_eqb_eq. by destruct (byte_eqb a b). Qed.

Lemma bytes_eqb_eq (l k : bytes) : bytes_eqb l k = true <-> l = k.
Proof.
  revert k. induction l as [|a l IH]; intros [|b k]; simpl; try done.
  rewrite andb_true_iff, byte_eqb_eq, IH. split; [by intros [-> ->]|by intros [= -> ->]].
Qed.

Lemma bytes_eqb_refl (l : bytes) : bytes_eqb l l = true.
Proof. by apply bytes_eqb_eq. Qed.

(** A property of all bytes, checked on each of the 256. *)
Ltac byte_cases b :=
  destruct b; vm_compute; intros; try discriminate; repeat split; try reflexivity; try congruence; auto.

Lemma to_ascii_lowercase_idem (b : byte) : to_ascii_lowercase (to_ascii_lowercase b) = to_ascii_lowercase b.
Proof. byte_cases b. Qed.

Lemma lowercase_idem (l : bytes) : lowercase (lowercase l) = lowercase l.
Proof.
  unfold lowercase. rewrite map_map. apply map_ext. apply to_ascii_lowercase_idem.
Qed.

Lemma lowercase_app (l k : bytes) : lowercase (l ++ k) = lowercase l ++ lowercase k.
Proof. apply map_app. Qed.

Lemma length_lowercase (l : bytes) : length (lowercase l) = length l.
Proof. apply length_map. Qed.

(** ASCII case-insensitive equality is equality of the lowercased strings. *)
Lemma eq_ignore_ascii_case_true (l k : bytes) :
  eq_ignore_ascii_case l k = true <-> lowercase l = lowercase k.
Proof. apply bytes_eqb_eq. Qed.

Lemma eq_ignore_ascii_case_refl (l : bytes) : eq_ignore_ascii_case l l = true.
Proof. apply bytes_eqb_refl. Qed.

Lemma eq_ignore_ascii_case_sym (l k : bytes) : eq_ignore_ascii_case l k = eq_ignore_ascii_case k l.
Proof. apply eq_true_iff_eq. rewrite !eq_ignore_ascii_case_true. naive_solver. Qed.

Lemma eq_ignore_ascii_case_congr (l l' k : bytes) :
  eq_ignore_ascii_case l l' = true -> eq_ignore_ascii_case l k = eq_ignore_ascii_case l' k.
Proof. rewrite eq_ignore_ascii_case_true. unfold eq_ignore_ascii_case. by intros ->. Qed.

Lemma eq_ignore_ascii_case_trans (l k m : bytes) :
  eq_ignore_ascii_case l k = true -> eq_ignore_ascii_case k m = true -> eq_ignore_ascii_case l m = true.
Proof. rewrite !eq_ignore_ascii_case_true. congruence. Qed.

Lemma all_Forall (p : byte -> bool) (l : bytes) : all p l = true <-> Forall (fun b => p b = true) l.
Proof. unfold all. rewrite forallb_forall, List.Forall_forall. done. Qed.

Lemma all_app (p : byte -> bool) (l k : bytes) : all p (l ++ k) = all p l && all p k.
Proof. apply forallb_app. Qed.

Lemma all_elem (p : byte -> bool) (l : bytes) (b : byte) : all p l = true -> b ∈ l -> p b = true.
Proof. rewrite all_Forall, Forall_forall. intros H Hb. by apply H. Qed.

Lemma all_not_elem (p : byte -> bool) (l : bytes) (b : byte) : all p l = true -> p b = false -> b ∉ l.
Proof. intros Hl Hb Hin. pose proof (all_elem _ _ _ Hl Hin). congruence. Qed.

Lemma all_impl (p q : byte -> bool) (l : bytes) :
  (forall b, p b = true -> q b = true) -> all p l = true -> all q l = true.
Proof. rewrite !all_Forall. intros. eapply Forall_impl; eauto. Qed.

Lemma contains_elem (c : byte) (l : bytes) : contains c l = true <-> c ∈ l.
Proof.
  unfold contains. rewrite existsb_exists. setoid_rewrite <- list_elem_of_In.
  setoid_rewrite byte_eqb_eq. naive_solver.
Qed.

Lemma contains_false (c : byte) (l : bytes) : contains c l = false <-> c ∉ l.
Proof. rewrite <- contains_elem. by destruct (contains c l). Qed.

(** ** Searching *)
Lemma starts_with_true (needle hay : bytes) :
  starts_with needle hay = true <-> exists rest, hay = needle ++ rest.
Proof.
  revert hay. induction needle as [|a n IH]; intros hay; simpl; [naive_solver|].
  destruct hay as [|b hay]; [naive_solver|].
  rewrite andb_true_iff, byte_eqb_eq, IH. naive_solver.
Qed.

Lemma starts_with_app (needle rest : bytes) : starts_with needle (needle ++ rest) = true.
Proof. apply starts_with_true. eauto. Qed.

Lemma starts_with_head_ne (a b : byte) (n l : bytes) : a <> b -> starts_with (a :: n) (b :: l) = false.
Proof. intros. simpl. by rewrite (proj2 (byte_eqb_neq a b)). Qed.

(** [i] is where [needle] occurs. *)
Lemma windows_position_Some (needle hay : bytes) (i : nat) :
  windows_position needle hay = Some i -> exists pre post, hay = pre ++ needle ++ post /\ length pre = i.
Proof.
  revert i. induction hay as [|b hay IH]; intros i; cbn [windows_position]; case_match eqn:E; intros Hi; simplify_eq.
  - apply starts_with_true in E as [post Hp]. by exists [], post.
  - apply starts_with_true in E as [post Hp]. by exists [], post.
  - apply fmap_Some in Hi as (j & Hj & ->). destruct (IH j Hj) as (pre & post & -> & <-).
    by exists (b :: pre), post.
Qed.

(** No occurrence before the first. *)
Lemma windows_position_first (needle pre post : bytes) (i : nat) :
  windows_position needle (pre ++ needle ++ post) = Some i -> (i <= length pre)%nat.
Proof.
  revert i. induction pre as [|b pre IH]; intros i; simpl.
  - intros H. destruct (needle ++ post) as [|c l] eqn:E.
    + apply app_nil in E as [-> ->]. simpl in H. simplify_eq. lia.
    + cbn [windows_position] in H. rewrite <- E, starts_with_app in H. simplify_eq. lia.
  - case_match; intros Hi; simplify_eq; [lia|].
    apply fmap_Some in Hi as (j & Hj & ->). apply IH in Hj. lia.
Qed.

Lemma windows_position_None (needle pre post : bytes) :
  windows_position needle (pre ++ needle ++ post) <> None.
Proof.
  induction pre as [|b pre IH]; simpl.
  - destruct (needle ++ post) as [|c l] eqn:E.
    + apply app_nil in E as [-> ->]. done.
    + cbn [windows_position]. rewrite <- E, starts_with_app. done.
  - case_match; [done|]. by rewrite fmap_None.
Qed.

(** A prefix that misses the first byte of the needle is skipped. *)
Lemma windows_position_skip (c : byte) (n pre post : bytes) :
  c ∉ pre -> windows_position (c :: n) (pre ++ post) = Nat.add (length pre) <$> windows_position (c :: n) post.
Proof.
  induction pre as [|b pre IH]; cbn [app length]; intros Hn.
  - by destruct (windows_position (c :: n) post).
  - rewrite not_elem_of_cons in Hn. destruct Hn as [Hne Hn].
    cbn [windows_position]. rewrite starts_with_head_ne by done. rewrite IH by done.
    by destruct (windows_position (c :: n) post).
Qed.

Lemma windows_position_here (needle post : bytes) : windows_position needle (needle ++ post) = Some 0%nat.
Proof.
  destruct (needle ++ post) as [|b l] eqn:E.
  - apply app_nil in E as [-> ->]. done.
  - cbn [windows_position]. by rewrite <- E, starts_with_app.
Qed.

Lemma windows_position_absent (c : byte) (n hay : bytes) : c ∉ hay -> windows_position (c :: n) hay = None.
Proof.
  intros Hc. rewrite <- (app_nil_r hay). rewrite windows_position_skip by done. done.
Qed.

Lemma windows_position_CRLF (l rest : bytes) :
  CR ∉ l -> windows_position CRLF (l ++ CRLF ++ rest) = Some (length l).
Proof.
  intros Hl. change CRLF with ([CR; LF]) at 1. rewrite windows_position_skip by done.
  rewrite windows_position_here. simpl. f_equal. lia.
Qed.

(** A line in front of a text that does not start with CR does not hold CRLF CRLF. *)
Lemma windows_position_CRLF2_skip (l rest : bytes) (b : byte) :
  CR ∉ l -> b <> CR ->
  windows_position (CRLF ++ CRLF) (l ++ CRLF ++ b :: rest) =
    Nat.add (length l + 2) <$> windows_position (CRLF ++ CRLF) (b :: rest).
Proof.
  intros Hl Hb. change (CRLF ++ CRLF) with (CR :: [LF; CR; LF]) at 1.
  rewrite windows_position_skip by done.
  cbn [CRLF app windows_position starts_with].
  rewrite (proj2 (byte_eqb_neq CR b)) by done. cbn.
  change (CR :: LF :: CRLF) with ([CR; LF; CR; LF]).
  destruct (windows_position _ rest); cbn; [f_equal; lia|done].
Qed.

Lemma windows_position_CRLF2_here (l rest : bytes) :
  CR ∉ l -> windows_position (CRLF ++ CRLF) (l ++ CRLF ++ CRLF ++ rest) = Some (length l).
Proof.
  intros Hl. change (CRLF ++ CRLF) with (CR :: [LF; CR; LF]) at 1.
  rewrite windows_position_skip by done. change (CR :: [LF; CR; LF]) with (CRLF ++ CRLF).
  rewrite app_assoc, windows_position_here. simpl. f_equal. lia.
Qed.

Lemma windows_position_app_l (needle hay rest : bytes) (i : nat) :
  windows_position needle hay = Some i -> windows_position needle (hay ++ rest) = Some i.
Proof.
  revert i. induction hay as [|b hay IH]; intros i; cbn [windows_position].
  - destruct needle; simpl; [|done]. intros. simplify_eq. by destruct rest.
  - case_match eqn:E; intros H; simplify_eq.
    + apply starts_with_true in E as [r Hr]. cbn [app windows_position].
      change (b :: hay ++ rest) with ((b :: hay) ++ rest).
      by rewrite Hr, <- app_assoc, starts_with_app.
    + apply fmap_Some in H as (j & Hj & ->). cbn [app windows_position].
      rewrite (IH _ Hj). case_match eqn:E2; [|done].
      apply windows_position_Some in Hj as (pre & post & Hp & Hle).
      apply starts_with_true in E2 as [r Hr].
      assert (starts_with needle (b :: hay) = true); [|congruence].
      apply starts_with_true. exists (drop (length needle) (b :: hay)).
      rewrite <- (take_drop (length needle) (b :: hay)) at 1. f_equal.
      apply (f_equal (take (length needle))) in Hr.
      rewrite take_app_length in Hr. rewrite <- Hr at 2.
      change (b :: hay ++ rest) with ((b :: hay) ++ rest).
      rewrite take_app_le; [done|]. rewrite Hp. simpl. rewrite !length_app. lia.
Qed.

Lemma position_Some (p : byte -> bool) (l : bytes) (i : nat) :
  position p l = Some i <->
  exists pre b post, l = pre ++ b :: post /\ length pre = i /\ p b = true /\ Forall (fun c => p c = false) pre.
Proof.
  revert i. induction l as [|a l IH]; intros i; simpl.
  - split; [done|]. by intros ([|] & ? & ? & ? & _).
  - destruct (p a) eqn:Ha.
    + split.
      * intros. simplify_eq. exists [], a, l. auto.
      * intros ([|c pre] & b & post & Hl & Hlen & Hb & Hpre); simplify_eq/=; [done|].
        inversion Hpre; congruence.
    + rewrite fmap_Some. setoid_rewrite IH. split.
      * intros (j & (pre & b & post & -> & <- & Hb & Hpre) & ->).
        exists (a :: pre), b, post. simpl. auto.
      * intros ([|c pre] & b & post & Hl & Hlen & Hb & Hpre); simplify_eq/=; [congruence|].
        inversion Hpre; subst. eexists; split; [|done]. eauto 8.
Qed.

Lemma position_lt (p : byte -> bool) (l : bytes) (i : nat) : position p l = Some i -> (i < length l)%nat.
Proof.
  intros (pre & b & post & -> & <- & _)%position_Some. rewrite length_app. simpl. lia.
Qed.

Lemma position_None (p : byte -> bool) (l : bytes) :
  position p l = None <-> Forall (fun c => p c = false) l.
Proof.
  induction l as [|a l IH]; simpl; [done|].
  destruct (p a) eqn:Ha.
  - split; [done|]. inversion 1. congruence.
  - rewrite fmap_None, IH. split; [by constructor|by inversion 1].
Qed.

(** Splitting at the byte [c] when what comes before does not hold it. *)
Lemma position_byte (c : byte) (pre post : bytes) :
  c ∉ pre -> position (byte_eqb c) (pre ++ c :: post) = Some (length pre).
Proof.
  intros Hn. apply position_Some. exists pre, c, post. split_and!; try done.
  - apply byte_eqb_refl.
  - apply Forall_forall. intros b Hb. apply byte_eqb_neq. by intros <-.
Qed.

Lemma position_byte_Some (c : byte) (l : bytes) (i : nat) :
  position (byte_eqb c) l = Some i <->
  exists pre post, l = pre ++ c :: post /\ length pre = i /\ c ∉ pre.
Proof.
  split.
  - intros (pre & b & post & -> & <- & Hb & Hpre)%position_Some.
    apply byte_eqb_eq in Hb as <-. exists pre, post. split_and!; try done.
    intros Hin. rewrite Forall_forall in Hpre. specialize (Hpre _ Hin).
    by rewrite byte_eqb_refl in Hpre.
  - intros (pre & post & -> & <- & Hn). by apply position_byte.
Qed.

(** ** Splitting *)
Lemma split_on_ne (p : byte -> bool) (l : bytes) : split_on p l <> [].
Proof. destruct l; simpl; repeat case_match; done. Qed.

Lemma split_on_cons_sep (p : byte -> bool) (b : byte) (l : bytes) :
  p b = true -> split_on p (b :: l) = [] :: split_on p l.
Proof. simpl. by intros ->. Qed.

Lemma split_on_app_sep (p : byte -> bool) (pre l : bytes) (b : byte) :
  p b = true -> Forall (fun c => p c = false) pre -> split_on p (pre ++ b :: l) = pre :: split_on p l.
Proof.
  intros Hb. induction 1 as [|c pre Hc Hpre IH]; cbn [app].
  - by apply split_on_cons_sep.
  - cbn [split_on]. by rewrite Hc, IH.
Qed.

Lemma split_on_none (p : byte -> bool) (l : bytes) :
  Forall (fun c => p c = false) l -> split_on p l = [l].
Proof. induction 1 as [|c l Hc Hl IH]; simpl; [done|]. by rewrite Hc, IH. Qed.

Lemma split_on_elem (p : byte -> bool) (l k : bytes) :
  k ∈ split_on p l -> Forall (fun c => p c = false) k /\ (forall c, c ∈ k -> c ∈ l).
Proof.
  revert k. induction l as [|b l IH]; intros k; simpl.
  - rewrite list_elem_of_singleton. intros ->. split; [constructor|]. inversion 1.
  - destruct (p b) eqn:Hb.
    + rewrite elem_of_cons. intros [->|Hk].
      * split; [constructor|]. inversion 1.
      * destruct (IH k Hk). split; [done|]. intros. apply elem_of_cons. auto.
    + destruct (split_on p l) as [|h t] eqn:E; [by apply split_on_ne in E|].
      rewrite elem_of_cons. intros [->|Hk].
      * destruct (IH h) as [H1 H2]; [by left|]. split; [by constructor|].
        intros c. rewrite !elem_of_cons. naive_solver.
      * destruct (IH k) as [H1 H2]; [by right|]. split; [done|]. intros. apply elem_of_cons. auto.
Qed.

(** The pieces, put together again with the separator between them. *)
Fixpoint join (sep : bytes) (parts : list bytes) : bytes :=
  match parts with
  | [] => []
  | [p] => p
  | p :: rest => p ++ sep ++ join sep rest
  end.

Lemma join_cons (sep p : bytes) (rest : list bytes) :
  rest <> [] -> join sep (p :: rest) = p ++ sep ++ join sep rest.
Proof. by destruct rest. Qed.

Lemma join_split_on (c : byte) (l : bytes) : join [c] (split_on (byte_eqb c) l) = l.
Proof.
  induction l as [|b l IH]; [done|]. simpl.
  destruct (byte_eqb c b) eqn:Hb.
  - apply byte_eqb_eq in Hb as <-. rewrite join_cons by apply split_on_ne. by rewrite IH.
  - destruct (split_on (byte_eqb c) l) as [|h t] eqn:E; [by apply split_on_ne in E|].
    destruct t as [|h' t]; simpl in *; [congruence|]. by rewrite <- IH.
Qed.

Lemma split_on_join (c : byte) (parts : list bytes) :
  parts <> [] -> Forall (fun p => c ∉ p) parts -> split_on (byte_eqb c) (join [c] parts) = parts.
Proof.
  assert (Hp : forall p, c ∉ p -> Forall (fun b => byte_eqb c b = false) p).
  { intros p Hn. apply Forall_forall. intros b Hb. apply byte_eqb_neq. by intros <-. }
  induction parts as [|p rest IH]; [done|]. intros _ Hf. inversion Hf as [|? ? Hn Hrest]; subst.
  destruct (decide (rest = [])) as [->|Hne].
  - apply split_on_none, Hp, Hn.
  - rewrite join_cons by done. cbn [app].
    rewrite split_on_app_sep; [|apply byte_eqb_refl|by apply Hp]. f_equal. auto.
Qed.

Lemma rsplit_once_absent (c : byte) (l : bytes) : c ∉ l -> rsplit_once c l = None.
Proof.
  induction l as [|b l IH]; simpl; intros Hn; [done|].
  apply not_elem_of_cons in Hn as [Hne Hn]. rewrite IH by done.
  by rewrite (proj2 (byte_eqb_neq b c)).
Qed.

Lemma rsplit_once_app (c : byte) (pre post : bytes) :
  c ∉ post -> rsplit_once c (pre ++ c :: post) = Some (pre, post).
Proof.
  intros Hn. induction pre as [|b pre IH]; simpl.
  - by rewrite rsplit_once_absent, byte_eqb_refl.
  - by rewrite IH.
Qed.

Lemma rsplit_once_None (c : byte) (l : bytes) : rsplit_once c l = None <-> c ∉ l.
Proof.
  split; [|apply rsplit_once_absent].
  intros H Hin. apply list_elem_of_split_r in Hin as (pre & post & -> & Hn).
  by rewrite rsplit_once_app in H.
Qed.

Lemma rsplit_once_Some (c : byte) (l pre post : bytes) :
  rsplit_once c l = Some (pre, post) <-> l = pre ++ c :: post /\ c ∉ post.
Proof.
  split; [|by intros [-> Hn]; apply rsplit_once_app].
  intros H. destruct (decide (c ∈ l)) as [Hin|Hn].
  - apply list_elem_of_split_r in Hin as (pre' & post' & -> & Hn).
    rewrite rsplit_once_app in H by done. by simplify_eq.
  - by rewrite rsplit_once_absent in H.
Qed.

Lemma strip_prefix_Some (c : byte) (l rest : bytes) : strip_prefix c l = Some rest <-> l = c :: rest.
Proof.
  destruct l as [|b l]; simpl; [done|]. destruct (byte_eqb b c) eqn:Hb.
  - apply byte_eqb_eq in Hb as ->. naive_solver.
  - split; [done|]. intros [= -> ->]. by rewrite byte_eqb_refl in Hb.
Qed.

Lemma strip_suffix_snoc (c b : byte) (l : bytes) :
  strip_suffix c (l ++ [b]) = if byte_eqb b c then Some l else None.
Proof. unfold strip_suffix. rewrite last_snoc, removelast_last. done. Qed.

Lemma strip_suffix_Some (c : byte) (l rest : bytes) : strip_suffix c l = Some rest <-> l = rest ++ [c].
Proof.
  destruct l as [|b l _] using rev_ind.
  - unfold strip_suffix. simpl. split; [done|]. by destruct rest.
  - rewrite strip_suffix_snoc. destruct (byte_eqb b c) eqn:Hb.
    + apply byte_eqb_eq in Hb as ->. split; [by intros [= ->]|]. by intros [-> _]%app_inj_tail.
    + split; [done|]. intros [_ ->]%app_inj_tail. by rewrite byte_eqb_refl in Hb.
Qed.

Lemma ends_with_app (needle l : bytes) : ends_with needle (l ++ needle) = true.
Proof. unfold ends_with. rewrite rev_app_distr. apply starts_with_app. Qed.

Lemma ends_with_true (needle l : bytes) : ends_with needle l = true <-> exists pre, l = pre ++ needle.
Proof.
  unfold ends_with. rewrite starts_with_true. split.
  - intros [rest H]. exists (rev rest). apply (f_equal (@rev byte)) in H.
    by rewrite rev_involutive, rev_app_distr, rev_involutive in H.
  - intros [pre ->]. exists (rev pre). apply rev_app_distr.
Qed.

(** ** Trimming *)
Lemma drop_while_spec (p : byte -> bool) (l : bytes) :
  exists pre, l = pre ++ drop_while p l /\ Forall (fun b => p b = true) pre.
Proof.
  induction l as [|b l [pre [Hl Hp]]]; simpl.
  - by exists [].
  - destruct (p b) eqn:Hb.
    + exists (b :: pre). split; [simpl; congruence|by constructor].
    + by exists [].
Qed.

Lemma drop_while_head (p : byte -> bool) (l rest : bytes) (b : byte) :
  drop_while p l = b :: rest -> p b = false.
Proof. induction l as [|c l IH]; simpl; [done|]. case_match; naive_solver. Qed.

Lemma drop_while_app (p : byte -> bool) (pre l : bytes) :
  Forall (fun b => p b = true) pre -> drop_while p (pre ++ l) = drop_while p l.
Proof. induction 1 as [|b pre Hb Hpre IH]; simpl; [done|]. by rewrite Hb. Qed.

Lemma drop_while_stop (p : byte -> bool) (b : byte) (l : bytes) :
  p b = false -> drop_while p (b :: l) = b :: l.
Proof. simpl. by intros ->. Qed.

Lemma drop_while_none (p : byte -> bool) (l : bytes) :
  Forall (fun b => p b = false) l -> drop_while p l = l.
Proof. destruct 1 as [|b l Hb Hl]; simpl; [done|]. by rewrite Hb. Qed.

Lemma trim_end_matches_spec (p : byte -> bool) (l : bytes) :
  exists post, l = trim_end_matches p l ++ post /\ Forall (fun b => p b = true) post.
Proof.
  unfold trim_end_matches. destruct (drop_while_spec p (rev l)) as (pre & Hl & Hp).
  exists (rev pre). split; [|by apply Forall_rev].
  apply (f_equal (@rev byte)) in Hl. rewrite rev_involutive in Hl.
  rewrite Hl at 1. by rewrite rev_app_distr.
Qed.

Lemma trim_end_matches_last (p : byte -> bool) (l rest : bytes) (b : byte) :
  trim_end_matches p l = rest ++ [b] -> p b = false.
Proof.
  unfold trim_end_matches. intros H. apply (f_equal (@rev byte)) in H.
  rewrite rev_involutive, rev_app_distr in H. exact (drop_while_head _ _ _ _ H).
Qed.

Lemma trim_end_matches_snoc (p : byte -> bool) (b : byte) (l post : bytes) :
  p b = false -> Forall (fun c => p c = true) post -> trim_end_matches p ((l ++ [b]) ++ post) = l ++ [b].
Proof.
  intros Hb Hp. unfold trim_end_matches.
  rewrite rev_app_distr, drop_while_app by (by apply Forall_rev).
  rewrite rev_app_distr. cbn [rev app]. rewrite drop_while_stop by done.
  cbn [rev]. by rewrite rev_involutive.
Qed.

Lemma trim_end_matches_all (p : byte -> bool) (l : bytes) :
  Forall (fun b => p b = true) l -> trim_end_matches p l = [].
Proof.
  intros Hl. unfold trim_end_matches. rewrite <- (app_nil_r (rev l)), drop_while_app; [done|].
  by apply Forall_rev.
Qed.

(** A text is trimmed when neither end is a byte to remove. *)
Definition trimmed (p : byte -> bool) (l : bytes) : Prop :=
  match l with
  | [] => True
  | b :: _ => p b = false
  end /\
  match list.last l with
  | Some b => p b = false
  | None => True
  end.

Lemma trimmed_nil (p : byte -> bool) : trimmed p [].
Proof. done. Qed.

Lemma trim_matches_trimmed (p : byte -> bool) (l : bytes) : trimmed p (trim_matches p l).
Proof.
  unfold trim_matches. set (k := drop_while p l).
  destruct (trim_end_matches_spec p k) as (post & Hk & Hpost). split.
  - destruct (trim_end_matches p k) as [|b m] eqn:E; [done|].
    apply (drop_while_head p l (m ++ post)). fold k. by rewrite Hk.
  - destruct (list.last (trim_end_matches p k)) as [b|] eqn:E; [|done].
    apply last_Some in E as [rest E]. by eapply trim_end_matches_last.
Qed.

Lemma trim_matches_sound (p : byte -> bool) (l : bytes) :
  exists pre post, l = pre ++ trim_matches p l ++ post /\
    Forall (fun b => p b = true) pre /\ Forall (fun b => p b = true) post.
Proof.
  unfold trim_matches. destruct (drop_while_spec p l) as (pre & Hl & Hpre).
  destruct (trim_end_matches_spec p (drop_while p l)) as (post & Hk & Hpost).
  exists pre, post. split_and!; try done. by rewrite <- Hk.
Qed.

(** Trimming gives back the one trimmed text between removable ends. *)
Lemma trim_matches_eq (p : byte -> bool) (pre l post : bytes) :
  Forall (fun b => p b = true) pre -> Forall (fun b => p b = true) post -> trimmed p l ->
  trim_matches p (pre ++ l ++ post) = l.
Proof.
  intros Hpre Hpost [Hh Ht]. unfold trim_matches. rewrite drop_while_app by done.
  destruct l as [|b l].
  - cbn [app]. destruct (drop_while_spec p post) as (q & Hq & _).
    apply trim_end_matches_all. rewrite Hq in Hpost. by apply Forall_app in Hpost as [_ ?].
  - cbn [app]. rewrite drop_while_stop by done.
    destruct (list.last (b :: l)) as [c|] eqn:E; [|by apply last_None in E].
    apply last_Some in E as [rest E].
    change (b :: l ++ post) with ((b :: l) ++ post). rewrite E. by apply trim_end_matches_snoc.
Qed.

Lemma trim_matches_id (p : byte -> bool) (l : bytes) : trimmed p l -> trim_matches p l = l.
Proof.
  intros Hl. pose proof (trim_matches_eq p [] l []) as H. rewrite app_nil_r in H.
  by apply H.
Qed.

Lemma Forall_trimmed (p : byte -> bool) (l : bytes) : Forall (fun b => p b = false) l -> trimmed p l.
Proof.
  intros Hl. split.
  - by destruct Hl.
  - destruct (list.last l) as [b|] eqn:E; [|done]. apply last_Some in E as [k ->].
    apply Forall_app in Hl as [_ Hl]. by inversion Hl.
Qed.

(** [str::trim] leaves a text of ASCII bytes that are no white space as it is. *)
Definition plain (b : byte) : bool := is_ascii b && negb (ws1 b).

Lemma plain_ws1 (a : byte) : plain a = true -> ws1 a = false.
Proof. byte_cases a. Qed.

Lemma plain_ws2 (a b : byte) : plain a = true \/ plain b = true -> ws2 a b = false.
Proof.
  intros [H|H]; unfold ws2.
  - replace (byte_eqb a xc2) with false; [done|]. revert H. byte_cases a.
  - replace (byte_eqb b x85 || byte_eqb b xa0) with false; [by rewrite andb_false_r|].
    revert H. byte_cases b.
Qed.

Lemma plain_ws3 (a b c : byte) : plain a = true \/ plain c = true -> ws3 a b c = false.
Proof.
  assert (Ha : plain a = true -> byte_eqb a xe1 = false /\ byte_eqb a xe2 = false /\ byte_eqb a xe3 = false)
    by (byte_cases a).
  assert (Hc : plain c = true -> byte_eqb c x80 = false /\ in_range x80 x8a c = false /\ byte_eqb c xa8 = false
    /\ byte_eqb c xa9 = false /\ byte_eqb c xaf = false /\ byte_eqb c x9f = false)
    by (byte_cases c).
  intros [(H1 & H2 & H3)%Ha|(H1 & H2 & H3 & H4 & H5 & H6)%Hc]; unfold ws3.
  - by rewrite H1, H2, H3.
  - by rewrite H1, H2, H3, H4, H5, H6, !andb_false_r.
Qed.

Lemma trim_start_plain (b : byte) (l : bytes) : plain b = true -> trim_start (b :: l) = b :: l.
Proof.
  intros Hb. simpl. rewrite plain_ws1 by done.
  destruct l as [|c l]; [done|]. rewrite plain_ws2 by auto.
  destruct l as [|d l]; [done|]. by rewrite plain_ws3 by auto.
Qed.

Lemma trim_start_rev_plain (b : byte) (l : bytes) : plain b = true -> trim_start_rev (b :: l) = b :: l.
Proof.
  intros Hb. simpl. rewrite plain_ws1 by done.
  destruct l as [|c l]; [done|]. rewrite plain_ws2 by auto.
  destruct l as [|d l]; [done|]. by rewrite plain_ws3 by auto.
Qed.

Lemma trim_plain (l : bytes) :
  match l with [] => True | b :: _ => plain b = true end ->
  match list.last l with Some b => plain b = true | None => True end ->
  trim l = l.
Proof.
  intros Hh Ht. unfold trim. destruct l as [|b l]; [done|].
  rewrite trim_start_plain by done. unfold trim_end.
  destruct (list.last (b :: l)) as [c|] eqn:E; [|by apply last_None in E].
  apply last_Some in E as [rest ->]. rewrite rev_app_distr. cbn [rev app].
  rewrite trim_start_rev_plain by done. cbn [rev]. by rewrite rev_involutive.
Qed.

Lemma trim_all_plain (l : bytes) : all plain l = true -> trim l = l.
Proof.
  rewrite all_Forall. intros Hl. apply trim_plain.
  - by destruct Hl.
  - destruct (list.last l) as [b|] eqn:E; [|done]. apply last_Some in E as [k ->].
    apply Forall_app in Hl as [_ Hl]. by inversion Hl.
Qed.

Lemma trim_start_cons (a : byte) (l1 : bytes) :
  trim_start (a :: l1) =
  if ws1 a then trim_start l1
  else match l1 with
       | [] => [a]
       | b :: l2 =>
           if ws2 a b then trim_start l2
           else match l2 with
                | [] => a :: l1
                | c :: l3 => if ws3 a b c then trim_start l3 else a :: l1
                end
       end.
Proof. simpl. repeat case_match; done. Qed.

Lemma trim_start_rev_cons (a : byte) (l1 : bytes) :
  trim_start_rev (a :: l1) =
  if ws1 a then trim_start_rev l1
  else match l1 with
       | [] => [a]
       | b :: l2 =>
           if ws2 b a then trim_start_rev l2
           else match l2 with
                | [] => a :: l1
                | c :: l3 => if ws3 c b a then trim_start_rev l3 else a :: l1
                end
       end.
Proof. simpl. repeat case_match; done. Qed.

(** [trim] only removes bytes. *)
Lemma trim_start_subset (n : nat) (l : bytes) (x : byte) :
  (length l <= n)%nat -> x ∈ trim_start l -> x ∈ l.
Proof.
  revert l. induction n as [|n IH]; intros [|a l1] Hn; simpl in Hn; try lia; try done.
  rewrite trim_start_cons. repeat case_match; subst; simpl in Hn; try done.
  all: intros Hin%IH; [rewrite !elem_of_cons; tauto|lia].
Qed.

Lemma trim_start_rev_subset (n : nat) (l : bytes) (x : byte) :
  (length l <= n)%nat -> x ∈ trim_start_rev l -> x ∈ l.
Proof.
  revert l. induction n as [|n IH]; intros [|a l1] Hn; simpl in Hn; try lia; try done.
  rewrite trim_start_rev_cons. repeat case_match; subst; simpl in Hn; try done.
  all: intros Hin%IH; [rewrite !elem_of_cons; tauto|lia].
Qed.

Lemma trim_subset (l : bytes) (x : byte) : x ∈ trim l -> x ∈ l.
Proof.
  unfold trim, trim_end. rewrite list_elem_of_In, <- in_rev, <- list_elem_of_In.
  intros Hin%(trim_start_rev_subset _ _ _ (le_n _)).
  rewrite list_elem_of_In, <- in_rev, <- list_elem_of_In in Hin.
  by eapply trim_start_subset; [apply le_n|].
Qed.

(** ** UTF-8 *)
Lemma utf8_valid_ascii (l : bytes) : all is_ascii l = true -> utf8_valid l = true.
Proof.
  rewrite all_Forall. induction 1 as [|b l Hb Hl IH]; [done|]. cbn [utf8_valid]. by rewrite Hb.
Qed.

(** ** Integers as text *)

(** The value of a digit string, without a bound. *)
Fixpoint digits_value (radix acc : Z) (l : bytes) : option Z :=
  match l with
  | [] => Some acc
  | b :: l' =>
      match to_digit radix b with
      | None => None
      | Some d => digits_value radix (acc * radix + d) l'
      end
  end.

Lemma to_digit_range (radix : Z) (b : byte) (d : Z) : to_digit radix b = Some d -> 0 <= d < radix.
Proof.
  unfold to_digit. repeat case_match; intros; simplify_eq.
  all: unfold is_ascii_digit, is_ascii_lowercase, is_ascii_uppercase, in_range in *.
  all: rewrite ?andb_true_iff, ?Z.leb_le, ?Z.ltb_lt in *.
  all: change (u8 x30) with 48 in *; change (u8 x61) with 97 in *; change (u8 x41) with 65 in *; lia.
Qed.

Lemma digits_value_ge (radix acc v : Z) (l : bytes) :
  1 <= radix -> 0 <= acc -> digits_value radix acc l = Some v -> acc <= v.
Proof.
  intros Hr. revert acc. induction l as [|b l IH]; intros acc Ha; simpl; [naive_solver lia|].
  destruct (to_digit radix b) as [d|] eqn:Hd; [|done].
  apply to_digit_range in Hd. intros H. apply IH in H; nia.
Qed.

(** A bounded parse is the unbounded value, when it fits. *)
Lemma parse_digits_value (radix bound acc : Z) (l : bytes) :
  1 <= radix -> 0 <= acc <= bound ->
  parse_digits radix bound acc l =
    match digits_value radix acc l with
    | Some v => if v <=? bound then Some v else None
    | None => None
    end.
Proof.
  intros Hr. revert acc. induction l as [|b l IH]; intros acc Ha; simpl.
  - destruct (Z.leb_spec acc bound); [done|lia].
  - destruct (to_digit radix b) as [d|] eqn:Hd; [|done]. apply to_digit_range in Hd.
    unfold checked_mul, checked_add.
    destruct (Z.leb_spec (acc * radix) bound) as [H1|H1].
    + destruct (Z.leb_spec (acc * radix + d) bound) as [H2|H2].
      * apply IH. nia.
      * destruct (digits_value radix (acc * radix + d) l) as [v|] eqn:Hv; [|done].
        apply digits_value_ge in Hv; [|lia|nia]. destruct (Z.leb_spec v bound); [lia|done].
    + destruct (digits_value radix (acc * radix + d) l) as [v|] eqn:Hv; [|done].
      apply digits_value_ge in Hv; [|lia|nia]. destruct (Z.leb_spec v bound); [lia|done].
Qed.

Lemma to_digit_10 (b : byte) : is_ascii_digit b = true -> to_digit 10 b = Some (u8 b - 48).
Proof. byte_cases b. Qed.

Lemma to_digit_16 (b : byte) : is_ascii_hexdigit b = true -> is_Some (to_digit 16 b).
Proof. byte_cases b; eauto. Qed.

Lemma digits_value_all (p : byte -> bool) (radix acc : Z) (l : bytes) :
  (forall b, p b = true -> is_Some (to_digit radix b)) -> all p l = true -> is_Some (digits_value radix acc l).
Proof.
  intros Hp. rewrite all_Forall. intros Hl. revert acc.
  induction Hl as [|b l Hb Hl IH]; intros acc; simpl; [eauto|].
  destruct (Hp b Hb) as [d ->]. apply IH.
Qed.

Lemma from_str_radix_digits (radix bound : Z) (p : byte -> bool) (l : bytes) :
  1 <= radix -> 0 <= bound -> p x2b = false -> l <> [] -> all p l = true ->
  from_str_radix radix bound l =
    match digits_value radix 0 l with
    | Some v => if v <=? bound then Some v else None
    | None => None
    end.
Proof.
  intros Hr Hb Hp Hl Hall. rewrite <- parse_digits_value by lia.
  destruct l as [|b l]; [done|]. unfold from_str_radix.
  destruct (byte_eqb b x2b) eqn:E; [|done]. apply byte_eqb_eq in E as ->.
  simpl in Hall. by rewrite Hp in Hall.
Qed.

Lemma from_str_radix_range (radix bound : Z) (l : bytes) (v : Z) :
  1 <= radix -> 0 <= bound -> from_str_radix radix bound l = Some v -> 0 <= v <= bound.
Proof.
  intros Hr Hb. assert (H : forall k, parse_digits radix bound 0 k = Some v -> 0 <= v <= bound).
  { intros k. rewrite parse_digits_value by lia.
    destruct (digits_value radix 0 k) as [w|] eqn:E; [|done].
    apply digits_value_ge in E; [|lia..]. destruct (Z.leb_spec w bound); [|done].
    intros. simplify_eq. lia. }
  unfold from_str_radix. repeat case_match; try done; apply H.
Qed.

Lemma to_digit_digit_char (radix d : Z) :
  radix <= 16 -> 0 <= d < radix -> to_digit radix (digit_char d) = Some d.
Proof.
  intros Hr Hd. assert (E : to_digit 16 (digit_char d) = Some d).
  { assert (H : forallb (fun n => bool_decide (to_digit 16 (digit_char (Z.of_nat n)) = Some (Z.of_nat n)))
                  (List.seq 0 16) = true) by (vm_compute; reflexivity).
    rewrite forallb_forall in H. specialize (H (Z.to_nat d)). rewrite Z2Nat.id in H by lia.
    rewrite bool_decide_eq_true in H. apply H, in_seq. lia. }
  revert E. unfold to_digit. intros E. repeat case_match; simplify_eq; try done; lia.
Qed.

Lemma digits_value_radix_digits (fuel : nat) (radix n : Z) (tail : bytes) :
  2 <= radix <= 16 -> 0 <= n < radix ^ Z.of_nat fuel -> (0 < fuel)%nat ->
  digits_value radix 0 (radix_digits fuel radix n tail) = digits_value radix n tail.
Proof.
  intros Hr. revert n tail. induction fuel as [|fuel IH]; intros n tail Hn Hf; [lia|].
  cbn [radix_digits]. destruct (Z.ltb_spec n radix) as [Hlt|Hge].
  - cbn [digits_value]. rewrite Z.mod_small by lia. rewrite to_digit_digit_char by lia. done.
  - assert (Hm : 0 <= n mod radix < radix) by (apply Z.mod_pos_bound; lia).
    assert (Hd : n = radix * (n / radix) + n mod radix) by (apply Z.div_mod; lia).
    rewrite Nat2Z.inj_succ, Z.pow_succ_r in Hn by lia.
    assert (Hq : 0 <= n / radix < radix ^ Z.of_nat fuel).
    { split; [apply Z.div_pos; lia|]. apply Z.div_lt_upper_bound; lia. }
    destruct fuel as [|fuel].
    { cbn in Hq. nia. }
    rewrite IH by lia. cbn [digits_value]. rewrite to_digit_digit_char by lia. f_equal. lia.
Qed.

Lemma radix_fuel (radix n : Z) : 2 <= radix -> 0 <= n -> n < radix ^ Z.of_nat (S (Z.to_nat (Z.log2 n))).
Proof.
  intros Hr Hn. pose proof (Z.log2_nonneg n) as Hlog. rewrite Nat2Z.inj_succ, Z2Nat.id by done.
  destruct (Z.eq_dec n 0) as [->|Hn0]; [apply Z.pow_pos_nonneg; lia|].
  eapply Z.lt_le_trans; [apply Z.log2_spec; lia|]. apply Z.pow_le_mono_l. lia.
Qed.

Lemma digits_value_to_radix (radix n : Z) :
  2 <= radix <= 16 -> 0 <= n -> digits_value radix 0 (to_radix radix n) = Some n.
Proof.
  intros Hr Hn. unfold to_radix. rewrite digits_value_radix_digits; [done|lia| |lia].
  split; [lia|]. apply radix_fuel; lia.
Qed.

Lemma digits_value_snoc (radix acc v : Z) (l : bytes) (b : byte) :
  digits_value radix acc (l ++ [b]) = Some v ->
  exists u d, digits_value radix acc l = Some u /\ to_digit radix b = Some d /\ v = u * radix + d.
Proof.
  revert acc. induction l as [|c l IH]; intros acc; cbn [app digits_value].
  - destruct (to_digit radix b) as [d|]; [|done]. intros [= <-]. by exists acc, d.
  - destruct (to_digit radix c); [apply IH|done].
Qed.

(** A decimal numeral without a superfluous zero. *)
Definition plain_numeral (l : bytes) : Prop :=
  match l with
  | [] => False
  | b :: t => t = [] \/ b <> x30
  end.

Lemma to_digit_10_char (b : byte) (d : Z) : to_digit 10 b = Some d -> digit_char d = b.
Proof.
  unfold to_digit, digit_char. destruct (is_ascii_digit b) eqn:Hb.
  - unfold is_ascii_digit, in_range in Hb. change (u8 x30) with 48 in Hb. change (u8 x39) with 57 in Hb.
    rewrite andb_true_iff, !Z.leb_le in Hb. destruct (Z.ltb_spec (u8 b - 48) 10); [|done].
    intros [= <-]. rewrite (proj2 (Z.ltb_lt _ _)) by lia.
    replace (48 + (u8 b - 48)) with (u8 b) by lia. apply of_u8_u8.
  - byte_cases b.
Qed.

Lemma plain_numeral_pos (b c : byte) (l : bytes) (v : Z) :
  plain_numeral (b :: c :: l) -> digits_value 10 0 (b :: c :: l) = Some v -> 1 <= v.
Proof.
  intros [?|Hb]; [done|]. cbn [digits_value]. destruct (to_digit 10 b) as [d|] eqn:Hd; [|done].
  assert (1 <= d).
  { pose proof (to_digit_range _ _ _ Hd). assert (d <> 0); [|lia]. intros ->.
    apply to_digit_10_char in Hd. by rewrite <- Hd in Hb. }
  intros Hv. destruct (to_digit 10 c) as [e|] eqn:He; [|done].
  pose proof (to_digit_range _ _ _ He). apply digits_value_ge in Hv; lia.
Qed.

Lemma radix_digits_numeral (l : bytes) (fuel : nat) (v : Z) (tail : bytes) :
  plain_numeral l -> digits_value 10 0 l = Some v -> v < 10 ^ Z.of_nat fuel -> (0 < fuel)%nat ->
  radix_digits fuel 10 v tail = l ++ tail.
Proof.
  revert fuel v tail. induction l as [|b l IH] using rev_ind; intros fuel v tail Hl Hv Hf Hpos; [done|].
  apply digits_value_snoc in Hv as (u & d & Hu & Hd & ->). pose proof (to_digit_range _ _ _ Hd) as Hr.
  destruct fuel as [|fuel]; [lia|]. cbn [radix_digits].
  rewrite (Z.add_comm (u * 10)), Z.mod_add, Z.mod_small, (to_digit_10_char _ _ Hd) by lia.
  destruct l as [|c l].
  - cbn in Hu. injection Hu as <-. by rewrite (proj2 (Z.ltb_lt _ _)) by lia.
  - assert (1 <= u).
    { destruct l as [|e l].
      - destruct Hl as [?|Hc]; [done|]. cbn in Hu. destruct (to_digit 10 c) as [x|] eqn:Hx; [|done].
        pose proof (to_digit_range _ _ _ Hx). injection Hu as <-. assert (x <> 0); [|lia]. intros ->.
        apply to_digit_10_char in Hx. by rewrite <- Hx in Hc.
      - eapply plain_numeral_pos; [|exact Hu]. destruct Hl as [?|Hc]; [by destruct l|]. by right. }
    rewrite (proj2 (Z.ltb_ge _ _)) by lia. rewrite Z.div_add, Z.div_small, Z.add_0_l by lia.
    rewrite <- app_assoc. cbn [app]. change (c :: l ++ b :: tail) with ((c :: l) ++ b :: tail).
    assert (u < 10 ^ Z.of_nat fuel) by (rewrite Nat2Z.inj_succ, Z.pow_succ_r in Hf; lia).
    apply IH; [|done..|].
    + destruct Hl as [E|?]; [by destruct l|by right].
    + destruct fuel; [simpl in *; lia|lia].
Qed.

(** Such a numeral is how its value is printed. *)
Lemma to_dec_numeral (l : bytes) (v : Z) : plain_numeral l -> digits_value 10 0 l = Some v -> to_dec v = l.
Proof.
  intros Hl Hv. assert (0 <= v) by (eapply digits_value_ge; [| |exact Hv]; lia).
  unfold to_dec, to_radix. erewrite radix_digits_numeral; [apply app_nil_r|done..| |lia].
  apply radix_fuel; lia.
Qed.

Lemma radix_digits_all (p : byte -> bool) (fuel : nat) (radix n : Z) (tail : bytes) :
  1 <= radix -> (forall d, 0 <= d < radix -> p (digit_char d) = true) ->
  all p tail = true -> all p (radix_digits fuel radix n tail) = true.
Proof.
  intros Hr Hp. revert n tail. induction fuel as [|fuel IH]; intros n tail Ht; [done|].
  assert (Hm : 0 <= n mod radix < radix) by (apply Z.mod_pos_bound; lia).
  cbn [radix_digits]. destruct (n <? radix).
  - cbn. rewrite Hp by done. done.
  - apply IH. cbn. rewrite Hp by done. done.
Qed.

Lemma radix_digits_length (fuel : nat) (radix n : Z) (tail : bytes) :
  (length tail <= length (radix_digits fuel radix n tail))%nat.
Proof.
  revert n tail. induction fuel as [|fuel IH]; intros n tail; cbn [radix_digits]; [done|].
  case_match; [simpl; lia|]. etransitivity; [|apply IH]. simpl. lia.
Qed.

Lemma to_radix_ne (radix n : Z) : to_radix radix n <> [].
Proof.
  unfold to_radix. cbn [radix_digits]. destruct (n <? radix); [done|].
  intros H. pose proof (radix_digits_length (Z.to_nat (Z.log2 n)) radix (n / radix) [digit_char (n mod radix)]) as Hl.
  rewrite H in Hl. simpl in Hl. lia.
Qed.

Lemma to_dec_digits (n : Z) : all is_ascii_digit (to_dec n) = true.
Proof.
  apply radix_digits_all; [lia| |done]. intros d Hd.
  assert (H : forallb (fun n => is_ascii_digit (digit_char (Z.of_nat n))) (List.seq 0 10) = true)
    by (vm_compute; reflexivity).
  rewrite forallb_forall in H. specialize (H (Z.to_nat d)). rewrite Z2Nat.id in H by lia. apply H, in_seq. lia.
Qed.

Lemma to_dec_ne (n : Z) : to_dec n <> [].
Proof. apply to_radix_ne. Qed.

(** Printing an integer and parsing it back. *)
Lemma parse_uint_to_dec (bound n : Z) : 0 <= n <= bound -> parse_uint bound (to_dec n) = Some n.
Proof.
  intros Hn. unfold parse_uint.
  rewrite (from_str_radix_digits _ _ is_ascii_digit); [|lia|lia|done|apply to_dec_ne|apply to_dec_digits].
  unfold to_dec. rewrite digits_value_to_radix by lia. by rewrite (proj2 (Z.leb_le _ _)) by lia.
Qed.

Lemma parse_uint_range (bound : Z) (l : bytes) (v : Z) :
  0 <= bound -> parse_uint bound l = Some v -> 0 <= v <= bound.
Proof. apply from_str_radix_range. lia. Qed.

#[export] Hint Resolve u8_range byte_eqb_refl to_dec_digits to_dec_ne eq_ignore_ascii_case_refl : proxy.

(** ** Host names

    The label check that [http.rs], [config.rs] and [tls.rs] each write out: one to 63
    bytes, letters, digits and hyphens, a letter or digit at either end. *)
Definition label_byte (b : byte) : bool := is_ascii_alphanumeric b || byte_eqb b x2d.

Definition label_ok (l : bytes) : bool :=
  match l, list.last l with
  | b :: _, Some e =>
      (len l <=? 63) && is_ascii_alphanumeric b && is_ascii_alphanumeric e && all label_byte l
  | _, _ => false
  end.

(** Dot-separated labels, 253 bytes in all. *)
Definition hostname_ok (l : bytes) : bool :=
  (len l <=? 253) && forallb label_ok (split_on (byte_eqb x2e) l).

Lemma last_index {E : Type} (l : bytes) (e : byte) :
  list.last l = Some e -> index l (length l - 1) = Ok e :> res E _.
Proof.
  intros [k ->]%last_Some. apply index_Ok.
  rewrite length_app. simpl. rewrite lookup_app_r by lia.
  by replace (length k + 1 - 1 - length k)%nat with 0%nat by lia.
Qed.

Lemma label_ok_bytes (l : bytes) : label_ok l = true -> all label_byte l = true /\ l <> [].
Proof.
  unfold label_ok. destruct l; [done|]. case_match; [|done]. rewrite !andb_true_iff. by intros [_ ?].
Qed.

(** Every byte of a host name is a label byte or a dot. *)
Definition hostname_byte (b : byte) : bool := label_byte b || byte_eqb b x2e.

Lemma hostname_ok_bytes (l : bytes) : hostname_ok l = true -> all hostname_byte l = true /\ l <> [].
Proof.
  unfold hostname_ok. rewrite andb_true_iff, forallb_forall. intros [_ Hl]. split.
  - rewrite <- (join_split_on x2e l). pose proof (split_on_ne (byte_eqb x2e) l) as Hne.
    induction (split_on (byte_eqb x2e) l) as [|p ps IH]; [done|].
    assert (Hp : all hostname_byte p = true).
    { apply all_impl with label_byte; [by intros b; unfold hostname_byte; intros ->|].
      apply label_ok_bytes, Hl. by left. }
    destruct ps as [|q ps]; [done|]. rewrite join_cons by done.
    rewrite !all_app, Hp, IH; [done| |done]. intros x Hx. apply Hl. by right.
  - intros ->. simpl in Hl. specialize (Hl [] (or_introl eq_refl)). done.
Qed.

(** ** Integers as bytes

    [from_be_bytes] and [to_be_bytes], of any width, and the little-endian ones. *)
Fixpoint be_value (acc : Z) (bs : bytes) : Z :=
  match bs with
  | [] => acc
  | b :: bs' => be_value (acc * 256 + u8 b) bs'
  end.

Lemma be_value_app (acc : Z) (bs cs : bytes) : be_value acc (bs ++ cs) = be_value (be_value acc bs) cs.
Proof. revert acc. induction bs as [|b bs IH]; intros acc; [done|]. apply IH. Qed.

Lemma be_value_acc (acc : Z) (bs : bytes) : be_value acc bs = acc * 256 ^ len bs + be_value 0 bs.
Proof.
  revert acc. induction bs as [|b bs IH]; intros acc; [change (len []) with 0; cbn [be_value]; lia|].
  cbn [be_value]. rewrite IH, (IH (0 * 256 + u8 b)). rewrite len_cons, Z.pow_add_r, Z.pow_1_r by (done || apply len_nonneg). ring.
Qed.

Lemma be_value_range (bs : bytes) : 0 <= be_value 0 bs < 256 ^ len bs.
Proof.
  induction bs as [|b bs IH]; [done|]. cbn [be_value]. rewrite be_value_acc. pose proof (u8_range b).
  rewrite len_cons, Z.pow_add_r, Z.pow_1_r by (done || apply len_nonneg). nia.
Qed.

Lemma be_value_inj (bs cs : bytes) : length bs = length cs -> be_value 0 bs = be_value 0 cs -> bs = cs.
Proof.
  revert cs. induction bs as [|b bs IH]; intros [|c cs] Hl E; try done. injection Hl as Hl.
  cbn [be_value] in E. rewrite be_value_acc, (be_value_acc (0 * 256 + u8 c)) in E.
  pose proof (be_value_range bs). pose proof (be_value_range cs). pose proof (u8_range b). pose proof (u8_range c).
  assert (len bs = len cs) as El by (unfold len; lia). rewrite El in *.
  assert (u8 b = u8 c) as Hb by nia. rewrite Hb in E. f_equal; [by apply u8_inj|]. apply IH; [done|lia].
Qed.

(** The big-endian bytes of an integer. *)
Fixpoint be_bytes (n : nat) (z : Z) : bytes :=
  match n with
  | O => []
  | S n' => be_bytes n' (z / 256) ++ [of_u8 (z mod 256)]
  end.

Lemma length_be_bytes (n : nat) (z : Z) : length (be_bytes n z) = n.
Proof. revert z. induction n as [|n IH]; intros z; [done|]. cbn [be_bytes]. rewrite length_app, IH. simpl. lia. Qed.

Lemma be_value_be_bytes (n : nat) (z : Z) : be_value 0 (be_bytes n z) = z mod 256 ^ Z.of_nat n.
Proof.
  revert z. induction n as [|n IH]; intros z; [by rewrite Z.mod_1_r|]. cbn [be_bytes].
  rewrite be_value_app, IH. cbn [be_value]. rewrite u8_of_u8 by (apply Z.mod_pos_bound; done).
  rewrite Nat2Z.inj_succ, Z.pow_succ_r, Z.rem_mul_r by (try done; lia). lia.
Qed.

Lemma be_bytes_be_value (bs : bytes) : be_bytes (length bs) (be_value 0 bs) = bs.
Proof.
  apply be_value_inj; [apply length_be_bytes|]. rewrite be_value_be_bytes. apply Z.mod_small, be_value_range.
Qed.

Lemma be_bytes_app (n k : nat) (z : Z) : be_bytes (n + k) z = be_bytes n (z / 256 ^ Z.of_nat k) ++ be_bytes k z.
Proof.
  revert z. induction k as [|k IH]; intros z; [by rewrite Nat.add_0_r, Z.div_1_r, app_nil_r|].
  rewrite Nat.add_succ_r. cbn [be_bytes]. rewrite IH, <- app_assoc.
  by rewrite Nat2Z.inj_succ, Z.pow_succ_r, Z.div_div by lia.
Qed.

Definition le_value (bs : bytes) : Z := be_value 0 (rev bs).
Definition le_bytes (n : nat) (z : Z) : bytes := rev (be_bytes n z).

Lemma length_le_bytes (n : nat) (z : Z) : length (le_bytes n z) = n.
Proof. unfold le_bytes. by rewrite length_rev, length_be_bytes. Qed.

Lemma le_value_range (bs : bytes) : 0 <= le_value bs < 256 ^ len bs.
Proof. unfold le_value. pose proof (be_value_range (rev bs)) as H. unfold len in *. by rewrite length_rev in H. Qed.

Lemma le_value_le_bytes (n : nat) (z : Z) : le_value (le_bytes n z) = z mod 256 ^ Z.of_nat n.
Proof. unfold le_value, le_bytes. by rewrite rev_involutive, be_value_be_bytes. Qed.

Lemma le_value_cons (b : byte) (bs : bytes) : le_value (b :: bs) = u8 b + 256 * le_value bs.
Proof. unfold le_value. cbn [rev]. rewrite be_value_app. cbn [be_value]. lia. Qed.

Lemma le_value_app (bs cs : bytes) : le_value (bs ++ cs) = le_value bs + 256 ^ len bs * le_value cs.
Proof.
  induction bs as [|b bs IH]; [change (len []) with 0; change (le_value []) with 0; cbn [app]; lia|].
  cbn [app]. rewrite !le_value_cons, IH, len_cons, Z.pow_add_r, Z.pow_1_r by (done || apply len_nonneg). ring.
Qed.
