(* ===== verification/NetAddr.v ===== *)
(** * Internet addresses as text: [std::net]

    The parser ([std::net::parser]) and the [Display] implementations of
    [Ipv4Addr], [Ipv6Addr], [IpAddr] and [SocketAddr], which [http.rs] and
    [config.rs] use to check and to normalise authorities. *)
From Stdlib Require Import ZArith Lia.
From stdpp Require Import prelude.
From S2P Require Import Prelude Bytes.
Local Open Scope Z_scope.

(** Four octets. *)
Definition Ipv4Addr : Type := Z * Z * Z * Z.

(** Eight segments. *)
Definition Ipv6Addr : Type := list Z.

Inductive IpAddr : Type :=
| IpV4 (a : Ipv4Addr)
| IpV6 (a : Ipv6Addr).

(** [flowinfo] is always zero for a parsed address. *)
Inductive SocketAddr : Type :=
| SocketV4 (ip : Ipv4Addr) (port : Z)
| SocketV6 (ip : Ipv6Addr) (port : Z) (scope_id : Z).

Definition is_ipv6 (a : IpAddr) : bool :=
  match a with
  | IpV4 _ => false
  | IpV6 _ => true
  end.

(** ** Parser: a parser that fails leaves its input where it was *)
Definition parser (A : Type) : Type := bytes -> option (A * bytes).

Definition parser_bind {A B : Type} (m : parser A) (k : A -> parser B) : parser B :=
  fun l => match m l with
           | Some (a, l') => k a l'
           | None => None
           end.

Definition parser_ret {A : Type} (a : A) : parser A := fun l => Some (a, l).

Notation "'let&' x ':=' m 'in' k" := (parser_bind m (fun x => k))
  (at level 10, x pattern, m at level 100, k at level 200) : proxy_scope.

Definition read_given_char (c : byte) : parser unit :=
  fun l => match l with
           | b :: l' => if byte_eqb b c then Some (tt, l') else None
           | [] => None
           end.

(** [read_separator]: the separator is read before every element but the first. *)
Definition read_separator {A : Type} (sep : byte) (i : nat) (p : parser A) : parser A :=
  match i with
  | O => p
  | S _ => let& _ := read_given_char sep in p
  end.

Fixpoint read_digits_max (radix : Z) (max_digits : nat) (acc : Z) (count : nat) (l : bytes)
  : option (Z * nat * bytes) :=
  match l with
  | b :: l' =>
      match to_digit radix b with
      | Some d =>
          if (max_digits <? S count)%nat then None
          else read_digits_max radix max_digits (acc * radix + d) (S count) l'
      | None => Some (acc, count, l)
      end
  | [] => Some (acc, count, l)
  end.

Definition has_leading_zero (l : bytes) : bool :=
  match l with
  | b :: _ => byte_eqb b x30
  | [] => false
  end.

(** [read_number] with a digit limit; [bound] is the largest value of the result type. *)
Definition read_number_max (radix : Z) (max_digits : nat) (allow_zero_prefix : bool) (bound : Z) : parser Z :=
  fun l =>
    match read_digits_max radix max_digits 0 0 l with
    | None => None
    | Some (result, count, l') =>
        if (count =? 0)%nat then None
        else if negb allow_zero_prefix && has_leading_zero l && (1 <? count)%nat then None
        else if result <=? bound then Some (result, l') else None
    end.

Fixpoint read_digits_checked (radix bound : Z) (acc : Z) (count : nat) (l : bytes)
  : option (Z * nat * bytes) :=
  match l with
  | b :: l' =>
      match to_digit radix b with
      | Some d =>
          match checked_mul bound acc radix with
          | None => None
          | Some m =>
              match checked_add bound m d with
              | None => None
              | Some acc' => read_digits_checked radix bound acc' (S count) l'
              end
          end
      | None => Some (acc, count, l)
      end
  | [] => Some (acc, count, l)
  end.

(** [read_number] without a digit limit, as ports and scope identifiers are read. *)
Definition read_number (radix bound : Z) : parser Z :=
  fun l =>
    match read_digits_checked radix bound 0 0 l with
    | None => None
    | Some (result, count, l') => if (count =? 0)%nat then None else Some (result, l')
    end.

Definition read_ipv4_addr : parser Ipv4Addr :=
  let group i := read_separator x2e i (read_number_max 10 3 false u8_max) in
  let& a := group 0%nat in
  let& b := group 1%nat in
  let& c := group 2%nat in
  let& d := group 3%nat in
  parser_ret (a, b, c, d).

(** The groups read, whether the last two come from an embedded IPv4 address, and the
    rest of the input; [n] is the number of groups still wanted. *)
Fixpoint read_groups (n limit i : nat) (l : bytes) : list Z * bool * bytes :=
  match n with
  | O => ([], false, l)
  | S n' =>
      let ipv4 :=
        if (i <? limit - 1)%nat then read_separator x3a i read_ipv4_addr l else None in
      match ipv4 with
      | Some ((one, two, three, four), l') => ([one * 256 + two; three * 256 + four], true, l')
      | None =>
          match read_separator x3a i (read_number_max 16 4 true u16_max) l with
          | Some (g, l') =>
              let '(gs, v4, l'') := read_groups n' limit (S i) l' in
              (g :: gs, v4, l'')
          | None => ([], false, l)
          end
      end
  end.

Definition read_ipv6_addr : parser Ipv6Addr :=
  fun l =>
    let '(head, head_ipv4, l1) := read_groups 8 8 0 l in
    let head_size := length head in
    if (head_size =? 8)%nat then Some (head, l1)
    else if head_ipv4 then None
    else
      (let& _ := read_given_char x3a in
       let& _ := read_given_char x3a in
       fun l2 =>
         let limit := (8 - (head_size + 1))%nat in
         let '(tail, _, l3) := read_groups limit limit 0 l2 in
         Some (head ++ replicate (8 - head_size - length tail) 0 ++ tail, l3)) l1.

Definition read_ip_addr : parser IpAddr :=
  fun l =>
    match read_ipv4_addr l with
    | Some (a, l') => Some (IpV4 a, l')
    | None =>
        match read_ipv6_addr l with
        | Some (a, l') => Some (IpV6 a, l')
        | None => None
        end
    end.

Definition read_port : parser Z :=
  let& _ := read_given_char x3a in read_number 10 u16_max.

Definition read_scope_id : parser Z :=
  let& _ := read_given_char x25 in read_number 10 u32_max.

Definition read_socket_addr_v4 : parser SocketAddr :=
  let& ip := read_ipv4_addr in
  let& port := read_port in
  parser_ret (SocketV4 ip port).

Definition read_socket_addr_v6 : parser SocketAddr :=
  let& _ := read_given_char x5b in
  let& ip := read_ipv6_addr in
  let& scope_id :=
    (fun l => match read_scope_id l with
              | Some (s, l') => Some (s, l')
              | None => Some (0, l)
              end) in
  let& _ := read_given_char x5d in
  let& port := read_port in
  parser_ret (SocketV6 ip port scope_id).

(** [parse_with]: the whole input must be read. *)
Definition parse_with {A : Type} (p : parser A) (l : bytes) : option A :=
  match p l with
  | Some (a, []) => Some a
  | _ => None
  end.

(** [str::parse::<Ipv6Addr>], [::<IpAddr>] and [::<SocketAddr>] *)
Definition parse_ipv6_addr : bytes -> option Ipv6Addr := parse_with read_ipv6_addr.
Definition parse_ip_addr : bytes -> option IpAddr := parse_with read_ip_addr.
Definition parse_socket_addr : bytes -> option SocketAddr :=
  parse_with (fun l => match read_socket_addr_v4 l with
                       | Some r => Some r
                       | None => read_socket_addr_v6 l
                       end).

(** ** Display *)
Definition ipv4_to_string (a : Ipv4Addr) : bytes :=
  let '(o0, o1, o2, o3) := a in
  to_dec o0 ++ [x2e] ++ to_dec o1 ++ [x2e] ++ to_dec o2 ++ [x2e] ++ to_dec o3.

Fixpoint fmt_subslice (segments : list Z) : bytes :=
  match segments with
  | [] => []
  | [s] => to_hex s
  | s :: rest => to_hex s ++ [x3a] ++ fmt_subslice rest
  end.

(** The first longest run of zero segments, as (start, length). *)
Fixpoint longest_zero_span (segments : list Z) (i : nat) (current longest : nat * nat) : nat * nat :=
  match segments with
  | [] => longest
  | s :: rest =>
      if s =? 0 then
        let start := if (snd current =? 0)%nat then i else fst current in
        let current := (start, S (snd current)) in
        longest_zero_span rest (S i) current (if (snd longest <? snd current)%nat then current else longest)
      else longest_zero_span rest (S i) (0%nat, 0%nat) longest
  end.

Definition to_ipv4_mapped (a : Ipv6Addr) : option Ipv4Addr :=
  match a with
  | [s0; s1; s2; s3; s4; s5; ab; cd] =>
      if (s0 =? 0) && (s1 =? 0) && (s2 =? 0) && (s3 =? 0) && (s4 =? 0) && (s5 =? 65535)
      then Some (ab / 256, ab mod 256, cd / 256, cd mod 256)
      else None
  | _ => None
  end.

Definition ipv6_to_string (a : Ipv6Addr) : bytes :=
  match to_ipv4_mapped a with
  | Some v4 => str "::ffff:" ++ ipv4_to_string v4
  | None =>
      let '(start, n) := longest_zero_span a 0 (0%nat, 0%nat) (0%nat, 0%nat) in
      if (1 <? n)%nat
      then fmt_subslice (take start a) ++ str "::" ++ fmt_subslice (drop (start + n) a)
      else fmt_subslice a
  end.

Definition ip_to_string (a : IpAddr) : bytes :=
  match a with
  | IpV4 v4 => ipv4_to_string v4
  | IpV6 v6 => ipv6_to_string v6
  end.

Definition socket_addr_to_string (a : SocketAddr) : bytes :=
  match a with
  | SocketV4 ip port => ipv4_to_string ip ++ [x3a] ++ to_dec port
  | SocketV6 ip port scope_id =>
      if scope_id =? 0
      then [x5b] ++ ipv6_to_string ip ++ str "]:" ++ to_dec port
      else [x5b] ++ ipv6_to_string ip ++ [x25] ++ to_dec scope_id ++ str "]:" ++ to_dec port
  end.

(** ** What a parser reads *)

(** [eats P p]: a successful [p] takes a prefix of its input, all of whose bytes satisfy [P]. *)
Definition eats {A : Type} (P : byte -> bool) (p : parser A) : Prop :=
  forall l a l', p l = Some (a, l') -> exists pre, l = pre ++ l' /\ all P pre = true.

Lemma eats_bind {A B : Type} (P : byte -> bool) (m : parser A) (k : A -> parser B) :
  eats P m -> (forall a, eats P (k a)) -> eats P (parser_bind m k).
Proof.
  intros Hm Hk l b l' H. unfold parser_bind in H. destruct (m l) as [[a l1]|] eqn:E; [|done].
  apply Hm in E as (p1 & -> & H1). apply Hk in H as (p2 & -> & H2).
  exists (p1 ++ p2). by rewrite app_assoc, all_app, H1, H2.
Qed.

Lemma eats_ret {A : Type} (P : byte -> bool) (a : A) : eats P (parser_ret a).
Proof. intros l b l' H. unfold parser_ret in H. simplify_eq. by exists []. Qed.

Lemma eats_char (P : byte -> bool) (c : byte) : P c = true -> eats P (read_given_char c).
Proof.
  intros Hc l a l'. unfold read_given_char. destruct l as [|b l]; [done|].
  destruct (byte_eqb b c) eqn:E; [|done]. apply byte_eqb_eq in E as ->. intros. simplify_eq.
  exists [c]. split; [done|]. cbn. by rewrite Hc.
Qed.

Lemma eats_separator {A : Type} (P : byte -> bool) (sep : byte) (i : nat) (p : parser A) :
  P sep = true -> eats P p -> eats P (read_separator sep i p).
Proof.
  intros Hs Hp. destruct i; [done|]. apply eats_bind; [by apply eats_char|done].
Qed.

Lemma eats_digits_max (P : byte -> bool) (radix : Z) (m : nat) (l : bytes) (acc : Z) (count : nat) r :
  (forall b d, to_digit radix b = Some d -> P b = true) ->
  read_digits_max radix m acc count l = Some r -> exists pre, l = pre ++ r.2 /\ all P pre = true.
Proof.
  intros HP. revert acc count. induction l as [|b l IH]; intros acc count; simpl.
  - intros. simplify_eq. by exists [].
  - destruct (to_digit radix b) as [d|] eqn:Hd; [|intros; simplify_eq; by exists []].
    case_match; [done|]. intros (pre & -> & Hpre)%IH. exists (b :: pre). split; [done|].
    cbn. by rewrite (HP _ _ Hd).
Qed.

Lemma eats_number_max (P : byte -> bool) (radix bound : Z) (m : nat) (z : bool) :
  (forall b d, to_digit radix b = Some d -> P b = true) -> eats P (read_number_max radix m z bound).
Proof.
  intros HP l a l'. unfold read_number_max.
  destruct (read_digits_max radix m 0 0 l) as [[[r c] l1]|] eqn:E; [|done].
  apply (eats_digits_max P) in E; [|done]. repeat (case_match; try done). intros. by simplify_eq.
Qed.

Definition ipv4_byte (b : byte) : bool := is_ascii_digit b || byte_eqb b x2e.
Definition ipv6_byte (b : byte) : bool := is_ascii_hexdigit b || byte_eqb b x3a || byte_eqb b x2e.

Lemma to_digit_10_digit (b : byte) (d : Z) : to_digit 10 b = Some d -> is_ascii_digit b = true.
Proof. byte_cases b. Qed.

Lemma to_digit_16_hexdigit (b : byte) (d : Z) : to_digit 16 b = Some d -> is_ascii_hexdigit b = true.
Proof. byte_cases b. Qed.

Lemma eats_ipv4 (P : byte -> bool) : (forall b, ipv4_byte b = true -> P b = true) -> eats P read_ipv4_addr.
Proof.
  intros HP.
  assert (Hg : forall i, eats P (read_separator x2e i (read_number_max 10 3 false u8_max))).
  { intros i. apply eats_separator; [by apply HP|]. apply eats_number_max.
    intros b d Hd. apply HP. unfold ipv4_byte. by rewrite (to_digit_10_digit _ _ Hd). }
  unfold read_ipv4_addr. repeat (apply eats_bind; [apply Hg|intros ?]). apply eats_ret.
Qed.

Lemma read_groups_eats (n limit i : nat) (l : bytes) :
  exists pre, l = pre ++ (read_groups n limit i l).2 /\ all ipv6_byte pre = true.
Proof.
  revert i l. induction n as [|n IH]; intros i l; [by exists []|]. cbn [read_groups].
  destruct (if (i <? limit - 1)%nat then read_separator x3a i read_ipv4_addr l else None)
    as [[[[[o t] th] f] l']|] eqn:E4.
  - destruct (i <? limit - 1)%nat; [|done].
    eapply (eats_separator ipv6_byte) in E4; [done|done|].
    apply eats_ipv4. intros b. byte_cases b.
  - destruct (read_separator x3a i (read_number_max 16 4 true u16_max) l) as [[g l']|] eqn:E6; [|by exists []].
    eapply (eats_separator ipv6_byte) in E6; [|done|].
    2: { apply eats_number_max. intros b d Hd. unfold ipv6_byte. by rewrite (to_digit_16_hexdigit _ _ Hd). }
    destruct E6 as (pre & -> & Hpre). destruct (IH (S i) l') as (pre' & Hl & Hpre').
    destruct (read_groups n limit (S i) l') as [[gs v4] l''] eqn:E. simpl in *.
    exists (pre ++ pre'). rewrite <- app_assoc, <- Hl, all_app, Hpre, Hpre'. done.
Qed.

Lemma eats_ipv6 : eats ipv6_byte read_ipv6_addr.
Proof.
  intros l a l' H. unfold read_ipv6_addr in H.
  destruct (read_groups_eats 8 8 0 l) as (pre & Hl & Hpre).
  destruct (read_groups 8 8 0 l) as [[head v4] l1]. cbn [snd] in Hl. subst l.
  case_match; [simplify_eq; eauto|]. case_match; [done|].
  apply (eats_bind ipv6_byte) in H as (pre2 & -> & Hpre2).
  - exists (pre ++ pre2). rewrite <- app_assoc, all_app, Hpre, Hpre2. done.
  - by apply eats_char.
  - intros []. apply eats_bind; [by apply eats_char|]. intros [] l2 b l3 H2.
    destruct (read_groups_eats (8 - (length head + 1)) (8 - (length head + 1)) 0 l2) as (pre3 & Hl2 & Hpre3).
    destruct (read_groups _ _ 0 l2) as [[tail v] l4]. simplify_eq. eauto.
Qed.

Lemma parse_ipv6_addr_bytes (l : bytes) (a : Ipv6Addr) :
  parse_ipv6_addr l = Some a -> all ipv6_byte l = true.
Proof.
  unfold parse_ipv6_addr, parse_with. destruct (read_ipv6_addr l) as [[b l']|] eqn:E; [|done].
  apply eats_ipv6 in E as (pre & -> & Hpre). destruct l'; [|done]. by rewrite app_nil_r.
Qed.

(** ** IPv4 addresses have one spelling *)
Lemma read_digits_max_value (radix : Z) (m : nat) (l : bytes) (acc : Z) (count : nat) (r : Z) (c : nat) (l' : bytes) :
  read_digits_max radix m acc count l = Some (r, c, l') ->
  exists pre, l = pre ++ l' /\ digits_value radix acc pre = Some r /\ c = (count + length pre)%nat.
Proof.
  revert acc count. induction l as [|b l IH]; intros acc count; cbn [read_digits_max].
  - intros [= <- <- <-]. exists []. split_and!; [done|done|]. simpl. lia.
  - destruct (to_digit radix b) as [d|] eqn:Hd.
    + case_match; [done|]. intros (pre & -> & Hv & ->)%IH. exists (b :: pre).
      cbn [digits_value]. rewrite Hd. split_and!; [done|done|]. simpl. lia.
    + intros [= <- <- <-]. exists []. split_and!; [done|done|]. simpl. lia.
Qed.

(** The number before [l'] is printed as it was read. *)
Definition reads {A : Type} (p : parser A) (print : A -> bytes) : Prop :=
  forall l a l', p l = Some (a, l') -> l = print a ++ l'.

Lemma reads_octet (i : nat) (m : nat) :
  reads (read_separator x2e i (read_number_max 10 m false u8_max))
        (fun n => match i with O => to_dec n | S _ => x2e :: to_dec n end).
Proof.
  assert (Hn : reads (read_number_max 10 m false u8_max) to_dec).
  { intros l n l'. unfold read_number_max.
    destruct (read_digits_max 10 m 0 0 l) as [[[r c] l1]|] eqn:E; [|done].
    apply read_digits_max_value in E as (pre & -> & Hv & ->). rewrite Nat.add_0_l. cbn [negb andb].
    destruct pre as [|b pre]; [done|]. cbn [Nat.eqb app has_leading_zero].
    destruct (byte_eqb b x30 && (1 <? length (b :: pre))%nat) eqn:Hz; [done|].
    destruct (r <=? u8_max); [|done]. intros [= <- <-]. rewrite (to_dec_numeral (b :: pre)); [done| |exact Hv].
    destruct pre as [|c pre]; [by left|]. right. intros ->. done. }
  destruct i; [exact Hn|]. intros l n l'. unfold read_separator, parser_bind, read_given_char.
  destruct l as [|b l]; [done|]. destruct (byte_eqb b x2e) eqn:Hb; [|done].
  apply byte_eqb_eq in Hb as ->. intros H%Hn. by rewrite H.
Qed.

Lemma reads_ipv4 : reads read_ipv4_addr ipv4_to_string.
Proof.
  intros l a l' H. unfold read_ipv4_addr, parser_bind, parser_ret in H.
  destruct (read_separator x2e 0 _ l) as [[o0 l0]|] eqn:E0; [|discriminate H].
  destruct (read_separator x2e 1 _ l0) as [[o1 l1]|] eqn:E1; [|discriminate H].
  destruct (read_separator x2e 2 _ l1) as [[o2 l2]|] eqn:E2; [|discriminate H].
  destruct (read_separator x2e 3 _ l2) as [[o3 l3]|] eqn:E3; [|discriminate H].
  injection H as <- <-.
  rewrite (reads_octet 0 3 l o0 l0 E0), (reads_octet 1 3 l0 o1 l1 E1), (reads_octet 2 3 l1 o2 l2 E2), (reads_octet 3 3 l2 o3 l3 E3).
  unfold ipv4_to_string. repeat first [rewrite <- app_assoc | progress (cbn [app])]. done.
Qed.

Lemma parse_ip_addr_v4 (s : bytes) (a : Ipv4Addr) : parse_ip_addr s = Some (IpV4 a) -> ipv4_to_string a = s.
Proof.
  unfold parse_ip_addr, parse_with, read_ip_addr.
  destruct (read_ipv4_addr s) as [[b l]|] eqn:E.
  - destruct l; [|done]. intros [= <-]. apply reads_ipv4 in E. by rewrite app_nil_r in E.
  - destruct (read_ipv6_addr s) as [[b [|]]|]; done.
Qed.

Lemma parse_ip_addr_v4_bytes (s : bytes) (a : Ipv4Addr) :
  parse_ip_addr s = Some (IpV4 a) -> all ipv4_byte s = true /\ s <> [].
Proof.
  intros H. split.
  - unfold parse_ip_addr, parse_with, read_ip_addr in H.
    destruct (read_ipv4_addr s) as [[b l]|] eqn:E.
    + destruct l; [|done]. apply (eats_ipv4 ipv4_byte) in E as (pre & -> & Hpre); [|done].
      by rewrite app_nil_r.
    + destruct (read_ipv6_addr s) as [[b [|]]|]; done.
  - apply parse_ip_addr_v4 in H as <-. destruct a as [[[o0 o1] o2] o3]. unfold ipv4_to_string.
    pose proof (to_dec_ne o0). by destruct (to_dec o0).
Qed.

(** ** IPv6 addresses hold a colon *)
Lemma read_separator_colon {A : Type} (i : nat) (p : parser A) (l : bytes) r :
  read_separator x3a (S i) p l = Some r -> x3a ∈ l.
Proof.
  unfold read_separator, parser_bind, read_given_char. destruct l as [|b l]; [done|].
  destruct (byte_eqb b x3a) eqn:E; [|done]. apply byte_eqb_eq in E as ->. intros _. by left.
Qed.

Lemma read_groups_step (n limit i : nat) (l : bytes) :
  read_groups (S n) limit i l =
  match (if (i <? limit - 1)%nat then read_separator x3a i read_ipv4_addr l else None) with
  | Some ((one, two, three, four), l') => ([one * 256 + two; three * 256 + four], true, l')
  | None =>
      match read_separator x3a i (read_number_max 16 4 true u16_max) l with
      | Some (g, l') => let '(gs, v4, l'') := read_groups n limit (S i) l' in (g :: gs, v4, l'')
      | None => ([], false, l)
      end
  end.
Proof. done. Qed.

Lemma read_groups_colon (n limit i : nat) (l : bytes) :
  (read_groups n limit (S i) l).1.1 <> [] -> x3a ∈ l.
Proof.
  destruct n as [|n]; [done|]. cbn [read_groups].
  destruct (if (S i <? limit - 1)%nat then read_separator x3a (S i) read_ipv4_addr l else None)
    as [[[[[o t] th] f] l']|] eqn:E4.
  - intros _. destruct (S i <? limit - 1)%nat; [|discriminate E4]. exact (read_separator_colon _ _ _ _ E4).
  - destruct (read_separator x3a (S i) (read_number_max 16 4 true u16_max) l) as [[g l']|] eqn:E6; [|intros H; by destruct H].
    intros _. exact (read_separator_colon _ _ _ _ E6).
Qed.

Lemma read_ipv6_addr_colon (l : bytes) r : read_ipv6_addr l = Some r -> x3a ∈ l.
Proof.
  unfold read_ipv6_addr. destruct (read_groups_eats 8 8 0 l) as (pre & Hl & _).
  destruct (read_groups 8 8 0 l) as [[head v4] l1] eqn:E. cbn [snd] in Hl.
  destruct (length head =? 8)%nat eqn:H8.
  - intros _. rewrite (read_groups_step 7 8 0 l) in E.
    destruct (if (0 <? 8 - 1)%nat then read_separator x3a 0 read_ipv4_addr l else None)
      as [[[[[o t] th] f] l']|] eqn:E4; [by simplify_eq|].
    destruct (read_separator x3a 0 (read_number_max 16 4 true u16_max) l) as [[g l']|] eqn:E6; [|by simplify_eq].
    eapply (eats_separator ipv6_byte) in E6; [|done|].
    2: { apply eats_number_max. intros b d Hd. unfold ipv6_byte. by rewrite (to_digit_16_hexdigit _ _ Hd). }
    destruct E6 as (pre' & -> & _). destruct (read_groups 7 8 1 l') as [[gs w] l''] eqn:Eg.
    injection E as <- <- <-.
    apply elem_of_app. right. apply (read_groups_colon 7 8 0). rewrite Eg. by destruct gs.
  - destruct v4; [done|]. unfold parser_bind, read_given_char. destruct l1 as [|b l1]; [done|].
    destruct (byte_eqb b x3a) eqn:Hb; [|done]. apply byte_eqb_eq in Hb as ->. intros _. subst l.
    apply elem_of_app. right. by left.
Qed.

Lemma parse_ip_addr_v6_colon (s : bytes) (a : Ipv6Addr) : parse_ip_addr s = Some (IpV6 a) -> x3a ∈ s.
Proof.
  unfold parse_ip_addr, parse_with, read_ip_addr.
  destruct (read_ipv4_addr s) as [[b [|]]|]; [done..|].
  destruct (read_ipv6_addr s) as [[b l]|] eqn:E; [|done]. intros _. by eapply read_ipv6_addr_colon.
Qed.

Lemma parse_ip_addr_v6_bytes (s : bytes) (a : Ipv6Addr) : parse_ip_addr s = Some (IpV6 a) -> all ipv6_byte s = true.
Proof.
  unfold parse_ip_addr, parse_with, read_ip_addr.
  destruct (read_ipv4_addr s) as [[b [|]]|]; [done..|].
  destruct (read_ipv6_addr s) as [[b l]|] eqn:E; [|done]. apply eats_ipv6 in E as (pre & -> & Hpre).
  destruct l; [|done]. by rewrite app_nil_r.
Qed.
