(* ===== verification/Http.v ===== *)
(** * HTTP/1.1 requests and locally generated responses: [src/http.rs] *)
From Stdlib Require Import ZArith Lia.
From stdpp Require Import prelude.
From S2P Require Import Prelude Bytes NetAddr.
Local Open Scope Z_scope.
Set Warnings "-clear-no-such-hyp".

Inductive HttpVersion : Type :=
| Http11.

Definition MAX_REQUEST_LINE_SIZE : Z := 8192.
Definition MAX_HEADER_SIZE : Z := 8192.
Definition MAX_HEADER_BLOCK_SIZE : Z := 32768.
Definition MAX_HEADER_COUNT : Z := 100.
Definition MAX_REQUEST_HEAD_SIZE : Z := MAX_REQUEST_LINE_SIZE + 2 + MAX_HEADER_BLOCK_SIZE + 4.

Record Header : Type := mkHeader {
  name : bytes;
  value : bytes
}.

Inductive StatusCode : Type :=
| StatusOk
| BadRequest
| NotFound
| MethodNotAllowed
| ContentTooLarge
| RequestHeaderFieldsTooLarge
| InternalServerError
| BadGateway
| ServiceUnavailable
| GatewayTimeout.

Definition code (status : StatusCode) : Z :=
  match status with
  | StatusOk => 200
  | BadRequest => 400
  | NotFound => 404
  | MethodNotAllowed => 405
  | ContentTooLarge => 413
  | RequestHeaderFieldsTooLarge => 431
  | InternalServerError => 500
  | BadGateway => 502
  | ServiceUnavailable => 503
  | GatewayTimeout => 504
  end.

Definition reason_phrase (status : StatusCode) : bytes :=
  match status with
  | StatusOk => str "OK"
  | BadRequest => str "Bad Request"
  | NotFound => str "Not Found"
  | MethodNotAllowed => str "Method Not Allowed"
  | ContentTooLarge => str "Content Too Large"
  | RequestHeaderFieldsTooLarge => str "Request Header Fields Too Large"
  | InternalServerError => str "Internal Server Error"
  | BadGateway => str "Bad Gateway"
  | ServiceUnavailable => str "Service Unavailable"
  | GatewayTimeout => str "Gateway Timeout"
  end.

Inductive ResponseError : Type :=
| InvalidHeaderName
| InvalidHeaderValue
| ManagedHeader (name : bytes).

Record Response : Type := mkResponse {
  response_status : StatusCode;
  response_headers : list Header;
  response_body : bytes
}.

Record Request : Type := mkRequest {
  method : bytes;
  target : bytes;
  version : HttpVersion;
  headers : list Header;
  content_length : option Z;
  has_transfer_encoding : bool;
  keep_alive : bool
}.

Inductive ParseError : Type :=
| IncompleteHeaders
| InvalidRequestLine
| InvalidHeader
| InvalidContentLength
| ConflictingContentLength
| InvalidTransferEncoding
| AmbiguousBodyFraming
| RequestLineTooLong
| HeaderTooLong
| HeadersTooLarge
| TooManyHeaders
| UnsupportedVersion (version : bytes).

(** [Display] of [HttpVersion], [ResponseError] and [ParseError]. *)
Definition version_to_string (v : HttpVersion) : bytes :=
  match v with
  | Http11 => str "HTTP/1.1"
  end.

Definition response_error_to_string (e : ResponseError) : bytes :=
  match e with
  | InvalidHeaderName => str "invalid HTTP response header name"
  | InvalidHeaderValue => str "invalid HTTP response header value"
  | ManagedHeader n => str "BareProxy manages response header: " ++ n
  end.

Definition parse_error_to_string (e : ParseError) : bytes :=
  match e with
  | IncompleteHeaders => str "incomplete HTTP request headers"
  | InvalidRequestLine => str "invalid HTTP request line"
  | InvalidHeader => str "invalid HTTP header"
  | InvalidContentLength => str "invalid Content-Length"
  | ConflictingContentLength => str "conflicting Content-Length values"
  | InvalidTransferEncoding => str "invalid or unsupported Transfer-Encoding"
  | AmbiguousBodyFraming => str "request contains both Content-Length and Transfer-Encoding"
  | RequestLineTooLong => str "HTTP request line is too long"
  | HeaderTooLong => str "HTTP header is too long"
  | HeadersTooLarge => str "HTTP header block is too large"
  | TooManyHeaders => str "too many HTTP headers"
  | UnsupportedVersion v => str "unsupported HTTP version: " ++ v
  end.

(** ** Byte classes and slices *)
Definition is_token_byte (b : byte) : bool :=
  existsb (byte_eqb b) (str "!#$%&'*+-.^_`|~")
  || in_range x30 x39 b || in_range x41 x5a b || in_range x61 x7a b.

Definition is_valid_header_value_byte (b : byte) : bool :=
  byte_eqb b HTAB || in_range x20 x7e b || in_range x80 xff b.

Definition is_valid_method (method : bytes) : bool := all is_token_byte method.

Definition is_valid_target (target : bytes) : bool :=
  all (fun b => negb (is_ascii_control b) && negb (byte_eqb b SP)) target.

Definition find_bytes (haystack needle : bytes) : option nat := windows_position needle haystack.

Definition is_ows (b : byte) : bool := byte_eqb b SP || byte_eqb b HTAB.

Definition trim_optional_whitespace (value : bytes) : bytes :=
  let value := drop_while is_ows value in
  rev (drop_while is_ows (rev value)).

Definition named (n : bytes) (h : Header) : bool := eq_ignore_ascii_case (name h) n.

(** [value.split(',').map(trim_optional_whitespace)] *)
Definition comma_elements (value : bytes) : list bytes :=
  map trim_optional_whitespace (split_on (byte_eqb x2c) value).

(** ** Responses *)
Definition new_response (status : StatusCode) (body : bytes) : Response :=
  {| response_status := status; response_headers := []; response_body := body |}.

Definition validate_response_header (name value : bytes) : res ResponseError unit :=
  if eq_ignore_ascii_case name (str "content-length")
     || eq_ignore_ascii_case name (str "transfer-encoding")
  then Err (ManagedHeader name)
  else if bool_decide (name = []) || negb (all is_token_byte name) then Err InvalidHeaderName
  else if negb (all is_valid_header_value_byte value) then Err InvalidHeaderValue
  else Ok tt.

Definition with_header (r : Response) (name value : bytes) : res ResponseError Response :=
  let? _ := validate_response_header name value in
  Ok {| response_status := response_status r;
        response_headers := response_headers r ++ [mkHeader name value];
        response_body := response_body r |}.

Definition serialize_header (h : Header) : bytes := name h ++ str ": " ++ value h ++ CRLF.

Definition serialize (r : Response) : res ResponseError bytes :=
  let? _ := res_mapM (fun h => validate_response_header (name h) (value h)) (response_headers r) in
  Ok (str "HTTP/1.1 " ++ to_dec (code (response_status r)) ++ [SP]
      ++ reason_phrase (response_status r) ++ CRLF
      ++ concat (map serialize_header (response_headers r))
      ++ str "Content-Length: " ++ to_dec (len (response_body r)) ++ CRLF
      ++ CRLF
      ++ response_body r).

(** ** The Host authority *)
Definition is_valid_authority_port (port : bytes) : bool :=
  negb (bool_decide (port = [])) && all is_ascii_digit port
  && match parse_uint u16_max port with Some _ => true | None => false end.

Definition is_valid_authority_hostname_label (label : bytes) : res Empty_set bool :=
  if bool_decide (label = []) || (63 <? len label) then Ok false
  else
    let? first := index label 0 in
    let? last := index label (length label - 1) in
    if negb (is_ascii_alphanumeric first) || negb (is_ascii_alphanumeric last) then Ok false
    else Ok (all (fun b => is_ascii_alphanumeric b || byte_eqb b x2d) label).

Definition is_valid_authority_hostname (hostname : bytes) : res Empty_set bool :=
  let hostname := default hostname (strip_suffix x2e hostname) in
  if bool_decide (hostname = []) || (253 <? len hostname) then Ok false
  else res_all is_valid_authority_hostname_label (split_on (byte_eqb x2e) hostname).

Definition is_valid_host_authority (authority : bytes) : res Empty_set bool :=
  if bool_decide (authority = []) || negb (all is_ascii authority) then Ok false
  else
    match strip_prefix x5b authority with
    | Some rest =>
        match position (byte_eqb x5d) rest with
        | None => Ok false
        | Some closing =>
            let? address := slice_to rest closing in
            let? remainder := slice_from rest (closing + 1) in
            match parse_ipv6_addr address with
            | None => Ok false
            | Some _ =>
                Ok (bool_decide (remainder = [])
                    || match strip_prefix x3a remainder with
                       | Some port => is_valid_authority_port port
                       | None => false
                       end)
            end
        end
    | None =>
        if existsb (fun b => existsb (byte_eqb b) (str "[]@/?#")) authority then Ok false
        else
          let split := rsplit_once x3a authority in
          if match split with Some (hostname, _) => contains x3a hostname | None => false end
          then Ok false
          else
            let '(hostname, port) :=
              match split with
              | Some (hostname, port) => (hostname, Some port)
              | None => (authority, None)
              end in
            let? valid := is_valid_authority_hostname hostname in
            if negb valid then Ok false
            else Ok (match port with None => true | Some port => is_valid_authority_port port end)
    end.

(** [Request::host]: the only Host header, when it is a valid authority. *)
Definition host (r : Request) : res Empty_set (option bytes) :=
  match filter (fun h => named (str "host") h = true) (headers r) with
  | [h] =>
      if utf8_valid (value h) then
        let? valid := is_valid_host_authority (value h) in
        Ok (if valid then Some (value h) else None)
      else Ok None
  | _ => Ok None
  end.

(** ** Requests *)
Definition parse_request_line (input : bytes) : res ParseError (bytes * bytes * HttpVersion) :=
  if negb (utf8_valid input) then Err InvalidRequestLine
  else
    match split_on (byte_eqb SP) input with
    | method :: target :: version :: parts =>
        if negb (bool_decide (parts = []))
           || bool_decide (method = [])
           || bool_decide (target = [])
           || negb (is_valid_method method)
           || negb (is_valid_target target)
        then Err InvalidRequestLine
        else if bool_decide (version = str "HTTP/1.1") then Ok (method, target, Http11)
        else if starts_with (str "HTTP/") version then Err (UnsupportedVersion version)
        else Err InvalidRequestLine
    | _ => Err InvalidRequestLine
    end.

Definition parse_header (input : bytes) : res ParseError Header :=
  let? separator := ok_or (position (byte_eqb x3a) input) InvalidHeader in
  let? name := slice_to input separator in
  let? rest := slice_from input (separator + 1) in
  let value := trim_optional_whitespace rest in
  if bool_decide (name = []) || negb (all is_token_byte name) then Err InvalidHeader
  else if negb (all is_valid_header_value_byte value) then Err InvalidHeader
  else if negb (utf8_valid name) then Err InvalidHeader
  else Ok (mkHeader name value).

Fixpoint parse_headers_loop (fuel : nat) (headers : list Header) (remaining : bytes)
  : res ParseError (list Header) :=
  match fuel with
  | O => Fuel
  | S fuel' =>
      let line_end := default (length remaining) (find_bytes remaining CRLF) in
      let? line := slice_to remaining line_end in
      if MAX_HEADER_SIZE <? len line then Err HeaderTooLong
      else if MAX_HEADER_COUNT <=? len headers then Err TooManyHeaders
      else
        let? header := parse_header line in
        let headers := headers ++ [header] in
        if (line_end =? length remaining)%nat then Ok headers
        else
          let? remaining := slice_from remaining (line_end + 2) in
          parse_headers_loop fuel' headers remaining
  end.

(** Every round but the last drops at least the two bytes of a CRLF. *)
Definition parse_headers (input : bytes) : res ParseError (list Header) :=
  match input with
  | [] => Ok []
  | _ => parse_headers_loop (S (length input)) [] input
  end.

Definition content_length_element (content_length : option Z) (value : bytes) : res ParseError (option Z) :=
  let value := trim_matches is_ows value in
  if bool_decide (value = []) || negb (all is_ascii_digit value) then Err InvalidContentLength
  else
    let? parsed := ok_or (parse_uint u64_max value) InvalidContentLength in
    match content_length with
    | Some existing => if existing =? parsed then Ok (Some existing) else Err ConflictingContentLength
    | None => Ok (Some parsed)
    end.

Definition content_length_header (content_length : option Z) (h : Header) : res ParseError (option Z) :=
  if utf8_valid (value h)
  then res_foldM content_length_element content_length (split_on (byte_eqb x2c) (value h))
  else Err InvalidContentLength.

Definition parse_content_length (headers : list Header) : res ParseError (option Z) :=
  res_foldM content_length_header None
    (filter (fun h => named (str "content-length") h = true) headers).

Definition transfer_coding (saw_chunked : bool) (coding : bytes) : res ParseError bool :=
  let coding := trim_optional_whitespace coding in
  if bool_decide (coding = []) || negb (eq_ignore_ascii_case coding (str "chunked")) || saw_chunked
  then Err InvalidTransferEncoding
  else Ok true.

Definition parse_transfer_encoding (headers : list Header) : res ParseError bool :=
  res_foldM (fun saw h => res_foldM transfer_coding saw (split_on (byte_eqb x2c) (value h))) false
    (filter (fun h => named (str "transfer-encoding") h = true) headers).

Definition header_contains_token (headers : list Header) (n token : bytes) : bool :=
  existsb (fun h => existsb (fun v => eq_ignore_ascii_case v token) (comma_elements (value h)))
    (filter (fun h => named n h = true) headers).

Definition parse_request_with_consumed (input : bytes) : res ParseError (Request * nat) :=
  let? request_line_end :=
    match find_bytes input CRLF with
    | Some i => Ok i
    | None => if MAX_REQUEST_LINE_SIZE <? len input then Err RequestLineTooLong else Err IncompleteHeaders
    end in
  if MAX_REQUEST_LINE_SIZE <? Z.of_nat request_line_end then Err RequestLineTooLong
  else
    let? header_end :=
      match find_bytes input (CRLF ++ CRLF) with
      | Some i => Ok i
      | None => if MAX_REQUEST_HEAD_SIZE <=? len input then Err HeadersTooLarge else Err IncompleteHeaders
      end in
    if (header_end <? request_line_end)%nat then Err InvalidRequestLine
    else
      let? header_block :=
        if (request_line_end =? header_end)%nat then Ok []
        else slice input (request_line_end + 2) header_end in
      if MAX_HEADER_BLOCK_SIZE <? len header_block then Err HeadersTooLarge
      else
        let? request_line := slice_to input request_line_end in
        let? (method, target, version) := parse_request_line request_line in
        let? headers := parse_headers header_block in
        let? content_length := parse_content_length headers in
        let? has_transfer_encoding := parse_transfer_encoding headers in
        if bool_decide (is_Some content_length) && has_transfer_encoding then Err AmbiguousBodyFraming
        else
          let keep_alive := negb (header_contains_token headers (str "connection") (str "close")) in
          Ok ({| method := method; target := target; version := version; headers := headers;
                 content_length := content_length;
                 has_transfer_encoding := has_transfer_encoding; keep_alive := keep_alive |},
              (header_end + 4)%nat).

(** ** Field lines *)
Lemma trim_optional_whitespace_eq (v : bytes) : trim_optional_whitespace v = trim_matches is_ows v.
Proof. done. Qed.

(** The grammar of a field line: name, colon, optional white space around the value. *)
Record header_line (line : bytes) (h : Header) : Prop := {
  header_line_shape : exists pre post,
    line = name h ++ x3a :: pre ++ value h ++ post /\
    Forall (fun b => is_ows b = true) pre /\ Forall (fun b => is_ows b = true) post;
  header_line_name : name h <> [] /\ all is_token_byte (name h) = true;
  header_line_value : all is_valid_header_value_byte (value h) = true /\ trimmed is_ows (value h)
}.

Lemma token_ascii (b : byte) : is_token_byte b = true -> is_ascii b = true.
Proof. byte_cases b. Qed.

Lemma token_not_colon (n : bytes) : all is_token_byte n = true -> x3a ∉ n.
Proof. intros H. by apply (all_not_elem _ _ _ H). Qed.

Lemma parse_header_iff (line : bytes) (h : Header) : parse_header line = Ok h <-> header_line line h.
Proof.
  unfold parse_header. split.
  - intros H. inv_res. apply position_byte_Some in H0 as (n & rest & -> & <- & Hn).
    rewrite Nat.add_1_r, take_app_length, drop_app_ge in * by lia.
    rewrite Nat.sub_succ_l, Nat.sub_diag in * by lia. rewrite skipn_cons, drop_0 in *.
    apply orb_false_iff in Heqb as [Hne%bool_decide_eq_false Htok%negb_false_iff].
    apply negb_false_iff in Heqb0.
    destruct (trim_matches_sound is_ows rest) as (pre & post & Hrest & Hpre & Hpost).
    constructor; cbn [name value].
    + exists pre, post. by rewrite trim_optional_whitespace_eq, <- Hrest.
    + done.
    + split; [done|]. apply trim_matches_trimmed.
  - intros [(pre & post & -> & Hpre & Hpost) [Hne Htok] [Hv Htr]].
    rewrite position_byte by (by apply token_not_colon). cbn [ok_or res_bind].
    rewrite slice_to_Ok by (rewrite length_app; lia).
    rewrite slice_from_Ok by (rewrite length_app; simpl; lia). cbn [res_bind].
    rewrite Nat.add_1_r, take_app_length, drop_app_ge by lia.
    rewrite Nat.sub_succ_l, Nat.sub_diag by lia. rewrite skipn_cons, drop_0.
    rewrite trim_optional_whitespace_eq, trim_matches_eq by done.
    rewrite bool_decide_false, Htok, Hv by done. cbn [orb negb].
    rewrite utf8_valid_ascii; [by destruct h|]. eapply all_impl; [apply token_ascii|done].
Qed.

Lemma header_line_no (c : byte) (line : bytes) (h : Header) :
  is_token_byte c = false -> is_valid_header_value_byte c = false -> is_ows c = false -> c <> x3a ->
  header_line line h -> c ∉ line.
Proof.
  intros Ht Hv Ho Hc [(pre & post & -> & Hpre & Hpost) [_ Htok] [Hval _]].
  rewrite !elem_of_app, elem_of_cons, !elem_of_app.
  assert (Hows : forall l, Forall (fun b => is_ows b = true) l -> c ∉ l).
  { intros l Hl Hin. rewrite Forall_forall in Hl. specialize (Hl _ Hin). congruence. }
  intros [H|[H|[H|[H|H]]]]; [|done|by apply Hows in H| |by apply Hows in H].
  - by apply (all_not_elem _ _ _ Htok) in H.
  - by apply (all_not_elem _ _ _ Hval) in H.
Qed.

Lemma header_line_no_CR (line : bytes) (h : Header) : header_line line h -> CR ∉ line.
Proof. by apply header_line_no. Qed.

Lemma header_line_no_LF (line : bytes) (h : Header) : header_line line h -> LF ∉ line.
Proof. by apply header_line_no. Qed.

(** A line that can stand before a CRLF: not empty, and without a CR of its own. *)
Definition crlf_free (l : bytes) : Prop := l <> [] /\ CR ∉ l.

Lemma header_line_crlf_free (line : bytes) (h : Header) : header_line line h -> crlf_free line.
Proof.
  intros H. split; [|by eapply header_line_no_CR].
  destruct H as [(pre & post & -> & _) _ _]. by destruct (name h).
Qed.

Lemma header_lines_crlf_free (lines : list bytes) (hs : list Header) :
  Forall2 header_line lines hs -> Forall crlf_free lines.
Proof. induction 1; constructor; [by eapply header_line_crlf_free|done]. Qed.

(** ** The field section *)
Lemma join_length (lines : list bytes) :
  Forall (fun l => l <> []) lines -> (length lines <= length (join CRLF lines))%nat.
Proof.
  induction 1 as [|l lines Hl Hlines IH]; [done|].
  assert (1 <= length l)%nat by (destruct l; [done|simpl; lia]).
  destruct lines as [|k lines]; [done|]. rewrite join_cons by done.
  rewrite !length_app. simpl in *. lia.
Qed.

Lemma parse_headers_loop_complete (fuel : nat) (acc hs : list Header) (lines : list bytes) :
  Forall2 header_line lines hs -> lines <> [] ->
  Forall (fun l => len l <= MAX_HEADER_SIZE) lines -> len (acc ++ hs) <= MAX_HEADER_COUNT ->
  (length lines <= fuel)%nat ->
  parse_headers_loop fuel acc (join CRLF lines) = Ok (acc ++ hs).
Proof.
  intros Hl. revert fuel acc. induction Hl as [|l h lines hs Hlh Hl IH]; intros fuel acc; [done|].
  intros _ Hsz Hcnt Hfuel. inversion Hsz as [|? ? Hs1 Hs2]; subst.
  destruct fuel as [|fuel]; [simpl in Hfuel; lia|]. cbn [parse_headers_loop].
  pose proof (header_line_no_CR _ _ Hlh) as HnoCR. apply parse_header_iff in Hlh as Hp.
  assert (Hacc : (MAX_HEADER_COUNT <=? len acc) = false).
  { apply Z.leb_gt. rewrite len_app, len_cons in Hcnt. pose proof (len_nonneg hs). lia. }
  assert (Hlen : (MAX_HEADER_SIZE <? len l) = false) by (apply Z.ltb_ge; done).
  destruct lines as [|k lines].
  - inversion Hl; subst. cbn [join]. unfold find_bytes. unfold CRLF.
    rewrite windows_position_absent by done. cbn [from_option id].
    rewrite slice_to_Ok by done. cbn [res_bind]. rewrite firstn_all, Hlen, Hacc, Hp.
    cbn [res_bind]. by rewrite Nat.eqb_refl.
  - rewrite join_cons by done. set (rest := join CRLF (k :: lines)) in *.
    unfold find_bytes. rewrite windows_position_CRLF by done. cbn [from_option id].
    rewrite slice_to_Ok by (rewrite length_app; lia). cbn [res_bind].
    rewrite take_app_length, Hlen, Hacc, Hp. cbn [res_bind].
    replace (length l =? length (l ++ CRLF ++ rest))%nat with false
      by (symmetry; apply Nat.eqb_neq; rewrite !length_app; simpl; lia).
    rewrite slice_from_Ok by (rewrite !length_app; simpl; lia). cbn [res_bind].
    rewrite app_assoc, drop_app_length' by (by rewrite length_app).
    rewrite IH; [|done|done| |simpl in *; lia].
    + by rewrite <- app_assoc.
    + by rewrite <- app_assoc.
Qed.

Lemma parse_headers_loop_sound (fuel : nat) (acc hs : list Header) (remaining : bytes) :
  parse_headers_loop fuel acc remaining = Ok hs ->
  exists lines new, lines <> [] /\ remaining = join CRLF lines /\ hs = acc ++ new /\
    Forall2 header_line lines new /\ Forall (fun l => len l <= MAX_HEADER_SIZE) lines /\
    len hs <= MAX_HEADER_COUNT.
Proof.
  revert acc remaining. induction fuel as [|fuel IH]; intros acc remaining; [done|].
  cbn [parse_headers_loop]. unfold find_bytes.
  destruct (windows_position CRLF remaining) as [i|] eqn:Hw; cbn [from_option id]; intros H.
  - apply windows_position_Some in Hw as (l & post & -> & <-).
    rewrite slice_to_Ok in H by (rewrite length_app; lia).
    cbn [res_bind] in H. rewrite take_app_length in H. inv_res.
    + apply Nat.eqb_eq in Heqb1. rewrite length_app in Heqb1. simpl in *. lia.
    + apply IH in H as (lines & new & Hne & Hj & -> & H2 & Hsz & Hcnt).
      change (CR :: LF :: post) with (CRLF ++ post) in Hj.
      rewrite app_assoc, drop_app_length' in Hj by (by rewrite length_app).
      exists (l :: lines), (x :: new). apply Z.ltb_ge in Heqb. apply parse_header_iff in H0.
      split_and!; try done; [|by rewrite <- app_assoc|by constructor|by constructor].
      rewrite join_cons, <- Hj by done. done.
  - rewrite slice_to_Ok in H by done. inv_res; [|by rewrite Nat.eqb_refl in *].
    exists [remaining], [x]. rewrite firstn_all in *. apply parse_header_iff in H0.
    apply Z.ltb_ge in Heqb. apply Z.leb_gt in Heqb0.
    split_and!; try done; [by constructor|by constructor|]. rewrite len_app, len_cons, len_nil. lia.
Qed.

(** ** The request line *)
Definition request_line (m t : bytes) : bytes := m ++ [SP] ++ t ++ [SP] ++ str "HTTP/1.1".

Definition valid_method (m : bytes) : Prop := m <> [] /\ is_valid_method m = true.
Definition valid_target (t : bytes) : Prop := t <> [] /\ is_valid_target t = true.

Lemma valid_method_no (c : byte) (m : bytes) : is_token_byte c = false -> valid_method m -> c ∉ m.
Proof. intros Hc [_ H]. by apply (all_not_elem _ _ _ H). Qed.

Lemma valid_target_no (c : byte) (t : bytes) :
  is_ascii_control c = true \/ c = SP -> valid_target t -> c ∉ t.
Proof.
  intros Hc [_ H]. apply (all_not_elem _ _ _ H). destruct Hc as [-> | ->]; done.
Qed.

Lemma request_line_no_CR (m t : bytes) : valid_method m -> valid_target t -> CR ∉ request_line m t.
Proof.
  intros Hm Ht. unfold request_line. rewrite !elem_of_app, !list_elem_of_singleton.
  intros [H|[H|[H|[H|H]]]]; try discriminate.
  - by apply valid_method_no in H.
  - apply valid_target_no in H; [done|by left|done].
  - apply contains_elem in H. discriminate.
Qed.

Lemma parse_request_line_iff (line m t : bytes) (v : HttpVersion) :
  parse_request_line line = Ok (m, t, v) <->
  line = request_line m t /\ valid_method m /\ valid_target t /\ utf8_valid line = true.
Proof.
  unfold parse_request_line. split.
  - intros H. inv_res. apply negb_false_iff in Heqb.
    apply orb_false_iff in Heqb0 as [Heqb0 Ht]. apply orb_false_iff in Heqb0 as [Heqb0 Hm].
    apply orb_false_iff in Heqb0 as [Heqb0 Ht']. apply orb_false_iff in Heqb0 as [Hp Hm'].
    apply negb_false_iff, bool_decide_eq_true in Hp. apply bool_decide_eq_false in Hm', Ht'.
    apply negb_false_iff in Hm, Ht. apply bool_decide_eq_true in Heqb1. subst.
    pose proof (join_split_on SP line) as Hj. rewrite Heql in Hj. done.
  - intros (-> & Hm & Ht & ->). cbn [negb].
    assert (E : split_on (byte_eqb SP) (request_line m t) = [m; t; str "HTTP/1.1"]).
    { apply (split_on_join SP [m; t; str "HTTP/1.1"]); [done|].
      repeat constructor; [by apply valid_method_no|apply valid_target_no; auto|by apply contains_false]. }
    rewrite E. destruct Hm as [Hm1 ->], Ht as [Ht1 ->].
    rewrite (bool_decide_false (m = [])), (bool_decide_false (t = [])) by done.
    by destruct v.
Qed.

(** ** Framing

    What a list of header fields says about the body, stated on the values of all the
    fields of that name, whatever their number and order. *)
Definition named_headers (n : bytes) (hs : list Header) : list Header :=
  filter (fun h => named n h = true) hs.

Definition elements_of (n : bytes) (hs : list Header) : list bytes :=
  concat (map (fun h => comma_elements (value h)) (named_headers n hs)).

Definition content_length_spec (hs : list Header) (o : option Z) : Prop :=
  match o with
  | None => elements_of (str "content-length") hs = []
  | Some n =>
      elements_of (str "content-length") hs <> [] /\ n <= u64_max /\
      Forall (fun v => v <> [] /\ all is_ascii_digit v = true /\ digits_value 10 0 v = Some n)
        (elements_of (str "content-length") hs)
  end.

Definition transfer_encoding_spec (hs : list Header) (chunked : bool) : Prop :=
  if chunked
  then exists c, elements_of (str "transfer-encoding") hs = [c] /\ eq_ignore_ascii_case c (str "chunked") = true
  else elements_of (str "transfer-encoding") hs = [].

Lemma comma_elements_ne (v : bytes) : comma_elements v <> [].
Proof. unfold comma_elements. intros H%map_eq_nil. by apply split_on_ne in H. Qed.

(** Folding over the headers is folding over their elements. *)
Lemma res_foldM_elements {S : Type} (f : S -> bytes -> res ParseError S) (s : S) (hs : list Header) (n : bytes) :
  (forall s v, f s (trim_optional_whitespace v) = f s v) ->
  res_foldM (fun s h => res_foldM f s (split_on (byte_eqb x2c) (value h))) s (named_headers n hs) =
  res_foldM f s (elements_of n hs).
Proof.
  intros Hf. unfold elements_of. revert s. induction (named_headers n hs) as [|h l IH]; intros s; [done|].
  cbn [map concat res_foldM]. rewrite res_foldM_app.
  assert (E : forall s vs, res_foldM f s (map trim_optional_whitespace vs) = res_foldM f s vs).
  { intros s' vs. revert s'. induction vs as [|v vs IHv]; intros s'; [done|].
    cbn [map res_foldM]. rewrite Hf. by destruct (f s' v); cbn [res_bind]. }
  unfold comma_elements. rewrite E. by destruct (res_foldM f s _); cbn [res_bind].
Qed.

Lemma trim_idem (v : bytes) :
  trim_optional_whitespace (trim_optional_whitespace v) = trim_optional_whitespace v.
Proof. rewrite !trim_optional_whitespace_eq. apply trim_matches_id, trim_matches_trimmed. Qed.

Lemma elements_of_trim (n : bytes) (hs : list Header) (v : bytes) :
  v ∈ elements_of n hs -> trim_optional_whitespace v = v.
Proof.
  intros (l & Hl & Hv)%list_elem_of_In%in_concat. apply in_map_iff in Hl as (h & <- & _).
  apply in_map_iff in Hv as (w & <- & _). apply trim_idem.
Qed.

Lemma parse_transfer_encoding_iff (hs : list Header) (b : bool) :
  parse_transfer_encoding hs = Ok b <-> transfer_encoding_spec hs b.
Proof.
  unfold parse_transfer_encoding, transfer_encoding_spec. fold (named_headers (str "transfer-encoding") hs).
  rewrite res_foldM_elements by (intros; unfold transfer_coding; by rewrite trim_idem).
  pose proof (elements_of_trim (str "transfer-encoding") hs) as Hid.
  destruct (elements_of (str "transfer-encoding") hs) as [|c l].
  { simpl. destruct b; split; try done. by intros (? & ? & ?). }
  cbn [res_foldM]. unfold transfer_coding at 1. rewrite (Hid c) by (by left). rewrite orb_false_r.
  destruct (eq_ignore_ascii_case c (str "chunked")) eqn:Ec.
  - rewrite (bool_decide_false (c = [])) by (by intros ->). cbn [negb orb res_bind].
    destruct l as [|d l].
    + cbn. destruct b; split; try done. by exists c.
    + cbn [res_foldM]. unfold transfer_coding at 1. rewrite orb_true_r. cbn [res_bind].
      split; [done|]. destruct b; [|done]. by intros (? & ? & ?).
  - rewrite orb_true_r. cbn [res_bind]. split; [done|]. destruct b; [|done].
    intros (? & ? & ?). simplify_eq. congruence.
Qed.

Definition cl_value (v : bytes) (n : Z) : Prop :=
  v <> [] /\ all is_ascii_digit v = true /\ digits_value 10 0 v = Some n.

Lemma parse_uint_digits (v : bytes) :
  v <> [] -> all is_ascii_digit v = true ->
  exists n, 0 <= n /\ digits_value 10 0 v = Some n /\
            parse_uint u64_max v = if n <=? u64_max then Some n else None.
Proof.
  intros Hne Hd. assert (Hs : is_Some (digits_value 10 0 v)).
  { apply (digits_value_all is_ascii_digit); [|done]. intros b Hb. rewrite to_digit_10; eauto. }
  destruct Hs as [n Hn]. exists n. unfold parse_uint.
  rewrite (from_str_radix_digits _ _ is_ascii_digit) by done. rewrite Hn.
  split_and!; try done. by eapply digits_value_ge; [..|exact Hn].
Qed.

Lemma content_length_element_Ok (o : option Z) (v : bytes) (r : option Z) :
  content_length_element o v = Ok r <->
  exists n, r = Some n /\ n <= u64_max /\ cl_value (trim_optional_whitespace v) n /\ (o = None \/ o = Some n).
Proof.
  unfold content_length_element. change (trim_optional_whitespace v) with (trim_matches is_ows v).
  set (w := trim_matches is_ows v).
  unfold cl_value. destruct (decide (w = [])) as [E|Hne].
  { rewrite bool_decide_true by done. cbn [orb]. split; [done|]. naive_solver. }
  rewrite bool_decide_false by done. destruct (all is_ascii_digit w) eqn:Hd; cbn [orb negb].
  2: { split; [done|]. naive_solver. }
  destruct (parse_uint_digits w Hne Hd) as (n & Hn0 & Hn & Hp). rewrite Hp.
  destruct (Z.leb_spec n u64_max) as [Hle|Hgt]; cbn [ok_or res_bind].
  - split.
    + destruct o as [e|]; [destruct (Z.eqb_spec e n) as [->|]|]; intros; simplify_eq; exists n; eauto 8.
    + intros (m & -> & _ & (_ & _ & Hm) & [-> | ->]); simplify_eq; [done|]. by rewrite Z.eqb_refl.
  - split; [done|]. intros (m & _ & Hm & (_ & _ & Hm') & _). simplify_eq. lia.
Qed.

Lemma res_foldM_content_length (vs : list bytes) (o r : option Z) :
  res_foldM content_length_element o vs = Ok r <->
  (vs = [] /\ r = o) \/
  (exists n, vs <> [] /\ r = Some n /\ n <= u64_max /\
     Forall (fun v => cl_value (trim_optional_whitespace v) n) vs /\ (o = None \/ o = Some n)).
Proof.
  revert o. induction vs as [|v vs IH]; intros o; cbn [res_foldM].
  { split; [intros; simplify_eq; by left|]. intros [[_ ->]|(n & ? & _)]; done. }
  rewrite res_bind_Ok. setoid_rewrite content_length_element_Ok. split.
  - intros (a & (n & -> & Hn & Hv & Ho) & [[-> ->]|(m & Hne & -> & Hm & Hvs & Hnm)]%IH); right.
    + exists n. split_and!; try done. by constructor.
    + exists n. destruct Hnm as [?|?]; simplify_eq. split_and!; try done. by constructor.
  - intros [[? _]|(n & _ & -> & Hn & Hf & Ho)]; [done|]. inversion Hf as [|? ? Hv Hvs]; subst.
    exists (Some n). split; [eauto 8|]. apply IH.
    destruct vs as [|w vs]; [by left|]. right. exists n. eauto 8.
Qed.

Lemma cl_value_ascii (v : bytes) (n : Z) :
  cl_value (trim_optional_whitespace v) n -> all is_ascii v = true.
Proof.
  rewrite trim_optional_whitespace_eq. intros (_ & Hd & _).
  destruct (trim_matches_sound is_ows v) as (pre & post & Hv & Hpre & Hpost).
  rewrite Hv, !all_app.
  assert (Ho : forall l, Forall (fun b => is_ows b = true) l -> all is_ascii l = true).
  { intros l Hl. apply all_impl with is_ows; [intros b; byte_cases b|]. by apply all_Forall. }
  rewrite (Ho pre), (Ho post) by done. rewrite (all_impl is_ascii_digit is_ascii) by (done || (intros b; byte_cases b)).
  done.
Qed.

(** A field all of whose elements are lengths is ASCII text. *)
Lemma cl_elements_ascii (v : bytes) (n : Z) :
  Forall (fun e => cl_value (trim_optional_whitespace e) n) (split_on (byte_eqb x2c) v) -> utf8_valid v = true.
Proof.
  intros H. apply utf8_valid_ascii. rewrite <- (join_split_on x2c v).
  assert (Ha : Forall (fun e => all is_ascii e = true) (split_on (byte_eqb x2c) v))
    by (eapply Forall_impl; [exact H|]; intros e He; exact (cl_value_ascii e n He)).
  clear H. induction Ha as [|e es He Hes IH]; [done|]. destruct es as [|e' es]; [done|].
  rewrite join_cons by done. by rewrite !all_app, He, IH.
Qed.

Lemma content_length_headers_Ok (hs : list Header) (o r : option Z) :
  res_foldM content_length_header o hs = Ok r <->
  res_foldM (fun s h => res_foldM content_length_element s (split_on (byte_eqb x2c) (value h))) o hs = Ok r.
Proof.
  revert o. induction hs as [|h hs IH]; intros o; [done|]. cbn [res_foldM]. rewrite !res_bind_Ok.
  setoid_rewrite IH. unfold content_length_header at 1. split; intros (a & H & Hr); exists a; split; try done.
  - by destruct (utf8_valid (value h)).
  - apply res_foldM_content_length in H as H'.
    destruct H' as [[E _]|(n & _ & _ & _ & Hf & _)]; [by apply split_on_ne in E|].
    by rewrite (cl_elements_ascii _ _ Hf).
Qed.

Lemma parse_content_length_iff (hs : list Header) (o : option Z) :
  parse_content_length hs = Ok o <-> content_length_spec hs o.
Proof.
  unfold parse_content_length, content_length_spec. fold (named_headers (str "content-length") hs).
  rewrite content_length_headers_Ok, res_foldM_elements, res_foldM_content_length.
  2: { intros s v. unfold content_length_element.
       by rewrite <- (trim_optional_whitespace_eq (trim_optional_whitespace v)), trim_idem. }
  assert (Hid : forall n, Forall (fun v => cl_value (trim_optional_whitespace v) n) (elements_of (str "content-length") hs)
                      <-> Forall (fun v => cl_value v n) (elements_of (str "content-length") hs)).
  { intros n. rewrite !Forall_forall. split; intros H v Hv; specialize (H v Hv); revert H;
      by rewrite (elements_of_trim _ _ _ Hv). }
  destruct o as [n|].
  - split.
    + intros [[_ ?]|(m & Hne & ? & Hm & Hf & _)]; simplify_eq. split_and!; try done. by apply Hid.
    + intros (Hne & Hn & Hf). right. exists n. split_and!; auto. by apply Hid.
  - split; [|by left]. by intros [[-> _]|(m & _ & ? & _)].
Qed.

(** ** Request heads

    The grammar of the heads the parser accepts, with the limits it enforces: what the
    bytes [head] are and what the request [r] read from them holds. *)
Definition head_bytes (r : Request) (field_lines : list bytes) : bytes :=
  request_line (method r) (target r) ++ CRLF
  ++ concat (map (fun l => l ++ CRLF) field_lines) ++ CRLF.

Record request_head (r : Request) (head : bytes) : Prop := {
  head_shape : exists field_lines,
    head = head_bytes r field_lines /\
    Forall2 header_line field_lines (headers r) /\
    Forall (fun l => len l <= MAX_HEADER_SIZE) field_lines /\
    len (join CRLF field_lines) <= MAX_HEADER_BLOCK_SIZE;
  head_method : valid_method (method r);
  head_target : valid_target (target r);
  head_utf8 : utf8_valid (request_line (method r) (target r)) = true;
  head_line_size : len (request_line (method r) (target r)) <= MAX_REQUEST_LINE_SIZE;
  head_count : len (headers r) <= MAX_HEADER_COUNT;
  head_content_length : content_length_spec (headers r) (content_length r);
  head_transfer_encoding : transfer_encoding_spec (headers r) (has_transfer_encoding r);
  head_framing : content_length r = None \/ has_transfer_encoding r = false;
  head_keep_alive : keep_alive r = negb (header_contains_token (headers r) (str "connection") (str "close"))
}.

Lemma concat_crlf (lines : list bytes) :
  lines <> [] -> concat (map (fun l => l ++ CRLF) lines) = join CRLF lines ++ CRLF.
Proof.
  induction lines as [|l lines IH]; [by intros []|]. intros _. cbn [map concat].
  destruct (decide (lines = [])) as [->|Hne]; [cbn; by rewrite app_nil_r|].
  rewrite IH, join_cons by done. by rewrite !app_assoc.
Qed.

(** The head ends at its first CRLF CRLF, wherever the lines end. *)
Lemma find_head_end (l0 rest : bytes) (lines : list bytes) :
  CR ∉ l0 -> Forall crlf_free lines ->
  windows_position (CRLF ++ CRLF) (l0 ++ CRLF ++ concat (map (fun l => l ++ CRLF) lines) ++ CRLF ++ rest) =
    Some (length l0 + length (concat (map (fun l => l ++ CRLF) lines)))%nat.
Proof.
  intros Hl0 Hlines. revert l0 Hl0. induction Hlines as [|l lines [Hne Hcr] Hlines IH]; intros l0 Hl0.
  - cbn [map concat app length]. rewrite Nat.add_0_r. by apply windows_position_CRLF2_here.
  - cbn [map concat]. rewrite <- !app_assoc. destruct l as [|b r]; [done|].
    assert (Hb : b <> CR) by (intros ->; apply Hcr; by left).
    cbn [app]. rewrite windows_position_CRLF2_skip by done.
    change (b :: r ++ ?x) with ((b :: r) ++ x). rewrite IH by done. cbn [fmap option_fmap option_map].
    f_equal. simpl. rewrite !length_app. simpl. rewrite ?length_app. simpl. lia.
Qed.

Lemma no_CR_LF_adjacent (l1 l2 p1 p2 : bytes) (a b : byte) :
  a <> b -> l1 ++ a :: p1 = l2 ++ b :: p2 -> length l1 <> length l2.
Proof. intros Hab H Hlen. apply app_inj_1 in H as [_ H]; [|done]. congruence. Qed.

(** The header block between the request line and the end of the head. *)
Lemma header_block_shape (input l0 post1 l2 post2 : bytes) :
  input = l0 ++ CRLF ++ post1 -> input = l2 ++ (CRLF ++ CRLF) ++ post2 ->
  windows_position (CRLF ++ CRLF) input = Some (length l2) ->
  (length l0 < length l2)%nat ->
  exists block, block <> [] /\ (length l0 + 2 <= length l2)%nat /\
    input = l0 ++ CRLF ++ block ++ CRLF ++ CRLF ++ post2 /\
    take (length l2 - (length l0 + 2)) (drop (length l0 + 2) input) = block.
Proof.
  intros H1 H2 Hw Hlt.
  assert (Hle : (length l0 + 2 <= length l2)%nat).
  { rewrite H1 in H2. destruct (decide (length l2 = S (length l0))) as [E|]; [|lia]. exfalso.
    change (CRLF ++ post1) with ([CR] ++ LF :: post1) in H2. rewrite app_assoc in H2.
    apply no_CR_LF_adjacent in H2; [|done]. apply H2. rewrite length_app. simpl. lia. }
  exists (drop (length l0 + 2) l2).
  assert (Hblock : input = l0 ++ CRLF ++ drop (length l0 + 2) l2 ++ CRLF ++ CRLF ++ post2).
  { assert (E : take (length l0 + 2) l2 = l0 ++ CRLF).
    { apply (f_equal (take (length l0 + 2))) in H2. rewrite H1 in H2.
      rewrite (take_app_le l2) in H2 by lia. rewrite <- H2.
      rewrite app_assoc, take_app_length'; [done|]. by rewrite length_app. }
    rewrite H2. rewrite <- (take_drop (length l0 + 2) l2) at 1. rewrite E, <- !app_assoc. done. }
  split_and!; try done.
  - intros E. rewrite E in Hblock. cbn [app] in Hblock. rewrite Hblock in Hw.
    change (l0 ++ CRLF ++ CRLF ++ CRLF ++ post2) with (l0 ++ (CRLF ++ CRLF) ++ (CRLF ++ post2)) in Hw.
    apply windows_position_first in Hw. lia.
  - rewrite Hblock at 1. rewrite app_assoc, drop_app_length' by (by rewrite length_app).
    rewrite take_app_length'; [done|]. rewrite length_drop. lia.
Qed.

Lemma parse_headers_sound (block : bytes) (hs : list Header) :
  block <> [] -> parse_headers block = Ok hs ->
  exists lines, lines <> [] /\ block = join CRLF lines /\ Forall2 header_line lines hs /\
    Forall (fun l => len l <= MAX_HEADER_SIZE) lines /\ len hs <= MAX_HEADER_COUNT.
Proof.
  intros Hne H. unfold parse_headers in H. destruct block; [done|].
  apply parse_headers_loop_sound in H as (lines & new & H1 & H2 & -> & H3 & H4 & H5). eauto 8.
Qed.

Lemma parse_headers_complete (lines : list bytes) (hs : list Header) :
  Forall2 header_line lines hs -> lines <> [] ->
  Forall (fun l => len l <= MAX_HEADER_SIZE) lines -> len hs <= MAX_HEADER_COUNT ->
  parse_headers (join CRLF lines) = Ok hs.
Proof.
  intros Hl Hne Hsz Hcnt.
  assert (Hnil : Forall (fun l => l <> []) lines).
  { eapply Forall_impl; [by eapply header_lines_crlf_free|]. by intros l [? _]. }
  pose proof (join_length _ Hnil) as Hlen. unfold parse_headers.
  destruct (join CRLF lines) as [|b block] eqn:E.
  - destruct lines; [done|]. simpl in Hlen. lia.
  - rewrite <- E. apply (parse_headers_loop_complete _ [] hs); auto. rewrite E. lia.
Qed.

(** What a successful run computed on the way. *)
Lemma parse_request_inv (input : bytes) (r : Request) (n : nat) :
  parse_request_with_consumed input = Ok (r, n) <->
  exists rle he block,
    find_bytes input CRLF = Some rle /\ find_bytes input (CRLF ++ CRLF) = Some he /\
    (rle <= he)%nat /\ Z.of_nat rle <= MAX_REQUEST_LINE_SIZE /\
    (if (rle =? he)%nat then Ok [] else slice input (rle + 2) he) = Ok block :> res ParseError _ /\
    len block <= MAX_HEADER_BLOCK_SIZE /\
    slice_to input rle = Ok (take rle input) :> res ParseError _ /\
    parse_request_line (take rle input) = Ok (method r, target r, version r) /\
    parse_headers block = Ok (headers r) /\
    parse_content_length (headers r) = Ok (content_length r) /\
    parse_transfer_encoding (headers r) = Ok (has_transfer_encoding r) /\
    (content_length r = None \/ has_transfer_encoding r = false) /\
    keep_alive r = negb (header_contains_token (headers r) (str "connection") (str "close")) /\
    n = (he + 4)%nat.
Proof.
  unfold parse_request_with_consumed. split.
  - intros H. apply res_bind_Ok in H as (rle & Hrle & H).
    destruct (find_bytes input CRLF) as [i|]; [|by destruct (_ <? _)]. injection Hrle as <-.
    destruct (Z.ltb_spec MAX_REQUEST_LINE_SIZE (Z.of_nat i)) as [|Hsz]; [done|].
    apply res_bind_Ok in H as (he & Hhe & H).
    destruct (find_bytes input (CRLF ++ CRLF)) as [j|]; [|by destruct (_ <=? _)]. injection Hhe as <-.
    destruct (Nat.ltb_spec j i) as [|Hord]; [done|].
    apply res_bind_Ok in H as (block & Hblock & H).
    destruct (Z.ltb_spec MAX_HEADER_BLOCK_SIZE (len block)) as [|Hbsz]; [done|].
    apply res_bind_Ok in H as (line & Hline & H). apply res_bind_Ok in H as ([[m t] v] & Hl & H).
    apply res_bind_Ok in H as (hs & Hhs & H). apply res_bind_Ok in H as (cl & Hcl & H).
    apply res_bind_Ok in H as (te & Hte & H).
    destruct (bool_decide (is_Some cl) && te) eqn:Hf; [done|]. injection H as <- <-.
    exists i, j, block. cbn. apply slice_to_inv in Hline as [Hle ->].
    split_and!; try done; [by apply slice_to_Ok|].
    apply andb_false_iff in Hf as [Hf|Hf]; [left|by right].
    apply bool_decide_eq_false, eq_None_not_Some in Hf. done.
  - intros (i & j & block & -> & -> & Hord & Hsz & Hblock & Hbsz & Hline & Hl & Hhs & Hcl & Hte & Hf & Hk & ->).
    cbn [res_bind]. rewrite (proj2 (Z.ltb_ge _ _)) by done. rewrite (proj2 (Nat.ltb_ge _ _)) by done.
    rewrite Hblock. cbn [res_bind]. rewrite (proj2 (Z.ltb_ge _ _)) by done. rewrite Hline. cbn [res_bind].
    rewrite Hl. cbn [res_bind]. rewrite Hhs. cbn [res_bind]. rewrite Hcl. cbn [res_bind]. rewrite Hte.
    cbn [res_bind]. replace (bool_decide (is_Some (content_length r)) && has_transfer_encoding r) with false.
    + rewrite <- Hk. by destruct r.
    + destruct Hf as [-> | ->]; [done|by rewrite andb_false_r].
Qed.

(** What the parser returns was written that way. *)
Lemma parse_request_sound (input : bytes) (r : Request) (n : nat) :
  parse_request_with_consumed input = Ok (r, n) ->
  exists head rest, input = head ++ rest /\ length head = n /\ request_head r head.
Proof.
  rewrite parse_request_inv. intros (i & j & block & Hi & Hj & Hord & Hsz & Hblock & Hbsz & _ & Hl & Hhs & Hcl & Hte & Hf & Hk & ->).
  pose proof Hj as Hw. apply windows_position_Some in Hi as (l0 & post1 & Hin1 & <-).
  apply windows_position_Some in Hj as (l2 & post2 & Hin2 & <-).
  assert (Eline : take (length l0) input = l0) by (rewrite Hin1; apply take_app_length).
  rewrite Eline in Hl. apply parse_request_line_iff in Hl as (El & Hm & Ht & Hu).
  apply parse_content_length_iff in Hcl. apply parse_transfer_encoding_iff in Hte.
  assert (Hsz' : len (request_line (method r) (target r)) <= MAX_REQUEST_LINE_SIZE) by (by rewrite <- El).
  rewrite El in Hu. destruct (decide (length l0 = length l2)) as [E|Hne].
  - rewrite (proj2 (Nat.eqb_eq _ _) E) in Hblock. injection Hblock as <-. injection Hhs as Hhs.
    exists (head_bytes r []), post2. unfold head_bytes. rewrite <- El. cbn [map concat app].
    assert (l0 = l2) as <-.
    { rewrite Hin1 in Hin2. by apply app_inj_1 in Hin2 as [? _]. }
    split_and!.
    + rewrite Hin2. by rewrite <- !app_assoc.
    + rewrite !length_app. simpl. lia.
    + constructor; try done; rewrite <- ?Hhs; try done.
      exists []. unfold head_bytes. rewrite <- El. split_and!; done || constructor.
  - rewrite (proj2 (Nat.eqb_neq _ _) Hne) in Hblock. apply slice_inv in Hblock as (_ & _ & ->).
    destruct (header_block_shape input l0 post1 l2 post2) as (block & Hbne & Hle & Hin & Hb); [done..|lia|].
    rewrite Hb in *. apply parse_headers_sound in Hhs as (lines & Hlne & -> & H2 & Hls & Hcnt); [|done].
    exists (head_bytes r lines), post2. unfold head_bytes. rewrite <- El, concat_crlf by done. split_and!.
    + rewrite Hin at 1. by rewrite <- !app_assoc.
    + apply (f_equal length) in Hin. rewrite Hin2 in Hin. rewrite !length_app in *. simpl in *. lia.
    + constructor; try done.
      exists lines. unfold head_bytes. by rewrite <- El, concat_crlf.
Qed.

(** What is written that way is what the parser returns. *)
Lemma parse_request_complete (head rest : bytes) (r : Request) :
  request_head r head -> parse_request_with_consumed (head ++ rest) = Ok (r, length head).
Proof.
  intros [(lines & -> & Hl & Hls & Hblock) Hm Ht Hu Hsz Hcnt Hcl Hte Hf Hk].
  pose proof (request_line_no_CR _ _ Hm Ht) as HnoCR.
  set (rl := request_line (method r) (target r)) in *.
  apply parse_request_inv. unfold head_bytes. fold rl.
  set (body := concat (map (fun l => l ++ CRLF) lines)).
  exists (length rl), (length rl + length body)%nat, (join CRLF lines).
  rewrite <- !app_assoc. unfold find_bytes. rewrite windows_position_CRLF by done.
  rewrite take_app_length. split_and!; try done.
  - apply find_head_end; [done|]. by eapply header_lines_crlf_free.
  - lia.
  - destruct (decide (lines = [])) as [->|Hne].
    + cbn. by rewrite Nat.add_0_r, Nat.eqb_refl.
    + unfold body. rewrite concat_crlf by done.
      replace (_ =? _)%nat with false by (symmetry; apply Nat.eqb_neq; rewrite length_app; simpl; lia).
      rewrite slice_Ok by (rewrite !length_app; simpl; lia). f_equal.
      rewrite app_assoc, drop_app_length' by (by rewrite length_app).
      rewrite <- app_assoc, take_app_length'; [done|]. rewrite length_app. simpl. lia.
  - rewrite slice_to_Ok by (rewrite length_app; lia). by rewrite take_app_length.
  - apply parse_request_line_iff. split_and!; try done.
  - destruct (decide (lines = [])) as [->|Hne].
    + inversion Hl. done.
    + by apply parse_headers_complete.
  - by apply parse_content_length_iff.
  - by apply parse_transfer_encoding_iff.
  - rewrite !length_app. simpl. lia.
Qed.

(** ** The parser returns on every input *)
Lemma parse_header_returns (line : bytes) : returns (parse_header line).
Proof.
  unfold parse_header. apply res_bind_returns; [apply ok_or_returns|]. intros i Hi%ok_or_Ok.
  apply position_lt in Hi. rewrite slice_to_Ok, slice_from_Ok by lia. cbn [res_bind].
  by repeat case_match.
Qed.

Lemma parse_headers_loop_returns (fuel : nat) (acc : list Header) (remaining : bytes) :
  (length remaining < fuel)%nat -> returns (parse_headers_loop fuel acc remaining).
Proof.
  revert acc remaining. induction fuel as [|fuel IH]; intros acc remaining Hf; [lia|].
  cbn [parse_headers_loop]. unfold find_bytes.
  destruct (windows_position CRLF remaining) as [i|] eqn:Hw; cbn [from_option id].
  - apply windows_position_Some in Hw as (l & post & -> & <-).
    rewrite !length_app in Hf. simpl in Hf.
    rewrite slice_to_Ok by (rewrite length_app; lia). cbn [res_bind].
    repeat (case_match; [done|]). apply res_bind_returns; [apply parse_header_returns|]. intros h _.
    case_match; [done|]. rewrite slice_from_Ok by (rewrite !length_app; simpl; lia). cbn [res_bind].
    apply IH. rewrite length_drop, !length_app. simpl. lia.
  - rewrite slice_to_Ok by done. cbn [res_bind]. repeat (case_match; [done|]).
    apply res_bind_returns; [apply parse_header_returns|]. intros h _. by rewrite Nat.eqb_refl.
Qed.

Lemma parse_headers_returns (block : bytes) : returns (parse_headers block).
Proof. unfold parse_headers. destruct block; [done|]. apply parse_headers_loop_returns. lia. Qed.

Lemma parse_request_line_returns (line : bytes) : returns (parse_request_line line).
Proof. unfold parse_request_line. by repeat case_match. Qed.

Lemma parse_content_length_returns (hs : list Header) : returns (parse_content_length hs).
Proof.
  apply res_foldM_returns. intros o h _. unfold content_length_header. case_match; [|done].
  apply res_foldM_returns. intros o' v _. unfold content_length_element. case_match; [done|].
  apply res_bind_returns; [apply ok_or_returns|]. intros n _. by repeat case_match.
Qed.

Lemma parse_transfer_encoding_returns (hs : list Header) : returns (parse_transfer_encoding hs).
Proof.
  apply res_foldM_returns. intros b h _. apply res_foldM_returns. intros b' v _.
  unfold transfer_coding. by case_match.
Qed.

Lemma head_end_not_adjacent (input : bytes) (i j : nat) :
  find_bytes input CRLF = Some i -> find_bytes input (CRLF ++ CRLF) = Some j ->
  (i < j)%nat -> (i + 2 <= j)%nat /\ (j <= length input)%nat.
Proof.
  intros (l0 & post1 & H1 & <-)%windows_position_Some Hj Hlt. pose proof Hj as Hw.
  apply windows_position_Some in Hj as (l2 & post2 & H2 & <-).
  destruct (header_block_shape input l0 post1 l2 post2) as (_ & _ & Hle & _); [done..|].
  split; [done|]. rewrite H2, length_app. lia.
Qed.

Lemma parse_request_total (input : bytes) : returns (parse_request_with_consumed input).
Proof.
  unfold parse_request_with_consumed.
  destruct (find_bytes input CRLF) as [i|] eqn:Hi; [|by destruct (_ <? _)]. cbn [res_bind].
  case_match; [done|].
  destruct (find_bytes input (CRLF ++ CRLF)) as [j|] eqn:Hj; [|by destruct (_ <=? _)]. cbn [res_bind].
  destruct (Nat.ltb_spec j i) as [|Hord]; [done|].
  assert (Hlen : (i <= length input)%nat).
  { apply windows_position_Some in Hi as (l0 & post1 & -> & <-). rewrite length_app. lia. }
  apply res_bind_returns.
  { destruct (Nat.eqb_spec i j) as [|Hne]; [done|].
    destruct (head_end_not_adjacent _ _ _ Hi Hj); [lia|]. by rewrite slice_Ok by lia. }
  intros block _. case_match; [done|]. rewrite slice_to_Ok by done. cbn [res_bind].
  apply res_bind_returns; [apply parse_request_line_returns|]. intros [[m t] v] _.
  apply res_bind_returns; [apply parse_headers_returns|]. intros hs _.
  apply res_bind_returns; [apply parse_content_length_returns|]. intros cl _.
  apply res_bind_returns; [apply parse_transfer_encoding_returns|]. intros te _. by case_match.
Qed.

(** ** Heads that arrive in pieces *)
Lemma request_head_size (r : Request) (head : bytes) : request_head r head -> len head <= MAX_REQUEST_HEAD_SIZE.
Proof.
  intros [(lines & -> & _ & _ & Hb) _ _ _ Hl _ _ _ _ _]. unfold head_bytes.
  destruct (decide (lines = [])) as [->|Hne].
  - cbn [map concat]. rewrite !len_app, len_nil. change (len CRLF) with 2.
    unfold MAX_REQUEST_HEAD_SIZE, MAX_REQUEST_LINE_SIZE, MAX_HEADER_BLOCK_SIZE in *. lia.
  - rewrite concat_crlf by done. rewrite !len_app. change (len CRLF) with 2.
    unfold MAX_REQUEST_HEAD_SIZE, MAX_REQUEST_LINE_SIZE, MAX_HEADER_BLOCK_SIZE in *. lia.
Qed.

Lemma windows_position_prefix_None (needle p q : bytes) (i : nat) :
  windows_position needle (p ++ q) = Some i -> (length p < i + length needle)%nat ->
  windows_position needle p = None.
Proof.
  intros H Hlt. destruct (windows_position needle p) as [j|] eqn:E; [|done].
  apply (windows_position_app_l _ _ q) in E as E'. rewrite H in E'. simplify_eq.
  apply windows_position_Some in E as (pre & post & -> & <-). rewrite !length_app in Hlt. lia.
Qed.

(** The error a strict prefix of an acceptable head is answered with. *)
Definition prefix_error (r : Request) (p : bytes) : ParseError :=
  if bool_decide (len p = MAX_REQUEST_LINE_SIZE + 1)
     && bool_decide (len (request_line (method r) (target r)) = MAX_REQUEST_LINE_SIZE)
  then RequestLineTooLong
  else IncompleteHeaders.

Lemma parse_request_prefix (r : Request) (p q : bytes) :
  request_head r (p ++ q) -> q <> [] -> parse_request_with_consumed p = Err (prefix_error r p).
Proof.
  intros Hh Hq. pose proof (request_head_size _ _ Hh) as Hmax.
  assert (Hlen : (length p < length (p ++ q))%nat) by (rewrite length_app; destruct q; [done|simpl; lia]).
  destruct Hh as [(lines & E & Hl & _ & _) Hm Ht _ Hsz _ _ _ _ _].
  pose proof (request_line_no_CR _ _ Hm Ht) as HnoCR. unfold head_bytes in E.
  set (rl := request_line (method r) (target r)) in *.
  assert (H1 : windows_position CRLF (p ++ q) = Some (length rl))
    by (rewrite E; by apply windows_position_CRLF).
  assert (H2 : windows_position (CRLF ++ CRLF) p = None).
  { eapply windows_position_prefix_None.
    - rewrite E, <- (app_nil_r CRLF) at 1. rewrite <- app_assoc.
      apply find_head_end; [done|]. by eapply header_lines_crlf_free.
    - rewrite E in Hlen. rewrite !length_app in *. simpl in *. lia. }
  unfold parse_request_with_consumed, find_bytes, prefix_error. fold rl.
  destruct (decide (length p < length rl + 2)%nat) as [Hshort|Hlong].
  - rewrite (windows_position_prefix_None _ _ _ _ H1) by done.
    unfold len, MAX_REQUEST_LINE_SIZE in *.
    destruct (Z.ltb_spec 8192 (Z.of_nat (length p))); cbn [res_bind].
    + rewrite !bool_decide_true by lia. done.
    + rewrite bool_decide_false by lia. done.
  - assert (Hp : windows_position CRLF p = Some (length rl)).
    { destruct (windows_position CRLF p) as [j|] eqn:Ej.
      - apply (windows_position_app_l _ _ q) in Ej. congruence.
      - exfalso. assert (Epre : p = rl ++ CRLF ++ drop (length rl + 2) p).
        { rewrite <- (take_drop (length rl + 2) p) at 1. rewrite app_assoc. f_equal.
          apply (f_equal (take (length rl + 2))) in E.
          rewrite take_app_le in E by lia. rewrite E.
          rewrite app_assoc, take_app_length'; [done|]. by rewrite length_app. }
        rewrite Epre in Ej. by apply windows_position_None in Ej. }
    rewrite Hp, H2. cbn [res_bind]. rewrite (proj2 (Z.ltb_ge _ _)) by done.
    unfold len, MAX_REQUEST_HEAD_SIZE, MAX_REQUEST_LINE_SIZE, MAX_HEADER_BLOCK_SIZE in *.
    rewrite (proj2 (Z.leb_gt _ _)) by lia. cbn [res_bind].
    destruct (bool_decide (Z.of_nat (length p) = 8192 + 1)) eqn:B1; [|done].
    destruct (bool_decide (Z.of_nat (length rl) = 8192)) eqn:B2; [|done].
    rewrite bool_decide_eq_true in B1, B2. lia.
Qed.

(** ** The Host authority *)
Lemma authority_label (l : bytes) : is_valid_authority_hostname_label l = Ok (label_ok l).
Proof.
  unfold is_valid_authority_hostname_label, label_ok. destruct l as [|b l]; [done|].
  rewrite bool_decide_false by done. cbn [orb].
  destruct (list.last (b :: l)) as [e|] eqn:El; [|by apply last_None in El].
  destruct (Z.ltb_spec 63 (len (b :: l))) as [Hlt|Hle].
  - by rewrite (proj2 (Z.leb_gt _ _)) by done.
  - rewrite (proj2 (Z.leb_le _ _)) by done. rewrite (index_Ok _ 0 b) by done. cbn [res_bind].
    rewrite (last_index _ _ El). cbn [res_bind andb].
    by destruct (is_ascii_alphanumeric b), (is_ascii_alphanumeric e).
Qed.

Definition unrooted (h : bytes) : bytes := default h (strip_suffix x2e h).

Lemma authority_hostname (h : bytes) : is_valid_authority_hostname h = Ok (hostname_ok (unrooted h)).
Proof.
  unfold is_valid_authority_hostname. fold (unrooted h). unfold hostname_ok.
  destruct (decide (unrooted h = [])) as [->|Hne]; [done|]. rewrite bool_decide_false by done. cbn [orb].
  destruct (Z.ltb_spec 253 (len (unrooted h))).
  - by rewrite (proj2 (Z.leb_gt _ _)) by done.
  - rewrite (proj2 (Z.leb_le _ _)) by done. apply res_all_pure, authority_label.
Qed.

(** The authorities accepted: a host name, rooted or not, or a bracketed IPv6 address,
    with a port or without. *)
Inductive authority : bytes -> Prop :=
| authority_name h :
    hostname_ok (unrooted h) = true -> authority h
| authority_name_port h p :
    hostname_ok (unrooted h) = true -> is_valid_authority_port p = true -> authority (h ++ x3a :: p)
| authority_ipv6 a :
    is_Some (parse_ipv6_addr a) -> authority (x5b :: a ++ [x5d])
| authority_ipv6_port a p :
    is_Some (parse_ipv6_addr a) -> is_valid_authority_port p = true ->
    authority (x5b :: a ++ x5d :: x3a :: p).

(** The bytes of an authority: no white space, no control byte, no [@], [/], [?] or [#]. *)
Definition authority_byte (b : byte) : bool :=
  hostname_byte b || byte_eqb b x3a || byte_eqb b x5b || byte_eqb b x5d.

Lemma unrooted_bytes (h : bytes) : hostname_ok (unrooted h) = true -> all hostname_byte h = true /\ h <> [].
Proof.
  unfold unrooted. destruct (strip_suffix x2e h) as [k|] eqn:E; cbn [from_option id].
  - apply strip_suffix_Some in E as ->. intros [Hk _]%hostname_ok_bytes. rewrite all_app, Hk.
    split; [done|]. by destruct k.
  - apply hostname_ok_bytes.
Qed.

Lemma authority_port_bytes (p : bytes) : is_valid_authority_port p = true -> all is_ascii_digit p = true.
Proof. unfold is_valid_authority_port. rewrite !andb_true_iff. by intros [[_ ?] _]. Qed.

Lemma authority_bytes (a : bytes) : authority a -> all authority_byte a = true /\ a <> [].
Proof.
  assert (Hh : forall h, all hostname_byte h = true -> all authority_byte h = true)
    by (intros h; apply all_impl; intros b; byte_cases b).
  assert (Hp : forall p, is_valid_authority_port p = true -> all authority_byte p = true)
    by (intros p Hp%authority_port_bytes; revert Hp; apply all_impl; intros b; byte_cases b).
  assert (H6 : forall a, is_Some (parse_ipv6_addr a) -> all authority_byte a = true)
    by (intros x [y Hy%parse_ipv6_addr_bytes]; revert Hy; apply all_impl; intros b; byte_cases b).
  destruct 1 as [h [H ?]%unrooted_bytes|h p [H ?]%unrooted_bytes Hport|x Hx|x p Hx Hport].
  - auto.
  - change (x3a :: p) with ([x3a] ++ p). rewrite !all_app, (Hh h H), (Hp p Hport). split; [done|]. by destruct h.
  - change (x5b :: x ++ [x5d]) with ([x5b] ++ x ++ [x5d]). rewrite !all_app, (H6 x Hx). by split.
  - change (x5b :: x ++ x5d :: x3a :: p) with ([x5b] ++ x ++ [x5d; x3a] ++ p).
    rewrite !all_app, (H6 x Hx), (Hp p Hport). by split.
Qed.


Lemma existsb_all_false (p q : byte -> bool) (l : bytes) :
  (forall b, p b = true -> q b = false) -> all p l = true -> existsb q l = false.
Proof.
  intros Hpq. induction l as [|b l IH]; [done|]. cbn [existsb all forallb].
  rewrite andb_true_iff. intros [Hb Hl]. rewrite (Hpq _ Hb). by apply IH.
Qed.

Definition reserved (b : byte) : bool := existsb (byte_eqb b) (str "[]@/?#").

Lemma hostname_not_reserved (h : bytes) : all hostname_byte h = true -> existsb reserved h = false.
Proof. apply existsb_all_false. intros b. byte_cases b. Qed.

Lemma port_not_reserved (p : bytes) : is_valid_authority_port p = true -> existsb reserved p = false.
Proof. intros H%authority_port_bytes. revert H. apply existsb_all_false. intros b. byte_cases b. Qed.

Lemma hostname_no_colon (h : bytes) : all hostname_byte h = true -> x3a ∉ h.
Proof. intros H. by apply (all_not_elem _ _ _ H). Qed.

Lemma port_no_colon (p : bytes) : is_valid_authority_port p = true -> x3a ∉ p.
Proof. intros H%authority_port_bytes. by apply (all_not_elem _ _ _ H). Qed.

Lemma hostname_head (h : bytes) (b : byte) (t : bytes) :
  all hostname_byte h = true -> h = b :: t -> byte_eqb b x5b = false.
Proof. intros H ->. revert H. cbn [all forallb]. rewrite andb_true_iff. intros [H _]. revert H. byte_cases b. Qed.

Lemma authority_ascii (a : bytes) : authority a -> all is_ascii a = true.
Proof. intros [H _]%authority_bytes. revert H. apply all_impl. intros b. byte_cases b. Qed.

(** What follows the bracketed address: nothing, or a colon and a port. *)
Definition bracket_tail (t : bytes) : bool :=
  bool_decide (t = [])
  || match strip_prefix x3a t with
     | Some port => is_valid_authority_port port
     | None => false
     end.

Lemma bracket_tail_iff (t : bytes) :
  bracket_tail t = true <-> t = [] \/ exists p, t = x3a :: p /\ is_valid_authority_port p = true.
Proof.
  unfold bracket_tail. rewrite orb_true_iff, bool_decide_eq_true.
  destruct (strip_prefix x3a t) as [p|] eqn:E.
  - apply strip_prefix_Some in E as ->. naive_solver.
  - split; [naive_solver|]. intros [->|(p & -> & _)]; [by left|]. done.
Qed.

Lemma ipv6_authority (rest : bytes) :
  exists b, is_valid_host_authority (x5b :: rest) = Ok b /\
    (b = true <-> all is_ascii rest = true /\
       exists a t, rest = a ++ x5d :: t /\ is_Some (parse_ipv6_addr a) /\ bracket_tail t = true).
Proof.
  unfold is_valid_host_authority. rewrite bool_decide_false by done. cbn [orb strip_prefix].
  change (all is_ascii (x5b :: rest)) with (all is_ascii rest).
  destruct (all is_ascii rest) eqn:Ha; cbn [negb]; [|naive_solver].
  change (byte_eqb x5b x5b) with true. cbv iota.
  destruct (position (byte_eqb x5d) rest) as [i|] eqn:Hp.
  - apply position_byte_Some in Hp as (a & t & -> & <- & Hn).
    rewrite slice_to_Ok by (rewrite length_app; lia).
    rewrite slice_from_Ok by (rewrite length_app; simpl; lia). cbn [res_bind].
    rewrite Nat.add_1_r, take_app_length, drop_app_ge by lia.
    rewrite Nat.sub_succ_l, Nat.sub_diag by lia. rewrite skipn_cons, drop_0.
    fold (bracket_tail t).
    assert (Huniq : forall a' t', a ++ x5d :: t = a' ++ x5d :: t' -> is_Some (parse_ipv6_addr a') -> a = a' /\ t = t').
    { intros a' t' E [y Hy%parse_ipv6_addr_bytes].
      assert (x5d ∉ a') by (by apply (all_not_elem _ _ _ Hy)).
      apply (f_equal (position (byte_eqb x5d))) in E as E'.
      rewrite !position_byte in E' by done. injection E' as E'. by apply app_inj_1 in E as [-> [= ->]]. }
    destruct (parse_ipv6_addr a) as [y|] eqn:Hy.
    + eexists; split; [done|]. split; [intros Hb; split; [done|]; by exists a, t|].
      intros (_ & a' & t' & E & Hs & Hb). by destruct (Huniq a' t' E Hs) as [<- <-].
    + eexists; split; [done|]. split; [done|].
      intros (_ & a' & t' & E & Hs & _). destruct (Huniq a' t' E Hs) as [<- <-]. by destruct Hs; congruence.
  - eexists; split; [done|]. split; [done|]. intros (_ & a & t & -> & _).
    apply position_None, Forall_app in Hp as [_ Hp]. by inversion Hp.
Qed.

(** The authorities without brackets. *)
Definition name_port (s : bytes) : bool :=
  match rsplit_once x3a s with
  | Some (h, p) => negb (contains x3a h) && (hostname_ok (unrooted h) && is_valid_authority_port p)
  | None => hostname_ok (unrooted s)
  end.

Lemma name_port_iff (s : bytes) :
  name_port s = true <->
  hostname_ok (unrooted s) = true \/
  exists h p, s = h ++ x3a :: p /\ hostname_ok (unrooted h) = true /\ is_valid_authority_port p = true.
Proof.
  unfold name_port. destruct (rsplit_once x3a s) as [[h p]|] eqn:Hs.
  - apply rsplit_once_Some in Hs as [-> Hn]. rewrite !andb_true_iff, negb_true_iff. split.
    + intros (_ & Hh & Hp). right. by exists h, p.
    + intros [[Hh _]%unrooted_bytes|(h' & p' & E & Hh & Hp)].
      * apply hostname_no_colon in Hh. set_solver.
      * assert (x3a ∉ p') by by apply port_no_colon.
        assert (rsplit_once x3a (h ++ x3a :: p) = Some (h', p')) as Es by by apply rsplit_once_Some.
        rewrite rsplit_once_app in Es by done. simplify_eq. split; [|done].
        apply contains_false, hostname_no_colon. by apply unrooted_bytes in Hh as [? _].
  - apply rsplit_once_None in Hs. split; [by left|]. intros [?|(h & p & -> & _)]; [done|]. set_solver.
Qed.

Lemma name_port_bytes (s : bytes) :
  name_port s = true -> s <> [] /\ all is_ascii s = true /\ existsb reserved s = false.
Proof.
  rewrite name_port_iff. intros H.
  assert (authority s) as Ha by (destruct H as [?|(h & p & -> & ? & ?)]; by constructor).
  split; [by apply authority_bytes in Ha as [_ ?]|]. split; [by apply authority_ascii|].
  destruct H as [[Hh _]%unrooted_bytes|(h & p & -> & [Hh _]%unrooted_bytes & Hp)].
  - by apply hostname_not_reserved.
  - change (x3a :: p) with ([x3a] ++ p). rewrite !existsb_app, (hostname_not_reserved _ Hh).
    by rewrite (port_not_reserved _ Hp).
Qed.

Lemma name_authority (s : bytes) :
  strip_prefix x5b s = None -> is_valid_host_authority s = Ok (name_port s).
Proof.
  intros Hpre. pose proof (name_port_bytes s) as Hb. unfold is_valid_host_authority. rewrite Hpre.
  change (existsb (fun b => existsb (byte_eqb b) (str "[]@/?#")) s) with (existsb reserved s).
  destruct (bool_decide (s = []) || negb (all is_ascii s)) eqn:B1.
  { destruct (name_port s); [|done]. destruct (Hb eq_refl) as (? & Ha & _).
    by rewrite bool_decide_false, Ha in B1. }
  destruct (existsb reserved s) eqn:B2.
  { destruct (name_port s); [|done]. by destruct (Hb eq_refl) as (_ & _ & ?). }
  clear Hb. unfold name_port. destruct (rsplit_once x3a s) as [[h p]|]; cbn zeta.
  - destruct (contains x3a h); [done|]. rewrite authority_hostname. cbn [res_bind negb andb].
    by destruct (hostname_ok (unrooted h)).
  - rewrite authority_hostname. cbn [res_bind]. by destruct (hostname_ok (unrooted s)).
Qed.

Lemma host_authority (s : bytes) :
  exists b, is_valid_host_authority s = Ok b /\ (b = true <-> authority s).
Proof.
  destruct (strip_prefix x5b s) as [rest|] eqn:Hpre.
  - apply strip_prefix_Some in Hpre as ->. destruct (ipv6_authority rest) as (b & -> & Hb).
    exists b. split; [done|]. rewrite Hb. split.
    + intros (_ & a & t & -> & Ha & [->|(p & -> & Hp)]%bracket_tail_iff); by constructor.
    + intros Hau. pose proof (authority_ascii _ Hau) as Hasc.
      change (all is_ascii rest = true) in Hasc. split; [done|].
      inversion Hau as [h [Hh _]%unrooted_bytes Eh|h p [Hh ?]%unrooted_bytes _ Eh|a Ha Eh|a p Ha Hp Eh]; subst.
      * done.
      * exfalso. destruct h; [done|]. simplify_eq/=.
      * exists a, []. by split_and!.
      * exists a, (x3a :: p). split_and!; [done|done|]. apply bracket_tail_iff. naive_solver.
  - rewrite name_authority by done. eexists; split; [done|]. rewrite name_port_iff. split.
    + intros [?|(h & p & -> & ? & ?)]; by constructor.
    + inversion 1; subst; naive_solver.
Qed.

(** [Request::host] never panics, and names the single Host header when it is an authority. *)
Lemma host_iff (r : Request) :
  exists o, host r = Ok o /\
    forall a, o = Some a <->
      authority a /\ exists h, named_headers (str "host") (headers r) = [h] /\ value h = a.
Proof.
  unfold host. fold (named_headers (str "host") (headers r)).
  destruct (named_headers (str "host") (headers r)) as [|h [|h' hs]]; try (eexists; split; [done|naive_solver]).
  destruct (host_authority (value h)) as (b & E & Hb). rewrite E. cbn [res_bind].
  destruct (utf8_valid (value h)) eqn:U.
  - eexists; split; [done|]. destruct b; naive_solver.
  - eexists; split; [done|]. split; [done|]. intros (Ha & ? & ? & ?). simplify_eq.
    by rewrite utf8_valid_ascii in U by (by apply authority_ascii).
Qed.

(** ** Written field lines *)
Definition field_line (h : Header) : bytes := name h ++ str ": " ++ value h.

Definition valid_field (h : Header) : Prop :=
  name h <> [] /\ all is_token_byte (name h) = true /\ all is_valid_header_value_byte (value h) = true.

Definition trimmed_field (h : Header) : Header := mkHeader (name h) (trim_optional_whitespace (value h)).

Lemma serialize_header_line (h : Header) : serialize_header h = field_line h ++ CRLF.
Proof. unfold serialize_header, field_line. by rewrite <- !app_assoc. Qed.

Lemma trimmed_field_name (h : Header) : name (trimmed_field h) = name h.
Proof. done. Qed.

(** A field written with a colon and a space is read back with its value trimmed. *)
Lemma field_line_ok (h : Header) : valid_field h -> header_line (field_line h) (trimmed_field h).
Proof.
  intros (Hne & Htok & Hval).
  destruct (trim_matches_sound is_ows (value h)) as (pre & post & E & Hpre & Hpost).
  constructor; cbn [trimmed_field name value]; rewrite ?trim_optional_whitespace_eq.
  - exists (SP :: pre), post. unfold field_line. rewrite E at 1. split_and!; [done| |done]. by constructor.
  - done.
  - split; [|apply trim_matches_trimmed]. rewrite E in Hval. rewrite !all_app in Hval.
    apply andb_true_iff in Hval as [_ [Hval _]%andb_true_iff]. done.
Qed.

Lemma field_lines_ok (hs : list Header) :
  Forall valid_field hs -> Forall2 header_line (map field_line hs) (map trimmed_field hs).
Proof. induction 1; constructor; [by apply field_line_ok|done]. Qed.

Lemma field_lines_crlf_free (hs : list Header) :
  Forall valid_field hs -> Forall crlf_free (map field_line hs).
Proof. intros H%field_lines_ok. by eapply header_lines_crlf_free. Qed.

Lemma concat_serialize (hs : list Header) :
  concat (map serialize_header hs) = concat (map (fun l => l ++ CRLF) (map field_line hs)).
Proof. rewrite map_map. f_equal. apply map_ext. apply serialize_header_line. Qed.

(** ** Responses are written whole *)
Lemma validate_response_header_iff (n v : bytes) :
  validate_response_header n v = Ok tt <->
  valid_field (mkHeader n v) /\ eq_ignore_ascii_case n (str "content-length") = false /\
  eq_ignore_ascii_case n (str "transfer-encoding") = false.
Proof.
  unfold validate_response_header, valid_field. cbn [name value].
  destruct (eq_ignore_ascii_case n (str "content-length")), (eq_ignore_ascii_case n (str "transfer-encoding"));
    cbn [orb]; try naive_solver.
  destruct (bool_decide_reflect (n = [])); [naive_solver|].
  destruct (all is_token_byte n), (all is_valid_header_value_byte v); naive_solver.
Qed.

Lemma validate_response_header_returns (n v : bytes) : returns (validate_response_header n v).
Proof. unfold validate_response_header. by repeat case_match. Qed.

Definition accepted_field (h : Header) : Prop := validate_response_header (name h) (value h) = Ok tt.

Lemma validate_unit (h : Header) (u : unit) :
  validate_response_header (name h) (value h) = Ok u -> accepted_field h.
Proof. by destruct u. Qed.

Lemma accepted_valid (h : Header) : accepted_field h -> valid_field h.
Proof. intros [H _]%validate_response_header_iff. by destruct h. Qed.

Lemma mapM_accepted (hs : list Header) :
  (exists us, res_mapM (fun h => validate_response_header (name h) (value h)) hs = Ok us) <->
  Forall accepted_field hs.
Proof.
  setoid_rewrite res_mapM_Ok. split.
  - intros [us H]. induction H as [|h u hs us Hu _ IH]; constructor; [by eapply validate_unit|done].
  - intros H. exists (map (fun _ => tt) hs). induction H; constructor; done.
Qed.

Definition status_line (status : StatusCode) : bytes :=
  str "HTTP/1.1 " ++ to_dec (code status) ++ [SP] ++ reason_phrase status.

Definition content_length_field (n : Z) : Header := mkHeader (str "Content-Length") (to_dec n).

Lemma serialize_iff (r : Response) (out : bytes) :
  serialize r = Ok out <->
  Forall accepted_field (response_headers r) /\
  out = status_line (response_status r) ++ CRLF
        ++ concat (map (fun l => l ++ CRLF)
             (map field_line (response_headers r ++ [content_length_field (len (response_body r))])))
        ++ CRLF ++ response_body r.
Proof.
  unfold serialize. rewrite res_bind_Ok, concat_serialize.
  assert (E : Ok (str "HTTP/1.1 " ++ to_dec (code (response_status r)) ++ [SP] ++
      reason_phrase (response_status r) ++ CRLF ++
      concat (map (fun l => l ++ CRLF) (map field_line (response_headers r))) ++
      str "Content-Length: " ++ to_dec (len (response_body r)) ++ CRLF ++ CRLF ++ response_body r) =
    Ok (status_line (response_status r) ++ CRLF
        ++ concat (map (fun l => l ++ CRLF)
             (map field_line (response_headers r ++ [content_length_field (len (response_body r))])))
        ++ CRLF ++ response_body r) :> res ResponseError bytes).
  { f_equal. rewrite !map_app, concat_app. unfold status_line. cbn [map concat].
    unfold field_line at 3. cbn [name value content_length_field]. by rewrite <- !app_assoc. }
  split.
  - intros (us & Hu & H). split; [apply mapM_accepted; by exists us|]. rewrite E in H. by injection H.
  - intros [H ->]. apply mapM_accepted in H as [us Hu]. by exists us.
Qed.

Lemma to_dec_value (n : Z) : all is_valid_header_value_byte (to_dec n) = true.
Proof. eapply all_impl; [|apply to_dec_digits]. intros b. byte_cases b. Qed.

Lemma to_dec_trim (n : Z) : trim_optional_whitespace (to_dec n) = to_dec n.
Proof.
  rewrite trim_optional_whitespace_eq. apply trim_matches_id, Forall_trimmed.
  eapply Forall_impl; [apply all_Forall, to_dec_digits|]. cbn beta. intros b. byte_cases b.
Qed.

Lemma content_length_valid (n : Z) : valid_field (content_length_field n).
Proof. split_and!; [done|done|]. apply to_dec_value. Qed.

Lemma status_line_no_CR (status : StatusCode) : CR ∉ status_line status.
Proof. apply contains_false. destruct status; vm_compute; reflexivity. Qed.

Lemma elements_of_app (n : bytes) (hs ks : list Header) :
  elements_of n (hs ++ ks) = elements_of n hs ++ elements_of n ks.
Proof. unfold elements_of, named_headers. by rewrite filter_app, map_app, concat_app. Qed.

Lemma elements_of_nil (n : bytes) (hs : list Header) :
  Forall (fun h => named n h = false) hs -> elements_of n hs = [].
Proof.
  unfold elements_of, named_headers. induction 1 as [|h hs Hh _ IH]; [done|].
  rewrite filter_cons, decide_False by congruence. done.
Qed.

Lemma elements_of_singleton (n : bytes) (h : Header) (v : bytes) :
  named n h = true -> comma_elements (value h) = [v] -> elements_of n [h] = [v].
Proof.
  intros Hn Hv. unfold elements_of, named_headers. rewrite filter_cons, decide_True, filter_nil by done.
  cbn [map concat]. by rewrite Hv.
Qed.

Lemma comma_elements_dec (n : Z) : comma_elements (to_dec n) = [to_dec n].
Proof.
  unfold comma_elements. rewrite split_on_none; [cbn [map]; by rewrite to_dec_trim|].
  eapply Forall_impl; [apply all_Forall, to_dec_digits|]. cbn beta. intros b. byte_cases b.
Qed.

Lemma cl_value_dec (n : Z) : 0 <= n -> cl_value (to_dec n) n.
Proof.
  intros Hn. split_and!; [apply to_dec_ne|apply to_dec_digits|].
  by apply digits_value_to_radix; lia.
Qed.

(** The fields a serialised response carries announce its body and nothing else. *)
Lemma response_framing (hs : list Header) (n : Z) :
  Forall accepted_field hs -> 0 <= n <= u64_max ->
  content_length_spec (map trimmed_field (hs ++ [content_length_field n])) (Some n) /\
  transfer_encoding_spec (map trimmed_field (hs ++ [content_length_field n])) false.
Proof.
  intros Hhs Hn. rewrite map_app.
  assert (Hcl : elements_of (str "content-length") (map trimmed_field hs) = []).
  { apply elements_of_nil, Forall_map. eapply Forall_impl; [exact Hhs|]. cbn beta.
    intros h [_ [Hc _]]%validate_response_header_iff. done. }
  assert (Hte : elements_of (str "transfer-encoding") (map trimmed_field hs) = []).
  { apply elements_of_nil, Forall_map. eapply Forall_impl; [exact Hhs|]. cbn beta.
    intros h [_ [_ Ht]]%validate_response_header_iff. done. }
  unfold content_length_spec, transfer_encoding_spec. rewrite !elements_of_app, Hcl, Hte. cbn [map app].
  rewrite (elements_of_singleton _ _ (to_dec n)); [|done|].
  - split; [|done]. split_and!; [done|lia|]. repeat constructor; apply cl_value_dec; lia.
  - cbn [trimmed_field value content_length_field]. rewrite to_dec_trim. apply comma_elements_dec.
Qed.

(** ** Properties *)

(** C1: the request parser is the grammar of request heads: it answers [Ok (r, n)] exactly when
    the first [n] bytes of the input are a request head within the limits that reads as [r],
    whatever bytes follow. *)
Theorem parse_request_correct (input : bytes) (r : Request) (n : nat) :
  parse_request_with_consumed input = Ok (r, n) <->
  exists head rest, input = head ++ rest /\ length head = n /\ request_head r head.
Proof.
  split; [apply parse_request_sound|]. intros (head & rest & -> & <- & Hh). by apply parse_request_complete.
Qed.

(** The request parser returns on every input: no slice or index is out of range, and the
    loop over the header block ends. *)
Theorem parse_request_returns (input : bytes) : returns (parse_request_with_consumed input).
Proof. apply parse_request_total. Qed.

(** C18: a request head that arrives in pieces is answered with [IncompleteHeaders] until its last
    byte is there, but for one case: a prefix of 8193 bytes that ends between the CR and the LF of
    a request line of the greatest size allowed is refused with [RequestLineTooLong]. *)
Theorem parse_request_incremental (r : Request) (p q : bytes) :
  request_head r (p ++ q) -> q <> [] -> parse_request_with_consumed p = Err (prefix_error r p).
Proof. apply parse_request_prefix. Qed.

Definition sample_head : bytes :=
  str "GET / HTTP/1.1" ++ CRLF ++ str "Host: a.b" ++ CRLF ++ CRLF.

Definition sample_request : Request :=
  {| method := str "GET"; target := str "/"; version := Http11;
     headers := [mkHeader (str "Host") (str "a.b")]; content_length := None;
     has_transfer_encoding := false; keep_alive := true |}.

Lemma sample_request_head : request_head sample_request sample_head.
Proof.
  destruct (parse_request_sound sample_head sample_request 29) as (head & rest & E & Hn & H).
  { vm_compute. reflexivity. }
  assert (rest = []) as ->.
  { apply (f_equal length) in E. rewrite length_app, Hn in E. change (length sample_head) with 29%nat in E. destruct rest; [done|]. simpl in E. lia. }
  rewrite app_nil_r in E. by rewrite E.
Qed.

Example parse_request_incremental_witness :
  parse_request_with_consumed (take 20 sample_head) = Err IncompleteHeaders.
Proof.
  exact (parse_request_incremental sample_request (take 20 sample_head) (drop 20 sample_head)
           (eq_ind_r (request_head sample_request) sample_request_head (take_drop 20 sample_head))
           ltac:(discriminate)).
Defined.

(** The two framing fields are read from all the fields of their name together: a
    [Content-Length] is the one value that every comma-separated element of every such field
    spells in decimal digits and that fits 64 bits, and [Transfer-Encoding] is accepted only as a
    single [chunked] element; anything else is an error. *)
Theorem framing_fields_correct (hs : list Header) (o : option Z) (chunked : bool) :
  (parse_content_length hs = Ok o <-> content_length_spec hs o) /\
  (parse_transfer_encoding hs = Ok chunked <-> transfer_encoding_spec hs chunked).
Proof. split; [apply parse_content_length_iff|apply parse_transfer_encoding_iff]. Qed.

(** [Request::host] never panics, and answers [Some a] exactly when [a] is the value of the
    only Host field and is an authority: a host name or a bracketed IPv6 address, with or without
    a port. *)
Theorem host_correct (r : Request) :
  exists o, host r = Ok o /\
    forall a, o = Some a <->
      authority a /\ exists h, named_headers (str "host") (headers r) = [h] /\ value h = a.
Proof. apply host_iff. Qed.

(** A serialised response cannot be split by its headers or its body: its head is the status
    line and the field lines and ends at the first CRLF CRLF of the message, every field line is
    read back as the header it came from, the fields announce the exact length of the body and no
    transfer coding, and the body follows. *)
Theorem serialize_not_split (r : Response) (out : bytes) :
  serialize r = Ok out -> len (response_body r) <= usize_max ->
  exists field_lines fields,
    out = status_line (response_status r) ++ CRLF
          ++ concat (map (fun l => l ++ CRLF) field_lines) ++ CRLF ++ response_body r /\
    find_bytes out (CRLF ++ CRLF) =
      Some (length (status_line (response_status r)) + length (concat (map (fun l => l ++ CRLF) field_lines)))%nat /\
    Forall2 header_line field_lines fields /\
    map name fields = map name (response_headers r) ++ [str "Content-Length"] /\
    content_length_spec fields (Some (len (response_body r))) /\
    transfer_encoding_spec fields false.
Proof.
  intros [Hhs ->]%serialize_iff Hlen. set (hs := response_headers r ++ _).
  assert (Hv : Forall valid_field hs).
  { apply Forall_app. split; [|constructor; [apply content_length_valid|done]].
    eapply Forall_impl; [exact Hhs|]. exact accepted_valid. }
  exists (map field_line hs), (map trimmed_field hs). split_and!.
  - done.
  - apply find_head_end; [apply status_line_no_CR|]. by apply field_lines_crlf_free.
  - by apply field_lines_ok.
  - rewrite map_map. unfold hs. by rewrite map_app.
  - apply response_framing; [done|]. split; [apply len_nonneg|done].
  - apply (response_framing _ (len (response_body r))); [done|]. split; [apply len_nonneg|done].
Qed.

Example serialize_not_split_witness :
  exists fl fs, Forall2 header_line fl fs /\ content_length_spec fs (Some 2).
Proof.
  destruct (serialize_not_split (new_response NotFound (str "no"))
              (str "HTTP/1.1 404 Not Found" ++ CRLF ++ str "Content-Length: 2" ++ CRLF ++ CRLF ++ str "no"))
    as (fl & fs & _ & _ & H & _ & Hc & _).
  - vm_compute. reflexivity.
  - vm_compute. discriminate.
  - exists fl, fs. split; [exact H|exact Hc].
Defined.

(** [Response::new] followed by [with_header] calls. *)
Definition build_response (status : StatusCode) (body : bytes) (hs : list Header) : res ResponseError Response :=
  res_foldM (fun r h => with_header r (name h) (value h)) (new_response status body) hs.

(** A response built with [Response::new] and [with_header] always serialises, holds the
    headers in the order given, and is refused as soon as one header is invalid or managed. *)
Theorem build_response_correct (status : StatusCode) (body : bytes) (hs : list Header) :
  (forall r, build_response status body hs = Ok r <->
     Forall accepted_field hs /\
     r = {| response_status := status; response_headers := hs; response_body := body |}) /\
  (forall r, build_response status body hs = Ok r -> is_ok (serialize r) = true).
Proof.
  assert (Hb : forall acc r, res_foldM (fun r h => with_header r (name h) (value h))
      {| response_status := status; response_headers := acc; response_body := body |} hs = Ok r <->
      Forall accepted_field hs /\
      r = {| response_status := status; response_headers := acc ++ hs; response_body := body |}).
  { induction hs as [|h hs IH]; intros acc r; cbn [res_foldM].
    - rewrite app_nil_r. split; [by intros [= <-]|by intros [_ ->]].
    - unfold with_header at 1. rewrite Forall_cons, res_bind_Ok. setoid_rewrite res_bind_Ok. split.
      + intros (r' & (u & Hu & Er) & Hrest). injection Er as <-. apply IH in Hrest as [Hf ->]. cbn. rewrite <- app_assoc.
        split; [split; [by eapply validate_unit|done]|]. by destruct h.
      + intros [[Hh Hs] ->]. eexists; split; [exists tt; by split|]. apply IH. split; [done|]. cbn.
        rewrite <- app_assoc. by destruct h. }
  split; [intros r; apply Hb|]. intros r [H ->]%Hb.
  unfold serialize. apply mapM_accepted in H as [us Hu]. cbn [response_headers app]. by rewrite Hu.
Qed.
