(* ===== verification/Config.v ===== *)
(** * The configuration file: [src/config.rs]

    Strings are the byte lists of UTF-8 text. The file is read through a parameter;
    paths follow [std::path] on Unix. *)
From Stdlib Require Import ZArith Lia.
From stdpp Require Import gmap prelude.
From S2P Require Import Prelude Bytes NetAddr.
Local Open Scope Z_scope.
Set Warnings "-clear-no-such-hyp".

(** ** Paths: [std::path] on Unix *)
Module Paths.

Inductive Component : Type :=
| RootDir
| CurDir
| ParentDir
| Normal (n : bytes).

#[export] Instance Component_eq_dec : EqDecision Component.
Proof. solve_decision. Defined.

Definition slash : byte := x2f.

Definition is_absolute (p : bytes) : bool :=
  match p with
  | b :: _ => byte_eqb b slash
  | [] => false
  end.

Definition is_relative (p : bytes) : bool := negb (is_absolute p).

(** A relative path that starts with a [.] component. *)
Definition include_cur_dir (p : bytes) : bool :=
  match p with
  | [b] => byte_eqb b x2e
  | b :: c :: _ => byte_eqb b x2e && byte_eqb c slash
  | [] => false
  end.

Definition parse_single_component (c : bytes) : option Component :=
  if bool_decide (c = []) || bool_decide (c = [x2e]) then None
  else if bool_decide (c = [x2e; x2e]) then Some ParentDir
  else Some (Normal c).

Definition components (p : bytes) : list Component :=
  (if is_absolute p then [RootDir] else if include_cur_dir p then [CurDir] else [])
  ++ omap parse_single_component (split_on (byte_eqb slash) p).

(** The path before its last component and the separator after it, and that component;
    [n] bytes at the start belong to the root or to a leading [.]. *)
Definition split_back (n : nat) (p : bytes) : bytes * bytes :=
  match rsplit_once slash (drop n p) with
  | Some (pre, c) => (take n p ++ pre, c)
  | None => (take n p, drop n p)
  end.

Fixpoint trim_right (fuel n : nat) (p : bytes) : bytes :=
  match fuel with
  | O => p
  | S fuel' =>
      if (length p <=? n)%nat then p
      else
        let '(pre, c) := split_back n p in
        match parse_single_component c with
        | Some _ => p
        | None => trim_right fuel' n pre
        end
  end.

Fixpoint parent_loop (fuel n : nat) (p : bytes) : option bytes :=
  match fuel with
  | O => None
  | S fuel' =>
      if (length p <=? n)%nat then
        if is_absolute p then None else if include_cur_dir p then Some [] else None
      else
        let '(pre, c) := split_back n p in
        match parse_single_component c with
        | Some _ => Some (trim_right (length pre) n pre)
        | None => parent_loop fuel' n pre
        end
  end.

(** [Path::parent] *)
Definition parent (p : bytes) : option bytes :=
  parent_loop (S (length p)) (if is_absolute p || include_cur_dir p then 1 else 0) p.

(** [Path::join] *)
Definition join (base p : bytes) : bytes :=
  if is_absolute p then p
  else match list.last base with
       | None => p
       | Some b => if byte_eqb b slash then base ++ p else base ++ [slash] ++ p
       end.

(** [Path] equality compares components. *)
Definition path_eqb (p q : bytes) : bool := bool_decide (components p = components q).

Example parent_1 : parent (str "/etc/bareproxy/bareproxy.conf") = Some (str "/etc/bareproxy").
Proof. vm_compute. reflexivity. Qed.
Example parent_2 : parent (str "proxy.conf") = Some [].
Proof. vm_compute. reflexivity. Qed.
Example parent_3 : parent (str "./a//./b/") = Some (str "./a").
Proof. vm_compute. reflexivity. Qed.
Example parent_4 : parent (str "/") = None.
Proof. vm_compute. reflexivity. Qed.
Example parent_5 : parent (str "/x") = Some (str "/").
Proof. vm_compute. reflexivity. Qed.
Example components_1 : path_eqb (str "a/./b//c/") (str "a/b/c") = true.
Proof. vm_compute. reflexivity. Qed.

End Paths.

(** ** Data *)
Definition DEFAULT_MAX_CONNECTIONS : Z := 128.
Definition DEFAULT_CLIENT_IDLE_TIMEOUT_SECONDS : Z := 30.
Definition DEFAULT_UPSTREAM_TIMEOUT_SECONDS : Z := 10.
Definition DEFAULT_HTTPS_LISTEN_ADDR : bytes := str "127.0.0.1:8443".

Record Upstream : Type := mkUpstream {
  upstream_host : bytes;
  upstream_port : Z
}.

Record Route : Type := mkRoute {
  hostname : bytes;
  upstream : Upstream
}.

Record Config : Type := mkConfig {
  routes : list Route;
  max_connections : Z;
  client_idle_timeout_seconds : Z;
  upstream_timeout_seconds : Z;
  https_listen_addr : bytes
}.

Record TlsIdentityFiles : Type := mkTlsIdentityFiles {
  certificate_path : bytes;
  private_key_path : bytes
}.

Inductive RouteLookupError : Type :=
| InvalidHost
| NotFound (hostname : bytes).

Inductive ConfigError : Type :=
| Read (path message : bytes)
| Line (line : Z) (message : bytes).

#[export] Instance Upstream_eq_dec : EqDecision Upstream.
Proof. solve_decision. Defined.
#[export] Instance Route_eq_dec : EqDecision Route.
Proof. solve_decision. Defined.

(** Equality of identities is equality of their paths. *)
Definition identity_eqb (a b : TlsIdentityFiles) : bool :=
  Paths.path_eqb (certificate_path a) (certificate_path b)
  && Paths.path_eqb (private_key_path a) (private_key_path b).

(** [Display] of [Upstream], [Route], [RouteLookupError] and [ConfigError]. *)
Definition upstream_to_string (u : Upstream) : bytes :=
  if contains x3a (upstream_host u)
  then [x5b] ++ upstream_host u ++ str "]:" ++ to_dec (upstream_port u)
  else upstream_host u ++ [x3a] ++ to_dec (upstream_port u).

Definition address (u : Upstream) : bytes := upstream_to_string u.

Definition route_to_string (r : Route) : bytes :=
  hostname r ++ str " -> " ++ upstream_to_string (upstream r).

Definition route_lookup_error_to_string (e : RouteLookupError) : bytes :=
  match e with
  | InvalidHost => str "invalid Host header"
  | NotFound h => str "no route for " ++ h
  end.

Definition config_error_to_string (e : ConfigError) : bytes :=
  match e with
  | Read path message => str "failed to read config " ++ path ++ str ": " ++ message
  | Line line message => str "config line " ++ to_dec line ++ str ": " ++ message
  end.

(** ** Host names *)
Definition is_valid_hostname_label {E : Type} (label : bytes) : res E bool :=
  if bool_decide (label = []) || (63 <? len label) then Ok false
  else
    let? first := index label 0 in
    if negb (is_ascii_alphanumeric first) then Ok false
    else
      let? last := index label (length label - 1) in
      if negb (is_ascii_alphanumeric last) then Ok false
      else Ok (all (fun b => is_ascii_alphanumeric b || byte_eqb b x2d) label).

Definition is_valid_hostname {E : Type} (hostname : bytes) : res E bool :=
  if bool_decide (hostname = []) || (253 <? len hostname) || negb (all is_ascii hostname) then Ok false
  else res_all is_valid_hostname_label (split_on (byte_eqb x2e) hostname).

Definition normalize_hostname {E : Type} (hostname : bytes) : res E (option bytes) :=
  let hostname := trim_end_matches (byte_eqb x2e) hostname in
  let? valid := is_valid_hostname hostname in
  Ok (if valid then Some (lowercase hostname) else None).

Definition normalize_request_host {E : Type} (host : bytes) : res E (option bytes) :=
  let host := trim host in
  if bool_decide (host = []) then Ok None
  else
    match rsplit_once x3a host with
    | Some (hostname, port) =>
        if contains x3a hostname
           || bool_decide (port = [])
           || negb (all is_ascii_digit port)
           || bool_decide (parse_uint u16_max port = None)
        then Ok None
        else normalize_hostname hostname
    | None => normalize_hostname host
    end.

Definition route_for_host (c : Config) (host : bytes) : res RouteLookupError Route :=
  let? normalized := normalize_request_host host in
  let? h := ok_or normalized InvalidHost in
  ok_or (List.find (fun r => bytes_eqb (hostname r) h) (routes c)) (NotFound h).

(** ** Values *)
Definition strip_comment (line : bytes) : bytes :=
  match split_once [x23] line with
  | Some (before_comment, _) => before_comment
  | None => line
  end.

Definition parse_https_listen_addr (input : bytes) : res bytes bytes :=
  if bool_decide (input = []) then Err (str "https_listen must be an IP address and port")
  else
    let? address := ok_or (parse_socket_addr input) (str "https_listen must be an IP address and port") in
    Ok (socket_addr_to_string address).

Definition parse_tls_identity_files (input : bytes) : res bytes TlsIdentityFiles :=
  let syntax_error := str "tls_identity must use `certificate.pem | private-key.pem`" in
  let? (certificate_path, private_key_path) := ok_or (split_once [x7c] input) syntax_error in
  if contains x7c private_key_path then Err syntax_error
  else
    let certificate_path := trim certificate_path in
    let private_key_path := trim private_key_path in
    if bool_decide (certificate_path = []) || bool_decide (private_key_path = []) then Err syntax_error
    else Ok (mkTlsIdentityFiles certificate_path private_key_path).

Definition normalize_upstream_host {E : Type} (host : bytes) : res E (option bytes) :=
  let host := trim host in
  if bool_decide (host = []) then Ok None
  else
    match parse_ip_addr host with
    | Some address => Ok (Some (ip_to_string address))
    | None => normalize_hostname host
    end.

Definition parse_port (port : bytes) : res bytes Z :=
  if bool_decide (port = []) || negb (all is_ascii_digit port) then Err (str "invalid upstream port")
  else
    let? port := ok_or (parse_uint u16_max port) (str "upstream port must be between 1 and 65535") in
    if port =? 0 then Err (str "upstream port must be between 1 and 65535")
    else Ok port.

Definition parse_upstream (input : bytes) : res bytes Upstream :=
  if bool_decide (input = []) then Err (str "missing upstream")
  else
    let? (host, port) :=
      match strip_prefix x5b input with
      | Some rest =>
          let? closing := ok_or (position (byte_eqb x5d) rest) (str "invalid bracketed upstream address") in
          let? host := slice_to rest closing in
          let? remainder := slice_from rest (closing + 1) in
          let? port := ok_or (strip_prefix x3a remainder) (str "upstream port is required after `]`") in
          let? address := ok_or (parse_ip_addr host) (str "invalid bracketed IP address") in
          if negb (is_ipv6 address) then Err (str "bracketed upstream address must be IPv6")
          else Ok (host, port)
      | None =>
          let? (host, port) := ok_or (rsplit_once x3a input) (str "upstream must include a port") in
          if contains x3a host then Err (str "IPv6 upstreams must use `[address]:port` syntax")
          else
            let? normalized := normalize_upstream_host host in
            let? normalized_host := ok_or normalized (str "invalid upstream host") in
            Ok (normalized_host, port)
      end in
    let? port := parse_port port in
    Ok (mkUpstream host port).

Definition positive_integer (bound : Z) (message value : bytes) : res bytes Z :=
  if bool_decide (value = []) || negb (all is_ascii_digit value) then Err message
  else
    let? value := ok_or (parse_uint bound value) message in
    if value =? 0 then Err message else Ok value.

Definition parse_max_connections : bytes -> res bytes Z :=
  positive_integer usize_max (str "max_connections must be a positive integer").

Definition parse_client_idle_timeout_seconds : bytes -> res bytes Z :=
  positive_integer u64_max (str "client_idle_timeout_seconds must be a positive integer").

Definition parse_upstream_timeout_seconds : bytes -> res bytes Z :=
  positive_integer u64_max (str "upstream_timeout_seconds must be a positive integer").

(** ** The file *)

(** The variables of [parse_with_tls]. *)
Record ParseState : Type := mkParseState {
  st_routes : list Route;
  st_tls_identity_files : list TlsIdentityFiles;
  st_hostnames : gset bytes;
  st_max_connections : Z;
  st_max_connections_set : bool;
  st_client_idle_timeout_seconds : Z;
  st_client_idle_timeout_set : bool;
  st_upstream_timeout_seconds : Z;
  st_upstream_timeout_set : bool;
  st_https_listen_addr : bytes;
  st_https_listen_set : bool
}.

Definition initial_state : ParseState :=
  mkParseState [] [] ∅ DEFAULT_MAX_CONNECTIONS false DEFAULT_CLIENT_IDLE_TIMEOUT_SECONDS false
    DEFAULT_UPSTREAM_TIMEOUT_SECONDS false DEFAULT_HTTPS_LISTEN_ADDR false.

(** [if let Some((directive, value)) = line.split_once('=') && directive.trim() == name] *)
Definition directive (name line : bytes) : option bytes :=
  match split_once [x3d] line with
  | Some (d, value) => if bytes_eqb (trim d) name then Some value else None
  | None => None
  end.

Definition tls_identity_line (st : ParseState) (value : bytes) : res bytes ParseState :=
  let? files := parse_tls_identity_files (trim value) in
  if existsb (fun f => identity_eqb f files) (st_tls_identity_files st)
  then Err (str "duplicate tls_identity certificate/key pair")
  else Ok (mkParseState (st_routes st) (st_tls_identity_files st ++ [files]) (st_hostnames st)
             (st_max_connections st) (st_max_connections_set st)
             (st_client_idle_timeout_seconds st) (st_client_idle_timeout_set st)
             (st_upstream_timeout_seconds st) (st_upstream_timeout_set st)
             (st_https_listen_addr st) (st_https_listen_set st)).

Definition https_listen_line (st : ParseState) (value : bytes) : res bytes ParseState :=
  if st_https_listen_set st then Err (str "duplicate https_listen setting")
  else
    let? addr := parse_https_listen_addr (trim value) in
    Ok (mkParseState (st_routes st) (st_tls_identity_files st) (st_hostnames st)
          (st_max_connections st) (st_max_connections_set st)
          (st_client_idle_timeout_seconds st) (st_client_idle_timeout_set st)
          (st_upstream_timeout_seconds st) (st_upstream_timeout_set st)
          addr true).

Definition max_connections_line (st : ParseState) (value : bytes) : res bytes ParseState :=
  if st_max_connections_set st then Err (str "duplicate max_connections setting")
  else
    let? n := parse_max_connections (trim value) in
    Ok (mkParseState (st_routes st) (st_tls_identity_files st) (st_hostnames st)
          n true
          (st_client_idle_timeout_seconds st) (st_client_idle_timeout_set st)
          (st_upstream_timeout_seconds st) (st_upstream_timeout_set st)
          (st_https_listen_addr st) (st_https_listen_set st)).

Definition client_idle_timeout_line (st : ParseState) (value : bytes) : res bytes ParseState :=
  if st_client_idle_timeout_set st then Err (str "duplicate client_idle_timeout_seconds setting")
  else
    let? n := parse_client_idle_timeout_seconds (trim value) in
    Ok (mkParseState (st_routes st) (st_tls_identity_files st) (st_hostnames st)
          (st_max_connections st) (st_max_connections_set st)
          n true
          (st_upstream_timeout_seconds st) (st_upstream_timeout_set st)
          (st_https_listen_addr st) (st_https_listen_set st)).

Definition upstream_timeout_line (st : ParseState) (value : bytes) : res bytes ParseState :=
  if st_upstream_timeout_set st then Err (str "duplicate upstream_timeout_seconds setting")
  else
    let? n := parse_upstream_timeout_seconds (trim value) in
    Ok (mkParseState (st_routes st) (st_tls_identity_files st) (st_hostnames st)
          (st_max_connections st) (st_max_connections_set st)
          (st_client_idle_timeout_seconds st) (st_client_idle_timeout_set st)
          n true
          (st_https_listen_addr st) (st_https_listen_set st)).

Definition route_line (st : ParseState) (line : bytes) : res bytes ParseState :=
  let? (host, up) := ok_or (split_once (str "->") line) (str "expected `hostname -> upstream:port`") in
  match split_once (str "->") up with
  | Some _ => Err (str "route contains more than one `->` separator")
  | None =>
      let? normalized := normalize_hostname (trim host) in
      let? h := ok_or normalized (str "invalid route hostname") in
      if decide (h ∈ st_hostnames st) then Err (str "duplicate route for " ++ h)
      else
        let? u := parse_upstream (trim up) in
        Ok (mkParseState (st_routes st ++ [mkRoute h u]) (st_tls_identity_files st) ({[h]} ∪ st_hostnames st)
              (st_max_connections st) (st_max_connections_set st)
              (st_client_idle_timeout_seconds st) (st_client_idle_timeout_set st)
              (st_upstream_timeout_seconds st) (st_upstream_timeout_set st)
              (st_https_listen_addr st) (st_https_listen_set st))
  end.

(** The body of the loop of [parse_with_tls], with the message of the error it returns. *)
Definition config_line (st : ParseState) (raw_line : bytes) : res bytes ParseState :=
  let line := trim (strip_comment raw_line) in
  if bool_decide (line = []) then Ok st
  else match directive (str "tls_identity") line with
  | Some value => tls_identity_line st value
  | None => match directive (str "https_listen") line with
  | Some value => https_listen_line st value
  | None => match directive (str "max_connections") line with
  | Some value => max_connections_line st value
  | None => match directive (str "client_idle_timeout_seconds") line with
  | Some value => client_idle_timeout_line st value
  | None => match directive (str "upstream_timeout_seconds") line with
  | Some value => upstream_timeout_line st value
  | None => route_line st line
  end end end end end.

(** The lines numbered from 1. *)
Definition numbered_lines (input : bytes) : list (Z * bytes) :=
  imap (fun index line => (Z.of_nat index + 1, line)) (lines input).

Definition finish (st : ParseState) : Config * list TlsIdentityFiles :=
  ({| routes := st_routes st;
      max_connections := st_max_connections st;
      client_idle_timeout_seconds := st_client_idle_timeout_seconds st;
      upstream_timeout_seconds := st_upstream_timeout_seconds st;
      https_listen_addr := st_https_listen_addr st |},
   st_tls_identity_files st).

Definition parse_with_tls (input : bytes) : res ConfigError (Config * list TlsIdentityFiles) :=
  let? st := res_foldM (fun st nl => map_err (Line nl.1) (config_line st nl.2)) initial_state
               (numbered_lines input) in
  Ok (finish st).

Definition resolve_against (f : TlsIdentityFiles) (base_directory : bytes) : TlsIdentityFiles :=
  {| certificate_path :=
       if Paths.is_relative (certificate_path f) then Paths.join base_directory (certificate_path f)
       else certificate_path f;
     private_key_path :=
       if Paths.is_relative (private_key_path f) then Paths.join base_directory (private_key_path f)
       else private_key_path f |}.

(** [load_with_tls]; [read_to_string] reads a file, or names the error. *)
Definition load_with_tls (read_to_string : bytes -> res bytes bytes) (path : bytes)
  : res ConfigError (Config * list TlsIdentityFiles) :=
  let? contents := map_err (Read path) (read_to_string path) in
  let? (configuration, tls_identity_files) := parse_with_tls contents in
  let base_directory := default [] (Paths.parent path) in
  Ok (configuration, map (fun f => resolve_against f base_directory) tls_identity_files).

(** ** Host names: the normal form *)
Lemma label_eq {E : Type} (l : bytes) : is_valid_hostname_label l = Ok (label_ok l) :> res E bool.
Proof.
  unfold is_valid_hostname_label, label_ok. destruct l as [|b l]; [done|].
  rewrite bool_decide_false by done. cbn [orb].
  destruct (list.last (b :: l)) as [e|] eqn:El; [|by apply last_None in El].
  destruct (Z.ltb_spec 63 (len (b :: l))) as [Hlt|Hle].
  - by rewrite (proj2 (Z.leb_gt _ _)) by done.
  - rewrite (proj2 (Z.leb_le _ _)) by done. rewrite (index_Ok _ 0 b) by done. cbn [res_bind].
    rewrite (last_index _ _ El). cbn [res_bind andb].
    by destruct (is_ascii_alphanumeric b), (is_ascii_alphanumeric e).
Qed.

Lemma hostname_ok_ascii (h : bytes) : hostname_ok h = true -> all is_ascii h = true.
Proof. intros [H _]%hostname_ok_bytes. revert H. apply all_impl. intros b. byte_cases b. Qed.

Lemma hostname_eq {E : Type} (h : bytes) : is_valid_hostname h = Ok (hostname_ok h) :> res E bool.
Proof.
  pose proof (hostname_ok_ascii h) as Ha. unfold is_valid_hostname. destruct (decide (h = [])) as [->|Hne]; [done|].
  rewrite bool_decide_false by done. cbn [orb]. unfold hostname_ok in *.
  destruct (Z.ltb_spec 253 (len h)).
  - by rewrite (proj2 (Z.leb_gt _ _)) by done.
  - rewrite (proj2 (Z.leb_le _ _)) in * by done. cbn [orb andb] in *.
    destruct (all is_ascii h); cbn [negb].
    + apply res_all_pure. apply label_eq.
    + by destruct (forallb label_ok (split_on (byte_eqb x2e) h)); [discriminate Ha|].
Qed.

Definition normalized (h : bytes) : option bytes :=
  let t := trim_end_matches (byte_eqb x2e) h in
  if hostname_ok t then Some (lowercase t) else None.

Lemma normalize_hostname_eq {E : Type} (h : bytes) : normalize_hostname h = Ok (normalized h) :> res E _.
Proof. unfold normalize_hostname, normalized. by rewrite hostname_eq. Qed.

(** Lowercasing keeps the shape of a host name. *)
Lemma split_on_lowercase (l : bytes) :
  split_on (byte_eqb x2e) (lowercase l) = map lowercase (split_on (byte_eqb x2e) l).
Proof.
  assert (Hd : forall b, byte_eqb x2e (to_ascii_lowercase b) = byte_eqb x2e b) by (intros b; byte_cases b).
  induction l as [|b l IH]; [done|]. cbn [lowercase map split_on].
  change (map to_ascii_lowercase l) with (lowercase l). rewrite Hd, IH.
  destruct (byte_eqb x2e b); [done|]. by destruct (split_on (byte_eqb x2e) l).
Qed.

Lemma last_lowercase (l : bytes) : list.last (lowercase l) = to_ascii_lowercase <$> list.last l.
Proof. apply fmap_last. Qed.

Lemma all_lowercase (p : byte -> bool) (l : bytes) :
  (forall b, p (to_ascii_lowercase b) = p b) -> all p (lowercase l) = all p l.
Proof. intros Hp. induction l as [|b l IH]; [done|]. cbn. rewrite Hp. f_equal. apply IH. Qed.

Lemma label_ok_lowercase (l : bytes) : label_ok (lowercase l) = label_ok l.
Proof.
  assert (Ha : forall b, is_ascii_alphanumeric (to_ascii_lowercase b) = is_ascii_alphanumeric b)
    by (intros b; byte_cases b).
  assert (Hb : all label_byte (lowercase l) = all label_byte l)
    by (apply all_lowercase; intros b; byte_cases b).
  assert (Hn : len (lowercase l) = len l) by (unfold len; by rewrite length_lowercase).
  pose proof (last_lowercase l) as Hl. unfold label_ok.
  destruct l as [|b l]; [done|]. change (lowercase (b :: l)) with (to_ascii_lowercase b :: lowercase l) in *.
  cbv iota beta. rewrite Hl, Hn, Hb, Ha. destruct (list.last (b :: l)) as [e|]; [|done].
  cbn [fmap option_fmap option_map]. by rewrite Ha.
Qed.

Lemma hostname_ok_lowercase (h : bytes) : hostname_ok (lowercase h) = hostname_ok h.
Proof.
  unfold hostname_ok, len. rewrite length_lowercase, split_on_lowercase. f_equal.
  induction (split_on (byte_eqb x2e) h) as [|l ls IH]; [done|]. cbn. by rewrite label_ok_lowercase, IH.
Qed.

Lemma split_on_snoc (p : byte -> bool) (l : bytes) (b : byte) :
  p b = true -> split_on p (l ++ [b]) = split_on p l ++ [[]].
Proof.
  intros Hb. induction l as [|c l IH]; [cbn; by rewrite Hb|]. cbn [app split_on]. rewrite IH.
  destruct (p c); [done|]. by destruct (split_on p l) as [|k ks] eqn:E; [apply split_on_ne in E|].
Qed.

(** The last byte of a host name is no dot. *)
Lemma hostname_ok_last (h : bytes) : hostname_ok h = true -> trim_end_matches (byte_eqb x2e) h = h.
Proof.
  intros Hh. destruct h as [|b l _] using rev_ind; [done|].
  destruct (byte_eqb x2e b) eqn:Hb.
  - apply byte_eqb_eq in Hb as <-. exfalso. unfold hostname_ok in Hh.
    apply andb_true_iff in Hh as [_ Hh]. rewrite forallb_forall in Hh.
    rewrite split_on_snoc in Hh by done. specialize (Hh [] ltac:(apply in_or_app; right; by left)). done.
  - rewrite <- (app_nil_r (l ++ [b])) at 1. by apply trim_end_matches_snoc.
Qed.

(** The host names a normalised name can be. *)
Definition canonical (h : bytes) : Prop := hostname_ok h = true /\ lowercase h = h.

Lemma normalized_Some (h k : bytes) : normalized h = Some k -> canonical k.
Proof.
  unfold normalized. destruct (hostname_ok _) eqn:Hok; [|done]. intros [= <-].
  split; [by rewrite hostname_ok_lowercase|apply lowercase_idem].
Qed.

Lemma normalized_canonical (k : bytes) : canonical k -> normalized k = Some k.
Proof. intros [Hok Hl]. unfold normalized. by rewrite hostname_ok_last, Hok, Hl. Qed.

Lemma normalized_lowercase (h : bytes) : normalized (lowercase h) = normalized h.
Proof.
  unfold normalized.
  assert (E : trim_end_matches (byte_eqb x2e) (lowercase h) = lowercase (trim_end_matches (byte_eqb x2e) h)).
  { unfold trim_end_matches, lowercase. rewrite map_rev, <- map_rev. f_equal.
    induction (rev h) as [|b l IH]; [done|]. cbn [map drop_while].
    replace (byte_eqb x2e (to_ascii_lowercase b)) with (byte_eqb x2e b) by (byte_cases b).
    by destruct (byte_eqb x2e b). }
  by rewrite E, hostname_ok_lowercase, lowercase_idem.
Qed.

Lemma normalized_dots (h : bytes) (n : nat) : normalized (h ++ replicate n x2e) = normalized h.
Proof.
  unfold normalized. enough (E : trim_end_matches (byte_eqb x2e) (h ++ replicate n x2e) =
    trim_end_matches (byte_eqb x2e) h) by by rewrite E.
  unfold trim_end_matches. f_equal. rewrite rev_app_distr. rewrite drop_while_app; [done|].
  apply Forall_rev, Forall_replicate. done.
Qed.

Lemma canonical_bytes (k : bytes) : canonical k -> all hostname_byte k = true /\ k <> [].
Proof. intros [H _]. by apply hostname_ok_bytes. Qed.

(** ** Upstreams *)
Inductive upstream_host_ok (h : bytes) : Prop :=
| host_name : canonical h -> upstream_host_ok h
| host_ipv4 a : parse_ip_addr h = Some (IpV4 a) -> upstream_host_ok h
| host_ipv6 a : parse_ip_addr h = Some (IpV6 a) -> upstream_host_ok h.

Definition upstream_ok (u : Upstream) : Prop :=
  upstream_host_ok (upstream_host u) /\ 1 <= upstream_port u <= u16_max.

Definition normalized_upstream (host : bytes) : option bytes :=
  let host := trim host in
  if bool_decide (host = []) then None
  else match parse_ip_addr host with
       | Some address => Some (ip_to_string address)
       | None => normalized host
       end.

Lemma normalize_upstream_host_eq {E : Type} (h : bytes) :
  normalize_upstream_host h = Ok (normalized_upstream h) :> res E _.
Proof.
  unfold normalize_upstream_host, normalized_upstream. destruct (bool_decide (trim h = [])); [done|].
  destruct (parse_ip_addr (trim h)); [done|]. apply normalize_hostname_eq.
Qed.

Lemma normalized_upstream_ok (host h : bytes) :
  x3a ∉ host -> normalized_upstream host = Some h ->
  canonical h \/ exists a, parse_ip_addr h = Some (IpV4 a).
Proof.
  intros Hc. unfold normalized_upstream. case_bool_decide; [done|].
  destruct (parse_ip_addr (trim host)) as [[a|a]|] eqn:E.
  - intros [= <-]. cbn [ip_to_string]. right. exists a. by rewrite (parse_ip_addr_v4 _ _ E).
  - intros _. apply parse_ip_addr_v6_colon, trim_subset in E. done.
  - intros Hn%normalized_Some. by left.
Qed.

Lemma hostname_byte_plain (b : byte) : hostname_byte b = true -> plain b = true.
Proof. byte_cases b. Qed.

Lemma ipv4_byte_hostname (b : byte) : ipv4_byte b = true -> hostname_byte b = true.
Proof. byte_cases b. Qed.

(** The hosts written without brackets. *)
Lemma bare_host_bytes (h : bytes) :
  canonical h \/ (exists a, parse_ip_addr h = Some (IpV4 a)) -> all hostname_byte h = true /\ h <> [].
Proof.
  intros [Hc|[a Ha]]; [by apply canonical_bytes|].
  apply parse_ip_addr_v4_bytes in Ha as [Hb ?]. split; [|done].
  revert Hb. apply all_impl. apply ipv4_byte_hostname.
Qed.

Lemma hostname_bytes_no_colon (h : bytes) : all hostname_byte h = true -> x3a ∉ h.
Proof. intros H. by apply (all_not_elem _ _ _ H). Qed.

Lemma normalized_upstream_id (h : bytes) :
  canonical h \/ (exists a, parse_ip_addr h = Some (IpV4 a)) -> normalized_upstream h = Some h.
Proof.
  intros Hh. destruct (bare_host_bytes h Hh) as [Hb Hne]. unfold normalized_upstream.
  rewrite trim_all_plain by (revert Hb; apply all_impl; apply hostname_byte_plain).
  rewrite bool_decide_false by done. destruct (parse_ip_addr h) as [[a|a]|] eqn:E.
  - cbn [ip_to_string]. by rewrite (parse_ip_addr_v4 _ _ E).
  - apply parse_ip_addr_v6_colon in E. by apply hostname_bytes_no_colon in Hb.
  - destruct Hh as [Hc|[a Ha]]; [|done]. by apply normalized_canonical.
Qed.

Lemma parse_port_iff (p : bytes) (n : Z) :
  parse_port p = Ok n <-> p <> [] /\ all is_ascii_digit p = true /\ parse_uint u16_max p = Some n /\ n <> 0.
Proof.
  unfold parse_port. case_bool_decide; [naive_solver|]. destruct (all is_ascii_digit p); cbn [orb negb]; [|naive_solver].
  destruct (parse_uint u16_max p) as [m|]; cbn [ok_or res_bind]; [|naive_solver].
  destruct (Z.eqb_spec m 0); naive_solver.
Qed.

Lemma parse_port_range (p : bytes) (n : Z) : parse_port p = Ok n -> 1 <= n <= u16_max.
Proof. intros (_ & _ & H%parse_uint_range & Hn)%parse_port_iff; [|done]. lia. Qed.

Lemma parse_port_dec (n : Z) : 1 <= n <= u16_max -> parse_port (to_dec n) = Ok n.
Proof.
  intros Hn. apply parse_port_iff. split_and!; [apply to_dec_ne|apply to_dec_digits| |lia].
  apply parse_uint_to_dec. lia.
Qed.

Lemma parse_upstream_ok (s : bytes) (u : Upstream) : parse_upstream s = Ok u -> upstream_ok u.
Proof.
  unfold parse_upstream. case_bool_decide; [done|]. rewrite res_bind_Ok. intros ([h p] & Hh & Hu).
  apply res_bind_Ok in Hu as (n & Hn%parse_port_range & [= <-]). split; [|done]. cbn [upstream_host].
  destruct (strip_prefix x5b s) as [rest|].
  - repeat (apply res_bind_Ok in Hh as (? & ? & Hh)). destruct (negb (is_ipv6 _)) eqn:H6; [done|].
    injection Hh as <- <-. destruct x3 as [a|a]; [done|]. rewrite ok_or_Ok in *. by eapply host_ipv6.
  - apply res_bind_Ok in Hh as ([h' p'] & Hs & Hh). destruct (contains x3a h') eqn:Hc; [done|].
    apply contains_false in Hc. rewrite normalize_upstream_host_eq in Hh. cbn [res_bind] in Hh.
    apply res_bind_Ok in Hh as (k & Hk & [= <- <-]). apply ok_or_Ok in Hk.
    destruct (normalized_upstream_ok _ _ Hc Hk) as [?|[a Ha]]; [by apply host_name|by eapply host_ipv4].
Qed.

Lemma parse_upstream_bare (h : bytes) (n : Z) :
  canonical h \/ (exists a, parse_ip_addr h = Some (IpV4 a)) -> 1 <= n <= u16_max ->
  parse_upstream (h ++ [x3a] ++ to_dec n) = Ok (mkUpstream h n).
Proof.
  intros Hh Hn. destruct (bare_host_bytes h Hh) as [Hb Hne]. unfold parse_upstream.
  rewrite bool_decide_false by (by destruct h).
  replace (strip_prefix x5b (h ++ [x3a] ++ to_dec n)) with (@None bytes).
  2: { destruct h as [|b h]; [done|]. cbn [app strip_prefix]. cbn in Hb. apply andb_true_iff in Hb as [Hb _].
       replace (byte_eqb b x5b) with false; [done|]. revert Hb. byte_cases b. }
  assert (Hd : x3a ∉ to_dec n) by (by apply (all_not_elem _ _ _ (to_dec_digits n))).
  cbn [app]. rewrite rsplit_once_app by done. cbn [ok_or res_bind].
  rewrite (proj2 (contains_false _ _)) by (by apply hostname_bytes_no_colon).
  rewrite normalize_upstream_host_eq, normalized_upstream_id by done. cbn [res_bind ok_or].
  by rewrite parse_port_dec.
Qed.

Lemma parse_upstream_bracket (h : bytes) (a : Ipv6Addr) (n : Z) :
  parse_ip_addr h = Some (IpV6 a) -> 1 <= n <= u16_max ->
  parse_upstream ([x5b] ++ h ++ str "]:" ++ to_dec n) = Ok (mkUpstream h n).
Proof.
  intros Ha Hn. unfold parse_upstream. rewrite bool_decide_false by done. cbn [app strip_prefix].
  change (byte_eqb x5b x5b) with true. cbv iota. change (str "]:") with [x5d; x3a]. cbn [app].
  assert (Hb : x5d ∉ h) by (apply parse_ip_addr_v6_bytes in Ha; by apply (all_not_elem _ _ _ Ha)).
  rewrite position_byte by done. cbn [ok_or res_bind].
  rewrite slice_to_Ok by (rewrite length_app; lia).
  rewrite slice_from_Ok by (rewrite length_app; simpl; lia). cbn [res_bind].
  rewrite Nat.add_1_r, take_app_length, drop_app_ge by lia.
  rewrite Nat.sub_succ_l, Nat.sub_diag by lia. rewrite skipn_cons, drop_0. cbn [strip_prefix].
  change (byte_eqb x3a x3a) with true. cbv iota. cbn [ok_or res_bind].
  rewrite Ha. cbn [ok_or res_bind is_ipv6 negb]. by rewrite parse_port_dec.
Qed.

Lemma bare_no_colon (h : bytes) :
  canonical h \/ (exists a, parse_ip_addr h = Some (IpV4 a)) -> contains x3a h = false.
Proof. intros [Hb _]%bare_host_bytes. by apply contains_false, hostname_bytes_no_colon. Qed.

Lemma parse_upstream_display (u : Upstream) : upstream_ok u -> parse_upstream (upstream_to_string u) = Ok u.
Proof.
  destruct u as [h n]. intros [Hh Hn]. unfold upstream_to_string. cbn [upstream_host upstream_port] in *.
  destruct Hh as [Hc|a Ha|a Ha].
  - rewrite bare_no_colon by auto. apply parse_upstream_bare; auto.
  - rewrite bare_no_colon by eauto. apply parse_upstream_bare; eauto.
  - rewrite (proj2 (contains_elem _ _)) by (by eapply parse_ip_addr_v6_colon).
    by eapply parse_upstream_bracket.
Qed.

(** The bytes of a displayed upstream. *)
Definition upstream_byte (b : byte) : bool :=
  hostname_byte b || byte_eqb b x3a || byte_eqb b x5b || byte_eqb b x5d.

Lemma upstream_display_bytes (u : Upstream) :
  upstream_ok u -> all upstream_byte (upstream_to_string u) = true.
Proof.
  assert (Hn : forall n, all upstream_byte (to_dec n) = true)
    by (intros n; eapply all_impl; [|apply to_dec_digits]; intros b; byte_cases b).
  assert (Hb : forall h, all hostname_byte h = true -> all upstream_byte h = true)
    by (intros h; apply all_impl; intros b; byte_cases b).
  destruct u as [h n]. intros [Hh _]. unfold upstream_to_string. cbn [upstream_host upstream_port] in *.
  destruct Hh as [Hc|a Ha|a Ha].
  - rewrite bare_no_colon by auto. rewrite !all_app, Hn, Hb; [done|]. by apply bare_host_bytes; auto.
  - rewrite bare_no_colon by eauto. rewrite !all_app, Hn, Hb; [done|]. by apply bare_host_bytes; eauto.
  - rewrite (proj2 (contains_elem _ _)) by (by eapply parse_ip_addr_v6_colon).
    apply parse_ip_addr_v6_bytes in Ha. rewrite !all_app, Hn.
    rewrite (all_impl ipv6_byte upstream_byte h); [done| |done]. intros b. byte_cases b.
Qed.

(** ** The invariant of the parser *)
Definition route_ok (r : Route) : Prop := canonical (hostname r) /\ upstream_ok (upstream r).

Definition identity_key (f : TlsIdentityFiles) : list Paths.Component * list Paths.Component :=
  (Paths.components (certificate_path f), Paths.components (private_key_path f)).

Definition identity_ok (f : TlsIdentityFiles) : Prop := certificate_path f <> [] /\ private_key_path f <> [].

(** An address in the spelling of the standard library. *)
Definition listen_addr_ok (s : bytes) : Prop :=
  exists t a, parse_socket_addr t = Some a /\ s = socket_addr_to_string a.

Record config_ok (c : Config) (ids : list TlsIdentityFiles) : Prop := {
  config_routes : Forall route_ok (routes c);
  config_hostnames : NoDup (map hostname (routes c));
  config_max_connections : 1 <= max_connections c <= usize_max;
  config_client_idle : 1 <= client_idle_timeout_seconds c <= u64_max;
  config_upstream_timeout : 1 <= upstream_timeout_seconds c <= u64_max;
  config_listen : listen_addr_ok (https_listen_addr c);
  config_identities : Forall identity_ok ids;
  config_identities_distinct : NoDup (map identity_key ids)
}.

Definition state_ok (st : ParseState) : Prop :=
  config_ok (finish st).1 (finish st).2 /\
  forall h, h ∈ st_hostnames st <-> h ∈ map hostname (st_routes st).

Lemma identity_eqb_true (f g : TlsIdentityFiles) : identity_eqb f g = true <-> identity_key f = identity_key g.
Proof.
  unfold identity_eqb, Paths.path_eqb, identity_key. rewrite andb_true_iff, !bool_decide_eq_true.
  split; [by intros [-> ->]|intros [= ??]; done].
Qed.

Lemma positive_integer_range (bound n : Z) (m v : bytes) :
  0 <= bound -> positive_integer bound m v = Ok n -> 1 <= n <= bound.
Proof.
  intros Hb. unfold positive_integer. case_match; [done|].
  rewrite res_bind_Ok. intros (k & Hk & H'). apply ok_or_Ok, parse_uint_range in Hk; [|done].
  destruct (Z.eqb_spec k 0); [done|]. injection H' as <-. lia.
Qed.

Lemma positive_integer_returns (bound : Z) (m v : bytes) : returns (positive_integer bound m v).
Proof. unfold positive_integer. case_match; [done|]. apply res_bind_returns; auto with proxy. intros; by case_match. Qed.

Lemma initial_state_ok : state_ok initial_state.
Proof.
  split; [|set_solver]. constructor; [constructor|constructor| | | | |constructor|constructor].
  1-3: vm_compute; split; discriminate.
  exists DEFAULT_HTTPS_LISTEN_ADDR, (SocketV4 (127, 0, 0, 1) 8443). split; vm_compute; reflexivity.
Qed.

Lemma tls_identity_line_ok (st st' : ParseState) (v : bytes) :
  state_ok st -> tls_identity_line st v = Ok st' -> state_ok st'.
Proof.
  intros [[] Hh]. unfold tls_identity_line. rewrite res_bind_Ok. intros (f & Hf & H).
  destruct (existsb _ _) eqn:Hd; [done|]. injection H as <-. split; [|done]. constructor; try done; cbn.
  - apply Forall_app. split; [done|]. constructor; [|done].
    unfold parse_tls_identity_files in Hf. apply res_bind_Ok in Hf as ([c k] & _ & Hf).
    case_match; [done|]. destruct (bool_decide (trim c = [])) eqn:B1; [done|].
    destruct (bool_decide (trim k = [])) eqn:B2; [done|]. injection Hf as <-.
    by apply bool_decide_eq_false in B1, B2.
  - rewrite map_app. apply NoDup_app. split_and!; [done| |by apply NoDup_singleton].
    intros x Hx Hin. apply list_elem_of_singleton in Hin as ->.
    apply list_elem_of_In, in_map_iff in Hx as (g & Hg & Hin).
    assert (existsb (fun f0 => identity_eqb f0 f) (st_tls_identity_files st) = true) by
      (apply existsb_exists; exists g; split; [done|by apply identity_eqb_true]).
    congruence.
Qed.

Lemma https_listen_line_ok (st st' : ParseState) (v : bytes) :
  state_ok st -> https_listen_line st v = Ok st' -> state_ok st'.
Proof.
  intros [[] Hh]. unfold https_listen_line. case_match; [done|]. rewrite res_bind_Ok. intros (a & Ha & [= <-]).
  split; [|done]. constructor; try done; cbn. unfold parse_https_listen_addr in Ha. case_match; [done|].
  apply res_bind_Ok in Ha as (x & Hx%ok_or_Ok & [= <-]). by exists (trim v), x.
Qed.

Lemma limit_lines_ok (st st' : ParseState) (v : bytes) :
  state_ok st ->
  max_connections_line st v = Ok st' \/ client_idle_timeout_line st v = Ok st' \/
  upstream_timeout_line st v = Ok st' ->
  state_ok st'.
Proof.
  intros [[] Hh]. unfold max_connections_line, client_idle_timeout_line, upstream_timeout_line.
  intros [H|[H|H]]; (case_match; [done|]); apply res_bind_Ok in H as (n & Hn & [= <-]);
    apply positive_integer_range in Hn; try done; (split; [|done]); constructor; done.
Qed.

Lemma route_line_inv (st st' : ParseState) (line : bytes) :
  route_line st line = Ok st' ->
  exists host up h u,
    split_once (str "->") line = Some (host, up) /\ split_once (str "->") up = None /\
    normalized (trim host) = Some h /\ (h ∉ st_hostnames st) /\ parse_upstream (trim up) = Ok u /\
    st' = mkParseState (st_routes st ++ [mkRoute h u]) (st_tls_identity_files st) ({[h]} ∪ st_hostnames st)
            (st_max_connections st) (st_max_connections_set st)
            (st_client_idle_timeout_seconds st) (st_client_idle_timeout_set st)
            (st_upstream_timeout_seconds st) (st_upstream_timeout_set st)
            (st_https_listen_addr st) (st_https_listen_set st).
Proof.
  unfold route_line. rewrite res_bind_Ok. intros ([host up] & Hs%ok_or_Ok & H).
  destruct (split_once (str "->") up) eqn:Hup; [done|]. rewrite normalize_hostname_eq in H. cbn [res_bind] in H.
  apply res_bind_Ok in H as (h & Hn%ok_or_Ok & H). case_decide; [done|].
  apply res_bind_Ok in H as (u & Hu & [= <-]). by exists host, up, h, u.
Qed.

Lemma route_line_ok (st st' : ParseState) (line : bytes) :
  state_ok st -> route_line st line = Ok st' -> state_ok st'.
Proof.
  intros [[] Hh] (host & up & h & u & _ & _ & Hn & Hnew & Hu & ->)%route_line_inv. split.
  - constructor; try done; cbn.
    + apply Forall_app. split; [done|]. constructor; [|done].
      split; [by eapply normalized_Some|by eapply parse_upstream_ok].
    + rewrite map_app. apply NoDup_app. split_and!; [done| |by apply NoDup_singleton].
      intros x Hx Hin. apply list_elem_of_singleton in Hin as ->. by rewrite <- Hh in Hx.
  - intros x. cbn. rewrite map_app, elem_of_union, elem_of_app, Hh. cbn. set_solver.
Qed.

Lemma config_line_ok (st st' : ParseState) (raw : bytes) :
  state_ok st -> config_line st raw = Ok st' -> state_ok st'.
Proof.
  intros Hst. unfold config_line. cbn zeta. repeat case_match; intros H'.
  - by simplify_eq.
  - by eapply tls_identity_line_ok.
  - by eapply https_listen_line_ok.
  - eapply limit_lines_ok; eauto.
  - eapply limit_lines_ok; eauto.
  - eapply limit_lines_ok; eauto.
  - by eapply route_line_ok.
Qed.

(** ** The loop over the lines *)
Definition config_lines (st : ParseState) (ls : list bytes) : res bytes ParseState := res_foldM config_line st ls.

Lemma numbered_fold (ls : list bytes) (k : nat) (st : ParseState) :
  let fold := res_foldM (fun st nl => map_err (Line nl.1) (config_line st nl.2)) st
                (imap (fun i l => (Z.of_nat (k + i) + 1, l)) ls) in
  match config_lines st ls with
  | Ok st' => fold = Ok st'
  | Err m => exists n line st', ls !! n = Some line /\ config_lines st (take n ls) = Ok st' /\
               config_line st' line = Err m /\ fold = Err (Line (Z.of_nat (k + n) + 1) m)
  | Panic => fold = Panic
  | Fuel => fold = Fuel
  end.
Proof.
  revert k st. induction ls as [|l ls IH]; intros k st; [done|]. cbn zeta.
  rewrite imap_cons. unfold config_lines. cbn [res_foldM fst snd]. rewrite Nat.add_0_r.
  destruct (config_line st l) as [st1|m| |] eqn:E; cbn [map_err res_bind]; try done.
  - specialize (IH (S k) st1). cbn zeta in IH. fold (config_lines st1 ls).
    replace (imap ((fun i l0 => (Z.of_nat (k + i) + 1, l0)) ∘ S) ls) with
      (imap (fun i l0 => (Z.of_nat (S k + i) + 1, l0)) ls).
    2: { apply imap_ext. intros i x _. cbn. repeat f_equal. lia. }
    destruct (config_lines st1 ls) as [st2|m| |]; try done.
    destruct IH as (n & line & st' & Hn & Ht & Hl & ->). exists (S n), line, st'.
    cbn [lookup list_lookup take res_foldM]. rewrite E. cbn [res_bind]. split_and!; try done.
    do 2 f_equal. lia.
  - exists 0%nat, l, st. by rewrite Nat.add_0_r.
Qed.

Lemma parse_with_tls_lines (input : bytes) :
  match config_lines initial_state (lines input) with
  | Ok st => parse_with_tls input = Ok (finish st)
  | Err m => exists n line st, lines input !! n = Some line /\
               config_lines initial_state (take n (lines input)) = Ok st /\
               config_line st line = Err m /\ parse_with_tls input = Err (Line (Z.of_nat n + 1) m)
  | Panic => parse_with_tls input = Panic
  | Fuel => parse_with_tls input = Fuel
  end.
Proof.
  pose proof (numbered_fold (lines input) 0 initial_state) as H. cbn zeta in H.
  unfold parse_with_tls, numbered_lines.
  change (imap _ (lines input)) with (imap (fun i l => (Z.of_nat (0 + i) + 1, l)) (lines input)).
  destruct (config_lines initial_state (lines input)).
  - by rewrite H.
  - destruct H as (n & line & st & ? & ? & ? & H). rewrite H. by exists n, line, st.
  - by rewrite H.
  - by rewrite H.
Qed.

Lemma config_lines_ok (st st' : ParseState) (ls : list bytes) :
  state_ok st -> config_lines st ls = Ok st' -> state_ok st'.
Proof.
  revert st. induction ls as [|l ls IH]; intros st Hst; unfold config_lines; cbn [res_foldM].
  - by intros [= <-].
  - rewrite res_bind_Ok. intros (st1 & Hl & H). eapply IH; [|exact H]. by eapply config_line_ok.
Qed.

(** ** No panic *)
Lemma parse_upstream_returns (s : bytes) : returns (parse_upstream s).
Proof.
  assert (Hp : forall h p, returns (let? port := parse_port p in Ok (mkUpstream h port))).
  { intros h p. unfold parse_port. case_match; [done|]. destruct (parse_uint u16_max p) as [z|]; [|done].
    cbn [ok_or res_bind]. by destruct (z =? 0). }
  unfold parse_upstream. case_match; [done|]. apply res_bind_returns; [|intros [h p] _; apply Hp].
  destruct (strip_prefix x5b s) as [rest|].
  - apply res_bind_returns; [apply ok_or_returns|]. intros i Hi%ok_or_Ok%position_lt.
    rewrite slice_to_Ok, slice_from_Ok by lia. cbn [res_bind]. apply res_bind_returns; [apply ok_or_returns|].
    intros p _. apply res_bind_returns; [apply ok_or_returns|]. intros a _. by destruct (negb _).
  - apply res_bind_returns; [apply ok_or_returns|]. intros [h p] _. case_match; [done|].
    rewrite normalize_upstream_host_eq. cbn [res_bind]. by destruct (normalized_upstream h).
Qed.

Lemma config_line_returns (st : ParseState) (raw : bytes) : returns (config_line st raw).
Proof.
  unfold config_line. cbn zeta. repeat case_match; try done.
  - unfold tls_identity_line. apply res_bind_returns; [|intros; by case_match].
    unfold parse_tls_identity_files. apply res_bind_returns; [apply ok_or_returns|].
    intros [c k] _. by repeat case_match.
  - unfold https_listen_line. case_match; [done|]. apply res_bind_returns; [|done].
    unfold parse_https_listen_addr. case_match; [done|]. apply res_bind_returns; [apply ok_or_returns|done].
  - unfold max_connections_line. case_match; [done|].
    apply res_bind_returns; [apply positive_integer_returns|done].
  - unfold client_idle_timeout_line. case_match; [done|].
    apply res_bind_returns; [apply positive_integer_returns|done].
  - unfold upstream_timeout_line. case_match; [done|].
    apply res_bind_returns; [apply positive_integer_returns|done].
  - unfold route_line. apply res_bind_returns; [apply ok_or_returns|]. intros [h u] _. case_match; [done|].
    rewrite normalize_hostname_eq. cbn [res_bind]. apply res_bind_returns; [apply ok_or_returns|].
    intros k _. case_decide; [done|]. apply res_bind_returns; [apply parse_upstream_returns|done].
Qed.

Lemma config_lines_returns (st : ParseState) (ls : list bytes) : returns (config_lines st ls).
Proof. apply res_foldM_returns. intros. apply config_line_returns. Qed.

(** ** Looking a host up *)
Definition request_port_ok (p : bytes) : bool :=
  negb (bool_decide (p = [])) && all is_ascii_digit p && negb (bool_decide (parse_uint u16_max p = None)).

Definition normalized_request (host : bytes) : option bytes :=
  let host := trim host in
  if bool_decide (host = []) then None
  else match rsplit_once x3a host with
       | Some (h, p) => if negb (contains x3a h) && request_port_ok p then normalized h else None
       | None => normalized host
       end.

Lemma normalize_request_host_eq {E : Type} (host : bytes) :
  normalize_request_host host = Ok (normalized_request host) :> res E _.
Proof.
  unfold normalize_request_host, normalized_request, request_port_ok. case_match; [done|].
  destruct (rsplit_once x3a (trim host)) as [[h p]|]; [|apply normalize_hostname_eq].
  rewrite normalize_hostname_eq.
  by destruct (contains x3a h), (bool_decide (p = [])), (all is_ascii_digit p), (bool_decide (parse_uint u16_max p = None)).
Qed.

Lemma normalized_request_canonical (host h : bytes) : normalized_request host = Some h -> canonical h.
Proof.
  unfold normalized_request. case_match; [done|]. destruct (rsplit_once x3a (trim host)) as [[k p]|].
  - case_match; [|done]. apply normalized_Some.
  - apply normalized_Some.
Qed.

Lemma find_hostname (rs : list Route) (h : bytes) (r : Route) :
  NoDup (map hostname rs) ->
  List.find (fun r => bytes_eqb (hostname r) h) rs = Some r <-> r ∈ rs /\ hostname r = h.
Proof.
  intros Hnd. split.
  - intros [Hin Hh]%find_some. apply bytes_eqb_eq in Hh. by rewrite list_elem_of_In.
  - intros [Hin <-]. induction Hin as [r rs|r s rs Hin IH]; cbn [List.find]; [by rewrite bytes_eqb_refl|].
    inversion Hnd as [|? ? Hn Hnd']; subst. destruct (bytes_eqb (hostname s) (hostname r)) eqn:E; [|auto].
    apply bytes_eqb_eq in E. exfalso. apply Hn. rewrite E. apply list_elem_of_In, in_map. by apply list_elem_of_In.
Qed.

Lemma find_hostname_None (rs : list Route) (h : bytes) :
  List.find (fun r => bytes_eqb (hostname r) h) rs = None <-> h ∉ map hostname rs.
Proof.
  split.
  - intros Hn Hin. apply list_elem_of_In, in_map_iff in Hin as (r & <- & Hin).
    apply (find_none _ _ Hn) in Hin. by rewrite bytes_eqb_refl in Hin.
  - intros Hn. destruct (List.find _ rs) as [r|] eqn:E; [|done]. apply find_some in E as [Hin Hh].
    apply bytes_eqb_eq in Hh as <-. destruct Hn. by apply list_elem_of_In, in_map.
Qed.

Lemma lookup_cases (c : Config) (host : bytes) :
  route_for_host c host =
  match normalized_request host with
  | None => Err InvalidHost
  | Some h => ok_or (List.find (fun r => bytes_eqb (hostname r) h) (routes c)) (NotFound h)
  end.
Proof. unfold route_for_host. rewrite normalize_request_host_eq. by destruct (normalized_request host). Qed.

(** ** Displayed routes *)
Lemma split_once_skip (a b : byte) (needle l : bytes) (c : byte) :
  c <> a -> split_once (a :: needle) (c :: l) =
    match split_once (a :: needle) l with Some (pre, post) => Some (c :: pre, post) | None => None end.
Proof. intros Hc. cbn [split_once]. by rewrite (starts_with_head_ne a c) by congruence. Qed.

Lemma split_once_absent (a : byte) (needle l : bytes) : a ∉ l -> split_once (a :: needle) l = None.
Proof.
  induction l as [|c l IH]; intros Hn; [done|]. apply not_elem_of_cons in Hn as [Hc Hn].
  rewrite (split_once_skip a a) by congruence. by rewrite IH.
Qed.

Lemma split_once_no_start (needle l : bytes) (c : byte) :
  starts_with needle (c :: l) = false ->
  split_once needle (c :: l) =
    match split_once needle l with Some (pre, post) => Some (c :: pre, post) | None => None end.
Proof. intros H. cbn [split_once]. by rewrite H. Qed.

Lemma no_arrow_here (c : byte) (l : bytes) :
  match l with d :: _ => d <> x3e | [] => True end -> starts_with (str "->") (c :: l) = false.
Proof.
  intros Hl. change (str "->") with [x2d; x3e]. cbn [starts_with]. destruct l as [|d l]; [by rewrite andb_false_r|].
  by rewrite (proj2 (byte_eqb_neq x3e d)), andb_false_r by congruence.
Qed.

(** An arrow is found after a text without [>]. *)
Lemma split_once_arrow (pre post : bytes) :
  x3e ∉ pre -> split_once (str "->") (pre ++ str " ->" ++ post) = Some (pre ++ [SP], post).
Proof.
  change (str " ->") with [x20; x2d; x3e]. induction pre as [|c pre IH]; intros Hn.
  - cbn [app]. rewrite split_once_no_start by (by apply no_arrow_here).
    replace (split_once (str "->") (x2d :: x3e :: post)) with (Some (@nil byte, post)); [done|].
    cbn. by rewrite drop_0.
  - apply not_elem_of_cons in Hn as [Hc Hn]. rewrite <- app_comm_cons, split_once_no_start.
    + by rewrite IH.
    + apply no_arrow_here. destruct pre as [|d pre]; [done|]. cbn. set_solver.
Qed.

Lemma split_once_no_arrow (l : bytes) : x3e ∉ l -> split_once (str "->") l = None.
Proof.
  induction l as [|c l IH]; intros Hn; [done|]. apply not_elem_of_cons in Hn as [Hc Hn].
  rewrite split_once_no_start; [by rewrite IH|]. apply no_arrow_here. destruct l; [done|]. set_solver.
Qed.

(** The bytes of a displayed route. *)
Definition route_byte (b : byte) : bool := upstream_byte b || byte_eqb b SP || byte_eqb b x3e.

Lemma route_display_bytes (r : Route) : route_ok r -> all route_byte (route_to_string r) = true.
Proof.
  intros [[Hh _]%canonical_bytes Hu%upstream_display_bytes]. unfold route_to_string. rewrite !all_app.
  rewrite (all_impl hostname_byte route_byte (hostname r)); [|intros b; byte_cases b|done].
  rewrite (all_impl upstream_byte route_byte (upstream_to_string (upstream r))); [done|intros b; byte_cases b|done].
Qed.

Lemma upstream_display_ends (u : Upstream) :
  exists l d, upstream_to_string u = l ++ [d] /\ is_ascii_digit d = true.
Proof.
  pose proof (to_dec_ne (upstream_port u)) as Hne. pose proof (to_dec_digits (upstream_port u)) as Hd.
  unfold upstream_to_string. destruct (to_dec (upstream_port u)) as [|d l _] using rev_ind; [done|].
  rewrite all_app in Hd. apply andb_true_iff in Hd as [_ Hd]. cbn in Hd. rewrite andb_true_r in Hd.
  destruct (contains x3a (upstream_host u)); eexists _, d; (split; [by rewrite !app_assoc|done]).
Qed.

Lemma route_display_trim (r : Route) : route_ok r -> trim (route_to_string r) = route_to_string r.
Proof.
  intros [Hc _]. apply canonical_bytes in Hc as [Hb Hne]. unfold route_to_string.
  destruct (upstream_display_ends (upstream r)) as (l & d & -> & Hd). apply trim_plain.
  - destruct (hostname r) as [|b t]; [done|]. cbn. cbn in Hb. apply andb_true_iff in Hb as [Hb _].
    by apply hostname_byte_plain.
  - rewrite !app_assoc, last_snoc. revert Hd. byte_cases d.
Qed.

Lemma upstream_display_nonempty (u : Upstream) : upstream_to_string u <> [].
Proof. destruct (upstream_display_ends u) as (l & d & -> & _). by destruct l. Qed.

Lemma trim_space (l : bytes) : all plain l = true -> trim (SP :: l) = l.
Proof.
  intros Hl. unfold trim. change (trim_start (SP :: l)) with (trim_start l).
  fold (trim l). by apply trim_all_plain.
Qed.

Lemma trim_space_end (l : bytes) : all plain l = true -> l <> [] -> trim (l ++ [SP]) = l.
Proof.
  intros Hl Hne. destruct l as [|b l]; [done|]. unfold trim. cbn [app].
  rewrite trim_start_plain by (cbn in Hl; by apply andb_true_iff in Hl as [? _]).
  change (b :: l ++ [SP]) with ((b :: l) ++ [SP]). unfold trim_end. rewrite rev_app_distr. cbn [rev app].
  change (trim_start_rev (SP :: ?x)) with (trim_start_rev x).
  change (trim_end (b :: l) = b :: l). rewrite <- (trim_all_plain (b :: l) Hl) at 2. unfold trim.
  rewrite trim_start_plain; [done|]. cbn in Hl. by apply andb_true_iff in Hl as [? _].
Qed.

Lemma route_line_display (st : ParseState) (r : Route) :
  route_ok r -> hostname r ∉ st_hostnames st ->
  route_line st (route_to_string r) =
    Ok (mkParseState (st_routes st ++ [r]) (st_tls_identity_files st) ({[hostname r]} ∪ st_hostnames st)
          (st_max_connections st) (st_max_connections_set st)
          (st_client_idle_timeout_seconds st) (st_client_idle_timeout_set st)
          (st_upstream_timeout_seconds st) (st_upstream_timeout_set st)
          (st_https_listen_addr st) (st_https_listen_set st)).
Proof.
  intros [Hc Hu] Hnew. pose proof (canonical_bytes _ Hc) as [Hb Hne].
  pose proof (upstream_display_bytes _ Hu) as Hub. unfold route_line, route_to_string.
  change (str " -> " ++ upstream_to_string (upstream r)) with (str " ->" ++ SP :: upstream_to_string (upstream r)).
  rewrite split_once_arrow by (by apply (all_not_elem _ _ _ Hb)). cbn [ok_or res_bind].
  rewrite split_once_no_arrow.
  2: { apply not_elem_of_cons. split; [done|]. by apply (all_not_elem _ _ _ Hub). }
  rewrite trim_space_end by (done || (revert Hb; apply all_impl; apply hostname_byte_plain)).
  rewrite normalize_hostname_eq, normalized_canonical by done. cbn [res_bind ok_or].
  rewrite decide_False by done.
  rewrite trim_space by (revert Hub; apply all_impl; intros b; byte_cases b).
  rewrite parse_upstream_display by done. cbn [res_bind]. by destruct r.
Qed.

Lemma config_line_display (st : ParseState) (r : Route) :
  route_ok r -> config_line st (route_to_string r) = route_line st (route_to_string r).
Proof.
  intros Hr. pose proof (route_display_bytes r Hr) as Hb. unfold config_line, strip_comment.
  rewrite split_once_absent by (by apply (all_not_elem _ _ _ Hb)). rewrite route_display_trim by done. cbn zeta.
  rewrite bool_decide_false.
  2: { unfold route_to_string. destruct Hr as [[_ Hne]%canonical_bytes _]. by destruct (hostname r). }
  unfold directive. by rewrite split_once_absent by (by apply (all_not_elem _ _ _ Hb)).
Qed.

Lemma split_on_lines (ls : list bytes) :
  Forall (fun l => LF ∉ l) ls ->
  split_on (byte_eqb LF) (concat (map (fun l => l ++ [LF]) ls)) = ls ++ [[]].
Proof.
  induction 1 as [|l ls Hl _ IH]; [done|]. cbn [map concat]. rewrite <- app_assoc. cbn [app].
  rewrite split_on_app_sep; [by rewrite IH|done|].
  apply Forall_forall. intros b Hb. apply byte_eqb_neq. by intros <-.
Qed.

Lemma lines_unlines (ls : list bytes) :
  Forall (fun l => (LF ∉ l) /\ (CR ∉ l)) ls -> lines (concat (map (fun l => l ++ [LF]) ls)) = ls.
Proof.
  intros Hl. unfold lines. rewrite split_on_lines by (eapply Forall_impl; [exact Hl|]; by intros ? []).
  rewrite removelast_last, last_last, app_nil_r. induction Hl as [|l ls [_ Hc] _ IH]; [done|].
  cbn [map]. rewrite IH. f_equal. unfold strip_cr. destruct (strip_suffix CR l) as [k|] eqn:E; [|done].
  apply strip_suffix_Some in E as ->. set_solver.
Qed.

Lemma config_lines_display (rs : list Route) (st : ParseState) :
  Forall route_ok rs -> NoDup (map hostname rs) -> Forall (fun r => hostname r ∉ st_hostnames st) rs ->
  exists hs, config_lines st (map route_to_string rs) =
    Ok (mkParseState (st_routes st ++ rs) (st_tls_identity_files st) hs
          (st_max_connections st) (st_max_connections_set st)
          (st_client_idle_timeout_seconds st) (st_client_idle_timeout_set st)
          (st_upstream_timeout_seconds st) (st_upstream_timeout_set st)
          (st_https_listen_addr st) (st_https_listen_set st)).
Proof.
  intros Hok. revert st. induction Hok as [|r rs Hr Hok IH]; intros st Hnd Hnew.
  - exists (st_hostnames st). cbn. rewrite app_nil_r. by destruct st.
  - unfold config_lines. cbn [map res_foldM]. inversion Hnd as [|? ? Hn Hnd']; subst.
    apply Forall_cons in Hnew as [Hr1 Hrs].
    rewrite config_line_display, route_line_display by done. cbn [res_bind].
    destruct (IH (mkParseState (st_routes st ++ [r]) (st_tls_identity_files st) ({[hostname r]} ∪ st_hostnames st)
          (st_max_connections st) (st_max_connections_set st)
          (st_client_idle_timeout_seconds st) (st_client_idle_timeout_set st)
          (st_upstream_timeout_seconds st) (st_upstream_timeout_set st)
          (st_https_listen_addr st) (st_https_listen_set st))) as [hs Hs]; [done| |].
    + apply Forall_forall. intros s Hs. cbn. apply not_elem_of_union. split.
      * rewrite elem_of_singleton. intros E. apply Hn. rewrite <- E. apply list_elem_of_In, in_map.
        by apply list_elem_of_In.
      * rewrite Forall_forall in Hrs. by apply Hrs.
    + exists hs. unfold config_lines in Hs. rewrite Hs. cbn. by rewrite <- app_assoc.
Qed.

Lemma parse_with_tls_ok (input : bytes) (c : Config) (ids : list TlsIdentityFiles) :
  parse_with_tls input = Ok (c, ids) -> config_ok c ids.
Proof.
  intros H. pose proof (parse_with_tls_lines input) as Hl.
  destruct (config_lines initial_state (lines input)) as [st| | |] eqn:E.
  - rewrite Hl in H. apply config_lines_ok in E as [Hc _]; [|apply initial_state_ok].
    destruct (finish st) eqn:F. injection H as <- <-. done.
  - destruct Hl as (? & ? & ? & _ & _ & _ & Hl). by rewrite Hl in H.
  - by rewrite Hl in H.
  - by rewrite Hl in H.
Qed.

Definition sample_config : bytes :=
  str "# front end" ++ [LF] ++ str "max_connections = 7" ++ [CR; LF]
  ++ str "Example.COM. -> 127.0.0.1:3000 # app" ++ [LF] ++ str "v6.test -> [::1]:81".

Definition sample_parsed : Config :=
  mkConfig [mkRoute (str "example.com") (mkUpstream (str "127.0.0.1") 3000);
            mkRoute (str "v6.test") (mkUpstream (str "::1") 81)] 7 30 10 (str "127.0.0.1:8443").

Lemma sample_parsed_ok : config_ok sample_parsed [].
Proof. apply (parse_with_tls_ok sample_config). vm_compute. reflexivity. Qed.

(** ** Properties *)

(** C15: a configuration that is accepted is well formed: its host names are normalised and distinct,
    its upstreams have a usable host and a port between 1 and 65535, its limits are positive and
    fit their types, the listening address is an address, and no certificate and key pair is
    listed twice. *)
Theorem parse_config_ok (input : bytes) (c : Config) (ids : list TlsIdentityFiles) :
  parse_with_tls input = Ok (c, ids) -> config_ok c ids.
Proof. apply parse_with_tls_ok. Qed.

Example parse_config_ok_witness : config_ok sample_parsed [].
Proof. apply (parse_config_ok sample_config). vm_compute. reflexivity. Defined.

(** The parser of the configuration returns on every text, and an error names the first line,
    counted from 1, that is wrong given the lines before it, which are accepted. *)
Theorem parse_config_error_line (input : bytes) :
  match parse_with_tls input with
  | Ok r => exists st, config_lines initial_state (lines input) = Ok st /\ r = finish st
  | Err e => exists n line st m, e = Line (Z.of_nat n + 1) m /\ lines input !! n = Some line /\
               config_lines initial_state (take n (lines input)) = Ok st /\ config_line st line = Err m
  | Panic | Fuel => False
  end.
Proof.
  pose proof (parse_with_tls_lines input) as Hl. pose proof (config_lines_returns initial_state (lines input)) as Hr.
  destruct (config_lines initial_state (lines input)) as [st|m| |]; [| |done|done].
  - rewrite Hl. by exists st.
  - destruct Hl as (n & line & st & ? & ? & ? & ->). by exists n, line, st, m.
Qed.

(** C16: in an accepted configuration the lookup answers with the only route whose host name is the
    normal form of the host asked for, [NotFound] exactly when there is none, and [InvalidHost]
    exactly when the host has no normal form. *)
Theorem route_for_host_correct (c : Config) (ids : list TlsIdentityFiles) (host : bytes) :
  config_ok c ids ->
  match route_for_host c host with
  | Ok r => r ∈ routes c /\ normalized_request host = Some (hostname r) /\
            forall r', r' ∈ routes c -> hostname r' = hostname r -> r' = r
  | Err InvalidHost => normalized_request host = None
  | Err (NotFound h) => normalized_request host = Some h /\ h ∉ map hostname (routes c)
  | Panic | Fuel => False
  end.
Proof.
  intros Hok. pose proof (config_hostnames _ _ Hok) as Hnd. rewrite lookup_cases.
  destruct (normalized_request host) as [h|]; [|done].
  destruct (List.find _ (routes c)) as [r|] eqn:E; cbn [ok_or].
  - pose proof E as E'. apply find_hostname in E as [Hin <-]; [|done]. split_and!; [done|done|].
    intros r' Hin' Hh. assert (List.find (fun r0 => bytes_eqb (hostname r0) (hostname r)) (routes c) = Some r')
      by (by apply find_hostname). congruence.
  - split; [done|]. by apply find_hostname_None in E.
Qed.

Example route_for_host_correct_witness :
  is_ok (route_for_host sample_parsed (str "Example.com:80")) = true /\
  normalized_request (str "Example.com:80") = Some (str "example.com").
Proof.
  pose proof (route_for_host_correct sample_parsed [] (str "Example.com:80") sample_parsed_ok) as H.
  split; [vm_compute; reflexivity|]. revert H. vm_compute. intros (_ & H & _). exact H.
Defined.

(** The lookup does not depend on the spelling of the host: ASCII case, dots at the end and a
    port are no part of the normal form. *)
Theorem host_spelling (h : bytes) (dots : nat) (port : Z) :
  canonical (lowercase h) -> 0 <= port <= u16_max ->
  normalized_request (h ++ replicate dots x2e) = Some (lowercase h) /\
  normalized_request (h ++ replicate dots x2e ++ [x3a] ++ to_dec port) = Some (lowercase h).
Proof.
  intros Hc Hp. set (hd := h ++ replicate dots x2e).
  assert (Hn : normalized hd = Some (lowercase h)).
  { unfold hd. rewrite normalized_dots, <- normalized_lowercase. by apply normalized_canonical. }
  assert (Hb : all hostname_byte hd = true).
  { unfold hd. rewrite all_app. apply canonical_bytes in Hc as [Hc _].
    rewrite all_lowercase in Hc by (intros b; byte_cases b). rewrite Hc. apply all_Forall, Forall_replicate. done. }
  assert (Hne : hd <> []).
  { unfold hd. apply canonical_bytes in Hc as [_ Hc]. by destruct h. }
  assert (Hpl : forall l, all hostname_byte l = true -> all plain l = true)
    by (intros l; apply all_impl; apply hostname_byte_plain).
  split; unfold normalized_request.
  - rewrite trim_all_plain by auto. rewrite bool_decide_false by done.
    by rewrite rsplit_once_absent by (by apply hostname_bytes_no_colon).
  - rewrite app_assoc. fold hd. rewrite trim_all_plain.
    2: { rewrite !all_app, Hpl by done. eapply all_impl; [|apply to_dec_digits]. intros b; byte_cases b. }
    rewrite bool_decide_false by (by destruct hd). cbn [app].
    rewrite rsplit_once_app by (by apply (all_not_elem _ _ _ (to_dec_digits port))).
    rewrite (proj2 (contains_false _ _)) by (by apply hostname_bytes_no_colon).
    unfold request_port_ok. rewrite bool_decide_false, to_dec_digits, parse_uint_to_dec by (done || apply to_dec_ne). done.
Qed.

Example host_spelling_witness :
  normalized_request (str "Api.EXAMPLE.com" ++ replicate 1 x2e ++ [x3a] ++ to_dec 8443) =
    Some (lowercase (str "Api.EXAMPLE.com")).
Proof.
  apply (host_spelling (str "Api.EXAMPLE.com") 1 8443).
  - split; vm_compute; reflexivity.
  - vm_compute. split; discriminate.
Defined.

(** Routes are displayed in the syntax the parser reads: writing the routes of an accepted
    configuration one per line and parsing them again gives the same routes, with the default
    settings. *)
Theorem display_routes_round_trip (c : Config) (ids : list TlsIdentityFiles) :
  config_ok c ids ->
  parse_with_tls (concat (map (fun r => route_to_string r ++ [LF]) (routes c))) =
    Ok ({| routes := routes c;
           max_connections := DEFAULT_MAX_CONNECTIONS;
           client_idle_timeout_seconds := DEFAULT_CLIENT_IDLE_TIMEOUT_SECONDS;
           upstream_timeout_seconds := DEFAULT_UPSTREAM_TIMEOUT_SECONDS;
           https_listen_addr := DEFAULT_HTTPS_LISTEN_ADDR |}, []).
Proof.
  intros [Hr Hnd _ _ _ _ _ _].
  set (input := concat (map (fun r => route_to_string r ++ [LF]) (routes c))).
  assert (E : lines input = map route_to_string (routes c)).
  { unfold input. rewrite <- (map_map route_to_string (fun l => l ++ [LF])). apply lines_unlines, Forall_map.
    eapply Forall_impl; [exact Hr|]. cbn beta. intros r Hb%route_display_bytes.
    by split; apply (all_not_elem _ _ _ Hb). }
  destruct (config_lines_display (routes c) initial_state) as [hs Hs]; [done|done|by apply Forall_forall|].
  pose proof (parse_with_tls_lines input) as Hl. rewrite E, Hs in Hl. exact Hl.
Qed.

Example display_routes_round_trip_witness :
  is_ok (parse_with_tls (concat (map (fun r => route_to_string r ++ [LF]) (routes sample_parsed)))) = true.
Proof. rewrite (display_routes_round_trip sample_parsed [] sample_parsed_ok). reflexivity. Defined.
