(* ===== verification/Io.v ===== *)
(** * Streams: [std::io]

    What the program uses of [std::io]: errors, readers, writers, [read_exact], and the
    combination of the two in one state. A reader is any type with a [read] that obeys the
    law of [Read]; the bytes and errors its peer will deliver, in order, are [pending],
    and how they are cut into pieces is up to the instance. *)
From Stdlib Require Import ZArith Lia.
From stdpp Require Import prelude.
From S2P Require Import Prelude Bytes.
Set Warnings "-clear-no-such-hyp".

Inductive ErrorKind : Type :=
| TimedOut
| WouldBlock
| Interrupted
| UnexpectedEof
| AddrNotAvailable
| ConnectionRefused
| ConnectionReset
| ConnectionAborted
| BrokenPipe
| NotConnected
| InvalidInput
| Unsupported
| InvalidData
| WriteZero
| Other.

#[export] Instance ErrorKind_eq_dec : EqDecision ErrorKind.
Proof. solve_decision. Defined.

(** [io::Error]: its [kind] and its [to_string]. *)
Record io_error : Type := mkIoError {
  kind : ErrorKind;
  message : bytes
}.

#[export] Instance io_error_eq_dec : EqDecision io_error.
Proof. solve_decision. Defined.

(** ** Readers *)
Definition event : Type := (byte + io_error)%type.

Definition data (bs : bytes) : list event := map inl bs.

(** [read n r] reads into a buffer of [n] bytes. [pending r] is what is still to come: when it
    is used up, [r] is at the end of the stream for good. *)
Class Read (R : Type) : Type := {
  read : nat -> R -> res io_error bytes * R;
  pending : R -> list event;
  read_law : forall n r, 0 < n ->
    match read n r with
    | (Ok bs, r') => length bs <= n /\ pending r = data bs ++ pending r' /\ (bs = [] -> pending r = [])
    | (Err e, r') => pending r = inr e :: pending r'
    | (Panic, _) | (Fuel, _) => False
    end
}.

(** ** Writers *)

(** [written w] is what the peer of [w] has been sent. A failed [write_all] may have sent a part. *)
Class Write (W : Type) : Type := {
  write_all : bytes -> W -> res io_error unit * W;
  flush : W -> res io_error unit * W;
  written : W -> bytes;
  write_law : forall bs w,
    match write_all bs w with
    | (Ok _, w') => written w' = written w ++ bs
    | (Err _, w') => exists pre post, bs = pre ++ post /\ written w' = written w ++ pre
    | (Panic, _) | (Fuel, _) => False
    end;
  flush_law : forall w,
    match flush w with
    | (Ok _, w') | (Err _, w') => written w' = written w
    | (Panic, _) | (Fuel, _) => False
    end
}.

(** ** Instances *)

(** A peer that delivers segments and errors in order. *)
Inductive segment : Type :=
| Data (bs : bytes)
| Fails (e : io_error).

Definition Script : Type := list segment.

Definition segment_events (s : segment) : list event :=
  match s with
  | Data bs => data bs
  | Fails e => [inr e]
  end.

Fixpoint script_read (n : nat) (s : Script) : res io_error bytes * Script :=
  match s with
  | [] => (Ok [], [])
  | Fails e :: s' => (Err e, s')
  | Data [] :: s' => script_read n s'
  | Data bs :: s' =>
      (Ok (take n bs), match drop n bs with [] => s' | bs' => Data bs' :: s' end)
  end.

Definition script_pending (s : Script) : list event := concat (map segment_events s).

Lemma script_read_law (n : nat) (s : Script) :
  0 < n ->
  match script_read n s with
  | (Ok bs, s') => length bs <= n /\ script_pending s = data bs ++ script_pending s' /\ (bs = [] -> script_pending s = [])
  | (Err e, s') => script_pending s = inr e :: script_pending s'
  | (Panic, _) | (Fuel, _) => False
  end.
Proof.
  intros Hn. induction s as [|[[|b bs]|e] s IH]; cbn [script_read]; [split_and!; [simpl; lia|done|done]|exact IH| |done].
  split; [rewrite length_take; lia|]. split; [|destruct n; [lia|intros H; discriminate H]].
  unfold script_pending. cbn [map concat segment_events].
  rewrite <- (take_drop n (b :: bs)) at 1. unfold data. rewrite map_app, <- app_assoc. f_equal.
  by destruct (drop n (b :: bs)).
Qed.

#[export] Instance Script_Read : Read Script := {
  read := script_read;
  pending := script_pending;
  read_law := script_read_law
}.

(** A writer that fails with [sink_error] once [sink_room] more bytes have been written. *)
Record Sink : Type := mkSink {
  sink_written : bytes;
  sink_limit : option (nat * io_error)
}.

Definition sink_write_all (bs : bytes) (w : Sink) : res io_error unit * Sink :=
  match sink_limit w with
  | None => (Ok tt, mkSink (sink_written w ++ bs) None)
  | Some (room, e) =>
      if decide (length bs <= room) then (Ok tt, mkSink (sink_written w ++ bs) (Some (room - length bs, e)))
      else (Err e, mkSink (sink_written w ++ take room bs) (Some (0, e)))
  end.

Definition sink_flush (w : Sink) : res io_error unit * Sink :=
  match sink_limit w with
  | Some (0, e) => (Err e, w)
  | _ => (Ok tt, w)
  end.

Lemma sink_write_law (bs : bytes) (w : Sink) :
  match sink_write_all bs w with
  | (Ok _, w') => sink_written w' = sink_written w ++ bs
  | (Err _, w') => exists pre post, bs = pre ++ post /\ sink_written w' = sink_written w ++ pre
  | (Panic, _) | (Fuel, _) => False
  end.
Proof.
  unfold sink_write_all. destruct (sink_limit w) as [[room e]|]; [|done]. case_decide; [done|].
  exists (take room bs), (drop room bs). by rewrite take_drop.
Qed.

Lemma sink_flush_law (w : Sink) :
  match sink_flush w with
  | (Ok _, w') | (Err _, w') => sink_written w' = sink_written w
  | (Panic, _) | (Fuel, _) => False
  end.
Proof. unfold sink_flush. by repeat case_match; simplify_eq. Qed.

#[export] Instance Sink_Write : Write Sink := {
  write_all := sink_write_all;
  flush := sink_flush;
  written := sink_written;
  write_law := sink_write_law;
  flush_law := sink_flush_law
}.

Definition new_sink : Sink := mkSink [] None.

(** ** A reader and a writer in one state *)
Section streams.
Context {R W : Type} `{!Read R} `{!Write W}.

Definition do_read (n : nat) : io (R * W) io_error bytes :=
  fun s => let '(m, r) := read n s.1 in (m, (r, s.2)).

Definition do_write (bs : bytes) : io (R * W) io_error unit :=
  fun s => let '(m, w) := write_all bs s.2 in (m, (s.1, w)).

Definition do_flush : io (R * W) io_error unit :=
  fun s => let '(m, w) := flush s.2 in (m, (s.1, w)).

(** [Read::read_exact]: an interrupted read is tried again. *)
Fixpoint read_exact_loop (fuel : nat) (n : nat) (acc : bytes) : io (R * W) io_error bytes :=
  fun s =>
    if decide (n = 0) then (Ok acc, s)
    else
      match fuel with
      | 0 => (Fuel, s)
      | S fuel' =>
          match do_read n s with
          | (Ok [], s') => (Err (mkIoError UnexpectedEof (str "failed to fill whole buffer")), s')
          | (Ok bs, s') => read_exact_loop fuel' (n - length bs) (acc ++ bs) s'
          | (Err e, s') =>
              if decide (kind e = Interrupted) then read_exact_loop fuel' n acc s' else (Err e, s')
          | (Panic, s') => (Panic, s')
          | (Fuel, s') => (Fuel, s')
          end
      end.

(** Every round takes something of [pending], or is the last. *)
Definition stream_fuel (s : R * W) : nat := S (length (pending s.1)).

Definition read_exact (n : nat) : io (R * W) io_error bytes :=
  fun s => read_exact_loop (stream_fuel s) n [] s.

End streams.

(** The bytes among events. *)
Definition bytes_of (evs : list event) : bytes := omap (fun e => match e with inl b => Some b | inr _ => None end) evs.

(** Bytes, with interrupted reads between them. *)
Definition quiet (evs : list event) : Prop :=
  Forall (fun e => match e with inl _ => True | inr x => kind x = Interrupted end) evs.

Lemma bytes_of_data (bs : bytes) : bytes_of (data bs) = bs.
Proof. unfold bytes_of, data. induction bs as [|b bs IH]; [done|]. cbn. by f_equal. Qed.

Lemma bytes_of_app (l k : list event) : bytes_of (l ++ k) = bytes_of l ++ bytes_of k.
Proof. apply omap_app. Qed.

Lemma quiet_data (bs : bytes) : quiet (data bs).
Proof. unfold quiet, data. by apply Forall_map, Forall_true. Qed.

Lemma data_app (l k : bytes) : data (l ++ k) = data l ++ data k.
Proof. apply map_app. Qed.

Lemma length_data (l : bytes) : length (data l) = length l.
Proof. apply length_map. Qed.

#[export] Hint Rewrite @bytes_of_app @bytes_of_data @data_app @length_data : proxy.
#[export] Hint Resolve quiet_data : proxy.

(** ** Reasoning about effectful code

    [wp m s Q X]: [m] run in [s] returns, a value that satisfies [Q] or an error that
    satisfies [X]. *)
Definition wp {S E A : Type} (m : io S E A) (s : S) (Q : A -> S -> Prop) (X : E -> S -> Prop) : Prop :=
  match m s with
  | (Ok a, s') => Q a s'
  | (Err e, s') => X e s'
  | (Panic, _) | (Fuel, _) => False
  end.

Section wp.
Context {S : Type}.

Lemma wp_mono {E A : Type} (m : io S E A) (s : S) (Q Q' : A -> S -> Prop) (X X' : E -> S -> Prop) :
  wp m s Q X -> (forall a s', Q a s' -> Q' a s') -> (forall e s', X e s' -> X' e s') -> wp m s Q' X'.
Proof. unfold wp. destruct (m s) as [[]]; auto. Qed.

Lemma wp_ret {E A : Type} (a : A) (s : S) (Q : A -> S -> Prop) (X : E -> S -> Prop) :
  Q a s -> wp (io_ret a) s Q X.
Proof. done. Qed.

Lemma wp_err {E A : Type} (e : E) (s : S) (Q : A -> S -> Prop) (X : E -> S -> Prop) :
  X e s -> wp (io_err e) s Q X.
Proof. done. Qed.

Lemma wp_lift {E A : Type} (m : res E A) (s : S) (Q : A -> S -> Prop) (X : E -> S -> Prop) :
  returns m -> (forall a, m = Ok a -> Q a s) -> (forall e, m = Err e -> X e s) -> wp (io_lift m) s Q X.
Proof. unfold wp, io_lift. destruct m; auto. Qed.

Lemma wp_bind {E A B : Type} (m : io S E A) (k : A -> io S E B) (s : S) (Q : B -> S -> Prop) (X : E -> S -> Prop) :
  wp m s (fun a s' => wp (k a) s' Q X) X -> wp (io_bind m k) s Q X.
Proof. unfold wp, io_bind. by destruct (m s) as [[]]. Qed.

Lemma wp_map_err {E F A : Type} (f : E -> F) (m : io S E A) (s : S) (Q : A -> S -> Prop) (X : F -> S -> Prop) :
  wp m s Q (fun e s' => X (f e) s') -> wp (io_map_err f m) s Q X.
Proof. unfold wp, io_map_err. by destruct (m s) as [[]]. Qed.

Lemma wp_Ok {E A : Type} (m : io S E A) (s s' : S) (a : A) (Q : A -> S -> Prop) (X : E -> S -> Prop) :
  wp m s Q X -> m s = (Ok a, s') -> Q a s'.
Proof. unfold wp. intros H E0. by rewrite E0 in H. Qed.

Lemma wp_returns {E A : Type} (m : io S E A) (s : S) (Q : A -> S -> Prop) (X : E -> S -> Prop) :
  wp m s Q X -> returns (m s).1.
Proof. unfold wp. by destruct (m s) as [[]]. Qed.

End wp.

(** [raises P m]: every error of [m] satisfies [P]. *)
Definition raises {S E A : Type} (P : E -> Prop) (m : io S E A) : Prop :=
  forall s, match (m s).1 with Err e => P e | _ => True end.

(** [yields P m]: every value [m] returns satisfies [P]. *)
Definition yields {S E A : Type} (P : A -> Prop) (m : io S E A) : Prop :=
  forall s, match (m s).1 with Ok a => P a | _ => True end.

Section raises.
Context {S : Type}.

Lemma yields_ret {E A : Type} (P : A -> Prop) (a : A) : P a -> yields P (io_ret a : io S E A).
Proof. intros H s. done. Qed.

Lemma yields_lift {E A : Type} (P : A -> Prop) (m : res E A) :
  (forall a, m = Ok a -> P a) -> yields P (io_lift m : io S E A).
Proof. intros H s. cbn. destruct m; auto. Qed.

Lemma yields_bind {E A B : Type} (P : B -> Prop) (m : io S E A) (k : A -> io S E B) :
  (forall a, yields P (k a)) -> yields P (io_bind m k).
Proof. intros Hk s. unfold io_bind. destruct (m s) as [[] s']; try done. apply Hk. Qed.

Lemma wp_yields {E A : Type} (P : A -> Prop) (m : io S E A) (s : S) (Q : A -> S -> Prop) (X : E -> S -> Prop) :
  yields P m -> wp m s Q X -> wp m s (fun a s' => P a /\ Q a s') X.
Proof. intros Hm H. specialize (Hm s). unfold wp in *. destruct (m s) as [[] s']; auto. Qed.

Lemma raises_ret {E A : Type} (P : E -> Prop) (a : A) : raises P (io_ret a : io S E A).
Proof. done. Qed.

Lemma raises_err {E A : Type} (P : E -> Prop) (e : E) : P e -> raises P (io_err e : io S E A).
Proof. intros H s. done. Qed.

Lemma raises_lift {E A : Type} (P : E -> Prop) (m : res E A) :
  (forall e, m = Err e -> P e) -> raises P (io_lift m : io S E A).
Proof. intros H s. cbn. destruct m; auto. Qed.

Lemma raises_bind {E A B : Type} (P : E -> Prop) (m : io S E A) (k : A -> io S E B) :
  raises P m -> (forall a, raises P (k a)) -> raises P (io_bind m k).
Proof. intros Hm Hk s. specialize (Hm s). unfold io_bind. destruct (m s) as [[] s']; try done. apply Hk. Qed.

Lemma raises_map_err {E F A : Type} (P : E -> Prop) (P' : F -> Prop) (f : E -> F) (m : io S E A) :
  raises P m -> (forall e, P e -> P' (f e)) -> raises P' (io_map_err f m).
Proof. intros Hm Hf s. specialize (Hm s). unfold io_map_err. destruct (m s) as [[] s']; cbn; auto. Qed.

Lemma raises_map_any {E F A : Type} (P : F -> Prop) (f : E -> F) (m : io S E A) :
  (forall e, P (f e)) -> raises P (io_map_err f m).
Proof. intros Hf s. unfold io_map_err. destruct (m s) as [[] s']; cbn; auto. Qed.

(** Fuel that depends on the state. *)
Lemma raises_at {E A : Type} (P : E -> Prop) (m : S -> io S E A) :
  (forall s, raises P (m s)) -> raises P (fun s => m s s).
Proof. intros H s. apply H. Qed.

Lemma wp_raises {E A : Type} (P : E -> Prop) (m : io S E A) (s : S) (Q : A -> S -> Prop) (X : E -> S -> Prop) :
  raises P m -> wp m s Q X -> wp m s Q (fun e s' => P e /\ X e s').
Proof. intros Hm H. specialize (Hm s). unfold wp in *. destruct (m s) as [[] s']; auto. Qed.

End raises.

(** [took s c out s']: between [s] and [s'] the events [c] were read and [out] was written. *)
Section took.
Context {R W : Type} `{!Read R} `{!Write W}.
Implicit Types (s : R * W).

Definition took (s : R * W) (c : list event) (out : bytes) (s' : R * W) : Prop :=
  pending s.1 = c ++ pending s'.1 /\ written s'.2 = written s.2 ++ out.

Lemma took_refl s : took s [] [] s.
Proof. split; [done|]. by rewrite app_nil_r. Qed.

Lemma took_trans s s' s'' c c' out out' :
  took s c out s' -> took s' c' out' s'' -> took s (c ++ c') (out ++ out') s''.
Proof. intros [H1 H2] [H3 H4]. split; [by rewrite H1, H3, app_assoc|by rewrite H4, H2, app_assoc]. Qed.

Lemma took_fuel s s' c out : took s c out s' -> stream_fuel s = length c + stream_fuel s'.
Proof. intros [H _]. unfold stream_fuel. rewrite H, length_app. lia. Qed.

Lemma wp_do_read (n : nat) s (Q : bytes -> R * W -> Prop) (X : io_error -> R * W -> Prop) :
  0 < n ->
  (forall bs s', length bs <= n -> took s (data bs) [] s' -> (bs = [] -> pending s.1 = []) -> Q bs s') ->
  (forall e s', took s [inr e] [] s' -> X e s') ->
  wp (do_read n) s Q X.
Proof.
  intros Hn HQ HX. unfold wp, do_read. pose proof (read_law n s.1 Hn) as Hl.
  destruct (read n s.1) as [[bs|e| |] r]; try done.
  - destruct Hl as (Hle & Hp & He). apply HQ; [done| |done]. split; [done|]. by rewrite app_nil_r.
  - apply HX. split; [done|]. by rewrite app_nil_r.
Qed.

Lemma wp_do_write (bs : bytes) s (Q : unit -> R * W -> Prop) (X : io_error -> R * W -> Prop) :
  (forall s', took s [] bs s' -> Q tt s') ->
  (forall e s' pre post, bs = pre ++ post -> took s [] pre s' -> X e s') ->
  wp (do_write bs) s Q X.
Proof.
  intros HQ HX. unfold wp, do_write. pose proof (write_law bs s.2) as Hl.
  destruct (write_all bs s.2) as [[[]|e| |] w]; try done.
  - apply HQ. by split.
  - destruct Hl as (pre & post & -> & Hw). by eapply HX.
Qed.

Lemma wp_do_flush s (Q : unit -> R * W -> Prop) (X : io_error -> R * W -> Prop) :
  (forall s', took s [] [] s' -> Q tt s') -> (forall e s', took s [] [] s' -> X e s') -> wp do_flush s Q X.
Proof.
  intros HQ HX. unfold wp, do_flush. pose proof (flush_law s.2) as Hl.
  assert (Ht : forall w, written w = written s.2 -> took s [] [] (s.1, w)).
  { intros w Hw. split; [done|]. cbn. by rewrite app_nil_r. }
  destruct (flush s.2) as [[[]|e| |] w]; auto.
Qed.

Lemma wp_read_exact_loop (fuel n : nat) (acc : bytes) s (Q : bytes -> R * W -> Prop) (X : io_error -> R * W -> Prop) :
  stream_fuel s <= fuel ->
  (forall c bs s', took s c [] s' -> quiet c -> bytes_of c = bs -> length bs = n -> Q (acc ++ bs) s') ->
  (forall e c s', took s c [] s' -> X e s') ->
  wp (read_exact_loop fuel n acc) s Q X.
Proof.
  revert n acc s Q X. induction fuel as [|fuel IH]; intros n acc s Q X Hf HQ HX; [unfold stream_fuel in Hf; lia|].
  unfold wp. cbn [read_exact_loop]. destruct (decide (n = 0)) as [->|Hn].
  { rewrite <- (app_nil_r acc). apply (HQ [] []); [apply took_refl|constructor|done|done]. }
  pose proof (wp_do_read n s (fun bs s' => length bs <= n /\ took s (data bs) [] s' /\ (bs = [] -> pending s.1 = []))
    (fun e s' => took s [inr e] [] s')) as Hr. unfold wp in Hr.
  destruct (do_read n s) as [[bs|e| |] s1]; [| |exfalso; apply Hr; [lia|auto|auto]..].
  - destruct Hr as (Hle & Ht & Heof); [lia|auto|auto|].
    destruct bs as [|b bs]; [by eapply HX|].
    apply (IH (n - length (b :: bs)) (acc ++ b :: bs) s1).
    + apply took_fuel in Ht. rewrite length_data in Ht. simpl in Ht. lia.
    + intros c bs' s' Ht' Hq Hb Hlen. rewrite <- app_assoc. apply (HQ (data (b :: bs) ++ c)).
      * by apply (took_trans _ _ _ _ _ [] [] Ht Ht').
      * apply Forall_app. split; [apply quiet_data|done].
      * by rewrite bytes_of_app, bytes_of_data, Hb.
      * rewrite length_app, Hlen. lia.
    + intros e c s' Ht'. eapply HX. by apply (took_trans _ _ _ _ _ [] [] Ht Ht').
  - assert (Ht : took s [inr e] [] s1) by (apply Hr; [lia|auto|auto]).
    destruct (decide (kind e = Interrupted)) as [Hi|Hi]; [|by eapply HX].
    apply (IH n acc s1).
    + apply took_fuel in Ht. simpl in Ht. lia.
    + intros c bs' s' Ht' Hq Hb Hlen. apply (HQ (inr e :: c)).
      * by apply (took_trans _ _ _ [inr e] _ [] [] Ht Ht').
      * by constructor.
      * done.
      * done.
    + intros e' c s' Ht'. eapply HX. by apply (took_trans _ _ _ _ _ [] [] Ht Ht').
Qed.

Lemma wp_read_exact (n : nat) s (Q : bytes -> R * W -> Prop) (X : io_error -> R * W -> Prop) :
  (forall c bs s', took s c [] s' -> quiet c -> bytes_of c = bs -> length bs = n -> Q bs s') ->
  (forall e c s', took s c [] s' -> X e s') ->
  wp (read_exact n) s Q X.
Proof. intros HQ HX. unfold wp, read_exact. by apply wp_read_exact_loop. Qed.

End took.

(** ** Streams without failures *)

(** Writers that cannot fail from the state they are in. *)
Class ReliableWrite (W : Type) `{!Write W} : Type := {
  reliable : W -> Prop;
  reliable_write : forall bs w, reliable w -> exists w', write_all bs w = (Ok tt, w') /\ reliable w';
  reliable_flush : forall w, reliable w -> exists w', flush w = (Ok tt, w') /\ reliable w'
}.

#[export] Instance Sink_ReliableWrite : ReliableWrite Sink.
Proof.
  refine {| reliable := fun w => sink_limit w = None |}.
  - intros bs w Hw. cbn. unfold sink_write_all. rewrite Hw. eauto.
  - intros w Hw. cbn. unfold sink_flush. rewrite Hw. eauto.
Defined.

(** The bytes that come next. *)
Lemma data_prefix (bs bs1 : bytes) (rest rest1 : list event) :
  data bs ++ rest = data bs1 ++ rest1 -> length bs1 <= length bs ->
  exists bs2, bs = bs1 ++ bs2 /\ rest1 = data bs2 ++ rest.
Proof.
  revert bs. induction bs1 as [|b bs1 IH]; intros bs H Hl; [by exists bs|].
  destruct bs as [|b' bs]; [simpl in Hl; lia|]. cbn in H. injection H as -> H.
  destruct (IH bs H) as (bs2 & -> & ->); [simpl in Hl; lia|]. by exists bs2.
Qed.

Section does.
Context {R W : Type} `{!Read R} `{!Write W} `{!ReliableWrite W}.
Implicit Types (s : R * W).

(** [does m s a c out]: [m] run in [s] returns [a], having read [c] and written [out]. *)
Definition does {E A : Type} (m : io (R * W) E A) (s : R * W) (a : A) (c : list event) (out : bytes) : Prop :=
  exists s', m s = (Ok a, s') /\ took s c out s' /\ reliable s'.2.

Lemma does_ret {E A : Type} s (a : A) : reliable s.2 -> does (io_ret a : io _ E _) s a [] [].
Proof. intros Hr. exists s. split; [done|]. split; [apply took_refl|done]. Qed.

Lemma does_bind {E A B : Type} (m : io (R * W) E A) (k : A -> io (R * W) E B) s a b c c' out out' :
  does m s a c out ->
  (forall s', took s c out s' -> reliable s'.2 -> does (k a) s' b c' out') ->
  does (io_bind m k) s b (c ++ c') (out ++ out').
Proof.
  intros (s1 & H1 & Ht1 & Hr1) Hk. destruct (Hk s1 Ht1 Hr1) as (s2 & H2 & Ht2 & Hr2).
  exists s2. unfold io_bind. rewrite H1, H2. split; [done|]. split; [by eapply took_trans|done].
Qed.

Lemma does_map_err {E F A : Type} (f : E -> F) (m : io (R * W) E A) s a c out :
  does m s a c out -> does (io_map_err f m) s a c out.
Proof. intros (s' & H & Ht). exists s'. unfold io_map_err. by rewrite H. Qed.

Lemma does_lift {E A : Type} (m : res E A) s a : reliable s.2 -> m = Ok a -> does (io_lift m) s a [] [].
Proof. intros Hr ->. by apply does_ret. Qed.

Lemma does_write (bs : bytes) s : reliable s.2 -> does (do_write bs) s tt [] bs.
Proof.
  intros Hr. destruct (reliable_write bs s.2 Hr) as (w & Hw & Hr'). exists (s.1, w).
  pose proof (write_law bs s.2) as Hl. unfold do_write. rewrite Hw in *. split; [done|]. by split.
Qed.

Lemma does_flush s : reliable s.2 -> does do_flush s tt [] [].
Proof.
  intros Hr. destruct (reliable_flush s.2 Hr) as (w & Hw & Hr'). exists (s.1, w).
  pose proof (flush_law s.2) as Hl. unfold do_flush. rewrite Hw in *. split; [done|]. split; [|done].
  split; [done|]. by rewrite app_nil_r.
Qed.

(** A read delivers at least one of the bytes to come, and none that is not. *)
Lemma does_read (n : nat) s (b : byte) (bs : bytes) (rest : list event) :
  0 < n -> reliable s.2 -> pending s.1 = data (b :: bs) ++ rest ->
  exists bs1, bs1 <> [] /\ length bs1 <= n /\ does (do_read n) s bs1 (data bs1) [].
Proof.
  intros Hn Hr Hp. unfold does, do_read. pose proof (read_law n s.1 Hn) as Hl.
  destruct (read n s.1) as [[bs1|e| |] r] eqn:E; try done.
  - destruct Hl as (Hle & Hp1 & He). exists bs1. split; [intros ->; by rewrite He in Hp by done|]. split; [done|].
    exists (r, s.2). split; [done|]. split; [|done]. split; [done|]. by rewrite app_nil_r.
  - rewrite Hp in Hl. done.
Qed.

Lemma does_read_exact_loop (fuel n : nat) (acc bs : bytes) (rest : list event) s :
  stream_fuel s <= fuel -> reliable s.2 -> pending s.1 = data bs ++ rest -> length bs = n ->
  does (read_exact_loop fuel n acc) s (acc ++ bs) (data bs) [].
Proof.
  revert n acc bs s. induction fuel as [|fuel IH]; intros n acc bs s Hf Hr Hp Hn; [unfold stream_fuel in Hf; lia|].
  unfold does. cbn [read_exact_loop]. destruct (decide (n = 0)) as [->|Hn0].
  - destruct bs; [|done]. rewrite app_nil_r. exists s. split; [done|]. split; [apply took_refl|done].
  - destruct bs as [|b bs]; [done|].
    destruct (does_read n s b bs rest) as (bs1 & Hne & Hle & s1 & E & Ht & Hr1); [lia|done|done|].
    rewrite E. destruct bs1 as [|b1 bs1]; [done|].
    destruct (data_prefix (b :: bs) (b1 :: bs1) rest (pending s1.1)) as (bs2 & Hbs & Hp1).
    { destruct Ht as [Ht _]. by rewrite <- Hp. }
    { lia. }
    destruct (IH (n - length (b1 :: bs1)) (acc ++ b1 :: bs1) bs2 s1) as (s2 & E2 & Ht2 & Hr2).
    + apply took_fuel in Ht. rewrite length_data in Ht. simpl in Ht. lia.
    + done.
    + done.
    + rewrite Hbs, length_app in Hn. lia.
    + exists s2. rewrite E2, Hbs, <- app_assoc. split; [done|]. split; [|done].
      rewrite data_app. by apply (took_trans _ _ _ _ _ [] [] Ht Ht2).
Qed.

Lemma does_read_exact (bs : bytes) (rest : list event) s :
  reliable s.2 -> pending s.1 = data bs ++ rest -> does (read_exact (length bs)) s bs (data bs) [].
Proof.
  intros Hr Hp. destruct (does_read_exact_loop (stream_fuel s) (length bs) [] bs rest s) as (s' & E & H); [done..|].
  exists s'. by unfold read_exact.
Qed.

End does.
