(* ===== verification/ProxyHead.v ===== *)
(** * Message heads in the proxy: [src/proxy.rs]

    The request head written to the upstream, the syntax check, the framing and the
    sanitising of response heads, the upgrade protocols and the trailer rules. *)
From Stdlib Require Import ZArith Lia.
From stdpp Require Import prelude.
From S2P Require Import Prelude Bytes NetAddr Http Io.
Local Open Scope Z_scope.
Set Warnings "-clear-no-such-hyp".

Definition STREAM_BUFFER_SIZE : Z := 16 * 1024.
Definition MAX_RESPONSE_HEAD_SIZE : Z := 64 * 1024.
Definition MAX_CHUNK_LINE_SIZE : Z := 8192.
Definition MAX_TRAILER_LINE_SIZE : Z := 8192.
Definition MAX_TRAILER_BLOCK_SIZE : Z := 32 * 1024.
Definition MAX_TRAILER_COUNT : Z := 100.

Inductive ProxyError : Type :=
| MissingHost
| Connect (address : bytes) (kind : ErrorKind) (message : bytes)
| WriteError (kind : ErrorKind) (message : bytes)
| ReadError (kind : ErrorKind) (message : bytes)
| ClientRead (kind : ErrorKind) (message : bytes)
| InvalidClientBody (message : bytes)
| EmptyResponse
| IncompleteResponse
| InvalidUpstreamResponse (message : bytes)
| ResponseStarted (message : bytes)
| Tunnel (message : bytes).

Definition proxy_error_to_string (e : ProxyError) : bytes :=
  match e with
  | MissingHost => str "request has no Host header"
  | Connect address _ message => str "failed to connect to upstream " ++ address ++ str ": " ++ message
  | WriteError _ message => str "failed to write request to upstream: " ++ message
  | ReadError _ message => str "failed to read response from upstream: " ++ message
  | ClientRead _ message => str "failed to read request body from client: " ++ message
  | InvalidClientBody message => str "invalid chunked request body: " ++ message
  | EmptyResponse => str "upstream closed without a response"
  | IncompleteResponse => str "upstream disconnected before completing its HTTP response"
  | InvalidUpstreamResponse message => str "invalid upstream HTTP response: " ++ message
  | ResponseStarted message => str "upstream failed after response started: " ++ message
  | Tunnel message => str "upgraded connection tunnel failed: " ++ message
  end.

Definition is_timeout_kind (k : ErrorKind) : bool :=
  match k with
  | TimedOut | WouldBlock => true
  | _ => false
  end.

Definition is_upstream_timeout (e : ProxyError) : bool :=
  match e with
  | Connect _ k _ | WriteError k _ | ReadError k _ => is_timeout_kind k
  | _ => false
  end.

Inductive ForwardedProto : Type :=
| HttpProto
| HttpsProto.

Definition as_bytes (p : ForwardedProto) : bytes :=
  match p with
  | HttpProto => str "http"
  | HttpsProto => str "https"
  end.

Inductive ResponseTransferFraming : Type :=
| NoFraming
| CloseDelimited
| Chunked.

#[export] Instance ResponseTransferFraming_eq_dec : EqDecision ResponseTransferFraming.
Proof. solve_decision. Defined.

Definition invalid {A : Type} (m : bytes) : res ProxyError A := Err (InvalidUpstreamResponse m).

(** ** Trailers and upgrade protocols

    [is_token_byte] and [trim_optional_whitespace] are written out again in [proxy.rs], with
    the bodies they have in [http.rs]; one definition stands for both. *)
Definition is_valid_chunk_extension_byte (b : byte) : bool := byte_eqb b HTAB || in_range x20 x7e b.

Definition is_valid_trailer_value_byte (b : byte) : bool :=
  byte_eqb b HTAB || in_range x20 x7e b || in_range x80 xff b.

Definition is_valid_response_field_value_byte (b : byte) : bool :=
  byte_eqb b HTAB || in_range x20 x7e b || in_range x80 xff b.

Definition is_forbidden_trailer_name (n : bytes) : bool :=
  existsb (eq_ignore_ascii_case n)
    [str "content-length"; str "transfer-encoding"; str "host"; str "connection"; str "keep-alive";
     str "proxy-connection"; str "te"; str "trailer"; str "upgrade"].

Definition validate_trailer_line (line : bytes) : res ProxyError unit :=
  let? separator := ok_or (position (byte_eqb x3a) line) (InvalidClientBody (str "invalid trailer field")) in
  let? name := slice_to line separator in
  let? rest := slice_from line (separator + 1) in
  let value := trim_optional_whitespace rest in
  if bool_decide (name = []) || negb (all is_token_byte name)
  then Err (InvalidClientBody (str "invalid trailer field name"))
  else if is_forbidden_trailer_name name then Err (InvalidClientBody (str "forbidden trailer field"))
  else if negb (all is_valid_trailer_value_byte value)
  then Err (InvalidClientBody (str "invalid trailer field value"))
  else Ok tt.

Definition trailer_field_name (count : Z) (field_name : bytes) : res bytes Z :=
  let field_name := trim_optional_whitespace field_name in
  if bool_decide (field_name = []) || negb (all is_token_byte field_name)
  then Err (str "Trailer header contains invalid field name")
  else if is_forbidden_trailer_name field_name then Err (str "Trailer header contains forbidden field name")
  else Ok (count + 1).

Definition validate_trailer_header_value (value : bytes) : res bytes unit :=
  let? field_count := res_foldM trailer_field_name 0 (split_on (byte_eqb x2c) value) in
  if field_count =? 0 then Err (str "Trailer header contains no field names") else Ok tt.

Definition parse_upgrade_protocol (protocol : bytes) : res bytes bytes :=
  let protocol := trim_optional_whitespace protocol in
  if bool_decide (protocol = []) then Err (str "Upgrade header contains an empty protocol")
  else
    match position (byte_eqb x2f) protocol with
    | Some i =>
        let? name := slice_to protocol i in
        let? version := slice_from protocol (i + 1) in
        if bool_decide (name = []) || bool_decide (version = []) || contains x2f version
           || negb (all is_token_byte name) || negb (all is_token_byte version)
        then Err (str "Upgrade header contains an invalid protocol")
        else Ok protocol
    | None =>
        if negb (all is_token_byte protocol) then Err (str "Upgrade header contains an invalid protocol")
        else Ok protocol
    end.

Definition parse_upgrade_protocols (value : bytes) : res bytes (list bytes) :=
  let? protocols := res_mapM parse_upgrade_protocol (split_on (byte_eqb x2c) value) in
  if bool_decide (protocols = []) then Err (str "Upgrade header contains no protocols") else Ok protocols.

Definition split_upgrade_protocol {E : Type} (protocol : bytes) : res E (bytes * option bytes) :=
  match position (byte_eqb x2f) protocol with
  | Some i =>
      let? name := slice_to protocol i in
      let? version := slice_from protocol (i + 1) in
      Ok (name, Some version)
  | None => Ok (protocol, None)
  end.

Definition upgrade_protocols_match {E : Type} (left right : bytes) : res E bool :=
  let? (left_name, left_version) := split_upgrade_protocol left in
  let? (right_name, right_version) := split_upgrade_protocol right in
  Ok (eq_ignore_ascii_case left_name right_name && bool_decide (left_version = right_version)).

(** ** The request head for the upstream *)
Definition named_by_connection_header (r : Request) (n : bytes) : bool :=
  existsb (fun h => existsb (fun token => eq_ignore_ascii_case token n) (comma_elements (value h)))
    (filter (fun h => named (str "connection") h = true) (headers r)).

Definition request_expects_continue (r : Request) : bool :=
  existsb (fun h => existsb (fun v => eq_ignore_ascii_case v (str "100-continue")) (comma_elements (value h)))
    (filter (fun h => named (str "expect") h = true) (headers r)).

Definition request_has_body (r : Request) : bool :=
  has_transfer_encoding r
  || match content_length r with Some n => 0 <? n | None => false end.

Definition request_accepts_trailers (r : Request) : bool :=
  if negb (named_by_connection_header r (str "te")) then false
  else
    existsb (fun h => existsb (fun v => eq_ignore_ascii_case v (str "trailers")) (comma_elements (value h)))
      (filter (fun h => named (str "te") h = true) (headers r)).

Definition request_upgrade_protocols (r : Request) : res ProxyError (option (list bytes)) :=
  let connection_names_upgrade := named_by_connection_header r (str "upgrade") in
  let? lists := res_mapM (fun h => map_err InvalidClientBody (parse_upgrade_protocols (value h)))
                  (filter (fun h => named (str "upgrade") h = true) (headers r)) in
  let protocols := concat lists in
  if bool_decide (protocols = []) then
    if connection_names_upgrade
    then Err (InvalidClientBody (str "Connection names Upgrade without an Upgrade header"))
    else Ok None
  else if negb connection_names_upgrade
  then Err (InvalidClientBody (str "Upgrade header requires Connection: Upgrade"))
  else Ok (Some protocols).

Definition replaced_names : list bytes :=
  [str "host"; str "content-length"; str "connection"; str "proxy-connection"; str "keep-alive";
   str "transfer-encoding"; str "te"; str "trailer"; str "upgrade"; str "x-forwarded-for";
   str "x-forwarded-host"; str "x-forwarded-proto"].

Definition should_replace_header (r : Request) (n : bytes) : bool :=
  existsb (eq_ignore_ascii_case n) replaced_names || named_by_connection_header r n.

Definition trailer_headers (r : Request) : res ProxyError bytes :=
  if named_by_connection_header r (str "trailer") then Ok []
  else
    let? parts := res_mapM
      (fun h =>
         let? _ := map_err InvalidClientBody (validate_trailer_header_value (value h)) in
         Ok (str "Trailer: " ++ value h ++ CRLF))
      (filter (fun h => named (str "trailer") h = true) (headers r)) in
    Ok (concat parts).

Definition serialize_request_head (r : Request) (client_ip : IpAddr) (proto : ForwardedProto)
  : res ProxyError bytes :=
  let? host := match host r with
               | Ok (Some h) => Ok h
               | Ok None => Err MissingHost
               | Err e => match e : Empty_set with end
               | Panic => Panic
               | Fuel => Fuel
               end in
  let? upgrade_protocols := request_upgrade_protocols r in
  let accepts_trailers := request_accepts_trailers r in
  let output :=
    method r ++ [SP] ++ target r ++ str " HTTP/1.1" ++ CRLF
    ++ concat (map serialize_header
         (filter (fun h => should_replace_header r (name h) = false) (headers r)))
    ++ str "Host: " ++ host ++ CRLF
    ++ match content_length r with
       | Some n => str "Content-Length: " ++ to_dec n ++ CRLF
       | None => []
       end in
  let? framing :=
    if has_transfer_encoding r then
      let? trailers := trailer_headers r in
      Ok (str "Transfer-Encoding: chunked" ++ CRLF ++ trailers)
    else Ok [] in
  Ok (output ++ framing
      ++ (if accepts_trailers then str "TE: trailers" ++ CRLF else [])
      ++ match upgrade_protocols with
         | Some protocols => str "Upgrade: " ++ join (str ", ") protocols ++ CRLF
         | None => []
         end
      ++ match accepts_trailers, upgrade_protocols with
         | true, Some _ => str "Connection: TE, Upgrade" ++ CRLF
         | true, None => str "Connection: TE" ++ CRLF
         | false, Some _ => str "Connection: Upgrade" ++ CRLF
         | false, None => []
         end
      ++ str "X-Forwarded-For: " ++ ip_to_string client_ip ++ CRLF
      ++ str "X-Forwarded-Host: " ++ host ++ CRLF
      ++ str "X-Forwarded-Proto: " ++ as_bytes proto ++ CRLF
      ++ CRLF).

(** ** Response heads *)
Definition response_status_code (head : bytes) : res ProxyError Z :=
  let? line_end := ok_or (windows_position CRLF head)
                     (InvalidUpstreamResponse (str "response has no complete status line")) in
  let? status_line := slice_to head line_end in
  let? first_space := ok_or (position (byte_eqb SP) status_line)
                        (InvalidUpstreamResponse (str "malformed response status line")) in
  let? after := slice_from status_line (first_space + 1) in
  let? i := ok_or (position (byte_eqb SP) after)
              (InvalidUpstreamResponse (str "malformed response status line")) in
  let second_space := (first_space + 1 + i)%nat in
  let? version := slice_to status_line first_space in
  let? code := slice status_line (first_space + 1) second_space in
  if negb (bytes_eqb version (str "HTTP/1.0")) && negb (bytes_eqb version (str "HTTP/1.1"))
  then invalid (str "unsupported upstream HTTP version")
  else if negb (length code =? 3)%nat || negb (all is_ascii_digit code)
  then invalid (str "invalid response status code")
  else
    let? c0 := index code 0 in
    let? c1 := index code 1 in
    let? c2 := index code 2 in
    let status := (u8 c0 - 48) * 100 + (u8 c1 - 48) * 10 + (u8 c2 - 48) in
    if negb ((100 <=? status) && (status <=? 599))
    then invalid (str "response status code is outside the valid range")
    else Ok status.

Definition is_interim_response (status : Z) : bool :=
  (100 <=? status) && (status <? 200) && negb (status =? 101).

Definition response_has_no_body (request_method : bytes) (status : Z) : bool :=
  eq_ignore_ascii_case request_method (str "HEAD") || (status =? 204) || (status =? 304).

(** [split(LF).skip(1)], each line without the CR at its end. *)
Definition header_lines (head : bytes) : list bytes :=
  map strip_cr (tail (split_on (byte_eqb LF) head)).

(** One step of the check that no LF stands alone and no CR stands alone. *)
Definition bare_line_end (head : bytes) (ib : nat * byte) : res ProxyError unit :=
  let '(i, b) := ib in
  let? bare_lf :=
    if byte_eqb b LF then
      if (i =? 0)%nat then Ok true
      else let? previous := index head (i - 1) in Ok (negb (byte_eqb previous CR))
    else Ok false in
  if bare_lf : bool then invalid (str "response contains bare LF")
  else if byte_eqb b CR && negb (bool_decide (head !! (i + 1)%nat = Some LF))
  then invalid (str "response contains bare CR")
  else Ok tt.

Definition validate_response_line (line : bytes) : res ProxyError unit :=
  if bool_decide (line = []) then Ok tt
  else if match line with b :: _ => is_ows b | [] => false end
  then invalid (str "obsolete folded response header is not accepted")
  else
    let? separator := ok_or (position (byte_eqb x3a) line)
                        (InvalidUpstreamResponse (str "malformed response header")) in
    let? name := slice_to line separator in
    let? rest := slice_from line (separator + 1) in
    let value := trim_optional_whitespace rest in
    if bool_decide (name = []) || negb (all is_token_byte name) then invalid (str "invalid response header name")
    else if negb (all is_valid_response_field_value_byte value)
    then invalid (str "invalid response header value")
    else Ok tt.

Definition validate_response_head_syntax (head : bytes) : res ProxyError unit :=
  if negb (ends_with (CRLF ++ CRLF) head) then invalid (str "response head does not end with CRLF CRLF")
  else
    let? _ := res_mapM (bare_line_end head) (imap (fun i b => (i, b)) head) in
    let? _ := response_status_code head in
    match split_on (byte_eqb LF) head with
    | [] => invalid (str "response has no status line")
    | first :: _ =>
        let? status_line := expect (strip_suffix CR first) in
        if negb (all is_valid_response_field_value_byte status_line)
        then invalid (str "response status line contains invalid bytes")
        else
          let? _ := res_mapM validate_response_line (header_lines head) in
          Ok tt
    end.

(** The part of a header line before the colon and the part after it. *)
Definition split_header (line : bytes) : res ProxyError (bytes * bytes) :=
  let? separator := ok_or (position (byte_eqb x3a) line)
                      (InvalidUpstreamResponse (str "malformed response header")) in
  let? name := slice_to line separator in
  let? value := slice_from line (separator + 1) in
  Ok (name, value).

Definition connection_token (token : bytes) : res ProxyError bytes :=
  let token := trim_optional_whitespace token in
  if bool_decide (token = []) || negb (all is_token_byte token)
  then invalid (str "invalid Connection header token")
  else if eq_ignore_ascii_case token (str "content-length")
          || eq_ignore_ascii_case token (str "transfer-encoding")
  then invalid (str "Connection header names a response framing field")
  else Ok (lowercase token).

Definition connection_tokens_line (tokens : list bytes) (line : bytes) : res ProxyError (list bytes) :=
  if bool_decide (line = []) then Ok tokens
  else
    let? (name, value) := split_header line in
    if negb (eq_ignore_ascii_case name (str "connection")) then Ok tokens
    else
      let? new := res_mapM connection_token (split_on (byte_eqb x2c) value) in
      Ok (tokens ++ new).

Definition response_connection_tokens (head : bytes) : res ProxyError (list bytes) :=
  res_foldM connection_tokens_line [] (header_lines head).

Definition should_remove_response_header (name : bytes) (connection_tokens : list bytes)
    (preserve_trailer_header preserve_upgrade_header : bool) : bool :=
  existsb (eq_ignore_ascii_case name)
    [str "connection"; str "keep-alive"; str "proxy-connection"; str "te"]
  || (eq_ignore_ascii_case name (str "trailer") && negb preserve_trailer_header)
  || (eq_ignore_ascii_case name (str "upgrade") && negb preserve_upgrade_header)
  || existsb (fun token =>
       eq_ignore_ascii_case name token
       && negb (preserve_upgrade_header && eq_ignore_ascii_case name (str "upgrade")
                && eq_ignore_ascii_case token (str "upgrade"))) connection_tokens.

Definition sanitize_line (tokens : list bytes) (preserve_trailer preserve_upgrade : bool)
    (output line : bytes) : res ProxyError bytes :=
  if bool_decide (line = []) then Ok output
  else
    let? (name, value) := split_header line in
    if should_remove_response_header name tokens preserve_trailer preserve_upgrade then Ok output
    else
      let? _ := if eq_ignore_ascii_case name (str "trailer")
                then map_err InvalidUpstreamResponse (validate_trailer_header_value value)
                else Ok tt in
      Ok (output ++ line ++ CRLF).

Definition sanitize_response_head (head : bytes) (connection_header : option bytes)
    (preserve_trailer_header preserve_upgrade_header : bool) : res ProxyError bytes :=
  let? tokens := response_connection_tokens head in
  match split_on (byte_eqb LF) head with
  | [] => invalid (str "response has no status line")
  | first :: _ =>
      let? output := res_foldM (sanitize_line tokens preserve_trailer_header preserve_upgrade_header)
                       (strip_cr first ++ CRLF) (header_lines head) in
      Ok (output
          ++ match connection_header with
             | Some c => str "Connection: " ++ c ++ CRLF
             | None => []
             end
          ++ CRLF)
  end.

(** The values of the fields called [name], in order; a line without a colon has none. *)
Definition response_header_contains_token (head name token : bytes) : bool :=
  existsb (fun value => existsb (fun v => eq_ignore_ascii_case v token) (comma_elements value))
    (omap (fun line =>
       match position (byte_eqb x3a) line with
       | None => None
       | Some i => if eq_ignore_ascii_case (take i line) name then Some (drop (i + 1) line) else None
       end) (header_lines head)).

Definition downstream_connection_header (head : bytes) (client_reusable : bool) : option bytes :=
  if negb client_reusable then Some (str "close")
  else if starts_with (str "HTTP/1.0 ") head then Some (str "keep-alive") else None.

Definition response_allows_client_reuse (head : bytes) (close_delimited : bool) : bool :=
  if close_delimited || response_header_contains_token head (str "connection") (str "close") then false
  else if starts_with (str "HTTP/1.1 ") head then true
  else response_header_contains_token head (str "connection") (str "keep-alive").

Definition response_upgrade_line (protocols : list bytes) (line : bytes) : res ProxyError (list bytes) :=
  if bool_decide (line = []) then Ok protocols
  else
    let? (name, value) := split_header line in
    if negb (eq_ignore_ascii_case name (str "upgrade")) then Ok protocols
    else
      let? new := map_err InvalidUpstreamResponse (parse_upgrade_protocols value) in
      Ok (protocols ++ new).

Definition response_upgrade_protocols (head : bytes) : res ProxyError (list bytes) :=
  res_foldM response_upgrade_line [] (header_lines head).

Fixpoint res_any {E A : Type} (f : A -> res E bool) (l : list A) : res E bool :=
  match l with
  | [] => Ok false
  | a :: l' => let? b := f a in if b then Ok true else res_any f l'
  end.

Definition validate_switching_protocols_response (head : bytes) (requested : list bytes) : res ProxyError unit :=
  if negb (response_header_contains_token head (str "connection") (str "upgrade")) then invalid (str "101 response is missing Connection: Upgrade")
  else
    let? selected := response_upgrade_protocols head in
    if bool_decide (selected = []) then invalid (str "101 response is missing an Upgrade protocol")
    else
      let? _ := res_mapM
        (fun s =>
           let? found := res_any (fun r => upgrade_protocols_match r s) requested in
           if found : bool then Ok tt
           else invalid (str "101 response selected an unrequested Upgrade protocol")) selected in
      Ok tt.

(** *** The framing of a response: [headers] is the head without its last four bytes *)
Definition response_coding (coding : bytes) : res ProxyError bytes :=
  let coding := trim_optional_whitespace coding in
  if bool_decide (coding = []) then invalid (str "empty Transfer-Encoding value")
  else
    let coding_name := default coding (head (split_on (byte_eqb x3b) coding)) in
    if eq_ignore_ascii_case coding_name (str "chunked") && negb (length coding =? length coding_name)%nat
    then invalid (str "chunked transfer coding cannot have parameters")
    else Ok coding_name.

Definition transfer_framing_line (codings : list bytes) (line : bytes) : res ProxyError (list bytes) :=
  let? (name, value) := split_header line in
  if negb (eq_ignore_ascii_case name (str "transfer-encoding")) then Ok codings
  else
    let? new := res_mapM response_coding (split_on (byte_eqb x2c) value) in
    Ok (codings ++ new).

Definition chunked_position (n : nat) (count : Z) (ic : nat * bytes) : res ProxyError Z :=
  let '(i, coding) := ic in
  if eq_ignore_ascii_case coding (str "chunked") then
    let count := count + 1 in
    if (1 <? count) || negb (i + 1 =? n)%nat
    then invalid (str "chunked must appear exactly once and as the final transfer coding")
    else Ok count
  else Ok count.

Definition response_transfer_framing (headers : bytes) : res ProxyError ResponseTransferFraming :=
  let? codings := res_foldM transfer_framing_line [] (header_lines headers) in
  if bool_decide (codings = []) then Ok NoFraming
  else
    let? _ := res_foldM (chunked_position (length codings)) 0 (imap (fun i c => (i, c)) codings) in
    Ok (match list.last codings with
        | Some coding => if eq_ignore_ascii_case coding (str "chunked") then Chunked else CloseDelimited
        | None => CloseDelimited
        end).

Definition response_content_length_line (content_length : option Z) (line : bytes) : res ProxyError (option Z) :=
  let? (name, value) := split_header line in
  if negb (eq_ignore_ascii_case name (str "content-length")) then Ok content_length
  else if bool_decide (is_Some content_length)
  then invalid (str "response contains multiple Content-Length fields")
  else
    let value := trim_optional_whitespace value in
    if bool_decide (value = []) || contains x2c value || negb (all is_ascii_digit value)
    then invalid (str "response contains invalid Content-Length")
    else if negb (utf8_valid value) then invalid (str "response contains invalid Content-Length")
    else
      let? parsed := ok_or (parse_uint u64_max value)
                       (InvalidUpstreamResponse (str "response contains invalid Content-Length")) in
      Ok (Some parsed).

Definition response_content_length (headers : bytes) : res ProxyError (option Z) :=
  res_foldM response_content_length_line None (header_lines headers).

(** ** The shape of a response head *)

(** A line: no CR and no LF. *)
Definition clean (l : bytes) : Prop := (CR ∉ l) /\ (LF ∉ l).

Definition lines_of (ls : list bytes) : bytes := concat (map (fun l => l ++ CRLF) ls).

(** [ls] and [tl] are the lines of [l] and what follows the last of them. *)
Definition line_split (l : bytes) (ls : list bytes) (tl : bytes) : Prop :=
  l = lines_of ls ++ tl /\ Forall clean ls /\ clean tl.

(** Every LF follows a CR and every CR precedes an LF. *)
Definition paired_line_ends (head : bytes) : Prop :=
  forall i b, head !! i = Some b ->
    (b = LF -> exists j, i = S j /\ head !! j = Some CR) /\ (b = CR -> head !! (i + 1)%nat = Some LF).

Lemma bare_line_end_Ok (head : bytes) (i : nat) (b : byte) (u : unit) :
  head !! i = Some b -> bare_line_end head (i, b) = Ok u ->
  (b = LF -> exists j, i = S j /\ head !! j = Some CR) /\ (b = CR -> head !! (i + 1)%nat = Some LF).
Proof.
  intros Hi. unfold bare_line_end. destruct (byte_eqb b LF) eqn:HLF.
  - apply byte_eqb_eq in HLF as ->. intros H. split; [|done]. intros _.
    destruct i as [|j]; [done|]. exists j. split; [done|]. cbn [Nat.eqb] in H.
    replace (S j - 1)%nat with j in H by lia. unfold index in H.
    destruct (head !! j) as [c|] eqn:Hj; [|by apply lookup_ge_None in Hj; apply lookup_lt_Some in Hi; lia].
    cbn [expect res_bind] in H. destruct (byte_eqb c CR) eqn:Hc; [by apply byte_eqb_eq in Hc as ->|done].
  - cbn [res_bind]. intros H. split; [by intros ->|]. intros ->.
    change (byte_eqb CR CR) with true in H. cbn [andb] in H.
    destruct (bool_decide_reflect (head !! (i + 1)%nat = Some LF)); done.
Qed.

Lemma imap_pairs {A : Type} (l : list A) (i : nat) (a : A) :
  l !! i = Some a -> (i, a) ∈ imap (fun i a => (i, a)) l.
Proof. intros H. apply list_elem_of_lookup. exists i. by rewrite list_lookup_imap, H. Qed.

Lemma paired_line_ends_checked (head : bytes) (us : list unit) :
  res_mapM (bare_line_end head) (imap (fun i b => (i, b)) head) = Ok us -> paired_line_ends head.
Proof.
  intros H i b Hi. apply res_mapM_Ok in H. pose proof (imap_pairs _ _ _ Hi) as Hin.
  apply list_elem_of_lookup in Hin as [k Hk]. apply (Forall2_lookup_l _ _ _ _ _ H) in Hk as (u & _ & Hu).
  by eapply bare_line_end_Ok.
Qed.

Lemma line_split_cons (b : byte) (l : bytes) (ls : list bytes) (tl : bytes) :
  b <> CR -> b <> LF -> line_split l ls tl -> exists ls' tl', line_split (b :: l) ls' tl' /\ length ls' = length ls.
Proof.
  intros HC HL (-> & Hls & Htl). destruct ls as [|k ks].
  - exists [], (b :: tl). split; [|done]. split; [done|]. split; [done|]. unfold clean in *. set_solver.
  - exists ((b :: k) :: ks), tl. split; [|done]. split; [done|]. split; [|done].
    apply Forall_cons in Hls as [Hk Hks]. constructor; [|done]. unfold clean in *. set_solver.
Qed.

Lemma paired_lines_aux (head : bytes) (n : nat) (pre l : bytes) :
  paired_line_ends head -> (length l <= n)%nat -> head = pre ++ l -> list.last pre <> Some CR ->
  exists ls tl, line_split l ls tl.
Proof.
  intros Hp. revert pre l. induction n as [|n IH]; intros pre l Hn Hh Hlast.
  { destruct l; [|simpl in Hn; lia]. exists [], []. split; [done|]. split; [done|]. unfold clean. set_solver. }
  destruct l as [|b l]; [exists [], []; split; [done|]; split; [done|]; unfold clean; set_solver|].
  assert (Hb : head !! length pre = Some b) by (rewrite Hh, list_lookup_middle; done).
  destruct (Hp _ _ Hb) as [HLF HCR]. destruct (decide (b = LF)) as [->|HnL].
  { destruct (HLF eq_refl) as (j & Hj & Hc). exfalso. apply Hlast.
    rewrite last_lookup, Hj. cbn [pred]. rewrite Hh, lookup_app_l in Hc by lia. done. }
  destruct (decide (b = CR)) as [->|HnC].
  - specialize (HCR eq_refl). rewrite Hh, lookup_app_r in HCR by lia.
    replace (length pre + 1 - length pre)%nat with 1%nat in HCR by lia.
    destruct l as [|c l]; [done|]. cbn in HCR. injection HCR as ->.
    destruct (IH (pre ++ CRLF) l) as (ls & tl & -> & Hls & Htl).
    + simpl in Hn. lia.
    + rewrite Hh. by rewrite <- app_assoc.
    + change CRLF with ([CR] ++ [LF]). rewrite app_assoc, last_snoc. done.
    + exists ([] :: ls), tl. split; [done|]. split; [|done]. constructor; [|done]. unfold clean. set_solver.
  - destruct (IH (pre ++ [b]) l) as (ls & tl & Hl).
    + simpl in Hn. lia.
    + rewrite Hh. by rewrite <- app_assoc.
    + rewrite last_snoc. congruence.
    + destruct (line_split_cons b l ls tl HnC HnL Hl) as (ls' & tl' & H & _). eauto.
Qed.

Lemma paired_lines (head : bytes) : paired_line_ends head -> exists ls tl, line_split head ls tl.
Proof. intros H. by apply (paired_lines_aux head (length head) []). Qed.

(** A head: the status line, the field lines, and the empty line, which comes first. *)
Record response_shape (head status : bytes) (fields : list bytes) : Prop := {
  shape_bytes : head = status ++ CRLF ++ lines_of fields ++ CRLF;
  shape_status : clean status;
  shape_fields : Forall (fun l => l <> [] /\ clean l) fields
}.

Lemma clean_nil : clean [].
Proof. unfold clean. set_solver. Qed.

Lemma clean_last (l : bytes) (b : byte) (k : bytes) : clean l -> b = CR \/ b = LF -> l <> k ++ [b].
Proof. intros [HC HL] Hb ->. destruct Hb as [->| ->]; set_solver. Qed.

Lemma lines_of_app (ls ks : list bytes) : lines_of (ls ++ ks) = lines_of ls ++ lines_of ks.
Proof. unfold lines_of. by rewrite map_app, concat_app. Qed.

Lemma lines_of_snoc (ls : list bytes) (l : bytes) : lines_of (ls ++ [l]) = lines_of ls ++ l ++ CRLF.
Proof. rewrite lines_of_app. unfold lines_of at 2. cbn. by rewrite app_nil_r. Qed.

Lemma lines_of_end (ls : list bytes) : ls <> [] -> exists k, lines_of ls = k ++ CRLF.
Proof.
  destruct ls as [|l ls _] using rev_ind; [done|]. intros _. exists (lines_of ls ++ l).
  by rewrite lines_of_snoc, app_assoc.
Qed.

Lemma app_CRLF_inj (l k : bytes) : l ++ CRLF = k ++ CRLF -> l = k.
Proof. apply app_inv_tail. Qed.

Lemma app_snoc_LF (l k tl : bytes) : clean tl -> l ++ tl = k ++ [LF] -> tl = [].
Proof.
  intros Hc H. destruct tl as [|b tl _] using rev_ind; [done|]. rewrite app_assoc in H.
  apply app_inj_tail in H as [_ ->]. by apply (clean_last _ LF tl) in Hc; [destruct Hc|right].
Qed.

Lemma shape_of_lines (head pre : bytes) (ls : list bytes) (tl : bytes) :
  line_split head ls tl -> head = pre ++ CRLF ++ CRLF ->
  exists status fields, head = status ++ CRLF ++ lines_of fields ++ CRLF /\ clean status /\ Forall clean fields.
Proof.
  intros (Hh & Hls & Htl) He.
  assert (tl = []) as ->.
  { apply (app_snoc_LF (lines_of ls) (pre ++ CRLF ++ [CR])); [done|]. rewrite <- Hh, He. by rewrite <- !app_assoc. }
  rewrite app_nil_r in Hh. destruct ls as [|l ls _] using rev_ind; [by rewrite Hh in He; destruct pre|].
  rewrite lines_of_snoc in Hh. apply Forall_app in Hls as [Hls Hl]. apply Forall_cons in Hl as [Hl _].
  assert (E : lines_of ls ++ l = pre ++ CRLF).
  { apply app_CRLF_inj. by rewrite <- !app_assoc, <- Hh, He. }
  assert (l = []) as ->.
  { apply (app_snoc_LF (lines_of ls) (pre ++ [CR])); [done|]. rewrite E. by rewrite <- app_assoc. }
  rewrite app_nil_r in E. destruct ls as [|status fields]; [by destruct pre|].
  apply Forall_cons in Hls as [Hs Hf]. exists status, fields. split; [|done].
  rewrite Hh. unfold lines_of at 1. cbn [map concat]. fold (lines_of fields). by rewrite <- !app_assoc.
Qed.

Lemma shape_first_end (status : bytes) (fields : list bytes) :
  Forall clean fields ->
  windows_position (CRLF ++ CRLF) (status ++ CRLF ++ lines_of fields ++ CRLF) =
    Some (length (status ++ CRLF ++ lines_of fields ++ CRLF) - 4)%nat ->
  Forall (fun l => l <> [] /\ clean l) fields.
Proof.
  intros Hc Hw. apply Forall_forall. intros l Hin. split; [|by rewrite Forall_forall in Hc; apply Hc].
  intros ->. apply list_elem_of_split in Hin as (f1 & f2 & ->). rewrite lines_of_app in Hw.
  change (lines_of ([] :: f2)) with (CRLF ++ lines_of f2) in Hw.
  assert (Hk : exists k, status ++ CRLF ++ lines_of f1 = k ++ CRLF).
  { destruct (decide (f1 = [])) as [->|Hne].
    - exists status. done.
    - destruct (lines_of_end f1 Hne) as [k ->]. exists (status ++ CRLF ++ k). by rewrite <- !app_assoc. }
  destruct Hk as [k Hk].
  assert (E : status ++ CRLF ++ (lines_of f1 ++ CRLF ++ lines_of f2) ++ CRLF =
              k ++ (CRLF ++ CRLF) ++ lines_of f2 ++ CRLF).
  { rewrite <- (app_assoc (lines_of f1)), (app_assoc CRLF (lines_of f1)), (app_assoc status), Hk.
    by rewrite <- !app_assoc. }
  rewrite E in Hw. apply windows_position_first in Hw. rewrite !length_app in Hw. simpl in Hw. lia.
Qed.

Lemma split_lines_join (ls : list bytes) :
  ls <> [] -> Forall clean ls -> map strip_cr (split_on (byte_eqb LF) (join CRLF ls)) = ls.
Proof.
  intros Hne Hc. induction Hc as [|l ls [HC HL] Hls IH]; [done|].
  assert (Hl : strip_cr l = l).
  { unfold strip_cr. destruct (strip_suffix CR l) as [k|] eqn:E; [|done].
    apply strip_suffix_Some in E as ->. set_solver. }
  assert (HnL : Forall (fun c => byte_eqb LF c = false) l).
  { apply Forall_forall. intros c Hin. apply byte_eqb_neq. by intros <-. }
  destruct (decide (ls = [])) as [->|Hne'].
  - cbn [join]. rewrite split_on_none by done. cbn [map]. by rewrite Hl.
  - rewrite join_cons by done. change (l ++ CRLF ++ join CRLF ls) with (l ++ [CR] ++ [LF] ++ join CRLF ls).
    rewrite app_assoc. cbn [app]. rewrite split_on_app_sep; [|done|].
    + cbn [map]. rewrite IH by done. f_equal. unfold strip_cr. by rewrite strip_suffix_snoc.
    + apply Forall_app. split; [done|]. by constructor.
Qed.

Lemma shape_join (head status : bytes) (fields : list bytes) :
  response_shape head status fields ->
  head = join CRLF (status :: fields) ++ CRLF ++ CRLF /\ head = join CRLF (status :: fields ++ [[]; []]).
Proof.
  intros [-> _ _].
  assert (E : status ++ CRLF ++ lines_of fields = join CRLF (status :: fields) ++ CRLF).
  { rewrite <- concat_crlf by done. cbn [map concat]. by rewrite <- app_assoc. }
  rewrite (app_assoc CRLF), (app_assoc status), E, <- app_assoc. split; [done|].
  assert (J : forall ls l, join CRLF ((l :: ls) ++ [[]; []]) = join CRLF (l :: ls) ++ CRLF ++ CRLF).
  { induction ls as [|k ls IH]; intros l; [done|].
    change ((l :: k :: ls) ++ [[]; []]) with (l :: ((k :: ls) ++ [[]; []])).
    rewrite join_cons by done. rewrite IH, (join_cons _ l (k :: ls)) by done. by rewrite <- !app_assoc. }
  symmetry. apply (J fields status).
Qed.

Lemma shape_all_clean (head status : bytes) (fields : list bytes) :
  response_shape head status fields -> Forall clean (status :: fields).
Proof. intros [_ Hs Hf]. constructor; [done|]. eapply Forall_impl; [exact Hf|]. by intros l []. Qed.

Lemma map_tail {A B : Type} (f : A -> B) (l : list A) : map f (tail l) = tail (map f l).
Proof. by destruct l. Qed.

(** The lines the loops over a head go through. *)
Lemma header_lines_head (head status : bytes) (fields : list bytes) :
  response_shape head status fields -> header_lines head = fields ++ [[]; []].
Proof.
  intros H. pose proof (shape_all_clean _ _ _ H) as Hc. apply shape_join in H as [_ ->]. unfold header_lines.
  rewrite map_tail, split_lines_join; [done|done|].
  change (status :: fields ++ [[]; []]) with ((status :: fields) ++ [[]; []]). apply Forall_app.
  split; [done|]. repeat constructor; apply clean_nil.
Qed.

(** The head without its last four bytes. *)
Definition head_bytes_of (head : bytes) : bytes := take (length head - 4) head.

Lemma header_lines_without_end (head status : bytes) (fields : list bytes) :
  response_shape head status fields -> header_lines (head_bytes_of head) = fields.
Proof.
  intros H. pose proof (shape_all_clean _ _ _ H) as Hc. apply shape_join in H as [-> _].
  unfold head_bytes_of. rewrite take_app_length'; [|rewrite !length_app; simpl; lia].
  unfold header_lines. by rewrite map_tail, split_lines_join.
Qed.

Lemma first_line (head status : bytes) (fields : list bytes) :
  response_shape head status fields ->
  exists rest, split_on (byte_eqb LF) head = (status ++ [CR]) :: rest.
Proof.
  intros [-> [HC HL] _]. change (status ++ CRLF ++ ?x) with (status ++ [CR] ++ LF :: x).
  rewrite app_assoc. eexists. apply split_on_app_sep; [done|].
  apply Forall_app. split; [|by constructor]. apply Forall_forall. intros c Hin. apply byte_eqb_neq. by intros <-.
Qed.

(** A field line of a response: the name, a colon, and the rest. *)
Record response_field (line n v : bytes) : Prop := {
  response_field_line : line = n ++ x3a :: v;
  response_field_name : n <> [] /\ all is_token_byte n = true;
  response_field_value : all is_valid_response_field_value_byte (trim_optional_whitespace v) = true
}.

Lemma split_header_app (n v : bytes) : x3a ∉ n -> split_header (n ++ x3a :: v) = Ok (n, v).
Proof.
  intros Hn. unfold split_header. rewrite position_byte by done. cbn [ok_or res_bind].
  rewrite slice_to_Ok by (rewrite length_app; lia).
  rewrite slice_from_Ok by (rewrite length_app; simpl; lia). cbn [res_bind].
  rewrite Nat.add_1_r, take_app_length, drop_app_ge by lia.
  by rewrite Nat.sub_succ_l, Nat.sub_diag by lia.
Qed.

Lemma split_header_iff (line n v : bytes) : split_header line = Ok (n, v) <-> line = n ++ x3a :: v /\ x3a ∉ n.
Proof.
  split; [|by intros [-> Hn]; apply split_header_app]. intros H. pose proof H as H0. unfold split_header in H0.
  apply res_bind_Ok in H0 as (i & Hi%ok_or_Ok & _). apply position_byte_Some in Hi as (k & w & -> & _ & Hn).
  rewrite split_header_app in H by done. by simplify_eq.
Qed.

Lemma split_header_returns (line : bytes) : returns (split_header line).
Proof.
  unfold split_header. apply res_bind_returns; [apply ok_or_returns|]. intros i Hi%ok_or_Ok%position_lt.
  by rewrite slice_to_Ok, slice_from_Ok by lia.
Qed.

Lemma response_field_split (line n v : bytes) : response_field line n v -> split_header line = Ok (n, v).
Proof. intros [-> [_ Ht] _]. by apply split_header_app, token_not_colon. Qed.

Lemma validate_response_line_iff (line : bytes) :
  line <> [] -> validate_response_line line = Ok tt <-> exists n v, response_field line n v.
Proof.
  intros Hne. unfold validate_response_line. rewrite bool_decide_false by done. split.
  - intros H. case_match; [done|]. apply res_bind_Ok in H as (i & Hi%ok_or_Ok & H).
    apply position_byte_Some in Hi as (n & v & -> & <- & Hn).
    rewrite slice_to_Ok in H by (rewrite length_app; lia).
    rewrite slice_from_Ok in H by (rewrite length_app; simpl; lia). cbn [res_bind] in H.
    rewrite Nat.add_1_r, take_app_length, drop_app_ge in H by lia.
    rewrite Nat.sub_succ_l, Nat.sub_diag, skipn_cons, drop_0 in H by lia.
    destruct (bool_decide (n = [])) eqn:B1; [done|]. destruct (all is_token_byte n) eqn:B2; [|done].
    destruct (all is_valid_response_field_value_byte _) eqn:B3; [|done].
    apply bool_decide_eq_false in B1. by exists n, v.
  - intros (n & v & [-> [Hn Ht] Hv]).
    replace (match n ++ x3a :: v with b :: _ => is_ows b | [] => false end) with false.
    2: { destruct n as [|b n]; [done|]. cbn. cbn in Ht. apply andb_true_iff in Ht as [Ht _]. revert Ht. byte_cases b. }
    rewrite position_byte by (by apply token_not_colon). cbn [ok_or res_bind].
    rewrite slice_to_Ok by (rewrite length_app; lia).
    rewrite slice_from_Ok by (rewrite length_app; simpl; lia). cbn [res_bind].
    rewrite Nat.add_1_r, take_app_length, drop_app_ge by lia.
    rewrite Nat.sub_succ_l, Nat.sub_diag, skipn_cons, drop_0 by lia.
    by rewrite bool_decide_false, Ht, Hv by done.
Qed.

(** What a head that passed the check is. *)
Record valid_response (head status : bytes) (fields : list bytes) (code : Z) : Prop := {
  valid_shape : response_shape head status fields;
  valid_status : all is_valid_response_field_value_byte status = true;
  valid_code : response_status_code head = Ok code;
  valid_fields : Forall (fun l => exists n v, response_field l n v) fields
}.

Lemma res_mapM_unit {E A : Type} (f : A -> res E unit) (l : list A) :
  (exists us, res_mapM f l = Ok us) <-> Forall (fun a => f a = Ok tt) l.
Proof.
  setoid_rewrite res_mapM_Ok. split.
  - intros [us H]. induction H as [|a [] l us Ha _ IH]; by constructor.
  - intros H. exists (map (fun _ => tt) l). induction H; by constructor.
Qed.

Lemma paired_clean_app (l rest : bytes) :
  clean l -> paired_line_ends rest -> paired_line_ends (l ++ CRLF ++ rest).
Proof.
  intros [HC HL] Hr i b Hi.
  destruct (decide (i < length l)%nat) as [Hlt|Hge].
  - rewrite lookup_app_l in Hi by done. apply list_elem_of_lookup_2 in Hi. split; intros ->; done.
  - rewrite lookup_app_r in Hi by lia. rewrite (lookup_app_r l) by lia.
    replace (i + 1 - length l)%nat with (i - length l + 1)%nat by lia.
    remember (i - length l)%nat as k eqn:Hk. destruct k as [|[|k]]; cbn in Hi.
    + injection Hi as <-. done.
    + injection Hi as <-. split; [|done]. intros _. exists (length l). split; [lia|].
      change (CRLF ++ rest) with (CR :: LF :: rest). by rewrite list_lookup_middle.
    + destruct (Hr k b Hi) as [H1 H2]. split; [|done]. intros (j & -> & Hj)%H1.
      exists (length l + 2 + j)%nat. split; [lia|]. rewrite lookup_app_r by lia.
      replace (length l + 2 + j - length l)%nat with (S (S j)) by lia. done.
Qed.

Lemma paired_lines_of (ls : list bytes) (tl : bytes) :
  Forall clean ls -> clean tl -> paired_line_ends (lines_of ls ++ tl).
Proof.
  intros Hls [HC HL]. induction Hls as [|l ls Hl _ IH].
  - intros i b Hi%list_elem_of_lookup_2. split; intros ->; done.
  - change (lines_of (l :: ls)) with ((l ++ CRLF) ++ lines_of ls). rewrite <- !app_assoc. by apply paired_clean_app.
Qed.

Lemma paired_bare (head : bytes) (i : nat) (b : byte) :
  paired_line_ends head -> head !! i = Some b -> bare_line_end head (i, b) = Ok tt.
Proof.
  intros Hp Hi. destruct (Hp i b Hi) as [H1 H2]. unfold bare_line_end.
  destruct (byte_eqb b LF) eqn:EL.
  - apply byte_eqb_eq in EL as ->. destruct (H1 eq_refl) as (j & -> & Hj). cbn [Nat.eqb].
    replace (S j - 1)%nat with j by lia. unfold index. rewrite Hj. done.
  - cbn [res_bind]. destruct (byte_eqb b CR) eqn:EC; [|done]. apply byte_eqb_eq in EC as ->.
    by rewrite bool_decide_true by auto.
Qed.

Lemma imap_pairs_inv {A : Type} (l : list A) (i : nat) (a : A) :
  (i, a) ∈ imap (fun i a => (i, a)) l -> l !! i = Some a.
Proof.
  intros [k Hk]%list_elem_of_lookup. rewrite list_lookup_imap in Hk.
  destruct (l !! k) eqn:E; [|done]. cbn in Hk. by simplify_eq.
Qed.

Lemma bare_check_iff (head : bytes) :
  (exists us, res_mapM (bare_line_end head) (imap (fun i b => (i, b)) head) = Ok us) <-> paired_line_ends head.
Proof.
  split; [intros [us H]; by eapply paired_line_ends_checked|]. intros Hp. apply res_mapM_unit, Forall_forall.
  intros [i b] Hin%imap_pairs_inv. by apply paired_bare.
Qed.

Lemma bare_check_returns (head : bytes) :
  returns (res_mapM (bare_line_end head) (imap (fun i b => (i, b)) head)).
Proof.
  apply res_mapM_returns. intros [i b] Hin%imap_pairs_inv. unfold bare_line_end.
  apply res_bind_returns; [|intros [] _; [done|]; by case_match].
  case_match; [|done]. case_match; [done|]. apply res_bind_returns; [|done].
  apply lookup_lt_Some in Hin. apply index_returns. lia.
Qed.

Lemma response_status_code_returns (head : bytes) : returns (response_status_code head).
Proof.
  unfold response_status_code. apply res_bind_returns; [apply ok_or_returns|]. intros e He%ok_or_Ok.
  assert (e <= length head)%nat.
  { apply windows_position_Some in He as (pre & post & -> & <-). rewrite length_app. lia. }
  rewrite slice_to_Ok by done. cbn [res_bind]. set (sl := take e head).
  apply res_bind_returns; [apply ok_or_returns|]. intros i Hi%ok_or_Ok%position_lt.
  rewrite slice_from_Ok by lia. cbn [res_bind]. apply res_bind_returns; [apply ok_or_returns|].
  intros k Hk%ok_or_Ok%position_lt. rewrite length_drop in Hk.
  rewrite slice_to_Ok, slice_Ok by lia. cbn [res_bind]. generalize (take (i + 1 + k - (i + 1)) (drop (i + 1) sl)) as code. intros code.
  case_match; [done|]. destruct (length code =? 3)%nat eqn:H3; [|done]. apply Nat.eqb_eq in H3.
  destruct (all is_ascii_digit code); [|done]. cbn [negb orb].
  destruct code as [|c0 [|c1 [|c2 []]]]; try done. cbn. by case_match.
Qed.

Lemma validate_response_line_returns (line : bytes) : returns (validate_response_line line).
Proof.
  unfold validate_response_line. case_match; [done|]. case_match; [done|].
  apply res_bind_returns; [apply ok_or_returns|]. intros i Hi%ok_or_Ok%position_lt.
  rewrite slice_to_Ok, slice_from_Ok by lia. cbn [res_bind]. by repeat case_match.
Qed.

(** After the check of the line ends, the status line ends with a CR. *)
Lemma status_line_CR (head pre : bytes) :
  paired_line_ends head -> head = pre ++ CRLF ++ CRLF ->
  exists status fields rest, head = status ++ CRLF ++ lines_of fields ++ CRLF /\ clean status /\
    Forall clean fields /\ split_on (byte_eqb LF) head = (status ++ [CR]) :: rest.
Proof.
  intros (ls & tl & Hl)%paired_lines He.
  destruct (shape_of_lines _ _ _ _ Hl He) as (status & fields & Hh & Hs & Hf).
  exists status, fields. eexists. split_and!; [done|done|done|]. rewrite Hh. destruct Hs as [HC HL].
  change (status ++ CRLF ++ ?x) with (status ++ [CR] ++ LF :: x). rewrite app_assoc.
  apply split_on_app_sep; [done|]. apply Forall_app. split; [|by constructor].
  apply Forall_forall. intros c Hin. apply byte_eqb_neq. by intros <-.
Qed.

Lemma validate_response_head_syntax_returns (head : bytes) : returns (validate_response_head_syntax head).
Proof.
  unfold validate_response_head_syntax. destruct (ends_with _ head) eqn:He; [|done]. cbn [negb].
  apply ends_with_true in He as [pre He]. apply res_bind_returns; [apply bare_check_returns|].
  intros us Hus. apply res_bind_returns; [apply response_status_code_returns|]. intros code _.
  assert (Hp : paired_line_ends head) by (apply bare_check_iff; eauto).
  destruct (status_line_CR _ _ Hp He) as (st & fs & rest & _ & _ & _ & ->).
  rewrite strip_suffix_snoc. change (byte_eqb CR CR) with true. cbn [expect res_bind].
  case_match; [done|]. apply res_bind_returns; [|done]. apply res_mapM_returns.
  intros l _. apply validate_response_line_returns.
Qed.

Lemma validate_sound (head : bytes) (u : unit) :
  validate_response_head_syntax head = Ok u ->
  windows_position (CRLF ++ CRLF) head = Some (length head - 4)%nat ->
  exists status fields code, valid_response head status fields code.
Proof.
  intros H Hw. unfold validate_response_head_syntax in H.
  destruct (ends_with _ head) eqn:He; [|done]. cbn [negb] in H. apply ends_with_true in He as [pre He].
  apply res_bind_Ok in H as (us & Hus & H). apply res_bind_Ok in H as (code & Hcode & H).
  assert (Hp : paired_line_ends head) by (apply bare_check_iff; eauto).
  destruct (status_line_CR _ _ Hp He) as (st & fs & rest & Hh & Hs & Hf & Hsp).
  assert (Hshape : response_shape head st fs).
  { split; [done|done|]. apply (shape_first_end st); [done|]. by rewrite <- Hh. }
  rewrite Hsp, strip_suffix_snoc in H. change (byte_eqb CR CR) with true in H. cbn [expect res_bind] in H.
  destruct (all is_valid_response_field_value_byte st) eqn:Hst; [|done]. cbn [negb] in H.
  apply res_bind_Ok in H as (vs & Hvs & _).
  exists st, fs, code. split; [done|done|done|].
  assert (Hl : Forall (fun l => validate_response_line l = Ok tt) (header_lines head)) by (apply res_mapM_unit; eauto).
  rewrite (header_lines_head _ _ _ Hshape) in Hl. apply Forall_app in Hl as [Hl _].
  destruct Hshape as [_ _ Hne]. rewrite Forall_forall in Hl, Hne. apply Forall_forall. intros l Hin.
  apply validate_response_line_iff; [|by apply Hl]. by apply Hne.
Qed.

Lemma validate_complete (head status : bytes) (fields : list bytes) (code : Z) :
  valid_response head status fields code -> validate_response_head_syntax head = Ok tt.
Proof.
  intros [Hsh Hst Hcode Hf]. unfold validate_response_head_syntax.
  rewrite (proj2 (ends_with_true _ _)).
  2: { destruct (shape_join _ _ _ Hsh) as [-> _]. eexists. done. }
  cbn [negb]. assert (Hp : paired_line_ends head).
  { pose proof (shape_all_clean _ _ _ Hsh) as Hc. destruct Hsh as [-> _ _].
    replace (status ++ CRLF ++ lines_of fields ++ CRLF) with (lines_of (status :: fields ++ [[]]) ++ []).
    - apply paired_lines_of; [|apply clean_nil]. rewrite app_comm_cons. apply Forall_app.
      split; [done|]. repeat constructor; apply clean_nil.
    - rewrite app_comm_cons, lines_of_snoc, app_nil_r. change (lines_of (status :: fields)) with ((status ++ CRLF) ++ lines_of fields).
      by rewrite <- !app_assoc. }
  apply bare_check_iff in Hp as [us ->]. cbn [res_bind]. rewrite Hcode. cbn [res_bind].
  destruct (first_line _ _ _ Hsh) as [rest ->]. rewrite strip_suffix_snoc.
  change (byte_eqb CR CR) with true. cbn [expect res_bind]. rewrite Hst. cbn [negb].
  rewrite (header_lines_head _ _ _ Hsh).
  assert (Hl : Forall (fun l => validate_response_line l = Ok tt) (fields ++ [[]; []])).
  { apply Forall_app. split; [|by repeat constructor]. destruct Hsh as [_ _ Hne].
    rewrite Forall_forall in Hf, Hne |- *. intros l Hin. apply validate_response_line_iff; [|by apply Hf].
    by apply Hne. }
  apply res_mapM_unit in Hl as [vs ->]. done.
Qed.

(** ** Sanitised response heads *)

(** The name of a field line. *)
Definition field_name (line : bytes) : bytes :=
  match split_header line with
  | Ok (n, _) => n
  | _ => []
  end.

Definition kept (tokens : list bytes) (preserve_trailer preserve_upgrade : bool) (line : bytes) : bool :=
  negb (should_remove_response_header (field_name line) tokens preserve_trailer preserve_upgrade).

(** The fields that concern the client and the upstream, and not the connection between them (RFC 9110,
    7.6.1): none of the hop-by-hop names, none that Connection names, and Trailer and Upgrade only when
    they are kept on purpose. *)
Definition end_to_end_field (tokens : list bytes) (preserve_trailer preserve_upgrade : bool) (name : bytes) : Prop :=
  (lowercase name ∉ [str "connection"; str "keep-alive"; str "proxy-connection"; str "te"]) /\
  (lowercase name = str "trailer" -> preserve_trailer = true) /\
  (lowercase name = str "upgrade" -> preserve_upgrade = true) /\
  (forall token, token ∈ tokens -> lowercase token = lowercase name ->
     preserve_upgrade = true /\ lowercase name = str "upgrade").

Lemma bool_none_iff (b : bool) : b = false <-> ~ b = true.
Proof. by destruct b. Qed.

Lemma kept_iff (tokens : list bytes) (pt pu : bool) (line : bytes) :
  kept tokens pt pu line = true <-> end_to_end_field tokens pt pu (field_name line).
Proof.
  unfold kept, should_remove_response_header, end_to_end_field. generalize (field_name line). intros n.
  rewrite negb_true_iff, !orb_false_iff.
  assert (H1 : existsb (eq_ignore_ascii_case n) [str "connection"; str "keep-alive"; str "proxy-connection"; str "te"] = false <->
               (lowercase n ∉ [str "connection"; str "keep-alive"; str "proxy-connection"; str "te"])).
  { rewrite bool_none_iff. cbn [existsb]. rewrite !orb_true_iff, !eq_ignore_ascii_case_true, !not_elem_of_cons.
    change (lowercase (str "connection")) with (str "connection"). change (lowercase (str "keep-alive")) with (str "keep-alive").
    change (lowercase (str "proxy-connection")) with (str "proxy-connection"). change (lowercase (str "te")) with (str "te").
    pose proof (not_elem_of_nil (lowercase n)). naive_solver. }
  assert (H2 : forall (k : bytes) (b : bool), lowercase k = k ->
               eq_ignore_ascii_case n k && negb b = false <-> (lowercase n = k -> b = true)).
  { intros k b Hk. rewrite bool_none_iff, andb_true_iff, eq_ignore_ascii_case_true, Hk. by destruct b; naive_solver. }
  rewrite H1, !H2 by done. rewrite bool_none_iff, existsb_exists.
  assert (H3 : forall token, (eq_ignore_ascii_case n token
               && negb (pu && eq_ignore_ascii_case n (str "upgrade") && eq_ignore_ascii_case token (str "upgrade"))) = true <->
               lowercase token = lowercase n /\ ~ (pu = true /\ lowercase n = str "upgrade")).
  { intros token. rewrite andb_true_iff, negb_true_iff, bool_none_iff, !andb_true_iff, !eq_ignore_ascii_case_true.
    change (lowercase (str "upgrade")) with (str "upgrade"). naive_solver congruence. }
  setoid_rewrite H3. setoid_rewrite <- list_elem_of_In.
  assert (Hd : pu = true /\ lowercase n = str "upgrade" \/ ~ (pu = true /\ lowercase n = str "upgrade")) by (destruct pu; [destruct (decide (lowercase n = str "upgrade"))|]; naive_solver).
  split; [intros [[[Ha Hb] Hc] H]|intros (Ha & Hb & Hc & H)]; split_and!; try done.
  - intros token Ht E. destruct Hd as [Hd|Hd]; [done|]. destruct H. by exists token.
  - intros (token & Ht & E & Hn). by apply Hn, (H token).
Qed.

Lemma sanitize_line_Ok (tokens : list bytes) (pt pu : bool) (output line out : bytes) :
  line <> [] -> sanitize_line tokens pt pu output line = Ok out ->
  out = if kept tokens pt pu line then output ++ line ++ CRLF else output.
Proof.
  intros Hne. unfold sanitize_line, kept, field_name. rewrite bool_decide_false by done.
  destruct (split_header line) as [[n v]| | |]; try done. cbn [res_bind].
  destruct (should_remove_response_header n tokens pt pu); cbn [negb]; [by intros [= <-]|].
  rewrite res_bind_Ok. by intros (u & _ & [= <-]).
Qed.

Lemma sanitize_fold (tokens : list bytes) (pt pu : bool) (fields : list bytes) (acc out : bytes) :
  Forall (fun l => l <> []) fields ->
  res_foldM (sanitize_line tokens pt pu) acc (fields ++ [[]; []]) = Ok out ->
  out = acc ++ lines_of (filter (fun l => kept tokens pt pu l = true) fields).
Proof.
  intros Hne. revert acc. induction Hne as [|l ls Hl _ IH]; intros acc.
  - intros [= <-]. unfold lines_of. cbn. by rewrite app_nil_r.
  - cbn [app res_foldM]. rewrite res_bind_Ok. intros (o & Ho & H). apply sanitize_line_Ok in Ho; [|done].
    apply IH in H as ->. rewrite filter_cons. destruct (kept tokens pt pu l); subst o.
    + rewrite decide_True by done.
      change (lines_of (l :: ?x)) with ((l ++ CRLF) ++ lines_of x). by rewrite <- !app_assoc.
    + by rewrite decide_False.
Qed.

Definition connection_line (c : option bytes) : list bytes :=
  match c with
  | Some c => [str "Connection: " ++ c]
  | None => []
  end.

Lemma sanitize_inv (head status out : bytes) (fields : list bytes) (c : option bytes) (pt pu : bool) :
  response_shape head status fields -> sanitize_response_head head c pt pu = Ok out ->
  exists tokens, response_connection_tokens head = Ok tokens /\
    out = status ++ CRLF
          ++ lines_of (filter (fun l => kept tokens pt pu l = true) fields ++ connection_line c) ++ CRLF.
Proof.
  intros Hsh. unfold sanitize_response_head. rewrite res_bind_Ok. intros (tokens & Htok & H).
  exists tokens. split; [done|]. destruct (first_line _ _ _ Hsh) as [rest E]. rewrite E in H.
  apply res_bind_Ok in H as (o & Ho & [= <-]). rewrite (header_lines_head _ _ _ Hsh) in Ho.
  apply sanitize_fold in Ho.
  2: { destruct Hsh as [_ _ Hf]. eapply Forall_impl; [exact Hf|]. by intros l []. }
  unfold strip_cr in Ho. rewrite strip_suffix_snoc in Ho. change (byte_eqb CR CR) with true in Ho. subst o.
  rewrite lines_of_app, <- !app_assoc. do 3 f_equal. destruct c; [|done]. unfold lines_of. cbn [connection_line map concat].
  rewrite app_nil_r. by f_equal.
Qed.

(** The tokens of Connection never name a framing field. *)
Definition framing_name (n : bytes) : bool :=
  eq_ignore_ascii_case n (str "content-length") || eq_ignore_ascii_case n (str "transfer-encoding").

Lemma eq_ignore_lowercase (l k : bytes) : eq_ignore_ascii_case (lowercase l) k = eq_ignore_ascii_case l k.
Proof. unfold eq_ignore_ascii_case. by rewrite lowercase_idem. Qed.

Lemma connection_token_not_framing (token t : bytes) : connection_token token = Ok t -> framing_name t = false.
Proof.
  unfold connection_token, framing_name. case_match; [done|]. case_match eqn:E; [done|]. intros [= <-].
  by rewrite !eq_ignore_lowercase.
Qed.

Lemma connection_tokens_not_framing (ls : list bytes) (acc tokens : list bytes) :
  Forall (fun t => framing_name t = false) acc ->
  res_foldM connection_tokens_line acc ls = Ok tokens -> Forall (fun t => framing_name t = false) tokens.
Proof.
  revert acc. induction ls as [|l ls IH]; intros acc Hacc; cbn [res_foldM]; [by intros [= <-]|].
  rewrite res_bind_Ok. intros (acc' & H & Hr). eapply IH; [|exact Hr]. unfold connection_tokens_line in H.
  case_match; [by simplify_eq|]. apply res_bind_Ok in H as ([n v] & _ & H). case_match; [by simplify_eq|].
  apply res_bind_Ok in H as (new & Hnew%res_mapM_Ok & [= <-]). apply Forall_app. split; [done|].
  clear -Hnew. induction Hnew; constructor; [by eapply connection_token_not_framing|done].
Qed.

Lemma removed_not_framing (n : bytes) (tokens : list bytes) (pt pu : bool) :
  Forall (fun t => framing_name t = false) tokens ->
  should_remove_response_header n tokens pt pu = true -> framing_name n = false.
Proof.
  intros Ht H. destruct (framing_name n) eqn:Hn; [|done]. exfalso.
  assert (Hk : forall k, framing_name k = false -> eq_ignore_ascii_case n k = false).
  { intros k Hf. destruct (eq_ignore_ascii_case n k) eqn:E; [|done]. unfold framing_name in Hn, Hf.
    by rewrite (eq_ignore_ascii_case_congr n k _ E), (eq_ignore_ascii_case_congr n k _ E), Hf in Hn. }
  unfold should_remove_response_header in H. cbn [existsb] in H.
  rewrite (Hk (str "connection")), (Hk (str "keep-alive")), (Hk (str "proxy-connection")), (Hk (str "te")),
    (Hk (str "trailer")), (Hk (str "upgrade")) in H by (vm_compute; reflexivity). cbn [andb orb] in H.
  apply existsb_exists in H as (t & Hin & Hm). rewrite Forall_forall in Ht.
  by rewrite Hk in Hm by (by apply Ht, list_elem_of_In).
Qed.

(** Lines that say nothing about the framing can be added and left out. *)
Definition framing_line (line : bytes) : Prop := exists n v, split_header line = Ok (n, v) /\ framing_name n = true.

Definition other_line (line : bytes) : Prop := exists n v, split_header line = Ok (n, v) /\ framing_name n = false.

Lemma other_line_skip (line : bytes) (o : option Z) (cs : list bytes) :
  other_line line -> response_content_length_line o line = Ok o /\ transfer_framing_line cs line = Ok cs.
Proof.
  intros (n & v & E & Hn). unfold framing_name in Hn. apply orb_false_iff in Hn as [Hc Ht].
  unfold response_content_length_line, transfer_framing_line. rewrite E. cbn [res_bind]. by rewrite Hc, Ht.
Qed.

Lemma fold_filter {S : Type} (f : S -> bytes -> res ProxyError S) (p : bytes -> bool) (ls : list bytes) (s : S) :
  Forall (fun l => p l = false -> forall s, f s l = Ok s) ls ->
  res_foldM f s (filter (fun l => p l = true) ls) = res_foldM f s ls.
Proof.
  intros H. revert s. induction H as [|l ls Hl _ IH]; intros s; [done|]. rewrite filter_cons.
  destruct (p l) eqn:Hp.
  - rewrite decide_True by done. cbn [res_foldM]. by destruct (f s l); cbn [res_bind].
  - rewrite decide_False by done. cbn [res_foldM]. rewrite Hl by done. cbn [res_bind]. apply IH.
Qed.

Lemma filter_sublist {A : Type} (p : A -> bool) (l : list A) (Q : A -> Prop) :
  Forall Q l -> Forall Q (filter (fun a => p a = true) l).
Proof. rewrite !Forall_forall. intros H a [_ Hin]%list_elem_of_filter. by apply H. Qed.

Lemma response_field_other (line n v : bytes) :
  response_field line n v -> framing_name n = false -> other_line line.
Proof. intros H Hn. exists n, v. split; [by apply response_field_split|done]. Qed.

(** A header the proxy adds itself. *)
Definition valid_connection (c : option bytes) : Prop :=
  match c with
  | Some c => all is_valid_response_field_value_byte c = true
  | None => True
  end.

Lemma value_bytes_clean (v : bytes) : all is_valid_response_field_value_byte v = true -> clean v.
Proof. intros H. split; by apply (all_not_elem _ _ _ H). Qed.

Lemma trim_value_bytes (p : byte -> bool) (v : bytes) :
  all p v = true -> all p (trim_optional_whitespace v) = true.
Proof.
  destruct (trim_matches_sound is_ows v) as (pre & post & E & _ & _). intros H. rewrite E, !all_app in H.
  rewrite trim_optional_whitespace_eq. by apply andb_true_iff in H as [_ [H _]%andb_true_iff].
Qed.

Lemma connection_line_field (c : bytes) :
  all is_valid_response_field_value_byte c = true ->
  response_field (str "Connection: " ++ c) (str "Connection") (SP :: c).
Proof. intros Hc. split; [done|done|]. apply trim_value_bytes. cbn. exact Hc. Qed.

Lemma connection_line_ok (c : option bytes) :
  valid_connection c ->
  Forall (fun l => (l <> [] /\ clean l) /\ other_line l /\ exists n v, response_field l n v) (connection_line c).
Proof.
  destruct c as [c|]; cbn [connection_line]; [|constructor]. intros Hc. constructor; [|constructor].
  pose proof (connection_line_field c Hc) as Hf. split_and!; [done| | |by eauto].
  - apply value_bytes_clean. rewrite all_app. by rewrite Hc.
  - eapply response_field_other; [done|]. vm_compute. reflexivity.
Qed.

Lemma status_code_first_line (status rest rest' : bytes) :
  CR ∉ status -> response_status_code (status ++ CRLF ++ rest) = response_status_code (status ++ CRLF ++ rest').
Proof.
  intros Hs. unfold response_status_code. rewrite !windows_position_CRLF by done. cbn [ok_or res_bind].
  rewrite !slice_to_Ok by (rewrite length_app; lia). by rewrite !take_app_length.
Qed.

Lemma sanitize_valid (head status out : bytes) (fields : list bytes) (code : Z) (c : option bytes) (pt pu : bool) :
  valid_response head status fields code -> valid_connection c -> sanitize_response_head head c pt pu = Ok out ->
  exists tokens, response_connection_tokens head = Ok tokens /\
    let lines := filter (fun l => kept tokens pt pu l = true) fields ++ connection_line c in
    valid_response out status lines code /\
    response_content_length (head_bytes_of out) = response_content_length (head_bytes_of head) /\
    response_transfer_framing (head_bytes_of out) = response_transfer_framing (head_bytes_of head).
Proof.
  intros [Hsh Hst Hcode Hf] Hc Hs. destruct (sanitize_inv _ _ _ _ _ _ _ Hsh Hs) as (tokens & Htok & Hout).
  exists tokens. split; [done|]. intros lines. pose proof (connection_line_ok c Hc) as Hcl.
  assert (Hsh' : response_shape out status lines).
  { destruct Hsh as [_ Hcs Hcf]. split; [done|done|]. apply Forall_app. split; [by apply filter_sublist|].
    eapply Forall_impl; [exact Hcl|]. by intros l []. }
  assert (Htf : Forall (fun t => framing_name t = false) tokens)
    by (eapply connection_tokens_not_framing; [|exact Htok]; done).
  assert (Hskip : Forall (fun l => kept tokens pt pu l = false -> other_line l) fields).
  { eapply Forall_impl; [exact Hf|]. cbn beta. intros l (n & v & Hl) Hk. eapply response_field_other; [done|].
    unfold kept, field_name in Hk. rewrite (response_field_split _ _ _ Hl) in Hk. apply negb_false_iff in Hk.
    by eapply removed_not_framing. }
  assert (Hfold : forall S (f : S -> bytes -> res ProxyError S) s,
    (forall l, other_line l -> forall s, f s l = Ok s) -> res_foldM f s lines = res_foldM f s fields).
  { intros S f s Hskipf. unfold lines. rewrite res_foldM_app, fold_filter.
    - destruct (res_foldM f s fields) as [s'| | |]; cbn [res_bind]; try done.
      destruct c as [c|]; [|done]. cbn [connection_line] in *. apply Forall_cons in Hcl as [(_ & Ho & _) _].
      cbn [res_foldM]. by rewrite Hskipf.
    - eapply Forall_impl; [exact Hskip|]. cbn beta. intros l Hl Hk. by apply Hskipf, Hl. }
  split; [|split].
  - split; [done|done| |].
    + rewrite <- Hcode, Hout. destruct Hsh as [-> [HC _] _]. by apply status_code_first_line.
    + apply Forall_app. split; [by apply filter_sublist|]. eapply Forall_impl; [exact Hcl|]. by intros l (_ & _ & ?).
  - unfold response_content_length. rewrite (header_lines_without_end _ _ _ Hsh), (header_lines_without_end _ _ _ Hsh').
    apply Hfold. intros l Hl s. by apply (other_line_skip l s []).
  - unfold response_transfer_framing. rewrite (header_lines_without_end _ _ _ Hsh), (header_lines_without_end _ _ _ Hsh').
    rewrite Hfold; [done|]. intros l Hl s. by apply (other_line_skip l None s).
Qed.

(** ** The functions on heads return *)
Lemma map_err_returns {E F A : Type} (f : E -> F) (m : res E A) : returns m -> returns (map_err f m).
Proof. by destruct m. Qed.

Lemma connection_tokens_returns (head : bytes) : returns (response_connection_tokens head).
Proof.
  apply res_foldM_returns. intros s l _. unfold connection_tokens_line. case_match; [done|].
  apply res_bind_returns; [apply split_header_returns|]. intros [n v] _. case_match; [done|].
  apply res_bind_returns; [|done]. apply res_mapM_returns. intros t _. unfold connection_token. by repeat case_match.
Qed.

Lemma validate_trailer_header_value_returns (v : bytes) : returns (validate_trailer_header_value v).
Proof.
  unfold validate_trailer_header_value. apply res_bind_returns; [|intros n _; by case_match].
  apply res_foldM_returns. intros s t _. unfold trailer_field_name. by repeat case_match.
Qed.

Lemma sanitize_returns (head : bytes) (c : option bytes) (pt pu : bool) :
  returns (sanitize_response_head head c pt pu).
Proof.
  unfold sanitize_response_head. apply res_bind_returns; [apply connection_tokens_returns|]. intros tokens _.
  case_match; [done|]. apply res_bind_returns; [|done]. apply res_foldM_returns. intros s line _.
  unfold sanitize_line. case_match; [done|]. apply res_bind_returns; [apply split_header_returns|].
  intros [n v] _. case_match; [done|]. apply res_bind_returns; [|done]. case_match; [|done].
  apply map_err_returns, validate_trailer_header_value_returns.
Qed.

Lemma response_content_length_returns (headers : bytes) : returns (response_content_length headers).
Proof.
  apply res_foldM_returns. intros s l _. unfold response_content_length_line.
  apply res_bind_returns; [apply split_header_returns|]. intros [n v] _. repeat (case_match; [done|]).
  apply res_bind_returns; [apply ok_or_returns|done].
Qed.

Lemma response_transfer_framing_returns (headers : bytes) : returns (response_transfer_framing headers).
Proof.
  unfold response_transfer_framing. apply res_bind_returns.
  - apply res_foldM_returns. intros s l _. unfold transfer_framing_line.
    apply res_bind_returns; [apply split_header_returns|]. intros [n v] _. case_match; [done|].
    apply res_bind_returns; [|done]. apply res_mapM_returns. intros t _. unfold response_coding. by repeat case_match.
  - intros codings _. case_match; [done|]. apply res_bind_returns; [|done].
    apply res_foldM_returns. intros s [i t] _. unfold chunked_position. by repeat case_match.
Qed.

Lemma parse_upgrade_protocol_returns (p : bytes) : returns (parse_upgrade_protocol p).
Proof.
  unfold parse_upgrade_protocol. case_match; [done|]. destruct (position _ _) as [i|] eqn:Hi; [|by case_match].
  apply position_lt in Hi. rewrite slice_to_Ok, slice_from_Ok by lia. cbn [res_bind]. by case_match.
Qed.

Lemma parse_upgrade_protocols_returns (v : bytes) : returns (parse_upgrade_protocols v).
Proof.
  unfold parse_upgrade_protocols. apply res_bind_returns; [|intros; by case_match].
  apply res_mapM_returns. intros p _. apply parse_upgrade_protocol_returns.
Qed.

Lemma request_upgrade_protocols_returns (r : Request) : returns (request_upgrade_protocols r).
Proof.
  unfold request_upgrade_protocols. apply res_bind_returns.
  - apply res_mapM_returns. intros h _. apply map_err_returns, parse_upgrade_protocols_returns.
  - intros ls _. by repeat case_match.
Qed.

Lemma split_upgrade_protocol_returns {E : Type} (p : bytes) : returns (split_upgrade_protocol p : res E _).
Proof.
  unfold split_upgrade_protocol. destruct (position _ _) as [i|] eqn:Hi; [|done].
  apply position_lt in Hi. by rewrite slice_to_Ok, slice_from_Ok by lia.
Qed.

Lemma upgrade_protocols_match_returns {E : Type} (l r : bytes) : returns (upgrade_protocols_match l r : res E _).
Proof.
  unfold upgrade_protocols_match. apply res_bind_returns; [apply split_upgrade_protocol_returns|].
  intros [ln lv] _. apply res_bind_returns; [apply split_upgrade_protocol_returns|]. by intros [rn rv] _.
Qed.

Lemma res_any_returns {E A : Type} (f : A -> res E bool) (l : list A) :
  (forall a, returns (f a)) -> returns (res_any f l).
Proof.
  intros Hf. induction l as [|a l IH]; cbn [res_any]; [done|].
  apply res_bind_returns; [done|]. by intros [] _.
Qed.

Lemma switching_protocols_returns (head : bytes) (ps : list bytes) :
  returns (validate_switching_protocols_response head ps).
Proof.
  unfold validate_switching_protocols_response. case_match; [done|]. apply res_bind_returns.
  - apply res_foldM_returns. intros s l _. unfold response_upgrade_line. case_match; [done|].
    apply res_bind_returns; [apply split_header_returns|]. intros [n v] _. case_match; [done|].
    apply res_bind_returns; [|done]. apply map_err_returns, parse_upgrade_protocols_returns.
  - intros sel _. case_match; [done|]. apply res_bind_returns; [|done]. apply res_mapM_returns. intros p _.
    apply res_bind_returns; [|by intros [] _]. apply res_any_returns. intros a. apply upgrade_protocols_match_returns.
Qed.

Lemma trailer_headers_returns (r : Request) : returns (trailer_headers r).
Proof.
  unfold trailer_headers. case_match; [done|]. apply res_bind_returns; [|done]. apply res_mapM_returns. intros h _.
  apply res_bind_returns; [|done]. apply map_err_returns, validate_trailer_header_value_returns.
Qed.

Lemma serialize_request_head_returns (r : Request) (ip : IpAddr) (p : ForwardedProto) :
  returns (serialize_request_head r ip p).
Proof.
  unfold serialize_request_head. destruct (host_iff r) as (o & -> & _).
  apply res_bind_returns; [by destruct o|]. intros h _.
  apply res_bind_returns; [apply request_upgrade_protocols_returns|]. intros ps _. cbn zeta.
  apply res_bind_returns; [|done]. case_match; [|done].
  apply res_bind_returns; [apply trailer_headers_returns|done].
Qed.

(** ** The forwarded request head *)
Definition end_to_end (r : Request) : list Header :=
  filter (fun h => should_replace_header r (name h) = false) (headers r).

Definition trailer_fields (r : Request) : list Header :=
  if named_by_connection_header r (str "trailer") then []
  else map (fun h => mkHeader (str "Trailer") (value h)) (named_headers (str "trailer") (headers r)).

Definition connection_fields (accepts_trailers : bool) (ups : option (list bytes)) : list Header :=
  (if accepts_trailers then [mkHeader (str "TE") (str "trailers")] else [])
  ++ match ups with
     | Some ps => [mkHeader (str "Upgrade") (join (str ", ") ps)]
     | None => []
     end
  ++ match accepts_trailers, ups with
     | true, Some _ => [mkHeader (str "Connection") (str "TE, Upgrade")]
     | true, None => [mkHeader (str "Connection") (str "TE")]
     | false, Some _ => [mkHeader (str "Connection") (str "Upgrade")]
     | false, None => []
     end.

Definition forwarding_fields (h : bytes) (ip : IpAddr) (p : ForwardedProto) : list Header :=
  [mkHeader (str "X-Forwarded-For") (ip_to_string ip);
   mkHeader (str "X-Forwarded-Host") h;
   mkHeader (str "X-Forwarded-Proto") (as_bytes p)].

(** The header fields of the request the upstream gets. *)
Definition forwarded_fields (r : Request) (h : bytes) (ups : option (list bytes)) (ip : IpAddr)
    (p : ForwardedProto) : list Header :=
  end_to_end r
  ++ [mkHeader (str "Host") h]
  ++ match content_length r with Some n => [content_length_field n] | None => [] end
  ++ (if has_transfer_encoding r
      then mkHeader (str "Transfer-Encoding") (str "chunked") :: trailer_fields r else [])
  ++ connection_fields (request_accepts_trailers r) ups
  ++ forwarding_fields h ip p.

Lemma trailer_headers_Ok (r : Request) (out : bytes) :
  trailer_headers r = Ok out -> out = concat (map serialize_header (trailer_fields r)).
Proof.
  unfold trailer_headers, trailer_fields. fold (named_headers (str "trailer") (headers r)).
  destruct (named_by_connection_header r (str "trailer")); [by intros [= <-]|].
  rewrite res_bind_Ok. intros (parts & Hp%res_mapM_Ok & [= <-]).
  induction Hp as [|h part hs parts Hh _ IH]; [done|]. cbn [map concat]. rewrite IH. f_equal.
  apply res_bind_Ok in Hh as (u & _ & Hh). by injection Hh as <-.
Qed.

Lemma serialize_header_literal (n v : bytes) (k : bytes) :
  k = n ++ str ": " -> serialize_header (mkHeader n v) = k ++ v ++ CRLF.
Proof. intros ->. unfold serialize_header. cbn [name value]. by rewrite <- app_assoc. Qed.

Lemma connection_fields_bytes (t : bool) (ups : option (list bytes)) :
  concat (map serialize_header (connection_fields t ups)) =
  (if t then str "TE: trailers" ++ CRLF else [])
  ++ match ups with
     | Some protocols => str "Upgrade: " ++ join (str ", ") protocols ++ CRLF
     | None => []
     end
  ++ match t, ups with
     | true, Some _ => str "Connection: TE, Upgrade" ++ CRLF
     | true, None => str "Connection: TE" ++ CRLF
     | false, Some _ => str "Connection: Upgrade" ++ CRLF
     | false, None => []
     end.
Proof.
  unfold connection_fields. rewrite !map_app, !concat_app. f_equal; [by destruct t|].
  f_equal; [|by destruct t, ups]. destruct ups as [ps|]; [|done]. cbn [map concat].
  rewrite app_nil_r. by apply serialize_header_literal.
Qed.

Lemma concat_single (h : Header) : concat (map serialize_header [h]) = serialize_header h.
Proof. cbn [map concat]. apply app_nil_r. Qed.

Lemma forwarding_fields_bytes (h : bytes) (ip : IpAddr) (p : ForwardedProto) :
  concat (map serialize_header (forwarding_fields h ip p)) =
  str "X-Forwarded-For: " ++ ip_to_string ip ++ CRLF
  ++ str "X-Forwarded-Host: " ++ h ++ CRLF
  ++ str "X-Forwarded-Proto: " ++ as_bytes p ++ CRLF.
Proof.
  unfold forwarding_fields. cbn [map concat].
  rewrite (serialize_header_literal (str "X-Forwarded-For") _ (str "X-Forwarded-For: ") eq_refl),
    (serialize_header_literal (str "X-Forwarded-Host") _ (str "X-Forwarded-Host: ") eq_refl),
    (serialize_header_literal (str "X-Forwarded-Proto") _ (str "X-Forwarded-Proto: ") eq_refl).
  by rewrite app_nil_r, <- !app_assoc.
Qed.

Lemma serialize_request_inv (r : Request) (ip : IpAddr) (p : ForwardedProto) (out : bytes) :
  serialize_request_head r ip p = Ok out ->
  exists h ups, host r = Ok (Some h) /\ request_upgrade_protocols r = Ok ups /\
    (has_transfer_encoding r = true -> returns (trailer_headers r)) /\
    out = request_line (method r) (target r) ++ CRLF
          ++ lines_of (map field_line (forwarded_fields r h ups ip p)) ++ CRLF.
Proof.
  unfold serialize_request_head. rewrite res_bind_Ok. intros (h & Hh & H).
  destruct (host r) as [[h'|]|[]| |]; try done. injection Hh as ->.
  apply res_bind_Ok in H as (ups & Hups & H). cbn zeta in H. apply res_bind_Ok in H as (fr & Hfr & H).
  apply Ok_inj in H as <-. exists h, ups. split_and!; [done|done|intros; apply trailer_headers_returns|].
  unfold lines_of. rewrite <- concat_serialize. unfold forwarded_fields, end_to_end.
  rewrite !map_app, !concat_app, concat_single, connection_fields_bytes, forwarding_fields_bytes.
  rewrite (serialize_header_literal (str "Host") _ (str "Host: ") eq_refl).
  assert (Ecl : concat (map serialize_header (match content_length r with Some n => [content_length_field n] | None => [] end)) =
    match content_length r with Some n => str "Content-Length: " ++ to_dec n ++ CRLF | None => [] end).
  { destruct (content_length r); [|done]. rewrite concat_single. by apply serialize_header_literal. }
  assert (Efr : concat (map serialize_header (if has_transfer_encoding r
      then mkHeader (str "Transfer-Encoding") (str "chunked") :: trailer_fields r else [])) = fr).
  { destruct (has_transfer_encoding r); [|by injection Hfr as <-].
    apply res_bind_Ok in Hfr as (t & Ht & [= <-]). by rewrite (trailer_headers_Ok _ _ Ht). }
  rewrite Ecl, Efr. unfold request_line. rewrite <- !app_assoc. reflexivity.
Qed.

(** The header fields of an accepted request. *)
Definition parsed_fields (hs : list Header) : Prop := Forall (fun h => valid_field h /\ trimmed_field h = h) hs.

Lemma header_line_parsed (line : bytes) (h : Header) : header_line line h -> valid_field h /\ trimmed_field h = h.
Proof.
  intros [_ [Hn Ht] [Hv Htr]]. split; [done|]. unfold trimmed_field.
  rewrite trim_optional_whitespace_eq, trim_matches_id by done. by destruct h.
Qed.

Lemma request_head_parsed (r : Request) (head : bytes) : request_head r head -> parsed_fields (headers r).
Proof.
  intros [(lines & _ & Hl & _) _ _ _ _ _ _ _ _ _]. unfold parsed_fields.
  induction Hl; constructor; [by eapply header_line_parsed|done].
Qed.

Lemma named_headers_app (n : bytes) (hs ks : list Header) :
  named_headers n (hs ++ ks) = named_headers n hs ++ named_headers n ks.
Proof. apply filter_app. Qed.

Lemma named_headers_none (n : bytes) (hs : list Header) :
  Forall (fun h => named n h = false) hs -> named_headers n hs = [].
Proof.
  unfold named_headers. induction 1 as [|h hs Hh _ IH]; [done|]. by rewrite filter_cons, decide_False by congruence.
Qed.

Lemma named_congr (n k : bytes) (h : Header) : eq_ignore_ascii_case n k = true -> named n h = named k h.
Proof.
  intros H. unfold named. rewrite eq_ignore_ascii_case_sym, (eq_ignore_ascii_case_sym _ k).
  by apply eq_ignore_ascii_case_congr.
Qed.

Lemma end_to_end_none (r : Request) (n : bytes) :
  n ∈ replaced_names -> named_headers n (end_to_end r) = [].
Proof.
  intros Hn. apply named_headers_none, Forall_forall. intros h [Hk _]%list_elem_of_filter.
  unfold should_replace_header in Hk. apply orb_false_iff in Hk as [Hk _].
  destruct (named n h) eqn:E; [|done]. unfold named in E.
  assert (existsb (eq_ignore_ascii_case (name h)) replaced_names = true); [|congruence].
  apply existsb_exists. exists n. by rewrite <- list_elem_of_In.
Qed.

Lemma trailer_fields_names (r : Request) : Forall (fun h => name h = str "Trailer") (trailer_fields r).
Proof. unfold trailer_fields. case_match; [constructor|]. apply Forall_map, Forall_true. done. Qed.

Lemma named_trailer_fields (r : Request) (n : bytes) :
  eq_ignore_ascii_case (str "Trailer") n = false -> named_headers n (trailer_fields r) = [].
Proof.
  intros Hn. apply named_headers_none. eapply Forall_impl; [apply trailer_fields_names|].
  cbn beta. intros h Hh. unfold named. by rewrite Hh.
Qed.

Lemma named_forwarding_part (n : bytes) (t : bool) (ups : option (list bytes)) :
  Forall (fun k => eq_ignore_ascii_case k n = false) [str "TE"; str "Upgrade"; str "Connection"] ->
  named_headers n (connection_fields t ups) = [].
Proof.
  intros H. do 3 (apply Forall_cons in H as [? H]). apply named_headers_none.
  unfold connection_fields. destruct t, ups; cbn [app]; repeat constructor; done.
Qed.

(** The framing, routing and forwarding fields of the forwarded request are the proxy's own. *)
Lemma forwarded_named (r : Request) (h : bytes) (ups : option (list bytes)) (ip : IpAddr) (p : ForwardedProto) :
  let fields := forwarded_fields r h ups ip p in
  named_headers (str "content-length") fields =
    match content_length r with Some n => [content_length_field n] | None => [] end /\
  named_headers (str "transfer-encoding") fields =
    (if has_transfer_encoding r then [mkHeader (str "Transfer-Encoding") (str "chunked")] else []) /\
  named_headers (str "host") fields = [mkHeader (str "Host") h] /\
  named_headers (str "x-forwarded-for") fields = [mkHeader (str "X-Forwarded-For") (ip_to_string ip)] /\
  named_headers (str "x-forwarded-host") fields = [mkHeader (str "X-Forwarded-Host") h] /\
  named_headers (str "x-forwarded-proto") fields = [mkHeader (str "X-Forwarded-Proto") (as_bytes p)].
Proof.
  cbv zeta. unfold forwarded_fields.
  assert (Hte : forall n, eq_ignore_ascii_case (str "Trailer") n = false ->
    named_headers n (if has_transfer_encoding r
      then mkHeader (str "Transfer-Encoding") (str "chunked") :: trailer_fields r else []) =
    named_headers n (if has_transfer_encoding r then [mkHeader (str "Transfer-Encoding") (str "chunked")] else [])).
  { intros n Hn. destruct (has_transfer_encoding r); [|done].
    change (mkHeader ?a ?b :: trailer_fields r) with ([mkHeader a b] ++ trailer_fields r).
    by rewrite named_headers_app, (named_trailer_fields _ _ Hn), app_nil_r. }
  split_and!; rewrite !named_headers_app, end_to_end_none by (vm_compute; set_solver);
    rewrite Hte by (vm_compute; reflexivity);
    rewrite named_forwarding_part by (repeat constructor; vm_compute; reflexivity);
    destruct (content_length r), (has_transfer_encoding r); reflexivity.
Qed.

Lemma ip_to_string_bytes (ip : IpAddr) : all ipv6_byte (ip_to_string ip) = true.
Proof.
  assert (Hd : forall n, all ipv6_byte (to_dec n) = true)
    by (intros n; eapply all_impl; [|apply to_dec_digits]; intros b; byte_cases b).
  assert (Hx : forall n, all ipv6_byte (to_hex n) = true).
  { intros n. apply radix_digits_all; [lia| |done]. intros d Hr. unfold digit_char.
    assert (E : d = 0 \/ d = 1 \/ d = 2 \/ d = 3 \/ d = 4 \/ d = 5 \/ d = 6 \/ d = 7 \/ d = 8 \/ d = 9 \/ d = 10
      \/ d = 11 \/ d = 12 \/ d = 13 \/ d = 14 \/ d = 15) by lia.
    destruct_or! E; subst d; vm_compute; reflexivity. }
  assert (H4 : forall a, all ipv6_byte (ipv4_to_string a) = true).
  { intros [[[a b] c] d]. unfold ipv4_to_string. by rewrite !all_app, !Hd. }
  assert (Hs : forall l, all ipv6_byte (fmt_subslice l) = true).
  { induction l as [|s [|s' l] IH]; [done|apply Hx|]. cbn [fmt_subslice] in *. rewrite !all_app, Hx. cbn [andb]. exact IH. }
  destruct ip as [a|a]; [apply H4|]. cbn [ip_to_string]. unfold ipv6_to_string.
  destruct (to_ipv4_mapped a); [by rewrite all_app, H4|].
  destruct (longest_zero_span a 0 (0%nat, 0%nat) (0%nat, 0%nat)) as [st n].
  case_match; [|apply Hs]. by rewrite !all_app, !Hs.
Qed.

Lemma value_byte_of (p : byte -> bool) (v : bytes) :
  (forall b, p b = true -> is_valid_header_value_byte b = true) -> all p v = true ->
  all is_valid_header_value_byte v = true.
Proof. apply all_impl. Qed.

Definition protocol_byte (b : byte) : bool := is_token_byte b || byte_eqb b x2f.

Lemma parse_upgrade_protocol_bytes (v p : bytes) :
  parse_upgrade_protocol v = Ok p -> all protocol_byte p = true /\ p <> [].
Proof.
  assert (Ht : forall k, all is_token_byte k = true -> all protocol_byte k = true)
    by (intros k; apply all_impl; intros b; unfold protocol_byte; by intros ->).
  unfold parse_upgrade_protocol. case_match eqn:B; [done|]. apply bool_decide_eq_false in B.
  destruct (position (byte_eqb x2f) (trim_optional_whitespace v)) as [i|] eqn:Hi.
  - intros H. apply position_byte_Some in Hi as (n & w & E & <- & _). rewrite E in *.
    rewrite slice_to_Ok, slice_from_Ok in H by (rewrite length_app; simpl; lia). cbn [res_bind] in H.
    rewrite Nat.add_1_r, take_app_length, drop_app_ge in H by lia.
    rewrite Nat.sub_succ_l, Nat.sub_diag, skipn_cons, drop_0 in H by lia.
    destruct (all is_token_byte n) eqn:Hn; [|by rewrite orb_true_r in H].
    destruct (all is_token_byte w) eqn:Hw; [|by rewrite orb_true_r in H].
    case_match; [done|]. injection H as <-. split; [|done]. rewrite all_app, (Ht n Hn). cbn. exact (Ht w Hw).
  - destruct (all is_token_byte (trim_optional_whitespace v)) eqn:Hp; [|done]. intros [= <-]. auto.
Qed.

Lemma request_upgrade_protocols_bytes (r : Request) (ps : list bytes) :
  request_upgrade_protocols r = Ok (Some ps) -> Forall (fun p => all protocol_byte p = true /\ p <> []) ps.
Proof.
  unfold request_upgrade_protocols. rewrite res_bind_Ok. intros (ls & Hls%res_mapM_Ok & H).
  assert (Hall : Forall (fun p => all protocol_byte p = true /\ p <> []) (concat ls)).
  { clear H. induction Hls as [|h l hs ls Hl _ IH]; [constructor|]. cbn [concat]. apply Forall_app. split; [|done].
    destruct (parse_upgrade_protocols (value h)) as [x| | |] eqn:E; try done. injection Hl as ->.
    unfold parse_upgrade_protocols in E. apply res_bind_Ok in E as (qs & Hqs%res_mapM_Ok & E).
    case_match; [done|]. injection E as ->. clear -Hqs.
    induction Hqs; constructor; [by eapply parse_upgrade_protocol_bytes|done]. }
  repeat case_match; try done. by injection H as <-.
Qed.

Lemma join_bytes (q : byte -> bool) (sep : bytes) (ps : list bytes) :
  all q sep = true -> Forall (fun p => all q p = true) ps -> all q (join sep ps) = true.
Proof.
  intros Hs. induction 1 as [|p ps Hp Hps IH]; [done|]. destruct (decide (ps = [])) as [->|Hne]; [done|].
  rewrite join_cons by done. by rewrite !all_app, Hp, Hs, IH.
Qed.

Lemma forwarded_valid (r : Request) (h : bytes) (ups : option (list bytes)) (ip : IpAddr) (p : ForwardedProto) :
  parsed_fields (headers r) -> authority h -> request_upgrade_protocols r = Ok ups ->
  Forall valid_field (forwarded_fields r h ups ip p).
Proof.
  intros Hp [Ha _]%authority_bytes Hu. unfold forwarded_fields.
  assert (Hv : Forall valid_field (headers r)) by (eapply Forall_impl; [exact Hp|]; by intros ? []).
  assert (Hh : forall n, n <> [] -> all is_token_byte n = true -> valid_field (mkHeader n h)).
  { intros n Hn Ht. split_and!; [done|done|]. cbn. eapply value_byte_of; [|exact Ha]. intros b; byte_cases b. }
  rewrite !Forall_app. split_and!.
  - rewrite Forall_forall in Hv |- *. intros x [_ Hin]%list_elem_of_filter. by apply Hv.
  - apply Forall_singleton. by apply Hh.
  - destruct (content_length r); [|constructor]. apply Forall_singleton. apply content_length_valid.
  - destruct (has_transfer_encoding r); [|constructor]. constructor; [by split_and!|].
    unfold trailer_fields. case_match; [constructor|]. apply Forall_map.
    rewrite Forall_forall in Hv |- *. intros x [_ Hin]%list_elem_of_filter. cbn beta.
    destruct (Hv x Hin) as (_ & _ & Hx). by split_and!.
  - unfold connection_fields. rewrite !Forall_app. split_and!.
    + destruct (request_accepts_trailers r); [|constructor]. apply Forall_singleton. by split_and!.
    + destruct ups as [ps|]; [|constructor]. constructor; [|constructor]. split_and!; [done|done|].
      cbn [value]. apply join_bytes; [done|]. eapply Forall_impl; [by eapply request_upgrade_protocols_bytes|].
      cbn beta. intros q [Hq _]. eapply value_byte_of; [|exact Hq]. intros b; byte_cases b.
    + destruct (request_accepts_trailers r), ups; rewrite ?Forall_singleton; try apply Forall_nil_2; by split_and!.
  - unfold forwarding_fields. rewrite !Forall_cons. split_and!; [|by apply Hh| |constructor]; split_and!; try done.
    + eapply value_byte_of; [|apply ip_to_string_bytes]. intros b; byte_cases b.
    + by destruct p.
Qed.

Lemma named_headers_trimmed (n : bytes) (hs : list Header) :
  named_headers n (map trimmed_field hs) = map trimmed_field (named_headers n hs).
Proof.
  unfold named_headers. induction hs as [|h hs IH]; [done|]. cbn [map]. rewrite !filter_cons.
  change (named n (trimmed_field h)) with (named n h). destruct (named n h) eqn:E.
  - rewrite !decide_True by done. cbn [map]. by rewrite IH.
  - by rewrite !decide_False by done.
Qed.

Lemma content_length_spec_range (hs : list Header) (n : Z) : content_length_spec hs (Some n) -> 0 <= n <= u64_max.
Proof.
  intros (Hne & Hn & Hf). split; [|done]. destruct (elements_of (str "content-length") hs) as [|v vs]; [done|].
  apply Forall_cons in Hf as [(_ & _ & Hv) _]. eapply digits_value_ge; [| |exact Hv]; lia.
Qed.

Lemma forwarded_framing (r : Request) (h : bytes) (ups : option (list bytes)) (ip : IpAddr) (p : ForwardedProto) :
  content_length_spec (headers r) (content_length r) ->
  let fields := map trimmed_field (forwarded_fields r h ups ip p) in
  content_length_spec fields (content_length r) /\ transfer_encoding_spec fields (has_transfer_encoding r).
Proof.
  intros Hcl fields. destruct (forwarded_named r h ups ip p) as (H1 & H2 & _). cbv zeta in *.
  unfold content_length_spec, transfer_encoding_spec, elements_of, fields. rewrite !named_headers_trimmed, H1, H2. split.
  - destruct (content_length r) as [n|] eqn:E; [|done]. apply content_length_spec_range in Hcl as [H0 Hmax].
    cbn [map concat trimmed_field value content_length_field]. rewrite to_dec_trim, comma_elements_dec, app_nil_r.
    split_and!; [done|done|]. apply Forall_singleton. by apply cl_value_dec.
  - destruct (has_transfer_encoding r); [|done]. exists (str "chunked"). split; vm_compute; reflexivity.
Qed.

Lemma request_head_framing (r : Request) (head : bytes) :
  request_head r head -> content_length_spec (headers r) (content_length r).
Proof. by intros []. Qed.

(** The request as the upstream's parser reads it. *)
Definition forwarded_request (r : Request) (h : bytes) (ups : option (list bytes)) (ip : IpAddr)
    (p : ForwardedProto) : Request :=
  let fields := map trimmed_field (forwarded_fields r h ups ip p) in
  {| method := method r; target := target r; version := Http11; headers := fields;
     content_length := content_length r; has_transfer_encoding := has_transfer_encoding r;
     keep_alive := negb (header_contains_token fields (str "connection") (str "close")) |}.

Lemma authority_trim (h : bytes) : authority h -> trim_optional_whitespace h = h.
Proof.
  intros [Ha _]%authority_bytes. rewrite trim_optional_whitespace_eq. apply trim_matches_id, Forall_trimmed.
  eapply Forall_impl; [by apply all_Forall|]. cbn beta. intros b. byte_cases b.
Qed.

Lemma host_Some_authority (r : Request) (h : bytes) : host r = Ok (Some h) -> authority h.
Proof. destruct (host_iff r) as (o & E & Ho). rewrite E. intros [= ->]. by apply Ho. Qed.

Lemma forwarded_host (r : Request) (h : bytes) (ups : option (list bytes)) (ip : IpAddr) (p : ForwardedProto) :
  authority h -> host (forwarded_request r h ups ip p) = Ok (Some h).
Proof.
  intros Ha. destruct (host_iff (forwarded_request r h ups ip p)) as (o & E & Ho). rewrite E. f_equal.
  apply Ho. split; [done|]. exists (mkHeader (str "Host") h). split; [|done]. cbn [headers forwarded_request].
  destruct (forwarded_named r h ups ip p) as (_ & _ & H3 & _). cbv zeta in H3.
  rewrite named_headers_trimmed, H3. cbn [map]. unfold trimmed_field. cbn [name value]. by rewrite authority_trim.
Qed.

Lemma forwarded_head (r : Request) (head out : bytes) (ip : IpAddr) (p : ForwardedProto) :
  request_head r head -> serialize_request_head r ip p = Ok out ->
  exists h ups, host r = Ok (Some h) /\ request_upgrade_protocols r = Ok ups /\
    out = head_bytes (forwarded_request r h ups ip p) (map field_line (forwarded_fields r h ups ip p)) /\
    Forall2 header_line (map field_line (forwarded_fields r h ups ip p))
      (headers (forwarded_request r h ups ip p)).
Proof.
  intros Hr (h & ups & Hh & Hu & _ & ->)%serialize_request_inv. exists h, ups. split_and!; [done|done|done|].
  apply field_lines_ok, forwarded_valid; [by eapply request_head_parsed|by eapply host_Some_authority|done].
Qed.

Lemma forwarded_reparsed (r : Request) (head out : bytes) (ip : IpAddr) (p : ForwardedProto) (h : bytes)
    (ups : option (list bytes)) (rest : bytes) :
  request_head r head -> host r = Ok (Some h) -> request_upgrade_protocols r = Ok ups ->
  let fields := forwarded_fields r h ups ip p in
  Forall (fun l => len l <= MAX_HEADER_SIZE) (map field_line fields) ->
  len (join CRLF (map field_line fields)) <= MAX_HEADER_BLOCK_SIZE -> len fields <= MAX_HEADER_COUNT ->
  serialize_request_head r ip p = Ok out ->
  parse_request_with_consumed (out ++ rest) = Ok (forwarded_request r h ups ip p, length out).
Proof.
  intros Hr Hh Hu fields Hs Hb Hc Hout. apply parse_request_complete.
  destruct (forwarded_head _ _ _ _ _ Hr Hout) as (h' & ups' & Hh' & Hu' & -> & Hl).
  rewrite Hh in Hh'. rewrite Hu in Hu'. simplify_eq.
  destruct (forwarded_framing r h' ups' ip p) as [Hcl Hte]; [by eapply request_head_framing|].
  destruct Hr as [_ Hm Ht Hu8 Hls _ _ _ Hfr _]. constructor; try done.
  - by exists (map field_line fields).
  - cbn. unfold len in *. by rewrite length_map.
Qed.

(** ** The transfer codings of a response *)
Definition is_chunked (c : bytes) : bool := eq_ignore_ascii_case c (str "chunked").

Lemma chunked_fold (n k : nat) (count : Z) (cs : list bytes) (c : Z) :
  n = (k + length cs)%nat -> 0 <= count ->
  res_foldM (chunked_position n) count (imap (fun i c => ((k + i)%nat, c)) cs) = Ok c ->
  Forall (fun c => is_chunked c = false) cs \/
  (exists pre l, cs = pre ++ [l] /\ is_chunked l = true /\ Forall (fun c => is_chunked c = false) pre).
Proof.
  revert k count. induction cs as [|x cs IH]; intros k count Hn Hc; [by left|].
  rewrite imap_cons. cbn [res_foldM]. rewrite Nat.add_0_r, res_bind_Ok. intros (count' & Hx & H).
  replace (imap ((fun i c0 => ((k + i)%nat, c0)) ∘ S) cs) with (imap (fun i c0 => ((S k + i)%nat, c0)) cs) in H.
  2: { apply imap_ext. intros i y _. cbn. f_equal. lia. }
  unfold chunked_position in Hx. fold (is_chunked x) in Hx. destruct (is_chunked x) eqn:Ex.
  - cbn zeta in Hx. destruct ((1 <? count + 1) || negb (k + 1 =? n)%nat) eqn:E; [done|].
    apply orb_false_iff in E as [_ E]. apply negb_false_iff, Nat.eqb_eq in E. simpl in Hn.
    destruct cs; [|simpl in Hn; lia]. right. exists [], x. by repeat constructor.
  - injection Hx as <-. simpl in Hn. apply IH in H; [|lia|done].
    destruct H as [H|(pre & l & -> & Hl & Hpre)]; [left; by constructor|].
    right. exists (x :: pre), l. split; [done|]. split; [done|]. by constructor.
Qed.

(** What the framing says about the codings of all the Transfer-Encoding fields. *)
Definition framing_spec (codings : list bytes) (f : ResponseTransferFraming) : Prop :=
  match f with
  | NoFraming => codings = []
  | CloseDelimited => codings <> [] /\ Forall (fun c => is_chunked c = false) codings
  | Chunked => exists pre l, codings = pre ++ [l] /\ is_chunked l = true /\ Forall (fun c => is_chunked c = false) pre
  end.

Lemma response_transfer_framing_spec (headers : bytes) (f : ResponseTransferFraming) :
  response_transfer_framing headers = Ok f ->
  exists codings, res_foldM transfer_framing_line [] (header_lines headers) = Ok codings /\ framing_spec codings f.
Proof.
  unfold response_transfer_framing. rewrite res_bind_Ok. intros (codings & Hc & H). exists codings. split; [done|].
  case_bool_decide; [by injection H as <-|]. apply res_bind_Ok in H as (n & Hn & [= <-]).
  apply (chunked_fold (length codings) 0) in Hn; [|done|lia]. destruct Hn as [Hn|(pre & l & -> & Hl & Hpre)].
  - destruct (list.last codings) as [l|] eqn:El; [|by apply last_None in El].
    apply last_Some in El as [pre ->]. pose proof Hn as Hn'. apply Forall_app in Hn' as [_ Hl].
    apply Forall_cons in Hl as [Hl _]. unfold is_chunked in Hl. rewrite Hl. split; [|done]. by destruct pre.
  - rewrite last_snoc. unfold is_chunked in Hl. rewrite Hl. by exists pre, l.
Qed.

(** ** Responses written by the proxy itself *)
Lemma local_status_code (status : StatusCode) (rest : bytes) :
  response_status_code (status_line status ++ CRLF ++ rest) = Ok (code status).
Proof.
  rewrite (status_code_first_line _ _ []) by apply status_line_no_CR. destruct status; vm_compute; reflexivity.
Qed.

Lemma field_line_response_field (h : Header) :
  valid_field h -> response_field (field_line h) (name h) (SP :: value h).
Proof. intros (Hn & Ht & Hv). split; [done|done|]. apply trim_value_bytes. cbn. exact Hv. Qed.

Lemma header_line_clean (line : bytes) (h : Header) : header_line line h -> line <> [] /\ clean line.
Proof.
  intros H. pose proof (header_line_crlf_free _ _ H) as [Hne HC]. split; [done|]. split; [done|].
  by eapply header_line_no_LF.
Qed.

Lemma field_lines_shape (hs : list Header) :
  Forall valid_field hs -> Forall (fun l => l <> [] /\ clean l) (map field_line hs).
Proof.
  intros H. apply Forall_map. eapply Forall_impl; [exact H|]. cbn beta. intros h Hh.
  eapply header_line_clean. by apply field_line_ok.
Qed.

Lemma local_response_lines (hs : list Header) (n : Z) :
  Forall accepted_field hs -> Forall other_line (map field_line hs).
Proof.
  intros H. apply Forall_map. eapply Forall_impl; [exact H|]. cbn beta.
  intros h [Hv [Hc Ht]]%validate_response_header_iff. eapply response_field_other.
  - apply field_line_response_field. by destruct h.
  - unfold framing_name. by rewrite Hc, Ht.
Qed.

Lemma fold_other {S : Type} (f : S -> bytes -> res ProxyError S) (ls : list bytes) (s : S) :
  (forall l, other_line l -> forall s, f s l = Ok s) -> Forall other_line ls -> res_foldM f s ls = Ok s.
Proof.
  intros Hf. induction 1 as [|l ls Hl _ IH]; [done|]. cbn [res_foldM]. by rewrite Hf.
Qed.

Lemma content_length_line_dec (n : Z) :
  0 <= n <= u64_max ->
  response_content_length_line None (field_line (content_length_field n)) = Ok (Some n) /\
  forall cs, transfer_framing_line cs (field_line (content_length_field n)) = Ok cs.
Proof.
  intros Hn. unfold response_content_length_line, transfer_framing_line.
  rewrite (response_field_split _ _ _ (field_line_response_field _ (content_length_valid n))).
  cbn [res_bind name value content_length_field]. split; [|done].
  change (eq_ignore_ascii_case (str "Content-Length") (str "content-length")) with true. cbn [negb].
  rewrite bool_decide_false by (by intros [? ?]).
  assert (E : trim_optional_whitespace (SP :: to_dec n) = to_dec n).
  { rewrite <- (to_dec_trim n) at 2. done. }
  rewrite E. rewrite bool_decide_false by apply to_dec_ne. rewrite to_dec_digits.
  rewrite (proj2 (contains_false _ _)) by (by apply (all_not_elem _ _ _ (to_dec_digits n))). cbn [orb negb].
  rewrite utf8_valid_ascii by (eapply all_impl; [|apply to_dec_digits]; intros b; byte_cases b). cbn [negb].
  by rewrite parse_uint_to_dec.
Qed.

Lemma local_response (r : Response) (out : bytes) :
  serialize r = Ok out -> len (response_body r) <= u64_max ->
  exists head fields, out = head ++ response_body r /\
    valid_response head (status_line (response_status r)) fields (code (response_status r)) /\
    response_content_length (head_bytes_of head) = Ok (Some (len (response_body r))) /\
    response_transfer_framing (head_bytes_of head) = Ok NoFraming.
Proof.
  intros [Hhs ->]%serialize_iff Hlen. set (n := len (response_body r)).
  set (hs := response_headers r ++ [content_length_field n]).
  exists (status_line (response_status r) ++ CRLF ++ lines_of (map field_line hs) ++ CRLF), (map field_line hs).
  assert (Hn : 0 <= n <= u64_max) by (split; [apply len_nonneg|done]).
  assert (Hv : Forall valid_field hs).
  { apply Forall_app. split; [eapply Forall_impl; [exact Hhs|exact accepted_valid]|].
    apply Forall_singleton, content_length_valid. }
  assert (Hsh : response_shape (status_line (response_status r) ++ CRLF ++ lines_of (map field_line hs) ++ CRLF)
    (status_line (response_status r)) (map field_line hs)).
  { split; [done| |by apply field_lines_shape]. split; apply contains_false; destruct (response_status r); vm_compute; reflexivity. }
  pose proof (local_response_lines _ n Hhs) as Ho. destruct (content_length_line_dec n Hn) as [Hc Ht].
  split_and!.
  - by rewrite <- !app_assoc.
  - split; [done| |apply local_status_code|].
    + destruct (response_status r); vm_compute; reflexivity.
    + apply Forall_map. eapply Forall_impl; [exact Hv|]. cbn beta. intros h Hh. eauto using field_line_response_field.
  - unfold response_content_length. rewrite (header_lines_without_end _ _ _ Hsh). unfold hs.
    rewrite map_app, res_foldM_app, fold_other; [|by intros l Hl s; apply (other_line_skip l s [])|done].
    cbn [res_bind map res_foldM]. by rewrite Hc.
  - unfold response_transfer_framing. rewrite (header_lines_without_end _ _ _ Hsh). unfold hs.
    rewrite map_app, res_foldM_app, fold_other; [|by intros l Hl s; apply (other_line_skip l None s)|done].
    cbn [res_bind map res_foldM]. by rewrite Ht.
Qed.

(** ** Properties *)

(** C2: the request head sent to the upstream cannot be split or reframed: it is the client's method
    and target and a list of valid field lines, it ends at its first CRLF CRLF whatever follows,
    its fields frame exactly the body the client's request frames, and its Host and forwarding
    fields are single fields with the client's host, the client's address and the protocol. *)
Theorem forwarded_request_framing (r : Request) (head out rest : bytes) (ip : IpAddr) (p : ForwardedProto) :
  request_head r head -> serialize_request_head r ip p = Ok out ->
  exists h ups,
    let fields := forwarded_fields r h ups ip p in
    host r = Ok (Some h) /\
    out = request_line (method r) (target r) ++ CRLF ++ lines_of (map field_line fields) ++ CRLF /\
    find_bytes (out ++ rest) (CRLF ++ CRLF) = Some (length out - 4)%nat /\
    Forall2 header_line (map field_line fields) (map trimmed_field fields) /\
    content_length_spec (map trimmed_field fields) (content_length r) /\
    transfer_encoding_spec (map trimmed_field fields) (has_transfer_encoding r) /\
    named_headers (str "host") fields = [mkHeader (str "Host") h] /\
    named_headers (str "x-forwarded-for") fields = [mkHeader (str "X-Forwarded-For") (ip_to_string ip)] /\
    named_headers (str "x-forwarded-host") fields = [mkHeader (str "X-Forwarded-Host") h] /\
    named_headers (str "x-forwarded-proto") fields = [mkHeader (str "X-Forwarded-Proto") (as_bytes p)].
Proof.
  intros Hr Hs. destruct (forwarded_head _ _ _ _ _ Hr Hs) as (h & ups & Hh & _ & -> & Hl).
  exists h, ups. cbv zeta. destruct (forwarded_named r h ups ip p) as (_ & _ & ? & ? & ? & ?). cbv zeta in *.
  destruct (forwarded_framing r h ups ip p) as [? ?]; [by eapply request_head_framing|].
  split_and!; try done. unfold find_bytes, head_bytes. rewrite <- !app_assoc. rewrite find_head_end.
  - f_equal. rewrite !length_app. simpl. lia.
  - destruct Hr. by apply request_line_no_CR.
  - by eapply header_lines_crlf_free.
Qed.

Example forwarded_request_framing_witness :
  exists h, host sample_request = Ok (Some h) /\ h = str "a.b".
Proof.
  destruct (forwarded_request_framing sample_request sample_head
    (str "GET / HTTP/1.1" ++ CRLF ++ str "Host: a.b" ++ CRLF ++ str "X-Forwarded-For: 10.0.0.1" ++ CRLF
     ++ str "X-Forwarded-Host: a.b" ++ CRLF ++ str "X-Forwarded-Proto: https" ++ CRLF ++ CRLF)
    [] (IpV4 (10, 0, 0, 1)) HttpsProto sample_request_head) as (h & ups & Hh & _).
  - vm_compute. reflexivity.
  - exists h. split; [exact Hh|]. vm_compute in Hh. injection Hh as <-. reflexivity.
Defined.

(** C17: a server with the same parser and limits reads the forwarded head back as the client's
    request with the forwarded fields, and takes exactly the head: the body that follows is framed
    as the client framed it. *)
Theorem forwarded_request_reparsed (r : Request) (head out : bytes) (ip : IpAddr) (p : ForwardedProto) (h : bytes)
    (ups : option (list bytes)) (rest : bytes) :
  request_head r head -> host r = Ok (Some h) -> request_upgrade_protocols r = Ok ups ->
  Forall (fun l => len l <= MAX_HEADER_SIZE) (map field_line (forwarded_fields r h ups ip p)) ->
  len (join CRLF (map field_line (forwarded_fields r h ups ip p))) <= MAX_HEADER_BLOCK_SIZE ->
  len (forwarded_fields r h ups ip p) <= MAX_HEADER_COUNT ->
  serialize_request_head r ip p = Ok out ->
  parse_request_with_consumed (out ++ rest) = Ok (forwarded_request r h ups ip p, length out) /\
  host (forwarded_request r h ups ip p) = Ok (Some h).
Proof.
  intros Hr Hh Hu Hs Hb Hc Hout. split; [by apply (forwarded_reparsed r head)|].
  apply forwarded_host. by eapply host_Some_authority.
Qed.

Example forwarded_request_reparsed_witness :
  host (forwarded_request sample_request (str "a.b") None (IpV4 (10, 0, 0, 1)) HttpsProto) = Ok (Some (str "a.b")).
Proof.
  apply (forwarded_request_reparsed sample_request sample_head
    (str "GET / HTTP/1.1" ++ CRLF ++ str "Host: a.b" ++ CRLF ++ str "X-Forwarded-For: 10.0.0.1" ++ CRLF
     ++ str "X-Forwarded-Host: a.b" ++ CRLF ++ str "X-Forwarded-Proto: https" ++ CRLF ++ CRLF)
    (IpV4 (10, 0, 0, 1)) HttpsProto (str "a.b") None [] sample_request_head).
  - vm_compute. reflexivity.
  - vm_compute. reflexivity.
  - repeat constructor; vm_compute; discriminate.
  - vm_compute. discriminate.
  - vm_compute. discriminate.
  - vm_compute. reflexivity.
Defined.

(** C14: sanitising a response head keeps the status and every field that is neither hop-by-hop nor
    named by Connection, in order, adds at most the proxy's own Connection field, and leaves the
    framing of the body as it was: the content length and the transfer coding the client reads are
    those the proxy streams by. *)
Theorem sanitize_response_correct (head status out : bytes) (fields : list bytes) (code : Z)
    (c : option bytes) (pt pu : bool) :
  valid_response head status fields code -> valid_connection c -> sanitize_response_head head c pt pu = Ok out ->
  exists tokens, response_connection_tokens head = Ok tokens /\
    (forall l, kept tokens pt pu l = true <-> end_to_end_field tokens pt pu (field_name l)) /\
    let lines := filter (fun l => kept tokens pt pu l = true) fields ++ connection_line c in
    valid_response out status lines code /\
    response_content_length (head_bytes_of out) = response_content_length (head_bytes_of head) /\
    response_transfer_framing (head_bytes_of out) = response_transfer_framing (head_bytes_of head).
Proof.
  intros Hv Hc Hs. destruct (sanitize_valid _ _ _ _ _ _ _ _ Hv Hc Hs) as (tokens & Ht & H). exists tokens.
  split; [exact Ht|]. split; [apply kept_iff|exact H].
Qed.

Definition sample_response_head : bytes :=
  str "HTTP/1.1 200 OK" ++ CRLF ++ str "Keep-Alive: 5" ++ CRLF ++ str "Content-Length: 2" ++ CRLF ++ CRLF.

Lemma sample_response_valid :
  valid_response sample_response_head (str "HTTP/1.1 200 OK") [str "Keep-Alive: 5"; str "Content-Length: 2"] 200.
Proof.
  split; [split| | |].
  - vm_compute. reflexivity.
  - split; apply contains_false; vm_compute; reflexivity.
  - repeat constructor; try discriminate; apply contains_false; vm_compute; reflexivity.
  - vm_compute. reflexivity.
  - vm_compute. reflexivity.
  - constructor; [|constructor; [|constructor]].
    + exists (str "Keep-Alive"), (str " 5"). split; [reflexivity|split; [discriminate|vm_compute; reflexivity]|vm_compute; reflexivity].
    + exists (str "Content-Length"), (str " 2"). split; [reflexivity|split; [discriminate|vm_compute; reflexivity]|vm_compute; reflexivity].
Qed.

Example sanitize_response_correct_witness :
  let out := str "HTTP/1.1 200 OK" ++ CRLF ++ str "Content-Length: 2" ++ CRLF ++ str "Connection: close" ++ CRLF ++ CRLF in
  response_content_length (head_bytes_of out) = response_content_length (head_bytes_of sample_response_head).
Proof.
  cbv zeta. destruct (sanitize_response_correct sample_response_head _ 
    (str "HTTP/1.1 200 OK" ++ CRLF ++ str "Content-Length: 2" ++ CRLF ++ str "Connection: close" ++ CRLF ++ CRLF)
    _ 200 (Some (str "close")) false false sample_response_valid) as (t & _ & _ & _ & H & _).
  - vm_compute. reflexivity.
  - vm_compute. reflexivity.
  - exact H.
Defined.

(** The check of a response head never panics, and a head that was cut at its first CRLF CRLF
    passes it exactly when it is a status line with a status code and well-formed field lines. *)
Theorem validate_response_correct (head : bytes) :
  returns (validate_response_head_syntax head) /\
  (windows_position (CRLF ++ CRLF) head = Some (length head - 4)%nat ->
   validate_response_head_syntax head = Ok tt <-> exists status fields code, valid_response head status fields code).
Proof.
  split; [apply validate_response_head_syntax_returns|]. intros Hw. split.
  - intros H. by eapply validate_sound.
  - intros (status & fields & code & H). by eapply validate_complete.
Qed.

Example validate_response_correct_witness :
  exists status fields code, valid_response sample_response_head status fields code.
Proof.
  apply (proj1 (proj2 (validate_response_correct sample_response_head) ltac:(vm_compute; reflexivity))).
  vm_compute. reflexivity.
Defined.

(** A response is streamed as chunked exactly when [chunked] is the last of its transfer codings
    and only there, as delimited by the end of the connection when it has codings but not
    [chunked], and the codings are ignored only when there are none. *)
Theorem response_framing_correct (headers : bytes) (f : ResponseTransferFraming) :
  response_transfer_framing headers = Ok f ->
  exists codings, res_foldM transfer_framing_line [] (header_lines headers) = Ok codings /\ framing_spec codings f.
Proof. apply response_transfer_framing_spec. Qed.

Example response_framing_correct_witness :
  exists codings, framing_spec codings Chunked.
Proof.
  destruct (response_framing_correct (str "HTTP/1.1 200 OK" ++ CRLF ++ str "Transfer-Encoding: gzip, chunked") Chunked)
    as (cs & _ & H).
  - vm_compute. reflexivity.
  - exists cs. exact H.
Defined.

(** A response the proxy answers itself is one its own response reader accepts: the head is
    valid, carries the status code, and frames exactly the body. *)
Theorem local_response_accepted (r : Response) (out : bytes) :
  serialize r = Ok out -> len (response_body r) <= u64_max ->
  exists head fields, out = head ++ response_body r /\
    valid_response head (status_line (response_status r)) fields (code (response_status r)) /\
    response_content_length (head_bytes_of head) = Ok (Some (len (response_body r))) /\
    response_transfer_framing (head_bytes_of head) = Ok NoFraming.
Proof. apply local_response. Qed.

Example local_response_accepted_witness :
  exists head fields, valid_response head (str "HTTP/1.1 404 Not Found") fields 404.
Proof.
  destruct (local_response_accepted (new_response NotFound (str "no"))
              (str "HTTP/1.1 404 Not Found" ++ CRLF ++ str "Content-Length: 2" ++ CRLF ++ CRLF ++ str "no"))
    as (head & fields & _ & H & _).
  - vm_compute. reflexivity.
  - vm_compute. discriminate.
  - exists head, fields. exact H.
Defined.
