(* ===== verification/ProxyBody.v ===== *)
(** * Message bodies in the proxy: [src/proxy.rs]

    The loops that copy request and response bodies: by length, in chunks, and to the end of
    the connection; the reader over already buffered bytes; and the reading of a response
    head. The request and the response loops of the source differ in their errors only, and
    share a definition here, over a record of those errors. *)
From Stdlib Require Import ZArith Lia.
From stdpp Require Import prelude.
From S2P Require Import Prelude Bytes NetAddr Http Io ProxyHead.
Local Open Scope Z_scope.
Set Warnings "-clear-no-such-hyp".

(** ** [PrefixedReader]

    The position never passes the end of the prefix; the record carries the bound. *)
Record PrefixedReader (R : Type) : Type := mkPrefixedReader {
  prefix : bytes;
  prefix_position : nat;
  inner : R;
  prefix_bound : (prefix_position <= length prefix)%nat
}.
Arguments mkPrefixedReader {R}.
Arguments prefix {R}.
Arguments prefix_position {R}.
Arguments inner {R}.
Arguments prefix_bound {R}.

Definition new_prefixed {R : Type} (prefix : bytes) (inner : R) : PrefixedReader R :=
  mkPrefixedReader prefix 0 inner (Nat.le_0_l (length prefix)).

Definition remaining_prefix {R : Type} (p : PrefixedReader R) : res ProxyError bytes :=
  slice_from (prefix p) (prefix_position p).

Lemma prefix_advance (l : bytes) (i n : nat) :
  (i <= length l)%nat -> (i + Nat.min (length (drop i l)) n <= length l)%nat.
Proof. rewrite length_drop. lia. Qed.

Section prefixed.
Context {R : Type} `{!Read R}.

Definition prefixed_read (n : nat) (p : PrefixedReader R) : res io_error bytes * PrefixedReader R :=
  if (n =? 0)%nat then (Ok [], p)
  else if (prefix_position p <? length (prefix p))%nat then
    let remaining := drop (prefix_position p) (prefix p) in
    let bytes_read := Nat.min (length remaining) n in
    (Ok (take bytes_read remaining),
     mkPrefixedReader (prefix p) (prefix_position p + bytes_read) (inner p)
       (prefix_advance (prefix p) (prefix_position p) n (prefix_bound p)))
  else let '(m, r) := read n (inner p) in (m, mkPrefixedReader (prefix p) (prefix_position p) r (prefix_bound p)).

Definition prefixed_pending (p : PrefixedReader R) : list event :=
  data (drop (prefix_position p) (prefix p)) ++ pending (inner p).

Lemma prefixed_read_law (n : nat) (p : PrefixedReader R) :
  (0 < n)%nat ->
  match prefixed_read n p with
  | (Ok bs, p') => (length bs <= n)%nat /\ prefixed_pending p = data bs ++ prefixed_pending p' /\
                   (bs = [] -> prefixed_pending p = [])
  | (Err e, p') => prefixed_pending p = inr e :: prefixed_pending p'
  | (Panic, _) | (Fuel, _) => False
  end.
Proof.
  intros Hn. unfold prefixed_read, prefixed_pending. rewrite (proj2 (Nat.eqb_neq _ _)) by lia.
  destruct (Nat.ltb_spec (prefix_position p) (length (prefix p))) as [Hlt|Hge].
  - set (rem := drop (prefix_position p) (prefix p)). set (k := Nat.min (length rem) n). cbn [prefix prefix_position inner].
    assert (Hr : (length rem = length (prefix p) - prefix_position p)%nat) by apply length_drop.
    split; [rewrite length_take; lia|]. split.
    + rewrite <- drop_drop. fold rem. rewrite app_assoc, <- data_app, take_drop. done.
    + intros H. apply (f_equal length) in H. rewrite length_take in H. simpl in H. lia.
  - pose proof (read_law n (inner p) Hn) as Hl. rewrite drop_ge by lia. cbn [data map app].
    destruct (read n (inner p)) as [[bs|e| |] r]; try done.
    + cbn [prefix prefix_position inner]. rewrite drop_ge by lia. exact Hl.
    + cbn [prefix prefix_position inner]. rewrite drop_ge by lia. exact Hl.
Qed.

#[export] Instance Prefixed_Read : Read (PrefixedReader R) := {
  read := prefixed_read;
  pending := prefixed_pending;
  read_law := prefixed_read_law
}.

End prefixed.

(** The reader lives for one call and hands the inner reader back. *)
Definition with_prefix {R W E A : Type} (buffered : bytes) (m : io (PrefixedReader R * W) E A) : io (R * W) E A :=
  fun s => let '(a, s') := m (new_prefixed buffered s.1, s.2) in (a, (inner s'.1, s'.2)).

(** ** Errors *)
Definition client_read_error (e : io_error) : ProxyError := ClientRead (kind e) (message e).
Definition upstream_write_error (e : io_error) : ProxyError := WriteError (kind e) (message e).
Definition upstream_read_error (e : io_error) : ProxyError := ReadError (kind e) (message e).
Definition response_started (e : io_error) : ProxyError := ResponseStarted (message e).

(** The errors of one direction of copying. *)
Record side : Type := {
  read_error : io_error -> ProxyError;
  write_error : io_error -> ProxyError;
  line_error : ProxyError -> ProxyError;
  size_error : ProxyError -> ProxyError;
  trailer_error : ProxyError -> ProxyError;
  end_of_data : ProxyError;
  missing_crlf : ProxyError;
  trailers_too_large : ProxyError;
  too_many_trailers : ProxyError
}.

Definition request_side : side := {|
  read_error := client_read_error;
  write_error := upstream_write_error;
  line_error := fun e => e;
  size_error := fun e => e;
  trailer_error := fun e => e;
  end_of_data := ClientRead UnexpectedEof (str "client disconnected during chunk data");
  missing_crlf := InvalidClientBody (str "chunk data is not followed by CRLF");
  trailers_too_large := InvalidClientBody (str "trailer section is too large");
  too_many_trailers := InvalidClientBody (str "too many trailer fields")
|}.

(** [read_response_chunk_line], [parse_response_chunk_size] and
    [validate_response_trailer_line] change the error of the request's function. *)
Definition response_line_error (e : ProxyError) : ProxyError :=
  match e with
  | ClientRead _ m | InvalidClientBody m => ResponseStarted (str "invalid chunked upstream response: " ++ m)
  | e => e
  end.

Definition response_size_error (e : ProxyError) : ProxyError :=
  match e with
  | InvalidClientBody m => ResponseStarted (str "invalid chunked upstream response: " ++ m)
  | e => e
  end.

Definition response_trailer_error (e : ProxyError) : ProxyError :=
  match e with
  | InvalidClientBody m => ResponseStarted (str "invalid upstream trailer: " ++ m)
  | e => e
  end.

Definition response_side : side := {|
  read_error := response_started;
  write_error := response_started;
  line_error := response_line_error;
  size_error := response_size_error;
  trailer_error := response_trailer_error;
  end_of_data := ResponseStarted (str "upstream disconnected during chunk data");
  missing_crlf := ResponseStarted (str "chunk data is not followed by CRLF");
  trailers_too_large := ResponseStarted (str "upstream trailer section is too large");
  too_many_trailers := ResponseStarted (str "too many upstream trailer fields")
|}.

Definition parse_chunk_size (line : bytes) : res ProxyError Z :=
  let? (size, extension) :=
    match position (byte_eqb x3b) line with
    | Some i =>
        let? size := slice_to line i in
        let? extension := slice_from line (i + 1) in
        Ok (size, Some extension)
    | None => Ok (line, None)
    end in
  if bool_decide (size = []) || negb (all is_ascii_hexdigit size)
  then Err (InvalidClientBody (str "invalid hexadecimal chunk size"))
  else if match extension with
          | Some x => bool_decide (x = []) || negb (all is_valid_chunk_extension_byte x)
          | None => false
          end
  then Err (InvalidClientBody (str "invalid chunk extension"))
  else if negb (utf8_valid size) then Err (InvalidClientBody (str "invalid hexadecimal chunk size"))
  else ok_or (from_str_radix 16 u64_max size) (InvalidClientBody (str "chunk size is too large")).

(** ** The loops *)
Section loops.
Context {R W : Type} `{!Read R} `{!Write W}.

Definition out_of_fuel {E A : Type} : io (R * W) E A := fun s => (Fuel, s).

Fixpoint read_chunk_line_loop (fuel : nat) (maximum_size : Z) (line : bytes) : io (R * W) ProxyError bytes :=
  match fuel with
  | O => out_of_fuel
  | S fuel' =>
      let! one := io_map_err client_read_error (read_exact 1) in
      let! b := io_lift (index one 0) in
      if byte_eqb b CR then
        let! two := io_map_err client_read_error (read_exact 1) in
        let! c := io_lift (index two 0) in
        if negb (byte_eqb c LF) then io_err (InvalidClientBody (str "CR in chunk framing is not followed by LF"))
        else io_ret line
      else if byte_eqb b LF then io_err (InvalidClientBody (str "bare LF in chunk framing"))
      else if maximum_size <=? len line then io_err (InvalidClientBody (str "chunk framing line is too long"))
      else read_chunk_line_loop fuel' maximum_size (line ++ [b])
  end.

Definition read_chunk_line (maximum_size : Z) : io (R * W) ProxyError bytes :=
  fun s => read_chunk_line_loop (stream_fuel s) maximum_size [] s.

(** The loop [while remaining > 0] shared by every copy of known length. *)
Fixpoint stream_data_loop (fuel : nat) (read_error write_error : io_error -> ProxyError) (end_of_data : ProxyError)
    (remaining : Z) : io (R * W) ProxyError unit :=
  if remaining <=? 0 then io_ret tt
  else
    match fuel with
    | O => out_of_fuel
    | S fuel' =>
        let read_limit := Z.to_nat (Z.min remaining STREAM_BUFFER_SIZE) in
        let! bs := io_map_err read_error (do_read read_limit) in
        if bool_decide (bs = []) then io_err end_of_data
        else
          let! _ := io_map_err write_error (do_write bs) in
          stream_data_loop fuel' read_error write_error end_of_data (remaining - len bs)
    end.

Definition stream_data (read_error write_error : io_error -> ProxyError) (end_of_data : ProxyError) (remaining : Z)
  : io (R * W) ProxyError unit :=
  fun s => stream_data_loop (stream_fuel s) read_error write_error end_of_data remaining s.

(** [write_all(line)] and then [write_all(CRLF)]. *)
Definition write_line (write_error : io_error -> ProxyError) (line : bytes) : io (R * W) ProxyError unit :=
  let! _ := io_map_err write_error (do_write line) in
  io_map_err write_error (do_write CRLF).

Fixpoint stream_trailers_loop (fuel : nat) (d : side) (trailer_count trailer_bytes : Z)
  : io (R * W) ProxyError unit :=
  match fuel with
  | O => out_of_fuel
  | S fuel' =>
      let! line := io_map_err (line_error d) (read_chunk_line MAX_TRAILER_LINE_SIZE) in
      let! trailer_bytes := io_lift (ok_or (checked_add usize_max trailer_bytes (len line + 2)) (trailers_too_large d)) in
      if MAX_TRAILER_BLOCK_SIZE <? trailer_bytes then io_err (trailers_too_large d)
      else if bool_decide (line = []) then io_map_err (write_error d) (do_write CRLF)
      else if MAX_TRAILER_COUNT <=? trailer_count then io_err (too_many_trailers d)
      else
        let! _ := io_lift (map_err (trailer_error d) (validate_trailer_line line)) in
        let! _ := write_line (write_error d) line in
        stream_trailers_loop fuel' d (trailer_count + 1) trailer_bytes
  end.

Definition stream_trailers (d : side) : io (R * W) ProxyError unit :=
  fun s => stream_trailers_loop (stream_fuel s) d 0 0 s.

Fixpoint stream_chunks_loop (fuel : nat) (d : side) : io (R * W) ProxyError unit :=
  match fuel with
  | O => out_of_fuel
  | S fuel' =>
      let! size_line := io_map_err (line_error d) (read_chunk_line MAX_CHUNK_LINE_SIZE) in
      let! chunk_size := io_lift (map_err (size_error d) (parse_chunk_size size_line)) in
      let! _ := write_line (write_error d) size_line in
      if chunk_size =? 0 then stream_trailers d
      else
        let! _ := stream_data (read_error d) (write_error d) (end_of_data d) chunk_size in
        let! ending := io_map_err (read_error d) (read_exact 2) in
        if negb (bytes_eqb ending CRLF) then io_err (missing_crlf d)
        else
          let! _ := io_map_err (write_error d) (do_write CRLF) in
          stream_chunks_loop fuel' d
  end.

Definition stream_chunks (d : side) : io (R * W) ProxyError unit :=
  fun s => stream_chunks_loop (stream_fuel s) d s.

Definition stream_chunk_data (remaining : Z) : io (R * W) ProxyError unit :=
  stream_data (read_error request_side) (write_error request_side) (end_of_data request_side) remaining.

Definition stream_request_trailers : io (R * W) ProxyError unit := stream_trailers request_side.

Definition stream_response_chunk_data (remaining : Z) : io (R * W) ProxyError unit :=
  stream_data (read_error response_side) (write_error response_side) (end_of_data response_side) remaining.

Definition stream_response_trailers : io (R * W) ProxyError unit := stream_trailers response_side.

Definition stream_request_body (content_length : Z) (buffered_body : bytes) : io (R * W) ProxyError bytes :=
  let buffered_length := Nat.min (length buffered_body) (Z.to_nat content_length) in
  let! buffered_client_bytes := io_lift (slice_from buffered_body buffered_length) in
  let! _ :=
    if (0 <? buffered_length)%nat then
      let! part := io_lift (slice_to buffered_body buffered_length) in
      io_map_err upstream_write_error (do_write part)
    else io_ret tt in
  let remaining := Z.max 0 (content_length - Z.of_nat buffered_length) in
  let! _ := stream_data client_read_error upstream_write_error
              (ClientRead UnexpectedEof (str "client disconnected before completing request body")) remaining in
  io_ret buffered_client_bytes.

Definition stream_fixed_response_body (content_length : Z) (buffered_body : bytes) : io (R * W) ProxyError unit :=
  let buffered_length := Nat.min (length buffered_body) (Z.to_nat content_length) in
  let! _ :=
    if (0 <? buffered_length)%nat then
      let! part := io_lift (slice_to buffered_body buffered_length) in
      io_map_err response_started (do_write part)
    else io_ret tt in
  let remaining := Z.max 0 (content_length - Z.of_nat buffered_length) in
  stream_data response_started response_started
    (ResponseStarted (str "upstream disconnected before completing response body")) remaining.

Fixpoint stream_to_end_loop (fuel : nat) : io (R * W) ProxyError unit :=
  match fuel with
  | O => out_of_fuel
  | S fuel' =>
      let! bs := io_map_err response_started (do_read (Z.to_nat STREAM_BUFFER_SIZE)) in
      if bool_decide (bs = []) then io_ret tt
      else
        let! _ := io_map_err response_started (do_write bs) in
        stream_to_end_loop fuel'
  end.

Definition stream_close_delimited_response_body (buffered_body : bytes) : io (R * W) ProxyError unit :=
  let! _ :=
    if negb (bool_decide (buffered_body = [])) then io_map_err response_started (do_write buffered_body)
    else io_ret tt in
  fun s => stream_to_end_loop (stream_fuel s) s.

(** [buffer] holds what has been read of the head, and perhaps more. *)
Fixpoint read_response_head_loop (fuel : nat) (buffer : bytes) : io (R * W) ProxyError (bytes * bytes) :=
  match fuel with
  | O => out_of_fuel
  | S fuel' =>
      match windows_position (CRLF ++ CRLF) buffer with
      | Some header_end =>
          let body_start := (header_end + 4)%nat in
          let! buffered_body := io_lift (slice_from buffer body_start) in
          let head := take body_start buffer in
          let! _ := io_lift (validate_response_head_syntax head) in
          io_ret (head, buffered_body)
      | None =>
          if MAX_RESPONSE_HEAD_SIZE <=? len buffer then io_err IncompleteResponse
          else
            let remaining_capacity := MAX_RESPONSE_HEAD_SIZE - len buffer in
            let read_limit := Z.to_nat (Z.min remaining_capacity STREAM_BUFFER_SIZE) in
            let! bs := io_map_err upstream_read_error (do_read read_limit) in
            if bool_decide (bs = []) then
              io_err (if bool_decide (buffer = []) then EmptyResponse else IncompleteResponse)
            else read_response_head_loop fuel' (buffer ++ bs)
      end
  end.

Definition read_response_head (buffered_prefix : bytes) : io (R * W) ProxyError (bytes * bytes) :=
  fun s => read_response_head_loop (S (stream_fuel s)) buffered_prefix s.

End loops.

Section chunked.
Context {R W : Type} `{!Read R} `{!Write W}.

(** [reader.remaining_prefix().to_vec()] at the end of the chunks. *)
Definition take_remaining_prefix : io (PrefixedReader R * W) ProxyError bytes :=
  fun s => (remaining_prefix s.1, s).

Definition stream_chunked_request_body (buffered_body : bytes) : io (R * W) ProxyError bytes :=
  with_prefix buffered_body
    (let! _ := stream_chunks request_side in take_remaining_prefix).

Definition stream_chunked_response_body (buffered_body : bytes) : io (R * W) ProxyError unit :=
  with_prefix buffered_body (stream_chunks response_side).

End chunked.

Lemma validate_trailer_line_returns (line : bytes) : returns (validate_trailer_line line).
Proof.
  unfold validate_trailer_line. apply res_bind_returns; [apply ok_or_returns|]. intros i Hi%ok_or_Ok%position_lt.
  rewrite slice_to_Ok, slice_from_Ok by lia. cbn [res_bind]. by repeat case_match.
Qed.

Lemma parse_chunk_size_returns (line : bytes) : returns (parse_chunk_size line).
Proof.
  unfold parse_chunk_size. apply res_bind_returns.
  - destruct (position (byte_eqb x3b) line) as [i|] eqn:Hi; [|done]. apply position_lt in Hi.
    by rewrite slice_to_Ok, slice_from_Ok by lia.
  - intros [size ext] _. repeat first [apply ok_or_returns | exact I | case_match].
Qed.

(** ** Framing lines *)
Section lines.
Context {R W : Type} `{!Read R} `{!Write W}.
Implicit Types (s : R * W).

Lemma wp_read_one {A : Type} (f : io_error -> ProxyError) (k : byte -> io (R * W) ProxyError A) s
    (Q : A -> R * W -> Prop) (X : ProxyError -> R * W -> Prop) :
  (forall c b s', took s c [] s' -> quiet c -> bytes_of c = [b] -> wp (k b) s' Q X) ->
  (forall e c s', took s c [] s' -> X (f e) s') ->
  wp (let! one := io_map_err f (read_exact 1) in let! b := io_lift (index one 0) in k b) s Q X.
Proof.
  intros HQ HX. apply wp_bind, wp_map_err, wp_read_exact.
  - intros c bs s' Ht Hq Hb Hl. destruct bs as [|b [|]]; try done. apply wp_bind. apply (HQ c b s' Ht Hq Hb).
  - intros e c s' Ht. by eapply HX.
Qed.

Lemma bytes_of_length (c : list event) : (length (bytes_of c) <= length c)%nat.
Proof. unfold bytes_of. induction c as [|[b|e] c IH]; cbn in *; lia. Qed.

Lemma wp_read_chunk_line_loop (fuel : nat) (m : Z) (line : bytes) s
    (Q : bytes -> R * W -> Prop) (X : ProxyError -> R * W -> Prop) :
  (stream_fuel s <= fuel)%nat -> len line <= m ->
  (forall c l s', took s c [] s' -> quiet c -> bytes_of c = l ++ CRLF -> clean l -> len (line ++ l) <= m ->
     Q (line ++ l) s') ->
  (forall e c s', took s c [] s' -> X e s') ->
  wp (read_chunk_line_loop fuel m line) s Q X.
Proof.
  revert line s. induction fuel as [|fuel IH]; intros line s Hf Hm HQ HX; [unfold stream_fuel in Hf; lia|].
  cbn [read_chunk_line_loop]. apply wp_read_one; [|intros; by eapply HX].
  intros c b s1 Ht Hq Hb. destruct (byte_eqb b CR) eqn:HCR.
  - apply byte_eqb_eq in HCR as ->. apply wp_read_one.
    + intros c2 b2 s2 Ht2 Hq2 Hb2. pose proof (took_trans _ _ _ _ _ _ _ Ht Ht2) as Ht'.
      destruct (byte_eqb b2 LF) eqn:HLF; [|eapply wp_err, HX, Ht'].
      apply byte_eqb_eq in HLF as ->. apply wp_ret. rewrite <- (app_nil_r line).
      apply (HQ (c ++ c2)); [done|by apply Forall_app| |apply clean_nil|by rewrite app_nil_r].
      by rewrite bytes_of_app, Hb, Hb2.
    + intros e c2 s2 Ht2. eapply HX, (took_trans _ _ _ _ _ _ _ Ht Ht2).
  - destruct (byte_eqb b LF) eqn:HLF; [by eapply wp_err, HX|].
    destruct (Z.leb_spec m (len line)); [by eapply wp_err, HX|].
    apply byte_eqb_neq in HCR, HLF. apply IH.
    + pose proof (took_fuel _ _ _ _ Ht). pose proof (bytes_of_length c) as Hc. rewrite Hb in Hc. simpl in Hc. lia.
    + autorewrite with proxy. lia.
    + intros c2 l s2 Ht2 Hq2 Hb2 Hcl Hlen. rewrite <- app_assoc in *.
      apply (HQ (c ++ c2)); [by apply (took_trans _ _ _ _ _ [] [] Ht Ht2)|by apply Forall_app| | |done].
      * by rewrite bytes_of_app, Hb, Hb2.
      * destruct Hcl. split; apply not_elem_of_cons; split; auto.
    + intros e c2 s2 Ht2. eapply HX, (took_trans _ _ _ _ _ _ _ Ht Ht2).
Qed.

(** A framing line: no CR, no LF, at most [m] bytes. *)
Definition framing_line_ok (m : Z) (l : bytes) : Prop := clean l /\ len l <= m.

Lemma wp_read_chunk_line (m : Z) s (Q : bytes -> R * W -> Prop) (X : ProxyError -> R * W -> Prop) :
  0 <= m ->
  (forall c l s', took s c [] s' -> quiet c -> bytes_of c = l ++ CRLF -> framing_line_ok m l -> Q l s') ->
  (forall e c s', took s c [] s' -> X e s') ->
  wp (read_chunk_line m) s Q X.
Proof.
  intros Hm HQ HX. unfold wp, read_chunk_line. apply wp_read_chunk_line_loop; [done|done| |done].
  intros c l s' Ht Hq Hb Hc Hl. by eapply HQ.
Qed.

Lemma wp_write_line (f : io_error -> ProxyError) (line : bytes) s
    (Q : unit -> R * W -> Prop) (X : ProxyError -> R * W -> Prop) :
  (forall s', took s [] (line ++ CRLF) s' -> Q tt s') ->
  (forall e s' pre post, line ++ CRLF = pre ++ post -> took s [] pre s' -> X (f e) s') ->
  wp (write_line f line) s Q X.
Proof.
  intros HQ HX. unfold write_line. apply wp_bind, wp_map_err, wp_do_write.
  - intros s1 Ht. apply wp_map_err, wp_do_write.
    + intros s2 Ht2. apply HQ, (took_trans _ _ _ _ _ _ _ Ht Ht2).
    + intros e s2 pre post E Ht2. apply (HX e s2 (line ++ pre) post).
      * by rewrite E, app_assoc.
      * apply (took_trans _ _ _ _ _ _ _ Ht Ht2).
  - intros e s1 pre post -> Ht. apply (HX e s1 pre (post ++ CRLF)); [by rewrite app_assoc|done].
Qed.

(** What has been written is a prefix of what has been read. *)
Definition forwarded s s' : Prop :=
  exists c pre post, took s c pre s' /\ bytes_of c = pre ++ post.

(** What has been written is what has been read. *)
Definition copied s (bs : bytes) s' : Prop :=
  exists c, took s c bs s' /\ quiet c /\ bytes_of c = bs.

Lemma copied_refl s : copied s [] s.
Proof. exists []. split; [apply took_refl|]. split; [constructor|done]. Qed.

Lemma copied_trans s s' s'' bs bs' : copied s bs s' -> copied s' bs' s'' -> copied s (bs ++ bs') s''.
Proof.
  intros (c & Ht & Hq & Hb) (c' & Ht' & Hq' & Hb'). exists (c ++ c'). split; [by eapply took_trans|].
  split; [by apply Forall_app|]. by rewrite bytes_of_app, Hb, Hb'.
Qed.

Lemma copied_data s s' bs : took s (data bs) bs s' -> copied s bs s'.
Proof. intros Ht. exists (data bs). split; [done|]. split; [apply quiet_data|apply bytes_of_data]. Qed.

Lemma forwarded_after s s' s'' bs : copied s bs s' -> forwarded s' s'' -> forwarded s s''.
Proof.
  intros (c & Ht & _ & Hb) (c' & pre & post & Ht' & Hb'). exists (c ++ c'), (bs ++ pre), post.
  split; [by eapply took_trans|]. by rewrite bytes_of_app, Hb, Hb', app_assoc.
Qed.

Lemma forwarded_read s s' c : took s c [] s' -> forwarded s s'.
Proof. intros Ht. by exists c, [], (bytes_of c). Qed.

Lemma copied_forwarded s s' bs : copied s bs s' -> forwarded s s'.
Proof. intros (c & Ht & _ & Hb). exists c, bs, []. by rewrite app_nil_r. Qed.

(** Bytes that were read, and are then written. *)
Lemma copied_write s s1 s2 c bs :
  took s c [] s1 -> quiet c -> bytes_of c = bs -> took s1 [] bs s2 -> copied s bs s2.
Proof.
  intros Ht Hq Hb Ht'. exists c. split; [|done]. pose proof (took_trans _ _ _ _ _ _ _ Ht Ht') as H.
  by rewrite app_nil_r in H.
Qed.

Lemma forwarded_write s s1 s2 c pre post :
  took s c [] s1 -> bytes_of c = pre ++ post -> took s1 [] pre s2 -> forwarded s s2.
Proof.
  intros Ht Hb Ht'. exists c, pre, post. split; [|done]. pose proof (took_trans _ _ _ _ _ _ _ Ht Ht') as H.
  by rewrite app_nil_r in H.
Qed.

Lemma wp_stream_data_loop (fuel : nat) (re we : io_error -> ProxyError) (eof : ProxyError) (n : Z) s
    (Q : unit -> R * W -> Prop) (X : ProxyError -> R * W -> Prop) :
  (stream_fuel s <= fuel)%nat -> 0 <= n ->
  (forall bs s', took s (data bs) bs s' -> len bs = n -> Q tt s') ->
  (forall e s', forwarded s s' -> X e s') ->
  wp (stream_data_loop fuel re we eof n) s Q X.
Proof.
  revert n s. induction fuel as [|fuel IH]; intros n s Hf Hn HQ HX; [unfold stream_fuel in Hf; lia|].
  cbn [stream_data_loop]. destruct (Z.leb_spec n 0).
  { apply wp_ret. apply (HQ []); [apply took_refl|]. rewrite len_nil. lia. }
  assert (Hlim : (0 < Z.to_nat (Z.min n STREAM_BUFFER_SIZE))%nat) by (unfold STREAM_BUFFER_SIZE; lia).
  apply wp_bind, wp_map_err, wp_do_read; [done| |intros e s1 Ht; by eapply HX, forwarded_read].
  intros bs s1 Hle Ht Heof. case_bool_decide as Hb; [eapply wp_err, HX, forwarded_read, Ht|].
  assert (length bs <> 0)%nat by (by destruct bs).
  apply wp_bind, wp_map_err, wp_do_write.
  - intros s2 Ht2. pose proof (took_trans _ _ _ _ _ _ _ Ht Ht2) as Ht'. rewrite app_nil_r in Ht'. cbn [app] in Ht'.
    apply IH.
    + apply took_fuel in Ht'. rewrite length_data in Ht'. lia.
    + unfold len. lia.
    + intros bs' s3 Ht3 Hl3. apply (HQ (bs ++ bs')); [|rewrite len_app; lia].
      rewrite data_app. by apply (took_trans _ _ _ _ _ _ _ Ht' Ht3).
    + intros e s3 H3. apply HX. eapply forwarded_after; [by apply copied_data|done].
  - intros e s2 pre post -> Ht2. eapply HX, forwarded_write; [done|apply bytes_of_data|done].
Qed.

Lemma wp_stream_data (re we : io_error -> ProxyError) (eof : ProxyError) (n : Z) s
    (Q : unit -> R * W -> Prop) (X : ProxyError -> R * W -> Prop) :
  0 <= n ->
  (forall bs s', took s (data bs) bs s' -> len bs = n -> Q tt s') ->
  (forall e s', forwarded s s' -> X e s') ->
  wp (stream_data re we eof n) s Q X.
Proof. intros Hn HQ HX. unfold wp, stream_data. by apply wp_stream_data_loop. Qed.

(** ** Chunked messages *)

(** A trailer section after [count] fields and [size] bytes of trailers. *)
Inductive trailer_section (count size : Z) : bytes -> Prop :=
| trailers_end : size + 2 <= MAX_TRAILER_BLOCK_SIZE -> trailer_section count size CRLF
| trailers_field line rest :
    framing_line_ok MAX_TRAILER_LINE_SIZE line -> line <> [] -> validate_trailer_line line = Ok tt ->
    count < MAX_TRAILER_COUNT -> size + len line + 2 <= MAX_TRAILER_BLOCK_SIZE ->
    trailer_section (count + 1) (size + len line + 2) rest ->
    trailer_section count size (line ++ CRLF ++ rest).

(** [chunked_message wire body]: [wire] is a chunked message that carries [body]. *)
Inductive chunked_message : bytes -> bytes -> Prop :=
| last_chunk size_line trailers :
    framing_line_ok MAX_CHUNK_LINE_SIZE size_line -> parse_chunk_size size_line = Ok 0 ->
    trailer_section 0 0 trailers ->
    chunked_message (size_line ++ CRLF ++ trailers) []
| next_chunk size_line chunk wire body :
    framing_line_ok MAX_CHUNK_LINE_SIZE size_line -> parse_chunk_size size_line = Ok (len chunk) -> chunk <> [] ->
    chunked_message wire body ->
    chunked_message (size_line ++ CRLF ++ chunk ++ CRLF ++ wire) (chunk ++ body).

Lemma wp_stream_trailers_loop (fuel : nat) (d : side) (count size : Z) s
    (Q : unit -> R * W -> Prop) (X : ProxyError -> R * W -> Prop) :
  (stream_fuel s <= fuel)%nat -> 0 <= size ->
  (forall tr s', copied s tr s' -> trailer_section count size tr -> Q tt s') ->
  (forall e s', forwarded s s' -> X e s') ->
  wp (stream_trailers_loop fuel d count size) s Q X.
Proof.
  revert count size s. induction fuel as [|fuel IH]; intros count size s Hf Hs HQ HX; [unfold stream_fuel in Hf; lia|].
  cbn [stream_trailers_loop]. apply wp_bind, wp_map_err, wp_read_chunk_line; [done| |intros; by eapply HX, forwarded_read].
  intros c line s1 Ht Hq Hb [Hc Hl]. pose proof (len_nonneg line).
  apply wp_bind, wp_lift; [apply ok_or_returns| |intros; by eapply HX, forwarded_read].
  intros total Hadd%ok_or_Ok. unfold checked_add in Hadd. case_match; [|done]. injection Hadd as <-.
  destruct (Z.ltb_spec MAX_TRAILER_BLOCK_SIZE (size + (len line + 2))) as [|Hsz]; [by eapply wp_err, HX, forwarded_read|].
  case_bool_decide as Hne.
  - subst line. apply wp_map_err, wp_do_write.
    + intros s2 Ht2. apply (HQ CRLF); [by eapply copied_write|]. constructor. rewrite len_nil in Hsz. lia.
    + intros e s2 pre post E Ht2. eapply HX, forwarded_write; [done| |done]. by rewrite Hb.
  - destruct (Z.leb_spec MAX_TRAILER_COUNT count); [by eapply wp_err, HX, forwarded_read|].
    apply wp_bind, wp_lift; [apply map_err_returns, validate_trailer_line_returns| |intros; by eapply HX, forwarded_read].
    intros [] Hv. destruct (validate_trailer_line line) as [[]| | |] eqn:Ev; try done.
    apply wp_bind, wp_write_line.
    + intros s2 Ht2. pose proof (copied_write _ _ _ _ _ Ht Hq Hb Ht2) as Hcp. apply IH.
      * destruct Ht2 as [E2 _]. pose proof (took_fuel _ _ _ _ Ht) as Hfu. pose proof (bytes_of_length c) as Hbl.
        rewrite Hb, length_app in Hbl. simpl in Hbl. unfold stream_fuel in *. rewrite E2 in Hfu. simpl in Hfu. lia.
      * lia.
      * intros tr s3 H3 Htr. apply (HQ (line ++ CRLF ++ tr)).
        -- rewrite app_assoc. by eapply copied_trans.
        -- constructor; try done; [lia|]. by rewrite <- Z.add_assoc.
      * intros e s3 H3. apply HX. by eapply forwarded_after.
    + intros e s2 pre post E Ht2. eapply HX, forwarded_write; [done|by rewrite Hb|done].
Qed.

Lemma wp_stream_trailers (d : side) s (Q : unit -> R * W -> Prop) (X : ProxyError -> R * W -> Prop) :
  (forall tr s', copied s tr s' -> trailer_section 0 0 tr -> Q tt s') ->
  (forall e s', forwarded s s' -> X e s') ->
  wp (stream_trailers d) s Q X.
Proof. intros HQ HX. unfold wp, stream_trailers. by apply wp_stream_trailers_loop. Qed.

Lemma parse_chunk_size_range (line : bytes) (n : Z) : parse_chunk_size line = Ok n -> 0 <= n <= u64_max.
Proof.
  unfold parse_chunk_size. rewrite res_bind_Ok. intros ([size ext] & _ & H).
  destruct (bool_decide (size = []) || negb (all is_ascii_hexdigit size)); [done|].
  match type of H with (if ?b then _ else _) = _ => destruct b end; [done|].
  destruct (negb (utf8_valid size)); [done|]. apply ok_or_Ok, from_str_radix_range in H; [done|lia|done].
Qed.

Lemma copied_fuel s s' bs : copied s bs s' -> (length bs + stream_fuel s' <= stream_fuel s)%nat.
Proof.
  intros (c & Ht & _ & Hb). rewrite (took_fuel _ _ _ _ Ht). pose proof (bytes_of_length c) as Hl.
  rewrite Hb in Hl. lia.
Qed.

Lemma wp_stream_chunks_loop (fuel : nat) (d : side) s (Q : unit -> R * W -> Prop) (X : ProxyError -> R * W -> Prop) :
  (stream_fuel s <= fuel)%nat ->
  (forall wire body s', copied s wire s' -> chunked_message wire body -> Q tt s') ->
  (forall e s', forwarded s s' -> X e s') ->
  wp (stream_chunks_loop fuel d) s Q X.
Proof.
  revert s Q. induction fuel as [|fuel IH]; intros s Q Hf HQ HX; [unfold stream_fuel in Hf; lia|].
  cbn [stream_chunks_loop]. apply wp_bind, wp_map_err, wp_read_chunk_line; [done| |intros; by eapply HX, forwarded_read].
  intros c line s1 Ht Hq Hb Hline.
  apply wp_bind, wp_lift; [apply map_err_returns, parse_chunk_size_returns| |intros; by eapply HX, forwarded_read].
  intros n Hn. destruct (parse_chunk_size line) as [n'| | |] eqn:Hsize; try done. injection Hn as ->.
  pose proof (parse_chunk_size_range _ _ Hsize) as Hr.
  apply wp_bind, wp_write_line; [|intros e s2 pre post E Ht2; eapply HX, forwarded_write; [done|by rewrite Hb|done]].
  intros s2 Ht2. pose proof (copied_write _ _ _ _ _ Ht Hq Hb Ht2) as H2. destruct (Z.eqb_spec n 0) as [->|Hn0].
  { apply wp_stream_trailers; [|intros; by eapply HX, forwarded_after].
    intros tr s3 H3 Htr. apply (HQ (line ++ CRLF ++ tr) []).
    - rewrite app_assoc. by eapply copied_trans.
    - by constructor. }
  apply wp_bind, wp_stream_data; [lia| |intros; by eapply HX, forwarded_after].
  intros chunk s3 Ht3 Hlen. pose proof (copied_trans _ _ _ _ _ H2 (copied_data _ _ _ Ht3)) as H3.
  apply wp_bind, wp_map_err, wp_read_exact; [|intros; by eapply HX, forwarded_after, forwarded_read].
  intros c4 ending s4 Ht4 Hq4 Hb4 Hl4. destruct (bytes_eqb ending CRLF) eqn:Ee.
  2: { eapply wp_err, HX, forwarded_after; [done|by eapply forwarded_read]. }
  apply bytes_eqb_eq in Ee as ->. apply wp_bind, wp_map_err, wp_do_write.
  - intros s5 Ht5. pose proof (copied_trans _ _ _ _ _ H3 (copied_write _ _ _ _ _ Ht4 Hq4 Hb4 Ht5)) as H5. apply IH.
    + apply copied_fuel in H5. rewrite !length_app in H5. simpl in H5. lia.
    + intros wire body s6 H6 Hm. apply (HQ (line ++ CRLF ++ chunk ++ CRLF ++ wire) (chunk ++ body)).
      * pose proof (copied_trans _ _ _ _ _ H5 H6) as H. by rewrite <- !app_assoc in H.
      * constructor; [done|by rewrite Hlen| |done]. intros ->. rewrite len_nil in Hlen. lia.
    + intros; by eapply HX, forwarded_after.
  - intros e s5 pre post E Ht5. eapply HX, forwarded_after; [done|]. eapply forwarded_write; [done|by rewrite Hb4|done].
Qed.

Lemma wp_stream_chunks (d : side) s (Q : unit -> R * W -> Prop) (X : ProxyError -> R * W -> Prop) :
  (forall wire body s', copied s wire s' -> chunked_message wire body -> Q tt s') ->
  (forall e s', forwarded s s' -> X e s') ->
  wp (stream_chunks d) s Q X.
Proof. intros HQ HX. unfold wp, stream_chunks. by apply wp_stream_chunks_loop. Qed.

Lemma wp_stream_to_end_loop (fuel : nat) s (Q : unit -> R * W -> Prop) (X : ProxyError -> R * W -> Prop) :
  (stream_fuel s <= fuel)%nat ->
  (forall bs s', took s (data bs) bs s' -> pending s'.1 = [] -> Q tt s') ->
  (forall e s', forwarded s s' -> X e s') ->
  wp (stream_to_end_loop fuel) s Q X.
Proof.
  revert s. induction fuel as [|fuel IH]; intros s Hf HQ HX; [unfold stream_fuel in Hf; lia|].
  cbn [stream_to_end_loop].
  apply wp_bind, wp_map_err, wp_do_read; [unfold STREAM_BUFFER_SIZE; lia| |intros; by eapply HX, forwarded_read].
  intros bs s1 _ Ht Heof. case_bool_decide as Hb.
  - subst bs. apply wp_ret. apply (HQ [] s1 Ht). destruct Ht as [Hp _]. rewrite Heof in Hp by done. done.
  - assert (length bs <> 0)%nat by (by destruct bs). apply wp_bind, wp_map_err, wp_do_write.
    + intros s2 Ht2. pose proof (took_trans _ _ _ _ _ _ _ Ht Ht2) as Ht'. rewrite app_nil_r in Ht'. cbn [app] in Ht'.
      apply IH.
      * apply took_fuel in Ht'. rewrite length_data in Ht'. lia.
      * intros bs' s3 Ht3 He. apply (HQ (bs ++ bs')); [|done]. rewrite data_app. by apply (took_trans _ _ _ _ _ _ _ Ht' Ht3).
      * intros; eapply HX, forwarded_after; [by apply copied_data|done].
    + intros e s2 pre post -> Ht2. eapply HX, forwarded_write; [done|apply bytes_of_data|done].
Qed.

End lines.

(** ** Streams without failures: every well-formed body is copied *)
Section complete.
Context {R W : Type} `{!Read R} `{!Write W} `{!ReliableWrite W}.
Implicit Types (s : R * W).

Lemma does_read_one {A : Type} (f : io_error -> ProxyError) (k : byte -> io (R * W) ProxyError A) s b a
    (rest : list event) (c : list event) (out : bytes) :
  reliable s.2 -> pending s.1 = inl b :: rest ->
  (forall s', took s [inl b] [] s' -> reliable s'.2 -> does (k b) s' a c out) ->
  does (let! one := io_map_err f (read_exact 1) in let! b := io_lift (index one 0) in k b) s a (inl b :: c) out.
Proof.
  intros Hr Hp Hk. apply (does_bind _ _ _ [b] _ [inl b] c [] out).
  - apply does_map_err. by apply (does_read_exact [b] rest).
  - intros s1 Ht Hr1. apply (does_bind _ _ _ b _ [] c [] out); [by apply does_lift|].
    intros s2 Ht2 Hr2. apply Hk; [|done]. by apply (took_trans _ _ _ [inl b] [] [] [] Ht Ht2).
Qed.

Lemma took_pending s s' c out rest : pending s.1 = c ++ rest -> took s c out s' -> pending s'.1 = rest.
Proof. intros H [E _]. rewrite H in E. by apply app_inv_head in E. Qed.

Lemma does_read_chunk_line_loop (fuel : nat) (m : Z) (line l : bytes) (rest : list event) s :
  (stream_fuel s <= fuel)%nat -> reliable s.2 -> pending s.1 = data (l ++ CRLF) ++ rest -> clean l ->
  len (line ++ l) <= m ->
  does (read_chunk_line_loop fuel m line) s (line ++ l) (data (l ++ CRLF)) [].
Proof.
  revert line l s. induction fuel as [|fuel IH]; intros line l s Hf Hr Hp Hc Hm; [unfold stream_fuel in Hf; lia|].
  cbn [read_chunk_line_loop]. destruct l as [|b l].
  - cbn [app data map CRLF] in Hp. eapply does_read_one; [done|exact Hp|]. intros s1 Ht Hr1.
    change (byte_eqb CR CR) with true. cbv iota.
    eapply does_read_one; [done|exact (took_pending s s1 [inl CR] [] (inl LF :: rest) Hp Ht)|]. intros s2 Ht2 Hr2.
    change (byte_eqb LF LF) with true. cbn [negb]. rewrite app_nil_r. by apply does_ret.
  - destruct Hc as [HC HL]. apply not_elem_of_cons in HC as [HbC HC], HL as [HbL HL].
    cbn [app data map] in Hp. change (data ((b :: l) ++ CRLF)) with (inl b :: data (l ++ CRLF)).
    eapply does_read_one; [done|exact Hp|]. intros s1 Ht Hr1.
    rewrite (proj2 (byte_eqb_neq b CR)), (proj2 (byte_eqb_neq b LF)) by congruence.
    autorewrite with proxy in Hm. pose proof (len_nonneg l).
    rewrite (proj2 (Z.leb_gt _ _)) by lia. replace (line ++ b :: l) with ((line ++ [b]) ++ l) by (by rewrite <- app_assoc).
    apply IH; [|done| |done|].
    + apply took_fuel in Ht. simpl in Ht. lia.
    + exact (took_pending s s1 [inl b] [] _ Hp Ht).
    + autorewrite with proxy. lia.
Qed.

Lemma does_read_chunk_line (m : Z) (l : bytes) (rest : list event) s :
  reliable s.2 -> pending s.1 = data (l ++ CRLF) ++ rest -> framing_line_ok m l ->
  does (read_chunk_line m) s l (data (l ++ CRLF)) [].
Proof.
  intros Hr Hp [Hc Hl]. destruct (does_read_chunk_line_loop (stream_fuel s) m [] l rest s) as (s' & H); [done..|].
  by exists s'.
Qed.

Lemma does_write_line (f : io_error -> ProxyError) (line : bytes) s :
  reliable s.2 -> does (write_line f line) s tt [] (line ++ CRLF).
Proof.
  intros Hr. unfold write_line. apply (does_bind _ _ _ tt _ [] []); [by apply does_map_err, does_write|].
  intros s1 _ Hr1. by apply does_map_err, does_write.
Qed.

Lemma does_stream_data_loop (fuel : nat) (re we : io_error -> ProxyError) (eof : ProxyError) (bs : bytes)
    (rest : list event) s :
  (stream_fuel s <= fuel)%nat -> reliable s.2 -> pending s.1 = data bs ++ rest ->
  does (stream_data_loop fuel re we eof (len bs)) s tt (data bs) bs.
Proof.
  revert bs s. induction fuel as [|fuel IH]; intros bs s Hf Hr Hp; [unfold stream_fuel in Hf; lia|].
  cbn [stream_data_loop]. destruct bs as [|b bs]; [by apply does_ret|].
  rewrite (proj2 (Z.leb_gt _ _)) by (rewrite len_cons; pose proof (len_nonneg bs); lia).
  set (n := Z.to_nat (Z.min (len (b :: bs)) STREAM_BUFFER_SIZE)).
  assert (Hn : (0 < n <= length (b :: bs))%nat) by (unfold n, len, STREAM_BUFFER_SIZE; simpl length; lia).
  destruct (does_read n s b bs rest) as (bs1 & Hne & Hle & Hd); [lia|done|done|].
  assert (Hpre : exists bs2, b :: bs = bs1 ++ bs2).
  { destruct Hd as (s1 & _ & [Ht _] & _). rewrite Hp in Ht.
    destruct (data_prefix (b :: bs) bs1 rest (pending s1.1)) as (bs2 & E & _); [done|lia|]. by exists bs2. }
  destruct Hpre as [bs2 E]. rewrite E. replace (data (bs1 ++ bs2)) with (data bs1 ++ data bs2) by (by rewrite data_app).
  apply (does_bind _ _ _ bs1 _ (data bs1) (data bs2) [] (bs1 ++ bs2)); [by apply does_map_err|].
  intros s1 Ht Hr1. rewrite bool_decide_false by done. change (data bs2) with ([] ++ data bs2).
  apply (does_bind _ _ _ tt _ [] (data bs2) bs1 bs2); [by apply does_map_err, does_write|]. intros s2 Ht2 Hr2.
  replace (len (bs1 ++ bs2) - len bs1) with (len bs2) by (rewrite len_app; lia).
  pose proof (took_trans _ _ _ _ _ _ _ Ht Ht2) as Ht'. rewrite app_nil_r in Ht'. apply IH; [|done|].
  - apply took_fuel in Ht'. rewrite length_data in Ht'. destruct bs1; [done|]. simpl in Ht'. lia.
  - eapply took_pending; [|exact Ht']. by rewrite Hp, E, data_app, app_assoc.
Qed.

Lemma does_stream_data (re we : io_error -> ProxyError) (eof : ProxyError) (bs : bytes) (rest : list event) s :
  reliable s.2 -> pending s.1 = data bs ++ rest -> does (stream_data re we eof (len bs)) s tt (data bs) bs.
Proof.
  intros Hr Hp. destruct (does_stream_data_loop (stream_fuel s) re we eof bs rest s) as (s' & H); [done..|].
  by exists s'.
Qed.

Lemma does_stream_trailers_loop (fuel : nat) (d : side) (count size : Z) (tr : bytes) (rest : list event) s :
  trailer_section count size tr -> 0 <= size -> (stream_fuel s <= fuel)%nat -> reliable s.2 ->
  pending s.1 = data tr ++ rest ->
  does (stream_trailers_loop fuel d count size) s tt (data tr) tr.
Proof.
  intros Htr. revert fuel s. induction Htr as [count size Hsz|count size line tr Hl Hne Hv Hcnt Hsz Htr IH];
    intros fuel s H0 Hf Hr Hp; (destruct fuel as [|fuel]; [unfold stream_fuel in Hf; lia|]); cbn [stream_trailers_loop].
  - rewrite <- (app_nil_r (data CRLF)).
    apply (does_bind _ _ _ [] _ (data CRLF) [] [] CRLF).
    { apply does_map_err, (does_read_chunk_line _ [] rest); [done|done|]. split; [apply clean_nil|]. vm_compute. discriminate. }
    intros s1 Ht1 Hr1. change (@nil event) with (@nil event ++ []).
    apply (does_bind _ _ _ (size + 2) _ [] [] [] CRLF).
    { apply does_lift; [done|]. unfold checked_add. rewrite len_nil, Z.add_0_l.
      unfold MAX_TRAILER_BLOCK_SIZE in Hsz. by rewrite (proj2 (Z.leb_le _ _)) by (unfold usize_max, u64_max; lia). }
    intros s2 Ht2 Hr2. rewrite (proj2 (Z.ltb_ge _ _)), bool_decide_true by done. by apply does_map_err, does_write.
  - pose proof (len_nonneg line) as Hln. rewrite app_assoc, data_app.
    apply (does_bind _ _ _ line _ (data (line ++ CRLF)) (data tr) [] ((line ++ CRLF) ++ tr)).
    { apply does_map_err, (does_read_chunk_line _ line (data tr ++ rest)); [done| |done].
      by rewrite Hp, !data_app, <- !app_assoc. }
    intros s1 Ht1 Hr1. change (data tr) with ([] ++ data tr).
    apply (does_bind _ _ _ (size + (len line + 2)) _ [] (data tr) [] ((line ++ CRLF) ++ tr)).
    { apply does_lift; [done|]. unfold checked_add. unfold MAX_TRAILER_BLOCK_SIZE in Hsz.
      by rewrite (proj2 (Z.leb_le _ _)) by (unfold usize_max, u64_max; lia). }
    intros s2 Ht2 Hr2. rewrite (proj2 (Z.ltb_ge _ _)) by lia. rewrite bool_decide_false by done.
    rewrite (proj2 (Z.leb_gt _ _)) by done. change (data tr) with ([] ++ data tr).
    apply (does_bind _ _ _ tt _ [] (data tr) [] ((line ++ CRLF) ++ tr)); [apply does_lift; [done|by rewrite Hv]|].
    intros s3 Ht3 Hr3. change (data tr) with ([] ++ data tr).
    apply (does_bind _ _ _ tt _ [] (data tr) (line ++ CRLF) tr); [by apply does_write_line|].
    intros s4 Ht4 Hr4.
    pose proof (took_trans _ _ _ _ _ _ _ Ht1 (took_trans _ _ _ _ _ _ _ Ht2 (took_trans _ _ _ _ _ _ _ Ht3 Ht4))) as Ht.
    rewrite !app_nil_r in Ht. replace (size + (len line + 2)) with (size + len line + 2) by lia. apply IH; [lia| |done|].
    + apply took_fuel in Ht. rewrite length_data, length_app in Ht. simpl in Ht. lia.
    + eapply took_pending; [|exact Ht]. by rewrite Hp, !data_app, <- !app_assoc.
Qed.

Lemma does_stream_trailers (d : side) (tr : bytes) (rest : list event) s :
  trailer_section 0 0 tr -> reliable s.2 -> pending s.1 = data tr ++ rest ->
  does (stream_trailers d) s tt (data tr) tr.
Proof.
  intros Htr Hr Hp. destruct (does_stream_trailers_loop (stream_fuel s) d 0 0 tr rest s) as (s' & H); [done..|].
  by exists s'.
Qed.

Lemma does_step {A B : Type} (m : io (R * W) ProxyError A) (k : A -> io (R * W) ProxyError B) s a b
    (ev out : bytes) (c' : list event) (out' : bytes) (rest : list event) :
  pending s.1 = data ev ++ rest ->
  does m s a (data ev) out ->
  (forall s', pending s'.1 = rest -> reliable s'.2 -> (length ev + stream_fuel s' = stream_fuel s)%nat ->
     does (k a) s' b c' out') ->
  does (io_bind m k) s b (data ev ++ c') (out ++ out').
Proof.
  intros Hp Hm Hk. eapply does_bind; [exact Hm|]. intros s' Ht Hr. apply Hk; [by eapply took_pending| |].
  - done.
  - apply took_fuel in Ht. by rewrite length_data in Ht.
Qed.

Lemma does_stream_chunks_loop (fuel : nat) (d : side) (wire body : bytes) (rest : list event) s :
  chunked_message wire body -> (stream_fuel s <= fuel)%nat -> reliable s.2 -> pending s.1 = data wire ++ rest ->
  does (stream_chunks_loop fuel d) s tt (data wire) wire.
Proof.
  intros Hm. revert fuel s. induction Hm as [line tr Hl Hsz Htr|line chunk wire body Hl Hsz Hne Hm IH];
    intros fuel s Hf Hr Hp; (destruct fuel as [|fuel]; [unfold stream_fuel in Hf; lia|]); cbn [stream_chunks_loop].
  - rewrite app_assoc, data_app.
    apply (does_step _ _ _ line _ (line ++ CRLF) [] (data tr) ((line ++ CRLF) ++ tr) (data tr ++ rest)).
    { by rewrite Hp, !data_app, <- !app_assoc. }
    { eapply does_map_err, does_read_chunk_line; [done| |done]. by rewrite Hp, !data_app, <- !app_assoc. }
    intros s1 Hp1 Hr1 Hf1. apply (does_step _ _ _ 0 _ [] [] (data tr) ((line ++ CRLF) ++ tr) (data tr ++ rest) Hp1).
    { apply does_lift; [done|by rewrite Hsz]. }
    intros s2 Hp2 Hr2 Hf2. apply (does_step _ _ _ tt _ [] (line ++ CRLF) (data tr) tr (data tr ++ rest) Hp2).
    { by apply does_write_line. }
    intros s3 Hp3 Hr3 Hf3. change (0 =? 0) with true. cbv iota. by eapply does_stream_trailers.
  - assert (E : data (line ++ CRLF ++ chunk ++ CRLF ++ wire) =
      data (line ++ CRLF) ++ data chunk ++ data CRLF ++ data wire) by (by rewrite !data_app, <- !app_assoc).
    rewrite E in Hp |- *. rewrite <- !app_assoc in Hp.
    replace (line ++ CRLF ++ chunk ++ CRLF ++ wire) with ([] ++ (line ++ CRLF) ++ chunk ++ CRLF ++ wire)
      by (by rewrite <- !app_assoc).
    eapply does_step; [exact Hp|eapply does_map_err, does_read_chunk_line; [done|exact Hp|done]|].
    intros s1 Hp1 Hr1 Hf1. change (data chunk ++ ?x) with (data [] ++ data chunk ++ x).
    change ((line ++ CRLF) ++ ?x) with ([] ++ (line ++ CRLF) ++ x).
    eapply does_step; [exact Hp1|apply does_lift; [done|by rewrite Hsz]|].
    intros s2 Hp2 Hr2 Hf2. change (data chunk ++ ?x) with (data [] ++ data chunk ++ x).
    eapply does_step; [exact Hp2|by apply does_write_line|].
    intros s3 Hp3 Hr3 Hf3. rewrite (proj2 (Z.eqb_neq _ _)).
    2: { unfold len. destruct chunk; [done|]. simpl. lia. }
    eapply does_step; [exact Hp3|by eapply does_stream_data|].
    intros s4 Hp4 Hr4 Hf4. change (CRLF ++ wire) with ([] ++ CRLF ++ wire).
    eapply does_step; [exact Hp4|by apply does_map_err, (does_read_exact CRLF (data wire ++ rest))|].
    intros s5 Hp5 Hr5 Hf5. change (negb (bytes_eqb CRLF CRLF)) with false. cbv iota.
    change (data wire) with (data [] ++ data wire).
    eapply does_step; [exact Hp5|by apply does_map_err, does_write|].
    intros s6 Hp6 Hr6 Hf6. apply IH; [|done|done]. rewrite length_app in Hf1. simpl in *. lia.
Qed.

Lemma does_stream_chunks (d : side) (wire body : bytes) (rest : list event) s :
  chunked_message wire body -> reliable s.2 -> pending s.1 = data wire ++ rest ->
  does (stream_chunks d) s tt (data wire) wire.
Proof.
  intros Hm Hr Hp. destruct (does_stream_chunks_loop (stream_fuel s) d wire body rest s) as (s' & H); [done..|].
  by exists s'.
Qed.

Lemma does_stream_to_end_loop (fuel : nat) (bs : bytes) s :
  (stream_fuel s <= fuel)%nat -> reliable s.2 -> pending s.1 = data bs ->
  does (stream_to_end_loop fuel) s tt (data bs) bs.
Proof.
  revert bs s. induction fuel as [|fuel IH]; intros bs s Hf Hr Hp; [unfold stream_fuel in Hf; lia|].
  cbn [stream_to_end_loop]. set (n := Z.to_nat STREAM_BUFFER_SIZE). assert (Hn : (0 < n)%nat) by (vm_compute; lia).
  destruct bs as [|b bs].
  - assert (Hd : does (do_read n) s [] (data []) []).
    { pose proof (read_law n s.1 Hn) as Hl. unfold does, do_read. destruct (read n s.1) as [[bs|e| |] r]; try done.
      - destruct Hl as (_ & Hl & _). rewrite Hp in Hl. destruct bs; [|done]. exists (r, s.2). split; [done|].
        split; [|done]. split; [rewrite Hp; exact Hl|]. by rewrite app_nil_r.
      - by rewrite Hp in Hl. }
    apply (does_bind _ _ _ [] _ (data []) [] [] []); [by apply does_map_err|]. intros s1 _ Hr1. by apply does_ret.
  - destruct (does_read n s b bs []) as (bs1 & Hne & Hle & Hd); [done|done|by rewrite app_nil_r|].
    assert (Hpre : exists bs2, b :: bs = bs1 ++ bs2 /\ pending s.1 = data bs1 ++ data bs2).
    { destruct Hd as (s1 & _ & [Ht _] & _). rewrite Hp in Ht. destruct (decide (length bs1 <= length (b :: bs))%nat) as [Hl|Hl].
      - destruct (data_prefix (b :: bs) bs1 [] (pending s1.1)) as (bs2 & E & E2); [by rewrite app_nil_r|done|].
        exists bs2. split; [done|]. by rewrite Hp, E, data_app.
      - apply (f_equal length) in Ht. rewrite length_app, !length_data in Ht. lia. }
    destruct Hpre as (bs2 & E & Hp2). rewrite E, data_app. change (bs1 ++ bs2) with ([] ++ bs1 ++ bs2).
    eapply does_step; [exact Hp2|by apply does_map_err|]. intros s1 Hp1 Hr1 Hf1.
    rewrite bool_decide_false by done. change (data bs2) with (data [] ++ data bs2).
    eapply does_step; [exact Hp1|by apply does_map_err, does_write|]. intros s2 Hp3 Hr2 Hf2. apply IH; [|done|done].
    destruct bs1; [done|]. simpl in *. lia.
Qed.

End complete.

(** ** What is sent is what is received *)
Section bodies.
Context {R W : Type} `{!Read R} `{!Write W}.
Implicit Types (s : R * W).

(** [relayed buf s left wire s']: of the bytes [buf] and what [s] delivers, [wire] was read and
    written, and [left] is left of [buf]. *)
Definition relayed (buf : bytes) s (left wire : bytes) s' : Prop :=
  exists c, quiet c /\ bytes_of c = wire /\ data buf ++ pending s.1 = c ++ data left ++ pending s'.1 /\
    written s'.2 = written s.2 ++ wire.

(** [cut_short buf s s']: what was written is a prefix of what there was to read. *)
Definition cut_short (buf : bytes) s s' : Prop :=
  exists pre post, written s'.2 = written s.2 ++ pre /\ bytes_of (data buf ++ pending s.1) = pre ++ post.

Lemma pending_new_prefixed (buf : bytes) (r : R) : pending (new_prefixed buf r) = data buf ++ pending r.
Proof. by destruct buf. Qed.

Lemma pending_prefixed (p : PrefixedReader R) :
  pending p = data (drop (prefix_position p) (prefix p)) ++ pending (inner p).
Proof. done. Qed.

Lemma copied_relayed (buf : bytes) s (w : bytes) (p : PrefixedReader R * W) :
  copied (new_prefixed buf s.1, s.2) w p ->
  relayed buf s (drop (prefix_position p.1) (prefix p.1)) w (inner p.1, p.2).
Proof.
  intros (c & [Hp Hw] & Hq & Hb). exists c. split_and!; [done|done| |done].
  change (pending (new_prefixed buf s.1) = c ++ pending p.1) in Hp. by rewrite pending_new_prefixed, pending_prefixed in Hp.
Qed.

Lemma forwarded_cut_short (buf : bytes) s (p : PrefixedReader R * W) :
  forwarded (new_prefixed buf s.1, s.2) p -> cut_short buf s (inner p.1, p.2).
Proof.
  intros (c & pre & post & [Hp Hw] & Hb).
  change (pending (new_prefixed buf s.1) = c ++ pending p.1) in Hp. rewrite pending_new_prefixed in Hp.
  exists pre, (post ++ bytes_of (pending p.1)). split; [done|]. by rewrite Hp, bytes_of_app, Hb, <- app_assoc.
Qed.

Lemma wp_with_prefix {A : Type} (buf : bytes) (m : io (PrefixedReader R * W) ProxyError A) s
    (Q : A -> R * W -> Prop) (X : ProxyError -> R * W -> Prop) :
  wp m (new_prefixed buf s.1, s.2) (fun a p => Q a (inner p.1, p.2)) (fun e p => X e (inner p.1, p.2)) ->
  wp (with_prefix buf m) s Q X.
Proof. unfold wp, with_prefix. by destruct (m (new_prefixed buf s.1, s.2)) as [[]]. Qed.

Lemma wp_stream_chunked_request_body (buf : bytes) s :
  wp (stream_chunked_request_body buf) s
    (fun left s' => exists wire body, chunked_message wire body /\ relayed buf s left wire s')
    (fun _ s' => cut_short buf s s').
Proof.
  apply wp_with_prefix, wp_bind, wp_stream_chunks.
  - intros wire body p Hc Hm. unfold wp, take_remaining_prefix, remaining_prefix.
    rewrite slice_from_Ok by apply prefix_bound. exists wire, body. split; [done|]. by apply copied_relayed.
  - intros e p Hf. by apply forwarded_cut_short.
Qed.

Lemma wp_stream_chunked_response_body (buf : bytes) s :
  wp (stream_chunked_response_body buf) s
    (fun _ s' => exists wire body left, chunked_message wire body /\ relayed buf s left wire s')
    (fun _ s' => cut_short buf s s').
Proof.
  apply wp_with_prefix, wp_stream_chunks.
  - intros wire body p Hc Hm. exists wire, body. eexists. split; [done|]. by apply copied_relayed.
  - intros e p Hf. by apply forwarded_cut_short.
Qed.

(** Bodies of known length: the buffered part first, then the stream. *)
Definition buffered_part (n : Z) (buf : bytes) : nat := Nat.min (length buf) (Z.to_nat n).

Lemma stream_data_zero (re we : io_error -> ProxyError) (eof : ProxyError) s :
  stream_data re we eof 0 s = (Ok tt, s).
Proof. done. Qed.

Lemma took_cut_short (buf pre post : bytes) s s' : buf = pre ++ post -> took s [] pre s' -> cut_short buf s s'.
Proof.
  intros -> [_ Hw]. exists pre, (post ++ bytes_of (pending s.1)). split; [done|].
  by rewrite bytes_of_app, bytes_of_data, <- app_assoc.
Qed.

Lemma whole_cut_short (buf : bytes) s s1 s2 : took s [] buf s1 -> forwarded s1 s2 -> cut_short buf s s2.
Proof.
  intros [Hp Hw] (c & p & post & [Hp' Hw'] & Hb). cbn [app] in Hp.
  exists (buf ++ p), (post ++ bytes_of (pending s2.1)). split; [by rewrite Hw', Hw, app_assoc|].
  rewrite Hp, Hp', !bytes_of_app, bytes_of_data, Hb. by rewrite <- !app_assoc.
Qed.

(** The part of the body that is not in the buffer. *)
Lemma wp_fixed_rest (n : Z) (buf : bytes) (re we : io_error -> ProxyError) (eof : ProxyError) s s1
    (Q : unit -> R * W -> Prop) :
  0 <= n -> took s [] (take (buffered_part n buf) buf) s1 ->
  (forall body s', len body = n -> relayed buf s (drop (buffered_part n buf) buf) body s' -> Q tt s') ->
  wp (stream_data re we eof (Z.max 0 (n - Z.of_nat (buffered_part n buf)))) s1 Q (fun _ s' => cut_short buf s s').
Proof.
  intros Hn Ht HQ. unfold buffered_part in *. destruct (Z.le_gt_cases n (len buf)) as [Hle|Hgt].
  - unfold len in Hle. rewrite Nat.min_r in * by lia. replace (Z.max 0 _) with 0 by lia.
    unfold wp. rewrite stream_data_zero. apply (HQ (take (Z.to_nat n) buf)).
    + unfold len. rewrite length_take. lia.
    + exists (data (take (Z.to_nat n) buf)). destruct Ht as [Hp Hw].
      split_and!; [apply quiet_data|apply bytes_of_data| |done].
      by rewrite app_assoc, <- data_app, take_drop, Hp.
  - unfold len in Hgt. rewrite Nat.min_l in * by lia. rewrite firstn_all in Ht. apply wp_stream_data; [lia| |].
    + intros bs s2 Ht2 Hl. apply (HQ (buf ++ bs)); [rewrite len_app, Hl; unfold len; lia|].
      exists (data (buf ++ bs)). destruct Ht as [Hp Hw], Ht2 as [Hp2 Hw2].
      split_and!; [apply quiet_data|apply bytes_of_data| |by rewrite Hw2, Hw, app_assoc].
      rewrite drop_all. cbn [app] in Hp. cbn [data map app]. by rewrite Hp, Hp2, data_app, <- app_assoc.
    + intros e s2 Hf. by eapply whole_cut_short.
Qed.

Definition write_buffered (we : io_error -> ProxyError) (n : Z) (buf : bytes) : io (R * W) ProxyError unit :=
  if (0 <? buffered_part n buf)%nat then
    let! part := io_lift (slice_to buf (buffered_part n buf)) in
    io_map_err we (do_write part)
  else io_ret tt.

Lemma wp_write_buffered (we : io_error -> ProxyError) (n : Z) (buf : bytes) s (Q : unit -> R * W -> Prop) :
  (forall s', took s [] (take (buffered_part n buf) buf) s' -> Q tt s') ->
  wp (write_buffered we n buf) s Q (fun _ s' => cut_short buf s s').
Proof.
  intros HQ. unfold write_buffered. destruct (Nat.ltb_spec 0 (buffered_part n buf)) as [Hlt|Hge].
  - rewrite slice_to_Ok by (unfold buffered_part; lia). apply wp_bind, wp_ret, wp_map_err, wp_do_write; [done|].
    intros e s' pre post E Ht. apply (took_cut_short buf pre (post ++ drop (buffered_part n buf) buf)); [|done].
    by rewrite app_assoc, <- E, take_drop.
  - apply wp_ret, HQ. replace (buffered_part n buf) with 0%nat by lia. rewrite take_0. apply took_refl.
Qed.

Lemma wp_stream_request_body (n : Z) (buf : bytes) s :
  0 <= n ->
  wp (stream_request_body n buf) s
    (fun left s' => exists body, len body = n /\ relayed buf s left body s')
    (fun _ s' => cut_short buf s s').
Proof.
  intros Hn. unfold stream_request_body. cbn zeta. fold (buffered_part n buf).
  rewrite slice_from_Ok by (unfold buffered_part; lia). apply wp_bind, wp_ret.
  apply wp_bind, wp_write_buffered. intros s1 Ht1. apply wp_bind. apply (wp_fixed_rest n buf _ _ _ s s1 _ Hn Ht1).
  intros body s2 Hl Hr. apply wp_ret. by exists body.
Qed.

Lemma wp_stream_fixed_response_body (n : Z) (buf : bytes) s :
  0 <= n ->
  wp (stream_fixed_response_body n buf) s
    (fun _ s' => exists body left, len body = n /\ relayed buf s left body s')
    (fun _ s' => cut_short buf s s').
Proof.
  intros Hn. unfold stream_fixed_response_body. cbn zeta. fold (buffered_part n buf).
  apply wp_bind, wp_write_buffered. intros s1 Ht1. apply (wp_fixed_rest n buf _ _ _ s s1 _ Hn Ht1).
  intros body s2 Hl Hr. by exists body, (drop (buffered_part n buf) buf).
Qed.

Lemma wp_stream_close_delimited (buf : bytes) s :
  wp (stream_close_delimited_response_body buf) s
    (fun _ s' => exists body, relayed buf s [] body s' /\ pending s'.1 = [])
    (fun _ s' => cut_short buf s s').
Proof.
  assert (Hrest : forall s1, took s [] buf s1 ->
    wp (fun s => stream_to_end_loop (stream_fuel s) s) s1
      (fun _ s' => exists body, relayed buf s [] body s' /\ pending s'.1 = []) (fun _ s' => cut_short buf s s')).
  { intros s1 Ht1. unfold wp. apply wp_stream_to_end_loop; [done| |].
    - intros bs s2 Ht2 He. exists (buf ++ bs). split; [|done]. exists (data (buf ++ bs)).
      destruct Ht1 as [Hp1 Hw1], Ht2 as [Hp2 Hw2]. cbn [app] in Hp1.
      split_and!; [apply quiet_data|apply bytes_of_data| |by rewrite Hw2, Hw1, app_assoc].
      cbn [data map app]. rewrite Hp1, Hp2. unfold data. by rewrite map_app, <- app_assoc.
    - intros e s2 Hf. by eapply whole_cut_short. }
  unfold stream_close_delimited_response_body. apply wp_bind. case_bool_decide as Hb; cbn [negb].
  - subst buf. apply wp_ret, Hrest, took_refl.
  - apply wp_map_err, wp_do_write; [intros s1 Ht1; by apply Hrest|].
    intros e s1 pre post -> Ht. by eapply took_cut_short.
Qed.

End bodies.

(** ** Reading a response head *)
Lemma windows_position_cut (needle buf : bytes) (i : nat) :
  windows_position needle buf = Some i ->
  exists post, buf = take (i + length needle) buf ++ post /\ (i + length needle <= length buf)%nat /\
    windows_position needle (take (i + length needle) buf) = Some i /\
    length (take (i + length needle) buf) = (i + length needle)%nat.
Proof.
  intros H. pose proof H as H'. apply windows_position_Some in H' as (pre & post & -> & <-).
  assert (E : take (length pre + length needle) (pre ++ needle ++ post) = pre ++ needle).
  { rewrite app_assoc, <- length_app. apply take_app_length. }
  rewrite E. exists post. split_and!.
  - by rewrite app_assoc.
  - rewrite !length_app. lia.
  - destruct (windows_position needle (pre ++ needle)) as [j|] eqn:Ej.
    + apply (windows_position_app_l _ _ post) in Ej. rewrite <- app_assoc in Ej. congruence.
    + exfalso. rewrite <- (app_nil_r needle) in Ej at 2. by apply windows_position_None in Ej.
  - apply length_app.
Qed.

Section response_heads.
Context {R W : Type} `{!Read R} `{!Write W}.
Implicit Types (s : R * W).

Lemma wp_read_response_head_loop (fuel : nat) (buffer : bytes) s
    (Q : bytes * bytes -> R * W -> Prop) (X : ProxyError -> R * W -> Prop) :
  (S (stream_fuel s) <= fuel)%nat ->
  (forall bs head rest status fields code s', took s (data bs) [] s' -> buffer ++ bs = head ++ rest ->
     valid_response head status fields code -> Q (head, rest) s') ->
  (forall e c s', took s c [] s' -> X e s') ->
  wp (read_response_head_loop fuel buffer) s Q X.
Proof.
  revert buffer s. induction fuel as [|fuel IH]; intros buffer s Hf HQ HX; [lia|]. cbn [read_response_head_loop].
  destruct (windows_position (CRLF ++ CRLF) buffer) as [he|] eqn:Hw.
  - apply windows_position_cut in Hw as (post & E & Hle & Hhead & Hlen).
    change (length (CRLF ++ CRLF)) with 4%nat in *.
    rewrite slice_from_Ok by done. apply wp_bind, wp_ret.
    apply wp_bind, wp_lift; [apply validate_response_head_syntax_returns| |intros e _; eapply HX, took_refl].
    intros u Hv. apply wp_ret. apply validate_sound in Hv as (status & fields & code & Hv).
    2: { rewrite Hhead, Hlen. f_equal. lia. }
    apply (HQ [] _ _ status fields code s (took_refl s)); [|done]. rewrite app_nil_r. symmetry. apply take_drop.
  - destruct (Z.leb_spec MAX_RESPONSE_HEAD_SIZE (len buffer)); [eapply wp_err, HX, took_refl|].
    apply wp_bind, wp_map_err, wp_do_read; [unfold STREAM_BUFFER_SIZE; lia| |intros; by eapply HX].
    intros bs s1 _ Ht _. case_bool_decide as Hb; [by eapply wp_err, HX|].
    assert (length bs <> 0)%nat by (by destruct bs). apply IH.
    + apply took_fuel in Ht. rewrite length_data in Ht. lia.
    + intros bs' head rest status fields code s2 Ht2 E Hv. apply (HQ (bs ++ bs') _ _ status fields code); [| |done].
      * rewrite data_app. by apply (took_trans _ _ _ _ _ [] [] Ht Ht2).
      * by rewrite app_assoc.
    + intros e c s2 Ht2. eapply HX, (took_trans _ _ _ _ _ _ _ Ht Ht2).
Qed.

Lemma wp_read_response_head (buffer : bytes) s
    (Q : bytes * bytes -> R * W -> Prop) (X : ProxyError -> R * W -> Prop) :
  (forall bs head rest status fields code s', took s (data bs) [] s' -> buffer ++ bs = head ++ rest ->
     valid_response head status fields code -> Q (head, rest) s') ->
  (forall e c s', took s c [] s' -> X e s') ->
  wp (read_response_head buffer) s Q X.
Proof. intros HQ HX. unfold wp, read_response_head. by apply wp_read_response_head_loop. Qed.

End response_heads.

Section response_heads_complete.
Context {R W : Type} `{!Read R} `{!Write W} `{!ReliableWrite W}.
Implicit Types (s : R * W).

Lemma valid_response_end (head status : bytes) (fields : list bytes) (code : Z) (rest : bytes) :
  valid_response head status fields code ->
  windows_position (CRLF ++ CRLF) (head ++ rest) = Some (length head - 4)%nat /\ (4 <= length head)%nat.
Proof.
  intros [[-> [HC _] Hf] _ _ _]. unfold lines_of. rewrite <- !app_assoc. rewrite find_head_end; [|done|].
  - rewrite !length_app. simpl. split; [f_equal; lia|lia].
  - eapply Forall_impl; [exact Hf|]. by intros l [Hne [HC' _]].
Qed.

Lemma does_read_data (n : nat) s (b : byte) (bs : bytes) :
  (0 < n)%nat -> reliable s.2 -> pending s.1 = data (b :: bs) ->
  exists bs1 bs2, b :: bs = bs1 ++ bs2 /\ bs1 <> [] /\ does (do_read n) s bs1 (data bs1) [].
Proof.
  intros Hn Hr Hp. destruct (does_read n s b bs []) as (bs1 & Hne & _ & Hd); [done|done|by rewrite app_nil_r|].
  pose proof Hd as (s1 & _ & [Ht _] & _). rewrite Hp in Ht.
  assert (Hl : (length bs1 <= length (b :: bs))%nat).
  { apply (f_equal length) in Ht. rewrite length_app, !length_data in Ht. lia. }
  destruct (data_prefix (b :: bs) bs1 [] (pending s1.1)) as (bs2 & E & _); [by rewrite app_nil_r|done|].
  by exists bs1, bs2.
Qed.

(** A valid head is accepted however it is cut into pieces. *)
Lemma does_read_response_head_loop (fuel : nat) (buffer head more : bytes) status fields code (bs : bytes) s :
  (S (stream_fuel s) <= fuel)%nat -> reliable s.2 -> valid_response head status fields code ->
  len head <= MAX_RESPONSE_HEAD_SIZE -> pending s.1 = data bs -> buffer ++ bs = head ++ more ->
  exists bs1 bs2 tail, bs = bs1 ++ bs2 /\ buffer ++ bs1 = head ++ tail /\
    does (read_response_head_loop fuel buffer) s (head, tail) (data bs1) [].
Proof.
  intros Hf Hr Hv Hmax. revert buffer bs s Hf Hr. induction fuel as [|fuel IH]; intros buffer bs s Hf Hr Hp E; [lia|].
  cbn [read_response_head_loop]. destruct (Nat.le_gt_cases (length head) (length buffer)) as [Hle|Hgt].
  - assert (Hb : exists tail, buffer = head ++ tail).
    { exists (drop (length head) buffer). rewrite <- (take_drop (length head) buffer) at 1. f_equal.
      apply (f_equal (take (length head))) in E. rewrite take_app_le, take_app_length in E by done. done. }
    destruct Hb as [tail ->]. destruct (valid_response_end _ _ _ _ tail Hv) as [-> H4].
    replace (length head - 4 + 4)%nat with (length head) by lia.
    exists [], bs, tail. split; [done|]. split; [by rewrite app_nil_r|].
    rewrite slice_from_Ok by done. rewrite drop_app_length, take_app_length.
    apply (does_bind _ _ _ tail _ [] [] [] []); [by apply does_ret|]. intros s1 _ Hr1.
    apply (does_bind _ _ _ tt _ [] [] [] []); [by apply does_lift; [|eapply validate_complete]|]. intros s2 _ Hr2.
    by apply does_ret.
  - assert (Hb : exists q, head = buffer ++ q).
    { exists (drop (length buffer) head). rewrite <- (take_drop (length buffer) head) at 1. f_equal.
      apply (f_equal (take (length buffer))) in E. rewrite take_app_length, take_app_le in E by lia. done. }
    destruct Hb as [q Hq]. destruct (valid_response_end _ _ _ _ [] Hv) as [Hw H4]. rewrite app_nil_r in Hw.
    assert (Hnone : windows_position (CRLF ++ CRLF) buffer = None).
    { apply (windows_position_prefix_None _ buffer q (length head - 4)); [by rewrite <- Hq|].
      change (length (CRLF ++ CRLF)) with 4%nat. lia. }
    rewrite Hnone. unfold len in Hmax. rewrite (proj2 (Z.leb_gt _ _)) by (unfold len; lia).
    destruct bs as [|b bs]; [rewrite app_nil_r in E; apply (f_equal length) in E; rewrite length_app in E; lia|].
    set (n := Z.to_nat _). assert (Hn : (0 < n)%nat) by (unfold n, STREAM_BUFFER_SIZE, len in *; lia).
    destruct (does_read_data n s b bs Hn Hr Hp) as (bs1 & bs2 & Ebs & Hne & Hd).
    destruct Hd as (s1 & Hread & Ht & Hr1).
    assert (Hp1 : pending s1.1 = data bs2) by (eapply took_pending; [|exact Ht]; by rewrite Hp, Ebs, data_app).
    destruct (IH (buffer ++ bs1) bs2 s1) as (c1 & c2 & tail & E2 & Et & s2 & Hrun & Ht2 & Hr2).
    + apply took_fuel in Ht. rewrite length_data in Ht. destruct bs1; [done|]. simpl in Ht. lia.
    + done.
    + done.
    + by rewrite <- app_assoc, <- Ebs.
    + exists (bs1 ++ c1), c2, tail. split; [by rewrite Ebs, E2, app_assoc|]. split; [by rewrite app_assoc|].
      exists s2. unfold io_bind, io_map_err. rewrite Hread. cbn [map_err]. rewrite bool_decide_false, Hrun by done.
      split; [done|]. split; [|done]. rewrite data_app. by apply (took_trans _ _ _ _ _ [] [] Ht Ht2).
Qed.

Lemma does_read_response_head (head more : bytes) status fields code (buffer bs : bytes) s :
  reliable s.2 -> valid_response head status fields code ->
  len head <= MAX_RESPONSE_HEAD_SIZE -> pending s.1 = data bs -> buffer ++ bs = head ++ more ->
  exists bs1 bs2 tail, bs = bs1 ++ bs2 /\ buffer ++ bs1 = head ++ tail /\
    does (read_response_head buffer) s (head, tail) (data bs1) [].
Proof.
  intros Hr Hv Hmax Hp E.
  destruct (does_read_response_head_loop (S (stream_fuel s)) buffer head more status fields code bs s)
    as (bs1 & bs2 & tail & H1 & H2 & s' & H3); [done..|].
  exists bs1, bs2, tail. split_and!; [done|done|]. by exists s'.
Qed.

End response_heads_complete.

(** ** Chunk sizes *)

(** A size line: hexadecimal digits, and an extension after a semicolon or none. *)
Definition chunk_size_line (line : bytes) (n : Z) : Prop :=
  exists size ext,
    line = size ++ ext /\ size <> [] /\ all is_ascii_hexdigit size = true /\
    (ext = [] \/ exists x, ext = x3b :: x /\ x <> [] /\ all is_valid_chunk_extension_byte x = true) /\
    digits_value 16 0 size = Some n /\ n <= u64_max.

Lemma parse_hex (size : bytes) (n : Z) :
  size <> [] -> all is_ascii_hexdigit size = true ->
  from_str_radix 16 u64_max size = Some n <-> digits_value 16 0 size = Some n /\ n <= u64_max.
Proof.
  intros Hne Hh. rewrite (from_str_radix_digits _ _ is_ascii_hexdigit); [|lia|done|done|done|done].
  destruct (digits_value 16 0 size) as [v|]; [|naive_solver].
  destruct (Z.leb_spec v u64_max); naive_solver lia.
Qed.

Lemma hexdigits_no_semicolon (size : bytes) : all is_ascii_hexdigit size = true -> x3b ∉ size.
Proof. intros H. by apply (all_not_elem _ _ _ H). Qed.

Lemma parse_chunk_size_iff (line : bytes) (n : Z) : parse_chunk_size line = Ok n <-> chunk_size_line line n.
Proof.
  unfold parse_chunk_size. split.
  - rewrite res_bind_Ok. intros ([size ext] & Hs & H).
    destruct (bool_decide (size = [])) eqn:Hne; [done|]. apply bool_decide_eq_false in Hne.
    destruct (all is_ascii_hexdigit size) eqn:Hhex; [|done]. cbn [orb negb] in H.
    match type of H with (if ?b then _ else _) = _ => destruct b eqn:Hext end; [done|].
    case_match; [done|]. apply ok_or_Ok, parse_hex in H; [|done..].
    destruct (position (byte_eqb x3b) line) as [i|] eqn:Hi.
    + apply position_byte_Some in Hi as (pre & x & -> & <- & _).
      rewrite slice_to_Ok, slice_from_Ok in Hs by (rewrite length_app; simpl; lia). cbn [res_bind] in Hs.
      rewrite Nat.add_1_r, take_app_length, drop_app_ge in Hs by lia.
      rewrite Nat.sub_succ_l, Nat.sub_diag, skipn_cons, drop_0 in Hs by lia. injection Hs as <- <-.
      exists pre, (x3b :: x). split_and!; try done; [|by apply H..]. right. exists x.
      apply orb_false_iff in Hext as [Hx%bool_decide_eq_false Hb%negb_false_iff]. done.
    + injection Hs as <- <-. exists line, []. rewrite app_nil_r. split_and!; try done; [by left|by apply H..].
  - intros (size & ext & -> & Hne & Hhex & Hext & Hv & Hmax).
    assert (Hsplit : match position (byte_eqb x3b) (size ++ ext) with
      | Some i => let? sz := slice_to (size ++ ext) i in
                  let? extension := slice_from (size ++ ext) (i + 1) in Ok (sz, Some extension)
      | None => Ok (size ++ ext, None)
      end = Ok (size, tail (A := byte) <$> (match ext with [] => None | _ => Some ext end)) :> res ProxyError _).
    { destruct Hext as [-> |(x & -> & _)].
      - rewrite app_nil_r. rewrite (proj2 (position_None _ _)); [done|]. apply Forall_forall. intros b Hb.
        apply byte_eqb_neq. intros <-. by apply hexdigits_no_semicolon in Hhex.
      - rewrite position_byte by (by apply hexdigits_no_semicolon).
        rewrite slice_to_Ok, slice_from_Ok by (rewrite length_app; simpl; lia). cbn [res_bind].
        rewrite Nat.add_1_r, take_app_length, drop_app_ge by lia.
        by rewrite Nat.sub_succ_l, Nat.sub_diag, skipn_cons, drop_0 by lia. }
    rewrite Hsplit. cbn [res_bind]. rewrite bool_decide_false, Hhex by done. cbn [orb negb].
    assert (Hu : utf8_valid size = true).
    { apply utf8_valid_ascii. eapply all_impl; [|exact Hhex]. intros b; byte_cases b. }
    assert (Hp : from_str_radix 16 u64_max size = Some n) by (by apply parse_hex).
    destruct Hext as [-> |(x & -> & Hx & Hb)]; cbn [fmap option_fmap option_map tail].
    + by rewrite Hu, Hp.
    + by rewrite bool_decide_false, Hb, Hu, Hp by done.
Qed.

(** ** Properties *)
Section properties.
Context {R W : Type} `{!Read R} `{!Write W}.
Implicit Types (s : R * W).

(** C3: relaying a chunked request body returns on every client and every upstream; when it succeeds,
    the bytes written to the upstream are exactly the bytes read, they are one well-formed chunked
    message, and what follows it is left in the buffer and the stream; when it fails, what was
    written is a prefix of what there was to read. *)
Theorem chunked_request_relayed (buf : bytes) s :
  match stream_chunked_request_body buf s with
  | (Ok unread, s') => exists wire body, chunked_message wire body /\ relayed buf s unread wire s'
  | (Err _, s') => cut_short buf s s'
  | (Panic, _) | (Fuel, _) => False
  end.
Proof. apply wp_stream_chunked_request_body. Qed.

(** Relaying a request body of [n] bytes returns; when it succeeds, exactly [n] bytes were sent,
    those that come first in the buffer and the stream, and the bytes of the buffer after them are
    returned; when it fails, what was written is a prefix of what there was to read. *)
Theorem fixed_request_relayed (n : Z) (buf : bytes) s :
  0 <= n ->
  match stream_request_body n buf s with
  | (Ok unread, s') => exists body, len body = n /\ relayed buf s unread body s'
  | (Err _, s') => cut_short buf s s'
  | (Panic, _) | (Fuel, _) => False
  end.
Proof. apply wp_stream_request_body. Qed.

(** C19: relaying a response body returns, in chunks, by length or to the end of the connection; when
    it succeeds, what was written to the client is what was read, and it is a chunked message, the
    announced number of bytes, or all there was; when it fails, it is a prefix of that. *)
Theorem response_body_relayed (n : Z) (buf : bytes) s :
  0 <= n ->
  match stream_chunked_response_body buf s with
  | (Ok _, s') => exists wire body unread, chunked_message wire body /\ relayed buf s unread wire s'
  | (Err _, s') => cut_short buf s s'
  | (Panic, _) | (Fuel, _) => False
  end /\
  match stream_fixed_response_body n buf s with
  | (Ok _, s') => exists body unread, len body = n /\ relayed buf s unread body s'
  | (Err _, s') => cut_short buf s s'
  | (Panic, _) | (Fuel, _) => False
  end /\
  match stream_close_delimited_response_body buf s with
  | (Ok _, s') => exists body, relayed buf s [] body s' /\ pending s'.1 = []
  | (Err _, s') => cut_short buf s s'
  | (Panic, _) | (Fuel, _) => False
  end.
Proof.
  intros Hn. split; [apply wp_stream_chunked_response_body|].
  split; [by apply wp_stream_fixed_response_body|apply wp_stream_close_delimited].
Qed.

(** Reading a response head returns; a head it returns is valid, it ends at the first CRLF CRLF
    of the buffered and the newly read bytes, and none of them is lost: the rest is handed on. *)
Theorem read_response_head_correct (buf : bytes) s :
  match read_response_head buf s with
  | (Ok (head, rest), s') => exists bs status fields code,
      took s (data bs) [] s' /\ buf ++ bs = head ++ rest /\ valid_response head status fields code
  | (Err _, s') => exists c, took s c [] s'
  | (Panic, _) | (Fuel, _) => False
  end.
Proof.
  pose proof (wp_read_response_head buf s
    (fun hr s' => exists bs status fields code,
      took s (data bs) [] s' /\ buf ++ bs = hr.1 ++ hr.2 /\ valid_response hr.1 status fields code)
    (fun _ s' => exists c, took s c [] s')) as H. unfold wp in H.
  destruct (read_response_head buf s) as [[[head rest]|e| |] s']; apply H; eauto 10.
Qed.

End properties.

Example fixed_request_relayed_witness :
  exists body, len body = 3 /\
    relayed (str "ab") ([Data (str "cde")] : Script, new_sink) [] body ([Data (str "de")] : Script, mkSink (str "abc") None).
Proof.
  exact (fixed_request_relayed 3 (str "ab") ([Data (str "cde")] : Script, new_sink) ltac:(vm_compute; discriminate)).
Defined.

Example response_body_relayed_witness :
  exists body unread, len body = 3 /\
    relayed (str "ab") ([Data (str "cde")] : Script, new_sink) unread body ([Data (str "de")] : Script, mkSink (str "abc") None).
Proof.
  exact (proj1 (proj2 (response_body_relayed 3 (str "ab") ([Data (str "cde")] : Script, new_sink)
    ltac:(vm_compute; discriminate)))).
Defined.

Section complete_properties.
Context {R W : Type} `{!Read R} `{!Write W} `{!ReliableWrite W}.
Implicit Types (s : R * W).

(** C13: every well-formed chunked message is relayed, whole and unchanged, however the client's bytes
    are cut into reads: the function returns with the message written and what follows it left. *)
Theorem chunked_request_complete (wire body buf : bytes) (rest : list event) s :
  chunked_message wire body -> reliable s.2 -> data buf ++ pending s.1 = data wire ++ rest ->
  exists unread s', stream_chunked_request_body buf s = (Ok unread, s') /\
    written s'.2 = written s.2 ++ wire /\ data unread ++ pending s'.1 = rest.
Proof.
  intros Hm Hr Hp.
  destruct (does_stream_chunks request_side wire body rest (new_prefixed buf s.1, s.2)) as ([p w] & E & Ht & Hr');
    [done|done|by rewrite <- Hp; apply pending_new_prefixed|].
  exists (drop (prefix_position p) (prefix p)), (inner p, w). split_and!.
  - unfold stream_chunked_request_body, with_prefix, io_bind. rewrite E.
    unfold take_remaining_prefix, remaining_prefix. cbn [fst snd]. by rewrite slice_from_Ok by apply prefix_bound.
  - by destruct Ht as [_ Hw].
  - change (pending p = rest). eapply (took_pending (new_prefixed buf s.1, s.2) (p, w)); [|exact Ht].
    rewrite <- Hp. apply pending_new_prefixed.
Qed.

(** A valid response head of at most 64 KiB is read whole, however the upstream's bytes are cut into
    reads, and the bytes read after it are handed on. *)
Theorem read_response_head_complete (head more : bytes) status fields code (buf bs : bytes) s :
  reliable s.2 -> valid_response head status fields code -> len head <= MAX_RESPONSE_HEAD_SIZE ->
  pending s.1 = data bs -> buf ++ bs = head ++ more ->
  exists bs1 bs2 tail s', bs = bs1 ++ bs2 /\ buf ++ bs1 = head ++ tail /\
    read_response_head buf s = (Ok (head, tail), s') /\ pending s'.1 = data bs2.
Proof.
  intros Hr Hv Hmax Hp E.
  destruct (does_read_response_head head more status fields code buf bs s) as (bs1 & bs2 & tail & E1 & E2 & s' & H & Ht & _);
    [done..|].
  exists bs1, bs2, tail, s'. split_and!; try done. eapply took_pending; [|exact Ht]. by rewrite Hp, E1, data_app.
Qed.

End complete_properties.

Definition sample_chunked : bytes :=
  str "3;a=b" ++ CRLF ++ str "abc" ++ CRLF ++ str "0" ++ CRLF ++ str "X-Sum: 1" ++ CRLF ++ CRLF.

Lemma clean_dec (l : bytes) : contains CR l = false -> contains LF l = false -> clean l.
Proof. intros HC HL. split; by apply contains_false. Qed.

Lemma sample_chunked_message : chunked_message sample_chunked (str "abc").
Proof.
  apply (next_chunk (str "3;a=b") (str "abc") (str "0" ++ CRLF ++ str "X-Sum: 1" ++ CRLF ++ CRLF) []).
  - split; [apply clean_dec; vm_compute; reflexivity|vm_compute; discriminate].
  - vm_compute. reflexivity.
  - discriminate.
  - apply (last_chunk (str "0") (str "X-Sum: 1" ++ CRLF ++ CRLF)).
    + split; [apply clean_dec; vm_compute; reflexivity|vm_compute; discriminate].
    + vm_compute. reflexivity.
    + apply trailers_field.
      * split; [apply clean_dec; vm_compute; reflexivity|vm_compute; discriminate].
      * discriminate.
      * vm_compute. reflexivity.
      * vm_compute. reflexivity.
      * vm_compute. discriminate.
      * apply trailers_end. vm_compute. discriminate.
Qed.

Definition sample_client : Script :=
  [Data (take 5 (drop 4 sample_chunked)); Data (drop 9 sample_chunked ++ str "GET")].

Example chunked_request_complete_witness :
  exists unread s', stream_chunked_request_body (take 4 sample_chunked) (sample_client, new_sink) = (Ok unread, s') /\
    written s'.2 = sample_chunked /\ data unread ++ pending s'.1 = data (str "GET").
Proof.
  destruct (chunked_request_complete sample_chunked (str "abc") (take 4 sample_chunked) (data (str "GET"))
    (sample_client, new_sink) sample_chunked_message) as (u & s' & H1 & H2 & H3).
  - reflexivity.
  - vm_compute. reflexivity.
  - exists u, s'. split; [exact H1|]. split; [exact H2|exact H3].
Defined.

Example read_response_head_complete_witness :
  exists bs1 bs2 tail s', str "" ++ bs1 = sample_response_head ++ tail /\
    read_response_head [] ([Data (take 7 sample_response_head); Data (drop 7 sample_response_head ++ str "ok")] : Script, new_sink) =
      (Ok (sample_response_head, tail), s') /\ pending s'.1 = data bs2.
Proof.
  destruct (read_response_head_complete sample_response_head (str "ok") (str "HTTP/1.1 200 OK")
    [str "Keep-Alive: 5"; str "Content-Length: 2"] 200 [] (sample_response_head ++ str "ok")
    ([Data (take 7 sample_response_head); Data (drop 7 sample_response_head ++ str "ok")] : Script, new_sink))
    as (bs1 & bs2 & tail & s' & _ & H2 & H3 & H4).
  - reflexivity.
  - exact sample_response_valid.
  - vm_compute. discriminate.
  - vm_compute. reflexivity.
  - reflexivity.
  - exists bs1, bs2, tail, s'. split; [exact H2|split; [exact H3|exact H4]].
Defined.

(** A chunk size line is accepted exactly when it is hexadecimal digits whose value fits 64 bits,
    followed by nothing or by a semicolon and a printable extension, and the size is that value. *)
Theorem parse_chunk_size_correct (line : bytes) (n : Z) : parse_chunk_size line = Ok n <-> chunk_size_line line n.
Proof. apply parse_chunk_size_iff. Qed.
