(* ===== verification/ProxySession.v ===== *)
(** * Exchanges with the upstream: [src/proxy.rs]

    Connecting to an upstream, waiting for [100 Continue], forwarding the response, and
    [Session::exchange_with_proto], which keeps an upstream connection between requests. *)
From Stdlib Require Import ZArith Lia.
From stdpp Require Import prelude.
From S2P Require Import Prelude Bytes NetAddr Http Config Io ProxyHead ProxyBody.
Local Open Scope Z_scope.
Set Warnings "-clear-no-such-hyp".

Inductive ContinueOutcome : Type :=
| Continue (buffered : bytes)
| FinalResponseForwarded.

Inductive ForwardResponseOutcome : Type :=
| HttpOutcome (client_reusable : bool)
| Upgraded.

Record ExchangeResult : Type := mkExchangeResult {
  buffered_client_bytes : bytes;
  client_reusable : bool;
  upgraded : bool
}.

(** ** Connecting

    An [endpoint] is one address the resolver gave, with what happens when it is tried: the time
    passed since the first attempt, what [connect_timeout] answers for the time that remains, and
    what setting the timeouts of the stream answers. *)
Record endpoint (U : Type) : Type := mkEndpoint {
  elapsed : Z;
  connect_timeout : Z -> res io_error U;
  set_timeouts : res io_error unit
}.
Arguments mkEndpoint {U}.
Arguments elapsed {U}.
Arguments connect_timeout {U}.
Arguments set_timeouts {U}.

Definition connect_error (address : bytes) (e : io_error) : ProxyError := Connect address (kind e) (message e).

Fixpoint connect_endpoints {U : Type} (address : bytes) (timeout : Z) (last_error : option (ErrorKind * bytes))
    (eps : list (endpoint U)) : res ProxyError U :=
  match eps with
  | [] =>
      let '(k, m) := default (Other, str "failed to connect to upstream") last_error in
      Err (Connect address k m)
  | ep :: eps' =>
      if timeout <=? elapsed ep then Err (Connect address TimedOut (str "upstream connection timed out"))
      else
        match connect_timeout ep (timeout - elapsed ep) with
        | Ok stream =>
            let? _ := map_err (connect_error address) (set_timeouts ep) in
            Ok stream
        | Err e =>
            if is_timeout_kind (kind e) then Err (Connect address TimedOut (message e))
            else connect_endpoints address timeout (Some (kind e, message e)) eps'
        | Panic => Panic
        | Fuel => Fuel
        end
  end.

Definition connect_upstream {U : Type} (resolve : bytes -> res io_error (list (endpoint U)))
    (address : bytes) (timeout : Z) : res ProxyError U :=
  let? eps := map_err (connect_error address) (resolve address) in
  match eps with
  | [] => Err (Connect address AddrNotAvailable (str "upstream address resolved to no endpoints"))
  | _ => connect_endpoints address timeout None eps
  end.

(** ** Responses *)
Section responses.
Context {R W : Type} `{!Read R} `{!Write W}.

(** [write_all] and [flush] to the client. *)
Definition send_client (bs : bytes) : io (R * W) ProxyError unit :=
  let! _ := io_map_err response_started (do_write bs) in
  io_map_err response_started do_flush.

Definition forward_final (request_method head buffered_response_body : bytes) (status : Z)
  : io (R * W) ProxyError ForwardResponseOutcome :=
  if response_has_no_body request_method status then
    let client_reusable := response_allows_client_reuse head false in
    let connection_header := downstream_connection_header head client_reusable in
    let! response_head := io_lift (sanitize_response_head head connection_header false false) in
    let! _ := send_client response_head in
    io_ret (HttpOutcome client_reusable)
  else
    let! header_bytes := io_lift (slice_to head (length head - 4)) in
    let! transfer_framing := io_lift (response_transfer_framing header_bytes) in
    let! content_length := io_lift (response_content_length header_bytes) in
    if negb (bool_decide (transfer_framing = NoFraming)) && bool_decide (is_Some content_length)
    then io_lift (invalid (str "response contains both Content-Length and Transfer-Encoding"))
    else
      let close_delimited := bool_decide (content_length = None) && negb (bool_decide (transfer_framing = Chunked)) in
      let client_reusable := response_allows_client_reuse head close_delimited in
      let connection_header := downstream_connection_header head client_reusable in
      let! response_head := io_lift (sanitize_response_head head connection_header
                                       (bool_decide (transfer_framing = Chunked)) false) in
      let! _ := io_map_err response_started (do_write response_head) in
      let! _ :=
        match transfer_framing, content_length with
        | Chunked, _ => stream_chunked_response_body buffered_response_body
        | _, Some n => stream_fixed_response_body n buffered_response_body
        | _, None => stream_close_delimited_response_body buffered_response_body
        end in
      let! _ := io_map_err response_started do_flush in
      io_ret (HttpOutcome client_reusable).

Definition forward_upgrade (head buffered_response_body : bytes) (requested : option (list bytes))
  : io (R * W) ProxyError ForwardResponseOutcome :=
  let! protocols := io_lift (ok_or requested
    (InvalidUpstreamResponse (str "upstream switched protocols without a client Upgrade request"))) in
  let! _ := io_lift (validate_switching_protocols_response head protocols) in
  let! response_head := io_lift (sanitize_response_head head (Some (str "Upgrade")) false true) in
  let! _ := io_map_err response_started (do_write response_head) in
  let! _ := io_map_err response_started (do_write buffered_response_body) in
  let! _ := io_map_err response_started do_flush in
  io_ret Upgraded.

Fixpoint forward_response_loop (fuel : nat) (request_method buffered : bytes) (requested : option (list bytes))
  : io (R * W) ProxyError ForwardResponseOutcome :=
  match fuel with
  | O => out_of_fuel
  | S fuel' =>
      let! (head, buffered_response_body) := read_response_head buffered in
      let! status := io_lift (response_status_code head) in
      if status =? 101 then forward_upgrade head buffered_response_body requested
      else if is_interim_response status then
        let! response_head := io_lift (sanitize_response_head head None false false) in
        let! _ := send_client response_head in
        forward_response_loop fuel' request_method buffered_response_body requested
      else forward_final request_method head buffered_response_body status
  end.

(** Every head takes at least four of the bytes buffered or still to come. *)
Definition response_fuel (buffered : bytes) (s : R * W) : nat := length buffered + stream_fuel s.

Definition forward_response (request_method buffered_prefix : bytes) (requested : option (list bytes))
  : io (R * W) ProxyError ForwardResponseOutcome :=
  fun s => forward_response_loop (response_fuel buffered_prefix s) request_method buffered_prefix requested s.

Fixpoint await_loop (fuel : nat) (request_method buffered : bytes) (requested : option (list bytes))
  : io (R * W) ProxyError ContinueOutcome :=
  match fuel with
  | O => out_of_fuel
  | S fuel' =>
      let! (head, buffered_response) := read_response_head buffered in
      let! status := io_lift (response_status_code head) in
      if status =? 101 then io_lift (invalid (str "101 Switching Protocols requires upgrade tunnelling"))
      else if status =? 100 then
        let! response_head := io_lift (sanitize_response_head head None false false) in
        let! _ := send_client response_head in
        io_ret (Continue buffered_response)
      else if is_interim_response status then
        let! response_head := io_lift (sanitize_response_head head None false false) in
        let! _ := send_client response_head in
        await_loop fuel' request_method buffered_response requested
      else
        let! _ := forward_response request_method (head ++ buffered_response) requested in
        io_ret FinalResponseForwarded
  end.

Definition await_continue_or_final_response (request_method : bytes) (requested : option (list bytes))
  : io (R * W) ProxyError ContinueOutcome :=
  fun s => await_loop (response_fuel [] s) request_method [] requested s.

End responses.

(** ** Sessions *)
Record Session (U : Type) : Type := mkSession {
  session_upstream : option (bytes * U);
  upgraded_upstream : option U;
  upstream_timeout : Z
}.
Arguments mkSession {U}.
Arguments session_upstream {U}.
Arguments upgraded_upstream {U}.
Arguments upstream_timeout {U}.

Definition new_session {U : Type} (upstream_timeout_seconds : Z) : Session U :=
  mkSession None None upstream_timeout_seconds.

Section exchange.
Context {CR CW UR UW : Type} `{!Read CR} `{!Write CW} `{!Read UR} `{!Write UW}.

(** The two connections of an exchange, each a reader and a writer. *)
Record Link : Type := mkLink {
  client : CR * CW;
  server : UR * UW
}.

(** Code that copies the request, and code that copies the response. *)
Definition on_request {E A : Type} (m : io (CR * UW) E A) : io Link E A :=
  fun l => let '(a, s) := m ((client l).1, (server l).2) in
           (a, mkLink (s.1, (client l).2) ((server l).1, s.2)).

Definition on_response {E A : Type} (m : io (UR * CW) E A) : io Link E A :=
  fun l => let '(a, s) := m ((server l).1, (client l).2) in
           (a, mkLink ((client l).1, s.2) (s.1, (server l).2)).

(** What becomes of the upstream connection. *)
Inductive disposition : Type :=
| KeepOpen
| DropIt
| HandOver.

Definition exchange_on_connection (r : Request) (requested : option (list bytes)) (buffered_body : bytes)
    (client_ip : IpAddr) (proto : ForwardedProto) : io Link ProxyError (ExchangeResult * disposition) :=
  let! request_head := io_lift (serialize_request_head r client_ip proto) in
  let! _ := on_request (io_map_err upstream_write_error (do_write request_head)) in
  let! outcome :=
    if request_expects_continue r && request_has_body r then
      let! _ := on_request (io_map_err upstream_write_error do_flush) in
      on_response (await_continue_or_final_response (method r) requested)
    else io_ret (Continue []) in
  match outcome with
  | FinalResponseForwarded => io_ret (mkExchangeResult [] false false, DropIt)
  | Continue buffered_response =>
      let! unread :=
        on_request (if has_transfer_encoding r then stream_chunked_request_body buffered_body
                    else match content_length r with
                         | Some n => stream_request_body n buffered_body
                         | None => io_ret buffered_body
                         end) in
      let! _ := on_request (io_map_err upstream_write_error do_flush) in
      let! response_outcome := on_response (forward_response (method r) buffered_response requested) in
      match response_outcome with
      | HttpOutcome reusable =>
          io_ret (mkExchangeResult unread reusable false, if reusable then KeepOpen else DropIt)
      | Upgraded => io_ret (mkExchangeResult unread false true, HandOver)
      end
  end.

(** The connection kept for the address, or a new one. *)
Definition take_upstream (resolve : bytes -> res io_error (list (endpoint (UR * UW)))) (s : Session (UR * UW))
    (address : bytes) : res ProxyError (UR * UW) :=
  match session_upstream s with
  | Some (a, conn) =>
      if bytes_eqb a address then Ok conn else connect_upstream resolve address (upstream_timeout s)
  | None => connect_upstream resolve address (upstream_timeout s)
  end.

(** [Session::exchange_with_proto]: the result, the session, the client's connection, and the
    upstream connection as the exchange left it, which is dropped unless the session holds it. *)
Definition exchange_with_proto (resolve : bytes -> res io_error (list (endpoint (UR * UW))))
    (s : Session (UR * UW)) (route : Route) (r : Request) (c : CR * CW) (buffered_body : bytes)
    (client_ip : IpAddr) (proto : ForwardedProto)
  : res ProxyError ExchangeResult * (Session (UR * UW) * (CR * CW) * option (UR * UW)) :=
  match request_upgrade_protocols r with
  | Err e => (Err e, (s, c, None))
  | Panic => (Panic, (s, c, None))
  | Fuel => (Fuel, (s, c, None))
  | Ok requested =>
      let address := address (upstream route) in
      let taken := mkSession None (upgraded_upstream s) (upstream_timeout s) in
      match take_upstream resolve s address with
      | Err e => (Err e, (taken, c, None))
      | Panic => (Panic, (taken, c, None))
      | Fuel => (Fuel, (taken, c, None))
      | Ok conn =>
          match exchange_on_connection r requested buffered_body client_ip proto (mkLink c conn) with
          | (Ok (result, d), l) =>
              let s' :=
                match d with
                | KeepOpen => mkSession (Some (address, server l)) (upgraded_upstream s) (upstream_timeout s)
                | DropIt => taken
                | HandOver => mkSession None (Some (server l)) (upstream_timeout s)
                end in
              (Ok result, (s', client l, Some (server l)))
          | (Err e, l) => (Err e, (taken, client l, Some (server l)))
          | (Panic, l) => (Panic, (taken, client l, Some (server l)))
          | (Fuel, l) => (Fuel, (taken, client l, Some (server l)))
          end
      end
  end.

End exchange.
Arguments Link : clear implicits.

(** ** What a response is

    [interims wire out]: [wire] is a run of interim response heads, and [out] what the client is
    sent for them. *)
Inductive interims : bytes -> bytes -> Prop :=
| interims_nil : interims [] []
| interims_cons head status fields code out wire outs :
    valid_response head status fields code -> is_interim_response code = true ->
    sanitize_response_head head None false false = Ok out ->
    interims wire outs ->
    interims (head ++ wire) (out ++ outs).

(** [final_response method requested o closing wire out]: [wire] is a response that ends the exchange
    with the outcome [o], and [out] what the client is sent for it; [closing] when the end of the
    connection is the end of the response. *)
Inductive final_response (method : bytes) (requested : option (list bytes))
  : ForwardResponseOutcome -> bool -> bytes -> bytes -> Prop :=
| final_no_body head status fields code out :
    valid_response head status fields code -> 200 <= code -> response_has_no_body method code = true ->
    let reusable := response_allows_client_reuse head false in
    sanitize_response_head head (downstream_connection_header head reusable) false false = Ok out ->
    final_response method requested (HttpOutcome reusable) false head out
| final_chunked head status fields code out wire body :
    valid_response head status fields code -> 200 <= code -> response_has_no_body method code = false ->
    response_transfer_framing (head_bytes_of head) = Ok Chunked ->
    response_content_length (head_bytes_of head) = Ok None ->
    let reusable := response_allows_client_reuse head false in
    sanitize_response_head head (downstream_connection_header head reusable) true false = Ok out ->
    chunked_message wire body ->
    final_response method requested (HttpOutcome reusable) false (head ++ wire) (out ++ wire)
| final_fixed head status fields code out body :
    valid_response head status fields code -> 200 <= code -> response_has_no_body method code = false ->
    response_transfer_framing (head_bytes_of head) = Ok NoFraming ->
    response_content_length (head_bytes_of head) = Ok (Some (len body)) ->
    let reusable := response_allows_client_reuse head false in
    sanitize_response_head head (downstream_connection_header head reusable) false false = Ok out ->
    final_response method requested (HttpOutcome reusable) false (head ++ body) (out ++ body)
| final_closing head status fields code framing out body :
    valid_response head status fields code -> 200 <= code -> response_has_no_body method code = false ->
    response_transfer_framing (head_bytes_of head) = Ok framing -> framing <> Chunked ->
    response_content_length (head_bytes_of head) = Ok None ->
    sanitize_response_head head (Some (str "close")) false false = Ok out ->
    final_response method requested (HttpOutcome false) true (head ++ body) (out ++ body)
| final_upgrade head status fields protocols out more :
    valid_response head status fields 101 -> requested = Some protocols ->
    validate_switching_protocols_response head protocols = Ok tt ->
    sanitize_response_head head (Some (str "Upgrade")) false true = Ok out ->
    final_response method requested Upgraded false (head ++ more) (out ++ more).

Lemma interims_app (wire wire' out out' : bytes) :
  interims wire out -> interims wire' out' -> interims (wire ++ wire') (out ++ out').
Proof.
  induction 1; intros H'; [done|]. rewrite <- !app_assoc. by econstructor; eauto.
Qed.

Lemma interims_one head status fields code out :
  valid_response head status fields code -> is_interim_response code = true ->
  sanitize_response_head head None false false = Ok out -> interims head out.
Proof.
  intros H1 H2 H3. rewrite <- (app_nil_r head), <- (app_nil_r out).
  by econstructor; eauto using interims_nil.
Qed.

(** ** Errors of the response side *)
Definition is_started (e : ProxyError) : Prop :=
  match e with
  | ResponseStarted _ => True
  | _ => False
  end.

Definition is_client_error (e : ProxyError) : Prop :=
  match e with
  | ClientRead _ _ | InvalidClientBody _ => True
  | _ => False
  end.

Section started.
Context {R W : Type} `{!Read R} `{!Write W}.

Lemma raises_read_chunk_line (n : Z) : raises is_client_error (read_chunk_line n : io (R * W) _ _).
Proof.
  unfold read_chunk_line. apply (raises_at _ (fun s => read_chunk_line_loop (stream_fuel s) n [])). intros s.
  generalize (stream_fuel s) as fuel. intros fuel. generalize (@nil byte) as line.
  induction fuel as [|fuel IH]; intros line; [done|]. cbn [read_chunk_line_loop].
  assert (H1 : forall k : bytes -> io (R * W) ProxyError bytes, (forall b, raises is_client_error (k b)) ->
    raises is_client_error (io_bind (io_map_err client_read_error (read_exact 1)) k)).
  { intros k Hk. apply raises_bind; [by apply raises_map_any|done]. }
  assert (H2 : forall (one : bytes) (k : byte -> io (R * W) ProxyError bytes), (forall b, raises is_client_error (k b)) ->
    raises is_client_error (io_bind (io_lift (index one 0)) k)).
  { intros one k Hk. apply raises_bind; [|done]. apply raises_lift. unfold index, expect. intros e. by case_match. }
  apply H1. intros one. apply H2. intros b. repeat case_match; try by apply raises_err.
  - apply H1. intros two. apply H2. intros c. case_match; [by apply raises_err|apply raises_ret].
  - apply IH.
Qed.

Lemma raises_stream_data (re we : io_error -> ProxyError) (eof : ProxyError) (n : Z) (P : ProxyError -> Prop) :
  (forall e, P (re e)) -> (forall e, P (we e)) -> P eof -> raises P (stream_data re we eof n : io (R * W) _ _).
Proof.
  intros Hr Hw He. unfold stream_data. apply (raises_at _ (fun s => stream_data_loop (stream_fuel s) re we eof n)).
  intros s. generalize (stream_fuel s) as fuel. intros fuel. revert n.
  induction fuel as [|fuel IH]; intros n; cbn [stream_data_loop]; (case_match; [apply raises_ret|]); [done|].
  apply raises_bind; [by apply raises_map_any|]. intros bs. case_match; [by apply raises_err|].
  apply raises_bind; [by apply raises_map_any|]. intros _. apply IH.
Qed.

Lemma parse_chunk_size_error (line : bytes) e : parse_chunk_size line = Err e -> exists m, e = InvalidClientBody m.
Proof.
  unfold parse_chunk_size, ok_or, slice_to, slice_from. intros H.
  repeat (case_match; simplify_eq/=; try done; eauto).
Qed.

Lemma validate_trailer_line_error (line : bytes) e : validate_trailer_line line = Err e -> exists m, e = InvalidClientBody m.
Proof.
  unfold validate_trailer_line, ok_or, slice_to, slice_from. intros H.
  repeat (case_match; simplify_eq/=; try done; eauto).
Qed.

Lemma map_err_Err {E F A : Type} (f : E -> F) (m : res E A) e : map_err f m = Err e -> exists e', m = Err e' /\ e = f e'.
Proof. destruct m; simpl; naive_solver. Qed.

Lemma raises_write_line (line : bytes) : raises is_started (write_line response_started line : io (R * W) _ _).
Proof. apply raises_bind; [by apply raises_map_any|]. intros _. by apply raises_map_any. Qed.

Lemma raises_line (n : Z) : raises is_started (io_map_err response_line_error (read_chunk_line n) : io (R * W) _ _).
Proof. eapply raises_map_err; [apply raises_read_chunk_line|]. by intros []. Qed.

Lemma raises_stream_trailers : raises is_started (stream_trailers response_side : io (R * W) _ _).
Proof.
  unfold stream_trailers. apply (raises_at _ (fun s => stream_trailers_loop (stream_fuel s) response_side 0 0)). intros s.
  generalize (stream_fuel s) as fuel. intros fuel. generalize 0 at 1 as count. generalize 0 as size. intros size. revert size.
  induction fuel as [|fuel IH]; intros size count; [done|]. cbn [stream_trailers_loop].
  apply raises_bind; [apply raises_line|]. intros line. apply raises_bind.
  { apply raises_lift. unfold ok_or. intros e. case_match; by intros [= <-]. }
  intros total. case_match; [by apply raises_err|]. case_match; [by apply raises_map_any|].
  case_match; [by apply raises_err|]. apply raises_bind.
  { apply raises_lift. intros e (e' & [m ->]%validate_trailer_line_error & ->)%map_err_Err. done. }
  intros _. apply raises_bind; [apply raises_write_line|]. intros _. apply IH.
Qed.

Lemma raises_stream_chunks : raises is_started (stream_chunks response_side : io (R * W) _ _).
Proof.
  unfold stream_chunks. apply (raises_at _ (fun s => stream_chunks_loop (stream_fuel s) response_side)). intros s.
  generalize (stream_fuel s) as fuel. intros fuel. induction fuel as [|fuel IH]; [done|]. cbn [stream_chunks_loop].
  apply raises_bind; [apply raises_line|]. intros line. apply raises_bind.
  { apply raises_lift. intros e (e' & [m ->]%parse_chunk_size_error & ->)%map_err_Err. done. }
  intros n. apply raises_bind; [apply raises_write_line|]. intros _. case_match; [apply raises_stream_trailers|].
  apply raises_bind; [by apply raises_stream_data|]. intros _.
  apply raises_bind; [by apply raises_map_any|]. intros ending. case_match; [by apply raises_err|].
  apply raises_bind; [by apply raises_map_any|]. intros _. apply IH.
Qed.

Lemma raises_fixed (n : Z) (buf : bytes) : raises is_started (stream_fixed_response_body n buf : io (R * W) _ _).
Proof.
  unfold stream_fixed_response_body. cbn zeta. apply raises_bind.
  - case_match; [|apply raises_ret]. apply raises_bind; [|intros part; by apply raises_map_any].
    apply raises_lift. unfold slice_to. intros e. by case_match.
  - intros _. by apply raises_stream_data.
Qed.

Lemma raises_closing (buf : bytes) : raises is_started (stream_close_delimited_response_body buf : io (R * W) _ _).
Proof.
  unfold stream_close_delimited_response_body. apply raises_bind.
  - case_match; [by apply raises_map_any|apply raises_ret].
  - intros _. apply (raises_at _ (fun s => stream_to_end_loop (stream_fuel s))). intros s.
    generalize (stream_fuel s) as fuel. intros fuel. induction fuel as [|fuel IH]; [done|]. cbn [stream_to_end_loop].
    apply raises_bind; [by apply raises_map_any|]. intros bs. case_match; [apply raises_ret|].
    apply raises_bind; [by apply raises_map_any|]. intros _. apply IH.
Qed.

End started.

Lemma raises_chunked {R W : Type} `{!Read R} `{!Write W} (buf : bytes) :
  raises is_started (stream_chunked_response_body buf : io (R * W) _ _).
Proof.
  intros s. unfold stream_chunked_response_body, with_prefix.
  pose proof (raises_stream_chunks (new_prefixed buf s.1, s.2)) as H. by destruct (stream_chunks _ _) as [[]].
Qed.

Lemma response_status_code_range (head : bytes) (code : Z) :
  response_status_code head = Ok code -> 100 <= code <= 599.
Proof.
  unfold response_status_code. intros H. repeat (apply res_bind_Ok in H as (? & _ & H)).
  do 2 (case_match; [done|]). repeat (apply res_bind_Ok in H as (? & _ & H)).
  case_match eqn:Hb; [done|]. apply Ok_inj in H as <-. apply negb_false_iff, andb_true_iff in Hb as [Hlo%Z.leb_le Hhi%Z.leb_le].
  done.
Qed.

Lemma final_code (head : bytes) (code : Z) :
  response_status_code head = Ok code -> is_interim_response code = false -> code <> 101 -> 200 <= code.
Proof.
  intros [H1 _]%response_status_code_range. unfold is_interim_response. intros H H'.
  rewrite (proj2 (Z.leb_le _ _)), (proj2 (Z.eqb_neq _ _)) in H by done. destruct (Z.ltb_spec code 200); [done|lia].
Qed.

Lemma response_content_length_nonneg (headers : bytes) (n : Z) :
  response_content_length headers = Ok (Some n) -> 0 <= n.
Proof.
  intros H. enough (from_option (fun n => 0 <= n) True (Some n)) by done. revert H.
  apply (res_foldM_inv (from_option (fun n => 0 <= n) True)); [|done].
  intros o line o' Ho H. unfold response_content_length_line in H. apply res_bind_Ok in H as ([nm v] & _ & H).
  case_match; [by apply Ok_inj in H as <-|]. repeat (case_match; [done|]).
  apply res_bind_Ok in H as (m & Hm%ok_or_Ok%parse_uint_range & H); [|done]. apply Ok_inj in H as <-. cbn. lia.
Qed.

Lemma downstream_connection_valid (head : bytes) (b : bool) : valid_connection (downstream_connection_header head b).
Proof. unfold downstream_connection_header. by repeat case_match. Qed.

(** ** Forwarding a response *)
Section forwarding.
Context {R W : Type} `{!Read R} `{!Write W}.
Implicit Types (s : R * W).

(** [consumed buf s wire out unread s']: of the bytes [buf] and what [s] delivers, [wire] was used up
    and [unread] was read only; [out] was written. *)
Definition consumed (buf : bytes) s (wire out unread : bytes) s' : Prop :=
  exists c, quiet c /\ bytes_of c = wire /\ data buf ++ pending s.1 = c ++ data unread ++ pending s'.1 /\
    written s'.2 = written s.2 ++ out.

Lemma consumed_trans buf s wire out unread s1 wire' out' unread' s2 :
  consumed buf s wire out unread s1 -> consumed unread s1 wire' out' unread' s2 ->
  consumed buf s (wire ++ wire') (out ++ out') unread' s2.
Proof.
  intros (c & Hq & Hb & Hp & Hw) (c' & Hq' & Hb' & Hp' & Hw'). exists (c ++ c').
  split_and!; [by apply Forall_app|by rewrite bytes_of_app, Hb, Hb'|by rewrite Hp, Hp', <- app_assoc|].
  by rewrite Hw', Hw, <- app_assoc.
Qed.

Lemma consumed_write buf s out s1 : took s [] out s1 -> consumed buf s [] out buf s1.
Proof. intros [Hp Hw]. exists []. split_and!; [constructor|done|by rewrite Hp|done]. Qed.

Lemma consumed_head buf s bs head rest s1 :
  took s (data bs) [] s1 -> buf ++ bs = head ++ rest -> consumed buf s head [] rest s1.
Proof.
  intros [Hp Hw] E. exists (data head). split_and!; [apply quiet_data|apply bytes_of_data| |done].
  by rewrite Hp, !app_assoc, <- !data_app, E.
Qed.

Lemma relayed_consumed buf s unread wire s' : relayed buf s unread wire s' -> consumed buf s wire wire unread s'.
Proof. done. Qed.

Lemma consumed_bytes buf s wire out unread s' :
  consumed buf s wire out unread s' ->
  bytes_of (data buf ++ pending s.1) = wire ++ bytes_of (data unread ++ pending s'.1).
Proof. intros (c & _ & Hb & Hp & _). by rewrite Hp, bytes_of_app, Hb. Qed.

Lemma consumed_fuel buf s wire out unread s' :
  consumed buf s wire out unread s' -> (response_fuel unread s' + length wire <= response_fuel buf s)%nat.
Proof.
  intros (c & _ & Hb & Hp & _). pose proof (bytes_of_length c) as Hl. rewrite Hb in Hl.
  apply (f_equal length) in Hp. rewrite !length_app, !length_data in Hp. unfold response_fuel, stream_fuel. lia.
Qed.

(** The response was delivered whole. *)
Definition delivered (method : bytes) (requested : option (list bytes)) (buf : bytes) s
    (o : ForwardResponseOutcome) s' : Prop :=
  exists wi wo closing wf out unread,
    interims wi wo /\ final_response method requested o closing wf out /\
    consumed buf s (wi ++ wf) (wo ++ out) unread s' /\
    (o = Upgraded -> unread = []) /\ (closing = true -> unread = [] /\ pending s'.1 = []).

(** An error: unless it says that the response has started, the client was sent whole interim
    responses only; otherwise a prefix of a sanitised head and of the bytes that follow that head. *)
Definition failed (buf : bytes) s (e : ProxyError) s' : Prop :=
  exists wi wo, interims wi wo /\
    ((written s'.2 = written s.2 ++ wo /\ exists rest, bytes_of (data buf ++ pending s.1) = wi ++ rest) \/
     (is_started e /\
      exists head out c pt pu rest pre post,
        sanitize_response_head head c pt pu = Ok out /\
        bytes_of (data buf ++ pending s.1) = wi ++ head ++ rest /\
        out ++ rest = pre ++ post /\ written s'.2 = written s.2 ++ wo ++ pre)).

Lemma delivered_after method requested buf s wi wo unread s1 o s' :
  interims wi wo -> consumed buf s wi wo unread s1 -> delivered method requested unread s1 o s' ->
  delivered method requested buf s o s'.
Proof.
  intros Hi Hc (wi' & wo' & closing & wf & out & unread' & Hi' & Hf & Hc' & Hu). exists (wi ++ wi'), (wo ++ wo').
  exists closing, wf, out, unread'. split_and!; [by apply interims_app|done| |apply Hu..].
  rewrite <- !app_assoc. by eapply consumed_trans.
Qed.

Lemma failed_after buf s wi wo unread s1 e s' :
  interims wi wo -> consumed buf s wi wo unread s1 -> failed unread s1 e s' -> failed buf s e s'.
Proof.
  intros Hi Hc (wi' & wo' & Hi' & H). exists (wi ++ wi'), (wo ++ wo'). split; [by apply interims_app|].
  pose proof (consumed_bytes _ _ _ _ _ _ Hc) as Hb. destruct Hc as (c & _ & _ & _ & Hw).
  destruct H as [[H1 [rest H2]]|(He & head & out & cn & pt & pu & rest & pre & post & Hs & H2 & H3 & H4)].
  - left. split; [by rewrite H1, Hw, app_assoc|]. exists rest. by rewrite Hb, H2, app_assoc.
  - right. split; [done|]. exists head, out, cn, pt, pu, rest, pre, post.
    split_and!; [done|by rewrite Hb, H2, <- app_assoc|done|by rewrite H4, Hw, <- !app_assoc].
Qed.

(** Nothing has been written. *)
Lemma failed_read buf s e c s' : took s c [] s' -> failed buf s e s'.
Proof. intros [_ Hw]. exists [], []. split; [constructor|]. left. split; [done|]. by eexists. Qed.

(** The sanitised head was written in part, or whole with a part of what follows. *)
Lemma failed_head buf s head rest s1 c pt pu out pre post e s' :
  consumed buf s head [] rest s1 -> sanitize_response_head head c pt pu = Ok out -> is_started e ->
  out ++ bytes_of (data rest ++ pending s1.1) = pre ++ post -> written s'.2 = written s1.2 ++ pre ->
  failed buf s e s'.
Proof.
  intros Hc Hs He Hp Hw. exists [], []. split; [constructor|]. right. split; [done|].
  pose proof (consumed_bytes _ _ _ _ _ _ Hc) as Hb. destruct Hc as (ev & _ & _ & _ & Hw1).
  exists head, out, c, pt, pu. do 3 eexists. split_and!; [done|exact Hb|exact Hp|].
  rewrite Hw, Hw1, app_nil_r. done.
Qed.

Lemma failed_partial_head buf s head rest s1 c pt pu out pre post e s' :
  consumed buf s head [] rest s1 -> sanitize_response_head head c pt pu = Ok out -> is_started e ->
  out = pre ++ post -> took s1 [] pre s' -> failed buf s e s'.
Proof.
  intros Hc Hs He Hp [_ Hw]. eapply (failed_head _ _ _ _ _ _ _ _ _ pre (post ++ _)); [done..| |done].
  rewrite Hp, <- app_assoc. done.
Qed.

Lemma failed_body buf s head rest s1 c pt pu out s2 e s' :
  consumed buf s head [] rest s1 -> sanitize_response_head head c pt pu = Ok out -> is_started e ->
  took s1 [] out s2 -> cut_short rest s2 s' -> failed buf s e s'.
Proof.
  intros Hc Hs He [Hp2 Hw2] (pre & post & Hw & Hb). cbn [app] in Hp2. rewrite <- Hp2 in Hb.
  eapply (failed_head _ _ _ _ _ _ _ _ _ (out ++ pre) post); [done..| |].
  - by rewrite Hb, app_assoc.
  - by rewrite Hw, Hw2, app_assoc.
Qed.

(** A body that was relayed whole before the error. *)
Lemma relayed_cut_short buf s wire unread s1 s2 :
  consumed buf s wire wire unread s1 -> took s1 [] [] s2 -> cut_short buf s s2.
Proof.
  intros Hc [_ Hw2]. pose proof (consumed_bytes _ _ _ _ _ _ Hc) as Hb. destruct Hc as (c & _ & _ & _ & Hw).
  exists wire. eexists. split; [|exact Hb]. by rewrite Hw2, Hw, app_nil_r.
Qed.

Lemma wp_send_client (out : bytes) s (Q : unit -> R * W -> Prop) (X : ProxyError -> R * W -> Prop) :
  (forall s', took s [] out s' -> Q tt s') ->
  (forall e s' pre post, is_started e -> out = pre ++ post -> took s [] pre s' -> X e s') ->
  wp (send_client out) s Q X.
Proof.
  intros HQ HX. apply wp_bind, wp_map_err, wp_do_write; [|intros e s' pre post E Ht; by eapply HX].
  intros s1 Ht. apply wp_map_err, wp_do_flush; intros; [apply HQ|apply (HX _ _ out []); [done|by rewrite app_nil_r|]].
  all: rewrite <- (app_nil_r out); by apply (took_trans _ _ _ [] [] _ _ Ht).
Qed.

(** The body of a response: the head went out at [s2], and the stream starts there. *)
Lemma wp_body method requested buf s head rest s1 c pt pu out s2 closing (body : io (R * W) ProxyError unit) (o : bool) :
  consumed buf s head [] rest s1 -> sanitize_response_head head c pt pu = Ok out -> took s1 [] out s2 ->
  raises is_started body ->
  wp body s2
    (fun _ s' => exists wire unread, consumed rest s2 wire wire unread s' /\
       final_response method requested (HttpOutcome o) closing (head ++ wire) (out ++ wire) /\
       (closing = true -> unread = [] /\ pending s'.1 = []))
    (fun _ s' => cut_short rest s2 s') ->
  wp (let! _ := body in
      let! _ := io_map_err response_started do_flush in
      io_ret (HttpOutcome o)) s2
    (fun o s' => delivered method requested buf s o s') (fun e s' => failed buf s e s').
Proof.
  intros Hc Hs Ht Hr Hb. apply wp_bind. eapply wp_mono; [by apply (wp_raises _ _ _ _ _ Hr Hb)| |].
  - intros [] s3 (wire & unread & Hc3 & Hf & Hcl). apply wp_bind, wp_map_err, wp_do_flush.
    + intros s4 Ht4. apply wp_ret. exists [], [], closing, (head ++ wire), (out ++ wire), unread.
      split_and!; [constructor|done| |done|].
      * pose proof (consumed_trans _ _ _ _ _ _ _ _ _ _ Hc (consumed_write _ _ _ _ Ht)) as H1.
        pose proof (consumed_trans _ _ _ _ _ _ _ _ _ _ H1 Hc3) as H2.
        pose proof (consumed_trans _ _ _ _ _ _ _ _ _ _ H2 (consumed_write _ _ _ _ Ht4)) as H3.
        rewrite !app_nil_r in H3. exact H3.
      * intros H%Hcl. destruct Ht4 as [Hp4 _]. cbn [app] in Hp4. by rewrite <- Hp4.
    + intros e s4 Ht4. eapply failed_body; [done..|]. by eapply relayed_cut_short.
  - intros e s3 [He Hcs]. by eapply failed_body.
Qed.

Lemma wp_forward_final method requested buf s head rest status fields code s1 :
  consumed buf s head [] rest s1 -> valid_response head status fields code -> 200 <= code ->
  wp (forward_final method head rest code) s1
    (fun o s' => delivered method requested buf s o s') (fun e s' => failed buf s e s').
Proof.
  intros Hc Hv Hcode.
  assert (Hearly : forall e : ProxyError, failed buf s e s1).
  { intros e. destruct Hc as (c & _ & _ & _ & Hw). exists [], []. split; [constructor|]. left. split; [done|]. by eexists. }
  unfold forward_final. destruct (response_has_no_body method code) eqn:Hnb; cbn zeta.
  - apply wp_bind, wp_lift; [apply sanitize_returns| |auto]. intros out Hs. apply wp_bind, wp_send_client.
    + intros s2 Ht. apply wp_ret. exists [], [], false, head, out, rest. split_and!; [constructor| | |done|done].
      * by eapply final_no_body.
      * pose proof (consumed_trans _ _ _ _ _ _ _ _ _ _ Hc (consumed_write _ _ _ _ Ht)) as H1.
        by rewrite app_nil_r in H1.
    + intros. by eapply failed_partial_head.
  - rewrite slice_to_Ok by lia. apply wp_bind, wp_ret. fold (head_bytes_of head).
    apply wp_bind, wp_lift; [apply response_transfer_framing_returns| |auto]. intros f Hf.
    apply wp_bind, wp_lift; [apply response_content_length_returns| |auto]. intros cl Hcl.
    destruct (negb _ && _) eqn:Hboth; [apply wp_lift; [done|done|auto]|].
    apply wp_bind, wp_lift; [apply sanitize_returns| |auto]. intros out Hs.
    apply wp_bind, wp_map_err, wp_do_write; [|intros; by eapply failed_partial_head]. intros s2 Ht.
    assert (Hfix : forall n, cl = Some n -> f = NoFraming).
    { intros n ->. by destruct f. }
    assert (Hclose : cl = None -> f <> Chunked ->
      wp (let! _ := stream_close_delimited_response_body rest in
          let! _ := io_map_err response_started do_flush in
          io_ret (HttpOutcome (response_allows_client_reuse head true))) s2
        (fun o s' => delivered method requested buf s o s') (fun e s' => failed buf s e s')).
    { intros -> Hnc. rewrite !(bool_decide_false (f = Chunked)) in Hs by done. cbn in Hs.
      eapply (wp_body _ _ _ _ _ _ _ _ _ _ _ _ true); [done..|apply raises_closing|].
      eapply wp_mono; [apply wp_stream_close_delimited| |done]. intros _ s3 (body & Hr & He).
      exists body, []. split_and!; [done| |done]. by eapply final_closing. }
    destruct f.
    + destruct cl as [n|]; [|by apply Hclose].
      pose proof (response_content_length_nonneg _ _ Hcl) as Hn. cbn [bool_decide decide] in Hs.
      eapply (wp_body _ _ _ _ _ _ _ _ _ _ _ _ false); [done..|apply raises_fixed|].
      eapply wp_mono; [by apply wp_stream_fixed_response_body| |done]. intros _ s3 (body & unread & <- & Hr).
      exists body, unread. split_and!; [done| |done]. by eapply final_fixed.
    + destruct cl as [n|]; [by specialize (Hfix n eq_refl)|]. by apply Hclose.
    + destruct cl as [n|]; [by specialize (Hfix n eq_refl)|].
      eapply (wp_body _ _ _ _ _ _ _ _ _ _ _ _ false); [done..|apply raises_chunked|].
      eapply wp_mono; [by apply wp_stream_chunked_response_body| |done]. intros _ s3 (wire & body & unread & Hm & Hr).
      exists wire, unread. split_and!; [done| |done]. by eapply final_chunked.
Qed.

Lemma wp_forward_upgrade method requested buf s head rest status fields s1 :
  consumed buf s head [] rest s1 -> valid_response head status fields 101 ->
  wp (forward_upgrade head rest requested) s1
    (fun o s' => delivered method requested buf s o s') (fun e s' => failed buf s e s').
Proof.
  intros Hc Hv.
  assert (Hearly : forall e : ProxyError, failed buf s e s1).
  { intros e. destruct Hc as (c & _ & _ & _ & Hw). exists [], []. split; [constructor|]. left. split; [done|]. by eexists. }
  unfold forward_upgrade. apply wp_bind, wp_lift; [apply ok_or_returns| |auto]. intros protocols Hreq%ok_or_Ok.
  apply wp_bind, wp_lift; [apply switching_protocols_returns| |auto]. intros [] Hsw.
  apply wp_bind, wp_lift; [apply sanitize_returns| |auto]. intros out Hs.
  apply wp_bind, wp_map_err, wp_do_write; [|intros; by eapply failed_partial_head]. intros s2 Ht.
  assert (Hbytes : forall pre post, rest = pre ++ post -> bytes_of (data rest ++ pending s2.1) = pre ++ post ++ bytes_of (pending s2.1)).
  { intros pre post E. by rewrite bytes_of_app, bytes_of_data, E, <- app_assoc. }
  apply wp_bind, wp_map_err, wp_do_write.
  - intros s3 Ht3. apply wp_bind, wp_map_err, wp_do_flush.
    + intros s4 Ht4. apply wp_ret. exists [], [], false, (head ++ rest), (out ++ rest), [].
      split_and!; [constructor|by eapply final_upgrade| |done|done].
      pose proof (consumed_trans _ _ _ _ _ _ _ _ _ _ Hc (consumed_write _ _ _ _ Ht)) as H1.
      assert (H2 : consumed rest s2 rest rest [] s4).
      { destruct Ht3 as [Hp3 Hw3], Ht4 as [Hp4 Hw4]. exists (data rest).
        split_and!; [apply quiet_data|apply bytes_of_data|by rewrite Hp3, Hp4|by rewrite Hw4, Hw3, app_nil_r]. }
      pose proof (consumed_trans _ _ _ _ _ _ _ _ _ _ H1 H2) as H3. by rewrite !app_nil_r in H3.
    + intros e s4 [_ Hw4]. eapply failed_body; [done..|]. destruct Ht3 as [_ Hw3].
      exists rest, (bytes_of (pending s2.1)). split; [by rewrite Hw4, Hw3, app_nil_r|].
      by rewrite (Hbytes rest []) by (by rewrite app_nil_r).
  - intros e s3 pre post E [_ Hw3]. eapply failed_body; [done..|]. exists pre, (post ++ bytes_of (pending s2.1)).
    split; [done|]. by apply Hbytes.
Qed.

Lemma wp_interim buf s head rest status fields code s1 s2 out :
  consumed buf s head [] rest s1 -> valid_response head status fields code -> is_interim_response code = true ->
  sanitize_response_head head None false false = Ok out -> took s1 [] out s2 ->
  interims head out /\ consumed buf s head out rest s2.
Proof.
  intros Hc Hv Hi Hs Ht. split; [by eapply interims_one|].
  pose proof (consumed_trans _ _ _ _ _ _ _ _ _ _ Hc (consumed_write _ _ _ _ Ht)) as H1. by rewrite app_nil_r in H1.
Qed.

Lemma failed_early buf s wire unread s1 e : consumed buf s wire [] unread s1 -> failed buf s e s1.
Proof.
  intros (c & _ & _ & _ & Hw). exists [], []. split; [constructor|]. left. split; [done|]. by eexists.
Qed.

Lemma wp_forward_response_loop (fuel : nat) method requested buf s :
  (response_fuel buf s <= fuel)%nat ->
  wp (forward_response_loop fuel method buf requested) s
    (fun o s' => delivered method requested buf s o s') (fun e s' => failed buf s e s').
Proof.
  revert buf s. induction fuel as [|fuel IH]; intros buf s Hf; [unfold response_fuel, stream_fuel in Hf; lia|].
  cbn [forward_response_loop]. apply wp_bind, wp_read_response_head; [|intros; by eapply failed_read].
  intros bs head rest status fields code s1 Ht E Hv. pose proof (consumed_head _ _ _ _ _ _ Ht E) as Hc. cbn beta iota.
  rewrite (valid_code _ _ _ _ Hv). apply wp_bind, wp_ret.
  destruct (Z.eqb_spec code 101) as [->|Hne]; [by eapply wp_forward_upgrade|].
  destruct (is_interim_response code) eqn:Hi.
  - apply wp_bind, wp_lift; [apply sanitize_returns| |intros; by eapply failed_early]. intros out Hs.
    apply wp_bind, wp_send_client; [|intros; by eapply failed_partial_head]. intros s2 Ht2.
    destruct (wp_interim _ _ _ _ _ _ _ _ _ _ Hc Hv Hi Hs Ht2) as [Hin Hc2].
    eapply wp_mono; [apply IH| |].
    + apply consumed_fuel in Hc2. apply valid_response_end with (rest := rest) in Hv as [_ Hl]. lia.
    + intros o s'. by apply delivered_after with (wi := head) (wo := out).
    + intros e s'. by apply failed_after with (wi := head) (wo := out).
  - eapply wp_forward_final; [done..|]. eapply final_code; [apply Hv|done|done].
Qed.

Lemma wp_forward_response method requested buf s :
  wp (forward_response method buf requested) s
    (fun o s' => delivered method requested buf s o s') (fun e s' => failed buf s e s').
Proof. unfold wp, forward_response. by apply wp_forward_response_loop. Qed.

(** The wait for [100 Continue]: whole interim responses, the last of them the [100]; or a whole
    final response. *)
Definition continued (buf : bytes) s (method : bytes) (requested : option (list bytes)) (o : ContinueOutcome) s' : Prop :=
  match o with
  | Continue buffered => exists wi wo, interims wi wo /\ consumed buf s wi wo buffered s'
  | FinalResponseForwarded => exists o, o <> Upgraded /\ delivered method requested buf s o s'
  end.

(** A final head that is already buffered is the one that is forwarded. *)
Lemma forward_response_buffered method requested head rest status fields code s :
  valid_response head status fields code -> 200 <= code ->
  forward_response method (head ++ rest) requested s = forward_final method head rest code s.
Proof.
  intros Hv Hcode. unfold forward_response. destruct (response_fuel (head ++ rest) s) as [|fuel] eqn:Hf.
  { unfold response_fuel, stream_fuel in Hf. lia. }
  cbn [forward_response_loop]. unfold io_bind at 1, read_response_head. cbn [read_response_head_loop].
  destruct (valid_response_end _ _ _ _ rest Hv) as [-> Hl]. unfold io_bind at 1, io_lift at 1.
  rewrite slice_from_Ok by (rewrite length_app; lia). replace (length head - 4 + 4)%nat with (length head) by lia.
  rewrite take_app_length, drop_app_length. unfold io_bind at 1, io_lift at 1.
  rewrite (validate_complete _ _ _ _ Hv). cbn [io_ret]. unfold io_bind at 1, io_lift at 1.
  rewrite (valid_code _ _ _ _ Hv). rewrite (proj2 (Z.eqb_neq code 101)) by lia.
  unfold is_interim_response. by rewrite (proj2 (Z.ltb_ge code 200)), andb_false_r by done.
Qed.

Lemma yields_forward_final method head rest code :
  yields (fun o => exists b, o = HttpOutcome b) (forward_final method head rest code : io (R * W) _ _).
Proof.
  unfold forward_final. case_match; cbn zeta.
  - do 2 (apply yields_bind; intros ?). apply yields_ret. eauto.
  - do 3 (apply yields_bind; intros ?). case_match; [by apply yields_lift|].
    do 4 (apply yields_bind; intros ?). apply yields_ret. eauto.
Qed.

Lemma wp_await_loop (fuel : nat) method requested buf s :
  (response_fuel buf s <= fuel)%nat ->
  wp (await_loop fuel method buf requested) s
    (fun o s' => continued buf s method requested o s') (fun e s' => failed buf s e s').
Proof.
  revert buf s. induction fuel as [|fuel IH]; intros buf s Hf; [unfold response_fuel, stream_fuel in Hf; lia|].
  cbn [await_loop]. apply wp_bind, wp_read_response_head; [|intros; by eapply failed_read].
  intros bs head rest status fields code s1 Ht E Hv. pose proof (consumed_head _ _ _ _ _ _ Ht E) as Hc. cbn beta iota.
  rewrite (valid_code _ _ _ _ Hv). apply wp_bind, wp_ret.
  destruct (Z.eqb_spec code 101) as [->|Hne]; [apply wp_lift; [done|done|intros; by eapply failed_early]|].
  destruct (Z.eqb_spec code 100) as [->|Hne']; [|destruct (is_interim_response code) eqn:Hi].
  - apply wp_bind, wp_lift; [apply sanitize_returns| |intros; by eapply failed_early]. intros out Hs.
    apply wp_bind, wp_send_client; [|intros; by eapply failed_partial_head]. intros s2 Ht2. apply wp_ret.
    exists head, out. by eapply wp_interim.
  - apply wp_bind, wp_lift; [apply sanitize_returns| |intros; by eapply failed_early]. intros out Hs.
    apply wp_bind, wp_send_client; [|intros; by eapply failed_partial_head]. intros s2 Ht2.
    destruct (wp_interim _ _ _ _ _ _ _ _ _ _ Hc Hv Hi Hs Ht2) as [Hin Hc2].
    eapply wp_mono; [apply IH| |].
    + apply consumed_fuel in Hc2. apply valid_response_end with (rest := rest) in Hv as [_ Hl]. lia.
    + intros [buffered|] s'.
      * intros (wi & wo & Hin' & Hc'). exists (head ++ wi), (out ++ wo).
        split; [by apply interims_app|by eapply consumed_trans].
      * intros (o & Ho & Hd). exists o. split; [done|]. by eapply delivered_after.
    + intros e s'. by apply failed_after with (wi := head) (wo := out).
  - assert (Hfin : 200 <= code) by (eapply final_code; [apply Hv|done|done]).
    apply wp_bind. unfold wp. rewrite (forward_response_buffered _ _ _ _ _ _ _ _ Hv Hfin).
    eapply wp_mono; [eapply wp_yields; [apply yields_forward_final|by eapply (wp_forward_final _ requested)]| |done].
    intros o s' [[b ->] Hd]. apply wp_ret. by exists (HttpOutcome b).
Qed.

Lemma wp_await method requested s :
  wp (await_continue_or_final_response method requested) s
    (fun o s' => continued [] s method requested o s') (fun e s' => failed [] s e s').
Proof. unfold wp, await_continue_or_final_response. by apply wp_await_loop. Qed.

End forwarding.

(** ** Exchanges *)
Section exchanging.
Context {CR CW UR UW : Type} `{!Read CR} `{!Write CW} `{!Read UR} `{!Write UW}.
Implicit Types (l : Link CR CW UR UW).

(** The state of the code that copies the request, and of the code that copies the response. *)
Definition req l : CR * UW := ((client l).1, (server l).2).
Definition resp l : UR * CW := ((server l).1, (client l).2).

Lemma wp_on_request {E A : Type} (m : io (CR * UW) E A) l (Q : A -> Link CR CW UR UW -> Prop) X :
  wp m (req l) (fun a s => forall l', req l' = s -> resp l' = resp l -> Q a l')
    (fun e s => forall l', req l' = s -> resp l' = resp l -> X e l') ->
  wp (on_request m) l Q X.
Proof.
  unfold wp, on_request. fold (req l). destruct (m (req l)) as [[a|e| |] [r w]]; try done; intros H; by apply H.
Qed.

Lemma wp_on_response {E A : Type} (m : io (UR * CW) E A) l (Q : A -> Link CR CW UR UW -> Prop) X :
  wp m (resp l) (fun a s => forall l', resp l' = s -> req l' = req l -> Q a l')
    (fun e s => forall l', resp l' = s -> req l' = req l -> X e l') ->
  wp (on_response m) l Q X.
Proof.
  unfold wp, on_response. fold (resp l). destruct (m (resp l)) as [[a|e| |] [r w]]; try done; intros H; by apply H.
Qed.

(** The body a request announces, as it is on the wire. *)
Definition request_wire (r : Request) (wire : bytes) : Prop :=
  if has_transfer_encoding r then exists body, chunked_message wire body
  else match content_length r with
       | Some n => len wire = n
       | None => wire = []
       end.

Definition conclude (o : ForwardResponseOutcome) (unread : bytes) : ExchangeResult * disposition :=
  match o with
  | HttpOutcome true => (mkExchangeResult unread true false, KeepOpen)
  | HttpOutcome false => (mkExchangeResult unread false false, DropIt)
  | Upgraded => (mkExchangeResult unread false true, HandOver)
  end.

(** The request went out whole and the response came back whole; or the response came instead of the
    [100 Continue] and the body of the request was not touched. *)
Definition exchanged (r : Request) (requested : option (list bytes)) (buffered head : bytes) l
    (result : ExchangeResult * disposition) l' : Prop :=
  (exists o wire unread,
     request_wire r wire /\ consumed buffered (req l) wire (head ++ wire) unread (req l') /\
     delivered (method r) requested [] (resp l) o (resp l') /\ result = conclude o unread) \/
  (request_expects_continue r = true /\ request_has_body r = true /\ took (req l) [] head (req l') /\
   (exists o, o <> Upgraded /\ delivered (method r) requested [] (resp l) o (resp l')) /\
   result = (mkExchangeResult [] false false, DropIt)).

(** What an error leaves: the upstream has a prefix of the request, and the client what [failed] says. *)
Definition broken_off (buffered head : bytes) l (e : ProxyError) l' : Prop :=
  failed [] (resp l) e (resp l') /\
  exists pre post, written (server l').2 = written (server l).2 ++ pre /\
    head ++ bytes_of (data buffered ++ pending (client l).1) = pre ++ post.

Lemma failed_interims (wi wo unread : bytes) l e l1 l' :
  interims wi wo -> consumed [] (resp l) wi wo unread (resp l1) -> resp l' = resp l1 -> failed [] (resp l) e (resp l').
Proof.
  intros Hi Hc ->. eapply failed_after; [done..|]. apply (failed_read _ _ _ []). apply took_refl.
Qed.

(** The body of the request, once its head is out. *)
Lemma wp_request_body (r : Request) (buffered : bytes) (s : CR * UW) :
  match content_length r with Some n => 0 <= n | None => True end ->
  wp (if has_transfer_encoding r then stream_chunked_request_body buffered
      else match content_length r with
           | Some n => stream_request_body n buffered
           | None => io_ret buffered
           end) s
    (fun unread s' => exists wire, request_wire r wire /\ relayed buffered s unread wire s')
    (fun _ s' => cut_short buffered s s').
Proof.
  intros Hn. unfold request_wire. destruct (has_transfer_encoding r).
  - eapply wp_mono; [apply wp_stream_chunked_request_body| |done]. intros unread s' (wire & body & Hm & Hr). eauto.
  - destruct (content_length r) as [n|].
    + eapply wp_mono; [by apply wp_stream_request_body| |done]. intros unread s' (body & Hl & Hr). eauto.
    + apply wp_ret. exists []. split; [done|]. exists []. split_and!; [constructor|done|done|by rewrite app_nil_r].
Qed.

(** From the moment the head is out and, perhaps, the [100 Continue] is in. *)
Lemma wp_exchange_rest (r : Request) (requested : option (list bytes)) (buffered head wi wo buffered_response : bytes) l l1 :
  match content_length r with Some n => 0 <= n | None => True end ->
  interims wi wo -> consumed [] (resp l) wi wo buffered_response (resp l1) -> took (req l) [] head (req l1) ->
  wp (let! unread :=
        on_request (if has_transfer_encoding r then stream_chunked_request_body buffered
                    else match content_length r with
                         | Some n => stream_request_body n buffered
                         | None => io_ret buffered
                         end) in
      let! _ := on_request (io_map_err upstream_write_error do_flush) in
      let! response_outcome := on_response (forward_response (method r) buffered_response requested) in
      match response_outcome with
      | HttpOutcome reusable =>
          io_ret (mkExchangeResult unread reusable false, if reusable then KeepOpen else DropIt)
      | Upgraded => io_ret (mkExchangeResult unread false true, HandOver)
      end) l1
    (fun result l' => exchanged r requested buffered head l result l')
    (fun e l' => broken_off buffered head l e l').
Proof.
  intros Hn Hi Hc [Hp1 Hw1]. cbn [app] in Hp1. change (pending (client l).1 = pending (client l1).1) in Hp1.
  change (written (server l1).2 = written (server l).2 ++ head) in Hw1.
  assert (Hcut : forall s', cut_short buffered (req l1) s' -> exists pre post,
    written s'.2 = written (server l).2 ++ pre /\ head ++ bytes_of (data buffered ++ pending (client l).1) = pre ++ post).
  { intros s' (pre & post & Hw & Hb). exists (head ++ pre), post. rewrite Hp1. unfold req in Hw, Hb. cbn in Hw, Hb.
    rewrite Hw, Hw1, Hb, !app_assoc. done. }
  apply wp_bind, wp_on_request. eapply wp_mono; [by apply wp_request_body| |].
  2: { intros e s2 H2 l2 E2 E2'. split; [by eapply failed_interims|]. apply Hcut in H2. by rewrite <- E2 in H2. }
  intros unread s2 (wire & Hwire & Hr) l2 E2 E2'. subst s2.
  assert (Hcut3 : forall l3, took (req l2) [] [] (req l3) -> exists pre post,
    written (server l3).2 = written (server l).2 ++ pre /\ head ++ bytes_of (data buffered ++ pending (client l).1) = pre ++ post).
  { intros l3 Ht3. apply (Hcut (req l3)). by apply (relayed_cut_short _ _ wire unread (req l2)). }
  apply wp_bind, wp_on_request, wp_map_err, wp_do_flush.
  2: { intros e s3 Ht3 l3 <- E3'. split; [|by apply Hcut3]. eapply failed_interims; [done..|]. by rewrite E3'. }
  intros s3 Ht3 l3 <- E3'. rewrite E2' in E3'.
  apply wp_bind, wp_on_response. rewrite E3'. eapply wp_mono; [apply (wp_forward_response _ requested)| |].
  2: { intros e s4 H4 l4 <- E4. split; [by eapply failed_after|].
       change (server l4).2 with (req l4).2. rewrite E4. by apply Hcut3. }
  intros o s4 H4 l4 <- E4.
  assert (Hex : exchanged r requested buffered head l (conclude o unread) l4).
  { left. exists o, wire, unread. split_and!; [done| |by eapply delivered_after|done]. rewrite E4.
    destruct Hr as (c & Hq & Hb & Hp & Hw). destruct Ht3 as [Hp3 Hw3]. cbn [app] in Hp3. exists c.
    change (pending (req l).1) with (pending (client l).1). rewrite Hp1, <- Hp3.
    split_and!; [done|done|done|]. rewrite Hw3, Hw, app_nil_r, app_assoc.
    change (written (req l1).2) with (written (server l1).2). by rewrite Hw1. }
  by destruct o as [[]|].
Qed.

Lemma wp_exchange (r : Request) (requested : option (list bytes)) (buffered : bytes) (ip : IpAddr) (proto : ForwardedProto) l :
  match content_length r with Some n => 0 <= n | None => True end ->
  wp (exchange_on_connection r requested buffered ip proto) l
    (fun result l' => exists head, serialize_request_head r ip proto = Ok head /\
       exchanged r requested buffered head l result l')
    (fun e l' => serialize_request_head r ip proto = Err e /\ l' = l \/
       exists head, serialize_request_head r ip proto = Ok head /\ broken_off buffered head l e l').
Proof.
  intros Hn. unfold exchange_on_connection. apply wp_bind, wp_lift; [apply serialize_request_head_returns| |by left].
  intros head Hh.
  apply (wp_mono _ _ (fun result l' => exchanged r requested buffered head l result l') _
    (fun e l' => broken_off buffered head l e l')); [|eauto..].
  assert (Hprefix : forall e l' pre post, head = pre ++ post -> written (server l').2 = written (server l).2 ++ pre ->
    failed [] (resp l) e (resp l') -> broken_off buffered head l e l').
  { intros e l' pre post E Hw Hf. split; [done|]. exists pre. eexists. split; [done|]. by rewrite E, <- app_assoc. }
  assert (Hwhole : forall e l', written (server l').2 = written (server l).2 ++ head ->
    failed [] (resp l) e (resp l') -> broken_off buffered head l e l').
  { intros e l'. by apply (Hprefix _ _ head []); rewrite app_nil_r. }
  assert (Hnone : consumed [] (resp l) [] [] [] (resp l)) by apply consumed_write, took_refl.
  apply wp_bind, wp_on_request, wp_map_err, wp_do_write.
  2: { intros e s1 pre post E [_ Hw1] l1 <- E1. eapply Hprefix; [done|done|].
       by eapply failed_interims; [apply interims_nil|apply Hnone|]. }
  intros s1 Ht1 l1 <- E1.
  destruct (request_expects_continue r && request_has_body r) eqn:Hexp.
  2: { apply wp_bind, wp_ret. eapply wp_exchange_rest; [done|apply interims_nil| |done]. by rewrite E1. }
  apply andb_true_iff in Hexp as [He Hb]. apply wp_bind, wp_bind, wp_on_request, wp_map_err, wp_do_flush.
  2: { intros e s2 [_ Hw2] l2 <- E2. destruct Ht1 as [_ Hw1]. apply Hwhole.
       - rewrite app_nil_r in Hw2. change (server l2).2 with (req l2).2. by rewrite Hw2, Hw1.
       - eapply failed_interims; [apply interims_nil|apply Hnone|]. by rewrite E2. }
  intros s2 Ht2 l2 <- E2. pose proof (took_trans _ _ _ _ _ _ _ Ht1 Ht2) as Ht. rewrite app_nil_r in Ht. cbn [app] in Ht.
  rewrite E1 in E2. apply wp_on_response. rewrite E2. eapply wp_mono; [apply wp_await| |].
  2: { intros e s3 Hf l3 <- E3. apply Hwhole; [|done]. destruct Ht as [_ Hw]. rewrite <- E3, app_nil_r in Hw. exact Hw. }
  intros [buffered_response|] s3 Hc l3 <- E3.
  - destruct Hc as (wi & wo & Hi & Hc). rewrite app_nil_r in Ht. eapply wp_exchange_rest; [done..|]. by rewrite E3.
  - apply wp_ret. right. rewrite E3, app_nil_r in *. done.
Qed.

End exchanging.

(** ** Connecting *)
Section connecting.
Context {U : Type}.

(** An address that was tried in time and refused the connection. *)
Definition refused (timeout : Z) (ep : endpoint U) : Prop :=
  elapsed ep < timeout /\
  exists e, connect_timeout ep (timeout - elapsed ep) = Err e /\ is_timeout_kind (kind e) = false.

(** What the resolver and the sockets answer is a value or an error. *)
Definition answers (ep : endpoint U) : Prop :=
  (forall t, returns (connect_timeout ep t)) /\ returns (set_timeouts ep).

(** The error of the last address tried. *)
Definition refusal (timeout : Z) (eps : list (endpoint U)) : option (ErrorKind * bytes) :=
  match list.last eps with
  | Some ep =>
      match connect_timeout ep (timeout - elapsed ep) with
      | Err e => Some (kind e, message e)
      | _ => None
      end
  | None => None
  end.

Lemma connect_endpoints_spec (address : bytes) (timeout : Z) (last : option (ErrorKind * bytes)) (eps : list (endpoint U)) :
  Forall answers eps ->
  match connect_endpoints address timeout last eps with
  | Ok u => exists pre ep post, eps = pre ++ ep :: post /\ Forall (refused timeout) pre /\
      elapsed ep < timeout /\ connect_timeout ep (timeout - elapsed ep) = Ok u /\ set_timeouts ep = Ok tt
  | Err e => exists k m, e = Connect address k m /\
      (Forall (refused timeout) eps -> eps <> [] -> refusal timeout eps = Some (k, m))
  | Panic | Fuel => False
  end.
Proof.
  intros Hall. revert last. induction Hall as [|ep eps [Hc Hs] Hall IH]; intros last; cbn [connect_endpoints].
  { destruct last as [[k m]|]; cbn; (do 2 eexists; by split). }
  destruct (Z.leb_spec timeout (elapsed ep)) as [Hle|Hlt].
  { do 2 eexists. split; [done|]. intros [[H _] _]%Forall_cons. lia. }
  specialize (Hc (timeout - elapsed ep)). destruct (connect_timeout ep (timeout - elapsed ep)) as [u|e| |] eqn:E; try done.
  - destruct (set_timeouts ep) as [[]|e| |] eqn:Es; try done; cbn [map_err res_bind].
    + exists [], ep, eps. split_and!; [done|constructor|done..].
    + do 2 eexists. split; [done|]. intros [(_ & e' & E' & _) _]%Forall_cons. congruence.
  - destruct (is_timeout_kind (kind e)) eqn:Ek.
    + do 2 eexists. split; [done|]. intros [(_ & e' & E' & Ek') _]%Forall_cons. congruence.
    + assert (Hr : refused timeout ep) by (split; [done|by exists e]).
      destruct eps as [|ep' eps]; [|specialize (IH (Some (kind e, message e)))].
      { cbn. do 2 eexists. split; [done|]. intros _ _. unfold refusal. cbn. by rewrite E. }
      destruct (connect_endpoints _ _ _ _) as [u|e'| |]; try done.
      * destruct IH as (pre & ep1 & post & -> & Hpre & H). exists (ep :: pre), ep1, post. split; [done|]. split; [by constructor|done].
      * destruct IH as (k & m & -> & H). exists k, m. split; [done|]. intros [_ Hf]%Forall_cons _.
        unfold refusal in *. cbn [list.last]. by apply H.
Qed.

End connecting.

Lemma exchanged_disposition {CR CW UR UW : Type} `{!Read CR} `{!Write CW} `{!Read UR} `{!Write UW}
    (r : Request) (requested : option (list bytes)) (buffered head : bytes) (l l' : Link CR CW UR UW) result d :
  exchanged r requested buffered head l (result, d) l' ->
  d = (if upgraded result then HandOver else if client_reusable result then KeepOpen else DropIt).
Proof.
  intros [(o & _ & unread & _ & _ & _ & E)|(_ & _ & _ & _ & E)]; [destruct o as [[]|]; cbn in E|]; by injection E as -> ->.
Qed.

Section session.
Context {CR CW UR UW : Type} `{!Read CR} `{!Write CW} `{!Read UR} `{!Write UW}.

Lemma exchange_spec (resolve : bytes -> res io_error (list (endpoint (UR * UW))))
    (s : Session (UR * UW)) (route : Route) (r : Request) (c : CR * CW) (buffered : bytes) (ip : IpAddr) (proto : ForwardedProto) :
  match content_length r with Some n => 0 <= n | None => True end ->
  returns (take_upstream resolve s (address (upstream route))) ->
  match exchange_with_proto resolve s route r c buffered ip proto with
  | (Ok result, (s', c', Some conn')) =>
      exists conn requested head,
        take_upstream resolve s (address (upstream route)) = Ok conn /\ request_upgrade_protocols r = Ok requested /\
        serialize_request_head r ip proto = Ok head /\
        (exists d, exchanged r requested buffered head (mkLink c conn) (result, d) (mkLink c' conn')) /\
        session_upstream s' = (if upgraded result then None else if client_reusable result
                               then Some (address (upstream route), conn') else None) /\
        upgraded_upstream s' = (if upgraded result then Some conn' else upgraded_upstream s)
  | (Err e, (s', c', Some conn')) =>
      (exists conn, take_upstream resolve s (address (upstream route)) = Ok conn /\
         failed [] (conn.1, c.2) e (conn'.1, c'.2)) /\
      session_upstream s' = None /\ upgraded_upstream s' = upgraded_upstream s
  | (Err e, (s', c', None)) =>
      c' = c /\ (request_upgrade_protocols r = Err e /\ s' = s \/
                 session_upstream s' = None /\ upgraded_upstream s' = upgraded_upstream s)
  | _ => False
  end.
Proof.
  intros Hn Ht. unfold exchange_with_proto. pose proof (request_upgrade_protocols_returns r) as Hp.
  destruct (request_upgrade_protocols r) as [requested|e| |]; try done; [|by split; [|left]].
  destruct (take_upstream _ _ _) as [conn|e| |]; try done; [|by split; [|right]].
  pose proof (wp_exchange r requested buffered ip proto (mkLink c conn) Hn) as H. unfold wp in H.
  destruct (exchange_on_connection _ _ _ _ _ _) as [[[result d]|e| |] [c' conn']]; try done.
  - destruct H as (head & Hh & Hex). exists conn, requested, head. pose proof (exchanged_disposition _ _ _ _ _ _ _ _ Hex) as Hd.
    split_and!; [done..|by exists d| |]; rewrite Hd; by destruct (upgraded result), (client_reusable result).
  - split; [|done]. exists conn. split; [done|]. destruct H as [[_ E]|(head & _ & Hf & _)]; [|exact Hf].
    injection E as -> ->. apply (failed_read _ _ _ []). apply took_refl.
Qed.

Lemma take_upstream_returns (U V : Type) (resolve : bytes -> res io_error (list (endpoint (U * V)))) (s : Session (U * V)) (a : bytes) :
  returns (resolve a) -> (forall eps, resolve a = Ok eps -> Forall answers eps) -> returns (take_upstream resolve s a).
Proof.
  intros Hr Ha. assert (Hc : forall timeout, returns (connect_upstream resolve a timeout)).
  { intros timeout. unfold connect_upstream. destruct (resolve a) as [eps|e| |] eqn:E; try done. cbn [map_err res_bind].
    destruct eps as [|ep eps]; [done|]. pose proof (connect_endpoints_spec a timeout None _ (Ha _ eq_refl)) as H.
    by destruct (connect_endpoints _ _ _ _). }
  unfold take_upstream. destruct (session_upstream s) as [[a' conn]|]; [by destruct (bytes_eqb a' a)|done].
Qed.

(** The part of an exchange that the client sees: a whole answer to [r]. *)
Definition whole_answer (r : Request) (o : ForwardResponseOutcome) (out : bytes) : Prop :=
  exists requested closing wi wo wf final,
    request_upgrade_protocols r = Ok requested /\ interims wi wo /\
    final_response (method r) requested o closing wf final /\ out = wo ++ final.

Lemma exchanged_answer (r : Request) (requested : option (list bytes)) (buffered head : bytes) (l l' : Link CR CW UR UW) result d :
  request_upgrade_protocols r = Ok requested -> exchanged r requested buffered head l (result, d) l' ->
  exists o out, whole_answer r o out /\ written (client l').2 = written (client l).2 ++ out /\
    (o = Upgraded <-> upgraded result = true).
Proof.
  intros Hreq Hex.
  assert (Hd : forall o, delivered (method r) requested [] (resp l) o (resp l') ->
    exists out, whole_answer r o out /\ written (client l').2 = written (client l).2 ++ out).
  { intros o (wi & wo & closing & wf & final & unread & Hi & Hf & (c & _ & _ & _ & Hw) & _). exists (wo ++ final).
    split; [by exists requested, closing, wi, wo, wf, final|exact Hw]. }
  destruct Hex as [(o & wire & unread & _ & _ & Hdel & E)|(_ & _ & _ & (o & Ho & Hdel) & E)];
    apply Hd in Hdel as (out & Hout & Hw); exists o, out; (split; [done|]); (split; [done|]).
  - destruct o as [[]|]; cbn in E; by injection E as -> ->.
  - injection E as -> ->. by split.
Qed.

(** A reusable exchange leaves the client's stream after the request's body. *)
Lemma exchanged_fuel (r : Request) (requested : option (list bytes)) (buffered head : bytes) (l l' : Link CR CW UR UW) result d :
  exchanged r requested buffered head l (result, d) l' -> client_reusable result = true ->
  (response_fuel (buffered_client_bytes result) (client l') <= response_fuel buffered (client l))%nat.
Proof.
  intros [(o & wire & unread & _ & Hc & _ & E)|(_ & _ & _ & _ & E)] Hr; [|by injection E as -> ->].
  apply consumed_fuel in Hc. destruct o as [[]|]; cbn in E; injection E as -> ->; try done.
  change (response_fuel unread (req l') <= response_fuel buffered (req l))%nat. lia.
Qed.

End session.

(** ** Properties *)
Section properties.
Context {R W : Type} `{!Read R} `{!Write W}.
Implicit Types (s : R * W).

(** Forwarding a response returns on every upstream and every client. When it succeeds the upstream
    sent whole interim responses and one whole final response, and the client was sent their
    sanitised heads and the body unchanged. When it fails with another error than
    [ResponseStarted], the client has been sent whole interim responses and nothing of a final one,
    so that an error response can still be sent to it. *)
Theorem forward_response_correct (method buf : bytes) (requested : option (list bytes)) s :
  match forward_response method buf requested s with
  | (Ok o, s') => delivered method requested buf s o s'
  | (Err e, s') => failed buf s e s'
  | (Panic, _) | (Fuel, _) => False
  end.
Proof. apply wp_forward_response. Qed.

(** The wait for [100 Continue] returns. It ends with the [100] only after the interim responses
    before it, and keeps what was read after it; any other final response is forwarded whole, and
    is never taken for an upgrade. *)
Theorem await_continue_correct (method : bytes) (requested : option (list bytes)) s :
  match await_continue_or_final_response method requested s with
  | (Ok o, s') => continued [] s method requested o s'
  | (Err e, s') => failed [] s e s'
  | (Panic, _) | (Fuel, _) => False
  end.
Proof. apply wp_await. Qed.

End properties.

Section session_properties.
Context {CR CW UR UW : Type} `{!Read CR} `{!Write CW} `{!Read UR} `{!Write UW}.

(** Connecting tries the addresses in order, each with the time that is left, takes the first that
    accepts, and reports the last refusal when all of them refuse; every error names the upstream. *)
Theorem connect_upstream_correct (U : Type) (resolve : bytes -> res io_error (list (endpoint U))) (address : bytes) (timeout : Z) :
  returns (resolve address) -> (forall eps, resolve address = Ok eps -> Forall answers eps) ->
  match connect_upstream resolve address timeout with
  | Ok u => exists pre ep post, resolve address = Ok (pre ++ ep :: post) /\ Forall (refused timeout) pre /\
      elapsed ep < timeout /\ connect_timeout ep (timeout - elapsed ep) = Ok u /\ set_timeouts ep = Ok tt
  | Err e => exists k m, e = Connect address k m /\
      forall eps, resolve address = Ok eps -> Forall (refused timeout) eps -> eps <> [] -> refusal timeout eps = Some (k, m)
  | Panic | Fuel => False
  end.
Proof.
  intros Hr Ha. unfold connect_upstream. destruct (resolve address) as [eps|e| |] eqn:E; try done; cbn [map_err res_bind].
  2: { by do 2 eexists. }
  destruct eps as [|ep eps]; [do 2 eexists; split; [done|naive_solver]|].
  pose proof (connect_endpoints_spec address timeout None _ (Ha _ eq_refl)) as H.
  destruct (connect_endpoints _ _ _ _) as [u|e| |]; try done.
  - destruct H as (pre & ep1 & post & -> & H). by exists pre, ep1, post.
  - destruct H as (k & m & -> & H). exists k, m. split; [done|]. intros eps' [= <-]. done.
Qed.

(** C8: an exchange sends the upstream the request's head and its body, and the client the response, and
    returns. The session keeps the upstream connection for the same address exactly when the whole
    request was sent, the whole response came back, and the response allows another; it hands the
    connection over exactly when the protocols were switched; after an error it keeps none, unless
    the request was refused before a connection was taken. *)
Theorem exchange_correct (resolve : bytes -> res io_error (list (endpoint (UR * UW))))
    (s : Session (UR * UW)) (route : Route) (r : Request) (c : CR * CW) (buffered : bytes) (ip : IpAddr) (proto : ForwardedProto) :
  match content_length r with Some n => 0 <= n | None => True end ->
  returns (take_upstream resolve s (address (upstream route))) ->
  match exchange_with_proto resolve s route r c buffered ip proto with
  | (Ok result, (s', c', Some conn')) =>
      exists conn requested head,
        take_upstream resolve s (address (upstream route)) = Ok conn /\ request_upgrade_protocols r = Ok requested /\
        serialize_request_head r ip proto = Ok head /\
        (exists d, exchanged r requested buffered head (mkLink c conn) (result, d) (mkLink c' conn')) /\
        session_upstream s' = (if upgraded result then None else if client_reusable result
                               then Some (address (upstream route), conn') else None) /\
        upgraded_upstream s' = (if upgraded result then Some conn' else upgraded_upstream s)
  | (Err e, (s', c', Some conn')) =>
      (exists conn, take_upstream resolve s (address (upstream route)) = Ok conn /\
         failed [] (conn.1, c.2) e (conn'.1, c'.2)) /\
      session_upstream s' = None /\ upgraded_upstream s' = upgraded_upstream s
  | (Err e, (s', c', None)) =>
      c' = c /\ (request_upgrade_protocols r = Err e /\ s' = s \/
                 session_upstream s' = None /\ upgraded_upstream s' = upgraded_upstream s)
  | _ => False
  end.
Proof. apply exchange_spec. Qed.

End session_properties.

(** ** Examples *)
Definition sample_upstream : Script * Sink :=
  ([Data (str "HTTP/1.1 200 OK" ++ CRLF ++ str "Content-Le"); Data (str "ngth: 2" ++ CRLF ++ CRLF ++ str "o"); Data (str "k")], new_sink).

Definition sample_endpoint : endpoint (Script * Sink) :=
  mkEndpoint 0 (fun _ => Ok sample_upstream) (Ok tt).

Definition refusing_endpoint : endpoint (Script * Sink) :=
  mkEndpoint 0 (fun _ => Err (mkIoError ConnectionRefused (str "connection refused"))) (Ok tt).

Definition sample_resolve (_ : bytes) : res io_error (list (endpoint (Script * Sink))) :=
  Ok [refusing_endpoint; sample_endpoint].

Definition sample_route : Route := mkRoute (str "example.com") (mkUpstream (str "127.0.0.1") 9000).

Definition sample_exchange : res ProxyError ExchangeResult * (Session (Script * Sink) * (Script * Sink) * option (Script * Sink)) :=
  exchange_with_proto sample_resolve (new_session 10) sample_route sample_request ([] : Script, new_sink) []
    (IpV4 (127, 0, 0, 1)) HttpProto.

Example connect_upstream_correct_witness :
  exists pre ep post, sample_resolve (str "127.0.0.1:9000") = Ok (pre ++ ep :: post) /\ Forall (refused 10) pre /\
    elapsed ep < 10 /\ connect_timeout ep (10 - elapsed ep) = Ok sample_upstream /\ set_timeouts ep = Ok tt.
Proof.
  refine (connect_upstream_correct _ sample_resolve (str "127.0.0.1:9000") 10 I _).
  intros eps H. apply Ok_inj in H as <-. repeat constructor.
Defined.

Example exchange_correct_witness :
  exists result s' c' conn', sample_exchange = (Ok result, (s', c', Some conn')) /\ client_reusable result = true /\
    session_upstream s' = Some (address (upstream sample_route), conn').
Proof.
  pose proof (exchange_correct sample_resolve (new_session 10) sample_route sample_request ([] : Script, new_sink) []
    (IpV4 (127, 0, 0, 1)) HttpProto I I) as H.
  change (exchange_with_proto sample_resolve (new_session 10) sample_route sample_request ([] : Script, new_sink) []
    (IpV4 (127, 0, 0, 1)) HttpProto) with sample_exchange in H.
  assert (Hc : match sample_exchange with
               | (Ok result, (_, Some _)) => client_reusable result = true /\ upgraded result = false
               | _ => False
               end) by (vm_compute; split; reflexivity).
  destruct sample_exchange as [[result|e| |] [[s' c'] [conn'|]]]; try done.
  destruct Hc as [Hr Hu], H as (conn & requested & head & _ & _ & _ & _ & Hs & _).
  exists result, s', c', conn'. split; [done|]. split; [done|]. by rewrite Hu, Hr in Hs.
Defined.
