(* ===== verification/Tunnel.v ===== *)
(** * The tunnel of an upgraded connection: [src/proxy.rs]

    [Session::tunnel_upgraded] and [copy_tunnel_direction]. Two threads copy, one in each
    direction. A schedule, a list of thread names, says which of them runs next; a step is one
    round of [io::copy], or the statement after it. What the operating system answers to the
    socket calls is a parameter. *)
From Stdlib Require Import ZArith Lia.
From stdpp Require Import prelude.
From S2P Require Import Prelude Bytes NetAddr Http Config Io ProxyHead ProxyBody ProxySession.
Local Open Scope Z_scope.
Set Warnings "-clear-no-such-hyp".

(** The buffer of [io::copy]. *)
Definition COPY_BUFFER_SIZE : nat := Z.to_nat 8192.

(** Who moves next: the thread that copies to the upstream, the same when its read finds the client shut
    down, or the calling thread. *)
Inductive thread : Type :=
| Up
| UpShut
| Down.

#[export] Instance thread_eq_dec : EqDecision thread.
Proof. solve_decision. Defined.

(** One [io::copy]: still copying, with what it has copied, or over. *)
Inductive copying : Type :=
| Running (count : Z)
| Ended (result : res io_error Z).

Definition is_ended (c : copying) : bool :=
  match c with
  | Running _ => false
  | Ended _ => true
  end.

Definition ended_with_error (c : copying) : bool :=
  match c with
  | Ended (Err _) => true
  | _ => false
  end.

Section copy.
Context {R W : Type} `{!Read R} `{!Write W}.

(** A round of [io::copy]: an interrupted read is tried again. *)
Definition copy_round (count : Z) (s : R * W) : copying * (R * W) :=
  match do_read COPY_BUFFER_SIZE s with
  | (Ok [], s') => (Ended (Ok count), s')
  | (Ok bs, s') =>
      match do_write bs s' with
      | (Ok _, s'') => (Running (count + len bs), s'')
      | (Err e, s'') => (Ended (Err e), s'')
      | (Panic, s'') => (Ended Panic, s'')
      | (Fuel, s'') => (Ended Fuel, s'')
      end
  | (Err e, s') => if decide (kind e = Interrupted) then (Running count, s') else (Ended (Err e), s')
  | (Panic, s') => (Ended Panic, s')
  | (Fuel, s') => (Ended Fuel, s')
  end.

End copy.

(** What the operating system answers to the calls on the two sockets. *)
Record Sockets : Type := mkSockets {
  clear_client_timeouts : res io_error unit;
  clear_upstream_timeouts : res io_error unit;
  clone_client_reader : res io_error unit;
  clone_client_writer : res io_error unit;
  clone_upstream_reader : res io_error unit
}.

Section tunnel.
Context {CR CW UR UW : Type} `{!Read CR} `{!Write CW} `{!Read UR} `{!Write UW}.

(** [up] copies the client to the upstream in a thread of its own, [down] the upstream to the client
    in the calling one. A write half is closed when the copy to it ends; [client_closed] when the
    calling thread has shut the client down. *)
Record TunnelState : Type := mkTunnel {
  ends : Link CR CW UR UW;
  up : copying;
  down : copying;
  upstream_write_closed : bool;
  client_write_closed : bool;
  client_closed : bool
}.

Definition start (l : Link CR CW UR UW) : TunnelState := mkTunnel l (Running 0) (Running 0) false false false.

(** The thread that copies to the upstream: [io::copy], and the shutdown after it. *)
Definition step_up (t : TunnelState) : TunnelState :=
  match up t with
  | Ended _ => t
  | Running count =>
      let '(c, s) := copy_round count (req (ends t)) in
      mkTunnel (mkLink (s.1, (client (ends t)).2) ((server (ends t)).1, s.2)) c (down t)
        (is_ended c) (client_write_closed t) (client_closed t)
  end.

(** A reader that has been shut down may be at its end, whatever the client would still have sent. *)
Definition step_up_shut (t : TunnelState) : TunnelState :=
  match up t with
  | Ended _ => t
  | Running count =>
      if client_closed t
      then mkTunnel (ends t) (Ended (Ok count)) (down t) true (client_write_closed t) (client_closed t)
      else t
  end.

(** The calling thread: the copy to the client, the shutdown after it, and, when it failed, the
    shutdown of the client. *)
Definition step_down (t : TunnelState) : TunnelState :=
  match down t with
  | Ended (Err _) =>
      mkTunnel (ends t) (up t) (down t) (upstream_write_closed t) (client_write_closed t) true
  | Ended _ => t
  | Running count =>
      let '(c, s) := copy_round count (resp (ends t)) in
      mkTunnel (mkLink ((client (ends t)).1, s.2) (s.1, (server (ends t)).2)) (up t) c
        (upstream_write_closed t) (is_ended c) (client_closed t)
  end.

Definition tunnel_step (t : TunnelState) (th : thread) : TunnelState :=
  match th with
  | Up => step_up t
  | UpShut => step_up_shut t
  | Down => step_down t
  end.

Definition run_tunnel (schedule : list thread) (t : TunnelState) : TunnelState := fold_left tunnel_step schedule t.

(** The thread has been joined. *)
Definition finished (t : TunnelState) : bool :=
  is_ended (up t) && is_ended (down t) && (negb (ended_with_error (down t)) || client_closed t).

Definition tunnel_error (e : io_error) : ProxyError := Tunnel (message e).

(** The results of the two copies, that of the calling thread first. *)
Definition tunnel_result (t : TunnelState) : res ProxyError unit :=
  if negb (finished t) then Fuel
  else
    match up t, down t with
    | Ended upward, Ended downward =>
        match upward with
        | Panic => Err (Tunnel (str "client-to-upstream tunnel thread panicked"))
        | _ =>
            let? _ := map_err tunnel_error downward in
            let? _ := map_err tunnel_error upward in
            Ok tt
        end
    | _, _ => Fuel
    end.

(** What comes before the copies: the timeouts are cleared, the bytes already buffered are sent, and
    the sockets are cloned. *)
Definition open_tunnel (os : Sockets) (buffered_client_bytes : bytes) : io (Link CR CW UR UW) ProxyError unit :=
  let! _ := io_lift (map_err tunnel_error (clear_client_timeouts os)) in
  let! _ := io_lift (map_err tunnel_error (clear_upstream_timeouts os)) in
  let! _ :=
    if negb (bool_decide (buffered_client_bytes = [])) then
      let! _ := on_request (io_map_err tunnel_error (do_write buffered_client_bytes)) in
      on_request (io_map_err tunnel_error do_flush)
    else io_ret tt in
  let! _ := io_lift (map_err tunnel_error (clone_client_reader os)) in
  let! _ := io_lift (map_err tunnel_error (clone_client_writer os)) in
  io_lift (map_err tunnel_error (clone_upstream_reader os)).

(** [Session::tunnel_upgraded]: the upstream connection leaves the session. *)
Definition tunnel_upgraded (os : Sockets) (schedule : Link CR CW UR UW -> list thread) (s : Session (UR * UW)) (c : CR * CW)
    (buffered_client_bytes : bytes) : res ProxyError unit * (Session (UR * UW) * (CR * CW) * option (UR * UW)) :=
  match upgraded_upstream s with
  | None => (Err (Tunnel (str "no upgraded upstream connection is available")), (s, c, None))
  | Some upstream =>
      let s := mkSession (session_upstream s) None (upstream_timeout s) in
      match open_tunnel os buffered_client_bytes (mkLink c upstream) with
      | (Ok _, l) =>
          let t := run_tunnel (schedule l) (start l) in
          (tunnel_result t, (s, client (ends t), Some (server (ends t))))
      | (Err e, l) => (Err e, (s, client l, Some (server l)))
      | (Panic, l) => (Panic, (s, client l, Some (server l)))
      | (Fuel, l) => (Fuel, (s, client l, Some (server l)))
      end
  end.

End tunnel.
Arguments TunnelState : clear implicits.

(** ** One direction *)
Section copy_proofs.
Context {R W : Type} `{!Read R} `{!Write W}.
Implicit Types (s : R * W).

(** What a copy from [s0] has done when it is in [s]. *)
Definition copy_inv (s0 : R * W) (c : copying) s : Prop :=
  exists evs out, took s0 evs out s /\
    match c with
    | Running n => quiet evs /\ out = bytes_of evs /\ n = len out
    | Ended (Ok n) => quiet evs /\ out = bytes_of evs /\ n = len out
    | Ended (Err _) => exists post, bytes_of evs = out ++ post
    | Ended _ => False
    end.

Lemma copy_inv_start s : copy_inv s (Running 0) s.
Proof. exists [], []. split; [apply took_refl|]. split; [constructor|done]. Qed.

Lemma copy_buffer_pos : (0 < COPY_BUFFER_SIZE)%nat.
Proof. unfold COPY_BUFFER_SIZE. lia. Qed.

(** A round: what it does, and that it uses up something of the stream or ends. *)
Lemma copy_round_spec (s0 : R * W) (n : Z) s :
  copy_inv s0 (Running n) s ->
  let '(c, s') := copy_round n s in
  copy_inv s0 c s' /\ (forall m, c = Ended (Ok m) -> pending s'.1 = []) /\
  (is_ended c = false -> (length (pending s'.1) < length (pending s.1))%nat).
Proof.
  intros (evs & out & Ht & Hq & Ho & Hn). unfold copy_round.
  pose proof (wp_do_read COPY_BUFFER_SIZE s
    (fun bs s' => took s (data bs) [] s' /\ (bs = [] -> pending s.1 = []))
    (fun e s' => took s [inr e] [] s') copy_buffer_pos) as Hr. unfold wp in Hr.
  destruct (do_read COPY_BUFFER_SIZE s) as [[bs|e| |] s1]; [| |exfalso; apply Hr; auto..].
  - destruct Hr as (Ht1 & He); [auto..|]. destruct bs as [|b bs].
    { split_and!; [|intros _ _|done].
      - exists evs, out. split; [|done]. rewrite <- (app_nil_r evs), <- (app_nil_r out). by eapply took_trans.
      - destruct Ht1 as [Hp1 _]. cbn in Hp1. rewrite <- Hp1. by apply He. }
    pose proof (wp_do_write (b :: bs) s1 (fun _ s' => took s1 [] (b :: bs) s')
      (fun e s' => exists pre post, b :: bs = pre ++ post /\ took s1 [] pre s')) as Hw. unfold wp in Hw.
    destruct (do_write (b :: bs) s1) as [[u|e| |] s2]; [| |exfalso; apply Hw; eauto..].
    + specialize (Hw (fun s' H => H) ltac:(eauto)).
      pose proof (took_trans _ _ _ _ _ _ _ (took_trans _ _ _ _ _ _ _ Ht Ht1) Hw) as Ht2. rewrite !app_nil_r in Ht2.
      split_and!; [|done|].
      * do 2 eexists. split; [exact Ht2|]. split_and!; [apply Forall_app; split; [done|apply quiet_data]| |].
        -- by rewrite bytes_of_app, bytes_of_data, Ho.
        -- by rewrite len_app, Hn.
      * intros _. destruct Ht1 as [-> _], Hw as [-> _]. rewrite !length_app, length_data. simpl. lia.
    + destruct (Hw ltac:(auto) ltac:(eauto)) as (pre & post & E & Hw').
      pose proof (took_trans _ _ _ _ _ _ _ (took_trans _ _ _ _ _ _ _ Ht Ht1) Hw') as Ht2. rewrite !app_nil_r in Ht2.
      split_and!; [|done|done]. do 2 eexists. split; [exact Ht2|]. exists post.
      by rewrite bytes_of_app, bytes_of_data, <- Ho, E, app_assoc.
  - specialize (Hr ltac:(auto) ltac:(auto)). pose proof (took_trans _ _ _ _ _ _ _ Ht Hr) as Ht2. rewrite !app_nil_r in Ht2.
    assert (Hb : bytes_of (evs ++ [inr e]) = out) by (by rewrite bytes_of_app, app_nil_r, Ho).
    destruct (decide (kind e = Interrupted)) as [Hi|Hi].
    + split_and!; [|done|].
      * do 2 eexists. split; [exact Ht2|]. split_and!; [apply Forall_app; split; [done|by constructor]|by rewrite Hb|done].
      * intros _. destruct Hr as [-> _]. simpl. lia.
    + split_and!; [|done|done]. do 2 eexists. split; [exact Ht2|]. exists []. by rewrite app_nil_r.
Qed.

End copy_proofs.

(** ** Both directions *)
Section tunnel_proofs.
Context {CR CW UR UW : Type} `{!Read CR} `{!Write CW} `{!Read UR} `{!Write UW}.
Implicit Types (t : TunnelState CR CW UR UW) (l : Link CR CW UR UW).

(** Each direction has copied in order, whatever the other did; an end without an error is the end of
    the stream, or follows the shutdown of the client after an error of the other direction. *)
Record tunnel_inv l0 t : Prop := {
  inv_up : copy_inv (req l0) (up t) (req (ends t));
  inv_down : copy_inv (resp l0) (down t) (resp (ends t));
  inv_up_end : forall n, up t = Ended (Ok n) -> client_closed t = true \/ pending (client (ends t)).1 = [];
  inv_down_end : forall n, down t = Ended (Ok n) -> pending (server (ends t)).1 = [];
  inv_closed : client_closed t = true -> ended_with_error (down t) = true;
  inv_up_closed : upstream_write_closed t = is_ended (up t);
  inv_down_closed : client_write_closed t = is_ended (down t)
}.

Lemma tunnel_inv_start l : tunnel_inv l (start l).
Proof. split; try done; apply copy_inv_start. Qed.

Lemma step_up_inv l0 t : tunnel_inv l0 t -> tunnel_inv l0 (step_up t).
Proof.
  intros H. unfold step_up. destruct (up t) as [n|] eqn:Eu; [|done].
  pose proof (inv_up _ _ H) as Hu. rewrite Eu in Hu. pose proof (copy_round_spec _ _ _ Hu) as Hr.
  destruct (copy_round n (req (ends t))) as [c s]. destruct Hr as (Hi & He & _).
  destruct H as [_ Hd Hue Hde Hc Huc Hdc].
  split; cbn; try done. intros m ->. right. by eapply He.
Qed.

Lemma step_up_shut_inv l0 t : tunnel_inv l0 t -> tunnel_inv l0 (step_up_shut t).
Proof.
  intros H. unfold step_up_shut. destruct (up t) as [n|] eqn:Eu; [|done]. destruct (client_closed t) eqn:Ec; [|done].
  destruct H as [Hu Hd Hue Hde Hc Huc Hdc]. rewrite Eu in Hu. destruct Hu as (evs & out & Ht & Hq & Ho & Hn).
  split; cbn; try done; [|by left|intros _; by apply Hc].
  exists evs, out. split; [exact Ht|done].
Qed.

Lemma step_down_inv l0 t : tunnel_inv l0 t -> tunnel_inv l0 (step_down t).
Proof.
  intros H. unfold step_down. pose proof (inv_down _ _ H) as Hd. destruct (down t) as [n|[n|e| |]] eqn:Ed; try done.
  - pose proof (copy_round_spec _ _ _ Hd) as Hr. destruct (copy_round n (resp (ends t))) as [c s].
    destruct Hr as (Hi & He & _). destruct H as [Hu _ Hue Hde Hc Huc Hdc]. rewrite Ed in Hc.
    split; cbn; try done. intros Hcl. by specialize (Hc Hcl).
  - destruct H as [Hu _ Hue Hde Hc Huc Hdc]. rewrite Ed in *. split; cbn; try done. intros m Hm. by left.
Qed.

Lemma run_tunnel_inv l0 (schedule : list thread) t : tunnel_inv l0 t -> tunnel_inv l0 (run_tunnel schedule t).
Proof.
  revert t. induction schedule as [|th schedule IH]; intros t H; [done|]. apply IH.
  destruct th; [by apply step_up_inv|by apply step_up_shut_inv|by apply step_down_inv].
Qed.

(** The steps a thread still needs. *)
Definition up_steps t : nat :=
  match up t with
  | Running _ => S (length (pending (client (ends t)).1))
  | Ended _ => 0
  end.

Definition down_steps t : nat :=
  match down t with
  | Running _ => S (S (length (pending (server (ends t)).1)))
  | Ended (Err _) => if client_closed t then 0 else 1
  | Ended _ => 0
  end.

Definition count (th : thread) (schedule : list thread) : nat := length (filter (th =.) schedule).

Lemma step_up_steps l0 t :
  tunnel_inv l0 t -> (up_steps (step_up t) <= up_steps t - 1)%nat /\ down_steps (step_up t) = down_steps t.
Proof.
  intros H. unfold step_up. destruct (up t) as [n|] eqn:Eu; [|unfold up_steps; rewrite Eu; split; [lia|done]].
  pose proof (inv_up _ _ H) as Hu. rewrite Eu in Hu. pose proof (copy_round_spec _ _ _ Hu) as Hr.
  destruct (copy_round n (req (ends t))) as [c s]. destruct Hr as (_ & _ & Hl).
  unfold up_steps, down_steps. cbn. rewrite Eu. split; [|done].
  destruct c; [specialize (Hl eq_refl); cbn in Hl; lia|lia].
Qed.

Lemma step_up_shut_steps t :
  (up_steps (step_up_shut t) <= up_steps t)%nat /\ down_steps (step_up_shut t) = down_steps t.
Proof.
  unfold step_up_shut. destruct (up t) as [n|] eqn:Eu; [|done]. destruct (client_closed t) eqn:Ec; [|done].
  unfold up_steps, down_steps. cbn. rewrite Ec. split; [lia|done].
Qed.

Lemma step_down_steps l0 t :
  tunnel_inv l0 t -> (down_steps (step_down t) <= down_steps t - 1)%nat /\ up_steps (step_down t) = up_steps t.
Proof.
  intros H. unfold step_down. pose proof (inv_down _ _ H) as Hd.
  destruct (down t) as [n|[n|e| |]] eqn:Ed; try done.
  - pose proof (copy_round_spec _ _ _ Hd) as Hr. destruct (copy_round n (resp (ends t))) as [c s].
    destruct Hr as (Hi & _ & Hl). unfold up_steps, down_steps. cbn. rewrite Ed. split; [|done].
    destruct c as [|[]]; [specialize (Hl eq_refl); cbn in Hl; lia|lia| |lia|lia]. destruct (client_closed t); lia.
  - unfold down_steps. rewrite Ed. split; [lia|done].
  - unfold up_steps, down_steps. cbn. rewrite Ed. split; [lia|done].
  - unfold down_steps. rewrite Ed. split; [lia|done].
  - unfold down_steps. rewrite Ed. split; [lia|done].
Qed.

Lemma run_tunnel_steps l0 (schedule : list thread) t :
  tunnel_inv l0 t ->
  (up_steps (run_tunnel schedule t) <= up_steps t - count Up schedule)%nat /\
  (down_steps (run_tunnel schedule t) <= down_steps t - count Down schedule)%nat.
Proof.
  revert t. induction schedule as [|th schedule IH]; intros t H; [cbn; lia|].
  change (run_tunnel (th :: schedule) t) with (run_tunnel schedule (tunnel_step t th)).
  destruct th; cbn [tunnel_step].
  - destruct (IH _ (step_up_inv _ _ H)). destruct (step_up_steps _ _ H) as [Hs1 Hs2]. rewrite Hs2 in *.
    change (count Up (Up :: schedule)) with (S (count Up schedule)).
    change (count Down (Up :: schedule)) with (count Down schedule). lia.
  - destruct (IH _ (step_up_shut_inv _ _ H)). destruct (step_up_shut_steps t) as [Hs1 Hs2]. rewrite Hs2 in *.
    change (count Up (UpShut :: schedule)) with (count Up schedule).
    change (count Down (UpShut :: schedule)) with (count Down schedule). lia.
  - destruct (IH _ (step_down_inv _ _ H)). destruct (step_down_steps _ _ H) as [Hs1 Hs2]. rewrite Hs2 in *.
    change (count Down (Down :: schedule)) with (S (count Down schedule)).
    change (count Up (Down :: schedule)) with (count Up schedule). lia.
Qed.

Lemma no_steps_finished l0 t : tunnel_inv l0 t -> up_steps t = 0%nat -> down_steps t = 0%nat -> finished t = true.
Proof.
  intros H. unfold up_steps, down_steps, finished. destruct (up t); [done|]. intros _.
  destruct (down t) as [|[]]; try done. cbn. by destruct (client_closed t).
Qed.


(** Enough steps of both threads, in any order, end the tunnel. *)
Definition fair (schedule : list thread) l : Prop :=
  (S (length (pending (client l).1)) <= count Up schedule)%nat /\
  (S (S (length (pending (server l).1))) <= count Down schedule)%nat.

Lemma fair_finished (schedule : list thread) l : fair schedule l -> finished (run_tunnel schedule (start l)) = true.
Proof.
  intros [Hu Hd]. destruct (run_tunnel_steps l schedule (start l) (tunnel_inv_start l)) as [H1 H2].
  unfold up_steps at 2 in H1. unfold down_steps at 2 in H2. cbn in H1, H2.
  eapply no_steps_finished; [apply run_tunnel_inv, tunnel_inv_start|lia|lia].
Qed.

Lemma finished_result l t :
  tunnel_inv l t -> finished t = true ->
  match tunnel_result t with
  | Ok _ => copied (req l) (bytes_of (pending (client l).1)) (req (ends t)) /\
            copied (resp l) (bytes_of (pending (server l).1)) (resp (ends t)) /\
            pending (client (ends t)).1 = [] /\ pending (server (ends t)).1 = [] /\
            upstream_write_closed t = true /\ client_write_closed t = true
  | Err e => exists e', e = tunnel_error e' /\ (up t = Ended (Err e') \/ down t = Ended (Err e'))
  | Panic | Fuel => False
  end.
Proof.
  intros H Hf. pose proof H as [Hu Hd Hue Hde Hc Huc Hdc]. unfold tunnel_result. rewrite Hf. cbn [negb].
  unfold finished in Hf. rewrite !andb_true_iff in Hf. destruct Hf as [[Hfu Hfd] Hfc].
  destruct (up t) as [|[n|e| |]]; [done| | |by destruct Hu as (? & ? & _ & [])..];
    (destruct (down t) as [|[m|e'| |]]; [done| | |by destruct Hd as (? & ? & _ & [])..]);
    cbn [map_err res_bind]; [|eauto..].
  destruct Hu as (evs & out & Ht & Hq & Ho & _), Hd as (evs' & out' & Ht' & Hq' & Ho' & _).
  destruct (Hue n eq_refl) as [Hcl|He]; [by specialize (Hc Hcl)|]. specialize (Hde m eq_refl).
  assert (E : bytes_of (pending (client l).1) = out).
  { destruct Ht as [Hp _]. cbn in Hp. by rewrite Hp, He, app_nil_r, Ho. }
  assert (E' : bytes_of (pending (server l).1) = out').
  { destruct Ht' as [Hp _]. cbn in Hp. by rewrite Hp, Hde, app_nil_r, Ho'. }
  rewrite E, E'. split_and!; [by exists evs|by exists evs'|done..].
Qed.

(** What one direction has delivered of [offered] when the tunnel is over. *)
Definition delivered_all (offered : bytes) (before after : bytes) : Prop := after = before ++ offered.
Definition delivered_some (offered : bytes) (before after : bytes) : Prop :=
  exists pre post, after = before ++ pre /\ offered = pre ++ post.

Lemma copy_inv_some {R W : Type} `{!Read R} `{!Write W} (s0 s : R * W) (c : copying) :
  copy_inv s0 c s -> delivered_some (bytes_of (pending s0.1)) (written s0.2) (written s.2).
Proof.
  intros (evs & out & [Hp Hw] & H).
  assert (Hb : exists post, bytes_of evs = out ++ post).
  { destruct c as [n|[n|e| |]]; [destruct H as (_ & -> & _)|destruct H as (_ & -> & _)|done|done|done]; exists []; by rewrite app_nil_r. }
  destruct Hb as [post Hb]. exists out. eexists. split; [exact Hw|]. by rewrite Hp, bytes_of_app, Hb, <- app_assoc.
Qed.

Definition sockets_answer (os : Sockets) : Prop :=
  returns (clear_client_timeouts os) /\ returns (clear_upstream_timeouts os) /\ returns (clone_client_reader os) /\
  returns (clone_client_writer os) /\ returns (clone_upstream_reader os).

Lemma finished_some l t :
  tunnel_inv l t ->
  delivered_some (bytes_of (pending (client l).1)) (written (server l).2) (written (server (ends t)).2) /\
  delivered_some (bytes_of (pending (server l).1)) (written (client l).2) (written (client (ends t)).2).
Proof. intros [Hu Hd _ _ _ _ _]. split; [by apply copy_inv_some in Hu|by apply copy_inv_some in Hd]. Qed.

Lemma delivered_after_write (bs more w w1 w2 : bytes) :
  w1 = w ++ bs -> delivered_some more w1 w2 -> delivered_some (bs ++ more) w w2.
Proof. intros -> (pre & post & -> & ->). exists (bs ++ pre), post. by rewrite !app_assoc. Qed.

Lemma wp_io_answer {S A : Type} (m : res io_error A) (s : S) (Q : A -> S -> Prop) (X : ProxyError -> S -> Prop) :
  returns m -> (forall a, m = Ok a -> Q a s) -> (forall e, X (tunnel_error e) s) ->
  wp (io_lift (map_err tunnel_error m)) s Q X.
Proof. unfold wp, io_lift. destruct m; cbn; auto. Qed.

(** An error before the copies: a prefix of the buffered bytes has been sent. *)
Definition not_opened (buffered : bytes) l (e : ProxyError) l' : Prop :=
  (exists m, e = Tunnel m) /\ resp l' = resp l /\ exists pre post, took (req l) [] pre (req l') /\ buffered = pre ++ post.

Lemma not_opened_sent (buffered : bytes) l e l' :
  took (req l) [] buffered (req l') -> resp l' = resp l -> not_opened buffered l (tunnel_error e) l'.
Proof. intros Ht Hr. split; [by eexists|]. split; [done|]. exists buffered, []. by rewrite app_nil_r. Qed.

Lemma wp_send_buffered (buffered : bytes) l :
  wp (if negb (bool_decide (buffered = [])) then
        let! _ := on_request (io_map_err tunnel_error (do_write buffered)) in
        on_request (io_map_err tunnel_error do_flush)
      else io_ret tt) l
    (fun _ l' => took (req l) [] buffered (req l') /\ resp l' = resp l) (not_opened buffered l).
Proof.
  case_bool_decide as Hbuf; cbn [negb]; [apply wp_ret; rewrite Hbuf; split; [apply took_refl|done]|].
  apply wp_bind, wp_on_request, wp_map_err, wp_do_write.
  - intros s1 Ht1 l1 <- E1. apply wp_on_request, wp_map_err, wp_do_flush.
    + intros s2 Ht2 l2 <- E2. pose proof (took_trans _ _ _ _ _ _ _ Ht1 Ht2) as Ht. rewrite !app_nil_r in Ht.
      split; [exact Ht|congruence].
    + intros e s2 Ht2 l2 <- E2. pose proof (took_trans _ _ _ _ _ _ _ Ht1 Ht2) as Ht. rewrite !app_nil_r in Ht.
      apply not_opened_sent; [exact Ht|congruence].
  - intros e s1 pre post E Ht1 l1 <- E1. split; [by eexists|]. split; [done|]. by exists pre, post.
Qed.

Lemma wp_open_tunnel (os : Sockets) (buffered : bytes) l :
  sockets_answer os ->
  wp (open_tunnel os buffered) l
    (fun _ l' => took (req l) [] buffered (req l') /\ resp l' = resp l) (not_opened buffered l).
Proof.
  intros (Ho1 & Ho2 & Ho3 & Ho4 & Ho5). unfold open_tunnel.
  assert (Hnone : forall e, not_opened buffered l (tunnel_error e) l).
  { intros e. split; [by eexists|]. split; [done|]. exists [], buffered. split; [apply took_refl|done]. }
  apply wp_bind, wp_io_answer; [done| |done]. intros _ _. apply wp_bind, wp_io_answer; [done| |done]. intros _ _.
  apply wp_bind. eapply wp_mono; [apply wp_send_buffered| |done]. intros _ l' [Ht Hr].
  assert (Hsent : forall e, not_opened buffered l (tunnel_error e) l') by (intros e; by apply not_opened_sent).
  apply wp_bind, wp_io_answer; [done| |done]. intros _ _. apply wp_bind, wp_io_answer; [done| |done]. intros _ _.
  by apply wp_io_answer.
Qed.

Lemma tunnel_spec (os : Sockets) (schedule : Link CR CW UR UW -> list thread) (s : Session (UR * UW)) (c : CR * CW)
    (upstream : UR * UW) (buffered : bytes) :
  upgraded_upstream s = Some upstream -> sockets_answer os -> (forall l, fair (schedule l) l) ->
  match tunnel_upgraded os schedule s c buffered with
  | (Ok _, (s', c', Some upstream')) =>
      upgraded_upstream s' = None /\
      delivered_all (buffered ++ bytes_of (pending c.1)) (written upstream.2) (written upstream'.2) /\
      delivered_all (bytes_of (pending upstream.1)) (written c.2) (written c'.2) /\
      pending c'.1 = [] /\ pending upstream'.1 = []
  | (Err e, (s', c', Some upstream')) =>
      upgraded_upstream s' = None /\ (exists m, e = Tunnel m) /\
      delivered_some (buffered ++ bytes_of (pending c.1)) (written upstream.2) (written upstream'.2) /\
      delivered_some (bytes_of (pending upstream.1)) (written c.2) (written c'.2)
  | _ => False
  end.
Proof.
  intros Hup Hos Hfair. unfold tunnel_upgraded. rewrite Hup. cbn zeta.
  pose proof (wp_open_tunnel os buffered (mkLink c upstream) Hos) as Hb.
  unfold wp in Hb. destruct (open_tunnel os buffered (mkLink c upstream)) as [[u|e| |] l]; try done.
  - destruct Hb as [[Hp Hw] Hr]. cbn in Hp, Hw.
    assert (Hsame : pending (server l).1 = pending upstream.1 /\ written (client l).2 = written c.2).
    { injection Hr as H1 H2. by rewrite H1, H2. }
    destruct Hsame as [Hsp Hsw].
    pose proof (fair_finished (schedule l) l (Hfair l)) as Hfin.
    pose proof (run_tunnel_inv l (schedule l) _ (tunnel_inv_start l)) as Hinv.
    destruct (finished_some _ _ Hinv) as [Hsome1 Hsome2].
    pose proof (finished_result _ _ Hinv Hfin) as Hres. destruct (tunnel_result _) as [u'|e| |]; try done.
    + destruct Hres as ((c1 & [_ Hw1] & _) & (c2 & [_ Hw2] & _) & He1 & He2 & _). cbn in Hw1, Hw2.
      split_and!; [done| | |done|done]; unfold delivered_all.
      * by rewrite Hw1, Hw, Hp, <- app_assoc.
      * by rewrite Hw2, Hsp, Hsw.
    + destruct Hres as (e' & -> & _). split_and!; [done|by eexists| |by rewrite <- Hsp, <- Hsw].
      rewrite Hp. eapply delivered_after_write; [exact Hw|done].
  - destruct Hb as (He & Hr & pre & post & [_ Hw] & ->). injection Hr as _ Hr2. cbn in Hw. split_and!; [done|done| |].
    + exists pre. eexists. split; [done|]. by rewrite <- app_assoc.
    + rewrite Hr2. exists [], (bytes_of (pending upstream.1)). by rewrite app_nil_r.
Qed.

(** C20: the tunnel of an upgraded connection ends once each thread has had enough steps, whatever their
    interleaving. When it succeeds, the upstream was sent the bytes already buffered and all the
    client sent after them, and the client all the upstream sent, in order; otherwise each was sent a
    prefix of that. The upstream connection leaves the session either way. *)
Theorem tunnel_correct (os : Sockets) (schedule : Link CR CW UR UW -> list thread) (s : Session (UR * UW)) (c : CR * CW)
    (upstream : UR * UW) (buffered : bytes) :
  upgraded_upstream s = Some upstream -> sockets_answer os -> (forall l, fair (schedule l) l) ->
  match tunnel_upgraded os schedule s c buffered with
  | (Ok _, (s', c', Some upstream')) =>
      upgraded_upstream s' = None /\
      delivered_all (buffered ++ bytes_of (pending c.1)) (written upstream.2) (written upstream'.2) /\
      delivered_all (bytes_of (pending upstream.1)) (written c.2) (written c'.2) /\
      pending c'.1 = [] /\ pending upstream'.1 = []
  | (Err e, (s', c', Some upstream')) =>
      upgraded_upstream s' = None /\ (exists m, e = Tunnel m) /\
      delivered_some (buffered ++ bytes_of (pending c.1)) (written upstream.2) (written upstream'.2) /\
      delivered_some (bytes_of (pending upstream.1)) (written c.2) (written c'.2)
  | _ => False
  end.
Proof. apply tunnel_spec. Qed.

End tunnel_proofs.

Definition sample_sockets : Sockets := mkSockets (Ok tt) (Ok tt) (Ok tt) (Ok tt) (Ok tt).

(** A scheduler that takes turns, for as long as the streams need. *)
Definition sample_schedule (l : Link Script Sink Script Sink) : list thread :=
  concat (repeat [Down; Up] (2 + length (pending (client l).1) + length (pending (server l).1))).

Lemma count_turns (th : thread) (n : nat) : th <> UpShut -> count th (concat (repeat [Down; Up] n)) = n.
Proof.
  intros Hth. induction n as [|n IH]; [by destruct th|].
  destruct th; [change (S (count Up (concat (repeat [Down; Up] n))) = S n)|done|change (S (count Down (concat (repeat [Down; Up] n))) = S n)];
    by rewrite IH.
Qed.

Lemma sample_schedule_fair (l : Link Script Sink Script Sink) : fair (sample_schedule l) l.
Proof. unfold fair, sample_schedule. rewrite !count_turns by done. lia. Qed.

Definition sample_upgraded : Script * Sink :=
  ([Data (str "pon"); Fails (mkIoError ConnectionReset (str "reset"))], new_sink).

Definition sample_tunnel_client : Script * Sink := ([Data (str "ng")], new_sink).

Example tunnel_correct_witness :
  exists e s' c' upstream',
    tunnel_upgraded sample_sockets sample_schedule (mkSession None (Some sample_upgraded) 10) sample_tunnel_client (str "pi")
      = (Err e, (s', c', Some upstream')) /\ upgraded_upstream s' = None /\ delivered_some (str "ping") [] (written upstream'.2) /\ delivered_some (str "pon") [] (written c'.2).
Proof.
  assert (Hc : match tunnel_upgraded sample_sockets sample_schedule (mkSession None (Some sample_upgraded) 10)
                       sample_tunnel_client (str "pi") with
               | (Err _, (_, Some _)) => True
               | _ => False
               end) by (vm_compute; exact I).
  pose proof (tunnel_correct sample_sockets sample_schedule (mkSession None (Some sample_upgraded) 10)
    sample_tunnel_client sample_upgraded (str "pi") eq_refl (conj I (conj I (conj I (conj I I)))) sample_schedule_fair) as H.
  destruct (tunnel_upgraded _ _ _ _ _) as [[u|e| |] [[s' c'] [upstream'|]]]; try exact (False_ind _ Hc).
  destruct H as (Hs & _ & H1 & H2). exists e, s', c', upstream'. split; [reflexivity|].
  split; [exact Hs|]. split; [exact H1|exact H2].
Defined.
