(* ===== verification/Server.v ===== *)
(** * Connections: [src/server.rs]

    What the server does with one client connection: reading request heads, choosing routes,
    exchanging with the upstream until the connection is to be closed, and the answers it makes
    itself. The counters of the server are shared with other connections; they are only added
    to and logged, and a connection is modelled with a copy of its own. Logging is left out. *)
From Stdlib Require Import ZArith Lia.
From stdpp Require Import prelude.
From S2P Require Import Prelude Bytes NetAddr Http Config Io ProxyHead ProxyBody ProxySession Tunnel.
Local Open Scope Z_scope.
Set Warnings "-clear-no-such-hyp".

Definition READ_CHUNK_SIZE : Z := 4096.

(** ** Counters *)
Record ServerCounters : Type := mkCounters {
  requests : Z;
  errors : Z
}.

(** [AtomicUsize::fetch_add] wraps around. *)
Definition fetch_add (n : Z) : Z := (n + 1) mod (usize_max + 1).

Definition record_request (c : ServerCounters) : ServerCounters := mkCounters (fetch_add (requests c)) (errors c).

Definition record_error (c : ServerCounters) : ServerCounters := mkCounters (requests c) (fetch_add (errors c)).

(** ** Request heads *)
Record ReceivedRequest : Type := mkReceived {
  received_request : Request;
  buffered_body : bytes;
  bytes_read : nat
}.

Section reading.
Context {R W : Type} `{!Read R} `{!Write W}.

Definition protocol_error (m : bytes) : io_error := mkIoError InvalidData m.

Fixpoint read_request_head_loop (fuel : nat) (buffer : bytes) : io (R * W) io_error (option ReceivedRequest) :=
  match fuel with
  | O => out_of_fuel
  | S fuel' =>
      let read_more :=
        if MAX_REQUEST_HEAD_SIZE <=? len buffer
        then io_err (protocol_error (str "HTTP request headers exceed maximum size"))
        else
          let remaining_capacity := MAX_REQUEST_HEAD_SIZE - len buffer in
          let read_limit := Z.to_nat (Z.min remaining_capacity READ_CHUNK_SIZE) in
          let! bs := do_read read_limit in
          if bool_decide (bs = []) then
            if bool_decide (buffer = []) then io_ret None
            else io_err (mkIoError UnexpectedEof
                   (str "client disconnected before completing HTTP request headers"))
          else read_request_head_loop fuel' (buffer ++ bs) in
      match parse_request_with_consumed buffer with
      | Ok (request, bytes_consumed) =>
          let! body := io_lift (slice_from buffer bytes_consumed) in
          io_ret (Some (mkReceived request body (length buffer)))
      | Err IncompleteHeaders => read_more
      | Err e => io_err (protocol_error (parse_error_to_string e))
      | Panic => io_lift Panic
      | Fuel => io_lift Fuel
      end
  end.

(** Every round but the last reads something. *)
Definition read_request_head (buffered_prefix : bytes) : io (R * W) io_error (option ReceivedRequest) :=
  fun s => read_request_head_loop (S (stream_fuel s)) buffered_prefix s.

(** ** Answers of the server itself *)
Definition SERVER_NAME : bytes := str "BareProxy/0.1.0".

Definition build_text_response (status : StatusCode) (body : bytes) : res ResponseError bytes :=
  let? response := with_header (new_response status body) (str "Content-Type") (str "text/plain; charset=utf-8") in
  let? response := with_header response (str "Server") SERVER_NAME in
  let? response := with_header response (str "Connection") (str "close") in
  serialize response.

Definition write_text_response (status : StatusCode) (body : bytes) : io (R * W) io_error unit :=
  let! response := io_lift (map_err (fun e => protocol_error (response_error_to_string e))
                              (build_text_response status body)) in
  let! _ := do_write response in
  do_flush.

End reading.

Definition select_route (r : Request) (configuration : Config) : res StatusCode Route :=
  match host r with
  | Ok None => Err BadRequest
  | Ok (Some h) =>
      match route_for_host configuration h with
      | Ok route => Ok route
      | Err InvalidHost => Err BadRequest
      | Err (NotFound _) => Err Http.NotFound
      | Panic => Panic
      | Fuel => Fuel
      end
  | Err e => match e : Empty_set with end
  | Panic => Panic
  | Fuel => Fuel
  end.

Definition is_client_idle_timeout (e : io_error) : bool :=
  match kind e with
  | TimedOut | WouldBlock => true
  | _ => false
  end.

Definition is_client_disconnect (e : io_error) : bool :=
  match kind e with
  | BrokenPipe | ConnectionAborted | ConnectionReset | NotConnected | UnexpectedEof => true
  | _ => false
  end.

(** ** One connection *)
Inductive ConnectionOutcome (U : Type) : Type :=
| Complete
| UpgradedTo (session : Session U) (buffered_client_bytes : bytes).
Arguments Complete {U}.
Arguments UpgradedTo {U}.

Section connection.
Context {CR CW UR UW : Type} `{!Read CR} `{!Write CW} `{!Read UR} `{!Write UW}.

(** What the thread of a connection works on. *)
Record Worker : Type := mkWorker {
  stream : CR * CW;
  proxy_session : Session (UR * UW);
  counters : ServerCounters
}.

Definition on_stream {E A : Type} (m : io (CR * CW) E A) : io Worker E A :=
  fun w => let '(a, c) := m (stream w) in (a, mkWorker c (proxy_session w) (counters w)).

Definition counting {E : Type} (f : ServerCounters -> ServerCounters) : io Worker E unit :=
  fun w => (Ok tt, mkWorker (stream w) (proxy_session w) (f (counters w))).

(** What the resolver and the network answer at the n-th request of the connection. *)
Definition Network : Type := nat -> bytes -> res io_error (list (endpoint (UR * UW))).

Variable configuration : Config.
Variable network : Network.
Variable client_ip : IpAddr.
Variable forwarded_proto : ForwardedProto.

Definition exchange_turn (turn : nat) (route : Route) (r : Request) (buffered_body : bytes)
  : io Worker io_error (ExchangeResult + ProxyError) :=
  fun w =>
    let '(result, (session, client, _)) :=
      exchange_with_proto (network turn) (proxy_session w) route r (stream w) buffered_body client_ip forwarded_proto in
    (match result with
     | Ok result => Ok (inl result)
     | Err e => Ok (inr e)
     | Panic => Panic
     | Fuel => Fuel
     end, mkWorker client session (counters w)).

(** Count an error, answer it, and close. *)
Definition answer_error (status : StatusCode) (body : bytes) : io Worker io_error (ConnectionOutcome (UR * UW)) :=
  let! _ := counting record_error in
  let! _ := on_stream (write_text_response status body) in
  io_ret Complete.

Definition exchange_error (e : ProxyError) : io Worker io_error (ConnectionOutcome (UR * UW)) :=
  match e with
  | InvalidClientBody _ => answer_error BadRequest (str "Bad Request" ++ [LF])
  | ClientRead kind message => io_err (mkIoError kind message)
  | ResponseStarted _ => let! _ := counting record_error in io_ret Complete
  | _ =>
      if is_upstream_timeout e then answer_error GatewayTimeout (str "Gateway Timeout" ++ [LF])
      else answer_error BadGateway (str "Bad Gateway" ++ [LF])
  end.

Fixpoint connection_loop (fuel turn : nat) (buffered : bytes) : io Worker io_error (ConnectionOutcome (UR * UW)) :=
  match fuel with
  | O => fun w => (Fuel, w)
  | S fuel' =>
      let! received := on_stream (read_request_head buffered) in
      match received with
      | None => io_ret Complete
      | Some received =>
          let request := received_request received in
          let! _ := counting record_request in
          match select_route request configuration with
          | Err status => answer_error status (reason_phrase status ++ [LF])
          | Ok route =>
              let! result := exchange_turn turn route request (buffered_body received) in
              match result with
              | inl result =>
                  if upgraded result then
                    fun w => (Ok (UpgradedTo (proxy_session w) (buffered_client_bytes result)), w)
                  else if keep_alive request && client_reusable result
                  then connection_loop fuel' (S turn) (buffered_client_bytes result)
                  else io_ret Complete
              | inr e => exchange_error e
              end
          | Panic => io_lift Panic
          | Fuel => io_lift Fuel
          end
      end
  end.

(** Every request takes some of the bytes to come. *)
Definition handle_connection_io : io ((CR * CW) * ServerCounters) io_error (ConnectionOutcome (UR * UW)) :=
  fun '(client, shared) =>
    let '(outcome, w) :=
      connection_loop (S (stream_fuel client)) 0 []
        (mkWorker client (new_session (upstream_timeout_seconds configuration)) shared) in
    (outcome, (stream w, counters w)).

(** The socket after the connection was handled: [true] when [shutdown(Both)] was called. Its answer is
    ignored. *)
Definition handle_accepted_connection (set_read_timeout : res io_error unit) (os : Sockets)
    (schedule : Link CR CW UR UW -> list thread)
  : io ((CR * CW) * ServerCounters * bool) io_error unit :=
  fun '(client, shared, shut) =>
    match set_read_timeout with
    | Ok _ =>
        match handle_connection_io (client, shared) with
        | (Ok Complete, (client, shared)) => (Ok tt, (client, shared, true))
        | (Ok (UpgradedTo session buffered), (client, shared)) =>
            match tunnel_upgraded os schedule session client buffered with
            | (Ok _, (_, client, _)) => (Ok tt, (client, shared, true))
            | (Err _, (_, client, _)) => (Ok tt, (client, record_error shared, true))
            | (Panic, (_, client, _)) => (Panic, (client, shared, shut))
            | (Fuel, (_, client, _)) => (Fuel, (client, shared, shut))
            end
        | (Err e, (client, shared)) =>
            if is_client_idle_timeout e then (Ok tt, (client, shared, true))
            else if decide (kind e = InvalidData) then
              let '(result, client) := write_text_response BadRequest (str "Bad Request" ++ [LF]) client in
              (result, (client, record_error shared, true))
            else if is_client_disconnect e then (Ok tt, (client, shared, true))
            else (Err e, (client, shared, shut))
        | (Panic, (client, shared)) => (Panic, (client, shared, shut))
        | (Fuel, (client, shared)) => (Fuel, (client, shared, shut))
        end
    | Err e => (Err e, (client, shared, shut))
    | Panic => (Panic, (client, shared, shut))
    | Fuel => (Fuel, (client, shared, shut))
    end.

(** The same over a TLS stream, which its caller closes. *)
Definition handle_https_connection : io ((CR * CW) * ServerCounters) io_error unit :=
  fun '(client, shared) =>
    match handle_connection_io (client, shared) with
    | (Ok Complete, s) => (Ok tt, s)
    | (Ok (UpgradedTo _ _), (client, shared)) =>
        (Err (mkIoError Unsupported (str "TLS upgrade tunnelling is not implemented yet")), (client, record_error shared))
    | (Err e, (client, shared)) =>
        if decide (kind e = InvalidData) then
          let '(result, client) := write_text_response BadRequest (str "Bad Request" ++ [LF]) client in
          (result, (client, record_error shared))
        else if is_client_disconnect e then (Ok tt, (client, shared))
        else (Err e, (client, shared))
    | (Panic, s) => (Panic, s)
    | (Fuel, s) => (Fuel, s)
    end.

End connection.
Arguments Worker : clear implicits.
Arguments Network : clear implicits.

(** ** Reading a request *)

(** [heard buf s r rest s']: of the bytes [buf] and what [s] delivers, the head of [r] was read, and
    [rest] after it. *)
Definition heard {R W : Type} `{!Read R} `{!Write W} (buf : bytes) (s : R * W) (r : Request) (rest : bytes) (s' : R * W) : Prop :=
  exists head, request_head r head /\ consumed buf s head [] rest s'.

(** No request head is at the front of [buf]. *)
Definition no_head (buf : bytes) : Prop := forall r head rest, request_head r head -> buf <> head ++ rest.

(** [unreadable buf s e s']: after [buf] no request head came, and [e] says why: the stream failed, it
    ended in the middle of a head, or what came is too long for a head or is not one. *)
Definition unreadable {R W : Type} `{!Read R} `{!Write W} (buf : bytes) (s : R * W) (e : io_error) (s' : R * W) : Prop :=
  exists bs, no_head (buf ++ bs) /\
    (took s (data bs ++ [inr e]) [] s' \/
     took s (data bs) [] s' /\ pending s'.1 = [] /\ buf ++ bs <> [] /\ kind e = UnexpectedEof \/
     took s (data bs) [] s' /\ kind e = InvalidData /\
       (MAX_REQUEST_HEAD_SIZE <= len (buf ++ bs) \/
        exists why, parse_request_with_consumed (buf ++ bs) = Err why /\ why <> IncompleteHeaders)).

Lemma parse_error_no_head (buf : bytes) (e : ParseError) : parse_request_with_consumed buf = Err e -> no_head buf.
Proof. intros H r head rest Hh ->. by rewrite (parse_request_complete _ rest _ Hh) in H. Qed.

Lemma request_head_nonempty (r : Request) (head : bytes) : request_head r head -> head <> [].
Proof. intros [(lines & -> & _) _ _ _ _ _ _ _ _ _] H. unfold head_bytes in H. by apply (f_equal length) in H; rewrite !length_app in H; simpl in H; lia. Qed.

Section reading_proofs.
Context {R W : Type} `{!Read R} `{!Write W}.
Implicit Types (s : R * W).

Lemma wp_read_request_head_loop (fuel : nat) (buf bs : bytes) s0 s :
  (S (stream_fuel s) <= fuel)%nat -> took s0 (data bs) [] s ->
  wp (read_request_head_loop fuel (buf ++ bs)) s
    (fun o s' => match o with
                 | None => buf = [] /\ pending s0.1 = [] /\ took s0 [] [] s'
                 | Some received => heard buf s0 (received_request received) (buffered_body received) s'
                 end)
    (fun e s' => unreadable buf s0 e s').
Proof.
  revert bs s. induction fuel as [|fuel IH]; intros bs s Hf Ht; [lia|]. cbn [read_request_head_loop].
  pose proof (parse_request_total (buf ++ bs)) as Htot.
  destruct (parse_request_with_consumed (buf ++ bs)) as [[r n]|e| |] eqn:Ep; try done.
  { apply parse_request_sound in Ep as (head & rest & E & Hn & Hh). rewrite E, slice_from_Ok by (rewrite length_app; lia).
    apply wp_bind, wp_ret, wp_ret. cbn [received_request buffered_body]. rewrite <- Hn, drop_app_length.
    exists head. split; [done|]. by eapply consumed_head. }
  pose proof (parse_error_no_head _ _ Ep) as Hno.
  assert (Hbad : e <> IncompleteHeaders -> unreadable buf s0 (protocol_error (parse_error_to_string e)) s).
  { intros He. exists bs. split; [done|]. right; right. split_and!; [done|done|right; eauto]. }
  destruct e; try by apply wp_err, Hbad.
  case_match eqn:Hmax.
  { apply Z.leb_le in Hmax. apply wp_err. exists bs. split; [done|]. right; right. split_and!; [done|done|by left]. }
  apply Z.leb_gt in Hmax.
  apply wp_bind, wp_do_read; [unfold READ_CHUNK_SIZE; lia| |].
  - intros bs' s1 Hl Ht1 Heof. pose proof (took_trans _ _ _ _ _ _ _ Ht Ht1) as Ht2. rewrite <- data_app in Ht2.
    case_bool_decide as Hb.
    + subst bs'. specialize (Heof eq_refl). rewrite app_nil_r in Ht2.
      assert (Hend : pending s1.1 = []) by (destruct Ht1 as [Hp _]; by rewrite Heof in Hp).
      case_bool_decide as Hb.
      * apply app_eq_nil in Hb as [-> ->]. apply wp_ret. destruct Ht as [Hp _]. split_and!; [done|by rewrite Hp, Heof|done].
      * apply wp_err. exists bs. split; [done|]. right; left. by split_and!.
    + rewrite <- app_assoc. apply IH; [|done]. apply took_fuel in Ht1. rewrite length_data in Ht1.
      assert (length bs' <> 0)%nat by (by destruct bs'). lia.
  - intros e s1 Ht1. exists bs. split; [done|]. left. by apply (took_trans _ _ _ _ _ _ _ Ht Ht1).
Qed.

Lemma wp_read_request_head (buf : bytes) s :
  wp (read_request_head buf) s
    (fun o s' => match o with
                 | None => buf = [] /\ pending s.1 = [] /\ took s [] [] s'
                 | Some received => heard buf s (received_request received) (buffered_body received) s'
                 end)
    (fun e s' => unreadable buf s e s').
Proof.
  pose proof (wp_read_request_head_loop (S (stream_fuel s)) buf [] s s) as H. rewrite app_nil_r in H.
  apply H; [done|apply took_refl].
Qed.

(** ** The server's own answers *)
Definition text_headers : list Header :=
  [mkHeader (str "Content-Type") (str "text/plain; charset=utf-8"); mkHeader (str "Server") SERVER_NAME;
   mkHeader (str "Connection") (str "close")].

Lemma build_text_response_serialize (status : StatusCode) (body : bytes) :
  build_text_response status body =
  serialize {| response_status := status; response_headers := text_headers; response_body := body |}.
Proof. reflexivity. Qed.

Lemma build_text_response_Ok (status : StatusCode) (body : bytes) : exists out, build_text_response status body = Ok out.
Proof. rewrite build_text_response_serialize. unfold serialize. cbn. eauto. Qed.

Lemma wp_write_text_response (status : StatusCode) (body : bytes) s :
  exists out, build_text_response status body = Ok out /\
  wp (write_text_response status body) s (fun _ s' => took s [] out s')
    (fun e s' => exists pre post, out = pre ++ post /\ took s [] pre s').
Proof.
  destruct (build_text_response_Ok status body) as [out E]. exists out. split; [done|].
  unfold write_text_response. rewrite E. apply wp_bind, wp_ret, wp_bind, wp_do_write; [|by eauto].
  assert (Hflush : forall s1 s2, took s [] out s1 -> took s1 [] [] s2 -> took s [] out s2).
  { intros s1 s2 H1 H2. rewrite <- (app_nil_r out). apply (took_trans _ _ _ _ _ _ _ H1 H2). }
  intros s1 Ht1. apply wp_do_flush; intros; [by eapply Hflush|]. exists out, []. rewrite app_nil_r. split; [done|by eapply Hflush].
Qed.

End reading_proofs.

#[local] Opaque build_text_response.

(** ** The conversation with a client *)
Section conversations.
Context {CR CW UR UW : Type} `{!Read CR} `{!Write CW} `{!Read UR} `{!Write UW}.
Variable configuration : Config.
Variable network : Network UR UW.
Variable client_ip : IpAddr.
Variable forwarded_proto : ForwardedProto.
Implicit Types (c : CR * CW) (w : Worker CR CW UR UW) (session : Session (UR * UW)).

(** The host asked for is the only [Host] field, an authority. *)
Definition request_host (r : Request) (h : bytes) : Prop :=
  authority h /\ exists field, named_headers (str "host") (headers r) = [field] /\ value field = h.

(** The answer [o] to the choice of a route: the first of the configuration for the normal form of the
    host; [400] without a host, or one without a normal form; [404] for a host without a route. *)
Definition routed_to (r : Request) (o : res StatusCode Route) : Prop :=
  match o with
  | Ok route => exists h before after, request_host r h /\ normalized_request h = Some (hostname route) /\
      routes configuration = before ++ route :: after /\ hostname route ∉ map hostname before
  | Err BadRequest => forall h, request_host r h -> normalized_request h = None
  | Err Http.NotFound => exists h name, request_host r h /\ normalized_request h = Some name /\
      name ∉ map hostname (routes configuration)
  | _ => False
  end.

(** The exchange of [r], whose body starts with [rest], with the upstream of its route. *)
Definition exchange_done (r : Request) (rest : bytes) c (result : ExchangeResult) c' : Prop :=
  exists conn conn' requested head d,
    request_upgrade_protocols r = Ok requested /\ serialize_request_head r client_ip forwarded_proto = Ok head /\
    @exchanged _ _ UR UW _ _ _ _ r requested rest head (mkLink c conn) (result, d) (mkLink c' conn').

(** That exchange, the [turn]-th of the connection, came out as [x]. *)
Definition exchanging (turn : nat) session (route : Route) (r : Request) (rest : bytes) c
    (x : res ProxyError ExchangeResult) session' c' : Prop :=
  exists conn, exchange_with_proto (network turn) session route r c rest client_ip forwarded_proto = (x, (session', c', conn)).

(** How an exchange error is answered, unless the connection is just closed. *)
Definition error_answer (e : ProxyError) : option (StatusCode * bytes) :=
  match e with
  | InvalidClientBody _ => Some (BadRequest, str "Bad Request" ++ [LF])
  | ClientRead _ _ | ResponseStarted _ => None
  | Connect _ (TimedOut | WouldBlock) _ | WriteError (TimedOut | WouldBlock) _ | ReadError (TimedOut | WouldBlock) _ =>
      Some (GatewayTimeout, str "Gateway Timeout" ++ [LF])
  | _ => Some (BadGateway, str "Bad Gateway" ++ [LF])
  end.

(** A response that broke off: whole interim responses, and a prefix of a sanitised head with the bytes
    that followed it. *)
Definition broken_answer (out : bytes) : Prop :=
  exists wi wo pre, interims wi wo /\ out = wo ++ pre /\
    (pre = [] \/ exists head sanitised cn pt pu rest post,
       sanitize_response_head head cn pt pu = Ok sanitised /\ sanitised ++ rest = pre ++ post).

(** The server sends the text answer with [status] and [body] and flushes it, which comes out as [o]; what
    arrived is [sent], all of it unless writing failed. *)
Definition answering (status : StatusCode) (body : bytes) c (o : res io_error unit) (sent : bytes) c' : Prop :=
  exists out unsent,
    serialize {| response_status := status; response_headers := text_headers; response_body := body |} = Ok out /\
    (let! _ := do_write out in do_flush) c = (o, c') /\ took c [] sent c' /\ out = sent ++ unsent /\
    match o with Ok _ => unsent = [] | _ => True end.

(** The connection is closed after an answer, or with the error of writing it. *)
Definition closed_by (o : res io_error unit) : res io_error (ConnectionOutcome (UR * UW)) :=
  match o with
  | Ok _ => Ok Complete
  | Err e => Err e
  | Panic => Panic
  | Fuel => Fuel
  end.

(** [conversation turn session buf c rs answers tail errs result c']: from the [turn]-th request on, with
    [buf] already read, the client in [c] sent the requests [rs]; [answers] are the whole responses it was
    sent for the first of them, in order, [tail] is all it was sent after those, and [errs] errors were
    counted. *)
Inductive conversation : nat -> Session (UR * UW) -> bytes -> CR * CW -> list Request -> list bytes -> bytes -> nat ->
    res io_error (ConnectionOutcome (UR * UW)) -> CR * CW -> Prop :=
| talk_closed turn session c c' :
    pending c.1 = [] -> took c [] [] c' -> conversation turn session [] c [] [] [] 0 (Ok Complete) c'
| talk_unread turn session buf c e c' :
    unreadable buf c e c' -> conversation turn session buf c [] [] [] 0 (Err e) c'
| talk_next turn session buf c r rest c1 route result session' c2 o out rs answers tail errs res c' :
    heard buf c r rest c1 -> routed_to r (Ok route) ->
    exchanging turn session route r rest c1 (Ok result) session' c2 -> exchange_done r rest c1 result c2 ->
    upgraded result = false -> keep_alive r = true -> client_reusable result = true ->
    whole_answer r o out -> written c2.2 = written c.2 ++ out ->
    conversation (S turn) session' (buffered_client_bytes result) c2 rs answers tail errs res c' ->
    conversation turn session buf c (r :: rs) (out :: answers) tail errs res c'
| talk_last turn session buf c r rest c1 route result session' c2 o out :
    heard buf c r rest c1 -> routed_to r (Ok route) ->
    exchanging turn session route r rest c1 (Ok result) session' c2 -> exchange_done r rest c1 result c2 ->
    upgraded result = false -> keep_alive r && client_reusable result = false ->
    whole_answer r o out -> written c2.2 = written c.2 ++ out ->
    conversation turn session buf c [r] [out] [] 0 (Ok Complete) c2
| talk_upgraded turn session buf c r rest c1 route result session' c2 out :
    heard buf c r rest c1 -> routed_to r (Ok route) ->
    exchanging turn session route r rest c1 (Ok result) session' c2 -> exchange_done r rest c1 result c2 ->
    upgraded result = true -> is_Some (upgraded_upstream session') ->
    whole_answer r Upgraded out -> written c2.2 = written c.2 ++ out ->
    conversation turn session buf c [r] [out] [] 0 (Ok (UpgradedTo session' (buffered_client_bytes result))) c2
| talk_unrouted turn session buf c r rest c1 status o out c' :
    heard buf c r rest c1 -> routed_to r (Err status) ->
    answering status (reason_phrase status ++ [LF]) c1 o out c' -> written c'.2 = written c.2 ++ out ->
    conversation turn session buf c [r] [] out 1 (closed_by o) c'
| talk_refused turn session buf c r rest c1 route e session' c2 status body wi wo o out c' :
    heard buf c r rest c1 -> routed_to r (Ok route) ->
    exchanging turn session route r rest c1 (Err e) session' c2 ->
    error_answer e = Some (status, body) -> interims wi wo -> written c2.2 = written c.2 ++ wo ->
    answering status body c2 o out c' -> written c'.2 = written c.2 ++ wo ++ out ->
    conversation turn session buf c [r] [] (wo ++ out) 1 (closed_by o) c'
| talk_broken turn session buf c r rest c1 route message session' tail c' :
    heard buf c r rest c1 -> routed_to r (Ok route) ->
    exchanging turn session route r rest c1 (Err (ResponseStarted message)) session' c' ->
    broken_answer tail -> written c'.2 = written c.2 ++ tail ->
    conversation turn session buf c [r] [] tail 1 (Ok Complete) c'
| talk_client_lost turn session buf c r rest c1 route kind message session' wi wo c' :
    heard buf c r rest c1 -> routed_to r (Ok route) ->
    exchanging turn session route r rest c1 (Err (ClientRead kind message)) session' c' ->
    interims wi wo -> written c'.2 = written c.2 ++ wo ->
    conversation turn session buf c [r] [] wo 0 (Err (mkIoError kind message)) c'.

Lemma heard_written buf c r rest c1 : heard buf c r rest c1 -> written c1.2 = written c.2.
Proof. intros (head & _ & _ & _ & _ & _ & Hw). by rewrite app_nil_r in Hw. Qed.

Lemma conversation_written turn session buf c rs answers tail errs res c' :
  conversation turn session buf c rs answers tail errs res c' -> written c'.2 = written c.2 ++ concat answers ++ tail.
Proof.
  induction 1 as [turn session c c' _ [_ Hw]|turn session buf c e c' (bs & _ & Hu)| | | | | | |];
    cbn [concat app]; rewrite ?app_nil_r; try done.
  - by rewrite app_nil_r in Hw.
  - assert (Hw : exists evs, took c evs [] c') by (destruct Hu as [Ht|[[Ht _]|[Ht _]]]; eauto).
    destruct Hw as (evs & _ & Hw). by rewrite app_nil_r in Hw.
  - match goal with IH : written ?c'.2 = _, H : written _ = written ?c.2 ++ _ |- written ?c'.2 = _ => rewrite IH, H, <- !app_assoc end. done.
Qed.

Lemma conversation_shape turn session buf c rs answers tail errs res c' :
  conversation turn session buf c rs answers tail errs res c' ->
  exists served open, rs = served ++ open /\ Forall2 (fun r out => exists o, whole_answer r o out) served answers /\
    (length open <= 1)%nat /\ (open = [] -> tail = []).
Proof.
  induction 1 as [| |turn session buf c r| | | | | | ].
  1-2: exists [], []; by split_and!; [done|constructor|simpl; lia|done].
  { destruct IHconversation as (served & open & -> & Hf & Ho). exists (r :: served), open.
    split_and!; [done|constructor; [by eexists|done]|apply Ho..]. }
  1-2: exists [r], []; split_and!; [done|constructor; [by eexists|constructor]|simpl; lia|done].
  all: exists [], [r]; split_and!; [done|constructor|simpl; lia|done].
Qed.

(** ** The loop *)

(** The resolver and the sockets answer. *)
Definition network_answers : Prop :=
  forall turn address, returns (network turn address) /\ forall eps, network turn address = Ok eps -> Forall answers eps.

Lemma wp_on_stream {E A : Type} (m : io (CR * CW) E A) w (Q : A -> Worker CR CW UR UW -> Prop) X :
  wp m (stream w) (fun a c => Q a (mkWorker c (proxy_session w) (counters w)))
    (fun e c => X e (mkWorker c (proxy_session w) (counters w))) ->
  wp (on_stream m) w Q X.
Proof. unfold wp, on_stream. by destruct (m (stream w)) as [[]]. Qed.

Lemma find_split (rs : list Route) (h : bytes) (route : Route) :
  List.find (fun r => bytes_eqb (hostname r) h) rs = Some route ->
  hostname route = h /\ exists before after, rs = before ++ route :: after /\ h ∉ map hostname before.
Proof.
  induction rs as [|r rs IH]; cbn [List.find]; [done|]. destruct (bytes_eqb (hostname r) h) eqn:E.
  - intros [= ->]. apply bytes_eqb_eq in E. split; [done|]. exists [], rs. split; [done|apply not_elem_of_nil].
  - intros (Hh & before & after & -> & Hn)%IH. split; [done|]. exists (r :: before), after. split; [done|].
    apply not_elem_of_cons. split; [|done]. intros ->. by rewrite bytes_eqb_refl in E.
Qed.

Lemma select_route_spec (r : Request) : routed_to r (select_route r configuration).
Proof.
  unfold select_route. destruct (host_iff r) as ([h|] & -> & Hh).
  2: { intros h Hr. by discriminate (proj2 (Hh h) Hr). }
  pose proof (proj1 (Hh h) eq_refl) as Hr. rewrite lookup_cases. destruct (normalized_request h) as [name|] eqn:En.
  2: { intros h' Hr'. pose proof (proj2 (Hh h') Hr') as [= ->]. done. }
  destruct (List.find _ _) as [route|] eqn:Ef; cbn.
  - apply find_split in Ef as (<- & before & after & E & Hn). by exists h, before, after.
  - exists h, name. split_and!; [done..|]. by apply find_hostname_None.
Qed.

(** What a failed exchange has sent the client. *)
Definition client_failed c (e : ProxyError) c' : Prop :=
  exists wi wo, interims wi wo /\
    (written c'.2 = written c.2 ++ wo \/ is_started e /\ exists out, broken_answer out /\ written c'.2 = written c.2 ++ out).

Lemma failed_client (us us' : UR) c e c' : failed [] (us, c.2) e (us', c'.2) -> client_failed c e c'.
Proof.
  intros (wi & wo & Hi & H). exists wi, wo. split; [done|].
  destruct H as [[Hw _]|(He & head & out & cn & pt & pu & rest & pre & post & Hs & _ & Hp & Hw)]; [by left|right].
  split; [done|]. exists (wo ++ pre). split; [|exact Hw]. exists wi, wo, pre. split_and!; [done|done|right].
  by exists head, out, cn, pt, pu, rest, post.
Qed.

Lemma wp_exchange_turn (turn : nat) (route : Route) (r : Request) (rest : bytes) w :
  network_answers -> match content_length r with Some n => 0 <= n | None => True end ->
  wp (exchange_turn network client_ip forwarded_proto turn route r rest) w
    (fun x w' => counters w' = counters w /\
       match x with
       | inl result =>
           exchanging turn (proxy_session w) route r rest (stream w) (Ok result) (proxy_session w') (stream w') /\
           exchange_done r rest (stream w) result (stream w') /\
           (upgraded result = true -> is_Some (upgraded_upstream (proxy_session w')))
       | inr e =>
           exchanging turn (proxy_session w) route r rest (stream w) (Err e) (proxy_session w') (stream w') /\
           client_failed (stream w) e (stream w')
       end)
    (fun _ _ => False).
Proof.
  intros Hnet Hn. unfold wp, exchange_turn.
  pose proof (exchange_spec (network turn) (proxy_session w) route r (stream w) rest client_ip forwarded_proto Hn
    (take_upstream_returns _ _ _ _ _ (proj1 (Hnet turn _)) (proj2 (Hnet turn _)))) as H.
  destruct (exchange_with_proto _ _ _ _ _ _ _ _) as [[result|e| |] [[s' c'] [conn'|]]] eqn:Ex; try done; (split; [done|]); cbn;
    (split; [by eexists|]).
  - destruct H as (conn & requested & head & _ & Hreq & Hh & (d & Hex) & _ & Hup).
    split; [by exists conn, conn', requested, head, d|]. intros Hu. rewrite Hup, Hu. by eexists.
  - destruct H as ((conn & _ & Hf) & _). by eapply failed_client.
  - destruct H as [-> _]. exists [], []. split; [constructor|left; by rewrite app_nil_r].
Qed.

Lemma wp_answer_error (status : StatusCode) (body : bytes) w :
  let said o w' := exists sent, answering status body (stream w) o sent (stream w') /\ counters w' = record_error (counters w) in
  wp (answer_error status body) w (fun out w' => out = Complete /\ said (Ok tt) w') (fun e w' => said (Err e) w').
Proof.
  intros said. destruct (wp_write_text_response status body (stream w)) as (out & E & Hw).
  unfold answer_error. apply wp_bind. unfold wp at 1, counting. apply wp_bind, wp_on_stream. cbn [stream].
  unfold wp in *. unfold write_text_response in *. rewrite E in *. cbn [io_bind io_lift map_err] in *.
  rewrite build_text_response_serialize in E.
  destruct ((let! _ := do_write out in do_flush) (stream w)) as [[[]|e| |] c'] eqn:Ed; try done.
  - split; [done|]. exists out. split; [|done]. exists out, []. by rewrite app_nil_r.
  - destruct Hw as (pre & post & -> & Ht). exists pre. split; [|done]. by exists (pre ++ post), post.
Qed.

(** What the loop does from [w] with [buf] already read. *)
Definition talked (turn : nat) (buf : bytes) w (res : res io_error (ConnectionOutcome (UR * UW))) w' : Prop :=
  exists rs answers tail errs, conversation turn (proxy_session w) buf (stream w) rs answers tail errs res (stream w') /\
    requests (counters w') = Nat.iter (length rs) fetch_add (requests (counters w)) /\
    errors (counters w') = Nat.iter errs fetch_add (errors (counters w)).

(** The request that [w] has heard since [w0] is counted. *)
Definition one_more w0 w : Prop :=
  requests (counters w) = fetch_add (requests (counters w0)) /\ errors (counters w) = errors (counters w0).

Lemma answering_written status body c o sent c' : answering status body c o sent c' -> written c'.2 = written c.2 ++ sent.
Proof. by intros (? & ? & _ & _ & [_ Hw] & _). Qed.

(** The error of an exchange is answered. *)
Lemma talked_refused (turn : nat) (buf : bytes) w0 r rest c1 route e status body wi wo w :
  heard buf (stream w0) r rest c1 -> routed_to r (Ok route) ->
  exchanging turn (proxy_session w0) route r rest c1 (Err e) (proxy_session w) (stream w) ->
  error_answer e = Some (status, body) -> interims wi wo -> written (stream w).2 = written (stream w0).2 ++ wo ->
  one_more w0 w ->
  wp (answer_error status body) w (fun o w' => talked turn buf w0 (Ok o) w') (fun e w' => talked turn buf w0 (Err e) w').
Proof.
  intros Hh Hr Hex He Hi Hw [Hc Hn].
  assert (Hsay : forall o sent w', answering status body (stream w) o sent (stream w') ->
    counters w' = record_error (counters w) -> talked turn buf w0 (closed_by o) w').
  { intros o sent w' Ha Hc'. exists [r], [], (wo ++ sent), 1%nat. split; [|by rewrite Hc'; cbn; rewrite Hc, Hn].
    eapply talk_refused; [done..|]. by rewrite (answering_written _ _ _ _ _ _ Ha), Hw, app_assoc. }
  eapply wp_mono; [exact (wp_answer_error status body w)| |].
  - intros o w' (-> & sent & Ha & Hc'). exact (Hsay (Ok tt) sent w' Ha Hc').
  - intros e' w' (sent & Ha & Hc'). exact (Hsay (Err e') sent w' Ha Hc').
Qed.

(** And so is the choice of a route. *)
Lemma talked_unrouted (turn : nat) (buf : bytes) w0 r rest status w :
  heard buf (stream w0) r rest (stream w) -> routed_to r (Err status) -> one_more w0 w ->
  wp (answer_error status (reason_phrase status ++ [LF])) w
    (fun o w' => talked turn buf w0 (Ok o) w') (fun e w' => talked turn buf w0 (Err e) w').
Proof.
  intros Hh Hr [Hc Hn].
  assert (Hsay : forall o sent w', answering status (reason_phrase status ++ [LF]) (stream w) o sent (stream w') ->
    counters w' = record_error (counters w) -> talked turn buf w0 (closed_by o) w').
  { intros o sent w' Ha Hc'. exists [r], [], sent, 1%nat. split; [|by rewrite Hc'; cbn; rewrite Hc, Hn].
    eapply talk_unrouted; [done..|]. by rewrite (answering_written _ _ _ _ _ _ Ha), (heard_written _ _ _ _ _ Hh). }
  eapply wp_mono; [exact (wp_answer_error _ _ w)| |].
  - intros o w' (-> & sent & Ha & Hc'). exact (Hsay (Ok tt) sent w' Ha Hc').
  - intros e' w' (sent & Ha & Hc'). exact (Hsay (Err e') sent w' Ha Hc').
Qed.

Lemma exchange_error_answer (e : ProxyError) :
  match error_answer e with
  | Some (status, body) => ~ is_started e /\ forall w : Worker CR CW UR UW, exchange_error e w = answer_error status body w
  | None => (exists m, e = ResponseStarted m) \/ exists k m, e = ClientRead k m
  end.
Proof.
  destruct e as [|a k m|k m|k m|k m|m| | |m|m|m]; try (split; [by intros []|reflexivity]).
  4: by right; exists k, m.
  4: by left; exists m.
  all: destruct k; (split; [by intros []|reflexivity]).
Qed.

Lemma wp_exchange_error (turn : nat) (buf : bytes) w0 r rest c1 route e w :
  heard buf (stream w0) r rest c1 -> routed_to r (Ok route) ->
  exchanging turn (proxy_session w0) route r rest c1 (Err e) (proxy_session w) (stream w) ->
  client_failed c1 e (stream w) -> one_more w0 w ->
  wp (exchange_error e) w (fun o w' => talked turn buf w0 (Ok o) w') (fun e w' => talked turn buf w0 (Err e) w').
Proof.
  intros Hh Hr Hex (wi & wo & Hi & Hf) Hc. pose proof (heard_written _ _ _ _ _ Hh) as Hw1.
  pose proof (exchange_error_answer e) as He. destruct (error_answer e) as [[status body]|] eqn:Ea.
  - destruct He as [Hns Heq]. destruct Hf as [Hw|[Hs _]]; [|done]. rewrite Hw1 in Hw.
    unfold wp. rewrite Heq. by eapply talked_refused.
  - destruct Hc as [Hc Hn]. destruct He as [[m ->]|(k & m & ->)].
    + cbn [exchange_error]. apply wp_bind. unfold wp at 1, counting. apply wp_ret.
      assert (Hb : exists out, broken_answer out /\ written (stream w).2 = written (stream w0).2 ++ out).
      { rewrite <- Hw1. destruct Hf as [Hw|(_ & out & Hb & Hw)]; [|by exists out]. exists wo. split; [|done].
        exists wi, wo, []. split_and!; [done|by rewrite app_nil_r|by left]. }
      destruct Hb as (out & Hb & Hw). exists [r], [], out, 1%nat. split; [by eapply talk_broken|cbn; by rewrite Hc, Hn].
    + destruct Hf as [Hw|[Hs _]]; [|done]. rewrite Hw1 in Hw. apply wp_err. exists [r], [], wo, 0%nat.
      split; [by eapply talk_client_lost|by rewrite Hc, Hn].
Qed.

Lemma request_head_content_length (r : Request) (head : bytes) :
  request_head r head -> match content_length r with Some n => 0 <= n | None => True end.
Proof.
  intros H%request_head_framing. destruct (content_length r) as [n|]; [|done]. apply content_length_spec_range in H. lia.
Qed.

(** A request that was served, and what the connection does then. *)
Lemma talked_served (turn : nat) (buf : bytes) w0 r rest c1 route result w (more : io _ _ (ConnectionOutcome (UR * UW))) :
  heard buf (stream w0) r rest c1 -> routed_to r (Ok route) ->
  exchanging turn (proxy_session w0) route r rest c1 (Ok result) (proxy_session w) (stream w) ->
  exchange_done r rest c1 result (stream w) ->
  (upgraded result = true -> is_Some (upgraded_upstream (proxy_session w))) -> one_more w0 w ->
  (keep_alive r = true -> client_reusable result = true ->
     wp more w (fun o w' => talked (S turn) (buffered_client_bytes result) w (Ok o) w')
       (fun e w' => talked (S turn) (buffered_client_bytes result) w (Err e) w')) ->
  wp (if upgraded result then fun w => (Ok (UpgradedTo (proxy_session w) (buffered_client_bytes result)), w)
      else if keep_alive r && client_reusable result then more else io_ret Complete) w
    (fun o w' => talked turn buf w0 (Ok o) w') (fun e w' => talked turn buf w0 (Err e) w').
Proof.
  intros Hh Hr Hex Hdone Hup [Hc Hn] Hmore. pose proof Hdone as (conn & conn' & requested & uphead & d & Hreq & _ & Hx).
  destruct (exchanged_answer _ _ _ _ _ _ _ _ Hreq Hx) as (o & out & Hout & Hw2 & Ho). cbn [client] in Hw2.
  rewrite (heard_written _ _ _ _ _ Hh) in Hw2. destruct (upgraded result) eqn:Eu.
  { exists [r], [out], [], 0%nat. split; [|by rewrite Hc, Hn]. apply proj2 in Ho. rewrite (Ho eq_refl) in Hout.
    eapply talk_upgraded; eauto. }
  destruct (keep_alive r && client_reusable result) eqn:Ek.
  2: { apply wp_ret. exists [r], [out], [], 0%nat. split; [by eapply talk_last|by rewrite Hc, Hn]. }
  apply andb_true_iff in Ek as [Ekr Ekc].
  eapply wp_mono; [by apply Hmore| |]; intros x w' (rs & answers & tail & errs & Hconv & Hq & He);
    exists (r :: rs), (out :: answers), tail, errs; (split; [by eapply talk_next|]); rewrite Hq, He, Hc, Hn; cbn [length];
    by rewrite <- Nat.iter_succ_r.
Qed.

Lemma wp_connection_loop (fuel turn : nat) (buf : bytes) w :
  network_answers -> (response_fuel buf (stream w) <= fuel)%nat ->
  wp (connection_loop configuration network client_ip forwarded_proto fuel turn buf) w
    (fun o w' => talked turn buf w (Ok o) w') (fun e w' => talked turn buf w (Err e) w').
Proof.
  intros Hnet. revert turn buf w. induction fuel as [|fuel IH]; intros turn buf w Hf; [unfold response_fuel, stream_fuel in Hf; lia|].
  cbn [connection_loop]. apply wp_bind, wp_on_stream. eapply wp_mono; [apply wp_read_request_head| |].
  2: { intros e c1 Hu. exists [], [], [], 0%nat. split; [by eapply talk_unread|done]. }
  intros [[r rest n]|] c1; cbn [received_request buffered_body].
  2: { intros (-> & Hp & Ht). apply wp_ret. exists [], [], [], 0%nat. split; [by apply talk_closed|done]. }
  intros Hh. pose proof Hh as (head & Hhead & Hc). apply wp_bind. unfold wp at 1, counting. cbn [stream proxy_session counters].
  set (w1 := mkWorker c1 (proxy_session w) (record_request (counters w))).
  assert (Hone : one_more w w1) by done.
  pose proof (select_route_spec r) as Hsel. destruct (select_route r configuration) as [route|status| |]; try done.
  2: { by eapply talked_unrouted. }
  apply wp_bind. eapply wp_mono; [by apply wp_exchange_turn; [done|eapply request_head_content_length]| |done].
  intros [result|e] w2 [Hcnt Hx]; [destruct Hx as (Hex & Hdone & Hup)|destruct Hx as [Hex Hx]].
  2: { eapply wp_exchange_error; [done..|]. unfold one_more. by rewrite Hcnt. }
  eapply talked_served; [done..|unfold one_more; by rewrite Hcnt|]. intros _ Ekc. apply IH.
  destruct Hdone as (conn & conn' & requested & uphead & d & _ & _ & Hx).
  pose proof (exchanged_fuel _ _ _ _ _ _ _ _ Hx Ekc) as H1. cbn [client] in H1. apply consumed_fuel in Hc.
  apply request_head_nonempty in Hhead. assert (length head <> 0)%nat by (by destruct head). cbn in H1. lia.
Qed.

(** A conversation from the start of the connection, and the counters it leaves. *)
Definition conversed c (shared : ServerCounters) (result : res io_error (ConnectionOutcome (UR * UW))) c'
    (shared' : ServerCounters) : Prop :=
  exists rs answers tail errs,
    conversation 0 (new_session (upstream_timeout_seconds configuration)) [] c rs answers tail errs result c' /\
    requests shared' = Nat.iter (length rs) fetch_add (requests shared) /\
    errors shared' = Nat.iter errs fetch_add (errors shared).

Lemma handle_connection_spec c (shared : ServerCounters) :
  network_answers ->
  match handle_connection_io configuration network client_ip forwarded_proto (c, shared) with
  | (Panic, _) | (Fuel, _) => False
  | (result, (c', shared')) => conversed c shared result c' shared'
  end.
Proof.
  intros Hnet. unfold handle_connection_io.
  pose proof (wp_connection_loop (S (stream_fuel c)) 0 []
    (mkWorker c (new_session (upstream_timeout_seconds configuration)) shared) Hnet) as H.
  unfold wp in H. destruct (connection_loop _ _ _ _ _ _ _ _) as [[o|e| |] w]; apply H; unfold response_fuel; simpl; lia.
Qed.

End conversations.

(** ** Accepted connections *)
Section accepted.
Context {CR CW UR UW : Type} `{!Read CR} `{!Write CW} `{!Read UR} `{!Write UW}.
Variable configuration : Config.
Variable client_ip : IpAddr.
Implicit Types (c : CR * CW).

(** How the handling of the connection ends, and what it still sends: the result, and whether the
    socket was shut down. *)
Inductive closing_down : res io_error (ConnectionOutcome (UR * UW)) -> CR * CW ->
    res io_error unit -> CR * CW -> bool -> Prop :=
| down_complete c : closing_down (Ok Complete) c (Ok tt) c true
| down_tunnel session buffered upstream c c' :
    upgraded_upstream session = Some upstream ->
    delivered_some (bytes_of (pending upstream.1)) (written c.2) (written c'.2) ->
    closing_down (Ok (UpgradedTo session buffered)) c (Ok tt) c' true
| down_quiet e c :
    is_client_idle_timeout e || is_client_disconnect e = true -> closing_down (Err e) c (Ok tt) c true
| down_bad_request e out c c' :
    kind e = InvalidData -> build_text_response BadRequest (str "Bad Request" ++ [LF]) = Ok out ->
    took c [] out c' -> closing_down (Err e) c (Ok tt) c' true
| down_bad_request_unsent e e' out pre post c c' :
    kind e = InvalidData -> build_text_response BadRequest (str "Bad Request" ++ [LF]) = Ok out ->
    out = pre ++ post -> took c [] pre c' -> closing_down (Err e) c (Err e') c' true
| down_error e c :
    is_client_idle_timeout e = false -> is_client_disconnect e = false -> kind e <> InvalidData ->
    closing_down (Err e) c (Err e) c false.

Lemma handle_accepted_spec (network : Network UR UW) (os : Sockets) (schedule : Link CR CW UR UW -> list thread) c
    (shared : ServerCounters) :
  network_answers network -> sockets_answer os -> (forall l, fair (schedule l) l) ->
  let '(result, (c', shared', shut)) :=
    handle_accepted_connection configuration network client_ip HttpProto (Ok tt) os schedule (c, shared, false) in
  exists outcome c1 shared1,
    conversed configuration network client_ip HttpProto c shared outcome c1 shared1 /\
    closing_down outcome c1 result c' shut.
Proof.
  intros Hnet Hos Hfair. unfold handle_accepted_connection.
  pose proof (handle_connection_spec configuration network client_ip HttpProto c shared Hnet) as H.
  destruct (handle_connection_io _ _ _ _ (c, shared)) as [[[|session buffered]|e| |] [c1 shared1]]; try done.
  - exists (Ok Complete), c1, shared1. split; [done|constructor].
  - assert (Hup : is_Some (upgraded_upstream session)).
    { destruct H as (rs & answers & tail & errs & Hconv & _). remember (Ok (UpgradedTo session buffered)) as res eqn:E.
      clear -Hconv E. induction Hconv as [| | | | |? ? ? ? ? ? ? ? o|? ? ? ? ? ? ? ? ? ? ? ? ? ? ? o| |]; try destruct o; simplify_eq/=; auto. }
    destruct Hup as [upstream Hup].
    pose proof (tunnel_spec os schedule session c1 upstream buffered Hup Hos Hfair) as Ht.
    destruct (tunnel_upgraded _ _ _ _ _) as [[u|e| |] [[s' c'] [up'|]]]; try done;
      exists (Ok (UpgradedTo session buffered)), c1, shared1; (split; [done|]); eapply down_tunnel; try done.
    + destruct Ht as (_ & _ & Hd & _). exists (bytes_of (pending upstream.1)), []. rewrite app_nil_r. split; [exact Hd|done].
    + apply Ht.
  - destruct (is_client_idle_timeout e) eqn:Ei.
    { exists (Err e), c1, shared1. split; [done|]. apply down_quiet. by rewrite Ei. }
    destruct (decide (kind e = InvalidData)) as [Hk|Hk].
    + destruct (wp_write_text_response BadRequest (str "Bad Request" ++ [LF]) c1) as (out & Hout & Hw). unfold wp in Hw.
      destruct (write_text_response _ _ c1) as [[u|e'| |] c'] eqn:Ew; try done;
        exists (Err e), c1, shared1; (split; [done|]).
      * destruct u. by eapply down_bad_request.
      * destruct Hw as (pre & post & E & Ht). by eapply down_bad_request_unsent.
    + destruct (is_client_disconnect e) eqn:Ed; exists (Err e), c1, shared1; (split; [done|]).
      * apply down_quiet. by rewrite Ed, orb_true_r.
      * by apply down_error.
Qed.

End accepted.

(** ** Properties *)
Section properties.
Context {CR CW UR UW : Type} `{!Read CR} `{!Write CW} `{!Read UR} `{!Write UW}.
Variable configuration : Config.
Variable client_ip : IpAddr.
Variable forwarded_proto : ForwardedProto.

(** C7: the loop of a connection ends, for every client and every upstream, and what it did is a
    conversation. Every request read is counted once, routed by its only [Host] field to the first
    route of that name, exchanged with the upstream of that route, and answered before the next one is
    read. A request without a route is answered [400] or [404]; an exchange that fails before a
    response has started is answered [504] when the upstream was too slow, [400] when the body of the
    client was not a body, and [502] otherwise, each counted as an error once; after a response has
    started the error is counted and the connection closed without another answer. Only the failure of
    the client, while its head or its body is read, is passed on uncounted, and a head is given up
    only when what was received holds none. *)
Theorem handle_connection_correct (network : Network UR UW) (c : CR * CW) (shared : ServerCounters) :
  network_answers network ->
  match handle_connection_io configuration network client_ip forwarded_proto (c, shared) with
  | (Panic, _) | (Fuel, _) => False
  | (result, (c', shared')) => conversed configuration network client_ip forwarded_proto c shared result c' shared'
  end.
Proof. apply handle_connection_spec. Qed.

(** In a conversation the client is sent the answers one after the other and then the tail, and
    nothing else; the answers are whole responses to the first requests, in order; at most the last
    request has no whole answer, and a tail is sent only for such a request. *)
Theorem conversation_answers (network : Network UR UW) (turn : nat) (session : Session (UR * UW)) (buf : bytes)
    (c c' : CR * CW) rs answers tail errs (result : res io_error (ConnectionOutcome (UR * UW))) :
  conversation configuration network client_ip forwarded_proto turn session buf c rs answers tail errs result c' ->
  written c'.2 = written c.2 ++ concat answers ++ tail /\
  exists served open, rs = served ++ open /\ Forall2 (fun r out => exists o, whole_answer r o out) served answers /\
    (length open <= 1)%nat /\ (open = [] -> tail = []).
Proof. intros H. split; [by apply conversation_written in H|by apply conversation_shape in H]. Qed.

(** Handling an accepted connection returns. The conversation is followed by the tunnel when the
    protocols were switched, by a [400] when the request could not be read, and by nothing
    otherwise; the socket is shut down unless the error is passed on to the caller. *)
Theorem handle_accepted_correct (network : Network UR UW) (os : Sockets) (schedule : Link CR CW UR UW -> list thread)
    (c : CR * CW) (shared : ServerCounters) :
  network_answers network -> sockets_answer os -> (forall l, fair (schedule l) l) ->
  let '(result, (c', shared', shut)) :=
    handle_accepted_connection configuration network client_ip HttpProto (Ok tt) os schedule (c, shared, false) in
  exists outcome c1 shared1,
    conversed configuration network client_ip HttpProto c shared outcome c1 shared1 /\
    closing_down outcome c1 result c' shut.
Proof. apply handle_accepted_spec. Qed.

(** The server's own answers always serialise, say that the connection is closed, and carry the
    status and the body given; and the choice of a route returns a route of the configuration, or
    [400] without a usable host, or [404]. *)
Theorem own_answers_correct (status : StatusCode) (body : bytes) (r : Request) :
  (exists out, build_text_response status body = Ok out /\
     serialize {| response_status := status; response_headers := text_headers; response_body := body |} = Ok out) /\
  match select_route r configuration with
  | Ok route => route ∈ routes configuration
  | Err s => s = BadRequest \/ s = Http.NotFound
  | Panic | Fuel => False
  end.
Proof.
  split.
  - destruct (build_text_response_Ok status body) as [out E]. exists out. split; [done|]. by rewrite <- build_text_response_serialize.
  - unfold select_route. destruct (host_iff r) as ([h|] & -> & _); [|by left]. rewrite lookup_cases.
    destruct (normalized_request h) as [h'|]; [|by left]. destruct (List.find _ _) as [route|] eqn:Ef; [|by right].
    cbn. apply find_some in Ef as [Hin _]. by apply list_elem_of_In.
Qed.

End properties.

(** ** Examples *)
Definition sample_configuration : Config :=
  mkConfig [mkRoute (str "a.b") (mkUpstream (str "127.0.0.1") 9000)] 7 30 10 (str "127.0.0.1:8443").

Definition sample_network : Network Script Sink := fun _ _ => sample_resolve [].

Definition sample_browser : Script * Sink := ([Data (take 11 sample_head); Data (drop 11 sample_head)], new_sink).

Lemma sample_network_answers : network_answers sample_network.
Proof. intros turn a. split; [exact I|]. intros eps H. apply Ok_inj in H as <-. repeat constructor. Qed.

(** No upstream listens. *)
Definition deaf_network : Network Script Sink := fun _ _ => Ok [refusing_endpoint].

Lemma deaf_network_answers : network_answers deaf_network.
Proof. intros turn a. split; [exact I|]. intros eps H. apply Ok_inj in H as <-. repeat constructor. Qed.

Definition sample_ip : IpAddr := IpV4 (127, 0, 0, 1).

Definition converse (network : Network Script Sink) :=
  handle_connection_io sample_configuration network sample_ip HttpProto (sample_browser, mkCounters 0 0).

Example handle_connection_correct_witness :
  (exists result c' shared', converse sample_network = (result, (c', shared')) /\
     requests shared' = 1 /\ errors shared' = 0 /\
     starts_with (str "HTTP/1.1 200 OK") (written c'.2) = true /\
     conversed sample_configuration sample_network sample_ip HttpProto sample_browser (mkCounters 0 0) result c' shared') /\
  exists result c' shared', converse deaf_network = (result, (c', shared')) /\
     requests shared' = 1 /\ errors shared' = 1 /\
     starts_with (str "HTTP/1.1 502 Bad Gateway") (written c'.2) = true /\
     conversed sample_configuration deaf_network sample_ip HttpProto sample_browser (mkCounters 0 0) result c' shared'.
Proof.
  pose proof (handle_connection_correct sample_configuration sample_ip HttpProto sample_network sample_browser
    (mkCounters 0 0) sample_network_answers) as H1.
  pose proof (handle_connection_correct sample_configuration sample_ip HttpProto deaf_network sample_browser
    (mkCounters 0 0) deaf_network_answers) as H2.
  fold (converse sample_network) in H1. fold (converse deaf_network) in H2.
  split.
  - destruct (converse sample_network) as [result [c' shared']] eqn:E. vm_compute in E. injection E as <- <- <-.
    eexists _, _, _. split; [reflexivity|]. split; [reflexivity|]. split; [reflexivity|]. split; [vm_compute; reflexivity|exact H1].
  - destruct (converse deaf_network) as [result [c' shared']] eqn:E. vm_compute in E. injection E as <- <- <-.
    eexists _, _, _. split; [reflexivity|]. split; [reflexivity|]. split; [reflexivity|]. split; [vm_compute; reflexivity|exact H2].
Defined.

Lemma sample_conversation :
  exists rs answers tail errs result c',
    conversation sample_configuration sample_network sample_ip HttpProto 0 (new_session 10) [] sample_browser rs answers tail errs
      result c'.
Proof.
  pose proof (handle_connection_spec sample_configuration sample_network sample_ip HttpProto sample_browser
    (mkCounters 0 0) sample_network_answers) as H.
  destruct (handle_connection_io _ _ _ _ _) as [[o|e| |] [c' shared']]; [| |contradiction..];
    destruct H as (rs & answers & tail & errs & H & _); eauto 7.
Qed.

Example conversation_answers_witness :
  exists answers tail (c' : Script * Sink), written c'.2 = concat answers ++ tail.
Proof.
  destruct sample_conversation as (rs & answers & tail & errs & result & c' & H).
  exists answers, tail, c'. exact (proj1 (conversation_answers _ _ _ _ _ _ _ _ _ _ _ _ _ _ H)).
Defined.

Example handle_accepted_correct_witness :
  exists outcome c1 shared1 c' shut result,
    conversed sample_configuration sample_network sample_ip HttpProto sample_browser (mkCounters 0 0) outcome c1 shared1 /\
    closing_down outcome c1 result c' shut.
Proof.
  pose proof (handle_accepted_correct sample_configuration sample_ip sample_network sample_sockets sample_schedule
    sample_browser (mkCounters 0 0) sample_network_answers (conj I (conj I (conj I (conj I I)))) sample_schedule_fair) as H.
  destruct (handle_accepted_connection _ _ _ _ _ _ _) as [result [[c' shared'] shut]].
  destruct H as (outcome & c1 & shared1 & H1 & H2). by exists outcome, c1, shared1, c', shut, result.
Defined.
