(* ===== verification/Uint256.v ===== *)
(** * 256-bit integers: [src/p256.rs]

    [Uint256] and the modular arithmetic on it. An integer is its four 64-bit limbs, the least
    significant first, as in the source; sums and products of limbs are computed at their width,
    and the assertions of the source are panics here. [value] is the integer that limbs stand
    for, and every operation is shown to compute with that integer. *)
From Stdlib Require Import ZArith Lia.
From stdpp Require Import prelude.
From S2P Require Import Prelude Bytes.
Local Open Scope Z_scope.
Set Warnings "-clear-no-such-hyp".

(** ** Limbs *)
Definition u64_bits : Z := 64.
Definition u64_modulus : Z := 18446744073709551616.
Definition u128_max : Z := 340282366920938463463374607431768211455.

Definition u64_overflowing_add (a b : Z) : Z * bool := ((a + b) mod u64_modulus, u64_modulus <=? a + b).
Definition u64_overflowing_sub (a b : Z) : Z * bool := ((a - b) mod u64_modulus, a <? b).

(** Sums and products of 128-bit integers, which panic on overflow. *)
Definition u128_add {E : Type} (a b : Z) : res E Z := if a + b <=? u128_max then Ok (a + b) else Panic.
Definition u128_mul {E : Type} (a b : Z) : res E Z := if a * b <=? u128_max then Ok (a * b) else Panic.

Definition Uint256 : Type := list Z.
Definition WideUint512 : Type := list Z.

Definition ZERO : Uint256 := [0; 0; 0; 0].
Definition ONE : Uint256 := [1; 0; 0; 0].

Definition carry_value (b : bool) : Z := if b then 1 else 0.

Fixpoint add_limbs (carry : bool) (left right : list Z) : list Z * bool :=
  match left, right with
  | a :: left', b :: right' =>
      let '(sum, carry_a) := u64_overflowing_add a b in
      let '(sum, carry_b) := u64_overflowing_add sum (carry_value carry) in
      let '(output, carry) := add_limbs (carry_a || carry_b) left' right' in
      (sum :: output, carry)
  | _, _ => ([], carry)
  end.

Definition overflowing_add (left right : Uint256) : Uint256 * bool := add_limbs false left right.

Fixpoint sub_limbs (borrow : bool) (left right : list Z) : list Z * bool :=
  match left, right with
  | a :: left', b :: right' =>
      let '(difference, borrow_a) := u64_overflowing_sub a b in
      let '(difference, borrow_b) := u64_overflowing_sub difference (carry_value borrow) in
      let '(output, borrow) := sub_limbs (borrow_a || borrow_b) left' right' in
      (difference :: output, borrow)
  | _, _ => ([], borrow)
  end.

Definition overflowing_sub (left right : Uint256) : Uint256 * bool := sub_limbs false left right.

(** *** Products *)

(** The loop [while carry != 0], on the limbs from [output_index] on. *)
Fixpoint add_carry {E : Type} (carry : Z) (output : list Z) : res E (list Z) :=
  if carry =? 0 then Ok output
  else
    match output with
    | [] => Panic
    | o :: output' =>
        let? accumulated := u128_add o carry in
        let? rest := add_carry (accumulated / u64_modulus) output' in
        Ok (accumulated mod u64_modulus :: rest)
    end.

(** One row: [a] times [right], added to the limbs from [left_index] on. *)
Fixpoint multiply_row {E : Type} (a : Z) (right : list Z) (carry : Z) (output : list Z) : res E (list Z) :=
  match right with
  | [] => add_carry carry output
  | b :: right' =>
      match output with
      | [] => Panic
      | o :: output' =>
          let? product := u128_mul a b in
          let? accumulated := u128_add product o in
          let? accumulated := u128_add accumulated carry in
          let? rest := multiply_row a right' (accumulated / u64_modulus) output' in
          Ok (accumulated mod u64_modulus :: rest)
      end
  end.

(** The rows; [output] is what is left of the product from [left_index] on. *)
Fixpoint multiply_rows {E : Type} (left right output : list Z) : res E (list Z) :=
  match left with
  | [] => Ok output
  | a :: left' =>
      let? output := multiply_row a right 0 output in
      match output with
      | [] => Panic
      | o :: output' =>
          let? rest := multiply_rows left' right output' in
          Ok (o :: rest)
      end
  end.

Definition multiply_wide {E : Type} (left right : Uint256) : res E WideUint512 :=
  multiply_rows left right [0; 0; 0; 0; 0; 0; 0; 0].

(** *** Bits and order *)
Definition bit {E : Type} (limbs : list Z) (i : nat) : res E bool :=
  let? limb := index limbs (i / 64) in
  Ok (negb (Z.land (Z.shiftr limb (Z.of_nat (i mod 64))) 1 =? 0)).

(** From the most significant limb down, [zip(..).rev()]. *)
Definition compare_limbs (left right : list Z) : comparison :=
  fold_left (fun c '(a, b) => match c with Eq => a ?= b | c => c end) (rev (zip left right)) Eq.

Definition compare_five_limbs (left right : list Z) : comparison := compare_limbs left right.

Definition subtract_five_limbs {E : Type} (left right : list Z) : res E (list Z) :=
  let '(output, borrow) := sub_limbs false left right in
  if borrow : bool then Panic else Ok output.

Fixpoint shift_limbs (carry : Z) (limbs : list Z) : list Z * Z :=
  match limbs with
  | [] => ([], carry)
  | limb :: limbs' =>
      let next_carry := Z.shiftr limb 63 in
      let '(output, last) := shift_limbs next_carry limbs' in
      (Z.lor (Z.shiftl limb 1 mod u64_modulus) carry :: output, last)
  end.

Definition shift_five_limbs_left_one {E : Type} (limbs : list Z) : res E (list Z) :=
  let '(output, carry) := shift_limbs 0 limbs in
  if carry =? 0 then Ok output else Panic.

(** [remainder[0] |= 1] *)
Definition set_low_bit {E : Type} (limbs : list Z) : res E (list Z) :=
  match limbs with
  | [] => Panic
  | limb :: limbs' => Ok (Z.lor limb 1 :: limbs')
  end.

(** *** Reduction *)
Definition reduce_step {E : Type} (v : WideUint512) (modulus remainder : list Z) (bit_index : nat) : res E (list Z) :=
  let? remainder := shift_five_limbs_left_one remainder in
  let? b := bit v bit_index in
  let? remainder := if b : bool then set_low_bit remainder else Ok remainder in
  match compare_five_limbs remainder modulus with
  | Lt => Ok remainder
  | _ => subtract_five_limbs remainder modulus
  end.

Definition reduce_wide {E : Type} (v : WideUint512) (modulus : Uint256) : res E Uint256 :=
  let? remainder := res_foldM (reduce_step v (modulus ++ [0])) [0; 0; 0; 0; 0] (rev (seq 0 512)) in
  let? top := index remainder 4 in
  if top =? 0 then slice_to remainder 4 else Panic.

Definition reduce_uint {E : Type} (v modulus : Uint256) : res E Uint256 := reduce_wide (v ++ [0; 0; 0; 0]) modulus.

Definition add_mod {E : Type} (left right modulus : Uint256) : res E Uint256 :=
  let '(sum, carry) := overflowing_add left right in
  reduce_wide (sum ++ [carry_value carry; 0; 0; 0]) modulus.

Definition sub_mod (left right modulus : Uint256) : Uint256 :=
  match compare_limbs left right with
  | Lt => (overflowing_sub modulus (overflowing_sub right left).1).1
  | _ => (overflowing_sub left right).1
  end.

Definition mul_mod {E : Type} (left right modulus : Uint256) : res E Uint256 :=
  let? product := multiply_wide left right in
  reduce_wide product modulus.

Definition pow_mod {E : Type} (base exponent modulus : Uint256) : res E Uint256 :=
  let? base := reduce_uint base modulus in
  res_foldM (fun result bit_index =>
    let? result := mul_mod result result modulus in
    let? b := bit exponent bit_index in
    if b : bool then mul_mod result base modulus else Ok result) ONE (rev (seq 0 256)).

Definition invert_mod {E : Type} (v modulus : Uint256) : res E (option Uint256) :=
  let? v := reduce_uint v modulus in
  if bool_decide (v = ZERO) then Ok None
  else
    let exponent := (overflowing_sub modulus [2; 0; 0; 0]).1 in
    let? result := pow_mod v exponent modulus in
    Ok (Some result).

(** *** Bytes, the most significant first *)
(** The limb at [index] is read from the bytes from [32 - (index + 1) * 8] on. *)
Definition from_be_bytes {E : Type} (bs : bytes) : res E Uint256 :=
  res_mapM (fun i =>
    let start := (32 - (i + 1) * 8)%nat in
    let? part := slice bs start (start + 8) in
    Ok (be_value 0 part)) (seq 0 4).

Definition to_be_bytes (v : Uint256) : bytes := concat (map (be_bytes 8) (rev v)).

(** ** Values *)
Fixpoint value (limbs : list Z) : Z :=
  match limbs with
  | [] => 0
  | limb :: limbs' => limb + u64_modulus * value limbs'
  end.

Definition is_limb (x : Z) : Prop := 0 <= x < u64_modulus.

(** [n] limbs. *)
Definition limbs_ok (n : nat) (l : list Z) : Prop := length l = n /\ Forall is_limb l.

Definition power (n : nat) : Z := u64_modulus ^ Z.of_nat n.

Lemma power_0 : power 0 = 1.
Proof. done. Qed.

Lemma power_S (n : nat) : power (S n) = u64_modulus * power n.
Proof. unfold power. by rewrite Nat2Z.inj_succ, Z.pow_succ_r by lia. Qed.

Lemma power_pos (n : nat) : 0 < power n.
Proof. unfold power. apply Z.pow_pos_nonneg; [done|lia]. Qed.

(** By evaluation, for the constants. *)
Lemma limbs_ok_eval (n : nat) (l : list Z) :
  (length l =? n)%nat && forallb (fun x => (0 <=? x) && (x <? u64_modulus)) l = true -> limbs_ok n l.
Proof.
  intros [Hn Hl]%andb_true_iff. split; [by apply Nat.eqb_eq|]. rewrite forallb_forall in Hl. apply Forall_forall. intros x Hx.
  apply list_elem_of_In, Hl in Hx. apply andb_true_iff in Hx as [H1 H2]. unfold is_limb. lia.
Qed.

Lemma limbs_ok_nil (l : list Z) : limbs_ok 0 l -> l = [].
Proof. intros [H _]. by destruct l. Qed.

Lemma limbs_ok_cons (n : nat) (x : Z) (l : list Z) : limbs_ok (S n) (x :: l) <-> is_limb x /\ limbs_ok n l.
Proof. unfold limbs_ok. rewrite Forall_cons. simpl. split; [intros ([= H] & Hx & Hl); auto|intros (Hx & H & Hl); auto]. Qed.

Lemma limbs_ok_S (n : nat) (l : list Z) : limbs_ok (S n) l -> exists x l', l = x :: l' /\ is_limb x /\ limbs_ok n l'.
Proof. intros H. destruct l as [|x l]; [by destruct H|]. apply limbs_ok_cons in H. eauto. Qed.

Lemma limbs_ok_app (n m : nat) (l k : list Z) : limbs_ok n l -> limbs_ok m k -> limbs_ok (n + m) (l ++ k).
Proof. intros [H1 H2] [H3 H4]. split; [by rewrite length_app, H1, H3|by apply Forall_app]. Qed.

Lemma value_app (l k : list Z) : value (l ++ k) = value l + power (length l) * value k.
Proof.
  induction l as [|x l IH]; [cbn [app value length]; rewrite power_0; lia|]. cbn [app value length]. rewrite IH, power_S. ring.
Qed.

Lemma value_range (n : nat) (l : list Z) : limbs_ok n l -> 0 <= value l < power n.
Proof.
  revert l. induction n as [|n IH]; intros l H; [apply limbs_ok_nil in H as ->; rewrite power_0; simpl; lia|].
  apply limbs_ok_S in H as (x & l' & -> & Hx & Hl). specialize (IH _ Hl). unfold is_limb in Hx.
  rewrite power_S. cbn [value]. nia.
Qed.

Lemma value_inj (n : nat) (l k : list Z) : limbs_ok n l -> limbs_ok n k -> value l = value k -> l = k.
Proof.
  revert l k. induction n as [|n IH]; intros l k Hl Hk E.
  - by rewrite (limbs_ok_nil l), (limbs_ok_nil k).
  - apply limbs_ok_S in Hl as (x & l' & -> & Hx & Hl), Hk as (y & k' & -> & Hy & Hk). unfold is_limb in *.
    cbn [value] in E. assert (x = y /\ value l' = value k') as [-> Ev] by (unfold u64_modulus in *; lia).
    by rewrite (IH l' k').
Qed.

Lemma limbs_ok_zeros (n : nat) : limbs_ok n (repeat 0 n).
Proof. induction n as [|n IH]; [by split|]. apply limbs_ok_cons. by split. Qed.

Lemma value_zeros (n : nat) : value (repeat 0 n) = 0.
Proof. induction n as [|n IH]; [done|]. cbn [repeat value]. by rewrite IH. Qed.

(** The limbs of an integer. *)
Fixpoint limbs_of (n : nat) (z : Z) : list Z :=
  match n with
  | O => []
  | S n' => z mod u64_modulus :: limbs_of n' (z / u64_modulus)
  end.

Lemma limbs_of_ok (n : nat) (z : Z) : limbs_ok n (limbs_of n z).
Proof.
  revert z. induction n as [|n IH]; intros z; [by split|]. cbn [limbs_of]. apply limbs_ok_cons.
  split; [apply Z.mod_pos_bound; done|done].
Qed.

Lemma value_limbs_of (n : nat) (z : Z) : value (limbs_of n z) = z mod power n.
Proof.
  revert z. induction n as [|n IH]; intros z; [by rewrite power_0, Z.mod_1_r|]. cbn [limbs_of value].
  rewrite IH, power_S. pose proof (power_pos n). rewrite Z.rem_mul_r by (try done; lia). lia.
Qed.

Lemma value_limbs_of_small (n : nat) (z : Z) : 0 <= z < power n -> value (limbs_of n z) = z.
Proof. intros H. rewrite value_limbs_of. by apply Z.mod_small. Qed.

Lemma limbs_of_value (n : nat) (l : list Z) : limbs_ok n l -> limbs_of n (value l) = l.
Proof.
  intros H. apply (value_inj n); [apply limbs_of_ok|done|]. apply value_limbs_of_small. by apply value_range.
Qed.

(** ** Sums and differences *)
Lemma carry_step (x : Z) : 0 <= x < 2 * u64_modulus ->
  x mod u64_modulus + u64_modulus * carry_value (u64_modulus <=? x) = x.
Proof.
  intros H. unfold carry_value. destruct (Z.leb_spec u64_modulus x).
  - replace x with (x - u64_modulus + 1 * u64_modulus) at 1 by lia. rewrite Z.mod_add, Z.mod_small by (done || lia). lia.
  - rewrite Z.mod_small by lia. lia.
Qed.

Lemma add_limbs_spec (n : nat) (carry : bool) (l r : list Z) :
  limbs_ok n l -> limbs_ok n r ->
  limbs_ok n (add_limbs carry l r).1 /\
  value (add_limbs carry l r).1 + power n * carry_value (add_limbs carry l r).2 = value l + value r + carry_value carry.
Proof.
  revert carry l r. induction n as [|n IH]; intros carry l r Hl Hr.
  { apply limbs_ok_nil in Hl as ->. rewrite power_0. apply limbs_ok_nil in Hr as ->. cbn [add_limbs fst snd value]. split; [by split|lia]. }
  apply limbs_ok_S in Hl as (a & l' & -> & Ha & Hl), Hr as (b & r' & -> & Hb & Hr). cbn [add_limbs u64_overflowing_add].
  set (s1 := (a + b) mod u64_modulus). set (c1 := u64_modulus <=? a + b).
  set (s2 := (s1 + carry_value carry) mod u64_modulus). set (c2 := u64_modulus <=? s1 + carry_value carry).
  destruct (IH (c1 || c2) l' r' Hl Hr) as [Hok Hv]. destruct (add_limbs (c1 || c2) l' r') as [o c].
  cbn [fst snd value] in *.
  assert (Hs : s2 + u64_modulus * carry_value (c1 || c2) = a + b + carry_value carry /\ is_limb s2).
  { unfold is_limb in *. assert (0 <= carry_value carry <= 1) by (destruct carry; simpl; lia).
    assert (H1 : s1 + u64_modulus * carry_value c1 = a + b) by (apply carry_step; lia).
    assert (0 <= s1 < u64_modulus) by (apply Z.mod_pos_bound; done).
    assert (H2 : s2 + u64_modulus * carry_value c2 = s1 + carry_value carry).
    { apply carry_step. unfold u64_modulus in *; lia. }
    assert (0 <= s2 < u64_modulus) by (apply Z.mod_pos_bound; done).
    split; [|done]. destruct c1, c2; cbn [carry_value orb] in *; lia. }
  destruct Hs as [Hs Hs2]. split; [by apply limbs_ok_cons|]. rewrite power_S. lia.
Qed.

Lemma borrow_step (a b : Z) : - u64_modulus <= a - b < u64_modulus ->
  (a - b) mod u64_modulus = a - b + u64_modulus * carry_value (a <? b).
Proof.
  intros H. unfold carry_value. destruct (Z.ltb_spec a b).
  - replace (a - b) with (a - b + u64_modulus + (-1) * u64_modulus) at 1 by lia.
    rewrite Z.mod_add, Z.mod_small by (done || lia). lia.
  - rewrite Z.mod_small by lia. lia.
Qed.

Lemma sub_limbs_spec (n : nat) (borrow : bool) (l r : list Z) :
  limbs_ok n l -> limbs_ok n r ->
  limbs_ok n (sub_limbs borrow l r).1 /\
  value (sub_limbs borrow l r).1 =
    value l - value r - carry_value borrow + power n * carry_value (sub_limbs borrow l r).2.
Proof.
  revert borrow l r. induction n as [|n IH]; intros borrow l r Hl Hr.
  { apply limbs_ok_nil in Hl as ->. rewrite power_0. apply limbs_ok_nil in Hr as ->. cbn [sub_limbs fst snd value]. split; [by split|lia]. }
  apply limbs_ok_S in Hl as (a & l' & -> & Ha & Hl), Hr as (b & r' & -> & Hb & Hr). cbn [sub_limbs u64_overflowing_sub].
  set (s1 := (a - b) mod u64_modulus). set (c1 := a <? b).
  set (s2 := (s1 - carry_value borrow) mod u64_modulus). set (c2 := s1 <? carry_value borrow).
  destruct (IH (c1 || c2) l' r' Hl Hr) as [Hok Hv]. destruct (sub_limbs (c1 || c2) l' r') as [o c].
  cbn [fst snd value] in *.
  assert (Hs : s2 = a - b - carry_value borrow + u64_modulus * carry_value (c1 || c2) /\ is_limb s2).
  { unfold is_limb in *. assert (0 <= carry_value borrow <= 1) by (destruct borrow; simpl; lia).
    assert (H1 : s1 = a - b + u64_modulus * carry_value c1) by (apply borrow_step; lia).
    assert (0 <= s1 < u64_modulus) by (apply Z.mod_pos_bound; done).
    assert (H2 : s2 = s1 - carry_value borrow + u64_modulus * carry_value c2).
    { apply borrow_step. unfold u64_modulus in *; lia. }
    assert (0 <= s2 < u64_modulus) by (apply Z.mod_pos_bound; done).
    split; [|done]. destruct c1, c2; cbn [carry_value orb] in *; lia. }
  destruct Hs as [Hs Hs2]. split; [by apply limbs_ok_cons|]. rewrite power_S. lia.
Qed.

(** [overflowing_add] and [overflowing_sub] wrap around at [2^256], and say when. *)
Lemma overflowing_add_spec (n : nat) (l r : list Z) :
  limbs_ok n l -> limbs_ok n r ->
  overflowing_add l r = (limbs_of n ((value l + value r) mod power n), power n <=? value l + value r).
Proof.
  intros Hl Hr. destruct (add_limbs_spec n false l r Hl Hr) as [Hok Hv]. unfold overflowing_add.
  destruct (add_limbs false l r) as [o c]. cbn [fst snd] in *. pose proof (value_range n _ Hok). pose proof (value_range n _ Hl).
  pose proof (value_range n _ Hr). cbn [carry_value] in Hv. f_equal.
  - apply (value_inj n); [done|apply limbs_of_ok|]. rewrite value_limbs_of, Z.mod_mod by (pose proof (power_pos n); lia).
    apply (Z.mod_unique _ _ (carry_value c)); lia.
  - destruct c; cbn [carry_value] in *; symmetry; [apply Z.leb_le|apply Z.leb_gt]; lia.
Qed.

Lemma overflowing_sub_spec (n : nat) (l r : list Z) :
  limbs_ok n l -> limbs_ok n r ->
  overflowing_sub l r = (limbs_of n ((value l - value r) mod power n), value l <? value r).
Proof.
  intros Hl Hr. destruct (sub_limbs_spec n false l r Hl Hr) as [Hok Hv]. unfold overflowing_sub.
  destruct (sub_limbs false l r) as [o c]. cbn [fst snd] in *. pose proof (value_range n _ Hok). pose proof (value_range n _ Hl).
  pose proof (value_range n _ Hr). cbn [carry_value] in Hv. f_equal.
  - apply (value_inj n); [done|apply limbs_of_ok|]. rewrite value_limbs_of, Z.mod_mod by (pose proof (power_pos n); lia).
    apply (Z.mod_unique _ _ (- carry_value c)); lia.
  - destruct c; cbn [carry_value] in *; symmetry; [apply Z.ltb_lt|apply Z.ltb_ge]; lia.
Qed.

(** ** Products

    No intermediate sum passes 128 bits, and no carry passes the last limb. *)
Lemma u128_add_Ok {E : Type} (a b : Z) : a + b <= u128_max -> u128_add a b = Ok (a + b) :> res E Z.
Proof. intros H. unfold u128_add. by rewrite (proj2 (Z.leb_le _ _) H). Qed.

Lemma u128_mul_Ok {E : Type} (a b : Z) : a * b <= u128_max -> u128_mul a b = Ok (a * b) :> res E Z.
Proof. intros H. unfold u128_mul. by rewrite (proj2 (Z.leb_le _ _) H). Qed.

Lemma div_mod_limb (x : Z) : x mod u64_modulus + u64_modulus * (x / u64_modulus) = x.
Proof. pose proof (Z.div_mod x u64_modulus ltac:(done)). lia. Qed.

Lemma add_carry_spec {E : Type} (n : nat) (carry : Z) (o : list Z) :
  limbs_ok n o -> is_limb carry -> value o + carry < power n ->
  exists o', add_carry carry o = Ok o' :> res E _ /\ limbs_ok n o' /\ value o' = value o + carry.
Proof.
  revert carry o. induction n as [|n IH]; intros carry o Ho Hc Hlt.
  - apply limbs_ok_nil in Ho as ->. rewrite power_0 in Hlt. unfold is_limb in Hc. cbn [value] in *. assert (carry = 0) as -> by lia.
    exists []. split_and!; [done|by split|done].
  - apply limbs_ok_S in Ho as (x & o' & -> & Hx & Ho). cbn [add_carry value] in *. unfold is_limb in *.
    destruct (Z.eqb_spec carry 0) as [->|Hne].
    { exists (x :: o'). split_and!; [done|by apply limbs_ok_cons|cbn [value]; lia]. }
    rewrite u128_add_Ok by (unfold u128_max, u64_modulus in *; lia). cbn [res_bind].
    pose proof (div_mod_limb (x + carry)) as Hd. pose proof (Z.mod_pos_bound (x + carry) u64_modulus ltac:(done)).
    rewrite power_S in Hlt. pose proof (power_pos n). pose proof (value_range n _ Ho).
    assert (0 <= (x + carry) / u64_modulus <= 1) by (unfold u64_modulus in *; lia).
    destruct (IH ((x + carry) / u64_modulus) o' Ho) as (rest & -> & Hrest & Hv); [unfold u64_modulus in *; lia|nia|].
    cbn [res_bind]. eexists. split_and!; [done|by apply limbs_ok_cons|]. cbn [value]. rewrite Hv. lia.
Qed.

Lemma multiply_row_spec {E : Type} (n m : nat) (a carry : Z) (r o : list Z) :
  is_limb a -> limbs_ok n r -> is_limb carry -> limbs_ok m o -> (n <= m)%nat ->
  value o + a * value r + carry < power m ->
  exists o', multiply_row a r carry o = Ok o' :> res E _ /\ limbs_ok m o' /\ value o' = value o + a * value r + carry.
Proof.
  intros Ha. revert m carry r o. induction n as [|n IH]; intros m carry r o Hr Hc Ho Hnm Hlt.
  - apply limbs_ok_nil in Hr as ->. cbn [multiply_row value] in *. rewrite Z.mul_0_r, Z.add_0_r in *. by apply add_carry_spec.
  - destruct m as [|m]; [lia|]. apply limbs_ok_S in Hr as (b & r' & -> & Hb & Hr), Ho as (x & o' & -> & Hx & Ho).
    cbn [multiply_row value] in *. unfold is_limb in *.
    assert (Hab : 0 <= a * b <= (u64_modulus - 1) * (u64_modulus - 1)) by nia.
    rewrite u128_mul_Ok by (unfold u128_max, u64_modulus in *; lia). cbn [res_bind].
    rewrite u128_add_Ok by (unfold u128_max, u64_modulus in *; lia). cbn [res_bind].
    rewrite u128_add_Ok by (unfold u128_max, u64_modulus in *; lia). cbn [res_bind].
    set (acc := a * b + x + carry) in *. pose proof (div_mod_limb acc) as Hd. pose proof (Z.mod_pos_bound acc u64_modulus ltac:(done)).
    assert (Hq : 0 <= acc / u64_modulus < u64_modulus).
    { split; [apply Z.div_pos; [lia|done]|]. apply Z.div_lt_upper_bound; [done|]. unfold u64_modulus in *. lia. }
    rewrite power_S in Hlt. pose proof (power_pos m). pose proof (value_range m _ Ho). pose proof (value_range n _ Hr).
    destruct (IH m (acc / u64_modulus) r' o' Hr Hq Ho) as (rest & -> & Hrest & Hv); [lia| |].
    { assert (u64_modulus * (value o' + a * value r' + acc / u64_modulus) < u64_modulus * power m) by lia. unfold u64_modulus in *. lia. }
    cbn [res_bind]. eexists. split_and!; [done|by apply limbs_ok_cons|]. cbn [value]. rewrite Hv. lia.
Qed.

Lemma multiply_rows_spec {E : Type} (k n m : nat) (l r o : list Z) :
  limbs_ok k l -> limbs_ok n r -> limbs_ok m o -> (k + n <= m)%nat ->
  value o < power n ->
  exists o', multiply_rows l r o = Ok o' :> res E _ /\ limbs_ok m o' /\ value o' = value o + value l * value r.
Proof.
  revert m l o. induction k as [|k IH]; intros m l o Hl Hr Ho Hm Hv.
  - apply limbs_ok_nil in Hl as ->. exists o. cbn [multiply_rows value]. split_and!; [done|done|lia].
  - destruct m as [|m]; [lia|]. apply limbs_ok_S in Hl as (a & l' & -> & Ha & Hl). cbn [multiply_rows value].
    pose proof (value_range n _ Hr) as Hrr. pose proof Ha as Ha'. unfold is_limb in Ha'.
    assert (Hbound : value o + a * value r < power (S n)) by (rewrite power_S; nia).
    assert (Hmono : power (S n) <= power (S m)).
    { unfold power. apply Z.pow_le_mono_r; [done|lia]. }
    destruct (multiply_row_spec (E := E) n (S m) a 0 r o Ha Hr) as (o1 & -> & Ho1 & Hv1); [by split|done|lia|lia|].
    cbn [res_bind]. apply limbs_ok_S in Ho1 as (x & o' & -> & Hx & Ho1). cbn [value] in Hv1. unfold is_limb in Hx.
    destruct (IH m l' o' Hl Hr Ho1) as (rest & -> & Hrest & Hvr); [lia| |].
    { rewrite power_S in Hbound. pose proof (value_range n _ Hr). pose proof (power_pos n). unfold u64_modulus in *. lia. }
    cbn [res_bind]. eexists. split_and!; [done|by apply limbs_ok_cons|]. cbn [value]. rewrite Hvr. lia.
Qed.

Lemma multiply_wide_spec {E : Type} (l r : Uint256) :
  limbs_ok 4 l -> limbs_ok 4 r -> multiply_wide l r = Ok (limbs_of 8 (value l * value r)) :> res E _.
Proof.
  intros Hl Hr. unfold multiply_wide.
  destruct (multiply_rows_spec (E := E) 4 4 8 l r [0; 0; 0; 0; 0; 0; 0; 0] Hl Hr) as (o & -> & Ho & Hv).
  - apply (limbs_ok_zeros 8).
  - done.
  - by vm_compute.
  - f_equal. change (value [0; 0; 0; 0; 0; 0; 0; 0]) with 0 in Hv. rewrite Z.add_0_l in Hv. rewrite <- Hv.
    by rewrite limbs_of_value.
Qed.

(** ** Bits and order *)
Lemma lookup_limb (n : nat) (l : list Z) (k : nat) :
  limbs_ok n l -> (k < n)%nat -> l !! k = Some ((value l / power k) mod u64_modulus).
Proof.
  revert l k. induction n as [|n IH]; intros l k Hl Hk; [lia|].
  apply limbs_ok_S in Hl as (x & l' & -> & Hx & Hl). unfold is_limb in Hx. destruct k as [|k]; cbn [value].
  - cbn. f_equal. rewrite power_0, Z.div_1_r. symmetry. rewrite (Z.mul_comm u64_modulus), Z.mod_add by done. by apply Z.mod_small.
  - change ((x :: l') !! S k) with (l' !! k). rewrite (IH l' k Hl) by lia. f_equal. f_equal.
    rewrite power_S, <- Z.div_div by (try done; pose proof (power_pos k); lia). f_equal.
    rewrite (Z.mul_comm u64_modulus), Z.div_add by done. rewrite Z.div_small by lia. lia.
Qed.

Lemma power_bits (k : nat) : power k = 2 ^ (64 * Z.of_nat k).
Proof. unfold power. rewrite (Z.pow_mul_r 2 64) by lia. done. Qed.

Lemma bit_spec {E : Type} (n : nat) (l : list Z) (i : nat) :
  limbs_ok n l -> (i < 64 * n)%nat -> bit l i = Ok (Z.testbit (value l) (Z.of_nat i)) :> res E bool.
Proof.
  intros Hl Hi. unfold bit. pose proof (Nat.div_mod_eq i 64) as Hd. pose proof (Nat.mod_upper_bound i 64 ltac:(lia)).
  set (q := (i / 64)%nat) in *. set (j := (i mod 64)%nat) in *.
  rewrite (index_Ok _ _ _ (lookup_limb n l q Hl ltac:(lia))). cbn [res_bind]. f_equal.
  rewrite (Z.land_ones _ 1), Z.pow_1_r by lia. rewrite <- Z.bit0_mod, Z.shiftr_spec, Z.add_0_l by lia.
  change u64_modulus with (2 ^ 64). rewrite Z.mod_pow2_bits_low by lia. rewrite power_bits, Z.div_pow2_bits by lia.
  replace (Z.of_nat j + 64 * Z.of_nat q) with (Z.of_nat i) by lia. by destruct (Z.testbit _ _).
Qed.

(** The order of integers is that of the limbs, from the most significant one down. *)
Lemma compare_limbs_cons (x y : Z) (l k : list Z) :
  compare_limbs (x :: l) (y :: k) = match compare_limbs l k with Eq => x ?= y | c => c end.
Proof. unfold compare_limbs. change (zip (x :: l) (y :: k)) with ((x, y) :: zip l k). cbn [rev]. rewrite fold_left_app. by destruct (fold_left _ (rev (zip l k)) Eq). Qed.

Lemma compare_limbs_spec (n : nat) (l k : list Z) :
  limbs_ok n l -> limbs_ok n k -> compare_limbs l k = (value l ?= value k).
Proof.
  revert l k. induction n as [|n IH]; intros l k Hl Hk.
  - by rewrite (limbs_ok_nil l), (limbs_ok_nil k).
  - apply limbs_ok_S in Hl as (x & l' & -> & Hx & Hl), Hk as (y & k' & -> & Hy & Hk).
    rewrite compare_limbs_cons, (IH l' k' Hl Hk). unfold is_limb in *. cbn [value].
    destruct (Z.compare_spec (value l') (value k')) as [E|E|E]; symmetry.
    + rewrite E. destruct (Z.compare_spec x y); [apply Z.compare_eq_iff|apply Z.compare_lt_iff|apply Z.compare_gt_iff]; lia.
    + apply Z.compare_lt_iff. unfold u64_modulus in *. lia.
    + apply Z.compare_gt_iff. unfold u64_modulus in *. lia.
Qed.

(** ** Remainders

    The long division keeps the remainder of the bits seen so far. *)
Lemma lor_low_bit (x c : Z) : 0 <= c <= 1 -> Z.lor (2 * x) c = 2 * x + c.
Proof.
  intros H. assert (c = 0 \/ c = 1) as [-> | ->] by lia; [by rewrite Z.lor_0_r, Z.add_0_r|].
  apply Z.bits_inj'. intros i Hi. rewrite Z.lor_spec. destruct (Z.eq_dec i 0) as [->|Hne].
  - by rewrite Z.testbit_even_0, Z.testbit_odd_0.
  - replace i with (Z.succ (i - 1)) by lia. rewrite Z.testbit_even_succ, Z.testbit_odd_succ by lia.
    rewrite (Z.testbit_odd_succ 0 (i - 1) ltac:(lia) : Z.testbit 1 (Z.succ (i - 1)) = _), Z.bits_0. apply orb_false_r.
Qed.

Lemma shift_limbs_spec (n : nat) (carry : Z) (l : list Z) :
  limbs_ok n l -> 0 <= carry <= 1 ->
  limbs_ok n (shift_limbs carry l).1 /\ 0 <= (shift_limbs carry l).2 <= 1 /\
  value (shift_limbs carry l).1 + power n * (shift_limbs carry l).2 = 2 * value l + carry.
Proof.
  revert carry l. induction n as [|n IH]; intros carry l Hl Hc.
  { apply limbs_ok_nil in Hl as ->. rewrite power_0. cbn [shift_limbs fst snd value]. split_and!; [by split|lia..]. }
  apply limbs_ok_S in Hl as (x & l' & -> & Hx & Hl). cbn [shift_limbs]. unfold is_limb in Hx.
  rewrite Z.shiftl_mul_pow2, Z.shiftr_div_pow2, Z.pow_1_r by lia. change (2 ^ 63) with 9223372036854775808.
  pose proof (Z.div_mod x 9223372036854775808 ltac:(done)). pose proof (Z.mod_pos_bound x 9223372036854775808 ltac:(done)).
  assert (Hq : 0 <= x / 9223372036854775808 <= 1) by (unfold u64_modulus in *; lia).
  assert (Hm : (x * 2) mod u64_modulus = 2 * (x mod 9223372036854775808)).
  { rewrite (Z.mul_comm x). change u64_modulus with (2 * 9223372036854775808). by rewrite Z.mul_mod_distr_l. }
  destruct (IH (x / 9223372036854775808) l' Hl Hq) as (Hok & Hlast & Hv). destruct (shift_limbs (x / 9223372036854775808) l') as [o c].
  cbn [fst snd value] in *. rewrite Hm, lor_low_bit by done.
  split_and!; [|lia|lia|].
  - apply limbs_ok_cons. split; [|done]. unfold is_limb, u64_modulus. lia.
  - rewrite power_S. unfold u64_modulus in *. lia.
Qed.

Lemma shift_five_limbs_spec {E : Type} (n : nat) (l : list Z) :
  limbs_ok n l -> 2 * value l < power n -> shift_five_limbs_left_one l = Ok (limbs_of n (2 * value l)) :> res E _.
Proof.
  intros Hl Hlt. destruct (shift_limbs_spec n 0 l Hl ltac:(lia)) as (Hok & Hc & Hv). unfold shift_five_limbs_left_one.
  destruct (shift_limbs 0 l) as [o c]. cbn [fst snd] in *. pose proof (value_range n _ Hok). pose proof (power_pos n).
  assert (c = 0) as -> by nia. cbn [Z.eqb]. f_equal. rewrite <- (limbs_of_value n o Hok). f_equal. lia.
Qed.

Lemma set_low_bit_spec {E : Type} (n : nat) (l : list Z) (x : Z) :
  limbs_ok (S n) l -> value l = 2 * x -> set_low_bit l = Ok (limbs_of (S n) (2 * x + 1)) :> res E _.
Proof.
  intros Hl Hv. apply limbs_ok_S in Hl as (y & l' & -> & Hy & Hl). cbn [set_low_bit value] in *. f_equal.
  unfold is_limb in Hy. assert (Heven : y = 2 * (x - 2 ^ 63 * value l')) by (unfold u64_modulus in *; lia).
  replace (Z.lor y 1) with (y + 1) by (rewrite Heven; symmetry; apply lor_low_bit; lia).
  replace (2 * x + 1) with (value (y + 1 :: l')) by (cbn [value]; lia).
  symmetry. apply limbs_of_value, limbs_ok_cons. split; [|done]. unfold is_limb, u64_modulus in *. lia.
Qed.

Lemma subtract_limbs_spec {E : Type} (n : nat) (l r : list Z) :
  limbs_ok n l -> limbs_ok n r -> value r <= value l ->
  subtract_five_limbs l r = Ok (limbs_of n (value l - value r)) :> res E _.
Proof.
  intros Hl Hr Hle. pose proof (overflowing_sub_spec n l r Hl Hr) as H. unfold overflowing_sub in H.
  unfold subtract_five_limbs. rewrite H. pose proof (value_range n _ Hl). pose proof (value_range n _ Hr).
  rewrite (proj2 (Z.ltb_ge _ _) Hle), Z.mod_small by lia. done.
Qed.

Section remainders.
Variable m : Uint256.
Hypothesis m_ok : limbs_ok 4 m.
Hypothesis m_pos : 0 < value m.

Lemma value_m_lt : value m < power 4.
Proof. apply (value_range 4 m m_ok). Qed.

Lemma value_extend : value (m ++ [0]) = value m.
Proof. rewrite value_app. cbn [value]. lia. Qed.

(** A remainder of the division by [m], in five limbs. *)
Definition remainder_of (r : Z) : list Z := limbs_of 5 (r mod value m).

Lemma remainder_lt (r : Z) : 0 <= r mod value m < power 4.
Proof. pose proof (Z.mod_pos_bound r (value m) m_pos). pose proof value_m_lt. lia. Qed.

Lemma power_4_5 : 2 * power 4 + 1 < power 5.
Proof. by vm_compute. Qed.

Lemma value_remainder_of (r : Z) : value (remainder_of r) = r mod value m.
Proof. apply value_limbs_of_small. pose proof (remainder_lt r). pose proof power_4_5. lia. Qed.

Lemma double_mod (r b : Z) : 0 <= b <= 1 ->
  (2 * r + b) mod value m =
    (let x := 2 * (r mod value m) + b in if x <? value m then x else x - value m).
Proof.
  intros Hb. pose proof (Z.mod_pos_bound r (value m) m_pos). cbn zeta. pose proof (Z.div_mod r (value m) ltac:(lia)) as Hd.
  set (q := r / value m) in *. set (x := r mod value m) in *. symmetry.
  destruct (Z.ltb_spec (2 * x + b) (value m)); [apply (Z.mod_unique _ _ (2 * q))|apply (Z.mod_unique _ _ (2 * q + 1))]; lia.
Qed.

Lemma reduce_step_spec {E : Type} (v : WideUint512) (r : Z) (i : nat) :
  limbs_ok 8 v -> (i < 512)%nat ->
  reduce_step v (m ++ [0]) (remainder_of r) i =
    Ok (remainder_of (2 * r + Z.b2z (Z.testbit (value v) (Z.of_nat i)))) :> res E _.
Proof.
  intros Hv Hi. unfold reduce_step. pose proof (remainder_lt r) as Hr. pose proof power_4_5.
  rewrite (shift_five_limbs_spec 5) by (try apply limbs_of_ok; rewrite value_remainder_of; lia). cbn [res_bind].
  rewrite (bit_spec 8 v i Hv) by lia. cbn [res_bind]. rewrite value_remainder_of. set (b := Z.testbit _ _).
  assert (Hset : (if b then set_low_bit (limbs_of 5 (2 * (r mod value m))) else Ok (limbs_of 5 (2 * (r mod value m))))
                 = Ok (limbs_of 5 (2 * (r mod value m) + Z.b2z b)) :> res E _).
  { destruct b; [|by rewrite Z.add_0_r]. apply (set_low_bit_spec 4); [apply limbs_of_ok|]. apply value_limbs_of_small. lia. }
  rewrite Hset. cbn [res_bind]. set (x := 2 * (r mod value m) + Z.b2z b).
  assert (Hx : 0 <= x < power 5) by (unfold x; destruct b; cbn [Z.b2z]; lia).
  assert (Hm5 : limbs_ok 5 (m ++ [0])) by (apply (limbs_ok_app 4 1); [done|]; apply (limbs_ok_zeros 1)).
  unfold compare_five_limbs. rewrite (compare_limbs_spec 5) by (done || apply limbs_of_ok).
  unfold remainder_of. rewrite value_limbs_of_small, value_extend, double_mod by (done || destruct b; cbn [Z.b2z]; lia).
  fold x. cbn zeta. destruct (Z.compare_spec x (value m)) as [E1|E1|E1]; destruct (Z.ltb_spec x (value m)); try lia; [|done|];
    by rewrite (subtract_limbs_spec 5), value_limbs_of_small, value_extend
      by (rewrite ?value_limbs_of_small, ?value_extend by done; done || lia || apply limbs_of_ok).
Qed.

Lemma reduce_loop_spec {E : Type} (v : WideUint512) (n : nat) :
  limbs_ok 8 v -> (n <= 512)%nat ->
  res_foldM (reduce_step v (m ++ [0])) (remainder_of (value v / 2 ^ Z.of_nat n)) (rev (seq 0 n)) =
    Ok (remainder_of (value v)) :> res E _.
Proof.
  intros Hv. induction n as [|n IH]; intros Hn; [by rewrite Z.div_1_r|].
  rewrite seq_S, rev_app_distr. cbn [rev app res_foldM Nat.add]. rewrite reduce_step_spec by (done || lia). cbn [res_bind].
  replace (2 * _ + _) with (value v / 2 ^ Z.of_nat n); [apply IH; lia|].
  rewrite Nat2Z.inj_succ, Z.pow_succ_r, (Z.mul_comm 2 (2 ^ _)), <- Z.div_div by lia.
  rewrite Z.testbit_spec' by lia. apply Z.div_mod. lia.
Qed.

Lemma reduce_wide_spec {E : Type} (v : WideUint512) :
  limbs_ok 8 v -> reduce_wide v m = Ok (limbs_of 4 (value v mod value m)) :> res E _.
Proof.
  intros Hv. unfold reduce_wide. pose proof (value_range 8 v Hv) as Hr. change (power 8) with (2 ^ Z.of_nat 512) in Hr.
  pose proof (reduce_loop_spec (E := E) v 512 Hv ltac:(lia)) as H. rewrite Z.div_small in H by done.
  change (remainder_of 0) with (limbs_of 5 (0 mod value m)) in H. rewrite Z.mod_0_l in H by lia.
  change (limbs_of 5 0) with [0; 0; 0; 0; 0] in H. rewrite H. cbn [res_bind]. unfold remainder_of.
  pose proof (remainder_lt (value v)) as Hlt. set (x := value v mod value m) in *.
  rewrite (index_Ok _ _ _ (lookup_limb 5 _ 4 (limbs_of_ok 5 x) ltac:(lia))). cbn [res_bind].
  rewrite value_limbs_of_small by (pose proof power_4_5; lia). rewrite Z.div_small by done. cbn [Z.eqb].
  by rewrite slice_to_Ok by (destruct (limbs_of_ok 5 x) as [-> _]; lia).
Qed.

End remainders.

(** ** Modular arithmetic *)
Section modular.
Variable m : Uint256.
Hypothesis m_ok : limbs_ok 4 m.
Hypothesis m_gt : 1 < value m.

(** The residue of an integer, as limbs. *)
Definition residue (z : Z) : Uint256 := limbs_of 4 (z mod value m).

Lemma residue_ok (z : Z) : limbs_ok 4 (residue z).
Proof. apply limbs_of_ok. Qed.

Lemma value_residue (z : Z) : value (residue z) = z mod value m.
Proof. apply value_limbs_of_small, remainder_lt; [done|lia]. Qed.

Lemma residue_congr (a b : Z) : a mod value m = b mod value m -> residue a = residue b.
Proof. unfold residue. by intros ->. Qed.

Lemma residue_value (l : Uint256) : limbs_ok 4 l -> value l < value m -> residue (value l) = l.
Proof.
  intros Hl Hlt. unfold residue. pose proof (value_range 4 l Hl). rewrite Z.mod_small by lia. by apply limbs_of_value.
Qed.

Lemma reduce_uint_spec {E : Type} (v : Uint256) : limbs_ok 4 v -> reduce_uint v m = Ok (residue (value v)) :> res E _.
Proof.
  intros Hv. unfold reduce_uint. rewrite reduce_wide_spec by (done || lia || apply (limbs_ok_app 4 4 _ _ Hv), (limbs_ok_zeros 4)).
  rewrite value_app. change (value [0; 0; 0; 0]) with 0. by rewrite Z.mul_0_r, Z.add_0_r.
Qed.

Lemma add_mod_spec {E : Type} (l r : Uint256) :
  limbs_ok 4 l -> limbs_ok 4 r -> add_mod l r m = Ok (residue (value l + value r)) :> res E _.
Proof.
  intros Hl Hr. unfold add_mod. pose proof (add_limbs_spec 4 false l r Hl Hr) as [Hok Hv]. unfold overflowing_add.
  destruct (add_limbs false l r) as [o c]. cbn [fst snd] in *.
  rewrite reduce_wide_spec; [|done|lia|].
  - unfold residue. do 3 f_equal. rewrite value_app. destruct Hok as [-> _]. cbn [value carry_value] in *. lia.
  - apply (limbs_ok_app 4 4 _ _ Hok). split; [done|]. repeat constructor; destruct c; done.
Qed.

Lemma sub_mod_spec (l r : Uint256) :
  limbs_ok 4 l -> limbs_ok 4 r -> value l < value m -> value r < value m ->
  sub_mod l r m = residue (value l - value r).
Proof.
  intros Hl Hr Hlm Hrm. unfold sub_mod. rewrite (compare_limbs_spec 4) by done.
  pose proof (value_range 4 l Hl). pose proof (value_range 4 r Hr). pose proof (value_m_lt m m_ok).
  unfold residue. destruct (Z.compare_spec (value l) (value r)) as [E|E|E].
  1,3: rewrite (overflowing_sub_spec 4) by done; cbn [fst]; rewrite !Z.mod_small by lia; done.
  assert (Hd : overflowing_sub r l = (limbs_of 4 (value r - value l), false)).
  { rewrite (overflowing_sub_spec 4), Z.mod_small by (done || lia). by rewrite (proj2 (Z.ltb_ge _ _)) by lia. }
  rewrite Hd. cbn [fst]. rewrite (overflowing_sub_spec 4) by (done || apply limbs_of_ok). cbn [fst].
  rewrite value_limbs_of_small by lia. f_equal. rewrite Z.mod_small by lia.
  apply (Z.mod_unique _ _ (-1)); lia.
Qed.

Lemma mul_mod_spec {E : Type} (l r : Uint256) :
  limbs_ok 4 l -> limbs_ok 4 r -> mul_mod l r m = Ok (residue (value l * value r)) :> res E _.
Proof.
  intros Hl Hr. unfold mul_mod. rewrite multiply_wide_spec by done. cbn [res_bind].
  rewrite reduce_wide_spec by (done || lia || apply limbs_of_ok). unfold residue.
  pose proof (value_range 4 l Hl). pose proof (value_range 4 r Hr).
  assert (power 8 = power 4 * power 4) as Hp by done.
  rewrite value_limbs_of_small; [done|]. rewrite Hp. nia.
Qed.

(** Square and multiply, from the most significant bit of the exponent down. *)
Definition pow_step {E : Type} (base exponent result : Uint256) (bit_index : nat) : res E Uint256 :=
  let? result := mul_mod result result m in
  let? b := bit exponent bit_index in
  if b : bool then mul_mod result base m else Ok result.

Lemma pow_step_spec {E : Type} (b x : Z) (result exponent : Uint256) (i : nat) :
  limbs_ok 4 result -> limbs_ok 4 exponent -> value result mod value m = x mod value m -> (i < 256)%nat ->
  pow_step (residue b) exponent result i =
    Ok (residue (x * x * if Z.testbit (value exponent) (Z.of_nat i) then b else 1)) :> res E _.
Proof.
  intros Hr He Hx Hi. unfold pow_step. rewrite mul_mod_spec by done. cbn [res_bind].
  assert (Hsq : residue (value result * value result) = residue (x * x)).
  { apply residue_congr. by rewrite Z.mul_mod, Hx, <- Z.mul_mod by lia. }
  rewrite Hsq. rewrite (bit_spec 4) by (done || lia). cbn [res_bind].
  destruct (Z.testbit _ _); [|by rewrite Z.mul_1_r].
  rewrite mul_mod_spec by apply residue_ok. f_equal. rewrite !value_residue. apply residue_congr.
  by rewrite <- Z.mul_mod by lia.
Qed.

Lemma pow_square (b e : Z) (c : bool) : 0 <= e ->
  b ^ e * b ^ e * (if c then b else 1) = b ^ (2 * e + Z.b2z c).
Proof.
  intros He. replace (2 * e) with (e + e) by lia. destruct c; cbn [Z.b2z].
  - rewrite <- Z.pow_add_r by lia. by rewrite (Z.pow_add_r b (e + e) 1), Z.pow_1_r by lia.
  - by rewrite Z.add_0_r, Z.mul_1_r, Z.pow_add_r by lia.
Qed.

Lemma pow_loop_spec {E : Type} (b : Z) (exponent result : Uint256) (n : nat) :
  limbs_ok 4 exponent -> limbs_ok 4 result -> (n < 256)%nat ->
  value result mod value m = b ^ (value exponent / 2 ^ Z.of_nat (S n)) mod value m ->
  res_foldM (pow_step (residue b) exponent) result (rev (seq 0 (S n))) = Ok (residue (b ^ value exponent)) :> res E _.
Proof.
  intros He. revert result. induction n as [|n IH]; intros result Hr Hn Hv;
    rewrite seq_S, rev_app_distr; cbn [rev app res_foldM Nat.add];
    rewrite (pow_step_spec _ _ _ _ _ Hr He Hv) by lia; cbn [res_bind];
    pose proof (value_range 4 exponent He);
    rewrite pow_square by (apply Z.div_pos; [lia|apply Z.pow_pos_nonneg; lia]);
    rewrite Nat2Z.inj_succ, Z.pow_succ_r, (Z.mul_comm 2 (2 ^ _)), <- Z.div_div by lia;
    rewrite Z.testbit_spec', <- Z.div_mod by lia.
  - by rewrite Z.pow_0_r, Z.div_1_r.
  - apply IH; [apply residue_ok|lia|]. by rewrite value_residue, Z.mod_mod by lia.
Qed.

Lemma pow_mod_spec {E : Type} (base exponent : Uint256) :
  limbs_ok 4 base -> limbs_ok 4 exponent ->
  pow_mod base exponent m = Ok (residue (value base ^ value exponent)) :> res E _.
Proof.
  intros Hb He. unfold pow_mod. rewrite reduce_uint_spec by done. cbn [res_bind].
  apply (pow_loop_spec (value base) exponent ONE 255); [done| |lia|].
  - by apply limbs_ok_eval.
  - pose proof (value_range 4 exponent He). rewrite Z.div_small by done. by rewrite Z.pow_0_r.
Qed.

Lemma invert_mod_spec {E : Type} (v : Uint256) :
  limbs_ok 4 v ->
  invert_mod v m = Ok (if decide (value v mod value m = 0) then None
                       else Some (residue (value v ^ (value m - 2)))) :> res E _.
Proof.
  intros Hv. unfold invert_mod. rewrite reduce_uint_spec by done. cbn [res_bind].
  assert (Hz : residue (value v) = ZERO <-> value v mod value m = 0).
  { split; intros H; [by rewrite <- value_residue, H|]. unfold residue. by rewrite H. }
  destruct (decide (value v mod value m = 0)) as [E0|E0]; [rewrite bool_decide_true by (by apply Hz); done|].
  rewrite bool_decide_false by (by rewrite Hz).
  assert (H2 : limbs_ok 4 [2; 0; 0; 0]) by (by apply limbs_ok_eval).
  assert (Hexp : (overflowing_sub m [2; 0; 0; 0]).1 = limbs_of 4 (value m - 2)).
  { rewrite (overflowing_sub_spec 4) by done. cbn [fst]. change (value [2; 0; 0; 0]) with 2.
    pose proof (value_m_lt m m_ok). by rewrite Z.mod_small by lia. }
  rewrite Hexp, pow_mod_spec by (apply residue_ok || apply limbs_of_ok). cbn [res_bind]. do 2 f_equal. apply residue_congr.
  pose proof (value_m_lt m m_ok). rewrite value_residue, value_limbs_of_small by lia. apply Z.mod_pow_l.
Qed.

End modular.

(** ** Bytes *)
Lemma concat_limbs (n : nat) (l : list Z) :
  limbs_ok n l -> concat (map (be_bytes 8) (rev l)) = be_bytes (8 * n) (value l).
Proof.
  revert l. induction n as [|n IH]; intros l Hl; [by apply limbs_ok_nil in Hl as ->|].
  apply limbs_ok_S in Hl as (x & l' & -> & Hx & Hl). cbn [rev value]. rewrite map_app, concat_app, (IH _ Hl).
  cbn [map concat]. rewrite app_nil_r. replace (8 * S n)%nat with (8 * n + 8)%nat by lia.
  rewrite be_bytes_app. change (256 ^ Z.of_nat 8) with u64_modulus. unfold is_limb in Hx.
  rewrite (Z.mul_comm u64_modulus), Z.div_add, Z.div_small, Z.add_0_l by (done || lia). f_equal.
  apply be_value_inj; [by rewrite !length_be_bytes|]. rewrite !be_value_be_bytes. change (256 ^ Z.of_nat 8) with u64_modulus.
  by rewrite Z.mod_add.
Qed.

Lemma to_be_bytes_spec (v : Uint256) : limbs_ok 4 v -> to_be_bytes v = be_bytes 32 (value v).
Proof. apply (concat_limbs 4). Qed.

Lemma from_be_bytes_spec {E : Type} (bs : bytes) :
  length bs = 32%nat -> from_be_bytes bs = Ok (limbs_of 4 (be_value 0 bs)) :> res E _.
Proof.
  intros Hl. rewrite <- (take_drop 8 bs), <- (take_drop 8 (drop 8 bs)), <- (take_drop 8 (drop 8 (drop 8 bs))).
  rewrite !drop_drop. cbn [Nat.add]. set (a := take 8 bs). set (b := take 8 (drop 8 bs)).
  set (c := take 8 (drop 16 bs)). set (d := drop 24 bs).
  assert (La : length a = 8%nat) by (unfold a; rewrite length_take; lia).
  assert (Lb : length b = 8%nat) by (unfold b; rewrite length_take, length_drop; lia).
  assert (Lc : length c = 8%nat) by (unfold c; rewrite length_take, length_drop; lia).
  assert (Ld : length d = 8%nat) by (unfold d; rewrite length_drop; lia).
  clearbody a b c d. clear Hl bs.
  assert (Hs : forall pre part post : bytes, length part = 8%nat ->
    slice (pre ++ part ++ post) (length pre) (length pre + 8) = Ok part :> res E _).
  { intros pre part post Hp. rewrite slice_Ok by (rewrite ?length_app; lia). rewrite drop_app_length.
    replace (length pre + 8 - length pre)%nat with (length part) by lia. by rewrite take_app_length. }
  pose proof (Hs (a ++ b ++ c) d [] Ld) as H0. pose proof (Hs (a ++ b) c d Lc) as H1.
  pose proof (Hs a b (c ++ d) Lb) as H2. pose proof (Hs [] a (b ++ c ++ d) La) as H3. clear Hs.
  rewrite app_nil_r, <- !app_assoc, !length_app, La, Lb, Lc in H0. rewrite <- !app_assoc, !length_app, La, Lb in H1.
  rewrite La in H2. cbn [app length Nat.add] in H0, H1, H2, H3.
  unfold from_be_bytes. cbn [seq res_mapM Nat.add Nat.mul Nat.sub]. rewrite H0. cbn [res_bind]. rewrite H1. cbn [res_bind].
  rewrite H2. cbn [res_bind]. rewrite H3. cbn [res_bind]. f_equal.
  assert (Hb : forall x : bytes, length x = 8%nat -> is_limb (be_value 0 x)).
  { intros x Hx. pose proof (be_value_range x) as Hr. unfold len in Hr. by rewrite Hx in Hr. }
  apply (value_inj 4).
  - split; [done|]. repeat constructor; by apply Hb.
  - apply limbs_of_ok.
  - rewrite value_limbs_of. cbn [value]. rewrite !be_value_app, (be_value_acc (be_value (be_value _ b) c) d),
      (be_value_acc (be_value _ b) c), (be_value_acc (be_value 0 a) b). unfold len. rewrite Lb, Lc, Ld.
    change (256 ^ Z.of_nat 8) with u64_modulus. pose proof (Hb a La). pose proof (Hb b Lb). pose proof (Hb c Lc).
    pose proof (Hb d Ld). unfold is_limb in *. change (power 4) with (u64_modulus * u64_modulus * u64_modulus * u64_modulus).
    rewrite Z.mod_small; [ring|]. unfold u64_modulus in *. lia.
Qed.

(** The two conversions are inverse to one another. *)
Lemma be_bytes_limbs {E : Type} (v : Uint256) : limbs_ok 4 v -> from_be_bytes (to_be_bytes v) = Ok v :> res E _.
Proof.
  intros Hv. rewrite to_be_bytes_spec, from_be_bytes_spec by (done || apply length_be_bytes). f_equal.
  rewrite be_value_be_bytes, Z.mod_small by apply (value_range 4 v Hv). by apply limbs_of_value.
Qed.

Lemma limbs_be_bytes (bs : bytes) : length bs = 32%nat -> to_be_bytes (limbs_of 4 (be_value 0 bs)) = bs.
Proof.
  intros Hl. rewrite to_be_bytes_spec by apply limbs_of_ok. pose proof (be_value_range bs) as Hr. unfold len in Hr. rewrite Hl in Hr.
  rewrite value_limbs_of_small by exact Hr. rewrite <- Hl at 1. apply be_bytes_be_value.
Qed.

(** ** What the arithmetic computes *)

(** C22: 256-bit sums and differences wrap around at [2^256] and say when they do; a product of two 256-bit
    integers is exact in 512 bits, and no 128-bit intermediate of it overflows; the order is that of the
    integers. *)
Theorem uint256_width {E : Type} (l r : Uint256) :
  limbs_ok 4 l -> limbs_ok 4 r ->
  overflowing_add l r = (limbs_of 4 ((value l + value r) mod 2 ^ 256), 2 ^ 256 <=? value l + value r) /\
  overflowing_sub l r = (limbs_of 4 ((value l - value r) mod 2 ^ 256), value l <? value r) /\
  (exists o, multiply_wide l r = Ok o :> res E _ /\ limbs_ok 8 o /\ value o = value l * value r) /\
  compare_limbs l r = (value l ?= value r).
Proof.
  intros Hl Hr. change (2 ^ 256) with (power 4).
  split_and!; [by apply overflowing_add_spec|by apply overflowing_sub_spec| |by apply (compare_limbs_spec 4)].
  exists (limbs_of 8 (value l * value r)). split_and!; [by apply multiply_wide_spec|apply limbs_of_ok|].
  apply value_limbs_of_small. pose proof (value_range 4 l Hl). pose proof (value_range 4 r Hr).
  assert (power 8 = power 4 * power 4) as -> by done. nia.
Qed.

Lemma uint256_width_witness :
  limbs_ok 4 (limbs_of 4 (-1)) /\
  overflowing_add (limbs_of 4 (-1)) ONE =
    (limbs_of 4 ((value (limbs_of 4 (-1)) + value ONE) mod 2 ^ 256), 2 ^ 256 <=? value (limbs_of 4 (-1)) + value ONE).
Proof.
  split; [apply limbs_of_ok|].
  apply (uint256_width (E := unit) (limbs_of 4 (-1)) ONE); [apply limbs_of_ok|by apply limbs_ok_eval].
Defined.

(** C21: the modular operations return, and compute the residue of the integer operation: reduction, sum,
    product and power of any two integers, and the difference of two residues. *)
Theorem modular_arithmetic_exact {E : Type} (m l r : Uint256) :
  limbs_ok 4 m -> 1 < value m -> limbs_ok 4 l -> limbs_ok 4 r ->
  reduce_uint l m = Ok (residue m (value l)) :> res E _ /\
  add_mod l r m = Ok (residue m (value l + value r)) :> res E _ /\
  mul_mod l r m = Ok (residue m (value l * value r)) :> res E _ /\
  pow_mod l r m = Ok (residue m (value l ^ value r)) :> res E _ /\
  (value l < value m -> value r < value m -> sub_mod l r m = residue m (value l - value r)).
Proof.
  intros Hm Hgt Hl Hr. split_and!; [by apply reduce_uint_spec|by apply add_mod_spec|by apply mul_mod_spec|by apply pow_mod_spec|].
  by apply sub_mod_spec.
Qed.

Lemma modular_arithmetic_exact_witness :
  limbs_ok 4 [7; 0; 0; 0] /\ 1 < value [7; 0; 0; 0] /\
  mul_mod [5; 0; 0; 0] [4; 0; 0; 0] [7; 0; 0; 0] = Ok (residue [7; 0; 0; 0] (value [5; 0; 0; 0] * value [4; 0; 0; 0])) :> res unit _.
Proof.
  split; [by apply limbs_ok_eval|]. split; [done|].
  apply (modular_arithmetic_exact (E := unit) [7; 0; 0; 0] [5; 0; 0; 0] [4; 0; 0; 0]); [by apply limbs_ok_eval|done|by apply limbs_ok_eval..].
Defined.
