(* ===== verification/Sha256.v ===== *)
(** * Hashing: [src/crypto.rs]

    SHA-256 as the code streams it (blocks are compressed as soon as they are full, the rest waits
    in a buffer), HMAC, HKDF and the labels of TLS 1.3. 32-bit words are integers below [2^32] and
    wrap around; the wiping of buffers that are not used again is left out. *)
From Stdlib Require Import ZArith Lia.
From stdpp Require Import prelude.
From S2P Require Import Prelude Bytes.
Local Open Scope Z_scope.
Set Warnings "-clear-no-such-hyp".

(** ** 32-bit words *)
Definition u32_modulus : Z := 4294967296.
Definition wrapping_add32 (a b : Z) : Z := (a + b) mod u32_modulus.
Definition not32 (a : Z) : Z := Z.lxor a u32_max.
Definition rotate_right (a n : Z) : Z := Z.lor (Z.shiftr a n) (Z.shiftl a (32 - n) mod u32_modulus).
Definition rotate_left (a n : Z) : Z := Z.lor (Z.shiftl a n mod u32_modulus) (Z.shiftr a (32 - n)).

(** ** Constants *)
Definition SHA256_BLOCK_SIZE : nat := 64.
Definition SHA256_LENGTH_OFFSET : nat := 56.
Definition SHA256_DIGEST_SIZE : nat := 32.
Definition HMAC_INNER_PAD_BYTE : byte := x36.
Definition HMAC_OUTER_PAD_BYTE : byte := x5c.
Definition HKDF_MAX_OUTPUT_SIZE : Z := 255 * 32.
Definition TLS13_LABEL_PREFIX : bytes := str "tls13 ".
Definition TLS13_MAX_LABEL_SIZE : Z := u8_max - len TLS13_LABEL_PREFIX.
Definition TLS13_MAX_CONTEXT_SIZE : Z := u8_max.

Definition SHA256_INITIAL_STATE : list Z :=
  [0x6a09e667; 0xbb67ae85; 0x3c6ef372; 0xa54ff53a; 0x510e527f; 0x9b05688c; 0x1f83d9ab; 0x5be0cd19].

(** Eight words, a row of the table, written as one number. *)
Definition row_words (row : Z) : list Z := map (fun i => Z.shiftr row (32 * (7 - Z.of_nat i)) mod u32_modulus) (seq 0 8).

Definition SHA256_ROUND_CONSTANTS : list Z :=
  Eval vm_compute in concat (map row_words [
    0x428a2f98_71374491_b5c0fbcf_e9b5dba5_3956c25b_59f111f1_923f82a4_ab1c5ed5;
    0xd807aa98_12835b01_243185be_550c7dc3_72be5d74_80deb1fe_9bdc06a7_c19bf174;
    0xe49b69c1_efbe4786_0fc19dc6_240ca1cc_2de92c6f_4a7484aa_5cb0a9dc_76f988da;
    0x983e5152_a831c66d_b00327c8_bf597fc7_c6e00bf3_d5a79147_06ca6351_14292967;
    0x27b70a85_2e1b2138_4d2c6dfc_53380d13_650a7354_766a0abb_81c2c92e_92722c85;
    0xa2bfe8a1_a81a664b_c24b8b70_c76c51a3_d192e819_d6990624_f40e3585_106aa070;
    0x19a4c116_1e376c08_2748774c_34b0bcb5_391c0cb3_4ed8aa4a_5b9cca4f_682e6ff3;
    0x748f82ee_78a5636f_84c87814_8cc70208_90befffa_a4506ceb_bef9a3f7_c67178f2]).

(** ** The compression function *)
Definition choice (x y z : Z) : Z := Z.lxor (Z.land x y) (Z.land (not32 x) z).
Definition majority (x y z : Z) : Z := Z.lxor (Z.lxor (Z.land x y) (Z.land x z)) (Z.land y z).
Definition big_sigma0 (v : Z) : Z := Z.lxor (Z.lxor (rotate_right v 2) (rotate_right v 13)) (rotate_right v 22).
Definition big_sigma1 (v : Z) : Z := Z.lxor (Z.lxor (rotate_right v 6) (rotate_right v 11)) (rotate_right v 25).
Definition small_sigma0 (v : Z) : Z := Z.lxor (Z.lxor (rotate_right v 7) (rotate_right v 18)) (Z.shiftr v 3).
Definition small_sigma1 (v : Z) : Z := Z.lxor (Z.lxor (rotate_right v 17) (rotate_right v 19)) (Z.shiftr v 10).

(** The schedule is filled in order; [schedule] is the part already filled. *)
Definition schedule_word {E : Type} (schedule : list Z) (i : nat) : res E (list Z) :=
  let? w2 := index schedule (i - 2) in
  let? w7 := index schedule (i - 7) in
  let? w15 := index schedule (i - 15) in
  let? w16 := index schedule (i - 16) in
  Ok (schedule ++ [wrapping_add32 (wrapping_add32 (wrapping_add32 (small_sigma1 w2) w7) (small_sigma0 w15)) w16]).

Definition message_schedule {E : Type} (block : bytes) : res E (list Z) :=
  res_foldM schedule_word (map (be_value 0) (chunks_exact 4 block).1) (seq 16 48).

Definition Working : Type := Z * Z * Z * Z * Z * Z * Z * Z.

Definition round {E : Type} (schedule : list Z) (w : Working) (i : nat) : res E Working :=
  let '(a, b, c, d, e, f, g, h) := w in
  let? k := index SHA256_ROUND_CONSTANTS i in
  let? s := index schedule i in
  let temporary1 :=
    wrapping_add32 (wrapping_add32 (wrapping_add32 (wrapping_add32 h (big_sigma1 e)) (choice e f g)) k) s in
  let temporary2 := wrapping_add32 (big_sigma0 a) (majority a b c) in
  Ok (wrapping_add32 temporary1 temporary2, a, b, c, wrapping_add32 d temporary1, e, f, g).

Definition compress_block {E : Type} (state : list Z) (block : bytes) : res E (list Z) :=
  let? schedule := message_schedule block in
  match state with
  | [s0; s1; s2; s3; s4; s5; s6; s7] =>
      let? w := res_foldM (round schedule) (s0, s1, s2, s3, s4, s5, s6, s7) (seq 0 64) in
      let '(a, b, c, d, e, f, g, h) := w in
      Ok [wrapping_add32 s0 a; wrapping_add32 s1 b; wrapping_add32 s2 c; wrapping_add32 s3 d;
          wrapping_add32 s4 e; wrapping_add32 s5 f; wrapping_add32 s6 g; wrapping_add32 s7 h]
  | _ => Panic
  end.

(** ** Streaming *)
Record Sha256 : Type := mkSha256 {
  state : list Z;
  buffer : bytes;
  buffer_len : nat;
  message_len_bytes : Z
}.

Definition new : Sha256 := mkSha256 SHA256_INITIAL_STATE (repeat x00 SHA256_BLOCK_SIZE) 0 0.

(** The whole blocks of the input, and the rest into the buffer. *)
Definition update_blocks {E : Type} (h : Sha256) (input : bytes) : res E Sha256 :=
  let '(blocks, remainder) := chunks_exact SHA256_BLOCK_SIZE input in
  let? state := res_foldM compress_block (state h) blocks in
  let? buffer := copy_from_slice (buffer h) 0 (length remainder) remainder in
  Ok (mkSha256 state buffer (length remainder) (message_len_bytes h)).

Definition update {E : Type} (h : Sha256) (input : bytes) : res E Sha256 :=
  let? message_len_bytes :=
    expect (option_filter (fun n => n <=? u64_max / 8) (checked_add u64_max (message_len_bytes h) (len input))) in
  let h := mkSha256 (state h) (buffer h) (buffer_len h) message_len_bytes in
  if negb (buffer_len h =? 0)%nat then
    let available := (SHA256_BLOCK_SIZE - buffer_len h)%nat in
    let bytes_to_copy := Nat.min available (length input) in
    let? buffer := copy_from_slice (buffer h) (buffer_len h) (buffer_len h + bytes_to_copy) (take bytes_to_copy input) in
    let buffer_len := (buffer_len h + bytes_to_copy)%nat in
    let input := drop bytes_to_copy input in
    if negb (buffer_len =? SHA256_BLOCK_SIZE)%nat
    then Ok (mkSha256 (state h) buffer buffer_len message_len_bytes)
    else
      let? state := compress_block (state h) buffer in
      update_blocks (mkSha256 state buffer 0 message_len_bytes) input
  else update_blocks h input.

(** [buffer[start..].fill(0)] and the like. *)
Definition fill {E : Type} (l : bytes) (i j : nat) : res E bytes := copy_from_slice l i j (repeat x00 (j - i)).

Definition finalize {E : Type} (h : Sha256) : res E bytes :=
  let? message_len_bits := expect (checked_mul u64_max (message_len_bytes h) 8) in
  let? buf := copy_from_slice (buffer h) (buffer_len h) (buffer_len h + 1) [x80] in
  let used := (buffer_len h + 1)%nat in
  let? (st, buf, used) :=
    if (SHA256_LENGTH_OFFSET <? used)%nat then
      let? buf := fill buf used (length buf) in
      let? st := compress_block (state h) buf in
      let? buf := fill buf 0 (length buf) in
      Ok (st, buf, 0%nat)
    else Ok (state h, buf, used) in
  let? buf := fill buf used SHA256_LENGTH_OFFSET in
  let? buf := copy_from_slice buf SHA256_LENGTH_OFFSET (length buf) (be_bytes 8 message_len_bits) in
  let? st := compress_block st buf in
  Ok (concat (map (be_bytes 4) st)).

Definition sha256 {E : Type} (input : bytes) : res E bytes :=
  let? h := update new input in
  finalize h.

(** ** HMAC *)
Definition xor_byte (a b : byte) : byte := of_u8 (Z.lxor (u8 a) (u8 b)).

Definition hmac_sha256_parts {E : Type} (key : bytes) (data_parts : list bytes) : res E bytes :=
  let key_block := repeat x00 SHA256_BLOCK_SIZE in
  let? key_block :=
    if (SHA256_BLOCK_SIZE <? length key)%nat then
      let? hashed_key := sha256 key in
      copy_from_slice key_block 0 (length hashed_key) hashed_key
    else copy_from_slice key_block 0 (length key) key in
  let inner_pad := map (fun b => xor_byte b HMAC_INNER_PAD_BYTE) key_block in
  let outer_pad := map (fun b => xor_byte b HMAC_OUTER_PAD_BYTE) key_block in
  let? inner := update new inner_pad in
  let? inner := res_foldM update inner data_parts in
  let? inner_digest := finalize inner in
  let? outer := update new outer_pad in
  let? outer := update outer inner_digest in
  finalize outer.

Definition hmac_sha256 {E : Type} (key data : bytes) : res E bytes := hmac_sha256_parts key [data].

(** ** HKDF *)
Inductive HkdfError : Type :=
| PrkTooShort (length : Z)
| OutputTooLong (length : Z)
| TlsLabelEmpty
| TlsLabelTooLong (length : Z)
| TlsContextTooLong (length : Z).

Definition hkdf_error_to_string (e : HkdfError) : bytes :=
  match e with
  | PrkTooShort n => str "HKDF-SHA256 PRK must be at least " ++ to_dec 32 ++ str " bytes, got " ++ to_dec n
  | OutputTooLong n =>
      str "HKDF-SHA256 output cannot exceed " ++ to_dec HKDF_MAX_OUTPUT_SIZE ++ str " bytes, got " ++ to_dec n
  | TlsLabelEmpty => str "TLS 1.3 HKDF label cannot be empty"
  | TlsLabelTooLong n =>
      str "TLS 1.3 HKDF label cannot exceed " ++ to_dec TLS13_MAX_LABEL_SIZE ++ str " bytes, got " ++ to_dec n
  | TlsContextTooLong n =>
      str "TLS 1.3 HKDF context cannot exceed " ++ to_dec TLS13_MAX_CONTEXT_SIZE ++ str " bytes, got " ++ to_dec n
  end.

Definition hkdf_extract_sha256 {E : Type} (salt ikm : bytes) : res E bytes := hmac_sha256 salt ikm.

(** [u8::try_from], [u16::try_from], with [expect]. *)
Definition try_from {E : Type} (bound n : Z) : res E Z := if n <=? bound then Ok n else Panic.

Definition expand_block {E : Type} (prk info : bytes) (size : Z) (s : bytes * bytes) (block_index : nat) : res E (bytes * bytes) :=
  let '(output, previous_block) := s in
  let? counter := try_from u8_max (Z.of_nat block_index) in
  let? next_block :=
    if (block_index =? 1)%nat then hmac_sha256_parts prk [info; [of_u8 counter]]
    else hmac_sha256_parts prk [previous_block; info; [of_u8 counter]] in
  let remaining := size - len output in
  let bytes_to_copy := Z.to_nat (Z.min remaining 32) in
  let? part := slice_to next_block bytes_to_copy in
  Ok (output ++ part, next_block).

Definition div_ceil (a b : Z) : Z := (a + b - 1) / b.

Definition hkdf_expand_sha256 (prk info : bytes) (length : Z) : res HkdfError bytes :=
  if len prk <? 32 then Err (PrkTooShort (len prk))
  else if HKDF_MAX_OUTPUT_SIZE <? length then Err (OutputTooLong length)
  else
    let block_count := Z.to_nat (div_ceil length 32) in
    let? (output, _) :=
      res_foldM (expand_block prk info length) ([], repeat x00 SHA256_DIGEST_SIZE) (seq 1 block_count) in
    Ok output.

Definition build_tls13_hkdf_label (label context : bytes) (length : Z) : res HkdfError bytes :=
  if bool_decide (label = []) then Err TlsLabelEmpty
  else if TLS13_MAX_LABEL_SIZE <? len label then Err (TlsLabelTooLong (len label))
  else if TLS13_MAX_CONTEXT_SIZE <? len context then Err (TlsContextTooLong (len context))
  else
    let? encoded_length := try_from u16_max length in
    let full_label_length := len TLS13_LABEL_PREFIX + len label in
    let? encoded_label_length := try_from u8_max full_label_length in
    let? encoded_context_length := try_from u8_max (len context) in
    Ok (be_bytes 2 encoded_length ++ [of_u8 encoded_label_length] ++ TLS13_LABEL_PREFIX ++ label ++
        [of_u8 encoded_context_length] ++ context).

Definition tls13_hkdf_expand_label_sha256 (secret label context : bytes) (length : Z) : res HkdfError bytes :=
  if HKDF_MAX_OUTPUT_SIZE <? length then Err (OutputTooLong length)
  else
    let? info := build_tls13_hkdf_label label context length in
    hkdf_expand_sha256 secret info length.

(** ** The compression function returns *)
Lemma schedule_word_Ok {E : Type} (w : list Z) (i : nat) :
  length w = i -> (16 <= i)%nat -> exists x, schedule_word w i = Ok (w ++ [x]) :> res E _.
Proof.
  intros Hl Hi. unfold schedule_word.
  assert (Hx : forall k, (k < i)%nat -> exists x, index w k = Ok x :> res E _).
  { intros k Hk. destruct (lookup_lt_is_Some_2 w k ltac:(lia)) as [x Hx]. exists x. by apply index_Ok. }
  destruct (Hx (i - 2)%nat ltac:(lia)) as [x2 ->], (Hx (i - 7)%nat ltac:(lia)) as [x7 ->],
    (Hx (i - 15)%nat ltac:(lia)) as [x15 ->], (Hx (i - 16)%nat ltac:(lia)) as [x16 ->]. cbn [res_bind]. by eexists.
Qed.

Lemma schedule_loop_Ok {E : Type} (n : nat) (w : list Z) (i : nat) :
  length w = i -> (16 <= i)%nat -> exists w', res_foldM schedule_word w (seq i n) = Ok w' :> res E _ /\ length w' = (i + n)%nat.
Proof.
  revert w i. induction n as [|n IH]; intros w i Hl Hi; [exists w; split; [done|lia]|]. cbn [seq res_foldM].
  destruct (schedule_word_Ok (E := E) w i Hl Hi) as [x ->]. cbn [res_bind].
  destruct (IH (w ++ [x]) (S i)) as (w' & -> & Hw'); [rewrite length_app; simpl; lia|lia|]. exists w'. split; [done|lia].
Qed.

Lemma message_schedule_Ok {E : Type} (block : bytes) :
  length block = 64%nat -> exists w, message_schedule block = Ok w :> res E _ /\ length w = 64%nat.
Proof.
  intros Hb. unfold message_schedule. pose proof (length_chunks_exact 4 block ltac:(lia)) as Hl.
  destruct (chunks_exact_spec 4 block ltac:(lia)) as (_ & _ & Hr).
  destruct (schedule_loop_Ok (E := E) 48 (map (be_value 0) (chunks_exact 4 block).1) 16) as (w & -> & Hw); [|lia|by exists w].
  rewrite length_map. lia.
Qed.

Lemma rounds_Ok {E : Type} (schedule : list Z) (w : Working) (l : list nat) :
  Forall (fun i => i < 64)%nat l -> length schedule = 64%nat -> exists w', res_foldM (round schedule) w l = Ok w' :> res E _.
Proof.
  intros Hl Hs. revert w. induction Hl as [|i l Hi Hl IH]; intros w; [by exists w|]. cbn [res_foldM].
  destruct w as [[[[[[[a b] c] d] e] f] g] h]. unfold round at 1.
  destruct (lookup_lt_is_Some_2 SHA256_ROUND_CONSTANTS i ltac:(simpl; lia)) as [k Hk].
  destruct (lookup_lt_is_Some_2 schedule i ltac:(lia)) as [s Hsi].
  rewrite (index_Ok _ _ _ Hk), (index_Ok _ _ _ Hsi). cbn [res_bind]. apply IH.
Qed.

Lemma compress_block_Ok {E : Type} (st : list Z) (block : bytes) :
  length st = 8%nat -> length block = 64%nat ->
  exists st', compress_block st block = Ok st' :> res E _ /\ length st' = 8%nat.
Proof.
  intros Hst Hb. unfold compress_block. destruct (message_schedule_Ok (E := E) block Hb) as (w & -> & Hw). cbn [res_bind].
  do 8 (destruct st as [|? st]; [discriminate Hst|]). destruct st; [|discriminate Hst].
  edestruct (rounds_Ok (E := E) w) as [w' ->]; [|done|].
  - apply Forall_forall. intros i Hi%elem_of_seq. lia.
  - cbn [res_bind]. destruct w' as [[[[[[[? ?] ?] ?] ?] ?] ?] ?]. by eexists.
Qed.

Lemma compress_blocks_Ok {E : Type} (st : list Z) (blocks : list bytes) :
  length st = 8%nat -> Forall (fun b => length b = 64%nat) blocks ->
  exists st', res_foldM compress_block st blocks = Ok st' :> res E _ /\ length st' = 8%nat.
Proof.
  intros Hst Hb. revert st Hst. induction Hb as [|b blocks Hb Hbs IH]; intros st Hst; [by exists st|]. cbn [res_foldM].
  destruct (compress_block_Ok (E := E) st b Hst Hb) as (st' & -> & Hst'). cbn [res_bind]. by apply IH.
Qed.

(** ** The hash of a message, block by block *)
Definition blocks (m : bytes) : list bytes := (chunks_exact 64 m).1.
Definition rest (m : bytes) : bytes := (chunks_exact 64 m).2.

Definition padding (n : nat) : bytes :=
  [x80] ++ repeat x00 ((119 - n mod 64) mod 64) ++ be_bytes 8 (8 * Z.of_nat n).

Definition digest {E : Type} (m : bytes) : res E bytes :=
  let? st := res_foldM compress_block SHA256_INITIAL_STATE (blocks (m ++ padding (length m))) in
  Ok (concat (map (be_bytes 4) st)).

Lemma length_concat_words (st : list Z) : length (concat (map (be_bytes 4) st)) = (4 * length st)%nat.
Proof. induction st as [|w st IH]; [done|]. cbn [map concat length]. rewrite length_app, length_be_bytes, IH. lia. Qed.

Lemma digest_Ok {E : Type} (m : bytes) : exists d, digest m = Ok d :> res E _ /\ length d = 32%nat.
Proof.
  unfold digest. destruct (compress_blocks_Ok (E := E) SHA256_INITIAL_STATE (blocks (m ++ padding (length m)))) as (st & -> & Hst);
    [done|apply (chunks_exact_spec 64); lia|].
  cbn [res_bind]. eexists. split; [done|]. rewrite length_concat_words. lia.
Qed.

Section streaming.
Context {E : Type}.

(** The state after [m] has been absorbed. *)
Record absorbed (h : Sha256) (m : bytes) : Prop := {
  absorbed_state : res_foldM compress_block SHA256_INITIAL_STATE (blocks m) = Ok (state h) :> res E _;
  absorbed_words : length (state h) = 8%nat;
  absorbed_buffer : length (buffer h) = 64%nat;
  absorbed_rest : take (buffer_len h) (buffer h) = rest m;
  absorbed_len : buffer_len h = length (rest m);
  absorbed_total : message_len_bytes h = len m
}.

Lemma absorbed_new : absorbed new [].
Proof. by split. Qed.

Lemma rest_lt (m : bytes) : (length (rest m) < 64)%nat.
Proof. apply (chunks_exact_spec 64). lia. Qed.

Lemma blocks_more (m k : bytes) : blocks (m ++ k) = blocks m ++ blocks (rest m ++ k).
Proof. unfold blocks. by rewrite (chunks_exact_more 64) by lia. Qed.

Lemma rest_more (m k : bytes) : rest (m ++ k) = rest (rest m ++ k).
Proof. unfold rest. by rewrite (chunks_exact_more 64) by lia. Qed.

Lemma blocks_short (m : bytes) : (length m < 64)%nat -> blocks m = [].
Proof. intros H. unfold blocks. by rewrite chunks_exact_short. Qed.

Lemma rest_short (m : bytes) : (length m < 64)%nat -> rest m = m.
Proof. intros H. unfold rest. by rewrite chunks_exact_short. Qed.

Lemma blocks_cons (b m : bytes) : length b = 64%nat -> blocks (b ++ m) = b :: blocks m.
Proof. intros H. unfold blocks. by rewrite (chunks_exact_app 64) by (lia || done). Qed.

Lemma rest_cons (b m : bytes) : length b = 64%nat -> rest (b ++ m) = rest m.
Proof. intros H. unfold rest. by rewrite (chunks_exact_app 64) by (lia || done). Qed.

Lemma one_block (b : bytes) : length b = 64%nat -> blocks b = [b] /\ rest b = [].
Proof. intros H. unfold blocks, rest. rewrite <- (app_nil_r b), (chunks_exact_app 64 b []) by (lia || done). by rewrite app_nil_r. Qed.

Lemma foldM_app_Ok (st st' : list Z) (bs cs : list bytes) :
  res_foldM compress_block st bs = Ok st' :> res E _ ->
  res_foldM compress_block st (bs ++ cs) = res_foldM compress_block st' cs :> res E _.
Proof. intros H. by rewrite res_foldM_app, H. Qed.

Lemma update_blocks_spec (h : Sha256) (m input : bytes) :
  res_foldM compress_block SHA256_INITIAL_STATE (blocks m) = Ok (state h) :> res E _ ->
  length (state h) = 8%nat -> length (buffer h) = 64%nat -> rest m = [] -> message_len_bytes h = len (m ++ input) ->
  exists h', update_blocks h input = Ok h' :> res E _ /\ absorbed h' (m ++ input).
Proof.
  intros Hst Hw Hb Hr Hl. unfold update_blocks. change SHA256_BLOCK_SIZE with 64%nat.
  pose proof (chunks_exact_spec 64 input ltac:(lia)) as (_ & Hf & Hlt).
  assert (Hbl : blocks (m ++ input) = blocks m ++ (chunks_exact 64 input).1) by (by rewrite blocks_more, Hr).
  assert (Hre : rest (m ++ input) = (chunks_exact 64 input).2) by (by rewrite rest_more, Hr).
  destruct (chunks_exact 64 input) as [cs r]. cbn [fst snd] in *.
  destruct (compress_blocks_Ok (E := E) (state h) cs Hw Hf) as (st & Hst' & Hw'). rewrite Hst'. cbn [res_bind].
  rewrite copy_from_slice_Ok by lia. rewrite take_0, app_nil_l. cbn [res_bind]. eexists. split; [done|]. split; cbn; [..|done].
  - by rewrite Hbl, (foldM_app_Ok _ _ _ _ Hst).
  - done.
  - rewrite length_app, length_drop. lia.
  - by rewrite take_app_length, Hre.
  - by rewrite Hre.
Qed.

Lemma update_spec (h : Sha256) (m input : bytes) :
  absorbed h m -> len m + len input <= u64_max / 8 ->
  exists h', update h input = Ok h' :> res E _ /\ absorbed h' (m ++ input).
Proof.
  intros [Hst Hw Hb Hr Hbl Ht] Hlim. unfold update. rewrite Ht.
  assert (Hu : u64_max / 8 <= u64_max) by done.
  unfold checked_add. rewrite (proj2 (Z.leb_le _ _) (Z.le_trans _ _ _ Hlim Hu)). cbn [option_filter].
  rewrite (proj2 (Z.leb_le _ _) Hlim). cbn [expect res_bind state buffer buffer_len]. pose proof (rest_lt m) as Hlt.
  destruct (Nat.eqb_spec (buffer_len h) 0) as [H0|H0]; cbn [negb].
  - apply update_blocks_spec; cbn; try done; [|by rewrite len_app]. apply length_zero_iff_nil. congruence.
  - change SHA256_BLOCK_SIZE with 64%nat. set (n := Nat.min (64 - buffer_len h) (length input)).
    rewrite copy_from_slice_Ok by (rewrite ?length_take; lia). cbn [res_bind]. rewrite Hr.
    set (buf := rest m ++ take n input ++ drop (buffer_len h + n) (buffer h)).
    assert (Hbuf : length buf = 64%nat) by (unfold buf; rewrite !length_app, length_take, length_drop; lia).
    destruct (Nat.eqb_spec (buffer_len h + n) 64) as [Hf|Hf]; cbn [negb].
    + assert (Ebuf : buf = rest m ++ take n input) by (unfold buf; rewrite (drop_ge (buffer h)), app_nil_r by lia; done).
      destruct (compress_block_Ok (E := E) (state h) buf Hw Hbuf) as (st & Hc & Hw'). rewrite Hc. cbn [res_bind].
      assert (Hm : blocks (m ++ take n input) = blocks m ++ [buf] /\ rest (m ++ take n input) = []).
      { rewrite blocks_more, rest_more, <- Ebuf. destruct (one_block buf Hbuf) as [-> ->]. done. }
      destruct Hm as [Hm1 Hm2].
      destruct (update_blocks_spec (mkSha256 st buf 0 (len m + len input)) (m ++ take n input) (drop n input))
        as (h' & Hh' & Ha); cbn; try done.
      * rewrite Hm1, (foldM_app_Ok _ _ _ _ Hst). cbn [res_foldM]. by rewrite Hc.
      * rewrite <- app_assoc, take_drop. by rewrite len_app.
      * exists h'. split; [done|]. by rewrite <- app_assoc, take_drop in Ha.
    + assert (Hn : n = length input) by lia. eexists. split; [done|].
      assert (Hs : (length (rest m ++ input) < 64)%nat) by (rewrite length_app; lia).
      assert (Ein : take n input = input) by (rewrite Hn; apply firstn_all).
      split; cbn; try done.
      * by rewrite blocks_more, (blocks_short _ Hs), app_nil_r.
      * rewrite rest_more, (rest_short _ Hs). unfold buf. rewrite Ein, app_assoc. apply take_app_length'.
        rewrite length_app. lia.
      * rewrite rest_more, (rest_short _ Hs), length_app. lia.
      * by rewrite len_app.
Qed.

Lemma length_rest (m : bytes) : length (rest m) = (length m mod 64)%nat.
Proof.
  pose proof (length_chunks_exact 64 m ltac:(lia)) as H. pose proof (rest_lt m) as Hlt. unfold rest in *.
  apply (Nat.mod_unique _ _ (length (chunks_exact 64 m).1)); lia.
Qed.

(** The padding in terms of what remains in the buffer. *)
Lemma padding_rest (m : bytes) :
  padding (length m) =
    [x80] ++ repeat x00 (if (56 <? length (rest m) + 1)%nat then 119 - length (rest m) else 55 - length (rest m))
      ++ be_bytes 8 (8 * len m).
Proof.
  unfold padding. rewrite <- length_rest. pose proof (rest_lt m) as Hlt. set (b := length (rest m)) in *. do 4 f_equal.
  destruct (Nat.ltb_spec 56 (b + 1)); [by apply Nat.mod_small; lia|].
  replace (119 - b)%nat with (55 - b + 1 * 64)%nat by lia. rewrite Nat.Div0.mod_add. apply Nat.mod_small. lia.
Qed.

Lemma fill_Ok (l : bytes) (i j : nat) : (i <= j)%nat -> (j <= length l)%nat ->
  fill l i j = Ok (take i l ++ repeat x00 (j - i) ++ drop j l) :> res E _.
Proof. intros. unfold fill. apply copy_from_slice_Ok; [done|done|apply repeat_length]. Qed.

Lemma absorbed_digest (h : Sha256) (m : bytes) :
  absorbed h m -> digest m = (let? st := res_foldM compress_block (state h) (blocks (rest m ++ padding (length m))) in
                              Ok (concat (map (be_bytes 4) st))) :> res E _.
Proof. intros [Hst _ _ _ _ _]. unfold digest. by rewrite blocks_more, (foldM_app_Ok _ _ _ _ Hst). Qed.

Lemma finalize_spec (h : Sha256) (m : bytes) :
  absorbed h m -> len m <= u64_max / 8 -> finalize h = digest m :> res E _.
Proof.
  intros Ha Hlim. rewrite (absorbed_digest h m Ha), padding_rest. destruct Ha as [_ Hw Hb Hr Hbl Ht]. pose proof (rest_lt m) as Hlt.
  unfold finalize. rewrite Ht, Hbl, (Z.mul_comm 8). unfold checked_mul.
  rewrite (proj2 (Z.leb_le _ _)) by (unfold u64_max in *; change (18446744073709551615 / 8) with 2305843009213693951 in Hlim; lia).
  cbn [expect res_bind]. rewrite copy_from_slice_Ok by (simpl; lia). cbn [res_bind]. rewrite <- Hbl, Hr, Hbl.
  change SHA256_LENGTH_OFFSET with 56%nat. set (b := length (rest m)) in *. set (w := be_bytes 8 (len m * 8)).
  assert (Hwl : length w = 8%nat) by apply length_be_bytes.
  set (buf := rest m ++ [x80] ++ drop (b + 1) (buffer h)).
  assert (Hbuf : length buf = 64%nat) by (unfold buf; rewrite !length_app, length_drop; simpl; lia).
  assert (Htake : take (b + 1) buf = rest m ++ [x80]).
  { unfold buf. rewrite app_assoc. apply take_app_length'. rewrite length_app. simpl. lia. }
  assert (Hlast : forall st used l, (used <= 56)%nat -> length l = 64%nat ->
    (let? buf := fill l used 56 in
     let? buf := copy_from_slice buf 56 (length buf) w in
     let? st := compress_block st buf in Ok (concat (map (be_bytes 4) st))) =
    (let? st := compress_block st (take used l ++ repeat x00 (56 - used) ++ w) in Ok (concat (map (be_bytes 4) st))) :> res E _).
  { intros st used l Hu Hl. rewrite fill_Ok by lia. cbn [res_bind].
    assert (Hl' : length (take used l ++ repeat x00 (56 - used) ++ drop 56 l) = 64%nat).
    { rewrite !length_app, length_take, length_drop, repeat_length. lia. }
    rewrite Hl', copy_from_slice_Ok by lia. cbn [res_bind]. rewrite (drop_ge _ 64), app_nil_r by lia.
    rewrite app_assoc, take_app_length', <- app_assoc by (rewrite length_app, length_take, repeat_length; lia). done. }
  destruct (Nat.ltb_spec 56 (b + 1)) as [Hc|Hc].
  - rewrite fill_Ok by lia. cbn [res_bind]. rewrite Htake, (drop_ge buf), app_nil_r, Hbuf by lia.
    set (b1 := (rest m ++ [x80]) ++ repeat x00 (64 - (b + 1))).
    assert (Hb1 : length b1 = 64%nat) by (unfold b1; rewrite !length_app, repeat_length; simpl; lia).
    destruct (compress_block_Ok (E := E) (state h) b1 Hw Hb1) as (st & Hst & _). rewrite Hst. cbn [res_bind].
    rewrite fill_Ok by lia. cbn [res_bind]. rewrite Hb1, take_0, (drop_ge b1), app_nil_r, app_nil_l by lia.
    rewrite Hlast by (rewrite ?repeat_length; lia). rewrite take_0, app_nil_l.
    assert (Eb : rest m ++ [x80] ++ repeat x00 (119 - b) ++ w = b1 ++ (repeat x00 56 ++ w)).
    { unfold b1. rewrite <- !app_assoc. do 2 f_equal. rewrite app_assoc, <- repeat_app. do 2 f_equal. lia. }
    rewrite Eb, blocks_cons by done. destruct (one_block (repeat x00 56 ++ w)) as [-> _]; [rewrite length_app, repeat_length; lia|].
    cbn [res_foldM]. rewrite Hst. cbn [res_bind]. rewrite Nat.sub_0_r. by destruct (compress_block st _).
  - cbn [res_bind]. rewrite Hlast, Htake, <- !app_assoc by lia. replace (56 - (b + 1))%nat with (55 - b)%nat by lia.
    destruct (one_block (rest m ++ [x80] ++ repeat x00 (55 - b) ++ w)) as [-> _].
    { rewrite !length_app, repeat_length. simpl. lia. }
    cbn [res_foldM]. by destruct (compress_block (state h) _).
Qed.

Lemma updates_spec (parts : list bytes) (h : Sha256) (m : bytes) :
  absorbed h m -> len m + len (concat parts) <= u64_max / 8 ->
  exists h', res_foldM update h parts = Ok h' :> res E _ /\ absorbed h' (m ++ concat parts).
Proof.
  revert h m. induction parts as [|p parts IH]; intros h m Ha Hl; [exists h; by rewrite app_nil_r|].
  cbn [concat res_foldM] in *. rewrite len_app in Hl. pose proof (len_nonneg (concat parts)).
  destruct (update_spec h m p Ha ltac:(lia)) as (h1 & -> & Ha1). cbn [res_bind].
  destruct (IH h1 (m ++ p) Ha1) as (h2 & -> & Ha2); [rewrite len_app; lia|]. exists h2. by rewrite app_assoc.
Qed.

Lemma stream_spec (parts : list bytes) :
  len (concat parts) <= u64_max / 8 ->
  (let? h := res_foldM update new parts in finalize h) = digest (concat parts) :> res E _.
Proof.
  intros Hl. destruct (updates_spec parts new [] absorbed_new ltac:(done)) as (h & -> & Ha). cbn [res_bind].
  by apply finalize_spec.
Qed.

(** Past the limit the code panics. *)
Lemma update_limit (h : Sha256) (m input : bytes) :
  absorbed h m -> u64_max / 8 < len m + len input -> update h input = Panic :> res E _.
Proof.
  intros [_ _ _ _ _ Ht] Hl. unfold update, checked_add. rewrite Ht.
  destruct (_ <=? u64_max); [|done]. cbn [option_filter]. by rewrite (proj2 (Z.leb_gt _ _)).
Qed.

Lemma sha256_spec (input : bytes) : len input <= u64_max / 8 -> sha256 input = digest input :> res E _.
Proof.
  intros Hl. pose proof (stream_spec [input]) as H. cbn [concat res_foldM] in H. rewrite app_nil_r in H.
  rewrite <- H by done. unfold sha256. by destruct (update new input).
Qed.

End streaming.

(** ** The hash as a function

    The code is the same for every error type, so that a digest is a function of the message. *)
Lemma compress_block_err {E F : Type} (f : E -> F) (st : list Z) (b : bytes) :
  map_err f (compress_block st b) = compress_block st b.
Proof.
  unfold compress_block. rewrite map_err_bind. unfold message_schedule.
  rewrite (map_err_foldM f schedule_word schedule_word).
  2: { intros s a. unfold schedule_word. by repeat (rewrite map_err_bind, map_err_index; destruct (index s _); cbn [res_bind]; [|done..]). }
  destruct (res_foldM _ _ _) as [w|e| |]; cbn [res_bind]; try done. do 9 (destruct st as [|? st]; try done).
  rewrite map_err_bind. rewrite (map_err_foldM f (round w) (round w)).
  2: { intros [[[[[[[? ?] ?] ?] ?] ?] ?] ?] i. unfold round.
       by repeat (rewrite map_err_bind, map_err_index; destruct (index _ i); cbn [res_bind]; [|done..]). }
  destruct (res_foldM _ _ _) as [[[[[[[[? ?] ?] ?] ?] ?] ?] ?]|e| |]; done.
Qed.

Lemma digest_err {E F : Type} (f : E -> F) (m : bytes) : map_err f (digest m) = digest m.
Proof.
  unfold digest. rewrite map_err_bind, (map_err_foldM f compress_block compress_block) by apply compress_block_err.
  by destruct (res_foldM _ _ _).
Qed.

Definition hash (m : bytes) : bytes :=
  match digest (E := Empty_set) m with
  | Ok d => d
  | _ => []
  end.

Lemma digest_hash {E : Type} (m : bytes) : digest m = Ok (hash m) :> res E _.
Proof.
  unfold hash. destruct (digest_Ok (E := Empty_set) m) as (d & Hd & _). rewrite Hd.
  by rewrite <- (digest_err (fun e : Empty_set => match e with end) m), Hd.
Qed.

Lemma length_hash (m : bytes) : length (hash m) = 32%nat.
Proof. destruct (digest_Ok (E := Empty_set) m) as (d & Hd & Hl). unfold hash. by rewrite Hd. Qed.

(** ** HMAC *)
Definition pad_key (pad : byte) (key : bytes) : bytes := map (fun b => xor_byte b pad) (key ++ repeat x00 (64 - length key)).

Definition hmac (key m : bytes) : bytes :=
  let key := if (64 <? length key)%nat then hash key else key in
  hash (pad_key HMAC_OUTER_PAD_BYTE key ++ hash (pad_key HMAC_INNER_PAD_BYTE key ++ m)).

Lemma length_hmac (key m : bytes) : length (hmac key m) = 32%nat.
Proof. apply length_hash. Qed.

Lemma stream_hash {E : Type} (parts : list bytes) :
  len (concat parts) <= u64_max / 8 ->
  (let? h := res_foldM update new parts in finalize h) = Ok (hash (concat parts)) :> res E _.
Proof. intros H. by rewrite stream_spec, digest_hash. Qed.


Lemma hmac_spec {E : Type} (key : bytes) (parts : list bytes) :
  len key <= u64_max / 8 -> 64 + len (concat parts) <= u64_max / 8 ->
  hmac_sha256_parts key parts = Ok (hmac key (concat parts)) :> res E _.
Proof.
  intros Hk Hp. unfold hmac_sha256_parts, hmac. change SHA256_BLOCK_SIZE with 64%nat.
  set (key' := if (64 <? length key)%nat then hash key else key).
  assert (Hl : (length key' <= 64)%nat).
  { unfold key'. destruct (Nat.ltb_spec 64 (length key)); [rewrite length_hash; lia|lia]. }
  assert (Hblock : (if (64 <? length key)%nat then
      let? hashed_key := sha256 key in copy_from_slice (repeat x00 64) 0 (length hashed_key) hashed_key
    else copy_from_slice (repeat x00 64) 0 (length key) key) = Ok (key' ++ repeat x00 (64 - length key')) :> res E _).
  { assert (Hc : copy_from_slice (repeat x00 64) 0 (length key') key' = Ok (key' ++ repeat x00 (64 - length key')) :> res E _).
    { rewrite copy_from_slice_Ok by (rewrite ?repeat_length; lia). rewrite take_0, app_nil_l. do 2 f_equal.
      apply drop_repeat. }
    rewrite <- Hc. unfold key'. destruct (64 <? length key)%nat; [|done]. rewrite sha256_spec, digest_hash by done. done. }
  rewrite Hblock. cbn [res_bind]. clear Hblock. fold (pad_key HMAC_INNER_PAD_BYTE key') (pad_key HMAC_OUTER_PAD_BYTE key').
  assert (Hpad : forall pad, len (pad_key pad key') = 64).
  { intros pad. unfold len, pad_key. rewrite length_map, length_app, repeat_length. lia. }
  pose proof (stream_hash (E := E) (pad_key HMAC_INNER_PAD_BYTE key' :: parts)) as Hi.
  cbn [concat res_foldM] in Hi. rewrite len_app, Hpad in Hi. specialize (Hi Hp). rewrite res_bind_assoc in Hi.
  pose proof (stream_hash (E := E) [pad_key HMAC_OUTER_PAD_BYTE key'; hash (pad_key HMAC_INNER_PAD_BYTE key' ++ concat parts)]) as Ho.
  cbn [concat res_foldM] in Ho. rewrite app_nil_r, len_app, Hpad in Ho.
  specialize (Ho ltac:(unfold len; rewrite length_hash; done)). rewrite res_bind_assoc in Ho.
  destruct (update new (pad_key HMAC_INNER_PAD_BYTE key')) as [h| | |]; try discriminate Hi. cbn [res_bind] in *.
  destruct (res_foldM update h parts) as [h'| | |]; try discriminate Hi. cbn [res_bind] in *. rewrite Hi. cbn [res_bind].
  destruct (update new (pad_key HMAC_OUTER_PAD_BYTE key')) as [o| | |]; try discriminate Ho. cbn [res_bind] in *.
  rewrite res_bind_assoc in Ho. cbn [res_bind] in Ho. exact Ho.
Qed.

(** ** HKDF *)
(** RFC 5869: T(0) is empty, T(n) the MAC of T(n-1), the info and the octet n. *)
Fixpoint hkdf_t (prk info : bytes) (n : nat) : bytes :=
  match n with
  | O => []
  | S n' => hmac prk (hkdf_t prk info n' ++ info ++ [of_u8 (Z.of_nat n)])
  end.

Definition hkdf_okm (prk info : bytes) (n : nat) : bytes := concat (map (hkdf_t prk info) (seq 1 n)).

Section hkdf.
Variables prk info : bytes.
Hypothesis prk_fits : len prk <= u64_max / 8.
Hypothesis info_fits : 97 + len info <= u64_max / 8.

Lemma length_hkdf_t (n : nat) : n <> 0%nat -> length (hkdf_t prk info n) = 32%nat.
Proof. destruct n; [done|]. intros _. apply length_hmac. Qed.

Lemma length_hkdf_okm (n : nat) : length (hkdf_okm prk info n) = (32 * n)%nat.
Proof.
  unfold hkdf_okm. rewrite (length_concat_chunks 32); [rewrite length_map, length_seq; lia|].
  apply Forall_map, Forall_forall. intros i Hi%elem_of_seq. apply length_hkdf_t. lia.
Qed.

Lemma hkdf_okm_S (n : nat) : hkdf_okm prk info (S n) = hkdf_okm prk info n ++ hkdf_t prk info (S n).
Proof. unfold hkdf_okm. rewrite seq_S, map_app, concat_app. cbn [map concat Nat.add]. by rewrite app_nil_r. Qed.

Lemma expand_block_spec {E : Type} (size : Z) (k : nat) (previous : bytes) :
  32 * Z.of_nat k < size <= HKDF_MAX_OUTPUT_SIZE -> (k <> 0%nat -> previous = hkdf_t prk info k) ->
  expand_block prk info size (hkdf_okm prk info k, previous) (S k) =
    Ok (take (Z.to_nat size) (hkdf_okm prk info (S k)), hkdf_t prk info (S k)) :> res E _.
Proof.
  intros Hs Hp. unfold expand_block, try_from. unfold HKDF_MAX_OUTPUT_SIZE in Hs.
  rewrite (proj2 (Z.leb_le _ _)) by (unfold u8_max; lia). cbn [res_bind].
  assert (Hb : (if (S k =? 1)%nat then hmac_sha256_parts prk [info; [of_u8 (Z.of_nat (S k))]]
                else hmac_sha256_parts prk [previous; info; [of_u8 (Z.of_nat (S k))]]) = Ok (hkdf_t prk info (S k)) :> res E _).
  { destruct (Nat.eqb_spec (S k) 1) as [Hk|Hk].
    - assert (k = 0)%nat as -> by lia. rewrite hmac_spec; cbn [concat hkdf_t]; [by rewrite ?app_nil_r|done|].
      rewrite !len_app. change (len [of_u8 (Z.of_nat 1)]) with 1. change (len []) with 0. lia.
    - rewrite Hp by lia. rewrite hmac_spec; cbn [concat]; [by rewrite app_nil_r|done|].
      rewrite !len_app. change (len [of_u8 (Z.of_nat (S k))]) with 1. change (len []) with 0.
      assert (len (hkdf_t prk info k) = 32) as -> by (unfold len; by rewrite length_hkdf_t by lia). lia. }
  rewrite Hb. cbn [res_bind]. assert (Hlo : len (hkdf_okm prk info k) = 32 * Z.of_nat k) by (unfold len; rewrite length_hkdf_okm; lia).
  rewrite Hlo. assert (Ht : length (hkdf_t prk info (S k)) = 32%nat) by apply length_hmac.
  rewrite slice_to_Ok by lia. cbn [res_bind]. do 2 f_equal. rewrite hkdf_okm_S, take_app, length_hkdf_okm. f_equal.
  - symmetry. apply take_ge. rewrite length_hkdf_okm. lia.
  - destruct (Z.min_spec (size - 32 * Z.of_nat k) 32) as [[? ->]|[? ->]]; [f_equal; lia|rewrite !take_ge by lia; done].
Qed.

Lemma div_ceil_spec (n : Z) : 0 <= n -> 32 * (div_ceil n 32 - 1) < n <= 32 * div_ceil n 32.
Proof.
  intros Hn. unfold div_ceil. pose proof (Z.div_mod (n + 32 - 1) 32 ltac:(done)). pose proof (Z.mod_pos_bound (n + 32 - 1) 32 ltac:(done)). lia.
Qed.

Lemma expand_loop_spec {E : Type} (size : Z) (k : nat) :
  0 <= size <= HKDF_MAX_OUTPUT_SIZE -> (0 < k)%nat -> Z.of_nat k <= div_ceil size 32 ->
  res_foldM (expand_block prk info size) ([], repeat x00 32) (seq 1 k) =
    Ok (take (Z.to_nat size) (hkdf_okm prk info k), hkdf_t prk info k) :> res E _.
Proof.
  intros Hs. pose proof (div_ceil_spec size ltac:(lia)) as Hd. induction k as [|k IH]; intros Hk Hle; [lia|].
  destruct (decide (k = 0%nat)) as [->|Hne].
  - cbn [seq res_foldM]. change [] with (hkdf_okm prk info 0). rewrite expand_block_spec by (done || lia). done.
  - rewrite seq_S, res_foldM_app, IH by lia. cbn [res_bind res_foldM Nat.add].
    rewrite take_ge by (rewrite length_hkdf_okm; lia). rewrite expand_block_spec by (done || lia). done.
Qed.

Lemma hkdf_expand_spec (size : Z) : 0 <= size ->
  hkdf_expand_sha256 prk info size =
    (if len prk <? 32 then Err (PrkTooShort (len prk))
     else if HKDF_MAX_OUTPUT_SIZE <? size then Err (OutputTooLong size)
     else Ok (take (Z.to_nat size) (hkdf_okm prk info (Z.to_nat (div_ceil size 32))))).
Proof.
  intros Hs. unfold hkdf_expand_sha256. destruct (_ <? 32); [done|]. destruct (Z.ltb_spec HKDF_MAX_OUTPUT_SIZE size); [done|].
  change SHA256_DIGEST_SIZE with 32%nat. pose proof (div_ceil_spec size Hs) as Hd.
  destruct (decide (size = 0)) as [->|Hne]; [done|].
  rewrite expand_loop_spec by lia. done.
Qed.

Lemma length_hkdf_output (size : Z) : 0 <= size ->
  length (take (Z.to_nat size) (hkdf_okm prk info (Z.to_nat (div_ceil size 32)))) = Z.to_nat size.
Proof.
  intros Hs. pose proof (div_ceil_spec size Hs). rewrite length_take, length_hkdf_okm. lia.
Qed.

End hkdf.

(** The encoding of a label is read back. *)
Definition parse_label (info : bytes) : option (Z * bytes * bytes) :=
  match info with
  | l1 :: l2 :: n :: rest =>
      let full := take (Z.to_nat (u8 n)) rest in
      let context := drop 1 (drop (Z.to_nat (u8 n)) rest) in
      Some (be_value 0 [l1; l2], drop 6 full, context)
  | _ => None
  end.

(** RFC 8446, 7.1: HkdfLabel. *)
Definition hkdf_label (size : Z) (label context : bytes) : bytes :=
  be_bytes 2 size ++ [of_u8 (6 + len label)] ++ str "tls13 " ++ label ++ [of_u8 (len context)] ++ context.

Lemma build_label_spec (label context : bytes) (size : Z) :
  0 <= size <= u16_max -> label <> [] -> len label <= TLS13_MAX_LABEL_SIZE -> len context <= TLS13_MAX_CONTEXT_SIZE ->
  build_tls13_hkdf_label label context size = Ok (hkdf_label size label context).
Proof.
  intros Hs Hl Hll Hc. unfold build_tls13_hkdf_label. rewrite bool_decide_false by done.
  rewrite (proj2 (Z.ltb_ge _ _) Hll), (proj2 (Z.ltb_ge _ _) Hc). unfold try_from.
  change TLS13_MAX_LABEL_SIZE with 249 in Hll. change TLS13_MAX_CONTEXT_SIZE with 255 in Hc.
  change (len TLS13_LABEL_PREFIX) with 6. unfold u16_max, u8_max in *. rewrite (proj2 (Z.leb_le _ _)) by lia. cbn [res_bind].
  rewrite (proj2 (Z.leb_le _ _)) by lia. cbn [res_bind]. by rewrite (proj2 (Z.leb_le _ _)) by lia.
Qed.

Lemma len_hkdf_label (label context : bytes) (size : Z) : len (hkdf_label size label context) = 10 + len label + len context.
Proof. unfold hkdf_label, len. rewrite !length_app, length_be_bytes. cbn [length]. change (length (str "tls13 ")) with 6%nat. lia. Qed.

Lemma label_encoding (label context : bytes) (size : Z) :
  0 <= size <= u16_max -> label <> [] -> len label <= TLS13_MAX_LABEL_SIZE -> len context <= TLS13_MAX_CONTEXT_SIZE ->
  exists info, build_tls13_hkdf_label label context size = Ok info /\ parse_label info = Some (size, label, context) /\
    len info = 10 + len label + len context.
Proof.
  intros Hs Hl Hll Hc. exists (hkdf_label size label context). split; [by apply build_label_spec|]. split; [|apply len_hkdf_label]. unfold hkdf_label.
  change TLS13_MAX_LABEL_SIZE with 249 in Hll. unfold u16_max in *. pose proof (len_nonneg label).
  pose proof (be_value_be_bytes 2 size) as Hv. pose proof (length_be_bytes 2 size) as Hn.
  destruct (be_bytes 2 size) as [|l1 [|l2 [|]]]; try discriminate Hn. rewrite Z.mod_small in Hv by (simpl; lia).
  cbn [app]. unfold parse_label. rewrite Hv, u8_of_u8 by lia.
  assert (Hp : Z.to_nat (6 + len label) = length (str "tls13 " ++ label)) by (rewrite length_app; unfold len; simpl; lia).
  rewrite Hp, app_assoc, take_app_length, drop_app_length. done.
Qed.

(** ** What the hashes compute *)

(** Hashing in pieces is hashing the message: however it is cut into updates, the digest is that of the
    padded message compressed block by block (FIPS 180-4), 32 bytes long, and nothing panics, unless the
    message passes the limit of 2^64 bits: then the update panics. *)
Theorem sha256_streaming_correct {E : Type} (parts : list bytes) :
  (len (concat parts) <= u64_max / 8 ->
   (let? h := res_foldM update new parts in finalize h) = Ok (hash (concat parts)) :> res E _) /\
  (forall input : bytes, len input <= u64_max / 8 -> sha256 input = Ok (hash input) :> res E _) /\
  length (hash (concat parts)) = 32%nat /\
  (let? st := res_foldM compress_block SHA256_INITIAL_STATE
                (blocks (concat parts ++ padding (length (concat parts)))) in
   Ok (concat (map (be_bytes 4) st))) = Ok (hash (concat parts)) :> res E _ /\
  (len (concat parts) <= u64_max / 8 -> forall input : bytes, u64_max / 8 < len (concat parts) + len input ->
   (let? h := res_foldM update new parts in update h input) = Panic :> res E _).
Proof.
  split_and!; [apply stream_hash|intros input Hi; by rewrite sha256_spec, digest_hash|apply length_hash|apply digest_hash|].
  intros Hl input Hi. destruct (updates_spec (E := E) parts new [] absorbed_new ltac:(done)) as (h & -> & Ha). cbn [res_bind].
  by eapply update_limit.
Qed.

(** The MAC of any number of parts is HMAC (RFC 2104) of their concatenation, with a longer key hashed
    first; it returns. *)
Theorem hmac_sha256_correct {E : Type} (key : bytes) (parts : list bytes) :
  len key <= u64_max / 8 -> 64 + len (concat parts) <= u64_max / 8 ->
  hmac_sha256_parts key parts = Ok (hmac key (concat parts)) :> res E _ /\ length (hmac key (concat parts)) = 32%nat.
Proof. intros Hk Hp. split; [by apply hmac_spec|apply length_hmac]. Qed.

Lemma hmac_sha256_correct_witness :
  hmac_sha256_parts (E := unit) (str "key") [str "a"; str "b"] = Ok (hmac (str "key") (str "ab")).
Proof. apply (hmac_sha256_correct (E := unit) (str "key") [str "a"; str "b"]); done. Defined.

(** HKDF-Expand-Label never panics. Without an error the output has the length asked for and is the
    beginning of T(1) T(2) ... of RFC 5869 for the encoded label; the encoding holds the length, the label
    and the context, and no two differ in them and agree in it. Each error is reported when it is due. *)
Theorem hkdf_expand_label_correct (secret label context : bytes) (size : Z) :
  0 <= size -> len secret <= u64_max / 8 ->
  match tls13_hkdf_expand_label_sha256 secret label context size with
  | Ok out =>
      exists info, build_tls13_hkdf_label label context size = Ok info /\ parse_label info = Some (size, label, context) /\
        length out = Z.to_nat size /\ 32 <= len secret /\
        out = take (Z.to_nat size) (hkdf_okm secret info (Z.to_nat (div_ceil size 32)))
  | Err e =>
      (e = OutputTooLong size /\ HKDF_MAX_OUTPUT_SIZE < size) \/ (e = TlsLabelEmpty /\ label = []) \/
      (e = TlsLabelTooLong (len label) /\ TLS13_MAX_LABEL_SIZE < len label) \/
      (e = TlsContextTooLong (len context) /\ TLS13_MAX_CONTEXT_SIZE < len context) \/
      (e = PrkTooShort (len secret) /\ len secret < 32)
  | Panic | Fuel => False
  end.
Proof.
  intros Hs Hsec. unfold tls13_hkdf_expand_label_sha256.
  destruct (Z.ltb_spec HKDF_MAX_OUTPUT_SIZE size) as [|Hmax]; [by auto|].
  destruct (decide (label = [])) as [->|Hl]; [unfold build_tls13_hkdf_label; rewrite bool_decide_true by done; cbn [res_bind]; by auto|].
  destruct (Z_le_gt_dec (len label) TLS13_MAX_LABEL_SIZE) as [Hll|Hll].
  2: { unfold build_tls13_hkdf_label. rewrite bool_decide_false, (proj2 (Z.ltb_lt _ _)) by (done || lia). cbn [res_bind].
       do 2 right. left. split; [done|lia]. }
  destruct (Z_le_gt_dec (len context) TLS13_MAX_CONTEXT_SIZE) as [Hc|Hc].
  2: { unfold build_tls13_hkdf_label. rewrite bool_decide_false, (proj2 (Z.ltb_ge _ _) Hll), (proj2 (Z.ltb_lt _ _)) by (done || lia).
       cbn [res_bind]. do 3 right. left. split; [done|lia]. }
  destruct (label_encoding label context size) as (info & Hi & Hp & Hn);
    [unfold HKDF_MAX_OUTPUT_SIZE, u16_max in *; lia|done|done|done|].
  rewrite Hi. cbn [res_bind]. change TLS13_MAX_LABEL_SIZE with 249 in Hll. change TLS13_MAX_CONTEXT_SIZE with 255 in Hc.
  rewrite hkdf_expand_spec by (done || change (u64_max / 8) with 2305843009213693951; lia).
  destruct (Z.ltb_spec (len secret) 32); [by auto 7|]. rewrite (proj2 (Z.ltb_ge _ _) Hmax).
  exists info. split_and!; [done|done|by apply length_hkdf_output|done|done].
Qed.

Lemma hkdf_expand_label_correct_witness :
  match tls13_hkdf_expand_label_sha256 (repeat x01 32) (str "key") [] 16 with
  | Ok out => length out = 16%nat
  | _ => False
  end.
Proof.
  pose proof (hkdf_expand_label_correct (repeat x01 32) (str "key") [] 16 ltac:(done) ltac:(done)) as H.
  destruct (tls13_hkdf_expand_label_sha256 _ _ _ _) as [out|e| |].
  - destruct H as (info & _ & _ & Hl & _). exact Hl.
  - destruct H as [[_ H]|[[_ H]|[[_ H]|[[_ H]|[_ H]]]]]; vm_compute in H; discriminate H.
  - exact H.
  - exact H.
Defined.

(** The test vector of FIPS 180-4. *)
Example sha256_abc :
  sha256 (E := unit) (str "abc") = Ok (be_bytes 32 0xba7816bf8f01cfea414140de5dae2223b00361a396177a9cb410ff61f20015ad).
Proof. vm_compute. reflexivity. Qed.
