(* ===== verification/Encoding.v ===== *)
(** * Encodings: [src/crypto.rs]

    Hexadecimal and Base64, and the comparison without an early exit. *)
From Stdlib Require Import ZArith Lia.
From stdpp Require Import prelude.
From S2P Require Import Prelude Bytes.
Local Open Scope Z_scope.
Set Warnings "-clear-no-such-hyp".

(** [<<] on an octet. *)
Definition shl8 (a n : Z) : Z := Z.shiftl a n mod 256.

(** ** Comparison *)
Definition constant_time_eq (left right : bytes) : bool :=
  if negb (len left =? len right) then false
  else
    let difference :=
      fold_left (fun difference '(left_byte, right_byte) => Z.lor difference (Z.lxor (u8 left_byte) (u8 right_byte)))
        (zip left right) 0 in
    difference =? 0.

(** ** Hexadecimal *)
Definition HEX_DIGITS : bytes := str "0123456789abcdef".

Inductive HexError : Type :=
| OddLength
| InvalidDigit (index : nat) (byte : byte).

(** [{byte:02x}] *)
Definition hex_byte (b : byte) : bytes := if u8 b <? 16 then x30 :: to_hex (u8 b) else to_hex (u8 b).

Definition hex_error_to_string (e : HexError) : bytes :=
  match e with
  | OddLength => str "hex input has an odd number of digits"
  | InvalidDigit index byte =>
      str "invalid hex digit 0x" ++ hex_byte byte ++ str " at byte index " ++ to_dec (Z.of_nat index)
  end.

Definition encode_hex_byte {E : Type} (output : bytes) (byte : byte) : res E bytes :=
  let? high := index HEX_DIGITS (Z.to_nat (Z.shiftr (u8 byte) 4)) in
  let? low := index HEX_DIGITS (Z.to_nat (Z.land (u8 byte) 15)) in
  Ok (output ++ [high; low]).

Definition encode_hex {E : Type} (input : bytes) : res E bytes := res_foldM encode_hex_byte [] input.

Definition decode_hex_nibble (b : byte) : option Z :=
  if in_range x30 x39 b then Some (u8 b - u8 x30)
  else if in_range x61 x66 b then Some (u8 b - u8 x61 + 10)
  else if in_range x41 x46 b then Some (u8 b - u8 x41 + 10)
  else None.

Definition decode_digit (input : bytes) (i : nat) : res HexError Z :=
  let? b := index input i in
  ok_or (decode_hex_nibble b) (InvalidDigit i b).

Definition decode_hex_pair (input output : bytes) (i : nat) : res HexError bytes :=
  let? high := decode_digit input i in
  let? low := decode_digit input (i + 1) in
  Ok (output ++ [of_u8 (Z.lor (shl8 high 4) low)]).

Definition decode_hex (input : bytes) : res HexError bytes :=
  if negb (Nat.modulo (length input) 2 =? 0)%nat then Err OddLength
  else
    res_foldM (decode_hex_pair input) [] (map (fun k => 2 * k)%nat (seq 0 (length input / 2))).

(** ** Base64 *)
Definition BASE64_STANDARD_ALPHABET : bytes := str "ABCDEFGHIJKLMNOPQRSTUVWXYZabcdefghijklmnopqrstuvwxyz0123456789+/".
Definition BASE64_URL_ALPHABET : bytes := str "ABCDEFGHIJKLMNOPQRSTUVWXYZabcdefghijklmnopqrstuvwxyz0123456789-_".

Definition base64_character {E : Type} (alphabet : bytes) (value : Z) : res E byte := index alphabet (Z.to_nat value).

Definition encode_group {E : Type} (alphabet : bytes) (output chunk : bytes) : res E bytes :=
  let? b0 := index chunk 0 in
  let? b1 := index chunk 1 in
  let? b2 := index chunk 2 in
  let? c0 := base64_character alphabet (Z.shiftr (u8 b0) 2) in
  let? c1 := base64_character alphabet (Z.lor (shl8 (Z.land (u8 b0) 3) 4) (Z.shiftr (u8 b1) 4)) in
  let? c2 := base64_character alphabet (Z.lor (shl8 (Z.land (u8 b1) 15) 2) (Z.shiftr (u8 b2) 6)) in
  let? c3 := base64_character alphabet (Z.land (u8 b2) 63) in
  Ok (output ++ [c0; c1; c2; c3]).

Definition encode_remainder {E : Type} (alphabet : bytes) (padded : bool) (output remainder : bytes) : res E bytes :=
  if (length remainder =? 1)%nat then
    let? b0 := index remainder 0 in
    let? c0 := base64_character alphabet (Z.shiftr (u8 b0) 2) in
    let? c1 := base64_character alphabet (shl8 (Z.land (u8 b0) 3) 4) in
    Ok (output ++ [c0; c1] ++ if padded then str "==" else [])
  else if (length remainder =? 2)%nat then
    let? b0 := index remainder 0 in
    let? b1 := index remainder 1 in
    let? c0 := base64_character alphabet (Z.shiftr (u8 b0) 2) in
    let? c1 := base64_character alphabet (Z.lor (shl8 (Z.land (u8 b0) 3) 4) (Z.shiftr (u8 b1) 4)) in
    let? c2 := base64_character alphabet (shl8 (Z.land (u8 b1) 15) 2) in
    Ok (output ++ [c0; c1; c2] ++ if padded then str "=" else [])
  else Ok output.

Definition encode_base64_inner {E : Type} (input alphabet : bytes) (padded : bool) : res E bytes :=
  let '(groups, remainder) := chunks_exact 3 input in
  let? output := res_foldM (encode_group alphabet) [] groups in
  encode_remainder alphabet padded output remainder.

Definition encode_base64 {E : Type} (input : bytes) : res E bytes := encode_base64_inner input BASE64_STANDARD_ALPHABET true.

Definition encode_base64_url_no_pad {E : Type} (input : bytes) : res E bytes :=
  encode_base64_inner input BASE64_URL_ALPHABET false.

(** ** Comparison compares *)
Lemma lor_fold_zero (l : list (byte * byte)) (d : Z) : 0 <= d ->
  let r := fold_left (fun d '(a, b) => Z.lor d (Z.lxor (u8 a) (u8 b))) l d in
  r = 0 <-> d = 0 /\ Forall (fun '(a, b) => a = b) l.
Proof.
  cbn zeta. revert d. induction l as [|[a b] l IH]; intros d Hd; [cbn [fold_left]; split; [intros ->; by split|by intros []]|]. cbn [fold_left].
  assert (Hx : 0 <= Z.lxor (u8 a) (u8 b)) by (apply Z.lxor_nonneg; pose proof (u8_range a); pose proof (u8_range b); lia).
  rewrite IH by (apply Z.lor_nonneg; lia). rewrite Z.lor_eq_0_iff, Z.lxor_eq_0_iff, Forall_cons. split.
  - intros [[-> E] Hl]. split; [done|]. split; [by apply u8_inj|done].
  - by intros [-> [-> Hl]].
Qed.

Lemma constant_time_eq_spec (l r : bytes) : constant_time_eq l r = bool_decide (l = r).
Proof.
  unfold constant_time_eq. symmetry. destruct (Z.eqb_spec (len l) (len r)) as [E|E]; cbn [negb].
  2: { apply bool_decide_eq_false_2. by intros ->. }
  unfold len in E. apply Nat2Z.inj in E. pose proof (lor_fold_zero (zip l r) 0 ltac:(done)) as H. cbn zeta in H.
  set (d := fold_left _ _ _) in *. destruct (Z.eqb_spec d 0) as [Ed|Ed].
  - apply bool_decide_eq_true_2. apply H in Ed as [_ Ed]. clear H d. revert r E Ed.
    induction l as [|a l IH]; intros [|b r] E Ed; try done. change (zip (a :: l) (b :: r)) with ((a, b) :: zip l r) in Ed.
    apply Forall_cons in Ed as [-> Ed]. f_equal. apply IH; [by injection E|done].
  - apply bool_decide_eq_false_2. intros ->. apply Ed, H. split; [done|]. clear.
    induction r as [|b r IH]; [constructor|]. by constructor.
Qed.

(** ** Hexadecimal, there and back *)
Lemma shr4 (b : byte) : Z.shiftr (u8 b) 4 = u8 b / 16.
Proof. by rewrite Z.shiftr_div_pow2. Qed.

Lemma land15 (b : byte) : Z.land (u8 b) 15 = u8 b mod 16.
Proof. apply (land_mask (u8 b) 4). lia. Qed.

Lemma hex_digit_nibble (n : Z) : 0 <= n < 16 ->
  exists c, HEX_DIGITS !! Z.to_nat n = Some c /\ decode_hex_nibble c = Some n /\ to_ascii_lowercase c = c.
Proof.
  intros Hn. assert (Hall : forallb (fun k => match HEX_DIGITS !! k with
    | Some c => match decode_hex_nibble c with Some m => (m =? Z.of_nat k) && byte_eqb (to_ascii_lowercase c) c | None => false end
    | None => false end) (seq 0 16) = true) by (vm_compute; reflexivity).
  rewrite forallb_forall in Hall. specialize (Hall (Z.to_nat n) ltac:(apply in_seq; lia)).
  destruct (HEX_DIGITS !! Z.to_nat n) as [c|]; [|discriminate Hall]. exists c. split; [done|].
  destruct (decode_hex_nibble c) as [m|]; [|discriminate Hall]. apply andb_true_iff in Hall as [H1 H2].
  apply byte_eqb_eq in H2. apply Z.eqb_eq in H1. rewrite Z2Nat.id in H1 by lia. by subst m.
Qed.

(** The two digits of an octet. *)
Definition hex_pair (b : byte) : bytes :=
  match HEX_DIGITS !! Z.to_nat (u8 b / 16), HEX_DIGITS !! Z.to_nat (u8 b mod 16) with
  | Some h, Some l => [h; l]
  | _, _ => []
  end.

Definition hex_of (bs : bytes) : bytes := concat (map hex_pair bs).

Lemma nibble_ranges (b : byte) : 0 <= u8 b / 16 < 16 /\ 0 <= u8 b mod 16 < 16 /\ u8 b = u8 b / 16 * 16 + u8 b mod 16.
Proof.
  pose proof (u8_range b). pose proof (Z.div_mod (u8 b) 16 ltac:(done)). pose proof (Z.mod_pos_bound (u8 b) 16 ltac:(done)). lia.
Qed.

Lemma hex_pair_spec (b : byte) :
  exists h l, hex_pair b = [h; l] /\ HEX_DIGITS !! Z.to_nat (u8 b / 16) = Some h /\ HEX_DIGITS !! Z.to_nat (u8 b mod 16) = Some l /\
    decode_hex_nibble h = Some (u8 b / 16) /\ decode_hex_nibble l = Some (u8 b mod 16) /\ lowercase [h; l] = [h; l].
Proof.
  destruct (nibble_ranges b) as (H1 & H2 & _). unfold hex_pair.
  destruct (hex_digit_nibble _ H1) as (h & Hh & Dh & Lh), (hex_digit_nibble _ H2) as (l & Hl & Dl & Ll).
  exists h, l. rewrite Hh, Hl. split_and!; try done. unfold lowercase. cbn [map]. by rewrite Lh, Ll.
Qed.

Lemma encode_hex_spec {E : Type} (bs : bytes) : encode_hex bs = Ok (hex_of bs) :> res E _.
Proof.
  unfold encode_hex. rewrite <- (app_nil_l (hex_of bs)). generalize (@nil byte) as out.
  induction bs as [|b bs IH]; intros out; [by rewrite app_nil_r|]. cbn [res_foldM]. unfold encode_hex_byte at 1.
  destruct (hex_pair_spec b) as (h & l & Hp & Hh & Hl & _). rewrite shr4, land15, (index_Ok _ _ _ Hh), (index_Ok _ _ _ Hl).
  cbn [res_bind]. rewrite IH. unfold hex_of. cbn [map concat]. by rewrite Hp, <- app_assoc.
Qed.

Lemma length_hex_of (bs : bytes) : length (hex_of bs) = (2 * length bs)%nat.
Proof.
  induction bs as [|b bs IH]; [done|]. unfold hex_of in *. cbn [map concat length]. destruct (hex_pair_spec b) as (h & l & -> & _).
  rewrite length_app, IH. simpl. lia.
Qed.

Lemma nibbles_byte (b : byte) : of_u8 (Z.lor (shl8 (u8 b / 16) 4) (u8 b mod 16)) = b.
Proof.
  destruct (nibble_ranges b) as (H1 & H2 & H3). unfold shl8. rewrite Z.shiftl_mul_pow2 by lia. change (2 ^ 4) with 16.
  rewrite (Z.mod_small (_ * 16)) by lia. rewrite (lor_mul_add _ _ 4) by lia. change (2 ^ 4) with 16. rewrite <- H3. apply of_u8_u8.
Qed.

(** A decoded pair: its two digits, in either case. *)
Lemma decode_nibble_Some (c : byte) (n : Z) :
  decode_hex_nibble c = Some n -> 0 <= n < 16 /\ HEX_DIGITS !! Z.to_nat n = Some (to_ascii_lowercase c).
Proof. destruct c; intros H; vm_compute in H; (discriminate H || (injection H as <-; split; [lia|vm_compute; reflexivity])). Qed.

Definition hex_digit (c : byte) : Prop := is_Some (decode_hex_nibble c).

(** What decoding answers. *)
Definition hex_decoded (s : bytes) (r : res HexError bytes) : Prop :=
  match r with
  | Ok bs => hex_of bs = lowercase s
  | Err OddLength => Nat.modulo (length s) 2 = 1%nat
  | Err (InvalidDigit i c) =>
      Nat.modulo (length s) 2 = 0%nat /\ s !! i = Some c /\ ~ hex_digit c /\ Forall hex_digit (take i s)
  | Panic | Fuel => False
  end.

Lemma hex_pair_nibbles (c d : byte) (h l : Z) :
  decode_hex_nibble c = Some h -> decode_hex_nibble d = Some l ->
  hex_pair (of_u8 (Z.lor (shl8 h 4) l)) = lowercase [c; d].
Proof.
  intros [Hh Hc]%decode_nibble_Some [Hl Hd]%decode_nibble_Some. unfold shl8. rewrite Z.shiftl_mul_pow2 by lia.
  rewrite (Z.mod_small (_ * 2 ^ 4)) by (change (2 ^ 4) with 16; lia). rewrite (lor_mul_add _ _ 4) by (change (2 ^ 4) with 16; lia).
  change (2 ^ 4) with 16. unfold hex_pair. rewrite u8_of_u8 by lia.
  rewrite (Z.add_comm (h * 16)), Z.div_add, Z.div_small, Z.mod_add, Z.mod_small by (done || lia). rewrite Z.add_0_l.
  by rewrite Hc, Hd.
Qed.

Lemma decode_hex_loop (s out : bytes) (k n : nat) :
  (2 * (k + n) = length s)%nat -> hex_of out = lowercase (take (2 * k) s) -> Forall hex_digit (take (2 * k) s) ->
  hex_decoded s (res_foldM (decode_hex_pair s) out (map (fun k => 2 * k)%nat (seq k n))).
Proof.
  revert out k. induction n as [|n IH]; intros out k Hn Hout Hd.
  { cbn [seq map res_foldM hex_decoded]. by rewrite take_ge in Hout by lia. }
  assert (Heven : Nat.modulo (length s) 2 = 0%nat) by (rewrite <- Hn, Nat.mul_comm; apply Nat.Div0.mod_mul).
  cbn [seq map res_foldM]. unfold decode_hex_pair at 1, decode_digit at 1.
  destruct (lookup_lt_is_Some_2 s (2 * k) ltac:(lia)) as [c Hc], (lookup_lt_is_Some_2 s (2 * k + 1) ltac:(lia)) as [d Hdd].
  rewrite (index_Ok _ _ _ Hc). cbn [res_bind]. destruct (decode_hex_nibble c) as [h|] eqn:Eh; cbn [ok_or res_bind].
  2: { cbn [hex_decoded]. split_and!; [done|done|by intros [? ?]; congruence|done]. }
  assert (Hd1 : Forall hex_digit (take (2 * k + 1) s)).
  { rewrite Nat.add_1_r, (take_S_r _ _ _ Hc). apply Forall_app. split; [done|]. constructor; [by eexists|constructor]. }
  unfold decode_digit. rewrite (index_Ok _ _ _ Hdd). cbn [res_bind]. destruct (decode_hex_nibble d) as [l|] eqn:El; cbn [ok_or res_bind].
  2: { cbn [hex_decoded]. split_and!; [done|done|by intros [? ?]; congruence|done]. }
  assert (Et : take (2 * S k) s = take (2 * k) s ++ [c; d]).
  { replace (2 * S k)%nat with (S (2 * k + 1)) by lia. rewrite (take_S_r _ _ _ Hdd), Nat.add_1_r, (take_S_r _ _ _ Hc). by rewrite <- app_assoc. }
  apply IH; [lia| |].
  - rewrite Et. unfold hex_of in *. rewrite map_app, concat_app, Hout, lowercase_app. f_equal.
    cbn [map concat]. rewrite app_nil_r. by apply hex_pair_nibbles.
  - rewrite Et. apply Forall_app. split; [done|]. repeat constructor; by eexists.
Qed.

Lemma decode_hex_spec (s : bytes) : hex_decoded s (decode_hex s).
Proof.
  unfold decode_hex. destruct (Nat.eqb_spec (Nat.modulo (length s) 2) 0) as [E|E]; cbn [negb].
  - apply decode_hex_loop; [|done|constructor]. pose proof (Nat.div_mod_eq (length s) 2). lia.
  - cbn [hex_decoded]. pose proof (Nat.mod_upper_bound (length s) 2 ltac:(lia)). lia.
Qed.

Lemma hex_of_inj (a b : bytes) : hex_of a = hex_of b -> a = b.
Proof.
  revert b. induction a as [|x a IH]; intros b E.
  - assert (length b = 0)%nat by (pose proof (length_hex_of b) as Hl; rewrite <- E in Hl; simpl in Hl; lia). by destruct b.
  - pose proof (length_hex_of b) as Hl. rewrite <- E, length_hex_of in Hl. destruct b as [|y b]; [simpl in Hl; lia|].
    unfold hex_of in E. cbn [map concat] in E. destruct (hex_pair_spec x) as (h & l & Hx & _ & _ & Dh & Dl & _).
    destruct (hex_pair_spec y) as (h' & l' & Hy & _ & _ & Dh' & Dl' & _). rewrite Hx, Hy in E. cbn [app] in E. injection E as E1 E2 E.
    rewrite E1, Dh' in Dh. rewrite E2, Dl' in Dl. injection Dh as Dh. injection Dl as Dl.
    destruct (nibble_ranges x) as (_ & _ & Ex), (nibble_ranges y) as (_ & _ & Ey). f_equal; [apply u8_inj; lia|by apply IH].
Qed.

Lemma hex_of_digits (bs : bytes) : Forall hex_digit (hex_of bs) /\ lowercase (hex_of bs) = hex_of bs.
Proof.
  induction bs as [|b bs [IH1 IH2]]; [by split|]. unfold hex_of in *. cbn [map concat].
  destruct (hex_pair_spec b) as (h & l & -> & _ & _ & Dh & Dl & Hl). rewrite lowercase_app, Hl, IH2. split; [|done].
  by repeat (constructor; [by eexists|]).
Qed.

Lemma decode_hex_of (bs : bytes) : decode_hex (hex_of bs) = Ok bs.
Proof.
  pose proof (decode_hex_spec (hex_of bs)) as H. destruct (hex_of_digits bs) as [Hd Hl].
  destruct (decode_hex (hex_of bs)) as [r|[|i c]| |]; cbn [hex_decoded] in H; [|exfalso..].
  - rewrite Hl in H. f_equal. by apply hex_of_inj.
  - rewrite length_hex_of, Nat.mul_comm, Nat.Div0.mod_mul in H. lia.
  - destruct H as (_ & Hi & Hn & _). apply Hn. rewrite Forall_forall in Hd. apply Hd. by eapply list_elem_of_lookup_2.
  - done.
  - done.
Qed.

(** ** Base64, there and back

    The reference decoder of RFC 4648, on what is left without the padding. *)
Definition base64_value (alphabet : bytes) (c : byte) : option Z :=
  match position (byte_eqb c) alphabet with
  | Some k => Some (Z.of_nat k)
  | None => None
  end.

Fixpoint decode_base64 (alphabet l : bytes) : option bytes :=
  match l with
  | [] => Some []
  | [a; b] =>
      match base64_value alphabet a, base64_value alphabet b with
      | Some v0, Some v1 => Some [of_u8 (v0 * 4 + v1 / 16)]
      | _, _ => None
      end
  | [a; b; c] =>
      match base64_value alphabet a, base64_value alphabet b, base64_value alphabet c with
      | Some v0, Some v1, Some v2 => Some [of_u8 (v0 * 4 + v1 / 16); of_u8 (v1 mod 16 * 16 + v2 / 4)]
      | _, _, _ => None
      end
  | a :: b :: c :: d :: rest =>
      match base64_value alphabet a, base64_value alphabet b, base64_value alphabet c, base64_value alphabet d,
            decode_base64 alphabet rest with
      | Some v0, Some v1, Some v2, Some v3, Some more =>
          Some (of_u8 (v0 * 4 + v1 / 16) :: of_u8 (v1 mod 16 * 16 + v2 / 4) :: of_u8 (v2 mod 4 * 64 + v3) :: more)
      | _, _, _, _, _ => None
      end
  | _ => None
  end.

(** Sixty-four different characters, none of them the padding. *)
Definition good_alphabet (alphabet : bytes) : Prop :=
  forall v, 0 <= v < 64 -> exists c, alphabet !! Z.to_nat v = Some c /\ base64_value alphabet c = Some v /\ c <> x3d.

Lemma good_alphabet_eval (alphabet : bytes) :
  forallb (fun k => match alphabet !! k with
    | Some c => match position (byte_eqb c) alphabet with Some j => (j =? k)%nat && negb (byte_eqb c x3d) | None => false end
    | None => false end) (seq 0 64) = true -> good_alphabet alphabet.
Proof.
  intros Hall v Hv. rewrite forallb_forall in Hall. specialize (Hall (Z.to_nat v) ltac:(apply in_seq; lia)).
  destruct (alphabet !! Z.to_nat v) as [c|]; [|discriminate Hall]. exists c. split; [done|]. unfold base64_value.
  destruct (position _ _) as [j|]; [|discriminate Hall]. apply andb_true_iff in Hall as [H1 H2]. apply Nat.eqb_eq in H1.
  apply negb_true_iff, byte_eqb_neq in H2. split; [f_equal; lia|done].
Qed.

Lemma standard_alphabet_good : good_alphabet BASE64_STANDARD_ALPHABET.
Proof. apply good_alphabet_eval. vm_compute. reflexivity. Qed.

Lemma url_alphabet_good : good_alphabet BASE64_URL_ALPHABET.
Proof. apply good_alphabet_eval. vm_compute. reflexivity. Qed.

Lemma land3 (b : byte) : Z.land (u8 b) 3 = u8 b mod 4.
Proof. apply (land_mask (u8 b) 2). lia. Qed.

(** The four sextets of three octets. *)
Lemma sextet_0 (b : byte) : Z.shiftr (u8 b) 2 = u8 b / 4 /\ 0 <= u8 b / 4 < 64.
Proof.
  rewrite Z.shiftr_div_pow2 by lia. pose proof (u8_range b). change (2 ^ 2) with 4.
  pose proof (Z.div_mod (u8 b) 4 ltac:(done)). pose proof (Z.mod_pos_bound (u8 b) 4 ltac:(done)). lia.
Qed.

Lemma sextet_high (b : byte) : shl8 (Z.land (u8 b) 3) 4 = u8 b mod 4 * 16 /\ 0 <= u8 b mod 4 < 4.
Proof.
  unfold shl8. rewrite land3, Z.shiftl_mul_pow2 by lia. change (2 ^ 4) with 16.
  pose proof (Z.mod_pos_bound (u8 b) 4 ltac:(done)). by rewrite Z.mod_small by lia.
Qed.

Lemma sextet_1 (a b : byte) :
  Z.lor (shl8 (Z.land (u8 a) 3) 4) (Z.shiftr (u8 b) 4) = u8 a mod 4 * 16 + u8 b / 16 /\ 0 <= u8 b / 16 < 16.
Proof.
  destruct (sextet_high a) as [-> Ha]. destruct (nibble_ranges b) as (Hb & _). rewrite shr4. split; [|done].
  by rewrite (lor_mul_add _ _ 4).
Qed.

Lemma sextet_low (b : byte) : shl8 (Z.land (u8 b) 15) 2 = u8 b mod 16 * 4 /\ 0 <= u8 b mod 16 < 16.
Proof.
  unfold shl8. rewrite land15, Z.shiftl_mul_pow2 by lia. change (2 ^ 2) with 4.
  pose proof (Z.mod_pos_bound (u8 b) 16 ltac:(done)). by rewrite Z.mod_small by lia.
Qed.

Lemma sextet_2 (a b : byte) :
  Z.lor (shl8 (Z.land (u8 a) 15) 2) (Z.shiftr (u8 b) 6) = u8 a mod 16 * 4 + u8 b / 64 /\ 0 <= u8 b / 64 < 4.
Proof.
  destruct (sextet_low a) as [-> Ha]. rewrite Z.shiftr_div_pow2 by lia. change (2 ^ 6) with 64. pose proof (u8_range b).
  pose proof (Z.div_mod (u8 b) 64 ltac:(done)). pose proof (Z.mod_pos_bound (u8 b) 64 ltac:(done)).
  assert (0 <= u8 b / 64 < 4) by lia. split; [by rewrite (lor_mul_add _ _ 2)|done].
Qed.

Lemma sextet_3 (b : byte) : Z.land (u8 b) 63 = u8 b mod 64 /\ 0 <= u8 b mod 64 < 64.
Proof. split; [apply (land_mask (u8 b) 6); lia|]. by apply Z.mod_pos_bound. Qed.

(** The octets again. *)
Lemma octet_0 (x : byte) (h : Z) : 0 <= h < 16 -> of_u8 (u8 x / 4 * 4 + (u8 x mod 4 * 16 + h) / 16) = x.
Proof.
  intros Hh. rewrite (Z.add_comm (_ * 16)), Z.div_add, (Z.div_small h) by (done || lia). rewrite Z.add_0_l.
  rewrite (Z.mul_comm (u8 x / 4)), <- Z.div_mod by done. apply of_u8_u8.
Qed.

Lemma octet_1 (y : byte) (g h : Z) : 0 <= h < 4 -> of_u8 ((g * 16 + u8 y / 16) mod 16 * 16 + (u8 y mod 16 * 4 + h) / 4) = y.
Proof.
  intros Hh. destruct (nibble_ranges y) as (H1 & H2 & H3).
  rewrite (Z.add_comm (g * 16)), Z.mod_add, (Z.mod_small (u8 y / 16)), (Z.add_comm (u8 y mod 16 * 4)), Z.div_add, (Z.div_small h) by (done || lia).
  rewrite Z.add_0_l, <- H3. apply of_u8_u8.
Qed.

Lemma octet_2 (z : byte) (g : Z) : of_u8 ((g * 4 + u8 z / 64) mod 4 * 64 + u8 z mod 64) = z.
Proof.
  pose proof (u8_range z). pose proof (Z.div_mod (u8 z) 64 ltac:(done)) as Hd. pose proof (Z.mod_pos_bound (u8 z) 64 ltac:(done)).
  rewrite (Z.add_comm (g * 4)), Z.mod_add, (Z.mod_small (u8 z / 64)) by (done || lia). rewrite (Z.mul_comm _ 64), <- Hd. apply of_u8_u8.
Qed.

Section base64.
Variable alphabet : bytes.
Hypothesis alphabet_good : good_alphabet alphabet.

Definition base64_pad (padded : bool) (remainder : bytes) : bytes :=
  if padded then repeat x3d ((3 - length remainder) mod 3) else [].

(** [body] is what the whole octets [bs] are encoded as. *)
Definition base64_body (bs body : bytes) : Prop :=
  decode_base64 alphabet body = Some bs /\ ~ x3d ∈ body /\ length body = ((4 * length bs + 2) / 3)%nat.

Lemma base64_character_Ok {E : Type} (v : Z) :
  0 <= v < 64 -> exists c, base64_character alphabet v = Ok c :> res E _ /\ base64_value alphabet c = Some v /\ x3d <> c.
Proof. intros (c & Hc & Hv & Hne)%alphabet_good. exists c. split; [by apply index_Ok|]. by split; [|congruence]. Qed.

Lemma encode_group_spec {E : Type} (out chunk : bytes) :
  length chunk = 3%nat ->
  exists c0 c1 c2 c3, encode_group alphabet out chunk = Ok (out ++ [c0; c1; c2; c3]) :> res E _ /\ ~ x3d ∈ [c0; c1; c2; c3] /\
    forall rest more, decode_base64 alphabet rest = Some more ->
      decode_base64 alphabet (c0 :: c1 :: c2 :: c3 :: rest) = Some (chunk ++ more).
Proof.
  intros Hl. destruct chunk as [|x [|y [|z [|]]]]; try discriminate Hl. unfold encode_group. cbn [index lookup list_lookup expect res_bind].
  destruct (sextet_0 x) as [-> H0], (sextet_1 x y) as [-> H1], (sextet_2 y z) as [-> H2], (sextet_3 z) as [-> H3].
  destruct (sextet_high x) as [_ Hx], (sextet_low y) as [_ Hy].
  destruct (base64_character_Ok (E := E) (u8 x / 4)) as (c0 & -> & V0 & N0); [lia|].
  destruct (base64_character_Ok (E := E) (u8 x mod 4 * 16 + u8 y / 16)) as (c1 & -> & V1 & N1); [lia|].
  destruct (base64_character_Ok (E := E) (u8 y mod 16 * 4 + u8 z / 64)) as (c2 & -> & V2 & N2); [lia|].
  destruct (base64_character_Ok (E := E) (u8 z mod 64)) as (c3 & -> & V3 & N3); [lia|].
  cbn [res_bind]. exists c0, c1, c2, c3. split_and!; [done| |].
  - rewrite !not_elem_of_cons. split_and!; try done. apply not_elem_of_nil.
  - intros rest more Hr. cbn [decode_base64]. rewrite V0, V1, V2, V3, Hr.
    rewrite octet_0, octet_1, octet_2 by done. done.
Qed.

Lemma encode_remainder_spec {E : Type} (padded : bool) (out remainder : bytes) :
  (length remainder < 3)%nat ->
  exists body, encode_remainder alphabet padded out remainder = Ok (out ++ body ++ base64_pad padded remainder) :> res E _ /\
    base64_body remainder body.
Proof.
  intros Hl. unfold encode_remainder, base64_pad, base64_body. destruct remainder as [|x [|y [|]]]; [..|simpl in Hl; lia].
  - exists []. cbn. split_and!; [|done|apply not_elem_of_nil|done]. destruct padded; by rewrite ?app_nil_r.
  - cbn [length Nat.eqb index lookup list_lookup expect res_bind].
    destruct (sextet_0 x) as [-> H0], (sextet_high x) as [-> H1].
    destruct (base64_character_Ok (E := E) (u8 x / 4)) as (c0 & -> & V0 & N0); [lia|].
    destruct (base64_character_Ok (E := E) (u8 x mod 4 * 16)) as (c1 & -> & V1 & N1); [lia|].
    cbn [res_bind]. exists [c0; c1]. split_and!; [by destruct padded| | |done].
    + cbn [decode_base64]. rewrite V0, V1. pose proof (octet_0 x 0 ltac:(lia)) as Hx. rewrite Z.add_0_r in Hx. by rewrite Hx.
    + rewrite !not_elem_of_cons. split_and!; try done. apply not_elem_of_nil.
  - cbn [length Nat.eqb index lookup list_lookup expect res_bind].
    destruct (sextet_0 x) as [-> H0], (sextet_1 x y) as [-> H1], (sextet_low y) as [-> H2], (sextet_high x) as [_ Hx].
    destruct (base64_character_Ok (E := E) (u8 x / 4)) as (c0 & -> & V0 & N0); [lia|].
    destruct (base64_character_Ok (E := E) (u8 x mod 4 * 16 + u8 y / 16)) as (c1 & -> & V1 & N1); [lia|].
    destruct (base64_character_Ok (E := E) (u8 y mod 16 * 4)) as (c2 & -> & V2 & N2); [lia|].
    cbn [res_bind]. exists [c0; c1; c2]. split_and!; [by destruct padded| | |done].
    + cbn [decode_base64]. rewrite V0, V1, V2, octet_0 by done. pose proof (octet_1 y (u8 x mod 4) 0 ltac:(lia)) as Hy.
      rewrite Z.add_0_r in Hy. by rewrite Hy.
    + rewrite !not_elem_of_cons. split_and!; try done. apply not_elem_of_nil.
Qed.

Lemma encode_base64_inner_spec {E : Type} (padded : bool) (input : bytes) :
  exists body, encode_base64_inner input alphabet padded = Ok (body ++ base64_pad padded (chunks_exact 3 input).2) :> res E _ /\
    base64_body input body.
Proof.
  unfold encode_base64_inner. destruct (chunks_exact_spec 3 input ltac:(lia)) as (Hc & Hf & Hr).
  destruct (chunks_exact 3 input) as [groups r]. cbn [fst snd] in *. subst input.
  assert (Hloop : forall out, exists body,
    (let? output := res_foldM (encode_group alphabet) out groups in encode_remainder alphabet padded output r) =
      Ok (out ++ body ++ base64_pad padded r) :> res E _ /\ base64_body (concat groups ++ r) body); [|apply (Hloop [])].
  induction Hf as [|g groups Hg Hf IH]; intros out; cbn [res_foldM res_bind]; [by apply encode_remainder_spec|].
  destruct (encode_group_spec (E := E) out g Hg) as (c0 & c1 & c2 & c3 & -> & Hne & Hd). cbn [res_bind].
  destruct (IH (out ++ [c0; c1; c2; c3])) as (body & -> & Hb1 & Hb2 & Hb3).
  exists (c0 :: c1 :: c2 :: c3 :: body). split; [by rewrite <- !app_assoc|]. split_and!.
  - cbn [concat]. rewrite <- app_assoc. by apply Hd.
  - change (c0 :: c1 :: c2 :: c3 :: body) with ([c0; c1; c2; c3] ++ body). rewrite not_elem_of_app. by split.
  - cbn [concat length]. rewrite Hb3, !length_app, Hg.
    replace (4 * (3 + length (concat groups) + length r) + 2)%nat with (4 * (length (concat groups) + length r) + 2 + 4 * 3)%nat by lia.
    rewrite Nat.div_add by lia. lia.
Qed.

End base64.

(** ** What the encodings do *)

(** Hexadecimal round-trips: every byte string is encoded, in lower case, and decoded back; decoding
    accepts exactly an even number of digits of either case, and otherwise names the first byte that is
    not a digit. The comparison answers equality. *)
Theorem hex_round_trip {E : Type} (bs s : bytes) :
  (exists h, encode_hex bs = Ok h :> res E _ /\ decode_hex h = Ok bs /\ length h = (2 * length bs)%nat) /\
  hex_decoded s (decode_hex s) /\ constant_time_eq bs s = bool_decide (bs = s).
Proof.
  split_and!; [|apply decode_hex_spec|apply constant_time_eq_spec].
  exists (hex_of bs). split_and!; [apply encode_hex_spec|apply decode_hex_of|apply length_hex_of].
Qed.

Lemma strip_padding (body : bytes) (n : nat) :
  ~ x3d ∈ body -> trim_end_matches (byte_eqb x3d) (body ++ repeat x3d n) = body.
Proof.
  intros Hb. unfold trim_end_matches. rewrite rev_app_distr, drop_while_app; [rewrite drop_while_none; [apply rev_involutive|]|].
  - apply Forall_rev, Forall_forall. intros c Hc. apply byte_eqb_neq. intros <-. by apply Hb.
  - apply Forall_rev, Forall_forall. intros c Hc. apply list_elem_of_In, repeat_spec in Hc as ->. done.
Qed.

Lemma base64_length (q r : nat) : (r < 3)%nat ->
  ((4 * (q * 3 + r) + 2) / 3 + (3 - r) mod 3)%nat = (4 * ((q * 3 + r + 2) / 3))%nat.
Proof.
  intros Hr. replace (4 * (q * 3 + r) + 2)%nat with (4 * r + 2 + 4 * q * 3)%nat by lia.
  replace (q * 3 + r + 2)%nat with (r + 2 + q * 3)%nat by lia. rewrite !Nat.div_add by lia.
  destruct r as [|[|[|]]]; [simpl; lia..|lia].
Qed.

(** Base64 and its URL form never panic, and RFC 4648 decodes what they encode to the same bytes; with
    padding the length is a multiple of four. *)
Theorem base64_round_trip {E : Type} (input : bytes) :
  (exists out, encode_base64 input = Ok out :> res E _ /\
    decode_base64 BASE64_STANDARD_ALPHABET (trim_end_matches (byte_eqb x3d) out) = Some input /\
    length out = (4 * ((length input + 2) / 3))%nat) /\
  (exists out, encode_base64_url_no_pad input = Ok out :> res E _ /\
    decode_base64 BASE64_URL_ALPHABET out = Some input /\ length out = ((4 * length input + 2) / 3)%nat).
Proof.
  split.
  - destruct (encode_base64_inner_spec BASE64_STANDARD_ALPHABET standard_alphabet_good (E := E) true input)
      as (body & Hb & Hd & Hne & Hl).
    eexists. split; [exact Hb|]. unfold base64_pad. rewrite strip_padding by done. split; [done|].
    rewrite length_app, repeat_length, Hl. destruct (chunks_exact_spec 3 input ltac:(lia)) as (_ & _ & Hr).
    rewrite <- (length_chunks_exact 3 input) by lia. by apply base64_length.
  - destruct (encode_base64_inner_spec BASE64_URL_ALPHABET url_alphabet_good (E := E) false input)
      as (body & Hb & Hd & Hne & Hl).
    exists body. cbn [base64_pad] in Hb. rewrite app_nil_r in Hb. done.
Qed.
