(* ===== verification/Poly1305.v ===== *)
(** * Poly1305: [src/crypto.rs]

    [poly1305_authenticate] in the 26-bit limbs of the code, with its 64-bit sums and products,
    which panic on overflow, and the choice of the reduced value by masks. It is shown to compute
    the polynomial of RFC 8439 modulo [2^130 - 5]. *)
From Stdlib Require Import ZArith Lia.
From stdpp Require Import prelude.
From S2P Require Import Prelude Bytes.
Local Open Scope Z_scope.
Set Warnings "-clear-no-such-hyp".

(** ** 64-bit integers *)
Definition u64_add {E : Type} (a b : Z) : res E Z := if a + b <=? u64_max then Ok (a + b) else Panic.
Definition u64_mul {E : Type} (a b : Z) : res E Z := if a * b <=? u64_max then Ok (a * b) else Panic.
Definition u64_wrap (a : Z) : Z := a mod 18446744073709551616.
Definition shl64 (a n : Z) : Z := u64_wrap (Z.shiftl a n).
Definition not64 (a : Z) : Z := Z.lxor a u64_max.

Definition POLY1305_BLOCK_SIZE : nat := 16.
Definition POLY1305_LIMB_MASK : Z := 67108863.
Definition POLY1305_FULL_BLOCK_HIGH_BIT : Z := 16777216.

Definition read_u32_le {E : Type} (bs : bytes) : res E Z := if (length bs =? 4)%nat then Ok (le_value bs) else Panic.

Definition word_at {E : Type} (bs : bytes) (i : nat) : res E Z :=
  let? part := slice bs i (i + 4) in
  read_u32_le part.

(** ** The limbs *)
Definition Limbs : Type := Z * Z * Z * Z * Z.

(** [r_bytes[index] &= mask] *)
Definition and_byte {E : Type} (mask : Z) (bs : bytes) (i : nat) : res E bytes :=
  let? b := index bs i in
  Ok (<[i := of_u8 (Z.land (u8 b) mask)]> bs).

Definition clamp {E : Type} (r_bytes : bytes) : res E bytes :=
  let? r_bytes := res_foldM (and_byte 15) r_bytes [3; 7; 11; 15]%nat in
  res_foldM (and_byte 252) r_bytes [4; 8; 12]%nat.

Definition block_limbs {E : Type} (block : bytes) : res E Limbs :=
  let? w0 := word_at block 0 in
  let? w1 := word_at block 3 in
  let? w2 := word_at block 6 in
  let? w3 := word_at block 9 in
  let? w4 := word_at block 12 in
  Ok (Z.land w0 POLY1305_LIMB_MASK, Z.land (Z.shiftr w1 2) POLY1305_LIMB_MASK, Z.land (Z.shiftr w2 4) POLY1305_LIMB_MASK,
      Z.land (Z.shiftr w3 6) POLY1305_LIMB_MASK, Z.shiftr w4 8).

Definition r_limbs {E : Type} (r_bytes : bytes) : res E Limbs :=
  let? (r0, r1, r2, r3, r4) := block_limbs r_bytes in
  Ok (r0, r1, r2, r3, Z.land r4 POLY1305_LIMB_MASK).

(** A sum of products, from the left. *)
Fixpoint dot {E : Type} (acc : Z) (products : list (Z * Z)) : res E Z :=
  match products with
  | [] => Ok acc
  | (a, b) :: products' =>
      let? p := u64_mul a b in
      let? acc := u64_add acc p in
      dot acc products'
  end.

(** [h += block] *)
Definition add_block {E : Type} (h m : Limbs) (high_bit : Z) : res E Limbs :=
  let '(h0, h1, h2, h3, h4) := h in
  let '(m0, m1, m2, m3, m4) := m in
  let? h0 := u64_add h0 m0 in
  let? h1 := u64_add h1 m1 in
  let? h2 := u64_add h2 m2 in
  let? h3 := u64_add h3 m3 in
  let? h4 := u64_add h4 (Z.lor m4 high_bit) in
  Ok (h0, h1, h2, h3, h4).

(** [h *= r], with the carries of the products passed on once. *)
Definition multiply {E : Type} (h r : Limbs) : res E Limbs :=
  let '(h0, h1, h2, h3, h4) := h in
  let '(r0, r1, r2, r3, r4) := r in
  let? r1_times_5 := u64_mul r1 5 in
  let? r2_times_5 := u64_mul r2 5 in
  let? r3_times_5 := u64_mul r3 5 in
  let? r4_times_5 := u64_mul r4 5 in
  let? d0 := dot 0 [(h0, r0); (h1, r4_times_5); (h2, r3_times_5); (h3, r2_times_5); (h4, r1_times_5)] in
  let? d1 := dot 0 [(h0, r1); (h1, r0); (h2, r4_times_5); (h3, r3_times_5); (h4, r2_times_5)] in
  let? d2 := dot 0 [(h0, r2); (h1, r1); (h2, r0); (h3, r4_times_5); (h4, r3_times_5)] in
  let? d3 := dot 0 [(h0, r3); (h1, r2); (h2, r1); (h3, r0); (h4, r4_times_5)] in
  let? d4 := dot 0 [(h0, r4); (h1, r3); (h2, r2); (h3, r1); (h4, r0)] in
  let? d1 := u64_add d1 (Z.shiftr d0 26) in
  let? d2 := u64_add d2 (Z.shiftr d1 26) in
  let? d3 := u64_add d3 (Z.shiftr d2 26) in
  let? d4 := u64_add d4 (Z.shiftr d3 26) in
  let? five := u64_mul (Z.shiftr d4 26) 5 in
  let? h0 := u64_add (Z.land d0 POLY1305_LIMB_MASK) five in
  let? h1 := u64_add (Z.land d1 POLY1305_LIMB_MASK) (Z.shiftr h0 26) in
  Ok (Z.land h0 POLY1305_LIMB_MASK, h1, Z.land d2 POLY1305_LIMB_MASK, Z.land d3 POLY1305_LIMB_MASK,
      Z.land d4 POLY1305_LIMB_MASK).

Definition absorb_chunk {E : Type} (r h : Limbs) (chunk : bytes) : res E Limbs :=
  let? block := copy_from_slice (repeat x00 POLY1305_BLOCK_SIZE) 0 (length chunk) chunk in
  let? (block, high_bit) :=
    if (length chunk =? POLY1305_BLOCK_SIZE)%nat then Ok (block, POLY1305_FULL_BLOCK_HIGH_BIT)
    else let? _ := index block (length chunk) in Ok (<[length chunk := x01]> block, 0) in
  let? m := block_limbs block in
  let? h := add_block h m high_bit in
  multiply h r.

(** The carries once more, from [h1] around to [h1]. *)
Definition carry_limbs {E : Type} (h : Limbs) : res E Limbs :=
  let '(h0, h1, h2, h3, h4) := h in
  let? h2 := u64_add h2 (Z.shiftr h1 26) in
  let? h3 := u64_add h3 (Z.shiftr h2 26) in
  let? h4 := u64_add h4 (Z.shiftr h3 26) in
  let? five := u64_mul (Z.shiftr h4 26) 5 in
  let? h0 := u64_add h0 five in
  let? h1 := u64_add (Z.land h1 POLY1305_LIMB_MASK) (Z.shiftr h0 26) in
  Ok (Z.land h0 POLY1305_LIMB_MASK, h1, Z.land h2 POLY1305_LIMB_MASK, Z.land h3 POLY1305_LIMB_MASK,
      Z.land h4 POLY1305_LIMB_MASK).

(** [h] or [h - p], chosen by the sign of the difference. *)
Definition select (select_h select_g h g : Z) : Z := Z.lor (Z.land h select_h) (Z.land g select_g).

Definition reduce {E : Type} (h : Limbs) : res E Limbs :=
  let '(h0, h1, h2, h3, h4) := h in
  let? g0 := u64_add h0 5 in
  let? g1 := u64_add h1 (Z.shiftr g0 26) in
  let? g2 := u64_add h2 (Z.shiftr g1 26) in
  let? g3 := u64_add h3 (Z.shiftr g2 26) in
  let g4 := u64_wrap (u64_wrap (h4 + Z.shiftr g3 26) - 67108864) in
  let select_g := u64_wrap (Z.shiftr g4 63 - 1) in
  let select_h := not64 select_g in
  Ok (select select_h select_g h0 (Z.land g0 POLY1305_LIMB_MASK), select select_h select_g h1 (Z.land g1 POLY1305_LIMB_MASK),
      select select_h select_g h2 (Z.land g2 POLY1305_LIMB_MASK), select select_h select_g h3 (Z.land g3 POLY1305_LIMB_MASK),
      select select_h select_g h4 g4).

(** The low 128 bits in 32-bit words, and the second half of the key added. *)
Definition finish {E : Type} (h : Limbs) (key : bytes) : res E bytes :=
  let '(h0, h1, h2, h3, h4) := h in
  let word_mask := u32_max in
  let f0 := Z.land (Z.lor h0 (shl64 h1 26)) word_mask in
  let f1 := Z.land (Z.lor (Z.shiftr h1 6) (shl64 h2 20)) word_mask in
  let f2 := Z.land (Z.lor (Z.shiftr h2 12) (shl64 h3 14)) word_mask in
  let f3 := Z.land (Z.lor (Z.shiftr h3 18) (shl64 h4 8)) word_mask in
  let? pad0 := word_at key 16 in
  let? pad1 := word_at key 20 in
  let? pad2 := word_at key 24 in
  let? pad3 := word_at key 28 in
  let? f0 := u64_add f0 pad0 in
  let? c1 := u64_add pad1 (Z.shiftr f0 32) in
  let? f1 := u64_add f1 c1 in
  let? c2 := u64_add pad2 (Z.shiftr f1 32) in
  let? f2 := u64_add f2 c2 in
  let? c3 := u64_add pad3 (Z.shiftr f2 32) in
  let? f3 := u64_add f3 c3 in
  let? words := res_mapM (fun w => if w <=? u32_max then Ok (le_bytes 4 w) else Panic)
                  [Z.land f0 word_mask; Z.land f1 word_mask; Z.land f2 word_mask; Z.land f3 word_mask] in
  Ok (concat words).

Definition poly1305_authenticate {E : Type} (key message : bytes) : res E bytes :=
  let? r_bytes := slice_to key 16 in
  let? r_bytes := clamp r_bytes in
  let? r := r_limbs r_bytes in
  let? h := res_foldM (absorb_chunk r) (0, 0, 0, 0, 0) (chunks POLY1305_BLOCK_SIZE message) in
  let? h := carry_limbs h in
  let? h := reduce h in
  finish h key.

(** ** Words and limbs *)
Lemma u64_add_Ok {E : Type} (a b : Z) : a + b <= u64_max -> u64_add a b = Ok (a + b) :> res E Z.
Proof. intros H. unfold u64_add. by rewrite (proj2 (Z.leb_le _ _) H). Qed.

Lemma u64_mul_Ok {E : Type} (a b : Z) : a * b <= u64_max -> u64_mul a b = Ok (a * b) :> res E Z.
Proof. intros H. unfold u64_mul. by rewrite (proj2 (Z.leb_le _ _) H). Qed.

Lemma word_at_Ok {E : Type} (bs : bytes) (i : nat) :
  (i + 4 <= length bs)%nat -> word_at bs i = Ok ((le_value bs / 256 ^ Z.of_nat i) mod 2 ^ 32) :> res E Z.
Proof.
  intros Hi. unfold word_at. rewrite slice_Ok by lia. cbn [res_bind]. unfold read_u32_le.
  replace (i + 4 - i)%nat with 4%nat by lia. set (w := take 4 (drop i bs)).
  assert (Hw : length w = 4%nat) by (unfold w; rewrite length_take, length_drop; lia).
  rewrite Hw. cbn [Nat.eqb]. f_equal. pose proof (le_value_range w) as Hr. unfold len in Hr. rewrite Hw in Hr.
  rewrite <- (take_drop i bs) at 1. rewrite <- (take_drop 4 (drop i bs)). fold w. rewrite !le_value_app.
  unfold len. rewrite Hw, length_take, Nat.min_l by lia. pose proof (le_value_range (take i bs)) as Hp.
  unfold len in Hp. rewrite length_take, Nat.min_l in Hp by lia.
  rewrite (Z.mul_comm (256 ^ Z.of_nat i)), Z.div_add, Z.div_small, Z.add_0_l by lia.
  change (256 ^ Z.of_nat 4) with (2 ^ 32). rewrite (Z.mul_comm (2 ^ 32)), Z.mod_add by done. by rewrite Z.mod_small.
Qed.

(** A few bits out of a word of a number. *)
Lemma word_bits (v a w s k : Z) : 0 <= a -> 0 <= s -> 0 <= k -> s + k <= w ->
  (((v / 2 ^ a) mod 2 ^ w) / 2 ^ s) mod 2 ^ k = (v / 2 ^ (a + s)) mod 2 ^ k.
Proof.
  intros Ha Hs Hk Hw. apply Z.bits_inj'. intros i Hi. destruct (Z_lt_ge_dec i k).
  - rewrite !Z.mod_pow2_bits_low, Z.div_pow2_bits, Z.mod_pow2_bits_low, !Z.div_pow2_bits by lia. f_equal. lia.
  - by rewrite !Z.mod_pow2_bits_high by lia.
Qed.

Definition B26 : Z := 67108864.

Lemma land_limb (x : Z) : Z.land x POLY1305_LIMB_MASK = x mod B26.
Proof. apply (land_mask x 26). lia. Qed.

Lemma shiftr_limb (x : Z) : Z.shiftr x 26 = x / B26.
Proof. by rewrite Z.shiftr_div_pow2. Qed.

Definition lval (h : Limbs) : Z :=
  let '(h0, h1, h2, h3, h4) := h in h0 + B26 * (h1 + B26 * (h2 + B26 * (h3 + B26 * h4))).

(** The limbs of a number. *)
Definition limbs_of_value (v : Z) : Limbs :=
  let v1 := v / B26 in
  let v2 := v1 / B26 in
  let v3 := v2 / B26 in
  let v4 := v3 / B26 in
  (v mod B26, v1 mod B26, v2 mod B26, v3 mod B26, v4).

Lemma limb_mod (x : Z) : x = x mod B26 + B26 * (x / B26).
Proof. pose proof (Z.div_mod x B26 ltac:(done)). lia. Qed.

Lemma limb_range (x : Z) : 0 <= x mod B26 < B26.
Proof. by apply Z.mod_pos_bound. Qed.

Lemma lval_limbs_of_value (v : Z) : lval (limbs_of_value v) = v.
Proof. unfold lval, limbs_of_value. cbn zeta. by rewrite <- !limb_mod. Qed.

Lemma block_limbs_Ok {E : Type} (block : bytes) :
  length block = 16%nat -> block_limbs block = Ok (limbs_of_value (le_value block)) :> res E _.
Proof.
  intros Hl. unfold block_limbs. pose proof (le_value_range block) as Hr. unfold len in Hr. rewrite Hl in Hr.
  rewrite !word_at_Ok by lia. cbn [res_bind]. rewrite !land_limb, !Z.shiftr_div_pow2 by lia. set (v := le_value block) in *.
  unfold limbs_of_value. cbn zeta. rewrite !Z.div_div by done.
  change (256 ^ Z.of_nat 0) with (2 ^ 0). change (256 ^ Z.of_nat 3) with (2 ^ 24).
  change (256 ^ Z.of_nat 6) with (2 ^ 48). change (256 ^ Z.of_nat 9) with (2 ^ 72). change (256 ^ Z.of_nat 12) with (2 ^ 96).
  assert (H4 : ((v / 2 ^ 96) mod 2 ^ 32) / 2 ^ 8 = v / (B26 * B26 * B26 * B26)).
  { rewrite (Z.mod_small (v / 2 ^ 96)); [rewrite Z.div_div by done; reflexivity|]. split; [apply Z.div_pos; [exact (proj1 Hr)|done]|].
    apply Z.div_lt_upper_bound; [done|]. exact (proj2 Hr). }
  rewrite H4. pose proof (word_bits v 0 32 0 26 ltac:(lia) ltac:(lia) ltac:(lia) ltac:(lia)) as H0.
  change (0 + 0) with 0 in H0. rewrite Z.pow_0_r, !Z.div_1_r in H0. rewrite Z.pow_0_r, Z.div_1_r.
  change B26 with (2 ^ 26) at 1 2 3 4. rewrite H0, (word_bits v 24 32 2 26), (word_bits v 48 32 4 26), (word_bits v 72 32 6 26) by lia. done.
Qed.

(** ** The limbs stay small *)
Definition P130 : Z := 2 ^ 130 - 5.

(** Limbs as they are between the blocks: only [h1] may be a little too large. *)
Definition nearly_reduced (h : Limbs) : Prop :=
  let '(h0, h1, h2, h3, h4) := h in
  0 <= h0 < B26 /\ 0 <= h1 < B26 + 8192 /\ 0 <= h2 < B26 /\ 0 <= h3 < B26 /\ 0 <= h4 < B26.

Definition canonical (h : Limbs) : Prop :=
  let '(h0, h1, h2, h3, h4) := h in
  0 <= h0 < B26 /\ 0 <= h1 < B26 /\ 0 <= h2 < B26 /\ 0 <= h3 < B26 /\ 0 <= h4 < B26.

Definition below (bound : Z) (h : Limbs) : Prop :=
  let '(h0, h1, h2, h3, h4) := h in
  0 <= h0 <= bound /\ 0 <= h1 <= bound /\ 0 <= h2 <= bound /\ 0 <= h3 <= bound /\ 0 <= h4 <= bound.

(** One product of a limb of [h] and a limb of [r], which may have been multiplied by five. *)
Definition product_max : Z := 268435456 * (5 * B26).

Lemma dot_Ok {E : Type} (acc : Z) (products : list (Z * Z)) :
  0 <= acc -> Forall (fun '(a, b) => 0 <= a <= 268435456 /\ 0 <= b <= 5 * B26) products ->
  acc + len products * product_max <= u64_max ->
  dot acc products = Ok (fold_left (fun s '(a, b) => s + a * b) products acc) :> res E Z.
Proof.
  revert acc. induction products as [|[a b] products IH]; intros acc Ha Hf Hb; [done|]. apply Forall_cons in Hf as [[H1 H2] Hf].
  rewrite len_cons in Hb. cbn [dot fold_left]. pose proof (len_nonneg products).
  assert (Hab : 0 <= a * b <= product_max) by (unfold product_max in *; nia).
  assert (0 <= len products * product_max) by (apply Z.mul_nonneg_nonneg; [done|unfold product_max, B26; lia]).
  rewrite u64_mul_Ok by lia. cbn [res_bind]. rewrite u64_add_Ok by lia. cbn [res_bind]. apply IH; [lia|done|lia].
Qed.

Lemma fold_bound (acc : Z) (products : list (Z * Z)) :
  Forall (fun '(a, b) => 0 <= a <= 268435456 /\ 0 <= b <= 5 * B26) products ->
  acc <= fold_left (fun s '(a, b) => s + a * b) products acc <= acc + len products * product_max.
Proof.
  revert acc. induction products as [|[a b] products IH]; intros acc Hf; [change (len []) with 0; simpl; lia|].
  apply Forall_cons in Hf as [[H1 H2] Hf]. cbn [fold_left]. rewrite len_cons. specialize (IH (acc + a * b) Hf).
  assert (Hab : 0 <= a * b <= product_max) by (unfold product_max in *; nia). lia.
Qed.

(** Five products at once: the sum, and its bound. *)
Lemma dot5 {E : Type} (a0 b0 a1 b1 a2 b2 a3 b3 a4 b4 : Z) :
  Forall (fun '(a, b) => 0 <= a <= 268435456 /\ 0 <= b <= 5 * B26) [(a0, b0); (a1, b1); (a2, b2); (a3, b3); (a4, b4)] ->
  dot 0 [(a0, b0); (a1, b1); (a2, b2); (a3, b3); (a4, b4)] =
    Ok (a0 * b0 + a1 * b1 + a2 * b2 + a3 * b3 + a4 * b4) :> res E Z /\
  0 <= a0 * b0 + a1 * b1 + a2 * b2 + a3 * b3 + a4 * b4 <= 5 * product_max.
Proof.
  intros Hf. rewrite dot_Ok by (done || by vm_compute). pose proof (fold_bound 0 _ Hf) as Hb.
  cbn [fold_left] in *. change (len _) with 5 in Hb. rewrite Z.add_0_l in *. split; [done|lia].
Qed.

Lemma limb_div_bound (x b : Z) : 0 <= x < b * B26 -> 0 <= x / B26 < b.
Proof. intros H. split; [apply Z.div_pos; [lia|done]|]. apply Z.div_lt_upper_bound; [done|]. lia. Qed.

Lemma mod_shift (a b k m : Z) : a = b + k * m -> a mod m = b mod m.
Proof. intros ->. apply Z_mod_plus_full. Qed.

Ltac five_products := repeat (constructor; [unfold B26; lia|]); constructor.

(** The carries of the products, once around. *)
Lemma carry_products {E : Type} (d0 d1 d2 d3 d4 : Z) :
  0 <= d0 <= 5 * product_max -> 0 <= d1 <= 5 * product_max -> 0 <= d2 <= 5 * product_max ->
  0 <= d3 <= 5 * product_max -> 0 <= d4 <= 5 * product_max ->
  exists h' c,
    (let? d1 := u64_add d1 (Z.shiftr d0 26) in
     let? d2 := u64_add d2 (Z.shiftr d1 26) in
     let? d3 := u64_add d3 (Z.shiftr d2 26) in
     let? d4 := u64_add d4 (Z.shiftr d3 26) in
     let? five := u64_mul (Z.shiftr d4 26) 5 in
     let? h0 := u64_add (Z.land d0 POLY1305_LIMB_MASK) five in
     let? h1 := u64_add (Z.land d1 POLY1305_LIMB_MASK) (Z.shiftr h0 26) in
     Ok (Z.land h0 POLY1305_LIMB_MASK, h1, Z.land d2 POLY1305_LIMB_MASK, Z.land d3 POLY1305_LIMB_MASK,
         Z.land d4 POLY1305_LIMB_MASK)) = Ok h' :> res E _ /\ nearly_reduced h' /\
    lval h' = lval (d0, d1, d2, d3, d4) - c * P130.
Proof.
  intros D0 D1 D2 D3 D4. change (5 * product_max) with 450359962737049600 in *. rewrite !shiftr_limb.
  pose proof (limb_mod d0) as M0. pose proof (limb_range d0) as L0. pose proof (limb_div_bound d0 8589934592) as Q0.
  specialize (Q0 ltac:(unfold B26; lia)). set (c0 := d0 / B26) in *.
  rewrite u64_add_Ok by (unfold u64_max; lia). cbn [res_bind]. rewrite shiftr_limb. set (e1 := d1 + c0) in *.
  pose proof (limb_mod e1) as M1. pose proof (limb_range e1) as L1. pose proof (limb_div_bound e1 8589934592) as Q1.
  specialize (Q1 ltac:(unfold B26; lia)). set (c1 := e1 / B26) in *.
  rewrite u64_add_Ok by (unfold u64_max; lia). cbn [res_bind]. rewrite shiftr_limb. set (e2 := d2 + c1) in *.
  pose proof (limb_mod e2) as M2. pose proof (limb_range e2) as L2. pose proof (limb_div_bound e2 8589934592) as Q2.
  specialize (Q2 ltac:(unfold B26; lia)). set (c2 := e2 / B26) in *.
  rewrite u64_add_Ok by (unfold u64_max; lia). cbn [res_bind]. rewrite shiftr_limb. set (e3 := d3 + c2) in *.
  pose proof (limb_mod e3) as M3. pose proof (limb_range e3) as L3. pose proof (limb_div_bound e3 8589934592) as Q3.
  specialize (Q3 ltac:(unfold B26; lia)). set (c3 := e3 / B26) in *.
  rewrite u64_add_Ok by (unfold u64_max; lia). cbn [res_bind]. rewrite shiftr_limb. set (e4 := d4 + c3) in *.
  pose proof (limb_mod e4) as M4. pose proof (limb_range e4) as L4. pose proof (limb_div_bound e4 8589934592) as Q4.
  specialize (Q4 ltac:(unfold B26; lia)). set (c4 := e4 / B26) in *.
  rewrite u64_mul_Ok by (unfold u64_max; lia). cbn [res_bind]. rewrite !land_limb.
  rewrite u64_add_Ok by (unfold u64_max, B26 in *; lia). cbn [res_bind]. rewrite !shiftr_limb. set (f0 := d0 mod B26 + c4 * 5) in *.
  pose proof (limb_mod f0) as M5. pose proof (limb_range f0) as L5. pose proof (limb_div_bound f0 8192) as Q5.
  specialize (Q5 ltac:(unfold B26 in *; lia)). set (c5 := f0 / B26) in *.
  rewrite u64_add_Ok by (unfold u64_max, B26 in *; lia). cbn [res_bind]. rewrite !land_limb.
  eexists _, c4. split; [done|]. unfold nearly_reduced. split; [split_and!; lia|].
  cbn [lval]. unfold P130. change (2 ^ 130) with (B26 * B26 * B26 * B26 * B26). unfold e1, e2, e3, e4, f0 in *. unfold B26 in *. lia.
Qed.

Lemma multiply_spec {E : Type} (h r : Limbs) :
  below 268435456 h -> below B26 r ->
  exists h', multiply h r = Ok h' :> res E _ /\ nearly_reduced h' /\ lval h' mod P130 = (lval h * lval r) mod P130.
Proof.
  destruct h as [[[[h0 h1] h2] h3] h4], r as [[[[r0 r1] r2] r3] r4]. intros (H0 & H1 & H2 & H3 & H4) (R0 & R1 & R2 & R3 & R4).
  cbn [multiply]. unfold B26 in R0, R1, R2, R3, R4.
  do 4 (rewrite u64_mul_Ok by (unfold u64_max; lia); cbn [res_bind]).
  destruct (dot5 (E := E) h0 r0 h1 (r4 * 5) h2 (r3 * 5) h3 (r2 * 5) h4 (r1 * 5)) as [-> D0]; [five_products|].
  cbn [res_bind]. remember (h0 * r0 + _ + _ + _ + _) as d0 eqn:E0.
  destruct (dot5 (E := E) h0 r1 h1 r0 h2 (r4 * 5) h3 (r3 * 5) h4 (r2 * 5)) as [-> D1]; [five_products|].
  cbn [res_bind]. remember (h0 * r1 + _ + _ + _ + _) as d1 eqn:E1.
  destruct (dot5 (E := E) h0 r2 h1 r1 h2 r0 h3 (r4 * 5) h4 (r3 * 5)) as [-> D2]; [five_products|].
  cbn [res_bind]. remember (h0 * r2 + _ + _ + _ + _) as d2 eqn:E2.
  destruct (dot5 (E := E) h0 r3 h1 r2 h2 r1 h3 r0 h4 (r4 * 5)) as [-> D3]; [five_products|].
  cbn [res_bind]. remember (h0 * r3 + _ + _ + _ + _) as d3 eqn:E3.
  destruct (dot5 (E := E) h0 r4 h1 r3 h2 r2 h3 r1 h4 r0) as [-> D4]; [five_products|].
  cbn [res_bind]. remember (h0 * r4 + _ + _ + _ + _) as d4 eqn:E4.
  destruct (carry_products (E := E) d0 d1 d2 d3 d4 D0 D1 D2 D3 D4) as (h' & c & -> & Hn & Hv).
  exists h'. split_and!; [done|done|]. rewrite Hv.
  apply (mod_shift _ _ (- (c + (h1 * r4 + h2 * r3 + h3 * r2 + h4 * r1) + B26 * (h2 * r4 + h3 * r3 + h4 * r2)
    + B26 * B26 * (h3 * r4 + h4 * r3) + B26 * B26 * B26 * (h4 * r4)))).
  subst d0 d1 d2 d3 d4. cbn [lval]. unfold P130. change (2 ^ 130) with (B26 * B26 * B26 * B26 * B26). ring.
Qed.

(** ** Blocks *)
Definition block_value (chunk : bytes) : Z := le_value chunk + 256 ^ len chunk.

Lemma add_block_spec {E : Type} (h : Limbs) (v high : Z) :
  nearly_reduced h -> 0 <= v < 2 ^ 128 -> high = 0 \/ high = POLY1305_FULL_BLOCK_HIGH_BIT ->
  exists h', add_block h (limbs_of_value v) high = Ok h' :> res E _ /\ below 268435456 h' /\
    lval h' = lval h + v + high * 2 ^ 104.
Proof.
  destruct h as [[[[h0 h1] h2] h3] h4]. intros (H0 & H1 & H2 & H3 & H4) Hv Hhigh. pose proof (lval_limbs_of_value v) as Hl.
  unfold limbs_of_value in *. cbn zeta in *. set (v1 := v / B26) in *. set (v2 := v1 / B26) in *. set (v3 := v2 / B26) in *.
  set (v4 := v3 / B26) in *. pose proof (limb_range v). pose proof (limb_range v1). pose proof (limb_range v2). pose proof (limb_range v3).
  assert (H4' : 0 <= v4 < 16777216).
  { unfold v4, v3, v2, v1. rewrite !Z.div_div by done. split; [apply Z.div_pos; [lia|done]|]. apply Z.div_lt_upper_bound; [done|].
    exact (proj2 Hv). }
  assert (Hor : Z.lor v4 high = v4 + high).
  { destruct Hhigh as [-> | ->]; [by rewrite Z.lor_0_r, Z.add_0_r|]. rewrite Z.lor_comm. change POLY1305_FULL_BLOCK_HIGH_BIT with (1 * 2 ^ 24).
    rewrite lor_mul_add by (done || lia). lia. }
  assert (0 <= high <= 16777216) by (destruct Hhigh as [-> | ->]; [lia|done]).
  cbn [add_block]. rewrite Hor. unfold B26 in *. do 5 (rewrite u64_add_Ok by (unfold u64_max; lia); cbn [res_bind]).
  eexists. split; [done|]. split; [unfold below; lia|]. cbn [lval] in *. unfold B26 in *. change (2 ^ 104) with 20282409603651670423947251286016. lia.
Qed.

Lemma absorb_chunk_spec {E : Type} (r h : Limbs) (chunk : bytes) :
  nearly_reduced h -> below B26 r -> (0 < length chunk <= 16)%nat ->
  exists h', absorb_chunk r h chunk = Ok h' :> res E _ /\ nearly_reduced h' /\
    lval h' mod P130 = ((lval h + block_value chunk) * lval r) mod P130.
Proof.
  intros Hh Hr Hl. unfold absorb_chunk. change POLY1305_BLOCK_SIZE with 16%nat.
  rewrite copy_from_slice_Ok by (rewrite ?repeat_length; lia). cbn [res_bind]. rewrite take_0, app_nil_l, drop_repeat.
  assert (Hblock : exists block high,
    (if (length chunk =? 16)%nat then Ok (chunk ++ repeat x00 (16 - length chunk), POLY1305_FULL_BLOCK_HIGH_BIT)
     else let? _ := index (chunk ++ repeat x00 (16 - length chunk)) (length chunk) in
          Ok (<[length chunk := x01]> (chunk ++ repeat x00 (16 - length chunk)), 0)) = Ok (block, high) :> res E _ /\
    length block = 16%nat /\ (high = 0 \/ high = POLY1305_FULL_BLOCK_HIGH_BIT) /\ le_value block + high * 2 ^ 104 = block_value chunk).
  { destruct (Nat.eqb_spec (length chunk) 16) as [E16|E16].
    - do 2 eexists. split; [done|]. rewrite E16, Nat.sub_diag, app_nil_r. split_and!; [done|by right|]. unfold block_value, len. by rewrite E16.
    - destruct (16 - length chunk)%nat as [|k] eqn:Ek; [lia|]. cbn [repeat].
      rewrite (index_Ok _ _ x00) by (rewrite lookup_app_r, Nat.sub_diag by lia; done). cbn [res_bind].
      do 2 eexists. split; [done|]. split_and!; [rewrite length_insert, length_app; cbn [length]; rewrite repeat_length; lia|by left|].
      rewrite insert_app_r_alt, Nat.sub_diag by lia. cbn [insert list_insert].
      rewrite le_value_app, le_value_cons. unfold block_value. replace (le_value (repeat x00 k)) with 0; [change (u8 x01) with 1; lia|].
      clear. induction k as [|k IH]; [done|]. cbn [repeat]. rewrite le_value_cons, <- IH. done. }
  destruct Hblock as (block & high & -> & Hlb & Hhigh & Hv). cbn [res_bind]. rewrite block_limbs_Ok by done. cbn [res_bind].
  pose proof (le_value_range block) as Hrange. unfold len in Hrange. rewrite Hlb in Hrange.
  destruct (add_block_spec (E := E) h (le_value block) high Hh Hrange Hhigh) as (h1 & -> & Hb1 & Hv1). cbn [res_bind].
  destruct (multiply_spec (E := E) h1 r Hb1 Hr) as (h2 & Hm & Hn2 & Hv2). exists h2. split_and!; [done|done|].
  rewrite Hv2, Hv1. f_equal. f_equal. lia.
Qed.

(** The polynomial of RFC 8439, by Horner's rule. *)
Definition poly (r : Z) (message : bytes) : Z :=
  fold_left (fun acc chunk => ((acc + block_value chunk) * r) mod P130) (chunks 16 message) 0.

Lemma chunks_bounds {A : Type} (n : nat) (l : list A) : (0 < n)%nat ->
  Forall (fun c => 0 < length c <= n)%nat (chunks n l).
Proof.
  intros Hn. unfold chunks. destruct (chunks_exact_spec n l Hn) as (_ & Hf & Hr). destruct (chunks_exact n l) as [cs r]. cbn [fst snd] in *.
  assert (Hcs : Forall (fun c => 0 < length c <= n)%nat cs) by (eapply Forall_impl; [exact Hf|]; simpl; lia).
  destruct r as [|x r]; [done|]. apply Forall_app. split; [done|]. constructor; [simpl in *; lia|constructor].
Qed.

Lemma absorb_loop_spec {E : Type} (r : Limbs) (cs : list bytes) (h : Limbs) (acc : Z) :
  below B26 r -> Forall (fun c => 0 < length c <= 16)%nat cs -> nearly_reduced h -> lval h mod P130 = acc mod P130 ->
  exists h', res_foldM (absorb_chunk r) h cs = Ok h' :> res E _ /\ nearly_reduced h' /\
    lval h' mod P130 = fold_left (fun acc chunk => ((acc + block_value chunk) * lval r) mod P130) cs acc mod P130.
Proof.
  intros Hr Hcs. revert h acc. induction Hcs as [|c cs Hc Hcs IH]; intros h acc Hh Hv; [by exists h|]. cbn [res_foldM fold_left].
  destruct (absorb_chunk_spec (E := E) r h c Hh Hr Hc) as (h1 & -> & Hn1 & Hv1). cbn [res_bind]. apply IH; [done|].
  rewrite Z.mod_mod by done. rewrite Hv1. rewrite Z.mul_mod, Z.add_mod, Hv, <- Z.add_mod, <- Z.mul_mod by done. done.
Qed.

(** ** The last carries and the choice *)
Lemma carry_limbs_spec {E : Type} (h : Limbs) :
  nearly_reduced h ->
  exists h' c, carry_limbs h = Ok h' :> res E _ /\ canonical h' /\ lval h' = lval h - c * P130.
Proof.
  destruct h as [[[[h0 h1] h2] h3] h4]. intros (H0 & H1 & H2 & H3 & H4). cbn [carry_limbs]. rewrite !shiftr_limb.
  pose proof (limb_mod h1) as M1. pose proof (limb_range h1) as L1. set (c1 := h1 / B26) in *.
  assert (C1 : (c1 = 0 /\ h1 < B26) \/ (c1 = 1 /\ h1 mod B26 < 8192)) by (unfold B26 in *; lia).
  rewrite u64_add_Ok by (unfold u64_max, B26 in *; lia). cbn [res_bind]. rewrite !shiftr_limb. set (e2 := h2 + c1) in *.
  pose proof (limb_mod e2) as M2. pose proof (limb_range e2) as L2. set (c2 := e2 / B26) in *.
  assert (C2 : 0 <= c2 <= c1) by (unfold e2, B26 in *; lia).
  rewrite u64_add_Ok by (unfold u64_max, B26 in *; lia). cbn [res_bind]. rewrite !shiftr_limb. set (e3 := h3 + c2) in *.
  pose proof (limb_mod e3) as M3. pose proof (limb_range e3) as L3. set (c3 := e3 / B26) in *.
  assert (C3 : 0 <= c3 <= c2) by (unfold e3, B26 in *; lia).
  rewrite u64_add_Ok by (unfold u64_max, B26 in *; lia). cbn [res_bind]. rewrite !shiftr_limb. set (e4 := h4 + c3) in *.
  pose proof (limb_mod e4) as M4. pose proof (limb_range e4) as L4. set (c4 := e4 / B26) in *.
  assert (C4 : 0 <= c4 <= c3) by (unfold e4, B26 in *; lia).
  rewrite u64_mul_Ok by (unfold u64_max, B26 in *; lia). cbn [res_bind]. rewrite !land_limb.
  rewrite u64_add_Ok by (unfold u64_max, B26 in *; lia). cbn [res_bind]. rewrite !shiftr_limb. set (f0 := h0 + c4 * 5) in *.
  pose proof (limb_mod f0) as M5. pose proof (limb_range f0) as L5. set (c5 := f0 / B26) in *.
  assert (C5 : 0 <= c5 <= c4) by (unfold f0, B26 in *; lia).
  rewrite u64_add_Ok by (unfold u64_max, B26 in *; lia). cbn [res_bind]. rewrite !land_limb.
  eexists _, c4. split; [done|]. split; [unfold canonical, B26 in *; lia|].
  cbn [lval]. unfold P130. change (2 ^ 130) with (B26 * B26 * B26 * B26 * B26). unfold e2, e3, e4, f0 in *. unfold B26 in *. lia.
Qed.

Lemma select_h_mask (h g : Z) : 0 <= h <= u64_max -> select (not64 0) 0 h g = h.
Proof.
  intros Hh. unfold select. rewrite Z.land_0_r, Z.lor_0_r. change (not64 0) with (2 ^ 64 - 1). rewrite (land_mask h 64) by lia.
  apply Z.mod_small. unfold u64_max in Hh. lia.
Qed.

Lemma select_g_mask (h g : Z) : 0 <= g <= u64_max -> select (not64 (2 ^ 64 - 1)) (2 ^ 64 - 1) h g = g.
Proof.
  intros Hg. unfold select. change (not64 (2 ^ 64 - 1)) with 0. rewrite Z.land_0_r, Z.lor_0_l, (land_mask g 64) by lia.
  apply Z.mod_small. unfold u64_max in Hg. lia.
Qed.

Lemma canonical_range (h : Limbs) : canonical h -> 0 <= lval h < 2 ^ 130.
Proof. destruct h as [[[[h0 h1] h2] h3] h4]. cbn [canonical lval]. unfold B26. change (2 ^ 130) with 1361129467683753853853498429727072845824. lia. Qed.

Lemma reduce_spec {E : Type} (h : Limbs) :
  canonical h -> exists h', reduce h = Ok h' :> res E _ /\ canonical h' /\ lval h' = lval h mod P130.
Proof.
  intros Hc. pose proof (canonical_range h Hc) as Hrange. destruct h as [[[[h0 h1] h2] h3] h4]. destruct Hc as (H0 & H1 & H2 & H3 & H4).
  cbn [reduce]. unfold B26 in *.
  rewrite u64_add_Ok by (unfold u64_max; lia). cbn [res_bind]. rewrite !shiftr_limb. set (g0 := h0 + 5) in *.
  pose proof (limb_mod g0) as M0. pose proof (limb_range g0) as L0. set (c0 := g0 / B26) in *. unfold B26 in *.
  assert (C0 : 0 <= c0 <= 1) by (unfold g0 in *; lia).
  rewrite u64_add_Ok by (unfold u64_max; lia). cbn [res_bind]. rewrite !shiftr_limb. set (g1 := h1 + c0) in *.
  pose proof (limb_mod g1) as M1. pose proof (limb_range g1) as L1. set (c1 := g1 / B26) in *. unfold B26 in *.
  assert (C1 : 0 <= c1 <= 1) by (unfold g1 in *; lia).
  rewrite u64_add_Ok by (unfold u64_max; lia). cbn [res_bind]. rewrite !shiftr_limb. set (g2 := h2 + c1) in *.
  pose proof (limb_mod g2) as M2. pose proof (limb_range g2) as L2. set (c2 := g2 / B26) in *. unfold B26 in *.
  assert (C2 : 0 <= c2 <= 1) by (unfold g2 in *; lia).
  rewrite u64_add_Ok by (unfold u64_max; lia). cbn [res_bind]. rewrite !shiftr_limb. set (g3 := h3 + c2) in *.
  pose proof (limb_mod g3) as M3. pose proof (limb_range g3) as L3. set (c3 := g3 / B26) in *. unfold B26 in *.
  assert (C3 : 0 <= c3 <= 1) by (unfold g3 in *; lia).
  assert (Hw : u64_wrap (h4 + c3) = h4 + c3) by (apply Z.mod_small; lia). rewrite Hw, !land_limb. unfold B26 in *.
  (* the value of g *)
  assert (Hg : g0 mod 67108864 + 67108864 * (g1 mod 67108864 + 67108864 * (g2 mod 67108864 + 67108864 * (g3 mod 67108864
    + 67108864 * (h4 + c3)))) = lval (h0, h1, h2, h3, h4) + 5).
  { cbn [lval]. unfold B26, g0, g1, g2, g3 in *. lia. }
  set (v := lval (h0, h1, h2, h3, h4)) in *. unfold P130. change (2 ^ 130) with 1361129467683753853853498429727072845824 in *.
  destruct (Z_lt_ge_dec (h4 + c3) 67108864) as [Hlt|Hge].
  - assert (Hs : u64_wrap (Z.shiftr (u64_wrap (h4 + c3 - 67108864)) 63 - 1) = 0).
    { assert (Hx : u64_wrap (h4 + c3 - 67108864) = h4 + c3 - 67108864 + 18446744073709551616).
      { unfold u64_wrap. symmetry. apply (Z.mod_unique _ _ (-1)); lia. }
      rewrite Hx, Z.shiftr_div_pow2 by lia. change (2 ^ 63) with 9223372036854775808.
      assert ((h4 + c3 - 67108864 + 18446744073709551616) / 9223372036854775808 = 1) as ->; [|done].
      symmetry. apply (Z.div_unique _ _ _ (h4 + c3 - 67108864 + 9223372036854775808)); lia. }
    rewrite Hs, !select_h_mask by (unfold u64_max; lia). eexists. split; [done|]. split; [unfold canonical, B26; lia|].
    fold v. symmetry. apply Z.mod_small. split; [lia|]. unfold g0, g1, g2, g3 in *. lia.
  - assert (Hx : u64_wrap (h4 + c3 - 67108864) = h4 + c3 - 67108864) by (apply Z.mod_small; lia).
    rewrite Hx. assert (Hs : u64_wrap (Z.shiftr (h4 + c3 - 67108864) 63 - 1) = 2 ^ 64 - 1).
    { rewrite Z.shiftr_div_pow2, Z.div_small by (change (2 ^ 63) with 9223372036854775808; lia). done. }
    rewrite Hs, !select_g_mask by (unfold u64_max; lia). eexists. split; [done|]. split; [unfold canonical, B26; lia|].
    apply (Z.mod_unique _ _ 1); [left; unfold lval, B26; lia|]. cbn [lval]. unfold B26. lia.
Qed.

(** ** The tag *)
Lemma land_u32 (x : Z) : Z.land x u32_max = x mod 2 ^ 32.
Proof. apply (land_mask x 32). lia. Qed.

(** Two limbs side by side in a word. *)
Lemma join_limbs (a b k : Z) : 0 <= k <= 26 -> 0 <= a < 2 ^ k -> 0 <= b < B26 ->
  Z.lor a (shl64 b k) = a + 2 ^ k * b.
Proof.
  intros Hk Ha Hb. unfold shl64, u64_wrap. rewrite Z.shiftl_mul_pow2 by lia.
  assert (2 ^ k <= 2 ^ 26) by (apply Z.pow_le_mono_r; lia). assert (0 < 2 ^ k) by (apply Z.pow_pos_nonneg; lia).
  rewrite Z.mod_small by (change (2 ^ 26) with 67108864 in *; unfold B26 in *; nia).
  rewrite Z.lor_comm, lor_mul_add by lia. lia.
Qed.

Lemma add_words {E : Type} (f p : Z) (q0 q1 q2 q3 : Z) :
  let w0 := f mod 2 ^ 32 in let w1 := (f / 2 ^ 32) mod 2 ^ 32 in
  let w2 := (f / 2 ^ 64) mod 2 ^ 32 in let w3 := (f / 2 ^ 96) mod 2 ^ 32 in
  0 <= q0 < 2 ^ 32 -> 0 <= q1 < 2 ^ 32 -> 0 <= q2 < 2 ^ 32 -> 0 <= q3 < 2 ^ 32 ->
  p = q0 + 2 ^ 32 * q1 + 2 ^ 64 * q2 + 2 ^ 96 * q3 ->
  exists words,
    (let? f0 := u64_add w0 q0 in
     let? c1 := u64_add q1 (Z.shiftr f0 32) in
     let? f1 := u64_add w1 c1 in
     let? c2 := u64_add q2 (Z.shiftr f1 32) in
     let? f2 := u64_add w2 c2 in
     let? c3 := u64_add q3 (Z.shiftr f2 32) in
     let? f3 := u64_add w3 c3 in
     let? words := res_mapM (fun w => if w <=? u32_max then Ok (le_bytes 4 w) else Panic)
                     [Z.land f0 u32_max; Z.land f1 u32_max; Z.land f2 u32_max; Z.land f3 u32_max] in
     Ok (concat words)) = Ok words :> res E _ /\ length words = 16%nat /\ le_value words = (f + p) mod 2 ^ 128.
Proof.
  intros w0 w1 w2 w3 Q0 Q1 Q2 Q3 Hp.
  assert (Hm : forall x, 0 <= x mod 2 ^ 32 < 2 ^ 32) by (intros; by apply Z.mod_pos_bound).
  assert (Hd : forall x, x = x mod 2 ^ 32 + 2 ^ 32 * (x / 2 ^ 32)) by (intros x; pose proof (Z.div_mod x (2 ^ 32) ltac:(done)); lia).
  pose proof (Hm f) as W0. pose proof (Hm (f / 2 ^ 32)) as W1. pose proof (Hm (f / 2 ^ 64)) as W2. pose proof (Hm (f / 2 ^ 96)) as W3.
  fold w0 in W0. fold w1 in W1. fold w2 in W2. fold w3 in W3.
  assert (Hf : f = w0 + 2 ^ 32 * w1 + 2 ^ 64 * w2 + 2 ^ 96 * w3 + 2 ^ 128 * (f / 2 ^ 128)).
  { pose proof (Hd f). pose proof (Hd (f / 2 ^ 32)). pose proof (Hd (f / 2 ^ 64)). pose proof (Hd (f / 2 ^ 96)).
    rewrite !Z.div_div in * by done. change (2 ^ 32 * 2 ^ 32) with (2 ^ 64) in *. change (2 ^ 64 * 2 ^ 32) with (2 ^ 96) in *.
    change (2 ^ 96 * 2 ^ 32) with (2 ^ 128) in *. fold w0 in H. fold w1 in H0. fold w2 in H1. fold w3 in H2.
    change (2 ^ 32) with 4294967296 in *. change (2 ^ 64) with 18446744073709551616 in *. change (2 ^ 96) with 79228162514264337593543950336 in *.
    change (2 ^ 128) with 340282366920938463463374607431768211456 in *. lia. }
  clearbody w0 w1 w2 w3. clear Hm. change (2 ^ 32) with 4294967296 in *.
  assert (Hdiv : forall x, 0 <= x < 3 * 4294967296 -> 0 <= x / 4294967296 <= 2 /\ 0 <= x mod 4294967296 < 4294967296).
  { intros x Hx. specialize (Hd x). pose proof (Z.mod_pos_bound x 4294967296 ltac:(done)). lia. }
  rewrite u64_add_Ok by (unfold u64_max; lia). cbn [res_bind]. set (f0 := w0 + q0).
  assert (F0 : 0 <= f0 < 3 * 4294967296) by lia. destruct (Hdiv f0 F0) as [C0 N0]. pose proof (Hd f0) as E0.
  rewrite Z.shiftr_div_pow2 by lia. change (2 ^ 32) with 4294967296 in *.
  rewrite u64_add_Ok by (unfold u64_max; lia). cbn [res_bind]. rewrite u64_add_Ok by (unfold u64_max; lia). cbn [res_bind].
  set (f1 := w1 + (q1 + f0 / 4294967296)).
  assert (F1 : 0 <= f1 < 3 * 4294967296) by lia. destruct (Hdiv f1 F1) as [C1 N1]. pose proof (Hd f1) as E1.
  rewrite Z.shiftr_div_pow2 by lia. change (2 ^ 32) with 4294967296 in *.
  rewrite u64_add_Ok by (unfold u64_max; lia). cbn [res_bind]. rewrite u64_add_Ok by (unfold u64_max; lia). cbn [res_bind].
  set (f2 := w2 + (q2 + f1 / 4294967296)).
  assert (F2 : 0 <= f2 < 3 * 4294967296) by lia. destruct (Hdiv f2 F2) as [C2 N2]. pose proof (Hd f2) as E2.
  rewrite Z.shiftr_div_pow2 by lia. change (2 ^ 32) with 4294967296 in *.
  rewrite u64_add_Ok by (unfold u64_max; lia). cbn [res_bind]. rewrite u64_add_Ok by (unfold u64_max; lia). cbn [res_bind].
  set (f3 := w3 + (q3 + f2 / 4294967296)).
  assert (F3 : 0 <= f3 < 3 * 4294967296) by lia. destruct (Hdiv f3 F3) as [C3 N3]. pose proof (Hd f3) as E3.
  rewrite !land_u32. change (2 ^ 32) with 4294967296 in *. cbn [res_mapM].
  rewrite !(proj2 (Z.leb_le _ _)) by (unfold u32_max; lia). cbn [res_bind concat]. rewrite app_nil_r.
  eexists. split; [done|]. split; [by rewrite !length_app, !length_le_bytes|].
  rewrite !le_value_app, !le_value_le_bytes. unfold len. rewrite !length_le_bytes. change (256 ^ Z.of_nat 4) with 4294967296.
  rewrite !Z.mod_mod by done. change (2 ^ 64) with 18446744073709551616 in *. change (2 ^ 96) with 79228162514264337593543950336 in *.
  change (2 ^ 128) with 340282366920938463463374607431768211456 in *.
  apply (Z.mod_unique _ _ (f / 340282366920938463463374607431768211456 + f3 / 4294967296)); [left; lia|]. unfold f3, f2, f1, f0 in *. lia.
Qed.

Lemma div_low (x low high m : Z) : 0 <= low < m -> x = low + m * high -> x / m = high.
Proof. intros Hl ->. symmetry. by apply (Z.div_unique _ _ _ low); [left|lia]. Qed.

(** The words of a canonical value. *)
Lemma tag_words (h0 h1 h2 h3 h4 : Z) :
  canonical (h0, h1, h2, h3, h4) ->
  let f := lval (h0, h1, h2, h3, h4) in
  Z.land (Z.lor h0 (shl64 h1 26)) u32_max = f mod 2 ^ 32 /\
  Z.land (Z.lor (Z.shiftr h1 6) (shl64 h2 20)) u32_max = (f / 2 ^ 32) mod 2 ^ 32 /\
  Z.land (Z.lor (Z.shiftr h2 12) (shl64 h3 14)) u32_max = (f / 2 ^ 64) mod 2 ^ 32 /\
  Z.land (Z.lor (Z.shiftr h3 18) (shl64 h4 8)) u32_max = (f / 2 ^ 96) mod 2 ^ 32.
Proof.
  intros (H0 & H1 & H2 & H3 & H4) f. rewrite !land_u32, !Z.shiftr_div_pow2 by lia.
  assert (Hq : forall x k, 0 <= k <= 26 -> 0 <= x < B26 ->
    0 <= x / 2 ^ k < 2 ^ (26 - k) /\ 0 <= x mod 2 ^ k < 2 ^ k /\ x = x mod 2 ^ k + 2 ^ k * (x / 2 ^ k)).
  { intros x k Hk Hx. assert (0 < 2 ^ k) by (apply Z.pow_pos_nonneg; lia). split_and!.
    - apply Z.div_pos; lia.
    - apply Z.div_lt_upper_bound; [done|]. rewrite <- Z.pow_add_r by lia. replace (k + (26 - k)) with 26 by lia. exact (proj2 Hx).
    - by apply Z.mod_pos_bound.
    - by apply Z.mod_pos_bound.
    - pose proof (Z.div_mod x (2 ^ k) ltac:(lia)). lia. }
  destruct (Hq h1 6 ltac:(lia) H1) as (Q1 & R1 & E1), (Hq h2 12 ltac:(lia) H2) as (Q2 & R2 & E2),
    (Hq h3 18 ltac:(lia) H3) as (Q3 & R3 & E3). clear Hq.
  rewrite (join_limbs h0 h1 26), (join_limbs _ h2 20), (join_limbs _ h3 14), (join_limbs _ h4 8) by (lia || done).
  change (2 ^ 6) with 64 in *. change (2 ^ 12) with 4096 in *. change (2 ^ 18) with 262144 in *. change (2 ^ (26 - 6)) with 1048576 in *.
  change (2 ^ (26 - 12)) with 16384 in *. change (2 ^ (26 - 18)) with 256 in *. change (2 ^ 26) with 67108864. change (2 ^ 20) with 1048576.
  change (2 ^ 14) with 16384. change (2 ^ 8) with 256. unfold f. cbn [lval]. unfold B26 in *. clear f.
  rewrite (div_low _ (h0 + 67108864 * (h1 mod 64)) (h1 / 64 + 1048576 * h2 + 70368744177664 * (h3 + 67108864 * h4)) (2 ^ 32))
    by (change (2 ^ 32) with 4294967296; lia).
  rewrite (div_low _ (h0 + 67108864 * h1 + 4503599627370496 * (h2 mod 4096)) (h2 / 4096 + 16384 * h3 + 1099511627776 * h4) (2 ^ 64))
    by (change (2 ^ 64) with 18446744073709551616; lia).
  rewrite (div_low _ (h0 + 67108864 * h1 + 4503599627370496 * h2 + 302231454903657293676544 * (h3 mod 262144)) (h3 / 262144 + 256 * h4) (2 ^ 96))
    by (change (2 ^ 96) with 79228162514264337593543950336; lia).
  change (2 ^ 32) with 4294967296. split_and!.
  - apply (mod_shift _ _ (- (1048576 * (h2 + 67108864 * (h3 + 67108864 * h4))))). ring.
  - apply (mod_shift _ _ (- (16384 * (h3 + 67108864 * h4)))). ring.
  - apply (mod_shift _ _ (- (256 * h4))). ring.
  - done.
Qed.

Lemma finish_spec {E : Type} (h : Limbs) (key : bytes) :
  canonical h -> length key = 32%nat ->
  exists tag, finish h key = Ok tag :> res E _ /\ length tag = 16%nat /\
    le_value tag = (lval h + le_value (drop 16 key)) mod 2 ^ 128.
Proof.
  intros Hc Hk. destruct h as [[[[h0 h1] h2] h3] h4]. destruct (tag_words _ _ _ _ _ Hc) as (T0 & T1 & T2 & T3).
  unfold finish. rewrite T0, T1, T2, T3. rewrite !word_at_Ok by lia. cbn [res_bind].
  assert (Hm : forall x, 0 <= x mod 2 ^ 32 < 2 ^ 32) by (intros; by apply Z.mod_pos_bound).
  apply add_words; [apply Hm..|]. pose proof (le_value_range (drop 16 key)) as Hp. unfold len in Hp. rewrite length_drop, Hk in Hp.
  set (p := le_value (drop 16 key)) in *.
  assert (Hdrop : le_value key / 256 ^ Z.of_nat 16 = p).
  { rewrite <- (take_drop 16 key) at 1. rewrite le_value_app. unfold len. rewrite length_take, Hk.
    pose proof (le_value_range (take 16 key)) as Hr. unfold len in Hr. rewrite length_take, Hk in Hr.
    apply (div_low _ (le_value (take 16 key))); [exact Hr|done]. }
  assert (Hdiv : forall k, 256 ^ Z.of_nat (16 + k) = 256 ^ Z.of_nat 16 * 256 ^ Z.of_nat k).
  { intros k. rewrite Nat2Z.inj_add, Z.pow_add_r by lia. done. }
  change 28%nat with (16 + 12)%nat. change 24%nat with (16 + 8)%nat. change 20%nat with (16 + 4)%nat.
  rewrite !Hdiv, <- !Z.div_div by (try done; apply Z.pow_nonzero; lia). rewrite Hdrop. clear Hdrop Hdiv T0 T1 T2 T3 Hc.
  change (256 ^ Z.of_nat 4) with (2 ^ 32). change (256 ^ Z.of_nat 8) with (2 ^ 64). change (256 ^ Z.of_nat 12) with (2 ^ 96).
  assert (Hd : forall x, x = x mod 2 ^ 32 + 2 ^ 32 * (x / 2 ^ 32)) by (intros x; pose proof (Z.div_mod x (2 ^ 32) ltac:(done)); lia).
  pose proof (Hd p) as D0. pose proof (Hd (p / 2 ^ 32)) as D1. pose proof (Hd (p / 2 ^ 64)) as D2.
  assert (D3 : (p / 2 ^ 96) mod 2 ^ 32 = p / 2 ^ 96).
  { apply Z.mod_small. split; [apply Z.div_pos; [lia|done]|]. apply Z.div_lt_upper_bound; [done|]. exact (proj2 Hp). }
  rewrite D3. rewrite !Z.div_div in * by done. change (2 ^ 32 * 2 ^ 32) with (2 ^ 64) in *. change (2 ^ 64 * 2 ^ 32) with (2 ^ 96) in *.
  change (2 ^ 32) with 4294967296 in *. change (2 ^ 64) with 18446744073709551616 in *.
  change (2 ^ 96) with 79228162514264337593543950336 in *. lia.
Qed.

(** ** Clamping *)
Definition CLAMP_MASK : Z := 0x0ffffffc0ffffffc0ffffffc0fffffff.

Lemma land_low_high (x y a b : Z) : 0 <= x < 256 -> 0 <= a < 256 ->
  Z.land (x + 256 * y) (a + 256 * b) = Z.land x a + 256 * Z.land y b.
Proof.
  intros Hx Ha. assert (E : forall u v, 0 <= u < 256 -> u + 256 * v = Z.lor (Z.shiftl v 8) u).
  { intros u v Hu. rewrite lor_shiftl_add by (done || lia). change (2 ^ 8) with 256. lia. }
  rewrite !E by done.
  assert (Hxa : 0 <= Z.land x a < 256).
  { split; [apply Z.land_nonneg; lia|]. rewrite <- (Z.mod_small x (2 ^ 8)), <- Z.land_ones, Z.land_comm, Z.land_assoc, Z.land_ones by (done || lia).
    by apply Z.mod_pos_bound. }
  rewrite E by done. apply Z.bits_inj'. intros i Hi. rewrite !Z.land_spec, !Z.lor_spec, Z.land_spec.
  destruct (Z_lt_ge_dec i 8).
  - by rewrite !Z.shiftl_spec_low by lia.
  - rewrite !Z.shiftl_spec_high, Z.land_spec by lia.
    rewrite (testbit_high x 8 i), (testbit_high a 8 i) by (done || lia). by rewrite !orb_false_r.
Qed.

Fixpoint and_bytes (a m : bytes) : bytes :=
  match a, m with
  | x :: a', y :: m' => of_u8 (Z.land (u8 x) (u8 y)) :: and_bytes a' m'
  | _, _ => []
  end.

Lemma land_u8 (x y : byte) : 0 <= Z.land (u8 x) (u8 y) < 256.
Proof.
  pose proof (u8_range x). pose proof (u8_range y). split; [apply Z.land_nonneg; lia|].
  rewrite <- (Z.mod_small (u8 x) (2 ^ 8)), <- Z.land_ones, Z.land_comm, Z.land_assoc, Z.land_ones by (done || lia).
  by apply Z.mod_pos_bound.
Qed.

Lemma le_value_and (a m : bytes) : length a = length m -> le_value (and_bytes a m) = Z.land (le_value a) (le_value m).
Proof.
  revert m. induction a as [|x a IH]; intros [|y m] Hl; try discriminate Hl; [done|]. cbn [and_bytes].
  rewrite !le_value_cons, IH, u8_of_u8 by (apply land_u8 || (injection Hl; done)).
  symmetry. apply land_low_high; apply u8_range.
Qed.

Lemma land_255 (b : byte) : of_u8 (Z.land (u8 b) 255) = b.
Proof. pose proof (u8_range b). pose proof (land_mask (u8 b) 8 ltac:(lia)) as Hm. change (2 ^ 8 - 1) with 255 in Hm. rewrite Hm, Z.mod_small by done. apply of_u8_u8. Qed.

Lemma clamp_spec {E : Type} (bs : bytes) :
  length bs = 16%nat -> exists r, clamp bs = Ok r :> res E _ /\ length r = 16%nat /\ le_value r = Z.land (le_value bs) CLAMP_MASK.
Proof.
  intros Hl. do 16 (destruct bs as [|? bs]; [discriminate Hl|]). destruct bs; [|discriminate Hl].
  eexists. split; [reflexivity|]. split; [reflexivity|].
  change CLAMP_MASK with (le_value [xff; xff; xff; x0f; xfc; xff; xff; x0f; xfc; xff; xff; x0f; xfc; xff; xff; x0f]).
  rewrite <- le_value_and by done. cbn [and_bytes]. change (u8 xff) with 255. rewrite !land_255. reflexivity.
Qed.

(** ** The authenticator *)

Lemma poly1305_spec {E : Type} (key message : bytes) :
  length key = 32%nat ->
  exists tag, poly1305_authenticate key message = Ok tag :> res E _ /\ length tag = 16%nat /\
    le_value tag = (poly (Z.land (le_value (take 16 key)) CLAMP_MASK) message + le_value (drop 16 key)) mod 2 ^ 128.
Proof.
  intros Hk. unfold poly1305_authenticate. rewrite slice_to_Ok by lia. cbn [res_bind].
  destruct (clamp_spec (E := E) (take 16 key)) as (r & -> & Hr & Hv); [rewrite length_take; lia|]. cbn [res_bind].
  rewrite <- Hv. unfold r_limbs. rewrite block_limbs_Ok by done. unfold limbs_of_value. cbn zeta. cbn [res_bind].
  set (v := le_value r) in *. pose proof (le_value_range r) as Hrange. unfold len in Hrange. rewrite Hr in Hrange. fold v in Hrange.
  assert (H4 : 0 <= v / B26 / B26 / B26 / B26 < B26).
  { rewrite !Z.div_div by done. split; [apply Z.div_pos; [lia|done]|]. apply Z.div_lt_upper_bound; [done|].
    eapply Z.lt_trans; [exact (proj2 Hrange)|done]. }
  rewrite land_limb, (Z.mod_small _ B26 H4).
  set (r_l := (v mod B26, (v / B26) mod B26, (v / B26 / B26) mod B26, (v / B26 / B26 / B26) mod B26, v / B26 / B26 / B26 / B26)).
  assert (Hrl : below B26 r_l) by (unfold r_l, below; pose proof limb_range as L; split_and!; first [apply L|exact (proj1 H4)|apply Z.lt_le_incl, L|exact (Z.lt_le_incl _ _ (proj2 H4))]).
  assert (Hrv : lval r_l = v) by apply lval_limbs_of_value. change POLY1305_BLOCK_SIZE with 16%nat.
  destruct (absorb_loop_spec (E := E) r_l (chunks 16 message) (0, 0, 0, 0, 0) 0 Hrl) as (h & -> & Hn & Hh);
    [by apply chunks_bounds; lia|unfold nearly_reduced, B26; lia|done|]. cbn [res_bind].
  destruct (carry_limbs_spec (E := E) h Hn) as (h1 & c & -> & Hc1 & Hv1). cbn [res_bind].
  destruct (reduce_spec (E := E) h1 Hc1) as (h2 & -> & Hc2 & Hv2). cbn [res_bind].
  destruct (finish_spec (E := E) h2 key Hc2 Hk) as (tag & -> & Ht & Htv). exists tag. split_and!; [done|done|].
  rewrite Htv, Hv2, Hv1. replace (lval h - c * P130) with (lval h + (- c) * P130) by lia. rewrite Z_mod_plus_full, Hh, Hrv.
  unfold poly. do 2 f_equal. destruct (chunks 16 message) as [|x l] eqn:El; [done|].
  assert (Hmod : forall l acc, l <> [] -> fold_left (fun acc chunk => ((acc + block_value chunk) * v) mod P130) l acc mod P130 =
                                fold_left (fun acc chunk => ((acc + block_value chunk) * v) mod P130) l acc).
  { intros k. induction k as [|y k IH]; intros acc Hne; [done|]. cbn [fold_left]. destruct k as [|z k]; [cbn [fold_left]; by apply Z.mod_mod|].
    by apply IH. }
  by apply Hmod.
Qed.

Lemma le_value_inj (a b : bytes) : length a = length b -> le_value a = le_value b -> a = b.
Proof.
  intros Hl E. rewrite <- (rev_involutive a), <- (rev_involutive b). f_equal. apply be_value_inj; [by rewrite !length_rev|exact E].
Qed.

(** The tag as a function of the one-time key and the message. *)
Definition mac (key message : bytes) : bytes :=
  le_bytes 16 (poly (Z.land (le_value (take 16 key)) CLAMP_MASK) message + le_value (drop 16 key)).

Lemma poly1305_mac {E : Type} (key message : bytes) :
  length key = 32%nat -> poly1305_authenticate key message = Ok (mac key message) :> res E _.
Proof.
  intros Hk. destruct (poly1305_spec (E := E) key message Hk) as (tag & -> & Hl & Hv). f_equal. unfold mac.
  apply le_value_inj; [by rewrite length_le_bytes|]. rewrite Hv, le_value_le_bytes. done.
Qed.

Lemma length_mac (key message : bytes) : length (mac key message) = 16%nat.
Proof. apply length_le_bytes. Qed.

(** C23: the authenticator returns the 16 bytes of RFC 8439: the polynomial of the message at the clamped [r]
    modulo [2^130 - 5], plus [s], modulo [2^128]. No 64-bit sum or product overflows, and the selection by
    masks takes the reduced value. *)
Theorem poly1305_correct {E : Type} (key message : bytes) :
  length key = 32%nat ->
  exists tag, poly1305_authenticate key message = Ok tag :> res E _ /\ length tag = 16%nat /\
    le_value tag = (poly (Z.land (le_value (take 16 key)) CLAMP_MASK) message + le_value (drop 16 key)) mod 2 ^ 128.
Proof. apply poly1305_spec. Qed.

Lemma poly1305_correct_witness :
  exists tag, poly1305_authenticate (E := unit) (repeat x07 32) (str "Cryptographic Forum Research Group") = Ok tag /\ length tag = 16%nat.
Proof.
  destruct (poly1305_correct (E := unit) (repeat x07 32) (str "Cryptographic Forum Research Group") ltac:(done)) as (tag & H1 & H2 & _).
  exists tag. split; [exact H1|exact H2].
Defined.
