(* ===== verification/ChaCha20.v ===== *)
(** * ChaCha20-Poly1305: [src/crypto.rs]

    The stream cipher, and the authenticated encryption of RFC 8439 made of it and of [Poly1305].
    Keys and nonces are arrays in the code; here they are byte strings of those lengths. *)
From Stdlib Require Import ZArith Lia.
From stdpp Require Import prelude.
From S2P Require Import Prelude Bytes Sha256 Encoding Poly1305.
Local Open Scope Z_scope.
Set Warnings "-clear-no-such-hyp".

(** ** The block function *)
Definition CHACHA20_BLOCK_SIZE : nat := 64.
Definition CHACHA20_CONSTANTS : list Z := [0x61707865; 0x3320646e; 0x79622d32; 0x6b206574].

Definition chacha20_quarter_round (a b c d : Z) : Z * Z * Z * Z :=
  let a := wrapping_add32 a b in
  let d := rotate_left (Z.lxor d a) 16 in
  let c := wrapping_add32 c d in
  let b := rotate_left (Z.lxor b c) 12 in
  let a := wrapping_add32 a b in
  let d := rotate_left (Z.lxor d a) 8 in
  let c := wrapping_add32 c d in
  let b := rotate_left (Z.lxor b c) 7 in
  (a, b, c, d).

Definition chacha20_quarter_round_state {E : Type} (state : list Z) (q : nat * nat * nat * nat) : res E (list Z) :=
  let '(a, b, c, d) := q in
  let? va := index state a in
  let? vb := index state b in
  let? vc := index state c in
  let? vd := index state d in
  let '(va, vb, vc, vd) := chacha20_quarter_round va vb vc vd in
  Ok (<[d := vd]> (<[c := vc]> (<[b := vb]> (<[a := va]> state)))).

(** Columns, then diagonals. *)
Definition double_round {E : Type} (state : list Z) (_ : nat) : res E (list Z) :=
  res_foldM chacha20_quarter_round_state state
    [(0, 4, 8, 12); (1, 5, 9, 13); (2, 6, 10, 14); (3, 7, 11, 15);
     (0, 5, 10, 15); (1, 6, 11, 12); (2, 7, 8, 13); (3, 4, 9, 14)]%nat.

Definition chacha20_block {E : Type} (key : bytes) (counter : Z) (nonce : bytes) : res E bytes :=
  let? key_words := res_mapM read_u32_le (chunks_exact 4 key).1 in
  let? nonce_words := res_mapM read_u32_le (chunks_exact 4 nonce).1 in
  let initial_state := CHACHA20_CONSTANTS ++ key_words ++ [counter] ++ nonce_words in
  let? state := res_foldM double_round initial_state (seq 0 10) in
  Ok (concat (map (fun '(word, initial_word) => le_bytes 4 (wrapping_add32 word initial_word)) (zip state initial_state))).

(** ** The stream cipher *)
Inductive ChaCha20Error : Type :=
| CounterExhausted (counter blocks : Z).

Definition chacha20_error_to_string (e : ChaCha20Error) : bytes :=
  match e with
  | CounterExhausted counter blocks =>
      str "ChaCha20 counter " ++ to_dec counter ++ str " cannot cover " ++ to_dec blocks ++ str " block(s)"
  end.

Definition xor_bytes (a b : bytes) : bytes := map (fun '(x, y) => xor_byte x y) (zip a b).

Definition xor_chunk {E : Type} (key nonce : bytes) (counter : Z) (output : bytes) (numbered : nat * bytes) : res E bytes :=
  let '(block_index, chunk) := numbered in
  let? block_offset := try_from u32_max (Z.of_nat block_index) in
  let? block_counter := expect (checked_add u32_max counter block_offset) in
  let? key_stream := chacha20_block key block_counter nonce in
  Ok (output ++ xor_bytes chunk key_stream).

(** [enumerate] *)
Definition enumerate {A : Type} (l : list A) : list (nat * A) := zip (seq 0 (length l)) l.

Definition chacha20_xor (key : bytes) (counter : Z) (nonce input : bytes) : res ChaCha20Error bytes :=
  let block_count := div_ceil (len input) 64 in
  let? block_count := try_from u64_max block_count in
  let? available_blocks := u64_add (u32_max - counter) 1 in
  if available_blocks <? block_count then Err (CounterExhausted counter block_count)
  else res_foldM (xor_chunk key nonce counter) [] (enumerate (chunks CHACHA20_BLOCK_SIZE input)).

(** ** Authenticated encryption *)
Inductive ChaCha20Poly1305Error : Type :=
| CipherFailure (e : ChaCha20Error)
| AuthenticationFailed.

Definition aead_error_to_string (e : ChaCha20Poly1305Error) : bytes :=
  match e with
  | CipherFailure e => str "ChaCha20-Poly1305 cipher failure: " ++ chacha20_error_to_string e
  | AuthenticationFailed => str "ChaCha20-Poly1305 authentication failed"
  end.

Definition compose_chacha20_poly1305_nonce {E : Type} (fixed_common invocation : bytes) : res E bytes :=
  let nonce := repeat x00 12 in
  let? nonce := copy_from_slice nonce 0 4 fixed_common in
  copy_from_slice nonce 4 12 invocation.

Definition chacha20_poly1305_one_time_key {E : Type} (key nonce : bytes) : res E bytes :=
  let? block := chacha20_block key 0 nonce in
  slice_to block 32.

Definition append_pad16 (output : bytes) (input_len : Z) : bytes :=
  let remainder := input_len mod 16 in
  if negb (remainder =? 0) then output ++ repeat x00 (Z.to_nat (16 - remainder)) else output.

Definition chacha20_poly1305_mac_data {E : Type} (aad ciphertext : bytes) : res E bytes :=
  let? aad_len := try_from u64_max (len aad) in
  let? ciphertext_len := try_from u64_max (len ciphertext) in
  let mac_data := append_pad16 aad (len aad) in
  let mac_data := append_pad16 (mac_data ++ ciphertext) (len ciphertext) in
  Ok (mac_data ++ le_bytes 8 aad_len ++ le_bytes 8 ciphertext_len).

Definition chacha20_poly1305_encrypt (key nonce aad plaintext : bytes) : res ChaCha20Poly1305Error (bytes * bytes) :=
  let? one_time_key := chacha20_poly1305_one_time_key key nonce in
  let? ciphertext := map_err CipherFailure (chacha20_xor key 1 nonce plaintext) in
  let? mac_data := chacha20_poly1305_mac_data aad ciphertext in
  let? tag := poly1305_authenticate one_time_key mac_data in
  Ok (ciphertext, tag).

Definition chacha20_poly1305_decrypt (key nonce aad ciphertext tag : bytes) : res ChaCha20Poly1305Error bytes :=
  let? one_time_key := chacha20_poly1305_one_time_key key nonce in
  let? mac_data := chacha20_poly1305_mac_data aad ciphertext in
  let? expected_tag := poly1305_authenticate one_time_key mac_data in
  if negb (constant_time_eq expected_tag tag) then Err AuthenticationFailed
  else map_err CipherFailure (chacha20_xor key 1 nonce ciphertext).

(** ** The block function, by rows *)
(** RFC 8439 has the state as a matrix of four rows. A quarter round of all columns at once is arithmetic on whole
    rows; the diagonals are the columns after the rows are turned by one, two and three places. *)
Definition rows : Type := list Z * list Z * list Z * list Z.

Definition mix (n : Z) (x y : list Z) : list Z := map (fun w => rotate_left w n) (zip_with Z.lxor x y).

Definition quarter_rows (s : rows) : rows :=
  let '(a, b, c, d) := s in
  let a := zip_with wrapping_add32 a b in
  let d := mix 16 d a in
  let c := zip_with wrapping_add32 c d in
  let b := mix 12 b c in
  let a := zip_with wrapping_add32 a b in
  let d := mix 8 d a in
  let c := zip_with wrapping_add32 c d in
  let b := mix 7 b c in
  (a, b, c, d).

Definition turned (n : nat) (r : list Z) : list Z := drop n r ++ take n r.

Definition double_rows (s : rows) : rows :=
  let '(a, b, c, d) := quarter_rows s in
  let '(a, b, c, d) := quarter_rows (a, turned 1 b, turned 2 c, turned 3 d) in
  (a, turned 3 b, turned 2 c, turned 1 d).

Definition words_of (s : rows) : list Z := let '(a, b, c, d) := s in a ++ b ++ c ++ d.

Definition le_words (bs : bytes) : list Z := map le_value (chunks_exact 4 bs).1.

Definition initial_rows (key nonce : bytes) (counter : Z) : rows :=
  (le_words (str "expand 32-byte k"), le_words (take 16 key), le_words (drop 16 key), counter :: le_words nonce).

(** The block of RFC 8439, section 2.3. *)
Definition key_block (key nonce : bytes) (counter : Z) : bytes :=
  let s := initial_rows key nonce counter in
  concat (map (le_bytes 4) (zip_with wrapping_add32 (words_of (Nat.iter 10 double_rows s)) (words_of s))).

Definition square (s : rows) : Prop := let '(a, b, c, d) := s in length a = 4%nat /\ length b = 4%nat /\ length c = 4%nat /\ length d = 4%nat.

(** Four words, by name. *)
Ltac four_words l := destruct l as [|? [|? [|? [|? [|]]]]]; try discriminate.

Lemma double_round_rows {E : Type} (s : rows) (i : nat) : square s ->
  double_round (words_of s) i = Ok (words_of (double_rows s)) :> res E _ /\ square (double_rows s).
Proof. destruct s as [[[a b] c] d]. intros (Ha & Hb & Hc & Hd). four_words a; four_words b; four_words c; four_words d. by split. Qed.

Lemma double_rounds_rows {E : Type} (l : list nat) (s : rows) : square s ->
  res_foldM double_round (words_of s) l = Ok (words_of (Nat.iter (length l) double_rows s)) :> res E _ /\ square (Nat.iter (length l) double_rows s).
Proof.
  revert s. induction l as [|i l IH]; intros s Hs; [by split|]. cbn [res_foldM length]. destruct (double_round_rows (E := E) s i Hs) as [-> Hs']. cbn [res_bind].
  rewrite Nat.iter_succ_r. by apply IH.
Qed.

Lemma words_Ok {E : Type} (bs : bytes) : res_mapM read_u32_le (chunks_exact 4 bs).1 = Ok (le_words bs) :> res E _.
Proof.
  unfold le_words. destruct (chunks_exact_spec 4 bs ltac:(lia)) as (_ & Hf & _). induction Hf as [|c cs Hc Hf IH]; [done|]. cbn [res_mapM].
  unfold read_u32_le at 1. rewrite Hc. cbn [Nat.eqb res_bind]. by rewrite IH.
Qed.

(** Whole words, one after another. *)
Lemma whole_words (bs : bytes) (n : nat) : length bs = (4 * n)%nat -> length (le_words bs) = n /\ (chunks_exact 4 bs).2 = [].
Proof.
  intros Hl. unfold le_words. rewrite length_map. pose proof (length_chunks_exact 4 bs ltac:(lia)). destruct (chunks_exact_spec 4 bs ltac:(lia)) as (_ & _ & Hr).
  destruct (chunks_exact 4 bs).2; cbn [length] in *; [split; [lia|done]|lia].
Qed.

Lemma le_words_app (a b : bytes) (n : nat) : length a = (4 * n)%nat -> le_words (a ++ b) = le_words a ++ le_words b.
Proof. intros Ha. unfold le_words. rewrite chunks_exact_more by lia. destruct (whole_words a n Ha) as [_ ->]. cbn [fst app]. apply map_app. Qed.

Lemma initial_square (key nonce : bytes) (counter : Z) : length key = 32%nat -> length nonce = 12%nat -> square (initial_rows key nonce counter).
Proof.
  intros Hk Hn. unfold square, initial_rows. split_and!; [done| | |cbn [length]; f_equal]; apply whole_words; rewrite ?length_take, ?length_drop; lia.
Qed.

(** The code's block is the RFC's. *)
Lemma chacha20_block_rows {E : Type} (key nonce : bytes) (counter : Z) : length key = 32%nat -> length nonce = 12%nat ->
  chacha20_block key counter nonce = Ok (key_block key nonce counter) :> res E _ /\ length (key_block key nonce counter) = 64%nat.
Proof.
  intros Hk Hn. pose proof (initial_square key nonce counter Hk Hn) as Hi. destruct (double_rounds_rows (E := E) (seq 0 10) _ Hi) as [Hr Hs]. cbn [length seq] in Hr, Hs. split.
  - unfold chacha20_block. rewrite !words_Ok. cbn [res_bind].
    assert (Hw : CHACHA20_CONSTANTS ++ le_words key ++ [counter] ++ le_words nonce = words_of (initial_rows key nonce counter)).
    { unfold initial_rows, words_of. rewrite <- (take_drop 16 key) at 1. rewrite (le_words_app _ _ 4), <- app_assoc by (rewrite length_take; lia). reflexivity. }
    cbn [seq]. rewrite Hw, Hr. cbn [res_bind]. unfold key_block. do 2 f_equal. generalize (words_of (Nat.iter 10 double_rows (initial_rows key nonce counter))) as l.
    generalize (words_of (initial_rows key nonce counter)) as k. intros k l. revert k. induction l as [|x l IH]; intros [|y k]; [done..|]. cbn. by rewrite IH.
  - unfold key_block. rewrite (length_concat_chunks 4) by (apply Forall_map, Forall_true; intros; apply length_le_bytes). rewrite length_map, length_zip_with.
    assert (Hl : forall s, square s -> length (words_of s) = 16%nat) by (intros [[[a b] c] d] (H1 & H2 & H3 & H4); cbn [words_of]; rewrite !length_app; lia).
    by rewrite !Hl.
Qed.

(** Combining twice with the same bytes changes nothing. *)
Lemma xor_byte_involutive (a b : byte) : xor_byte (xor_byte a b) b = a.
Proof.
  unfold xor_byte. rewrite u8_of_u8; [|].
  - rewrite Z.lxor_assoc, Z.lxor_nilpotent, Z.lxor_0_r. apply of_u8_u8.
  - pose proof (u8_range a) as Ha. pose proof (u8_range b) as Hb. split; [apply Z.lxor_nonneg; lia|].
    destruct (Z.eq_dec (Z.lxor (u8 a) (u8 b)) 0) as [->|Hne]; [done|].
    assert (Hp : 0 < Z.lxor (u8 a) (u8 b)) by (pose proof (proj2 (Z.lxor_nonneg (u8 a) (u8 b))); lia).
    apply Z.log2_lt_pow2 with (b := 8); [done|]. apply Z.le_lt_trans with (Z.max (Z.log2 (u8 a)) (Z.log2 (u8 b))); [apply Z.log2_lxor; lia|].
    assert (Hlog : forall x, 0 <= x < 256 -> Z.log2 x < 8).
    { intros x Hx. destruct (Z.eq_dec x 0) as [->|]; [done|]. apply Z.log2_lt_pow2; lia. }
    pose proof (Hlog _ Ha). pose proof (Hlog _ Hb). lia.
Qed.

Lemma xor_bytes_involutive (m k : bytes) : (length m <= length k)%nat -> xor_bytes (xor_bytes m k) k = m.
Proof.
  revert k. induction m as [|x m IH]; intros [|y k] H; simpl in H; try done; [lia|].
  change (xor_bytes (x :: m) (y :: k)) with (xor_byte x y :: xor_bytes m k).
  change (xor_bytes (xor_byte x y :: xor_bytes m k) (y :: k)) with (xor_byte (xor_byte x y) y :: xor_bytes (xor_bytes m k) k).
  rewrite xor_byte_involutive, IH by lia. done.
Qed.

Section cipher.
Variables key nonce : bytes.
Hypothesis key_length : length key = 32%nat.
Hypothesis nonce_length : length nonce = 12%nat.

Lemma chacha20_block_spec {E : Type} (counter : Z) : chacha20_block key counter nonce = Ok (key_block key nonce counter) :> res E _.
Proof. by apply chacha20_block_rows. Qed.

Lemma length_key_block (counter : Z) : length (key_block key nonce counter) = 64%nat.
Proof. by apply (chacha20_block_rows (E := Empty_set)). Qed.

(** ** The stream cipher *)
Definition key_stream (counter : Z) (i n : nat) : bytes :=
  concat (map (fun k => key_block key nonce (counter + Z.of_nat k)) (seq i n)).

Lemma length_key_stream (counter : Z) (i n : nat) : length (key_stream counter i n) = (n * 64)%nat.
Proof.
  unfold key_stream. rewrite (length_concat_chunks 64); [by rewrite length_map, length_seq|].
  apply Forall_map, Forall_forall. intros k _. apply length_key_block.
Qed.

Lemma length_xor_bytes (a b : bytes) : length (xor_bytes a b) = Nat.min (length a) (length b).
Proof. unfold xor_bytes. by rewrite length_map, length_zip_with. Qed.

Lemma xor_bytes_app (a b k l : bytes) : length a = length k -> xor_bytes (a ++ b) (k ++ l) = xor_bytes a k ++ xor_bytes b l.
Proof. intros H. unfold xor_bytes. by rewrite zip_with_app, map_app by done. Qed.

(** What follows a key stream that is long enough does not matter. *)
Lemma xor_bytes_more (a k l : bytes) : (length a <= length k)%nat -> xor_bytes a (k ++ l) = xor_bytes a k.
Proof.
  intros H. unfold xor_bytes. f_equal. rewrite <- (take_drop (length a) k), <- app_assoc.
  rewrite !zip_with_app_r_alt || idtac. revert k H. induction a as [|x a IH]; intros k H; [done|].
  destruct k as [|y k]; [simpl in H; lia|]. cbn [length take drop app]. cbn. f_equal. apply IH. simpl in H. lia.
Qed.

Lemma length_chunks {A : Type} (l : list A) : Z.of_nat (length (chunks 64 l)) = div_ceil (len l) 64.
Proof.
  unfold chunks, div_ceil. pose proof (length_chunks_exact 64 l ltac:(lia)) as Hl. destruct (chunks_exact_spec 64 l ltac:(lia)) as (_ & _ & Hr).
  destruct (chunks_exact 64 l) as [cs r]. cbn [fst snd] in *. unfold len.
  destruct r as [|x r].
  - apply (Z.div_unique _ _ _ 63); simpl in *; lia.
  - rewrite length_app. apply (Z.div_unique _ _ _ (Z.of_nat (length r))); simpl in *; lia.
Qed.

Lemma xor_loop {E : Type} (counter : Z) (input out : bytes) (i : nat) :
  0 <= counter -> counter + Z.of_nat i + div_ceil (len input) 64 <= u32_max + 1 ->
  res_foldM (xor_chunk key nonce counter) out (zip (seq i (length (chunks 64 input))) (chunks 64 input)) =
    Ok (out ++ xor_bytes input (key_stream counter i (length (chunks 64 input)))) :> res E _.
Proof.
  intros Hc. rewrite <- length_chunks. remember (length input) as n eqn:Hn. revert input out i Hn.
  induction (lt_wf n) as [n _ IH]. intros input out i -> Hb. destruct (decide (input = [])) as [->|Hne].
  { cbn [chunks_exact chunks length seq zip_with res_foldM]. change (xor_bytes [] _) with (@nil byte). by rewrite app_nil_r. }
  assert (Hpos : (0 < length input)%nat) by (destruct input; [done|simpl; lia]).
  rewrite (chunks_step 64 input) in * by (lia || done). cbn [length seq] in *.
  change (zip (i :: ?s) (?c :: ?cs)) with ((i, c) :: zip s cs). cbn [res_foldM]. unfold xor_chunk at 1.
  unfold try_from. rewrite (proj2 (Z.leb_le _ _)) by lia. cbn [res_bind]. unfold checked_add.
  rewrite (proj2 (Z.leb_le _ _)) by lia. cbn [expect res_bind]. rewrite chacha20_block_spec. cbn [res_bind].
  rewrite (IH (length (drop 64 input))) by (try done; rewrite ?length_drop; lia). f_equal. rewrite <- app_assoc. f_equal.
  unfold key_stream. cbn [seq map concat]. fold (key_stream counter (S i) (length (chunks 64 (drop 64 input)))).
  destruct (Nat.le_gt_cases 64 (length input)) as [Hl|Hl].
  - rewrite <- (take_drop 64 input) at 4. rewrite xor_bytes_app by (rewrite length_take, length_key_block; lia). done.
  - rewrite (drop_ge input), (take_ge input) by lia. change (chunks 64 []) with (@nil bytes). cbn [length]. unfold key_stream. cbn [seq map concat].
    change (xor_bytes [] _) with (@nil byte). by rewrite !app_nil_r.
Qed.

(** The message under the key stream. *)
Definition stream_xor (counter : Z) (input : bytes) : bytes :=
  xor_bytes input (key_stream counter 0 (length (chunks 64 input))).

Lemma chunks_cover {A : Type} (l : list A) : (length l <= length (chunks 64 l) * 64)%nat.
Proof.
  unfold chunks. pose proof (length_chunks_exact 64 l ltac:(lia)) as Hl. destruct (chunks_exact_spec 64 l ltac:(lia)) as (_ & _ & Hr).
  destruct (chunks_exact 64 l) as [cs r]. cbn [fst snd] in *. destruct r as [|x r]; [simpl in *; lia|]. rewrite length_app. simpl in *. lia.
Qed.

Lemma length_stream_xor (counter : Z) (input : bytes) : length (stream_xor counter input) = length input.
Proof. unfold stream_xor. rewrite length_xor_bytes, length_key_stream. pose proof (chunks_cover input). lia. Qed.

Lemma stream_xor_involutive (counter : Z) (input : bytes) : stream_xor counter (stream_xor counter input) = input.
Proof.
  unfold stream_xor at 1.
  assert (Hc : length (chunks 64 (stream_xor counter input)) = length (chunks 64 input)).
  { apply Nat2Z.inj. rewrite !length_chunks. unfold len. by rewrite length_stream_xor. }
  rewrite Hc. apply xor_bytes_involutive. rewrite length_key_stream. apply chunks_cover.
Qed.

Lemma chacha20_xor_spec (counter : Z) (input : bytes) :
  0 <= counter <= u32_max -> len input <= u64_max ->
  chacha20_xor key counter nonce input =
    (if u32_max - counter + 1 <? div_ceil (len input) 64 then Err (CounterExhausted counter (div_ceil (len input) 64))
     else Ok (stream_xor counter input)).
Proof.
  intros Hc Hl. unfold chacha20_xor, try_from. pose proof (len_nonneg input).
  assert (Hblocks : div_ceil (len input) 64 <= u64_max).
  { unfold div_ceil. apply Z.lt_succ_r, Z.div_lt_upper_bound; [done|]. unfold u64_max in *. lia. }
  rewrite (proj2 (Z.leb_le _ _) Hblocks). cbn [res_bind]. rewrite u64_add_Ok by (unfold u32_max, u64_max in *; lia). cbn [res_bind].
  destruct (Z.ltb_spec (u32_max - counter + 1) (div_ceil (len input) 64)); [done|].
  unfold enumerate. change CHACHA20_BLOCK_SIZE with 64%nat. rewrite xor_loop by lia. done.
Qed.

End cipher.

(** ** Authenticated encryption *)
(** RFC 8439, section 2.8: each part is padded to whole blocks, and their lengths follow. *)
Definition pad16 (n : Z) : bytes := repeat x00 (Z.to_nat ((- n) mod 16)).

Definition mac_data (aad ciphertext : bytes) : bytes :=
  aad ++ pad16 (len aad) ++ ciphertext ++ pad16 (len ciphertext) ++ le_bytes 8 (len aad) ++ le_bytes 8 (len ciphertext).

Lemma append_pad16_spec (output : bytes) (n : Z) : 0 <= n -> append_pad16 output n = output ++ pad16 n.
Proof.
  intros Hn. unfold append_pad16, pad16. pose proof (Z.mod_pos_bound n 16 ltac:(done)).
  destruct (Z.eqb_spec (n mod 16) 0) as [E|E]; cbn [negb].
  - by rewrite Z.mod_opp_l_z, app_nil_r by done.
  - by rewrite Z.mod_opp_l_nz by done.
Qed.

Lemma mac_data_spec {E : Type} (aad ciphertext : bytes) :
  len aad <= u64_max -> len ciphertext <= u64_max -> chacha20_poly1305_mac_data aad ciphertext = Ok (mac_data aad ciphertext) :> res E _.
Proof.
  intros Ha Hc. unfold chacha20_poly1305_mac_data, try_from. rewrite !(proj2 (Z.leb_le _ _)) by done. cbn [res_bind].
  rewrite !append_pad16_spec by apply len_nonneg. unfold mac_data. by rewrite <- !app_assoc.
Qed.

(** The authenticated text determines both of its parts. *)
Lemma mac_data_inj (a c a' c' : bytes) :
  len a <= u64_max -> len c <= u64_max -> len a' <= u64_max -> len c' <= u64_max ->
  mac_data a c = mac_data a' c' -> a = a' /\ c = c'.
Proof.
  intros Ha Hc Ha' Hc' E. unfold mac_data in E.
  assert (Hval : forall n, 0 <= n <= u64_max -> le_value (le_bytes 8 n) = n).
  { intros n Hn. rewrite le_value_le_bytes. apply Z.mod_small. unfold u64_max in Hn. change (256 ^ Z.of_nat 8) with 18446744073709551616. lia. }
  pose proof (len_nonneg a). pose proof (len_nonneg c). pose proof (len_nonneg a'). pose proof (len_nonneg c').
  rewrite !app_assoc in E. apply app_inj_2 in E as [E Elc]; [|by rewrite !length_le_bytes].
  apply app_inj_2 in E as [E Ela]; [|by rewrite !length_le_bytes].
  apply (f_equal le_value) in Elc, Ela. rewrite !Hval in Elc, Ela by lia. rewrite Ela, Elc in E.
  apply app_inj_2 in E as [E _]; [|done]. rewrite <- !app_assoc in E.
  assert (Hla : length a = length a') by (unfold len in Ela; lia).
  apply app_inj_1 in E as [-> E]; [|done]. apply app_inj_1 in E as [_ ->]; done.
Qed.

Section aead.
Variables key nonce : bytes.
Hypothesis key_length : length key = 32%nat.
Hypothesis nonce_length : length nonce = 12%nat.

Definition one_time_key : bytes := take 32 (key_block key nonce 0).

Lemma one_time_key_spec {E : Type} : chacha20_poly1305_one_time_key key nonce = Ok one_time_key :> res E _.
Proof.
  unfold chacha20_poly1305_one_time_key. rewrite chacha20_block_spec by done. cbn [res_bind].
  apply slice_to_Ok. rewrite length_key_block by done. lia.
Qed.

Lemma length_one_time_key : length one_time_key = 32%nat.
Proof. unfold one_time_key. rewrite length_take, length_key_block by done. lia. Qed.

(** Poly1305 of the authenticated text, under the first half of block 0. *)
Definition tag_of (aad ciphertext : bytes) : bytes := mac one_time_key (mac_data aad ciphertext).

Lemma encrypt_spec (aad plaintext : bytes) :
  len aad <= u64_max -> len plaintext <= u64_max ->
  chacha20_poly1305_encrypt key nonce aad plaintext =
    (if u32_max <? div_ceil (len plaintext) 64 then Err (CipherFailure (CounterExhausted 1 (div_ceil (len plaintext) 64)))
     else Ok (stream_xor key nonce 1 plaintext, tag_of aad (stream_xor key nonce 1 plaintext))).
Proof.
  intros Ha Hp. unfold chacha20_poly1305_encrypt. rewrite one_time_key_spec. cbn [res_bind].
  rewrite chacha20_xor_spec by (done || (unfold u32_max; lia)). replace (u32_max - 1 + 1) with u32_max by lia.
  destruct (u32_max <? _); [done|]. cbn [map_err res_bind].
  rewrite mac_data_spec; [|done|unfold len; by rewrite length_stream_xor]. cbn [res_bind].
  rewrite poly1305_mac by apply length_one_time_key. done.
Qed.

Lemma decrypt_spec (aad ciphertext tag : bytes) :
  len aad <= u64_max -> len ciphertext <= u64_max ->
  chacha20_poly1305_decrypt key nonce aad ciphertext tag =
    (if decide (tag = tag_of aad ciphertext) then
       if u32_max <? div_ceil (len ciphertext) 64 then Err (CipherFailure (CounterExhausted 1 (div_ceil (len ciphertext) 64)))
       else Ok (stream_xor key nonce 1 ciphertext)
     else Err AuthenticationFailed).
Proof.
  intros Ha Hp. unfold chacha20_poly1305_decrypt. rewrite one_time_key_spec. cbn [res_bind].
  rewrite mac_data_spec by done. cbn [res_bind]. rewrite poly1305_mac by apply length_one_time_key. cbn [res_bind].
  rewrite constant_time_eq_spec. fold (tag_of aad ciphertext). destruct (decide (tag = tag_of aad ciphertext)) as [->|Hne].
  - rewrite bool_decide_true by done. cbn [negb]. rewrite chacha20_xor_spec by (done || (unfold u32_max; lia)).
    replace (u32_max - 1 + 1) with u32_max by lia. by destruct (u32_max <? _).
  - by rewrite bool_decide_false by congruence.
Qed.

End aead.

(** The cipher never panics: it answers the error exactly when the counter cannot cover the blocks, and
    otherwise the input under the key stream of the blocks from the counter on, of the same length, which
    the same call turns back. *)
Theorem chacha20_xor_correct (key nonce input : bytes) (counter : Z) :
  length key = 32%nat -> length nonce = 12%nat -> 0 <= counter <= u32_max -> len input <= u64_max ->
  match chacha20_xor key counter nonce input with
  | Ok out =>
      out = xor_bytes input (key_stream key nonce counter 0 (length (chunks 64 input))) /\ len out = len input /\
      chacha20_xor key counter nonce out = Ok input
  | Err e => e = CounterExhausted counter (div_ceil (len input) 64) /\ u32_max + 1 < counter + div_ceil (len input) 64
  | Panic | Fuel => False
  end.
Proof.
  intros Hk Hn Hc Hl. rewrite chacha20_xor_spec by done. destruct (Z.ltb_spec (u32_max - counter + 1) (div_ceil (len input) 64)); [split; [done|lia]|].
  assert (Hlen : len (stream_xor key nonce counter input) = len input) by (unfold len; by rewrite length_stream_xor).
  split_and!; [done|done|]. rewrite chacha20_xor_spec, Hlen, (proj2 (Z.ltb_ge _ _)), stream_xor_involutive by (done || lia). done.
Qed.

Lemma chacha20_xor_correct_witness :
  match chacha20_xor (repeat x01 32) 1 (repeat x02 12) (str "plain") with
  | Ok out => chacha20_xor (repeat x01 32) 1 (repeat x02 12) out = Ok (str "plain")
  | _ => False
  end.
Proof.
  pose proof (chacha20_xor_correct (repeat x01 32) (repeat x02 12) (str "plain") 1 ltac:(reflexivity) ltac:(reflexivity)
    ltac:(unfold u32_max; lia) ltac:(by vm_compute)) as H.
  destruct (chacha20_xor _ _ _ _) as [out|e| |].
  - destruct H as (_ & _ & H). exact H.
  - destruct H as [_ H]. vm_compute in H. discriminate H.
  - exact H.
  - exact H.
Defined.

(** C24: the authenticated encryption of RFC 8439. The ciphertext is the plaintext under the key stream of the blocks from 1
    on, and the tag is Poly1305, under the first half of block 0, of the associated data and the ciphertext, each padded, and
    their lengths: a text that no other pair has. Decryption opens exactly what encryption sealed: it answers a plaintext
    when and only when encrypting that gives this ciphertext and this tag under the same key, nonce and associated data,
    and refuses every other tag. *)
Theorem aead_round_trip (key nonce aad plaintext : bytes) :
  length key = 32%nat -> length nonce = 12%nat -> len aad <= u64_max -> len plaintext <= u64_max ->
  match chacha20_poly1305_encrypt key nonce aad plaintext with
  | Ok (ciphertext, tag) =>
      ciphertext = stream_xor key nonce 1 plaintext /\ len ciphertext = len plaintext /\
      tag = tag_of key nonce aad ciphertext /\ length tag = 16%nat /\
      chacha20_poly1305_decrypt key nonce aad ciphertext tag = Ok plaintext /\
      (forall tag', tag' <> tag -> chacha20_poly1305_decrypt key nonce aad ciphertext tag' = Err AuthenticationFailed) /\
      (forall aad' ciphertext', len aad' <= u64_max -> len ciphertext' <= u64_max ->
         mac_data aad' ciphertext' = mac_data aad ciphertext -> aad' = aad /\ ciphertext' = ciphertext)
  | Err e => e = CipherFailure (CounterExhausted 1 (div_ceil (len plaintext) 64)) /\ u32_max < div_ceil (len plaintext) 64
  | Panic | Fuel => False
  end /\
  forall ciphertext tag, len ciphertext <= u64_max ->
  match chacha20_poly1305_decrypt key nonce aad ciphertext tag with
  | Ok opened => chacha20_poly1305_encrypt key nonce aad opened = Ok (ciphertext, tag)
  | Err AuthenticationFailed => tag <> tag_of key nonce aad ciphertext
  | Err (CipherFailure e) => e = CounterExhausted 1 (div_ceil (len ciphertext) 64) /\ u32_max < div_ceil (len ciphertext) 64
  | Panic | Fuel => False
  end.
Proof.
  intros Hk Hn Ha Hp. split.
  - rewrite encrypt_spec by done. destruct (Z.ltb_spec u32_max (div_ceil (len plaintext) 64)) as [Hlt|Hge]; [done|].
    assert (Hlen : len (stream_xor key nonce 1 plaintext) = len plaintext) by (unfold len; by rewrite length_stream_xor).
    split; [done|]. set (ct := stream_xor key nonce 1 plaintext) in *. split_and!; [done|done|apply length_mac| | |].
    + rewrite decrypt_spec by (done || by rewrite Hlen). rewrite decide_True by done.
      rewrite Hlen, (proj2 (Z.ltb_ge _ _)) by done. unfold ct. by rewrite stream_xor_involutive.
    + intros tag' Ht. rewrite decrypt_spec by (done || by rewrite Hlen). by rewrite decide_False.
    + intros a' c' Ha' Hc' E. apply mac_data_inj in E as [-> ->]; [done|done|done|done|by rewrite Hlen].
  - intros ct tag Hc. rewrite decrypt_spec by done. destruct (decide (tag = tag_of key nonce aad ct)) as [->|Hne]; [|exact Hne].
    destruct (Z.ltb_spec u32_max (div_ceil (len ct) 64)); [by split|]. assert (Hlen : len (stream_xor key nonce 1 ct) = len ct) by (unfold len; by rewrite length_stream_xor).
    rewrite encrypt_spec by (done || by rewrite Hlen). rewrite Hlen, (proj2 (Z.ltb_ge _ _)) by done. by rewrite stream_xor_involutive.
Qed.

Lemma aead_round_trip_witness :
  match chacha20_poly1305_encrypt (repeat x01 32) (repeat x02 12) (str "ad") (str "plain") with
  | Ok (ciphertext, tag) => chacha20_poly1305_decrypt (repeat x01 32) (repeat x02 12) (str "ad") ciphertext tag = Ok (str "plain")
  | _ => False
  end.
Proof.
  pose proof (aead_round_trip (repeat x01 32) (repeat x02 12) (str "ad") (str "plain") ltac:(reflexivity) ltac:(reflexivity)
    ltac:(by vm_compute) ltac:(by vm_compute)) as H.
  destruct H as [H _]. destruct (chacha20_poly1305_encrypt _ _ _ _) as [[ct tag]|e| |].
  - destruct H as (_ & _ & _ & _ & H & _). exact H.
  - destruct H as [_ H]. vm_compute in H. discriminate H.
  - exact H.
  - exact H.
Defined.
