(* ===== verification/Primes.v ===== *)
(** * The primes of P-256

    [src/p256.rs] inverts residues by Fermat's little theorem, which needs its two moduli to be
    prime. Pocklington's criterion is proved here, and certificates for the field modulus and the
    group order are checked by evaluation. *)
From Stdlib Require Import ZArith Lia Znumtheory Zdivisibility Zmod.
From Bignums Require Import BigN.BigN.
From stdpp Require Import prelude.
Local Open Scope Z_scope.
Set Warnings "-clear-no-such-hyp".

(** ** Prime divisors *)
(** The smallest divisor, by search. *)
Fixpoint least_divisor (fuel : nat) (d n : Z) : Z :=
  match fuel with
  | O => n
  | S fuel' => if n mod d =? 0 then d else least_divisor fuel' (d + 1) n
  end.

Lemma least_divisor_spec (fuel : nat) (d n : Z) :
  1 < d -> d <= n -> n <= d + Z.of_nat fuel -> (forall e, 1 < e < d -> ~ (e | n)) ->
  let r := least_divisor fuel d n in 1 < r <= n /\ (r | n) /\ forall e, 1 < e < r -> ~ (e | n).
Proof.
  revert d. induction fuel as [|fuel IH]; intros d Hd Hdn Hf Hno; cbn [least_divisor].
  - assert (d = n) as -> by lia. cbn zeta. split_and!; [lia|lia|apply Z.divide_refl|done].
  - destruct (Z.eqb_spec (n mod d) 0) as [E|E].
    + cbn zeta. split_and!; [lia|lia|by apply Z.mod_divide; [lia|]|done].
    + destruct (Z.eq_dec d n) as [->|Hne]; [by rewrite Z_mod_same_full in E|].
      apply IH; [lia|lia|lia|]. intros e He. destruct (Z.eq_dec e d) as [->|]; [|apply Hno; lia].
      intros Hdiv. apply E. apply Z.mod_divide; [lia|done].
Qed.

Lemma prime_divisor (n : Z) : 1 < n -> exists r, Z.prime r /\ (r | n).
Proof.
  intros Hn. destruct (least_divisor_spec (Z.to_nat n) 2 n) as (Hr & Hdiv & Hno); [lia|lia|lia|lia|].
  set (r := least_divisor _ 2 n) in *. exists r. split; [|done]. split; [lia|]. intros e He Her.
  apply (Hno e He). by apply Z.divide_trans with r.
Qed.

(** A number without a prime divisor up to its square root is prime. *)
Lemma prime_by_divisors (n : Z) : 1 < n -> (forall r, Z.prime r -> (r | n) -> n < r * r) -> Z.prime n.
Proof.
  intros Hn H. split; [done|]. intros d Hd [e He].
  assert (He1 : 1 < e < n) by nia.
  destruct (Z_le_gt_dec d e) as [Hle|Hgt].
  - destruct (prime_divisor d ltac:(lia)) as (r & Hr & Hrd). pose proof (Z.prime_ge_2 r Hr).
    assert (r <= d) by (apply Z.divide_pos_le; [lia|done]).
    specialize (H r Hr ltac:(apply Z.divide_trans with d; [done|by exists e])). nia.
  - destruct (prime_divisor e ltac:(lia)) as (r & Hr & Hre). pose proof (Z.prime_ge_2 r Hr).
    assert (r <= e) by (apply Z.divide_pos_le; [lia|done]).
    specialize (H r Hr ltac:(apply Z.divide_trans with e; [done|exists d; lia])). nia.
Qed.

(** Trial division. *)
Fixpoint no_divisor (fuel : nat) (d n : Z) : bool :=
  match fuel with
  | O => n <? d * d
  | S fuel' => if n <? d * d then true else negb (n mod d =? 0) && no_divisor fuel' (d + 1) n
  end.

Lemma no_divisor_spec (fuel : nat) (d n : Z) :
  1 < d -> (forall e, 1 < e < d -> ~ (e | n)) -> no_divisor fuel d n = true -> forall r, 1 < r -> (r | n) -> n < r * r.
Proof.
  revert d. induction fuel as [|fuel IH]; intros d Hd Hno H r Hr Hdiv; cbn [no_divisor] in H.
  - apply Z.ltb_lt in H. destruct (Z_lt_ge_dec r d); [exfalso; by apply (Hno r)|nia].
  - destruct (Z.ltb_spec n (d * d)) as [Hlt|Hge]; [destruct (Z_lt_ge_dec r d); [exfalso; by apply (Hno r)|nia]|].
    apply andb_true_iff in H as [H1 H2]. apply negb_true_iff, Z.eqb_neq in H1.
    apply (IH (d + 1)); [lia| |done|done|done]. intros e He Hen. destruct (Z.eq_dec e d) as [->|]; [|by apply (Hno e); [lia|]].
    apply H1, Z.mod_divide; [lia|done].
Qed.

Lemma prime_by_trial (fuel : nat) (n : Z) : 1 < n -> no_divisor fuel 2 n = true -> Z.prime n.
Proof.
  intros Hn H. apply prime_by_divisors; [done|]. intros r Hr Hdiv. pose proof (Z.prime_ge_2 r Hr).
  apply (no_divisor_spec fuel 2 n); [lia|lia|done|lia|done].
Qed.

(** ** Pocklington's criterion *)
Lemma pow_mod_mul (b x y r : Z) : 0 <= x -> 0 <= y -> b ^ x mod r = 1 mod r -> b ^ (x * y) mod r = 1 mod r.
Proof. intros Hx Hy H. rewrite Z.pow_mul_r, <- Z.mod_pow_l, H, Z.mod_pow_l, Z.pow_1_l by lia. done. Qed.

(** An order that is a prime [q] divides every other exponent that gives one. *)
Lemma order_divides (b q m r : Z) :
  1 < r -> Z.prime q -> 0 < m -> b mod r <> 1 mod r -> b ^ q mod r = 1 mod r -> b ^ m mod r = 1 mod r -> (q | m).
Proof.
  intros Hr Hq Hm Hb Hbq Hbm. pose proof (Z.prime_ge_2 q Hq).
  destruct (Z.eq_dec (m mod q) 0) as [E0|E0]; [apply Z.mod_divide; [lia|done]|]. exfalso. apply Hb.
  assert (Hn : ~ (q | m)) by (intros Hd; apply E0, Z.mod_divide; [lia|done]). pose proof (Z.coprime_prime_l q m Hq Hn) as Hc. apply Z.Bezout_coprime in Hc as (u & v & E).
  destruct (Z.eq_dec m 1) as [->|Hm1]; [by rewrite Z.pow_1_r in Hbm|].
  set (x := u mod m). pose proof (Z.mod_pos_bound u m Hm) as Hx. fold x in Hx.
  assert (Hxq : exists k, x * q = 1 + k * m).
  { exists (- v - (u / m) * q). pose proof (Z.div_mod u m ltac:(lia)) as Hd. fold x in Hd. nia. }
  destruct Hxq as [k Hk]. assert (0 <= k) by nia.
  assert (H1 : b ^ (q * x) mod r = 1 mod r) by (apply pow_mod_mul; [lia|lia|done]).
  assert (H2 : b ^ (m * k) mod r = 1 mod r) by (apply pow_mod_mul; [lia|lia|done]).
  replace (q * x) with (1 + m * k) in H1 by lia. rewrite Z.pow_add_r, Z.pow_1_r, Z.mul_mod, H2, <- Z.mul_mod, Z.mul_1_r in H1 by lia. done.
Qed.

Definition product (l : list Z) : Z := fold_right Z.mul 1 l.

Lemma product_divides (l : list Z) (n : Z) :
  Forall Z.prime l -> NoDup l -> Forall (fun q => (q | n)) l -> (product l | n).
Proof.
  intros Hp Hnd Hd. induction l as [|q l IH]; [apply Z.divide_1_l|].
  apply Forall_cons in Hp as [Hq Hp]. apply NoDup_cons in Hnd as [Hni Hnd]. apply Forall_cons in Hd as [Hqn Hd].
  destruct Hqn as [e ->]. cbn [product fold_right]. fold (product l). rewrite (Z.mul_comm e). apply Z.mul_divide_mono_l.
  specialize (IH Hp Hnd Hd). assert (Hc : Z.coprime (product l) q).
  { clear IH Hd Hnd. induction Hp as [|p l Hpp Hp IH]; [apply Z.coprime_1_l|]. cbn [product fold_right]. fold (product l).
    apply not_elem_of_cons in Hni as [Hne Hni]. apply Z.coprime_mul_l; [|by apply IH].
    apply Z.coprime_prime_l; [done|]. intros Hpq. apply Hne. symmetry. by apply Z.divide_prime_prime. }
  rewrite Z.mul_comm in IH. by apply (Z.gauss (product l) q e).
Qed.

(** [a ^ e mod n], by squaring, on numbers made of machine words. *)
Fixpoint power_mod (a : BigN.t) (e : positive) (n : BigN.t) : BigN.t :=
  match e with
  | xH => BigN.modulo a n
  | xO e' => let z := power_mod a e' n in BigN.modulo (BigN.square z) n
  | xI e' => let z := power_mod a e' n in BigN.modulo (BigN.mul a (BigN.square z)) n
  end.

Definition power_modulo (a e n : Z) : Z :=
  match a, e, n with
  | Z.pos a, Z.pos e, Z.pos n => BigN.to_Z (power_mod (BigN.of_pos a) e (BigN.of_pos n))
  | _, _, _ => a ^ e mod n
  end.

Lemma power_mod_spec (a : BigN.t) (e : positive) (n : BigN.t) :
  BigN.to_Z (power_mod a e n) = BigN.to_Z a ^ Z.pos e mod BigN.to_Z n.
Proof.
  induction e as [e IH|e IH|]; cbn [power_mod]; rewrite BigN.spec_modulo, ?BigN.spec_mul, ?BigN.spec_square, ?IH; [..|by rewrite Z.pow_1_r].
  - rewrite Pos2Z.inj_xI, Z.pow_add_r, Z.pow_1_r, Z.pow_twice_r, (Z.mul_comm (_ * _) (BigN.to_Z a)) by lia.
    by rewrite <- Zmult_mod_idemp_r, <- Zmult_mod, Zmult_mod_idemp_r.
  - rewrite Pos2Z.inj_xO, Z.pow_twice_r by lia. by rewrite <- Zmult_mod.
Qed.

Lemma power_modulo_spec (a e n : Z) : power_modulo a e n = a ^ e mod n.
Proof. destruct a, e, n; try done. unfold power_modulo. by rewrite power_mod_spec, !BigN.spec_of_pos. Qed.

Definition fermat_witness (a n : Z) (l : list Z) : bool :=
  (power_modulo a (n - 1) n =? 1) &&
  forallb (fun q => ((n - 1) mod q =? 0) && (Z.gcd (power_modulo a ((n - 1) / q) n - 1) n =? 1)) l.

Theorem pocklington (a n : Z) (l : list Z) :
  1 < n -> Forall Z.prime l -> NoDup l -> fermat_witness a n l = true -> n < product l * product l -> Z.prime n.
Proof.
  intros Hn Hp Hnd [Ha Hl]%andb_true_iff Hbig. apply Z.eqb_eq in Ha. rewrite power_modulo_spec in Ha.
  apply prime_by_divisors; [done|]. intros r Hr Hrn. pose proof (Z.prime_ge_2 r Hr) as Hr2.
  assert (Hred : forall x y, x mod n = y mod n -> x mod r = y mod r).
  { intros x y E. rewrite <- (Z.mod_mod_divide x n r), <- (Z.mod_mod_divide y n r) by done. by rewrite E. }
  assert (Ha1 : a ^ (n - 1) mod r = 1 mod r) by (apply Hred; rewrite Ha; symmetry; apply Z.mod_small; lia).
  assert (Hdiv : (product l | r - 1)).
  { apply product_divides; [done|done|]. rewrite forallb_forall in Hl. apply Forall_forall. intros q Hq.
    rewrite Forall_forall in Hp. specialize (Hp q Hq). specialize (Hl q ltac:(by apply list_elem_of_In)).
    apply andb_true_iff in Hl as [H1 H2]. apply Z.eqb_eq in H1, H2. pose proof (Z.prime_ge_2 q Hp). rewrite power_modulo_spec in H2.
    assert (Hnq : n - 1 = (n - 1) / q * q) by (pose proof (Z.div_mod (n - 1) q ltac:(lia)); lia).
    set (e := (n - 1) / q) in *. assert (He : 0 <= e) by (apply Z.div_pos; lia).
    apply (order_divides (a ^ e) q (r - 1) r); [lia|done|lia| | |].
    - intros E. assert (Hrg : (r | Z.gcd (a ^ e mod n - 1) n)).
      { apply Z.gcd_greatest; [|done]. apply Z.mod_divide; [lia|]. rewrite Zminus_mod.
        assert (a ^ e mod n mod r = 1 mod r) as -> by (rewrite <- E; symmetry; apply Hred; by rewrite Z.mod_mod by lia).
        by rewrite Z.sub_diag. }
      rewrite H2 in Hrg. apply Z.divide_1_r_nonneg in Hrg; lia.
    - rewrite <- Z.pow_mul_r, <- Hnq by lia. done.
    - assert (Hne : a ^ e mod r <> 0).
      { intros E0. assert (Hz : a ^ (n - 1) mod r = 0).
        { rewrite Hnq, Z.pow_mul_r, <- Z.mod_pow_l, E0, Z.pow_0_l by lia. apply Z.mod_0_l. lia. }
        rewrite Hz, Z.mod_1_l in Ha1 by lia. discriminate Ha1. }
      rewrite (Z.fermat_nz r (a ^ e) Hr Hne). symmetry. apply Z.mod_1_l. lia. }
  assert (Hpos : 0 < product l).
  { clear - Hp. induction Hp as [|q l Hq Hp IH]; [done|]. cbn [product fold_right]. fold (product l). pose proof (Z.prime_ge_2 q Hq). nia. }
  apply Z.divide_pos_le in Hdiv; [|lia]. nia.
Qed.

(** ** The certificates

    Small primes by trial division, the others from prime factors of their predecessors. *)
Ltac by_trial := apply (prime_by_trial 1000); [lia|vm_compute; reflexivity].
Ltac by_pocklington l := apply (pocklington 2 _ l);
  [lia|repeat (apply Forall_cons; split; [eauto with primes|]); apply Forall_nil; exact I
  |apply (bool_decide_unpack _); vm_compute; exact I|vm_compute; reflexivity|vm_compute; reflexivity].

Create HintDb primes discriminated.

Lemma prime_704251 : Z.prime 704251.
Proof. by_trial. Qed.
#[export] Hint Resolve prime_704251 : primes.

Lemma prime_78283 : Z.prime 78283.
Proof. by_trial. Qed.
#[export] Hint Resolve prime_78283 : primes.

Lemma prime_46076956964474543 : Z.prime 46076956964474543.
Proof. by_pocklington [704251; 78283]. Qed.
#[export] Hint Resolve prime_46076956964474543 : primes.

Lemma prime_3677 : Z.prime 3677.
Proof. by_trial. Qed.
#[export] Hint Resolve prime_3677 : primes.

Lemma prime_197 : Z.prime 197.
Proof. by_trial. Qed.
#[export] Hint Resolve prime_197 : primes.

Lemma prime_66417393611 : Z.prime 66417393611.
Proof. by_pocklington [3677; 197]. Qed.
#[export] Hint Resolve prime_66417393611 : primes.

Lemma prime_11290956913871 : Z.prime 11290956913871.
Proof. by_pocklington [66417393611]. Qed.
#[export] Hint Resolve prime_11290956913871 : primes.

Lemma prime_774023187263532362759620327192479577272145303 : Z.prime 774023187263532362759620327192479577272145303.
Proof. by_pocklington [46076956964474543; 11290956913871]. Qed.
#[export] Hint Resolve prime_774023187263532362759620327192479577272145303 : primes.

Lemma prime_835945042244614951780389953367877943453916927241 : Z.prime 835945042244614951780389953367877943453916927241.
Proof. by_pocklington [774023187263532362759620327192479577272145303]. Qed.
#[export] Hint Resolve prime_835945042244614951780389953367877943453916927241 : primes.

Definition field_modulus : Z := 0xffffffff00000001000000000000000000000000ffffffffffffffffffffffff.

Lemma field_modulus_prime : Z.prime field_modulus.
Proof. unfold field_modulus. by_pocklington [835945042244614951780389953367877943453916927241]. Qed.

Lemma prime_155317 : Z.prime 155317.
Proof. by_trial. Qed.
#[export] Hint Resolve prime_155317 : primes.

Lemma prime_191039911 : Z.prime 191039911.
Proof. by_pocklington [155317]. Qed.
#[export] Hint Resolve prime_191039911 : primes.

Lemma prime_3023 : Z.prime 3023.
Proof. by_trial. Qed.
#[export] Hint Resolve prime_3023 : primes.

Lemma prime_208150935158385979 : Z.prime 208150935158385979.
Proof. by_pocklington [191039911; 3023]. Qed.
#[export] Hint Resolve prime_208150935158385979 : primes.

Lemma prime_2624747550333869278416773953 : Z.prime 2624747550333869278416773953.
Proof. by_pocklington [208150935158385979]. Qed.
#[export] Hint Resolve prime_2624747550333869278416773953 : primes.

Lemma prime_104471 : Z.prime 104471.
Proof. by_trial. Qed.
#[export] Hint Resolve prime_104471 : primes.

Lemma prime_3969899 : Z.prime 3969899.
Proof. by_pocklington [104471]. Qed.
#[export] Hint Resolve prime_3969899 : primes.

Lemma prime_1002328039319 : Z.prime 1002328039319.
Proof. by_pocklington [3969899]. Qed.
#[export] Hint Resolve prime_1002328039319 : primes.

Definition group_order : Z := 0xffffffff00000000ffffffffffffffffbce6faada7179e84f3b9cac2fc632551.

Lemma group_order_prime : Z.prime group_order.
Proof. unfold group_order. by_pocklington [2624747550333869278416773953; 1002328039319]. Qed.

