(* ===== verification/Curve.v ===== *)
(** * The curve of P-256, as algebra

    The chord-and-tangent law of the curve [y^2 = x^3 - 3x + b] over a prime field, and the
    Jacobian formulas of [src/p256.rs] in that field: they compute the affine law without
    divisions, and keep points on the curve. *)
From Stdlib Require Import ZArith Lia Zdivisibility Zmod Field.
From stdpp Require Import prelude.
From S2P Require Import Prelude Primes.
Set Warnings "-clear-no-such-hyp".

Section curve.
Variable m : Z.
Hypothesis m_prime : Z.prime m.
Hypothesis m_large : (3 < m)%Z.

Local Open Scope Zmod_scope.
Implicit Types x y z a b : Zmod m.

Lemma F_field : field_theory (@Zmod.zero m) Zmod.one Zmod.add Zmod.mul Zmod.sub Zmod.opp Zmod.mdiv Zmod.inv eq.
Proof. by apply Zmod.field_theory. Qed.
Add Field F_field_ring : F_field.

#[local] Instance F_eq_dec : EqDecision (Zmod m).
Proof.
  intros x y. destruct (Z.eq_dec (Zmod.to_Z x) (Zmod.to_Z y)) as [E|E]; [left; by apply Zmod.to_Z_inj|right; congruence].
Defined.

Definition two : Zmod m := 1 + 1.
Definition three : Zmod m := 1 + 1 + 1.

Lemma F_of_Z_ne (n : Z) : (0 < n < m)%Z -> Zmod.of_Z m n <> 0.
Proof.
  intros Hn E. apply (f_equal Zmod.to_Z) in E. rewrite Zmod.to_Z_of_Z, Zmod.to_Z_0, Z.mod_small in E by lia. lia.
Qed.

Lemma two_ne : two <> 0.
Proof.
  unfold two. intros E. apply (F_of_Z_ne 2 ltac:(lia)). rewrite <- E. change 2%Z with (1 + 1)%Z. by rewrite Zmod.of_Z_add, Zmod.of_Z_1.
Qed.

Lemma mul_ne x y : x <> 0 -> y <> 0 -> x * y <> 0.
Proof. intros Hx Hy E. apply Zmod.mul_0_iff_prime in E as [E|E]; done. Qed.

Lemma mul_zero x y : x * y = 0 -> x = 0 \/ y = 0.
Proof. by apply Zmod.mul_0_iff_prime. Qed.

Lemma sub_ne x y : x <> y -> x - y <> 0.
Proof. intros H E. apply H. replace x with (x - y + y) by ring. rewrite E. ring. Qed.

Lemma div_mul x y : y <> 0 -> Zmod.mdiv x y * y = x.
Proof. intros Hy. field. exact Hy. Qed.

(** Points are compared by their coordinates. *)
Ltac some_pair := apply f_equal; apply f_equal2.

(** ** The affine law *)
Variable b : Zmod m.

(** [None] is the identity. *)
Definition point : Type := option (Zmod m * Zmod m).

Definition on_curve (p : point) : Prop :=
  match p with
  | None => True
  | Some (x, y) => y * y = x * x * x - three * x + b
  end.

Definition chord x1 y1 x2 l : point := let x3 := l * l - x1 - x2 in Some (x3, l * (x1 - x3) - y1).

Definition double_point (p : point) : point :=
  match p with
  | None => None
  | Some (x, y) => if decide (y = 0) then None else chord x y x (Zmod.mdiv (three * (x * x) - three) (two * y))
  end.

Definition add_points (p q : point) : point :=
  match p, q with
  | None, _ => q
  | _, None => p
  | Some (x1, y1), Some (x2, y2) =>
      if decide (x1 = x2) then if decide (y1 = y2) then double_point p else None
      else chord x1 y1 x2 (Zmod.mdiv (y2 - y1) (x2 - x1))
  end.

Lemma double_on_curve p : on_curve p -> on_curve (double_point p).
Proof.
  destruct p as [[x y]|]; [|done]. cbn [on_curve double_point]. intros H. destruct (decide (y = 0)) as [|Hy]; [done|].
  cbn [chord on_curve].
  set (l := Zmod.mdiv (three * (x * x) - three) (two * y)).
  assert (Hl : l * (two * y) = three * (x * x) - three) by (apply div_mul; exact (mul_ne _ _ two_ne Hy)).
  clearbody l. assert (E : three * (x * x) - three - l * (two * y) = 0) by (rewrite Hl; ring).
  replace b with (y * y - x * x * x + three * x) by (rewrite H; ring). set (x3 := l * l - x - x).
  transitivity (x3 * x3 * x3 - three * x3 + (y * y - x * x * x + three * x)
    + (three * (x * x) - three - l * (two * y)) * (three * x - l * l)); [unfold x3, two, three; ring|rewrite E; ring].
Qed.

Lemma add_on_curve p q : on_curve p -> on_curve q -> on_curve (add_points p q).
Proof.
  destruct p as [[x1 y1]|], q as [[x2 y2]|]; [|done..]. intros H1 H2. cbn [add_points]. destruct (decide (x1 = x2)) as [->|Hx].
  { destruct (decide (y1 = y2)); [by apply double_on_curve|done]. }
  cbn [on_curve chord] in *. assert (Hd : x2 - x1 <> 0) by (apply sub_ne; congruence).
  set (l := Zmod.mdiv (y2 - y1) (x2 - x1)).
  assert (Hl : l * (x2 - x1) = y2 - y1) by (apply div_mul; exact Hd). clearbody l.
  assert (Hb : b = y1 * y1 - x1 * x1 * x1 + three * x1) by (rewrite H1; ring).
  assert (Hy : y2 = y1 + l * (x2 - x1)) by (rewrite Hl; ring). subst y2. rewrite Hb in *. clear H1 Hb Hl.
  (* the third root of a cubic with two of its roots *)
  assert (E : (x2 - x1) * ((x1 + x2) * (x1 + x2) - x1 * x2 - three - (y1 + y1) * l - l * l * (x2 - x1)) = 0).
  { transitivity ((x2 * x2 * x2 - three * x2 + (y1 * y1 - x1 * x1 * x1 + three * x1)) - (y1 + l * (x2 - x1)) * (y1 + l * (x2 - x1))); [ring|].
    rewrite H2. ring. }
  apply mul_zero in E as [E|E]; [by elim Hd|].
  assert (E3 : three = (x1 + x2) * (x1 + x2) - x1 * x2 - (y1 + y1) * l - l * l * (x2 - x1)).
  { replace three with (three + 0) by ring. rewrite <- E. ring. }
  rewrite E3. ring.
Qed.

(** ** The Jacobian formulas, as the code computes them *)
Record jacobian : Type := mkJacobian { jx : Zmod m; jy : Zmod m; jz : Zmod m }.

Definition jacobian_identity : jacobian := mkJacobian 0 1 0.

Definition jacobian_of (p : point) : jacobian :=
  match p with
  | None => jacobian_identity
  | Some (x, y) => mkJacobian x y 1
  end.

Definition jacobian_point (p : jacobian) : point :=
  if decide (jz p = 0) then None
  else Some (jx p * (Zmod.inv (jz p) * Zmod.inv (jz p)), jy p * (Zmod.inv (jz p) * Zmod.inv (jz p)) * Zmod.inv (jz p)).

Definition f_double x : Zmod m := x + x.
Definition f_triple x : Zmod m := f_double x + x.

Definition jacobian_double (p : jacobian) : jacobian :=
  if decide (jz p = 0 \/ jy p = 0) then jacobian_identity
  else
    let delta := jz p * jz p in
    let gamma := jy p * jy p in
    let beta := jx p * gamma in
    let alpha := f_triple ((jx p - delta) * (jx p + delta)) in
    let x := alpha * alpha - f_double (f_double (f_double beta)) in
    let z := (jy p + jz p) * (jy p + jz p) - gamma - delta in
    let y := alpha * (f_double (f_double beta) - x) - f_double (f_double (f_double (gamma * gamma))) in
    mkJacobian x y z.

Definition jacobian_add (p q : jacobian) : jacobian :=
  if decide (jz p = 0) then q
  else if decide (jz q = 0) then p
  else
    let z1_squared := jz p * jz p in
    let z2_squared := jz q * jz q in
    let u1 := jx p * z2_squared in
    let u2 := jx q * z1_squared in
    let s1 := jy p * jz q * z2_squared in
    let s2 := jy q * jz p * z1_squared in
    if decide (u1 = u2) then
      if decide (s1 <> s2) then jacobian_identity else jacobian_double p
    else
      let h := u2 - u1 in
      let i := f_double h * f_double h in
      let j := h * i in
      let r := f_double (s2 - s1) in
      let v := u1 * i in
      let x := r * r - j - f_double v in
      let y := r * (v - x) - f_double (s1 * j) in
      let z := ((jz p + jz q) * (jz p + jz q) - z1_squared - z2_squared) * h in
      mkJacobian x y z.

Lemma one_ne : (1 : Zmod m) <> 0.
Proof. apply Zmod.one_neq_zero. lia. Qed.

Lemma inv_ne x : x <> 0 -> Zmod.inv x <> 0.
Proof. intros Hx. by apply Zmod.inv_nz_prime. Qed.

(** A quotient is the number that multiplies to the dividend. *)
Lemma div_unique x y q : y <> 0 -> q * y = x -> Zmod.mdiv x y = q.
Proof. intros Hy <-. field. exact Hy. Qed.

Lemma inv_unique x i : x * i = 1 -> Zmod.inv x = i.
Proof.
  intros H. assert (Hx : x <> 0) by (intros ->; apply one_ne; rewrite <- H; ring).
  replace i with (Zmod.inv x * (x * i)) by (field; exact Hx). rewrite H. ring.
Qed.

Lemma inverse x : x <> 0 -> x * Zmod.inv x = 1.
Proof. intros Hx. field. exact Hx. Qed.

(** A Jacobian point with another third coordinate than zero, by the inverse of that. *)
Lemma jacobian_point_inv p i : jz p * i = 1 -> jacobian_point p = Some (jx p * (i * i), jy p * (i * i) * i).
Proof.
  intros Hi. unfold jacobian_point. rewrite (inv_unique _ _ Hi), decide_False; [done|].
  intros Hz. apply one_ne. rewrite <- Hi, Hz. ring.
Qed.

Lemma jacobian_point_zero p : jz p = 0 -> jacobian_point p = None.
Proof. intros Hz. unfold jacobian_point. by rewrite decide_True. Qed.

Lemma jacobian_of_point p : jacobian_point (jacobian_of p) = p.
Proof.
  destruct p as [[x y]|]; [|by apply jacobian_point_zero]. rewrite (jacobian_point_inv _ 1) by (cbn [jacobian_of jz]; ring).
  cbn [jacobian_of jx jy jz]. some_pair; ring.
Qed.

(** Affine coordinates as multiples of one unit: [a u = b u] is [a = b]. *)
Lemma mul_unit_iff x y u : u <> 0 -> x * u = y * u <-> x = y.
Proof.
  intros Hu. split; [|congruence]. intros H. assert (E : (x - y) * u = 0) by (replace ((x - y) * u) with (x * u - y * u) by ring; rewrite H; ring).
  apply mul_zero in E as [E|E]; [|by elim Hu]. replace x with (x - y + y) by ring. rewrite E. ring.
Qed.

Lemma inverse_ne x i : x * i = 1 -> i <> 0.
Proof. intros H ->. apply one_ne. rewrite <- H. ring. Qed.

Lemma jacobian_double_point x y z i : z * i = 1 -> y <> 0 ->
  jacobian_point (jacobian_double (mkJacobian x y z)) = double_point (Some (x * (i * i), y * (i * i) * i)).
Proof.
  intros Hi Hy. unfold jacobian_double. cbn [jx jy jz]. assert (Hz : z <> 0) by (intros ->; apply one_ne; rewrite <- Hi; ring).
  rewrite decide_False by tauto. pose proof (inverse (two * y * z)) as Hj. set (j := Zmod.inv _) in Hj. clearbody j.
  specialize (Hj (mul_ne _ _ (mul_ne _ _ two_ne Hy) Hz)).
  rewrite (jacobian_point_inv _ j) by (cbn [jz]; rewrite <- Hj; unfold two; ring). cbn [jx jy jz double_point].
  assert (Ei : i = two * y * j).
  { transitivity ((two * y * z * j) * i); [rewrite Hj; ring|]. transitivity ((z * i) * (two * y * j)); [ring|]. rewrite Hi. ring. }
  assert (Hne : two * (y * (i * i) * i) <> 0) by (pose proof two_ne; pose proof (inverse_ne _ _ Hi); repeat apply mul_ne; assumption).
  rewrite decide_False by (intros E; apply Hne; rewrite E; ring).
  set (a := f_triple ((x - z * z) * (x + z * z))). rewrite (div_unique _ _ (a * j)); [|exact Hne|].
  - clearbody a. unfold chord, f_double. rewrite Ei. unfold two. some_pair; ring.
  - transitivity (a * (two * y * j) * (i * i * i)); [ring|]. rewrite <- Ei.
    transitivity (three * ((x * (i * i)) * (x * (i * i))) - three * ((z * i) * (z * i) * ((z * i) * (z * i)))).
    + unfold a, f_triple, f_double, three. ring.
    + rewrite Hi. ring.
Qed.

Theorem jacobian_double_correct p : jacobian_point (jacobian_double p) = double_point (jacobian_point p).
Proof.
  destruct (decide (jz p = 0)) as [Hz|Hz].
  { unfold jacobian_double. rewrite decide_True by (left; exact Hz). rewrite (jacobian_point_zero p Hz). by apply jacobian_point_zero. }
  rewrite (jacobian_point_inv p _ (inverse _ Hz)). pose proof (inverse _ Hz) as Hi. set (i := Zmod.inv _) in *. clearbody i.
  destruct (decide (jy p = 0)) as [Hy|Hy].
  - unfold jacobian_double. rewrite decide_True by (right; exact Hy). rewrite jacobian_point_zero by done. cbn [double_point].
    rewrite decide_True; [done|]. rewrite Hy. ring.
  - destruct p as [x y z]. by apply jacobian_double_point.
Qed.

(** The chord between two points of distinct abscissae. *)
Lemma jacobian_add_point x1 y1 z1 x2 y2 z2 i1 i2 : z1 * i1 = 1 -> z2 * i2 = 1 -> x1 * (z2 * z2) <> x2 * (z1 * z1) ->
  jacobian_point (jacobian_add (mkJacobian x1 y1 z1) (mkJacobian x2 y2 z2)) =
  add_points (Some (x1 * (i1 * i1), y1 * (i1 * i1) * i1)) (Some (x2 * (i2 * i2), y2 * (i2 * i2) * i2)).
Proof.
  intros H1 H2 Hu. unfold jacobian_add. cbn [jx jy jz].
  assert (Hz1 : z1 <> 0) by (intros ->; apply one_ne; rewrite <- H1; ring). assert (Hz2 : z2 <> 0) by (intros ->; apply one_ne; rewrite <- H2; ring).
  rewrite (decide_False (P := z1 = 0)), (decide_False (P := z2 = 0)), (decide_False _ _ Hu) by assumption.
  assert (Hh : x2 * (z1 * z1) - x1 * (z2 * z2) <> 0) by (apply sub_ne; congruence).
  remember (x2 * (z1 * z1) - x1 * (z2 * z2)) as h eqn:Eh.
  pose proof (inverse _ (mul_ne _ _ (mul_ne _ _ (mul_ne _ _ two_ne Hz1) Hz2) Hh)) as Hj. set (j := Zmod.inv _) in Hj. clearbody j.
  rewrite (jacobian_point_inv _ j) by (cbn [jz]; rewrite <- Hj; unfold two; ring). cbn [jx jy jz add_points].
  assert (E1 : i1 = two * z2 * h * j).
  { transitivity ((two * z1 * z2 * h * j) * i1); [rewrite Hj; ring|]. transitivity ((z1 * i1) * (two * z2 * h * j)); [ring|]. rewrite H1. ring. }
  assert (E2 : i2 = two * z1 * h * j).
  { transitivity ((two * z1 * z2 * h * j) * i2); [rewrite Hj; ring|]. transitivity ((z2 * i2) * (two * z1 * h * j)); [ring|]. rewrite H2. ring. }
  assert (Hd : x2 * (i2 * i2) - x1 * (i1 * i1) = h * (two * h * j * (two * h * j))) by (rewrite E1, E2, Eh; ring).
  assert (Hne : x2 * (i2 * i2) - x1 * (i1 * i1) <> 0).
  { rewrite Hd. assert (two * h * j <> 0) by (repeat apply mul_ne; try assumption; [exact two_ne|exact (inverse_ne _ _ Hj)]).
    by apply mul_ne, mul_ne. }
  rewrite decide_False by (intros E; apply Hne; rewrite E; ring).
  rewrite (div_unique _ _ (f_double (y2 * z1 * (z1 * z1) - y1 * z2 * (z2 * z2)) * j)); [|exact Hne|].
  - assert (X2 : x2 * (i2 * i2) = x1 * (i1 * i1) + h * (two * h * j * (two * h * j))) by (rewrite <- Hd; ring).
    rewrite X2. clear Hd Hne X2 Eh Hj H1 H2 Hu. rewrite E1. clear E1 E2. unfold chord, f_double, two.
    set (s2 := y2 * z1 * (z1 * z1)). clearbody s2. some_pair; ring.
  - rewrite Hd, E1, E2. unfold f_double, two. ring.
Qed.

Theorem jacobian_add_correct p q : jacobian_point (jacobian_add p q) = add_points (jacobian_point p) (jacobian_point q).
Proof.
  destruct (decide (jz p = 0)) as [Hz1|Hz1].
  { unfold jacobian_add. rewrite decide_True by exact Hz1. by rewrite (jacobian_point_zero p Hz1). }
  destruct (decide (jz q = 0)) as [Hz2|Hz2].
  { unfold jacobian_add. rewrite decide_False, decide_True by assumption. rewrite (jacobian_point_zero q Hz2). by destruct (jacobian_point p) as [[? ?]|]. }
  destruct (decide (jx p * (jz q * jz q) = jx q * (jz p * jz p))) as [Eu|Eu].
  - unfold jacobian_add. rewrite (decide_False (P := jz p = 0)), (decide_False (P := jz q = 0)), (decide_True _ _ Eu) by assumption.
    rewrite (jacobian_point_inv p _ (inverse _ Hz1)), (jacobian_point_inv q _ (inverse _ Hz2)). cbn [add_points].
    pose proof (inverse _ Hz1) as H1. pose proof (inverse _ Hz2) as H2. set (i1 := Zmod.inv (jz p)) in *. set (i2 := Zmod.inv (jz q)) in *.
    pose proof (inverse_ne _ _ H1) as N1. pose proof (inverse_ne _ _ H2) as N2.
    assert (Ex : jx p * (i1 * i1) = jx q * (i2 * i2)).
    { transitivity (jx p * (i1 * i1) * (jz q * i2 * (jz q * i2))); [rewrite H2; ring|].
      transitivity (jx p * (jz q * jz q) * (i1 * i1 * (i2 * i2))); [ring|]. rewrite Eu.
      transitivity (jx q * (i2 * i2) * (jz p * i1 * (jz p * i1))); [ring|]. rewrite H1. ring. }
    rewrite (decide_True _ _ Ex).
    assert (Es : jy p * (i1 * i1) * i1 = jy q * (i2 * i2) * i2 <-> jy p * jz q * (jz q * jz q) = jy q * jz p * (jz p * jz p)).
    { rewrite <- (mul_unit_iff (jy p * jz q * (jz q * jz q)) _ (i1 * i1 * i1 * (i2 * i2 * i2))) by (repeat apply mul_ne; assumption).
      replace (jy p * jz q * (jz q * jz q) * (i1 * i1 * i1 * (i2 * i2 * i2))) with (jy p * (i1 * i1) * i1 * ((jz q * i2) * (jz q * i2) * (jz q * i2))) by ring.
      replace (jy q * jz p * (jz p * jz p) * (i1 * i1 * i1 * (i2 * i2 * i2))) with (jy q * (i2 * i2) * i2 * ((jz p * i1) * (jz p * i1) * (jz p * i1))) by ring.
      rewrite H1, H2. symmetry. apply mul_unit_iff. repeat apply mul_ne; exact one_ne. }
    destruct (decide (jy p * jz q * (jz q * jz q) <> jy q * jz p * (jz p * jz p))) as [Ey|Ey].
    + rewrite decide_False by (intros E; by apply Ey, Es). by apply jacobian_point_zero.
    + rewrite decide_True by (apply Es; by apply dec_stable). rewrite jacobian_double_correct.
      by rewrite (jacobian_point_inv p _ H1).
  - rewrite (jacobian_point_inv p _ (inverse _ Hz1)), (jacobian_point_inv q _ (inverse _ Hz2)).
    destruct p as [x1 y1 z1], q as [x2 y2 z2]. apply jacobian_add_point; [by apply inverse..|exact Eu].
Qed.

(** ** Multiples *)
Fixpoint multiple_pos (n : positive) (p : point) : point :=
  match n with
  | xH => p
  | xO n' => double_point (multiple_pos n' p)
  | xI n' => add_points (double_point (multiple_pos n' p)) p
  end.

Definition multiple (n : Z) (p : point) : point :=
  match n with
  | Z.pos n => multiple_pos n p
  | _ => None
  end.

Lemma multiple_step (n : Z) (c : bool) p : (0 <= n)%Z ->
  multiple (2 * n + Z.b2z c) p = (let r := double_point (multiple n p) in if c then add_points r p else r).
Proof. destruct n as [|n|n]; [by destruct c|by destruct c|lia]. Qed.

Lemma multiple_on_curve (n : Z) p : on_curve p -> on_curve (multiple n p).
Proof.
  intros Hp. destruct n as [|n|]; [done| |done]. cbn [multiple]. induction n as [n IH|n IH|]; cbn [multiple_pos]; [|by apply double_on_curve|done].
  apply add_on_curve; [by apply double_on_curve|done].
Qed.

Lemma add_identity p : add_points None p = p /\ add_points p None = p.
Proof. split; [done|]. by destruct p as [[? ?]|]. Qed.

End curve.
