(* ===== verification/Polynomials.v ===== *)
(** * Polynomials over a field

    What the proof of the group law needs of the polynomials in one variable over a field: they form a
    commutative ring without zero divisors, they are evaluated at the elements of the field, and they
    have a degree. MathComp's polynomials have all that; the statement is free of MathComp's structures,
    for a field given by its operations and a coding of its elements by numbers. *)
From HB Require Import structures.
From mathcomp Require Import ssreflect ssrfun ssrbool eqtype ssrnat seq choice ssralg poly.
From Stdlib Require Import Ring_theory Field_theory.

Set Implicit Arguments.
Unset Strict Implicit.
Unset Printing Implicit Defensive.
Import GRing.Theory.

(** The interface: [degree] of the zero polynomial is 0. *)
Record polynomials (K : Type) (k0 k1 : K) (kadd kmul : K -> K -> K) : Type := Polynomials {
  poly_of : Type;
  p0 : poly_of;
  p1 : poly_of;
  padd : poly_of -> poly_of -> poly_of;
  pmul : poly_of -> poly_of -> poly_of;
  psub : poly_of -> poly_of -> poly_of;
  popp : poly_of -> poly_of;
  poly_ring : ring_theory p0 p1 padd pmul psub popp (@eq poly_of);
  constant : K -> poly_of;
  constant_0 : constant k0 = p0;
  constant_1 : constant k1 = p1;
  constant_add : forall c d, constant (kadd c d) = padd (constant c) (constant d);
  constant_mul : forall c d, constant (kmul c d) = pmul (constant c) (constant d);
  indeterminate : poly_of;
  eval : K -> poly_of -> K;
  eval_add : forall x p q, eval x (padd p q) = kadd (eval x p) (eval x q);
  eval_mul : forall x p q, eval x (pmul p q) = kmul (eval x p) (eval x q);
  eval_constant : forall x c, eval x (constant c) = c;
  eval_indeterminate : forall x, eval x indeterminate = x;
  poly_zero_dec : forall p, {p = p0} + {p <> p0};
  degree : poly_of -> nat;
  degree_constant : forall c, degree (constant c) = 0;
  degree_indeterminate : degree indeterminate = 1;
  degree_zero : forall p, degree p = 0 -> exists c, p = constant c;
  degree_mul : forall p q, p <> p0 -> q <> p0 -> pmul p q <> p0 /\ degree (pmul p q) = Nat.add (degree p) (degree q);
  degree_add : forall p q, Peano.lt (degree p) (degree q) -> degree (padd p q) = degree q
}.

Section polynomials_over.
Variables (K : Type) (k0 k1 : K) (kadd kmul ksub : K -> K -> K) (kopp : K -> K) (kdiv : K -> K -> K) (kinv : K -> K).
Hypothesis K_field : field_theory k0 k1 kadd kmul ksub kopp kdiv kinv (@eq K).
Variables (code : K -> nat) (decode : nat -> option K).
Hypothesis codeK : forall x, decode (code x) = Some x.

Let K_ring := F_R K_field.

(** [K] as a field of MathComp. *)
Definition coded : Type := K.

HB.instance Definition _ := Choice.copy coded (pcan_type codeK).

Lemma kaddA : associative kadd.
Proof. by move=> x y z; exact: (Radd_assoc K_ring). Qed.

Lemma kaddC : commutative kadd.
Proof. exact: (Radd_comm K_ring). Qed.

Lemma kadd0 : left_id k0 kadd.
Proof. exact: (Radd_0_l K_ring). Qed.

Lemma kaddN : left_inverse k0 kopp kadd.
Proof. by move=> x; rewrite kaddC; exact: (Ropp_def K_ring). Qed.

HB.instance Definition _ := GRing.isZmodule.Build coded kaddA kaddC kadd0 kaddN.

Lemma kmulA : associative kmul.
Proof. by move=> x y z; exact: (Rmul_assoc K_ring). Qed.

Lemma kmulC : commutative kmul.
Proof. exact: (Rmul_comm K_ring). Qed.

Lemma kmul1 : left_id k1 kmul.
Proof. exact: (Rmul_1_l K_ring). Qed.

Lemma kmulD : left_distributive kmul kadd.
Proof. by move=> x y z; exact: (Rdistr_l K_ring). Qed.

Lemma k1_neq0 : (k1 : coded) != k0.
Proof. by apply/eqP; exact: (F_1_neq_0 K_field). Qed.

HB.instance Definition _ := GRing.Zmodule_isComNzRing.Build coded kmulA kmulC kmul1 kmulD k1_neq0.

Definition coded_inv (x : coded) : coded := if x == 0%R then k0 else kinv x.

Lemma coded_mulV (x : coded) : x != 0%R -> (coded_inv x * x)%R = 1%R.
Proof. by rewrite /coded_inv; case: eqP => // H _; exact: (Finv_l K_field). Qed.

Lemma coded_inv0 : coded_inv 0%R = 0%R.
Proof. by rewrite /coded_inv eqxx. Qed.

HB.instance Definition _ := GRing.ComNzRing_isField.Build coded coded_mulV coded_inv0.

Local Open Scope ring_scope.
Implicit Types p q : {poly coded}.

Definition poly_degree p : nat := (size p).-1.

Lemma coded_poly_ring : @ring_theory {poly coded} 0 1 +%R *%R (fun p q => p - q) -%R eq.
Proof.
  split=> //; [exact: add0r|exact: addrC|exact: addrA|exact: mul1r|exact: mulrC|exact: mulrA|exact: mulrDl|].
  exact: subrr.
Qed.

Lemma poly_degree_zero p : poly_degree p = 0%N -> exists c, p = c%:P.
Proof. by move=> Hp; exists (p`_0); apply: size1_polyC; move: Hp; rewrite /poly_degree; case: (size p) => [|[]]. Qed.

Lemma poly_degree_mul p q : p <> 0 -> q <> 0 -> p * q <> 0 /\ poly_degree (p * q) = Nat.add (poly_degree p) (poly_degree q).
Proof.
  move=> /eqP Hp /eqP Hq. split; first by apply/eqP; rewrite mulf_neq0.
  rewrite /poly_degree size_mul // plusE. move: Hp Hq. rewrite -!size_poly_gt0.
  by case: (size p) => // m _; case: (size q) => // n _; rewrite addSn addnS.
Qed.

Lemma poly_degree_add p q : Peano.lt (poly_degree p) (poly_degree q) -> poly_degree (p + q) = poly_degree q.
Proof.
  move=> /ltP H. rewrite addrC /poly_degree size_polyDl //. move: H. rewrite /poly_degree.
  by case: (size p) => [|m]; case: (size q) => [|n].
Qed.

Lemma poly_decidable p : {p = 0} + {p <> 0}.
Proof. by case: (eqVneq p 0) => [->|/eqP]; [left|right]. Qed.

Lemma poly_degree_constant (c : coded) : poly_degree c%:P = 0%N.
Proof. by rewrite /poly_degree size_polyC; case: (c != 0). Qed.

Lemma poly_degree_X : poly_degree 'X = 1%N.
Proof. by rewrite /poly_degree size_polyX. Qed.

Definition coded_constant (c : coded) : {poly coded} := c%:P.

Definition coded_eval (x : coded) p : coded := p.[x].

(** The polynomials over [K]. *)
Definition field_polynomials : polynomials k0 k1 kadd kmul :=
  @Polynomials K k0 k1 kadd kmul {poly coded} 0 1 +%R *%R (fun p q => p - q) -%R coded_poly_ring
    coded_constant (polyC0 coded) (polyC1 coded) (@polyCD coded) (@polyCM coded) 'X
    coded_eval (fun (x : coded) p q => hornerD p q x) (fun (x : coded) p q => hornerM p q x)
    (fun x (c : coded) => hornerC c x) (@hornerX coded) poly_decidable
    poly_degree poly_degree_constant poly_degree_X poly_degree_zero poly_degree_mul poly_degree_add.

End polynomials_over.
