(* ===== verification/Coordinates.v ===== *)
(** * The coordinate ring of the curve

    The polynomial functions on the curve [y^2 = x^3 - 3x + b]: sums [p + q y] of polynomials in x. They
    form a ring in which the degree of the norm counts zeros: it adds up in products, it is never 1, and
    the functions of degree 0 are the constants. The group law follows from that in [CurveGroup]. *)
From Stdlib Require Import ZArith Lia Zdivisibility Zmod Field.
From stdpp Require Import prelude.
From S2P Require Import Prelude Polynomials Primes Curve.
Set Warnings "-clear-no-such-hyp".

Section coordinates.
Variable m : Z.
Hypothesis m_prime : Z.prime m.
Hypothesis m_large : (3 < m)%Z.
Variable b : Zmod m.
Variable P : @polynomials (Zmod m) Zmod.zero Zmod.one Zmod.add Zmod.mul.

Local Open Scope Zmod_scope.
Add Field K_field : (F_field m m_prime).

Declare Scope poly_scope.
Delimit Scope poly_scope with P.
Notation poly := (poly_of P).
Bind Scope poly_scope with poly_of.
Notation "0" := (p0 P) : poly_scope.
Notation "1" := (p1 P) : poly_scope.
Notation "p + q" := (padd p%P q%P) : poly_scope.
Notation "p * q" := (pmul p%P q%P) : poly_scope.
Notation "p - q" := (psub p%P q%P) : poly_scope.
Notation "- p" := (popp p%P) : poly_scope.
#[local] Arguments constant {_ _ _ _ _} _ _%_Zmod_scope.
Notation cst := (constant P).
Notation X := (indeterminate P).
Implicit Types (p q : poly) (x y c : Zmod m).

Add Ring P_ring : (poly_ring P).

(** ** Polynomials *)
Lemma constant_opp c : cst (- c) = (- cst c)%P.
Proof.
  transitivity (cst (- c) + cst c - cst c)%P; [ring|]. rewrite <- constant_add. replace (- c + c) with (0 : Zmod m) by ring.
  rewrite constant_0. ring.
Qed.

Lemma constant_sub c d : cst (c - d) = (cst c - cst d)%P.
Proof. replace (c - d) with (c + - d) by ring. rewrite constant_add, constant_opp. ring. Qed.

Lemma constant_ne c : c <> 0 -> cst c <> 0%P.
Proof. intros Hc E. apply Hc. rewrite <- (eval_constant P 0 c), E, <- constant_0. apply eval_constant. Qed.

Lemma indeterminate_ne : X <> 0%P.
Proof. intros E. pose proof (degree_indeterminate P) as H. rewrite E, <- constant_0, degree_constant in H. lia. Qed.

Lemma degree_opp p : degree (- p)%P = degree p.
Proof.
  destruct (poly_zero_dec p) as [->|Hp]; [f_equal; ring|].
  replace (- p)%P with (cst (Zmod.opp 1) * p)%P by (rewrite constant_opp, constant_1; ring).
  destruct (degree_mul (p := cst (Zmod.opp 1)) (q := p)) as [_ ->]; [|done|by rewrite degree_constant].
  apply constant_ne. intros E. apply (one_ne m m_large). transitivity (Zmod.opp (Zmod.opp 1) : Zmod m); [ring|]. rewrite E. ring.
Qed.

(** The cubic of the curve. *)
Definition cubic : poly := (X * X * X - cst (three m) * X + cst b)%P.

Lemma eval_cubic x : eval x cubic = x * x * x - three m * x + b.
Proof.
  unfold cubic. replace (X * X * X - cst (three m) * X)%P with (X * X * X + cst (- three m) * X)%P by (rewrite constant_opp; ring).
  rewrite !eval_add, !eval_mul, !eval_indeterminate, !eval_constant. ring.
Qed.

Lemma degree_cubic : cubic <> 0%P /\ degree cubic = 3%nat.
Proof.
  pose proof indeterminate_ne as HX. destruct (degree_mul HX HX) as [H2 D2]. destruct (degree_mul H2 HX) as [H3 D3].
  rewrite D2, !degree_indeterminate in D3. cbn in D3.
  assert (Hlow : (degree (cst b - cst (three m) * X)%P <= 1)%nat).
  { replace (cst b - cst (three m) * X)%P with (cst b + cst (- three m) * X)%P by (rewrite constant_opp; ring).
    assert (H1 : (degree (cst (- three m) * X)%P <= 1)%nat).
    { destruct (poly_zero_dec (cst (- three m))) as [E|E].
      - rewrite E. replace (0 * X)%P with (cst 0) by (rewrite constant_0; ring). rewrite degree_constant. lia.
      - destruct (degree_mul E HX) as [_ ->]. rewrite degree_constant, degree_indeterminate. lia. }
    destruct (decide (degree (cst (- three m) * X)%P = 0%nat)) as [E|E].
    - apply degree_zero in E as [c ->]. rewrite <- constant_add, degree_constant. lia.
    - rewrite degree_add; rewrite ?degree_constant; lia. }
  replace cubic with ((cst b - cst (three m) * X) + X * X * X)%P by (unfold cubic; ring).
  assert (Hd : degree ((cst b - cst (three m) * X) + X * X * X)%P = 3%nat) by (rewrite degree_add; lia).
  split; [|done]. intros E. rewrite E, <- constant_0, degree_constant in Hd. lia.
Qed.

(** ** Functions *)
(** [mkFunction p q] is [p + q y]. *)
Record function : Type := mkFunction { even_part : poly; odd_part : poly }.

Definition fun0 : function := mkFunction 0%P 0%P.
Definition fun1 : function := mkFunction 1%P 0%P.
Definition fadd (u v : function) : function := mkFunction (even_part u + even_part v)%P (odd_part u + odd_part v)%P.
Definition fsub (u v : function) : function := mkFunction (even_part u - even_part v)%P (odd_part u - odd_part v)%P.
Definition fopp (u : function) : function := mkFunction (- even_part u)%P (- odd_part u)%P.
Definition fmul (u v : function) : function :=
  mkFunction (even_part u * even_part v + odd_part u * odd_part v * cubic)%P (even_part u * odd_part v + odd_part u * even_part v)%P.
Definition fconst (c : Zmod m) : function := mkFunction (cst c) 0%P.
Definition fX : function := mkFunction X 0%P.
Definition fY : function := mkFunction 0%P 1%P.

Lemma function_ring : ring_theory fun0 fun1 fadd fmul fsub fopp eq.
Proof.
  split; repeat intros []; unfold fadd, fmul, fsub, fopp, fun0, fun1; cbn [even_part odd_part]; f_equal; ring.
Qed.

Lemma fconst_add c d : fconst (c + d) = fadd (fconst c) (fconst d).
Proof. unfold fconst, fadd; cbn [even_part odd_part]. f_equal; [apply constant_add|ring]. Qed.

Lemma fconst_mul c d : fconst (c * d) = fmul (fconst c) (fconst d).
Proof. unfold fconst, fmul; cbn [even_part odd_part]. f_equal; [rewrite constant_mul; ring|ring]. Qed.

Lemma fconst_sub c d : fconst (c - d) = fsub (fconst c) (fconst d).
Proof. unfold fconst, fsub; cbn [even_part odd_part]. f_equal; [apply constant_sub|ring]. Qed.

Lemma fconst_0 : fconst 0 = fun0.
Proof. unfold fconst, fun0. f_equal. apply constant_0. Qed.

Lemma fconst_1 : fconst 1 = fun1.
Proof. unfold fconst, fun1. f_equal. apply constant_1. Qed.

(** The equation of the curve. *)
Lemma function_equation : fmul fY fY = fadd (fsub (fmul (fmul fX fX) fX) (fmul (fconst (three m)) fX)) (fconst b).
Proof. unfold fY, fX, fconst, fmul, fsub, fadd; cbn [even_part odd_part]. f_equal; unfold cubic; ring. Qed.

(** *** Values at the points of the curve *)
Definition value_at (x y : Zmod m) (u : function) : Zmod m := eval x (even_part u) + eval x (odd_part u) * y.

Lemma value_add x y u v : value_at x y (fadd u v) = value_at x y u + value_at x y v.
Proof. unfold value_at, fadd; cbn [even_part odd_part]. rewrite !eval_add. ring. Qed.

Lemma value_mul x y u v : on_curve m b (Some (x, y)) -> value_at x y (fmul u v) = value_at x y u * value_at x y v.
Proof.
  cbn [on_curve]. intros Hc. unfold value_at, fmul; cbn [even_part odd_part]. rewrite !eval_add, !eval_mul, eval_cubic, <- Hc. ring.
Qed.

Lemma eval_zero x : eval x (p0 P) = 0.
Proof. rewrite <- constant_0. apply eval_constant. Qed.

Lemma value_const x y c : value_at x y (fconst c) = c.
Proof. unfold value_at, fconst; cbn [even_part odd_part]. rewrite eval_constant, eval_zero. ring. Qed.

Lemma value_X x y : value_at x y fX = x.
Proof. unfold value_at, fX; cbn [even_part odd_part]. rewrite eval_indeterminate, eval_zero. ring. Qed.

Lemma value_Y x y : value_at x y fY = y.
Proof. unfold value_at, fY; cbn [even_part odd_part]. rewrite <- constant_1, eval_constant, eval_zero. ring. Qed.

(** *** Norms *)
Definition norm (u : function) : poly := (even_part u * even_part u - cubic * (odd_part u * odd_part u))%P.

Definition zeros (u : function) : nat := degree (norm u).

Lemma norm_mul u v : norm (fmul u v) = (norm u * norm v)%P.
Proof. unfold norm, fmul; cbn [even_part odd_part]. ring. Qed.

Lemma poly_mul_zero p : (0 * p)%P = 0%P.
Proof. ring. Qed.

(** The degree of the norm, by the two parts. *)
Lemma zeros_cases u : u <> fun0 ->
  norm u <> 0%P /\
  (odd_part u = 0%P /\ zeros u = (2 * degree (even_part u))%nat \/
   odd_part u <> 0%P /\ (3 <= zeros u)%nat /\ (zeros u = 3 + 2 * degree (odd_part u) \/ zeros u = 2 * degree (even_part u))%nat).
Proof.
  intros Hu. destruct u as [p q]. unfold zeros, norm. cbn [even_part odd_part]. destruct degree_cubic as [Hc Dc].
  destruct (poly_zero_dec q) as [->|Hq].
  { assert (Hp : p <> 0%P) by (intros ->; by apply Hu). destruct (degree_mul Hp Hp) as [Hpp Dpp].
    replace (p * p - cubic * (0 * 0))%P with (p * p)%P by ring. split; [done|left]. split; [done|]. rewrite Dpp. lia. }
  destruct (degree_mul Hq Hq) as [Hqq Dqq]. destruct (degree_mul Hc Hqq) as [Hcq Dcq]. rewrite Dc, Dqq in Dcq.
  pose proof (degree_opp (cubic * (q * q))%P) as Do. rewrite Dcq in Do.
  assert (Hne : forall k n : nat, degree (p * p - cubic * (q * q))%P = k -> (k = S n) -> (p * p - cubic * (q * q))%P <> 0%P).
  { intros k n Hk -> E. rewrite E, <- constant_0, degree_constant in Hk. lia. }
  destruct (poly_zero_dec p) as [->|Hp].
  { assert (D : degree (0 * 0 - cubic * (q * q))%P = (3 + (degree q + degree q))%nat) by (rewrite <- Do; f_equal; ring).
    split; [by eapply Hne|]. right. split; [done|]. rewrite D. lia. }
  destruct (degree_mul Hp Hp) as [Hpp Dpp].
  assert (Hdiff : (p * p - cubic * (q * q) = p * p + - (cubic * (q * q)))%P) by ring.
  destruct (decide (degree p + degree p < 3 + (degree q + degree q))%nat) as [Hlt|Hge].
  - assert (D : degree (p * p - cubic * (q * q))%P = (3 + (degree q + degree q))%nat) by (rewrite Hdiff, degree_add; lia).
    split; [by eapply Hne|]. right. split; [done|]. rewrite D. lia.
  - assert (D : degree (p * p - cubic * (q * q))%P = (degree p + degree p)%nat).
    { replace (p * p - cubic * (q * q))%P with (- (cubic * (q * q)) + p * p)%P by ring. rewrite degree_add; lia. }
    split; [apply (Hne _ (pred (degree p + degree p)) D); lia|]. right. split; [done|]. rewrite D. lia.
Qed.

Lemma zeros_not_one u : u <> fun0 -> zeros u <> 1%nat.
Proof. intros Hu. destruct (zeros_cases u Hu) as [_ [[_ H]|(_ & H & _)]]; lia. Qed.

Lemma norm_zero : norm fun0 = 0%P.
Proof. unfold norm, fun0; cbn [even_part odd_part]. ring. Qed.

Lemma zeros_mul u v : u <> fun0 -> v <> fun0 -> fmul u v <> fun0 /\ zeros (fmul u v) = (zeros u + zeros v)%nat.
Proof.
  intros Hu Hv. destruct (zeros_cases u Hu) as [Nu _]. destruct (zeros_cases v Hv) as [Nv _].
  destruct (degree_mul Nu Nv) as [N D]. unfold zeros. rewrite norm_mul. split; [|done]. intros E. apply N. by rewrite <- norm_mul, E, norm_zero.
Qed.

(** A function without zeros is a constant, and has an inverse. *)
Lemma zeros_none u : u <> fun0 -> zeros u = 0%nat -> exists v, fmul u v = fun1.
Proof.
  intros Hu Hz. destruct (zeros_cases u Hu) as [_ [[Ho H]|(_ & H & _)]]; [|lia].
  destruct (degree_zero (p := even_part u)) as [c Ec]; [lia|]. destruct u as [p q]. cbn [even_part odd_part] in *. subst p q.
  assert (Hc : c <> 0) by (intros ->; apply Hu; unfold fun0; f_equal; apply constant_0).
  exists (fconst (Zmod.inv c)). change (fmul (fconst c) (fconst (Zmod.inv c)) = fun1). rewrite <- fconst_mul, <- fconst_1. f_equal. field. exact Hc.
Qed.

Lemma zeros_X x : fsub fX (fconst x) <> fun0 /\ zeros (fsub fX (fconst x)) = 2%nat.
Proof.
  assert (D : degree (- cst x + X)%P = 1%nat) by (rewrite degree_add; rewrite ?degree_opp, ?degree_constant, ?degree_indeterminate; lia).
  assert (E : even_part (fsub fX (fconst x)) = (- cst x + X)%P) by (cbn; ring).
  assert (O : odd_part (fsub fX (fconst x)) = 0%P) by (cbn; ring).
  assert (Hne : fsub fX (fconst x) <> fun0).
  { intros Z. rewrite Z in E. cbn in E. rewrite <- E, <- constant_0, degree_constant in D. lia. }
  split; [done|]. destruct (zeros_cases _ Hne) as [_ [[_ H]|[H _]]]; [|done]. rewrite H, E, D. lia.
Qed.

Lemma one_poly_ne : p1 P <> p0 P.
Proof. rewrite <- constant_1. apply constant_ne, one_ne, m_large. Qed.

Lemma line_ne c d : fsub fY (fadd (fmul (fconst c) fX) (fconst d)) <> fun0.
Proof.
  intros E. apply one_poly_ne. apply (f_equal odd_part) in E. cbn in E. rewrite <- E. ring.
Qed.

Lemma zeros_Y y : fsub fY (fconst y) <> fun0 /\ zeros (fsub fY (fconst y)) = 3%nat.
Proof.
  pose proof one_poly_ne as H1. assert (O : odd_part (fsub fY (fconst y)) = 1%P) by (cbn; ring).
  assert (E : even_part (fsub fY (fconst y)) = cst (- y)) by (cbn; rewrite constant_opp; ring).
  assert (Hne : fsub fY (fconst y) <> fun0) by (intros Z; rewrite Z in O; cbn in O; congruence).
  split; [done|]. destruct (zeros_cases _ Hne) as [_ [[H _]|(_ & Hz & H)]]; [congruence|].
  rewrite O, E, degree_constant, <- constant_1, degree_constant in H. lia.
Qed.

Lemma function_dec (u : function) : {u = fun0} + {u <> fun0}.
Proof.
  destruct u as [p q]. destruct (poly_zero_dec p) as [->|Hp]; [|right; intros [= ? _]; congruence].
  destruct (poly_zero_dec q) as [->|Hq]; [by left|right; intros [= ?]; congruence].
Qed.

End coordinates.
