(* ===== verification/CurveGroup.v ===== *)
(** * The group of the curve

    The chord-and-tangent law of [Curve] is associative, and a multiple of a multiple is the multiple by
    the product, in either order: what the Diffie-Hellman exchange of [src/p256.rs] and [src/tls.rs]
    rests on. The proof is by classes of ideals in the ring of [Coordinates]: the points act on ideals,
    three points of one line act as the multiplication by the line, and no point but the identity acts
    as a multiplication, since no function has a single zero. *)
From Stdlib Require Import ZArith Lia Zdivisibility Zmod Field Morphisms.
From stdpp Require Import prelude.
From S2P Require Import Prelude Polynomials Primes Curve Coordinates.
Set Warnings "-clear-no-such-hyp".

Section group.
Variable m : Z.
Hypothesis m_prime : Z.prime m.
Hypothesis m_large : (3 < m)%Z.
Variable b : Zmod m.
Variable P : @polynomials (Zmod m) Zmod.zero Zmod.one Zmod.add Zmod.mul.

Local Open Scope Zmod_scope.
Add Field K_field : (F_field m m_prime).
#[local] Existing Instance F_eq_dec.

Notation function := (function m P).
Notation point := (point m).
Notation add := (add_points m).
Notation on_curve := (on_curve m b).
Notation two := (two m).
Notation three := (three m).

Declare Scope function_scope.
Delimit Scope function_scope with F.
Bind Scope function_scope with Coordinates.function.
Notation "0" := (fun0 m P) : function_scope.
Notation "1" := (fun1 m P) : function_scope.
Notation "u + v" := (fadd m P u%F v%F) : function_scope.
Notation "u * v" := (fmul m b P u%F v%F) : function_scope.
Notation "u - v" := (fsub m P u%F v%F) : function_scope.
Notation "- u" := (fopp m P u%F) : function_scope.
Notation cst := (fconst m P).
Notation X := (fX m P).
Notation Y := (fY m P).
Implicit Types (u v w : function) (S T : point) (x y c : Zmod m) (J K : function -> Prop).

Add Ring F_ring : (function_ring m b P).

(** ** Ideals *)
Record ideal J : Prop := {
  ideal_0 : J 0%F;
  ideal_add : forall u v, J u -> J v -> J (u + v)%F;
  ideal_mul : forall u v, J v -> J (u * v)%F
}.

Definition all_functions : function -> Prop := fun _ => True.

Lemma all_ideal : ideal all_functions.
Proof. done. Qed.

(** Ideals are compared by their members. *)
Definition same J K : Prop := forall u, J u <-> K u.

#[local] Instance same_equivalence : Equivalence same.
Proof.
  split; [intros J u; reflexivity|intros J K H u; symmetry; apply H|intros J K L H1 H2 u; rewrite (H1 u); apply H2].
Qed.

(** [pair_of p q J] is [pJ + qJ]; [scaled u J] is [uJ]. *)
Definition pair_of (p q : function) J : function -> Prop := fun u => exists v w, J v /\ J w /\ u = (p * v + q * w)%F.

Definition scaled (u : function) J : function -> Prop := fun t => exists v, J v /\ t = (u * v)%F.

#[local] Instance pair_of_same p q : Proper (same ==> same) (pair_of p q).
Proof. intros J K H u. split; intros (v & w & Hv & Hw & ->); exists v, w; split_and!; try done; by apply H. Qed.

#[local] Instance scaled_same u : Proper (same ==> same) (scaled u).
Proof. intros J K H t. split; intros (v & Hv & ->); exists v; split; try done; by apply H. Qed.

Lemma pair_of_ideal p q J : ideal J -> ideal (pair_of p q J).
Proof.
  intros [J0 Ja Jm]. split.
  - exists 0%F, 0%F. split_and!; [done..|ring].
  - intros ? ? (v & w & Hv & Hw & ->) (v' & w' & Hv' & Hw' & ->). exists (v + v')%F, (w + w')%F. split_and!; [auto..|ring].
  - intros k ? (v & w & Hv & Hw & ->). exists (k * v)%F, (k * w)%F. split_and!; [auto..|ring].
Qed.

Lemma scaled_ideal u J : ideal J -> ideal (scaled u J).
Proof.
  intros [J0 Ja Jm]. split.
  - exists 0%F. split; [done|ring].
  - intros ? ? (v & Hv & ->) (w & Hw & ->). exists (v + w)%F. split; [auto|ring].
  - intros k ? (v & Hv & ->). exists (k * v)%F. split; [auto|ring].
Qed.

Lemma pair_of_comm p q r s J : same (pair_of p q (pair_of r s J)) (pair_of r s (pair_of p q J)).
Proof.
  assert (H : forall p q r s u, pair_of p q (pair_of r s J) u -> pair_of r s (pair_of p q J) u).
  { clear. intros p q r s u (? & ? & (a & c & Ha & Hc & ->) & (d & e & Hd & He & ->) & ->).
    exists (p * a + q * d)%F, (p * c + q * e)%F. split_and!; [by exists a, d|by exists c, e|ring]. }
  intros u. split; apply H.
Qed.

Lemma pair_of_scaled p q u J : same (pair_of p q (scaled u J)) (scaled u (pair_of p q J)).
Proof.
  intros t. split.
  - intros (? & ? & (v & Hv & ->) & (w & Hw & ->) & ->). exists (p * v + q * w)%F. split; [by exists v, w|ring].
  - intros (? & (v & w & Hv & Hw & ->) & ->). exists (u * v)%F, (u * w)%F. split_and!; [by exists v|by exists w|ring].
Qed.

(** ** Classes *)
Definition alike J K : Prop := exists u v, u <> 0%F /\ v <> 0%F /\ same (scaled u J) (scaled v K).

Lemma mul_nonzero u v : u <> 0%F -> v <> 0%F -> (u * v)%F <> 0%F.
Proof. intros Hu Hv. by apply (zeros_mul m m_prime m_large b P). Qed.

Lemma cancel u v w : u <> 0%F -> (u * v)%F = (u * w)%F -> v = w.
Proof.
  intros Hu E. destruct (function_dec m P (v - w)%F) as [Z|Hne].
  - replace v with (v - w + w)%F by ring. rewrite Z. ring.
  - elim (mul_nonzero u (v - w)%F Hu Hne). replace (u * (v - w))%F with (u * v - u * w)%F by ring. rewrite E. ring.
Qed.

Lemma scaled_scaled u v J : same (scaled u (scaled v J)) (scaled (u * v)%F J).
Proof.
  intros t. split; [intros (? & (w & Hw & ->) & ->)|intros (w & Hw & ->)].
  - exists w. split; [done|ring].
  - exists (v * w)%F. split; [by exists w|ring].
Qed.

Lemma scaled_swap u v J : same (scaled u (scaled v J)) (scaled v (scaled u J)).
Proof. rewrite !scaled_scaled. replace (u * v)%F with (v * u)%F by ring. reflexivity. Qed.

Lemma function_one_ne : (1 : function)%F <> 0%F.
Proof. intros E. apply (one_poly_ne m m_large P). exact (f_equal (even_part m P) E). Qed.

Lemma alike_same J K : same J K -> alike J K.
Proof. intros H. exists 1%F, 1%F. split_and!; [exact function_one_ne..|]. by rewrite H. Qed.

#[local] Instance alike_equivalence : Equivalence alike.
Proof.
  split.
  - intros J. by apply alike_same.
  - intros J K (u & v & Hu & Hv & H). exists v, u. split_and!; [done..|]. by symmetry.
  - intros J K L (u & v & Hu & Hv & H1) (u' & v' & Hu' & Hv' & H2).
    exists (u' * u)%F, (v * v')%F. split_and!; [by apply mul_nonzero..|]. rewrite <- !scaled_scaled, H1, scaled_swap, H2. reflexivity.
Qed.

#[local] Instance alike_proper : Proper (same ==> same ==> iff) alike.
Proof.
  intros J J' HJ K K' HK. split; intros (u & v & Hu & Hv & H); exists u, v; (split_and!; [done..|]).
  - by rewrite <- HJ, <- HK.
  - by rewrite HJ, HK.
Qed.

Lemma scaled_alike u J : u <> 0%F -> alike (scaled u J) J.
Proof.
  intros Hu. exists 1%F, u. split_and!; [exact function_one_ne|done|]. rewrite scaled_scaled. by replace (1 * u)%F with u by ring.
Qed.

#[local] Instance pair_of_alike p q : Proper (alike ==> alike) (pair_of p q).
Proof.
  intros J K (u & v & Hu & Hv & H). exists u, v. split_and!; [done..|]. by rewrite <- !pair_of_scaled, H.
Qed.

(** ** Points *)
Definition at_x x : function := (X - cst x)%F.
Definition at_y y : function := (Y - cst y)%F.

(** The action of a point: the product with the ideal of the functions that vanish there. *)
Definition act S J : function -> Prop :=
  match S with
  | None => J
  | Some (x, y) => pair_of (at_x x) (at_y y) J
  end.

#[local] Instance act_same S : Proper (same ==> same) (act S).
Proof. destruct S as [[x y]|]; [apply pair_of_same|by intros J K]. Qed.

#[local] Instance act_alike S : Proper (alike ==> alike) (act S).
Proof. destruct S as [[x y]|]; [apply pair_of_alike|by intros J K]. Qed.

Lemma act_ideal S J : ideal J -> ideal (act S J).
Proof. destruct S as [[x y]|]; [apply pair_of_ideal|done]. Qed.

Lemma act_comm S T J : same (act S (act T J)) (act T (act S J)).
Proof. destruct S as [[x y]|], T as [[x' y']|]; [apply pair_of_comm|done..]. Qed.

Lemma act_scaled S u J : same (act S (scaled u J)) (scaled u (act S J)).
Proof. destruct S as [[x y]|]; [apply pair_of_scaled|done]. Qed.

Lemma value_sub_const x y u c : value_at m P x y (u - cst c)%F = value_at m P x y u - c.
Proof.
  replace (u - cst c)%F with (u + cst (0 - c))%F by (rewrite (fconst_sub m m_prime), fconst_0; ring).
  rewrite (value_add m m_prime), (value_const m m_prime). ring.
Qed.

Lemma value_at_x x y : value_at m P x y (at_x x) = 0.
Proof. unfold at_x. rewrite value_sub_const, (value_X m m_prime). ring. Qed.

Lemma value_at_y x y : value_at m P x y (at_y y) = 0.
Proof. unfold at_y. rewrite value_sub_const, (value_Y m m_prime). ring. Qed.

(** No point acts as a multiplication: its ideal would have a generator with a single zero. *)
Lemma act_principal S : on_curve S -> alike (act S all_functions) all_functions -> S = None.
Proof.
  destruct S as [[x y]|]; [|done]. intros Hc (u & v & Hu & Hv & H). exfalso. cbn [act] in H.
  assert (Hin : forall t, pair_of (at_x x) (at_y y) all_functions t -> exists k, (u * t)%F = (v * k)%F).
  { intros t Ht. destruct (proj1 (H (u * t)%F) (ex_intro _ t (conj Ht eq_refl))) as (k & _ & E). by exists k. }
  destruct (proj2 (H v)) as (s & Hs & Es); [exists 1%F; split; [done|ring]|].
  assert (Hs0 : s <> 0%F) by (intros ->; apply Hv; rewrite Es; ring).
  assert (Hdiv : forall t, pair_of (at_x x) (at_y y) all_functions t -> exists k, t = (s * k)%F).
  { intros t Ht. destruct (Hin t Ht) as [k E]. exists k. apply (cancel u); [done|]. rewrite E, Es. ring. }
  destruct (Hdiv (at_x x)) as [k1 E1]; [exists 1%F, 0%F; split_and!; [done..|ring]|].
  destruct (Hdiv (at_y y)) as [k2 E2]; [exists 0%F, 1%F; split_and!; [done..|ring]|].
  destruct (zeros_X m m_prime m_large b P x) as [NX ZX]. destruct (zeros_Y m m_prime m_large b P y) as [NY ZY].
  fold (at_x x) in NX, ZX. fold (at_y y) in NY, ZY.
  assert (K1 : k1 <> 0%F) by (intros ->; apply NX; rewrite E1; ring). assert (K2 : k2 <> 0%F) by (intros ->; apply NY; rewrite E2; ring).
  destruct (zeros_mul m m_prime m_large b P s k1 Hs0 K1) as [_ M1]. destruct (zeros_mul m m_prime m_large b P s k2 Hs0 K2) as [_ M2].
  rewrite <- E1, ZX in M1. rewrite <- E2, ZY in M2.
  pose proof (zeros_not_one m m_prime m_large b P s Hs0). pose proof (zeros_not_one m m_prime m_large b P k2 K2).
  destruct (zeros_none m m_prime m_large b P s Hs0) as [i Hi]; [lia|]. destruct Hs as (p & q & _ & _ & ->).
  pose proof (f_equal (value_at m P x y) Hi) as V. rewrite (value_mul m m_prime b P), (value_add m m_prime P) in V by exact Hc.
  rewrite !(value_mul m m_prime b P), value_at_x, value_at_y, <- fconst_1, (value_const m m_prime P) in V by exact Hc.
  apply (one_ne m m_large). rewrite <- V. ring.
Qed.

(** ** Lines *)
(** Three ideals whose product is that of a line: [p q r = l l'], where the ideal of [l'], the products of
    two and the square of [l] is everything. *)
Lemma three_pairs p q r l l' J (c1 c2 c3 : function) : ideal J -> (p * q * r = l * l')%F ->
  (c1 * l' + c2 * (p * q + p * r + q * r) + c3 * (l * l) = 1)%F ->
  same (pair_of p l (pair_of q l (pair_of r l J))) (scaled l J).
Proof.
  intros [J0 Ja Jm] E H1 u. split.
  - intros (? & ? & (? & ? & (t1 & t2 & ? & ? & ->) & (t3 & t4 & ? & ? & ->) & ->) &
              (? & ? & (t5 & t6 & ? & ? & ->) & (t7 & t8 & ? & ? & ->) & ->) & ->).
    exists (l' * t1 + (p * q * t2 + (p * r * t3 + (p * l * t4 + (q * r * t5 + (q * l * t6 + (l * r * t7 + l * l * t8)))))))%F.
    split; [repeat (apply Ja; [by apply Jm|]); by apply Jm|].
    transitivity (p * q * r * t1 + l * (p * q * t2 + (p * r * t3 + (p * l * t4 + (q * r * t5 + (q * l * t6 + (l * r * t7 + l * l * t8)))))))%F;
      [ring|rewrite E; ring].
  - intros (j & Hj & ->).
    exists (q * (r * (c1 * j) + l * (c2 * j)) + l * (r * (c2 * j) + l * 0))%F, (q * (r * (c2 * j) + l * 0) + l * (r * 0 + l * (c3 * j)))%F.
    split_and!.
    + exists (r * (c1 * j) + l * (c2 * j))%F, (r * (c2 * j) + l * 0)%F. split_and!; [exists (c1 * j)%F, (c2 * j)%F|exists (c2 * j)%F, 0%F|done]; auto.
    + exists (r * (c2 * j) + l * 0)%F, (r * 0 + l * (c3 * j))%F. split_and!; [exists (c2 * j)%F, 0%F|exists 0%F, (c3 * j)%F|done]; auto.
    + transitivity (l * ((c1 * l' + c2 * (p * q + p * r + q * r) + c3 * (l * l)) * j))%F; [rewrite H1; ring|].
      transitivity (c1 * j * (l * l') + l * (c2 * (p * q + p * r + q * r) + c3 * (l * l)) * j)%F; [ring|]. rewrite <- E. ring.
Qed.

(** Two ideals whose product is that of a vertical line: [s t = p h]. *)
Lemma two_pairs p s t h J (c1 c2 c3 : function) : ideal J -> (s * t = p * h)%F -> (c1 * h + c2 * (t - s) + c3 * p = 1)%F ->
  same (pair_of p s (pair_of p t J)) (scaled p J).
Proof.
  intros [J0 Ja Jm] E H1 u. split.
  - intros (? & ? & (t1 & t2 & ? & ? & ->) & (t3 & t4 & ? & ? & ->) & ->).
    exists (p * t1 + (t * t2 + (s * t3 + h * t4)))%F. split; [repeat (apply Ja; [by apply Jm|]); by apply Jm|].
    transitivity (p * (p * t1 + (t * t2 + s * t3)) + s * t * t4)%F; [ring|rewrite E; ring].
  - intros (j & Hj & ->). exists (p * (c3 * j) + t * (c2 * j))%F, (p * (- c2 * j) + t * (c1 * j))%F. split_and!.
    + exists (c3 * j)%F, (c2 * j)%F. auto.
    + exists (- c2 * j)%F, (c1 * j)%F. auto.
    + transitivity (p * ((c1 * h + c2 * (t - s) + c3 * p) * j))%F; [rewrite H1; ring|].
      transitivity (p * h * (c1 * j) + p * (c2 * (t - s) + c3 * p) * j)%F; [ring|]. rewrite <- E. ring.
Qed.

(** The functions that vanish at a point of the line [l = y - k] are [(x - x0, l)]. *)
Lemma act_on_line x y c l J : ideal J -> at_y y = (l + cst c * at_x x)%F -> same (act (Some (x, y)) J) (pair_of (at_x x) l J).
Proof.
  intros [J0 Ja Jm] E u. cbn [act]. rewrite E. split; intros (v & w & Hv & Hw & ->).
  - exists (v + cst c * w)%F, w. split_and!; [auto..|ring].
  - exists (v + - cst c * w)%F, w. split_and!; [auto..|ring].
Qed.

(** The curve has no singular point: its cubic and the derivative of it have no common factor. *)
Definition discriminant : Zmod m := three * three * three * (b * b - two * two).
Hypothesis nonsingular : discriminant <> 0.

Definition cst3 : function := (1 + 1 + 1)%F.

Lemma fconst_three : cst three = cst3.
Proof. unfold Curve.three, cst3. by rewrite !fconst_add, fconst_1. Qed.

(** The derivative of the cubic at [u], and the coefficients of the combination of the two. *)
Definition slope_at u : function := (cst3 * (u * u) - cst3)%F.
Definition bezout_w u : function := (cst3 * (cst b - (u + u)))%F.
Definition bezout_V u : function := (cst3 * (cst3 * bezout_w u - cst3 * (cst3 * ((cst b + cst b)))))%F.
Definition bezout_U u : function := (cst3 * cst3 * (1 + 1 + (1 + 1)) + (cst3 * bezout_w u - cst3 * (cst3 * ((cst b + cst b)))) * u)%F.

Lemma bezout u : (cst discriminant = slope_at u * bezout_U u - bezout_V u * (u * u * u - cst3 * u + cst b))%F.
Proof.
  unfold discriminant. rewrite !(fconst_mul m b P), (fconst_sub m m_prime), !(fconst_mul m b P). unfold Curve.two. rewrite fconst_three, fconst_add, fconst_1.
  unfold bezout_U, bezout_V, bezout_w, slope_at, cst3. ring.
Qed.

Lemma discriminant_inverse : (cst (Zmod.inv discriminant) * cst discriminant = 1)%F.
Proof. rewrite <- (fconst_mul m b P), <- fconst_1. f_equal. field. exact nonsingular. Qed.

Lemma half : (cst (Zmod.inv two) * (1 + 1) = 1)%F.
Proof.
  rewrite <- !fconst_1, <- fconst_add, <- (fconst_mul m b P). f_equal. change (1 + 1) with two. field. exact (two_ne m m_large).
Qed.

Lemma fconst_opp c : cst (- c) = (- cst c)%F.
Proof. replace (- c) with (0 - c) by ring. rewrite (fconst_sub m m_prime), fconst_0. ring. Qed.

Definition opposite S : point :=
  match S with
  | None => None
  | Some (x, y) => Some (x, - y)
  end.

Lemma opposite_on_curve S : on_curve S -> on_curve (opposite S).
Proof. destruct S as [[x y]|]; [|done]. cbn. intros <-. ring. Qed.

(** The equation of a point, between functions. *)
Lemma point_equation x y : on_curve (Some (x, y)) -> (cst y * cst y = cst x * cst x * cst x - cst3 * cst x + cst b)%F.
Proof.
  cbn [Curve.on_curve]. intros Hc. rewrite <- (fconst_mul m b P), Hc, fconst_add, (fconst_sub m m_prime), !(fconst_mul m b P), fconst_three. done.
Qed.

(** A point and its opposite act as a multiplication. *)
Lemma act_opposite x y J : ideal J -> on_curve (Some (x, y)) ->
  same (act (Some (x, y)) (act (opposite (Some (x, y))) J)) (scaled (at_x x) J).
Proof.
  intros HJ Hc. pose proof (point_equation x y Hc) as Hy. pose proof (bezout (cst x)) as HD. rewrite <- Hy in HD. cbn [act opposite].
  set (i := cst (Zmod.inv discriminant)). set (h := cst (Zmod.inv two)). set (U := bezout_U (cst x)) in *. set (V := bezout_V (cst x)) in *.
  apply (two_pairs _ _ _ (X * X + cst x * X + cst x * cst x - cst3)%F J (i * U)%F (- (i * V * h * cst y))%F
    (- (i * U * (X + cst x + cst x)))%F); [done| |].
  - unfold at_y, at_x. rewrite fconst_opp. transitivity (Y * Y - cst y * cst y)%F; [ring|]. rewrite function_equation, fconst_three, Hy. ring.
  - unfold at_y, at_x. rewrite fconst_opp.
    transitivity (i * (slope_at (cst x) * U) - i * (V * (cst y * cst y)) * (h * (1 + 1)))%F; [unfold slope_at, cst3; ring|].
    unfold h. rewrite half. transitivity (i * (slope_at (cst x) * U - V * (cst y * cst y)))%F; [ring|].
    rewrite <- HD. exact discriminant_inverse.
Qed.

(** Three points of the line [y = c x + d]. *)
Definition line_at c d x : point := Some (x, c * x + d).

Record on_one_line (x1 x2 x3 c d : Zmod m) : Prop := {
  roots_sum : x1 + x2 + x3 = c * c;
  roots_pairs : x1 * x2 + x1 * x3 + x2 * x3 = - three - (c * d + c * d);
  roots_product : x1 * x2 * x3 = d * d - b
}.

Lemma act_line (x1 x2 x3 c d : Zmod m) J : ideal J -> on_one_line x1 x2 x3 c d ->
  same (act (line_at c d x1) (act (line_at c d x2) (act (line_at c d x3) J))) (scaled (Y - (cst c * X + cst d))%F J).
Proof.
  intros HJ [S1 S2 S3]. set (k := (cst c * X + cst d)%F).
  assert (Hl : forall x, at_y (c * x + d) = (Y - k + cst c * at_x x)%F).
  { intros x. unfold at_y, at_x, k. rewrite fconst_add, (fconst_mul m b P). ring. }
  unfold line_at. rewrite (act_on_line x3 _ c (Y - k)%F J HJ (Hl x3)).
  rewrite (act_on_line x2 _ c (Y - k)%F _ (pair_of_ideal _ _ _ HJ) (Hl x2)).
  rewrite (act_on_line x1 _ c (Y - k)%F _ (pair_of_ideal _ _ _ (pair_of_ideal _ _ _ HJ)) (Hl x1)).
  apply (f_equal cst) in S1, S2, S3. rewrite !fconst_add, !(fconst_mul m b P) in S1.
  rewrite !fconst_add, (fconst_sub m m_prime), fconst_opp, fconst_add, !(fconst_mul m b P), fconst_three in S2.
  rewrite (fconst_sub m m_prime), !(fconst_mul m b P) in S3.
  set (a1 := cst x1) in *. set (a2 := cst x2) in *. set (a3 := cst x3) in *.
  set (i := cst (Zmod.inv discriminant)). set (h := cst (Zmod.inv two)).
  pose proof (bezout X) as HD. set (U := bezout_U X) in *. set (V := bezout_V X) in *.
  assert (Hf : (X * X * X - cst3 * X + cst b = Y * Y)%F) by (rewrite function_equation, fconst_three; ring). rewrite Hf in HD.
  assert (He : (at_x x1 * at_x x2 + at_x x1 * at_x x3 + at_x x2 * at_x x3 = slope_at X - (cst c * k + cst c * k))%F).
  { unfold at_x. fold a1 a2 a3. transitivity (cst3 * (X * X) - (X + X) * (a1 + a2 + a3) + (a1 * a2 + a1 * a3 + a2 * a3))%F; [unfold cst3; ring|].
    rewrite S1, S2. unfold slope_at, k. ring. }
  set (G := (V * V * (Y * Y) - (1 + 1) * (U * V * slope_at X))%F). set (W := ((1 + 1) * (1 + 1) * (cst c * cst c * (U * U)))%F).
  set (s := (i * i * (h * h))%F).
  eapply (three_pairs _ _ _ _ (Y + k)%F J (s * (W * (Y + k - (1 + 1) * (Y - k)) + G * ((1 + 1) * (Y - k) + (Y + k))))%F
    (s * ((1 + 1) * (1 + 1) * (U * U) * (slope_at X - (cst c * k + cst c * k) + (1 + 1) * (1 + 1) * (cst c * k))))%F (s * (W + G))%F); [done| |].
  - unfold at_x. fold a1 a2 a3.
    transitivity (X * X * X - (a1 + a2 + a3) * (X * X) + (a1 * a2 + a1 * a3 + a2 * a3) * X - a1 * a2 * a3)%F; [ring|].
    rewrite S1, S2, S3. transitivity (Y * Y - k * k)%F; [rewrite <- Hf; unfold k; ring|ring].
  - rewrite He. transitivity ((i * (slope_at X * U - V * (Y * Y))) * (i * (slope_at X * U - V * (Y * Y))) * ((h * (1 + 1)) * (h * (1 + 1))))%F.
    + unfold s, W, G. ring.
    + rewrite <- HD. unfold i, h. rewrite discriminant_inverse, half. ring.
Qed.

(** ** The sum of two points acts as the two do *)
Lemma third_on_line (x1 x2 c d : Zmod m) : on_curve (line_at c d x1) ->
  x1 * x2 + x1 * (c * c - x1 - x2) + x2 * (c * c - x1 - x2) = - three - (c * d + c * d) -> on_one_line x1 x2 (c * c - x1 - x2) c d.
Proof.
  cbn. intros Hc S2. split; [ring|exact S2|].
  transitivity ((x1 * x2 + x1 * (c * c - x1 - x2) + x2 * (c * c - x1 - x2)) * x1 - x1 * x1 * (c * c) + x1 * x1 * x1); [ring|].
  rewrite S2. transitivity ((x1 * x1 * x1 - three * x1 + b) - (c * x1 + d) * (c * x1 + d) + d * d - b); [ring|]. rewrite <- Hc. ring.
Qed.

Lemma act_third (x1 x2 c d : Zmod m) J : ideal J -> on_one_line x1 x2 (c * c - x1 - x2) c d ->
  on_curve (chord m x1 (c * x1 + d) x2 c) ->
  alike (act (line_at c d x1) (act (line_at c d x2) J)) (act (chord m x1 (c * x1 + d) x2 c) J).
Proof.
  intros HJ Hline. set (x3 := c * c - x1 - x2) in *.
  assert (E : chord m x1 (c * x1 + d) x2 c = Some (x3, - (c * x3 + d))) by (unfold chord; fold x3; do 2 f_equal; ring).
  rewrite E. intros Hc. assert (Eo : opposite (Some (x3, - (c * x3 + d))) = line_at c d x3) by (unfold line_at, opposite; do 2 f_equal; ring).
  destruct (zeros_X m m_prime m_large b P x3) as [Hx _]. fold (at_x x3) in Hx.
  rewrite <- (scaled_alike (at_x x3) (act (line_at c d x1) _) Hx).
  rewrite <- (act_opposite _ _ _ (act_ideal _ _ (act_ideal _ _ HJ)) Hc), Eo.
  rewrite (act_comm (line_at c d x3)), (act_comm (line_at c d x3) (line_at c d x2)), (act_line x1 x2 x3 c d J HJ Hline), act_scaled.
  apply scaled_alike, (line_ne m m_large).
Qed.

Lemma act_add S T J : ideal J -> on_curve S -> on_curve T -> alike (act S (act T J)) (act (add S T) J).
Proof.
  intros HJ HS HT. pose proof (add_on_curve m m_prime m_large b S T HS HT) as HA.
  destruct S as [[x1 y1]|], T as [[x2 y2]|]; [|done..]. cbn [add_points] in *.
  assert (Hopp : x1 = x2 -> y2 = - y1 -> alike (act (Some (x1, y1)) (act (Some (x2, y2)) J)) J).
  { intros <- ->. rewrite (act_opposite x1 y1 J HJ HS). apply scaled_alike. apply (zeros_X m m_prime m_large b P). }
  destruct (decide (x1 = x2)) as [Ex|Ex].
  - destruct (decide (y1 = y2)) as [Ey|Ey].
    + subst x2 y2. cbn [double_point] in *. destruct (decide (y1 = 0)) as [Hy|Hy]; [apply Hopp; [done|rewrite Hy; ring]|].
      set (l := Zmod.mdiv (three * (x1 * x1) - three) (two * y1)) in *.
      assert (Hl : l * (two * y1) = three * (x1 * x1) - three).
      { unfold l. apply (div_mul m m_prime). apply (mul_ne m m_prime); [exact (two_ne m m_large)|exact Hy]. }
      clearbody l. set (d := y1 - l * x1). assert (E1 : y1 = l * x1 + d) by (unfold d; ring). clearbody d. subst y1.
      apply act_third; [done| |done]. apply third_on_line; [done|].
      assert (E : l * (two * (l * x1 + d)) - (three * (x1 * x1) - three) = 0) by (rewrite Hl; ring).
      transitivity (- three - (l * d + l * d) + (l * (two * (l * x1 + d)) - (three * (x1 * x1) - three))); [unfold Curve.two, Curve.three; ring|].
      rewrite E. ring.
    + apply Hopp; [done|]. subst x2. cbn [Curve.on_curve] in HS, HT.
      assert (E : (y1 - y2) * (y1 + y2) = 0).
      { transitivity (y1 * y1 - y2 * y2); [ring|]. rewrite HS, HT. ring. }
      apply (mul_zero m m_prime) in E as [E|E].
      * elim Ey. replace y1 with (y1 - y2 + y2) by ring. rewrite E. ring.
      * replace y2 with (y1 + y2 - y1) by ring. rewrite E. ring.
  - set (l := Zmod.mdiv (y2 - y1) (x2 - x1)) in *.
    assert (Hd : x2 - x1 <> 0) by (apply sub_ne; congruence).
    assert (Hl : l * (x2 - x1) = y2 - y1) by (apply (div_mul m m_prime); exact Hd).
    clearbody l. set (d := y1 - l * x1). assert (E1 : y1 = l * x1 + d) by (unfold d; ring).
    assert (E2 : y2 = l * x2 + d) by (transitivity (y2 - y1 + y1); [ring|]; rewrite <- Hl, E1; ring). clearbody d. subst y1 y2.
    apply act_third; [done| |done]. apply third_on_line; [done|]. cbn [Curve.on_curve] in HS, HT.
    assert (E : (x2 - x1) * (x1 * x2 + x1 * (l * l - x1 - x2) + x2 * (l * l - x1 - x2) + three + (l * d + l * d)) = 0).
    { transitivity ((x1 * x1 * x1 - three * x1 + b) - (l * x1 + d) * (l * x1 + d) - ((x2 * x2 * x2 - three * x2 + b) - (l * x2 + d) * (l * x2 + d))); [ring|].
      rewrite <- HS, <- HT. ring. }
    apply (mul_zero m m_prime) in E as [E|E]; [done|].
    transitivity (x1 * x2 + x1 * (l * l - x1 - x2) + x2 * (l * l - x1 - x2) + three + (l * d + l * d) - three - (l * d + l * d)); [ring|].
    rewrite E. ring.
Qed.

(** ** The group law *)
Definition class S : function -> Prop := act S all_functions.

Lemma class_add S T : on_curve S -> on_curve T -> alike (act S (class T)) (class (add S T)).
Proof. apply act_add, all_ideal. Qed.

Lemma opposite_sum S : on_curve S -> alike (act (opposite S) (class S)) all_functions.
Proof.
  destruct S as [[x y]|]; [|reflexivity]. intros Hc. unfold class. rewrite act_comm, (act_opposite x y _ all_ideal Hc).
  apply scaled_alike, (zeros_X m m_prime m_large b P).
Qed.

Lemma opposite_add S T : on_curve S -> on_curve T -> add (opposite S) T = None -> S = T.
Proof.
  destruct S as [[x y]|], T as [[x' y']|]; [|done..]. cbn [opposite add_points Curve.on_curve]. intros HS HT.
  destruct (decide (x = x')) as [->|]; [|done]. destruct (decide (- y = y')) as [E|E].
  - cbn [double_point]. destruct (decide (- y = 0)) as [Z|]; [|done]. intros _. rewrite Z in E. do 2 f_equal.
    transitivity (- - y); [ring|]. rewrite Z, <- E. ring.
  - intros _. do 2 f_equal. assert (E' : (y - y') * (y + y') = 0).
    { transitivity (y * y - y' * y'); [ring|]. rewrite HS, HT. ring. }
    apply (mul_zero m m_prime) in E' as [E'|E'].
    + replace y with (y - y' + y') by ring. rewrite E'. ring.
    + elim E. replace y' with (y + y' - y) by ring. rewrite E'. ring.
Qed.

(** A point is determined by its class. *)
Lemma class_injective S T : on_curve S -> on_curve T -> alike (class S) (class T) -> S = T.
Proof.
  intros HS HT H. pose proof (opposite_on_curve S HS) as HO. apply opposite_add; [done..|].
  apply act_principal; [by apply (add_on_curve m m_prime m_large b)|]. fold (class (add (opposite S) T)).
  rewrite <- (class_add _ _ HO HT), <- H. by apply opposite_sum.
Qed.

Lemma add_comm S T : on_curve S -> on_curve T -> add S T = add T S.
Proof.
  intros HS HT. apply class_injective; [by apply (add_on_curve m m_prime m_large b)..|].
  rewrite <- !class_add by done. unfold class. by rewrite act_comm.
Qed.

Lemma add_assoc S T U : on_curve S -> on_curve T -> on_curve U -> add S (add T U) = add (add S T) U.
Proof.
  intros HS HT HU. pose proof (add_on_curve m m_prime m_large b) as Hadd.
  apply class_injective; [auto..|]. rewrite <- !class_add by auto. unfold class.
  rewrite <- (act_add S T) by (done || apply act_ideal, all_ideal). reflexivity.
Qed.

Lemma double_add S : double_point m S = add S S.
Proof. destruct S as [[x y]|]; [|done]. cbn [add_points]. by rewrite !decide_True. Qed.

(** ** Multiples *)
Lemma on_curve_multiple_pos (n : positive) S : on_curve S -> on_curve (multiple_pos m n S).
Proof. exact (multiple_on_curve m m_prime m_large b (Z.pos n) S). Qed.

#[local] Hint Resolve on_curve_multiple_pos : core.

Lemma multiple_succ (n : positive) S : on_curve S -> multiple_pos m (Pos.succ n) S = add S (multiple_pos m n S).
Proof.
  intros HS. pose proof (add_on_curve m m_prime m_large b) as Hadd. induction n as [n IH|n IH|].
  - change (Pos.succ n~1) with ((Pos.succ n)~0)%positive. cbn [multiple_pos]. rewrite IH, !double_add.
    set (M := multiple_pos m n S). assert (HM : on_curve M) by by apply on_curve_multiple_pos.
    rewrite <- (add_assoc S M (add S M)), <- (add_assoc M M S), (add_comm M S) by auto. done.
  - change (Pos.succ n~0) with (n~1)%positive. cbn [multiple_pos]. rewrite double_add. apply add_comm; auto.
  - change (Pos.succ 1) with 2%positive. cbn [multiple_pos]. apply double_add.
Qed.

Lemma multiple_add (n k : positive) S : on_curve S -> multiple_pos m (n + k) S = add (multiple_pos m n S) (multiple_pos m k S).
Proof.
  intros HS. pose proof (add_on_curve m m_prime m_large b) as Hadd. induction n as [|n IH] using Pos.peano_ind.
  - rewrite Pos.add_1_l. by apply multiple_succ.
  - rewrite Pos.add_succ_l, !multiple_succ, IH by done. apply add_assoc; auto.
Qed.

Lemma multiple_mul (n k : positive) S : on_curve S -> multiple_pos m n (multiple_pos m k S) = multiple_pos m (n * k) S.
Proof.
  intros HS. induction n as [|n IH] using Pos.peano_ind; [done|].
  rewrite Pos.mul_succ_l, multiple_succ, IH, multiple_add by auto. done.
Qed.

Lemma multiple_identity (n : Z) : multiple m n None = None.
Proof. destruct n as [|n|n]; [done| |done]. cbn [multiple]. by induction n as [n IH|n IH|]; cbn [multiple_pos]; rewrite ?IH. Qed.

Lemma multiple_multiple (n k : Z) S : on_curve S -> (0 <= n)%Z -> (0 <= k)%Z -> multiple m n (multiple m k S) = multiple m (n * k) S.
Proof.
  intros HS Hn Hk. destruct n as [|n|n], k as [|k|k]; try lia; try done.
  - exact (multiple_identity (Z.pos n)).
  - exact (multiple_mul n k S HS).
Qed.

Lemma multiple_commutes (n k : Z) S : on_curve S -> (0 <= n)%Z -> (0 <= k)%Z ->
  multiple m n (multiple m k S) = multiple m k (multiple m n S).
Proof. intros HS Hn Hk. by rewrite !multiple_multiple, Z.mul_comm. Qed.

End group.

(** ** The polynomials over the integers modulo a prime *)
Section modular.
Variable m : Z.
Hypothesis m_prime : Z.prime m.
Hypothesis m_large : (3 < m)%Z.
Variable b : Zmod m.
Hypothesis nonsingular : discriminant m b <> Zmod.zero.

Definition residue_code (x : Zmod m) : nat := Z.to_nat (Zmod.to_Z x).
Definition residue_decode (n : nat) : option (Zmod m) := Some (Zmod.of_Z m (Z.of_nat n)).

Lemma residue_codeK x : residue_decode (residue_code x) = Some x.
Proof.
  unfold residue_decode, residue_code. f_equal. rewrite Z2Nat.id by (apply Zmod.unsigned_pos_bound; lia). apply Zmod.of_Z_to_Z.
Qed.

Definition residue_polynomials : polynomials Zmod.zero Zmod.one Zmod.add Zmod.mul :=
  field_polynomials (F_field m m_prime) residue_codeK.

(** The law of the curve is commutative and associative. *)
Theorem add_points_group (S T U : point m) : on_curve m b S -> on_curve m b T -> on_curve m b U ->
  add_points m S T = add_points m T S /\ add_points m S (add_points m T U) = add_points m (add_points m S T) U.
Proof.
  intros HS HT HU. split.
  - by apply (add_comm m m_prime m_large b residue_polynomials nonsingular).
  - by apply (add_assoc m m_prime m_large b residue_polynomials nonsingular).
Qed.

(** A multiple of a multiple is the multiple by the product, in either order. *)
Theorem multiples_commute (n k : Z) (S : point m) : on_curve m b S -> (0 <= n)%Z -> (0 <= k)%Z ->
  multiple m n (multiple m k S) = multiple m (n * k) S /\ multiple m n (multiple m k S) = multiple m k (multiple m n S).
Proof.
  intros HS Hn Hk. split.
  - by apply (multiple_multiple m m_prime m_large b residue_polynomials nonsingular).
  - by apply (multiple_commutes m m_prime m_large b residue_polynomials nonsingular).
Qed.

End modular.
