(* ===== verification/P256.v ===== *)
(** * The curve P-256: [src/p256.rs]

    Field and scalar elements, points in affine and Jacobian coordinates, the multiplication
    ladder, SEC 1 encodings and ECDH, on the limbs of [Uint256]. An element of the prime field is
    encoded by its limbs ([enc]); through that encoding every operation of the code is the
    operation of the field, and the points are those of the curve of [Curve]. *)
From Stdlib Require Import ZArith Lia Zdivisibility Zmod.
From stdpp Require Import prelude.
From S2P Require Import Primes Curve CurveGroup Prelude Bytes Uint256 Encoding.
Local Open Scope Z_scope.
Set Warnings "-clear-no-such-hyp".

(** ** Constants *)
Definition P256_FIELD_MODULUS : Uint256 :=
  [0xffffffffffffffff; 0x00000000ffffffff; 0x0000000000000000; 0xffffffff00000001].
Definition P256_GROUP_ORDER : Uint256 :=
  [0xf3b9cac2fc632551; 0xbce6faada7179e84; 0xffffffffffffffff; 0xffffffff00000000].
Definition P256_CURVE_A : Uint256 :=
  [0xfffffffffffffffc; 0x00000000ffffffff; 0x0000000000000000; 0xffffffff00000001].
Definition P256_CURVE_B : Uint256 :=
  [0x3bce3c3e27d2604b; 0x651d06b0cc53b0f6; 0xb3ebbd55769886bc; 0x5ac635d8aa3a93e7].
Definition P256_GENERATOR_X : Uint256 :=
  [0xf4a13945d898c296; 0x77037d812deb33a0; 0xf8bce6e563a440f2; 0x6b17d1f2e12c4247].
Definition P256_GENERATOR_Y : Uint256 :=
  [0xcbb6406837bf51f5; 0x2bce33576b315ece; 0x8ee7eb4a7c0f9e16; 0x4fe342e2fe1a7f9b].

(** ** Errors of points *)
Inductive P256PointError : Type :=
| InvalidEncodingLength (length : Z)
| UnsupportedEncoding (prefix : byte)
| CoordinateOutOfRange
| PointNotOnCurve
| IdentityCannotBeEncoded.

Definition point_error_to_string (e : P256PointError) : bytes :=
  match e with
  | InvalidEncodingLength length => str "P-256 uncompressed point must contain 65 bytes, got " ++ to_dec length
  | UnsupportedEncoding prefix => str "unsupported P-256 point encoding prefix 0x" ++ hex_byte prefix
  | CoordinateOutOfRange => str "P-256 point coordinate is outside the field"
  | PointNotOnCurve => str "P-256 point is not on the curve"
  | IdentityCannotBeEncoded => str "P-256 identity point has no uncompressed public-key encoding"
  end.

(** [left >= right], by the order of [Uint256]. *)
Definition uint_ge (left right : Uint256) : bool :=
  match compare_limbs left right with
  | Lt => false
  | _ => true
  end.

(** ** Field elements and scalars *)
Definition FieldElement : Type := Uint256.

Definition field_new {E : Type} (v : Uint256) : res E FieldElement := reduce_uint v P256_FIELD_MODULUS.
Definition field_modular_add {E : Type} (x y : FieldElement) : res E FieldElement := add_mod x y P256_FIELD_MODULUS.
Definition field_modular_subtract {E : Type} (x y : FieldElement) : res E FieldElement := Ok (sub_mod x y P256_FIELD_MODULUS).
Definition field_modular_multiply {E : Type} (x y : FieldElement) : res E FieldElement := mul_mod x y P256_FIELD_MODULUS.
Definition field_square {E : Type} (x : FieldElement) : res E FieldElement := field_modular_multiply x x.
Definition field_invert {E : Type} (x : FieldElement) : res E (option FieldElement) := invert_mod x P256_FIELD_MODULUS.
Definition field_double {E : Type} (v : FieldElement) : res E FieldElement := field_modular_add v v.
Definition field_triple {E : Type} (v : FieldElement) : res E FieldElement :=
  let? d := field_double v in field_modular_add d v.

Definition Scalar : Type := Uint256.

Definition scalar_new {E : Type} (v : Uint256) : res E Scalar := reduce_uint v P256_GROUP_ORDER.
Definition scalar_modular_add {E : Type} (x y : Scalar) : res E Scalar := add_mod x y P256_GROUP_ORDER.
Definition scalar_modular_subtract {E : Type} (x y : Scalar) : res E Scalar := Ok (sub_mod x y P256_GROUP_ORDER).
Definition scalar_modular_multiply {E : Type} (x y : Scalar) : res E Scalar := mul_mod x y P256_GROUP_ORDER.
Definition scalar_invert {E : Type} (x : Scalar) : res E (option Scalar) := invert_mod x P256_GROUP_ORDER.

(** ** Points *)
Record AffinePoint : Type := mkAffine { affine_x : FieldElement; affine_y : FieldElement }.
#[global] Instance AffinePoint_eq_dec : EqDecision AffinePoint.
Proof. solve_decision. Defined.

Definition P256Point : Type := option AffinePoint.
Definition POINT_IDENTITY : P256Point := None.
Definition generator : P256Point := Some (mkAffine P256_GENERATOR_X P256_GENERATOR_Y).

Definition point_is_identity (p : P256Point) : bool := match p with None => true | Some _ => false end.

Definition is_on_curve {E : Type} (p : P256Point) : res E bool :=
  match p with
  | None => Ok true
  | Some point =>
      let? x_squared := field_square (affine_x point) in
      let? x_cubed := field_modular_multiply x_squared (affine_x point) in
      let? ax := field_modular_multiply P256_CURVE_A (affine_x point) in
      let? right_side := field_modular_add x_cubed ax in
      let? right_side := field_modular_add right_side P256_CURVE_B in
      let? left_side := field_square (affine_y point) in
      Ok (bool_decide (left_side = right_side))
  end.

Definition from_coordinates (x y : Uint256) : res P256PointError P256Point :=
  if uint_ge x P256_FIELD_MODULUS || uint_ge y P256_FIELD_MODULUS then Err CoordinateOutOfRange
  else
    let point := Some (mkAffine x y) in
    let? b := is_on_curve point in
    if negb b then Err PointNotOnCurve else Ok point.

Definition coordinates (p : P256Point) : option (Uint256 * Uint256) :=
  option_map (fun point => (affine_x point, affine_y point)) p.

Record JacobianPoint : Type := mkPoint { px : FieldElement; py : FieldElement; pz : FieldElement }.

Definition JACOBIAN_IDENTITY : JacobianPoint := mkPoint ZERO ONE ZERO.

Definition from_point (p : P256Point) : JacobianPoint :=
  match p with
  | Some point => mkPoint (affine_x point) (affine_y point) ONE
  | None => JACOBIAN_IDENTITY
  end.

Definition is_identity (p : JacobianPoint) : bool := bool_decide (pz p = ZERO).

Definition to_point {E : Type} (p : JacobianPoint) : res E P256Point :=
  if is_identity p then Ok POINT_IDENTITY
  else
    let? inverse := field_invert (pz p) in
    let? z_inverse := expect inverse in
    let? z_inverse_squared := field_square z_inverse in
    let? x := field_modular_multiply (px p) z_inverse_squared in
    let? y := field_modular_multiply (py p) z_inverse_squared in
    let? y := field_modular_multiply y z_inverse in
    Ok (Some (mkAffine x y)).

Definition double {E : Type} (p : JacobianPoint) : res E JacobianPoint :=
  if is_identity p || bool_decide (py p = ZERO) then Ok JACOBIAN_IDENTITY
  else
    let? delta := field_square (pz p) in
    let? gamma := field_square (py p) in
    let? beta := field_modular_multiply (px p) gamma in
    let? difference := field_modular_subtract (px p) delta in
    let? sum := field_modular_add (px p) delta in
    let? product := field_modular_multiply difference sum in
    let? alpha := field_triple product in
    let? two_beta := field_double beta in
    let? four_beta := field_double two_beta in
    let? eight_beta := field_double four_beta in
    let? alpha_squared := field_square alpha in
    let? x := field_modular_subtract alpha_squared eight_beta in
    let? y_plus_z := field_modular_add (py p) (pz p) in
    let? z := field_square y_plus_z in
    let? z := field_modular_subtract z gamma in
    let? z := field_modular_subtract z delta in
    let? two_beta := field_double beta in
    let? four_beta := field_double two_beta in
    let? gamma_squared := field_square gamma in
    let? two_gamma_squared := field_double gamma_squared in
    let? four_gamma_squared := field_double two_gamma_squared in
    let? eight_gamma_squared := field_double four_gamma_squared in
    let? difference := field_modular_subtract four_beta x in
    let? y := field_modular_multiply alpha difference in
    let? y := field_modular_subtract y eight_gamma_squared in
    Ok (mkPoint x y z).

Definition add {E : Type} (p q : JacobianPoint) : res E JacobianPoint :=
  if is_identity p then Ok q
  else if is_identity q then Ok p
  else
    let? z1_squared := field_square (pz p) in
    let? z2_squared := field_square (pz q) in
    let? u1 := field_modular_multiply (px p) z2_squared in
    let? u2 := field_modular_multiply (px q) z1_squared in
    let? s1 := field_modular_multiply (py p) (pz q) in
    let? s1 := field_modular_multiply s1 z2_squared in
    let? s2 := field_modular_multiply (py q) (pz p) in
    let? s2 := field_modular_multiply s2 z1_squared in
    if bool_decide (u1 = u2) then
      if negb (bool_decide (s1 = s2)) then Ok JACOBIAN_IDENTITY else double p
    else
      let? h := field_modular_subtract u2 u1 in
      let? two_h := field_double h in
      let? i := field_square two_h in
      let? j := field_modular_multiply h i in
      let? difference := field_modular_subtract s2 s1 in
      let? r := field_double difference in
      let? v := field_modular_multiply u1 i in
      let? r_squared := field_square r in
      let? x := field_modular_subtract r_squared j in
      let? two_v := field_double v in
      let? x := field_modular_subtract x two_v in
      let? difference := field_modular_subtract v x in
      let? y := field_modular_multiply r difference in
      let? product := field_modular_multiply s1 j in
      let? two_product := field_double product in
      let? y := field_modular_subtract y two_product in
      let? z := field_modular_add (pz p) (pz q) in
      let? z := field_square z in
      let? z := field_modular_subtract z z1_squared in
      let? z := field_modular_subtract z z2_squared in
      let? z := field_modular_multiply z h in
      Ok (mkPoint x y z).

Definition add_point {E : Type} (p q : P256Point) : res E P256Point :=
  let? sum := add (from_point p) (from_point q) in to_point sum.

Definition double_affine {E : Type} (p : P256Point) : res E P256Point :=
  let? d := double (from_point p) in to_point d.

(** One turn of the ladder, for the bit of the scalar at [bit_index]. *)
Definition ladder_step {E : Type} (addend : JacobianPoint) (scalar : Uint256) (result : JacobianPoint) (bit_index : nat)
  : res E JacobianPoint :=
  let? result := double result in
  let? b := bit scalar bit_index in
  if b : bool then add result addend else Ok result.

Definition multiply_uint {E : Type} (p : P256Point) (scalar : Uint256) : res E P256Point :=
  let? result := res_foldM (ladder_step (from_point p) scalar) JACOBIAN_IDENTITY (rev (seq 0 256)) in
  to_point result.

Definition multiply {E : Type} (p : P256Point) (scalar : Scalar) : res E P256Point := multiply_uint p scalar.

Definition p256_generator_multiply {E : Type} (scalar : Scalar) : res E P256Point := multiply generator scalar.

(** ** SEC 1 encodings *)
Definition to_sec1_uncompressed (p : P256Point) : res P256PointError bytes :=
  match p with
  | None => Err IdentityCannotBeEncoded
  | Some point =>
      let output := <[0%nat := x04]> (repeat x00 65) in
      let? output := copy_from_slice output 1 33 (to_be_bytes (affine_x point)) in
      copy_from_slice output 33 65 (to_be_bytes (affine_y point))
  end.

Definition from_sec1_uncompressed (encoded : bytes) : res P256PointError P256Point :=
  if negb (len encoded =? 65) then Err (InvalidEncodingLength (len encoded))
  else
    let? prefix := index encoded 0 in
    if negb (byte_eqb prefix x04) then Err (UnsupportedEncoding prefix)
    else
      let? x_bytes := slice encoded 1 33 in
      let? y_bytes := slice encoded 33 65 in
      let? x := from_be_bytes x_bytes in
      let? y := from_be_bytes y_bytes in
      from_coordinates x y.

(** ** ECDH *)
Inductive P256EcdhError : Type :=
| EcdhZeroPrivateScalar
| IdentityPeerPublicKey
| SharedPointAtInfinity.

Definition ecdh_error_to_string (e : P256EcdhError) : bytes :=
  match e with
  | EcdhZeroPrivateScalar => str "P-256 ECDH private scalar cannot be zero"
  | IdentityPeerPublicKey => str "P-256 ECDH peer public key cannot be the identity"
  | SharedPointAtInfinity => str "P-256 ECDH produced the identity point"
  end.

Definition p256_ecdh (private_scalar : Scalar) (peer_public_key : P256Point) : res P256EcdhError bytes :=
  if bool_decide (private_scalar = ZERO) then Err EcdhZeroPrivateScalar
  else if point_is_identity peer_public_key then Err IdentityPeerPublicKey
  else
    let? shared_point := multiply peer_public_key private_scalar in
    match coordinates shared_point with
    | None => Err SharedPointAtInfinity
    | Some (shared_x, _) => Ok (to_be_bytes shared_x)
    end.

(** ** Elements of a prime field as limbs *)
#[local] Existing Instance F_eq_dec.

Section encoded.
Variable p : Z.
Variable m : Uint256.
Hypothesis m_ok : limbs_ok 4 m.
Hypothesis m_value : value m = p.
Hypothesis p_prime : Z.prime p.

Lemma p_gt : 1 < p.
Proof. pose proof (Z.prime_ge_2 _ p_prime). lia. Qed.

Lemma m_gt : 1 < value m.
Proof. rewrite m_value. exact p_gt. Qed.

Definition enc (x : Zmod p) : Uint256 := limbs_of 4 (Zmod.to_Z x).

Lemma to_Z_bound (x : Zmod p) : 0 <= Zmod.to_Z x < p.
Proof. pose proof p_gt. by apply Zmod.to_Z_pos_bound; lia. Qed.

Lemma p_lt : p < power 4.
Proof. rewrite <- m_value. exact (proj2 (value_range 4 m m_ok)). Qed.

Lemma enc_ok (x : Zmod p) : limbs_ok 4 (enc x).
Proof. apply limbs_of_ok. Qed.

Lemma value_enc (x : Zmod p) : value (enc x) = Zmod.to_Z x.
Proof. pose proof p_lt. pose proof (to_Z_bound x). apply value_limbs_of_small. lia. Qed.

Lemma enc_inj (x y : Zmod p) : enc x = enc y <-> x = y.
Proof. split; [|congruence]. intros E. apply Zmod.to_Z_inj. rewrite <- !value_enc. by rewrite E. Qed.

Lemma residue_enc (z : Z) : residue m z = enc (Zmod.of_Z p z).
Proof. unfold residue, enc. by rewrite m_value, Zmod.to_Z_of_Z. Qed.

Lemma enc_of (l : Uint256) : limbs_ok 4 l -> value l < p -> l = enc (Zmod.of_Z p (value l)).
Proof. intros Hl Hv. rewrite <- residue_enc. symmetry. apply residue_value; [exact Hl|by rewrite m_value]. Qed.

Lemma reduce_enc {E : Type} (l : Uint256) : limbs_ok 4 l -> reduce_uint l m = Ok (enc (Zmod.of_Z p (value l))) :> res E _.
Proof. intros Hl. pose proof m_gt. rewrite reduce_uint_spec by (done || lia). by rewrite residue_enc. Qed.

Lemma add_enc {E : Type} (x y : Zmod p) : add_mod (enc x) (enc y) m = Ok (enc (Zmod.add x y)) :> res E _.
Proof.
  pose proof m_gt. rewrite add_mod_spec by (apply enc_ok || done || lia). rewrite residue_enc, Zmod.of_Z_add, !value_enc.
  by rewrite !Zmod.of_Z_to_Z.
Qed.

Lemma sub_enc (x y : Zmod p) : sub_mod (enc x) (enc y) m = enc (Zmod.sub x y).
Proof.
  pose proof m_gt. rewrite sub_mod_spec by (apply enc_ok || done || lia || (rewrite value_enc, m_value; apply to_Z_bound)).
  rewrite residue_enc, Zmod.of_Z_sub, !value_enc. by rewrite !Zmod.of_Z_to_Z.
Qed.

Lemma mul_enc {E : Type} (x y : Zmod p) : mul_mod (enc x) (enc y) m = Ok (enc (Zmod.mul x y)) :> res E _.
Proof.
  pose proof m_gt. rewrite mul_mod_spec by (apply enc_ok || done || lia). rewrite residue_enc, Zmod.of_Z_mul, !value_enc.
  by rewrite !Zmod.of_Z_to_Z.
Qed.

Lemma enc_zero : enc Zmod.zero = ZERO.
Proof. unfold enc. by rewrite Zmod.to_Z_0. Qed.

Lemma enc_one : enc Zmod.one = ONE.
Proof. unfold enc. pose proof p_gt. by rewrite Zmod.to_Z_1_pos by lia. Qed.

Lemma enc_zero_iff (x : Zmod p) : enc x = ZERO <-> x = Zmod.zero.
Proof. rewrite <- enc_zero. apply enc_inj. Qed.

Lemma invert_enc {E : Type} (x : Zmod p) :
  invert_mod (enc x) m = Ok (if decide (x = Zmod.zero) then None else Some (enc (Zmod.inv x))) :> res E _.
Proof.
  pose proof m_gt. rewrite invert_mod_spec by (apply enc_ok || done || lia). f_equal.
  assert (Hx : value (enc x) mod value m = Zmod.to_Z x) by (rewrite value_enc, m_value; apply Z.mod_small, to_Z_bound).
  rewrite Hx. destruct (decide (x = Zmod.zero)) as [->|Hne]; [by rewrite decide_True by apply Zmod.to_Z_0|].
  rewrite decide_False by (intros E0; apply Hne, Zmod.to_Z_inj; by rewrite E0, Zmod.to_Z_0).
  f_equal. rewrite residue_enc, value_enc, m_value, Zmod.of_Z_pow, Zmod.of_Z_to_Z by (pose proof p_gt; lia).
  f_equal. by apply Zmod.fermat_inv.
Qed.

End encoded.

(** ** The field of the curve, and the group of scalars *)
Abbreviation Fp := (Zmod field_modulus).
Abbreviation Fn := (Zmod group_order).
Abbreviation encf := (enc field_modulus).
Abbreviation encs := (enc group_order).

Lemma field_ok : limbs_ok 4 P256_FIELD_MODULUS.
Proof. by apply limbs_ok_eval. Qed.
Lemma field_value : value P256_FIELD_MODULUS = field_modulus.
Proof. reflexivity. Qed.
Lemma order_ok : limbs_ok 4 P256_GROUP_ORDER.
Proof. by apply limbs_ok_eval. Qed.
Lemma order_value : value P256_GROUP_ORDER = group_order.
Proof. reflexivity. Qed.
Lemma field_large : 3 < field_modulus.
Proof. reflexivity. Qed.

Section elements.
Context {E : Type}.
Implicit Types x y : Fp.
Implicit Types s t : Fn.

Lemma field_new_enc (v : Uint256) : limbs_ok 4 v -> field_new v = Ok (encf (Zmod.of_Z _ (value v))) :> res E _.
Proof. exact (reduce_enc field_modulus P256_FIELD_MODULUS field_ok field_value field_modulus_prime _). Qed.
Lemma field_add_enc x y : field_modular_add (encf x) (encf y) = Ok (encf (Zmod.add x y)) :> res E _.
Proof. exact (add_enc field_modulus P256_FIELD_MODULUS field_ok field_value field_modulus_prime _ _). Qed.
Lemma field_sub_enc x y : field_modular_subtract (encf x) (encf y) = Ok (encf (Zmod.sub x y)) :> res E _.
Proof. unfold field_modular_subtract. f_equal. exact (sub_enc field_modulus P256_FIELD_MODULUS field_ok field_value field_modulus_prime _ _). Qed.
Lemma field_mul_enc x y : field_modular_multiply (encf x) (encf y) = Ok (encf (Zmod.mul x y)) :> res E _.
Proof. exact (mul_enc field_modulus P256_FIELD_MODULUS field_ok field_value field_modulus_prime _ _). Qed.
Lemma field_square_enc x : field_square (encf x) = Ok (encf (Zmod.mul x x)) :> res E _.
Proof. apply field_mul_enc. Qed.
Lemma field_double_enc x : field_double (encf x) = Ok (encf (f_double _ x)) :> res E _.
Proof. apply field_add_enc. Qed.
Lemma field_triple_enc x : field_triple (encf x) = Ok (encf (f_triple _ x)) :> res E _.
Proof. unfold field_triple. rewrite field_double_enc. apply field_add_enc. Qed.
Lemma field_invert_enc x :
  field_invert (encf x) = Ok (if decide (x = Zmod.zero) then None else Some (encf (Zmod.inv x))) :> res E _.
Proof. exact (invert_enc field_modulus P256_FIELD_MODULUS field_ok field_value field_modulus_prime _). Qed.
Lemma field_zero_iff x : encf x = ZERO <-> x = Zmod.zero.
Proof. exact (enc_zero_iff field_modulus P256_FIELD_MODULUS field_ok field_value field_modulus_prime _). Qed.
Lemma field_enc_inj x y : encf x = encf y <-> x = y.
Proof. exact (enc_inj field_modulus P256_FIELD_MODULUS field_ok field_value field_modulus_prime _ _). Qed.

Lemma scalar_new_enc (v : Uint256) : limbs_ok 4 v -> scalar_new v = Ok (encs (Zmod.of_Z _ (value v))) :> res E _.
Proof. exact (reduce_enc group_order P256_GROUP_ORDER order_ok order_value group_order_prime _). Qed.
Lemma scalar_add_enc s t : scalar_modular_add (encs s) (encs t) = Ok (encs (Zmod.add s t)) :> res E _.
Proof. exact (add_enc group_order P256_GROUP_ORDER order_ok order_value group_order_prime _ _). Qed.
Lemma scalar_sub_enc s t : scalar_modular_subtract (encs s) (encs t) = Ok (encs (Zmod.sub s t)) :> res E _.
Proof. unfold scalar_modular_subtract. f_equal. exact (sub_enc group_order P256_GROUP_ORDER order_ok order_value group_order_prime _ _). Qed.
Lemma scalar_mul_enc s t : scalar_modular_multiply (encs s) (encs t) = Ok (encs (Zmod.mul s t)) :> res E _.
Proof. exact (mul_enc group_order P256_GROUP_ORDER order_ok order_value group_order_prime _ _). Qed.
Lemma scalar_invert_enc s :
  scalar_invert (encs s) = Ok (if decide (s = Zmod.zero) then None else Some (encs (Zmod.inv s))) :> res E _.
Proof. exact (invert_enc group_order P256_GROUP_ORDER order_ok order_value group_order_prime _). Qed.
Lemma scalar_zero_iff s : encs s = ZERO <-> s = Zmod.zero.
Proof. exact (enc_zero_iff group_order P256_GROUP_ORDER order_ok order_value group_order_prime _). Qed.
Lemma scalar_enc_inj s t : encs s = encs t <-> s = t.
Proof. exact (enc_inj group_order P256_GROUP_ORDER order_ok order_value group_order_prime _ _). Qed.

End elements.

(** One operation of the field at a time. *)
Lemma bind_step {E A B : Type} (c : res E A) (a : A) (k : A -> res E B) (r : res E B) :
  c = Ok a -> k a = r -> (let? x := c in k x) = r.
Proof. by intros -> <-. Qed.

Ltac field_step :=
  lazymatch goal with
  | |- res_bind (field_modular_multiply (enc _ ?x) (enc _ ?y)) _ = _ => apply (bind_step _ _ _ _ (field_mul_enc x y))
  | |- res_bind (field_modular_subtract (enc _ ?x) (enc _ ?y)) _ = _ => apply (bind_step _ _ _ _ (field_sub_enc x y))
  | |- res_bind (field_modular_add (enc _ ?x) (enc _ ?y)) _ = _ => apply (bind_step _ _ _ _ (field_add_enc x y))
  | |- res_bind (field_square (enc _ ?x)) _ = _ => apply (bind_step _ _ _ _ (field_square_enc x))
  | |- res_bind (field_double (enc _ ?x)) _ = _ => apply (bind_step _ _ _ _ (field_double_enc x))
  | |- res_bind (field_triple (enc _ ?x)) _ = _ => apply (bind_step _ _ _ _ (field_triple_enc x))
  end; cbv beta.

(** ** The points of the code are points of the curve *)
Definition curve_b : Fp := Zmod.of_Z field_modulus 0x5ac635d8aa3a93e7b3ebbd55769886bc651d06b0cc53b0f63bce3c3e27d2604b.

Definition curve_point : Type := point field_modulus.
Definition enc_affine (q : Fp * Fp) : AffinePoint := mkAffine (encf q.1) (encf q.2).
Definition enc_point (q : curve_point) : P256Point := option_map enc_affine q.
Definition enc_jacobian (j : jacobian field_modulus) : JacobianPoint := mkPoint (encf (jx _ j)) (encf (jy _ j)) (encf (jz _ j)).

(** A point of P-256: reduced coordinates that satisfy the equation. *)
Definition valid (p : P256Point) : Prop := exists q : curve_point, p = enc_point q /\ on_curve field_modulus curve_b q.

Lemma enc_b : P256_CURVE_B = encf curve_b.
Proof. unfold enc, curve_b. rewrite Zmod.to_Z_of_Z. vm_compute. reflexivity. Qed.

Lemma enc_a : P256_CURVE_A = encf (Zmod.of_Z field_modulus (-3)).
Proof. unfold enc. rewrite Zmod.to_Z_of_Z. vm_compute. reflexivity. Qed.

Lemma enc_f_one : encf Zmod.one = ONE.
Proof. exact (enc_one field_modulus field_modulus_prime). Qed.

Lemma enc_f_zero : encf Zmod.zero = ZERO.
Proof. apply field_zero_iff. reflexivity. Qed.

Lemma enc_point_inj (q r : curve_point) : enc_point q = enc_point r <-> q = r.
Proof.
  split; [|congruence]. destruct q as [[x y]|], r as [[x' y']|]; try done. cbn [enc_point option_map]. intros H%Some_inj.
  pose proof (f_equal affine_x H) as Hx. pose proof (f_equal affine_y H) as Hy. cbn [affine_x affine_y enc_affine fst snd] in Hx, Hy.
  apply field_enc_inj in Hx as ->. by apply field_enc_inj in Hy as ->.
Qed.

Lemma enc_jacobian_identity : enc_jacobian (jacobian_identity field_modulus) = JACOBIAN_IDENTITY.
Proof. unfold enc_jacobian, jacobian_identity, JACOBIAN_IDENTITY. cbn [jx jy jz]. by rewrite enc_f_one, enc_f_zero. Qed.

Lemma from_point_enc (q : curve_point) : from_point (enc_point q) = enc_jacobian (jacobian_of field_modulus q).
Proof.
  destruct q as [[x y]|]; cbn [from_point enc_point option_map jacobian_of]; [|by rewrite enc_jacobian_identity].
  unfold enc_jacobian. cbn [jx jy jz]. by rewrite enc_f_one.
Qed.

Lemma is_identity_enc (j : jacobian field_modulus) : is_identity (enc_jacobian j) = bool_decide (jz _ j = Zmod.zero).
Proof. apply bool_decide_ext, field_zero_iff. Qed.

Lemma to_point_enc {E : Type} (j : jacobian field_modulus) :
  to_point (enc_jacobian j) = Ok (enc_point (jacobian_point field_modulus j)) :> res E _.
Proof.
  unfold to_point, jacobian_point. rewrite is_identity_enc. case_bool_decide as Hz; [by rewrite decide_True|].
  rewrite decide_False by done. cbn [enc_jacobian px py pz]. rewrite field_invert_enc, decide_False by done. cbn [expect res_bind].
  repeat field_step. reflexivity.
Qed.

Lemma enc_jacobian_mk (x y z : Fp) : enc_jacobian (mkJacobian _ x y z) = mkPoint (encf x) (encf y) (encf z).
Proof. reflexivity. Qed.

Lemma double_enc {E : Type} (j : jacobian field_modulus) :
  double (enc_jacobian j) = Ok (enc_jacobian (jacobian_double field_modulus j)) :> res E _.
Proof.
  unfold double, jacobian_double. rewrite is_identity_enc. destruct j as [x y z]. rewrite enc_jacobian_mk. cbn [px py pz jx jy jz].
  rewrite (bool_decide_ext (encf y = ZERO) (y = Zmod.zero)) by apply field_zero_iff.
  repeat case_bool_decide; cbn [orb].
  1-3: rewrite decide_True by tauto; by rewrite enc_jacobian_identity.
  rewrite decide_False by tauto. cbv zeta. rewrite enc_jacobian_mk. repeat field_step. reflexivity.
Qed.

Lemma add_enc_jacobian {E : Type} (j k : jacobian field_modulus) :
  add (enc_jacobian j) (enc_jacobian k) = Ok (enc_jacobian (jacobian_add field_modulus j k)) :> res E _.
Proof.
  unfold add, jacobian_add. rewrite !is_identity_enc. destruct j as [x1 y1 z1], k as [x2 y2 z2]. cbn [jx jy jz].
  case_bool_decide as Hj; [by rewrite decide_True|]. rewrite decide_False by done.
  case_bool_decide as Hk; [by rewrite decide_True|]. rewrite (decide_False (P := z2 = _)) by done.
  rewrite !enc_jacobian_mk. cbn [px py pz]. cbv zeta. do 8 field_step.
  set (u1 := Zmod.mul x1 _). set (u2 := Zmod.mul x2 _). set (s1 := Zmod.mul (Zmod.mul y1 _) _). set (s2 := Zmod.mul (Zmod.mul y2 _) _).
  rewrite (bool_decide_ext _ _ (field_enc_inj u1 u2)), (bool_decide_ext _ _ (field_enc_inj s1 s2)).
  case_bool_decide as Hu.
  - rewrite (decide_True _ _ Hu). case_bool_decide as Hs; cbn [negb].
    + rewrite decide_False by (intros Hn; exact (Hn Hs)). apply (double_enc (mkJacobian _ x1 y1 z1)).
    + rewrite (decide_True _ _ Hs). by rewrite enc_jacobian_identity.
  - rewrite (decide_False _ _ Hu), enc_jacobian_mk. repeat field_step. reflexivity.
Qed.

(** *** Operations on affine points *)
Section operations.
Context {E : Type}.
Implicit Types q r : curve_point.

Lemma add_point_enc q r : add_point (enc_point q) (enc_point r) = Ok (enc_point (add_points _ q r)) :> res E _.
Proof.
  unfold add_point. rewrite !from_point_enc, add_enc_jacobian. cbn [res_bind]. rewrite to_point_enc. do 2 f_equal.
  by rewrite (jacobian_add_correct _ field_modulus_prime field_large), !(jacobian_of_point _ field_modulus_prime field_large).
Qed.

Lemma double_affine_enc q : double_affine (enc_point q) = Ok (enc_point (double_point _ q)) :> res E _.
Proof.
  unfold double_affine. rewrite from_point_enc, double_enc. cbn [res_bind]. rewrite to_point_enc. do 2 f_equal.
  by rewrite (jacobian_double_correct _ field_modulus_prime field_large), (jacobian_of_point _ field_modulus_prime field_large).
Qed.

Lemma ladder_step_enc q (scalar : Uint256) (j : jacobian field_modulus) (n : Z) (i : nat) :
  limbs_ok 4 scalar -> (i < 256)%nat -> 0 <= n -> jacobian_point _ j = multiple _ n q ->
  exists j', ladder_step (from_point (enc_point q)) scalar (enc_jacobian j) i = Ok (enc_jacobian j') :> res E _ /\
    jacobian_point _ j' = multiple _ (2 * n + Z.b2z (Z.testbit (value scalar) (Z.of_nat i))) q.
Proof.
  intros Hs Hi Hn Hj. unfold ladder_step. rewrite double_enc. cbn [res_bind]. rewrite (bit_spec 4) by (done || lia). cbn [res_bind].
  rewrite (multiple_step _ n) by done. cbv zeta.
  destruct (Z.testbit _ _).
  - rewrite from_point_enc, add_enc_jacobian. eexists; split; [reflexivity|].
    rewrite (jacobian_add_correct _ field_modulus_prime field_large), (jacobian_double_correct _ field_modulus_prime field_large).
    by rewrite (jacobian_of_point _ field_modulus_prime field_large), Hj.
  - eexists; split; [reflexivity|]. by rewrite (jacobian_double_correct _ field_modulus_prime field_large), Hj.
Qed.

Lemma next_bits (v : Z) (k : nat) :
  2 * (v / 2 ^ Z.of_nat (S k)) + Z.b2z (Z.testbit v (Z.of_nat k)) = v / 2 ^ Z.of_nat k.
Proof.
  rewrite Nat2Z.inj_succ, Z.pow_succ_r, (Z.mul_comm 2 (2 ^ _)), <- Z.div_div by lia.
  by rewrite Z.testbit_spec', <- Z.div_mod by lia.
Qed.

Lemma ladder_enc q (scalar : Uint256) (n : nat) (j : jacobian field_modulus) :
  limbs_ok 4 scalar -> (n < 256)%nat -> jacobian_point _ j = multiple _ (value scalar / 2 ^ Z.of_nat (S n)) q ->
  exists j', res_foldM (ladder_step (from_point (enc_point q)) scalar) (enc_jacobian j) (rev (seq 0 (S n))) =
               Ok (enc_jacobian j') :> res E _ /\ jacobian_point _ j' = multiple _ (value scalar) q.
Proof.
  intros Hs. revert j. induction n as [|n IH]; intros j Hn Hj; pose proof (value_range 4 scalar Hs);
    rewrite seq_S, rev_app_distr; cbn [rev app res_foldM Nat.add].
  - destruct (ladder_step_enc q scalar j (value scalar / 2 ^ Z.of_nat 1) 0 Hs Hn) as (j' & -> & Hj'); [apply Z.div_pos; lia|exact Hj|].
    exists j'. split; [done|]. rewrite Hj', (next_bits _ 0). f_equal. apply Z.div_1_r.
  - destruct (ladder_step_enc q scalar j (value scalar / 2 ^ Z.of_nat (S (S n))) (S n) Hs Hn) as (j' & -> & Hj');
      [apply Z.div_pos; [lia|apply Z.pow_pos_nonneg; lia]|exact Hj|].
    cbn [res_bind]. apply IH; [lia|]. by rewrite Hj', next_bits.
Qed.

Lemma multiply_enc q (scalar : Scalar) :
  limbs_ok 4 scalar -> multiply (enc_point q) scalar = Ok (enc_point (multiple _ (value scalar) q)) :> res E _.
Proof.
  intros Hs. unfold multiply, multiply_uint. rewrite <- enc_jacobian_identity.
  destruct (ladder_enc q scalar 255 (jacobian_identity field_modulus) Hs) as (j & -> & Hj); [lia| |].
  - pose proof (value_range 4 scalar Hs). rewrite Z.div_small by done. by apply (jacobian_point_zero _ (jacobian_identity _)).
  - cbn [res_bind]. rewrite to_point_enc. by rewrite Hj.
Qed.

Lemma is_on_curve_enc q : exists b, is_on_curve (enc_point q) = Ok b :> res E _ /\ (b = true <-> on_curve _ curve_b q).
Proof.
  destruct q as [[x y]|]; [|by exists true]. cbn [is_on_curve enc_point option_map enc_affine affine_x affine_y fst snd on_curve].
  rewrite enc_a, enc_b. set (a := Zmod.of_Z field_modulus (-3)). set (b := curve_b).
  assert (Ha : forall z, Zmod.add z (Zmod.mul a x) = Zmod.sub z (Zmod.mul (three _) x)).
  { intros z. assert (a = Zmod.opp (three _)) as ->; [|by rewrite Zmod.mul_opp_l, Zmod.add_opp_r].
    unfold a, three. apply Zmod.to_Z_inj. vm_compute. reflexivity. }
  eexists. split; [repeat field_step; reflexivity|]. rewrite bool_decide_eq_true, field_enc_inj. by rewrite Ha.
Qed.

End operations.

(** ** Construction and encoding of points *)
Definition gen : curve_point :=
  Some (Zmod.of_Z field_modulus (value P256_GENERATOR_X), Zmod.of_Z field_modulus (value P256_GENERATOR_Y)).

Lemma generator_enc : generator = enc_point gen.
Proof.
  unfold generator, enc_point, gen, enc_affine. cbn [option_map fst snd]. unfold enc. rewrite !Zmod.to_Z_of_Z. vm_compute. reflexivity.
Qed.

Lemma gen_on_curve : on_curve field_modulus curve_b gen.
Proof.
  cbn [on_curve gen]. unfold three, curve_b. rewrite <- Zmod.of_Z_1, <- !Zmod.of_Z_add, <- !Zmod.of_Z_mul, <- Zmod.of_Z_sub, <- Zmod.of_Z_add.
  apply Zmod.of_Z_inj. vm_compute. reflexivity.
Qed.

Lemma uint_ge_spec (l r : Uint256) : limbs_ok 4 l -> limbs_ok 4 r -> uint_ge l r = (value r <=? value l).
Proof.
  intros Hl Hr. unfold uint_ge. rewrite (compare_limbs_spec 4) by done. unfold Z.leb. rewrite (Z.compare_antisym (value l)).
  by destruct (value l ?= value r).
Qed.

(** Coordinates below the modulus are those of a pair of field elements. *)
Lemma affine_enc (x y : Uint256) : limbs_ok 4 x -> limbs_ok 4 y -> value x < field_modulus -> value y < field_modulus ->
  Some (mkAffine x y) = enc_point (Some (Zmod.of_Z field_modulus (value x), Zmod.of_Z field_modulus (value y))).
Proof.
  intros Hx Hy Lx Ly. cbn [enc_point option_map]. unfold enc_affine. cbn [fst snd].
  rewrite <- (enc_of field_modulus P256_FIELD_MODULUS field_value x Hx Lx).
  by rewrite <- (enc_of field_modulus P256_FIELD_MODULUS field_value y Hy Ly).
Qed.

Lemma affine_value (q : Fp * Fp) : value (encf q.1) < field_modulus /\ value (encf q.2) < field_modulus.
Proof.
  rewrite !(value_enc field_modulus P256_FIELD_MODULUS field_ok field_value field_modulus_prime).
  split; apply to_Z_bound; exact field_modulus_prime.
Qed.

Lemma valid_coordinates (p : P256Point) : valid p ->
  match p with
  | None => True
  | Some a => limbs_ok 4 (affine_x a) /\ limbs_ok 4 (affine_y a) /\ value (affine_x a) < field_modulus /\ value (affine_y a) < field_modulus
  end.
Proof.
  intros ([q|] & -> & _); [|done]. cbn [enc_point option_map enc_affine affine_x affine_y].
  split; [apply enc_ok|]. split; [apply enc_ok|]. apply affine_value.
Qed.

Lemma from_coordinates_spec (x y : Uint256) : limbs_ok 4 x -> limbs_ok 4 y ->
  match from_coordinates x y with
  | Ok p => p = Some (mkAffine x y) /\ valid p
  | Err e => (e = CoordinateOutOfRange /\ (field_modulus <= value x \/ field_modulus <= value y)) \/
             (e = PointNotOnCurve /\ ~ valid (Some (mkAffine x y)))
  | Panic | Fuel => False
  end.
Proof.
  intros Hx Hy. unfold from_coordinates. rewrite !uint_ge_spec by (done || apply field_ok). rewrite field_value.
  destruct (Z.leb_spec field_modulus (value x)) as [Lx|Lx]; [by left; auto|].
  destruct (Z.leb_spec field_modulus (value y)) as [Ly|Ly]; [by left; auto|]. cbn [orb].
  pose proof (affine_enc x y Hx Hy Lx Ly) as Hq. rewrite Hq. set (q := Some (Zmod.of_Z _ _, _) : curve_point) in Hq |- *.
  destruct (is_on_curve_enc (E := P256PointError) q) as (b & -> & Hb). cbn [res_bind]. destruct b; cbn [negb].
  - split; [done|]. exists q. split; [done|]. by apply Hb.
  - right. split; [done|]. intros (q' & E & Hc). apply enc_point_inj in E as <-. by apply Hb in Hc.
Qed.

Lemma to_sec1_spec (a : AffinePoint) : limbs_ok 4 (affine_x a) -> limbs_ok 4 (affine_y a) ->
  to_sec1_uncompressed (Some a) = Ok (x04 :: to_be_bytes (affine_x a) ++ to_be_bytes (affine_y a)).
Proof.
  intros Hx Hy. cbn [to_sec1_uncompressed]. rewrite !to_be_bytes_spec by done.
  set (l := be_bytes 32 (value (affine_x a))). set (r := be_bytes 32 (value (affine_y a))).
  assert (Ll : length l = 32%nat) by apply length_be_bytes. assert (Lr : length r = 32%nat) by apply length_be_bytes.
  rewrite copy_from_slice_Ok by (rewrite ?length_insert, ?repeat_length; lia). cbn [res_bind].
  change (take 1 (<[0%nat:=x04]> (repeat x00 65))) with [x04]. change (drop 33 (<[0%nat:=x04]> (repeat x00 65))) with (repeat x00 32).
  rewrite copy_from_slice_Ok by (rewrite ?length_app, ?repeat_length; cbn [length]; lia).
  rewrite (app_assoc [x04]), take_app_length', drop_ge, app_nil_r by (rewrite ?length_app, ?repeat_length; cbn [length]; lia).
  done.
Qed.

(** 65 bytes are the prefix and two coordinates. *)
Lemma sec1_parts (bs : bytes) : length bs = 65%nat ->
  exists b x y, bs = b :: x ++ y /\ length x = 32%nat /\ length y = 32%nat.
Proof.
  intros H. destruct bs as [|b bs]; [done|]. exists b, (take 32 bs), (drop 32 bs). rewrite take_drop, length_take, length_drop.
  cbn [length] in H. split; [done|lia].
Qed.

Lemma from_sec1_spec (b : byte) (x y : bytes) : length x = 32%nat -> length y = 32%nat ->
  from_sec1_uncompressed (b :: x ++ y) =
    if negb (byte_eqb b x04) then Err (UnsupportedEncoding b)
    else from_coordinates (limbs_of 4 (be_value 0 x)) (limbs_of 4 (be_value 0 y)).
Proof.
  intros Hx Hy. unfold from_sec1_uncompressed. replace (len (b :: x ++ y)) with 65 by (unfold len; cbn [length]; rewrite length_app; lia).
  cbn [Z.eqb Pos.eqb negb index lookup list_lookup expect res_bind]. change (index (b :: x ++ y) 0) with (Ok b : res P256PointError byte). cbn [res_bind].
  destruct (byte_eqb b x04); [|done]. cbn [negb].
  rewrite !slice_Ok by (cbn [length]; rewrite ?length_app; lia). cbn [res_bind drop Nat.sub].
  rewrite drop_0, take_app_length', drop_app_length', (take_ge y) by lia. rewrite !from_be_bytes_spec by done. done.
Qed.

Lemma sec1_round_trip_spec (bs : bytes) (p : P256Point) :
  from_sec1_uncompressed bs = Ok p <-> valid p /\ to_sec1_uncompressed p = Ok bs.
Proof.
  split.
  - intros H. destruct (decide (length bs = 65%nat)) as [Hl|Hl].
    2: { unfold from_sec1_uncompressed in H. rewrite (proj2 (Z.eqb_neq _ _)) in H by (unfold len; lia). done. }
    destruct (sec1_parts bs Hl) as (b & x & y & -> & Hx & Hy). rewrite from_sec1_spec in H by done.
    destruct (byte_eqb b x04) eqn:Hb; [|done]. apply byte_eqb_eq in Hb as ->. cbn [negb] in H.
    pose proof (from_coordinates_spec _ _ (limbs_of_ok 4 (be_value 0 x)) (limbs_of_ok 4 (be_value 0 y))) as Hs. rewrite H in Hs.
    destruct Hs as [-> Hv]. split; [done|]. rewrite to_sec1_spec by apply limbs_of_ok. cbn [affine_x affine_y].
    by rewrite !limbs_be_bytes.
  - intros [Hv H]. destruct p as [a|]; [|done]. pose proof (valid_coordinates _ Hv) as (Hx & Hy & Lx & Ly).
    rewrite to_sec1_spec in H by done. apply Ok_inj in H as <-.
    rewrite from_sec1_spec by (rewrite to_be_bytes_spec by done; apply length_be_bytes). rewrite byte_eqb_refl. cbn [negb].
    rewrite !to_be_bytes_spec, !be_value_be_bytes by done. pose proof (value_range 4 _ Hx). pose proof (value_range 4 _ Hy).
    rewrite !Z.mod_small by done. rewrite !limbs_of_value by done.
    pose proof (from_coordinates_spec _ _ Hx Hy) as Hs. destruct a as [x y]; cbn [affine_x affine_y] in *.
    destruct (from_coordinates x y) as [p|e| |]; [by destruct Hs as [-> _]| |done..].
    destruct Hs as [[_ Hs]|[_ Hs]]; [lia|done].
Qed.

(** ** What the curve operations do *)

(** C25: on points of P-256 the operations return, stay on the curve, and are the affine chord-and-tangent
    law: sum, double and scalar multiple; the constant generator is a point of the curve. *)
Theorem point_arithmetic_correct {E : Type} (q r : curve_point) (scalar : Scalar) :
  on_curve _ curve_b q -> on_curve _ curve_b r -> limbs_ok 4 scalar ->
  (add_point (enc_point q) (enc_point r) = Ok (enc_point (add_points _ q r)) :> res E _ /\
   on_curve _ curve_b (add_points _ q r)) /\
  (double_affine (enc_point q) = Ok (enc_point (double_point _ q)) :> res E _ /\ on_curve _ curve_b (double_point _ q)) /\
  (multiply (enc_point q) scalar = Ok (enc_point (multiple _ (value scalar) q)) :> res E _ /\
   on_curve _ curve_b (multiple _ (value scalar) q)) /\
  p256_generator_multiply scalar = Ok (enc_point (multiple _ (value scalar) gen)) :> res E _.
Proof.
  intros Hq Hr Hs. split_and!.
  - apply add_point_enc.
  - exact (add_on_curve _ field_modulus_prime field_large curve_b q r Hq Hr).
  - apply double_affine_enc.
  - exact (double_on_curve _ field_modulus_prime field_large curve_b q Hq).
  - by apply multiply_enc.
  - exact (multiple_on_curve _ field_modulus_prime field_large curve_b (value scalar) q Hq).
  - unfold p256_generator_multiply. rewrite generator_enc. by apply multiply_enc.
Qed.

Lemma point_arithmetic_correct_witness :
  on_curve _ curve_b gen /\
  multiply (E := unit) (enc_point gen) [2; 0; 0; 0] = Ok (enc_point (multiple _ (value [2; 0; 0; 0]) gen)).
Proof.
  split; [exact gen_on_curve|].
  destruct (point_arithmetic_correct (E := unit) gen gen [2; 0; 0; 0] gen_on_curve gen_on_curve) as (_ & _ & [H _] & _).
  - by apply limbs_ok_eval.
  - exact H.
Defined.

(** C26: decoding accepts exactly the encodings of the points of the curve but the identity, and gives the
    point back; a point has one encoding, of 65 bytes; what is refused is refused for its length, its
    prefix, a coordinate outside the field, or the equation, and nothing panics. *)
Theorem sec1_round_trip (bs : bytes) (p : P256Point) :
  (from_sec1_uncompressed bs = Ok p <-> valid p /\ to_sec1_uncompressed p = Ok bs) /\
  match from_sec1_uncompressed bs with
  | Ok p => length bs = 65%nat /\ p <> POINT_IDENTITY
  | Err e =>
      (e = InvalidEncodingLength (len bs) /\ len bs <> 65) \/
      (exists b rest, bs = b :: rest /\ e = UnsupportedEncoding b /\ b <> x04) \/
      (exists x y, bs = x04 :: x ++ y /\ length x = 32%nat /\ length y = 32%nat /\
         ((e = CoordinateOutOfRange /\ (field_modulus <= be_value 0 x \/ field_modulus <= be_value 0 y)) \/
          (e = PointNotOnCurve /\ ~ valid (Some (mkAffine (limbs_of 4 (be_value 0 x)) (limbs_of 4 (be_value 0 y)))))))
  | Panic | Fuel => False
  end.
Proof.
  split; [apply sec1_round_trip_spec|].
  destruct (decide (length bs = 65%nat)) as [Hl|Hl].
  2: { unfold from_sec1_uncompressed. rewrite (proj2 (Z.eqb_neq _ _)) by (unfold len; lia). left. unfold len. split; [done|lia]. }
  destruct (sec1_parts bs Hl) as (b & x & y & -> & Hx & Hy). rewrite from_sec1_spec by done.
  destruct (byte_eqb b x04) eqn:Hb; cbn [negb].
  2: { right; left. exists b, (x ++ y). split_and!; [done|done|]. intros ->. by rewrite byte_eqb_refl in Hb. }
  apply byte_eqb_eq in Hb as ->.
  pose proof (from_coordinates_spec _ _ (limbs_of_ok 4 (be_value 0 x)) (limbs_of_ok 4 (be_value 0 y))) as Hs.
  destruct (from_coordinates _ _) as [q|e| |]; [by destruct Hs as [-> _]| |done..].
  right; right. exists x, y. split_and!; [done..|].
  assert (Hv : forall z, length z = 32%nat -> value (limbs_of 4 (be_value 0 z)) = be_value 0 z).
  { intros z Hz. pose proof (be_value_range z) as Hr. unfold len in Hr. rewrite Hz in Hr. by apply value_limbs_of_small. }
  by rewrite !Hv in Hs.
Qed.

Lemma zero_iff (d : Scalar) : limbs_ok 4 d -> d = ZERO <-> value d = 0.
Proof. intros Hd. split; [by intros ->|]. intros H. apply (value_inj 4); [done|by apply limbs_ok_eval|exact H]. Qed.

(** The abscissa of a product, or why there is none. *)
Lemma ecdh_spec (private_scalar : Scalar) (peer : curve_point) : limbs_ok 4 private_scalar ->
  p256_ecdh private_scalar (enc_point peer) =
    if decide (value private_scalar = 0) then Err EcdhZeroPrivateScalar
    else if decide (peer = None) then Err IdentityPeerPublicKey
    else match multiple _ (value private_scalar) peer with
         | Some (x, _) => Ok (be_bytes 32 (Zmod.to_Z x))
         | None => Err SharedPointAtInfinity
         end.
Proof.
  intros Hs. unfold p256_ecdh. rewrite (bool_decide_ext _ _ (zero_iff _ Hs)).
  case_bool_decide as H0; [by rewrite (decide_True _ _ H0)|]. rewrite (decide_False _ _ H0). destruct peer as [q|]; [|done].
  cbn [point_is_identity enc_point option_map]. rewrite (decide_False (P := Some q = None)) by done. change (Some (enc_affine q)) with (enc_point (Some q)).
  rewrite multiply_enc by done. cbn [res_bind]. destruct (multiple _ (value private_scalar) (Some q)) as [[x y]|]; [|done].
  cbn [enc_point option_map coordinates enc_affine affine_x fst]. rewrite to_be_bytes_spec by apply enc_ok. f_equal. f_equal.
  exact (value_enc field_modulus P256_FIELD_MODULUS field_ok field_value field_modulus_prime x).
Qed.

(** ** Both ends of an exchange compute the same point *)
Lemma curve_nonsingular : discriminant field_modulus curve_b <> Zmod.zero.
Proof. intros E. apply (f_equal Zmod.to_Z) in E. vm_compute in E. discriminate E. Qed.

Lemma multiples_agree (c d : Z) : 0 <= c -> 0 <= d -> multiple _ c (multiple _ d gen) = multiple _ d (multiple _ c gen).
Proof. intros Hc Hd. by apply (multiples_commute _ field_modulus_prime field_large curve_b curve_nonsingular c d gen gen_on_curve). Qed.

(** A shared secret is the abscissa, in 32 bytes, of the peer's point times the private scalar, which
    lies on the curve; it is refused exactly when the scalar is zero, the peer's point is the identity, or
    the product is. *)
Theorem ecdh_correct (private_scalar : Scalar) (peer : curve_point) :
  limbs_ok 4 private_scalar -> on_curve _ curve_b peer ->
  match p256_ecdh private_scalar (enc_point peer) with
  | Ok secret => exists x y, multiple _ (value private_scalar) peer = Some (x, y) /\ on_curve _ curve_b (Some (x, y)) /\
                   secret = be_bytes 32 (Zmod.to_Z x) /\ value private_scalar <> 0 /\ peer <> None
  | Err EcdhZeroPrivateScalar => value private_scalar = 0
  | Err IdentityPeerPublicKey => value private_scalar <> 0 /\ peer = None
  | Err SharedPointAtInfinity => value private_scalar <> 0 /\ peer <> None /\ multiple _ (value private_scalar) peer = None
  | Panic | Fuel => False
  end.
Proof.
  intros Hs Hc. rewrite ecdh_spec by done. destruct (decide (value private_scalar = 0)) as [|H0]; [done|].
  destruct (decide (peer = None)) as [|Hn]; [done|].
  pose proof (multiple_on_curve _ field_modulus_prime field_large curve_b (value private_scalar) peer Hc) as Hm.
  destruct (multiple _ (value private_scalar) peer) as [[x y]|]; [|done]. by exists x, y.
Qed.

Lemma ecdh_correct_witness :
  exists secret x y, p256_ecdh ONE generator = Ok secret /\ multiple _ (value ONE) gen = Some (x, y) /\ secret = be_bytes 32 (Zmod.to_Z x).
Proof.
  pose proof (ecdh_correct ONE gen (limbs_of_ok 4 1) gen_on_curve) as H. rewrite <- generator_enc in H.
  destruct (p256_ecdh ONE generator) as [secret|[]| |].
  - destruct H as (x & y & Hm & _ & Hs & _). by exists secret, x, y.
  - discriminate H.
  - destruct H as [_ H]. discriminate H.
  - destruct H as (_ & _ & H). discriminate H.
  - destruct H.
  - destruct H.
Defined.

(** Two ends that exchange the multiples of the generator by their scalars get the same secret. *)
Theorem ecdh_agreement (c d : Scalar) (secret : bytes) (p q : P256Point) : limbs_ok 4 c -> limbs_ok 4 d ->
  p256_generator_multiply c = Ok p :> res unit _ -> p256_generator_multiply d = Ok q :> res unit _ ->
  p256_ecdh c q = Ok secret <-> p256_ecdh d p = Ok secret.
Proof.
  assert (H : forall c d p q, limbs_ok 4 c -> limbs_ok 4 d -> p256_generator_multiply c = Ok p :> res unit _ ->
    p256_generator_multiply d = Ok q :> res unit _ -> p256_ecdh c q = Ok secret -> p256_ecdh d p = Ok secret).
  { clear. intros c d p q Hc Hd. pose proof (value_range 4 c Hc). pose proof (value_range 4 d Hd).
    unfold p256_generator_multiply. rewrite generator_enc, !multiply_enc by done. intros <-%Ok_inj <-%Ok_inj. rewrite !ecdh_spec by done.
    rewrite (multiples_agree (value d) (value c)) by lia. destruct (decide (value c = 0)) as [|Hc0]; [done|].
    case_decide as Hd0; [done|]. rewrite decide_False by (intros E; by rewrite E in Hd0). case_decide as E; [|done].
    rewrite (multiples_agree (value c) (value d)) by lia. by rewrite E, multiple_identity. }
  intros Hc Hd Hp Hq. split; eauto.
Qed.
