(* ===== verification/Ecdsa.v ===== *)
(** * ECDSA over P-256: [src/p256.rs]

    Signatures with SHA-256 and the deterministic nonces of RFC 6979. The generator of nonces is a
    state that is passed along; its loop and the loop of the signer run on fuel, since only
    probability bounds the number of rejected candidates. The signer is compared with a search
    through the same candidates ([search]). *)
From Stdlib Require Import ZArith Lia Zdivisibility Zmod.
From stdpp Require Import prelude.
From S2P Require Import Prelude Bytes Uint256 Sha256 Primes Curve P256.
Local Open Scope Z_scope.
Set Warnings "-clear-no-such-hyp".

(** ** Signatures *)
Inductive P256EcdsaError : Type :=
| ZeroPrivateScalar
| InvalidR
| InvalidS.

Definition ecdsa_error_to_string (e : P256EcdsaError) : bytes :=
  match e with
  | ZeroPrivateScalar => str "P-256 ECDSA private scalar cannot be zero"
  | InvalidR => str "P-256 ECDSA r must be in the range [1, n-1]"
  | InvalidS => str "P-256 ECDSA s must be in the range [1, n-1]"
  end.

Record P256Signature : Type := mkSignature { sig_r : Scalar; sig_s : Scalar }.

Definition from_components (r s : Uint256) : res P256EcdsaError P256Signature :=
  if bool_decide (r = ZERO) || uint_ge r P256_GROUP_ORDER then Err InvalidR
  else if bool_decide (s = ZERO) || uint_ge s P256_GROUP_ORDER then Err InvalidS
  else Ok (mkSignature r s).

Definition components (s : P256Signature) : Uint256 * Uint256 := (sig_r s, sig_s s).

(** ** Nonces *)
Record Rfc6979P256Sha256 : Type := mkGenerator { generator_k : bytes; generator_v : bytes }.

Definition ecdsa_hash_scalar {E : Type} (message_hash : bytes) : res E Scalar :=
  let? h := from_be_bytes message_hash in scalar_new h.

(** [input] holds V, one byte, the private scalar and the reduced hash. *)
Definition new_generator {E : Type} (private_scalar : Scalar) (message_hash : bytes) : res E Rfc6979P256Sha256 :=
  if bool_decide (private_scalar = ZERO) then Panic
  else
    let k := repeat x00 32 in
    let v := repeat x01 32 in
    let private_octets := to_be_bytes private_scalar in
    let? hash_scalar := ecdsa_hash_scalar message_hash in
    let hash_octets := to_be_bytes hash_scalar in
    let? input := copy_from_slice (repeat x00 97) 0 32 v in
    let input := <[32%nat := x00]> input in
    let? input := copy_from_slice input 33 65 private_octets in
    let? input := copy_from_slice input 65 97 hash_octets in
    let? k := hmac_sha256 k input in
    let? v := hmac_sha256 k v in
    let? input := copy_from_slice input 0 32 v in
    let input := <[32%nat := x01]> input in
    let? k := hmac_sha256 k input in
    let? v := hmac_sha256 k v in
    Ok (mkGenerator k v).

Definition reject_candidate {E : Type} (g : Rfc6979P256Sha256) : res E Rfc6979P256Sha256 :=
  let? input := copy_from_slice (repeat x00 33) 0 32 (generator_v g) in
  let input := <[32%nat := x00]> input in
  let? k := hmac_sha256 (generator_k g) input in
  let? v := hmac_sha256 k (generator_v g) in
  Ok (mkGenerator k v).

Fixpoint next_scalar {E : Type} (fuel : nat) (g : Rfc6979P256Sha256) : res E (Scalar * Rfc6979P256Sha256) :=
  match fuel with
  | O => Fuel
  | S fuel' =>
      let? v := hmac_sha256 (generator_k g) (generator_v g) in
      let g := mkGenerator (generator_k g) v in
      let? candidate := from_be_bytes v in
      if negb (bool_decide (candidate = ZERO)) && negb (uint_ge candidate P256_GROUP_ORDER) then Ok (candidate, g)
      else
        let? g := reject_candidate g in
        next_scalar fuel' g
  end.

(** ** Signing and verifying *)
Fixpoint sign_loop (nonce_fuel fuel : nat) (private_scalar hash_scalar : Scalar) (g : Rfc6979P256Sha256)
  : res P256EcdsaError P256Signature :=
  match fuel with
  | O => Fuel
  | S fuel' =>
      let? (nonce, g) := next_scalar nonce_fuel g in
      let again := let? g := reject_candidate g in sign_loop nonce_fuel fuel' private_scalar hash_scalar g in
      let? nonce_point := p256_generator_multiply nonce in
      match coordinates nonce_point with
      | None => again
      | Some (nonce_x, _) =>
          let? r := scalar_new nonce_x in
          if bool_decide (r = ZERO) then again
          else
            let? inverse := scalar_invert nonce in
            let? nonce_inverse := expect inverse in
            let? product := scalar_modular_multiply private_scalar r in
            let? sum := scalar_modular_add hash_scalar product in
            let? s := scalar_modular_multiply nonce_inverse sum in
            if bool_decide (s = ZERO) then again else Ok (mkSignature r s)
      end
  end.

Definition p256_ecdsa_sign_sha256 (fuel : nat) (private_scalar : Scalar) (message : bytes) : res P256EcdsaError P256Signature :=
  if bool_decide (private_scalar = ZERO) then Err ZeroPrivateScalar
  else
    let? message_hash := sha256 message in
    let? hash_scalar := ecdsa_hash_scalar message_hash in
    let? g := new_generator private_scalar message_hash in
    sign_loop fuel fuel private_scalar hash_scalar g.

Definition p256_ecdsa_verify_sha256 {E : Type} (public_key : P256Point) (message : bytes) (signature : P256Signature)
  : res E bool :=
  if point_is_identity public_key then Ok false
  else
    let? inverse := scalar_invert (sig_s signature) in
    let? s_inverse := expect inverse in
    let? message_hash := sha256 message in
    let? hash_scalar := ecdsa_hash_scalar message_hash in
    let? u1 := scalar_modular_multiply hash_scalar s_inverse in
    let? u2 := scalar_modular_multiply (sig_r signature) s_inverse in
    let? left_point := p256_generator_multiply u1 in
    let? right_point := multiply public_key u2 in
    let? verification_point := add_point left_point right_point in
    match coordinates verification_point with
    | None => Ok false
    | Some (verification_x, _) =>
        let? x := scalar_new verification_x in
        Ok (bool_decide (x = sig_r signature))
    end.

#[local] Existing Instance F_eq_dec.

(** ** The equations *)
Definition hash_value (message : bytes) : Fn := Zmod.of_Z group_order (be_value 0 (hash message)).

(** The abscissa of a point, modulo the order. *)
Definition abscissa (q : curve_point) : option Fn :=
  match q with
  | None => None
  | Some (x, _) => Some (Zmod.of_Z group_order (Zmod.to_Z x))
  end.

(** The signature that a nonce gives, when it gives one (FIPS 186-5, 6.4.1). *)
Definition signature_for (d z : Fn) (nonce : Z) : option (Fn * Fn) :=
  if decide (0 < nonce < group_order) then
    match abscissa (multiple _ nonce gen) with
    | None => None
    | Some r =>
        if decide (r = Zmod.zero) then None
        else
          let s := Zmod.mul (Zmod.inv (Zmod.of_Z group_order nonce)) (Zmod.add z (Zmod.mul d r)) in
          if decide (s = Zmod.zero) then None else Some (r, s)
    end
  else None.

(** The generator of RFC 6979, 3.2, as a function of its state. *)
Definition advance (g : Rfc6979P256Sha256) : Rfc6979P256Sha256 :=
  mkGenerator (generator_k g) (hmac (generator_k g) (generator_v g)).

Definition reject (g : Rfc6979P256Sha256) : Rfc6979P256Sha256 :=
  let k := hmac (generator_k g) (generator_v g ++ [x00]) in mkGenerator k (hmac k (generator_v g)).

Definition candidate (g : Rfc6979P256Sha256) : Z := be_value 0 (generator_v (advance g)).

(** The first of [n] candidates that gives a signature. *)
Fixpoint search (n : nat) (d z : Fn) (g : Rfc6979P256Sha256) : option (Fn * Fn) :=
  match n with
  | O => None
  | S n' =>
      match signature_for d z (candidate g) with
      | Some rs => Some rs
      | None => search n' d z (reject (advance g))
      end
  end.

Definition initial_generator (d : Fn) (message : bytes) : Rfc6979P256Sha256 :=
  let data := be_bytes 32 (Zmod.to_Z d) ++ be_bytes 32 (Zmod.to_Z (hash_value message)) in
  let k := hmac (repeat x00 32) (repeat x01 32 ++ [x00] ++ data) in
  let v := hmac k (repeat x01 32) in
  let k := hmac k (v ++ [x01] ++ data) in
  mkGenerator k (hmac k v).

(** ** The generator returns *)
Record generator_ok (g : Rfc6979P256Sha256) : Prop := {
  ok_k : length (generator_k g) = 32%nat;
  ok_v : length (generator_v g) = 32%nat
}.

Lemma hmac_32 {E : Type} (k data : bytes) : length k = 32%nat -> (length data <= 97)%nat ->
  hmac_sha256 k data = Ok (hmac k data) :> res E _.
Proof.
  intros Hk Hd. unfold hmac_sha256. change (u64_max / 8) with 2305843009213693951 in *.
  rewrite hmac_spec; cbn [concat]; rewrite ?app_nil_r; [done| |];
    change (u64_max / 8) with 2305843009213693951; unfold len; lia.
Qed.

Lemma reject_ok (g : Rfc6979P256Sha256) : generator_ok (reject g).
Proof. split; apply length_hmac. Qed.

Lemma advance_ok (g : Rfc6979P256Sha256) : generator_ok g -> generator_ok (advance g).
Proof. intros [Hk _]. split; [exact Hk|apply length_hmac]. Qed.

Lemma reject_candidate_spec {E : Type} (g : Rfc6979P256Sha256) :
  generator_ok g -> reject_candidate g = Ok (reject g) :> res E _.
Proof.
  intros [Hk Hv]. unfold reject_candidate.
  rewrite copy_from_slice_Ok by (rewrite ?repeat_length; lia). cbn [res_bind].
  change (drop 32 (repeat x00 33)) with [x00]. rewrite take_0, app_nil_l, insert_app_r_alt by (rewrite Hv; lia). rewrite Hv. cbn [insert list_insert Nat.sub].
  rewrite hmac_32 by (rewrite ?length_app; cbn [length]; lia). cbn [res_bind].
  rewrite hmac_32 by (rewrite ?length_hmac; lia). done.
Qed.

Lemma order_large : 3 < group_order.
Proof. reflexivity. Qed.

Lemma value_be (bs : bytes) : length bs = 32%nat -> value (limbs_of 4 (be_value 0 bs)) = be_value 0 bs.
Proof. intros H. pose proof (be_value_range bs) as Hr. unfold len in Hr. rewrite H in Hr. by apply value_limbs_of_small. Qed.

Lemma limbs_zero_iff (l : Uint256) : limbs_ok 4 l -> l = ZERO <-> value l = 0.
Proof. intros Hl. split; [by intros ->|]. intros H. apply (value_inj 4); [done|by apply limbs_ok_eval|exact H]. Qed.

Lemma ecdsa_hash_scalar_spec {E : Type} (h : bytes) : length h = 32%nat ->
  ecdsa_hash_scalar h = Ok (encs (Zmod.of_Z group_order (be_value 0 h))) :> res E _.
Proof.
  intros Hl. unfold ecdsa_hash_scalar. rewrite from_be_bytes_spec by done. cbn [res_bind].
  rewrite scalar_new_enc by apply limbs_of_ok. by rewrite value_be.
Qed.

Lemma value_encs (s : Fn) : value (encs s) = Zmod.to_Z s.
Proof. exact (value_enc group_order P256_GROUP_ORDER order_ok order_value group_order_prime s). Qed.

Lemma to_be_bytes_encs (s : Fn) : to_be_bytes (encs s) = be_bytes 32 (Zmod.to_Z s).
Proof. rewrite to_be_bytes_spec by apply enc_ok. by rewrite value_encs. Qed.

(** Part of an array is overwritten. *)
Lemma copy_at {E : Type} (pre old post src : bytes) (i j : nat) :
  length pre = i -> length old = (j - i)%nat -> length src = (j - i)%nat -> (i <= j)%nat ->
  copy_from_slice (pre ++ old ++ post) i j src = Ok (pre ++ src ++ post) :> res E _.
Proof.
  intros Hp Ho Hs Hij. rewrite copy_from_slice_Ok by (rewrite ?length_app; lia). do 2 f_equal; [by apply take_app_length'|].
  f_equal. rewrite app_assoc. apply drop_app_length'. rewrite length_app. lia.
Qed.

Lemma copy_front {E : Type} (old post src : bytes) (j : nat) :
  length old = j -> length src = j -> copy_from_slice (old ++ post) 0 j src = Ok (src ++ post) :> res E _.
Proof. intros Ho Hs. apply (copy_at [] old post src); cbn [length]; lia. Qed.

Lemma copy_end {E : Type} (pre old src : bytes) (i j : nat) :
  length pre = i -> length old = (j - i)%nat -> length src = (j - i)%nat -> (i <= j)%nat ->
  copy_from_slice (pre ++ old) i j src = Ok (pre ++ src) :> res E _.
Proof. intros. rewrite <- (app_nil_r old), (copy_at pre old [] src) by done. by rewrite app_nil_r. Qed.

Lemma set_at (pre post : bytes) (b old : byte) (i : nat) :
  length pre = i -> <[i := b]> (pre ++ old :: post) = (pre ++ [b]) ++ post.
Proof. intros Hp. rewrite insert_app_r_alt by lia. rewrite Hp, Nat.sub_diag. by rewrite <- app_assoc. Qed.

Lemma new_generator_spec {E : Type} (d : Fn) (message : bytes) : d <> Zmod.zero ->
  new_generator (encs d) (hash message) = Ok (initial_generator d message) :> res E _.
Proof.
  intros Hd. unfold new_generator. rewrite bool_decide_false by (by rewrite scalar_zero_iff).
  rewrite ecdsa_hash_scalar_spec by apply length_hash. cbn [res_bind]. rewrite !to_be_bytes_encs. fold (hash_value message).
  set (x := be_bytes 32 (Zmod.to_Z d)). set (h := be_bytes 32 (Zmod.to_Z (hash_value message))).
  assert (Lx : length x = 32%nat) by apply length_be_bytes. assert (Lh : length h = 32%nat) by apply length_be_bytes.
  unfold initial_generator. fold x h. change (repeat x00 97) with (repeat x00 32 ++ x00 :: repeat x00 32 ++ repeat x00 32).
  assert (L0 : length (repeat x00 32) = 32%nat) by apply repeat_length. assert (L1 : length (repeat x01 32) = 32%nat) by apply repeat_length.
  set (k0 := repeat x00 32) in *. set (v0 := repeat x01 32) in *. clearbody k0 v0.
  rewrite copy_front by done. cbn [res_bind]. rewrite set_at by done.
  rewrite (copy_at (v0 ++ [x00]) k0 k0 x) by (rewrite ?length_app; cbn [length]; lia). cbn [res_bind].
  rewrite (app_assoc _ x), copy_end by (rewrite ?length_app; cbn [length]; lia). cbn [res_bind].
  rewrite <- !app_assoc. cbn [app].
  rewrite hmac_32 by (rewrite ?length_app; cbn [length]; rewrite ?length_app; lia). cbn [res_bind].
  rewrite hmac_32 by (rewrite ?length_hmac; lia). cbn [res_bind].
  set (k1 := hmac k0 _). set (v1 := hmac k1 v0). assert (Lk : length k1 = 32%nat) by apply length_hmac.
  assert (Lv : length v1 = 32%nat) by apply length_hmac. rewrite copy_front by lia. cbn [res_bind]. rewrite set_at, <- app_assoc by done. cbn [app].
  rewrite hmac_32 by (rewrite ?length_hmac, ?length_app; cbn [length]; rewrite ?length_app; lia). cbn [res_bind].
  rewrite hmac_32 by (rewrite ?length_hmac; lia). done.
Qed.

Lemma initial_generator_ok (d : Fn) (message : bytes) : generator_ok (initial_generator d message).
Proof. split; apply length_hmac. Qed.

(** ** The loops *)
Lemma signature_for_out (d z : Fn) (nonce : Z) : ~ (0 < nonce < group_order) -> signature_for d z nonce = None.
Proof. intros H. unfold signature_for. by rewrite decide_False. Qed.

Lemma search_S (n : nat) (d z : Fn) (g : Rfc6979P256Sha256) :
  search (S n) d z g = match signature_for d z (candidate g) with Some rs => Some rs | None => search n d z (reject (advance g)) end.
Proof. done. Qed.

Lemma search_mono (n k : nat) (d z : Fn) (g : Rfc6979P256Sha256) rs :
  search n d z g = Some rs -> (n <= k)%nat -> search k d z g = Some rs.
Proof.
  revert k g. induction n as [|n IH]; intros k g H Hk; [done|]. destruct k as [|k]; [lia|]. rewrite search_S in H |- *.
  destruct (signature_for d z (candidate g)); [done|]. apply IH; [done|lia].
Qed.

Lemma search_none (n k : nat) (d z : Fn) (g : Rfc6979P256Sha256) :
  search n d z g = None -> (k <= n)%nat -> search k d z g = None.
Proof.
  intros H Hk. destruct (search k d z g) as [rs|] eqn:E; [|done]. by rewrite (search_mono _ _ _ _ _ _ E Hk) in H.
Qed.

(** The next candidate in range, and that nothing before it is one. *)
Lemma next_scalar_spec {E : Type} (fuel : nat) (d z : Fn) (g : Rfc6979P256Sha256) : generator_ok g ->
  match next_scalar fuel g : res E _ with
  | Ok (c, g') => exists g0 j, g' = advance g0 /\ generator_ok g0 /\ c = limbs_of 4 (candidate g0) /\ 0 < candidate g0 < group_order /\
      forall n, search (j + n) d z g = search n d z g0
  | Fuel => search fuel d z g = None
  | Err _ | Panic => False
  end.
Proof.
  revert g. induction fuel as [|fuel IH]; intros g Hg; [done|]. cbn [next_scalar]. destruct Hg as [Hk Hv].
  rewrite hmac_32 by lia. cbn [res_bind]. pose proof (length_hmac (generator_k g) (generator_v g)) as Hl.
  rewrite from_be_bytes_spec by done. cbn [res_bind]. fold (candidate g).
  change (be_value 0 (hmac (generator_k g) (generator_v g))) with (candidate g).
  change (mkGenerator (generator_k g) (hmac (generator_k g) (generator_v g))) with (advance g).
  assert (Hc : value (limbs_of 4 (candidate g)) = candidate g) by (apply value_be; done).
  assert (H0 : 0 <= candidate g) by (rewrite <- Hc; apply (value_range 4), limbs_of_ok).
  rewrite uint_ge_spec by (apply limbs_of_ok || apply order_ok). rewrite order_value, Hc.
  rewrite (bool_decide_ext _ (candidate g = 0)) by (rewrite limbs_zero_iff by apply limbs_of_ok; by rewrite Hc).
  destruct (decide (0 < candidate g < group_order)) as [Hr|Hr].
  - rewrite bool_decide_false by lia. rewrite (proj2 (Z.leb_gt _ _)) by lia. cbn [negb andb].
    exists g, 0%nat. split_and!; [done|by split|done|lia|lia|done].
  - assert (Hb : negb (bool_decide (candidate g = 0)) && negb (group_order <=? candidate g) = false).
    { case_bool_decide; [done|]. cbn [negb andb]. apply negb_false_iff, Z.leb_le. lia. }
    rewrite Hb. rewrite reject_candidate_spec by (by apply advance_ok; split). cbn [res_bind].
    specialize (IH (reject (advance g)) (reject_ok _)). destruct (next_scalar fuel _) as [[c g']|e| |]; [|done|done|].
    + destruct IH as (g0 & j & ? & ? & ? & ? & Hs). exists g0, (S j). split_and!; [done..|lia|lia|].
      intros n. cbn [Nat.add]. rewrite search_S, signature_for_out by done. apply Hs.
    + by rewrite search_S, signature_for_out.
Qed.

Lemma nonce_encs (c : Z) : 0 <= c < group_order -> limbs_of 4 c = encs (Zmod.of_Z group_order c).
Proof. intros Hc. unfold enc. rewrite Zmod.to_Z_of_Z. by rewrite Z.mod_small. Qed.

Lemma nonce_ne (c : Z) : 0 < c < group_order -> Zmod.of_Z group_order c <> Zmod.zero.
Proof.
  intros Hc E. apply (f_equal Zmod.to_Z) in E. rewrite Zmod.to_Z_0, Zmod.to_Z_of_Z, Z.mod_small in E by lia. lia.
Qed.

Definition enc_signature (rs : Fn * Fn) : P256Signature := mkSignature (encs rs.1) (encs rs.2).

(** One turn of the signer with a nonce in range. *)
Lemma sign_turn (d z : Fn) (c : Z) (again : res P256EcdsaError P256Signature) : 0 < c < group_order ->
  (let? nonce_point := p256_generator_multiply (limbs_of 4 c) in
   match coordinates nonce_point with
   | None => again
   | Some (nonce_x, _) =>
       let? r := scalar_new nonce_x in
       if bool_decide (r = ZERO) then again
       else
         let? inverse := scalar_invert (limbs_of 4 c) in
         let? nonce_inverse := expect inverse in
         let? product := scalar_modular_multiply (encs d) r in
         let? sum := scalar_modular_add (encs z) product in
         let? s := scalar_modular_multiply nonce_inverse sum in
         if bool_decide (s = ZERO) then again else Ok (mkSignature r s)
   end) = match signature_for d z c with Some rs => Ok (enc_signature rs) | None => again end.
Proof.
  intros Hc. unfold signature_for. rewrite decide_True by done. unfold p256_generator_multiply. rewrite generator_enc.
  rewrite multiply_enc by apply limbs_of_ok. cbn [res_bind].
  assert (Hv : value (limbs_of 4 c) = c).
  { apply value_limbs_of_small. pose proof (value_range 4 _ order_ok) as Ho. rewrite order_value in Ho. lia. }
  rewrite Hv. destruct (multiple _ c gen) as [[x y]|]; cbn [enc_point option_map coordinates abscissa]; [|done].
  cbn [enc_affine affine_x fst]. rewrite scalar_new_enc by apply enc_ok. cbn [res_bind].
  rewrite (value_enc field_modulus P256_FIELD_MODULUS field_ok field_value field_modulus_prime).
  set (r := Zmod.of_Z group_order (Zmod.to_Z x)). rewrite (bool_decide_ext _ _ (scalar_zero_iff r)).
  case_bool_decide as Hr; [by rewrite (decide_True _ _ Hr)|]. rewrite (decide_False _ _ Hr).
  rewrite (nonce_encs c) by lia. rewrite scalar_invert_enc, decide_False by (by apply nonce_ne). cbn [expect res_bind].
  rewrite scalar_mul_enc. cbn [res_bind]. rewrite scalar_add_enc. cbn [res_bind]. rewrite scalar_mul_enc. cbn [res_bind]. cbv zeta.
  set (s := Zmod.mul _ (Zmod.add z _)). rewrite (bool_decide_ext _ _ (scalar_zero_iff s)).
  case_bool_decide as Hs; [by rewrite (decide_True _ _ Hs)|]. by rewrite (decide_False _ _ Hs).
Qed.

Lemma sign_loop_spec (nonce_fuel fuel : nat) (d z : Fn) (g : Rfc6979P256Sha256) : generator_ok g ->
  match sign_loop nonce_fuel fuel (encs d) (encs z) g with
  | Ok sg => exists n rs, search n d z g = Some rs /\ sg = enc_signature rs
  | Fuel => search (Nat.min nonce_fuel fuel) d z g = None
  | Err _ | Panic => False
  end.
Proof.
  revert g. induction fuel as [|fuel IH]; intros g Hg; [by rewrite Nat.min_0_r|]. cbn [sign_loop].
  pose proof (next_scalar_spec (E := P256EcdsaError) nonce_fuel d z g Hg) as Hn.
  destruct (next_scalar nonce_fuel g) as [[c g']|e| |]; cbn [res_bind]; [|done|done|].
  2: { eapply search_none; [exact Hn|lia]. }
  destruct Hn as (g0 & j & -> & Hg0 & -> & Hc & Hs). cbv zeta. rewrite sign_turn by done.
  destruct (signature_for d z (candidate g0)) as [rs|] eqn:Hsig.
  - exists (j + 1)%nat, rs. rewrite Hs, search_S, Hsig. done.
  - rewrite reject_candidate_spec by (by apply advance_ok). cbn [res_bind].
    specialize (IH (reject (advance g0)) (reject_ok _)).
    destruct (sign_loop nonce_fuel fuel _ _ _) as [sg|e| |]; [|done|done|].
    + destruct IH as (n & rs & Hn & ->). exists (j + S n)%nat, rs. rewrite Hs, search_S, Hsig. done.
    + eapply (search_none (j + S (Nat.min nonce_fuel fuel))); [|lia]. by rewrite Hs, search_S, Hsig.
Qed.

Lemma sign_spec (fuel : nat) (d : Fn) (message : bytes) : len message <= u64_max / 8 ->
  p256_ecdsa_sign_sha256 fuel (encs d) message =
    if decide (d = Zmod.zero) then Err ZeroPrivateScalar
    else sign_loop fuel fuel (encs d) (encs (hash_value message)) (initial_generator d message).
Proof.
  intros Hm. unfold p256_ecdsa_sign_sha256. rewrite (bool_decide_ext _ _ (scalar_zero_iff d)).
  case_bool_decide as Hd; [by rewrite (decide_True _ _ Hd)|]. rewrite (decide_False _ _ Hd).
  rewrite sha256_spec, digest_hash by done. cbn [res_bind]. rewrite ecdsa_hash_scalar_spec by apply length_hash. cbn [res_bind].
  rewrite new_generator_spec by done. done.
Qed.

(** ** What signing and verifying do *)
Lemma signature_for_Some (d z r s : Fn) (nonce : Z) : signature_for d z nonce = Some (r, s) ->
  0 < nonce < group_order /\ abscissa (multiple _ nonce gen) = Some r /\ r <> Zmod.zero /\ s <> Zmod.zero /\
  Zmod.mul s (Zmod.of_Z group_order nonce) = Zmod.add z (Zmod.mul d r).
Proof.
  unfold signature_for. destruct (decide (0 < nonce < group_order)) as [Hn|]; [|done].
  destruct (abscissa _) as [r'|] eqn:Ha; [|done]. destruct (decide (r' = _)) as [|Hr]; [done|]. cbv zeta.
  destruct (decide (Zmod.mul _ _ = _)) as [|Hs]; [done|]. intros E. apply Some_inj in E.
  pose proof (f_equal fst E) as E1. pose proof (f_equal snd E) as E2. cbn [fst snd] in E1, E2. subst r' s.
  split_and!; [lia|lia|done|exact Hr|exact Hs|].
  rewrite Zmod.mul_comm, Zmod.mul_assoc.
  rewrite (Zmod.mul_inv_same_r_prime _ group_order_prime (nonce_ne nonce Hn)). apply Zmod.mul_1_l.
Qed.

Lemma search_nonce (n : nat) (d z : Fn) (g : Rfc6979P256Sha256) rs :
  search n d z g = Some rs -> exists nonce, signature_for d z nonce = Some rs.
Proof.
  revert g. induction n as [|n IH]; intros g; [done|]. rewrite search_S. destruct (signature_for d z (candidate g)) as [rs'|] eqn:E.
  - intros [= ->]. by exists (candidate g).
  - apply IH.
Qed.

(** C27: a signature is made from the first nonce of RFC 6979's sequence that gives one: with enough fuel for
    that nonce the signer returns it; without, it only runs out of fuel, and it never panics. Its components
    are not zero and satisfy the signature equation [s k = z + r d] for a nonce [k] and the abscissa [r] of
    [k G]. A zero key is refused. *)
Theorem ecdsa_sign_correct (fuel : nat) (d : Fn) (message : bytes) : len message <= u64_max / 8 ->
  let g := initial_generator d message in
  let z := hash_value message in
  match p256_ecdsa_sign_sha256 fuel (encs d) message with
  | Ok sg => d <> Zmod.zero /\ exists n r s nonce, search n d z g = Some (r, s) /\ sg = mkSignature (encs r) (encs s) /\
               0 < nonce < group_order /\ abscissa (multiple _ nonce gen) = Some r /\ r <> Zmod.zero /\ s <> Zmod.zero /\
               Zmod.mul s (Zmod.of_Z group_order nonce) = Zmod.add z (Zmod.mul d r)
  | Err e => e = ZeroPrivateScalar /\ d = Zmod.zero
  | Fuel => d <> Zmod.zero /\ search fuel d z g = None
  | Panic => False
  end /\
  (forall n r s, d <> Zmod.zero -> search n d z g = Some (r, s) -> (n <= fuel)%nat ->
     p256_ecdsa_sign_sha256 fuel (encs d) message = Ok (mkSignature (encs r) (encs s))).
Proof.
  intros Hm g z. rewrite sign_spec by done. destruct (decide (d = Zmod.zero)) as [->|Hd]; [by split|].
  pose proof (sign_loop_spec fuel fuel d z g (initial_generator_ok d message)) as H. fold z g. split.
  - destruct (sign_loop fuel fuel _ _ g) as [sg|e| |]; [|done|done|by rewrite Nat.min_id in H].
    destruct H as (n & [r s] & Hs & ->). split; [done|]. destruct (search_nonce _ _ _ _ _ Hs) as (nonce & Hn).
    destruct (signature_for_Some _ _ _ _ _ Hn) as (H1 & H2 & H3 & H4 & H5). by exists n, r, s, nonce.
  - intros n r s _ Hs Hn. destruct (sign_loop fuel fuel _ _ g) as [sg|e| |]; [|done|done|].
    + destruct H as (k & rs & Hk & ->). f_equal. assert (rs = (r, s)) as ->; [|done].
      destruct (Nat.le_ge_cases k n) as [L|L]; [|by rewrite (search_mono _ _ _ _ _ _ Hs L) in Hk; simplify_eq].
      rewrite (search_mono _ _ _ _ _ _ Hk L) in Hs. by simplify_eq.
    + rewrite Nat.min_id in H. by rewrite (search_mono _ _ _ _ _ _ Hs Hn) in H.
Qed.

Lemma ecdsa_sign_correct_witness :
  match p256_ecdsa_sign_sha256 2 (encs Zmod.one) (str "m") with
  | Ok sg => exists n r s, search n Zmod.one (hash_value (str "m")) (initial_generator Zmod.one (str "m")) = Some (r, s) /\
               sg = mkSignature (encs r) (encs s)
  | Fuel => search 2 Zmod.one (hash_value (str "m")) (initial_generator Zmod.one (str "m")) = None
  | _ => False
  end.
Proof.
  destruct (ecdsa_sign_correct 2 Zmod.one (str "m")) as [H _]; [vm_compute; discriminate|]. cbv zeta in H.
  destruct (p256_ecdsa_sign_sha256 2 _ _) as [sg|e| |].
  - destruct H as (_ & n & r & s & nonce & Hs & Hsg & _). exists n, r, s. split; [exact Hs|exact Hsg].
  - destruct H as [_ H]. exact (one_ne group_order order_large H).
  - exact H.
  - exact (proj2 H).
Defined.

(** Components are accepted exactly when both are in [1, n-1]; verifying such a signature under a point
    of the curve returns, and says whether the abscissa of [(z/s) G + (r/s) Q], modulo the order, is [r]; it
    is never true for the identity. *)
Theorem ecdsa_verify_correct {E : Type} (q : curve_point) (message : bytes) (r s : Uint256) :
  len message <= u64_max / 8 -> limbs_ok 4 r -> limbs_ok 4 s ->
  match from_components r s with
  | Ok sg =>
      0 < value r < group_order /\ 0 < value s < group_order /\ components sg = (r, s) /\
      exists b, p256_ecdsa_verify_sha256 (enc_point q) message sg = Ok b :> res E _ /\
        let w := Zmod.inv (Zmod.of_Z group_order (value s)) in
        let u1 := Zmod.mul (hash_value message) w in
        let u2 := Zmod.mul (Zmod.of_Z group_order (value r)) w in
        (b = true <-> q <> None /\
           abscissa (add_points _ (multiple _ (Zmod.to_Z u1) gen) (multiple _ (Zmod.to_Z u2) q)) =
             Some (Zmod.of_Z group_order (value r)))
  | Err InvalidR => value r = 0 \/ group_order <= value r
  | Err InvalidS => 0 < value r < group_order /\ (value s = 0 \/ group_order <= value s)
  | Err ZeroPrivateScalar | Panic | Fuel => False
  end.
Proof.
  intros Hm Hr Hs. unfold from_components. pose proof (value_range 4 r Hr). pose proof (value_range 4 s Hs).
  rewrite !uint_ge_spec by (done || apply order_ok). rewrite order_value.
  rewrite (bool_decide_ext _ _ (limbs_zero_iff r Hr)), (bool_decide_ext _ _ (limbs_zero_iff s Hs)).
  case_bool_decide; [by left|]. destruct (Z.leb_spec group_order (value r)); [by right|].
  case_bool_decide; [split; [lia|by left]|]. destruct (Z.leb_spec group_order (value s)); [split; [lia|by right]|]. cbn [orb].
  split; [lia|]. split; [lia|]. split; [done|]. unfold p256_ecdsa_verify_sha256. cbn [sig_r sig_s]. cbv zeta.
  destruct q as [q|]; [|exists false; split; [done|]; split; [done|]; by intros [H' _]]. cbn [point_is_identity enc_point option_map].
  assert (Es : s = encs (Zmod.of_Z group_order (value s))) by (apply (enc_of group_order P256_GROUP_ORDER order_value s Hs); lia).
  assert (Er : r = encs (Zmod.of_Z group_order (value r))) by (apply (enc_of group_order P256_GROUP_ORDER order_value r Hr); lia).
  assert (Ns : Zmod.of_Z group_order (value s) <> Zmod.zero) by (apply nonce_ne; lia).
  set (s' := Zmod.of_Z group_order (value s)) in *. set (r' := Zmod.of_Z group_order (value r)) in *. clearbody s' r'. rewrite Es, Er.
  rewrite scalar_invert_enc, decide_False by exact Ns. cbn [expect res_bind]. rewrite sha256_spec, digest_hash by done. cbn [res_bind].
  rewrite ecdsa_hash_scalar_spec by apply length_hash. cbn [res_bind]. fold (hash_value message).
  rewrite !scalar_mul_enc. cbn [res_bind].
  set (u1 := Zmod.mul (hash_value message) _). set (u2 := Zmod.mul r' _).
  unfold p256_generator_multiply. rewrite generator_enc, multiply_enc by apply enc_ok. cbn [res_bind].
  change (Some (enc_affine q)) with (enc_point (Some q)). rewrite multiply_enc by apply enc_ok. cbn [res_bind].
  rewrite add_point_enc. cbn [res_bind]. rewrite !value_encs.
  destruct (add_points _ _ _) as [[x y]|]; cbn [enc_point option_map coordinates abscissa enc_affine affine_x fst].
  - rewrite scalar_new_enc by apply enc_ok. cbn [res_bind].
    rewrite (value_enc field_modulus P256_FIELD_MODULUS field_ok field_value field_modulus_prime).
    eexists. split; [reflexivity|]. rewrite bool_decide_eq_true, scalar_enc_inj. split; [intros ->; done|]. intros [_ H']. by apply Some_inj in H'.
  - exists false. split; [done|]. split; [done|]. by intros [_ ?].
Qed.

Lemma ecdsa_verify_correct_witness :
  exists sg b, from_components ONE ONE = Ok sg /\ p256_ecdsa_verify_sha256 (E := unit) generator (str "m") sg = Ok b.
Proof.
  pose proof (ecdsa_verify_correct (E := unit) gen (str "m") ONE ONE ltac:(vm_compute; discriminate) (limbs_of_ok 4 1) (limbs_of_ok 4 1)) as H.
  rewrite <- generator_enc in H. destruct (from_components ONE ONE) as [sg|[]| |].
  - destruct H as (_ & _ & _ & b & Hb & _). exists sg, b. split; [reflexivity|exact Hb].
  - destruct H.
  - destruct H as [H|H]; [discriminate H|]. exfalso. apply H. reflexivity.
  - destruct H as [_ [H|H]]; [discriminate H|]. exfalso. apply H. reflexivity.
  - destruct H.
  - destruct H.
Defined.
