(* ===== verification/Der.v ===== *)
(** * DER values: [src/asn1.rs]

    The bounded reader of tag-length-value encodings, and the encoders. A reader is its input and
    a position in it; a reading operation gives what it read and the reader after it (the code
    never goes on with a reader that failed). *)
From Stdlib Require Import ZArith Lia.
From stdpp Require Import prelude sorting.
From S2P Require Import Prelude Bytes Sha256 Encoding.
Local Open Scope Z_scope.
Set Warnings "-clear-no-such-hyp".

(** ** Tags and errors *)
Definition DER_TAG_BOOLEAN : byte := x01.
Definition DER_TAG_INTEGER : byte := x02.
Definition DER_TAG_BIT_STRING : byte := x03.
Definition DER_TAG_OCTET_STRING : byte := x04.
Definition DER_TAG_OBJECT_IDENTIFIER : byte := x06.
Definition DER_TAG_UTC_TIME : byte := x17.
Definition DER_TAG_GENERALIZED_TIME : byte := x18.
Definition DER_TAG_SEQUENCE : byte := x30.
Definition DER_TAG_SET : byte := x31.
Definition DER_CONTEXT_SPECIFIC_CLASS : Z := 0x80.
Definition DER_CONSTRUCTED_BIT : Z := 0x20.
Definition DER_HIGH_TAG_NUMBER : Z := 0x1f.

Inductive DerError : Type :=
| Truncated
| IndefiniteLength
| NonCanonicalLength
| LengthOverflow
| HighTagNumberUnsupported (tag : byte)
| UnexpectedTag (expected actual : byte)
| InvalidInteger
| InvalidObjectIdentifier
| InvalidContextTag (tag_number : Z)
| TrailingData (length : nat)
| InvalidPemLabel
| PemBeginMissing
| PemEndMissing
| PemLabelMismatch
| InvalidPemBase64
| InvalidP256PrivateKey
| InvalidP256PublicKey
| InvalidDnsName
| InvalidCertificate
| InvalidTime.

Definition der_error_to_string (e : DerError) : bytes :=
  match e with
  | Truncated => str "truncated DER value"
  | IndefiniteLength => str "indefinite ASN.1 length is not permitted in DER"
  | NonCanonicalLength => str "ASN.1 length is not minimally encoded for DER"
  | LengthOverflow => str "ASN.1 length exceeds the supported address space"
  | HighTagNumberUnsupported tag => str "ASN.1 high-tag-number form is unsupported for tag 0x" ++ hex_byte tag
  | UnexpectedTag expected actual => str "unexpected ASN.1 tag 0x" ++ hex_byte actual ++ str "; expected 0x" ++ hex_byte expected
  | InvalidInteger => str "ASN.1 INTEGER is invalid or non-canonical"
  | InvalidObjectIdentifier => str "ASN.1 OBJECT IDENTIFIER is invalid"
  | InvalidContextTag tag_number =>
      str "ASN.1 context-specific tag " ++ to_dec tag_number ++ str " requires unsupported high-tag-number encoding"
  | TrailingData length => to_dec (Z.of_nat length) ++ str " trailing byte(s) remain after DER parsing"
  | InvalidPemLabel => str "invalid RFC 7468 textual encoding label"
  | PemBeginMissing => str "RFC 7468 begin boundary was not found"
  | PemEndMissing => str "RFC 7468 end boundary was not found"
  | PemLabelMismatch => str "RFC 7468 begin and end labels do not match"
  | InvalidPemBase64 => str "invalid Base64 inside RFC 7468 textual encoding"
  | InvalidP256PrivateKey => str "P-256 private key cannot be zero"
  | InvalidP256PublicKey => str "P-256 public key cannot be the identity point"
  | InvalidDnsName => str "invalid DNS name for subjectAltName"
  | InvalidCertificate => str "invalid or unsupported X.509 certificate structure"
  | InvalidTime => str "invalid X.509 certificate validity time"
  end.

(** ** The reader *)
Record DerValue : Type := mkDerValue { tag : byte; content : bytes }.
Record DerReader : Type := mkReader { reader_input : bytes; reader_position : nat }.

Definition new_reader (input : bytes) : DerReader := mkReader input 0.
Definition reader (v : DerValue) : DerReader := new_reader (content v).

Definition is_empty (r : DerReader) : bool := (reader_position r =? length (reader_input r))%nat.

Definition remaining {E : Type} (r : DerReader) : res E nat :=
  if (reader_position r <=? length (reader_input r))%nat then Ok (length (reader_input r) - reader_position r)%nat else Panic.

Definition finish (r : DerReader) : res DerError unit :=
  if (reader_position r =? length (reader_input r))%nat then Ok tt
  else let? n := remaining r in Err (TrailingData n).

Definition take_byte (r : DerReader) : res DerError (byte * DerReader) :=
  match reader_input r !! reader_position r with
  | None => Err Truncated
  | Some b => Ok (b, mkReader (reader_input r) (reader_position r + 1))
  end.

(** One octet of a long length. *)
Definition length_octet (s : Z * DerReader) (_ : nat) : res DerError (Z * DerReader) :=
  let '(length, r) := s in
  let? b := index (reader_input r) (reader_position r) in
  let? length := ok_or (match checked_mul usize_max length 256 with
                        | Some v => checked_add usize_max v (u8 b)
                        | None => None
                        end) LengthOverflow in
  Ok (length, mkReader (reader_input r) (reader_position r + 1)).

Definition read_length (r : DerReader) : res DerError (Z * DerReader) :=
  let? (first, r) := take_byte r in
  if Z.land (u8 first) 0x80 =? 0 then Ok (u8 first, r)
  else
    let count := Z.land (u8 first) 0x7f in
    if count =? 0 then Err IndefiniteLength
    else if 8 <? count then Err LengthOverflow
    else
      let? left_over := remaining r in
      if (left_over <? Z.to_nat count)%nat then Err Truncated
      else
        let? b := index (reader_input r) (reader_position r) in
        if u8 b =? 0 then Err NonCanonicalLength
        else
          let? (length, r) := res_foldM length_octet (0, r) (seq 0 (Z.to_nat count)) in
          if length <? 128 then Err NonCanonicalLength else Ok (length, r).

Definition read_tlv (r : DerReader) : res DerError (DerValue * DerReader) :=
  let? (tag, r) := take_byte r in
  if Z.land (u8 tag) DER_HIGH_TAG_NUMBER =? DER_HIGH_TAG_NUMBER then Err (HighTagNumberUnsupported tag)
  else
    let? (length, r) := read_length r in
    let? stop := ok_or (checked_add usize_max (Z.of_nat (reader_position r)) length) LengthOverflow in
    if len (reader_input r) <? stop then Err Truncated
    else
      let? content := slice (reader_input r) (reader_position r) (Z.to_nat stop) in
      Ok (mkDerValue tag content, mkReader (reader_input r) (Z.to_nat stop)).

Definition read_expected (expected_tag : byte) (r : DerReader) : res DerError (DerValue * DerReader) :=
  let? (value, r) := read_tlv r in
  if negb (byte_eqb (tag value) expected_tag) then Err (UnexpectedTag expected_tag (tag value)) else Ok (value, r).

Definition high_bit (b : byte) : bool := negb (Z.land (u8 b) 0x80 =? 0).

Definition read_integer_unsigned (r : DerReader) : res DerError (bytes * DerReader) :=
  let? (value, r) := read_expected DER_TAG_INTEGER r in
  let content := content value in
  if bool_decide (content = []) then Err InvalidInteger
  else
    let? first := index content 0 in
    if high_bit first then Err InvalidInteger
    else
      let? padded :=
        if (1 <? length content)%nat && (u8 first =? 0) then let? second := index content 1 in Ok (negb (high_bit second))
        else Ok false in
      if padded : bool then Err InvalidInteger
      else if (1 <? length content)%nat && (u8 first =? 0)
           then let? significant := slice_from content 1 in Ok (significant, r)
           else Ok (content, r).

(** ** The encoders *)
Definition push_der_length {E : Type} (output : bytes) (length : Z) : res E bytes :=
  if length <? 128 then let? b := try_from u8_max length in Ok (output ++ [of_u8 b])
  else
    let bs := be_bytes 8 length in
    let? first_nonzero := expect (position (fun b => negb (u8 b =? 0)) bs) in
    let? significant := slice_from bs first_nonzero in
    let? count := try_from u8_max (len significant) in
    Ok (output ++ [of_u8 (Z.lor 0x80 count)] ++ significant).

Definition der_wrap {E : Type} (tag : byte) (content : bytes) : res E bytes :=
  let? output := push_der_length [tag] (len content) in Ok (output ++ content).

Definition der_integer_unsigned {E : Type} (value : bytes) : res E bytes :=
  let first_significant := default (length value) (position (fun b => negb (u8 b =? 0)) value) in
  let? content :=
    if (first_significant =? length value)%nat then Ok [x00]
    else
      let? significant := slice_from value first_significant in
      let? first := index significant 0 in
      Ok ((if high_bit first then [x00] else []) ++ significant) in
  der_wrap DER_TAG_INTEGER content.

Definition der_sequence {E : Type} (elements : list bytes) : res E bytes := der_wrap DER_TAG_SEQUENCE (concat elements).

(** The order of byte vectors in Rust. *)
Fixpoint bytes_le (a b : bytes) : Prop :=
  match a, b with
  | [], _ => True
  | _ :: _, [] => False
  | x :: a', y :: b' => u8 x < u8 y \/ (u8 x = u8 y /\ bytes_le a' b')
  end.

#[global] Instance bytes_le_dec : RelDecision bytes_le.
Proof.
  intros a. induction a as [|x a IH]; intros [|y b]; cbn [bytes_le]; [left; exact I|left; exact I|right; tauto|].
  destruct (IH b); solve_decision.
Defined.

Definition der_set_content (elements : list bytes) : bytes := concat (merge_sort bytes_le elements).
Definition der_set {E : Type} (elements : list bytes) : res E bytes := der_wrap DER_TAG_SET (der_set_content elements).

(** The digits of [value] in base 128, from the end of a buffer of ten octets. *)
Fixpoint base128_loop {E : Type} (fuel : nat) (bs : bytes) (index : nat) (value : Z) : res E (bytes * nat) :=
  match fuel with
  | O => Fuel
  | S fuel' =>
      match index with
      | O => Panic
      | S index =>
          let? digit := try_from u8_max (Z.land value 0x7f) in
          let bs := <[index := of_u8 digit]> bs in
          let value := Z.shiftr value 7 in
          if value =? 0 then Ok (bs, index) else base128_loop fuel' bs index value
      end
  end.

Definition push_base128 {E : Type} (output : bytes) (value : Z) : res E bytes :=
  let? (bs, first) := base128_loop 11 (repeat x00 10) 10 value in
  res_foldM (fun output position =>
    let? b := index bs position in
    let b := if negb (position + 1 =? length bs)%nat then of_u8 (Z.lor (u8 b) 0x80) else b in
    Ok (output ++ [b])) output (seq first (length bs - first)).

Definition der_object_identifier (arcs : list Z) : res DerError bytes :=
  if (length arcs <? 2)%nat then Err InvalidObjectIdentifier
  else
    let? first := index arcs 0 in
    let? second := index arcs 1 in
    if 2 <? first then Err InvalidObjectIdentifier
    else if (first <? 2) && (39 <? second) then Err InvalidObjectIdentifier
    else
      let? first_subidentifier :=
        if first <? 2 then Ok (first * 40 + second)
        else ok_or (checked_add u64_max second 80) InvalidObjectIdentifier in
      let? content := push_base128 [] first_subidentifier in
      let? rest := slice_from arcs 2 in
      let? content := res_foldM push_base128 content rest in
      der_wrap DER_TAG_OBJECT_IDENTIFIER content.

Definition der_bit_string {E : Type} (bs : bytes) : res E bytes := der_wrap DER_TAG_BIT_STRING (x00 :: bs).
Definition der_octet_string {E : Type} (bs : bytes) : res E bytes := der_wrap DER_TAG_OCTET_STRING bs.

Definition der_context_specific (tag_number : Z) (constructed : bool) (content : bytes) : res DerError bytes :=
  if DER_HIGH_TAG_NUMBER <=? tag_number then Err (InvalidContextTag tag_number)
  else
    let tag := Z.lor DER_CONTEXT_SPECIFIC_CLASS tag_number in
    let tag := if constructed then Z.lor tag DER_CONSTRUCTED_BIT else tag in
    der_wrap (of_u8 tag) content.

(** ** Encodings as values *)
Definition drop_zeros (bs : bytes) : bytes := drop_while (fun b => u8 b =? 0) bs.

Definition der_length (n : Z) : bytes :=
  if n <? 128 then [of_u8 n] else let octets := drop_zeros (be_bytes 8 n) in of_u8 (128 + len octets) :: octets.

Definition tlv (t : byte) (c : bytes) : bytes := t :: der_length (len c) ++ c.

(** The identifier is one octet: the number of the tag is below 31. *)
Definition low_tag (t : byte) : Prop := Z.land (u8 t) 31 <> 31.

Lemma drop_zeros_split (bs : bytes) : exists k, bs = repeat x00 k ++ drop_zeros bs.
Proof.
  induction bs as [|b bs [k IH]]; [by exists 0%nat|]. unfold drop_zeros in *. cbn [drop_while].
  destruct (Z.eqb_spec (u8 b) 0) as [Hb|Hb]; [|by exists 0%nat]. exists (S k). cbn [repeat app]. rewrite <- IH. f_equal.
  apply u8_inj. by rewrite Hb.
Qed.

Lemma drop_zeros_head (bs rest : bytes) (b : byte) : drop_zeros bs = b :: rest -> u8 b <> 0.
Proof.
  induction bs as [|c bs IH]; [done|]. unfold drop_zeros in *. cbn [drop_while]. destruct (Z.eqb_spec (u8 c) 0); [done|]. by intros [= -> _].
Qed.

Lemma drop_zeros_ne (b : byte) (bs : bytes) : u8 b <> 0 -> drop_zeros (b :: bs) = b :: bs.
Proof. intros Hb. unfold drop_zeros. cbn [drop_while]. by rewrite (proj2 (Z.eqb_neq _ _) Hb). Qed.

Lemma drop_zeros_repeat (k : nat) (bs : bytes) : drop_zeros (repeat x00 k ++ bs) = drop_zeros bs.
Proof. induction k as [|k IH]; [done|exact IH]. Qed.

Lemma be_value_zeros (k : nat) (bs : bytes) : be_value 0 (repeat x00 k ++ bs) = be_value 0 bs.
Proof. induction k as [|k IH]; [done|exact IH]. Qed.

(** The octets of a number without leading zeros. *)
Lemma drop_zeros_be_bytes (n : nat) (b : byte) (bs : bytes) :
  u8 b <> 0 -> (length (b :: bs) <= n)%nat -> drop_zeros (be_bytes n (be_value 0 (b :: bs))) = b :: bs.
Proof.
  intros Hb Hn. set (l := b :: bs) in *. set (k := (n - length l)%nat).
  assert (Hl : length (repeat x00 k ++ l) = n) by (rewrite length_app, repeat_length; lia).
  rewrite <- (be_value_zeros k l), <- Hl, be_bytes_be_value, drop_zeros_repeat. by apply drop_zeros_ne.
Qed.

Lemma be_value_drop_zeros (bs : bytes) : be_value 0 (drop_zeros bs) = be_value 0 bs.
Proof. destruct (drop_zeros_split bs) as [k Hk]. rewrite Hk at 2. by rewrite be_value_zeros. Qed.

Lemma length_drop_zeros (bs : bytes) : (length (drop_zeros bs) <= length bs)%nat.
Proof. destruct (drop_zeros_split bs) as [k Hk]. rewrite Hk at 2. rewrite length_app. lia. Qed.

(** The position of the first octet that is not zero. *)
Lemma first_nonzero (bs : bytes) :
  match position (fun b => negb (u8 b =? 0)) bs with
  | Some i => (i < length bs)%nat /\ drop i bs = drop_zeros bs /\ drop_zeros bs <> []
  | None => drop_zeros bs = [] /\ bs = repeat x00 (length bs)
  end.
Proof.
  induction bs as [|b bs IH]; [done|]. unfold drop_zeros in *. cbn [position drop_while]. destruct (Z.eqb_spec (u8 b) 0) as [Hb|Hb]; cbn [negb].
  - assert (b = x00) as -> by (apply u8_inj; by rewrite Hb). destruct (position _ bs) as [i|]; cbn [option_map length drop repeat].
    + destruct IH as (? & ? & ?). split_and!; [lia|done|done].
    + destruct IH as (? & IH). split; [done|]. by rewrite <- IH.
  - cbn [drop length]. split_and!; [lia|done|done].
Qed.

Lemma octets_8 (n : Z) : 128 <= n <= usize_max -> exists b bs, drop_zeros (be_bytes 8 n) = b :: bs /\ u8 b <> 0 /\
  be_value 0 (b :: bs) = n /\ (length (b :: bs) <= 8)%nat.
Proof.
  intros Hn. pose proof (be_value_drop_zeros (be_bytes 8 n)) as Hv. rewrite be_value_be_bytes, Z.mod_small in Hv
    by (change (256 ^ Z.of_nat 8) with (usize_max + 1); lia).
  pose proof (length_drop_zeros (be_bytes 8 n)) as Hl. rewrite length_be_bytes in Hl.
  destruct (drop_zeros (be_bytes 8 n)) as [|b bs] eqn:E; [cbn in Hv; lia|]. exists b, bs.
  split_and!; [done|by eapply drop_zeros_head|done|done].
Qed.

Lemma push_der_length_spec {E : Type} (output : bytes) (n : Z) : 0 <= n <= usize_max ->
  push_der_length output n = Ok (output ++ der_length n) :> res E _.
Proof.
  intros Hn. unfold push_der_length, der_length. destruct (Z.ltb_spec n 128) as [Hs|Hs].
  - unfold try_from. by rewrite (proj2 (Z.leb_le _ _)) by (unfold u8_max; lia).
  - destruct (octets_8 n) as (b & bs & Hd & Hb & Hv & Hl); [lia|]. pose proof (first_nonzero (be_bytes 8 n)) as Hp.
    destruct (position _ _) as [i|]; [|destruct Hp as [Hp _]; congruence]. destruct Hp as (Hi & Hdr & _). cbn [expect res_bind].
    rewrite slice_from_Ok by lia. cbn [res_bind]. rewrite Hdr, Hd. unfold try_from.
    rewrite (proj2 (Z.leb_le _ _)) by (unfold u8_max, len; lia). cbn [res_bind app]. do 4 f_equal.
    replace 128 with (1 * 2 ^ 7) by done. apply lor_mul_add; [lia|]. unfold len. change (2 ^ 7) with 128. lia.
Qed.

Lemma der_wrap_spec {E : Type} (t : byte) (c : bytes) : len c <= usize_max -> der_wrap t c = Ok (tlv t c) :> res E _.
Proof.
  intros Hc. unfold der_wrap. rewrite push_der_length_spec by (split; [apply len_nonneg|exact Hc]). cbn [res_bind].
  unfold tlv. by rewrite <- app_assoc.
Qed.

(** ** What the reader reads *)
Definition unread (r : DerReader) : bytes := drop (reader_position r) (reader_input r).
Definition advance (n : nat) (r : DerReader) : DerReader := mkReader (reader_input r) (reader_position r + n).

(** The position is in the input, which fits the address space. *)
Record reader_ok (r : DerReader) : Prop := {
  ok_position : (reader_position r <= length (reader_input r))%nat;
  ok_input : len (reader_input r) <= usize_max
}.

Lemma unread_advance (n : nat) (r : DerReader) : unread (advance n r) = drop n (unread r).
Proof. unfold unread, advance. cbn. by rewrite drop_drop. Qed.

Lemma unread_advance_app (bs rest : bytes) (r : DerReader) : unread r = bs ++ rest -> unread (advance (length bs) r) = rest.
Proof. intros H. rewrite unread_advance, H. apply drop_app_length. Qed.

Lemma length_unread (r : DerReader) : length (unread r) = (length (reader_input r) - reader_position r)%nat.
Proof. apply length_drop. Qed.

Lemma reader_advance_ok (n : nat) (r : DerReader) : reader_ok r -> (n <= length (unread r))%nat -> reader_ok (advance n r).
Proof. intros [Hp Hi]. rewrite length_unread. split; cbn; [lia|done]. Qed.

Lemma advance_advance (n k : nat) (r : DerReader) : advance k (advance n r) = advance (n + k) r.
Proof. unfold advance. cbn. f_equal. lia. Qed.

Lemma lookup_unread (r : DerReader) : reader_input r !! reader_position r = head (unread r).
Proof. unfold unread. by rewrite <- (Nat.add_0_r (reader_position r)), <- lookup_drop, Nat.add_0_r, head_lookup. Qed.

Lemma take_byte_spec (r : DerReader) :
  take_byte r = match unread r with [] => Err Truncated | b :: _ => Ok (b, advance 1 r) end.
Proof. unfold take_byte. rewrite lookup_unread. by destruct (unread r). Qed.

Lemma remaining_spec {E : Type} (r : DerReader) : reader_ok r -> remaining r = Ok (length (unread r)) :> res E _.
Proof. intros [Hp _]. unfold remaining. rewrite (proj2 (Nat.leb_le _ _) Hp). by rewrite length_unread. Qed.

Lemma be_value_mono (acc : Z) (bs : bytes) : 0 <= acc -> acc <= be_value acc bs.
Proof.
  intros Ha. rewrite be_value_acc. pose proof (be_value_range bs). assert (1 <= 256 ^ len bs); [|nia].
  apply Z.pow_le_mono_r with (b := 0) (a := 256); [lia|apply len_nonneg].
Qed.

Lemma length_octets_spec (bs rest : bytes) (l : list nat) (acc : Z) (r : DerReader) :
  unread r = bs ++ rest -> length l = length bs -> 0 <= acc -> be_value acc bs <= usize_max ->
  res_foldM length_octet (acc, r) l = Ok (be_value acc bs, advance (length bs) r).
Proof.
  revert l acc r. induction bs as [|b bs IH]; intros [|i l] acc r Hr Hl Ha Hv; try done.
  { cbn. unfold advance. rewrite Nat.add_0_r. by destruct r. }
  cbn [res_foldM length_octet be_value] in *. pose proof (u8_range b). unfold index. rewrite lookup_unread, Hr. cbn [app head expect res_bind].
  pose proof (be_value_mono (acc * 256 + u8 b) bs ltac:(lia)). unfold checked_mul, checked_add.
  rewrite !(proj2 (Z.leb_le _ _)) by lia. cbn [ok_or res_bind]. fold (advance 1 r).
  rewrite IH; [|by apply (unread_advance_app [b])|by injection Hl|lia|done]. rewrite advance_advance. done.
Qed.

Lemma high_bit_spec (b : byte) : (Z.land (u8 b) 128 =? 0) = (u8 b <? 128).
Proof. by destruct b. Qed.

Lemma low_bits_spec (b : byte) : Z.land (u8 b) 127 = u8 b mod 128.
Proof. apply (land_mask (u8 b) 7). lia. Qed.

Lemma read_length_short (b : byte) (rest : bytes) (r : DerReader) :
  unread r = b :: rest -> u8 b < 128 -> read_length r = Ok (u8 b, advance 1 r).
Proof.
  intros Hr Hb. unfold read_length. rewrite take_byte_spec, Hr. cbn [res_bind]. by rewrite high_bit_spec, (proj2 (Z.ltb_lt _ _) Hb).
Qed.

Lemma read_length_long (b c : byte) (bs rest : bytes) (r : DerReader) : reader_ok r ->
  unread r = b :: (c :: bs) ++ rest -> u8 b = 128 + len (c :: bs) -> (length (c :: bs) <= 8)%nat -> u8 c <> 0 ->
  read_length r = if be_value 0 (c :: bs) <? 128 then Err NonCanonicalLength
                  else Ok (be_value 0 (c :: bs), advance (1 + length (c :: bs)) r).
Proof.
  intros Hok Hr Hb Hl Hc. unfold read_length. rewrite take_byte_spec, Hr. cbn [res_bind]. rewrite high_bit_spec, low_bits_spec, Hb.
  unfold len. rewrite (proj2 (Z.ltb_ge _ _)) by lia. replace ((128 + Z.of_nat (length (c :: bs))) mod 128) with (Z.of_nat (length (c :: bs)))
    by (rewrite Z.add_mod, Z.mod_same, Z.add_0_l, !Z.mod_mod, Z.mod_small by lia; done).
  rewrite (proj2 (Z.eqb_neq _ _)) by (cbn [length]; lia). rewrite (proj2 (Z.ltb_ge _ _)) by lia. rewrite Nat2Z.id.
  assert (Hr1 : unread (advance 1 r) = (c :: bs) ++ rest) by (by apply (unread_advance_app [b])).
  assert (Hok1 : reader_ok (advance 1 r)) by (apply reader_advance_ok; [done|rewrite Hr; cbn [length]; lia]).
  rewrite remaining_spec by done. cbn [res_bind]. rewrite Hr1, length_app, (proj2 (Nat.ltb_ge _ _)) by lia.
  unfold index. rewrite lookup_unread, Hr1. cbn [app head expect res_bind]. rewrite (proj2 (Z.eqb_neq _ _) Hc).
  pose proof (be_value_range (c :: bs)) as Hv.
  assert (Hmax : be_value 0 (c :: bs) <= usize_max).
  { assert (256 ^ len (c :: bs) <= 256 ^ 8) by (apply Z.pow_le_mono_r; unfold len; lia). unfold usize_max, u64_max. lia. }
  rewrite (length_octets_spec (c :: bs) rest) by (done || lia || apply length_seq). cbn [res_bind].
  by rewrite advance_advance.
Qed.

Lemma read_length_complete (n : Z) (rest : bytes) (r : DerReader) : reader_ok r -> 0 <= n <= usize_max ->
  unread r = der_length n ++ rest -> read_length r = Ok (n, advance (length (der_length n)) r).
Proof.
  intros Hok Hn. unfold der_length. destruct (Z.ltb_spec n 128) as [Hs|Hs].
  - intros Hr. rewrite (read_length_short (of_u8 n) rest) by (done || (rewrite u8_of_u8; lia)). by rewrite u8_of_u8 by lia.
  - destruct (octets_8 n) as (c & bs & Hd & Hc & Hv & Hl); [lia|]. rewrite Hd. intros Hr.
    rewrite (read_length_long (of_u8 (128 + len (c :: bs))) c bs rest) by (done || (rewrite u8_of_u8; unfold len; lia)).
    rewrite Hv. by rewrite (proj2 (Z.ltb_ge _ _)) by lia.
Qed.

Lemma read_length_sound (n : Z) (r r' : DerReader) : reader_ok r -> read_length r = Ok (n, r') ->
  0 <= n <= usize_max /\ r' = advance (length (der_length n)) r /\ unread r = der_length n ++ unread r'.
Proof.
  intros Hok H. destruct (unread r) as [|b rest] eqn:Hr; [unfold read_length in H; by rewrite take_byte_spec, Hr in H|].
  pose proof (u8_range b) as Hb. destruct (Z_lt_ge_dec (u8 b) 128) as [Hs|Hs].
  { rewrite (read_length_short b rest) in H by done. apply Ok_inj, pair_equal_spec in H as [<- <-]. unfold der_length.
    rewrite (proj2 (Z.ltb_lt _ _)), of_u8_u8 by done. split_and!; [lia|unfold usize_max, u64_max; lia|done|].
    rewrite (unread_advance_app [b] rest) by done. done. }
  pose proof H as H0. unfold read_length in H0. rewrite take_byte_spec, Hr in H0. cbn [res_bind] in H0.
  rewrite high_bit_spec, low_bits_spec, (proj2 (Z.ltb_ge _ _)) in H0 by lia.
  assert (Hm : u8 b mod 128 = u8 b - 128) by (symmetry; apply (Z.mod_unique _ _ 1); lia). rewrite Hm in H0.
  destruct (Z.eqb_spec (u8 b - 128) 0) as [|Hne]; [done|]. destruct (Z.ltb_spec 8 (u8 b - 128)) as [|H8]; [done|].
  assert (Hok1 : reader_ok (advance 1 r)) by (apply reader_advance_ok; [done|rewrite Hr; cbn [length]; lia]).
  assert (Hr1 : unread (advance 1 r) = rest) by (by apply (unread_advance_app [b])).
  rewrite remaining_spec in H0 by done. cbn [res_bind] in H0. rewrite Hr1 in H0.
  destruct (Nat.ltb_spec (length rest) (Z.to_nat (u8 b - 128))) as [|Hlen]; [done|].
  destruct rest as [|c rest]; [cbn in Hlen; lia|]. unfold index in H0. rewrite lookup_unread, Hr1 in H0. cbn [head expect res_bind] in H0.
  destruct (Z.eqb_spec (u8 c) 0) as [|Hc]; [done|]. clear H0.
  destruct (Z.to_nat (u8 b - 128)) as [|k] eqn:Ek; [lia|]. cbn [length] in Hlen.
  rewrite <- (take_drop k rest) in Hr. set (bs := take k rest) in *. set (tl := drop k rest) in *.
  assert (Lbs : length bs = k) by (unfold bs; rewrite length_take; lia).
  rewrite (read_length_long b c bs tl) in H; [|done|done|unfold len; cbn [length]; lia|cbn [length]; lia|done].
  destruct (Z.ltb_spec (be_value 0 (c :: bs)) 128) as [|Hv]; [done|]. apply Ok_inj, pair_equal_spec in H as [<- <-].
  pose proof (be_value_range (c :: bs)) as Hvr.
  assert (Hmax : be_value 0 (c :: bs) <= usize_max).
  { assert (256 ^ len (c :: bs) <= 256 ^ 8) by (apply Z.pow_le_mono_r; unfold len; cbn [length]; lia). unfold usize_max, u64_max. lia. }
  assert (Hd : der_length (be_value 0 (c :: bs)) = b :: c :: bs).
  { unfold der_length. rewrite (proj2 (Z.ltb_ge _ _)), drop_zeros_be_bytes by (done || cbn [length]; lia).
    f_equal. apply u8_inj. rewrite u8_of_u8; unfold len; cbn [length]; lia. }
  rewrite Hd. split_and!; [lia|done|done|]. rewrite (unread_advance_app (b :: c :: bs) tl) by done.
  cbn [app]. do 2 f_equal. symmetry. apply take_drop.
Qed.

Lemma low_tag_iff (t : byte) : (Z.land (u8 t) 31 =? 31) = false <-> low_tag t.
Proof. unfold low_tag. apply Z.eqb_neq. Qed.

Lemma length_tlv (t : byte) (c : bytes) : length (tlv t c) = (1 + length (der_length (len c)) + length c)%nat.
Proof. unfold tlv. cbn [length]. rewrite length_app. lia. Qed.

(** The reader accepts an encoded value, and goes on behind it. *)
Lemma read_tlv_complete (t : byte) (c rest : bytes) (r : DerReader) : reader_ok r -> low_tag t ->
  unread r = tlv t c ++ rest -> read_tlv r = Ok (mkDerValue t c, advance (length (tlv t c)) r).
Proof.
  intros Hok Ht Hr. unfold tlv in Hr. cbn [app] in Hr. rewrite <- app_assoc in Hr. unfold read_tlv. rewrite take_byte_spec, Hr. cbn [res_bind].
  change DER_HIGH_TAG_NUMBER with 31. rewrite (proj2 (low_tag_iff t) Ht).
  assert (Hok1 : reader_ok (advance 1 r)) by (apply reader_advance_ok; [done|rewrite Hr; cbn [length]; lia]).
  assert (Hr1 : unread (advance 1 r) = der_length (len c) ++ c ++ rest) by (by apply (unread_advance_app [t])).
  pose proof (length_unread r) as Hu. rewrite Hr in Hu. cbn [length] in Hu. rewrite !length_app in Hu. destruct Hok as [Hp Hi].
  assert (Hlc : len c = Z.of_nat (length c)) by done. unfold len in Hi.
  rewrite (read_length_complete (len c) (c ++ rest)) by (done || lia). cbn [res_bind]. rewrite advance_advance.
  set (k := (1 + length (der_length (len c)))%nat) in *. cbn [advance reader_input reader_position]. unfold checked_add.
  rewrite (proj2 (Z.leb_le _ _)) by lia. cbn [ok_or res_bind]. unfold len at 1. rewrite (proj2 (Z.ltb_ge _ _)) by lia.
  replace (Z.to_nat _) with (reader_position r + k + length c)%nat by lia.
  rewrite slice_Ok by lia. cbn [res_bind]. rewrite length_tlv. fold k. do 2 f_equal.
  - f_equal. rewrite (Nat.add_comm (reader_position r + k)), Nat.add_sub, <- drop_drop. fold (unread r). rewrite Hr. cbn [Nat.add drop] in *.
    unfold k. cbn [Nat.add drop]. rewrite drop_app_length. apply take_app_length.
  - unfold advance. f_equal. lia.
Qed.

(** What the reader accepts is the encoding of what it gives: DER has no other. *)
Lemma read_tlv_sound (v : DerValue) (r r' : DerReader) : reader_ok r -> read_tlv r = Ok (v, r') ->
  low_tag (tag v) /\ unread r = tlv (tag v) (content v) ++ unread r' /\ r' = advance (length (tlv (tag v) (content v))) r /\
  reader_ok r' /\ len (content v) <= usize_max.
Proof.
  intros Hok H. unfold read_tlv in H. rewrite take_byte_spec in H. destruct (unread r) as [|t rest] eqn:Hr; [done|]. cbn [res_bind] in H.
  change DER_HIGH_TAG_NUMBER with 31 in H. destruct (Z.land (u8 t) 31 =? 31) eqn:Ht; [done|]. apply low_tag_iff in Ht.
  assert (Hok1 : reader_ok (advance 1 r)) by (apply reader_advance_ok; [done|rewrite Hr; cbn [length]; lia]).
  assert (Hr1 : unread (advance 1 r) = rest) by (by apply (unread_advance_app [t])).
  apply res_bind_Ok in H as ([n r1] & Hn & H). destruct (read_length_sound _ _ _ Hok1 Hn) as (Hr0 & -> & Hr2). rewrite Hr1 in Hr2. rewrite advance_advance in *.
  set (k := (1 + length (der_length n))%nat) in *. cbn [advance reader_input reader_position] in H.
  assert (Hk : (k <= length (unread r))%nat) by (rewrite Hr, Hr2; cbn [length]; rewrite length_app; unfold k; lia).
  pose proof (length_unread r) as Hu. destruct Hok as [Hp Hi].
  apply res_bind_Ok in H as (stop & Hstop & H). unfold checked_add in Hstop. destruct (Z.leb_spec (Z.of_nat (reader_position r + k) + n) usize_max); [|done].
  apply Ok_inj in Hstop as <-. destruct (Z.ltb_spec (len (reader_input r)) (Z.of_nat (reader_position r + k) + n)) as [|Hlen]; [done|].
  apply res_bind_Ok in H as (c & Hc & H). apply Ok_inj, pair_equal_spec in H as [<- <-]. cbn [tag content].
  apply slice_inv in Hc as (Hc1 & Hc2 & ->). set (m := Z.to_nat n).
  replace (Z.to_nat (Z.of_nat (reader_position r + k) + n)) with (reader_position r + k + m)%nat in * by (unfold m; lia).
  rewrite (Nat.add_comm (reader_position r + k) m), Nat.add_sub in *. rewrite <- drop_drop in *. fold (unread r) in *.
  unfold len in Hlen. assert (Hm : (m <= length (drop k (unread r)))%nat) by (rewrite length_drop; lia).
  assert (Hlc : len (take m (drop k (unread r))) = n) by (unfold len; rewrite length_take; unfold m; lia).
  assert (Hdk : drop k (unread r) = unread (advance k r)) by (by rewrite unread_advance).
  assert (Htl : tlv t (take m (drop k (unread r))) = t :: der_length n ++ take m (drop k (unread r))) by (unfold tlv; by rewrite Hlc).
  assert (Hlt : length (tlv t (take m (drop k (unread r)))) = (k + m)%nat).
  { rewrite length_tlv, Hlc, length_take. fold k. lia. }
  assert (Hadv : mkReader (reader_input r) (m + (reader_position r + k)) = advance (k + m) r) by (unfold advance; f_equal; lia).
  rewrite Hadv. split_and!; [done| |by rewrite Hlt| |lia].
  - rewrite Htl. cbn [app]. f_equal. rewrite <- app_assoc. rewrite <- (advance_advance k m), (unread_advance m), <- Hdk, take_drop.
    rewrite Hdk. exact Hr2.
  - apply reader_advance_ok; [by split|]. rewrite length_drop in Hm. lia.
Qed.

Lemma read_length_returns (r : DerReader) : reader_ok r -> returns (read_length r).
Proof.
  intros Hok. unfold read_length. rewrite take_byte_spec. destruct (unread r) as [|b rest] eqn:Hr; [done|]. cbn [res_bind].
  rewrite high_bit_spec, low_bits_spec. destruct (Z.ltb_spec (u8 b) 128) as [|Hb]; [done|].
  destruct (Z.eqb_spec (u8 b mod 128) 0) as [|Hne]; [done|]. destruct (Z.ltb_spec 8 (u8 b mod 128)) as [|H8]; [done|].
  assert (Hr1 : unread (advance 1 r) = rest) by (by apply (unread_advance_app [b])).
  rewrite remaining_spec by (apply reader_advance_ok; [done|rewrite Hr; cbn [length]; lia]). cbn [res_bind]. rewrite Hr1.
  pose proof (Z.mod_pos_bound (u8 b) 128 ltac:(lia)) as Hm. set (k := Z.to_nat (u8 b mod 128)).
  destruct (Nat.ltb_spec (length rest) k) as [|Hl]; [done|]. destruct rest as [|c rest]; [cbn in Hl; lia|].
  unfold index. rewrite lookup_unread, Hr1. cbn [head expect res_bind]. destruct (u8 c =? 0); [done|].
  pose proof (be_value_range (take k (c :: rest))) as Hv.
  assert (Hmax : be_value 0 (take k (c :: rest)) <= usize_max).
  { assert (256 ^ len (take k (c :: rest)) <= 256 ^ 8) by (apply Z.pow_le_mono_r; unfold len; rewrite ?length_take; lia). unfold usize_max, u64_max. lia. }
  rewrite (length_octets_spec (take k (c :: rest)) (drop k (c :: rest))) by (rewrite ?take_drop, ?length_take, ?length_seq; done || lia).
  cbn [res_bind]. by case_match.
Qed.

Lemma read_tlv_returns (r : DerReader) : reader_ok r -> returns (read_tlv r).
Proof.
  intros Hok. unfold read_tlv. rewrite take_byte_spec. destruct (unread r) as [|b rest] eqn:Hr; [done|]. cbn [res_bind].
  case_match; [done|]. assert (Hok1 : reader_ok (advance 1 r)) by (apply reader_advance_ok; [done|rewrite Hr; cbn [length]; lia]).
  apply res_bind_returns; [by apply read_length_returns|]. intros [n r1] Hn.
  destruct (read_length_sound _ _ _ Hok1 Hn) as (Hn0 & -> & Hr1).
  apply res_bind_returns; [apply ok_or_returns|]. intros stop Hstop. unfold checked_add in Hstop. case_match eqn:Hle; [|done].
  apply Ok_inj in Hstop as <-. apply Z.leb_le in Hle. unfold len. destruct (Z.ltb_spec (Z.of_nat (length (reader_input (advance (length (der_length n)) (advance 1 r)))))
    (Z.of_nat (reader_position (advance (length (der_length n)) (advance 1 r))) + n)) as [|Hl]; [done|].
  rewrite slice_Ok by lia. done.
Qed.

Lemma read_expected_spec (t : byte) (v : DerValue) (r r' : DerReader) :
  read_expected t r = Ok (v, r') <-> read_tlv r = Ok (v, r') /\ tag v = t.
Proof.
  unfold read_expected. rewrite res_bind_Ok. split.
  - intros ([v' r1] & -> & H). destruct (byte_eqb (tag v') t) eqn:E; cbn [negb] in H; [|done]. apply byte_eqb_eq in E. by simplify_eq.
  - intros [-> <-]. exists (v, r'). by rewrite byte_eqb_refl.
Qed.

Lemma read_expected_returns (t : byte) (r : DerReader) : reader_ok r -> returns (read_expected t r).
Proof. intros Hok. apply res_bind_returns; [by apply read_tlv_returns|]. intros [v r1] _. by case_match. Qed.

Lemma read_expected_complete (t : byte) (c rest : bytes) (r : DerReader) : reader_ok r -> low_tag t ->
  unread r = tlv t c ++ rest -> read_expected t r = Ok (mkDerValue t c, advance (length (tlv t c)) r).
Proof. intros Hok Ht Hr. apply read_expected_spec. split; [by eapply read_tlv_complete|done]. Qed.

(** ** Integers *)
(** The octets of a number: no zero in front, but for zero itself. *)
Definition significant (v : bytes) : bytes := match drop_zeros v with [] => [x00] | z => z end.

Definition integer_content (v : bytes) : bytes :=
  let z := significant v in
  match z with
  | b :: _ => if u8 b <? 128 then z else x00 :: z
  | [] => z
  end.

Lemma high_bit_ltb (b : byte) : high_bit b = negb (u8 b <? 128).
Proof. unfold high_bit. by rewrite high_bit_spec. Qed.

Lemma length_significant (v : bytes) : (length (significant v) <= Nat.max 1 (length v))%nat.
Proof. unfold significant. pose proof (length_drop_zeros v). destruct (drop_zeros v); cbn [length] in *; lia. Qed.

Lemma der_integer_unsigned_spec {E : Type} (v : bytes) : len v < usize_max ->
  der_integer_unsigned v = Ok (tlv DER_TAG_INTEGER (integer_content v)) :> res E _.
Proof.
  intros Hv. unfold der_integer_unsigned. pose proof (first_nonzero v) as Hp. pose proof (length_drop_zeros v) as Hl.
  assert (Hc : (if (default (length v) (position (fun b => negb (u8 b =? 0)%Z) v) =? length v)%nat then Ok [x00]
     else let? significant := slice_from v (default (length v) (position (fun b => negb (u8 b =? 0)) v)) in
          let? first := index significant 0 in Ok ((if high_bit first then [x00] else []) ++ significant)) = Ok (integer_content v) :> res E _).
  { unfold integer_content, significant. destruct (position _ v) as [i|].
    - destruct Hp as (Hi & Hd & Hne). change (default (length v) (Some i)) with i. rewrite (proj2 (Nat.eqb_neq _ _)) by lia. rewrite slice_from_Ok by lia. cbn [res_bind]. rewrite Hd.
      destruct (drop_zeros v) as [|b z]; [done|]. change (index (b :: z) 0) with (Ok b : res E byte). cbn [res_bind]. rewrite high_bit_ltb.
      by destruct (u8 b <? 128).
    - destruct Hp as [-> _]. change (default (length v) None) with (length v). by rewrite Nat.eqb_refl. }
  rewrite Hc. cbn [res_bind]. apply der_wrap_spec. unfold integer_content. pose proof (length_significant v) as Hs. unfold len in *.
  destruct (significant v) as [|b z]; [cbn; unfold usize_max, u64_max; lia|]. cbn [length] in *. unfold usize_max, u64_max in *.
  destruct (u8 b <? 128); cbn [length]; lia.
Qed.

Lemma significant_head (v : bytes) : exists b z, significant v = b :: z /\ (u8 b <> 0 \/ z = []).
Proof.
  unfold significant. destruct (drop_zeros v) as [|b z] eqn:E; [by exists x00, []; auto|]. exists b, z. split; [done|].
  left. by eapply drop_zeros_head.
Qed.

Lemma significant_idem (v : bytes) : significant (significant v) = significant v.
Proof.
  destruct (significant_head v) as (b & z & -> & [Hb| ->]); unfold significant; [by rewrite drop_zeros_ne|].
  unfold drop_zeros. cbn [drop_while]. destruct (Z.eqb_spec (u8 b) 0) as [H|]; [|done]. f_equal. apply u8_inj. by rewrite H.
Qed.

(** The reader of integers on the content octets alone. *)
Definition integer_value (c : bytes) : option bytes :=
  match c with
  | [] => None
  | [b] => if 127 <? u8 b then None else Some [b]
  | b :: b' :: z => if 127 <? u8 b then None else if u8 b =? 0 then if u8 b' <? 128 then None else Some (b' :: z) else Some c
  end.

Lemma read_integer_unsigned_spec (r : DerReader) :
  read_integer_unsigned r = let? (v, r') := read_expected DER_TAG_INTEGER r in
                            let? z := ok_or (integer_value (content v)) InvalidInteger in Ok (z, r').
Proof.
  unfold read_integer_unsigned. destruct (read_expected _ r) as [[v r']|e| |]; cbn [res_bind]; try done.
  assert (Hb : forall b, high_bit b = (127 <? u8 b)) by (intros b; rewrite high_bit_ltb, Z.leb_antisym, <- Z.ltb_antisym || (rewrite high_bit_ltb; destruct (Z.ltb_spec (u8 b) 128), (Z.ltb_spec 127 (u8 b)); cbn; lia)).
  destruct (content v) as [|b [|b' z]]; [done| |].
  - cbn [integer_value]. rewrite bool_decide_false by done. change (index [b] 0) with (Ok b : res DerError byte). cbn [res_bind length Nat.ltb Nat.leb andb]. rewrite Hb.
    by destruct (127 <? u8 b).
  - cbn [integer_value]. rewrite bool_decide_false by done. change (index (b :: b' :: z) 0) with (Ok b : res DerError byte). cbn [res_bind length Nat.ltb Nat.leb andb]. rewrite Hb.
    destruct (127 <? u8 b); [done|]. destruct (u8 b =? 0); [|done]. change (index (b :: b' :: z) 1) with (Ok b' : res DerError byte). cbn [res_bind].
    rewrite high_bit_ltb. destruct (u8 b' <? 128); [done|]. cbn [negb]. by rewrite slice_from_Ok by (cbn; lia).
Qed.

Lemma integer_value_content (v : bytes) : integer_value (integer_content v) = Some (significant v).
Proof.
  unfold integer_content. destruct (significant_head v) as (b & z & -> & Hb). destruct (Z.ltb_spec (u8 b) 128) as [Hs|Hs].
  - cbn [integer_value]. rewrite (proj2 (Z.ltb_ge _ _)) by lia. destruct z as [|b' z]; [done|].
    rewrite (proj2 (Z.eqb_neq _ _)); [done|]. destruct Hb as [Hb|Hb]; [lia|done].
  - cbn [integer_value]. change (u8 x00) with 0. cbn. by rewrite (proj2 (Z.ltb_ge _ _)) by lia.
Qed.

Lemma integer_value_Some (c v : bytes) : integer_value c = Some v -> v = significant v /\ c = integer_content v.
Proof.
  assert (Hsig : forall b z, u8 b <> 0 \/ z = [] -> significant (b :: z) = b :: z).
  { intros b z [Hb| ->]; unfold significant; [by rewrite drop_zeros_ne|]. unfold drop_zeros. cbn [drop_while].
    destruct (Z.eqb_spec (u8 b) 0) as [H|]; [|done]. f_equal. apply u8_inj. by rewrite H. }
  destruct c as [|b [|b' z]]; [done| |]; cbn [integer_value]; destruct (Z.ltb_spec 127 (u8 b)) as [|Hb]; try done.
  - intros [= <-]. rewrite Hsig by (by right). split; [done|]. unfold integer_content. rewrite Hsig by (by right). by rewrite (proj2 (Z.ltb_lt _ _)) by lia.
  - destruct (Z.eqb_spec (u8 b) 0) as [H0|H0].
    + destruct (Z.ltb_spec (u8 b') 128) as [|Hb']; [done|]. intros [= <-]. rewrite Hsig by (left; lia). split; [done|].
      unfold integer_content. rewrite Hsig by (left; lia). rewrite (proj2 (Z.ltb_ge _ _)) by lia. f_equal. apply u8_inj. by rewrite H0.
    + intros [= <-]. rewrite Hsig by (by left). split; [done|]. unfold integer_content. rewrite Hsig by (by left). by rewrite (proj2 (Z.ltb_lt _ _)) by lia.
Qed.

(** ** Object identifiers *)
(** The value of base-128 digits. *)
Fixpoint value128 (acc : Z) (digits : bytes) : Z :=
  match digits with
  | [] => acc
  | b :: digits' => value128 (acc * 128 + u8 b) digits'
  end.

(** Every digit but the last is marked. *)
Fixpoint mark (digits : bytes) : bytes :=
  match digits with
  | [] => []
  | [b] => [b]
  | b :: digits' => of_u8 (u8 b + 128) :: mark digits'
  end.

(** The numbers that marked digits stand for (X.690, 8.19.2); [None] when the last one is cut off. *)
Fixpoint subidentifiers (acc : Z) (started : bool) (content : bytes) : option (list Z) :=
  match content with
  | [] => if started then None else Some []
  | b :: content' =>
      if u8 b <? 128 then option_map (cons (acc * 128 + u8 b)) (subidentifiers 0 false content')
      else subidentifiers (acc * 128 + (u8 b - 128)) true content'
  end.

Definition digits_ok (v : Z) (digits : bytes) : Prop :=
  digits <> [] /\ Forall (fun b => u8 b < 128) digits /\ value128 0 digits = v.

Lemma value128_app (acc : Z) (d e : bytes) : value128 acc (d ++ e) = value128 (value128 acc d) e.
Proof. revert acc. induction d as [|b d IH]; intros acc; [done|]. cbn. apply IH. Qed.

Lemma base128_loop_spec {E : Type} (fuel : nat) (bs : bytes) (i : nat) (v : Z) :
  0 <= v < 128 ^ Z.of_nat i -> (0 < i)%nat -> (i <= fuel)%nat -> (i <= length bs)%nat ->
  exists first digits, base128_loop fuel bs i v = Ok (take first bs ++ digits ++ drop i bs, first) :> res E _ /\
    (first + length digits)%nat = i /\ digits_ok v digits.
Proof.
  revert bs i v. induction fuel as [|fuel IH]; intros bs i v Hv Hi Hf Hl; [lia|]. destruct i as [|i]; [lia|]. cbn [base128_loop].
  change 0x7f with (2 ^ 7 - 1). rewrite land_mask by lia. change (2 ^ 7) with 128. rewrite Z.shiftr_div_pow2 by lia. change (2 ^ 7) with 128.
  pose proof (Z.mod_pos_bound v 128 ltac:(lia)) as Hm. pose proof (Z.div_mod v 128 ltac:(lia)) as Hdm.
  unfold try_from. rewrite (proj2 (Z.leb_le _ _)) by (unfold u8_max; lia). cbn [res_bind].
  set (d := of_u8 (v mod 128)). assert (Hd : u8 d = v mod 128) by (unfold d; apply u8_of_u8; lia).
  assert (Hins : <[i := d]> bs = take i bs ++ d :: drop (S i) bs) by (apply insert_take_drop; lia).
  assert (Ht : take i (<[i := d]> bs) = take i bs) by (rewrite Hins; apply take_app_length'; rewrite length_take; lia).
  assert (Hdr : drop i (<[i := d]> bs) = d :: drop (S i) bs) by (rewrite Hins; apply drop_app_length'; rewrite length_take; lia).
  destruct (Z.eqb_spec (v / 128) 0) as [H0|H0].
  - exists i, [d]. rewrite Hins. split_and!; [done|cbn; lia|]. split_and!; [done|by constructor; [lia|]|cbn; lia].
  - assert (Hi0 : (0 < i)%nat) by (destruct i; [cbn in Hv; exfalso; apply H0, Z.div_small; lia|lia]).
    destruct (IH (<[i := d]> bs) i (v / 128)) as (first & ds & -> & Hlen & Hne & Hall & Hval);
      [|done|lia|rewrite length_insert; lia|].
    { split; [apply Z.div_pos; lia|]. apply Z.div_lt_upper_bound; [lia|]. rewrite Nat2Z.inj_succ, Z.pow_succ_r in Hv by lia. lia. }
    exists first, (ds ++ [d]). split_and!.
    + rewrite Hdr, <- app_assoc. cbn [app]. do 3 f_equal.
      transitivity (take first (take i (<[i := d]> bs))); [rewrite take_take; f_equal; lia|]. rewrite Ht, take_take. f_equal. lia.
    + rewrite length_app. cbn. lia.
    + split_and!; [by destruct ds| |].
      * apply Forall_app. split; [done|]. constructor; [lia|done].
      * rewrite value128_app, Hval. cbn. lia.
Qed.

Lemma push_marked {E : Type} (w pre digits out : bytes) : w = pre ++ digits -> Forall (fun b => u8 b < 128) digits ->
  res_foldM (fun output position =>
    let? b := index w position in
    let b := if negb (position + 1 =? length w)%nat then of_u8 (Z.lor (u8 b) 0x80) else b in
    Ok (output ++ [b])) out (seq (length pre) (length digits)) = Ok (out ++ mark digits) :> res E _.
Proof.
  revert pre out. induction digits as [|b digits IH]; intros pre out Hw Hall; [cbn [length seq res_foldM mark]; by rewrite app_nil_r|].
  assert (Hlen : length w = (length pre + S (length digits))%nat) by (rewrite Hw, length_app; done).
  assert (Hb : index w (length pre) = Ok b :> res E byte) by (apply index_Ok; rewrite Hw, lookup_app_r, Nat.sub_diag by lia; done).
  cbn [length seq res_foldM]. rewrite Hb. cbn [res_bind]. apply Forall_cons in Hall as [Hb' Hall']. pose proof (u8_range b) as Hr.
  specialize (IH (pre ++ [b])). rewrite <- app_assoc, (length_app pre [b]) in IH. cbn [app length] in IH. rewrite Nat.add_1_r in IH.
  rewrite IH by done. f_equal. rewrite <- app_assoc. f_equal. cbn [app]. destruct digits as [|c digits].
  - by rewrite (proj2 (Nat.eqb_eq _ _)) by (rewrite Hlen; cbn; lia).
  - rewrite (proj2 (Nat.eqb_neq _ _)) by (rewrite Hlen; cbn; lia). cbn [negb mark]. do 2 f_equal.
    rewrite Z.lor_comm, Z.add_comm. apply (lor_mul_add 1 (u8 b) 7); [lia|]. change (2 ^ 7) with 128. lia.
Qed.

Lemma push_base128_spec {E : Type} (out : bytes) (v : Z) : 0 <= v <= u64_max ->
  exists digits, push_base128 out v = Ok (out ++ mark digits) :> res E _ /\ digits_ok v digits /\ (length digits <= 10)%nat.
Proof.
  intros Hv. unfold push_base128.
  destruct (base128_loop_spec (E := E) 11 (repeat x00 10) 10 v) as (first & ds & -> & Hl & Hok); [|lia|lia|done|].
  { change (128 ^ Z.of_nat 10) with 1180591620717411303424. unfold u64_max in Hv. lia. }
  cbn [res_bind]. change (drop 10 (repeat x00 10)) with (@nil byte). rewrite app_nil_r.
  assert (Ht : length (take first (repeat x00 10)) = first) by (rewrite length_take, repeat_length; lia).
  exists ds. split; [|split; [done|lia]].
  pose proof (push_marked (E := E) _ (take first (repeat x00 10)) ds out eq_refl ltac:(apply Hok)) as H. rewrite Ht in H.
  replace (length (take first (repeat x00 10) ++ ds) - first)%nat with (length ds) by (rewrite length_app; lia). exact H.
Qed.

Lemma subidentifiers_mark (digits rest : bytes) (acc : Z) (started : bool) :
  digits <> [] -> Forall (fun b => u8 b < 128) digits ->
  subidentifiers acc started (mark digits ++ rest) = option_map (cons (value128 acc digits)) (subidentifiers 0 false rest).
Proof.
  revert acc started. induction digits as [|b digits IH]; intros acc started Hne Hall; [done|]. inversion Hall as [|? ? Hb Hall']; subst.
  pose proof (u8_range b) as Hr. destruct digits as [|c digits].
  - cbn [mark app subidentifiers value128]. by rewrite (proj2 (Z.ltb_lt _ _) Hb).
  - change (mark (b :: c :: digits)) with (of_u8 (u8 b + 128) :: mark (c :: digits)). cbn [app subidentifiers].
    rewrite u8_of_u8 by lia. rewrite (proj2 (Z.ltb_ge _ _)) by lia. rewrite IH by done.
    by replace (acc * 128 + (u8 b + 128 - 128)) with (acc * 128 + u8 b) by lia.
Qed.

Lemma length_mark (digits : bytes) : length (mark digits) = length digits.
Proof. induction digits as [|b [|c digits] IH]; [done..|]. cbn [mark length] in *. by rewrite IH. Qed.

Lemma push_arcs_spec {E : Type} (arcs : list Z) (out : bytes) : Forall (fun a => 0 <= a <= u64_max) arcs ->
  exists bs, res_foldM push_base128 out arcs = Ok (out ++ bs) :> res E _ /\ subidentifiers 0 false bs = Some arcs /\
    (length bs <= 10 * length arcs)%nat.
Proof.
  revert out. induction arcs as [|a arcs IH]; intros out Hall; [exists []; by rewrite app_nil_r|]. inversion Hall as [|? ? Ha Hall']; subst.
  destruct (push_base128_spec (E := E) out a Ha) as (ds & Hp & (Hne & Hds & Hval) & Hlen). cbn [res_foldM]. rewrite Hp. cbn [res_bind].
  destruct (IH (out ++ mark ds) Hall') as (bs & -> & Hs & Hl). exists (mark ds ++ bs). split_and!.
  - by rewrite app_assoc.
  - rewrite subidentifiers_mark, Hs, Hval by done. done.
  - rewrite length_app, length_mark. cbn [length]. lia.
Qed.

(** The arcs that the content octets of an identifier stand for: the first subidentifier holds two. *)
Definition oid_arcs (content : bytes) : option (list Z) :=
  match subidentifiers 0 false content with
  | Some (x :: rest) => if x <? 80 then Some (x / 40 :: x mod 40 :: rest) else Some (2 :: x - 80 :: rest)
  | _ => None
  end.

Definition oid_ok (arcs : list Z) : Prop :=
  match arcs with
  | x :: y :: _ => x <= 2 /\ (x < 2 -> y <= 39) /\ (x = 2 -> y + 80 <= u64_max)
  | _ => False
  end.

Lemma oid_ok_dec (arcs : list Z) : oid_ok arcs \/ ~ oid_ok arcs.
Proof. destruct arcs as [|x [|y arcs]]; cbn; [tauto|tauto|lia]. Qed.

Lemma der_object_identifier_spec (arcs : list Z) : Forall (fun a => 0 <= a <= u64_max) arcs -> 10 * len arcs <= usize_max ->
  (oid_ok arcs /\ exists content, der_object_identifier arcs = Ok (tlv DER_TAG_OBJECT_IDENTIFIER content) /\ oid_arcs content = Some arcs) \/
  (~ oid_ok arcs /\ der_object_identifier arcs = Err InvalidObjectIdentifier).
Proof.
  intros Hall Hlen. unfold der_object_identifier. destruct arcs as [|x [|y rest]]; [by right; auto..|].
  apply Forall_cons in Hall as [Hx Hall]. apply Forall_cons in Hall as [Hy Hall].
  cbn [length Nat.ltb Nat.leb]. change (index (x :: y :: rest) 0) with (Ok x : res DerError Z). change (index (x :: y :: rest) 1) with (Ok y : res DerError Z).
  cbn [res_bind oid_ok]. destruct (Z.ltb_spec 2 x) as [|Hx2]; [right; split; [lia|done]|].
  destruct (Z.ltb_spec x 2) as [Hlt|Hge]; cbn [andb].
  - destruct (Z.ltb_spec 39 y) as [|Hy39]; [right; split; [lia|done]|]. left. split; [lia|]. cbn [res_bind].
    destruct (push_arcs_spec (E := DerError) (x * 40 + y :: rest) []) as (bs & Hp & Hs & Hl).
    { constructor; [unfold u64_max; lia|done]. }
    cbn [res_foldM] in Hp. apply res_bind_Ok in Hp as (c & -> & Hp). cbn [res_bind app] in *. rewrite slice_from_Ok by (cbn; lia). cbn [res_bind drop]. rewrite ?drop_0.
    rewrite Hp. cbn [res_bind]. exists bs. rewrite der_wrap_spec by (unfold len in *; cbn [length] in *; lia). split; [done|].
    unfold oid_arcs. rewrite Hs. rewrite (proj2 (Z.ltb_lt _ _)) by lia.
    assert ((x * 40 + y) / 40 = x) as -> by (symmetry; apply (Z.div_unique _ _ _ y); lia).
    by assert ((x * 40 + y) mod 40 = y) as -> by (symmetry; apply (Z.mod_unique _ _ x); lia).
  - unfold checked_add. destruct (Z.leb_spec (y + 80) u64_max) as [Hm|Hm]; cbn [ok_or res_bind]; [|right; split; [lia|done]]. left. split; [lia|].
    destruct (push_arcs_spec (E := DerError) (y + 80 :: rest) []) as (bs & Hp & Hs & Hl).
    { constructor; [lia|done]. }
    cbn [res_foldM] in Hp. apply res_bind_Ok in Hp as (c & -> & Hp). cbn [res_bind app] in *. rewrite slice_from_Ok by (cbn; lia). cbn [res_bind drop]. rewrite ?drop_0.
    rewrite Hp. cbn [res_bind]. exists bs. rewrite der_wrap_spec by (unfold len in *; cbn [length] in *; lia). split; [done|].
    unfold oid_arcs. rewrite Hs. rewrite (proj2 (Z.ltb_ge _ _)) by lia. assert (x = 2) as -> by lia. do 2 f_equal. f_equal. lia.
Qed.

(** ** Sets *)
Lemma bytes_le_refl (a : bytes) : bytes_le a a.
Proof. induction a as [|x a IH]; [done|]. right. done. Qed.

#[global] Instance bytes_le_trans : Transitive bytes_le.
Proof.
  intros a. induction a as [|x a IH]; [done|]. intros [|y b] [|z c]; [done..|]. cbn. intros [H1|[H1 H1']] [H2|[H2 H2']]; try (left; lia).
  right. split; [lia|]. by apply (IH b).
Qed.

#[global] Instance bytes_le_anti : AntiSymm (=) bytes_le.
Proof.
  intros a. induction a as [|x a IH]; intros [|y b]; [done..|]. cbn. intros [H1|[H1 H1']] [H2|[H2 H2']]; try lia.
  f_equal; [by apply u8_inj|]. by apply IH.
Qed.

#[global] Instance bytes_le_total : Total bytes_le.
Proof.
  intros a. induction a as [|x a IH]; intros [|y b]; [by left..|by right|]. cbn.
  destruct (Z.lt_trichotomy (u8 x) (u8 y)) as [H|[H|H]]; [by left; left| |by right; left].
  destruct (IH b); [left|right]; right; split; done.
Qed.

Lemma der_set_content_perm (l k : list bytes) : Permutation l k -> der_set_content l = der_set_content k.
Proof.
  intros H. unfold der_set_content. f_equal. apply (StronglySorted_unique bytes_le).
  - apply (StronglySorted_merge_sort _).
  - apply (StronglySorted_merge_sort _).
  - rewrite !merge_sort_Permutation. done.
Qed.

(** ** Reading one value after the other *)
(** The reader [r] has the bytes [bs] in front of it. *)
Definition reads (r : DerReader) (bs : bytes) : Prop := reader_ok r /\ unread r = bs.

Lemma reads_new (bs : bytes) : len bs <= usize_max -> reads (new_reader bs) bs.
Proof. intros H. split; [split; [cbn; lia|done]|done]. Qed.

Lemma reads_inv (r : DerReader) (bs : bytes) : reads r bs -> len bs <= usize_max.
Proof. intros [[_ Hi] <-]. unfold len in *. rewrite length_unread. lia. Qed.

Lemma reads_advance (r : DerReader) (bs rest : bytes) : reads r (bs ++ rest) -> reads (advance (length bs) r) rest.
Proof.
  intros [Hok Hr]. split; [|by apply unread_advance_app]. apply reader_advance_ok; [done|]. rewrite Hr, length_app. lia.
Qed.

Lemma read_tlv_reads (t : byte) (c rest : bytes) (r : DerReader) : reads r (tlv t c ++ rest) -> low_tag t ->
  exists r', read_tlv r = Ok (mkDerValue t c, r') /\ reads r' rest.
Proof.
  intros Hr Ht. exists (advance (length (tlv t c)) r). split; [|by apply reads_advance]. destruct Hr as [Hok Hr].
  by eapply read_tlv_complete.
Qed.

Lemma read_expected_reads (t : byte) (c rest : bytes) (r : DerReader) : reads r (tlv t c ++ rest) -> low_tag t ->
  exists r', read_expected t r = Ok (mkDerValue t c, r') /\ reads r' rest.
Proof.
  intros Hr Ht. destruct (read_tlv_reads t c rest r Hr Ht) as (r' & H & Hr'). exists r'. split; [|done]. by apply read_expected_spec.
Qed.

Lemma read_integer_reads (v rest : bytes) (r : DerReader) : reads r (tlv DER_TAG_INTEGER (integer_content v) ++ rest) ->
  exists r', read_integer_unsigned r = Ok (significant v, r') /\ reads r' rest.
Proof.
  intros Hr. destruct (read_expected_reads _ _ _ _ Hr) as (r' & H & Hr'); [vm_compute; discriminate|]. exists r'. split; [|done].
  rewrite read_integer_unsigned_spec, H. cbn [res_bind content]. by rewrite integer_value_content.
Qed.

Lemma read_tlv_inv (r r' : DerReader) (bs : bytes) (v : DerValue) : reads r bs -> read_tlv r = Ok (v, r') ->
  low_tag (tag v) /\ exists rest, bs = tlv (tag v) (content v) ++ rest /\ reads r' rest /\ len (content v) <= usize_max.
Proof.
  intros [Hok Hr] H. destruct (read_tlv_sound _ _ _ Hok H) as (Ht & Hu & _ & Hok' & Hc). split; [done|]. exists (unread r'). by rewrite <- Hr.
Qed.

Lemma read_expected_inv (t : byte) (r r' : DerReader) (bs : bytes) (v : DerValue) : reads r bs -> read_expected t r = Ok (v, r') ->
  exists c rest, v = mkDerValue t c /\ bs = tlv t c ++ rest /\ reads r' rest /\ len c <= usize_max.
Proof.
  intros Hr [H <-]%read_expected_spec. destruct (read_tlv_inv _ _ _ _ Hr H) as (_ & rest & Hb & Hr' & Hc). exists (content v), rest. by destruct v.
Qed.

Lemma read_integer_inv (r r' : DerReader) (bs v : bytes) : reads r bs -> read_integer_unsigned r = Ok (v, r') ->
  exists rest, bs = tlv DER_TAG_INTEGER (integer_content v) ++ rest /\ reads r' rest.
Proof.
  intros Hr. rewrite read_integer_unsigned_spec. intros H. apply res_bind_Ok in H as ([w r1] & Hw & H).
  destruct (read_expected_inv _ _ _ _ _ Hr Hw) as (c & rest & -> & -> & Hr' & _). cbn [content] in H.
  destruct (integer_value c) as [z|] eqn:Ez; [|done]. cbn [ok_or res_bind] in H. apply Ok_inj, pair_equal_spec in H as [<- <-].
  apply integer_value_Some in Ez as [_ ->]. by exists rest.
Qed.

Lemma finish_reads (r : DerReader) (bs : bytes) : reads r bs ->
  finish r = match bs with [] => Ok tt | _ => Err (TrailingData (length bs)) end.
Proof.
  intros [Hok <-]. unfold finish. rewrite remaining_spec by done. pose proof (length_unread r) as Hl. destruct Hok as [Hp _].
  destruct (Nat.eqb_spec (reader_position r) (length (reader_input r))) as [He|He]; destruct (unread r); cbn [length res_bind] in *; (done || lia).
Qed.

Lemma finish_inv (r : DerReader) (bs : bytes) (u : unit) : reads r bs -> finish r = Ok u -> bs = [].
Proof. intros Hr. rewrite (finish_reads r bs Hr). by destruct bs. Qed.

Lemma finish_returns (r : DerReader) (bs : bytes) : reads r bs -> returns (finish r).
Proof. intros Hr. rewrite (finish_reads r bs Hr). by destruct bs. Qed.

Lemma is_empty_reads (r : DerReader) (bs : bytes) : reads r bs -> is_empty r = match bs with [] => true | _ => false end.
Proof.
  intros [[Hp _] <-]. unfold is_empty. pose proof (length_unread r) as Hl.
  destruct (Nat.eqb_spec (reader_position r) (length (reader_input r))) as [He|He]; destruct (unread r); cbn [length] in *; (done || lia).
Qed.

Lemma read_integer_returns (r : DerReader) : reader_ok r -> returns (read_integer_unsigned r).
Proof.
  intros Hok. rewrite read_integer_unsigned_spec. apply res_bind_returns; [by apply read_expected_returns|]. intros [w r1] _.
  apply res_bind_returns; [apply ok_or_returns|done].
Qed.

Lemma der_length_bounds (n : Z) : 0 <= n <= usize_max -> (1 <= length (der_length n) <= 9)%nat.
Proof.
  intros Hn. unfold der_length. destruct (Z.ltb_spec n 128); [cbn; lia|]. destruct (octets_8 n) as (c & bs & -> & _ & _ & Hl); [lia|].
  cbn [length] in *. lia.
Qed.

Lemma len_tlv (t : byte) (c : bytes) : len c <= usize_max -> len c + 2 <= len (tlv t c) <= len c + 10.
Proof.
  intros Hc. pose proof (der_length_bounds (len c) ltac:(split; [apply len_nonneg|done])). revert H Hc. unfold len. rewrite length_tlv. unfold len. lia.
Qed.

(** ** What the encodings do *)

(** C28: reading a value never panics; a value is read exactly when the bytes to be read begin with its DER
    encoding (one identifier octet, the shortest length, the content), and the reader goes on behind it. So
    encoding and reading are inverse to each other, and no other encoding of a value is accepted. *)
Theorem der_tlv_round_trip {E : Type} (t : byte) (c : bytes) (r r' : DerReader) : reader_ok r ->
  returns (read_tlv r) /\
  (read_tlv r = Ok (mkDerValue t c, r') <->
     low_tag t /\ unread r = tlv t c ++ unread r' /\ r' = advance (length (tlv t c)) r) /\
  (len c <= usize_max -> der_wrap t c = Ok (tlv t c) :> res E _).
Proof.
  intros Hok. split; [by apply read_tlv_returns|]. split; [|apply der_wrap_spec]. split.
  - intros H. by destruct (read_tlv_sound _ _ _ Hok H) as (? & ? & ? & _).
  - intros (Ht & Hr & ->). by eapply read_tlv_complete.
Qed.

Lemma der_tlv_round_trip_witness :
  read_tlv (new_reader [x04; x01; xff; x00]) = Ok (mkDerValue x04 [xff], mkReader [x04; x01; xff; x00] 3).
Proof.
  apply (der_tlv_round_trip (E := unit) x04 [xff] (new_reader [x04; x01; xff; x00]) (mkReader [x04; x01; xff; x00] 3)).
  - split; [cbn; lia|vm_compute; discriminate].
  - split; [vm_compute; discriminate|]. split; reflexivity.
Defined.

(** An integer is encoded by its octets without zeros in front, and one zero when the first has its high
    bit set; reading accepts exactly these encodings, never panics, and gives the octets without the zeros,
    which stand for the same number. *)
Theorem der_integer_round_trip {E : Type} (v z : bytes) (r r' : DerReader) : reader_ok r -> len v < usize_max ->
  der_integer_unsigned v = Ok (tlv DER_TAG_INTEGER (integer_content v)) :> res E _ /\
  be_value 0 (significant v) = be_value 0 v /\
  returns (read_integer_unsigned r) /\
  (read_integer_unsigned r = Ok (z, r') <->
     z = significant z /\ unread r = tlv DER_TAG_INTEGER (integer_content z) ++ unread r' /\
     r' = advance (length (tlv DER_TAG_INTEGER (integer_content z))) r).
Proof.
  intros Hok Hv. split; [by apply der_integer_unsigned_spec|]. split.
  { unfold significant. rewrite <- (be_value_drop_zeros v). by destruct (drop_zeros v). }
  rewrite read_integer_unsigned_spec. split.
  { apply res_bind_returns; [by apply read_expected_returns|]. intros [u r1] _.
    apply res_bind_returns; [apply ok_or_returns|]. by intros. }
  rewrite res_bind_Ok. split.
  - intros ([u r1] & Hu%read_expected_spec & H). destruct Hu as [Hu Ht]. destruct (read_tlv_sound _ _ _ Hok Hu) as (_ & Hr & Hr1 & _).
    destruct (integer_value (content u)) as [w|] eqn:Ew; [|done]. cbn [ok_or res_bind] in H. apply Ok_inj, pair_equal_spec in H as [-> ->].
    apply integer_value_Some in Ew as [Hw Hc]. rewrite Ht, Hc in Hr, Hr1. done.
  - intros (Hz & Hr & Hr'). exists (mkDerValue DER_TAG_INTEGER (integer_content z), r'). split.
    + rewrite Hr'. eapply read_expected_complete; [done|vm_compute; discriminate|exact Hr].
    + cbn [content]. rewrite integer_value_content. cbn [ok_or res_bind]. by rewrite <- Hz.
Qed.

Lemma der_integer_round_trip_witness :
  der_integer_unsigned (E := unit) [x00; x80] = Ok (tlv DER_TAG_INTEGER [x00; x80]) /\
  read_integer_unsigned (new_reader [x02; x02; x00; x80]) = Ok ([x80], mkReader [x02; x02; x00; x80] 4).
Proof.
  assert (Hok : reader_ok (new_reader [x02; x02; x00; x80])) by (split; [cbn; lia|vm_compute; discriminate]).
  destruct (der_integer_round_trip (E := unit) [x00; x80] [x80] _ (mkReader [x02; x02; x00; x80] 4) Hok) as (H1 & _ & _ & H2).
  - vm_compute. reflexivity.
  - split; [exact H1|]. apply H2. split; [reflexivity|]. split; reflexivity.
Defined.

(** An object identifier of 64-bit arcs is encoded exactly when its first two arcs are allowed; the
    encoding stands for the same arcs, and nothing panics. A set is encoded in the order of its encoded
    elements: the order they are given in makes no difference. *)
Theorem der_collections_correct (arcs : list Z) (elements permuted : list bytes) :
  Forall (fun a => 0 <= a <= u64_max) arcs -> 10 * len arcs <= usize_max -> Permutation elements permuted ->
  match der_object_identifier arcs with
  | Ok bs => oid_ok arcs /\ exists content, bs = tlv DER_TAG_OBJECT_IDENTIFIER content /\ oid_arcs content = Some arcs
  | Err e => ~ oid_ok arcs /\ e = InvalidObjectIdentifier
  | Panic | Fuel => False
  end /\
  der_set_content elements = der_set_content permuted /\
  exists sorted, der_set_content elements = concat sorted /\ Permutation sorted elements /\ StronglySorted bytes_le sorted.
Proof.
  intros Ha Hl Hp. split_and!.
  - destruct (der_object_identifier_spec arcs Ha Hl) as [(Hok & c & -> & Hc)|[Hok ->]]; [|done]. split; [done|by exists c].
  - by apply der_set_content_perm.
  - exists (merge_sort bytes_le elements). split_and!; [done|apply merge_sort_Permutation|apply (StronglySorted_merge_sort _)].
Qed.

Lemma der_collections_correct_witness :
  exists bs, der_object_identifier [1; 2; 840; 10045; 2; 1] = Ok bs /\ oid_arcs (drop 2 bs) = Some [1; 2; 840; 10045; 2; 1].
Proof.
  destruct (der_collections_correct [1; 2; 840; 10045; 2; 1] [] []) as [H _];
    [repeat constructor; vm_compute; discriminate|vm_compute; discriminate|constructor|].
  destruct (der_object_identifier [1; 2; 840; 10045; 2; 1]) as [bs|e| |] eqn:E.
  - exists bs. split; [reflexivity|]. vm_compute in E. injection E as <-. vm_compute. reflexivity.
  - destruct H as [H _]. exfalso. apply H. vm_compute. split_and!; discriminate || (intros; discriminate).
  - destruct H.
  - destruct H.
Defined.
