(* ===== verification/Pem.v ===== *)
(** * Textual encodings: [src/asn1.rs]

    The strict Base64 decoder and the RFC 7468 text around it: one instance with an expected label,
    and the chain of certificates. *)
From Stdlib Require Import ZArith Lia.
From stdpp Require Import prelude.
From S2P Require Import Prelude Bytes Encoding Der.
Local Open Scope Z_scope.
Set Warnings "-clear-no-such-hyp".

Definition PEM_LINE_WIDTH : nat := 64.

(** ** Base64 *)
Definition decode_base64_character (b : byte) : option Z :=
  if in_range x41 x5a b then Some (u8 b - 65)
  else if in_range x61 x7a b then Some (u8 b - 97 + 26)
  else if in_range x30 x39 b then Some (u8 b - 48 + 52)
  else if byte_eqb b x2b then Some 62
  else if byte_eqb b x2f then Some 63
  else None.

(** One turn of the loop over the quartets. *)
Definition decode_quartet (last : bool) (output quartet : bytes) : res DerError bytes :=
  let? q0 := index quartet 0 in
  let? q1 := index quartet 1 in
  let? q2 := index quartet 2 in
  let? q3 := index quartet 3 in
  if byte_eqb q0 x3d || byte_eqb q1 x3d then Err InvalidPemBase64
  else
    let? first := ok_or (decode_base64_character q0) InvalidPemBase64 in
    let? second := ok_or (decode_base64_character q1) InvalidPemBase64 in
    let output := output ++ [of_u8 (Z.lor (shl8 first 2) (Z.shiftr second 4))] in
    if byte_eqb q2 x3d then
      if negb (byte_eqb q3 x3d) || negb last || negb (Z.land second 0x0f =? 0) then Err InvalidPemBase64 else Ok output
    else
      let? third := ok_or (decode_base64_character q2) InvalidPemBase64 in
      let output := output ++ [of_u8 (Z.lor (shl8 second 4) (Z.shiftr third 2))] in
      if byte_eqb q3 x3d then
        if negb last || negb (Z.land third 0x03 =? 0) then Err InvalidPemBase64 else Ok output
      else
        let? fourth := ok_or (decode_base64_character q3) InvalidPemBase64 in
        Ok (output ++ [of_u8 (Z.lor (shl8 third 6) fourth)]).

Definition decode_base64 (encoded : bytes) : res DerError bytes :=
  if negb (Nat.modulo (length encoded) 4 =? 0)%nat then Err InvalidPemBase64
  else
    let block_count := (length encoded / 4)%nat in
    res_foldM (fun output '(block_index, quartet) => decode_quartet (block_index + 1 =? block_count)%nat output quartet)
      [] (zip (seq 0 block_count) (chunks_exact 4 encoded).1).

(** ** Labels and lines *)
Definition label_char (b : byte) : bool := in_range x41 x5a b || in_range x30 x39 b.
Definition label_separator (b : byte) : bool := byte_eqb b x20 || byte_eqb b x2d.

Definition label_step (previous : option byte) (b : byte) : res DerError (option byte) :=
  if label_char b then Ok (Some b)
  else if label_separator b then
    if bool_decide (previous = Some b) then Err InvalidPemLabel else Ok (Some b)
  else Err InvalidPemLabel.

Definition validate_pem_label (label : bytes) : res DerError unit :=
  match head label, last label with
  | Some first, Some final =>
      if label_separator first || label_separator final then Err InvalidPemLabel
      else let? _ := res_foldM label_step None label in Ok tt
  | _, _ => Err InvalidPemLabel
  end.

Definition begin_line (label : bytes) : bytes := str "-----BEGIN " ++ label ++ str "-----".
Definition end_line (label : bytes) : bytes := str "-----END " ++ label ++ str "-----".

Definition pem_encode (label der : bytes) : res DerError bytes :=
  let? _ := validate_pem_label label in
  let? base64 := encode_base64 der in
  let body := concat (map (fun line => line ++ [LF]) (chunks PEM_LINE_WIDTH base64)) in
  Ok ((begin_line label ++ [LF]) ++ body ++ end_line label ++ [LF]).

Definition is_blank (b : byte) : bool := byte_eqb b x20 || byte_eqb b x09.
Definition not_whitespace (b : byte) : bool := negb (is_ascii_whitespace b).

(** The loop over the lines, which ends at the end boundary. *)
Fixpoint pem_lines (first final : bytes) (found_begin : bool) (base64 : bytes) (ls : list bytes) : res DerError (bool * bool * bytes) :=
  match ls with
  | [] => Ok (found_begin, false, base64)
  | raw_line :: ls' =>
      let line := trim_end_matches is_blank raw_line in
      if negb found_begin then pem_lines first final (bytes_eqb line first) base64 ls'
      else if bytes_eqb line final then Ok (found_begin, true, base64)
      else if starts_with (str "-----END ") line then Err PemLabelMismatch
      else pem_lines first final found_begin (base64 ++ filter (fun b => not_whitespace b = true) line) ls'
  end.

Definition pem_decode (label input : bytes) : res DerError bytes :=
  let? _ := validate_pem_label label in
  let? (found_begin, found_end, base64) := pem_lines (begin_line label) (end_line label) false [] (lines input) in
  if negb found_begin then Err PemBeginMissing
  else if negb found_end then Err PemEndMissing
  else decode_base64 base64.

(** ** Chains of certificates *)
Record ChainState : Type := mkChain { chain_certificates : list bytes; inside_certificate : bool; chain_base64 : bytes }.

Definition chain_line (st : ChainState) (raw_line : bytes) : res DerError ChainState :=
  let line := trim_end_matches is_blank raw_line in
  if negb (inside_certificate st) then
    if bytes_eqb line (begin_line (str "CERTIFICATE")) then Ok (mkChain (chain_certificates st) true []) else Ok st
  else if bytes_eqb line (end_line (str "CERTIFICATE")) then
    let? der := decode_base64 (chain_base64 st) in
    Ok (mkChain (chain_certificates st ++ [der]) false [])
  else if starts_with (str "-----BEGIN ") line || starts_with (str "-----END ") line then Err PemLabelMismatch
  else Ok (mkChain (chain_certificates st) true (chain_base64 st ++ filter (fun b => not_whitespace b = true) line)).

Definition decode_x509_certificate_chain_pem (input : bytes) : res DerError (list bytes) :=
  let? st := res_foldM chain_line (mkChain [] false []) (lines input) in
  if inside_certificate st then Err PemEndMissing
  else match chain_certificates st with
       | [] => Err PemBeginMissing
       | certificates => Ok certificates
       end.

(** ** Sextets *)
Definition sextet_char (v : Z) : byte := nth (Z.to_nat v) BASE64_STANDARD_ALPHABET x00.

Lemma sextet_check :
  forallb (fun k => match decode_base64_character (nth k BASE64_STANDARD_ALPHABET x00), nth_error BASE64_STANDARD_ALPHABET k with
                    | Some v, Some _ => (v =? Z.of_nat k) && negb (byte_eqb (nth k BASE64_STANDARD_ALPHABET x00) x3d)
                    | _, _ => false
                    end) (seq 0 64) = true.
Proof. vm_compute. reflexivity. Qed.

Lemma nth_error_Some_lookup {A : Type} (l : list A) (k : nat) (a : A) : nth_error l k = Some a -> l !! k = Some a.
Proof. revert k. induction l as [|b l IH]; intros [|k]; cbn; auto; done. Qed.

Lemma sextet_char_spec {E : Type} (v : Z) : 0 <= v < 64 ->
  base64_character BASE64_STANDARD_ALPHABET v = Ok (sextet_char v) :> res E _ /\
  decode_base64_character (sextet_char v) = Some v /\ byte_eqb (sextet_char v) x3d = false.
Proof.
  intros Hv. pose proof sextet_check as H. rewrite forallb_forall in H. specialize (H (Z.to_nat v) ltac:(apply in_seq; lia)).
  fold (sextet_char v) in H. destruct (decode_base64_character (sextet_char v)) as [w|]; [|done].
  destruct (nth_error _ _) as [c|] eqn:En; [|done]. apply andb_true_iff in H as [Hw Hne]. apply Z.eqb_eq in Hw. apply negb_true_iff in Hne.
  split_and!; [|f_equal; lia|done]. unfold base64_character. apply index_Ok. unfold sextet_char.
  rewrite (nth_error_nth _ _ _ En). by apply nth_error_Some_lookup.
Qed.

Lemma sextet_char_inv (c : byte) (v : Z) : decode_base64_character c = Some v -> 0 <= v < 64 /\ c = sextet_char v.
Proof. destruct c; vm_compute; intros [= <-]; split; try done; split; discriminate. Qed.

(** The four characters of one to three octets. *)
Definition quartet_of (chunk : bytes) : bytes :=
  match chunk with
  | [x] => [sextet_char (u8 x / 4); sextet_char (u8 x mod 4 * 16); x3d; x3d]
  | [x; y] => [sextet_char (u8 x / 4); sextet_char (u8 x mod 4 * 16 + u8 y / 16); sextet_char (u8 y mod 16 * 4); x3d]
  | [x; y; z] => [sextet_char (u8 x / 4); sextet_char (u8 x mod 4 * 16 + u8 y / 16); sextet_char (u8 y mod 16 * 4 + u8 z / 64);
                  sextet_char (u8 z mod 64)]
  | _ => []
  end.

Lemma shl8_mul (a k : Z) : 0 <= k -> shl8 a k = (a * 2 ^ k) mod 256.
Proof. intros Hk. unfold shl8. by rewrite Z.shiftl_mul_pow2. Qed.

(** The octets of sextets, as the code computes them. *)
Lemma octet_of_0 (a b : Z) : 0 <= a < 64 -> 0 <= b < 64 -> Z.lor (shl8 a 2) (Z.shiftr b 4) = a * 4 + b / 16 /\ 0 <= b / 16 < 4.
Proof.
  intros Ha Hb. rewrite shl8_mul, Z.mod_small, Z.shiftr_div_pow2 by (change (2 ^ 2) with 4; lia). change (2 ^ 4) with 16.
  pose proof (Z.div_mod b 16 ltac:(done)). pose proof (Z.mod_pos_bound b 16 ltac:(done)).
  assert (0 <= b / 16 < 4) by lia. split; [by apply (lor_mul_add a _ 2)|done].
Qed.

Lemma octet_of_1 (b c : Z) : 0 <= b < 64 -> 0 <= c < 64 ->
  Z.lor (shl8 b 4) (Z.shiftr c 2) = b mod 16 * 16 + c / 4 /\ 0 <= c / 4 < 16.
Proof.
  intros Hb Hc. rewrite shl8_mul, Z.shiftr_div_pow2 by lia. change (2 ^ 4) with 16. change (2 ^ 2) with 4.
  pose proof (Z.div_mod c 4 ltac:(done)). pose proof (Z.mod_pos_bound c 4 ltac:(done)).
  assert (0 <= c / 4 < 16) by lia. replace 256 with (16 * 16) by done. rewrite Zmult_mod_distr_r. split; [by apply (lor_mul_add _ _ 4)|done].
Qed.

Lemma octet_of_2 (c d : Z) : 0 <= c < 64 -> 0 <= d < 64 -> Z.lor (shl8 c 6) d = c mod 4 * 64 + d.
Proof.
  intros Hc Hd. rewrite shl8_mul by lia. change (2 ^ 6) with 64. replace 256 with (4 * 64) by done. rewrite Zmult_mod_distr_r.
  by apply (lor_mul_add _ _ 6).
Qed.

Definition well_sized (chunk : bytes) : Prop := (1 <= length chunk <= 3)%nat.

Lemma div_range (x : Z) (a b : Z) : 0 < a -> 0 <= x < a * b -> 0 <= x / a < b.
Proof. intros Ha Hx. split; [apply Z.div_pos; lia|]. apply Z.div_lt_upper_bound; lia. Qed.

Lemma quartet_length (chunk : bytes) : well_sized chunk -> length (quartet_of chunk) = 4%nat.
Proof. intros Hc. destruct chunk as [|x [|y [|z [|]]]]; unfold well_sized in Hc; cbn [length] in Hc; (done || lia). Qed.

Lemma decode_quartet_of (is_last : bool) (out chunk : bytes) : well_sized chunk -> (length chunk < 3)%nat -> is_last = true ->
  decode_quartet is_last out (quartet_of chunk) = Ok (out ++ chunk).
Proof.
  intros Hc Hl ->. destruct chunk as [|x [|y [|]]]; unfold well_sized in *; cbn [length] in *; try lia; unfold decode_quartet; cbn [quartet_of index lookup list_lookup expect res_bind].
  - pose proof (u8_range x). pose proof (Z.mod_pos_bound (u8 x) 4 ltac:(done)). pose proof (div_range (u8 x) 4 64 ltac:(done) ltac:(lia)).
    destruct (sextet_char_spec (E := DerError) (u8 x / 4)) as (_ & D0 & N0); [lia|].
    destruct (sextet_char_spec (E := DerError) (u8 x mod 4 * 16)) as (_ & D1 & N1); [lia|].
    rewrite N0, N1, D0, D1. cbn [orb ok_or res_bind]. rewrite byte_eqb_refl. cbn [negb orb].
    assert (Z.land (u8 x mod 4 * 16) 15 = 0) as ->.
    { change 15 with (2 ^ 4 - 1). rewrite land_mask by lia. change (2 ^ 4) with 16. by rewrite Z.mod_mul. }
    cbn [Z.eqb negb]. do 3 f_equal. destruct (octet_of_0 (u8 x / 4) (u8 x mod 4 * 16)) as [-> _]; [lia..|].
    pose proof (octet_0 x 0 ltac:(lia)) as Ho. by rewrite Z.add_0_r in Ho.
  - pose proof (u8_range x). pose proof (Z.mod_pos_bound (u8 x) 4 ltac:(done)). pose proof (div_range (u8 x) 4 64 ltac:(done) ltac:(lia)).
    pose proof (u8_range y). pose proof (Z.mod_pos_bound (u8 y) 16 ltac:(done)). pose proof (div_range (u8 y) 16 16 ltac:(done) ltac:(lia)).
    destruct (sextet_char_spec (E := DerError) (u8 x / 4)) as (_ & D0 & N0); [lia|].
    destruct (sextet_char_spec (E := DerError) (u8 x mod 4 * 16 + u8 y / 16)) as (_ & D1 & N1); [lia|].
    destruct (sextet_char_spec (E := DerError) (u8 y mod 16 * 4)) as (_ & D2 & N2); [lia|].
    rewrite N0, N1, N2, D0, D1, D2. cbn [orb ok_or res_bind]. rewrite byte_eqb_refl. cbn [negb orb].
    assert (Z.land (u8 y mod 16 * 4) 3 = 0) as ->.
    { change 3 with (2 ^ 2 - 1). rewrite land_mask by lia. change (2 ^ 2) with 4. by rewrite Z.mod_mul. }
    cbn [Z.eqb negb]. rewrite <- app_assoc. do 2 f_equal. cbn [app].
    destruct (octet_of_0 (u8 x / 4) (u8 x mod 4 * 16 + u8 y / 16)) as [-> _]; [lia..|].
    destruct (octet_of_1 (u8 x mod 4 * 16 + u8 y / 16) (u8 y mod 16 * 4)) as [-> _]; [lia..|].
    rewrite octet_0 by lia. pose proof (octet_1 y (u8 x mod 4) 0 ltac:(lia)) as Ho. rewrite Z.add_0_r in Ho. by rewrite Ho.
Qed.

Lemma decode_quartet_full (is_last : bool) (out : bytes) (x y z : byte) :
  decode_quartet is_last out (quartet_of [x; y; z]) = Ok (out ++ [x; y; z]).
Proof.
  unfold decode_quartet; cbn [quartet_of index lookup list_lookup expect res_bind].
  pose proof (u8_range x). pose proof (Z.mod_pos_bound (u8 x) 4 ltac:(done)). pose proof (div_range (u8 x) 4 64 ltac:(done) ltac:(lia)).
  pose proof (u8_range y). pose proof (Z.mod_pos_bound (u8 y) 16 ltac:(done)). pose proof (div_range (u8 y) 16 16 ltac:(done) ltac:(lia)).
  pose proof (u8_range z). pose proof (Z.mod_pos_bound (u8 z) 64 ltac:(done)). pose proof (div_range (u8 z) 64 4 ltac:(done) ltac:(lia)).
  destruct (sextet_char_spec (E := DerError) (u8 x / 4)) as (_ & D0 & N0); [lia|].
  destruct (sextet_char_spec (E := DerError) (u8 x mod 4 * 16 + u8 y / 16)) as (_ & D1 & N1); [lia|].
  destruct (sextet_char_spec (E := DerError) (u8 y mod 16 * 4 + u8 z / 64)) as (_ & D2 & N2); [lia|].
  destruct (sextet_char_spec (E := DerError) (u8 z mod 64)) as (_ & D3 & N3); [lia|].
  rewrite N0, N1, N2, N3, D0, D1, D2, D3. cbn [orb ok_or res_bind]. rewrite <- !app_assoc. do 2 f_equal. cbn [app].
  destruct (octet_of_0 (u8 x / 4) (u8 x mod 4 * 16 + u8 y / 16)) as [-> _]; [lia..|].
  destruct (octet_of_1 (u8 x mod 4 * 16 + u8 y / 16) (u8 y mod 16 * 4 + u8 z / 64)) as [-> _]; [lia..|].
  rewrite (octet_of_2 (u8 y mod 16 * 4 + u8 z / 64)) by lia. rewrite octet_0, octet_1 by lia. by rewrite octet_2.
Qed.

(** What decodes is the quartet of the octets it gives; only the last quartet may be padded. *)
Lemma decode_quartet_inv (is_last : bool) (out q out' : bytes) : length q = 4%nat -> decode_quartet is_last out q = Ok out' ->
  exists chunk, well_sized chunk /\ q = quartet_of chunk /\ out' = out ++ chunk /\ ((length chunk < 3)%nat -> is_last = true).
Proof.
  intros Hq. destruct q as [|q0 [|q1 [|q2 [|q3 [|]]]]]; try discriminate Hq. unfold decode_quartet. cbn [index lookup list_lookup expect res_bind].
  destruct (byte_eqb q0 x3d), (byte_eqb q1 x3d); try done. cbn [orb].
  destruct (decode_base64_character q0) as [a|] eqn:D0; [|done]. destruct (decode_base64_character q1) as [b|] eqn:D1; [|done]. cbn [ok_or res_bind].
  apply sextet_char_inv in D0 as [Ra ->]. apply sextet_char_inv in D1 as [Rb ->].
  destruct (octet_of_0 a b Ra Rb) as [-> H0]. set (x := of_u8 (a * 4 + b / 16)). assert (Hx : u8 x = a * 4 + b / 16) by (apply u8_of_u8; lia).
  assert (Xd : u8 x / 4 = a) by (rewrite Hx; symmetry; apply (Z.div_unique _ _ _ (b / 16)); lia).
  assert (Xm : u8 x mod 4 = b / 16) by (rewrite Hx; symmetry; apply (Z.mod_unique _ _ a); lia).
  pose proof (Z.div_mod b 16 ltac:(done)) as Hb. pose proof (Z.mod_pos_bound b 16 ltac:(done)) as Hbm.
  destruct (byte_eqb q2 x3d) eqn:E2.
  - apply byte_eqb_eq in E2 as ->. destruct (byte_eqb q3 x3d) eqn:E3; [|done]. apply byte_eqb_eq in E3 as ->. destruct is_last; [|done]. cbn [negb orb].
    destruct (Z.eqb_spec (Z.land b 15) 0) as [Hz|]; [|done]. intros [= <-]. change 15 with (2 ^ 4 - 1) in Hz. rewrite land_mask in Hz by lia. change (2 ^ 4) with 16 in Hz.
    exists [x]. split_and!; [by unfold well_sized; cbn; lia| |done|done]. cbn [quartet_of]. rewrite Xd, Xm. by replace (b / 16 * 16) with b by lia.
  - destruct (decode_base64_character q2) as [c|] eqn:D2; [|done]. cbn [ok_or res_bind]. apply sextet_char_inv in D2 as [Rc ->].
    destruct (octet_of_1 b c Rb Rc) as [-> H1]. set (y := of_u8 (b mod 16 * 16 + c / 4)). assert (Hy : u8 y = b mod 16 * 16 + c / 4) by (apply u8_of_u8; lia).
    assert (Yd : u8 y / 16 = b mod 16) by (rewrite Hy; symmetry; apply (Z.div_unique _ _ _ (c / 4)); lia).
    assert (Ym : u8 y mod 16 = c / 4) by (rewrite Hy; symmetry; apply (Z.mod_unique _ _ (b mod 16)); lia).
    pose proof (Z.div_mod c 4 ltac:(done)) as Hc. pose proof (Z.mod_pos_bound c 4 ltac:(done)) as Hcm.
    destruct (byte_eqb q3 x3d) eqn:E3.
    + apply byte_eqb_eq in E3 as ->. destruct is_last; [|done]. cbn [negb orb].
      destruct (Z.eqb_spec (Z.land c 3) 0) as [Hz|]; [|done]. intros [= <-]. change 3 with (2 ^ 2 - 1) in Hz. rewrite land_mask in Hz by lia. change (2 ^ 2) with 4 in Hz.
      exists [x; y]. split_and!; [by unfold well_sized; cbn; lia| |by rewrite <- app_assoc|done]. cbn [quartet_of]. rewrite Xd, Xm, Yd, Ym.
      replace (b / 16 * 16 + b mod 16) with b by lia. by replace (c / 4 * 4) with c by lia.
    + destruct (decode_base64_character q3) as [d|] eqn:D3; [|done]. cbn [ok_or res_bind]. apply sextet_char_inv in D3 as [Rd ->].
      rewrite (octet_of_2 c d Rc Rd). set (z := of_u8 (c mod 4 * 64 + d)). assert (Hz : u8 z = c mod 4 * 64 + d) by (apply u8_of_u8; lia).
      assert (Zd : u8 z / 64 = c mod 4) by (rewrite Hz; symmetry; apply (Z.div_unique _ _ _ d); lia).
      assert (Zm : u8 z mod 64 = d) by (rewrite Hz; symmetry; apply (Z.mod_unique _ _ (c mod 4)); lia).
      intros [= <-]. exists [x; y; z]. split_and!; [by unfold well_sized; cbn; lia| |by rewrite <- !app_assoc|cbn; lia]. cbn [quartet_of]. rewrite Xd, Xm, Yd, Ym, Zd, Zm.
      replace (b / 16 * 16 + b mod 16) with b by lia. by replace (c / 4 * 4 + c mod 4) with c by lia.
Qed.

(** ** Whole texts of Base64 *)
(** Chunks of three octets, but for the last. *)
Fixpoint well_chunked (cs : list bytes) : Prop :=
  match cs with
  | [] => True
  | [c] => well_sized c
  | c :: cs' => length c = 3%nat /\ well_chunked cs'
  end.

Lemma well_chunked_cons (c : bytes) (cs : list bytes) : cs <> [] -> well_chunked (c :: cs) <-> length c = 3%nat /\ well_chunked cs.
Proof. by destruct cs. Qed.

Lemma well_chunked_sized (cs : list bytes) : well_chunked cs -> Forall well_sized cs.
Proof.
  induction cs as [|c [|c' cs] IH]; [by constructor|by constructor|]. intros [Hc Hcs]. constructor; [unfold well_sized; lia|by apply IH].
Qed.

Lemma chunk_input (input : bytes) : exists cs, input = concat cs /\ well_chunked cs.
Proof.
  induction input as [input IH] using (induction_ltof1 _ (@length byte)). unfold ltof in IH.
  destruct (Nat.le_gt_cases (length input) 3) as [Hl|Hl].
  - destruct input as [|b input]; [by exists []|]. exists [b :: input]. cbn [concat]. rewrite app_nil_r. split; [done|]. cbn [well_chunked]. unfold well_sized. cbn [length] in *. lia.
  - destruct (IH (drop 3 input)) as (cs & Hd & Hcs); [rewrite length_drop; lia|]. exists (take 3 input :: cs). cbn [concat]. rewrite <- Hd, take_drop.
    split; [done|]. apply well_chunked_cons; [|split; [rewrite length_take; lia|done]].
    intros ->. apply (f_equal length) in Hd. rewrite length_drop in Hd. cbn in Hd. lia.
Qed.

Lemma encode_group_quartet {E : Type} (out c : bytes) : length c = 3%nat ->
  encode_group BASE64_STANDARD_ALPHABET out c = Ok (out ++ quartet_of c) :> res E _.
Proof.
  intros Hl. destruct c as [|x [|y [|z [|]]]]; try discriminate Hl. unfold encode_group. cbn [index lookup list_lookup expect res_bind].
  destruct (sextet_0 x) as [-> H0], (sextet_1 x y) as [-> H1], (sextet_2 y z) as [-> H2], (sextet_3 z) as [-> H3].
  destruct (sextet_high x) as [_ Hx], (sextet_low y) as [_ Hy].
  destruct (sextet_char_spec (E := E) (u8 x / 4)) as (-> & _); [lia|].
  destruct (sextet_char_spec (E := E) (u8 x mod 4 * 16 + u8 y / 16)) as (-> & _); [lia|].
  destruct (sextet_char_spec (E := E) (u8 y mod 16 * 4 + u8 z / 64)) as (-> & _); [lia|].
  destruct (sextet_char_spec (E := E) (u8 z mod 64)) as (-> & _); [lia|]. done.
Qed.

Lemma encode_remainder_quartet {E : Type} (out c : bytes) : well_sized c -> (length c < 3)%nat ->
  encode_remainder BASE64_STANDARD_ALPHABET true out c = Ok (out ++ quartet_of c) :> res E _.
Proof.
  unfold well_sized. intros Hl Hs. destruct c as [|x [|y [|]]]; cbn [length] in *; try lia; unfold encode_remainder; cbn [length Nat.eqb index lookup list_lookup expect res_bind].
  - destruct (sextet_0 x) as [-> H0], (sextet_high x) as [-> H1].
    destruct (sextet_char_spec (E := E) (u8 x / 4)) as (-> & _); [lia|].
    destruct (sextet_char_spec (E := E) (u8 x mod 4 * 16)) as (-> & _); [lia|]. done.
  - destruct (sextet_0 x) as [-> H0], (sextet_1 x y) as [-> H1], (sextet_low y) as [-> H2]. destruct (sextet_high x) as [_ Hx].
    destruct (sextet_char_spec (E := E) (u8 x / 4)) as (-> & _); [lia|].
    destruct (sextet_char_spec (E := E) (u8 x mod 4 * 16 + u8 y / 16)) as (-> & _); [lia|].
    destruct (sextet_char_spec (E := E) (u8 y mod 16 * 4)) as (-> & _); [lia|]. done.
Qed.

Lemma encode_chunks {E : Type} (cs : list bytes) : well_chunked cs ->
  encode_base64 (concat cs) = Ok (concat (map quartet_of cs)) :> res E _.
Proof.
  intros Hcs. unfold encode_base64, encode_base64_inner. rewrite <- (app_nil_l (concat (map quartet_of cs))). generalize (@nil byte) as out.
  induction cs as [|c cs IH]; intros out; [cbn; by rewrite app_nil_r|]. destruct (decide (cs = [])) as [->|Hne].
  - cbn [concat map] in *. rewrite !app_nil_r. cbn [well_chunked] in Hcs. destruct (decide (length c = 3%nat)) as [Hl|Hl].
    + rewrite <- (app_nil_r c) at 1. rewrite chunks_exact_app by (done || lia). rewrite chunks_exact_short by (cbn; lia). cbn [fst snd res_foldM].
      rewrite encode_group_quartet by done. done.
    + unfold well_sized in Hcs. rewrite chunks_exact_short by lia. cbn [res_foldM res_bind]. apply encode_remainder_quartet; [done|lia].
  - apply well_chunked_cons in Hcs as [Hc Hcs]; [|done]. cbn [concat map]. rewrite chunks_exact_app by (done || lia).
    specialize (IH Hcs (out ++ quartet_of c)). destruct (chunks_exact 3 (concat cs)) as [gs r]. cbn [fst snd res_foldM].
    rewrite encode_group_quartet by done. cbn [res_bind]. rewrite IH. by rewrite <- app_assoc.
Qed.

Lemma quartets_chunks (cs : list bytes) : Forall well_sized cs ->
  chunks_exact 4 (concat (map quartet_of cs)) = (map quartet_of cs, []) /\ length (concat (map quartet_of cs)) = (4 * length cs)%nat.
Proof.
  induction 1 as [|c cs Hc Hcs [IH1 IH2]]; [done|]. cbn [map concat]. pose proof (quartet_length c Hc) as Hl.
  rewrite chunks_exact_app by (done || lia). rewrite IH1, length_app, IH2, Hl. cbn [length]. split; [done|lia].
Qed.

Lemma decode_loop_complete (cs : list bytes) (out : bytes) (i n : nat) : well_chunked cs -> (i + length cs)%nat = n ->
  res_foldM (fun output '(block_index, quartet) => decode_quartet (block_index + 1 =? n)%nat output quartet) out
    (zip (seq i (length cs)) (map quartet_of cs)) = Ok (out ++ concat cs).
Proof.
  revert out i. induction cs as [|c cs IH]; intros out i Hcs Hn; [cbn; by rewrite app_nil_r|]. cbn [length seq map zip zip_with res_foldM concat] in *.
  assert (Hq : decode_quartet (i + 1 =? n)%nat out (quartet_of c) = Ok (out ++ c)).
  { destruct (decide (length c = 3%nat)) as [Hl|Hl].
    - destruct c as [|x [|y [|z [|]]]]; try discriminate Hl. apply decode_quartet_full.
    - destruct cs as [|c' cs]; [|by destruct Hcs]. cbn [well_chunked length] in *. unfold well_sized in Hcs.
      apply decode_quartet_of; [done|lia|]. apply Nat.eqb_eq. lia. }
  rewrite Hq. cbn [res_bind]. rewrite app_assoc. apply IH; [|lia]. by destruct cs; [|destruct Hcs].
Qed.

Lemma decode_loop_sound (qs : list bytes) (out out' : bytes) (i n : nat) :
  Forall (fun q => length q = 4%nat) qs -> (i + length qs)%nat = n ->
  res_foldM (fun output '(block_index, quartet) => decode_quartet (block_index + 1 =? n)%nat output quartet) out
    (zip (seq i (length qs)) qs) = Ok out' ->
  exists cs, well_chunked cs /\ qs = map quartet_of cs /\ out' = out ++ concat cs.
Proof.
  intros Hall. revert out i. induction Hall as [|q qs Hq Hqs IH]; intros out i Hn H.
  { apply Ok_inj in H as <-. exists []. cbn. by rewrite app_nil_r. }
  cbn [length seq zip zip_with res_foldM] in *. apply res_bind_Ok in H as (o & Ho & H).
  destruct (decode_quartet_inv _ _ _ _ Hq Ho) as (c & Hc & -> & -> & Hlast).
  destruct (IH _ (S i) ltac:(lia) H) as (cs & Hcs & -> & ->). exists (c :: cs). cbn [map concat]. rewrite app_assoc. split_and!; [|done|done].
  destruct cs as [|c' cs]; [done|]. split; [|done]. unfold well_sized in Hc. destruct (decide (length c < 3)%nat) as [Hl|]; [|lia].
  apply Hlast, Nat.eqb_eq in Hl. cbn [map length] in Hn. lia.
Qed.

Lemma decode_base64_iff (encoded bs : bytes) : decode_base64 encoded = Ok bs <-> encode_base64 bs = Ok encoded :> res DerError _.
Proof.
  unfold decode_base64. split.
  - destruct (Nat.eqb_spec (length encoded mod 4) 0) as [Hm|]; [|done]. cbn [negb]. intros H.
    destruct (chunks_exact_spec 4 encoded ltac:(lia)) as (Hc & Hf & Hr). pose proof (length_chunks_exact 4 encoded ltac:(lia)) as Hl.
    destruct (chunks_exact 4 encoded) as [qs r]. cbn [fst snd] in *. symmetry in Hc.
    assert (Hr0 : r = []).
    { apply length_zero_iff_nil. rewrite Hc, length_app, (length_concat_chunks 4) in Hm by done.
      rewrite (Nat.mul_comm _ 4), Nat.add_comm, Nat.mul_comm, Nat.Div0.mod_add, Nat.mod_small in Hm by lia. done. }
    subst r. rewrite app_nil_r in Hc.
    assert (Hn : (length encoded / 4)%nat = length qs) by (rewrite Hc, (length_concat_chunks 4) by done; first [by rewrite Nat.div_mul by lia | by rewrite Nat.mul_comm, Nat.div_mul by lia]).
    rewrite Hn in H. destruct (decode_loop_sound qs [] bs 0 (length qs) Hf eq_refl H) as (cs & Hcs & -> & ->). cbn [app].
    rewrite encode_chunks by done. by rewrite Hc.
  - destruct (chunk_input bs) as (cs & -> & Hcs). rewrite encode_chunks by done. intros [= <-].
    destruct (quartets_chunks cs (well_chunked_sized cs Hcs)) as [Hq Hl]. rewrite Hl, Hq. rewrite (Nat.mul_comm 4), Nat.Div0.mod_mul, Nat.div_mul by lia.
    cbn [Nat.eqb negb fst]. by apply (decode_loop_complete cs [] 0).
Qed.

(** ** Texts as lines *)
Definition unlines (ls : list bytes) : bytes := concat (map (fun line => line ++ [LF]) ls).
Definition one_line (l : bytes) : Prop := Forall (fun b => byte_eqb LF b = false) l.
Definition trimmed (l : bytes) : bytes := trim_end_matches is_blank l.
Definition payload (l : bytes) : bytes := filter (fun b => not_whitespace b = true) (trimmed l).

Lemma lines_cons (l rest : bytes) : one_line l -> lines (l ++ LF :: rest) = strip_cr l :: lines rest.
Proof.
  intros Hl. unfold lines. rewrite split_on_app_sep by done. pose proof (split_on_ne (byte_eqb LF) rest) as Hne.
  destruct (split_on (byte_eqb LF) rest) as [|p ps]; done.
Qed.

Lemma lines_of_unlines (ls : list bytes) (rest : bytes) : Forall one_line ls -> lines (unlines ls ++ rest) = map strip_cr ls ++ lines rest.
Proof.
  unfold unlines. induction 1 as [|l ls Hl Hls IH]; [done|]. cbn [map concat]. rewrite <- !app_assoc. cbn [app]. rewrite lines_cons by done. by rewrite IH.
Qed.

Lemma unlines_app (xs ys : list bytes) : unlines (xs ++ ys) = unlines xs ++ unlines ys.
Proof. unfold unlines. by rewrite map_app, concat_app. Qed.

(** A character that a text line can end with. *)
Definition solid (b : byte) : bool := negb (is_blank b) && negb (byte_eqb b CR).

Lemma solid_end (l : bytes) (b : byte) : solid b = true -> strip_cr (l ++ [b]) = l ++ [b] /\ trimmed (l ++ [b]) = l ++ [b].
Proof.
  intros Hb. apply andb_true_iff in Hb as [Hb Hc]. apply negb_true_iff in Hb, Hc. split.
  - unfold strip_cr. by rewrite strip_suffix_snoc, Hc.
  - unfold trimmed. rewrite <- (app_nil_r (l ++ [b])) at 1. by apply trim_end_matches_snoc.
Qed.

(** The characters of the Base64 text. *)
Definition pem_char (b : byte) : bool := bool_decide (is_Some (decode_base64_character b)) || byte_eqb b x3d.

Lemma pem_char_facts (b : byte) : pem_char b = true ->
  solid b = true /\ not_whitespace b = true /\ byte_eqb LF b = false /\ byte_eqb x2d b = false.
Proof. destruct b; vm_compute; intros H; split_and!; done. Qed.

Lemma pem_char_line (l : bytes) : l <> [] -> Forall (fun b => pem_char b = true) l ->
  one_line l /\ strip_cr l = l /\ trimmed l = l /\ payload l = l /\ starts_with (str "-----END ") l = false /\
  starts_with (str "-----BEGIN ") l = false.
Proof.
  intros Hne Hl. assert (Hw : Forall (fun b => not_whitespace b = true) l).
  { eapply Forall_impl; [exact Hl|]. intros b Hb. by apply pem_char_facts. }
  assert (He : strip_cr l = l /\ trimmed l = l).
  { destruct (exists_last Hne) as (l' & b & ->). apply Forall_app in Hl as [_ Hb]. apply Forall_cons in Hb as [Hb _]. apply solid_end. by apply pem_char_facts. }
  destruct He as [Hs Ht]. split_and!; try done.
  - eapply Forall_impl; [exact Hl|]. intros b Hb. by apply pem_char_facts.
  - unfold payload. rewrite Ht. by apply filter_all.
  - destruct l as [|b l]; [done|]. apply Forall_cons in Hl as [Hb _]. apply pem_char_facts in Hb as (_ & _ & _ & Hb). change (byte_eqb x2d b && starts_with (str "----END ") l = false) || change (byte_eqb x2d b && starts_with (str "----BEGIN ") l = false). by rewrite Hb.
  - destruct l as [|b l]; [done|]. apply Forall_cons in Hl as [Hb _]. apply pem_char_facts in Hb as (_ & _ & _ & Hb). change (byte_eqb x2d b && starts_with (str "----END ") l = false) || change (byte_eqb x2d b && starts_with (str "----BEGIN ") l = false). by rewrite Hb.
Qed.

Lemma sextet_pem_char (v : Z) : 0 <= v < 64 -> pem_char (sextet_char v) = true.
Proof.
  intros Hv. destruct (sextet_char_spec (E := DerError) v Hv) as (_ & H & _). unfold pem_char. rewrite H.
  rewrite (bool_decide_true (is_Some (Some v))) by eauto. done.
Qed.

Lemma quartet_pem_chars (chunk : bytes) : Forall (fun b => pem_char b = true) (quartet_of chunk).
Proof.
  assert (Hr : forall b, 0 <= u8 b / 4 < 64 /\ 0 <= u8 b / 16 < 16 /\ 0 <= u8 b / 64 < 4).
  { intros b. pose proof (u8_range b). split; [|split]; apply div_range; lia. }
  destruct chunk as [|x [|y [|z [|]]]]; try apply Forall_nil; cbn [quartet_of]; try done;
    pose proof (Hr x) as (?&?&?); pose proof (Z.mod_pos_bound (u8 x) 4 ltac:(done));
    try (pose proof (Hr y) as (?&?&?); pose proof (Z.mod_pos_bound (u8 y) 16 ltac:(done)));
    try (pose proof (Hr z) as (?&?&?); pose proof (Z.mod_pos_bound (u8 z) 64 ltac:(done)));
    repeat (apply Forall_cons; split); try apply Forall_nil; try done; apply sextet_pem_char; lia.
Qed.

Lemma encode_base64_spec {E : Type} (der : bytes) : exists text, encode_base64 der = Ok text :> res E _ /\ Forall (fun b => pem_char b = true) text.
Proof.
  destruct (chunk_input der) as (cs & -> & Hcs). exists (concat (map quartet_of cs)). split; [by apply encode_chunks|].
  induction cs as [|c cs IH]; [by apply Forall_nil|]. cbn [map concat]. apply Forall_app. split; [apply quartet_pem_chars|].
  destruct (decide (cs = [])) as [->|Hne]; [by apply Forall_nil|]. apply IH. by apply well_chunked_cons in Hcs as [_ Hcs].
Qed.

Lemma chunks_lines (n : nat) (l : bytes) : (0 < n)%nat -> concat (chunks n l) = l /\ Forall (fun c => c <> []) (chunks n l) /\
  (forall P : byte -> Prop, Forall P l -> Forall (Forall P) (chunks n l)).
Proof.
  intros Hn. induction l as [l IH] using (induction_ltof1 _ (@length byte)). unfold ltof in IH.
  destruct (decide (l = [])) as [->|Hne]; [rewrite chunks_nil; by split_and!|]. rewrite chunks_step by done.
  assert (Hp : (0 < length l)%nat) by (destruct l; [done|cbn; lia]).
  destruct (IH (drop n l)) as (H1 & H2 & H3); [rewrite length_drop; lia|]. cbn [concat]. rewrite H1, take_drop. split_and!; [done| |].
  - constructor; [|done]. intros Ht. apply (f_equal length) in Ht. rewrite length_take in Ht. cbn in Ht. lia.
  - intros P HP. rewrite <- (take_drop n l) in HP. apply Forall_app in HP as [? ?]. constructor; [done|by apply H3].
Qed.

(** ** The loop over the lines *)
Lemma final_ne (label l : bytes) : starts_with (str "-----END ") (trimmed l) = false -> bytes_eqb (trimmed l) (end_line label) = false.
Proof.
  intros Hs. destruct (bytes_eqb _ _) eqn:E; [|done]. apply bytes_eqb_eq in E. rewrite E in Hs. unfold end_line in Hs.
  by rewrite starts_with_app in Hs.
Qed.

Lemma pem_lines_before (label base64 : bytes) (pre : list bytes) (b : bytes) (ls : list bytes) :
  Forall (fun l => trimmed l <> begin_line label) pre -> trimmed b = begin_line label ->
  pem_lines (begin_line label) (end_line label) false base64 (pre ++ b :: ls) = pem_lines (begin_line label) (end_line label) true base64 ls.
Proof.
  intros Hpre Hb. induction Hpre as [|l pre Hl Hpre IH]; cbn [app pem_lines negb]; fold (trimmed b).
  - by rewrite Hb, bytes_eqb_refl.
  - fold (trimmed l). destruct (bytes_eqb (trimmed l) (begin_line label)) eqn:E; [by apply bytes_eqb_eq in E|done].
Qed.

Lemma pem_lines_body (label base64 : bytes) (body ls : list bytes) :
  Forall (fun l => starts_with (str "-----END ") (trimmed l) = false) body ->
  pem_lines (begin_line label) (end_line label) true base64 (body ++ ls) =
  pem_lines (begin_line label) (end_line label) true (base64 ++ concat (map payload body)) ls.
Proof.
  intros Hb. revert base64. induction Hb as [|l body Hl Hb IH]; intros base64; cbn [app map concat]; [by rewrite app_nil_r|].
  cbn [pem_lines negb]. fold (trimmed l). rewrite final_ne, Hl, IH by done. by rewrite <- app_assoc.
Qed.

Lemma pem_lines_end (label base64 e : bytes) (ls : list bytes) : trimmed e = end_line label ->
  pem_lines (begin_line label) (end_line label) true base64 (e :: ls) = Ok (true, true, base64).
Proof. intros He. cbn [pem_lines negb]. fold (trimmed e). by rewrite He, bytes_eqb_refl. Qed.

(** What a finished loop has seen. *)
Lemma pem_lines_inv (label base64 out : bytes) (ls : list bytes) :
  pem_lines (begin_line label) (end_line label) true base64 ls = Ok (true, true, out) ->
  exists body e rest, ls = body ++ e :: rest /\ trimmed e = end_line label /\
    Forall (fun l => starts_with (str "-----END ") (trimmed l) = false) body /\ out = base64 ++ concat (map payload body).
Proof.
  revert base64. induction ls as [|l ls IH]; intros base64; cbn [pem_lines negb]; [done|]. fold (trimmed l).
  destruct (bytes_eqb (trimmed l) (end_line label)) eqn:E.
  - intros [= <-]. apply bytes_eqb_eq in E. exists [], l, ls. by rewrite app_nil_r.
  - destruct (starts_with _ (trimmed l)) eqn:Es; [done|]. intros H. destruct (IH _ H) as (body & e & rest & -> & He & Hb & ->).
    exists (l :: body), e, rest. cbn [map concat app]. rewrite <- app_assoc. split_and!; try done. by constructor.
Qed.

Lemma pem_lines_inv_begin (label out : bytes) (found_end : bool) (ls : list bytes) :
  pem_lines (begin_line label) (end_line label) false [] ls = Ok (true, found_end, out) ->
  exists pre b rest, ls = pre ++ b :: rest /\ Forall (fun l => trimmed l <> begin_line label) pre /\ trimmed b = begin_line label /\
    pem_lines (begin_line label) (end_line label) true [] rest = Ok (true, found_end, out).
Proof.
  induction ls as [|l ls IH]; cbn [pem_lines negb]; [done|]. fold (trimmed l).
  destruct (bytes_eqb (trimmed l) (begin_line label)) eqn:E; intros H.
  - apply bytes_eqb_eq in E. by exists [], l, ls.
  - destruct (IH H) as (pre & b & rest & -> & Hpre & Hb & Hr). exists (l :: pre), b, rest. split_and!; try done. constructor; [|done].
    intros Heq. by rewrite Heq, bytes_eqb_refl in E.
Qed.

Lemma pem_lines_flags (label base64 out : bytes) (fb fe found : bool) (ls : list bytes) :
  pem_lines (begin_line label) (end_line label) found base64 ls = Ok (fb, fe, out) -> fe = true -> fb = true.
Proof.
  revert found base64. induction ls as [|l ls IH]; intros found base64; cbn [pem_lines]; [by intros [= <- <- <-]|].
  destruct found; cbn [negb]; [|apply IH]. destruct (bytes_eqb _ _); [by intros [= <- <- <-]|]. destruct (starts_with _ _); [done|]. apply IH.
Qed.

Lemma pem_lines_returns (first final base64 : bytes) (found : bool) (ls : list bytes) : returns (pem_lines first final found base64 ls).
Proof.
  revert found base64. induction ls as [|l ls IH]; intros found base64; cbn [pem_lines]; [done|].
  destruct found; cbn [negb]; [|apply IH]. destruct (bytes_eqb _ _); [done|]. destruct (starts_with _ _); [done|]. apply IH.
Qed.

(** ** The label *)
Lemma label_step_inv (previous next : option byte) (b : byte) : label_step previous b = Ok next ->
  next = Some b /\ (label_char b || label_separator b) = true.
Proof.
  unfold label_step. destruct (label_char b); [by intros [= <-]|]. destruct (label_separator b); [|done]. case_bool_decide; [done|]. by intros [= <-].
Qed.

Lemma label_chars (label : bytes) : validate_pem_label label = Ok tt ->
  label <> [] /\ Forall (fun b => label_char b || label_separator b = true) label.
Proof.
  unfold validate_pem_label. destruct label as [|b label]; [done|]. destruct (head (b :: label)), (list.last (b :: label)); try done.
  destruct (_ || _); [done|]. intros H. apply res_bind_Ok in H as (o & H & _). split; [done|]. revert H. generalize (@None byte). generalize (b :: label) as l.
  induction l as [|c l IH]; intros previous H; [by apply Forall_nil|]. cbn [res_foldM] in H. apply res_bind_Ok in H as (next & Hc & H).
  apply label_step_inv in Hc as [_ Hc]. constructor; [done|]. by eapply IH.
Qed.

Lemma validate_pem_label_returns (label : bytes) : returns (validate_pem_label label).
Proof.
  unfold validate_pem_label. destruct (head label), (list.last label); try done. destruct (_ || _); [done|].
  apply res_bind_returns; [|done]. apply res_foldM_returns. intros s c _. unfold label_step. by repeat case_match.
Qed.

Lemma boundary_line (label : bytes) : validate_pem_label label = Ok tt ->
  (one_line (begin_line label) /\ strip_cr (begin_line label) = begin_line label /\ trimmed (begin_line label) = begin_line label) /\
  (one_line (end_line label) /\ strip_cr (end_line label) = end_line label /\ trimmed (end_line label) = end_line label).
Proof.
  intros Hl. apply label_chars in Hl as [_ Hl].
  assert (Ho : one_line label).
  { eapply Forall_impl; [exact Hl|]. intros b. destruct b; vm_compute; done. }
  assert (He : forall pre, strip_cr (pre ++ str "-----") = pre ++ str "-----" /\ trimmed (pre ++ str "-----") = pre ++ str "-----").
  { intros pre. change (str "-----") with (str "----" ++ [x2d]). rewrite app_assoc. by apply solid_end. }
  unfold begin_line, end_line, one_line. rewrite !Forall_app. rewrite !app_assoc. split; (split; [|apply He]); split_and!; try done; repeat constructor.
Qed.

(** What the encoder writes. *)
Lemma pem_encode_lines (label der : bytes) : validate_pem_label label = Ok tt ->
  exists body, pem_encode label der = Ok (unlines (begin_line label :: body ++ [end_line label])) /\
    encode_base64 der = Ok (concat body) :> res DerError _ /\
    Forall (fun l => l <> [] /\ Forall (fun b => pem_char b = true) l) body.
Proof.
  intros Hv. destruct (encode_base64_spec (E := DerError) der) as (text & He & Ht). destruct (chunks_lines PEM_LINE_WIDTH text) as (H1 & H2 & H3); [unfold PEM_LINE_WIDTH; lia|].
  exists (chunks PEM_LINE_WIDTH text). rewrite H1. split_and!; [|done|].
  - unfold pem_encode. rewrite Hv, He. cbn [res_bind]. do 2 f_equal. unfold unlines. cbn [map concat]. rewrite map_app, concat_app. cbn [map concat].
    by rewrite app_nil_r.
  - apply Forall_and. split; [done|by apply H3].
Qed.

Lemma body_facts (body : list bytes) : Forall (fun l => l <> [] /\ Forall (fun b => pem_char b = true) l) body ->
  Forall one_line body /\ map strip_cr body = body /\ concat (map payload body) = concat body /\
  Forall (fun l => starts_with (str "-----END ") (trimmed l) = false) body /\
  Forall (fun l => starts_with (str "-----BEGIN ") (trimmed l) = false) body.
Proof.
  induction 1 as [|l body [Hne Hl] Hb (H1 & H2 & H3 & H4 & H5)]; [done|].
  destruct (pem_char_line l Hne Hl) as (L1 & L2 & L3 & L4 & L5 & L6). cbn [map concat]. rewrite H2, H3, L2, L4.
  split_and!; try done; constructor; try done; by rewrite L3.
Qed.

(** Lines of an encoded text that follow others. *)
Lemma pem_encode_then (label der : bytes) (rest : bytes) (text : bytes) : validate_pem_label label = Ok tt -> pem_encode label der = Ok text ->
  exists body, lines (text ++ rest) = begin_line label :: body ++ end_line label :: lines rest /\
    encode_base64 der = Ok (concat (map payload body)) :> res DerError _ /\
    Forall (fun l => starts_with (str "-----END ") (trimmed l) = false) body /\
    Forall (fun l => starts_with (str "-----BEGIN ") (trimmed l) = false) body.
Proof.
  intros Hv Ht. destruct (pem_encode_lines label der Hv) as (body & Hp & He & Hb). rewrite Hp in Ht. apply Ok_inj in Ht as <-.
  destruct (boundary_line label Hv) as [(B1 & B2 & _) (E1 & E2 & _)]. destruct (body_facts body Hb) as (F1 & F2 & F3 & F4 & F5).
  exists body. rewrite F3. split_and!; try done. rewrite lines_of_unlines.
  - cbn [map]. rewrite map_app. cbn [map]. rewrite B2, E2, F2. cbn [app]. by rewrite <- app_assoc.
  - constructor; [done|]. apply Forall_app. split; [done|]. by apply Forall_singleton.
Qed.

Lemma chain_outside (cs : list bytes) (base64 : bytes) (junk ls : list bytes) : Forall (fun l => trimmed l <> begin_line (str "CERTIFICATE")) junk ->
  res_foldM chain_line (mkChain cs false base64) (junk ++ ls) = res_foldM chain_line (mkChain cs false base64) ls.
Proof.
  induction 1 as [|l junk Hl Hj IH]; [done|]. cbn [app res_foldM]. unfold chain_line at 1. cbn [inside_certificate negb]. fold (trimmed l).
  destruct (bytes_eqb _ _) eqn:E; [by apply bytes_eqb_eq in E|]. cbn [res_bind]. apply IH.
Qed.

Lemma chain_inside (cs : list bytes) (base64 : bytes) (body ls : list bytes) :
  Forall (fun l => starts_with (str "-----END ") (trimmed l) = false) body -> Forall (fun l => starts_with (str "-----BEGIN ") (trimmed l) = false) body ->
  res_foldM chain_line (mkChain cs true base64) (body ++ ls) = res_foldM chain_line (mkChain cs true (base64 ++ concat (map payload body))) ls.
Proof.
  intros He. revert base64. induction He as [|l body Hl He IH]; intros base64 Hb; cbn [app map concat]; [by rewrite app_nil_r|].
  apply Forall_cons in Hb as [Hb Hbs]. cbn [res_foldM]. unfold chain_line at 1. cbn [inside_certificate negb chain_base64 chain_certificates]. fold (trimmed l).
  rewrite final_ne, Hl, Hb by done. cbn [orb res_bind]. fold (payload l). rewrite IH by done. by rewrite <- app_assoc.
Qed.

Lemma chain_begin (cs : list bytes) (base64 l : bytes) : trimmed l = begin_line (str "CERTIFICATE") ->
  chain_line (mkChain cs false base64) l = Ok (mkChain cs true []).
Proof. intros Hl. unfold chain_line. cbn [inside_certificate negb chain_certificates]. fold (trimmed l). by rewrite Hl, bytes_eqb_refl. Qed.

Lemma chain_end (cs : list bytes) (base64 l der : bytes) : trimmed l = end_line (str "CERTIFICATE") -> decode_base64 base64 = Ok der ->
  chain_line (mkChain cs true base64) l = Ok (mkChain (cs ++ [der]) false []).
Proof. intros Hl Hd. unfold chain_line. cbn [inside_certificate negb chain_certificates chain_base64]. fold (trimmed l). by rewrite Hl, bytes_eqb_refl, Hd. Qed.

(** A certificate after lines that are no boundary. *)
Definition block_text (block : list bytes * bytes) : bytes :=
  unlines block.1 ++ match pem_encode (str "CERTIFICATE") block.2 with Ok text => text | _ => [] end.
Definition junk_line (l : bytes) : Prop := one_line l /\ trimmed (strip_cr l) <> begin_line (str "CERTIFICATE").

Lemma junk_lines (junk : list bytes) (rest : bytes) : Forall junk_line junk ->
  lines (unlines junk ++ rest) = map strip_cr junk ++ lines rest /\ Forall (fun l => trimmed l <> begin_line (str "CERTIFICATE")) (map strip_cr junk).
Proof.
  intros Hj. split; [apply lines_of_unlines; eapply Forall_impl; [exact Hj|]; by intros l []|].
  rewrite Forall_forall. intros l Hl. apply list_elem_of_In, in_map_iff in Hl as (k & <- & Hk). apply list_elem_of_In in Hk.
  rewrite Forall_forall in Hj. by apply Hj.
Qed.

Lemma chain_blocks (cs : list bytes) (base64 : bytes) (blocks : list (list bytes * bytes)) (rest : bytes) :
  Forall (fun b => Forall junk_line b.1) blocks -> (base64 = []) ->
  res_foldM chain_line (mkChain cs false base64) (lines (concat (map block_text blocks) ++ rest)) =
  res_foldM chain_line (mkChain (cs ++ map snd blocks) false []) (lines rest).
Proof.
  intros Hb ->. revert cs. induction Hb as [|[junk der] blocks Hj Hb IH]; intros cs; [by rewrite app_nil_r|]. cbn [map concat fst snd] in *. unfold block_text at 1. cbn [fst snd].
  destruct (pem_encode_lines (str "CERTIFICATE") der ltac:(reflexivity)) as (body0 & Hp & _). rewrite Hp, <- !app_assoc.
  destruct (junk_lines junk (unlines (begin_line (str "CERTIFICATE") :: body0 ++ [end_line (str "CERTIFICATE")]) ++ concat (map block_text blocks) ++ rest) Hj) as [-> Hj'].
  rewrite chain_outside by done.
  destruct (pem_encode_then (str "CERTIFICATE") der (concat (map block_text blocks) ++ rest) _ ltac:(reflexivity) Hp) as (body & -> & He & F1 & F2).
  cbn [res_foldM]. rewrite chain_begin by reflexivity. cbn [res_bind]. rewrite chain_inside by done. cbn [res_foldM app].
  rewrite (chain_end _ _ _ der) by (reflexivity || by apply decode_base64_iff). cbn [res_bind]. rewrite IH. by rewrite <- app_assoc.
Qed.

Lemma decode_chain_blocks (blocks : list (list bytes * bytes)) (tail : list bytes) :
  Forall (fun b => Forall junk_line b.1) blocks -> Forall junk_line tail ->
  decode_x509_certificate_chain_pem (concat (map block_text blocks) ++ unlines tail) =
    match blocks with [] => Err PemBeginMissing | _ => Ok (map snd blocks) end.
Proof.
  intros Hb Ht. unfold decode_x509_certificate_chain_pem. rewrite chain_blocks by done. rewrite <- (app_nil_r (unlines tail)).
  destruct (junk_lines tail [] Ht) as [-> Hj]. rewrite chain_outside by done. cbn. by destruct blocks as [|[]].
Qed.

Lemma chain_line_returns (st : ChainState) (l : bytes) : returns (decode_base64 (chain_base64 st)) -> returns (chain_line st l).
Proof.
  intros Hd. unfold chain_line. destruct (inside_certificate st); cbn [negb]; [|by destruct (bytes_eqb _ _)].
  destruct (bytes_eqb _ _); [by apply res_bind_returns|]. by destruct (_ || _).
Qed.

Lemma decode_quartet_returns (is_last : bool) (out q : bytes) : length q = 4%nat -> returns (decode_quartet is_last out q).
Proof.
  intros Hq. destruct q as [|q0 [|q1 [|q2 [|q3 [|]]]]]; try discriminate Hq. unfold decode_quartet. cbn [index lookup list_lookup expect res_bind].
  destruct (_ || _); [done|]. destruct (decode_base64_character q0); [|done]. destruct (decode_base64_character q1); [|done]. cbn [ok_or res_bind].
  destruct (byte_eqb q2 x3d); [by destruct (_ || _)|]. destruct (decode_base64_character q2); [|done]. cbn [ok_or res_bind].
  destruct (byte_eqb q3 x3d); [by destruct (_ || _)|]. by destruct (decode_base64_character q3).
Qed.

Lemma decode_base64_returns (encoded : bytes) : returns (decode_base64 encoded).
Proof.
  unfold decode_base64. destruct (Nat.eqb_spec (length encoded mod 4) 0); [|done]. cbn [negb]. apply res_foldM_returns. intros out [i q] Hq.
  apply elem_of_zip_r in Hq. destruct (chunks_exact_spec 4 encoded ltac:(lia)) as (_ & Hf & _). rewrite Forall_forall in Hf. apply decode_quartet_returns. by apply Hf.
Qed.

Lemma pem_decode_returns (label input : bytes) : returns (pem_decode label input).
Proof.
  unfold pem_decode. apply res_bind_returns; [apply validate_pem_label_returns|]. intros [] _. apply res_bind_returns; [apply pem_lines_returns|].
  intros [[fb fe] base64] _. destruct fb, fe; try done. apply decode_base64_returns.
Qed.

Lemma decode_chain_returns (input : bytes) : returns (decode_x509_certificate_chain_pem input).
Proof.
  unfold decode_x509_certificate_chain_pem. apply res_bind_returns.
  - apply res_foldM_returns. intros st l _. apply chain_line_returns, decode_base64_returns.
  - intros st _. destruct (inside_certificate st); [done|]. by destruct (chain_certificates st).
Qed.

Lemma pem_decodes_encoded (label der after : bytes) (before : list bytes) (Hv : validate_pem_label label = Ok tt)
  (Hb : Forall (fun l => one_line l /\ trimmed (strip_cr l) <> begin_line label) before) :
  exists text, pem_encode label der = Ok text /\ pem_decode label (unlines before ++ text ++ after) = Ok der.
Proof.
  destruct (pem_encode_lines label der Hv) as (body0 & Hp & _). eexists. split; [exact Hp|].
  destruct (pem_encode_then label der after _ Hv Hp) as (body & Hl & He & F1 & _). unfold pem_decode. rewrite Hv. cbn [res_bind].
  rewrite lines_of_unlines by (eapply Forall_impl; [exact Hb|]; by intros l []). rewrite Hl. destruct (boundary_line label Hv) as [(_ & _ & B) (_ & _ & E)].
  rewrite pem_lines_before, pem_lines_body, pem_lines_end; try done.
  - cbn [res_bind negb app]. by apply decode_base64_iff.
  - apply Forall_map. eapply Forall_impl; [exact Hb|]. by intros l [].
Qed.

(** ** The properties *)
(** With a valid label, [pem_decode] gives [der] exactly when the lines of the input hold a
    begin boundary (the first line that is one, after trimming blanks), then lines none of which
    starts an end boundary, then the end boundary of the label, and the text between, without its
    white space, is the canonical Base64 of [der]; it never panics. *)
Theorem pem_decode_correct (label input der : bytes) (Hv : validate_pem_label label = Ok tt) :
  returns (pem_decode label input) /\
  (pem_decode label input = Ok der <->
   exists before first body final after, lines input = before ++ first :: body ++ final :: after /\
     Forall (fun l => trimmed l <> begin_line label) before /\ trimmed first = begin_line label /\
     Forall (fun l => starts_with (str "-----END ") (trimmed l) = false) body /\ trimmed final = end_line label /\
     encode_base64 der = Ok (concat (map payload body)) :> res DerError _).
Proof.
  split; [apply pem_decode_returns|]. unfold pem_decode. rewrite Hv. cbn [res_bind]. split.
  - intros H. apply res_bind_Ok in H as ([[fb fe] base64] & Hl & H). destruct fb; [|done]. destruct fe; [|done].
    apply pem_lines_inv_begin in Hl as (pre & b & ls & -> & Hpre & Hb & Hl). apply pem_lines_inv in Hl as (body & e & after & -> & He & Hbody & ->).
    apply decode_base64_iff in H. by exists pre, b, body, e, after.
  - intros (pre & b & body & e & after & -> & Hpre & Hb & Hbody & He & H). rewrite pem_lines_before, pem_lines_body, pem_lines_end by done.
    cbn [res_bind negb app]. by apply decode_base64_iff.
Qed.

(** What [pem_encode] writes under a valid label is read back by [pem_decode], after lines
    that are no begin boundary and whatever follows. *)
Theorem pem_round_trip (label der after : bytes) (before : list bytes) (Hv : validate_pem_label label = Ok tt)
  (Hb : Forall (fun l => one_line l /\ trimmed (strip_cr l) <> begin_line label) before) :
  exists text, pem_encode label der = Ok text /\ pem_decode label (unlines before ++ text ++ after) = Ok der.
Proof. by apply pem_decodes_encoded. Qed.

(** A chain of certificates written one after the other by [pem_encode], with lines that are
    no begin boundary around them, is read back in its order; with no certificate it is an error,
    and so is a last certificate without its end boundary. *)
Theorem certificate_chain_round_trip (blocks : list (list bytes * bytes)) (tail body : list bytes)
  (Hb : Forall (fun b => Forall junk_line b.1) blocks) (Ht : Forall junk_line tail)
  (Ho : Forall (fun l => l <> [] /\ Forall (fun b => pem_char b = true) l) body) :
  decode_x509_certificate_chain_pem (concat (map block_text blocks) ++ unlines tail) =
    match blocks with [] => Err PemBeginMissing | _ => Ok (map snd blocks) end /\
  decode_x509_certificate_chain_pem (concat (map block_text blocks) ++ unlines tail ++ unlines (begin_line (str "CERTIFICATE") :: body)) = Err PemEndMissing.
Proof.
  split; [by apply decode_chain_blocks|]. unfold decode_x509_certificate_chain_pem. rewrite chain_blocks by done. cbn [app].
  - destruct (junk_lines tail (unlines (begin_line (str "CERTIFICATE") :: body)) Ht) as [-> Hj]. rewrite chain_outside by done.
    destruct (boundary_line (str "CERTIFICATE") ltac:(reflexivity)) as [(B1 & B2 & B3) _]. destruct (body_facts body Ho) as (F1 & F2 & _ & F4 & F5).
    rewrite <- (app_nil_r (unlines _)), lines_of_unlines by (by constructor). cbn [map]. rewrite B2, F2. rewrite <- app_comm_cons. cbn [res_foldM].
    rewrite chain_begin by done. cbn [res_bind]. by rewrite chain_inside by done.
Qed.

Lemma pem_decode_correct_witness :
  pem_decode (str "X 1") (unlines [str "text"; begin_line (str "X 1"); str "AQ "; str " I="; end_line (str "X 1"); str "more"]) = Ok [x01; x02].
Proof.
  apply (pem_decode_correct (str "X 1") _ [x01; x02]); [reflexivity|].
  exists [str "text"], (begin_line (str "X 1")), [str "AQ "; str " I="], (end_line (str "X 1")), [str "more"].
  split_and!; try reflexivity; repeat (apply Forall_cons; split); try apply Forall_nil; try reflexivity. discriminate.
Defined.

Lemma pem_round_trip_witness : exists text, pem_encode (str "X 1") [x01; x02] = Ok text /\
  pem_decode (str "X 1") (unlines [str "text"] ++ text ++ str "more") = Ok [x01; x02].
Proof.
  apply (pem_round_trip (str "X 1") [x01; x02] (str "more") [str "text"]); [reflexivity|].
  apply Forall_cons. split; [|apply Forall_nil; exact I]. split; [|discriminate].
  repeat (apply Forall_cons; split); try apply Forall_nil; reflexivity || exact I.
Defined.

Lemma certificate_chain_round_trip_witness :
  decode_x509_certificate_chain_pem (concat (map block_text [([str "text"], [x01]); ([], [x02; x03])]) ++ unlines [str "more"]) = Ok [[x01]; [x02; x03]].
Proof.
  apply (certificate_chain_round_trip [([str "text"], [x01]); ([], [x02; x03])] [str "more"] [str "AQ=="]);
    repeat (apply Forall_cons; split); try apply Forall_nil; try split; try discriminate; try (apply Forall_nil; exact I);
    repeat (apply Forall_cons; split); try apply Forall_nil; try reflexivity; exact I.
Defined.

(** ** What is decoded is no longer than the text *)
Definition total (ls : list bytes) : nat := length (concat ls).

Lemma length_split_on (p : byte -> bool) (l : bytes) : (total (split_on p l) <= length l)%nat /\ split_on p l <> [].
Proof.
  unfold total. induction l as [|b l [IH Hne]]; [split; [cbn; lia|done]|]. cbn [split_on]. destruct (p b); [cbn; split; [lia|done]|].
  destruct (split_on p l) as [|q qs]; [done|]. cbn [concat length] in *. rewrite length_app in *. cbn [length]. split; [lia|done].
Qed.

Lemma length_strip_cr (l : bytes) : (length (strip_cr l) <= length l)%nat.
Proof.
  unfold strip_cr. destruct (strip_suffix CR l) as [l'|] eqn:E; [|lia]. apply strip_suffix_Some in E as ->. rewrite length_app. lia.
Qed.

Lemma length_lines (l : bytes) : (total (lines l) <= length l)%nat.
Proof.
  unfold lines. destruct (length_split_on (byte_eqb LF) l) as [Hl Hne]. set (ps := split_on _ l) in *. clearbody ps.
  assert (Hs : forall ls, (total (map strip_cr ls) <= total ls)%nat).
  { intros ls. unfold total. induction ls as [|x ls IH]; [done|]. cbn [map concat]. rewrite !length_app. pose proof (length_strip_cr x). lia. }
  specialize (Hs (removelast ps)). pose proof (app_removelast_last [] Hne) as E. unfold total in *. rewrite E in Hl. rewrite concat_app, length_app in Hl |- *.
  cbn [concat] in Hl. rewrite app_nil_r in Hl. destruct (List.last ps []); cbn [concat length app] in *; rewrite ?app_nil_r; lia.
Qed.

Lemma length_drop_while (p : byte -> bool) (l : bytes) : (length (drop_while p l) <= length l)%nat.
Proof. induction l as [|b l IH]; [done|]. cbn [drop_while]. destruct (p b); cbn [length]; lia. Qed.

Lemma length_content (l : bytes) : (length (filter (fun b => not_whitespace b = true) (trim_end_matches is_blank l)) <= length l)%nat.
Proof.
  pose proof (length_filter (fun b => not_whitespace b = true) (trim_end_matches is_blank l)) as Hf. unfold trim_end_matches in *. rewrite length_rev in Hf.
  pose proof (length_drop_while is_blank (rev l)) as Hd. rewrite length_rev in Hd. lia.
Qed.

Lemma length_decode_quartet (final : bool) (out q r : bytes) : decode_quartet final out q = Ok r -> (length r <= length out + 3)%nat.
Proof.
  unfold decode_quartet. intros H. repeat (apply res_bind_Ok in H as (? & _ & H)). destruct (byte_eqb _ _ || _); [done|]. repeat (apply res_bind_Ok in H as (? & _ & H)).
  destruct (byte_eqb _ _); [destruct (negb _ || _ || _); [done|]; apply Ok_inj in H as <-; rewrite length_app; cbn [length]; lia|].
  apply res_bind_Ok in H as (? & _ & H). destruct (byte_eqb _ _).
  - destruct (negb _ || _); [done|]. apply Ok_inj in H as <-. rewrite !length_app. cbn [length]. lia.
  - apply res_bind_Ok in H as (? & _ & H). apply Ok_inj in H as <-. rewrite !length_app. cbn [length]. lia.
Qed.

Lemma length_decode_base64 (encoded bs : bytes) : decode_base64 encoded = Ok bs -> (length bs <= length encoded)%nat.
Proof.
  unfold decode_base64. destruct (negb _); [done|]. set (n := (length encoded / 4)%nat).
  assert (Hl : (length (zip (seq 0 n) (chunks_exact 4 encoded).1) <= n)%nat) by (rewrite length_zip, length_seq; lia).
  assert (Hn : (4 * n <= length encoded)%nat) by (apply Nat.Div0.mul_div_le). intros H. enough (length bs <= length (@nil byte) + 3 * length (zip (seq 0 n) (chunks_exact 4 encoded).1))%nat by (cbn [length] in *; lia).
  revert H. generalize (zip (seq 0 n) (chunks_exact 4 encoded).1) as l. generalize (@nil byte) as out. clear. intros out l. revert out.
  induction l as [|[i q] l IH]; intros out H; cbn [res_foldM length] in *; [apply Ok_inj in H as <-; lia|].
  apply res_bind_Ok in H as (o & Ho & H). apply length_decode_quartet in Ho. specialize (IH o H). lia.
Qed.

Lemma length_pem_lines (first final : bytes) (found : bool) (base64 : bytes) (ls : list bytes) (a b : bool) (out : bytes) :
  pem_lines first final found base64 ls = Ok (a, b, out) -> (length out <= length base64 + total ls)%nat.
Proof.
  revert found base64. unfold total. induction ls as [|l ls IH]; intros found base64; cbn [pem_lines concat]; rewrite ?length_app; [intros [= _ _ <-]; lia|].
  destruct found; cbn [negb]; [|intros H; apply IH in H; lia]. destruct (bytes_eqb _ final); [intros [= _ _ <-]; lia|]. destruct (starts_with _ _); [done|].
  intros H. apply IH in H. rewrite length_app in H. pose proof (length_content l). lia.
Qed.

Lemma length_pem_decode (label input der : bytes) : pem_decode label input = Ok der -> (length der <= length input)%nat.
Proof.
  unfold pem_decode. intros H. apply res_bind_Ok in H as (? & _ & H). apply res_bind_Ok in H as ([[a b] base64] & Hl & H). apply length_pem_lines in Hl. cbn [length] in Hl.
  destruct (negb a); [done|]. destruct (negb b); [done|]. apply length_decode_base64 in H. pose proof (length_lines input). lia.
Qed.

Lemma length_decode_chain (input : bytes) (certificates : list bytes) : decode_x509_certificate_chain_pem input = Ok certificates ->
  certificates <> [] /\ Forall (fun c => (length c <= length input)%nat) certificates.
Proof.
  unfold decode_x509_certificate_chain_pem. intros H. apply res_bind_Ok in H as (st & Hst & H).
  assert (Hinv : forall ls st0, (length (chain_base64 st0) + total ls <= length input)%nat -> Forall (fun c => (length c <= length input)%nat) (chain_certificates st0) ->
    res_foldM chain_line st0 ls = Ok st -> Forall (fun c => (length c <= length input)%nat) (chain_certificates st)).
  { unfold total. clear. induction ls as [|l ls IH]; intros st0 Hl Hc H; cbn [res_foldM concat] in *; [by apply Ok_inj in H as <-|].
    apply res_bind_Ok in H as (st1 & H1 & H). rewrite length_app in Hl. unfold chain_line in H1. destruct (inside_certificate st0) eqn:Ein; cbn [negb] in H1.
    - destruct (bytes_eqb _ _).
      + apply res_bind_Ok in H1 as (der & Hd & H1). apply Ok_inj in H1 as <-. apply length_decode_base64 in Hd.
        apply (IH _) in H; [done|cbn [chain_base64 length]; lia|]. apply Forall_app. split; [done|]. apply Forall_singleton. lia.
      + destruct (_ || _); [done|]. apply Ok_inj in H1 as <-. apply (IH _) in H; [done| |done]. cbn [chain_base64]. rewrite length_app. pose proof (length_content l). lia.
    - destruct (bytes_eqb _ _); apply Ok_inj in H1 as <-; (apply (IH _) in H; [done|cbn [chain_base64 length]; lia|done]). }
  apply Hinv in Hst; [|cbn [chain_base64 length]; pose proof (length_lines input); lia|by apply Forall_nil].
  destruct (inside_certificate st); [done|]. destruct (chain_certificates st); [done|]. by apply Ok_inj in H as <-.
Qed.
