(* ===== verification/Keys.v ===== *)
(** * Keys and certification requests: [src/asn1.rs]

    Private keys (RFC 5915), public keys (RFC 5480), DNS identities (RFC 5280) and signed
    certification requests (PKCS#10) for P-256, in DER and in PEM. *)
From Stdlib Require Import ZArith Lia Zmod.
From stdpp Require Import prelude.
From S2P Require Import Prelude Bytes Encoding Uint256 Sha256 Primes Curve P256 Ecdsa Der Pem.
Local Open Scope Z_scope.
Set Warnings "-clear-no-such-hyp".

Definition OID_EC_PUBLIC_KEY : list Z := [1; 2; 840; 10045; 2; 1].
Definition OID_SECP256R1 : list Z := [1; 2; 840; 10045; 3; 1; 7].
Definition OID_EXTENSION_REQUEST : list Z := [1; 2; 840; 113549; 1; 9; 14].
Definition OID_SUBJECT_ALT_NAME : list Z := [2; 5; 29; 17].
Definition OID_ECDSA_WITH_SHA256 : list Z := [1; 2; 840; 10045; 4; 3; 2].

Definition OID_EC_PUBLIC_KEY_CONTENT : bytes := [x2a; x86; x48; xce; x3d; x02; x01].
Definition OID_SECP256R1_CONTENT : bytes := [x2a; x86; x48; xce; x3d; x03; x01; x07].
Definition OID_SUBJECT_ALT_NAME_CONTENT : bytes := [x55; x1d; x11].

(** [Result::expect]: a panic on an error. *)
Definition expect_ok {E F A : Type} (m : res F A) : res E A :=
  match m with
  | Ok a => Ok a
  | Err _ | Panic => Panic
  | Fuel => Fuel
  end.

#[global] Instance AffinePoint_eq_dec : EqDecision AffinePoint.
Proof. solve_decision. Defined.

Definition p256_algorithm_identifier {E : Type} : res E bytes :=
  let? algorithm := expect_ok (der_object_identifier OID_EC_PUBLIC_KEY) in
  let? curve := expect_ok (der_object_identifier OID_SECP256R1) in
  der_sequence [algorithm; curve].

(** ** Private keys *)
Definition encode_p256_sec1_private_key_der (private_key : Scalar) : res DerError bytes :=
  if bool_decide (private_key = ZERO) then Err InvalidP256PrivateKey
  else
    let? point := p256_generator_multiply private_key in
    let? public_key := map_err (fun _ => InvalidP256PublicKey) (to_sec1_uncompressed point) in
    let? parameters := expect_ok (der_object_identifier OID_SECP256R1) in
    let? public_key := der_bit_string public_key in
    let? version := der_integer_unsigned [x01] in
    let? private_key := der_octet_string (to_be_bytes private_key) in
    let? parameters := expect_ok (der_context_specific 0 true parameters) in
    let? public_key := expect_ok (der_context_specific 1 true public_key) in
    der_sequence [version; private_key; parameters; public_key].

Definition encode_p256_sec1_private_key_pem (private_key : Scalar) : res DerError bytes :=
  let? der := encode_p256_sec1_private_key_der private_key in
  pem_encode (str "EC PRIVATE KEY") der.

(** The parameters field: the named curve. *)
Definition check_parameters (optional : DerValue) : res DerError unit :=
  let? (curve, parameters) := read_expected DER_TAG_OBJECT_IDENTIFIER (reader optional) in
  let? _ := finish parameters in
  if negb (bytes_eqb (content curve) OID_SECP256R1_CONTENT) then Err InvalidP256PrivateKey else Ok tt.

(** The public key field: the point of the private key. *)
Definition check_public_key (private_key : Scalar) (optional : DerValue) : res DerError unit :=
  let? (encoded_public_key, r) := read_expected DER_TAG_BIT_STRING (reader optional) in
  let? _ := finish r in
  if bool_decide (head (content encoded_public_key) = Some x00) then
    let? encoded := slice_from (content encoded_public_key) 1 in
    let? public_key := map_err (fun _ => InvalidP256PublicKey) (from_sec1_uncompressed encoded) in
    let? expected := p256_generator_multiply private_key in
    if bool_decide (public_key = expected) then Ok tt else Err InvalidP256PublicKey
  else Err InvalidP256PublicKey.

(** The loop over the optional fields. *)
Fixpoint key_fields (fuel : nat) (private_key : Scalar) (parameters_seen public_key_seen : bool) (key : DerReader) : res DerError unit :=
  match fuel with
  | O => Fuel
  | S fuel' =>
      if is_empty key then Ok tt
      else
        let? (optional, key) := read_tlv key in
        if byte_eqb (tag optional) xa0 && negb parameters_seen then
          let? _ := check_parameters optional in key_fields fuel' private_key true public_key_seen key
        else if byte_eqb (tag optional) xa1 && negb public_key_seen then
          let? _ := check_public_key private_key optional in key_fields fuel' private_key parameters_seen true key
        else Err InvalidP256PrivateKey
  end.

Definition decode_p256_sec1_private_key_der (der : bytes) : res DerError Scalar :=
  let outer := new_reader der in
  let? (sequence, outer) := read_expected DER_TAG_SEQUENCE outer in
  let? _ := finish outer in
  let? (version, key) := read_integer_unsigned (reader sequence) in
  if negb (bytes_eqb version [x01]) then Err InvalidP256PrivateKey
  else
    let? (private_key, key) := read_expected DER_TAG_OCTET_STRING key in
    if negb (length (content private_key) =? 32)%nat then Err InvalidP256PrivateKey
    else
      let? private_value := from_be_bytes (content private_key) in
      let? private_key := scalar_new private_value in
      if bool_decide (private_key = ZERO) || negb (bool_decide (private_key = private_value)) then Err InvalidP256PrivateKey
      else
        let? _ := key_fields (S (length der)) private_key false false key in
        Ok private_key.

Definition decode_p256_sec1_private_key_pem (input : bytes) : res DerError Scalar :=
  let? der := pem_decode (str "EC PRIVATE KEY") input in
  decode_p256_sec1_private_key_der der.

(** ** Public keys *)
Definition encode_p256_spki_der (public_key : P256Point) : res DerError bytes :=
  let? encoded_point := map_err (fun _ => InvalidP256PublicKey) (to_sec1_uncompressed public_key) in
  let? algorithm := p256_algorithm_identifier in
  let? key := der_bit_string encoded_point in
  der_sequence [algorithm; key].

Definition encode_p256_spki_pem (public_key : P256Point) : res DerError bytes :=
  let? der := encode_p256_spki_der public_key in
  pem_encode (str "PUBLIC KEY") der.

(** ** DNS identities *)
Definition dns_label_ok (label : bytes) : bool :=
  negb (bool_decide (label = []) || (63 <? len label) || starts_with [x2d] label || ends_with [x2d] label
        || negb (forallb (fun b => is_ascii_alphanumeric b || byte_eqb b x2d) label)).

Definition validate_dns_name (dns_name : bytes) : res DerError unit :=
  if bool_decide (dns_name = []) || negb (forallb is_ascii dns_name) || (253 <? len dns_name) || ends_with [x2e] dns_name then Err InvalidDnsName
  else
    let? hostname :=
      if starts_with (str "*.") dns_name then
        let hostname := drop (length (str "*.")) dns_name in
        if bool_decide (hostname = []) then Err InvalidDnsName else Ok hostname
      else if existsb (byte_eqb x2a) dns_name then Err InvalidDnsName
      else Ok dns_name in
    if forallb dns_label_ok (split_on (byte_eqb x2e) hostname) then Ok tt else Err InvalidDnsName.

Definition general_name (general_names : list bytes) (dns_name : bytes) : res DerError (list bytes) :=
  let? _ := validate_dns_name dns_name in
  let? name := expect_ok (der_context_specific 2 false dns_name) in
  Ok (general_names ++ [name]).

Definition encode_subject_alt_name_dns (dns_names : list bytes) : res DerError bytes :=
  match dns_names with
  | [] => Err InvalidDnsName
  | _ => let? general_names := res_foldM general_name [] dns_names in der_sequence general_names
  end.

(** ** Certification requests *)
Definition ecdsa_sha256_algorithm_identifier {E : Type} : res E bytes :=
  let? algorithm := expect_ok (der_object_identifier OID_ECDSA_WITH_SHA256) in
  der_sequence [algorithm].

Definition encode_p256_signature_der {E : Type} (signature : P256Signature) : res E bytes :=
  let '(r, s) := components signature in
  let? r := der_integer_unsigned (to_be_bytes r) in
  let? s := der_integer_unsigned (to_be_bytes s) in
  der_sequence [r; s].

(** The attribute that asks for the identities. *)
Definition csr_attributes (dns_names : list bytes) : res DerError bytes :=
  let? subject_alt_name := encode_subject_alt_name_dns dns_names in
  let? oid := expect_ok (der_object_identifier OID_SUBJECT_ALT_NAME) in
  let? value := der_octet_string subject_alt_name in
  let? subject_alt_name_extension := der_sequence [oid; value] in
  let? extensions := der_sequence [subject_alt_name_extension] in
  let? oid := expect_ok (der_object_identifier OID_EXTENSION_REQUEST) in
  let? set := der_set [extensions] in
  let? extension_request := der_sequence [oid; set] in
  expect_ok (der_context_specific 0 true (der_set_content [extension_request])).

(** [fuel] bounds the candidates of the signature's nonce. *)
Definition encode_p256_csr_der (fuel : nat) (private_key : Scalar) (dns_names : list bytes) : res DerError bytes :=
  if bool_decide (private_key = ZERO) then Err InvalidP256PrivateKey
  else
    let? public_key := p256_generator_multiply private_key in
    let? subject_public_key_info := encode_p256_spki_der public_key in
    let? attributes := csr_attributes dns_names in
    let? version := der_integer_unsigned [x00] in
    let? subject := der_sequence [] in
    let? certification_request_info := der_sequence [version; subject; subject_public_key_info; attributes] in
    let? signature := map_err (fun _ => InvalidP256PrivateKey) (p256_ecdsa_sign_sha256 fuel private_key certification_request_info) in
    let? signature := encode_p256_signature_der signature in
    let? algorithm := ecdsa_sha256_algorithm_identifier in
    let? signature := der_bit_string signature in
    der_sequence [certification_request_info; algorithm; signature].

Definition encode_p256_csr_pem (fuel : nat) (private_key : Scalar) (dns_names : list bytes) : res DerError bytes :=
  let? der := encode_p256_csr_der fuel private_key dns_names in
  pem_encode (str "CERTIFICATE REQUEST") der.

(** ** The encodings of keys *)
Definition parameters_field : bytes := tlv xa0 (tlv DER_TAG_OBJECT_IDENTIFIER OID_SECP256R1_CONTENT).
Definition public_key_field (encoded : bytes) : bytes := tlv xa1 (tlv DER_TAG_BIT_STRING (x00 :: encoded)).

(** The optional fields of a private key of the point [p]: each at most once, in any order. *)
Inductive key_tail (p : P256Point) : bool -> bool -> bytes -> Prop :=
| tail_nil ps qs : key_tail p ps qs []
| tail_parameters qs rest : key_tail p true qs rest -> key_tail p false qs (parameters_field ++ rest)
| tail_public_key ps encoded rest : to_sec1_uncompressed p = Ok encoded -> key_tail p ps true rest ->
    key_tail p ps false (public_key_field encoded ++ rest).

(** The encoding of a private key [secret] with the fields [tail]. *)
Definition private_key_encoding (secret tail : bytes) : bytes :=
  tlv DER_TAG_SEQUENCE (tlv DER_TAG_INTEGER [x01] ++ tlv DER_TAG_OCTET_STRING secret ++ tail).

Definition algorithm_encoding : bytes :=
  tlv DER_TAG_SEQUENCE (tlv DER_TAG_OBJECT_IDENTIFIER OID_EC_PUBLIC_KEY_CONTENT ++ tlv DER_TAG_OBJECT_IDENTIFIER OID_SECP256R1_CONTENT).
Definition spki_encoding (encoded : bytes) : bytes := tlv DER_TAG_SEQUENCE (algorithm_encoding ++ tlv DER_TAG_BIT_STRING (x00 :: encoded)).

Lemma oid_secp256r1 {E : Type} : expect_ok (der_object_identifier OID_SECP256R1) = Ok (tlv DER_TAG_OBJECT_IDENTIFIER OID_SECP256R1_CONTENT) :> res E _.
Proof. vm_compute. reflexivity. Qed.

Lemma algorithm_identifier_spec {E : Type} : p256_algorithm_identifier = Ok algorithm_encoding :> res E _.
Proof. vm_compute. reflexivity. Qed.

(** Short values: no length of theirs is near the address space. *)
Lemma der_wrap_small {E : Type} (t : byte) (c : bytes) : len c <= 1000 -> der_wrap t c = Ok (tlv t c) :> res E _.
Proof. intros H. apply der_wrap_spec. unfold usize_max, u64_max. lia. Qed.

Lemma der_context_specific_low (n : Z) (constructed : bool) (c : bytes) : 0 <= n < 31 -> len c <= usize_max ->
  expect_ok (der_context_specific n constructed c) =
    Ok (tlv (of_u8 (if constructed then Z.lor (Z.lor 128 n) 32 else Z.lor 128 n)) c) :> res DerError _.
Proof.
  intros Hn Hc. unfold der_context_specific. change DER_HIGH_TAG_NUMBER with 31. rewrite (proj2 (Z.leb_gt _ _)) by lia.
  rewrite der_wrap_spec by done. by destruct constructed.
Qed.

Lemma length_tlv_small (t : byte) (c : bytes) : (length c < 128)%nat -> length (tlv t c) = (2 + length c)%nat.
Proof.
  intros H. rewrite length_tlv. unfold der_length, len. by rewrite (proj2 (Z.ltb_lt _ _)) by lia.
Qed.

Lemma length_tlv_le (t : byte) (c : bytes) (n : nat) : (length c <= n)%nat -> (n <= 1000)%nat -> (length (tlv t c) <= n + 10)%nat.
Proof.
  intros H Hn. pose proof (len_tlv t c ltac:(unfold len, usize_max, u64_max; lia)) as Hl. unfold len in Hl. lia.
Qed.

(** The encoding of a point, when it has one. *)
Lemma to_sec1_valid (p : P256Point) : valid p ->
  match to_sec1_uncompressed p with
  | Ok bs => length bs = 65%nat /\ p <> POINT_IDENTITY
  | Err e => p = POINT_IDENTITY
  | Panic | Fuel => False
  end.
Proof.
  intros Hv. pose proof (valid_coordinates p Hv) as H. destruct p as [a|]; [|done]. destruct H as (Hx & Hy & _).
  rewrite to_sec1_spec by done. cbn [length]. rewrite length_app, !to_be_bytes_spec, !length_be_bytes by done. done.
Qed.

Lemma spki_spec (p : P256Point) : valid p ->
  encode_p256_spki_der p = match to_sec1_uncompressed p with Ok bs => Ok (spki_encoding bs) | _ => Err InvalidP256PublicKey end.
Proof.
  intros Hv. pose proof (to_sec1_valid p Hv) as H. unfold encode_p256_spki_der. destruct (to_sec1_uncompressed p) as [bs|e| |]; try done.
  destruct H as [Hl _]. cbn [map_err res_bind]. rewrite algorithm_identifier_spec. cbn [res_bind]. unfold der_bit_string, der_sequence.
  rewrite der_wrap_small by (unfold len; cbn [length]; lia). cbn [res_bind concat]. rewrite app_nil_r.
  pose proof (length_tlv_le DER_TAG_BIT_STRING (x00 :: bs) 66 ltac:(cbn [length]; lia) ltac:(lia)) as Ht.
  rewrite der_wrap_small; [done|]. unfold len. rewrite length_app. change (length algorithm_encoding) with 21%nat. lia.
Qed.

(** ** Reading private keys *)
Lemma reads_reader (v : DerValue) : len (content v) <= usize_max -> reads (reader v) (content v).
Proof. apply reads_new. Qed.

Lemma reads_one (bs : bytes) (r : DerReader) : reads r bs -> reads r (bs ++ []).
Proof. by rewrite app_nil_r. Qed.

Lemma check_parameters_iff (v : DerValue) : len (content v) <= usize_max ->
  check_parameters v = Ok tt <-> content v = tlv DER_TAG_OBJECT_IDENTIFIER OID_SECP256R1_CONTENT.
Proof.
  intros Hl. pose proof (reads_reader v Hl) as Hr. unfold check_parameters. split.
  - intros H. apply res_bind_Ok in H as ([curve r] & Hc & H). destruct (read_expected_inv _ _ _ _ _ Hr Hc) as (c & rest & -> & -> & Hr' & _).
    apply res_bind_Ok in H as (u & Hf & H). apply (finish_inv _ _ _ Hr') in Hf as ->. cbn [content] in *.
    destruct (bytes_eqb c OID_SECP256R1_CONTENT) eqn:E; [|done]. apply bytes_eqb_eq in E as ->. by rewrite app_nil_r.
  - intros Hv. apply reads_one in Hr. rewrite Hv in Hr. apply read_expected_reads in Hr as (r' & -> & Hr'); [|vm_compute; discriminate].
    cbn [res_bind content]. rewrite (finish_reads _ _ Hr'). cbn [res_bind]. by rewrite bytes_eqb_refl.
Qed.

Lemma check_parameters_field : check_parameters (mkDerValue xa0 (tlv DER_TAG_OBJECT_IDENTIFIER OID_SECP256R1_CONTENT)) = Ok tt.
Proof. vm_compute. reflexivity. Qed.

Lemma generator_multiply_valid {E : Type} (d : Fn) : exists p, p256_generator_multiply (encs d) = Ok p :> res E _ /\ valid p /\
  p = enc_point (multiple _ (Zmod.to_Z d) gen).
Proof.
  exists (enc_point (multiple _ (Zmod.to_Z d) gen)). split_and!; [| |done].
  - unfold p256_generator_multiply. rewrite generator_enc, multiply_enc by apply enc_ok. by rewrite value_encs.
  - eexists. split; [done|]. exact (multiple_on_curve _ field_modulus_prime field_large curve_b _ gen gen_on_curve).
Qed.

Lemma check_public_key_iff (d : Fn) (p : P256Point) (v : DerValue) : len (content v) <= usize_max ->
  p256_generator_multiply (encs d) = Ok p :> res DerError _ -> valid p ->
  check_public_key (encs d) v = Ok tt <->
  exists encoded, to_sec1_uncompressed p = Ok encoded /\ content v = tlv DER_TAG_BIT_STRING (x00 :: encoded).
Proof.
  intros Hl Hp Hv. pose proof (reads_reader v Hl) as Hr. unfold check_public_key. split.
  - intros H. apply res_bind_Ok in H as ([key r] & Hk & H). destruct (read_expected_inv _ _ _ _ _ Hr Hk) as (c & rest & -> & Hc & Hr' & _).
    apply res_bind_Ok in H as (u & Hf & H). apply (finish_inv _ _ _ Hr') in Hf as ->. cbn [content] in *. case_bool_decide as Hh; [|done].
    destruct c as [|b c]; [done|]. cbn [head] in Hh. apply (inj Some) in Hh as ->. rewrite slice_from_Ok in H by (cbn [length]; lia). cbn [res_bind drop] in H.
    rewrite drop_0 in H. destruct (from_sec1_uncompressed c) as [q|e| |] eqn:Eq; try done. cbn [map_err res_bind] in H. rewrite Hp in H. cbn [res_bind] in H.
    case_bool_decide as Hqp; [|done]. subst q. apply sec1_round_trip_spec in Eq as [_ Eq]. exists c. by rewrite Hc, app_nil_r.
  - intros (encoded & He & Hc). apply reads_one in Hr. rewrite Hc in Hr. apply read_expected_reads in Hr as (r' & -> & Hr'); [|vm_compute; discriminate].
    cbn [res_bind content]. rewrite (finish_reads _ _ Hr'). cbn [res_bind head]. rewrite bool_decide_true by done.
    rewrite slice_from_Ok by (cbn [length]; lia). cbn [res_bind drop]. rewrite drop_0, (proj2 (sec1_round_trip_spec encoded p)) by done.
    cbn [map_err res_bind]. rewrite Hp. cbn [res_bind]. by rewrite bool_decide_true.
Qed.

Lemma key_fields_sound (fuel : nat) (d : Fn) (p : P256Point) (ps qs : bool) (r : DerReader) (bs : bytes) :
  p256_generator_multiply (encs d) = Ok p :> res DerError _ -> valid p -> reads r bs ->
  key_fields fuel (encs d) ps qs r = Ok tt -> key_tail p ps qs bs.
Proof.
  intros Hp Hv. revert ps qs r bs. induction fuel as [|fuel IH]; intros ps qs r bs Hr; [done|]. cbn [key_fields].
  rewrite (is_empty_reads r bs Hr). destruct bs as [|b bs]; [intros; apply tail_nil|]. intros H.
  apply res_bind_Ok in H as ([v r'] & Ht & H). destruct (read_tlv_inv _ _ _ _ Hr Ht) as (_ & rest & Hb & Hr' & Hl).
  destruct (byte_eqb (tag v) xa0) eqn:Ea; destruct ps; cbn [negb andb] in H.
  1,3,4: destruct (byte_eqb (tag v) xa1) eqn:Eb; destruct qs; cbn [negb andb] in H; try done;
    apply byte_eqb_eq in Eb; apply res_bind_Ok in H as ([] & Hc & H); apply (check_public_key_iff d p v Hl Hp Hv) in Hc as (encoded & He & Hc);
    rewrite Hb, Eb, Hc; fold (public_key_field encoded); apply tail_public_key; [done|by eapply IH].
  apply byte_eqb_eq in Ea. apply res_bind_Ok in H as ([] & Hc & H). apply (check_parameters_iff v Hl) in Hc.
  rewrite Hb, Ea, Hc. fold parameters_field. apply tail_parameters. by eapply IH.
Qed.

Lemma key_fields_complete (fuel : nat) (d : Fn) (p : P256Point) (ps qs : bool) (bs : bytes) (r : DerReader) :
  p256_generator_multiply (encs d) = Ok p :> res DerError _ -> valid p -> key_tail p ps qs bs -> reads r bs -> (length bs < fuel)%nat ->
  key_fields fuel (encs d) ps qs r = Ok tt.
Proof.
  intros Hp Hv Ht. revert fuel r. induction Ht as [ps qs|qs rest Ht IH|ps encoded rest He Ht IH]; intros fuel r Hr Hf;
    (destruct fuel as [|fuel]; [lia|]); cbn [key_fields]; rewrite (is_empty_reads _ _ Hr); [done| |].
  - pose proof (reads_inv _ _ Hr) as Hlen. unfold parameters_field in Hr. apply read_tlv_reads in Hr as (r' & -> & Hr'); [|vm_compute; discriminate].
    cbn [app res_bind tag]. change (byte_eqb xa0 xa0) with true. cbn [negb andb]. rewrite check_parameters_field.
    cbn [res_bind]. apply IH; [done|]. rewrite length_app in Hf. change (length parameters_field) with 12%nat in Hf. lia.
  - pose proof (reads_inv _ _ Hr) as Hlen. pose proof (to_sec1_valid p Hv) as Hs. rewrite He in Hs. destruct Hs as [Hs _].
    pose proof (length_tlv_le DER_TAG_BIT_STRING (x00 :: encoded) 66 ltac:(cbn [length]; lia) ltac:(lia)) as Hc.
    unfold public_key_field in Hr. apply read_tlv_reads in Hr as (r' & Hr & Hr'); [|vm_compute; discriminate].
    change (public_key_field encoded ++ rest) with (xa1 :: (der_length (len (tlv DER_TAG_BIT_STRING (x00 :: encoded))) ++ tlv DER_TAG_BIT_STRING (x00 :: encoded)) ++ rest) in *.
    rewrite Hr. cbn [res_bind tag]. change (byte_eqb xa1 xa0) with false. change (byte_eqb xa1 xa1) with true. cbn [negb andb].
    assert (Hlv : len (content (mkDerValue xa1 (tlv DER_TAG_BIT_STRING (x00 :: encoded)))) <= usize_max) by (cbn [content]; unfold len, usize_max, u64_max; lia).
    rewrite (proj2 (check_public_key_iff d p _ Hlv Hp Hv)) by eauto. cbn [res_bind]. apply IH; [done|]. cbn [length] in Hf. rewrite length_app in Hf. lia.
Qed.

Lemma len_content (t : byte) (c : bytes) : len (tlv t c) <= usize_max -> len c <= usize_max.
Proof. unfold len at 1. rewrite length_tlv. unfold len. lia. Qed.

(** What the scalar of a key is: 32 octets below the order, and not zero. *)
Lemma secret_scalar {E : Type} (secret : bytes) : length secret = 32%nat ->
  exists v (k : Fn), from_be_bytes secret = Ok v :> res E _ /\ scalar_new v = Ok (encs k) :> res E _ /\
    (encs k = v <-> secret = be_bytes 32 (Zmod.to_Z k)).
Proof.
  intros Hl. pose proof (limbs_of_ok 4 (be_value 0 secret)) as Hv. exists (limbs_of 4 (be_value 0 secret)). eexists. rewrite from_be_bytes_spec by done.
  split; [done|]. rewrite scalar_new_enc by done. split; [done|]. set (k := Zmod.of_Z _ _). split; intros H.
  - rewrite <- to_be_bytes_encs, H. by rewrite limbs_be_bytes.
  - apply (f_equal (be_value 0)) in H. rewrite be_value_be_bytes, Z.mod_small in H.
    + rewrite H. unfold enc. done.
    + pose proof (Zmod.to_Z_pos_bound k ltac:(done)) as Hk. assert (group_order < 256 ^ Z.of_nat 32) by (vm_compute; reflexivity). lia.
Qed.

Lemma be_bytes_secret (d : Fn) : be_value 0 (be_bytes 32 (Zmod.to_Z d)) = Zmod.to_Z d.
Proof.
  rewrite be_value_be_bytes, Z.mod_small; [done|]. pose proof (Zmod.to_Z_pos_bound d ltac:(done)) as Hd.
  assert (group_order < 256 ^ Z.of_nat 32) by (vm_compute; reflexivity). lia.
Qed.

Lemma private_key_decodes (der : bytes) (k : Scalar) : len der <= usize_max ->
  decode_p256_sec1_private_key_der der = Ok k <->
  exists (d : Fn) tail, d <> Zmod.zero /\ k = encs d /\ key_tail (enc_point (multiple _ (Zmod.to_Z d) gen)) false false tail /\
    der = private_key_encoding (be_bytes 32 (Zmod.to_Z d)) tail.
Proof.
  intros Hlen. pose proof (reads_new der Hlen) as Hr0. unfold decode_p256_sec1_private_key_der. split.
  - intros H. apply res_bind_Ok in H as ([sq r] & Hs & H). destruct (read_expected_inv _ _ _ _ _ Hr0 Hs) as (c & rest & -> & Hder & Hr & Hc).
    apply res_bind_Ok in H as (u & Hf & H). apply (finish_inv _ _ _ Hr) in Hf as ->. rewrite app_nil_r in Hder.
    pose proof (reads_reader (mkDerValue DER_TAG_SEQUENCE c) Hc) as Hrc. cbn [content] in Hrc.
    apply res_bind_Ok in H as ([version r1] & Hv & H). destruct (read_integer_inv _ _ _ _ Hrc Hv) as (rest1 & Hb1 & Hr1).
    destruct (bytes_eqb version [x01]) eqn:E1; [|done]. apply bytes_eqb_eq in E1 as ->. cbn [negb] in H.
    apply res_bind_Ok in H as ([pk r2] & Hp & H). destruct (read_expected_inv _ _ _ _ _ Hr1 Hp) as (secret & tail & -> & -> & Hr2 & _). cbn [content] in H.
    destruct (Nat.eqb_spec (length secret) 32) as [Hl|]; [|done]. cbn [negb] in H.
    destruct (secret_scalar (E := DerError) secret Hl) as (v & d & Hv1 & Hv2 & Hv3). rewrite Hv1 in H. cbn [res_bind] in H. rewrite Hv2 in H. cbn [res_bind] in H.
    case_bool_decide as Hz; [done|]. cbn [orb] in H. case_bool_decide as Hk; [|done]. cbn [negb] in H. apply Hv3 in Hk.
    apply res_bind_Ok in H as ([] & Hkf & H). apply Ok_inj in H as <-. destruct (generator_multiply_valid (E := DerError) d) as (p & Hg & Hvp & Ep).
    exists d, tail. split_and!; [intros H; by apply Hz, scalar_zero_iff|done| |].
    + rewrite <- Ep. by eapply key_fields_sound.
    + rewrite Hder, Hb1. rewrite <- Hk. done.
  - intros (d & tail & Hd & -> & Ht & Hder). destruct (generator_multiply_valid (E := DerError) d) as (p & Hg & Hvp & Ep). rewrite <- Ep in Ht.
    unfold private_key_encoding in Hder. apply reads_one in Hr0. rewrite Hder in Hr0.
    pose proof Hlen as Hc. rewrite Hder in Hc. apply len_content in Hc.
    destruct (read_expected_reads _ _ _ _ Hr0) as (r & Hs & Hr); [vm_compute; discriminate|]. rewrite Hder at 1. rewrite Hs. cbn [res_bind].
    rewrite (finish_reads _ _ Hr). cbn [res_bind]. pose proof (reads_reader (mkDerValue DER_TAG_SEQUENCE _) Hc) as Hrc. cbn [content] in Hrc.
    change (tlv DER_TAG_INTEGER [x01]) with (tlv DER_TAG_INTEGER (integer_content [x01])) in Hrc.
    apply read_integer_reads in Hrc as (r1 & Hi & Hr1). change (integer_content [x01]) with [x01] in Hi. rewrite Hi. cbn [res_bind].
    change (bytes_eqb (significant [x01]) [x01]) with true. cbn [negb].
    apply read_expected_reads in Hr1 as (r2 & Ho & Hr2); [|vm_compute; discriminate]. rewrite Ho. cbn [res_bind content].
    rewrite length_be_bytes. cbn [Nat.eqb negb].
    rewrite from_be_bytes_spec by apply length_be_bytes. cbn [res_bind]. rewrite scalar_new_enc by apply limbs_of_ok. cbn [res_bind].
    rewrite be_bytes_secret. change (limbs_of 4 (Zmod.to_Z d)) with (encs d). rewrite value_encs, Zmod.of_Z_to_Z.
    rewrite bool_decide_false by (intros H; by apply Hd, scalar_zero_iff). rewrite bool_decide_true by done. cbn [orb negb].
    rewrite (key_fields_complete _ d p false false tail _ Hg Hvp Ht Hr2); [done|]. rewrite Hder, length_tlv, !length_app. lia.
Qed.

Lemma from_sec1_returns (bs : bytes) : returns (from_sec1_uncompressed bs).
Proof.
  destruct (decide (length bs = 65%nat)) as [Hl|Hl].
  2: { unfold from_sec1_uncompressed. by rewrite (proj2 (Z.eqb_neq _ _)) by (unfold len; lia). }
  destruct (sec1_parts bs Hl) as (b & x & y & -> & Hx & Hy). rewrite from_sec1_spec by done. destruct (byte_eqb b x04); [|done]. cbn [negb].
  pose proof (from_coordinates_spec _ _ (limbs_of_ok 4 (be_value 0 x)) (limbs_of_ok 4 (be_value 0 y))) as H. by destruct (from_coordinates _ _).
Qed.

Lemma check_parameters_returns (v : DerValue) : len (content v) <= usize_max -> returns (check_parameters v).
Proof.
  intros Hl. pose proof (reads_reader v Hl) as Hr. apply res_bind_returns; [apply read_expected_returns, Hr|]. intros [c r] Hc.
  destruct (read_expected_inv _ _ _ _ _ Hr Hc) as (? & rest & _ & _ & Hr' & _). apply res_bind_returns; [by eapply finish_returns|]. intros u _. by case_match.
Qed.

Lemma check_public_key_returns (d : Fn) (v : DerValue) : len (content v) <= usize_max -> returns (check_public_key (encs d) v).
Proof.
  intros Hl. pose proof (reads_reader v Hl) as Hr. apply res_bind_returns; [apply read_expected_returns, Hr|]. intros [c r] Hc.
  destruct (read_expected_inv _ _ _ _ _ Hr Hc) as (b & rest & -> & _ & Hr' & _). apply res_bind_returns; [by eapply finish_returns|]. intros u _. cbn [content].
  case_bool_decide as Hh; [|done]. destruct b as [|x b]; [done|]. rewrite slice_from_Ok by (cbn [length]; lia). cbn [res_bind].
  apply res_bind_returns; [|intros q _; destruct (generator_multiply_valid (E := DerError) d) as (p & -> & _); cbn [res_bind]; by case_bool_decide].
  pose proof (from_sec1_returns (drop 1 (x :: b))) as H. by destruct (from_sec1_uncompressed _).
Qed.

Lemma key_fields_returns (fuel : nat) (d : Fn) (ps qs : bool) (bs : bytes) (r : DerReader) :
  reads r bs -> (length bs < fuel)%nat -> returns (key_fields fuel (encs d) ps qs r).
Proof.
  revert ps qs bs r. induction fuel as [|fuel IH]; intros ps qs bs r Hr Hf; [lia|]. cbn [key_fields]. destruct (is_empty r); [done|].
  apply res_bind_returns; [apply read_tlv_returns, Hr|]. intros [v r'] Ht. destruct (read_tlv_inv _ _ _ _ Hr Ht) as (_ & rest & -> & Hr' & Hl).
  assert (Hrest : (length rest < fuel)%nat) by (rewrite length_app, length_tlv in Hf; lia).
  destruct (_ && _); [apply res_bind_returns; [by apply check_parameters_returns|intros _ _; by eapply IH]|].
  destruct (_ && _); [apply res_bind_returns; [by apply check_public_key_returns|intros _ _; by eapply IH]|done].
Qed.

Lemma private_key_returns (der : bytes) : len der <= usize_max -> returns (decode_p256_sec1_private_key_der der).
Proof.
  intros Hlen. pose proof (reads_new der Hlen) as Hr. unfold decode_p256_sec1_private_key_der.
  apply res_bind_returns; [apply read_expected_returns, Hr|]. intros [sq r] Hs. destruct (read_expected_inv _ _ _ _ _ Hr Hs) as (c & rest & -> & Hder & Hr' & Hc).
  apply res_bind_returns; [by eapply finish_returns|]. intros _ _. pose proof (reads_reader (mkDerValue DER_TAG_SEQUENCE c) Hc) as Hrc. cbn [content] in Hrc.
  apply res_bind_returns; [apply read_integer_returns, Hrc|]. intros [version r1] Hv. destruct (read_integer_inv _ _ _ _ Hrc Hv) as (rest1 & -> & Hr1).
  destruct (bytes_eqb version [x01]); [|done]. cbn [negb]. apply res_bind_returns; [apply read_expected_returns, Hr1|]. intros [pk r2] Hp.
  destruct (read_expected_inv _ _ _ _ _ Hr1 Hp) as (secret & tail & -> & -> & Hr2 & _). cbn [content].
  destruct (Nat.eqb_spec (length secret) 32) as [Hl|]; [|done]. cbn [negb].
  destruct (secret_scalar (E := DerError) secret Hl) as (v & d & -> & Hs2 & _). cbn [res_bind]. rewrite Hs2. cbn [res_bind]. destruct (_ || _); [done|].
  apply res_bind_returns; [|done]. eapply key_fields_returns; [exact Hr2|]. rewrite Hder, !length_app, length_tlv, !length_app. lia.
Qed.

(** ** Writing private keys *)
Lemma private_key_encodes (d : Fn) : d <> Zmod.zero ->
  encode_p256_sec1_private_key_der (encs d) =
    match to_sec1_uncompressed (enc_point (multiple _ (Zmod.to_Z d) gen)) with
    | Ok encoded => Ok (private_key_encoding (be_bytes 32 (Zmod.to_Z d)) (parameters_field ++ public_key_field encoded))
    | _ => Err InvalidP256PublicKey
    end.
Proof.
  intros Hd. unfold encode_p256_sec1_private_key_der. rewrite bool_decide_false by (intros H; by apply Hd, scalar_zero_iff).
  destruct (generator_multiply_valid (E := DerError) d) as (p & -> & Hv & <-). cbn [res_bind]. pose proof (to_sec1_valid p Hv) as Hs.
  destruct (to_sec1_uncompressed p) as [encoded|e| |]; try done. destruct Hs as [Hl _]. cbn [map_err res_bind]. rewrite oid_secp256r1. cbn [res_bind].
  unfold der_bit_string, der_octet_string, der_sequence.
  pose proof (length_tlv_le DER_TAG_BIT_STRING (x00 :: encoded) 66 ltac:(cbn [length]; lia) ltac:(lia)) as H1.
  pose proof (length_tlv_le xa1 (tlv DER_TAG_BIT_STRING (x00 :: encoded)) 76 ltac:(lia) ltac:(lia)) as H2.
  rewrite der_wrap_small by (unfold len; cbn [length]; lia). cbn [res_bind]. rewrite to_be_bytes_encs.
  rewrite der_integer_unsigned_spec by (vm_compute; reflexivity). cbn [res_bind].
  pose proof (length_tlv_le DER_TAG_OCTET_STRING (be_bytes 32 (Zmod.to_Z d)) 32 ltac:(rewrite length_be_bytes; lia) ltac:(lia)) as H3.
  rewrite der_wrap_small by (unfold len; rewrite length_be_bytes; lia). cbn [res_bind].
  rewrite der_context_specific_low by (lia || (vm_compute; discriminate)). cbn [res_bind].
  rewrite der_context_specific_low by (lia || (unfold len, usize_max, u64_max; lia)). cbn [res_bind concat]. rewrite app_nil_r.
  change (of_u8 (Z.lor (Z.lor 128 0) 32)) with xa0. change (of_u8 (Z.lor (Z.lor 128 1) 32)) with xa1. fold parameters_field. fold (public_key_field encoded).
  change (integer_content [x01]) with [x01].
  rewrite der_wrap_small; [done|]. unfold len. rewrite !length_app. change (length (tlv DER_TAG_INTEGER [x01])) with 3%nat. change (length parameters_field) with 12%nat.
  unfold public_key_field. lia.
Qed.

Lemma key_tail_full (p : P256Point) (encoded : bytes) : to_sec1_uncompressed p = Ok encoded ->
  key_tail p false false (parameters_field ++ public_key_field encoded).
Proof.
  intros He. apply tail_parameters. rewrite <- (app_nil_r (public_key_field encoded)). apply tail_public_key; [done|]. apply tail_nil.
Qed.

Lemma len_private_key_encoding (d : Fn) (encoded : bytes) : length encoded = 65%nat ->
  len (private_key_encoding (be_bytes 32 (Zmod.to_Z d)) (parameters_field ++ public_key_field encoded)) <= usize_max.
Proof.
  intros Hl. pose proof (length_tlv_le DER_TAG_BIT_STRING (x00 :: encoded) 66 ltac:(cbn [length]; lia) ltac:(lia)) as H1.
  pose proof (length_tlv_le xa1 (tlv DER_TAG_BIT_STRING (x00 :: encoded)) 76 ltac:(lia) ltac:(lia)) as H2.
  pose proof (length_tlv_le DER_TAG_OCTET_STRING (be_bytes 32 (Zmod.to_Z d)) 32 ltac:(rewrite length_be_bytes; lia) ltac:(lia)) as H3.
  unfold private_key_encoding. match goal with |- len (tlv ?t ?c) <= _ => assert (H : (length c <= 200)%nat); [|pose proof (length_tlv_le t c 200 H ltac:(lia)); unfold len, usize_max, u64_max; lia] end.
  rewrite !length_app. change (length (tlv DER_TAG_INTEGER [x01])) with 3%nat. change (length parameters_field) with 12%nat. unfold public_key_field. lia.
Qed.

(** ** The grammar of DNS names *)
Definition label_byte (b : byte) : bool := is_ascii_alphanumeric b || byte_eqb b x2d.

(** The labels of RFC 1123: letters, digits and inner hyphens. *)
Definition dns_label (l : bytes) : Prop :=
  (1 <= length l <= 63)%nat /\ Forall (fun b => label_byte b = true) l /\ head l <> Some x2d /\ List.last l x00 <> x2d.

(** Labels joined by dots, or a wildcard in front of them. *)
Definition dns_name (name : bytes) : Prop :=
  len name <= 253 /\ exists labels, labels <> [] /\ Forall dns_label labels /\
    (name = join [x2e] labels \/ name = str "*." ++ join [x2e] labels).

Lemma dns_label_ok_iff (l : bytes) : dns_label_ok l = true <-> dns_label l.
Proof.
  unfold dns_label_ok, dns_label. rewrite negb_true_iff, !orb_false_iff, bool_decide_eq_false, Z.ltb_ge, negb_false_iff.
  destruct l as [|b l]; [split; [by intros ((((? & ?) & ?) & ?) & ?)|intros [? _]; cbn in *; lia]|].
  assert (Hs : starts_with [x2d] (b :: l) = false <-> head (b :: l) <> Some x2d).
  { cbn. rewrite andb_true_r. destruct (byte_eqb x2d b) eqn:E; [apply byte_eqb_eq in E as <-; split; [done|congruence]|].
    split; [|done]. intros _ [= ->]. by rewrite byte_eqb_refl in E. }
  assert (He : ends_with [x2d] (b :: l) = false <-> List.last (b :: l) x00 <> x2d).
  { destruct (exists_last (l := b :: l) ltac:(done)) as (l' & c & E). rewrite E, last_last. unfold ends_with. rewrite rev_app_distr. cbn. rewrite andb_true_r.
    destruct (byte_eqb x2d c) eqn:Ec; [apply byte_eqb_eq in Ec as <-; split; [done|congruence]|]. split; [|done]. intros _ ->. by rewrite byte_eqb_refl in Ec. }
  rewrite Hs, He, forallb_forall, Forall_forall. unfold len. cbn [length]. split.
  - intros ((((_ & Hl) & H1) & H2) & H3). split_and!; try done; try lia. intros c Hc. apply H3. by apply list_elem_of_In.
  - intros (Hl & H3 & H1 & H2). split_and!; try done; try lia. intros c Hc. apply H3. by apply list_elem_of_In.
Qed.

Lemma label_byte_facts (b : byte) : label_byte b = true -> is_ascii b = true /\ byte_eqb x2e b = false /\ byte_eqb x2a b = false.
Proof. destruct b; vm_compute; done. Qed.

Lemma join_labels (labels : list bytes) : labels <> [] -> Forall dns_label labels ->
  join [x2e] labels <> [] /\ forallb is_ascii (join [x2e] labels) = true /\ ends_with [x2e] (join [x2e] labels) = false /\
  existsb (byte_eqb x2a) (join [x2e] labels) = false /\ starts_with (str "*.") (join [x2e] labels) = false /\
  split_on (byte_eqb x2e) (join [x2e] labels) = labels.
Proof.
  intros Hne Hall.
  assert (Hb : Forall (fun b => label_byte b = true \/ b = x2e) (join [x2e] labels)).
  { clear Hne. induction Hall as [|l labels (_ & Hl & _) Hall IH]; [by apply Forall_nil|].
    assert (Hl' : Forall (fun b => label_byte b = true \/ b = x2e) l) by (eapply Forall_impl; [exact Hl|]; auto).
    destruct labels as [|l' labels]; [done|]. change (join [x2e] (l :: l' :: labels)) with (l ++ [x2e] ++ join [x2e] (l' :: labels)).
    rewrite !Forall_app. split_and!; try done. by apply Forall_singleton; right. }
  assert (Hh : exists b rest, join [x2e] labels = b :: rest /\ label_byte b = true).
  { destruct labels as [|l labels]; [done|]. apply Forall_cons in Hall as [(Hl & Hlb & _) _]. destruct l as [|b l]; [cbn in Hl; lia|].
    apply Forall_cons in Hlb as [Hlb _]. destruct labels as [|l' labels]; [by exists b, l|]. by exists b, (l ++ [x2e] ++ join [x2e] (l' :: labels)). }
  assert (Ht : exists front b, join [x2e] labels = front ++ [b] /\ label_byte b = true).
  { clear Hb Hh. induction Hall as [|l labels (Hl & Hlb & _) Hall IH]; [done|]. destruct labels as [|l' labels].
    - destruct (exists_last (l := l) ltac:(by intros ->; cbn in Hl; lia)) as (l1 & b & ->). exists l1, b. split; [done|].
      apply Forall_app in Hlb as [_ Hlb]. by apply Forall_cons in Hlb as [Hlb _].
    - destruct IH as (front & b & Hf & Hbb); [done|]. exists (l ++ [x2e] ++ front), b. split; [|done].
      change (join [x2e] (l :: l' :: labels)) with (l ++ [x2e] ++ join [x2e] (l' :: labels)). by rewrite Hf, <- !app_assoc. }
  destruct Hh as (b & rest & Hh & Hbb). destruct Ht as (front & c & Ht & Hc). split_and!.
  - by rewrite Hh.
  - apply forallb_forall. intros x Hx. rewrite Forall_forall in Hb. apply list_elem_of_In in Hx. destruct (Hb x Hx) as [Hl| ->]; [|done].
    by apply label_byte_facts.
  - rewrite Ht. unfold ends_with. rewrite rev_app_distr. apply label_byte_facts in Hc as (_ & Hc & _).
    change (byte_eqb x2e c && starts_with [] (rev front) = false). by rewrite Hc.
  - apply not_true_iff_false. intros H. apply existsb_exists in H as (x & Hx & Hs). apply list_elem_of_In in Hx. rewrite Forall_forall in Hb.
    destruct (Hb x Hx) as [Hl| ->]; [|done]. apply label_byte_facts in Hl as (_ & _ & Hl). congruence.
  - rewrite Hh. apply label_byte_facts in Hbb as (_ & _ & Hbb). change (byte_eqb x2a b && starts_with [x2e] rest = false). by rewrite Hbb.
  - apply split_on_join; [done|]. eapply Forall_impl; [exact Hall|]. intros l (_ & Hl & _) Hin. rewrite Forall_forall in Hl. apply Hl in Hin. done.
Qed.

Lemma validate_dns_name_iff (name : bytes) : validate_dns_name name = Ok tt <-> dns_name name.
Proof.
  unfold validate_dns_name, dns_name. split.
  - destruct (bool_decide_reflect (name = [])) as [|Hne]; [done|]. destruct (forallb is_ascii name) eqn:Ea; [|done]. cbn [negb orb].
    destruct (Z.ltb_spec 253 (len name)) as [|Hl]; [done|]. destruct (ends_with [x2e] name) eqn:Ee; [done|]. cbn [orb]. intros H. split; [done|].
    apply res_bind_Ok in H as (hostname & Hh & H). destruct (forallb dns_label_ok _) eqn:Ef; [|done]. exists (split_on (byte_eqb x2e) hostname).
    split_and!; [apply split_on_ne| |].
    + rewrite Forall_forall. intros l Hin. rewrite forallb_forall in Ef. apply dns_label_ok_iff, Ef. by apply list_elem_of_In.
    + rewrite join_split_on. destruct (starts_with (str "*.") name) eqn:Es.
      * apply starts_with_true in Es as [rest ->]. rewrite drop_app_length in Hh. case_bool_decide; [done|]. apply Ok_inj in Hh as <-. by right.
      * destruct (existsb _ _); [done|]. apply Ok_inj in Hh as <-. by left.
  - intros (Hl & labels & Hne & Hall & Hn). destruct (join_labels labels Hne Hall) as (J1 & J2 & J3 & J4 & J5 & J6).
    assert (Hf : forallb dns_label_ok labels = true).
    { apply forallb_forall. intros l Hin. rewrite Forall_forall in Hall. apply dns_label_ok_iff, Hall. by apply list_elem_of_In. }
    rewrite (proj2 (Z.ltb_ge _ _) Hl). destruct Hn as [-> | ->].
    + rewrite bool_decide_false, J2, J3, J5, J4 by done. cbn [negb orb res_bind]. by rewrite J6, Hf.
    + rewrite bool_decide_false by done. rewrite forallb_app, J2, starts_with_app, drop_app_length. rewrite (bool_decide_false (_ = [])) by done.
      assert (He : ends_with [x2e] (str "*." ++ join [x2e] labels) = false).
      { destruct (exists_last J1) as (front & c & E). rewrite E in *. unfold ends_with in *. rewrite app_assoc, rev_app_distr. rewrite rev_app_distr in J3. exact J3. }
      rewrite He. change (forallb is_ascii (str "*.")) with true. cbn [andb negb orb res_bind]. by rewrite J6, Hf.
Qed.

Lemma validate_dns_name_err (name : bytes) : validate_dns_name name = Ok tt \/ validate_dns_name name = Err InvalidDnsName.
Proof.
  unfold validate_dns_name. destruct (_ || _); [by right|]. destruct (starts_with _ _); [case_bool_decide; [by right|]|destruct (existsb _ _); [by right|]];
    cbn [res_bind]; destruct (forallb _ _); auto.
Qed.

(** ** Encodings of names and requests *)
Definition names_encoding (names : list bytes) : bytes := tlv DER_TAG_SEQUENCE (concat (map (tlv x82) names)).

Lemma general_names_spec (out names : list bytes) :
  (Forall dns_name names /\ res_foldM general_name out names = Ok (out ++ map (tlv x82) names)) \/
  (~ Forall dns_name names /\ res_foldM general_name out names = Err InvalidDnsName).
Proof.
  revert out. induction names as [|name names IH]; intros out; [left; split; [by apply Forall_nil|cbn; by rewrite app_nil_r]|].
  cbn [res_foldM map]. unfold general_name at 1 3. destruct (validate_dns_name_err name) as [Hv|Hv]; rewrite Hv; cbn [res_bind].
  - pose proof (proj1 (validate_dns_name_iff name) Hv) as Hn. destruct Hn as [Hl Hn]. rewrite der_context_specific_low by (lia || (unfold usize_max, u64_max; lia)).
    cbn [res_bind]. change (of_u8 (Z.lor 128 2)) with x82. destruct (IH (out ++ [tlv x82 name])) as [[Ha He]|[Ha He]]; rewrite He; [left|right]; (split; [|done || by rewrite <- app_assoc]).
    + constructor; [by apply validate_dns_name_iff|done].
    + by intros [_ ?]%Forall_cons.
  - right. split; [|done]. intros [H _]%Forall_cons. apply validate_dns_name_iff in H. congruence.
Qed.

Lemma len_names (names : list bytes) : Forall dns_name names -> 0 <= len (concat (map (tlv x82) names)) <= 263 * len names.
Proof.
  induction 1 as [|n names [Hn _] Hall IH]; [cbn; unfold len; cbn; lia|]. cbn [map concat].
  pose proof (len_tlv x82 n ltac:(unfold usize_max, u64_max; lia)) as Ht. unfold len in *. rewrite length_app. cbn [length]. lia.
Qed.

Lemma names_spec (names : list bytes) : 263 * len names <= usize_max ->
  (names <> [] /\ Forall dns_name names /\ encode_subject_alt_name_dns names = Ok (names_encoding names)) \/
  (~ (names <> [] /\ Forall dns_name names) /\ encode_subject_alt_name_dns names = Err InvalidDnsName).
Proof.
  intros Hl. unfold encode_subject_alt_name_dns. destruct names as [|name names]; [by right; split; [intros [? _]|]|].
  destruct (general_names_spec [] (name :: names)) as [[Ha He]|[Ha He]]; rewrite He; cbn [res_bind app].
  - left. split_and!; [done..|]. unfold der_sequence. pose proof (len_names _ Ha). rewrite der_wrap_spec by lia. done.
  - right. split; [by intros [_ ?]|done].
Qed.

Definition san_extension_encoding (names : list bytes) : bytes :=
  tlv DER_TAG_SEQUENCE (tlv DER_TAG_OBJECT_IDENTIFIER OID_SUBJECT_ALT_NAME_CONTENT ++ tlv DER_TAG_OCTET_STRING (names_encoding names)).

Definition OID_EXTENSION_REQUEST_CONTENT : bytes := [x2a; x86; x48; x86; xf7; x0d; x01; x09; x0e].
Definition OID_ECDSA_WITH_SHA256_CONTENT : bytes := [x2a; x86; x48; xce; x3d; x04; x03; x02].

Definition attributes_encoding (names : list bytes) : bytes :=
  tlv xa0 (tlv DER_TAG_SEQUENCE (tlv DER_TAG_OBJECT_IDENTIFIER OID_EXTENSION_REQUEST_CONTENT ++
    tlv DER_TAG_SET (tlv DER_TAG_SEQUENCE (san_extension_encoding names)))).

(** The part of a request that is signed, and the whole. *)
Definition request_info_encoding (encoded : bytes) (names : list bytes) : bytes :=
  tlv DER_TAG_SEQUENCE (tlv DER_TAG_INTEGER [x00] ++ tlv DER_TAG_SEQUENCE [] ++ spki_encoding encoded ++ attributes_encoding names).
Definition signature_encoding (r s : bytes) : bytes :=
  tlv DER_TAG_SEQUENCE (tlv DER_TAG_INTEGER (integer_content r) ++ tlv DER_TAG_INTEGER (integer_content s)).
Definition request_encoding (info signature : bytes) : bytes :=
  tlv DER_TAG_SEQUENCE (info ++ tlv DER_TAG_SEQUENCE (tlv DER_TAG_OBJECT_IDENTIFIER OID_ECDSA_WITH_SHA256_CONTENT) ++ tlv DER_TAG_BIT_STRING (x00 :: signature)).

(** Lengths that stay far below the address space. *)
Lemma len_tlv_below (t : byte) (c : bytes) (n : Z) : len c <= n -> n <= 1000000000000000 -> 0 <= len (tlv t c) <= n + 10.
Proof. intros H Hn. pose proof (len_tlv t c ltac:(unfold usize_max, u64_max; lia)). pose proof (len_nonneg c). lia. Qed.

Lemma der_wrap_below {E : Type} (t : byte) (c : bytes) (n : Z) : len c <= n -> n <= 1000000000000000 ->
  der_wrap t c = Ok (tlv t c) :> res E _ /\ 0 <= len (tlv t c) <= n + 10.
Proof. intros H Hn. split; [apply der_wrap_spec; unfold usize_max, u64_max; lia|by apply len_tlv_below]. Qed.

Lemma merge_sort_one (a : bytes) : der_set_content [a] = a.
Proof. unfold der_set_content. cbn. apply app_nil_r. Qed.

Ltac wrap_step n :=
  match goal with |- context [der_wrap ?t ?c] =>
    let H := fresh "Hw" in
    destruct (der_wrap_below (E := DerError) t c n) as [H ?]; [rewrite ?len_app in *; lia|lia|]; rewrite H; clear H; cbn [res_bind concat]; rewrite ?app_nil_r
  end.

Lemma csr_attributes_spec (names : list bytes) : names <> [] -> Forall dns_name names -> len names <= 1099511627776 ->
  csr_attributes names = Ok (attributes_encoding names) /\ 0 <= len (attributes_encoding names) <= 263 * len names + 200.
Proof.
  intros Hne Hall Hl. pose proof (len_names names Hall) as Hn. pose proof (len_nonneg names). unfold csr_attributes.
  destruct (names_spec names) as [(_ & _ & He)|[Hno _]]; [unfold usize_max, u64_max; lia| |by destruct Hno]. rewrite He. cbn [res_bind].
  pose proof (len_tlv_below DER_TAG_SEQUENCE (concat (map (tlv x82) names)) (263 * len names) ltac:(lia) ltac:(lia)) as H0. fold (names_encoding names) in H0.
  assert (O1 : expect_ok (der_object_identifier OID_SUBJECT_ALT_NAME) = Ok (tlv DER_TAG_OBJECT_IDENTIFIER OID_SUBJECT_ALT_NAME_CONTENT) :> res DerError _)
    by (vm_compute; reflexivity).
  assert (O2 : expect_ok (der_object_identifier OID_EXTENSION_REQUEST) = Ok (tlv DER_TAG_OBJECT_IDENTIFIER OID_EXTENSION_REQUEST_CONTENT) :> res DerError _)
    by (vm_compute; reflexivity).
  assert (L1 : len (tlv DER_TAG_OBJECT_IDENTIFIER OID_SUBJECT_ALT_NAME_CONTENT) = 5) by (vm_compute; reflexivity).
  assert (L2 : len (tlv DER_TAG_OBJECT_IDENTIFIER OID_EXTENSION_REQUEST_CONTENT) = 11) by (vm_compute; reflexivity).
  rewrite O1, O2. cbn [res_bind]. unfold der_octet_string, der_sequence, der_set. cbn [concat]. rewrite ?app_nil_r.
  wrap_step (263 * len names + 10). wrap_step (263 * len names + 30). wrap_step (263 * len names + 40).
  fold (san_extension_encoding names) in *. rewrite merge_sort_one. wrap_step (263 * len names + 50). wrap_step (263 * len names + 80).
  rewrite merge_sort_one. rewrite der_context_specific_low by (lia || (unfold usize_max, u64_max; lia)).
  change (of_u8 (Z.lor (Z.lor 128 0) 32)) with xa0. split; [done|]. unfold attributes_encoding.
  pose proof (len_tlv_below xa0 _ (263 * len names + 80 + 10) (proj2 H5) ltac:(lia)). lia.
Qed.

Lemma signature_encodes {E : Type} (r s : Fn) :
  encode_p256_signature_der (enc_signature (r, s)) = Ok (signature_encoding (be_bytes 32 (Zmod.to_Z r)) (be_bytes 32 (Zmod.to_Z s))) :> res E _ /\
  0 <= len (signature_encoding (be_bytes 32 (Zmod.to_Z r)) (be_bytes 32 (Zmod.to_Z s))) <= 100.
Proof.
  assert (Hi : forall d : Fn, len (integer_content (be_bytes 32 (Zmod.to_Z d))) <= 33).
  { intros d. unfold integer_content. pose proof (length_significant (be_bytes 32 (Zmod.to_Z d))) as H. rewrite length_be_bytes in H.
    destruct (significant _) as [|b z]; [unfold len; cbn [length] in *; lia|]. destruct (u8 b <? 128); unfold len; cbn [length] in *; lia. }
  pose proof (len_tlv_below DER_TAG_INTEGER _ 33 (Hi r) ltac:(lia)) as Hr. pose proof (len_tlv_below DER_TAG_INTEGER _ 33 (Hi s) ltac:(lia)) as Hs.
  unfold encode_p256_signature_der. cbn [components enc_signature fst snd sig_r sig_s]. rewrite !to_be_bytes_encs.
  rewrite !der_integer_unsigned_spec by (unfold len; rewrite length_be_bytes; unfold usize_max, u64_max; lia). cbn [res_bind]. unfold der_sequence. cbn [concat]. rewrite app_nil_r.
  destruct (der_wrap_below (E := E) DER_TAG_SEQUENCE (tlv DER_TAG_INTEGER (integer_content (be_bytes 32 (Zmod.to_Z r))) ++
    tlv DER_TAG_INTEGER (integer_content (be_bytes 32 (Zmod.to_Z s)))) 90) as [-> Hl]; [rewrite len_app; lia|lia|]. split; [done|]. exact Hl.
Qed.

(** The outcome of signing, by the search through the nonces. *)
Lemma sign_search (fuel : nat) (d : Fn) (message : bytes) : d <> Zmod.zero -> len message <= u64_max / 8 ->
  match p256_ecdsa_sign_sha256 fuel (encs d) message with
  | Ok sg => exists n r s, Ecdsa.search n d (hash_value message) (initial_generator d message) = Some (r, s) /\ sg = enc_signature (r, s)
  | Fuel => Ecdsa.search fuel d (hash_value message) (initial_generator d message) = None
  | Err _ | Panic => False
  end.
Proof.
  intros Hd Hm. rewrite sign_spec, decide_False by done. pose proof (sign_loop_spec fuel fuel d (hash_value message) _ (initial_generator_ok d message)) as H.
  destruct (sign_loop _ _ _ _ _); try done; [|by rewrite Nat.min_id in H]. destruct H as (n & [r s] & Hs & ->). by exists n, r, s.
Qed.

Lemma request_info_spec (d : Fn) (names : list bytes) (encoded : bytes) : names <> [] -> Forall dns_name names -> len names <= 1099511627776 ->
  to_sec1_uncompressed (enc_point (multiple _ (Zmod.to_Z d) gen)) = Ok encoded ->
  (let? subject_public_key_info := encode_p256_spki_der (enc_point (multiple _ (Zmod.to_Z d) gen)) in
   let? attributes := csr_attributes names in
   let? version := der_integer_unsigned [x00] in
   let? subject := der_sequence [] in
   der_sequence [version; subject; subject_public_key_info; attributes]) = Ok (request_info_encoding encoded names) /\
  0 <= len (request_info_encoding encoded names) <= 263 * len names + 400.
Proof.
  intros Hne Hall Hl He. destruct (generator_multiply_valid (E := DerError) d) as (p & _ & Hv & Ep). rewrite <- Ep in *.
  pose proof (to_sec1_valid p Hv) as H65. rewrite He in H65. destruct H65 as [H65 _]. pose proof (len_nonneg names).
  rewrite spki_spec, He by done. cbn [res_bind]. destruct (csr_attributes_spec names Hne Hall Hl) as [-> Ha]. cbn [res_bind].
  rewrite der_integer_unsigned_spec by (vm_compute; reflexivity). cbn [res_bind]. change (integer_content [x00]) with [x00].
  unfold der_sequence. cbn [concat]. rewrite app_nil_r. rewrite (der_wrap_small DER_TAG_SEQUENCE []) by (vm_compute; discriminate). cbn [res_bind].
  assert (Hs : 0 <= len (spki_encoding encoded) <= 130).
  { pose proof (len_tlv_below DER_TAG_BIT_STRING (x00 :: encoded) 66 ltac:(unfold len; cbn [length]; lia) ltac:(lia)) as H1. unfold spki_encoding.
    change 130 with (120 + 10). apply len_tlv_below; [|lia]. rewrite len_app. change (len algorithm_encoding) with 21. lia. }
  destruct (der_wrap_below (E := DerError) DER_TAG_SEQUENCE (tlv DER_TAG_INTEGER [x00] ++ tlv DER_TAG_SEQUENCE [] ++ spki_encoding encoded ++ attributes_encoding names)
    (263 * len names + 350)) as [-> Hw]; [|lia|].
  - rewrite !len_app. change (len (tlv DER_TAG_INTEGER [x00])) with 3. change (len (tlv DER_TAG_SEQUENCE [])) with 2. lia.
  - split; [done|]. unfold request_info_encoding. lia.
Qed.

Lemma algorithm_ecdsa {E : Type} : ecdsa_sha256_algorithm_identifier =
  Ok (tlv DER_TAG_SEQUENCE (tlv DER_TAG_OBJECT_IDENTIFIER OID_ECDSA_WITH_SHA256_CONTENT)) :> res E _.
Proof. vm_compute. reflexivity. Qed.

Lemma request_assembles (info : bytes) (r s : Fn) (names : list bytes) : len names <= 1099511627776 -> 0 <= len info <= 263 * len names + 400 ->
  (let? signature := encode_p256_signature_der (enc_signature (r, s)) in
   let? algorithm := ecdsa_sha256_algorithm_identifier in
   let? signature := der_bit_string signature in
   der_sequence [info; algorithm; signature]) =
  Ok (request_encoding info (signature_encoding (be_bytes 32 (Zmod.to_Z r)) (be_bytes 32 (Zmod.to_Z s)))) :> res DerError _.
Proof.
  intros Hl Hi. destruct (signature_encodes (E := DerError) r s) as [-> Hs]. cbn [res_bind]. rewrite algorithm_ecdsa. cbn [res_bind].
  unfold der_bit_string, der_sequence. pose proof (len_nonneg names).
  match goal with |- context [der_wrap DER_TAG_BIT_STRING ?c] => destruct (der_wrap_below (E := DerError) DER_TAG_BIT_STRING c 101) as [-> Hb] end.
  { unfold len in *. cbn [length]. lia. } { lia. }
  cbn [res_bind concat]. rewrite app_nil_r.
  match goal with |- context [der_wrap DER_TAG_SEQUENCE ?c] => destruct (der_wrap_below (E := DerError) DER_TAG_SEQUENCE c (263 * len names + 600)) as [-> _] end; [|lia|done].
  rewrite !len_app. match goal with |- context [len (tlv DER_TAG_SEQUENCE ?x)] => change (len (tlv DER_TAG_SEQUENCE x)) with 12 end. lia.
Qed.

(** ** What the encoders and decoders do *)

(** Reading a private key never panics, and accepts exactly a sequence of version one, the 32 octets of a
    scalar from 1 below the order, and the optional fields, each at most once: the P-256 parameters, and the
    uncompressed point of that very scalar. *)
Theorem private_key_exact (der : bytes) (k : Scalar) (Hl : len der <= usize_max) :
  returns (decode_p256_sec1_private_key_der der) /\
  (decode_p256_sec1_private_key_der der = Ok k <->
   exists (d : Fn) tail, d <> Zmod.zero /\ k = encs d /\ key_tail (enc_point (multiple _ (Zmod.to_Z d) gen)) false false tail /\
     der = private_key_encoding (be_bytes 32 (Zmod.to_Z d)) tail).
Proof. split; [by apply private_key_returns|by apply private_key_decodes]. Qed.

Lemma private_key_exact_witness :
  decode_p256_sec1_private_key_der (private_key_encoding (be_bytes 32 (Zmod.to_Z (Zmod.one : Fn))) (parameters_field ++ [])) = Ok (encs Zmod.one).
Proof.
  apply (private_key_exact _ (encs Zmod.one)); [vm_compute; discriminate|].
  exists Zmod.one, (parameters_field ++ []). split; [exact (one_ne group_order order_large)|].
  split; [reflexivity|]. split; [apply tail_parameters, tail_nil|reflexivity].
Defined.

(** A private key written as PEM is read back, behind lines that are no begin boundary and before
    whatever follows; the only key that is not written is zero, or one whose point is the identity. *)
Theorem private_key_round_trip (d : Fn) (before : list bytes) (after : bytes)
  (Hb : Forall (fun l => one_line l /\ trimmed (strip_cr l) <> begin_line (str "EC PRIVATE KEY")) before) :
  match encode_p256_sec1_private_key_pem (encs d) with
  | Ok text => decode_p256_sec1_private_key_pem (unlines before ++ text ++ after) = Ok (encs d)
  | Err e => (e = InvalidP256PrivateKey /\ d = Zmod.zero) \/ (e = InvalidP256PublicKey /\ multiple _ (Zmod.to_Z d) gen = None)
  | Panic | Fuel => False
  end.
Proof.
  unfold encode_p256_sec1_private_key_pem, decode_p256_sec1_private_key_pem. destruct (F_eq_dec _ d Zmod.zero) as [->|Hd].
  { unfold encode_p256_sec1_private_key_der. rewrite bool_decide_true by (by apply scalar_zero_iff). by left. }
  rewrite private_key_encodes by done. destruct (generator_multiply_valid (E := DerError) d) as (p & _ & Hv & Ep). rewrite <- Ep.
  pose proof (to_sec1_valid p Hv) as Hs. destruct (to_sec1_uncompressed p) as [encoded|e| |] eqn:He; [| |destruct Hs..]; cbn [res_bind].
  - destruct Hs as [Hs _]. set (der := private_key_encoding _ _).
    destruct (pem_decodes_encoded (str "EC PRIVATE KEY") der after before eq_refl Hb) as (text & -> & ->). cbn [res_bind].
    apply private_key_decodes; [by apply len_private_key_encoding|]. exists d, (parameters_field ++ public_key_field encoded). rewrite <- Ep.
    split; [exact Hd|]. split; [reflexivity|]. split; [by apply key_tail_full|reflexivity].
  - right. split; [done|]. rewrite Hs in Ep. by destruct (multiple _ _ _).
Qed.

Lemma private_key_round_trip_witness :
  match encode_p256_sec1_private_key_pem (encs Zmod.one) with
  | Ok text => decode_p256_sec1_private_key_pem (unlines [str "key"] ++ text ++ []) = Ok (encs Zmod.one)
  | Err e => (e = InvalidP256PrivateKey /\ (Zmod.one : Fn) = Zmod.zero) \/ (e = InvalidP256PublicKey /\ multiple _ (Zmod.to_Z (Zmod.one : Fn)) gen = None)
  | Panic | Fuel => False
  end.
Proof.
  apply (private_key_round_trip Zmod.one [str "key"] []). apply Forall_cons. split; [|apply Forall_nil; exact I]. split; [|discriminate].
  repeat (apply Forall_cons; split); try apply Forall_nil; reflexivity || exact I.
Defined.

(** The validation of DNS names accepts exactly the names of at most 253 octets that are labels joined by
    dots, a wildcard label possibly in front: labels of 1 to 63 letters, digits and inner hyphens. It has one
    error, and never panics. *)
Theorem validate_dns_name_correct (name : bytes) :
  (validate_dns_name name = Ok tt <-> dns_name name) /\ (validate_dns_name name = Err InvalidDnsName <-> ~ dns_name name).
Proof.
  rewrite <- validate_dns_name_iff. split; [done|]. destruct (validate_dns_name_err name) as [-> | ->]; by split.
Qed.

(** A request for one or more valid names is the signed structure of PKCS#10: version zero, an empty
    subject, the key's SubjectPublicKeyInfo and the extension request for the names, followed by the ECDSA
    signature of exactly those octets, made by the first usable nonce; with no name or an invalid one, or a
    zero key, it is refused, and nothing panics. *)
Theorem csr_correct (fuel : nat) (d : Fn) (names : list bytes) (encoded : bytes)
  (Hd : d <> Zmod.zero) (Hl : len names <= 1099511627776)
  (He : to_sec1_uncompressed (enc_point (multiple _ (Zmod.to_Z d) gen)) = Ok encoded) :
  let info := request_info_encoding encoded names in
  let nonces := initial_generator d info in
  match encode_p256_csr_der fuel (encs d) names with
  | Ok der => names <> [] /\ Forall dns_name names /\
      exists n r s, Ecdsa.search n d (hash_value info) nonces = Some (r, s) /\
        der = request_encoding info (signature_encoding (be_bytes 32 (Zmod.to_Z r)) (be_bytes 32 (Zmod.to_Z s)))
  | Fuel => Ecdsa.search fuel d (hash_value info) nonces = None
  | Err e => e = InvalidDnsName /\ ~ (names <> [] /\ Forall dns_name names)
  | Panic => False
  end /\
  encode_p256_csr_der fuel ZERO names = Err InvalidP256PrivateKey.
Proof.
  cbv zeta. split; [|reflexivity]. unfold encode_p256_csr_der. rewrite bool_decide_false by (intros H; by apply Hd, scalar_zero_iff).
  destruct (generator_multiply_valid (E := DerError) d) as (p & -> & Hv & Ep). cbn [res_bind]. pose proof (len_nonneg names).
  destruct (names_spec names) as [(Hne & Hall & Hn)|[Hno Hn]]; [unfold usize_max, u64_max; lia| |].
  - destruct (request_info_spec d names encoded Hne Hall Hl He) as [Hi Hlen]. rewrite <- Ep in *. rewrite spki_spec in * by done. rewrite He in *. cbn [res_bind] in *.
    destruct (csr_attributes_spec names Hne Hall Hl) as [Ha _]. rewrite Ha in *. cbn [res_bind] in *.
    destruct (der_integer_unsigned [x00]) as [version|e| |]; try done. cbn [res_bind] in *. destruct (der_sequence []) as [subject|e| |]; try done. cbn [res_bind] in *.
    rewrite Hi. cbn [res_bind]. assert (Hm : len (request_info_encoding encoded names) <= u64_max / 8) by (change (u64_max / 8) with 2305843009213693951; lia).
    pose proof (sign_search fuel d _ Hd Hm) as Hs. destruct (p256_ecdsa_sign_sha256 _ _ _) as [sg|e| |]; try done. cbn [map_err res_bind].
    destruct Hs as (n & r & s & Hs & ->). rewrite (request_assembles _ r s names Hl Hlen). split_and!; [done..|]. by exists n, r, s.
  - rewrite <- Ep in He. rewrite spki_spec, He by done. cbn [res_bind]. unfold csr_attributes. rewrite Hn. done.
Qed.

Lemma generator_encodes : exists encoded, to_sec1_uncompressed (enc_point (multiple _ (Zmod.to_Z (Zmod.one : Fn)) gen)) = Ok encoded.
Proof.
  destruct (generator_multiply_valid (E := DerError) Zmod.one) as (p & _ & Hv & Ep). rewrite <- Ep. pose proof (to_sec1_valid p Hv) as H.
  destruct (to_sec1_uncompressed p) as [encoded|e| |]; [by exists encoded| |destruct H..].
  exfalso. rewrite H in Ep. rewrite Zmod.to_Z_1 in Ep. rewrite Z.mod_1_l in Ep by (vm_compute; reflexivity). discriminate Ep.
Qed.

Lemma csr_correct_witness : exists encoded (d : Fn), d = Zmod.one /\
  let info := request_info_encoding encoded [str "a.example"] in
  match encode_p256_csr_der 2 (encs d) [str "a.example"] with
  | Ok der => exists n r s, Ecdsa.search n d (hash_value info) (initial_generator d info) = Some (r, s) /\
      der = request_encoding info (signature_encoding (be_bytes 32 (Zmod.to_Z r)) (be_bytes 32 (Zmod.to_Z s)))
  | Fuel => Ecdsa.search 2 d (hash_value info) (initial_generator d info) = None
  | Err e => e = InvalidDnsName
  | Panic => False
  end.
Proof.
  destruct generator_encodes as [encoded He]. pose (d := Zmod.one : Fn). exists encoded, d. split; [reflexivity|]. cbv zeta.
  destruct (csr_correct 2 d [str "a.example"] encoded (one_ne group_order order_large) ltac:(vm_compute; discriminate) He) as [H _]. clearbody d.
  destruct (encode_p256_csr_der _ _ _); [exact (proj2 (proj2 H))|exact (proj1 H)|exact H|exact H].
Defined.
