(* ===== verification/X509.v ===== *)
(** * X.509 certificates: [src/asn1.rs]

    The parser of the parts of an RFC 5280 certificate that the proxy needs: the validity, the DNS
    names of the SubjectAltName and the public key. *)
From Stdlib Require Import ZArith Lia Zmod.
From stdpp Require Import prelude.
From S2P Require Import Prelude Bytes Encoding Uint256 P256 Der Pem Keys.
Local Open Scope Z_scope.
Set Warnings "-clear-no-such-hyp".

Record X509Time : Type := mkTime { year : Z; month : Z; day : Z; hour : Z; minute : Z; second : Z }.
Record X509Validity : Type := mkValidity { not_before : X509Time; not_after : X509Time }.
Record X509PublicKeyInfo : Type := mkPublicKeyInfo {
  algorithm_oid : bytes;
  subject_public_key : bytes;
  p256_public_key : option P256Point
}.
Record X509CertificateInfo : Type := mkCertificateInfo {
  validity : X509Validity;
  dns_names : list bytes;
  public_key : X509PublicKeyInfo
}.

(** ** Times *)
(** Arithmetic on [u8] and [u16], which panics on overflow. *)
Definition narrow {E : Type} (bound v : Z) : res E Z := if (0 <=? v) && (v <=? bound) then Ok v else Panic.

Definition parse_two_digits (bs : bytes) : res DerError Z :=
  if negb (length bs =? 2)%nat || negb (forallb is_ascii_digit bs) then Err InvalidTime
  else
    let? tens := index bs 0 in
    let? tens := narrow u8_max (u8 tens - 48) in
    let? tens := narrow u8_max (tens * 10) in
    let? ones := index bs 1 in
    let? ones := narrow u8_max (u8 ones - 48) in
    narrow u8_max (tens + ones).

Definition four_digit (value : Z) (b : byte) : res DerError Z :=
  let? value := narrow u16_max (value * 10) in
  let? digit := narrow u8_max (u8 b - 48) in
  narrow u16_max (value + digit).

Definition parse_four_digits (bs : bytes) : res DerError Z :=
  if negb (length bs =? 4)%nat || negb (forallb is_ascii_digit bs) then Err InvalidTime
  else res_foldM four_digit 0 bs.

Definition is_leap_year (year : Z) : bool :=
  ((year mod 4 =? 0) && negb (year mod 100 =? 0)) || (year mod 400 =? 0).

Definition days_in_month (year month : Z) : Z :=
  if existsb (Z.eqb month) [1; 3; 5; 7; 8; 10; 12] then 31
  else if existsb (Z.eqb month) [4; 6; 9; 11] then 30
  else if month =? 2 then if is_leap_year year then 29 else 28
  else 0.

(** The year and the offset of the month, by the kind of time. *)
Definition time_year (value : DerValue) : res DerError (Z * nat) :=
  let bs := content value in
  if byte_eqb (tag value) DER_TAG_UTC_TIME then
    if negb (length bs =? 13)%nat then Err InvalidTime
    else
      let? final := index bs 12 in
      if negb (byte_eqb final x5a) then Err InvalidTime
      else
        let? digits := slice bs 0 2 in
        let? short_year := parse_two_digits digits in
        let? year := narrow u16_max (if 50 <=? short_year then 1900 + short_year else 2000 + short_year) in
        Ok (year, 2%nat)
  else if byte_eqb (tag value) DER_TAG_GENERALIZED_TIME then
    if negb (length bs =? 15)%nat then Err InvalidTime
    else
      let? final := index bs 14 in
      if negb (byte_eqb final x5a) then Err InvalidTime
      else
        let? digits := slice bs 0 4 in
        let? year := parse_four_digits digits in
        Ok (year, 4%nat)
  else Err InvalidTime.

Definition two_digits_at (bs : bytes) (offset : nat) : res DerError Z :=
  let? digits := slice bs offset (offset + 2) in parse_two_digits digits.

Definition parse_x509_time (value : DerValue) : res DerError X509Time :=
  let bs := content value in
  let? (year, offset) := time_year value in
  let? month := two_digits_at bs offset in
  let? day := two_digits_at bs (offset + 2) in
  let? hour := two_digits_at bs (offset + 4) in
  let? minute := two_digits_at bs (offset + 6) in
  let? second := two_digits_at bs (offset + 8) in
  if negb ((1 <=? month) && (month <=? 12)) || (23 <? hour) || (59 <? minute) || (59 <? second) || (day =? 0) || (days_in_month year month <? day)
  then Err InvalidTime
  else Ok (mkTime year month day hour minute second).

Definition parse_x509_validity (value : DerValue) : res DerError X509Validity :=
  let? (first, r) := read_tlv (reader value) in
  let? not_before := parse_x509_time first in
  let? (second, r) := read_tlv r in
  let? not_after := parse_x509_time second in
  let? _ := finish r in
  Ok (mkValidity not_before not_after).

(** ** Public keys *)
Definition parse_x509_public_key_info (spki : DerValue) : res DerError X509PublicKeyInfo :=
  let? (algorithm, r) := read_expected DER_TAG_SEQUENCE (reader spki) in
  let? (subject_public_key, r) := read_expected DER_TAG_BIT_STRING r in
  let? _ := finish r in
  match content subject_public_key with
  | x00 :: _ =>
      let? (algorithm_oid, algorithm) := read_expected DER_TAG_OBJECT_IDENTIFIER (reader algorithm) in
      let? (parameters, algorithm) :=
        if is_empty algorithm then Ok (None, algorithm)
        else let? (value, algorithm) := read_tlv algorithm in Ok (Some value, algorithm) in
      let? _ := finish algorithm in
      let? encoded_key := slice_from (content subject_public_key) 1 in
      let is_p256 := bytes_eqb (content algorithm_oid) OID_EC_PUBLIC_KEY_CONTENT &&
        match parameters with
        | Some parameter => byte_eqb (tag parameter) DER_TAG_OBJECT_IDENTIFIER && bytes_eqb (content parameter) OID_SECP256R1_CONTENT
        | None => false
        end in
      let? p256_public_key :=
        if is_p256 then let? p := map_err (fun _ => InvalidP256PublicKey) (from_sec1_uncompressed encoded_key) in Ok (Some p)
        else Ok None in
      Ok (mkPublicKeyInfo (content algorithm_oid) encoded_key p256_public_key)
  | _ => Err InvalidCertificate
  end.

(** ** DNS names *)
Fixpoint san_names (fuel : nat) (dns_names : list bytes) (names : DerReader) : res DerError (list bytes) :=
  match fuel with
  | O => Fuel
  | S fuel' =>
      if is_empty names then Ok dns_names
      else
        let? (name, names) := read_tlv names in
        if negb (byte_eqb (tag name) x82) then san_names fuel' dns_names names
        else if negb (forallb is_ascii (content name)) then Err InvalidDnsName
        else if negb (utf8_valid (content name)) then Err InvalidDnsName
        else
          let? _ := validate_dns_name (content name) in
          san_names fuel' (dns_names ++ [content name]) names
  end.

Definition parse_x509_subject_alt_name (encoded : bytes) : res DerError (list bytes) :=
  let? (names, outer) := read_expected DER_TAG_SEQUENCE (new_reader encoded) in
  let? _ := finish outer in
  san_names (S (length encoded)) [] (reader names).

(** ** Extensions *)
(** One extension: its identifier and its value. *)
Definition read_extension (extension : DerReader) : res DerError (bytes * bytes) :=
  let? (oid, extension) := read_expected DER_TAG_OBJECT_IDENTIFIER extension in
  let? (next, extension) := read_tlv extension in
  let? (extension_value, extension) :=
    if byte_eqb (tag next) DER_TAG_BOOLEAN then
      if negb (bytes_eqb (content next) [x00] || bytes_eqb (content next) [xff]) then Err InvalidCertificate
      else read_expected DER_TAG_OCTET_STRING extension
    else if negb (byte_eqb (tag next) DER_TAG_OCTET_STRING) then Err InvalidCertificate
    else Ok (next, extension) in
  let? _ := finish extension in
  Ok (content oid, content extension_value).

Fixpoint extension_list (fuel : nat) (dns_names : list bytes) (san_seen : bool) (extensions : DerReader) : res DerError (list bytes) :=
  match fuel with
  | O => Fuel
  | S fuel' =>
      if is_empty extensions then Ok dns_names
      else
        let? (extension, extensions) := read_expected DER_TAG_SEQUENCE extensions in
        let? (oid, value) := read_extension (reader extension) in
        if bytes_eqb oid OID_SUBJECT_ALT_NAME_CONTENT then
          if san_seen then Err InvalidCertificate
          else
            let? dns_names := parse_x509_subject_alt_name value in
            extension_list fuel' dns_names true extensions
        else extension_list fuel' dns_names san_seen extensions
  end.

Definition parse_x509_extensions (encoded : bytes) : res DerError (list bytes) :=
  let? (extensions, explicit) := read_expected DER_TAG_SEQUENCE (new_reader encoded) in
  let? _ := finish explicit in
  extension_list (S (length encoded)) [] false (reader extensions).

(** ** Certificates *)
(** The version and the serial number in front of the signed part. *)
Definition read_version (tbs : DerReader) : res DerError (Z * DerReader) :=
  let? (first, tbs) := read_tlv tbs in
  if byte_eqb (tag first) xa0 then
    let? (version_value, version) := read_integer_unsigned (reader first) in
    let? _ := finish version in
    match version_value with
    | [version] =>
        if 2 <? u8 version then Err InvalidCertificate
        else
          let? (serial_number, tbs) := read_expected DER_TAG_INTEGER tbs in
          if bool_decide (content serial_number = []) then Err InvalidCertificate else Ok (u8 version, tbs)
    | _ => Err InvalidCertificate
    end
  else if negb (byte_eqb (tag first) DER_TAG_INTEGER) || bool_decide (content first = []) then Err InvalidCertificate
  else Ok (0, tbs).

(** The loop over the fields behind the public key. *)
Fixpoint tbs_options (fuel : nat) (version : Z) (dns_names : list bytes) (extensions_seen : bool) (tbs : DerReader) : res DerError (list bytes) :=
  match fuel with
  | O => Fuel
  | S fuel' =>
      if is_empty tbs then Ok dns_names
      else
        let? (optional, tbs) := read_tlv tbs in
        if byte_eqb (tag optional) x81 || byte_eqb (tag optional) x82 then tbs_options fuel' version dns_names extensions_seen tbs
        else if byte_eqb (tag optional) xa3 then
          if extensions_seen || negb (version =? 2) then Err InvalidCertificate
          else
            let? dns_names := parse_x509_extensions (content optional) in
            tbs_options fuel' version dns_names true tbs
        else Err InvalidCertificate
  end.

Definition parse_tbs (tbs_certificate : DerValue) : res DerError X509CertificateInfo :=
  let? (version, tbs) := read_version (reader tbs_certificate) in
  let? (_, tbs) := read_expected DER_TAG_SEQUENCE tbs in
  let? (_, tbs) := read_expected DER_TAG_SEQUENCE tbs in
  let? (value, tbs) := read_expected DER_TAG_SEQUENCE tbs in
  let? validity := parse_x509_validity value in
  let? (_, tbs) := read_expected DER_TAG_SEQUENCE tbs in
  let? (value, tbs) := read_expected DER_TAG_SEQUENCE tbs in
  let? public_key := parse_x509_public_key_info value in
  let? dns_names := tbs_options (S (length (content tbs_certificate))) version [] false tbs in
  Ok (mkCertificateInfo validity dns_names public_key).

Definition parse_x509_certificate_der (der : bytes) : res DerError X509CertificateInfo :=
  let? (certificate, outer) := read_expected DER_TAG_SEQUENCE (new_reader der) in
  let? _ := finish outer in
  let? (tbs_certificate, certificate) := read_expected DER_TAG_SEQUENCE (reader certificate) in
  let? (_, certificate) := read_expected DER_TAG_SEQUENCE certificate in
  let? (signature, certificate) := read_expected DER_TAG_BIT_STRING certificate in
  match content signature with
  | x00 :: _ =>
      let? _ := finish certificate in
      parse_tbs tbs_certificate
  | _ => Err InvalidCertificate
  end.

Definition parse_x509_certificate_chain_pem (input : bytes) : res DerError (list X509CertificateInfo) :=
  let? certificates := decode_x509_certificate_chain_pem input in
  res_mapM parse_x509_certificate_der certificates.

(** ** The calendar and its text *)
Definition two (n : Z) : bytes := [of_u8 (48 + n / 10); of_u8 (48 + n mod 10)].
Definition four (n : Z) : bytes := two (n / 100) ++ two (n mod 100).

(** The days of the months, by the Gregorian rule. *)
Definition month_lengths (leap : Prop) (d : Decision leap) : list Z :=
  [31; if d then 29 else 28; 31; 30; 31; 30; 31; 31; 30; 31; 30; 31].
#[global] Instance divide_dec (a b : Z) : Decision (a | b).
Proof.
  destruct (decide (a = 0)) as [->|Ha]; [destruct (decide (b = 0)) as [->|Hb]; [left|right]|destruct (decide (b mod a = 0)) as [H|H]; [left|right]].
  - by exists 0.
  - intros [k Hk]. lia.
  - by apply Z.mod_divide.
  - by rewrite <- Z.mod_divide.
Defined.
Definition leap (y : Z) : Prop := (4 | y) /\ (~ (100 | y) \/ (400 | y)).
#[global] Instance leap_dec (y : Z) : Decision (leap y).
Proof. unfold leap. solve_decision. Defined.

Definition calendar_time (t : X509Time) : Prop :=
  (exists n, month_lengths (leap (year t)) _ !! Z.to_nat (month t - 1) = Some n /\ 1 <= month t /\ 1 <= day t <= n) /\
  0 <= hour t < 24 /\ 0 <= minute t < 60 /\ 0 <= second t < 60.

Definition after_year (t : X509Time) : bytes := two (month t) ++ two (day t) ++ two (hour t) ++ two (minute t) ++ two (second t) ++ [x5a].

(** The two encodings of a time. *)
Definition time_encoding (t : X509Time) (v : DerValue) : Prop :=
  (tag v = DER_TAG_UTC_TIME /\ 1950 <= year t < 2050 /\ content v = two (year t mod 100) ++ after_year t) \/
  (tag v = DER_TAG_GENERALIZED_TIME /\ 0 <= year t <= 9999 /\ content v = four (year t) ++ after_year t).

Lemma narrow_Ok {E : Type} (bound v : Z) : 0 <= v <= bound -> narrow bound v = Ok v :> res E Z.
Proof. intros H. unfold narrow. by rewrite !(proj2 (Z.leb_le _ _)) by lia. Qed.

Lemma digit_range (b : byte) : is_ascii_digit b = true <-> 48 <= u8 b <= 57.
Proof. unfold is_ascii_digit, in_range. by rewrite andb_true_iff, !Z.leb_le. Qed.

Lemma parse_two_digits_spec (a b : byte) :
  parse_two_digits [a; b] = if is_ascii_digit a && is_ascii_digit b then Ok ((u8 a - 48) * 10 + (u8 b - 48)) else Err InvalidTime.
Proof.
  unfold parse_two_digits. cbn [length Nat.eqb negb orb forallb]. rewrite andb_true_r. destruct (is_ascii_digit a) eqn:Ha; [|done].
  destruct (is_ascii_digit b) eqn:Hb; [|done]. apply digit_range in Ha, Hb. cbn [andb negb index lookup list_lookup expect res_bind].
  unfold u8_max. rewrite (narrow_Ok 255 (u8 a - 48)) by lia. cbn [res_bind]. rewrite narrow_Ok by lia. cbn [res_bind]. rewrite narrow_Ok by lia. cbn [res_bind].
  rewrite narrow_Ok by lia. done.
Qed.

Lemma two_iff (a b : byte) (v : Z) : parse_two_digits [a; b] = Ok v <-> 0 <= v < 100 /\ [a; b] = two v.
Proof.
  rewrite parse_two_digits_spec. split.
  - destruct (is_ascii_digit a) eqn:Ha, (is_ascii_digit b) eqn:Hb; try done. cbn [andb]. intros H. apply Ok_inj in H as <-. apply digit_range in Ha, Hb. split; [lia|].
    unfold two. rewrite Z.div_add_l, Z.div_small, Z.add_0_r by lia. rewrite (Z.add_comm ((u8 a - 48) * 10)), Z.mod_add, Z.mod_small by lia.
    replace (48 + (u8 a - 48)) with (u8 a) by lia. replace (48 + (u8 b - 48)) with (u8 b) by lia. by rewrite !of_u8_u8.
  - intros [Hv E]. unfold two in E. injection E as -> ->. pose proof (Z.div_mod v 10 ltac:(done)). pose proof (Z.mod_pos_bound v 10 ltac:(done)).
    pose proof (div_range v 10 10 ltac:(done) ltac:(lia)) as Hd.
    rewrite !(proj2 (digit_range _)) by (rewrite u8_of_u8; lia). cbn [andb]. rewrite !u8_of_u8 by lia. f_equal. lia.
Qed.

Lemma four_iff (a b c d : byte) (v : Z) : parse_four_digits [a; b; c; d] = Ok v <-> 0 <= v <= 9999 /\ [a; b; c; d] = four v.
Proof.
  assert (H : parse_four_digits [a; b; c; d] = let? high := parse_two_digits [a; b] in let? low := parse_two_digits [c; d] in Ok (high * 100 + low)).
  { rewrite !parse_two_digits_spec. unfold parse_four_digits. cbn [length Nat.eqb negb orb forallb]. rewrite andb_true_r.
    destruct (is_ascii_digit a) eqn:Ha; [|done]. destruct (is_ascii_digit b) eqn:Hb; [|done]. cbn [andb].
    destruct (is_ascii_digit c) eqn:Hc; [|done]. destruct (is_ascii_digit d) eqn:Hd; [|done]. apply digit_range in Ha, Hb, Hc, Hd. cbn [andb negb res_bind res_foldM].
    unfold four_digit, u16_max, u8_max. rewrite !(narrow_Ok 255) by lia. do 8 (rewrite (narrow_Ok 65535) by lia; cbn [res_bind]). f_equal. lia. }
  rewrite H. split.
  - intros E. apply res_bind_Ok in E as (h & E1%two_iff & E). apply res_bind_Ok in E as (l & E2%two_iff & E). apply Ok_inj in E as <-.
    destruct E1 as [H1 E1], E2 as [H2 E2]. split; [lia|]. unfold four. rewrite Z.div_add_l, Z.div_small, Z.add_0_r by lia.
    rewrite (Z.add_comm (h * 100)), Z.mod_add, Z.mod_small by lia. rewrite <- E1, <- E2. done.
  - intros [Hv E]. unfold four in E. pose proof (Z.div_mod v 100 ltac:(done)). pose proof (Z.mod_pos_bound v 100 ltac:(done)).
    pose proof (div_range v 100 100 ltac:(done) ltac:(lia)).
    change [a; b; c; d] with ([a; b] ++ [c; d]) in E. apply app_inj_1 in E as [E1 E2]; [|done]. rewrite (proj2 (two_iff a b (v / 100))) by (split; [lia|done]). cbn [res_bind].
    rewrite (proj2 (two_iff c d (v mod 100))) by (split; [lia|done]). cbn [res_bind]. f_equal. lia.
Qed.

Lemma is_leap_year_iff (y : Z) : is_leap_year y = true <-> leap y.
Proof.
  unfold is_leap_year, leap. rewrite orb_true_iff, andb_true_iff, negb_true_iff, !Z.eqb_eq, Z.eqb_neq, <- !Z.mod_divide by done.
  pose proof (Z.div_mod y 400 ltac:(done)). pose proof (Z.div_mod y 100 ltac:(done)). pose proof (Z.div_mod y 4 ltac:(done)).
  pose proof (Z.mod_pos_bound y 400 ltac:(done)). pose proof (Z.mod_pos_bound y 100 ltac:(done)). pose proof (Z.mod_pos_bound y 4 ltac:(done)). lia.
Qed.

Lemma days_in_month_spec (y m : Z) : 1 <= m <= 12 -> month_lengths (leap y) _ !! Z.to_nat (m - 1) = Some (days_in_month y m).
Proof.
  intros Hm. assert (Hl : is_leap_year y = bool_decide (leap y)) by (apply eq_true_iff_eq; rewrite is_leap_year_iff; symmetry; apply bool_decide_eq_true).
  assert (Hc : m = 1 \/ m = 2 \/ m = 3 \/ m = 4 \/ m = 5 \/ m = 6 \/ m = 7 \/ m = 8 \/ m = 9 \/ m = 10 \/ m = 11 \/ m = 12) by lia.
  repeat destruct Hc as [-> |Hc]; try subst m; try reflexivity. unfold days_in_month. rewrite Hl. unfold bool_decide. cbn. by destruct (leap_dec y).
Qed.

Lemma two_digits_at_spec (pre post : bytes) (a b : byte) (o : nat) : o = length pre ->
  two_digits_at (pre ++ a :: b :: post) o = parse_two_digits [a; b].
Proof.
  intros ->. unfold two_digits_at. rewrite slice_Ok by (rewrite ?length_app; cbn [length]; lia). cbn [res_bind].
  rewrite drop_app_length. replace (length pre + 2 - length pre)%nat with 2%nat by lia. done.
Qed.

Lemma time_check (y mo d h mi s : Z) : 0 <= mo -> 0 <= d -> 0 <= h -> 0 <= mi -> 0 <= s ->
  (negb ((1 <=? mo) && (mo <=? 12)) || (23 <? h) || (59 <? mi) || (59 <? s) || (d =? 0) || (days_in_month y mo <? d)) = false <->
  calendar_time (mkTime y mo d h mi s).
Proof.
  intros Hmo Hd Hh Hmi Hs. unfold calendar_time. cbn [year month day hour minute second].
  rewrite !orb_false_iff, negb_false_iff, andb_true_iff, !Z.leb_le, !Z.ltb_ge, Z.eqb_neq. split.
  - intros (((((H1 & H2) & H3) & H4) & H5) & H6). split_and!; try lia. exists (days_in_month y mo). split; [apply days_in_month_spec; lia|lia].
  - intros ((n & Hn & H1 & H2) & H3 & H4 & H5). assert (Hm : mo <= 12) by (apply lookup_lt_Some in Hn; unfold month_lengths in Hn; cbn in Hn; lia).
    rewrite days_in_month_spec in Hn by lia. apply (inj Some) in Hn as <-. split_and!; lia.
Qed.

Definition fields_at (bs : bytes) (year : Z) (offset : nat) : res DerError X509Time :=
  let? month := two_digits_at bs offset in
  let? day := two_digits_at bs (offset + 2) in
  let? hour := two_digits_at bs (offset + 4) in
  let? minute := two_digits_at bs (offset + 6) in
  let? second := two_digits_at bs (offset + 8) in
  if negb ((1 <=? month) && (month <=? 12)) || (23 <? hour) || (59 <? minute) || (59 <? second) || (day =? 0) || (days_in_month year month <? day)
  then Err InvalidTime
  else Ok (mkTime year month day hour minute second).

Lemma parse_x509_time_fields (v : DerValue) :
  parse_x509_time v = let? (year, offset) := time_year v in fields_at (content v) year offset.
Proof. done. Qed.

Lemma fields_at_reads (pre : bytes) (a b c d e f g h i j : byte) (y : Z) (o : nat) : o = length pre ->
  fields_at (pre ++ [a; b; c; d; e; f; g; h; i; j; x5a]) y o =
  let? mo := parse_two_digits [a; b] in
  let? dy := parse_two_digits [c; d] in
  let? ho := parse_two_digits [e; f] in
  let? mi := parse_two_digits [g; h] in
  let? s := parse_two_digits [i; j] in
  if negb ((1 <=? mo) && (mo <=? 12)) || (23 <? ho) || (59 <? mi) || (59 <? s) || (dy =? 0) || (days_in_month y mo <? dy)
  then Err InvalidTime
  else Ok (mkTime y mo dy ho mi s).
Proof.
  intros Ho. unfold fields_at. set (bs := pre ++ _).
  assert (H : forall k x z, [a; b; c; d; e; f; g; h; i; j; x5a] !! k = Some x -> [a; b; c; d; e; f; g; h; i; j; x5a] !! S k = Some z ->
    two_digits_at bs (o + k) = parse_two_digits [x; z]).
  { intros k x z Hx Hz.
    assert (E : bs = (pre ++ take k [a; b; c; d; e; f; g; h; i; j; x5a]) ++ x :: z :: drop (S (S k)) [a; b; c; d; e; f; g; h; i; j; x5a]).
    { unfold bs. rewrite <- app_assoc. f_equal. rewrite <- (take_drop k [a; b; c; d; e; f; g; h; i; j; x5a]) at 1. f_equal.
      rewrite (drop_S _ x k Hx), (drop_S _ z (S k) Hz). done. }
    rewrite E. apply two_digits_at_spec. rewrite length_app, length_take. apply lookup_lt_Some in Hx. cbn [length] in *. lia. }
  pose proof (H 0%nat a b eq_refl eq_refl) as H0. rewrite Nat.add_0_r in H0. rewrite H0.
  by rewrite (H 2%nat c d eq_refl eq_refl), (H 4%nat e f eq_refl eq_refl), (H 6%nat g h eq_refl eq_refl), (H 8%nat i j eq_refl eq_refl).
Qed.

Lemma fields_at_iff (pre : bytes) (a b c d e f g h i j : byte) (y : Z) (t : X509Time) (o : nat) : o = length pre ->
  fields_at (pre ++ [a; b; c; d; e; f; g; h; i; j; x5a]) y o = Ok t <->
  calendar_time t /\ year t = y /\ [a; b; c; d; e; f; g; h; i; j; x5a] = after_year t.
Proof.
  intros Ho. rewrite fields_at_reads by done. split.
  - intros H. apply res_bind_Ok in H as (mo & H1%two_iff & H). apply res_bind_Ok in H as (dy & H2%two_iff & H).
    apply res_bind_Ok in H as (ho & H3%two_iff & H). apply res_bind_Ok in H as (mi & H4%two_iff & H). apply res_bind_Ok in H as (s & H5%two_iff & H).
    destruct H1 as [R1 E1], H2 as [R2 E2], H3 as [R3 E3], H4 as [R4 E4], H5 as [R5 E5].
    destruct (_ || _) eqn:Hc; [done|]. apply Ok_inj in H as <-. apply time_check in Hc; [|lia..]. split; [done|]. split; [done|].
    unfold after_year. cbn [month day hour minute second]. by rewrite <- E1, <- E2, <- E3, <- E4, <- E5.
  - intros (Hc & <- & E). destruct t as [y mo dy ho mi s]. unfold after_year in E. cbn [year month day hour minute second] in *.
    pose proof Hc as ((n & Hn & H1 & H2) & H3 & H4 & H5). cbn [month day hour minute second] in *.
    assert (Hm : mo <= 12) by (apply lookup_lt_Some in Hn; unfold month_lengths in Hn; cbn in Hn; lia).
    cbn [year] in Hn. rewrite days_in_month_spec in Hn by lia. apply (inj Some) in Hn as <-.
    assert (Hd : days_in_month y mo <= 31) by (unfold days_in_month; repeat case_match; lia).
    unfold two in E. cbn [app] in E. injection E as -> -> -> -> -> -> -> -> -> ->.
    rewrite (proj2 (two_iff _ _ mo)) by (split; [lia|done]). cbn [res_bind]. rewrite (proj2 (two_iff _ _ dy)) by (split; [lia|done]). cbn [res_bind].
    rewrite (proj2 (two_iff _ _ ho)) by (split; [lia|done]). cbn [res_bind]. rewrite (proj2 (two_iff _ _ mi)) by (split; [lia|done]). cbn [res_bind].
    rewrite (proj2 (two_iff _ _ s)) by (split; [lia|done]). cbn [res_bind]. rewrite (proj2 (time_check y mo dy ho mi s ltac:(lia) ltac:(lia) ltac:(lia) ltac:(lia) ltac:(lia))); done.
Qed.

Lemma ten_bytes (bs : bytes) (n : nat) : length bs = (n + 11)%nat -> exists pre a b c d e f g h i j z,
  bs = pre ++ [a; b; c; d; e; f; g; h; i; j; z] /\ length pre = n.
Proof.
  intros H. exists (take n bs). assert (Hd : length (drop n bs) = 11%nat) by (rewrite length_drop; lia).
  destruct (drop n bs) as [|a [|b [|c [|d [|e [|f [|g [|h [|i [|j [|z [|]]]]]]]]]]]] eqn:E; try discriminate Hd.
  exists a, b, c, d, e, f, g, h, i, j, z. rewrite <- E, take_drop, length_take. split; [done|lia].
Qed.

(** The kinds of time: the digits of the year, in front of the other fields and the final Z. *)
Lemma time_year_utc (pre fields : bytes) (z : byte) : length pre = 2%nat -> length fields = 10%nat ->
  time_year (mkDerValue DER_TAG_UTC_TIME (pre ++ fields ++ [z])) =
    if negb (byte_eqb z x5a) then Err InvalidTime
    else let? short := parse_two_digits pre in Ok (if 50 <=? short then 1900 + short else 2000 + short, 2%nat).
Proof.
  intros Hp Hf. unfold time_year. cbn [tag content]. change (byte_eqb DER_TAG_UTC_TIME DER_TAG_UTC_TIME) with true. cbv iota.
  rewrite !length_app, Hp, Hf. cbn [length Nat.add Nat.eqb negb].
  assert (Hi : (pre ++ fields ++ [z]) !! 12%nat = Some z) by (rewrite app_assoc, lookup_app_r by (rewrite length_app; lia); rewrite length_app, Hp, Hf; done).
  unfold index. rewrite Hi. cbn [expect res_bind]. destruct (byte_eqb z x5a); [|done]. cbn [negb].
  rewrite slice_Ok by (rewrite ?length_app; cbn; lia). cbn [res_bind Nat.sub]. rewrite drop_0, take_app_length' by lia.
  destruct pre as [|a [|b [|]]]; try discriminate Hp. destruct (parse_two_digits [a; b]) as [s| | |] eqn:E; try done. apply two_iff in E as [E _]. cbn [res_bind].
  rewrite narrow_Ok; [done|]. unfold u16_max. destruct (50 <=? s); lia.
Qed.

Lemma time_year_generalized (pre fields : bytes) (z : byte) : length pre = 4%nat -> length fields = 10%nat ->
  time_year (mkDerValue DER_TAG_GENERALIZED_TIME (pre ++ fields ++ [z])) =
    if negb (byte_eqb z x5a) then Err InvalidTime else let? y := parse_four_digits pre in Ok (y, 4%nat).
Proof.
  intros Hp Hf. unfold time_year. cbn [tag content]. change (byte_eqb DER_TAG_GENERALIZED_TIME DER_TAG_UTC_TIME) with false.
  change (byte_eqb DER_TAG_GENERALIZED_TIME DER_TAG_GENERALIZED_TIME) with true. cbv iota.
  rewrite !length_app, Hp, Hf. cbn [length Nat.add Nat.eqb negb].
  assert (Hi : (pre ++ fields ++ [z]) !! 14%nat = Some z) by (rewrite app_assoc, lookup_app_r by (rewrite length_app; lia); rewrite length_app, Hp, Hf; done).
  unfold index. rewrite Hi. cbn [expect res_bind]. destruct (byte_eqb z x5a); [|done]. cbn [negb].
  rewrite slice_Ok by (rewrite ?length_app; cbn; lia). cbn [res_bind Nat.sub]. by rewrite drop_0, take_app_length' by lia.
Qed.

Lemma parse_time_utc (v : DerValue) (t : X509Time) : tag v = DER_TAG_UTC_TIME ->
  parse_x509_time v = Ok t <-> calendar_time t /\ 1950 <= year t < 2050 /\ content v = two (year t mod 100) ++ after_year t.
Proof.
  destruct v as [tg bs]. cbn [tag content]. intros ->. rewrite parse_x509_time_fields. cbn [content].
  destruct (decide (length bs = 13%nat)) as [Hl|Hl].
  2: { unfold time_year. cbn [tag content]. change (byte_eqb DER_TAG_UTC_TIME DER_TAG_UTC_TIME) with true. cbv iota.
       rewrite (proj2 (Nat.eqb_neq _ _) Hl). cbn [negb res_bind]. split; [done|]. by intros (_ & _ & ->). }
  destruct (ten_bytes bs 2 ltac:(lia)) as (pre & a & b & c & d & e & f & g & h & i & j & z & -> & Hp).
  change [a; b; c; d; e; f; g; h; i; j; z] with ([a; b; c; d; e; f; g; h; i; j] ++ [z]). rewrite time_year_utc by done.
  destruct pre as [|p [|q [|]]]; try discriminate Hp. destruct (byte_eqb z x5a) eqn:Ez; cbn [negb res_bind].
  - apply byte_eqb_eq in Ez as ->. split.
    + intros H. apply res_bind_Ok in H as ([y o] & Hy & H). apply res_bind_Ok in Hy as (s & Hs%two_iff & Hy). destruct Hs as [Rs Es].
      apply Ok_inj, pair_equal_spec in Hy as [<- <-]. apply (fields_at_iff [p; q]) in H as (Hc & Hy & E); [|done]. split; [done|]. rewrite Hy, <- E.
      assert (Hm : (if 50 <=? s then 1900 + s else 2000 + s) mod 100 = s).
      { destruct (50 <=? s); symmetry; [apply (Zmod_unique _ _ 19)|apply (Zmod_unique _ _ 20)]; lia. }
      rewrite Hm, <- Es. split; [destruct (Z.leb_spec 50 s); lia|done].
    + intros (Hc & Hy & E). change ([p; q] ++ [a; b; c; d; e; f; g; h; i; j] ++ [x5a]) with ([p; q] ++ [a; b; c; d; e; f; g; h; i; j; x5a]) in *.
      apply app_inj_1 in E as [E1 E2]; [|done]. pose proof (Z.mod_pos_bound (year t) 100 ltac:(done)). pose proof (Z.div_mod (year t) 100 ltac:(done)).
      rewrite (proj2 (two_iff p q (year t mod 100))) by (split; [lia|done]). cbn [res_bind].
      apply (fields_at_iff [p; q]); [done|]. split_and!; [done| |done]. destruct (Z.leb_spec 50 (year t mod 100)); lia.
  - split; [done|]. intros (_ & _ & E). exfalso. assert (Hz : z = x5a); [|subst z; by rewrite byte_eqb_refl in Ez].
    change ([p; q] ++ [a; b; c; d; e; f; g; h; i; j] ++ [z]) with ([p; q; a; b; c; d; e; f; g; h; i; j] ++ [z]) in E. unfold after_year in E. rewrite !app_assoc in E.
    by apply app_inj_tail in E as [_ E].
Qed.

Lemma parse_time_generalized (v : DerValue) (t : X509Time) : tag v = DER_TAG_GENERALIZED_TIME ->
  parse_x509_time v = Ok t <-> calendar_time t /\ 0 <= year t <= 9999 /\ content v = four (year t) ++ after_year t.
Proof.
  destruct v as [tg bs]. cbn [tag content]. intros ->. rewrite parse_x509_time_fields. cbn [content].
  destruct (decide (length bs = 15%nat)) as [Hl|Hl].
  2: { unfold time_year. cbn [tag content]. change (byte_eqb DER_TAG_GENERALIZED_TIME DER_TAG_UTC_TIME) with false.
       change (byte_eqb DER_TAG_GENERALIZED_TIME DER_TAG_GENERALIZED_TIME) with true. cbv iota.
       rewrite (proj2 (Nat.eqb_neq _ _) Hl). cbn [negb res_bind]. split; [done|]. by intros (_ & _ & ->). }
  destruct (ten_bytes bs 4 ltac:(lia)) as (pre & a & b & c & d & e & f & g & h & i & j & z & -> & Hp).
  change [a; b; c; d; e; f; g; h; i; j; z] with ([a; b; c; d; e; f; g; h; i; j] ++ [z]). rewrite time_year_generalized by done.
  destruct pre as [|p [|q [|r [|s [|]]]]]; try discriminate Hp. destruct (byte_eqb z x5a) eqn:Ez; cbn [negb res_bind].
  - apply byte_eqb_eq in Ez as ->. split.
    + intros H. apply res_bind_Ok in H as ([y o] & Hy & H). apply res_bind_Ok in Hy as (n & Hn%four_iff & Hy). destruct Hn as [Rs Es].
      apply Ok_inj, pair_equal_spec in Hy as [<- <-]. apply (fields_at_iff [p; q; r; s]) in H as (Hc & Hy & E); [|done]. split; [done|]. by rewrite Hy, <- E, <- Es.
    + intros (Hc & Hy & E). change ([p; q; r; s] ++ [a; b; c; d; e; f; g; h; i; j] ++ [x5a]) with ([p; q; r; s] ++ [a; b; c; d; e; f; g; h; i; j; x5a]) in *.
      apply app_inj_1 in E as [E1 E2]; [|done]. rewrite (proj2 (four_iff p q r s (year t))) by (split; [lia|done]). cbn [res_bind].
      by apply (fields_at_iff [p; q; r; s]).
  - split; [done|]. intros (_ & _ & E). exfalso. assert (Hz : z = x5a); [|subst z; by rewrite byte_eqb_refl in Ez].
    change ([p; q; r; s] ++ [a; b; c; d; e; f; g; h; i; j] ++ [z]) with ([p; q; r; s; a; b; c; d; e; f; g; h; i; j] ++ [z]) in E. unfold after_year in E. rewrite !app_assoc in E.
    by apply app_inj_tail in E as [_ E].
Qed.

Lemma parse_time_iff (v : DerValue) (t : X509Time) : parse_x509_time v = Ok t <-> calendar_time t /\ time_encoding t v.
Proof.
  unfold time_encoding. destruct (decide (tag v = DER_TAG_UTC_TIME)) as [Hu|Hu].
  { rewrite parse_time_utc by done. rewrite Hu. split; [intros (? & ? & ?); split; [done|left; done]|].
    intros (? & [(_ & ? & ?)|(H & _)]); [done|discriminate H]. }
  destruct (decide (tag v = DER_TAG_GENERALIZED_TIME)) as [Hg|Hg].
  { rewrite parse_time_generalized by done. rewrite Hg. split; [intros (? & ? & ?); split; [done|right; done]|].
    intros (? & [(H & _)|(_ & ? & ?)]); [discriminate H|done]. }
  unfold parse_x509_time, time_year. destruct (byte_eqb (tag v) DER_TAG_UTC_TIME) eqn:E1; [by apply byte_eqb_eq in E1|].
  destruct (byte_eqb (tag v) DER_TAG_GENERALIZED_TIME) eqn:E2; [by apply byte_eqb_eq in E2|]. split; [done|]. by intros (_ & [[H _]|[H _]]).
Qed.

(** The parser of times has one error and never panics. *)
Definition time_result {A : Type} (m : res DerError A) : Prop := match m with Ok _ => True | Err e => e = InvalidTime | Panic | Fuel => False end.

Lemma time_bind {A B : Type} (m : res DerError A) (k : A -> res DerError B) :
  time_result m -> (forall a, m = Ok a -> time_result (k a)) -> time_result (res_bind m k).
Proof. destruct m; cbn; auto. Qed.

Lemma two_digits_result (bs : bytes) : time_result (parse_two_digits bs).
Proof.
  destruct (decide (length bs = 2%nat)) as [Hl|Hl]; [|unfold parse_two_digits; by rewrite (proj2 (Nat.eqb_neq _ _) Hl)].
  destruct bs as [|a [|b [|]]]; try discriminate Hl. rewrite parse_two_digits_spec. by destruct (_ && _).
Qed.

Lemma two_digits_at_result (bs : bytes) (o : nat) : (o + 2 <= length bs)%nat -> time_result (two_digits_at bs o).
Proof. intros H. unfold two_digits_at. rewrite slice_Ok by lia. apply two_digits_result. Qed.

Lemma four_digits_result (bs : bytes) : length bs = 4%nat -> time_result (parse_four_digits bs).
Proof.
  intros Hl. destruct bs as [|a [|b [|c [|d [|]]]]]; try discriminate Hl. unfold parse_four_digits. cbn [length Nat.eqb negb orb forallb]. rewrite andb_true_r.
  destruct (is_ascii_digit a) eqn:Ha; [|done]. destruct (is_ascii_digit b) eqn:Hb; [|done].
  destruct (is_ascii_digit c) eqn:Hc; [|done]. destruct (is_ascii_digit d) eqn:Hd; [|done]. apply digit_range in Ha, Hb, Hc, Hd. cbn [andb negb res_foldM].
  unfold four_digit, u16_max, u8_max. rewrite !(narrow_Ok 255) by lia. do 8 (rewrite (narrow_Ok 65535) by lia; cbn [res_bind]). done.
Qed.

Lemma time_year_result (v : DerValue) : match time_year v with
  | Ok (_, o) => length (content v) = (o + 11)%nat
  | Err e => e = InvalidTime
  | Panic | Fuel => False
  end.
Proof.
  unfold time_year. destruct (byte_eqb _ DER_TAG_UTC_TIME).
  - destruct (Nat.eqb_spec (length (content v)) 13) as [Hl|]; [|done]. cbn [negb]. unfold index.
    destruct (content v !! 12%nat) as [z|] eqn:Ez; [|apply lookup_ge_None in Ez; lia]. cbn [expect res_bind]. destruct (byte_eqb z x5a); [|done]. cbn [negb].
    rewrite slice_Ok by lia. cbn [res_bind]. destruct (content v) as [|a [|b rest]]; try discriminate Hl. cbn [Nat.sub drop take]. rewrite parse_two_digits_spec.
    destruct (is_ascii_digit a) eqn:Ha; [|done]. destruct (is_ascii_digit b) eqn:Hb; [|done]. apply digit_range in Ha, Hb. cbn [andb res_bind].
    rewrite narrow_Ok; [done|]. unfold u16_max. destruct (50 <=? _); lia.
  - destruct (byte_eqb _ DER_TAG_GENERALIZED_TIME); [|done]. destruct (Nat.eqb_spec (length (content v)) 15) as [Hl|]; [|done]. cbn [negb]. unfold index.
    destruct (content v !! 14%nat) as [z|] eqn:Ez; [|apply lookup_ge_None in Ez; lia]. cbn [expect res_bind]. destruct (byte_eqb z x5a); [|done]. cbn [negb].
    rewrite slice_Ok by lia. cbn [res_bind]. pose proof (four_digits_result (take (4 - 0) (drop 0 (content v))) ltac:(rewrite length_take, length_drop; lia)) as H.
    destruct (parse_four_digits _); done.
Qed.

Lemma parse_time_result (v : DerValue) : time_result (parse_x509_time v).
Proof.
  unfold parse_x509_time. pose proof (time_year_result v) as H. destruct (time_year v) as [[y o]|e| |]; try done. cbn [res_bind].
  do 5 (apply time_bind; [apply two_digits_at_result; lia|intros ? _]). by destruct (_ || _).
Qed.

Lemma parse_time_returns (v : DerValue) : returns (parse_x509_time v).
Proof. pose proof (parse_time_result v). by destruct (parse_x509_time v). Qed.

#[global] Instance DerValue_eq_dec : EqDecision DerValue.
Proof. solve_decision. Defined.

(** ** What the parser accepts *)
(** The general names of a SubjectAltName: the DNS names among them, which have to be valid. *)
Inductive san_items : bytes -> list bytes -> Prop :=
| san_nil : san_items [] []
| san_other t c rest names : low_tag t -> t <> x82 -> san_items rest names -> san_items (tlv t c ++ rest) names
| san_dns c rest names : dns_name c -> san_items rest names -> san_items (tlv x82 c ++ rest) (c :: names).

Definition san_value (encoded : bytes) (names : list bytes) : Prop := exists items, encoded = tlv DER_TAG_SEQUENCE items /\ san_items items names.

(** An extension, with its criticality. *)
Definition extension_encoding (oid critical value : bytes) : bytes :=
  tlv DER_TAG_SEQUENCE (tlv DER_TAG_OBJECT_IDENTIFIER oid ++ critical ++ tlv DER_TAG_OCTET_STRING value).
Definition critical_encoding (critical : bytes) : Prop :=
  critical = [] \/ critical = tlv DER_TAG_BOOLEAN [x00] \/ critical = tlv DER_TAG_BOOLEAN [xff].

(** The extensions: at most one SubjectAltName. *)
Inductive extension_items : list bytes -> bool -> bytes -> list bytes -> Prop :=
| extension_nil names seen : extension_items names seen [] names
| extension_other names seen oid critical value rest out : oid <> OID_SUBJECT_ALT_NAME_CONTENT -> critical_encoding critical ->
    extension_items names seen rest out -> extension_items names seen (extension_encoding oid critical value ++ rest) out
| extension_san names critical value found rest out : critical_encoding critical -> san_value value found ->
    extension_items found true rest out ->
    extension_items names false (extension_encoding OID_SUBJECT_ALT_NAME_CONTENT critical value ++ rest) out.

Definition extensions_value (encoded : bytes) (names : list bytes) : Prop :=
  exists items, encoded = tlv DER_TAG_SEQUENCE items /\ extension_items [] false items names.

(** The fields behind the public key: unique identifiers, and in version 3 one set of extensions. *)
Inductive tbs_tail (version : Z) : list bytes -> bool -> bytes -> list bytes -> Prop :=
| tail_end names seen : tbs_tail version names seen [] names
| tail_identifier names seen t c rest out : t = x81 \/ t = x82 -> tbs_tail version names seen rest out ->
    tbs_tail version names seen (tlv t c ++ rest) out
| tail_extensions names c found rest out : version = 2 -> extensions_value c found -> tbs_tail version found true rest out ->
    tbs_tail version names false (tlv xa3 c ++ rest) out.

(** The version (0 to 2, 0 when it is not given) and the serial number. *)
Definition version_encoding (version : Z) (bs : bytes) : Prop :=
  exists serial, serial <> [] /\
    ((bs = tlv DER_TAG_INTEGER serial /\ version = 0) \/
     (exists v, bs = tlv xa0 (tlv DER_TAG_INTEGER [v]) ++ tlv DER_TAG_INTEGER serial /\ version = u8 v /\ u8 v <= 2)).

(** A SubjectPublicKeyInfo; the key of the named curve P-256 has to be a point of it. *)
Definition spki_value (bs : bytes) (info : X509PublicKeyInfo) : Prop :=
  exists parameters : option DerValue,
    bs = tlv DER_TAG_SEQUENCE (tlv DER_TAG_OBJECT_IDENTIFIER (algorithm_oid info) ++
           match parameters with Some v => tlv (tag v) (content v) | None => [] end) ++
         tlv DER_TAG_BIT_STRING (x00 :: subject_public_key info) /\
    match parameters with Some v => low_tag (tag v) | None => True end /\
    (if decide (algorithm_oid info = OID_EC_PUBLIC_KEY_CONTENT /\ parameters = Some (mkDerValue DER_TAG_OBJECT_IDENTIFIER OID_SECP256R1_CONTENT))
     then exists p, p256_public_key info = Some p /\ from_sec1_uncompressed (subject_public_key info) = Ok p
     else p256_public_key info = None).

Definition validity_value (bs : bytes) (v : X509Validity) : Prop :=
  exists first second, bs = tlv (tag first) (content first) ++ tlv (tag second) (content second) /\
    (calendar_time (not_before v) /\ time_encoding (not_before v) first) /\ (calendar_time (not_after v) /\ time_encoding (not_after v) second).

(** A certificate and what is extracted of it; signature, names and algorithms are any values. *)
Definition certificate_value (der : bytes) (info : X509CertificateInfo) : Prop :=
  exists version serial algorithm issuer times subject spki options outer_algorithm signature,
    der = tlv DER_TAG_SEQUENCE
      (tlv DER_TAG_SEQUENCE (serial ++ tlv DER_TAG_SEQUENCE algorithm ++ tlv DER_TAG_SEQUENCE issuer ++ tlv DER_TAG_SEQUENCE times ++
                             tlv DER_TAG_SEQUENCE subject ++ tlv DER_TAG_SEQUENCE spki ++ options) ++
       tlv DER_TAG_SEQUENCE outer_algorithm ++ tlv DER_TAG_BIT_STRING (x00 :: signature)) /\
    version_encoding version serial /\ validity_value times (validity info) /\ spki_value spki (public_key info) /\
    tbs_tail version [] false options (dns_names info).

(** ** Names and extensions *)
Lemma dns_name_ascii (n : bytes) : dns_name n -> forallb is_ascii n = true.
Proof.
  intros (_ & labels & Hne & Hall & H). destruct (join_labels labels Hne Hall) as (_ & J & _). destruct H as [-> | ->]; [done|].
  by rewrite forallb_app, J.
Qed.

Lemma dns_name_utf8 (n : bytes) : dns_name n -> utf8_valid n = true.
Proof. intros H%dns_name_ascii. apply utf8_valid_ascii. exact H. Qed.

Lemma tlv_ne (t : byte) (c rest : bytes) : exists b bs, tlv t c ++ rest = b :: bs.
Proof. by exists t, ((der_length (len c) ++ c) ++ rest). Qed.

Lemma len_tlv_rest (t : byte) (c rest : bytes) (n : nat) : (length (tlv t c ++ rest) < S n)%nat -> (length rest < n)%nat.
Proof. rewrite length_app, length_tlv. lia. Qed.

Lemma is_empty_tlv (r : DerReader) (t : byte) (c rest : bytes) : reads r (tlv t c ++ rest) -> is_empty r = false.
Proof. intros Hr. by rewrite (is_empty_reads r _ Hr). Qed.

Lemma san_names_iff (fuel : nat) (acc out : list bytes) (bs : bytes) (r : DerReader) : reads r bs -> (length bs < fuel)%nat ->
  san_names fuel acc r = Ok out <-> exists names, san_items bs names /\ out = acc ++ names.
Proof.
  intros Hr Hf. split.
  - revert acc bs r Hr Hf. induction fuel as [|fuel IH]; intros acc bs r Hr Hf; [lia|]. cbn [san_names]. rewrite (is_empty_reads r bs Hr).
    destruct bs as [|b bs]; [intros H; apply Ok_inj in H as <-; exists []; by rewrite app_nil_r; split; [apply san_nil|]|]. intros H.
    apply res_bind_Ok in H as ([v r'] & Ht & H). destruct (read_tlv_inv _ _ _ _ Hr Ht) as (Hlow & rest & Hb & Hr' & Hl). rewrite Hb in *. apply len_tlv_rest in Hf.
    destruct (byte_eqb (tag v) x82) eqn:Et; cbn [negb] in H.
    + apply byte_eqb_eq in Et. rewrite Et. destruct (forallb is_ascii (content v)); [|done]. cbn [negb] in H. destruct (utf8_valid (content v)); [|done]. cbn [negb] in H.
      apply res_bind_Ok in H as ([] & Hv & H). apply validate_dns_name_iff in Hv. destruct (IH _ _ _ Hr' Hf H) as (names & Hn & ->).
      exists (content v :: names). split; [by apply san_dns|by rewrite <- app_assoc].
    + destruct (IH _ _ _ Hr' Hf H) as (names & Hn & ->). exists names. split; [|done]. apply san_other; [done| |done].
      intros E. by rewrite E, byte_eqb_refl in Et.
  - intros (names & Hn & ->). revert fuel acc r Hr Hf. induction Hn as [|t c rest names Hlow Ht Hn IH|c rest names Hc Hn IH]; intros fuel acc r Hr Hf;
      (destruct fuel as [|fuel]; [lia|]); cbn [san_names].
    + rewrite (is_empty_reads r _ Hr). by rewrite app_nil_r.
    + rewrite (is_empty_tlv _ _ _ _ Hr). apply len_tlv_rest in Hf. destruct (read_tlv_reads _ _ _ _ Hr Hlow) as (r' & -> & Hr'). cbn [res_bind tag].
      destruct (byte_eqb t x82) eqn:Et; [by apply byte_eqb_eq in Et|]. cbn [negb]. by apply IH.
    + rewrite (is_empty_tlv _ _ _ _ Hr). apply len_tlv_rest in Hf. destruct (read_tlv_reads _ _ _ _ Hr ltac:(vm_compute; discriminate)) as (r' & -> & Hr').
      cbn [res_bind tag content]. change (byte_eqb x82 x82) with true. cbn [negb]. rewrite dns_name_ascii, dns_name_utf8 by done. cbn [negb].
      rewrite (proj2 (validate_dns_name_iff c) Hc). cbn [res_bind]. rewrite IH by done. by rewrite <- app_assoc.
Qed.

(** A sequence alone in its bytes, and a loop over what it holds. *)
Lemma one_sequence {A : Type} (f : DerReader -> res DerError A) (encoded : bytes) (a : A) : len encoded <= usize_max ->
  (let? (v, outer) := read_expected DER_TAG_SEQUENCE (new_reader encoded) in let? _ := finish outer in f (reader v)) = Ok a <->
  exists items r, encoded = tlv DER_TAG_SEQUENCE items /\ reads r items /\ (length items < S (length encoded))%nat /\ r = new_reader items /\ f r = Ok a.
Proof.
  intros Hl. pose proof (reads_new encoded Hl) as Hr. split.
  - intros H. apply res_bind_Ok in H as ([v outer] & Hv & H). destruct (read_expected_inv _ _ _ _ _ Hr Hv) as (c & rest & -> & Hb & Hr' & Hc).
    apply res_bind_Ok in H as (u & Hf & H). apply (finish_inv _ _ _ Hr') in Hf as ->. rewrite app_nil_r in Hb. exists c, (new_reader c).
    split_and!; [done|by apply reads_new| |done|exact H]. rewrite Hb, length_tlv. lia.
  - intros (items & r & Hb & _ & _ & -> & H). rewrite Hb in Hl. apply reads_one in Hr. rewrite Hb in Hr. rewrite Hb.
    destruct (read_expected_reads _ _ _ _ Hr ltac:(vm_compute; discriminate)) as (r' & -> & Hr'). cbn [res_bind]. rewrite (finish_reads _ _ Hr'). exact H.
Qed.

Lemma san_iff (encoded : bytes) (names : list bytes) : len encoded <= usize_max ->
  parse_x509_subject_alt_name encoded = Ok names <-> san_value encoded names.
Proof.
  intros Hl. unfold parse_x509_subject_alt_name. rewrite (one_sequence (fun r => san_names (S (length encoded)) [] r)) by done. unfold san_value. split.
  - intros (items & r & Hb & Hr & Hf & -> & H). exists items. split; [done|]. apply (san_names_iff _ _ _ items) in H as (ns & Hn & ->); done.
  - intros (items & Hb & Hn). exists items, (new_reader items). assert (Hi : len items <= usize_max) by (rewrite Hb in Hl; by apply len_content in Hl).
    pose proof (reads_new items Hi) as Hr. assert (Hf : (length items < S (length encoded))%nat) by (rewrite Hb, length_tlv; lia).
    split_and!; [done..|]. apply (san_names_iff _ _ _ items); [done..|]. by exists names.
Qed.

Lemma low_tags : low_tag DER_TAG_BOOLEAN /\ low_tag DER_TAG_INTEGER /\ low_tag DER_TAG_BIT_STRING /\ low_tag DER_TAG_OCTET_STRING /\
  low_tag DER_TAG_OBJECT_IDENTIFIER /\ low_tag DER_TAG_SEQUENCE.
Proof. unfold low_tag. split_and!; vm_compute; discriminate. Qed.

Ltac low := solve [apply low_tags | assumption | vm_compute; discriminate].

Lemma read_extension_iff (bs oid value : bytes) (r : DerReader) : reads r bs ->
  read_extension r = Ok (oid, value) <->
  exists critical, critical_encoding critical /\ bs = tlv DER_TAG_OBJECT_IDENTIFIER oid ++ critical ++ tlv DER_TAG_OCTET_STRING value.
Proof.
  intros Hr. unfold read_extension. split.
  - intros H. apply res_bind_Ok in H as ([o r1] & Ho & H). destruct (read_expected_inv _ _ _ _ _ Hr Ho) as (c & rest & -> & -> & Hr1 & _). cbn [content] in H.
    apply res_bind_Ok in H as ([next r2] & Hn & H). destruct (read_tlv_inv _ _ _ _ Hr1 Hn) as (_ & rest1 & -> & Hr2 & _).
    apply res_bind_Ok in H as ([v r3] & Hv & H). apply res_bind_Ok in H as (u & Hf & H). apply Ok_inj, pair_equal_spec in H as [<- <-].
    destruct (byte_eqb (tag next) DER_TAG_BOOLEAN) eqn:Eb.
    + apply byte_eqb_eq in Eb. rewrite Eb. destruct (bytes_eqb (content next) [x00] || bytes_eqb (content next) [xff]) eqn:Ec; cbn [negb] in Hv; [|done].
      destruct (read_expected_inv _ _ _ _ _ Hr2 Hv) as (cv & rest2 & -> & -> & Hr3 & _). apply (finish_inv _ _ _ Hr3) in Hf as ->. cbn [content]. rewrite app_nil_r.
      exists (tlv DER_TAG_BOOLEAN (content next)). split; [|done]. unfold critical_encoding.
      apply orb_true_iff in Ec as [Ec|Ec]; apply bytes_eqb_eq in Ec as ->; [by right; left|by right; right].
    + destruct (byte_eqb (tag next) DER_TAG_OCTET_STRING) eqn:Et; cbn [negb] in Hv; [|done]. apply byte_eqb_eq in Et. apply Ok_inj, pair_equal_spec in Hv as [<- <-].
      apply (finish_inv _ _ _ Hr2) in Hf as ->. rewrite Et, app_nil_r. exists []. split; [by left|done].
  - intros (critical & Hc & ->). destruct (read_expected_reads _ _ _ _ Hr ltac:(low)) as (r1 & -> & Hr1). cbn [res_bind].
    destruct Hc as [-> | [-> | ->]]; cbn [app] in Hr1.
    + apply reads_one in Hr1. destruct (read_tlv_reads _ _ _ _ Hr1 ltac:(low)) as (r2 & -> & Hr2). cbn [res_bind tag content].
      change (byte_eqb DER_TAG_OCTET_STRING DER_TAG_BOOLEAN) with false. change (byte_eqb DER_TAG_OCTET_STRING DER_TAG_OCTET_STRING) with true. cbn [negb res_bind].
      by rewrite (finish_reads _ _ Hr2).
    + destruct (read_tlv_reads _ _ _ _ Hr1 ltac:(low)) as (r2 & -> & Hr2). cbn [res_bind tag content]. change (byte_eqb DER_TAG_BOOLEAN DER_TAG_BOOLEAN) with true.
      apply reads_one in Hr2. destruct (read_expected_reads _ _ _ _ Hr2 ltac:(low)) as (r3 & Hx & Hr3).
      change (negb (bytes_eqb [x00] [x00] || bytes_eqb [x00] [xff])) with false. cbv iota. rewrite Hx. cbn [res_bind]. by rewrite (finish_reads _ _ Hr3).
    + destruct (read_tlv_reads _ _ _ _ Hr1 ltac:(low)) as (r2 & -> & Hr2). cbn [res_bind tag content]. change (byte_eqb DER_TAG_BOOLEAN DER_TAG_BOOLEAN) with true.
      apply reads_one in Hr2. destruct (read_expected_reads _ _ _ _ Hr2 ltac:(low)) as (r3 & Hx & Hr3).
      change (negb (bytes_eqb [xff] [x00] || bytes_eqb [xff] [xff])) with false. cbv iota. rewrite Hx. cbn [res_bind]. by rewrite (finish_reads _ _ Hr3).
Qed.

Lemma reads_content (t : byte) (c rest : bytes) (r : DerReader) : reads r (tlv t c ++ rest) -> len c <= usize_max /\ reads (reader (mkDerValue t c)) c.
Proof.
  intros Hr. assert (Hl : len c <= usize_max); [|split; [done|by apply (reads_reader (mkDerValue t c))]].
  apply reads_inv in Hr. revert Hr. unfold len at 1. rewrite length_app, length_tlv. unfold len. lia.
Qed.

Lemma extension_value_len (oid critical value : bytes) (r : DerReader) :
  reads r (tlv DER_TAG_OBJECT_IDENTIFIER oid ++ critical ++ tlv DER_TAG_OCTET_STRING value) -> len value <= usize_max.
Proof. intros Hr. apply reads_inv in Hr. revert Hr. unfold len at 1. rewrite !length_app, !length_tlv. unfold len. lia. Qed.

Lemma extension_list_sound (fuel : nat) (names : list bytes) (seen : bool) (out : list bytes) (bs : bytes) (r : DerReader) : reads r bs ->
  extension_list fuel names seen r = Ok out -> extension_items names seen bs out.
Proof.
  revert names seen bs r. induction fuel as [|fuel IH]; intros names seen bs r Hr; [done|]. cbn [extension_list]. rewrite (is_empty_reads r bs Hr).
  destruct bs as [|b bs]; [intros H; apply Ok_inj in H as <-; apply extension_nil|]. intros H.
  apply res_bind_Ok in H as ([v r'] & Ht & H). destruct (read_expected_inv _ _ _ _ _ Hr Ht) as (c & rest & -> & Hb & Hr' & Hc). rewrite Hb in *.
  apply res_bind_Ok in H as ([oid value] & He & H). pose proof (reads_reader (mkDerValue DER_TAG_SEQUENCE c) Hc) as Hrc. cbn [content] in Hrc.
  apply (read_extension_iff c oid value _ Hrc) in He as (critical & Hcr & ->). fold (extension_encoding oid critical value).
  destruct (bytes_eqb oid OID_SUBJECT_ALT_NAME_CONTENT) eqn:Eo.
  - apply bytes_eqb_eq in Eo as ->. destruct seen; [done|]. apply res_bind_Ok in H as (found & Hs & H).
    apply san_iff in Hs; [|by eapply extension_value_len]. eapply extension_san; [done|exact Hs|by eapply IH].
  - apply extension_other; [by intros ->; rewrite bytes_eqb_refl in Eo|done|by eapply IH].
Qed.

Lemma extension_list_complete (fuel : nat) (names : list bytes) (seen : bool) (out : list bytes) (bs : bytes) (r : DerReader) : reads r bs ->
  (length bs < fuel)%nat -> extension_items names seen bs out -> extension_list fuel names seen r = Ok out.
Proof.
  intros Hr Hf Hi. revert fuel r Hr Hf. induction Hi as [names seen|names seen oid critical value rest out Ho Hc Hi IH|names critical value found rest out Hc Hs Hi IH];
    intros fuel r Hr Hf; (destruct fuel as [|fuel]; [lia|]); cbn [extension_list].
  - by rewrite (is_empty_reads r _ Hr).
  - unfold extension_encoding in *. rewrite (is_empty_tlv _ _ _ _ Hr). apply len_tlv_rest in Hf. destruct (reads_content _ _ _ _ Hr) as [_ Hrc].
    destruct (read_expected_reads _ _ _ _ Hr ltac:(low)) as (r' & -> & Hr'). cbn [res_bind].
    rewrite (proj2 (read_extension_iff _ oid value _ Hrc)) by (by exists critical). cbn [res_bind].
    destruct (bytes_eqb oid _) eqn:Eo; [by apply bytes_eqb_eq in Eo|]. by apply IH.
  - unfold extension_encoding in *. rewrite (is_empty_tlv _ _ _ _ Hr). apply len_tlv_rest in Hf. destruct (reads_content _ _ _ _ Hr) as [_ Hrc].
    destruct (read_expected_reads _ _ _ _ Hr ltac:(low)) as (r' & -> & Hr'). cbn [res_bind].
    rewrite (proj2 (read_extension_iff _ OID_SUBJECT_ALT_NAME_CONTENT value _ Hrc)) by (by exists critical). cbn [res_bind]. rewrite bytes_eqb_refl.
    rewrite (proj2 (san_iff value found (extension_value_len _ _ _ _ Hrc)) Hs). cbn [res_bind]. by apply IH.
Qed.

Lemma extensions_iff (encoded : bytes) (names : list bytes) : len encoded <= usize_max ->
  parse_x509_extensions encoded = Ok names <-> extensions_value encoded names.
Proof.
  intros Hl. unfold parse_x509_extensions. rewrite (one_sequence (fun r => extension_list (S (length encoded)) [] false r)) by done. unfold extensions_value. split.
  - intros (items & r & Hb & Hr & Hf & -> & H). exists items. split; [done|]. by eapply extension_list_sound.
  - intros (items & Hb & Hn). exists items, (new_reader items). assert (Hi : len items <= usize_max) by (rewrite Hb in Hl; by apply len_content in Hl).
    pose proof (reads_new items Hi) as Hr. assert (Hf : (length items < S (length encoded))%nat) by (rewrite Hb, length_tlv; lia).
    split_and!; [done..|]. by eapply extension_list_complete.
Qed.

Lemma tbs_options_sound (fuel : nat) (version : Z) (names : list bytes) (seen : bool) (out : list bytes) (bs : bytes) (r : DerReader) : reads r bs ->
  tbs_options fuel version names seen r = Ok out -> tbs_tail version names seen bs out.
Proof.
  revert names seen bs r. induction fuel as [|fuel IH]; intros names seen bs r Hr; [done|]. cbn [tbs_options]. rewrite (is_empty_reads r bs Hr).
  destruct bs as [|b bs]; [intros H; apply Ok_inj in H as <-; apply tail_end|]. intros H.
  apply res_bind_Ok in H as ([v r'] & Ht & H). destruct (read_tlv_inv _ _ _ _ Hr Ht) as (_ & rest & Hb & Hr' & Hc). rewrite Hb in *.
  destruct (byte_eqb (tag v) x81 || byte_eqb (tag v) x82) eqn:Eu.
  - apply tail_identifier; [|by eapply IH]. apply orb_true_iff in Eu as [E|E]; apply byte_eqb_eq in E as ->; auto.
  - destruct (byte_eqb (tag v) xa3) eqn:Ea; [|done]. apply byte_eqb_eq in Ea. rewrite Ea. destruct seen; [done|].
    destruct (Z.eqb_spec version 2) as [Hv|]; [|done]. cbn [negb orb] in H. apply res_bind_Ok in H as (found & Hs & H).
    apply extensions_iff in Hs; [|done]. eapply tail_extensions; [done|exact Hs|by eapply IH].
Qed.

Lemma tbs_options_complete (fuel : nat) (version : Z) (names : list bytes) (seen : bool) (out : list bytes) (bs : bytes) (r : DerReader) : reads r bs ->
  (length bs < fuel)%nat -> tbs_tail version names seen bs out -> tbs_options fuel version names seen r = Ok out.
Proof.
  intros Hr Hf Hi. revert fuel r Hr Hf. induction Hi as [names seen|names seen t c rest out Ht Hi IH|names c found rest out Hv Hs Hi IH];
    intros fuel r Hr Hf; (destruct fuel as [|fuel]; [lia|]); cbn [tbs_options].
  - by rewrite (is_empty_reads r _ Hr).
  - rewrite (is_empty_tlv _ _ _ _ Hr). apply len_tlv_rest in Hf.
    destruct (read_tlv_reads _ _ _ _ Hr) as (r' & -> & Hr'); [by destruct Ht as [-> | ->]; vm_compute|]. cbn [res_bind tag].
    assert (byte_eqb t x81 || byte_eqb t x82 = true) as -> by (by destruct Ht as [-> | ->]). by apply IH.
  - rewrite (is_empty_tlv _ _ _ _ Hr). apply len_tlv_rest in Hf. destruct (reads_content _ _ _ _ Hr) as [Hc _].
    destruct (read_tlv_reads _ _ _ _ Hr ltac:(low)) as (r' & -> & Hr'). cbn [res_bind tag content].
    change (byte_eqb xa3 x81 || byte_eqb xa3 x82) with false. change (byte_eqb xa3 xa3) with true. cbv iota. rewrite Hv. cbn [orb negb Z.eqb Pos.eqb].
    rewrite (proj2 (extensions_iff c found Hc) Hs). cbn [res_bind]. rewrite Hv in *. by apply IH.
Qed.

(** ** Keys, times and versions *)
Lemma spki_iff (v : DerValue) (info : X509PublicKeyInfo) : len (content v) <= usize_max ->
  parse_x509_public_key_info v = Ok info <-> spki_value (content v) info.
Proof.
  intros Hl. pose proof (reads_reader v Hl) as Hr. unfold parse_x509_public_key_info, spki_value. split.
  - intros H. apply res_bind_Ok in H as ([alg r1] & Ha & H). destruct (read_expected_inv _ _ _ _ _ Hr Ha) as (ac & rest & -> & -> & Hr1 & Hac).
    apply res_bind_Ok in H as ([key r2] & Hk & H). destruct (read_expected_inv _ _ _ _ _ Hr1 Hk) as (kc & rest2 & -> & -> & Hr2 & _). cbn [content] in H.
    apply res_bind_Ok in H as (u & Hf & H). apply (finish_inv _ _ _ Hr2) in Hf as ->. rewrite app_nil_r.
    destruct kc as [|x00' kc]; [done|]. destruct (decide (x00' = x00)) as [->|Hne]; [|by destruct x00']. pose proof (reads_reader (mkDerValue DER_TAG_SEQUENCE ac) Hac) as Hra. cbn [content] in Hra.
    apply res_bind_Ok in H as ([oid r3] & Ho & H). destruct (read_expected_inv _ _ _ _ _ Hra Ho) as (oc & rest3 & -> & -> & Hr3 & _). cbn [content] in H.
    apply res_bind_Ok in H as ([params r4] & Hp & H). apply res_bind_Ok in H as (u' & Hf & H). rewrite slice_from_Ok in H by (cbn [length]; lia). cbn [res_bind drop] in H. rewrite drop_0 in H.
    apply res_bind_Ok in H as (p & Hpt & H). apply Ok_inj in H as <-. cbn [algorithm_oid subject_public_key p256_public_key].
    assert (Hpar : rest3 = match params with Some v => tlv (tag v) (content v) | None => [] end /\ match params with Some v => low_tag (tag v) | None => True end).
    { rewrite (is_empty_reads _ _ Hr3) in Hp. destruct rest3 as [|b rest3]; [by apply Ok_inj, pair_equal_spec in Hp as [<- _]|].
      apply res_bind_Ok in Hp as ([pv r5] & Hpv & Hp). apply Ok_inj, pair_equal_spec in Hp as [<- <-].
      destruct (read_tlv_inv _ _ _ _ Hr3 Hpv) as (Hlow & rest5 & -> & Hr5 & _). apply (finish_inv _ _ _ Hr5) in Hf as ->. by rewrite app_nil_r. }
    destruct Hpar as [-> Hlow]. exists params. split; [done|]. split; [done|].
    destruct (decide _) as [[-> ->]|Hn].
    + change (bytes_eqb OID_EC_PUBLIC_KEY_CONTENT OID_EC_PUBLIC_KEY_CONTENT && _) with true in Hpt. cbv iota in Hpt.
      apply res_bind_Ok in Hpt as (q & Hq & Hpt). apply Ok_inj in Hpt as <-. exists q. split; [done|]. by destruct (from_sec1_uncompressed kc); simplify_eq/=.
    + destruct (bytes_eqb oc OID_EC_PUBLIC_KEY_CONTENT && _) eqn:E; [|by apply Ok_inj in Hpt as <-]. exfalso. apply Hn. apply andb_true_iff in E as [E1 E2].
      apply bytes_eqb_eq in E1. destruct params as [[pt pc]|]; [|done]. cbn [tag content] in E2. apply andb_true_iff in E2 as [E2 E3]. apply byte_eqb_eq in E2. apply bytes_eqb_eq in E3.
      by subst.
  - intros (params & Hc & Hlow & Hp). rewrite Hc in Hr. destruct (reads_content _ _ _ _ Hr) as [_ Hra].
    destruct (read_expected_reads _ _ _ _ Hr ltac:(low)) as (r1 & -> & Hr1). cbn [res_bind]. apply reads_one in Hr1.
    destruct (read_expected_reads _ _ _ _ Hr1 ltac:(low)) as (r2 & -> & Hr2). cbn [res_bind content]. rewrite (finish_reads _ _ Hr2). cbn [res_bind].
    destruct (read_expected_reads _ _ _ _ Hra ltac:(low)) as (r3 & -> & Hr3). cbn [res_bind content]. rewrite (is_empty_reads _ _ Hr3).
    assert (exists r4, (if match match params with Some v => tlv (tag v) (content v) | None => [] end with [] => true | _ :: _ => false end
                        then Ok (None, r3) else let? (value, algorithm) := read_tlv r3 in Ok (Some value, algorithm)) = Ok (params, r4) :> res DerError _ /\ reads r4 []) as (r4 & -> & Hr4).
    { destruct params as [[t c]|]; [|by exists r3]. cbn [tag content] in *. apply reads_one in Hr3. destruct (read_tlv_reads _ _ _ _ Hr3 Hlow) as (r4 & -> & Hr4). by exists r4. }
    cbn [res_bind]. rewrite (finish_reads _ _ Hr4). cbn [res_bind]. rewrite slice_from_Ok by (cbn [length]; lia). cbn [res_bind drop]. rewrite drop_0.
    destruct info as [oid key p]; cbn [algorithm_oid subject_public_key p256_public_key] in *. destruct (decide _) as [[-> ->]|Hn].
    + destruct Hp as (q & -> & Hq). rewrite bytes_eqb_refl. cbn [tag content andb]. rewrite bytes_eqb_refl. change (byte_eqb DER_TAG_OBJECT_IDENTIFIER DER_TAG_OBJECT_IDENTIFIER) with true.
      cbn [andb]. by rewrite Hq.
    + assert (E : bytes_eqb oid OID_EC_PUBLIC_KEY_CONTENT && match params with
        | Some parameter => byte_eqb (tag parameter) DER_TAG_OBJECT_IDENTIFIER && bytes_eqb (content parameter) OID_SECP256R1_CONTENT | None => false end = false).
      { apply not_true_iff_false. intros E. apply Hn. apply andb_true_iff in E as [E1 E2]. apply bytes_eqb_eq in E1. destruct params as [[pt pc]|]; [|done]. cbn [tag content] in E2.
        apply andb_true_iff in E2 as [E2 E3]. apply byte_eqb_eq in E2. apply bytes_eqb_eq in E3. by subst. }
      rewrite E. cbn [res_bind]. by rewrite Hp.
Qed.

Lemma validity_iff (v : DerValue) (w : X509Validity) : len (content v) <= usize_max ->
  parse_x509_validity v = Ok w <-> validity_value (content v) w.
Proof.
  intros Hl. pose proof (reads_reader v Hl) as Hr. unfold parse_x509_validity, validity_value. split.
  - intros H. apply res_bind_Ok in H as ([first r1] & H1 & H). destruct (read_tlv_inv _ _ _ _ Hr H1) as (_ & rest & -> & Hr1 & _).
    apply res_bind_Ok in H as (nb & Hn & H). apply res_bind_Ok in H as ([second r2] & H2 & H). destruct (read_tlv_inv _ _ _ _ Hr1 H2) as (_ & rest2 & -> & Hr2 & _).
    apply res_bind_Ok in H as (na & Ha & H). apply res_bind_Ok in H as (u & Hf & H). apply Ok_inj in H as <-. apply (finish_inv _ _ _ Hr2) in Hf as ->. rewrite app_nil_r.
    exists first, second. cbn [not_before not_after]. by rewrite <- !parse_time_iff.
  - intros (first & second & Hc & Hn & Ha). rewrite <- !parse_time_iff in *. rewrite Hc in Hr.
    assert (Ht : forall x t, parse_x509_time x = Ok t -> low_tag (tag x)).
    { intros x t [_ Hx]%parse_time_iff. destruct Hx as [(-> & _)|(-> & _)]; vm_compute; discriminate. }
    destruct (read_tlv_reads _ _ _ _ Hr (Ht _ _ Hn)) as (r1 & -> & Hr1). cbn [res_bind]. destruct first as [t1 c1]; cbn [tag content] in *. rewrite Hn. cbn [res_bind].
    apply reads_one in Hr1. destruct (read_tlv_reads _ _ _ _ Hr1 (Ht _ _ Ha)) as (r2 & -> & Hr2). cbn [res_bind]. destruct second as [t2 c2]; cbn [tag content] in *. rewrite Ha. cbn [res_bind].
    rewrite (finish_reads _ _ Hr2). by destruct w.
Qed.

Lemma integer_content_one (b : byte) : u8 b <= 2 -> integer_content [b] = [b].
Proof. destruct b; vm_compute; intros H; try reflexivity; by destruct H. Qed.

Lemma read_version_sound (version : Z) (bs : bytes) (r r' : DerReader) : reads r bs -> read_version r = Ok (version, r') ->
  exists serial rest, version_encoding version serial /\ bs = serial ++ rest /\ reads r' rest.
Proof.
  intros Hr H. unfold read_version in H. apply res_bind_Ok in H as ([first r1] & H1 & H). destruct (read_tlv_inv _ _ _ _ Hr H1) as (_ & rest & -> & Hr1 & Hc).
  destruct (byte_eqb (tag first) xa0) eqn:Ea.
  - apply byte_eqb_eq in Ea. rewrite Ea. apply res_bind_Ok in H as ([vv r2] & Hv & H). destruct (read_integer_inv _ _ _ _ (reads_reader first Hc) Hv) as (rest2 & Hcf & Hr2).
    apply res_bind_Ok in H as (u & Hf & H). apply (finish_inv _ _ _ Hr2) in Hf as ->. destruct vv as [|b [|]]; try done.
    destruct (Z.ltb_spec 2 (u8 b)) as [|Hb]; [done|]. apply res_bind_Ok in H as ([serial r3] & Hs & H). destruct (read_expected_inv _ _ _ _ _ Hr1 Hs) as (sc & rest3 & -> & -> & Hr3 & _).
    cbn [content] in H. case_bool_decide as Hne; [done|]. apply Ok_inj, pair_equal_spec in H as [<- <-]. rewrite Hcf, app_nil_r, integer_content_one by done.
    exists (tlv xa0 (tlv DER_TAG_INTEGER [b]) ++ tlv DER_TAG_INTEGER sc), rest3. split; [|by rewrite <- app_assoc]. exists sc. split; [done|]. right. by exists b.
  - destruct (byte_eqb (tag first) DER_TAG_INTEGER) eqn:Ei; [|done]. apply byte_eqb_eq in Ei. rewrite Ei. cbn [negb orb] in H. case_bool_decide as Hne; [done|].
    apply Ok_inj, pair_equal_spec in H as [<- <-]. exists (tlv DER_TAG_INTEGER (content first)), rest. split; [|done]. exists (content first). split; [done|]. by left.
Qed.

Lemma read_version_complete (version : Z) (serial rest : bytes) (r : DerReader) : version_encoding version serial -> reads r (serial ++ rest) ->
  exists r', read_version r = Ok (version, r') /\ reads r' rest.
Proof.
  intros (sc & Hne & [[-> ->]|(b & -> & -> & Hb)]) Hr; unfold read_version.
  - destruct (read_tlv_reads _ _ _ _ Hr ltac:(low)) as (r1 & -> & Hr1). cbn [res_bind tag content]. change (byte_eqb DER_TAG_INTEGER xa0) with false.
    change (byte_eqb DER_TAG_INTEGER DER_TAG_INTEGER) with true. cbn [negb orb]. rewrite bool_decide_false by done. by exists r1.
  - rewrite <- app_assoc in Hr. destruct (reads_content _ _ _ _ Hr) as [_ Hrv]. destruct (read_tlv_reads _ _ _ _ Hr ltac:(low)) as (r1 & -> & Hr1). cbn [res_bind tag content].
    change (byte_eqb xa0 xa0) with true. cbv iota. apply reads_one in Hrv. rewrite <- (integer_content_one b Hb) in Hrv. destruct (read_integer_reads _ _ _ Hrv) as (r2 & Hi & Hr2).
    rewrite integer_content_one in Hi by done. rewrite Hi. cbn [res_bind]. rewrite (finish_reads _ _ Hr2). cbn [res_bind].
    assert (significant [b] = [b]) as ->.
    { destruct b; reflexivity. }
    rewrite (proj2 (Z.ltb_ge _ _) Hb). destruct (read_expected_reads _ _ _ _ Hr1 ltac:(low)) as (r3 & -> & Hr3). cbn [res_bind content]. rewrite bool_decide_false by done. by exists r3.
Qed.

(** ** Certificates *)
Definition tbs_value (tbs : bytes) (info : X509CertificateInfo) : Prop :=
  exists version serial algorithm issuer times subject spki options,
    tbs = serial ++ tlv DER_TAG_SEQUENCE algorithm ++ tlv DER_TAG_SEQUENCE issuer ++ tlv DER_TAG_SEQUENCE times ++
          tlv DER_TAG_SEQUENCE subject ++ tlv DER_TAG_SEQUENCE spki ++ options /\
    version_encoding version serial /\ validity_value times (validity info) /\ spki_value spki (public_key info) /\
    tbs_tail version [] false options (dns_names info).

Lemma tbs_iff (v : DerValue) (info : X509CertificateInfo) : len (content v) <= usize_max -> parse_tbs v = Ok info <-> tbs_value (content v) info.
Proof.
  intros Hl. pose proof (reads_reader v Hl) as Hr. unfold parse_tbs, tbs_value. split.
  - intros H. apply res_bind_Ok in H as ([version r1] & H1 & H). destruct (read_version_sound _ _ _ _ Hr H1) as (serial & rest & Hver & -> & Hr1). clear H1.
    apply res_bind_Ok in H as ([v2 r2] & H2 & H). destruct (read_expected_inv _ _ _ _ _ Hr1 H2) as (c2 & rest2 & -> & -> & Hr2 & _). clear H2.
    apply res_bind_Ok in H as ([v3 r3] & H3 & H). destruct (read_expected_inv _ _ _ _ _ Hr2 H3) as (c3 & rest3 & -> & -> & Hr3 & _). clear H3.
    apply res_bind_Ok in H as ([v4 r4] & H4 & H). destruct (read_expected_inv _ _ _ _ _ Hr3 H4) as (c4 & rest4 & -> & -> & Hr4 & L4). clear H4.
    apply res_bind_Ok in H as (val & Hval & H). apply validity_iff in Hval; [|done].
    apply res_bind_Ok in H as ([v5 r5] & H5 & H). destruct (read_expected_inv _ _ _ _ _ Hr4 H5) as (c5 & rest5 & -> & -> & Hr5 & _). clear H5.
    apply res_bind_Ok in H as ([v6 r6] & H6 & H). destruct (read_expected_inv _ _ _ _ _ Hr5 H6) as (c6 & rest6 & -> & -> & Hr6 & L6). clear H6.
    apply res_bind_Ok in H as (pk & Hpk & H). apply spki_iff in Hpk; [|done]. apply res_bind_Ok in H as (names & Hn & H). apply Ok_inj in H as <-.
    exists version, serial, c2, c3, c4, c5, c6, rest6. cbn [validity public_key dns_names]. split_and!; try done. by eapply tbs_options_sound.
  - intros (version & serial & c2 & c3 & c4 & c5 & c6 & options & Hc & Hver & Hval & Hpk & Ht). rewrite Hc in Hr.
    destruct (read_version_complete _ _ _ _ Hver Hr) as (r1 & -> & Hr1). cbn [res_bind].
    destruct (read_expected_reads _ _ _ _ Hr1 ltac:(low)) as (r2 & -> & Hr2). cbn [res_bind]. destruct (read_expected_reads _ _ _ _ Hr2 ltac:(low)) as (r3 & -> & Hr3). cbn [res_bind].
    destruct (reads_content _ _ _ _ Hr3) as [L4 _]. destruct (read_expected_reads _ _ _ _ Hr3 ltac:(low)) as (r4 & -> & Hr4). cbn [res_bind].
    rewrite (proj2 (validity_iff (mkDerValue DER_TAG_SEQUENCE c4) (validity info) L4) Hval). cbn [res_bind].
    destruct (read_expected_reads _ _ _ _ Hr4 ltac:(low)) as (r5 & -> & Hr5). cbn [res_bind].
    destruct (reads_content _ _ _ _ Hr5) as [L6 _]. destruct (read_expected_reads _ _ _ _ Hr5 ltac:(low)) as (r6 & -> & Hr6). cbn [res_bind].
    rewrite (proj2 (spki_iff (mkDerValue DER_TAG_SEQUENCE c6) (public_key info) L6) Hpk). cbn [res_bind].
    rewrite (tbs_options_complete _ version [] false (dns_names info) options r6 Hr6); [by destruct info| |done]. rewrite Hc, !length_app. lia.
Qed.

Lemma certificate_iff (der : bytes) (info : X509CertificateInfo) : len der <= usize_max ->
  parse_x509_certificate_der der = Ok info <-> certificate_value der info.
Proof.
  intros Hl. unfold parse_x509_certificate_der.
  rewrite (one_sequence (fun r => let? (tbs_certificate, certificate) := read_expected DER_TAG_SEQUENCE r in
    let? (_, certificate) := read_expected DER_TAG_SEQUENCE certificate in
    let? (signature, certificate) := read_expected DER_TAG_BIT_STRING certificate in
    match content signature with x00 :: _ => let? _ := finish certificate in parse_tbs tbs_certificate | _ => Err InvalidCertificate end)) by done. split.
  - intros (items & r & -> & Hr & _ & -> & H).
    apply res_bind_Ok in H as ([v1 r1] & H1 & H). destruct (read_expected_inv _ _ _ _ _ Hr H1) as (c1 & rest1 & -> & -> & Hr1 & L1).
    apply res_bind_Ok in H as ([v2 r2] & H2 & H). destruct (read_expected_inv _ _ _ _ _ Hr1 H2) as (c2 & rest2 & -> & -> & Hr2 & _).
    apply res_bind_Ok in H as ([v3 r3] & H3 & H). destruct (read_expected_inv _ _ _ _ _ Hr2 H3) as (c3 & rest3 & -> & -> & Hr3 & _). cbn [content] in H.
    destruct c3 as [|b c3]; [done|]. destruct (decide (b = x00)) as [->|Hne]; [|by destruct b]. apply res_bind_Ok in H as (u & Hf & H). apply (finish_inv _ _ _ Hr3) in Hf as ->.
    apply (tbs_iff (mkDerValue DER_TAG_SEQUENCE c1) info L1) in H as (version & serial & al & iss & ti & su & sp & op & Hc & Hver & Hval & Hpk & Ht). cbn [content] in Hc.
    exists version, serial, al, iss, ti, su, sp, op, c2, c3. rewrite app_nil_r, Hc. done.
  - intros (version & serial & al & iss & ti & su & sp & op & c2 & sg & -> & Hver & Hval & Hpk & Ht). set (tbs := serial ++ _).
    apply len_content in Hl. eexists _, (new_reader _). split; [done|]. pose proof (reads_new _ Hl) as Hr. fold tbs in Hr. split; [exact Hr|]. split; [fold tbs; rewrite (length_tlv _ (_ ++ _)); lia|]. split; [done|].
    destruct (reads_content _ _ _ _ Hr) as [L1 _]. destruct (read_expected_reads _ _ _ _ Hr ltac:(low)) as (r1 & -> & Hr1). cbn [res_bind].
    destruct (read_expected_reads _ _ _ _ Hr1 ltac:(low)) as (r2 & -> & Hr2). cbn [res_bind]. apply reads_one in Hr2.
    destruct (read_expected_reads _ _ _ _ Hr2 ltac:(low)) as (r3 & -> & Hr3). cbn [res_bind content]. rewrite (finish_reads _ _ Hr3). cbn [res_bind].
    apply (tbs_iff (mkDerValue DER_TAG_SEQUENCE tbs) info L1). by exists version, serial, al, iss, ti, su, sp, op.
Qed.

(** ** The parser returns *)
Lemma returns_sequence {A : Type} (f : DerReader -> res DerError A) (encoded : bytes) : len encoded <= usize_max ->
  (forall items r, reads r items -> (length items < S (length encoded))%nat -> returns (f r)) ->
  returns (let? (v, outer) := read_expected DER_TAG_SEQUENCE (new_reader encoded) in let? _ := finish outer in f (reader v)).
Proof.
  intros Hl Hf. pose proof (reads_new encoded Hl) as Hr. apply res_bind_returns; [apply read_expected_returns, Hr|]. intros [v r] Hv.
  destruct (read_expected_inv _ _ _ _ _ Hr Hv) as (c & rest & -> & Hb & Hr' & Hc). apply res_bind_returns; [by eapply finish_returns|]. intros _ _.
  apply (Hf c); [by apply (reads_reader (mkDerValue DER_TAG_SEQUENCE c))|]. rewrite Hb, length_app, length_tlv. lia.
Qed.

Lemma validate_dns_name_returns (name : bytes) : returns (validate_dns_name name).
Proof. by destruct (validate_dns_name_err name) as [-> | ->]. Qed.

Lemma san_names_returns (fuel : nat) (acc : list bytes) (bs : bytes) (r : DerReader) : reads r bs -> (length bs < fuel)%nat -> returns (san_names fuel acc r).
Proof.
  revert acc bs r. induction fuel as [|fuel IH]; intros acc bs r Hr Hf; [lia|]. cbn [san_names]. destruct (is_empty r); [done|].
  apply res_bind_returns; [apply read_tlv_returns, Hr|]. intros [v r'] Hv. destruct (read_tlv_inv _ _ _ _ Hr Hv) as (_ & rest & -> & Hr' & _). apply len_tlv_rest in Hf.
  destruct (negb (byte_eqb _ _)); [by eapply IH|]. destruct (negb (forallb _ _)); [done|]. destruct (negb (utf8_valid _)); [done|].
  apply res_bind_returns; [apply validate_dns_name_returns|]. intros _ _. by eapply IH.
Qed.

Lemma san_returns (encoded : bytes) : len encoded <= usize_max -> returns (parse_x509_subject_alt_name encoded).
Proof. intros Hl. apply (returns_sequence (fun r => san_names (S (length encoded)) [] r)); [done|]. intros items r Hr Hf. by eapply san_names_returns. Qed.

Lemma read_extension_returns (bs : bytes) (r : DerReader) : reads r bs -> returns (read_extension r).
Proof.
  intros Hr. unfold read_extension. apply res_bind_returns; [apply read_expected_returns, Hr|]. intros [o r1] Ho.
  destruct (read_expected_inv _ _ _ _ _ Hr Ho) as (c & rest & -> & -> & Hr1 & _). apply res_bind_returns; [apply read_tlv_returns, Hr1|]. intros [next r2] Hn.
  destruct (read_tlv_inv _ _ _ _ Hr1 Hn) as (_ & rest2 & -> & Hr2 & _). apply res_bind_returns.
  - destruct (byte_eqb _ _); [destruct (negb _); [done|apply read_expected_returns, Hr2]|by destruct (negb _)].
  - intros [v r3] Hv. apply res_bind_returns; [|done]. assert (exists rest3, reads r3 rest3) as [rest3 Hr3]; [|by eapply finish_returns].
    destruct (byte_eqb _ _); [destruct (negb _); [done|]|destruct (negb _); [done|]].
    + destruct (read_expected_inv _ _ _ _ _ Hr2 Hv) as (c3 & rest3 & _ & _ & Hr3 & _). eauto.
    + apply Ok_inj, pair_equal_spec in Hv as [_ <-]. eauto.
Qed.

Lemma extension_list_returns (fuel : nat) (names : list bytes) (seen : bool) (bs : bytes) (r : DerReader) : reads r bs -> (length bs < fuel)%nat ->
  returns (extension_list fuel names seen r).
Proof.
  revert names seen bs r. induction fuel as [|fuel IH]; intros names seen bs r Hr Hf; [lia|]. cbn [extension_list]. destruct (is_empty r); [done|].
  apply res_bind_returns; [apply read_expected_returns, Hr|]. intros [v r'] Hv. destruct (read_expected_inv _ _ _ _ _ Hr Hv) as (c & rest & -> & -> & Hr' & Hc). apply len_tlv_rest in Hf.
  pose proof (reads_reader (mkDerValue DER_TAG_SEQUENCE c) Hc) as Hrc. cbn [content] in Hrc. apply res_bind_returns; [by eapply read_extension_returns|]. intros [oid value] He.
  apply (read_extension_iff _ _ _ _ Hrc) in He as (critical & _ & ->). destruct (bytes_eqb _ _); [|by eapply IH]. destruct seen; [done|].
  apply res_bind_returns; [apply san_returns; by eapply extension_value_len|]. intros found _. by eapply IH.
Qed.

Lemma extensions_returns (encoded : bytes) : len encoded <= usize_max -> returns (parse_x509_extensions encoded).
Proof.
  intros Hl. apply (returns_sequence (fun r => extension_list (S (length encoded)) [] false r)); [done|]. intros items r Hr Hf. by eapply extension_list_returns.
Qed.

Lemma tbs_options_returns (fuel : nat) (version : Z) (names : list bytes) (seen : bool) (bs : bytes) (r : DerReader) : reads r bs -> (length bs < fuel)%nat ->
  returns (tbs_options fuel version names seen r).
Proof.
  revert names seen bs r. induction fuel as [|fuel IH]; intros names seen bs r Hr Hf; [lia|]. cbn [tbs_options]. destruct (is_empty r); [done|].
  apply res_bind_returns; [apply read_tlv_returns, Hr|]. intros [v r'] Hv. destruct (read_tlv_inv _ _ _ _ Hr Hv) as (_ & rest & -> & Hr' & Hc). apply len_tlv_rest in Hf.
  destruct (_ || _); [by eapply IH|]. destruct (byte_eqb _ _); [|done]. destruct (seen || _); [done|].
  apply res_bind_returns; [by apply extensions_returns|]. intros found _. by eapply IH.
Qed.

Lemma validity_returns (v : DerValue) : len (content v) <= usize_max -> returns (parse_x509_validity v).
Proof.
  intros Hl. pose proof (reads_reader v Hl) as Hr. unfold parse_x509_validity. apply res_bind_returns; [apply read_tlv_returns, Hr|]. intros [first r1] H1.
  destruct (read_tlv_inv _ _ _ _ Hr H1) as (_ & rest & _ & Hr1 & _). apply res_bind_returns; [apply parse_time_returns|]. intros nb _.
  apply res_bind_returns; [apply read_tlv_returns, Hr1|]. intros [second r2] H2. destruct (read_tlv_inv _ _ _ _ Hr1 H2) as (_ & rest2 & _ & Hr2 & _).
  apply res_bind_returns; [apply parse_time_returns|]. intros na _. apply res_bind_returns; [by eapply finish_returns|done].
Qed.

Lemma spki_returns (v : DerValue) : len (content v) <= usize_max -> returns (parse_x509_public_key_info v).
Proof.
  intros Hl. pose proof (reads_reader v Hl) as Hr. unfold parse_x509_public_key_info. apply res_bind_returns; [apply read_expected_returns, Hr|]. intros [alg r1] H1.
  destruct (read_expected_inv _ _ _ _ _ Hr H1) as (ac & rest & -> & _ & Hr1 & Hac). apply res_bind_returns; [apply read_expected_returns, Hr1|]. intros [key r2] H2.
  destruct (read_expected_inv _ _ _ _ _ Hr1 H2) as (kc & rest2 & -> & _ & Hr2 & _). cbn [content]. apply res_bind_returns; [by eapply finish_returns|]. intros _ _.
  destruct kc as [|b kc]; [done|]. destruct (decide (b = x00)) as [->|Hne]; [|by destruct b].
  pose proof (reads_reader (mkDerValue DER_TAG_SEQUENCE ac) Hac) as Hra. cbn [content] in Hra. apply res_bind_returns; [apply read_expected_returns, Hra|]. intros [oid r3] H3.
  destruct (read_expected_inv _ _ _ _ _ Hra H3) as (oc & rest3 & -> & _ & Hr3 & _). apply res_bind_returns.
  { destruct (is_empty r3); [done|]. apply res_bind_returns; [apply read_tlv_returns, Hr3|]. by intros [? ?] _. }
  intros [params r4] H4. apply res_bind_returns.
  { destruct (is_empty r3); [apply Ok_inj, pair_equal_spec in H4 as [_ <-]; by eapply finish_returns|]. apply res_bind_Ok in H4 as ([pv r5] & H5 & H4).
    apply Ok_inj, pair_equal_spec in H4 as [_ <-]. destruct (read_tlv_inv _ _ _ _ Hr3 H5) as (_ & rest5 & _ & Hr5 & _). by eapply finish_returns. }
  intros _ _. rewrite slice_from_Ok by (cbn [length]; lia). cbn [res_bind]. apply res_bind_returns; [|done]. destruct (_ && _); [|done].
  apply res_bind_returns; [|done]. pose proof (from_sec1_returns (drop 1 (x00 :: kc))) as H. by destruct (from_sec1_uncompressed _).
Qed.

Lemma read_version_returns (bs : bytes) (r : DerReader) : reads r bs -> returns (read_version r).
Proof.
  intros Hr. unfold read_version. apply res_bind_returns; [apply read_tlv_returns, Hr|]. intros [first r1] H1. destruct (read_tlv_inv _ _ _ _ Hr H1) as (_ & rest & _ & Hr1 & Hc).
  destruct (byte_eqb _ _); [|by destruct (_ || _)]. pose proof (reads_reader first Hc) as Hrf. apply res_bind_returns; [apply read_integer_returns, Hrf|]. intros [vv r2] H2.
  destruct (read_integer_inv _ _ _ _ Hrf H2) as (rest2 & _ & Hr2). apply res_bind_returns; [by eapply finish_returns|]. intros _ _. destruct vv as [|b [|]]; try done.
  destruct (2 <? u8 b); [done|]. apply res_bind_returns; [apply read_expected_returns, Hr1|]. intros [? ?] _. by case_bool_decide.
Qed.

Lemma tbs_returns (v : DerValue) : len (content v) <= usize_max -> returns (parse_tbs v).
Proof.
  intros Hl. pose proof (reads_reader v Hl) as Hr. unfold parse_tbs. apply res_bind_returns; [by eapply read_version_returns|]. intros [version r1] H1.
  destruct (read_version_sound _ _ _ _ Hr H1) as (serial & rest & _ & Hb & Hr1).
  apply res_bind_returns; [apply read_expected_returns, Hr1|]. intros [v2 r2] H2. destruct (read_expected_inv _ _ _ _ _ Hr1 H2) as (c2 & rest2 & _ & E2 & Hr2 & _).
  apply res_bind_returns; [apply read_expected_returns, Hr2|]. intros [v3 r3] H3. destruct (read_expected_inv _ _ _ _ _ Hr2 H3) as (c3 & rest3 & _ & E3 & Hr3 & _).
  apply res_bind_returns; [apply read_expected_returns, Hr3|]. intros [v4 r4] H4. destruct (read_expected_inv _ _ _ _ _ Hr3 H4) as (c4 & rest4 & -> & E4 & Hr4 & L4).
  apply res_bind_returns; [by apply validity_returns|]. intros val _.
  apply res_bind_returns; [apply read_expected_returns, Hr4|]. intros [v5 r5] H5. destruct (read_expected_inv _ _ _ _ _ Hr4 H5) as (c5 & rest5 & _ & E5 & Hr5 & _).
  apply res_bind_returns; [apply read_expected_returns, Hr5|]. intros [v6 r6] H6. destruct (read_expected_inv _ _ _ _ _ Hr5 H6) as (c6 & rest6 & -> & E6 & Hr6 & L6).
  apply res_bind_returns; [by apply spki_returns|]. intros pk _. apply res_bind_returns; [|done]. eapply tbs_options_returns; [exact Hr6|].
  rewrite Hb, E2, E3, E4, E5, E6, !length_app. lia.
Qed.

Lemma certificate_returns (der : bytes) : len der <= usize_max -> returns (parse_x509_certificate_der der).
Proof.
  intros Hl. unfold parse_x509_certificate_der.
  apply (returns_sequence (fun r => let? (tbs_certificate, certificate) := read_expected DER_TAG_SEQUENCE r in
    let? (_, certificate) := read_expected DER_TAG_SEQUENCE certificate in
    let? (signature, certificate) := read_expected DER_TAG_BIT_STRING certificate in
    match content signature with x00 :: _ => let? _ := finish certificate in parse_tbs tbs_certificate | _ => Err InvalidCertificate end)); [done|].
  intros items r Hr _. apply res_bind_returns; [apply read_expected_returns, Hr|]. intros [v1 r1] H1. destruct (read_expected_inv _ _ _ _ _ Hr H1) as (c1 & rest1 & -> & _ & Hr1 & L1).
  apply res_bind_returns; [apply read_expected_returns, Hr1|]. intros [v2 r2] H2. destruct (read_expected_inv _ _ _ _ _ Hr1 H2) as (c2 & rest2 & _ & _ & Hr2 & _).
  apply res_bind_returns; [apply read_expected_returns, Hr2|]. intros [v3 r3] H3. destruct (read_expected_inv _ _ _ _ _ Hr2 H3) as (c3 & rest3 & -> & _ & Hr3 & _). cbn [content].
  destruct c3 as [|b c3]; [done|]. destruct (decide (b = x00)) as [->|Hne]; [|by destruct b]. apply res_bind_returns; [by eapply finish_returns|]. intros _ _. by apply tbs_returns.
Qed.

(** ** What the parser does *)
Lemma san_items_names (names : list bytes) : Forall dns_name names -> san_items (concat (map (tlv x82) names)) names.
Proof. induction 1 as [|n names Hn Hall IH]; [apply san_nil|]. cbn [map concat]. by apply san_dns. Qed.

Lemma chain_parses (blocks : list (list bytes * bytes)) (infos : list X509CertificateInfo) :
  Forall2 (fun b info => len b.2 <= usize_max /\ certificate_value b.2 info) blocks infos ->
  res_mapM parse_x509_certificate_der (map snd blocks) = Ok infos.
Proof.
  induction 1 as [|b info blocks infos [Hl Hb] H IH]; [done|]. cbn [map res_mapM]. rewrite (proj2 (certificate_iff b.2 info Hl) Hb). cbn [res_bind]. by rewrite IH.
Qed.

(** A UTCTime or GeneralizedTime is read exactly when it is written with all its fields, in UTC, and names
    a second of the Gregorian calendar; two-digit years stand for 1950 to 2049. There is one error, and
    nothing panics. *)
Theorem x509_time_correct (v : DerValue) (t : X509Time) :
  (parse_x509_time v = Ok t <-> calendar_time t /\ time_encoding t v) /\
  match parse_x509_time v with Ok _ => True | Err e => e = InvalidTime | Panic | Fuel => False end.
Proof. split; [apply parse_time_iff|apply parse_time_result]. Qed.

(** The names encoded as a SubjectAltName are the names read back, in their order; any value is accepted
    exactly when it is one sequence of values whose DNS names are valid, and gives these; nothing panics. *)
Theorem subject_alt_name_round_trip (names out : list bytes) (encoded : bytes)
  (Hl : len names <= 1099511627776) (He : len encoded <= usize_max) :
  (names <> [] -> Forall dns_name names -> exists bs, encode_subject_alt_name_dns names = Ok bs /\ parse_x509_subject_alt_name bs = Ok names) /\
  (~ (names <> [] /\ Forall dns_name names) -> encode_subject_alt_name_dns names = Err InvalidDnsName) /\
  returns (parse_x509_subject_alt_name encoded) /\
  (parse_x509_subject_alt_name encoded = Ok out <-> san_value encoded out).
Proof.
  pose proof (len_nonneg names). split_and!.
  - intros Hne Hall. destruct (names_spec names) as [(_ & _ & Hn)|[Hno _]]; [unfold usize_max, u64_max; lia| |by destruct Hno].
    exists (names_encoding names). split; [done|]. pose proof (len_names names Hall). apply san_iff.
    + pose proof (len_tlv_below DER_TAG_SEQUENCE (concat (map (tlv x82) names)) (263 * len names) ltac:(lia) ltac:(lia)) as Hb.
      unfold names_encoding, usize_max, u64_max. lia.
    + eexists. split; [done|]. by apply san_items_names.
  - intros Hno. destruct (names_spec names) as [(? & ? & _)|[_ Hn]]; [unfold usize_max, u64_max; lia|by destruct Hno|done].
  - by apply san_returns.
  - by apply san_iff.
Qed.

(** The SubjectPublicKeyInfo written for a point of P-256 is read back as that point, and only the
    identity has none. A value is accepted exactly when it is an algorithm with at most one parameter and a
    key of whole octets, which has to be a point when the algorithm is that of P-256; nothing panics. *)
Theorem public_key_info_correct (p : P256Point) (v : DerValue) (info : X509PublicKeyInfo) (Hp : valid p) (Hv : len (content v) <= usize_max) :
  match encode_p256_spki_der p with
  | Ok der => exists spki r encoded, read_expected DER_TAG_SEQUENCE (new_reader der) = Ok (spki, r) /\ finish r = Ok tt /\
      to_sec1_uncompressed p = Ok encoded /\ parse_x509_public_key_info spki = Ok (mkPublicKeyInfo OID_EC_PUBLIC_KEY_CONTENT encoded (Some p))
  | Err e => e = InvalidP256PublicKey /\ p = POINT_IDENTITY
  | Panic | Fuel => False
  end /\
  returns (parse_x509_public_key_info v) /\ (parse_x509_public_key_info v = Ok info <-> spki_value (content v) info).
Proof.
  split; [|split; [by apply spki_returns|by apply spki_iff]]. rewrite spki_spec by done. pose proof (to_sec1_valid p Hp) as Hs.
  destruct (to_sec1_uncompressed p) as [encoded|e| |] eqn:Ee; [|done|destruct Hs..]. destruct Hs as [H65 _].
  set (c := algorithm_encoding ++ tlv DER_TAG_BIT_STRING (x00 :: encoded)).
  assert (Hc : len c <= 100).
  { unfold c. rewrite len_app. change (len algorithm_encoding) with 21.
    pose proof (len_tlv_below DER_TAG_BIT_STRING (x00 :: encoded) 66 ltac:(unfold len; cbn [length]; lia) ltac:(lia)). lia. }
  pose proof (len_tlv_below DER_TAG_SEQUENCE c 100 Hc ltac:(lia)) as Hd.
  pose proof (reads_one _ _ (reads_new (tlv DER_TAG_SEQUENCE c) ltac:(unfold usize_max, u64_max; lia))) as Hr.
  destruct (read_expected_reads _ _ _ _ Hr ltac:(low)) as (r & Hx & Hr1). exists (mkDerValue DER_TAG_SEQUENCE c), r, encoded. split; [exact Hx|].
  split; [by rewrite (finish_reads _ _ Hr1)|]. split; [done|]. apply spki_iff; [cbn [content]; unfold usize_max, u64_max; lia|].
  exists (Some (mkDerValue DER_TAG_OBJECT_IDENTIFIER OID_SECP256R1_CONTENT)). cbn [algorithm_oid subject_public_key p256_public_key tag content].
  split; [done|]. split; [low|]. rewrite decide_True by done. exists p. split; [done|]. by apply sec1_round_trip_spec.
Qed.

(** C29: a certificate is accepted exactly when it is DER of the structure of RFC 5280, with valid times, a
    well-formed public key and, in version 3 alone, extensions with at most one SubjectAltName, whose DNS
    names are valid; the validity, the key and these names are what is extracted, and no input makes the
    parser panic. A PEM chain of such certificates, with other lines between them, gives their contents in
    order. *)
Theorem certificate_exact (der : bytes) (info : X509CertificateInfo) (blocks : list (list bytes * bytes)) (infos : list X509CertificateInfo) (tail : list bytes)
  (Hl : len der <= usize_max) (Hne : blocks <> []) (Hj : Forall (fun b => Forall junk_line b.1) blocks) (Ht : Forall junk_line tail)
  (Hb : Forall2 (fun b info => len b.2 <= usize_max /\ certificate_value b.2 info) blocks infos) :
  returns (parse_x509_certificate_der der) /\
  (parse_x509_certificate_der der = Ok info <-> certificate_value der info) /\
  parse_x509_certificate_chain_pem (concat (map block_text blocks) ++ unlines tail) = Ok infos.
Proof.
  split; [by apply certificate_returns|]. split; [by apply certificate_iff|]. unfold parse_x509_certificate_chain_pem.
  rewrite decode_chain_blocks by done. destruct blocks as [|b blocks]; [done|]. cbn [res_bind]. by apply chain_parses.
Qed.

Lemma subject_alt_name_round_trip_witness :
  exists bs, encode_subject_alt_name_dns [str "a.example"; str "*.b"] = Ok bs /\ parse_x509_subject_alt_name bs = Ok [str "a.example"; str "*.b"].
Proof.
  apply (subject_alt_name_round_trip [str "a.example"; str "*.b"] [] []); [vm_compute; discriminate|vm_compute; discriminate|discriminate|].
  repeat (apply Forall_cons; split); try apply Forall_nil; try exact I; apply validate_dns_name_iff; vm_compute; reflexivity.
Defined.

Lemma public_key_info_correct_witness :
  match encode_p256_spki_der (enc_point gen) with
  | Ok der => exists spki r encoded, read_expected DER_TAG_SEQUENCE (new_reader der) = Ok (spki, r) /\ finish r = Ok tt /\
      to_sec1_uncompressed (enc_point gen) = Ok encoded /\
      parse_x509_public_key_info spki = Ok (mkPublicKeyInfo OID_EC_PUBLIC_KEY_CONTENT encoded (Some (enc_point gen)))
  | Err e => e = InvalidP256PublicKey /\ enc_point gen = POINT_IDENTITY
  | Panic | Fuel => False
  end.
Proof.
  apply (public_key_info_correct (enc_point gen) (mkDerValue DER_TAG_SEQUENCE []) (mkPublicKeyInfo [] [] None)); [exists gen; exact (conj eq_refl gen_on_curve)|].
  vm_compute. discriminate.
Defined.

(** A certificate without extensions. *)
Definition example_time : X509Time := mkTime 2024 2 29 12 0 59.
Definition example_info : X509CertificateInfo := mkCertificateInfo (mkValidity example_time example_time) [] (mkPublicKeyInfo [x2a] [x01] None).
Definition example_certificate : bytes :=
  tlv DER_TAG_SEQUENCE
    (tlv DER_TAG_SEQUENCE (tlv DER_TAG_INTEGER [x05] ++ tlv DER_TAG_SEQUENCE [] ++ tlv DER_TAG_SEQUENCE [] ++
       tlv DER_TAG_SEQUENCE (tlv DER_TAG_UTC_TIME (str "240229120059Z") ++ tlv DER_TAG_GENERALIZED_TIME (str "20240229120059Z")) ++
       tlv DER_TAG_SEQUENCE [] ++
       tlv DER_TAG_SEQUENCE (tlv DER_TAG_SEQUENCE (tlv DER_TAG_OBJECT_IDENTIFIER [x2a]) ++ tlv DER_TAG_BIT_STRING [x00; x01])) ++
     tlv DER_TAG_SEQUENCE [] ++ tlv DER_TAG_BIT_STRING [x00; x07]).

Lemma example_value : certificate_value example_certificate example_info.
Proof.
  assert (Hc : calendar_time example_time).
  { split; [exists 29; split; [vm_compute; reflexivity|cbn; lia]|]. split_and!; cbn; lia. }
  exists 0, (tlv DER_TAG_INTEGER [x05]), [], [],
    (tlv DER_TAG_UTC_TIME (str "240229120059Z") ++ tlv DER_TAG_GENERALIZED_TIME (str "20240229120059Z")), [],
    (tlv DER_TAG_SEQUENCE (tlv DER_TAG_OBJECT_IDENTIFIER [x2a]) ++ tlv DER_TAG_BIT_STRING [x00; x01]), [], [], [x07].
  split; [vm_compute; reflexivity|]. split; [exists [x05]; split; [discriminate|left; done]|]. split; [|split; [|apply tail_end]].
  - exists (mkDerValue DER_TAG_UTC_TIME (str "240229120059Z")), (mkDerValue DER_TAG_GENERALIZED_TIME (str "20240229120059Z")).
    split; [reflexivity|]. split; (split; [exact Hc|]); [left|right]; (split; [reflexivity|split; [split; vm_compute; (reflexivity || discriminate)|vm_compute; reflexivity]]).
  - exists None. split; [vm_compute; reflexivity|]. split; [exact I|]. rewrite decide_False; [reflexivity|]. intros [_ H]. discriminate H.
Qed.

Lemma certificate_exact_witness :
  parse_x509_certificate_chain_pem (concat (map block_text [([str "leaf"], example_certificate)]) ++ unlines [str "end"]) = Ok [example_info].
Proof.
  assert (Hl : len example_certificate <= usize_max) by (vm_compute; discriminate).
  assert (Hj : forall l, l = str "leaf" \/ l = str "end" -> junk_line l).
  { intros l Hl'. split; [destruct Hl' as [-> | ->]; repeat (apply Forall_cons; split); try apply Forall_nil; try exact I; reflexivity|].
    by destruct Hl' as [-> | ->]. }
  apply (certificate_exact example_certificate example_info [([str "leaf"], example_certificate)] [example_info] [str "end"] Hl).
  - discriminate.
  - apply Forall_cons. split; [|apply Forall_nil; exact I]. apply Forall_cons. split; [apply Hj; auto|apply Forall_nil; exact I].
  - apply Forall_cons. split; [apply Hj; auto|apply Forall_nil; exact I].
  - apply Forall2_cons. split; [|apply Forall2_nil; exact I]. split; [exact Hl|exact example_value].
Defined.
