(* ===== verification/TlsIdentity.v ===== *)
(** * Certificates and their names: [src/tls_identity.rs]

    A TLS identity is a certificate chain, its key and the DNS names of its leaf. A store holds
    identities whose names are distinct, and selects one for the name that a client asks for. *)
From Stdlib Require Import ZArith Zmod Lia.
From stdpp Require Import gmap prelude.
From S2P Require Import Prelude Bytes NetAddr Config Io Uint256 Primes Curve P256 Ecdsa Der Pem Keys X509.
Local Open Scope Z_scope.
Set Warnings "-clear-no-such-hyp".

Record TlsIdentity : Type := mkIdentity {
  certificate_chain : list bytes;
  signing_key : Scalar;
  identity_dns_names : list bytes
}.

Record TlsIdentityStore : Type := mkStore { identities : list TlsIdentity }.

Definition invalid_data (message : bytes) : io_error := mkIoError InvalidData message.
Definition invalid_input (message : bytes) : io_error := mkIoError InvalidInput message.

(** ** Files *)
(** [fs::read]: what the file system answers for a path. A [Vec] has at most [usize::MAX] bytes. *)
Class Files (FS : Type) : Type := {
  fs_read : FS -> bytes -> res io_error bytes;
  fs_law : forall fs path,
    match fs_read fs path with
    | Ok contents => len contents <= usize_max
    | Err _ => True
    | Panic | Fuel => False
    end
}.

Section files.
Context {FS : Type} `{!Files FS}.

(** [fs::read_to_string] *)
Definition fs_read_to_string (fs : FS) (path : bytes) : res io_error bytes :=
  let? contents := fs_read fs path in
  if utf8_valid contents then Ok contents else Err (invalid_data (str "stream did not contain valid UTF-8")).

Definition der_data {A : Type} (r : res DerError A) : res io_error A := map_err (fun e => invalid_data (der_error_to_string e)) r.

Definition load_pem_files (fs : FS) (certificate_path private_key_path : bytes) : res io_error TlsIdentity :=
  let? certificate_pem := fs_read_to_string fs certificate_path in
  let? certificate_chain := der_data (decode_x509_certificate_chain_pem certificate_pem) in
  let? leaf_certificate := index certificate_chain 0 in
  let? leaf := der_data (parse_x509_certificate_der leaf_certificate) in
  let? rest := slice_from certificate_chain 1 in
  let? _ := res_mapM (fun certificate => der_data (parse_x509_certificate_der certificate)) rest in
  if bool_decide (dns_names leaf = []) then Err (invalid_data (str "TLS leaf certificate contains no DNS subjectAltName identities"))
  else
    let? private_key_pem := fs_read fs private_key_path in
    let? signing_key :=
      if utf8_valid private_key_pem then der_data (decode_p256_sec1_private_key_pem private_key_pem)
      else Err (invalid_data (str "TLS private key PEM is not valid UTF-8")) in
    let? expected_public_key := p256_generator_multiply signing_key in
    if negb (bool_decide (p256_public_key (public_key leaf) = Some expected_public_key)) then
      Err (invalid_data (str "TLS leaf certificate public key does not match the supplied private key"))
    else Ok (mkIdentity certificate_chain signing_key (dns_names leaf)).

(** ** The store *)
(** The names of one identity, inserted into the set of those presented. *)
Definition present_name (presented_names : gset bytes) (dns_name : bytes) : res io_error (gset bytes) :=
  let normalized := lowercase dns_name in
  if decide (normalized ∈ presented_names) then Err (invalid_input (str "multiple TLS identities claim DNS name " ++ normalized))
  else Ok ({[normalized]} ∪ presented_names).

Definition new_store (identities : list TlsIdentity) : res io_error TlsIdentityStore :=
  if bool_decide (identities = []) then Err (invalid_input (str "TLS identity store must contain at least one identity"))
  else
    let? _ := res_foldM (fun presented_names identity => res_foldM present_name presented_names (identity_dns_names identity)) ∅ identities in
    Ok (mkStore identities).

Definition load_files (fs : FS) (identity_files : list TlsIdentityFiles) : res io_error (option TlsIdentityStore) :=
  if bool_decide (identity_files = []) then Ok None
  else
    let? identities := res_mapM (fun files => load_pem_files fs (certificate_path files) (private_key_path files)) identity_files in
    let? store := new_store identities in
    Ok (Some store).

End files.

(** ** Names *)
Definition dns_name_matches (presented_name server_name : bytes) : bool :=
  if bool_decide (server_name = []) || negb (forallb is_ascii server_name) || ends_with (str ".") server_name then false
  else if eq_ignore_ascii_case presented_name server_name then true
  else if starts_with (str "*.") presented_name then
    let suffix := drop 2 presented_name in
    match split_once (str ".") server_name with
    | Some (leftmost_label, server_suffix) => negb (bool_decide (leftmost_label = [])) && eq_ignore_ascii_case server_suffix suffix
    | None => false
    end
  else false.

Definition matches_server_name (i : TlsIdentity) (server_name : bytes) : bool :=
  existsb (fun dns_name => dns_name_matches dns_name server_name) (identity_dns_names i).

Definition matches_server_name_exactly (i : TlsIdentity) (server_name : bytes) : bool :=
  existsb (fun dns_name => negb (starts_with (str "*.") dns_name) && eq_ignore_ascii_case dns_name server_name) (identity_dns_names i).

Definition select (store : TlsIdentityStore) (server_name : bytes) : option TlsIdentity :=
  match List.find (fun i => matches_server_name_exactly i server_name) (identities store) with
  | Some i => Some i
  | None => List.find (fun i => matches_server_name i server_name) (identities store)
  end.

(** ** Which names match *)
Lemma split_dot (l : bytes) :
  match split_once (str ".") l with
  | Some (label, rest) => l = label ++ x2e :: rest /\ x2e ∉ label
  | None => x2e ∉ l
  end.
Proof.
  change (str ".") with [x2e]. induction l as [|b l IH]; [apply not_elem_of_nil|]. destruct (decide (b = x2e)) as [->|Hb].
  - cbn. split; [by rewrite drop_0|apply not_elem_of_nil].
  - rewrite split_once_skip by done. destruct (split_once [x2e] l) as [[label rest]|].
    + destruct IH as [-> Hn]. split; [done|]. apply not_elem_of_cons. split; [congruence|done].
    + apply not_elem_of_cons. split; [congruence|done].
Qed.

Lemma split_dot_app (label rest : bytes) : x2e ∉ label -> split_once (str ".") (label ++ x2e :: rest) = Some (label, rest).
Proof.
  change (str ".") with [x2e]. induction label as [|b label IH]; intros Hn; [cbn; by rewrite drop_0|]. apply not_elem_of_cons in Hn as [Hb Hn].
  cbn [app]. rewrite split_once_skip by congruence. by rewrite (IH Hn).
Qed.

Lemma lower_star (b : byte) : to_ascii_lowercase b = x2a -> b = x2a.
Proof. byte_cases b. Qed.
Lemma lower_dot (b : byte) : to_ascii_lowercase b = x2e -> b = x2e.
Proof. byte_cases b. Qed.

(** Case does not change the mark of a wildcard. *)
Lemma lowercase_wildcard (p rest : bytes) : lowercase p = str "*." ++ lowercase rest <-> exists suffix, p = str "*." ++ suffix /\ lowercase suffix = lowercase rest.
Proof.
  change (str "*.") with [x2a; x2e]. split; [|by intros (suffix & -> & <-)]. destruct p as [|a [|b suffix]]; [done|done|]. cbn [lowercase map app]. intros [= Ha Hb Hs].
  apply lower_star in Ha as ->. apply lower_dot in Hb as ->. by exists suffix.
Qed.

(** A name that can be asked for: ASCII, and without a final dot. *)
Definition servable (server_name : bytes) : Prop :=
  server_name <> [] /\ forallb is_ascii server_name = true /\ ends_with (str ".") server_name = false.

(** A wildcard stands for exactly one leftmost label. *)
Definition wildcard_for (presented server_name : bytes) : Prop :=
  exists label rest, server_name = label ++ x2e :: rest /\ label <> [] /\ x2e ∉ label /\ lowercase presented = str "*." ++ lowercase rest.

Lemma dns_name_matches_iff (p s : bytes) : dns_name_matches p s = true <-> servable s /\ (lowercase p = lowercase s \/ wildcard_for p s).
Proof.
  unfold dns_name_matches, servable. destruct (bool_decide_reflect (s = [])) as [->|Hs]; [cbn; split; [done|naive_solver]|]. cbn [orb].
  destruct (forallb is_ascii s); cbn [negb orb]; [|split; [done|naive_solver]]. destruct (ends_with (str ".") s); [split; [done|naive_solver]|].
  destruct (eq_ignore_ascii_case p s) eqn:Ee; [apply eq_ignore_ascii_case_true in Ee; by split; [split; [|left]|]|].
  assert (Hne : lowercase p <> lowercase s) by (intros E; apply eq_ignore_ascii_case_true in E; congruence).
  enough (Hw : (if starts_with (str "*.") p then match split_once (str ".") s with
     | Some (l, r) => negb (bool_decide (l = [])) && eq_ignore_ascii_case r (drop 2 p) | None => false end else false) = true <-> wildcard_for p s) by (rewrite Hw; naive_solver).
  unfold wildcard_for. split.
  - destruct (starts_with (str "*.") p) eqn:Ew; [|done]. apply starts_with_true in Ew as (suffix & ->). pose proof (split_dot s) as Hd.
    destruct (split_once (str ".") s) as [[l r]|]; [|done]. destruct Hd as [-> Hn]. rewrite andb_true_iff, negb_true_iff, bool_decide_eq_false, eq_ignore_ascii_case_true.
    intros [Hl Hr]. exists l, r. split_and!; try done. apply lowercase_wildcard. by exists suffix.
  - intros (l & r & -> & Hl & Hn & Hp). apply lowercase_wildcard in Hp as (suffix & -> & Hsuf). rewrite (proj2 (starts_with_true _ _)) by by eexists.
    rewrite split_dot_app by done. apply andb_true_iff. split; [by apply negb_true_iff, bool_decide_eq_false|]. by apply eq_ignore_ascii_case_true.
Qed.

(** What an identity presents: the name itself, or a name or wildcard that matches it. *)
Definition presents (i : TlsIdentity) (server_name : bytes) : Prop :=
  exists n, n ∈ identity_dns_names i /\ starts_with (str "*.") n = false /\ lowercase n = lowercase server_name.
Definition covers (i : TlsIdentity) (server_name : bytes) : Prop :=
  servable server_name /\ exists n, n ∈ identity_dns_names i /\ (lowercase n = lowercase server_name \/ wildcard_for n server_name).

Lemma existsb_elem {A : Type} (f : A -> bool) (l : list A) : existsb f l = true <-> exists a, a ∈ l /\ f a = true.
Proof. rewrite existsb_exists. by setoid_rewrite <- list_elem_of_In. Qed.

Lemma matches_exactly_iff (i : TlsIdentity) (s : bytes) : matches_server_name_exactly i s = true <-> presents i s.
Proof.
  unfold matches_server_name_exactly, presents. rewrite existsb_elem. setoid_rewrite andb_true_iff. setoid_rewrite negb_true_iff. by setoid_rewrite eq_ignore_ascii_case_true.
Qed.
Lemma matches_iff (i : TlsIdentity) (s : bytes) : matches_server_name i s = true <-> covers i s.
Proof. unfold matches_server_name, covers. rewrite existsb_elem. setoid_rewrite dns_name_matches_iff. naive_solver. Qed.

(** ** The store *)
Definition presented_names (ids : list TlsIdentity) : list bytes := concat (map (fun i => map lowercase (identity_dns_names i)) ids).

Record store_ok (store : TlsIdentityStore) : Prop := {
  store_nonempty : identities store <> [];
  store_distinct : NoDup (presented_names (identities store))
}.

Lemma fold_concat {E A B S : Type} (f : S -> B -> res E S) (g : A -> list B) (s : S) (l : list A) :
  res_foldM (fun s a => res_foldM f s (g a)) s l = res_foldM f s (concat (map g l)).
Proof.
  revert s. induction l as [|a l IH]; intros s; [done|]. cbn [res_foldM map concat]. rewrite res_foldM_app.
  destruct (res_foldM f s (g a)); cbn [res_bind]; [apply IH|done..].
Qed.

(** Names are inserted as long as they are new. *)
Lemma present_names (seen : gset bytes) (names : list bytes) :
  match res_foldM present_name seen names with
  | Ok _ => NoDup (map lowercase names) /\ Forall (fun n => lowercase n ∉ seen) names
  | Err e => kind e = InvalidInput /\ ~ (NoDup (map lowercase names) /\ Forall (fun n => lowercase n ∉ seen) names)
  | Panic | Fuel => False
  end.
Proof.
  revert seen. induction names as [|n names IH]; intros seen; cbn [res_foldM map]; [split; [apply NoDup_nil_2|by apply Forall_nil]|].
  unfold present_name at 1. case_decide as Hn; cbn [res_bind]; [split; [done|]; intros [_ H]; by apply Forall_cons in H as [H _]|].
  specialize (IH ({[lowercase n]} ∪ seen)).
  assert (Hiff : (NoDup (map lowercase names) /\ Forall (fun m => lowercase m ∉ ({[lowercase n]} ∪ seen : gset bytes)) names) <->
    (NoDup (lowercase n :: map lowercase names) /\ Forall (fun m => lowercase m ∉ seen) (n :: names))).
  { rewrite NoDup_cons, Forall_cons. setoid_rewrite not_elem_of_union. setoid_rewrite not_elem_of_singleton. rewrite !Forall_forall. rewrite list_elem_of_fmap. naive_solver. }
  destruct (res_foldM present_name _ names); [by apply Hiff|destruct IH as [Hk IH]; split; [done|]; by rewrite <- Hiff|done|done].
Qed.

Lemma new_store_spec (ids : list TlsIdentity) :
  match new_store ids with
  | Ok store => identities store = ids /\ store_ok store
  | Err e => kind e = InvalidInput /\ (ids = [] \/ ~ NoDup (presented_names ids))
  | Panic | Fuel => False
  end.
Proof.
  unfold new_store. case_bool_decide as Hne; [by split; [|left]|]. rewrite (fold_concat present_name identity_dns_names).
  assert (Hp : presented_names ids = map lowercase (concat (map identity_dns_names ids))) by (unfold presented_names; by rewrite concat_map, map_map).
  pose proof (present_names ∅ (concat (map identity_dns_names ids))) as H. rewrite <- Hp in H.
  destruct (res_foldM present_name ∅ _); cbn [res_bind]; [by destruct H| |done|done].
  destruct H as [Hk H]. split; [done|]. right. intros Hnd. apply H. split; [done|]. apply Forall_true. intros n. apply not_elem_of_empty.
Qed.

(** Two identities with a name in common are one. *)
Lemma owner_unique {A B : Type} (f : A -> list B) (l : list A) (i j : A) (x : B) : NoDup (concat (map f l)) ->
  i ∈ l -> j ∈ l -> x ∈ f i -> x ∈ f j -> i = j.
Proof.
  induction l as [|a l IH]; cbn [map concat]; intros Hnd Hi Hj Hx Hy; [by apply elem_of_nil in Hi|].
  apply NoDup_app in Hnd as (_ & Hd & Hnd).
  assert (Hin : forall k, k ∈ l -> x ∈ f k -> x ∈ concat (map f l)) by (intros k Hk Hxk; apply list_elem_of_In, in_concat; exists (f k); split; apply list_elem_of_In; [by apply list_elem_of_fmap_2|done]).
  apply elem_of_cons in Hi as [->|Hi], Hj as [->|Hj]; [done|exfalso; eapply Hd; [exact Hx|by eapply Hin]|exfalso; eapply Hd; [exact Hy|by eapply Hin]|by apply IH].
Qed.

Lemma find_unique {A : Type} (f : A -> bool) (l : list A) (a : A) : (forall i j, i ∈ l -> j ∈ l -> f i = true -> f j = true -> i = j) ->
  List.find f l = Some a <-> a ∈ l /\ f a = true.
Proof.
  intros Hu. split; [intros [? ?]%find_some; by rewrite list_elem_of_In|]. intros [Ha Hf].
  destruct (List.find f l) as [b|] eqn:Eb; [|by rewrite (find_none _ _ Eb a) in Hf; [|rewrite <- list_elem_of_In]].
  apply find_some in Eb as [Hb Hfb]. f_equal. apply Hu; try done. by rewrite list_elem_of_In.
Qed.

(** The name that an identity must have to cover [s] without presenting it. *)
Definition covering_name (s : bytes) : bytes :=
  match split_once (str ".") s with Some (_, rest) => str "*." ++ lowercase rest | None => lowercase s end.

Lemma covers_name (i : TlsIdentity) (s : bytes) : ~ presents i s -> covers i s -> covering_name s ∈ map lowercase (identity_dns_names i).
Proof.
  intros Hno [_ (n & Hn & Hm)]. enough (covering_name s = lowercase n) as -> by by apply list_elem_of_fmap_2. unfold covering_name. destruct Hm as [Hm|(l & r & -> & _ & Hl & Hm)].
  - destruct (starts_with (str "*.") n) eqn:Ew; [|exfalso; apply Hno; by exists n]. apply starts_with_true in Ew as (suffix & ->).
    symmetry in Hm. rewrite lowercase_app in Hm. change (lowercase (str "*.")) with (str "*.") in Hm. apply lowercase_wildcard in Hm as (r & -> & Hr).
    change (str "*." ++ r) with ([x2a] ++ x2e :: r). rewrite split_dot_app by (by vm_compute; intros ?%list_elem_of_singleton).
    by rewrite lowercase_app, Hr.
  - by rewrite split_dot_app.
Qed.

Lemma select_iff (store : TlsIdentityStore) (s : bytes) (i : TlsIdentity) : store_ok store ->
  select store s = Some i <-> i ∈ identities store /\ (presents i s \/ (Forall (fun j => ~ presents j s) (identities store) /\ covers i s)).
Proof.
  intros [_ Hnd]. unfold select. assert (Hex : forall j, List.find (fun i => matches_server_name_exactly i s) (identities store) = Some j <-> j ∈ identities store /\ presents j s).
  { intros j. rewrite find_unique, matches_exactly_iff; [done|]. intros a b Ha Hb (n & Hn & _ & En)%matches_exactly_iff (m & Hm & _ & Em)%matches_exactly_iff.
    apply (owner_unique _ _ a b (lowercase s) Hnd); [done..| |]; cbv beta; [rewrite <- En|rewrite <- Em]; by apply list_elem_of_fmap_2. }
  destruct (List.find (fun i => matches_server_name_exactly i s) (identities store)) as [j|] eqn:Ej.
  - destruct (proj1 (Hex j) eq_refl) as [Hj Hp]. split.
    + intros [= <-]. by split; [|left].
    + intros [Hi [Hpi|[Hno _]]]; [by apply Hex|]. rewrite Forall_forall in Hno. by destruct (Hno j Hj).
  - assert (Hno : Forall (fun j => ~ presents j s) (identities store)) by (apply Forall_forall; intros j Hj Hp; by pose proof (proj2 (Hex j) (conj Hj Hp))).
    rewrite find_unique, matches_iff.
    + split; [intros [Hi Hc]; split; [done|by right]|]. intros [Hi [Hp|[_ Hc]]]; [|done]. rewrite Forall_forall in Hno. by destruct (Hno i Hi).
    + rewrite Forall_forall in Hno. intros a b Ha Hb Hca%matches_iff Hcb%matches_iff. apply (owner_unique _ _ a b (covering_name s) Hnd); try done; apply covers_name; auto.
Qed.

(** ** Loading *)
Lemma extension_names_valid (names : list bytes) (seen : bool) (items : bytes) (out : list bytes) : Forall dns_name names -> extension_items names seen items out -> Forall dns_name out.
Proof.
  intros Hn He. induction He as [| |names critical value found rest out _ (items & -> & Hs) _ IH]; auto. apply IH. clear -Hs. induction Hs; [by apply Forall_nil|done|by apply Forall_cons].
Qed.

Lemma certificate_names_valid (der : bytes) (info : X509CertificateInfo) : certificate_value der info -> Forall dns_name (dns_names info).
Proof.
  intros (version & serial & algorithm & issuer & times & subject & spki & options & outer & sig & _ & _ & _ & _ & Ht).
  assert (H : Forall dns_name []) by by apply Forall_nil. revert H Ht. generalize (@nil bytes) as names. generalize false as seen. intros seen names Hn Ht.
  induction Ht as [| |names c found rest out _ (items & -> & He) _ IH]; auto. apply IH. by eapply extension_names_valid; [|exact He].
Qed.

(** What an identity is: certificates that can be read, the valid names of the leaf, and the key of the leaf. *)
Record identity_valid (i : TlsIdentity) : Prop := {
  identity_chain : exists leaf issuers, Forall2 certificate_value (certificate_chain i) (leaf :: issuers) /\ identity_dns_names i = dns_names leaf /\
    p256_public_key (public_key leaf) = Some (enc_point (multiple _ (value (signing_key i)) gen));
  identity_names : identity_dns_names i <> [] /\ Forall dns_name (identity_dns_names i);
  identity_key : exists d : Fn, d <> Zmod.zero /\ signing_key i = encs d
}.

Section loading.
Context {FS : Type} `{!Files FS}.
Implicit Types (fs : FS).

Lemma der_data_returns {A : Type} (r : res DerError A) : returns r -> returns (der_data r).
Proof. by destruct r. Qed.

Lemma der_data_Ok {A : Type} (r : res DerError A) (a : A) : der_data r = Ok a <-> r = Ok a.
Proof. unfold der_data. destruct r; cbn [map_err]; split; intros H; try done; apply Ok_inj in H; by subst. Qed.

Lemma key_read (text : bytes) : len text <= usize_max ->
  match der_data (decode_p256_sec1_private_key_pem text) with
  | Ok k => exists d : Fn, d <> Zmod.zero /\ k = encs d
  | Err _ => True
  | Panic | Fuel => False
  end.
Proof.
  intros Hl. unfold der_data, decode_p256_sec1_private_key_pem. pose proof (pem_decode_returns (str "EC PRIVATE KEY") text) as Hr.
  destruct (pem_decode _ text) as [der|e| |] eqn:Ed; cbn [res_bind map_err]; try done. apply length_pem_decode in Ed.
  assert (Hd : len der <= usize_max) by (unfold len in *; lia). pose proof (private_key_returns der Hd) as Hk.
  destruct (decode_p256_sec1_private_key_der der) as [k|e| |] eqn:Ek; cbn [map_err]; try done. apply private_key_decodes in Ek as (d & tail & Hne & -> & _); [|done]. by exists d.
Qed.

Lemma load_pem_files_spec (fs : FS) (certificate_path private_key_path : bytes) :
  match load_pem_files fs certificate_path private_key_path with
  | Ok i => identity_valid i
  | Err _ => True
  | Panic | Fuel => False
  end.
Proof.
  unfold load_pem_files, fs_read_to_string. pose proof (fs_law fs certificate_path) as Hc. destruct (fs_read fs certificate_path) as [text|e| |]; try done. cbn [res_bind].
  destruct (utf8_valid text); [|done]. cbn [res_bind]. pose proof (decode_chain_returns text) as Hr. destruct (decode_x509_certificate_chain_pem text) as [chain|e| |] eqn:Ech; try done. cbn [der_data map_err res_bind].
  apply length_decode_chain in Ech as [Hne Hlen]. destruct chain as [|c chain]; [done|]. rewrite (index_Ok (c :: chain) 0 c) by done. cbn [res_bind].
  assert (Hlens : Forall (fun c => len c <= usize_max) (c :: chain)) by (eapply Forall_impl; [exact Hlen|]; unfold len in *; intros x Hx; cbv beta in Hx; lia). clear Hlen.
  apply Forall_cons in Hlens as [Hlc Hls]. pose proof (certificate_returns c Hlc) as Hrc. destruct (parse_x509_certificate_der c) as [leaf|e| |] eqn:Eleaf; try done. cbn [der_data map_err res_bind].
  change (slice_from (c :: chain) 1) with (Ok chain : res io_error _). cbn [res_bind].
  assert (Hm : returns (res_mapM (fun certificate => der_data (parse_x509_certificate_der certificate)) chain)).
  { apply res_mapM_returns. intros x Hx. apply der_data_returns, certificate_returns. rewrite Forall_forall in Hls. by apply Hls. }
  destruct (res_mapM _ chain) as [infos|e| |] eqn:Em; try done. cbn [res_bind]. case_bool_decide as Hnames; [done|].
  pose proof (fs_law fs private_key_path) as Hk. destruct (fs_read fs private_key_path) as [pem|e| |]; try done. cbn [res_bind]. destruct (utf8_valid pem); [|done].
  pose proof (key_read pem Hk) as Hkey. destruct (der_data (decode_p256_sec1_private_key_pem pem)) as [k|e| |]; try done. cbn [res_bind]. destruct Hkey as (d & Hd & ->).
  destruct (generator_multiply_valid (E := io_error) d) as (p & -> & _ & ->). cbn [res_bind]. case_bool_decide as Hpub; [|done]. cbn [negb].
  apply certificate_iff in Eleaf; [|done]. pose proof (certificate_names_valid c leaf Eleaf) as Hvalid.
  split; cbn [certificate_chain identity_dns_names signing_key]; [|done|by exists d].
  exists leaf, infos. rewrite value_encs. split_and!; [|done|done]. apply Forall2_cons. split; [done|]. apply res_mapM_Ok in Em. clear -Em Hls.
  induction Em as [|x y l k Hxy _ IH]; [by apply Forall2_nil|]. apply Forall_cons in Hls as [Hx Hls]. apply Forall2_cons. split; [|by apply IH].
  apply der_data_Ok in Hxy. by apply certificate_iff.
Qed.

Lemma load_all (fs : FS) (files : list TlsIdentityFiles) :
  (exists ids, Forall2 (fun f i => load_pem_files fs (certificate_path f) (private_key_path f) = Ok i) files ids /\
     res_mapM (fun f => load_pem_files fs (certificate_path f) (private_key_path f)) files = Ok ids) \/
  (exists e f, f ∈ files /\ load_pem_files fs (certificate_path f) (private_key_path f) = Err e /\
     res_mapM (fun f => load_pem_files fs (certificate_path f) (private_key_path f)) files = Err e).
Proof.
  induction files as [|f files IH]; [left; exists []; split; [by apply Forall2_nil|done]|]. cbn [res_mapM].
  pose proof (load_pem_files_spec fs (certificate_path f) (private_key_path f)) as Hf. destruct (load_pem_files fs _ _) as [i|e| |] eqn:E; cbn [res_bind]; try done.
  - destruct IH as [(ids & Hids & ->)|(e & g & Hg & He & ->)]; cbn [res_bind]; [left; exists (i :: ids); split; [by apply Forall2_cons|done]|].
    right. exists e, g. split_and!; [by apply elem_of_cons; right|done|done].
  - right. exists e, f. split_and!; [by apply elem_of_cons; left|done|done].
Qed.

Lemma loaded_ok (fs : FS) (files : list TlsIdentityFiles) (ids : list TlsIdentity) :
  Forall2 (fun f i => load_pem_files fs (certificate_path f) (private_key_path f) = Ok i) files ids ->
  Forall2 (fun f i => load_pem_files fs (certificate_path f) (private_key_path f) = Ok i /\ identity_valid i) files ids.
Proof.
  intros H. eapply Forall2_impl; [exact H|]. intros f i E. split; [done|]. pose proof (load_pem_files_spec fs (certificate_path f) (private_key_path f)) as Hs. by rewrite E in Hs.
Qed.

Lemma load_files_spec (fs : FS) (files : list TlsIdentityFiles) :
  match load_files fs files with
  | Ok o => forall store, o = Some store -> store_ok store /\ Forall identity_valid (identities store)
  | Err _ => True
  | Panic | Fuel => False
  end.
Proof.
  unfold load_files. case_bool_decide; [done|]. destruct (load_all fs files) as [(ids & Hids & ->)|(e & f & _ & _ & ->)]; cbn [res_bind]; [|done].
  pose proof (new_store_spec ids) as Hs. destruct (new_store ids) as [store|e| |]; cbn [res_bind]; try done. destruct Hs as [<- Hok]. intros st [= <-]. split; [done|].
  apply loaded_ok in Hids. clear -Hids. induction Hids as [|f i fs' is' [_ Hi] _ IH]; [by apply Forall_nil|by apply Forall_cons].
Qed.

(** C39: loading the identities that the configuration names never panics. A store that is loaded has an identity per pair of
    files, each a chain of valid certificates with DNS names and the key of its leaf, and no name twice; for a
    name asked for it selects the identity that presents it, or else the one whose wildcard stands for its leftmost
    label, and no other. Loading fails only when a file is refused, or when two identities claim a name. *)
Theorem identity_store_correct (fs : FS) (files : list TlsIdentityFiles) :
  match load_files fs files with
  | Ok None => files = []
  | Ok (Some store) =>
      Forall2 (fun f i => load_pem_files fs (certificate_path f) (private_key_path f) = Ok i /\ identity_valid i) files (identities store) /\ store_ok store /\
      forall s i, select store s = Some i <->
        i ∈ identities store /\ (presents i s \/ (Forall (fun j => ~ presents j s) (identities store) /\ covers i s))
  | Err e => (exists f, f ∈ files /\ load_pem_files fs (certificate_path f) (private_key_path f) = Err e) \/
      (exists ids, Forall2 (fun f i => load_pem_files fs (certificate_path f) (private_key_path f) = Ok i) files ids /\ ~ NoDup (presented_names ids) /\ kind e = InvalidInput)
  | Panic | Fuel => False
  end.
Proof.
  unfold load_files. case_bool_decide as Hne; [done|].
  destruct (load_all fs files) as [(ids & Hids & ->)|(e & f & Hf & He & ->)]; cbn [res_bind]; [|by left; exists f].
  pose proof (new_store_spec ids) as Hs. destruct (new_store ids) as [store|e| |]; cbn [res_bind]; try done.
  - destruct Hs as [<- Hok]. split_and!; [exact (loaded_ok fs files _ Hids)|done|]. intros s i. by apply select_iff.
  - right. exists ids. destruct Hs as [Hk [->|Hnd]]; [|done]. by apply Forall2_nil_inv_r in Hids.
Qed.
End loading.

(** A file system without files, and names that a store selects by. *)
#[export, refine] Instance no_files : Files unit := { fs_read _ _ := Err (mkIoError Other (str "No such file or directory (os error 2)")) }.
Proof. done. Defined.

Definition named (names : list bytes) : TlsIdentity := mkIdentity [] [] names.
Definition example_store : res io_error TlsIdentityStore :=
  new_store [named [str "example.com"; str "*.example.com"]; named [str "WWW.example.com"]].

Example example_selection :
  (let? store := example_store in Ok (map (fun s => option_map (fun i => length (identity_dns_names i)) (select store s))
     [str "www.example.com"; str "API.Example.Com"; str "example.com"; str "a.b.example.com"; str "example.org"])) =
  Ok [Some 1%nat; Some 2%nat; Some 2%nat; None; None].
Proof. vm_compute. reflexivity. Qed.
