(* ===== verification/Runtime.v ===== *)
(** * The server's main loop: [src/server.rs]

    Reloading the configuration, admitting connections up to the limit, and collecting the threads that
    serve them. The threads are interleaved with the loop: a turn of the loop comes with the workers that
    finish at each of its points, and with what the operating system answers to its calls. *)
From Stdlib Require Import ZArith Lia.
From stdpp Require Import gmap prelude.
From S2P Require Import Prelude Bytes NetAddr Http Config Io ProxyHead ProxyBody ProxySession Tunnel Server TlsIdentity.
Local Open Scope Z_scope.
Set Warnings "-clear-no-such-hyp".

Section runtime.
(** [L] is a bound listener, [R] and [W] the two directions of an accepted socket. *)
Context {FS L R W : Type} `{!Files FS} `{!Read R} `{!Write W}.

(** ** Reloading the configuration *)
(** What the loop serves with. *)
Record Runtime : Type := mkRuntime {
  configuration : Config;
  https_listener : option L;
  tls_identities : option TlsIdentityStore
}.

(** What the operating system answers at one time. *)
Record System : Type := mkSystem {
  file_system : FS;
  bind : bytes -> res io_error L;
  set_nonblocking : L -> res io_error unit
}.

Definition is_some {A : Type} (o : option A) : bool := match o with Some _ => true | None => false end.

(** The listener to put in place, when there is to be another one. *)
Definition replacement_https_listener (os : System) (rt : Runtime) (replacement : Config) (identities : option TlsIdentityStore) : res io_error (option L) :=
  let https_listener_changed :=
    is_some identities &&
    (negb (is_some (https_listener rt)) || negb (bytes_eqb (https_listen_addr (configuration rt)) (https_listen_addr replacement))) in
  if https_listener_changed then
    let? listener := bind os (https_listen_addr replacement) in
    let? _ := set_nonblocking os listener in
    Ok (Some listener)
  else Ok None.

Definition reload_runtime_configuration (os : System) (config_path : bytes) : io Runtime Empty_set bool :=
  fun rt =>
    let attempt : res unit Runtime :=
      let? (replacement, tls_identity_files) :=
        map_err (fun _ => tt) (load_with_tls (fun path => map_err message (fs_read_to_string (file_system os) path)) config_path) in
      let? replacement_tls_identities := map_err (fun _ => tt) (load_files (file_system os) tls_identity_files) in
      let? listener := map_err (fun _ => tt) (replacement_https_listener os rt replacement replacement_tls_identities) in
      Ok (mkRuntime replacement
            (match replacement_tls_identities, listener with
             | None, _ => None
             | Some _, Some listener => Some listener
             | Some _, None => https_listener rt
             end)
            replacement_tls_identities) in
    match attempt with
    | Ok rt' => (Ok true, rt')
    | Err _ => (Ok false, rt)
    | Panic => (Panic, rt)
    | Fuel => (Fuel, rt)
    end.

(** ** Threads *)
(** A worker and whether it has still to subtract itself from the active connections. *)
Record WorkerThread : Type := mkThread { worker_id : nat; running : bool }.

Record Serving : Type := mkServing {
  runtime : Runtime;
  active_connections : Z;
  workers : list WorkerThread;
  spawned : nat
}.

Definition set_active (s : Serving) (n : Z) : Serving := mkServing (runtime s) n (workers s) (spawned s).
Definition set_workers (s : Serving) (ws : list WorkerThread) : Serving := mkServing (runtime s) (active_connections s) ws (spawned s).
Definition set_runtime (s : Serving) (rt : Runtime) : Serving := mkServing rt (active_connections s) (workers s) (spawned s).

(** The end of a worker: [fetch_sub(1) - 1], which panics below zero. *)
Definition finish_worker {E : Type} (id : nat) : io Serving E unit :=
  fun s =>
    if existsb (fun w => running w && (worker_id w =? id)%nat) (workers s) then
      if active_connections s =? 0 then (Panic, s)
      else (Ok tt, mkServing (runtime s) (active_connections s - 1)
                     (map (fun w => if (worker_id w =? id)%nat then mkThread id false else w) (workers s)) (spawned s))
    else (Ok tt, s).

Fixpoint finish_workers {E : Type} (ids : list nat) : io Serving E unit :=
  match ids with
  | [] => io_ret tt
  | id :: ids' => let! _ := finish_worker id in finish_workers ids'
  end.

(** [reap_finished_workers]: [exited] says which threads have come to their end. *)
Definition is_finished (exited : nat -> bool) (w : WorkerThread) : bool := negb (running w) && exited (worker_id w).

Definition swap_remove {A : Type} (i : nat) (l : list A) : list A :=
  match list.last l with
  | Some a => if (i =? length l - 1)%nat then removelast l else <[i := a]> (removelast l)
  | None => l
  end.

Fixpoint position {A : Type} (p : A -> bool) (l : list A) : option nat :=
  match l with
  | [] => None
  | a :: l' => if p a then Some O else option_map S (position p l')
  end.

Fixpoint reap_loop (fuel : nat) (exited : nat -> bool) (ws : list WorkerThread) : res Empty_set (list WorkerThread) :=
  match fuel with
  | O => Fuel
  | S fuel' =>
      match position (is_finished exited) ws with
      | Some index => reap_loop fuel' exited (swap_remove index ws)
      | None => Ok ws
      end
  end.

(** Every round takes a worker away. *)
Definition reap_finished_workers (exited : nat -> bool) (ws : list WorkerThread) : res Empty_set (list WorkerThread) := reap_loop (S (length ws)) exited ws.

(** ** Admission *)
(** What became of an accepted connection. *)
Inductive Accepted : Type :=
| Spawned (id : nat)
| Refused (stream : R * W) (answered : res io_error unit)
| ShutDown.

(** The part after the limit was checked; [between] finish before the counter is raised. *)
Definition spawn_worker (between : list nat) : io Serving io_error Accepted :=
  let! _ := finish_workers between in
  fun s =>
    let previous := active_connections s in
    if usize_max <? previous + 1 then (Panic, s)
    else (Ok (Spawned (spawned s)), mkServing (runtime s) (previous + 1) (workers s ++ [mkThread (spawned s) true]) (S (spawned s))).

Definition accept_and_spawn (accepted : res io_error (R * W)) (between : list nat) : io Serving io_error Accepted :=
  let! stream := io_lift accepted in
  fun s =>
    if max_connections (configuration (runtime s)) <=? active_connections s then
      let '(answered, stream) := write_text_response ServiceUnavailable (str "Service Unavailable" ++ [LF]) stream in
      match answered with
      | Panic => (Panic, s)
      | Fuel => (Fuel, s)
      | _ => (Ok (Refused stream answered), s)
      end
    else spawn_worker between s.

Definition accept_tls_and_spawn (accepted : res io_error (R * W)) (between : list nat) : io Serving io_error Accepted :=
  let! _ := io_lift accepted in
  fun s =>
    if max_connections (configuration (runtime s)) <=? active_connections s then (Ok ShutDown, s)
    else spawn_worker between s.

(** ** The loop *)
(** One turn: the flags, the system's answers, and the workers that finish, by the point of the turn at which they do:
    before each listener is asked, between a check of the limit and its use, and before the threads are collected. *)
Record Turn : Type := mkTurn {
  shutdown_requested : bool;
  reload_requested : bool;
  system : System;
  http_accepted : res io_error (R * W);
  https_accepted : res io_error (R * W);
  finishing : nat -> list nat;
  exited : nat -> bool
}.

Definition would_block_ok (m : io Serving io_error Accepted) : io Serving io_error (option Accepted) :=
  fun s =>
    match m s with
    | (Ok a, s') => (Ok (Some a), s')
    | (Err e, s') => if decide (kind e = WouldBlock) then (Ok None, s') else (Err e, s')
    | (Panic, s') => (Panic, s')
    | (Fuel, s') => (Fuel, s')
    end.

Definition reload_turn (config_path : option bytes) (t : Turn) : io Serving io_error unit :=
  fun s =>
    if reload_requested t then
      match config_path with
      | Some path =>
          let '(reloaded, rt) := reload_runtime_configuration (system t) path (runtime s) in
          (match reloaded with Ok _ => Ok tt | Err e => match e with end | Panic => Panic | Fuel => Fuel end, set_runtime s rt)
      | None => (Ok tt, s)
      end
    else (Ok tt, s).

Definition https_turn (t : Turn) : io Serving io_error (option Accepted) :=
  fun s =>
    match https_listener (runtime s), tls_identities (runtime s) with
    | Some _, Some _ => would_block_ok (accept_tls_and_spawn (https_accepted t) (finishing t 3)) s
    | _, _ => (Ok None, s)
    end.

Definition reap_turn (t : Turn) : io Serving io_error unit :=
  fun s =>
    match reap_finished_workers (exited t) (workers s) with
    | Ok ws => (Ok tt, set_workers s ws)
    | Err e => match e with end
    | Panic => (Panic, s)
    | Fuel => (Fuel, s)
    end.

Definition serve_turn (config_path : option bytes) (t : Turn) : io Serving io_error (option Accepted * option Accepted) :=
  let! _ := reload_turn config_path t in
  let! _ := finish_workers (finishing t 0) in
  let! http := would_block_ok (accept_and_spawn (http_accepted t) (finishing t 1)) in
  let! _ := finish_workers (finishing t 2) in
  let! https := https_turn t in
  let! _ := finish_workers (finishing t 4) in
  let! _ := reap_turn t in
  io_ret (http, https).

(** After the last turn: what has ended is collected, and the join of each worker that is left waits for its end. *)
Definition drain (t : Turn) : io Serving io_error unit :=
  let! _ := finish_workers (finishing t 0) in
  let! _ := reap_turn t in
  let! running_ids := gets (fun s => map worker_id (workers s)) in
  let! _ := finish_workers running_ids in
  modify (fun s => set_workers s []).

(** The turns up to the one that finds the shutdown requested; [None] is a loop that goes on when the turns are
    used up. *)
Fixpoint serve_loop (config_path : option bytes) (turns : list Turn) : io Serving io_error (option (list (option Accepted * option Accepted))) :=
  match turns with
  | [] => io_ret None
  | t :: turns' =>
      if shutdown_requested t then
        let! _ := drain t in
        io_ret (Some [])
      else
        let! accepted := serve_turn config_path t in
        let! rest := serve_loop config_path turns' in
        io_ret (option_map (cons accepted) rest)
  end.

Definition serve_until_with_tls (rt : Runtime) (config_path : option bytes) (os : System) (listener : L) (local_addr : L -> res io_error unit)
    (turns : list Turn) : res io_error (option (list (option Accepted * option Accepted))) * Serving :=
  let s := mkServing rt 0 [] 0 in
  if xorb (is_some (https_listener rt)) (is_some (tls_identities rt)) then
    (Err (mkIoError InvalidInput (str "HTTPS listener and TLS identity store must either both be present or both be absent")), s)
  else
    (let! _ := io_lift (set_nonblocking os listener) in
     let! _ := io_lift (match https_listener rt with
                        | Some https_listener => let? _ := set_nonblocking os https_listener in local_addr https_listener
                        | None => Ok tt
                        end) in
     serve_loop config_path turns) s.

End runtime.

(** ** Collecting threads *)
Lemma swap_remove_perm {A : Type} (i : nat) (l : list A) (a : A) : l !! i = Some a -> l ≡ₚ a :: swap_remove i l.
Proof.
  intros Hi. destruct l as [|b k _] using rev_ind; [done|]. unfold swap_remove. rewrite last_snoc, removelast_last, length_app. cbn [length].
  destruct (Nat.eqb_spec i (length k + 1 - 1)) as [->|Hne].
  - rewrite Nat.add_sub, list_lookup_middle in Hi by done. injection Hi as ->. by rewrite Permutation_app_comm.
  - assert (Hlt : (i < length k)%nat) by (apply lookup_lt_Some in Hi; rewrite length_app in Hi; cbn in Hi; lia). rewrite lookup_app_l in Hi by done.
    rewrite <- (take_drop_middle k i a Hi) at 1. rewrite insert_take_drop by done. rewrite <- app_assoc. cbn [app].
    etrans; [symmetry; apply Permutation_middle|]. apply perm_skip, Permutation_app_head. by rewrite Permutation_app_comm.
Qed.

Lemma position_spec {A : Type} (p : A -> bool) (l : list A) :
  match position p l with
  | Some i => exists a, l !! i = Some a /\ p a = true
  | None => Forall (fun a => p a = false) l
  end.
Proof.
  induction l as [|a l IH]; cbn [position]; [by apply Forall_nil|]. destruct (p a) eqn:Hp; [by exists a|].
  destruct (position p l) as [i|]; cbn [option_map]; [exact IH|by apply Forall_cons].
Qed.

(** The workers that go on are left, in some order. *)
Lemma reap_spec (exited : nat -> bool) (ws : list WorkerThread) :
  exists ws', reap_finished_workers exited ws = Ok ws' /\ ws' ≡ₚ filter (fun w => is_finished exited w = false) ws.
Proof.
  unfold reap_finished_workers. assert (H : forall fuel ws, (length ws < fuel)%nat ->
    exists ws', reap_loop fuel exited ws = Ok ws' /\ ws' ≡ₚ filter (fun w => is_finished exited w = false) ws); [|apply H; lia].
  clear ws. induction fuel as [|fuel IH]; intros ws Hl; [lia|]. cbn [reap_loop]. pose proof (position_spec (is_finished exited) ws) as Hp.
  destruct (position (is_finished exited) ws) as [i|].
  - destruct Hp as (w & Hi & Hw). pose proof (swap_remove_perm i ws w Hi) as Hperm. destruct (IH (swap_remove i ws)) as (ws' & Hr & Hws').
    { apply Permutation_length in Hperm. cbn [length] in Hperm. lia. }
    exists ws'. split; [done|]. rewrite Hws'. symmetry. etrans; [apply (filter_Permutation _ _ _ Hperm)|].
    by rewrite filter_cons_False by by rewrite Hw.
  - exists ws. split; [done|]. by rewrite filter_all.
Qed.

(** ** Counting *)
Definition going (ws : list WorkerThread) : nat := length (filter (fun w => running w = true) ws).
Definition ids (ws : list WorkerThread) : list nat := map worker_id ws.
Definition end_of (id : nat) (w : WorkerThread) : WorkerThread := if (worker_id w =? id)%nat then mkThread id false else w.

Lemma going_cons (w : WorkerThread) (ws : list WorkerThread) : going (w :: ws) = ((if running w then 1 else 0) + going ws)%nat.
Proof. unfold going. rewrite filter_cons. by destruct (running w); case_decide. Qed.

Lemma going_perm (ws ws' : list WorkerThread) : ws ≡ₚ ws' -> going ws = going ws'.
Proof. intros H. apply Permutation_length. by apply filter_Permutation. Qed.

Lemma ids_end (id : nat) (ws : list WorkerThread) : ids (map (end_of id) ws) = ids ws.
Proof. unfold ids. rewrite map_map. apply map_ext. intros w. unfold end_of. by destruct (Nat.eqb_spec (worker_id w) id) as [<-|]. Qed.

Lemma end_absent (id : nat) (ws : list WorkerThread) : id ∉ ids ws -> map (end_of id) ws = ws.
Proof.
  induction ws as [|w ws IH]; [done|]. cbn [ids map]. intros [Hw Hn]%not_elem_of_cons. rewrite (IH Hn). unfold end_of at 1. by rewrite (proj2 (Nat.eqb_neq _ _)) by congruence.
Qed.

Lemma going_end (id : nat) (ws : list WorkerThread) : NoDup (ids ws) -> existsb (fun w => running w && (worker_id w =? id)%nat) ws = true ->
  going ws = S (going (map (end_of id) ws)).
Proof.
  induction ws as [|w ws IH]; [done|]. cbn [ids map existsb]. intros [Hn Hnd]%NoDup_cons. rewrite !going_cons. unfold end_of at 1.
  destruct (Nat.eqb_spec (worker_id w) id) as [<-|Hne]; cbn [running].
  - rewrite andb_true_r. intros He. rewrite end_absent by done. destruct (running w); [done|]. cbn [orb] in He.
    exfalso. apply existsb_exists in He as (v & Hv & [_ Hid%Nat.eqb_eq]%andb_true_iff). apply Hn. rewrite <- Hid. apply list_elem_of_fmap_2. by apply list_elem_of_In.
  - rewrite andb_false_r. cbn [orb]. intros He. rewrite (IH Hnd He). destruct (running w); lia.
Qed.

Lemma end_idle (id : nat) (ws : list WorkerThread) : existsb (fun w => running w && (worker_id w =? id)%nat) ws = false ->
  Forall (fun w => worker_id w = id -> running w = false) ws.
Proof.
  intros He. apply Forall_forall. intros w Hw Hid. apply not_true_is_false. intros Hr. assert (existsb (fun w => running w && (worker_id w =? id)%nat) ws = true); [|congruence].
  apply existsb_exists. exists w. split; [by apply list_elem_of_In|]. by rewrite Hr, (proj2 (Nat.eqb_eq _ _)).
Qed.

Lemma going_zero (ws : list WorkerThread) : Forall (fun w => running w = false) ws <-> going ws = O.
Proof. induction ws as [|w ws IH]; [split; [done|by rewrite Forall_nil]|]. rewrite Forall_cons, going_cons, IH. destruct (running w); split; [naive_solver|lia|lia|lia]. Qed.

(** ** The invariant *)
(** What the loop serves with is a valid configuration, and a listener for TLS exactly when there are identities. *)
Record runtime_ok {L : Type} (rt : @Runtime L) : Prop := {
  runtime_configuration : exists files, config_ok (configuration rt) files;
  runtime_paired : is_some (https_listener rt) = is_some (tls_identities rt);
  runtime_store : forall store, tls_identities rt = Some store -> store_ok store /\ Forall identity_valid (identities store)
}.

(** The counter is the number of running workers, at most [cap]. *)
Record serving_ok {L : Type} (cap : Z) (s : @Serving L) : Prop := {
  serving_runtime : runtime_ok (runtime s);
  serving_limit : max_connections (configuration (runtime s)) <= cap <= usize_max;
  serving_active : active_connections s = Z.of_nat (going (workers s)) /\ active_connections s <= cap;
  serving_ids : NoDup (ids (workers s)) /\ Forall (fun id => (id < spawned s)%nat) (ids (workers s))
}.

(** What the ends of workers leave: the workers named have stopped, the counter counts those that run, and nothing else
    changes. *)
Definition stop (l : list nat) (ws : list WorkerThread) : list WorkerThread :=
  map (fun w => if decide (worker_id w ∈ l) then mkThread (worker_id w) false else w) ws.

Definition stopped {L : Type} (l : list nat) (s : @Serving L) : Serving :=
  mkServing (runtime s) (Z.of_nat (going (stop l (workers s)))) (stop l (workers s)) (spawned s).

Lemma ids_stop (l : list nat) (ws : list WorkerThread) : ids (stop l ws) = ids ws.
Proof. unfold ids, stop. rewrite map_map. apply map_ext. intros w. by case_decide. Qed.

Lemma going_stop (l : list nat) (ws : list WorkerThread) : (going (stop l ws) <= going ws)%nat.
Proof. induction ws as [|w ws IH]; [done|]. cbn [stop map]. rewrite !going_cons. fold (stop l ws). case_decide; cbn [running]; destruct (running w); lia. Qed.

Lemma stop_none (ws : list WorkerThread) : stop [] ws = ws.
Proof. unfold stop. rewrite <- (map_id ws) at 2. apply map_ext. intros w. by rewrite decide_False by apply not_elem_of_nil. Qed.

Lemma stop_one (id : nat) (ws : list WorkerThread) : stop [id] ws = map (end_of id) ws.
Proof. apply map_ext. intros w. unfold end_of. destruct (Nat.eqb_spec (worker_id w) id) as [<-|Hne]; [rewrite decide_True|rewrite decide_False]; rewrite ?list_elem_of_singleton; done. Qed.

Lemma stop_cons (id : nat) (l : list nat) (ws : list WorkerThread) : stop (id :: l) ws = stop l (stop [id] ws).
Proof.
  unfold stop. rewrite map_map. apply map_ext. intros w. destruct (decide (worker_id w ∈ [id])) as [Hi|Hi]; cbn [worker_id].
  - apply list_elem_of_singleton in Hi. rewrite decide_True by by rewrite Hi, elem_of_cons; left. by case_decide.
  - apply not_elem_of_cons in Hi as [Hi _]. destruct (decide (worker_id w ∈ l)); [by rewrite decide_True by by right|by rewrite decide_False by by apply not_elem_of_cons].
Qed.

Lemma stop_idle (id : nat) (ws : list WorkerThread) : Forall (fun w => worker_id w = id -> running w = false) ws -> stop [id] ws = ws.
Proof.
  rewrite stop_one. induction 1 as [|w ws Hw _ IH]; [done|]. cbn [map]. rewrite IH. f_equal. unfold end_of.
  destruct (Nat.eqb_spec (worker_id w) id) as [<-|]; [|done]. destruct w as [i r]. cbn [running worker_id] in *. by rewrite Hw.
Qed.

Lemma stopped_ok {L : Type} (cap : Z) (l : list nat) (s : @Serving L) : serving_ok cap s -> serving_ok cap (stopped l s).
Proof.
  intros [Hrt Hlim [Hact Hcap] Hids]. pose proof (going_stop l (workers s)). split; cbn [stopped runtime active_connections workers spawned]; [done|done|split; [done|lia]|by rewrite ids_stop].
Qed.

Lemma finish_worker_spec {L E : Type} (cap : Z) (id : nat) (s : @Serving L) : serving_ok cap s -> finish_worker id s = (Ok tt : res E unit, stopped [id] s).
Proof.
  intros [_ _ [Hact _] [Hnd _]]. unfold finish_worker, stopped. destruct (existsb _ (workers s)) eqn:He.
  - pose proof (going_end id (workers s) Hnd He) as Hg. destruct (Z.eqb_spec (active_connections s) 0) as [Hz|Hz]; [lia|].
    change (fun w => if (worker_id w =? id)%nat then mkThread id false else w) with (end_of id). rewrite stop_one. do 2 f_equal. lia.
  - rewrite stop_idle by by apply end_idle. rewrite <- Hact. by destruct s.
Qed.

Lemma finish_workers_spec {L E : Type} (cap : Z) (l : list nat) (s : @Serving L) : serving_ok cap s -> finish_workers l s = (Ok tt : res E unit, stopped l s).
Proof.
  revert s. induction l as [|id l IH]; intros s Hs; cbn [finish_workers].
  - unfold stopped. rewrite stop_none. destruct Hs as [_ _ [Hact _] _]. rewrite <- Hact. by destruct s.
  - unfold io_bind. rewrite (finish_worker_spec cap id s Hs), (IH _ (stopped_ok cap [id] s Hs)). enough (stopped l (stopped [id] s) = stopped (id :: l) s) as -> by done.
    unfold stopped. cbn [runtime workers spawned]. by rewrite <- (stop_cons id l).
Qed.

(** ** Reloading *)
Section reloading.
Context {FS L : Type} `{!Files FS}.

Definition system_ok (os : @System FS L) : Prop := (forall address, returns (bind os address)) /\ forall l, returns (set_nonblocking os l).

Definition load_at (os : @System FS L) (path : bytes) : res ConfigError (Config * list TlsIdentityFiles) :=
  load_with_tls (fun path => map_err message (fs_read_to_string (file_system os) path)) path.

Lemma load_at_spec (os : @System FS L) (path : bytes) :
  match load_at os path with
  | Ok (c, _) => exists files, config_ok c files
  | Err _ => True
  | Panic | Fuel => False
  end.
Proof.
  unfold load_at, load_with_tls, fs_read_to_string. pose proof (fs_law (file_system os) path) as Hf. destruct (fs_read (file_system os) path) as [text|e| |]; try done. cbn [res_bind map_err].
  destruct (utf8_valid text); cbn [map_err res_bind]; [|done]. pose proof (parse_with_tls_lines text) as Hp. pose proof (config_lines_returns initial_state (lines text)) as Hr.
  pose proof (parse_with_tls_ok text) as Hok. destruct (config_lines initial_state (lines text)) as [st|m| |]; try done.
  - rewrite Hp. rewrite Hp in Hok. destruct (finish st) as [c files]. cbn [res_bind]. exists files. by apply Hok.
  - destruct Hp as (n & line & st & _ & _ & _ & ->). done.
Qed.

(** The listener for TLS has to be bound again. *)
Definition rebinds (rt : @Runtime L) (replacement : Config) : Prop :=
  https_listener rt = None \/ https_listen_addr (configuration rt) <> https_listen_addr replacement.

(** A reload that succeeds: everything is replaced at once, and the listener is kept when its address is. *)
Definition reloaded (os : @System FS L) (path : bytes) (rt rt' : @Runtime L) : Prop :=
  exists files, load_at os path = Ok (configuration rt', files) /\ load_files (file_system os) files = Ok (tls_identities rt') /\
    match tls_identities rt' with
    | None => https_listener rt' = None
    | Some _ => (~ rebinds rt (configuration rt') /\ https_listener rt' = https_listener rt) \/
        (rebinds rt (configuration rt') /\ exists l, bind os (https_listen_addr (configuration rt')) = Ok l /\ set_nonblocking os l = Ok tt /\ https_listener rt' = Some l)
    end.

Definition reload_fails (os : @System FS L) (path : bytes) (rt : @Runtime L) : Prop :=
  (exists e, load_at os path = Err e) \/
  exists c files, load_at os path = Ok (c, files) /\
    ((exists e, load_files (file_system os) files = Err e) \/
     exists store e, load_files (file_system os) files = Ok (Some store) /\ rebinds rt c /\
       (bind os (https_listen_addr c) = Err e \/ exists l, bind os (https_listen_addr c) = Ok l /\ set_nonblocking os l = Err e)).

Lemma replacement_listener_spec (os : @System FS L) (rt : @Runtime L) (c : Config) (store : option TlsIdentityStore) : system_ok os ->
  match replacement_https_listener os rt c store with
  | Ok (Some l) => is_some store = true /\ rebinds rt c /\ bind os (https_listen_addr c) = Ok l /\ set_nonblocking os l = Ok tt
  | Ok None => store = None \/ ~ rebinds rt c
  | Err e => is_some store = true /\ rebinds rt c /\
      (bind os (https_listen_addr c) = Err e \/ exists l, bind os (https_listen_addr c) = Ok l /\ set_nonblocking os l = Err e)
  | Panic | Fuel => False
  end.
Proof.
  intros [Hb Hn]. unfold replacement_https_listener. destruct store as [store|]; cbn [is_some andb]; [|by left].
  assert (Hre : negb (is_some (https_listener rt)) || negb (bytes_eqb (https_listen_addr (configuration rt)) (https_listen_addr c)) = true <-> rebinds rt c).
  { unfold rebinds. rewrite orb_true_iff, !negb_true_iff, <- (not_true_iff_false (bytes_eqb _ _)), bytes_eqb_eq. destruct (https_listener rt); cbn [is_some]; naive_solver. }
  destruct (negb _ || negb _); [|right; intros Hr; by apply Hre in Hr]. pose proof (proj1 Hre eq_refl) as Hr.
  specialize (Hb (https_listen_addr c)). destruct (bind os (https_listen_addr c)) as [l|e| |]; cbn [res_bind]; try done; [|split_and!; [done|done|by left]].
  specialize (Hn l). destruct (set_nonblocking os l) as [[]|e| |] eqn:En; cbn [res_bind]; try done. split_and!; [done|done|right; by exists l].
Qed.

Lemma reload_spec (os : @System FS L) (path : bytes) (rt : @Runtime L) : runtime_ok rt -> system_ok os ->
  match reload_runtime_configuration os path rt with
  | (Ok true, rt') => reloaded os path rt rt' /\ runtime_ok rt'
  | (Ok false, rt') => rt' = rt /\ reload_fails os path rt
  | (Err _, _) | (Panic, _) | (Fuel, _) => False
  end.
Proof.
  intros [_ Hpair _] Hos. unfold reload_runtime_configuration. fold (load_at os path). unfold reloaded, reload_fails. pose proof (load_at_spec os path) as Hl.
  destruct (load_at os path) as [[c files]|e| |]; cbn [map_err res_bind]; try done; [|split; [done|left; by exists e]].
  pose proof (load_files_spec (file_system os) files) as Hf. destruct (load_files (file_system os) files) as [store|e| |] eqn:El; cbn [map_err res_bind]; try done.
  2: { split; [done|]. right. exists c, files. split; [done|]. left. by exists e. }
  pose proof (replacement_listener_spec os rt c store Hos) as Hr. destruct (replacement_https_listener os rt c store) as [l|e| |]; cbn [map_err res_bind]; try done.
  - assert (Hkept : ~ rebinds rt c -> is_some (https_listener rt) = true) by (unfold rebinds; destruct (https_listener rt); [done|naive_solver]).
    split.
    + exists files. cbn [configuration tls_identities https_listener]. split_and!; [done|done|]. destruct store as [store|]; [|done].
      destruct l as [l|]; [right; destruct Hr as (_ & ? & ? & ?); split; [done|]; by exists l|left; by destruct Hr].
    + split; cbn [configuration tls_identities https_listener]; [done| |exact Hf].
      destruct store as [store|], l as [l|]; cbn [is_some]; try done. destruct Hr as [|Hr]; [done|]. by apply Hkept.
  - split; [done|]. right. exists c, files. split; [done|]. right. destruct Hr as (Hst & Hre & Hcause). destruct store as [store|]; [|done]. by exists store, e.
Qed.

(** C38: a reload replaces the configuration, the identities and the listener together, or leaves all three as they were. What it
    puts in place is valid and loaded at one time; the listener for TLS is there exactly when there are identities, and is
    bound again only when there was none or its address is another. It is given up for four causes only. *)
Theorem reload_atomic (os : @System FS L) (path : bytes) (rt : @Runtime L) (Hrt : runtime_ok rt) (Hos : system_ok os) :
  match reload_runtime_configuration os path rt with
  | (Ok true, rt') => reloaded os path rt rt' /\ runtime_ok rt'
  | (Ok false, rt') => rt' = rt /\ reload_fails os path rt
  | (Err _, _) | (Panic, _) | (Fuel, _) => False
  end.
Proof. by apply reload_spec. Qed.
End reloading.

(** ** Admission and the loop *)
(** The answer to a connection above the limit. *)
Definition busy_response : bytes :=
  str "HTTP/1.1 503 Service Unavailable" ++ CRLF ++ str "Content-Type: text/plain; charset=utf-8" ++ CRLF ++ str "Server: BareProxy/0.1.0" ++ CRLF ++
  str "Connection: close" ++ CRLF ++ str "Content-Length: 20" ++ CRLF ++ CRLF ++ str "Service Unavailable" ++ [LF].

Lemma busy_response_built : build_text_response ServiceUnavailable (str "Service Unavailable" ++ [LF]) = Ok busy_response.
Proof. vm_compute. reflexivity. Qed.

Section serving.
Context {FS L R W : Type} `{!Files FS} `{!Read R} `{!Write W}.
Implicit Types (t : @Turn FS L R W) (s : @Serving L).

(** *** What a turn does
    Each relation below is one point of a turn: the state before, what came of it, and the state after. *)
Definition below_limit s : Prop := active_connections s < max_connections (configuration (runtime s)).

(** A worker is started after the workers [between] have ended. *)
Definition started (between : list nat) s : Serving :=
  let s1 := stopped between s in
  mkServing (runtime s1) (active_connections s1 + 1) (workers s1 ++ [mkThread (spawned s1) true]) (S (spawned s1)).

Definition answered_busy (stream : R * W) (answered : res io_error unit) (stream' : R * W) : Prop :=
  match answered with
  | Ok _ => took stream [] busy_response stream'
  | Err _ => exists pre post, busy_response = pre ++ post /\ took stream [] pre stream'
  | Panic | Fuel => False
  end.

Inductive reload_step (config_path : option bytes) t s : @Serving L -> Prop :=
| no_reload : reload_requested t = false \/ config_path = None -> reload_step config_path t s s
| reload_done path rt : reload_requested t = true -> config_path = Some path -> reloaded (system t) path (runtime s) rt -> reload_step config_path t s (set_runtime s rt)
| reload_rejected path : reload_requested t = true -> config_path = Some path -> reload_fails (system t) path (runtime s) -> reload_step config_path t s s.

Inductive http_step t s : option (@Accepted R W) -> @Serving L -> Prop :=
| http_nobody e : http_accepted t = Err e -> kind e = WouldBlock -> http_step t s None s
| http_admitted stream : http_accepted t = Ok stream -> below_limit s -> http_step t s (Some (Spawned (spawned s))) (started (finishing t 1) s)
| http_refused stream answered stream' : http_accepted t = Ok stream -> ~ below_limit s -> answered_busy stream answered stream' ->
    http_step t s (Some (Refused stream' answered)) s.

Inductive https_step t s : option (@Accepted R W) -> @Serving L -> Prop :=
| https_off : https_listener (runtime s) = None \/ tls_identities (runtime s) = None -> https_step t s None s
| https_nobody e : https_accepted t = Err e -> kind e = WouldBlock -> https_step t s None s
| https_admitted stream : is_some (https_listener (runtime s)) = true -> https_accepted t = Ok stream -> below_limit s ->
    https_step t s (Some (Spawned (spawned s))) (started (finishing t 3) s)
| https_closed stream : is_some (https_listener (runtime s)) = true -> https_accepted t = Ok stream -> ~ below_limit s -> https_step t s (Some ShutDown) s.

(** Exactly the workers that have ended and exited are taken from the list. *)
Definition collected t s s' : Prop :=
  exists ws, s' = set_workers s ws /\ ws ≡ₚ filter (fun w => running w = true \/ exited t (worker_id w) = false) (workers s).

Definition turn_step (config_path : option bytes) t s (http https : option (@Accepted R W)) s' : Prop :=
  exists s1 s2 s3, reload_step config_path t s s1 /\ http_step t (stopped (finishing t 0) s1) http s2 /\
    https_step t (stopped (finishing t 2) s2) https s3 /\ collected t (stopped (finishing t 4) s3) s'.

(** The turns of a list, none of which finds the shutdown requested. *)
Inductive run (config_path : option bytes) : list (@Turn FS L R W) -> @Serving L -> list (option (@Accepted R W) * option (@Accepted R W)) -> @Serving L -> Prop :=
| run_nil s : run config_path [] s [] s
| run_turn t turns s http https s1 outcomes s2 : shutdown_requested t = false -> turn_step config_path t s http https s1 -> run config_path turns s1 outcomes s2 ->
    run config_path (t :: turns) s ((http, https) :: outcomes) s2.

(** Every worker has been waited for. *)
Definition drained s s' : Prop := s' = mkServing (runtime s) 0 [] (spawned s).

Definition admitted (o : option (@Accepted R W)) : nat := match o with Some (Spawned _) => 1 | _ => 0 end.
Definition total_admitted (outcomes : list (option (@Accepted R W) * option (@Accepted R W))) : nat := sum_list_with (fun a => admitted a.1 + admitted a.2)%nat outcomes.

Lemma turn_spawned (config_path : option bytes) t s (http https : option (@Accepted R W)) s' : turn_step config_path t s http https s' ->
  spawned s' = (spawned s + (admitted http + admitted https))%nat.
Proof.
  intros (s1 & s2 & s3 & Hr & Hh & Hs & ws & -> & _). assert (E1 : spawned s1 = spawned s) by by destruct Hr.
  assert (E2 : spawned s2 = (spawned s1 + admitted http)%nat) by (destruct Hh; cbn [admitted started stopped spawned]; lia).
  assert (E3 : spawned s3 = (spawned s2 + admitted https)%nat) by (destruct Hs; cbn [admitted started stopped spawned]; lia).
  cbn [set_workers stopped spawned]. lia.
Qed.

Lemma run_spawned (config_path : option bytes) (turns : list (@Turn FS L R W)) s outcomes s' : run config_path turns s outcomes s' ->
  spawned s' = (spawned s + total_admitted outcomes)%nat.
Proof. induction 1 as [|t turns s http https s1 outcomes s2 _ Ht%turn_spawned _ IH]; unfold total_admitted in *; cbn [sum_list_with fst snd]; [cbn; lia|lia]. Qed.

(** *** The code does these steps *)
Variable cap : Z.

(** The limit of every configuration that is reloaded is at most [cap], and the system's calls return. *)
Definition turn_ok (config_path : option bytes) (t : @Turn FS L R W) : Prop :=
  returns (http_accepted t) /\ returns (https_accepted t) /\ system_ok (system t) /\
  forall path rt rt', config_path = Some path -> reload_runtime_configuration (system t) path rt = (Ok true, rt') -> max_connections (configuration rt') <= cap.

(** A step that keeps the invariant, fails only for [e] in [X], and leaves the state then. *)
Definition steps {E A : Type} (m : io (@Serving L) E A) (s : @Serving L) (Q : A -> @Serving L -> Prop) (X : E -> Prop) : Prop :=
  wp m s (fun a s' => serving_ok cap s' /\ Q a s') (fun e s' => serving_ok cap s' /\ X e).

Lemma steps_bind {E A B : Type} (m : io (@Serving L) E A) (k : A -> io (@Serving L) E B) s (Q : A -> @Serving L -> Prop) (Q' : B -> @Serving L -> Prop) (X : E -> Prop) :
  steps m s Q X -> (forall a s', serving_ok cap s' -> Q a s' -> steps (k a) s' Q' X) -> steps (io_bind m k) s Q' X.
Proof. intros Hm Hk. apply wp_bind. eapply wp_mono; [exact Hm| |done]. intros a s' [Hs' Ha]. by apply Hk. Qed.

Lemma steps_mono {E A : Type} (m : io (@Serving L) E A) s (Q Q' : A -> @Serving L -> Prop) (X X' : E -> Prop) :
  steps m s Q X -> (forall a s', Q a s' -> Q' a s') -> (forall e, X e -> X' e) -> steps m s Q' X'.
Proof. intros Hm HQ HX. eapply wp_mono; [exact Hm| |]; naive_solver. Qed.

Lemma steps_finish {E : Type} (l : list nat) s (X : E -> Prop) : serving_ok cap s -> steps (finish_workers l) s (fun _ s' => s' = stopped l s) X.
Proof. intros Hs. unfold steps, wp. rewrite (finish_workers_spec cap l s Hs). split; [by apply stopped_ok|done]. Qed.

Lemma started_ok (between : list nat) s : serving_ok cap s -> below_limit s -> serving_ok cap (started between s).
Proof.
  unfold below_limit. intros Hs Hlt. pose proof (stopped_ok cap between s Hs) as [Hrt Hlim [Hact Hcap] [Hnd Hids]]. destruct Hs as [_ _ [Hact0 _] _].
  pose proof (going_stop between (workers s)) as Hle. cbn [stopped active_connections workers runtime spawned] in *. unfold started.
  split; cbn [stopped runtime active_connections workers spawned]; [done|done| |].
  - rewrite (going_perm (stop between (workers s) ++ [mkThread (spawned s) true]) (mkThread (spawned s) true :: stop between (workers s))) by apply Permutation_app_comm. rewrite going_cons. cbn [running]. lia.
  - unfold ids in *. rewrite map_app. cbn [map worker_id]. split.
    + apply NoDup_app. split_and!; [done| |apply NoDup_singleton]. intros id Hid ->%list_elem_of_singleton. rewrite Forall_forall in Hids. specialize (Hids _ Hid). lia.
    + apply Forall_app. split; [eapply Forall_impl; [exact Hids|]; cbv beta; lia|apply Forall_singleton; lia].
Qed.

Lemma steps_spawn (between : list nat) s (X : io_error -> Prop) : serving_ok cap s -> below_limit s ->
  steps (spawn_worker (R := R) (W := W) between) s (fun a s' => a = Spawned (spawned s) /\ s' = started between s) X.
Proof.
  intros Hs Hlt. unfold steps, wp, spawn_worker, io_bind. rewrite (finish_workers_spec cap between s Hs). pose proof (started_ok between s Hs Hlt) as Hok.
  pose proof Hok as [_ Hlim [_ Hcap] _]. unfold started in Hcap, Hlim. cbn [active_connections runtime] in Hcap, Hlim. rewrite (proj2 (Z.ltb_ge _ _)) by lia. done.
Qed.

Lemma steps_accept t s : serving_ok cap s -> returns (http_accepted t) ->
  steps (would_block_ok (accept_and_spawn (http_accepted t) (finishing t 1))) s (http_step t s) (fun e => kind e <> WouldBlock /\ http_accepted t = Err e).
Proof.
  intros Hs Hacc. unfold steps, wp, would_block_ok, accept_and_spawn, io_bind, io_lift. destruct (http_accepted t) as [stream|e| |] eqn:Ea; try done.
  - destruct (Z.leb_spec (max_connections (configuration (runtime s))) (active_connections s)) as [Hle|Hlt].
    + destruct (wp_write_text_response (R := R) (W := W) ServiceUnavailable (str "Service Unavailable" ++ [LF]) stream) as (out & Hout & Hw). rewrite busy_response_built in Hout.
      apply Ok_inj in Hout as <-. unfold wp in Hw. assert (Hno : ~ below_limit s) by (unfold below_limit; lia).
      destruct (write_text_response _ _ stream) as [[u|e| |] stream']; [| |destruct Hw|destruct Hw]; (split; [exact Hs|]; apply (http_refused _ _ stream); [exact Ea|exact Hno|exact Hw]).
    + pose proof (steps_spawn (finishing t 1) s (fun _ => False) Hs Hlt) as H. unfold steps, wp in H.
      destruct (spawn_worker (finishing t 1) s) as [[a|e| |] s']; [|destruct H as [_ []]|destruct H|destruct H]. destruct H as (Hs' & -> & ->). split; [exact Hs'|].
      exact (http_admitted _ _ stream Ea Hlt).
  - destruct (decide (kind e = WouldBlock)) as [Hk|Hk]; (split; [exact Hs|]); [exact (http_nobody _ _ e Ea Hk)|done].
Qed.

Lemma steps_https t s : serving_ok cap s -> returns (https_accepted t) -> steps (https_turn t) s (https_step t s) (fun e => kind e <> WouldBlock /\ https_accepted t = Err e).
Proof.
  intros Hs Hacc. unfold steps, wp, https_turn. destruct (https_listener (runtime s)) as [l|] eqn:El; [|split; [exact Hs|apply https_off; by left]].
  destruct (tls_identities (runtime s)) eqn:Ei; [|split; [exact Hs|apply https_off; by right]]. assert (Hl : is_some (https_listener (runtime s)) = true) by by rewrite El.
  unfold would_block_ok, accept_tls_and_spawn, io_bind, io_lift. destruct (https_accepted t) as [stream|e| |] eqn:Ea; try done.
  - destruct (Z.leb_spec (max_connections (configuration (runtime s))) (active_connections s)) as [Hle|Hlt].
    + split; [exact Hs|]. apply (https_closed _ _ stream Hl Ea). unfold below_limit. lia.
    + pose proof (steps_spawn (finishing t 3) s (fun _ => False) Hs Hlt) as H. unfold steps, wp in H.
      destruct (spawn_worker (finishing t 3) s) as [[a|e| |] s']; [|destruct H as [_ []]|destruct H|destruct H]. destruct H as (Hs' & -> & ->). split; [exact Hs'|].
      exact (https_admitted _ _ stream Hl Ea Hlt).
  - destruct (decide (kind e = WouldBlock)) as [Hk|Hk]; (split; [exact Hs|]); [exact (https_nobody _ _ e Ea Hk)|done].
Qed.

Lemma steps_reload (config_path : option bytes) t s (X : io_error -> Prop) : serving_ok cap s -> turn_ok config_path t ->
  steps (reload_turn config_path t) s (fun _ s' => reload_step config_path t s s') X.
Proof.
  intros Hs (_ & _ & Hos & Hcap). unfold steps, wp, reload_turn. destruct (reload_requested t) eqn:Eq; [|split; [exact Hs|apply no_reload; by left]].
  destruct config_path as [path|]; [|split; [exact Hs|apply no_reload; by right]].
  pose proof Hs as [Hrt Hlim Hact Hids]. pose proof (reload_spec (system t) path (runtime s) Hrt Hos) as Hr.
  destruct (reload_runtime_configuration (system t) path (runtime s)) as [[[]|e| |] rt] eqn:Er; try done.
  - destruct Hr as [Hr Hok]. split; [|by apply (reload_done _ _ _ path)]. split; cbn [runtime active_connections workers spawned set_runtime]; try done. specialize (Hcap path _ _ eq_refl Er). lia.
  - destruct Hr as [-> Hf]. assert (E : set_runtime s (runtime s) = s) by by destruct s. rewrite E. split; [exact Hs|by apply (reload_rejected _ _ _ path)].
Qed.

Lemma going_collected (exited : nat -> bool) (ws ws' : list WorkerThread) : ws' ≡ₚ filter (fun w => running w = true \/ exited (worker_id w) = false) ws -> going ws' = going ws.
Proof.
  intros Hp. rewrite (going_perm _ _ Hp). clear Hp. induction ws as [|w ws IH]; [done|]. rewrite filter_cons, going_cons. case_decide as Hw.
  - by rewrite going_cons, IH.
  - rewrite IH. destruct (running w); [naive_solver|lia].
Qed.

Lemma steps_reap t s (X : io_error -> Prop) : serving_ok cap s -> steps (reap_turn t) s (fun _ s' => collected t s s') X.
Proof.
  intros [Hrt Hlim [Hact Hcap] [Hnd Hids]]. unfold steps, wp, reap_turn. destruct (reap_spec (exited t) (workers s)) as (ws & -> & Hp0).
  assert (Hp : ws ≡ₚ filter (fun w => running w = true \/ exited t (worker_id w) = false) (workers s)).
  { rewrite Hp0. apply Permutation_refl'. apply list_filter_iff. intros w. unfold is_finished. destruct (running w), (exited t (worker_id w)); naive_solver. }
  split; [|by exists ws].
  assert (Hsub : workers s ≡ₚ ws ++ filter (fun w => ~ (running w = true \/ exited t (worker_id w) = false)) (workers s)) by (symmetry; etrans; [apply Permutation_app_tail, Hp|apply filter_app_complement]).
  apply (Permutation_map worker_id) in Hsub. rewrite map_app in Hsub. unfold ids in *.
  split; cbn [runtime active_connections workers spawned set_workers]; [done|done|by rewrite (going_collected _ _ _ Hp)|]. split.
  - rewrite Hsub in Hnd. by apply NoDup_app in Hnd as (? & _).
  - rewrite Hsub in Hids. by apply Forall_app in Hids as [? _].
Qed.

(** Why a turn ends the loop: a listener's error that is no [WouldBlock]. *)
Definition listener_error t (e : io_error) : Prop := kind e <> WouldBlock /\ (http_accepted t = Err e \/ https_accepted t = Err e).

Lemma steps_turn (config_path : option bytes) t s : serving_ok cap s -> turn_ok config_path t ->
  steps (serve_turn config_path t) s (fun a s' => turn_step config_path t s a.1 a.2 s') (listener_error t).
Proof.
  intros Hs Ht. unfold serve_turn. eapply steps_bind; [by apply steps_reload|]. intros ? s1 K1 H1.
  eapply steps_bind; [by apply steps_finish|]. intros ? s1' K1' ->.
  eapply steps_bind; [eapply steps_mono; [by apply steps_accept, Ht|exact (fun _ _ H => H)|unfold listener_error; naive_solver]|]. intros http s2 K2 H2.
  eapply steps_bind; [by apply steps_finish|]. intros ? s2' K2' ->.
  eapply steps_bind; [eapply steps_mono; [by apply steps_https, Ht|exact (fun _ _ H => H)|unfold listener_error; naive_solver]|]. intros https s3 K3 H3.
  eapply steps_bind; [by apply steps_finish|]. intros ? s3' K3' ->.
  eapply steps_bind; [by apply steps_reap|]. intros ? s4 K4 H4. apply wp_ret. split; [done|]. cbn [fst snd]. by exists s1, s2, s3.
Qed.

Lemma stop_all (ws : list WorkerThread) : going (stop (ids ws) ws) = O.
Proof.
  apply going_zero, Forall_forall. intros w (v & -> & Hv)%list_elem_of_fmap. rewrite decide_True; [done|]. by apply list_elem_of_fmap_2.
Qed.

(** Nothing runs after the loop, and the counter is back at zero. *)
Lemma steps_drain t s (X : io_error -> Prop) : serving_ok cap s -> steps (drain t) s (fun _ s' => drained s s') X.
Proof.
  intros Hs. unfold drain. eapply steps_bind; [by apply steps_finish|]. intros ? s1 K1 ->.
  eapply steps_bind; [by apply steps_reap|]. intros ? s2 K2 (ws & -> & _). unfold steps, wp, io_bind, gets, modify.
  rewrite (finish_workers_spec (E := io_error) cap _ _ K2). unfold set_workers, stopped, drained. cbn [runtime active_connections workers spawned].
  change (map worker_id ws) with (ids ws). rewrite stop_all. destruct Hs as [Hrt Hlim _ _]. split; [|done].
  pose proof (runtime_configuration _ Hrt) as (files & Hc). pose proof (config_max_connections _ _ Hc).
  split; cbn [set_workers runtime active_connections workers spawned]; [done|done|split; [reflexivity|lia]|split; [apply NoDup_nil_2|by apply Forall_nil]].
Qed.

(** The loop is a run of its turns up to the one that finds the shutdown requested, which drains it, or that meets an error
    of a listener. *)
Definition loop_ends (config_path : option bytes) (turns : list (@Turn FS L R W)) s (outcomes : list (option (@Accepted R W) * option (@Accepted R W))) s' : Prop :=
  exists before t after s1, turns = before ++ t :: after /\ shutdown_requested t = true /\ run config_path before s outcomes s1 /\ serving_ok cap s1 /\ drained s1 s'.

Definition loop_fails (config_path : option bytes) (turns : list (@Turn FS L R W)) s (e : io_error) : Prop :=
  exists before t after outcomes s1, turns = before ++ t :: after /\ shutdown_requested t = false /\ run config_path before s outcomes s1 /\ serving_ok cap s1 /\ listener_error t e.

Lemma steps_loop (config_path : option bytes) (turns : list (@Turn FS L R W)) s : serving_ok cap s -> Forall (turn_ok config_path) turns ->
  steps (serve_loop config_path turns) s
    (fun o s' => match o with
       | Some outcomes => loop_ends config_path turns s outcomes s'
       | None => exists outcomes, run config_path turns s outcomes s'
       end) (loop_fails config_path turns s).
Proof.
  intros Hs Hall. revert s Hs. induction Hall as [|t turns Ht _ IH]; intros s Hs; cbn [serve_loop]; [apply wp_ret; split; [done|]; exists []; constructor|].
  destruct (shutdown_requested t) eqn:Eq.
  - eapply steps_bind; [by apply steps_drain|]. intros ? s' K H. apply wp_ret. split; [done|]. exists [], t, turns, s. by split_and!; [..|constructor| |].
  - eapply steps_bind; [eapply steps_mono; [by apply steps_turn|exact (fun _ _ H => H)|]|].
    { intros e He. exists [], t, turns, [], s. by split_and!; [..|constructor| |]. }
    intros [http https] s1 K1 H1. eapply steps_bind; [eapply steps_mono; [by apply IH|exact (fun _ _ H => H)|]|].
    { intros e (before & t' & after & outcomes & s2 & -> & Ht' & Hr & Hok & He). exists (t :: before), t', after, ((http, https) :: outcomes), s2. split_and!; try done. by eapply run_turn. }
    intros [outcomes|] s2 K2 H2; apply wp_ret; (split; [done|]); cbn [option_map].
    + destruct H2 as (before & t' & after & s3 & -> & Ht' & Hr & Hok & Hd). exists (t :: before), t', after, s3. split_and!; try done. by eapply run_turn.
    + destruct H2 as (outcomes & Hr). exists ((http, https) :: outcomes). by eapply run_turn.
Qed.
End serving.

(** The state in which the loop starts. *)
Definition first_state {L : Type} (rt : @Runtime L) : Serving := mkServing rt 0 [] 0.

Lemma serving_start {L : Type} (cap : Z) (rt : @Runtime L) : runtime_ok rt -> max_connections (configuration rt) <= cap <= usize_max -> serving_ok cap (first_state rt).
Proof.
  intros Hrt Hlim. pose proof (runtime_configuration _ Hrt) as (files & Hc). pose proof (config_max_connections _ _ Hc).
  split; cbn [first_state runtime active_connections workers spawned]; [done|done|split; [reflexivity|lia]|split; [apply NoDup_nil_2|by apply Forall_nil]].
Qed.

(** The calls before the loop. *)
Definition setup_fails {FS L : Type} (os : @System FS L) (rt : @Runtime L) (listener : L) (local_addr : L -> res io_error unit) (e : io_error) : Prop :=
  set_nonblocking os listener = Err e \/ exists l, https_listener rt = Some l /\ (set_nonblocking os l = Err e \/ local_addr l = Err e).

Lemma serve_spec {FS L R W : Type} `{!Files FS} `{!Read R} `{!Write W} (cap : Z) (rt : @Runtime L) (config_path : option bytes) (os : @System FS L)
  (listener : L) (local_addr : L -> res io_error unit) (turns : list (@Turn FS L R W)) :
  runtime_ok rt -> max_connections (configuration rt) <= cap <= usize_max -> system_ok os -> (forall l, returns (local_addr l)) -> Forall (turn_ok cap config_path) turns ->
  match serve_until_with_tls rt config_path os listener local_addr turns with
  | (Ok None, s) => serving_ok cap s /\ exists outcomes, run config_path turns (first_state rt) outcomes s
  | (Ok (Some outcomes), s) => loop_ends cap config_path turns (first_state rt) outcomes s
  | (Err e, s) => serving_ok cap s /\ ((s = first_state rt /\ setup_fails os rt listener local_addr e) \/ loop_fails cap config_path turns (first_state rt) e)
  | (Panic, _) | (Fuel, _) => False
  end.
Proof.
  intros Hrt Hcap Hos Haddr Hturns. unfold serve_until_with_tls. rewrite (runtime_paired _ Hrt), xorb_nilpotent. pose proof (serving_start cap rt Hrt Hcap) as Hs.
  fold (first_state rt). set (s := first_state rt) in *.
  unfold io_bind at 1, io_lift at 1. pose proof (proj2 Hos listener) as Hn. destruct (set_nonblocking os listener) as [[]|e| |] eqn:En; try done; [|split; [done|left; split; [done|by left]]].
  unfold io_bind at 1, io_lift at 1. destruct (https_listener rt) as [l|] eqn:El.
  - pose proof (proj2 Hos l) as Hl. destruct (set_nonblocking os l) as [[]|e| |] eqn:Esl; cbn [res_bind]; try done; [|split; [done|left; split; [done|right; exists l; auto]]].
    pose proof (Haddr l) as Ha. destruct (local_addr l) as [[]|e| |] eqn:Eal; try done; [|split; [done|left; split; [done|right; exists l; auto]]].
    pose proof (steps_loop cap config_path turns s Hs Hturns) as H. unfold steps, wp in H. destruct (serve_loop config_path turns s) as [[[outcomes|]|e| |] s']; try done; [by destruct H|].
    destruct H as [H1 H2]. split; [done|by right].
  - pose proof (steps_loop cap config_path turns s Hs Hturns) as H. unfold steps, wp in H. destruct (serve_loop config_path turns s) as [[[outcomes|]|e| |] s']; try done; [by destruct H|].
    destruct H as [H1 H2]. split; [done|by right].
Qed.

(** The end of the loop in numbers. *)
Lemma loop_ends_counts {FS L R W : Type} `{!Files FS} `{!Read R} `{!Write W} (cap : Z) (rt : @Runtime L) (config_path : option bytes) (turns : list (@Turn FS L R W)) outcomes s :
  loop_ends cap config_path turns (first_state rt) outcomes s -> workers s = [] /\ active_connections s = 0 /\ runtime_ok (runtime s) /\ spawned s = total_admitted outcomes.
Proof. intros (before & t & after & s1 & _ & _ & Hr%run_spawned & Hok & ->). cbn [workers active_connections runtime spawned]. split_and!; [done|done|apply Hok|exact Hr]. Qed.

(** C5: the main loop, whatever its threads do between its steps. It is a run of its turns. In each, a requested reload replaces what
    is served with, or changes nothing; a connection is given a worker when fewer are active than the limit, and is else answered
    with the 503, or shut down on the TLS listener; and exactly the workers that have ended and exited are collected. The
    counter is then the number of running workers, and at most the limit. At the turn that finds the shutdown requested every
    worker is waited for, and as many were started as were admitted. The loop ends otherwise only by an error of a
    listener that is no [WouldBlock], and it never panics: no counter wraps. *)
Theorem serve_correct {FS L R W : Type} `{!Files FS} `{!Read R} `{!Write W} (cap : Z) (rt : @Runtime L) (config_path : option bytes) (os : @System FS L)
  (listener : L) (local_addr : L -> res io_error unit) (turns : list (@Turn FS L R W))
  (Hrt : runtime_ok rt) (Hcap : max_connections (configuration rt) <= cap <= usize_max) (Hos : system_ok os) (Haddr : forall l, returns (local_addr l))
  (Hturns : Forall (turn_ok cap config_path) turns) :
  match serve_until_with_tls rt config_path os listener local_addr turns with
  | (Ok None, s) => serving_ok cap s /\ exists outcomes, run config_path turns (first_state rt) outcomes s
  | (Ok (Some outcomes), s) => loop_ends cap config_path turns (first_state rt) outcomes s /\
      workers s = [] /\ active_connections s = 0 /\ runtime_ok (runtime s) /\ spawned s = total_admitted outcomes
  | (Err e, s) => serving_ok cap s /\ ((s = first_state rt /\ setup_fails os rt listener local_addr e) \/ loop_fails cap config_path turns (first_state rt) e)
  | (Panic, _) | (Fuel, _) => False
  end.
Proof.
  pose proof (serve_spec cap rt config_path os listener local_addr turns Hrt Hcap Hos Haddr Hturns) as H.
  destruct (serve_until_with_tls rt config_path os listener local_addr turns) as [[[outcomes|]|e| |] s]; try done. split; [done|by eapply loop_ends_counts].
Qed.

(** ** Examples *)
(** A file system with one file, which every path names. *)
#[export, refine] Instance single_file : Files bytes := {
  fs_read contents _ := if decide (len contents <= usize_max) then Ok contents else Err (mkIoError Other (str "file too large"))
}.
Proof. intros contents _. by case_decide. Defined.

Definition sample_system (contents : bytes) : @System bytes unit := mkSystem contents (fun _ => Ok tt) (fun _ => Ok tt).
Definition sample_runtime : @Runtime unit := mkRuntime sample_parsed None None.

Lemma sample_system_ok (contents : bytes) : system_ok (sample_system contents).
Proof. done. Qed.
Lemma sample_runtime_ok : runtime_ok sample_runtime.
Proof. split; [|done|done]. exists []. apply sample_parsed_ok. Qed.

Lemma reload_atomic_witness :
  match reload_runtime_configuration (sample_system sample_config) (str "bareproxy.conf") sample_runtime with
  | (Ok true, rt') => runtime_ok rt'
  | _ => False
  end /\
  match reload_runtime_configuration (sample_system (str "nonsense")) (str "bareproxy.conf") sample_runtime with
  | (Ok false, rt') => rt' = sample_runtime
  | _ => False
  end.
Proof.
  split.
  - pose proof (reload_atomic (sample_system sample_config) (str "bareproxy.conf") sample_runtime sample_runtime_ok (sample_system_ok _)) as H.
    assert (Hr : (reload_runtime_configuration (sample_system sample_config) (str "bareproxy.conf") sample_runtime).1 = Ok true) by (vm_compute; reflexivity).
    destruct (reload_runtime_configuration _ _ _) as [r rt']. cbn [fst] in Hr. subst r. exact (proj2 H).
  - pose proof (reload_atomic (sample_system (str "nonsense")) (str "bareproxy.conf") sample_runtime sample_runtime_ok (sample_system_ok _)) as H.
    assert (Hr : (reload_runtime_configuration (sample_system (str "nonsense")) (str "bareproxy.conf") sample_runtime).1 = Ok false) by (vm_compute; reflexivity).
    destruct (reload_runtime_configuration _ _ _) as [r rt']. cbn [fst] in Hr. subst r. exact (proj1 H).
Defined.

(** One connection is admitted, one listener would block, a worker ends, and the shutdown is requested. *)
Definition sample_turn (shutdown : bool) (accepted : res io_error (Script * Sink)) : @Turn bytes unit Script Sink :=
  mkTurn shutdown false (sample_system sample_config) accepted (Err (mkIoError WouldBlock [])) (fun point => if (point =? 4)%nat then [0%nat] else []) (fun _ => true).

Lemma sample_turn_ok (cap : Z) (shutdown : bool) (accepted : res io_error (Script * Sink)) : returns accepted -> turn_ok cap None (sample_turn shutdown accepted).
Proof. intros Ha. split; [exact Ha|]. split; [exact I|]. split; [apply sample_system_ok|]. intros path rt rt' Hp. discriminate Hp. Qed.

Lemma serve_correct_witness :
  match serve_until_with_tls sample_runtime None (sample_system sample_config) tt (fun _ => Ok tt)
          [sample_turn false (Ok ([], new_sink)); sample_turn true (Err (mkIoError WouldBlock []))] with
  | (Ok (Some outcomes), s) => active_connections s = 0 /\ spawned s = 1%nat
  | _ => False
  end.
Proof.
  pose proof (serve_correct (max_connections sample_parsed) sample_runtime None (sample_system sample_config) tt (fun _ => Ok tt)
    [sample_turn false (Ok ([], new_sink)); sample_turn true (Err (mkIoError WouldBlock []))] sample_runtime_ok) as H.
  assert (Hr : (serve_until_with_tls sample_runtime None (sample_system sample_config) tt (fun _ => Ok tt)
          [sample_turn false (Ok ([], new_sink)); sample_turn true (Err (mkIoError WouldBlock []))]).1 = Ok (Some [(Some (Spawned 0), None)])) by (vm_compute; reflexivity).
  destruct (serve_until_with_tls _ _ _ _ _ _) as [r s]. cbn [fst] in Hr. subst r.
  destruct H as (_ & _ & Ha & _ & Hn); [split; [reflexivity|vm_compute; discriminate]|done|done| |by split].
  apply Forall_cons. split; [by apply sample_turn_ok|]. apply Forall_singleton. by apply sample_turn_ok.
Defined.
