(* ===== verification/App.v ===== *)
(** * Starting the program: [src/app.rs]

    The command line, and the way from a configuration file to the main loop of [Runtime]: what is loaded, bound and
    handed over, and the errors and exit codes of what goes wrong. *)
From Stdlib Require Import ZArith Lia.
From stdpp Require Import prelude.
From S2P Require Import Prelude Bytes NetAddr Http Config Io ProxyHead ProxyBody ProxySession Tunnel Server TlsIdentity Runtime.
Local Open Scope Z_scope.
Set Warnings "-clear-no-such-hyp".

(** ** The command line *)
Definition DEFAULT_CONFIG_PATH : bytes := str "bareproxy.conf".
Definition STARTUP_ERROR_EXIT_CODE : Z := 1.
Definition CLI_ERROR_EXIT_CODE : Z := 2.

Inductive Command : Type :=
| Run (config_path : bytes)
| TlsProbe (certificate_path private_key_path : bytes)
| TlsConfigProbe (config_path : bytes)
| TlsClientProbe (server_name address : bytes)
| Help
| Version.

Inductive AppError : Type :=
| UnknownArgument (argument : bytes)
| MissingConfigPath
| MissingTlsProbeArguments
| MissingTlsConfigProbePath
| MissingTlsClientProbeArguments
| TooManyArguments
| Config_app (message : bytes)
| ListenerBind (address message : bytes)
| Server_app (message : bytes)
| TlsProbe_app (message : bytes)
| TlsClientProbe_app (message : bytes).

Definition app_error_to_string (e : AppError) : bytes :=
  match e with
  | UnknownArgument argument => str "unknown argument: " ++ argument
  | MissingConfigPath => str "--config requires a path"
  | MissingTlsProbeArguments => str "--tls-probe requires a certificate-chain PEM path and EC private-key PEM path"
  | MissingTlsConfigProbePath => str "--tls-config-probe requires a configuration path"
  | MissingTlsClientProbeArguments => str "--tls-client-probe requires an SNI server name and TCP address"
  | TooManyArguments => str "too many arguments"
  | Config_app message => str "configuration error: " ++ message
  | ListenerBind address message => str "failed to listen on " ++ address ++ str ": " ++ message
  | Server_app message => str "server error: " ++ message
  | TlsProbe_app message => str "TLS probe error: " ++ message
  | TlsClientProbe_app message => str "TLS client probe error: " ++ message
  end.

Definition exit_code (e : AppError) : Z :=
  match e with
  | Config_app _ | ListenerBind _ _ | Server_app _ | TlsProbe_app _ | TlsClientProbe_app _ => STARTUP_ERROR_EXIT_CODE
  | UnknownArgument _ | MissingConfigPath | MissingTlsProbeArguments | MissingTlsConfigProbePath | MissingTlsClientProbeArguments | TooManyArguments => CLI_ERROR_EXIT_CODE
  end.

(** [args.next()]. *)
Definition next_arg (args : list bytes) : option bytes * list bytes :=
  match args with
  | [] => (None, [])
  | a :: args' => (Some a, args')
  end.

(** The command, and the arguments that are left. *)
Definition parse_command (args : list bytes) : res AppError (Command * list bytes) :=
  match next_arg args with
  | (None, args) => Ok (Run DEFAULT_CONFIG_PATH, args)
  | (Some first, args) =>
      if bytes_eqb first (str "--help") || bytes_eqb first (str "-h") then Ok (Help, args)
      else if bytes_eqb first (str "--version") || bytes_eqb first (str "-V") then Ok (Version, args)
      else if bytes_eqb first (str "--config") || bytes_eqb first (str "-c") then
        let '(config_path, args) := next_arg args in
        let? config_path := ok_or config_path MissingConfigPath in
        Ok (Run config_path, args)
      else if bytes_eqb first (str "--tls-probe") then
        let '(certificate_path, args) := next_arg args in
        let? certificate_path := ok_or certificate_path MissingTlsProbeArguments in
        let '(private_key_path, args) := next_arg args in
        let? private_key_path := ok_or private_key_path MissingTlsProbeArguments in
        Ok (TlsProbe certificate_path private_key_path, args)
      else if bytes_eqb first (str "--tls-config-probe") then
        let '(config_path, args) := next_arg args in
        let? config_path := ok_or config_path MissingTlsConfigProbePath in
        Ok (TlsConfigProbe config_path, args)
      else if bytes_eqb first (str "--tls-client-probe") then
        let '(server_name, args) := next_arg args in
        let? server_name := ok_or server_name MissingTlsClientProbeArguments in
        let '(address, args) := next_arg args in
        let? address := ok_or address MissingTlsClientProbeArguments in
        Ok (TlsClientProbe server_name address, args)
      else Err (UnknownArgument first)
  end.

Definition parse_args (args : list bytes) : res AppError Command :=
  let? (command, args) := parse_command args in
  match next_arg args with
  | (Some _, _) => Err TooManyArguments
  | (None, _) => Ok command
  end.

(** ** Starting the proxy *)
Definition DEV_LISTEN_ADDR : bytes := str "127.0.0.1:8080".

Section start.
Context {FS L R W : Type} `{!Files FS} `{!Read R} `{!Write W}.

Definition bind_listener (os : @System FS L) : res io_error L := bind os DEV_LISTEN_ADDR.

(** What [serve] is started with. *)
Definition prepare (os : @System FS L) (config_path : bytes) : res AppError (L * @Runtime L) :=
  let? (config, tls_identity_files) :=
    map_err (fun e => Config_app (config_error_to_string e)) (load_with_tls (fun path => map_err message (fs_read_to_string (file_system os) path)) config_path) in
  let? tls_identities := map_err (fun e => Config_app (str "TLS identity error: " ++ message e)) (load_files (file_system os) tls_identity_files) in
  let? tls_listener :=
    (if is_some tls_identities then
       let? l := map_err (fun e => ListenerBind (https_listen_addr config) (message e)) (bind os (https_listen_addr config)) in
       Ok (Some l)
     else Ok None) in
  let? listener := map_err (fun e => ListenerBind DEV_LISTEN_ADDR (message e)) (bind_listener os) in
  Ok (listener, mkRuntime config tls_listener tls_identities).

Definition serve (rt : @Runtime L) (config_path : bytes) (os : @System FS L) (listener : L) (local_addr : L -> res io_error unit) (turns : list (@Turn FS L R W)) :=
  serve_until_with_tls rt (Some config_path) os listener local_addr turns.

(** The result, and the state of the loop once it was entered. *)
Definition start_proxy (os : @System FS L) (local_addr : L -> res io_error unit) (turns : list (@Turn FS L R W)) (config_path : bytes) :
  res AppError (option (list (option (@Accepted R W) * option (@Accepted R W)))) * option (@Serving L) :=
  match prepare os config_path with
  | Ok (listener, rt) =>
      let '(served, s) := serve rt config_path os listener local_addr turns in
      (map_err (fun e => Server_app (message e)) served, Some s)
  | Err e => (Err e, None)
  | Panic => (Panic, None)
  | Fuel => (Fuel, None)
  end.
End start.

(** ** What the arguments mean *)
(** The ways to write a command. *)
Inductive written_as : Command -> list bytes -> Prop :=
| written_default : written_as (Run DEFAULT_CONFIG_PATH) []
| written_help flag : flag ∈ [str "--help"; str "-h"] -> written_as Help [flag]
| written_version flag : flag ∈ [str "--version"; str "-V"] -> written_as Version [flag]
| written_run flag path : flag ∈ [str "--config"; str "-c"] -> written_as (Run path) [flag; path]
| written_probe certificate key : written_as (TlsProbe certificate key) [str "--tls-probe"; certificate; key]
| written_config_probe path : written_as (TlsConfigProbe path) [str "--tls-config-probe"; path]
| written_client_probe name address : written_as (TlsClientProbe name address) [str "--tls-client-probe"; name; address].

Lemma either_flag (first a b : bytes) : bytes_eqb first a || bytes_eqb first b = true <-> first ∈ [a; b].
Proof. rewrite orb_true_iff, !bytes_eqb_eq, !elem_of_cons, elem_of_nil. naive_solver. Qed.

(** The command line is accepted exactly when it is written as some command, which is the one meant; any other is refused
    with the exit code of the command line, and nothing panics. *)
Theorem parse_args_correct (args : list bytes) :
  (forall command, parse_args args = Ok command <-> written_as command args) /\
  match parse_args args with
  | Ok _ => True
  | Err e => exit_code e = CLI_ERROR_EXIT_CODE
  | Panic | Fuel => False
  end.
Proof.
  split.
  - intros command. split.
    + unfold parse_args, parse_command. destruct args as [|first args]; cbn [next_arg].
      { intros H. injection H as <-. constructor. }
      destruct (bytes_eqb first (str "--help") || _) eqn:E1; [|destruct (bytes_eqb first (str "--version") || _) eqn:E2; [|destruct (bytes_eqb first (str "--config") || _) eqn:E3;
        [|destruct (bytes_eqb first (str "--tls-probe")) eqn:E4; [|destruct (bytes_eqb first (str "--tls-config-probe")) eqn:E5; [|destruct (bytes_eqb first (str "--tls-client-probe")) eqn:E6; [|done]]]]]];
        rewrite ?either_flag, ?bytes_eqb_eq in *; subst; destruct args as [|a [|b [|c args]]]; cbn; intros H; try discriminate H; injection H as <-; by constructor.
    + intros [| flag Hf | flag Hf | flag path Hf | | | ]; try reflexivity; rewrite !elem_of_cons, elem_of_nil in Hf; destruct Hf as [->|[->|[]]]; reflexivity.
  - unfold parse_args, parse_command. destruct args as [|first args]; cbn [next_arg]; [done|].
    destruct (bytes_eqb first (str "--help") || _); [by destruct args|]. destruct (bytes_eqb first (str "--version") || _); [by destruct args|].
    destruct (bytes_eqb first (str "--config") || _); [by destruct args as [|a [|]]|]. destruct (bytes_eqb first (str "--tls-probe")); [by destruct args as [|a [|b [|]]]|].
    destruct (bytes_eqb first (str "--tls-config-probe")); [by destruct args as [|a [|]]|]. by destruct (bytes_eqb first (str "--tls-client-probe")); [destruct args as [|a [|b [|]]]|].
Qed.

(** ** What starting the proxy comes to *)
Section start_correct.
Context {FS L R W : Type} `{!Files FS} `{!Read R} `{!Write W}.
Implicit Types (os : @System FS L).

(** Loaded, bound and handed over at one time. *)
Definition prepared os (path : bytes) (listener : L) (rt : @Runtime L) : Prop :=
  bind os DEV_LISTEN_ADDR = Ok listener /\
  exists files, load_at os path = Ok (configuration rt, files) /\ load_files (file_system os) files = Ok (tls_identities rt) /\
    match tls_identities rt with
    | None => https_listener rt = None
    | Some _ => exists l, bind os (https_listen_addr (configuration rt)) = Ok l /\ https_listener rt = Some l
    end.

(** Why the proxy does not start. *)
Definition cannot_start os (path : bytes) (e : AppError) : Prop :=
  match e with
  | Config_app _ => (exists cause, load_at os path = Err cause) \/ exists c files cause, load_at os path = Ok (c, files) /\ load_files (file_system os) files = Err cause
  | ListenerBind address m => exists cause, bind os address = Err cause /\ m = message cause
  | _ => False
  end.

Lemma prepare_spec os (path : bytes) : system_ok os ->
  match prepare os path with
  | Ok (listener, rt) => prepared os path listener rt /\ runtime_ok rt
  | Err e => cannot_start os path e
  | Panic | Fuel => False
  end.
Proof.
  intros [Hb _]. unfold prepare, bind_listener. fold (load_at os path). pose proof (load_at_spec os path) as Hl. destruct (load_at os path) as [[c files]|e| |] eqn:El; cbn [map_err res_bind]; try done; [|left; by exists e].
  pose proof (load_files_spec (file_system os) files) as Hf. destruct (load_files (file_system os) files) as [store|e| |] eqn:Ef; cbn [map_err res_bind]; try done; [|right; by exists c, files, e].
  assert (Hmain : forall tls_listener, match store with None => tls_listener = None | Some _ => exists l, bind os (https_listen_addr c) = Ok l /\ tls_listener = Some l end ->
    match (let? listener := map_err (fun e => ListenerBind DEV_LISTEN_ADDR (message e)) (bind os DEV_LISTEN_ADDR) in Ok (listener, mkRuntime c tls_listener store)) with
    | Ok (listener, rt) => prepared os path listener rt /\ runtime_ok rt | Err e => cannot_start os path e | Panic | Fuel => False end).
  { intros tls_listener Htls. specialize (Hb DEV_LISTEN_ADDR). destruct (bind os DEV_LISTEN_ADDR) as [listener|e| |] eqn:Eb; cbn [map_err res_bind]; try done; [|by exists e].
    split; [split; [done|]; by exists files|]. split; cbn [configuration https_listener tls_identities]; [done| |exact Hf]. destruct store; [by destruct Htls as (l & _ & ->)|by rewrite Htls]. }
  destruct store as [store|]; cbn [is_some]; [|by apply Hmain].
  pose proof (Hb (https_listen_addr c)) as Hb2. destruct (bind os (https_listen_addr c)) as [l|e| |] eqn:Eb; cbn [map_err res_bind]; try done; [|by exists e].
  apply Hmain. by exists l.
Qed.

(** What a reload puts in place was loaded from the file. *)
Lemma reload_loads os (path : bytes) (rt rt' : @Runtime L) : reload_runtime_configuration os path rt = (Ok true, rt') ->
  exists files, load_at os path = Ok (configuration rt', files).
Proof.
  unfold reload_runtime_configuration. fold (load_at os path). destruct (load_at os path) as [[c files]|e| |]; cbn [map_err res_bind]; try done.
  destruct (load_files (file_system os) files) as [store|e| |]; cbn [map_err res_bind]; try done. destruct (replacement_https_listener os rt c store) as [l|e| |]; cbn [map_err res_bind]; try done.
  intros [= <-]. by exists files.
Qed.

(** C6: the program from its configuration file on. It serves only with a valid configuration, valid identities and the listeners that
    belong to them, all of one loading; the main loop then keeps its invariant to the end, under every interleaving of its
    threads, and the reloads read the same file. When it does not start, the error names the cause and the exit code is
    that of a failed start. Nothing panics. *)
Theorem start_proxy_correct (cap : Z) os (local_addr : L -> res io_error unit) (turns : list (@Turn FS L R W)) (path : bytes)
  (Hos : system_ok os) (Haddr : forall l, returns (local_addr l)) (Hcap : cap <= usize_max)
  (Hload : forall c files, load_at os path = Ok (c, files) -> max_connections c <= cap) (Hturns : Forall (turn_ok cap (Some path)) turns) :
  match start_proxy os local_addr turns path with
  | (Ok None, Some s) => serving_ok cap s /\ exists listener rt outcomes, prepared os path listener rt /\ run (Some path) turns (first_state rt) outcomes s
  | (Ok (Some outcomes), Some s) => workers s = [] /\ active_connections s = 0 /\ runtime_ok (runtime s) /\ spawned s = total_admitted outcomes /\
      exists listener rt, prepared os path listener rt /\ loop_ends cap (Some path) turns (first_state rt) outcomes s
  | (Err e, Some s) => exit_code e = STARTUP_ERROR_EXIT_CODE /\ serving_ok cap s /\ exists listener rt cause, prepared os path listener rt /\
      e = Server_app (message cause) /\ (setup_fails os rt listener local_addr cause \/ loop_fails cap (Some path) turns (first_state rt) cause)
  | (Err e, None) => exit_code e = STARTUP_ERROR_EXIT_CODE /\ cannot_start os path e
  | _ => False
  end.
Proof.
  unfold start_proxy. pose proof (prepare_spec os path Hos) as Hp. destruct (prepare os path) as [[listener rt]|e| |]; try done.
  - destruct Hp as [Hp Hrt]. pose proof Hp as (_ & files & Hl & _). unfold serve. pose proof (serve_spec cap rt (Some path) os listener local_addr turns Hrt (conj (Hload _ _ Hl) Hcap) Hos Haddr Hturns) as H.
    destruct (serve_until_with_tls rt (Some path) os listener local_addr turns) as [[[outcomes|]|e| |] s]; cbn [map_err]; try done.
    + pose proof (loop_ends_counts _ _ _ _ _ _ H) as (? & ? & ? & ?). split_and!; try done. by exists listener, rt.
    + destruct H as [H (outcomes & Hr)]. split; [done|]. by exists listener, rt, outcomes.
    + destruct H as [H Hcause]. split; [done|]. split; [done|]. exists listener, rt, e. split; [done|]. split; [done|]. destruct Hcause as [[_ ?]|?]; [by left|by right].
  - split; [|done]. by destruct e.
Qed.
End start_correct.

Lemma start_proxy_correct_witness :
  match start_proxy (sample_system sample_config) (fun _ => Ok tt) [sample_turn false (Ok ([], new_sink)); sample_turn true (Err (mkIoError WouldBlock []))] (str "bareproxy.conf") with
  | (Ok (Some outcomes), Some s) => active_connections s = 0 /\ spawned s = 1%nat
  | _ => False
  end.
Proof.
  assert (Hl : load_at (sample_system sample_config) (str "bareproxy.conf") = Ok (sample_parsed, [])) by (vm_compute; reflexivity).
  assert (Hturn : forall shutdown accepted, returns accepted -> turn_ok (max_connections sample_parsed) (Some (str "bareproxy.conf")) (sample_turn shutdown accepted)).
  { intros shutdown accepted Ha. split; [exact Ha|]. split; [exact I|]. split; [apply sample_system_ok|]. intros p rt rt' [= <-] Hr. apply reload_loads in Hr as [files Hc]. change (system _) with (sample_system sample_config) in Hc.
    rewrite Hl in Hc. injection Hc as <- _. apply Z.le_refl. }
  pose proof (start_proxy_correct (max_connections sample_parsed) (sample_system sample_config) (fun _ => Ok tt)
    [sample_turn false (Ok ([], new_sink)); sample_turn true (Err (mkIoError WouldBlock []))] (str "bareproxy.conf") (sample_system_ok _)) as H.
  assert (Hr : (start_proxy (sample_system sample_config) (fun _ => Ok tt) [sample_turn false (Ok ([], new_sink)); sample_turn true (Err (mkIoError WouldBlock []))] (str "bareproxy.conf")).1 =
    Ok (Some [(Some (Spawned 0), None)])) by (vm_compute; reflexivity).
  destruct (start_proxy _ _ _ _) as [r [s|]]; cbn [fst] in Hr; subst r.
  - destruct H as (_ & Ha & _ & Hn & _); [done|vm_compute; discriminate|intros c files Hc; rewrite Hl in Hc; injection Hc as <- _; apply Z.le_refl|
      apply Forall_cons; split; [by apply Hturn|apply Forall_cons; split; [by apply Hturn|by apply Forall_nil]]|by split].
  - destruct H; [done|vm_compute; discriminate|intros c files Hc; rewrite Hl in Hc; injection Hc as <- _; apply Z.le_refl|
      apply Forall_cons; split; [by apply Hturn|apply Forall_cons; split; [by apply Hturn|by apply Forall_nil]]].
Defined.
