(* ===== verification/TlsRecord.v ===== *)
(** * TLS records: [src/tls.rs]

    The record layer of TLS 1.3: content types and alerts, plaintext and ciphertext records and the
    decoders that cut them out of a byte stream, the protection of records with ChaCha20-Poly1305
    and its sequence numbers, and the deframing of handshake messages. The decoders keep the bytes
    they have not used; a protection keeps its keys and sequence numbers. *)
From Stdlib Require Import ZArith Lia.
From stdpp Require Import prelude.
From S2P Require Import Prelude Bytes Encoding Sha256 Poly1305 ChaCha20.
Local Open Scope Z_scope.
Set Warnings "-clear-no-such-hyp".

Definition TLS_RECORD_HEADER_SIZE : nat := 5.
Definition TLS_PLAINTEXT_FRAGMENT_LIMIT : Z := 16384.
Definition TLS_INNER_PLAINTEXT_LIMIT : Z := TLS_PLAINTEXT_FRAGMENT_LIMIT + 1.
Definition TLS_CIPHERTEXT_FRAGMENT_LIMIT : Z := TLS_PLAINTEXT_FRAGMENT_LIMIT + 256.
Definition TLS_LEGACY_RECORD_VERSION : Z := 0x0303.
Definition HANDSHAKE_HEADER_SIZE : nat := 4.
Definition CHACHA20_POLY1305_TAG_SIZE : Z := 16.
Definition TLS_CHACHA20_POLY1305_CIPHERTEXT_LIMIT : Z := TLS_INNER_PLAINTEXT_LIMIT + CHACHA20_POLY1305_TAG_SIZE.

Inductive ContentType : Type := ChangeCipherSpec | Alert | Handshake | ApplicationData.

#[global] Instance ContentType_eq_dec : EqDecision ContentType.
Proof. solve_decision. Defined.

Definition content_type_code (t : ContentType) : byte :=
  match t with ChangeCipherSpec => x14 | Alert => x15 | Handshake => x16 | ApplicationData => x17 end.

(** The name that [Debug] prints. *)
Definition content_type_debug (t : ContentType) : bytes :=
  match t with
  | ChangeCipherSpec => str "ChangeCipherSpec" | Alert => str "Alert" | Handshake => str "Handshake" | ApplicationData => str "ApplicationData"
  end.

(** ** Alerts *)
Inductive TlsAlertDescription : Type :=
| CloseNotify
| UnexpectedMessage
| BadRecordMac
| RecordOverflow_alert
| HandshakeFailure
| BadCertificate
| UnsupportedCertificate
| CertificateRevoked
| CertificateExpired
| CertificateUnknown
| IllegalParameter
| UnknownCa
| AccessDenied
| DecodeError
| DecryptError
| ProtocolVersion
| InsufficientSecurity
| InternalError
| InappropriateFallback
| UserCanceled
| MissingExtension
| UnsupportedExtension
| UnrecognizedName
| BadCertificateStatusResponse
| UnknownPskIdentity
| CertificateRequired
| GeneralError
| NoApplicationProtocol
| Unknown (value : Z).

#[global] Instance TlsAlertDescription_eq_dec : EqDecision TlsAlertDescription.
Proof. solve_decision. Defined.

(** The named descriptions, with their codes and their [Debug] names. *)
Definition alert_table : list (Z * TlsAlertDescription * bytes) :=
  [(0, CloseNotify, str "CloseNotify"); (10, UnexpectedMessage, str "UnexpectedMessage"); (20, BadRecordMac, str "BadRecordMac");
   (22, RecordOverflow_alert, str "RecordOverflow"); (40, HandshakeFailure, str "HandshakeFailure"); (42, BadCertificate, str "BadCertificate");
   (43, UnsupportedCertificate, str "UnsupportedCertificate"); (44, CertificateRevoked, str "CertificateRevoked");
   (45, CertificateExpired, str "CertificateExpired"); (46, CertificateUnknown, str "CertificateUnknown");
   (47, IllegalParameter, str "IllegalParameter"); (48, UnknownCa, str "UnknownCa"); (49, AccessDenied, str "AccessDenied");
   (50, DecodeError, str "DecodeError"); (51, DecryptError, str "DecryptError"); (70, ProtocolVersion, str "ProtocolVersion");
   (71, InsufficientSecurity, str "InsufficientSecurity"); (80, InternalError, str "InternalError");
   (86, InappropriateFallback, str "InappropriateFallback"); (90, UserCanceled, str "UserCanceled");
   (109, MissingExtension, str "MissingExtension"); (110, UnsupportedExtension, str "UnsupportedExtension");
   (112, UnrecognizedName, str "UnrecognizedName"); (113, BadCertificateStatusResponse, str "BadCertificateStatusResponse");
   (115, UnknownPskIdentity, str "UnknownPskIdentity"); (116, CertificateRequired, str "CertificateRequired");
   (117, GeneralError, str "GeneralError"); (120, NoApplicationProtocol, str "NoApplicationProtocol")].

Definition from_code (value : Z) : TlsAlertDescription :=
  match List.find (fun '(c, _, _) => c =? value) alert_table with
  | Some (_, d, _) => d
  | None => Unknown value
  end.

Definition code (d : TlsAlertDescription) : Z :=
  match d with
  | Unknown value => value
  | _ => match List.find (fun '(_, e, _) => bool_decide (e = d)) alert_table with Some (c, _, _) => c | None => 0 end
  end.

Definition alert_description_debug (d : TlsAlertDescription) : bytes :=
  match d with
  | Unknown value => str "Unknown(" ++ to_dec value ++ str ")"
  | _ => match List.find (fun '(_, e, _) => bool_decide (e = d)) alert_table with Some (_, _, n) => n | None => [] end
  end.

Definition is_closure (d : TlsAlertDescription) : bool := match d with CloseNotify | UserCanceled => true | _ => false end.

Record TlsAlert : Type := mkAlert { level : Z; description : TlsAlertDescription }.
Definition close_notify : TlsAlert := mkAlert 1 CloseNotify.

(** ** Errors *)
Inductive RecordDirection : Type := Read | Write.

Inductive TlsRecordError : Type :=
| UnknownContentType (content_type : byte)
| RecordOverflow (length maximum : Z)
| EmptyHandshakeFragment
| InvalidAlertLength (length : Z)
| InvalidChangeCipherSpec
| UnprotectedApplicationData
| InterleavedHandshake (next_type : ContentType)
| HandshakeNotAligned (buffered_bytes : Z)
| InvalidCiphertextContentType (content_type : byte)
| InvalidCiphertextVersion (version : Z)
| CiphertextOverflow (length maximum : Z)
| CiphertextTooShort (length minimum : Z)
| InnerPlaintextOverflow (length maximum : Z)
| MissingInnerContentType
| InvalidInnerContentType (content_type : byte)
| SequenceNumberExhausted (direction : RecordDirection)
| Aead (e : ChaCha20Poly1305Error)
| InvalidFatalAlertDescription (description : TlsAlertDescription)
| WriteAfterCloseNotify
| CloseNotifyAlreadySent
| ConnectionFailed
| UnexpectedProtectedContentType (content_type : ContentType).

(** [{:04x}] *)
Definition hex4 (v : Z) : bytes := let digits := to_hex v in repeat x30 (4 - length digits) ++ digits.

Definition record_error_to_string (e : TlsRecordError) : bytes :=
  match e with
  | UnknownContentType content_type => str "unsupported TLS content type " ++ to_dec (u8 content_type)
  | RecordOverflow length maximum =>
      str "TLS plaintext fragment is " ++ to_dec length ++ str " bytes, exceeding the " ++ to_dec maximum ++ str "-byte limit"
  | EmptyHandshakeFragment => str "TLS handshake records cannot contain an empty fragment"
  | InvalidAlertLength length => str "TLS alert record must contain exactly one 2-byte alert message, got " ++ to_dec length ++ str " bytes"
  | InvalidChangeCipherSpec => str "TLS change_cipher_spec compatibility record must contain the single byte 0x01"
  | UnprotectedApplicationData => str "TLS 1.3 application data cannot be serialized unprotected"
  | InterleavedHandshake next_type => str "fragmented TLS handshake message was interrupted by " ++ content_type_debug next_type
  | HandshakeNotAligned buffered_bytes =>
      str "TLS handshake has " ++ to_dec buffered_bytes ++ str " buffered byte(s) that do not end on a message boundary"
  | InvalidCiphertextContentType content_type =>
      str "TLS 1.3 ciphertext outer content type must be application_data (23), got " ++ to_dec (u8 content_type)
  | InvalidCiphertextVersion version => str "TLS 1.3 ciphertext legacy record version must be 0x0303, got 0x" ++ hex4 version
  | CiphertextOverflow length maximum =>
      str "TLS ciphertext fragment is " ++ to_dec length ++ str " bytes, exceeding the " ++ to_dec maximum ++ str "-byte limit"
  | CiphertextTooShort length minimum =>
      str "TLS ciphertext fragment is " ++ to_dec length ++ str " bytes, below the " ++ to_dec minimum ++ str "-byte minimum"
  | InnerPlaintextOverflow length maximum =>
      str "TLSInnerPlaintext is " ++ to_dec length ++ str " bytes, exceeding the " ++ to_dec maximum ++ str "-byte limit"
  | MissingInnerContentType => str "TLSInnerPlaintext contains no non-zero content type"
  | InvalidInnerContentType content_type => str "invalid TLSInnerPlaintext content type " ++ to_dec (u8 content_type)
  | SequenceNumberExhausted direction =>
      str "TLS " ++ match direction with Read => str "read" | Write => str "write" end ++ str " record sequence number is exhausted"
  | Aead e => str "TLS record AEAD failure: " ++ aead_error_to_string e
  | InvalidFatalAlertDescription description =>
      str "TLS closure alert " ++ alert_description_debug description ++ str " cannot be sent as a fatal error alert"
  | WriteAfterCloseNotify => str "TLS write side is closed after close_notify"
  | CloseNotifyAlreadySent => str "TLS close_notify was already sent"
  | ConnectionFailed => str "TLS connection is closed after a fatal alert"
  | UnexpectedProtectedContentType content_type =>
      str "unexpected protected TLS content type " ++ content_type_debug content_type ++ str " in application state"
  end.

(** The alert that answers an error. *)
Definition record_alert_description (e : TlsRecordError) : TlsAlertDescription :=
  match e with
  | UnknownContentType _ | EmptyHandshakeFragment | InvalidChangeCipherSpec | InterleavedHandshake _ | HandshakeNotAligned _
  | MissingInnerContentType | InvalidInnerContentType _ | InvalidCiphertextContentType _ | UnexpectedProtectedContentType _ => UnexpectedMessage
  | RecordOverflow _ _ | CiphertextOverflow _ _ | InnerPlaintextOverflow _ _ => RecordOverflow_alert
  | InvalidAlertLength _ => DecodeError
  | CiphertextTooShort _ _ | Aead _ => BadRecordMac
  | InvalidCiphertextVersion _ => ProtocolVersion
  | UnprotectedApplicationData | SequenceNumberExhausted _ | InvalidFatalAlertDescription _ | WriteAfterCloseNotify
  | CloseNotifyAlreadySent | ConnectionFailed => InternalError
  end.

Definition content_type_try_from (value : byte) : res TlsRecordError ContentType :=
  match value with
  | x14 => Ok ChangeCipherSpec
  | x15 => Ok Alert
  | x16 => Ok Handshake
  | x17 => Ok ApplicationData
  | _ => Err (UnknownContentType value)
  end.

Definition fatal (description : TlsAlertDescription) : res TlsRecordError TlsAlert :=
  if is_closure description then Err (InvalidFatalAlertDescription description) else Ok (mkAlert 2 description).

Definition parse_alert (fragment : bytes) : res TlsRecordError TlsAlert :=
  if negb (length fragment =? 2)%nat then Err (InvalidAlertLength (len fragment))
  else
    let? level := index fragment 0 in
    let? description := index fragment 1 in
    Ok (mkAlert (u8 level) (from_code (u8 description))).

(** ** Records *)
Record TlsPlaintextRecord : Type := mkPlaintext { content_type : ContentType; legacy_record_version : Z; fragment : bytes }.
Record TlsCiphertextRecord : Type := mkCiphertext { cipher_version : Z; encrypted_record : bytes }.

Definition validate_plaintext_fragment (content_type : ContentType) (fragment : bytes) : res TlsRecordError unit :=
  if TLS_PLAINTEXT_FRAGMENT_LIMIT <? len fragment then Err (RecordOverflow (len fragment) TLS_PLAINTEXT_FRAGMENT_LIMIT)
  else
    match content_type with
    | Handshake => if bool_decide (fragment = []) then Err EmptyHandshakeFragment else Ok tt
    | Alert => if negb (length fragment =? 2)%nat then Err (InvalidAlertLength (len fragment)) else Ok tt
    | ChangeCipherSpec => if negb (bytes_eqb fragment [x01]) then Err InvalidChangeCipherSpec else Ok tt
    | ApplicationData => Ok tt
    end.

Definition new_plaintext (content_type : ContentType) (fragment : bytes) : res TlsRecordError TlsPlaintextRecord :=
  let? _ := validate_plaintext_fragment content_type fragment in
  Ok (mkPlaintext content_type TLS_LEGACY_RECORD_VERSION fragment).

Definition alert_plaintext_record (a : TlsAlert) : res TlsRecordError TlsPlaintextRecord :=
  new_plaintext Alert [of_u8 (level a); of_u8 (code (description a))].

Definition serialize_plaintext (r : TlsPlaintextRecord) : res TlsRecordError bytes :=
  let? _ := validate_plaintext_fragment (content_type r) (fragment r) in
  if bool_decide (content_type r = ApplicationData) then Err UnprotectedApplicationData
  else Ok ([content_type_code (content_type r)] ++ be_bytes 2 (legacy_record_version r) ++ be_bytes 2 (len (fragment r) mod 65536) ++ fragment r).

Definition ciphertext_header {E : Type} (r : TlsCiphertextRecord) : res E bytes :=
  let? encoded_length := try_from u16_max (len (encrypted_record r)) in
  Ok (content_type_code ApplicationData :: be_bytes 2 (cipher_version r) ++ be_bytes 2 encoded_length).

Definition serialize_ciphertext {E : Type} (r : TlsCiphertextRecord) : res E bytes :=
  let? header := ciphertext_header r in Ok (header ++ encrypted_record r).

(** ** Cutting records out of a stream *)
Definition usize_sub {E : Type} (a b : nat) : res E nat := if (b <=? a)%nat then Ok (a - b)%nat else Panic.

(** [u16::from_be_bytes] of two bytes of the buffer. *)
Definition u16_at {E : Type} (buffer : bytes) (position : nat) : res E Z :=
  let? high := index buffer position in
  let? low := index buffer (position + 1) in
  Ok (be_value 0 [high; low]).

(** The loop of [CiphertextRecordDecoder::push]: the records cut, and what they consumed. *)
Fixpoint ciphertext_loop (fuel : nat) (buffer : bytes) (consumed : nat) (records : list TlsCiphertextRecord) :
  res TlsRecordError (list TlsCiphertextRecord * nat) :=
  match fuel with
  | O => Fuel
  | S fuel' =>
      let? available := usize_sub (length buffer) consumed in
      if (available <? TLS_RECORD_HEADER_SIZE)%nat then Ok (records, consumed)
      else
        let? content_type := index buffer consumed in
        if negb (byte_eqb content_type (content_type_code ApplicationData)) then Err (InvalidCiphertextContentType content_type)
        else
          let? legacy_record_version := u16_at buffer (consumed + 1) in
          if negb (legacy_record_version =? TLS_LEGACY_RECORD_VERSION) then Err (InvalidCiphertextVersion legacy_record_version)
          else
            let? encrypted_length := u16_at buffer (consumed + 3) in
            if TLS_CIPHERTEXT_FRAGMENT_LIMIT <? encrypted_length then Err (CiphertextOverflow encrypted_length TLS_CIPHERTEXT_FRAGMENT_LIMIT)
            else
              let record_length := (TLS_RECORD_HEADER_SIZE + Z.to_nat encrypted_length)%nat in
              if (available <? record_length)%nat then Ok (records, consumed)
              else
                let? encrypted_record := slice buffer (consumed + TLS_RECORD_HEADER_SIZE) (consumed + record_length) in
                ciphertext_loop fuel' buffer (consumed + record_length) (records ++ [mkCiphertext legacy_record_version encrypted_record])
  end.

(** What a decoder does around its loop: the buffer takes the input, and gives up what was consumed.
    After an error the whole buffer stays. *)
Definition decoder_push {A : Type} (loop : bytes -> res TlsRecordError (list A * nat)) (input : bytes) : io bytes TlsRecordError (list A) :=
  fun buffer =>
    let buffer := buffer ++ input in
    match loop buffer with
    | Ok (records, consumed) => (Ok records, drop consumed buffer)
    | Err e => (Err e, buffer)
    | Panic => (Panic, buffer)
    | Fuel => (Fuel, buffer)
    end.

Definition ciphertext_push (input : bytes) : io bytes TlsRecordError (list TlsCiphertextRecord) :=
  decoder_push (fun buffer => ciphertext_loop (S (length buffer)) buffer 0 []) input.

(** The loop of [PlaintextRecordDecoder::push]. *)
Fixpoint plaintext_loop (fuel : nat) (buffer : bytes) (consumed : nat) (records : list TlsPlaintextRecord) :
  res TlsRecordError (list TlsPlaintextRecord * nat) :=
  match fuel with
  | O => Fuel
  | S fuel' =>
      let? available := usize_sub (length buffer) consumed in
      if (available <? TLS_RECORD_HEADER_SIZE)%nat then Ok (records, consumed)
      else
        let? first := index buffer consumed in
        let? content_type := content_type_try_from first in
        let? legacy_record_version := u16_at buffer (consumed + 1) in
        let? fragment_length := u16_at buffer (consumed + 3) in
        if TLS_PLAINTEXT_FRAGMENT_LIMIT <? fragment_length then Err (RecordOverflow fragment_length TLS_PLAINTEXT_FRAGMENT_LIMIT)
        else
          let record_length := (TLS_RECORD_HEADER_SIZE + Z.to_nat fragment_length)%nat in
          if (available <? record_length)%nat then Ok (records, consumed)
          else
            let? fragment := slice buffer (consumed + TLS_RECORD_HEADER_SIZE) (consumed + record_length) in
            let? _ := validate_plaintext_fragment content_type fragment in
            plaintext_loop fuel' buffer (consumed + record_length) (records ++ [mkPlaintext content_type legacy_record_version fragment])
  end.

Definition plaintext_push (input : bytes) : io bytes TlsRecordError (list TlsPlaintextRecord) :=
  decoder_push (fun buffer => plaintext_loop (S (length buffer)) buffer 0 []) input.

(** The loop of [HandshakeDeframer::push_record]. *)
Fixpoint message_loop (fuel : nat) (buffer : bytes) (consumed : nat) (messages : list bytes) : res TlsRecordError (list bytes * nat) :=
  match fuel with
  | O => Fuel
  | S fuel' =>
      let? available := usize_sub (length buffer) consumed in
      if (available <? HANDSHAKE_HEADER_SIZE)%nat then Ok (messages, consumed)
      else
        let? b1 := index buffer (consumed + 1) in
        let? b2 := index buffer (consumed + 2) in
        let? b3 := index buffer (consumed + 3) in
        let message_length := Z.lor (Z.lor (Z.shiftl (u8 b1) 16) (Z.shiftl (u8 b2) 8)) (u8 b3) in
        let framed_length := (HANDSHAKE_HEADER_SIZE + Z.to_nat message_length)%nat in
        if (available <? framed_length)%nat then Ok (messages, consumed)
        else
          let? message := slice buffer consumed (consumed + framed_length) in
          message_loop fuel' buffer (consumed + framed_length) (messages ++ [message])
  end.

Definition push_record (record : TlsPlaintextRecord) : io bytes TlsRecordError (list bytes) :=
  fun buffer =>
    if negb (bool_decide (content_type record = Handshake)) then
      match buffer with
      | [] => (Ok [], buffer)
      | _ => (Err (InterleavedHandshake (content_type record)), buffer)
      end
    else decoder_push (fun buffer => message_loop (S (length buffer)) buffer 0 []) (fragment record) buffer.

Definition require_message_boundary (buffer : bytes) : res TlsRecordError unit :=
  match buffer with
  | [] => Ok tt
  | _ => Err (HandshakeNotAligned (len buffer))
  end.

(** ** Protecting records *)
Record Tls13RecordProtection : Type := mkProtection {
  write_key : bytes;
  write_iv : bytes;
  read_key : bytes;
  read_iv : bytes;
  write_sequence_number : option Z;
  read_sequence_number : option Z
}.

Definition new_protection (write_key write_iv read_key read_iv : bytes) : Tls13RecordProtection :=
  mkProtection write_key write_iv read_key read_iv (Some 0) (Some 0).

Definition erase (p : Tls13RecordProtection) : Tls13RecordProtection :=
  mkProtection (repeat x00 (length (write_key p))) (repeat x00 (length (write_iv p)))
    (repeat x00 (length (read_key p))) (repeat x00 (length (read_iv p))) None None.

Definition set_write_sequence (p : Tls13RecordProtection) (n : option Z) : Tls13RecordProtection :=
  mkProtection (write_key p) (write_iv p) (read_key p) (read_iv p) n (read_sequence_number p).
Definition set_read_sequence (p : Tls13RecordProtection) (n : option Z) : Tls13RecordProtection :=
  mkProtection (write_key p) (write_iv p) (read_key p) (read_iv p) (write_sequence_number p) n.

Definition nonce_byte {E : Type} (nonce : bytes) (numbered : nat * byte) : res E bytes :=
  let '(i, sequence_byte) := numbered in
  let? b := index nonce (4 + i) in
  Ok (<[(4 + i)%nat := xor_byte b sequence_byte]> nonce).

Definition tls13_record_nonce {E : Type} (static_iv : bytes) (sequence_number : Z) : res E bytes :=
  res_foldM nonce_byte static_iv (enumerate (be_bytes 8 sequence_number)).

Definition tls_ciphertext_header (encrypted_length : Z) : res TlsRecordError bytes :=
  if TLS_CIPHERTEXT_FRAGMENT_LIMIT <? encrypted_length then Err (CiphertextOverflow encrypted_length TLS_CIPHERTEXT_FRAGMENT_LIMIT)
  else
    let? encoded_length := try_from u16_max encrypted_length in
    Ok (content_type_code ApplicationData :: be_bytes 2 TLS_LEGACY_RECORD_VERSION ++ be_bytes 2 encoded_length).

Definition encode_tls_inner_plaintext (record : TlsPlaintextRecord) (padding_length : Z) : res TlsRecordError bytes :=
  let? _ := validate_plaintext_fragment (content_type record) (fragment record) in
  if bool_decide (content_type record = ChangeCipherSpec) then Err (InvalidInnerContentType (content_type_code ChangeCipherSpec))
  else if TLS_INNER_PLAINTEXT_LIMIT <? padding_length then Err (InnerPlaintextOverflow padding_length TLS_INNER_PLAINTEXT_LIMIT)
  else
    let encoded_length := len (fragment record) + 1 + padding_length in
    if TLS_INNER_PLAINTEXT_LIMIT <? encoded_length then Err (InnerPlaintextOverflow encoded_length TLS_INNER_PLAINTEXT_LIMIT)
    else Ok (fragment record ++ [content_type_code (content_type record)] ++ repeat x00 (Z.to_nat padding_length)).

(** [Iterator::rposition]. *)
Definition rposition (p : byte -> bool) (l : bytes) : option nat :=
  match position p (rev l) with Some i => Some (length l - 1 - i)%nat | None => None end.

Definition decode_tls_inner_plaintext (inner_plaintext : bytes) : res TlsRecordError TlsPlaintextRecord :=
  if TLS_INNER_PLAINTEXT_LIMIT <? len inner_plaintext then Err (InnerPlaintextOverflow (len inner_plaintext) TLS_INNER_PLAINTEXT_LIMIT)
  else
    match rposition (fun b => negb (u8 b =? 0)) inner_plaintext with
    | None => Err MissingInnerContentType
    | Some content_type_index =>
        let? encoded_content_type := index inner_plaintext content_type_index in
        match content_type_try_from encoded_content_type with
        | Ok ChangeCipherSpec | Err _ => Err (InvalidInnerContentType encoded_content_type)
        | Ok content_type =>
            let? fragment := slice_to inner_plaintext content_type_index in
            let? _ := validate_plaintext_fragment content_type fragment in
            Ok (mkPlaintext content_type TLS_LEGACY_RECORD_VERSION fragment)
        | Panic => Panic
        | Fuel => Fuel
        end
    end.

Definition validate_chacha20_poly1305_ciphertext (record : TlsCiphertextRecord) : res TlsRecordError unit :=
  if negb (cipher_version record =? TLS_LEGACY_RECORD_VERSION) then Err (InvalidCiphertextVersion (cipher_version record))
  else if TLS_CHACHA20_POLY1305_CIPHERTEXT_LIMIT <? len (encrypted_record record) then
    Err (CiphertextOverflow (len (encrypted_record record)) TLS_CHACHA20_POLY1305_CIPHERTEXT_LIMIT)
  else if len (encrypted_record record) <? CHACHA20_POLY1305_TAG_SIZE then
    Err (CiphertextTooShort (len (encrypted_record record)) CHACHA20_POLY1305_TAG_SIZE)
  else Ok tt.

(** A step that changes the state only when it succeeds. *)
Definition commit {S E A : Type} (f : S -> res E (A * S)) : io S E A :=
  fun s => match f s with
           | Ok (a, s') => (Ok a, s')
           | Err e => (Err e, s)
           | Panic => (Panic, s)
           | Fuel => (Fuel, s)
           end.

Definition encrypt_record (record : TlsPlaintextRecord) (padding_length : Z) : io Tls13RecordProtection TlsRecordError TlsCiphertextRecord :=
  commit (fun p =>
    let? sequence_number := ok_or (write_sequence_number p) (SequenceNumberExhausted Write) in
    let? inner_plaintext := encode_tls_inner_plaintext record padding_length in
    let encrypted_length := len inner_plaintext + CHACHA20_POLY1305_TAG_SIZE in
    if TLS_CHACHA20_POLY1305_CIPHERTEXT_LIMIT <? encrypted_length then
      Err (CiphertextOverflow encrypted_length TLS_CHACHA20_POLY1305_CIPHERTEXT_LIMIT)
    else
      let? header := tls_ciphertext_header encrypted_length in
      let? nonce := tls13_record_nonce (write_iv p) sequence_number in
      let? (ciphertext, tag) := map_err Aead (chacha20_poly1305_encrypt (write_key p) nonce header inner_plaintext) in
      Ok (mkCiphertext TLS_LEGACY_RECORD_VERSION (ciphertext ++ tag), set_write_sequence p (checked_add u64_max sequence_number 1))).

Definition decrypt_record (record : TlsCiphertextRecord) : io Tls13RecordProtection TlsRecordError TlsPlaintextRecord :=
  commit (fun p =>
    let? _ := validate_chacha20_poly1305_ciphertext record in
    let? sequence_number := ok_or (read_sequence_number p) (SequenceNumberExhausted Read) in
    let? ciphertext_length := usize_sub (length (encrypted_record record)) (Z.to_nat CHACHA20_POLY1305_TAG_SIZE) in
    let? ciphertext := slice_to (encrypted_record record) ciphertext_length in
    let? rest := slice_from (encrypted_record record) ciphertext_length in
    let? tag := copy_from_slice (repeat x00 16) 0 16 rest in
    let? header := ciphertext_header record in
    let? nonce := tls13_record_nonce (read_iv p) sequence_number in
    let? inner_plaintext := map_err Aead (chacha20_poly1305_decrypt (read_key p) nonce header ciphertext tag) in
    let? plaintext_record := decode_tls_inner_plaintext inner_plaintext in
    Ok (plaintext_record, set_read_sequence p (checked_add u64_max sequence_number 1))).

(** ** Streams of records
    The three loops cut one record after the other off the front of what is not consumed. [cut] says
    what is at the front: a record and its size, too few bytes, or an error. *)
(** A decoder that takes the parts of a stream one after the other, until the first error. *)
Fixpoint feed {A B : Type} (push : B -> io bytes TlsRecordError (list A)) (parts : list B) : io bytes TlsRecordError (list A) :=
  match parts with
  | [] => io_ret []
  | part :: parts' => let! records := push part in let! more := feed push parts' in io_ret (records ++ more)
  end.

Section Streams.
Context {A : Type} (cut : bytes -> res TlsRecordError (option (A * nat))).

Fixpoint drain (fuel : nat) (buffer : bytes) (consumed : nat) (records : list A) : res TlsRecordError (list A * nat) :=
  match fuel with
  | O => Fuel
  | S fuel' =>
      match cut (drop consumed buffer) with
      | Ok None => Ok (records, consumed)
      | Ok (Some (a, n)) => drain fuel' buffer (consumed + n)%nat (records ++ [a])
      | Err e => Err e
      | Panic => Panic
      | Fuel => Fuel
      end
  end.

(** The records of a whole stream, and what is left of it. *)
Inductive cuts : bytes -> list A -> bytes -> Prop :=
| cuts_stop l : cut l = Ok None -> cuts l [] l
| cuts_step l a n records rest : cut l = Ok (Some (a, n)) -> cuts (drop n l) records rest -> cuts l (a :: records) rest.

Inductive cut_fails : bytes -> TlsRecordError -> Prop :=
| fails_here l e : cut l = Err e -> cut_fails l e
| fails_later l a n e : cut l = Ok (Some (a, n)) -> cut_fails (drop n l) e -> cut_fails l e.

Hypothesis cut_size : forall l a n, cut l = Ok (Some (a, n)) -> (0 < n <= length l)%nat.
Hypothesis cut_more : forall l m a n, cut l = Ok (Some (a, n)) -> cut (l ++ m) = Ok (Some (a, n)).
Hypothesis cut_error : forall l m e, cut l = Err e -> cut (l ++ m) = Err e.
Hypothesis cut_returns : forall l, returns (cut l).

Lemma drain_cuts (fuel : nat) (buffer : bytes) (consumed : nat) (records : list A) : (consumed <= length buffer)%nat ->
  (length buffer - consumed < fuel)%nat ->
  match drain fuel buffer consumed records with
  | Ok (out, total) => exists more, out = records ++ more /\ (total <= length buffer)%nat /\ cuts (drop consumed buffer) more (drop total buffer)
  | Err e => cut_fails (drop consumed buffer) e
  | Panic | Fuel => False
  end.
Proof.
  revert consumed records. induction fuel as [|fuel IH]; intros consumed records Hc Hf; [lia|]. cbn [drain].
  pose proof (cut_returns (drop consumed buffer)) as Hr. destruct (cut (drop consumed buffer)) as [[[a n]|]|e| |] eqn:E; try done.
  - pose proof (cut_size _ _ _ E) as Hn. rewrite length_drop in Hn. specialize (IH (consumed + n)%nat (records ++ [a]) ltac:(lia) ltac:(lia)).
    rewrite <- drop_drop in IH. destruct (drain fuel _ _ _) as [[out total]|e| |]; [|by eapply fails_later|done|done].
    destruct IH as (more & -> & Ht & Hm). exists (a :: more). rewrite <- app_assoc. split_and!; [done..|]. by eapply cuts_step.
  - exists []. rewrite app_nil_r. split_and!; [done..|]. by apply cuts_stop.
  - by apply fails_here.
Qed.

Lemma cuts_det (l : bytes) (r1 r2 : list A) (s1 s2 : bytes) : cuts l r1 s1 -> cuts l r2 s2 -> r1 = r2 /\ s1 = s2.
Proof.
  intros H. revert r2 s2. induction H as [l H|l a n r s H Hc IH]; intros r2 s2 H2; inversion H2; subst; try congruence; [done|].
  rewrite H in H0. injection H0 as <- <-. by destruct (IH _ _ H1) as [-> ->].
Qed.

Lemma cuts_fails (l : bytes) (r : list A) (s : bytes) (e : TlsRecordError) : cuts l r s -> cut_fails l e -> False.
Proof.
  intros H. induction H as [l H|l a n r s H Hc IH]; intros H2; inversion H2; subst; congruence.
Qed.

Lemma fails_det (l : bytes) (e1 e2 : TlsRecordError) : cut_fails l e1 -> cut_fails l e2 -> e1 = e2.
Proof.
  intros H. revert e2. induction H as [l e H|l a n e H Hc IH]; intros e2 H2; inversion H2; subst; try congruence.
  rewrite H in H0. injection H0 as <- <-. by apply IH.
Qed.

(** Bytes that arrive later only add to what was cut. *)
Lemma cuts_more (l m : bytes) (r1 r2 : list A) (s1 s2 : bytes) : cuts l r1 s1 -> cuts (s1 ++ m) r2 s2 -> cuts (l ++ m) (r1 ++ r2) s2.
Proof.
  intros H H2. induction H as [l H|l a n r s H Hc IH]; [done|]. cbn [app]. pose proof (cut_size _ _ _ H) as Hn.
  apply (cuts_step (l ++ m) a n); [by apply cut_more|]. rewrite drop_app_le by lia. by apply IH.
Qed.

Lemma fails_more (l m : bytes) (r1 : list A) (s1 : bytes) (e : TlsRecordError) : cuts l r1 s1 -> cut_fails (s1 ++ m) e -> cut_fails (l ++ m) e.
Proof.
  intros H H2. induction H as [l H|l a n r s H Hc IH]; [done|]. pose proof (cut_size _ _ _ H) as Hn.
  apply (fails_later (l ++ m) a n); [by apply cut_more|]. rewrite drop_app_le by lia. by apply IH.
Qed.

Lemma fails_extend (l m : bytes) (e : TlsRecordError) : cut_fails l e -> cut_fails (l ++ m) e.
Proof.
  intros H. induction H as [l e H|l a n e H Hc IH]; [by apply fails_here, cut_error|]. pose proof (cut_size _ _ _ H) as Hn.
  apply (fails_later (l ++ m) a n); [by apply cut_more|]. rewrite drop_app_le by lia. exact IH.
Qed.

(** Every stream is cut to its end or fails. *)
Lemma cuts_total (l : bytes) : (exists r s, cuts l r s) \/ (exists e, cut_fails l e).
Proof.
  pose proof (drain_cuts (S (length l)) l 0 [] ltac:(lia) ltac:(lia)) as H. rewrite drop_0 in H.
  destruct (drain _ _ _ _) as [[out total]|e| |]; [|by right; exists e|done|done]. destruct H as (more & _ & _ & H). left. eauto.
Qed.

Variable loop : bytes -> res TlsRecordError (list A * nat).
Hypothesis loop_drain : forall buffer, loop buffer = drain (S (length buffer)) buffer 0 [].

Lemma decoder_push_spec (buffer input : bytes) :
  match decoder_push loop input buffer with
  | (Ok records, rest) => cuts (buffer ++ input) records rest
  | (Err e, rest) => cut_fails (buffer ++ input) e /\ rest = buffer ++ input
  | ((Panic | Fuel), _) => False
  end.
Proof.
  unfold decoder_push. rewrite loop_drain. pose proof (drain_cuts (S (length (buffer ++ input))) (buffer ++ input) 0 [] ltac:(lia) ltac:(lia)) as H.
  rewrite drop_0 in H. destruct (drain _ _ _ _) as [[out total]|e| |]; try done. by destruct H as (more & -> & _ & H).
Qed.

Lemma feed_spec (parts : list bytes) (buffer : bytes) : cut buffer = Ok None ->
  match feed (decoder_push loop) parts buffer with
  | (Ok records, rest) => cuts (buffer ++ concat parts) records rest
  | (Err e, _) => cut_fails (buffer ++ concat parts) e
  | ((Panic | Fuel), _) => False
  end.
Proof.
  revert buffer. induction parts as [|part parts IH]; intros buffer Hb; cbn [feed concat].
  { cbn. rewrite app_nil_r. by apply cuts_stop. }
  unfold io_bind. pose proof (decoder_push_spec buffer part) as H. destruct (decoder_push loop part buffer) as [[records|e| |] rest]; try done.
  - assert (Hrest : cut rest = Ok None) by (clear -H; induction H; done). specialize (IH rest Hrest).
    destruct (feed (decoder_push loop) parts rest) as [[more|e| |] rest2]; try done; rewrite app_assoc.
    + by eapply cuts_more.
    + by eapply fails_more.
  - rewrite app_assoc. destruct H as [H _]. by apply fails_extend.
Qed.
(** However a stream is cut into parts, the outcome is that of the stream. *)
Lemma feed_parts (parts parts' : list bytes) : cut [] = Ok None -> concat parts = concat parts' ->
  (feed (decoder_push loop) parts []).1 = (feed (decoder_push loop) parts' []).1 /\
  ((exists records, (feed (decoder_push loop) parts []).1 = Ok records) -> feed (decoder_push loop) parts [] = feed (decoder_push loop) parts' []).
Proof.
  intros Hn Hc. pose proof (feed_spec parts [] Hn) as H1. pose proof (feed_spec parts' [] Hn) as H2. cbn [app] in *. rewrite Hc in H1.
  destruct (feed _ parts []) as [[r1|e1| |] s1], (feed _ parts' []) as [[r2|e2| |] s2]; try done; cbn [fst].
  - by destruct (cuts_det _ _ _ _ _ H1 H2) as [-> ->].
  - exfalso. by eapply cuts_fails.
  - exfalso. by eapply cuts_fails.
  - rewrite (fails_det _ _ _ H1 H2). split; [done|]. by intros [? ?].
Qed.

Lemma feed_cuts (parts : list bytes) (records : list A) (rest : bytes) : cut [] = Ok None -> cuts (concat parts) records rest ->
  feed (decoder_push loop) parts [] = (Ok records, rest).
Proof.
  intros Hn Hc. pose proof (feed_spec parts [] Hn) as H. cbn [app] in H. destruct (feed _ parts []) as [[r|e| |] s]; try done.
  - by destruct (cuts_det _ _ _ _ _ H Hc) as [-> ->].
  - exfalso. by eapply cuts_fails.
Qed.
End Streams.

(** ** The three cuts *)
Definition ciphertext_cut (l : bytes) : res TlsRecordError (option (TlsCiphertextRecord * nat)) :=
  match l with
  | t :: v1 :: v2 :: l1 :: l2 :: rest =>
      if negb (byte_eqb t x17) then Err (InvalidCiphertextContentType t)
      else if negb (be_value 0 [v1; v2] =? 0x0303) then Err (InvalidCiphertextVersion (be_value 0 [v1; v2]))
      else if 16640 <? be_value 0 [l1; l2] then Err (CiphertextOverflow (be_value 0 [l1; l2]) 16640)
      else
        let n := Z.to_nat (be_value 0 [l1; l2]) in
        if (length rest <? n)%nat then Ok None else Ok (Some (mkCiphertext 0x0303 (take n rest), (5 + n)%nat))
  | _ => Ok None
  end.

Definition plaintext_cut (l : bytes) : res TlsRecordError (option (TlsPlaintextRecord * nat)) :=
  match l with
  | t :: v1 :: v2 :: l1 :: l2 :: rest =>
      let? content_type := content_type_try_from t in
      if 16384 <? be_value 0 [l1; l2] then Err (RecordOverflow (be_value 0 [l1; l2]) 16384)
      else
        let n := Z.to_nat (be_value 0 [l1; l2]) in
        if (length rest <? n)%nat then Ok None
        else
          let? _ := validate_plaintext_fragment content_type (take n rest) in
          Ok (Some (mkPlaintext content_type (be_value 0 [v1; v2]) (take n rest), (5 + n)%nat))
  | _ => Ok None
  end.

Definition message_cut (l : bytes) : res TlsRecordError (option (bytes * nat)) :=
  match l with
  | t :: b1 :: b2 :: b3 :: rest =>
      let n := Z.to_nat (be_value 0 [b1; b2; b3]) in
      if (length rest <? n)%nat then Ok None else Ok (Some (t :: b1 :: b2 :: b3 :: take n rest, (4 + n)%nat))
  | _ => Ok None
  end.

(** The front of the buffer behind [consumed]. *)
Lemma front_index {E : Type} (buffer l : bytes) (consumed k : nat) (b : byte) : drop consumed buffer = l -> l !! k = Some b ->
  index buffer (consumed + k) = Ok b :> res E byte.
Proof. intros <- H. apply index_Ok. by rewrite <- lookup_drop. Qed.

Lemma front_slice {E : Type} (buffer l : bytes) (consumed k n : nat) : drop consumed buffer = l -> (k + n <= length l)%nat -> (consumed <= length buffer)%nat ->
  slice buffer (consumed + k) (consumed + (k + n)) = Ok (take n (drop k l)) :> res E bytes.
Proof.
  intros <- Hl Hc. rewrite length_drop in Hl. rewrite slice_Ok by lia. rewrite drop_drop. do 2 f_equal. lia.
Qed.

Lemma front_available {E : Type} (buffer l : bytes) (consumed : nat) : drop consumed buffer = l -> (consumed <= length buffer)%nat ->
  usize_sub (length buffer) consumed = Ok (length l) :> res E nat.
Proof. intros <- Hc. unfold usize_sub. rewrite (proj2 (Nat.leb_le _ _)) by lia. by rewrite length_drop. Qed.

Lemma be_value_2 (a b : byte) : 0 <= be_value 0 [a; b] < 65536.
Proof. pose proof (be_value_range [a; b]). exact H. Qed.

Lemma byte_eqb_sym' (a b : byte) : byte_eqb a b = byte_eqb b a.
Proof. apply eq_true_iff_eq. rewrite !byte_eqb_eq. by split. Qed.

Lemma ciphertext_cut_spec (buffer l : bytes) (consumed : nat) : drop consumed buffer = l -> (consumed <= length buffer)%nat ->
  match ciphertext_cut l with Ok (Some (r, n)) => (0 < n <= length l)%nat | Ok None | Err _ => True | Panic | Fuel => False end.
Proof.
  intros _ _. unfold ciphertext_cut. destruct l as [|t [|v1 [|v2 [|l1 [|l2 rest]]]]]; try done. do 3 (destruct (_ : bool); [done|]).
  destruct (Nat.ltb_spec (length rest) (Z.to_nat (be_value 0 [l1; l2]))); [done|]. cbn [length]. lia.
Qed.

Lemma front_u16 {E : Type} (buffer l : bytes) (consumed k : nat) (a b : byte) : drop consumed buffer = l -> l !! k = Some a -> l !! S k = Some b ->
  u16_at buffer (consumed + k) = Ok (be_value 0 [a; b]) :> res E Z.
Proof.
  intros Hl Ha Hb. unfold u16_at. rewrite (front_index buffer l consumed k a Hl Ha). cbn [res_bind]. rewrite <- Nat.add_assoc, Nat.add_1_r.
  by rewrite (front_index buffer l consumed (S k) b Hl Hb).
Qed.

Lemma ciphertext_loop_drain (fuel : nat) (buffer : bytes) (consumed : nat) (records : list TlsCiphertextRecord) : (consumed <= length buffer)%nat ->
  ciphertext_loop fuel buffer consumed records = drain ciphertext_cut fuel buffer consumed records.
Proof.
  revert consumed records. induction fuel as [|fuel IH]; intros consumed records Hc; [done|]. cbn [ciphertext_loop drain].
  pose proof (length_drop buffer consumed) as Hlen. destruct (drop consumed buffer) as [|t [|v1 [|v2 [|l1 [|l2 rest]]]]] eqn:El;
    rewrite (front_available buffer _ consumed El Hc); cbn [res_bind length] in *; try done.
  change (S (S (S (S (S (length rest))))) <? TLS_RECORD_HEADER_SIZE)%nat with false. cbv iota.
  pose proof (front_index (E := TlsRecordError) buffer _ consumed 0 t El eq_refl) as I0. rewrite Nat.add_0_r in I0. rewrite I0. cbn [res_bind].
  rewrite (front_u16 buffer _ consumed 1 v1 v2 El), (front_u16 buffer _ consumed 3 l1 l2 El) by done. unfold ciphertext_cut.
  change (content_type_code ApplicationData) with x17. destruct (byte_eqb t x17); [|done]. cbn [negb res_bind]. change TLS_LEGACY_RECORD_VERSION with 0x0303.
  destruct (Z.eqb_spec (be_value 0 [v1; v2]) 0x0303) as [Ev|]; [|done]. cbn [negb res_bind]. change TLS_CIPHERTEXT_FRAGMENT_LIMIT with 16640.
  destruct (16640 <? be_value 0 [l1; l2]); [done|]. set (n := Z.to_nat (be_value 0 [l1; l2])). unfold TLS_RECORD_HEADER_SIZE.
  destruct (Nat.ltb_spec (length rest) n) as [Hn|Hn]; [by rewrite (proj2 (Nat.ltb_lt _ _)) by lia|]. rewrite (proj2 (Nat.ltb_ge _ _)) by lia.
  rewrite (front_slice buffer _ consumed 5 n El) by (cbn [length]; lia). cbn [res_bind drop]. rewrite drop_0, Ev. apply IH. lia.
Qed.

Lemma plaintext_loop_drain (fuel : nat) (buffer : bytes) (consumed : nat) (records : list TlsPlaintextRecord) : (consumed <= length buffer)%nat ->
  plaintext_loop fuel buffer consumed records = drain plaintext_cut fuel buffer consumed records.
Proof.
  revert consumed records. induction fuel as [|fuel IH]; intros consumed records Hc; [done|]. cbn [plaintext_loop drain].
  pose proof (length_drop buffer consumed) as Hlen. destruct (drop consumed buffer) as [|t [|v1 [|v2 [|l1 [|l2 rest]]]]] eqn:El;
    rewrite (front_available buffer _ consumed El Hc); cbn [res_bind length] in *; try done.
  change (S (S (S (S (S (length rest))))) <? TLS_RECORD_HEADER_SIZE)%nat with false. cbv iota.
  pose proof (front_index (E := TlsRecordError) buffer _ consumed 0 t El eq_refl) as I0. rewrite Nat.add_0_r in I0. rewrite I0. cbn [res_bind].
  rewrite (front_u16 buffer _ consumed 1 v1 v2 El), (front_u16 buffer _ consumed 3 l1 l2 El) by done. unfold plaintext_cut.
  destruct (content_type_try_from t) as [ct|e| |]; try done. cbn [res_bind]. change TLS_PLAINTEXT_FRAGMENT_LIMIT with 16384.
  destruct (16384 <? be_value 0 [l1; l2]); [done|]. set (n := Z.to_nat (be_value 0 [l1; l2])). unfold TLS_RECORD_HEADER_SIZE.
  destruct (Nat.ltb_spec (length rest) n) as [Hn|Hn]; [by rewrite (proj2 (Nat.ltb_lt _ _)) by lia|]. rewrite (proj2 (Nat.ltb_ge _ _)) by lia.
  rewrite (front_slice buffer _ consumed 5 n El) by (cbn [length]; lia). cbn [res_bind drop]. rewrite drop_0.
  destruct (validate_plaintext_fragment ct (take n rest)) as [[]|e| |]; try done. cbn [res_bind]. apply IH. lia.
Qed.

Lemma be_value_3 (b1 b2 b3 : byte) : Z.lor (Z.lor (Z.shiftl (u8 b1) 16) (Z.shiftl (u8 b2) 8)) (u8 b3) = be_value 0 [b1; b2; b3].
Proof.
  pose proof (u8_range b1). pose proof (u8_range b2). pose proof (u8_range b3). rewrite !Z.shiftl_mul_pow2 by lia. change (2 ^ 16) with 65536. change (2 ^ 8) with 256.
  replace (u8 b1 * 65536) with (u8 b1 * 2 ^ 16) by (change (2 ^ 16) with 65536; lia). rewrite (lor_mul_add (u8 b1) (u8 b2 * 256) 16) by (change (2 ^ 16) with 65536; lia).
  change (2 ^ 16) with 65536. replace (u8 b1 * 65536 + u8 b2 * 256) with ((u8 b1 * 256 + u8 b2) * 2 ^ 8) by (change (2 ^ 8) with 256; lia).
  rewrite (lor_mul_add _ (u8 b3) 8) by (change (2 ^ 8) with 256; lia). change (2 ^ 8) with 256. cbn [be_value]. lia.
Qed.

Lemma message_loop_drain (fuel : nat) (buffer : bytes) (consumed : nat) (messages : list bytes) : (consumed <= length buffer)%nat ->
  message_loop fuel buffer consumed messages = drain message_cut fuel buffer consumed messages.
Proof.
  revert consumed messages. induction fuel as [|fuel IH]; intros consumed messages Hc; [done|]. cbn [message_loop drain].
  pose proof (length_drop buffer consumed) as Hlen. destruct (drop consumed buffer) as [|t [|b1 [|b2 [|b3 rest]]]] eqn:El;
    rewrite (front_available buffer _ consumed El Hc); cbn [res_bind length] in *; try done.
  change (S (S (S (S (length rest)))) <? HANDSHAKE_HEADER_SIZE)%nat with false. cbv iota.
  rewrite (front_index buffer _ consumed 1 b1 El), (front_index buffer _ consumed 2 b2 El), (front_index buffer _ consumed 3 b3 El) by done. cbn [res_bind].
  rewrite be_value_3. unfold message_cut. set (n := Z.to_nat (be_value 0 [b1; b2; b3])). unfold HANDSHAKE_HEADER_SIZE.
  destruct (Nat.ltb_spec (length rest) n) as [Hn|Hn]; [by rewrite (proj2 (Nat.ltb_lt _ _)) by lia|]. rewrite (proj2 (Nat.ltb_ge _ _)) by lia.
  pose proof (front_slice (E := TlsRecordError) buffer _ consumed 0 (4 + n) El ltac:(cbn [length]; lia) Hc) as Hsl. rewrite Nat.add_0_r, Nat.add_0_l in Hsl. rewrite Hsl.
  cbn [res_bind drop take Nat.add]. apply IH. lia.
Qed.

(** The cuts are cuts: whole records, that later bytes do not change. *)
Lemma ciphertext_cut_size l a n : ciphertext_cut l = Ok (Some (a, n)) -> (0 < n <= length l)%nat.
Proof. intros H. pose proof (ciphertext_cut_spec l l 0 eq_refl ltac:(lia)) as Hs. by rewrite H in Hs. Qed.

Lemma ciphertext_cut_more l m a n : ciphertext_cut l = Ok (Some (a, n)) -> ciphertext_cut (l ++ m) = Ok (Some (a, n)).
Proof.
  unfold ciphertext_cut. destruct l as [|t [|v1 [|v2 [|l1 [|l2 rest]]]]]; try done. cbn [app]. do 3 (destruct (_ : bool); [done|]).
  set (k := Z.to_nat (be_value 0 [l1; l2])). destruct (Nat.ltb_spec (length rest) k) as [|Hk]; [done|].
  rewrite (proj2 (Nat.ltb_ge _ _)) by (rewrite length_app; lia). by rewrite take_app_le by lia.
Qed.

Lemma ciphertext_cut_error l m e : ciphertext_cut l = Err e -> ciphertext_cut (l ++ m) = Err e.
Proof.
  unfold ciphertext_cut. destruct l as [|t [|v1 [|v2 [|l1 [|l2 rest]]]]]; try done. cbn [app]. do 3 (destruct (_ : bool); [done|]). by destruct (_ <? _)%nat.
Qed.

Lemma ciphertext_cut_returns l : returns (ciphertext_cut l).
Proof. unfold ciphertext_cut. by repeat case_match. Qed.

Lemma validate_fragment_returns ct f : returns (validate_plaintext_fragment ct f).
Proof. unfold validate_plaintext_fragment. by repeat case_match. Qed.

Lemma content_type_returns b : returns (content_type_try_from b).
Proof. by destruct b. Qed.

Lemma plaintext_cut_size l a n : plaintext_cut l = Ok (Some (a, n)) -> (0 < n <= length l)%nat.
Proof.
  unfold plaintext_cut. destruct l as [|t [|v1 [|v2 [|l1 [|l2 rest]]]]]; try done. intros H. apply res_bind_Ok in H as (ct & _ & H). destruct (_ <? _); [done|].
  set (k := Z.to_nat (be_value 0 [l1; l2])) in *. destruct (Nat.ltb_spec (length rest) k) as [|Hk]; [done|]. apply res_bind_Ok in H as (u & _ & H). injection H as _ <-. cbn [length]. lia.
Qed.

Lemma plaintext_cut_more l m a n : plaintext_cut l = Ok (Some (a, n)) -> plaintext_cut (l ++ m) = Ok (Some (a, n)).
Proof.
  unfold plaintext_cut. destruct l as [|t [|v1 [|v2 [|l1 [|l2 rest]]]]]; try done. cbn [app]. intros H. apply res_bind_Ok in H as (ct & -> & H). cbn [res_bind]. destruct (_ <? _); [done|].
  set (k := Z.to_nat (be_value 0 [l1; l2])) in *. destruct (Nat.ltb_spec (length rest) k) as [|Hk]; [done|].
  rewrite (proj2 (Nat.ltb_ge _ _)) by (rewrite length_app; lia). by rewrite take_app_le by lia.
Qed.

Lemma plaintext_cut_error l m e : plaintext_cut l = Err e -> plaintext_cut (l ++ m) = Err e.
Proof.
  unfold plaintext_cut. destruct l as [|t [|v1 [|v2 [|l1 [|l2 rest]]]]]; try done. cbn [app]. destruct (content_type_try_from t) as [ct|e'| |]; try done. cbn [res_bind]. destruct (_ <? _); [done|].
  set (k := Z.to_nat (be_value 0 [l1; l2])) in *. destruct (Nat.ltb_spec (length rest) k) as [|Hk]; [done|].
  rewrite (proj2 (Nat.ltb_ge _ _)) by (rewrite length_app; lia). by rewrite take_app_le by lia.
Qed.

Lemma plaintext_cut_returns l : returns (plaintext_cut l).
Proof.
  unfold plaintext_cut. destruct l as [|t [|v1 [|v2 [|l1 [|l2 rest]]]]]; try done. apply res_bind_returns; [apply content_type_returns|]. intros ct _.
  destruct (_ <? _); [done|]. destruct (_ <? _)%nat; [done|]. apply res_bind_returns; [apply validate_fragment_returns|done].
Qed.

Lemma message_cut_size l a n : message_cut l = Ok (Some (a, n)) -> (0 < n <= length l)%nat.
Proof.
  unfold message_cut. destruct l as [|t [|b1 [|b2 [|b3 rest]]]]; try done. set (k := Z.to_nat (be_value 0 [b1; b2; b3])).
  destruct (Nat.ltb_spec (length rest) k) as [|Hk]; [done|]. intros H. injection H as _ <-. cbn [length]. lia.
Qed.

Lemma message_cut_more l m a n : message_cut l = Ok (Some (a, n)) -> message_cut (l ++ m) = Ok (Some (a, n)).
Proof.
  unfold message_cut. destruct l as [|t [|b1 [|b2 [|b3 rest]]]]; try done. cbn [app]. set (k := Z.to_nat (be_value 0 [b1; b2; b3])).
  destruct (Nat.ltb_spec (length rest) k) as [|Hk]; [done|]. rewrite (proj2 (Nat.ltb_ge _ _)) by (rewrite length_app; lia). by rewrite take_app_le by lia.
Qed.

Lemma message_cut_ok l : exists o, message_cut l = Ok o.
Proof. unfold message_cut. repeat case_match; eauto. Qed.

(** ** Serialised records are cut back *)
Definition u16_version (v : Z) : Prop := 0 <= v <= 65535.

Lemma be_bytes_2 (v : Z) : u16_version v -> exists a b, be_bytes 2 v = [a; b] /\ be_value 0 [a; b] = v.
Proof.
  intros Hv. pose proof (length_be_bytes 2 v) as Hl. destruct (be_bytes 2 v) as [|a [|b [|]]] eqn:E; try discriminate Hl. exists a, b. split; [done|].
  rewrite <- E, be_value_be_bytes. apply Z.mod_small. change (256 ^ Z.of_nat 2) with 65536. unfold u16_version in Hv. lia.
Qed.

Definition ciphertext_ok (r : TlsCiphertextRecord) : Prop := cipher_version r = 0x0303 /\ len (encrypted_record r) <= 16640.

Lemma ciphertext_cut_serialized {E : Type} (r : TlsCiphertextRecord) (rest : bytes) : ciphertext_ok r ->
  exists bs, serialize_ciphertext r = Ok bs :> res E _ /\ ciphertext_cut (bs ++ rest) = Ok (Some (r, length bs)).
Proof.
  destruct r as [v body]. intros [Hv Hl]. cbn [cipher_version encrypted_record] in *. subst v. unfold serialize_ciphertext, ciphertext_header. cbn [cipher_version encrypted_record].
  unfold try_from. rewrite (proj2 (Z.leb_le _ _)) by (unfold u16_max; lia). cbn [res_bind]. change (be_bytes 2 0x0303) with [x03; x03].
  destruct (be_bytes_2 (len body)) as (a & b & -> & Hab); [split; [apply len_nonneg|lia]|]. cbn [app].
  eexists. split; [done|]. cbn [app]. unfold ciphertext_cut. change (byte_eqb (content_type_code ApplicationData) x17) with true. cbn [negb].
  change (be_value 0 [x03; x03] =? 771) with true. cbn [negb]. rewrite Hab. rewrite (proj2 (Z.ltb_ge _ _)) by lia. unfold len. rewrite Nat2Z.id.
  rewrite (proj2 (Nat.ltb_ge _ _)) by (rewrite length_app; lia). rewrite take_app_length. done.
Qed.

Lemma plaintext_cut_serialized (r : TlsPlaintextRecord) (bs rest : bytes) : u16_version (legacy_record_version r) -> serialize_plaintext r = Ok bs ->
  plaintext_cut (bs ++ rest) = Ok (Some (r, length bs)).
Proof.
  destruct r as [ct v body]. cbn [legacy_record_version]. intros Hv H. unfold serialize_plaintext in H. cbn [content_type fragment legacy_record_version] in H.
  apply res_bind_Ok in H as ([] & Hval & H). case_bool_decide as Hct; [done|]. apply Ok_inj in H as <-.
  assert (Hl : len body <= 16384). { unfold validate_plaintext_fragment in Hval. destruct (Z.ltb_spec TLS_PLAINTEXT_FRAGMENT_LIMIT (len body)); [done|]. exact H. }
  pose proof (len_nonneg body). rewrite Z.mod_small by lia.
  destruct (be_bytes_2 v Hv) as (v1 & v2 & -> & Hv12). destruct (be_bytes_2 (len body)) as (a & b & -> & Hab); [split; lia|]. cbn [app]. unfold plaintext_cut.
  assert (content_type_try_from (content_type_code ct) = Ok ct) as -> by (by destruct ct). cbn [res_bind]. rewrite Hab, (proj2 (Z.ltb_ge _ _)) by lia. unfold len. rewrite Nat2Z.id.
  rewrite (proj2 (Nat.ltb_ge _ _)) by (rewrite length_app; lia). rewrite take_app_length, Hval. cbn [res_bind]. by rewrite Hv12.
Qed.

Lemma ciphertext_cuts (records : list TlsCiphertextRecord) : Forall ciphertext_ok records ->
  exists bss, res_mapM serialize_ciphertext records = Ok bss :> res TlsRecordError _ /\ cuts ciphertext_cut (concat bss) records [].
Proof.
  induction 1 as [|r records Hr Hall (bss & IH & Hc)]; [exists []; split; [done|by apply cuts_stop]|].
  destruct (ciphertext_cut_serialized (E := TlsRecordError) r (concat bss) Hr) as (bs & Hs & Hcut). exists (bs :: bss). cbn [res_mapM]. rewrite Hs. cbn [res_bind]. rewrite IH. cbn [res_bind].
  split; [done|]. cbn [concat]. eapply cuts_step; [exact Hcut|]. by rewrite drop_app_length.
Qed.

Lemma plaintext_cuts (records : list TlsPlaintextRecord) (bss : list bytes) : Forall (fun r => u16_version (legacy_record_version r)) records ->
  res_mapM serialize_plaintext records = Ok bss -> cuts plaintext_cut (concat bss) records [].
Proof.
  intros Hall. revert bss. induction Hall as [|r records Hr Hall IH]; intros bss H; cbn [res_mapM] in H; [apply Ok_inj in H as <-; by apply cuts_stop|].
  apply res_bind_Ok in H as (bs & Hs & H). apply res_bind_Ok in H as (bss' & Hm & H). apply Ok_inj in H as <-. cbn [concat].
  eapply cuts_step; [by apply plaintext_cut_serialized|]. rewrite drop_app_length. by apply IH.
Qed.

(** ** Handshake messages *)
(** A message of its declared length. *)
Definition framed (m : bytes) : Prop := exists t b1 b2 b3 body, m = t :: b1 :: b2 :: b3 :: body /\ len body = be_value 0 [b1; b2; b3].

Lemma message_cuts (messages : list bytes) (rest : bytes) : Forall framed messages -> message_cut rest = Ok None ->
  cuts message_cut (concat messages ++ rest) messages rest.
Proof.
  intros Hall Hr. induction Hall as [|m messages Hm Hall IH]; [by apply cuts_stop|]. destruct Hm as (t & b1 & b2 & b3 & body & Em & Hl).
  cbn [concat]. rewrite <- app_assoc. apply (cuts_step _ _ m (length m)).
  - rewrite Em. cbn [app]. unfold message_cut. rewrite <- Hl. unfold len. rewrite Nat2Z.id. rewrite (proj2 (Nat.ltb_ge _ _)) by (rewrite length_app; lia).
    by rewrite take_app_length.
  - by rewrite drop_app_length.
Qed.

Definition push_fragment (f : bytes) : io bytes TlsRecordError (list bytes) := decoder_push (fun buffer => message_loop (S (length buffer)) buffer 0 []) f.

Lemma feed_records (records : list TlsPlaintextRecord) (buffer : bytes) : Forall (fun r => content_type r = Handshake) records ->
  feed push_record records buffer = feed push_fragment (map fragment records) buffer.
Proof.
  intros Hall. revert buffer. induction Hall as [|r records Hr Hall IH]; intros buffer; [done|]. cbn [map feed]. unfold io_bind.
  assert (push_record r buffer = push_fragment (fragment r) buffer) as -> by (unfold push_record; by rewrite bool_decide_true).
  destruct (push_fragment (fragment r) buffer) as [[ms|e| |] s]; try done. by rewrite IH.
Qed.

(** ** Nonces *)
(** The nonce of a record: the number of the record under the vector. *)
Definition nonce_of (iv : bytes) (n : Z) : bytes := take 4 iv ++ xor_bytes (drop 4 iv) (be_bytes 8 n).

Lemma record_nonce_spec {E : Type} (iv : bytes) (n : Z) : length iv = 12%nat -> tls13_record_nonce iv n = Ok (nonce_of iv n) :> res E _.
Proof.
  intros Hl. unfold tls13_record_nonce, nonce_of. pose proof (length_be_bytes 8 n) as Hb.
  destruct (be_bytes 8 n) as [|b0 [|b1 [|b2 [|b3 [|b4 [|b5 [|b6 [|b7 [|]]]]]]]]]; try discriminate Hb.
  destruct iv as [|i0 [|i1 [|i2 [|i3 [|i4 [|i5 [|i6 [|i7 [|i8 [|i9 [|i10 [|i11 [|]]]]]]]]]]]]]; try discriminate Hl. reflexivity.
Qed.

Lemma length_nonce_of (iv : bytes) (n : Z) : length iv = 12%nat -> length (nonce_of iv n) = 12%nat.
Proof. intros Hl. unfold nonce_of. rewrite length_app, length_take, length_xor_bytes, length_drop, length_be_bytes. lia. Qed.

Lemma xor_byte_comm (a b : byte) : xor_byte a b = xor_byte b a.
Proof. unfold xor_byte. by rewrite Z.lxor_comm. Qed.

Lemma xor_byte_inj (a b c : byte) : xor_byte a b = xor_byte a c -> b = c.
Proof.
  intros H. apply (f_equal (fun x => xor_byte x a)) in H. rewrite !(xor_byte_comm a), !xor_byte_involutive in H. exact H.
Qed.

Lemma xor_bytes_inj (a k l : bytes) : length k = length a -> length l = length a -> xor_bytes a k = xor_bytes a l -> k = l.
Proof.
  revert k l. induction a as [|x a IH]; intros [|y k] [|z l] Hk Hl; try done. unfold xor_bytes. cbn [zip zip_with map]. intros H. injection H as H1 H2.
  apply xor_byte_inj in H1 as ->. f_equal. apply IH; [cbn in *; lia..|exact H2].
Qed.

(** Two records under one key never share a nonce. *)
Lemma nonce_of_inj (iv : bytes) (n m : Z) : length iv = 12%nat -> 0 <= n <= u64_max -> 0 <= m <= u64_max -> nonce_of iv n = nonce_of iv m -> n = m.
Proof.
  intros Hl Hn Hm H. unfold nonce_of in H. apply app_inj_1 in H as [_ H]; [|done].
  apply xor_bytes_inj in H; [|rewrite length_be_bytes, length_drop; lia..]. apply (f_equal (be_value 0)) in H. rewrite !be_value_be_bytes in H.
  change (256 ^ Z.of_nat 8) with 18446744073709551616 in H. unfold u64_max in *. rewrite !Z.mod_small in H by lia. exact H.
Qed.

(** ** Inner plaintexts *)
Lemma content_code_nonzero (ct : ContentType) : negb (u8 (content_type_code ct) =? 0) = true.
Proof. by destruct ct. Qed.

Lemma position_zeros (k : nat) (c : byte) (l : bytes) : negb (u8 c =? 0) = true ->
  position (fun b => negb (u8 b =? 0)) (repeat x00 k ++ c :: l) = Some k.
Proof. intros Hc. induction k as [|k IH]; cbn [repeat app position]; [by rewrite Hc|]. change (u8 x00 =? 0) with true. cbn [negb]. by rewrite IH. Qed.

Lemma rev_zeros (k : nat) : rev (repeat x00 k) = repeat x00 k.
Proof. induction k as [|k IH]; [done|]. cbn [repeat rev]. rewrite IH. clear. induction k as [|k IH]; [done|]. cbn [repeat app]. by rewrite IH. Qed.

Lemma rposition_padded (f : bytes) (c : byte) (k : nat) : negb (u8 c =? 0) = true ->
  rposition (fun b => negb (u8 b =? 0)) (f ++ [c] ++ repeat x00 k) = Some (length f).
Proof.
  intros Hc. unfold rposition. rewrite !rev_app_distr, rev_zeros, <- app_assoc. cbn [rev app]. rewrite position_zeros by done. f_equal. rewrite !length_app. cbn [length]. rewrite ?length_app, ?repeat_length. lia.
Qed.

Lemma encode_inner_Ok (r : TlsPlaintextRecord) (padding : Z) (inner : bytes) : 0 <= padding -> encode_tls_inner_plaintext r padding = Ok inner ->
  content_type r <> ChangeCipherSpec /\ validate_plaintext_fragment (content_type r) (fragment r) = Ok tt /\
  inner = fragment r ++ [content_type_code (content_type r)] ++ repeat x00 (Z.to_nat padding) /\ 1 <= len inner <= 16385.
Proof.
  intros Hp H. unfold encode_tls_inner_plaintext in H. apply res_bind_Ok in H as ([] & Hv & H). case_bool_decide as Hc; [done|].
  destruct (_ <? padding); [done|]. destruct (Z.ltb_spec TLS_INNER_PLAINTEXT_LIMIT (len (fragment r) + 1 + padding)) as [|Hl]; [done|]. apply Ok_inj in H as <-.
  pose proof (len_nonneg (fragment r)). assert (Hz : len (repeat x00 (Z.to_nat padding)) = padding) by (unfold len; rewrite repeat_length; lia).
  change TLS_INNER_PLAINTEXT_LIMIT with 16385 in Hl. split; [exact Hc|]. split; [done|]. split; [done|]. rewrite !len_app, Hz.
  change (len [content_type_code (content_type r)]) with 1. lia.
Qed.

Lemma decode_encoded (r : TlsPlaintextRecord) (padding : Z) (inner : bytes) : 0 <= padding -> encode_tls_inner_plaintext r padding = Ok inner ->
  decode_tls_inner_plaintext inner = Ok (mkPlaintext (content_type r) 0x0303 (fragment r)).
Proof.
  intros Hp H. apply encode_inner_Ok in H as (Hct & Hv & -> & Hl); [|done]. unfold decode_tls_inner_plaintext. rewrite (proj2 (Z.ltb_ge _ _)) by apply Hl.
  rewrite rposition_padded by apply content_code_nonzero. rewrite (index_Ok _ _ (content_type_code (content_type r))) by (rewrite lookup_app_r, Nat.sub_diag by lia; done).
  cbn [res_bind]. assert (content_type_try_from (content_type_code (content_type r)) = Ok (content_type r)) as -> by (by destruct (content_type r)).
  rewrite slice_to_Ok by (rewrite length_app; lia). rewrite take_app_length. destruct (content_type r); try done; cbn [res_bind]; by rewrite Hv.
Qed.

(** RFC 8446, 5.2: the content, its type, and zeros. *)
Definition inner_plaintext (r : TlsPlaintextRecord) (zeros : nat) : bytes := fragment r ++ [content_type_code (content_type r)] ++ repeat x00 zeros.

Lemma all_zeros (l : bytes) : Forall (fun b => negb (u8 b =? 0) = false) l -> l = repeat x00 (length l).
Proof.
  induction 1 as [|x l Hx _ IH]; [done|]. cbn [length repeat]. rewrite <- IH. f_equal. apply negb_false_iff, Z.eqb_eq in Hx. by rewrite <- (of_u8_u8 x), Hx.
Qed.

Lemma decode_inner_sound (inner : bytes) (r : TlsPlaintextRecord) : decode_tls_inner_plaintext inner = Ok r -> exists zeros, inner = inner_plaintext r zeros.
Proof.
  unfold decode_tls_inner_plaintext. destruct (_ <? _); [done|]. unfold rposition. destruct (position _ (rev inner)) as [i|] eqn:Ep; [|done].
  apply position_Some in Ep as (pre & b & post & Er & <- & _ & Hz). intros H. exists (length pre). revert H. apply (f_equal (@rev byte)) in Er. rewrite rev_involutive, rev_app_distr in Er. cbn [rev] in Er.
  rewrite (all_zeros pre Hz), rev_zeros, <- app_assoc in Er. assert (Hi : (length inner - 1 - length pre)%nat = length (rev post)) by (rewrite Er, !length_app, repeat_length; cbn [length]; lia).
  rewrite Hi, Er, (index_Ok _ _ b) by (by rewrite lookup_app_r, Nat.sub_diag by lia). cbn [res_bind]. rewrite slice_to_Ok, take_app_length by (rewrite length_app; lia). cbn [res_bind].
  assert (Hb : forall ct, content_type_try_from b = Ok ct -> b = content_type_code ct) by (intros ct; destruct b; cbn; try discriminate; by intros [= <-]).
  destruct (content_type_try_from b) as [ct|e| |]; try done. specialize (Hb ct eq_refl) as ->.
  destruct ct; try done; destruct (validate_plaintext_fragment _ _); cbn [res_bind]; intros [= <-]; done.
Qed.

Lemma encode_inner_returns (r : TlsPlaintextRecord) (padding : Z) : returns (encode_tls_inner_plaintext r padding).
Proof. unfold encode_tls_inner_plaintext. apply res_bind_returns; [apply validate_fragment_returns|]. intros [] _. by repeat case_match. Qed.

Lemma decode_inner_returns (inner : bytes) : returns (decode_tls_inner_plaintext inner).
Proof.
  unfold decode_tls_inner_plaintext. destruct (_ <? _); [done|]. unfold rposition. destruct (position _ (rev inner)) as [i|] eqn:Ep; [|done].
  apply position_lt in Ep. rewrite length_rev in Ep. apply res_bind_returns; [apply index_returns; lia|]. intros c _.
  pose proof (content_type_returns c) as Hc. destruct (content_type_try_from c) as [[]|e| |]; try done;
    rewrite slice_to_Ok by lia; cbn [res_bind]; (apply res_bind_returns; [apply validate_fragment_returns|done]).
Qed.

(** ** Sealed records *)
Record protection_ok (p : Tls13RecordProtection) : Prop := {
  ok_write_key : length (write_key p) = 32%nat;
  ok_write_iv : length (write_iv p) = 12%nat;
  ok_read_key : length (read_key p) = 32%nat;
  ok_read_iv : length (read_iv p) = 12%nat
}.

Definition header_bytes (length : Z) : bytes := x17 :: x03 :: x03 :: be_bytes 2 length.

Definition next_sequence (n : Z) : option Z := if n <? u64_max then Some (n + 1) else None.

(** The ciphertext and the tag of an inner plaintext as record number [n]. *)
Definition sealed (key iv : bytes) (n : Z) (inner : bytes) : bytes * bytes :=
  let ct := stream_xor key (nonce_of iv n) 1 inner in
  (ct, tag_of key (nonce_of iv n) (header_bytes (len inner + 16)) ct).

Lemma length_tag_of (key nonce aad ct : bytes) : length (tag_of key nonce aad ct) = 16%nat.
Proof. apply length_mac. Qed.

Lemma checked_next (n : Z) : checked_add u64_max n 1 = next_sequence n.
Proof. unfold checked_add, next_sequence. destruct (Z.leb_spec (n + 1) u64_max), (Z.ltb_spec n u64_max); try lia; done. Qed.

Lemma small_blocks (n : Z) : 0 <= n <= 100000 -> (u32_max <? div_ceil n 64) = false.
Proof.
  intros Hn. apply Z.ltb_ge. unfold div_ceil, u32_max. assert ((n + 64 - 1) / 64 <= n + 64 - 1) by (apply Z.div_le_upper_bound; lia). lia.
Qed.

Lemma encrypt_record_spec (r : TlsPlaintextRecord) (padding n : Z) (p : Tls13RecordProtection) : protection_ok p -> 0 <= padding ->
  write_sequence_number p = Some n ->
  encrypt_record r padding p =
    match encode_tls_inner_plaintext r padding with
    | Ok inner => (Ok (mkCiphertext 0x0303 ((sealed (write_key p) (write_iv p) n inner).1 ++ (sealed (write_key p) (write_iv p) n inner).2)),
                   set_write_sequence p (next_sequence n))
    | Err e => (Err e, p)
    | Panic => (Panic, p)
    | Fuel => (Fuel, p)
    end.
Proof.
  intros Hok Hp Hn. unfold encrypt_record, commit. rewrite Hn. cbn [ok_or res_bind]. destruct (encode_tls_inner_plaintext r padding) as [inner|e| |] eqn:He; try done.
  destruct (encode_inner_Ok r padding inner Hp He) as (_ & _ & _ & Hl). cbn [res_bind]. change CHACHA20_POLY1305_TAG_SIZE with 16.
  change TLS_CHACHA20_POLY1305_CIPHERTEXT_LIMIT with 16401. rewrite (proj2 (Z.ltb_ge _ _)) by lia. unfold tls_ciphertext_header. change TLS_CIPHERTEXT_FRAGMENT_LIMIT with 16640.
  rewrite (proj2 (Z.ltb_ge _ _)) by lia. unfold try_from. rewrite (proj2 (Z.leb_le _ _)) by (unfold u16_max; lia). cbn [res_bind].
  rewrite record_nonce_spec by apply Hok. cbn [res_bind]. change (content_type_code ApplicationData :: be_bytes 2 TLS_LEGACY_RECORD_VERSION ++ be_bytes 2 (len inner + 16)) with (header_bytes (len inner + 16)).
  rewrite encrypt_spec; [|apply Hok|apply length_nonce_of, Hok| |unfold u64_max; lia].
  2: { unfold header_bytes, len. cbn [length]. rewrite length_be_bytes. unfold u64_max. lia. }
  rewrite small_blocks by lia. cbn [map_err res_bind]. rewrite checked_next. done.
Qed.

Lemma decrypt_record_spec (ct tag : bytes) (n : Z) (p : Tls13RecordProtection) : protection_ok p -> read_sequence_number p = Some n ->
  length tag = 16%nat -> len ct <= 16385 ->
  decrypt_record (mkCiphertext 0x0303 (ct ++ tag)) p =
    if decide (tag = tag_of (read_key p) (nonce_of (read_iv p) n) (header_bytes (len ct + 16)) ct) then
      match decode_tls_inner_plaintext (stream_xor (read_key p) (nonce_of (read_iv p) n) 1 ct) with
      | Ok r => (Ok r, set_read_sequence p (next_sequence n))
      | Err e => (Err e, p)
      | Panic => (Panic, p)
      | Fuel => (Fuel, p)
      end
    else (Err (Aead AuthenticationFailed), p).
Proof.
  intros Hok Hn Ht Hc. pose proof (len_nonneg ct) as Hc0. unfold decrypt_record, commit, validate_chacha20_poly1305_ciphertext. cbn [cipher_version encrypted_record].
  change (negb (771 =? TLS_LEGACY_RECORD_VERSION)) with false. cbv iota. change TLS_CHACHA20_POLY1305_CIPHERTEXT_LIMIT with 16401. change CHACHA20_POLY1305_TAG_SIZE with 16.
  assert (Hlen : len (ct ++ tag) = len ct + 16) by (rewrite len_app; unfold len at 2; rewrite Ht; lia). rewrite Hlen.
  rewrite (proj2 (Z.ltb_ge 16401 _)) by lia. rewrite (proj2 (Z.ltb_ge _ 16)) by lia. cbn [res_bind]. rewrite Hn. cbn [ok_or res_bind]. unfold usize_sub.
  rewrite length_app, Ht. rewrite (proj2 (Nat.leb_le _ _)) by lia. cbn [res_bind]. change (Z.to_nat 16) with 16%nat. rewrite Nat.add_sub.
  rewrite slice_to_Ok, slice_from_Ok by (rewrite length_app; lia). cbn [res_bind]. rewrite take_app_length, drop_app_length.
  rewrite copy_from_slice_Ok by (rewrite ?repeat_length; lia). cbn [res_bind]. change (take 0 (repeat x00 16)) with (@nil byte). change (drop 16 (repeat x00 16)) with (@nil byte).
  cbn [app]. rewrite app_nil_r. unfold ciphertext_header. cbn [cipher_version encrypted_record]. rewrite Hlen. unfold try_from. rewrite (proj2 (Z.leb_le _ _)) by (unfold u16_max; lia). cbn [res_bind].
  rewrite record_nonce_spec by apply Hok. cbn [res_bind]. change (content_type_code ApplicationData :: be_bytes 2 771 ++ be_bytes 2 (len ct + 16)) with (header_bytes (len ct + 16)).
  rewrite decrypt_spec; [|apply Hok|apply length_nonce_of, Hok| |unfold u64_max; lia].
  2: { unfold header_bytes, len. cbn [length]. rewrite length_be_bytes. unfold u64_max. lia. }
  rewrite small_blocks by lia. destruct (decide _); [|done]. cbn [map_err res_bind]. destruct (decode_tls_inner_plaintext _); try done. cbn [res_bind]. by rewrite checked_next.
Qed.

(** ** Sequences of records *)
Fixpoint io_mapM {S E A B : Type} (f : A -> io S E B) (l : list A) : io S E (list B) :=
  match l with
  | [] => io_ret []
  | a :: l' => let! b := f a in let! bs := io_mapM f l' in io_ret (b :: bs)
  end.

(** What the peer reads of a record. *)
Definition received (r : TlsPlaintextRecord) : TlsPlaintextRecord := mkPlaintext (content_type r) TLS_LEGACY_RECORD_VERSION (fragment r).

Lemma sealed_lengths (key iv : bytes) (n : Z) (inner : bytes) : length key = 32%nat -> length iv = 12%nat ->
  len (sealed key iv n inner).1 = len inner /\ length (sealed key iv n inner).2 = 16%nat.
Proof.
  intros Hk Hi. unfold sealed. cbn [fst snd]. split; [|apply length_tag_of]. unfold len. rewrite length_stream_xor; [done|done|by apply length_nonce_of].
Qed.

Lemma decrypt_sealed (r : TlsPlaintextRecord) (padding n : Z) (inner : bytes) (p : Tls13RecordProtection) : protection_ok p -> 0 <= padding ->
  read_sequence_number p = Some n -> encode_tls_inner_plaintext r padding = Ok inner ->
  decrypt_record (mkCiphertext 0x0303 ((sealed (read_key p) (read_iv p) n inner).1 ++ (sealed (read_key p) (read_iv p) n inner).2)) p =
    (Ok (received r), set_read_sequence p (next_sequence n)).
Proof.
  intros Hok Hp Hn He. destruct (encode_inner_Ok r padding inner Hp He) as (_ & _ & _ & Hl).
  destruct (sealed_lengths (read_key p) (read_iv p) n inner) as [L1 L2]; [apply Hok..|]. rewrite (decrypt_record_spec _ _ n) by (done || lia). rewrite L1.
  unfold sealed at 1 2 3. cbn [fst snd]. rewrite decide_True by done. unfold sealed. cbn [fst]. rewrite stream_xor_involutive by (try apply length_nonce_of; apply Hok).
  by rewrite (decode_encoded r padding inner Hp He).
Qed.

Lemma next_sequence_range (n m : Z) : next_sequence n = Some m -> 0 <= n -> 0 <= m <= u64_max.
Proof. unfold next_sequence. destruct (Z.ltb_spec n u64_max); [|done]. intros E Hn. apply (inj Some) in E. lia. Qed.

Lemma set_write_ok (p : Tls13RecordProtection) (o : option Z) : protection_ok p -> protection_ok (set_write_sequence p o).
Proof. intros []. by split. Qed.
Lemma set_read_ok (p : Tls13RecordProtection) (o : option Z) : protection_ok p -> protection_ok (set_read_sequence p o).
Proof. intros []. by split. Qed.

(** The two ends of one direction: the same key, vector and number. *)
Record paired (w r : Tls13RecordProtection) : Prop := {
  pair_writer : protection_ok w;
  pair_reader : protection_ok r;
  pair_key : read_key r = write_key w;
  pair_iv : read_iv r = write_iv w;
  pair_sequence : read_sequence_number r = write_sequence_number w;
  pair_range : forall n, write_sequence_number w = Some n -> 0 <= n <= u64_max
}.

Lemma paired_next (w r : Tls13RecordProtection) (n : Z) : paired w r -> write_sequence_number w = Some n ->
  paired (set_write_sequence w (next_sequence n)) (set_read_sequence r (next_sequence n)).
Proof.
  intros [H1 H2 H3 H4 H5 H6] Hn. split; cbn; try done; [by apply set_write_ok|by apply set_read_ok|]. intros m Hm. eapply next_sequence_range; [exact Hm|]. by apply H6.
Qed.

(** How many records are left to a number. *)
Definition records_left (o : option Z) : Z := match o with Some n => u64_max + 1 - n | None => 0 end.

Lemma channel (records : list (TlsPlaintextRecord * Z)) (w r : Tls13RecordProtection) : paired w r -> Forall (fun rp => 0 <= rp.2) records ->
  match io_mapM (fun rp => encrypt_record rp.1 rp.2) records w with
  | (Ok cs, w') => Forall ciphertext_ok cs /\ exists r', io_mapM decrypt_record cs r = (Ok (map (fun rp => received rp.1) records), r') /\ paired w' r'
  | (Err e, _) => (e = SequenceNumberExhausted Write /\ records_left (write_sequence_number w) < len records) \/
                  (exists rp, rp ∈ records /\ encode_tls_inner_plaintext rp.1 rp.2 = Err e)
  | ((Panic | Fuel), _) => False
  end.
Proof.
  intros Hpair Hall. revert w r Hpair. induction Hall as [|[rec padding] records Hp Hall IH]; intros w r Hpair; [split; [by apply Forall_nil|]; exists r; by split|].
  cbn [io_mapM map fst snd] in *. unfold io_bind at 1. pose proof Hpair as [Hw Hr Hk Hi Hs Hrange].
  destruct (write_sequence_number w) as [n|] eqn:En.
  - rewrite (encrypt_record_spec rec padding n w Hw Hp En). pose proof (encode_inner_returns rec padding) as Hret.
    destruct (encode_tls_inner_plaintext rec padding) as [inner|e| |] eqn:Ee; try done; [|right; exists (rec, padding); split; [by left|done]].
    pose proof (paired_next w r n Hpair En) as Hnext. specialize (IH _ _ Hnext). unfold io_bind.
    destruct (io_mapM _ records _) as [[cs|e| |] w'] eqn:Em; try done.
    + destruct IH as (Hcs & r' & Hd & Hp'). split.
      * constructor; [|done]. split; [done|]. cbn [encrypted_record]. rewrite len_app. destruct (sealed_lengths (write_key w) (write_iv w) n inner) as [L1 L2]; [apply Hw..|].
        rewrite L1. unfold len at 2. rewrite L2. destruct (encode_inner_Ok rec padding inner Hp Ee) as (_ & _ & _ & Hl). lia.
      * exists r'. split; [|done]. cbn [io_mapM]. unfold io_bind. rewrite <- Hk, <- Hi.
        rewrite (decrypt_sealed rec padding n inner r Hr Hp ltac:(by rewrite Hs) Ee). by rewrite Hd.
    + destruct IH as [[-> Hlt]|(rp & Hin & He)]; [left|right; exists rp; split; [by right|done]]. split; [done|]. cbn [write_sequence_number set_write_sequence] in Hlt.
      unfold next_sequence in Hlt. specialize (Hrange n eq_refl). unfold len in *. cbn [length records_left]. destruct (Z.ltb_spec n u64_max); cbn [records_left] in Hlt; lia.
  - unfold encrypt_record, commit. rewrite En. cbn [ok_or res_bind]. left. split; [done|]. cbn [records_left]. unfold len. cbn [length]. lia.
Qed.

(** ** What the record layer does *)

(** Each decoder gives the same outcome for a stream of bytes, records and rest or error, however the stream
    is cut into the parts it is pushed, and never panics; the serialised form of records is decoded to
    these records, with nothing left. *)
Theorem record_streams_correct (parts parts' : list bytes) (sent : list TlsCiphertextRecord) (plain : list TlsPlaintextRecord) (bss : list bytes)
  (Hp : concat parts = concat parts') :
  ((feed ciphertext_push parts []).1 = (feed ciphertext_push parts' []).1 /\ returns (feed ciphertext_push parts []).1) /\
  ((feed plaintext_push parts []).1 = (feed plaintext_push parts' []).1 /\ returns (feed plaintext_push parts []).1) /\
  (Forall ciphertext_ok sent -> res_mapM serialize_ciphertext sent = Ok bss :> res TlsRecordError _ -> concat parts = concat bss ->
   feed ciphertext_push parts [] = (Ok sent, [])) /\
  (Forall (fun r => u16_version (legacy_record_version r)) plain -> res_mapM serialize_plaintext plain = Ok bss -> concat parts = concat bss ->
   feed plaintext_push parts [] = (Ok plain, [])).
Proof.
  assert (Hc : forall buffer, ciphertext_loop (S (length buffer)) buffer 0 [] = drain ciphertext_cut (S (length buffer)) buffer 0 [])
    by (intros; apply ciphertext_loop_drain; lia).
  assert (Hq : forall buffer, plaintext_loop (S (length buffer)) buffer 0 [] = drain plaintext_cut (S (length buffer)) buffer 0 [])
    by (intros; apply plaintext_loop_drain; lia).
  pose proof (feed_spec _ ciphertext_cut_size ciphertext_cut_more ciphertext_cut_error ciphertext_cut_returns _ Hc parts [] eq_refl) as Fc.
  pose proof (feed_spec _ plaintext_cut_size plaintext_cut_more plaintext_cut_error plaintext_cut_returns _ Hq parts [] eq_refl) as Fq.
  unfold ciphertext_push, plaintext_push. split_and!.
  - by eapply feed_parts; eauto using ciphertext_cut_size, ciphertext_cut_more, ciphertext_cut_error, ciphertext_cut_returns.
  - by destruct (feed _ parts []) as [[]].
  - by eapply feed_parts; eauto using plaintext_cut_size, plaintext_cut_more, plaintext_cut_error, plaintext_cut_returns.
  - clear Fc. by destruct (feed _ parts []) as [[]].
  - intros Hok Hs Hb. destruct (ciphertext_cuts sent Hok) as (bss' & Hs' & Hcut). rewrite Hs in Hs'. apply Ok_inj in Hs' as <-. rewrite <- Hb in Hcut.
    eapply feed_cuts; eauto using ciphertext_cut_size, ciphertext_cut_more, ciphertext_cut_error, ciphertext_cut_returns.
  - intros Hv Hs Hb. pose proof (plaintext_cuts plain bss Hv Hs) as Hcut. rewrite <- Hb in Hcut.
    eapply feed_cuts; eauto using plaintext_cut_size, plaintext_cut_more, plaintext_cut_error, plaintext_cut_returns.
Qed.

Lemma record_streams_correct_witness :
  feed ciphertext_push [[x17; x03]; [x03; x00; x01; xaa; x17]; [x03; x03; x00; x00]] [] =
    (Ok [mkCiphertext 0x0303 [xaa]; mkCiphertext 0x0303 []], []).
Proof.
  destruct (record_streams_correct [[x17; x03]; [x03; x00; x01; xaa; x17]; [x03; x03; x00; x00]] [[x17; x03; x03; x00; x01; xaa]; [x17; x03; x03; x00; x00]]
    [mkCiphertext 0x0303 [xaa]; mkCiphertext 0x0303 []] [] [[x17; x03; x03; x00; x01; xaa]; [x17; x03; x03; x00; x00]] eq_refl) as (_ & _ & H & _).
  apply H; [|reflexivity|reflexivity]. repeat (apply Forall_cons; split); try (apply Forall_nil; exact I); (split; [reflexivity|vm_compute; discriminate]).
Defined.

(** Handshake messages come out whole and in order, however they are spread over handshake records, and
    what is left is the beginning of the next one; another record is refused exactly while a message is
    incomplete, and the message boundary is reported exactly when nothing is left. *)
Theorem handshake_deframing_correct (records : list TlsPlaintextRecord) (messages : list bytes) (rest : bytes) (next : TlsPlaintextRecord)
  (Hh : Forall (fun r => content_type r = Handshake) records) (Hm : Forall framed messages) (Hr : message_cut rest = Ok None)
  (Hc : concat (map fragment records) = concat messages ++ rest) (Hn : content_type next <> Handshake) :
  feed push_record records [] = (Ok messages, rest) /\
  (push_record next rest = if decide (rest = []) then (Ok [], []) else (Err (InterleavedHandshake (content_type next)), rest)) /\
  (require_message_boundary rest = Ok tt <-> rest = []).
Proof.
  split_and!.
  - rewrite feed_records by done. unfold push_fragment. eapply (feed_cuts message_cut message_cut_size message_cut_more).
    + intros l m e H. destruct (message_cut_ok l) as [o Ho]. congruence.
    + intros l. destruct (message_cut_ok l) as [o ->]. done.
    + intros buffer. apply message_loop_drain. lia.
    + done.
    + rewrite Hc. by apply message_cuts.
  - unfold push_record. rewrite bool_decide_false by done. by destruct rest.
  - by destruct rest.
Qed.

Lemma handshake_deframing_correct_witness :
  feed push_record [mkPlaintext Handshake 0x0303 [x01; x00]; mkPlaintext Handshake 0x0303 [x00; x01; xaa; x02; x00]] [] =
    (Ok [[x01; x00; x00; x01; xaa]], [x02; x00]).
Proof.
  apply (handshake_deframing_correct [mkPlaintext Handshake 0x0303 [x01; x00]; mkPlaintext Handshake 0x0303 [x00; x01; xaa; x02; x00]]
    [[x01; x00; x00; x01; xaa]] [x02; x00] (mkPlaintext Alert 0x0303 [x01; x00])).
  - repeat (apply Forall_cons; split); try (apply Forall_nil; exact I); reflexivity.
  - apply Forall_cons. split; [|apply Forall_nil; exact I]. exists x01, x00, x00, x01, [xaa]. split; reflexivity.
  - reflexivity.
  - reflexivity.
  - discriminate.
Defined.

(** C11: records sealed by one end, serialised, cut anywhere on their way, decoded and opened by the other end
    are the records that were sent, in order, and both ends agree on the next number. Sealing fails only
    for a record that may not be sent, or when the 2^64 numbers are used up; nothing panics. *)
Theorem protected_channel_correct (records : list (TlsPlaintextRecord * Z)) (w r : Tls13RecordProtection)
  (Hp : paired w r) (Hl : Forall (fun rp => 0 <= rp.2) records) :
  match io_mapM (fun rp => encrypt_record rp.1 rp.2) records w with
  | (Ok sent, w') => exists bss, res_mapM serialize_ciphertext sent = Ok bss :> res TlsRecordError _ /\
      forall parts, concat parts = concat bss -> feed ciphertext_push parts [] = (Ok sent, []) /\
      exists r', io_mapM decrypt_record sent r = (Ok (map (fun rp => received rp.1) records), r') /\ paired w' r'
  | (Err e, _) => (e = SequenceNumberExhausted Write /\ records_left (write_sequence_number w) < len records) \/
                  (exists rp, rp ∈ records /\ encode_tls_inner_plaintext rp.1 rp.2 = Err e)
  | ((Panic | Fuel), _) => False
  end.
Proof.
  pose proof (channel records w r Hp Hl) as H. destruct (io_mapM _ records w) as [[sent|e| |] w']; try done. destruct H as (Hok & Hd).
  destruct (ciphertext_cuts sent Hok) as (bss & Hs & Hcut). exists bss. split; [done|]. intros parts Hparts. split; [|done]. rewrite <- Hparts in Hcut.
  unfold ciphertext_push. eapply feed_cuts; eauto using ciphertext_cut_size, ciphertext_cut_more, ciphertext_cut_error, ciphertext_cut_returns.
  intros; apply ciphertext_loop_drain; lia.
Qed.

Lemma protected_channel_correct_witness :
  match io_mapM (fun rp => encrypt_record rp.1 rp.2) [(mkPlaintext ApplicationData 0x0303 (str "hello"), 3)]
    (new_protection (repeat x01 32) (repeat x02 12) (repeat x03 32) (repeat x04 12)) with
  | (Ok sent, _) => exists r', io_mapM decrypt_record sent (new_protection (repeat x03 32) (repeat x04 12) (repeat x01 32) (repeat x02 12)) =
      (Ok [mkPlaintext ApplicationData 0x0303 (str "hello")], r')
  | _ => False
  end.
Proof.
  pose proof (protected_channel_correct [(mkPlaintext ApplicationData 0x0303 (str "hello"), 3)]
    (new_protection (repeat x01 32) (repeat x02 12) (repeat x03 32) (repeat x04 12)) (new_protection (repeat x03 32) (repeat x04 12) (repeat x01 32) (repeat x02 12))) as H.
  assert (Hp : paired (new_protection (repeat x01 32) (repeat x02 12) (repeat x03 32) (repeat x04 12))
    (new_protection (repeat x03 32) (repeat x04 12) (repeat x01 32) (repeat x02 12))).
  { split; try reflexivity; [split; reflexivity|split; reflexivity|]. intros n Hn. injection Hn as <-. vm_compute. split; discriminate. }
  specialize (H Hp). assert (Hl : Forall (fun rp : TlsPlaintextRecord * Z => 0 <= rp.2) [(mkPlaintext ApplicationData 0x0303 (str "hello"), 3)])
    by (apply Forall_cons; split; [vm_compute; discriminate|apply Forall_nil; exact I]). specialize (H Hl).
  destruct (io_mapM _ _ _) as [[sent|e| |] w'].
  - destruct H as (bss & _ & H). destruct (H bss eq_refl) as [_ (r' & Hd & _)]. exists r'. exact Hd.
  - destruct H as [[_ H]|(rp & Hin & He)]; [vm_compute in H; discriminate H|]. apply list_elem_of_singleton in Hin as ->. vm_compute in He. discriminate He.
  - exact H.
  - exact H.
Defined.

(** Sealing never panics; it moves to the next number or leaves the state as it was. *)
Lemma encrypt_record_total (r : TlsPlaintextRecord) (padding : Z) (p : Tls13RecordProtection) : protection_ok p -> 0 <= padding ->
  match encrypt_record r padding p with
  | (Ok _, p') => exists k, write_sequence_number p = Some k /\ p' = set_write_sequence p (next_sequence k)
  | (Err _, p') => p' = p
  | ((Panic | Fuel), _) => False
  end.
Proof.
  intros Hok Hp. destruct (write_sequence_number p) as [n|] eqn:En; [|by unfold encrypt_record, commit; rewrite En].
  rewrite (encrypt_record_spec r padding n p Hok Hp En). pose proof (encode_inner_returns r padding) as Hr. destruct (encode_tls_inner_plaintext r padding); try done. by exists n.
Qed.

(** Record number [n] of a direction, for a record and its padding. *)
Definition sealed_record (key iv : bytes) (n : Z) (r : TlsPlaintextRecord) (zeros : nat) : TlsCiphertextRecord :=
  mkCiphertext 0x0303 ((sealed key iv n (inner_plaintext r zeros)).1 ++ (sealed key iv n (inner_plaintext r zeros)).2).

(** What opens is a record that was sealed under the key and the number of the reader, and opening moves to the next
    number; otherwise the state is as it was. Nothing panics. *)
Lemma decrypt_record_sound (any : TlsCiphertextRecord) (p : Tls13RecordProtection) : protection_ok p ->
  match decrypt_record any p with
  | (Ok r, p') => exists k zeros, read_sequence_number p = Some k /\ any = sealed_record (read_key p) (read_iv p) k r zeros /\ p' = set_read_sequence p (next_sequence k)
  | (Err _, p') => p' = p
  | ((Panic | Fuel), _) => False
  end.
Proof.
  intros Hok. destruct any as [v body]. destruct (Z.eq_dec v 0x0303) as [->|Hv].
  2: { unfold decrypt_record, commit, validate_chacha20_poly1305_ciphertext. cbn [cipher_version]. change TLS_LEGACY_RECORD_VERSION with 0x0303.
       by rewrite (proj2 (Z.eqb_neq _ _) Hv). }
  destruct (Z_lt_ge_dec 16401 (len body)) as [Hb|Hb].
  { unfold decrypt_record, commit, validate_chacha20_poly1305_ciphertext. cbn [cipher_version encrypted_record]. change (negb (771 =? TLS_LEGACY_RECORD_VERSION)) with false.
    cbv iota. change TLS_CHACHA20_POLY1305_CIPHERTEXT_LIMIT with 16401. by rewrite (proj2 (Z.ltb_lt _ _)) by lia. }
  destruct (Z_lt_ge_dec (len body) 16) as [Hs|Hs].
  { unfold decrypt_record, commit, validate_chacha20_poly1305_ciphertext. cbn [cipher_version encrypted_record]. change (negb (771 =? TLS_LEGACY_RECORD_VERSION)) with false.
    cbv iota. change TLS_CHACHA20_POLY1305_CIPHERTEXT_LIMIT with 16401. change CHACHA20_POLY1305_TAG_SIZE with 16.
    rewrite (proj2 (Z.ltb_ge 16401 _)) by lia. by rewrite (proj2 (Z.ltb_lt _ _)) by lia. }
  destruct (read_sequence_number p) as [k|] eqn:Ek.
  + rewrite <- (take_drop (length body - 16) body). rewrite (decrypt_record_spec _ _ k); [|done|done| |].
    * set (ct := take (length body - 16) body). destruct (decide _) as [Htag|]; [|done]. set (inner := stream_xor _ _ 1 ct). pose proof (decode_inner_returns inner) as Hr.
      destruct (decode_tls_inner_plaintext inner) as [r|e| |] eqn:Ed; try done. destruct (decode_inner_sound inner r Ed) as [zeros Hz]. exists k, zeros. split; [done|]. split; [|done].
      assert (Hl : len inner = len ct) by (unfold len, inner; rewrite length_stream_xor; [done|apply Hok|apply length_nonce_of, Hok]).
      unfold sealed_record, sealed. cbn [fst snd]. rewrite <- Hz, Hl. unfold inner. rewrite stream_xor_involutive by (try apply length_nonce_of; apply Hok). by rewrite <- Htag.
    * rewrite length_drop. unfold len in *. lia.
    * unfold len in *. rewrite length_take. lia.
  + unfold decrypt_record, commit. rewrite Ek. unfold validate_chacha20_poly1305_ciphertext. cbn [cipher_version encrypted_record]. by repeat case_match; simplify_eq/=.
Qed.

Lemma decrypt_record_total (any : TlsCiphertextRecord) (p : Tls13RecordProtection) : protection_ok p ->
  match decrypt_record any p with
  | (Ok _, p') => exists k, read_sequence_number p = Some k /\ p' = set_read_sequence p (next_sequence k)
  | (Err _, p') => p' = p
  | ((Panic | Fuel), _) => False
  end.
Proof. intros Hok. pose proof (decrypt_record_sound any p Hok) as H. destruct (decrypt_record any p) as [[r|e| |] p']; try done. destruct H as (k & _ & Hk & _ & ->). by exists k. Qed.

(** No two records of one direction are sealed under the same nonce, for sequence numbers up to 2^64-1, after
    which sealing and opening are refused; a sealed record whose tag is changed is refused as a bad MAC; a
    refused record leaves the protection as it was; and opening never panics. *)
Theorem record_protection_safe (p : Tls13RecordProtection) (ct tag tag' : bytes) (n m : Z) (record : TlsPlaintextRecord) (padding : Z) (any : TlsCiphertextRecord)
  (Hok : protection_ok p) (Hn : 0 <= n <= u64_max) (Hm : 0 <= m <= u64_max) (Hl : len ct <= 16385) (Ht : length tag' = 16%nat) :
  (tls13_record_nonce (write_iv p) n = tls13_record_nonce (write_iv p) m :> res TlsRecordError _ -> n = m) /\
  (write_sequence_number p = None -> encrypt_record record padding p = (Err (SequenceNumberExhausted Write), p)) /\
  (read_sequence_number p = None -> (decrypt_record any p).2 = p /\ exists e, (decrypt_record any p).1 = Err e) /\
  (read_sequence_number p = Some n -> length tag = 16%nat -> (exists r p', decrypt_record (mkCiphertext 0x0303 (ct ++ tag)) p = (Ok r, p')) -> tag' <> tag ->
   decrypt_record (mkCiphertext 0x0303 (ct ++ tag')) p = (Err (Aead AuthenticationFailed), p)) /\
  match decrypt_record any p with
  | (Ok _, p') => exists k, read_sequence_number p = Some k /\ p' = set_read_sequence p (next_sequence k)
  | (Err _, p') => p' = p
  | ((Panic | Fuel), _) => False
  end.
Proof.
  split_and!.
  - rewrite !record_nonce_spec by apply Hok. intros H. apply Ok_inj in H. by eapply nonce_of_inj; [apply Hok|..].
  - intros Hw. unfold encrypt_record, commit. by rewrite Hw.
  - intros Hr. unfold decrypt_record, commit. rewrite Hr. unfold validate_chacha20_poly1305_ciphertext. repeat case_match; cbn; eauto; simplify_eq/=.
  - intros Hr Htag (r & p' & Hd) Hne. rewrite (decrypt_record_spec _ _ n) in Hd by done. destruct (decide _) as [->|]; [|done].
    rewrite (decrypt_record_spec _ _ n) by done. by rewrite decide_False.
  - by apply decrypt_record_total.
Qed.

(** One sealed byte: changing its tag makes opening fail as a bad MAC. *)
Lemma record_protection_safe_witness :
  decrypt_record (mkCiphertext 0x0303 ([x87; x0b] ++ repeat x00 16))
    (new_protection (repeat x03 32) (repeat x04 12) (repeat x01 32) (repeat x02 12)) =
  (Err (Aead AuthenticationFailed), new_protection (repeat x03 32) (repeat x04 12) (repeat x01 32) (repeat x02 12)).
Proof.
  destruct (record_protection_safe (new_protection (repeat x03 32) (repeat x04 12) (repeat x01 32) (repeat x02 12)) [x87; x0b]
    [xf3; xe6; xeb; xc6; x2a; x20; x88; x18; xbd; xa4; x36; x9a; x48; x93; xfc; x00] (repeat x00 16) 0 0
    (mkPlaintext ApplicationData 0x0303 []) 0 (mkCiphertext 0x0303 [])) as (_ & _ & _ & H & _).
  - split; reflexivity.
  - split; vm_compute; discriminate.
  - split; vm_compute; discriminate.
  - vm_compute; discriminate.
  - reflexivity.
  - apply H; [reflexivity|reflexivity| |vm_compute; discriminate].
    exists (mkPlaintext ApplicationData 0x0303 [x61]).
    exists (set_read_sequence (new_protection (repeat x03 32) (repeat x04 12) (repeat x01 32) (repeat x02 12)) (Some 1)).
    vm_compute. reflexivity.
Defined.
