(* ===== verification/TlsMessages.v ===== *)
(** * Reading the client's hello: [src/tls.rs]

    The reader of handshake structures, the loops that read lists with it, and
    [parse_client_hello] with its extensions. A reader is its input and an offset; a reading
    operation gives what it read and the reader after it (the code never goes on with a reader that
    failed). *)
From Stdlib Require Import ZArith Lia.
From stdpp Require Import prelude sorting.
From S2P Require Import Prelude Bytes NetAddr Sha256 TlsRecord.
Local Open Scope Z_scope.
Set Warnings "-clear-no-such-hyp".

Definition TLS_VERSION_1_3 : Z := 0x0304.
Definition TLS_CHACHA20_POLY1305_SHA256 : Z := 0x1303.
Definition TLS_GROUP_SECP256R1 : Z := 0x0017.
Definition TLS_SIGNATURE_ECDSA_SECP256R1_SHA256 : Z := 0x0403.
Definition HANDSHAKE_TYPE_CLIENT_HELLO : byte := x01.
Definition EXTENSION_SERVER_NAME : Z := 0.
Definition EXTENSION_SUPPORTED_GROUPS : Z := 10.
Definition EXTENSION_SIGNATURE_ALGORITHMS : Z := 13.
Definition EXTENSION_APPLICATION_LAYER_PROTOCOL_NEGOTIATION : Z := 16.
Definition EXTENSION_PADDING : Z := 21.
Definition EXTENSION_PRE_SHARED_KEY : Z := 41.
Definition EXTENSION_EARLY_DATA : Z := 42.
Definition EXTENSION_SUPPORTED_VERSIONS : Z := 43.
Definition EXTENSION_COOKIE : Z := 44.
Definition EXTENSION_KEY_SHARE : Z := 51.
Definition ALPN_HTTP_1_1 : bytes := str "http/1.1".

(** ** Errors *)
Inductive TlsHandshakeError : Type :=
| Truncated
| UnexpectedHandshakeType (message_type : byte)
| HandshakeLengthMismatch (declared actual : Z)
| InvalidLegacyVersion (version : Z)
| InvalidSessionIdLength (length : Z)
| InvalidCipherSuiteVector (length : Z)
| InvalidCompressionMethods
| MissingExtensions
| MalformedVector (field : bytes)
| DuplicateExtension (extension_type : Z)
| Tls13Required
| MissingRequiredExtension (extension_type : Z)
| PreSharedKeyNotLast
| InvalidServerName
| DuplicateServerName
| DuplicateKeyShareGroup (group : Z)
| KeyShareGroupNotOffered (group : Z)
| KeyShareOrderMismatch
| InvalidAlpn.

Definition handshake_error_to_string (e : TlsHandshakeError) : bytes :=
  match e with
  | Truncated => str "truncated TLS handshake structure"
  | UnexpectedHandshakeType message_type => str "expected TLS ClientHello handshake type 1, got " ++ to_dec (u8 message_type)
  | HandshakeLengthMismatch declared actual =>
      str "TLS handshake declares " ++ to_dec declared ++ str " body bytes but contains " ++ to_dec actual
  | InvalidLegacyVersion version => str "TLS 1.3 ClientHello legacy_version must be 0x0303, got 0x" ++ hex4 version
  | InvalidSessionIdLength length => str "TLS ClientHello legacy_session_id is " ++ to_dec length ++ str " bytes, exceeding 32"
  | InvalidCipherSuiteVector length => str "TLS ClientHello cipher suite vector has invalid length " ++ to_dec length
  | InvalidCompressionMethods => str "TLS 1.3 ClientHello legacy_compression_methods must contain exactly the null method"
  | MissingExtensions => str "TLS 1.3 ClientHello contains no extension block"
  | MalformedVector field => str "malformed TLS ClientHello " ++ field ++ str " vector"
  | DuplicateExtension extension_type => str "TLS ClientHello repeats extension type " ++ to_dec extension_type
  | Tls13Required => str "BareProxy requires TLS 1.3 but ClientHello does not offer version 0x0304"
  | MissingRequiredExtension extension_type => str "TLS 1.3 ClientHello is missing required extension type " ++ to_dec extension_type
  | PreSharedKeyNotLast => str "TLS ClientHello pre_shared_key extension must be the final extension"
  | InvalidServerName => str "invalid TLS server_name host_name value"
  | DuplicateServerName => str "TLS server_name list repeats a name type"
  | DuplicateKeyShareGroup group => str "TLS ClientHello contains multiple key shares for group 0x" ++ hex4 group
  | KeyShareGroupNotOffered group => str "TLS ClientHello key share group 0x" ++ hex4 group ++ str " is absent from supported_groups"
  | KeyShareOrderMismatch => str "TLS ClientHello key shares do not preserve supported_groups ordering"
  | InvalidAlpn => str "invalid application_layer_protocol_negotiation extension"
  end.

(** The alert that answers an error. *)
Definition handshake_alert_description (e : TlsHandshakeError) : TlsAlertDescription :=
  match e with
  | Truncated | HandshakeLengthMismatch _ _ | InvalidSessionIdLength _ | InvalidCipherSuiteVector _ | MissingExtensions
  | MalformedVector _ | InvalidAlpn => DecodeError
  | InvalidLegacyVersion _ | InvalidCompressionMethods | DuplicateExtension _ | PreSharedKeyNotLast | InvalidServerName
  | DuplicateServerName | DuplicateKeyShareGroup _ | KeyShareGroupNotOffered _ | KeyShareOrderMismatch => IllegalParameter
  | Tls13Required => ProtocolVersion
  | MissingRequiredExtension _ => MissingExtension
  | UnexpectedHandshakeType _ => UnexpectedMessage
  end.

(** ** The reader *)
Record HandshakeReader : Type := mkReader { input : bytes; offset : nat }.

Definition new_reader (input : bytes) : HandshakeReader := mkReader input 0.

Definition remaining {E : Type} (r : HandshakeReader) : res E nat := usize_sub (length (input r)) (offset r).

Definition read_exact (length : Z) (r : HandshakeReader) : res TlsHandshakeError (bytes * HandshakeReader) :=
  let? stop := ok_or (checked_add usize_max (Z.of_nat (offset r)) length) Truncated in
  if len (input r) <? stop then Err Truncated
  else
    let? value := slice (input r) (offset r) (Z.to_nat stop) in
    Ok (value, mkReader (input r) (Z.to_nat stop)).

Definition read_u8 (r : HandshakeReader) : res TlsHandshakeError (byte * HandshakeReader) :=
  let? (bs, r) := read_exact 1 r in
  let? b := index bs 0 in
  Ok (b, r).

Definition read_u16 (r : HandshakeReader) : res TlsHandshakeError (Z * HandshakeReader) :=
  let? (bs, r) := read_exact 2 r in
  let? v := u16_at bs 0 in
  Ok (v, r).

Definition read_vector_u8 (field : bytes) (r : HandshakeReader) : res TlsHandshakeError (bytes * HandshakeReader) :=
  let? (length, r) := read_u8 r in
  map_err (fun _ => MalformedVector field) (read_exact (u8 length) r).

Definition read_vector_u16 (field : bytes) (r : HandshakeReader) : res TlsHandshakeError (bytes * HandshakeReader) :=
  let? (length, r) := read_u16 r in
  map_err (fun _ => MalformedVector field) (read_exact length r).

Definition finish (field : bytes) (r : HandshakeReader) : res TlsHandshakeError unit :=
  let? n := remaining r in
  if (n =? 0)%nat then Ok tt else Err (MalformedVector field).

(** [while reader.remaining() != 0 { .. }]: every turn reads at least one byte. *)
Fixpoint while_remaining {E T : Type} (fuel : nat) (turn : T -> HandshakeReader -> res E (T * HandshakeReader)) (s : T) (r : HandshakeReader) :
  res E T :=
  match fuel with
  | O => Fuel
  | S fuel' =>
      let? n := remaining r in
      if (n =? 0)%nat then Ok s
      else
        let? (s, r) := turn s r in
        while_remaining fuel' turn s r
  end.

Definition read_all {E T : Type} (turn : T -> HandshakeReader -> res E (T * HandshakeReader)) (s : T) (bs : bytes) : res E T :=
  while_remaining (S (length bs)) turn s (new_reader bs).

(** ** Vectors of the extensions *)
(** [chunks_exact(2)] with [u16::from_be_bytes]. *)
Definition u16_chunks {E : Type} (bs : bytes) : res E (list Z) := res_mapM (fun chunk => u16_at chunk 0) (chunks_exact 2 bs).1.

Definition parse_u16_values (bs field : bytes) : res TlsHandshakeError (list Z) :=
  if (len bs <? 2) || negb (len bs mod 2 =? 0) then Err (MalformedVector field) else u16_chunks bs.

Definition parse_u16_vector_u8 (bs field : bytes) : res TlsHandshakeError (list Z) :=
  let? (values, r) := read_vector_u8 field (new_reader bs) in
  let? _ := finish field r in
  parse_u16_values values field.

Definition parse_u16_vector_u16 (bs field : bytes) : res TlsHandshakeError (list Z) :=
  let? (values, r) := read_vector_u16 field (new_reader bs) in
  let? _ := finish field r in
  parse_u16_values values field.

Definition alpn_turn (protocols : list bytes) (r : HandshakeReader) : res TlsHandshakeError (list bytes * HandshakeReader) :=
  let? (protocol, r) := read_vector_u8 (str "alpn_protocol_name") r in
  if bool_decide (protocol = []) then Err InvalidAlpn else Ok (protocols ++ [protocol], r).

Definition parse_alpn_protocols (bs : bytes) : res TlsHandshakeError (list bytes) :=
  let field := str "application_layer_protocol_negotiation" in
  let? (encoded_protocols, outer) := read_vector_u16 field (new_reader bs) in
  let? _ := finish field outer in
  if bool_decide (encoded_protocols = []) then Err InvalidAlpn else read_all alpn_turn [] encoded_protocols.

Definition server_label_ok (label : bytes) : bool :=
  negb (bool_decide (label = [])) && (len label <=? 63) && negb (starts_with [x2d] label) && negb (ends_with [x2d] label)
  && forallb (fun b => is_ascii_alphanumeric b || byte_eqb b x2d) label.

Definition is_valid_server_name (name : bytes) : bool :=
  if bool_decide (name = []) || negb (forallb is_ascii name) then false
  else if negb (utf8_valid name) then false
  else if (253 <? len name) || ends_with [x2e] name || bool_decide (is_Some (parse_ip_addr name)) then false
  else forallb server_label_ok (split_on (byte_eqb x2e) name).

(** The name types seen, and the host name. *)
Definition server_name_turn (s : list byte * option bytes) (r : HandshakeReader) : res TlsHandshakeError (list byte * option bytes * HandshakeReader) :=
  let '(seen_name_types, server_name) := s in
  let? (name_type, r) := read_u8 r in
  let? (name, r) := read_vector_u16 (str "server_name") r in
  if existsb (byte_eqb name_type) seen_name_types then Err DuplicateServerName
  else
    let seen_name_types := seen_name_types ++ [name_type] in
    if u8 name_type =? 0 then
      if negb (is_valid_server_name name) then Err InvalidServerName
      else if negb (utf8_valid name) then Err InvalidServerName
      else Ok (seen_name_types, Some (lowercase name), r)
    else Ok (seen_name_types, server_name, r).

Definition parse_server_name (bs : bytes) : res TlsHandshakeError (option bytes) :=
  let? (server_name_list, outer) := read_vector_u16 (str "server_name_list") (new_reader bs) in
  let? _ := finish (str "server_name") outer in
  if bool_decide (server_name_list = []) then Err (MalformedVector (str "server_name_list"))
  else
    let? s := read_all server_name_turn ([], None) server_name_list in
    Ok s.2.

Record TlsKeyShareEntry : Type := mkKeyShare { group : Z; key_exchange : bytes }.

Definition key_share_turn (shares : list TlsKeyShareEntry) (r : HandshakeReader) : res TlsHandshakeError (list TlsKeyShareEntry * HandshakeReader) :=
  let? (g, r) := read_u16 r in
  let? (exchange, r) := read_vector_u16 (str "key_exchange") r in
  if bool_decide (exchange = []) then Err (MalformedVector (str "key_exchange"))
  else if existsb (fun share => group share =? g) shares then Err (DuplicateKeyShareGroup g)
  else Ok (shares ++ [mkKeyShare g exchange], r).

Definition parse_client_key_shares (bs : bytes) : res TlsHandshakeError (list TlsKeyShareEntry) :=
  let? (encoded_shares, outer) := read_vector_u16 (str "key_share") (new_reader bs) in
  let? _ := finish (str "key_share") outer in
  read_all key_share_turn [] encoded_shares.

(** [iter().position]. *)
Fixpoint index_of (g : Z) (groups : list Z) : option nat :=
  match groups with
  | [] => None
  | g' :: groups' => if g' =? g then Some O else option_map S (index_of g groups')
  end.

Definition key_share_order (supported_groups : list Z) (previous_group_index : option nat) (key_share : TlsKeyShareEntry) :
  res TlsHandshakeError (option nat) :=
  let? group_index := ok_or (index_of (group key_share) supported_groups) (KeyShareGroupNotOffered (group key_share)) in
  if match previous_group_index with Some previous => (group_index <=? previous)%nat | None => false end then Err KeyShareOrderMismatch
  else Ok (Some group_index).

Definition validate_key_share_groups (supported_groups : list Z) (key_shares : list TlsKeyShareEntry) : res TlsHandshakeError unit :=
  let? _ := res_foldM (key_share_order supported_groups) None key_shares in Ok tt.

(** ** The extensions *)
Record ParsedClientHelloExtensions : Type := mkParsed {
  parsed_server_name : option bytes;
  parsed_supported_versions : option (list Z);
  parsed_supported_groups : option (list Z);
  parsed_key_shares : option (list TlsKeyShareEntry);
  parsed_signature_algorithms : option (list Z);
  parsed_alpn_protocols : option (list bytes);
  parsed_raw_extensions : list (Z * bytes);
  parsed_pre_shared_key_present : bool
}.

Definition no_extensions : ParsedClientHelloExtensions := mkParsed None None None None None None [] false.

(** The [match] on the type of an extension; [last] says that nothing follows it. *)
Definition read_extension (p : ParsedClientHelloExtensions) (extension_type : Z) (data : bytes) (last : bool) :
  res TlsHandshakeError ParsedClientHelloExtensions :=
  let 'mkParsed n v g k s a raw psk := p in
  if extension_type =? EXTENSION_SERVER_NAME then let? n := parse_server_name data in Ok (mkParsed n v g k s a raw psk)
  else if extension_type =? EXTENSION_SUPPORTED_GROUPS then
    let? g := parse_u16_vector_u16 data (str "supported_groups") in Ok (mkParsed n v (Some g) k s a raw psk)
  else if extension_type =? EXTENSION_SIGNATURE_ALGORITHMS then
    let? s := parse_u16_vector_u16 data (str "signature_algorithms") in Ok (mkParsed n v g k (Some s) a raw psk)
  else if extension_type =? EXTENSION_APPLICATION_LAYER_PROTOCOL_NEGOTIATION then
    let? a := parse_alpn_protocols data in Ok (mkParsed n v g k s (Some a) raw psk)
  else if extension_type =? EXTENSION_PRE_SHARED_KEY then
    if negb last then Err PreSharedKeyNotLast else Ok (mkParsed n v g k s a raw true)
  else if extension_type =? EXTENSION_SUPPORTED_VERSIONS then
    let? v := parse_u16_vector_u8 data (str "supported_versions") in Ok (mkParsed n (Some v) g k s a raw psk)
  else if extension_type =? EXTENSION_KEY_SHARE then
    let? k := parse_client_key_shares data in Ok (mkParsed n v g (Some k) s a raw psk)
  else Ok p.

Definition push_raw (p : ParsedClientHelloExtensions) (extension : Z * bytes) : ParsedClientHelloExtensions :=
  let 'mkParsed n v g k s a raw psk := p in mkParsed n v g k s a (raw ++ [extension]) psk.

Definition extension_turn (s : list Z * ParsedClientHelloExtensions) (r : HandshakeReader) :
  res TlsHandshakeError (list Z * ParsedClientHelloExtensions * HandshakeReader) :=
  let '(seen_extensions, parsed) := s in
  let? (extension_type, r) := read_u16 r in
  let? (extension_data, r) := read_vector_u16 (str "extension_data") r in
  if existsb (Z.eqb extension_type) seen_extensions then Err (DuplicateExtension extension_type)
  else
    let parsed := push_raw parsed (extension_type, extension_data) in
    let? left_over := remaining r in
    let? parsed := read_extension parsed extension_type extension_data (left_over =? 0)%nat in
    Ok (seen_extensions ++ [extension_type], parsed, r).

Definition parse_client_hello_extensions (bs : bytes) : res TlsHandshakeError ParsedClientHelloExtensions :=
  let? s := read_all extension_turn ([], no_extensions) bs in
  Ok s.2.

(** ** The message *)
Record ClientHello : Type := mkClientHello {
  random : bytes;
  legacy_session_id : bytes;
  cipher_suites : list Z;
  server_name : option bytes;
  supported_versions : list Z;
  supported_groups : list Z;
  key_shares : list TlsKeyShareEntry;
  signature_algorithms : list Z;
  alpn_protocols : list bytes;
  raw_extensions : list (Z * bytes);
  pre_shared_key_present : bool
}.

(** The length of the body that a handshake header declares. *)
Definition declared_length {E : Type} (message : bytes) : res E Z :=
  let? b1 := index message 1 in
  let? b2 := index message 2 in
  let? b3 := index message 3 in
  Ok (Z.lor (Z.lor (Z.shiftl (u8 b1) 16) (Z.shiftl (u8 b2) 8)) (u8 b3)).

Definition require_extensions (supported_groups : option (list Z)) (key_shares : option (list TlsKeyShareEntry))
  (signature_algorithms : option (list Z)) (pre_shared_key_present : bool) : res TlsHandshakeError unit :=
  let? _ :=
    if negb pre_shared_key_present then
      if bool_decide (signature_algorithms = None) then Err (MissingRequiredExtension EXTENSION_SIGNATURE_ALGORITHMS)
      else if bool_decide (supported_groups = None) then Err (MissingRequiredExtension EXTENSION_SUPPORTED_GROUPS)
      else Ok tt
    else Ok tt in
  match supported_groups, key_shares with
  | Some _, None => Err (MissingRequiredExtension EXTENSION_KEY_SHARE)
  | None, Some _ => Err (MissingRequiredExtension EXTENSION_SUPPORTED_GROUPS)
  | Some groups, Some shares => validate_key_share_groups groups shares
  | None, None => Ok tt
  end.

Definition parse_client_hello (message : bytes) : res TlsHandshakeError ClientHello :=
  if (length message <? HANDSHAKE_HEADER_SIZE)%nat then Err Truncated
  else
    let? message_type := index message 0 in
    if negb (byte_eqb message_type HANDSHAKE_TYPE_CLIENT_HELLO) then Err (UnexpectedHandshakeType message_type)
    else
      let? declared := declared_length message in
      let? actual := usize_sub (length message) HANDSHAKE_HEADER_SIZE in
      if negb (declared =? Z.of_nat actual) then Err (HandshakeLengthMismatch declared (Z.of_nat actual))
      else
        let? body := slice_from message HANDSHAKE_HEADER_SIZE in
        let? (legacy_version, r) := read_u16 (new_reader body) in
        if negb (legacy_version =? TLS_LEGACY_RECORD_VERSION) then Err (InvalidLegacyVersion legacy_version)
        else
          let? (random_bytes, r) := read_exact 32 r in
          let? random := copy_from_slice (repeat x00 32) 0 32 random_bytes in
          let? (legacy_session_id, r) := read_vector_u8 (str "legacy_session_id") r in
          if 32 <? len legacy_session_id then Err (InvalidSessionIdLength (len legacy_session_id))
          else
            let? (cipher_suite_bytes, r) := read_vector_u16 (str "cipher_suites") r in
            if (len cipher_suite_bytes <? 2) || negb (len cipher_suite_bytes mod 2 =? 0) then
              Err (InvalidCipherSuiteVector (len cipher_suite_bytes))
            else
              let? cipher_suites := u16_chunks cipher_suite_bytes in
              let? (compression_methods, r) := read_vector_u8 (str "legacy_compression_methods") r in
              if negb (bytes_eqb compression_methods [x00]) then Err InvalidCompressionMethods
              else
                let? left_over := remaining r in
                if (left_over =? 0)%nat then Err MissingExtensions
                else
                  let? (extension_block, r) := read_vector_u16 (str "extensions") r in
                  let? _ := finish (str "ClientHello") r in
                  let? parsed := parse_client_hello_extensions extension_block in
                  let 'mkParsed server_name versions groups shares algorithms alpn raw psk := parsed in
                  let? supported_versions := ok_or versions (MissingRequiredExtension EXTENSION_SUPPORTED_VERSIONS) in
                  if negb (existsb (Z.eqb TLS_VERSION_1_3) supported_versions) then Err Tls13Required
                  else
                    let? _ := require_extensions groups shares algorithms psk in
                    Ok (mkClientHello random legacy_session_id cipher_suites server_name supported_versions
                         (default [] groups) (default [] shares) (default [] algorithms) (default [] alpn) raw psk).

(** ** What a hello offers *)
Definition has_extension (ch : ClientHello) (extension_type : Z) : bool :=
  existsb (fun '(candidate, _) => candidate =? extension_type) (raw_extensions ch).
Definition offers_http11 (ch : ClientHello) : bool := existsb (fun protocol => bytes_eqb protocol ALPN_HTTP_1_1) (alpn_protocols ch).
Definition offers_tls13 (ch : ClientHello) : bool := existsb (Z.eqb TLS_VERSION_1_3) (supported_versions ch).
Definition offers_chacha20_poly1305_sha256 (ch : ClientHello) : bool := existsb (Z.eqb TLS_CHACHA20_POLY1305_SHA256) (cipher_suites ch).
Definition supports_secp256r1 (ch : ClientHello) : bool := existsb (Z.eqb TLS_GROUP_SECP256R1) (supported_groups ch).
Definition supports_ecdsa_secp256r1_sha256 (ch : ClientHello) : bool :=
  existsb (Z.eqb TLS_SIGNATURE_ECDSA_SECP256R1_SHA256) (signature_algorithms ch).
Definition secp256r1_key_share (ch : ClientHello) : option bytes :=
  option_map key_exchange (List.find (fun share => group share =? TLS_GROUP_SECP256R1) (key_shares ch)).

(** ** Reading encodings
    [reads r bs]: the reader [r] has the bytes [bs] in front of it. An operation is a [Codec] of an
    encoding when it reads exactly the encodings of the values that are [ok], and never panics. *)
Definition reads (r : HandshakeReader) (bs : bytes) : Prop :=
  (offset r <= length (input r))%nat /\ drop (offset r) (input r) = bs /\ len (input r) <= usize_max.

Class Codec {E A : Type} (op : HandshakeReader -> res E (A * HandshakeReader)) (enc : A -> bytes) (ok : A -> Prop) : Prop := {
  codec_complete : forall r a rest, ok a -> reads r (enc a ++ rest) -> exists r', op r = Ok (a, r') /\ reads r' rest;
  codec_sound : forall r bs, reads r bs ->
    match op r with
    | Ok (a, r') => ok a /\ exists rest, bs = enc a ++ rest /\ reads r' rest
    | Err _ => True
    | Panic | Fuel => False
    end
}.

#[global] Instance map_err_codec {E F A : Type} (f : E -> F) (op : HandshakeReader -> res E (A * HandshakeReader)) enc ok :
  Codec op enc ok -> Codec (fun r => map_err f (op r)) enc ok.
Proof.
  intros C. split.
  - intros r a rest Ha Hr. destruct (codec_complete (op := op) r a rest Ha Hr) as (r' & -> & Hr'). by exists r'.
  - intros r bs Hr. pose proof (codec_sound (op := op) r bs Hr) as S. by destruct (op r) as [[a r']| | |].
Qed.

Definition vec8 (bs : bytes) : bytes := of_u8 (len bs) :: bs.
Definition vec16 (bs : bytes) : bytes := be_bytes 2 (len bs) ++ bs.
Definition u16 (v : Z) : Prop := 0 <= v <= 65535.
Definition fits8 (bs : bytes) : Prop := len bs <= 255.
Definition fits16 (bs : bytes) : Prop := len bs <= 65535.

Lemma hello_reads_new (bs : bytes) : len bs <= usize_max -> reads (new_reader bs) bs.
Proof. intros H. split_and!; [cbn; lia|done|done]. Qed.

Lemma reads_remaining {E : Type} (r : HandshakeReader) (bs : bytes) : reads r bs -> remaining r = Ok (length bs) :> res E _.
Proof. intros (Ho & <- & _). unfold remaining, usize_sub. rewrite (proj2 (Nat.leb_le _ _)) by done. by rewrite length_drop. Qed.

Lemma hello_finish_reads (field : bytes) (r : HandshakeReader) (bs : bytes) : reads r bs ->
  finish field r = match bs with [] => Ok tt | _ => Err (MalformedVector field) end.
Proof. intros H. unfold finish. rewrite (reads_remaining r bs H). by destruct bs. Qed.

Lemma read_exact_spec (n : Z) (r : HandshakeReader) (bs : bytes) : 0 <= n -> reads r bs ->
  if decide (n <= len bs) then exists r', read_exact n r = Ok (take (Z.to_nat n) bs, r') /\ reads r' (drop (Z.to_nat n) bs)
  else read_exact n r = Err Truncated.
Proof.
  intros Hn (Ho & Hb & Hi). assert (Hl : len bs = len (input r) - Z.of_nat (offset r)) by (rewrite <- Hb; unfold len; rewrite length_drop; lia).
  unfold read_exact, checked_add. case_decide as Hd.
  - exists (mkReader (input r) (offset r + Z.to_nat n)). rewrite (proj2 (Z.leb_le _ _)) by lia. cbn [ok_or res_bind].
    rewrite (proj2 (Z.ltb_ge _ _)) by lia. replace (Z.to_nat (Z.of_nat (offset r) + n)) with (offset r + Z.to_nat n)%nat by lia.
    rewrite slice_Ok by (unfold len in *; lia). cbn [res_bind]. split; [|split_and!].
    + by replace (offset r + Z.to_nat n - offset r)%nat with (Z.to_nat n) by lia; rewrite Hb.
    + cbn [offset input]. unfold len in *. lia.
    + cbn [offset input]. by rewrite <- drop_drop, Hb.
    + done.
  - destruct (Z.leb_spec (Z.of_nat (offset r) + n) usize_max); [|done]. cbn [ok_or res_bind]. by rewrite (proj2 (Z.ltb_lt _ _)) by lia.
Qed.

#[global] Instance read_exact_codec (n : nat) : Codec (read_exact (Z.of_nat n)) (fun bs => bs) (fun bs => length bs = n).
Proof.
  split.
  - intros r a rest Ha Hr. pose proof (read_exact_spec (Z.of_nat n) r _ ltac:(lia) Hr) as H. rewrite decide_True in H by (rewrite len_app; unfold len; lia).
    rewrite Nat2Z.id, take_app_length', drop_app_length' in H by done. done.
  - intros r bs Hr. pose proof (read_exact_spec (Z.of_nat n) r _ ltac:(lia) Hr) as H. case_decide as Hd; [|by rewrite H].
    destruct H as (r' & -> & Hr'). rewrite Nat2Z.id in *. split; [rewrite length_take; unfold len in Hd; lia|]. exists (drop n bs). by rewrite take_drop.
Qed.

#[global] Instance read_u8_codec : Codec read_u8 (fun b => [b]) (fun _ => True).
Proof.
  pose proof (read_exact_codec 1) as [C S]. split.
  - intros r a rest _ Hr. destruct (C r [a] rest eq_refl Hr) as (r' & H & Hr'). exists r'. unfold read_u8. change (Z.of_nat 1) with 1 in H. by rewrite H.
  - intros r bs Hr. specialize (S r bs Hr). unfold read_u8. change (Z.of_nat 1) with 1 in S. destruct (read_exact 1 r) as [[v r']| | |]; [|done..].
    destruct S as (Hl & rest & -> & Hr'). destruct v as [|b [|]]; [done| |done]. cbn. split; [done|]. by exists rest.
Qed.

Lemma u16_at_be {E : Type} (v : Z) : u16 v -> u16_at (be_bytes 2 v) 0 = Ok v :> res E _.
Proof.
  intros Hv. pose proof (be_value_be_bytes 2 v) as H. rewrite Z.mod_small in H by (unfold u16 in Hv; change (256 ^ Z.of_nat 2) with 65536; lia).
  destruct (be_bytes 2 v) as [|x [|y [|]]] eqn:Hb; try (apply (f_equal length) in Hb; by rewrite length_be_bytes in Hb). cbn. by rewrite <- H.
Qed.

Lemma u16_at_two {E : Type} (bs : bytes) : length bs = 2%nat -> exists v, u16_at bs 0 = Ok v :> res E _ /\ u16 v /\ bs = be_bytes 2 v.
Proof.
  intros Hl. exists (be_value 0 bs). split_and!.
  - by destruct bs as [|x [|y [|]]].
  - pose proof (be_value_range bs) as H. unfold len in H. rewrite Hl in H. change (256 ^ Z.of_nat 2) with 65536 in H. unfold u16. lia.
  - rewrite <- Hl. by rewrite be_bytes_be_value.
Qed.

#[global] Instance read_u16_codec : Codec read_u16 (be_bytes 2) u16.
Proof.
  pose proof (read_exact_codec 2) as [C S]. split.
  - intros r a rest Ha Hr. destruct (C r (be_bytes 2 a) rest (length_be_bytes 2 a) Hr) as (r' & H & Hr'). exists r'. unfold read_u16. change (Z.of_nat 2) with 2 in H.
    rewrite H. cbn [res_bind]. by rewrite u16_at_be.
  - intros r bs Hr. specialize (S r bs Hr). unfold read_u16. change (Z.of_nat 2) with 2 in S. destruct (read_exact 2 r) as [[v r']| | |]; [|done..].
    destruct S as (Hl & rest & -> & Hr'). cbn [res_bind]. destruct (u16_at_two (E := TlsHandshakeError) v Hl) as (n & -> & Hn & ->). cbn [res_bind]. split; [done|]. by exists rest.
Qed.

Lemma codec_Ok {E A B : Type} {op : HandshakeReader -> res E (A * HandshakeReader)} {enc ok} `{!Codec op enc ok} (r : HandshakeReader) (bs : bytes) (k : A * HandshakeReader -> res E B) (x : B) (P : A -> bytes -> Prop) :
  reads r bs -> (forall a rest r', ok a -> reads r' rest -> bs = enc a ++ rest -> (k (a, r') = Ok x <-> P a rest)) ->
  (res_bind (op r) k = Ok x <-> exists a rest, ok a /\ bs = enc a ++ rest /\ P a rest).
Proof.
  intros Hr Hk. split.
  - intros H. pose proof (codec_sound r bs Hr) as S. apply res_bind_Ok in H as ([a r'] & Ho & H). rewrite Ho in S. destruct S as (Ha & rest & -> & Hr').
    exists a, rest. split_and!; [done|done|]. by apply (Hk a rest r').
  - intros (a & rest & Ha & -> & HP). destruct (codec_complete r a rest Ha Hr) as (r' & -> & Hr'). cbn [res_bind]. by apply (Hk a rest r').
Qed.

Lemma codec_returns {E A B : Type} {op : HandshakeReader -> res E (A * HandshakeReader)} {enc ok} `{!Codec op enc ok} (r : HandshakeReader) (bs : bytes) (k : A * HandshakeReader -> res E B) :
  reads r bs -> (forall a rest r', ok a -> reads r' rest -> bs = enc a ++ rest -> returns (k (a, r'))) -> returns (res_bind (op r) k).
Proof.
  intros Hr Hk. pose proof (codec_sound r bs Hr) as S. destruct (op r) as [[a r']| | |]; [|done..]. destruct S as (Ha & rest & Hb & Hr'). cbn [res_bind].
  by apply (Hk a rest r').
Qed.

Lemma len_vec8 (bs : bytes) : len (vec8 bs) = 1 + len bs.
Proof. unfold vec8. rewrite len_cons. lia. Qed.
Lemma len_vec16 (bs : bytes) : len (vec16 bs) = 2 + len bs.
Proof. unfold vec16. rewrite len_app. unfold len at 1. by rewrite length_be_bytes. Qed.

#[global] Instance read_vector_u8_codec (field : bytes) : Codec (read_vector_u8 field) vec8 fits8.
Proof.
  split.
  - intros r a rest Ha Hr. change (vec8 a ++ rest) with ([of_u8 (len a)] ++ (a ++ rest)) in Hr. destruct (codec_complete (op := read_u8) r (of_u8 (len a)) (a ++ rest) I Hr) as (r1 & H1 & Hr1).
    destruct (codec_complete (ok := fun bs => length bs = length a) (enc := fun bs => bs) (op := read_exact (Z.of_nat (length a))) r1 a rest eq_refl Hr1) as (r2 & H2 & Hr2).
    exists r2. unfold read_vector_u8. rewrite H1. cbn [res_bind]. rewrite u8_of_u8 by (pose proof (len_nonneg a); unfold fits8 in Ha; lia).
    unfold len. by rewrite H2.
  - intros r bs Hr. unfold read_vector_u8. pose proof (codec_sound (op := read_u8) r bs Hr) as S. destruct (read_u8 r) as [[n r1]| | |]; [|done..].
    destruct S as (_ & rest & -> & Hr1). cbn [res_bind]. pose proof (u8_range n) as Hn. rewrite <- (Z2Nat.id (u8 n)) by lia.
    pose proof (codec_sound (op := read_exact (Z.of_nat (Z.to_nat (u8 n)))) r1 rest Hr1) as S. destruct (read_exact _ r1) as [[v r2]| | |]; [|done..].
    destruct S as (Hl & rest2 & -> & Hr2). cbn [map_err]. split; [unfold fits8, len; lia|]. exists rest2. split; [|done].
    unfold vec8, len. rewrite Hl, Z2Nat.id by lia. by rewrite of_u8_u8.
Qed.

#[global] Instance read_vector_u16_codec (field : bytes) : Codec (read_vector_u16 field) vec16 fits16.
Proof.
  split.
  - intros r a rest Ha Hr. unfold vec16 in Hr. rewrite <- app_assoc in Hr.
    assert (Hu : u16 (len a)) by (pose proof (len_nonneg a); unfold fits16 in Ha; unfold u16; lia).
    destruct (codec_complete (op := read_u16) r (len a) (a ++ rest) Hu Hr) as (r1 & H1 & Hr1).
    destruct (codec_complete (ok := fun bs => length bs = length a) (enc := fun bs => bs) (op := read_exact (Z.of_nat (length a))) r1 a rest eq_refl Hr1) as (r2 & H2 & Hr2).
    exists r2. unfold read_vector_u16. rewrite H1. cbn [res_bind]. unfold len. by rewrite H2.
  - intros r bs Hr. unfold read_vector_u16. pose proof (codec_sound (op := read_u16) r bs Hr) as S. destruct (read_u16 r) as [[n r1]| | |]; [|done..].
    destruct S as (Hn & rest & -> & Hr1). cbn [res_bind]. unfold u16 in Hn. rewrite <- (Z2Nat.id n) by lia.
    pose proof (codec_sound (op := read_exact (Z.of_nat (Z.to_nat n))) r1 rest Hr1) as S. destruct (read_exact _ r1) as [[v r2]| | |]; [|done..].
    destruct S as (Hl & rest2 & -> & Hr2). cbn [map_err]. split; [unfold fits16, len; lia|]. exists rest2. split; [|done].
    unfold vec16. rewrite <- app_assoc. unfold len. by rewrite Hl, Z2Nat.id by lia.
Qed.

(** One value after the other. *)
Definition both {E A B : Type} (op1 : HandshakeReader -> res E (A * HandshakeReader)) (op2 : HandshakeReader -> res E (B * HandshakeReader)) (r : HandshakeReader) :
  res E (A * B * HandshakeReader) := let? (a, r) := op1 r in let? (b, r) := op2 r in Ok ((a, b), r).

#[global] Instance both_codec {E A B : Type} (op1 : HandshakeReader -> res E (A * HandshakeReader)) (op2 : HandshakeReader -> res E (B * HandshakeReader))
  enc1 enc2 ok1 ok2 : Codec op1 enc1 ok1 -> Codec op2 enc2 ok2 ->
  Codec (both op1 op2) (fun p => enc1 p.1 ++ enc2 p.2) (fun p => ok1 p.1 /\ ok2 p.2).
Proof.
  intros C1 C2. split.
  - intros r [a b] rest [Ha Hb] Hr. cbn [fst snd] in *. rewrite <- app_assoc in Hr. destruct (codec_complete r a _ Ha Hr) as (r1 & H1 & Hr1).
    destruct (codec_complete r1 b _ Hb Hr1) as (r2 & H2 & Hr2). exists r2. unfold both. rewrite H1. cbn [res_bind]. by rewrite H2.
  - intros r bs Hr. unfold both. pose proof (codec_sound (op := op1) r bs Hr) as S. destruct (op1 r) as [[a r1]| | |]; [|done..].
    destruct S as (Ha & rest & -> & Hr1). cbn [res_bind]. pose proof (codec_sound (op := op2) r1 rest Hr1) as S. destruct (op2 r1) as [[b r2]| | |]; [|done..].
    destruct S as (Hb & rest2 & -> & Hr2). cbn [res_bind fst snd]. split; [done|]. exists rest2. by rewrite <- app_assoc.
Qed.

(** A vector that fills its input. *)
Lemma whole_Ok {A B : Type} {op : HandshakeReader -> res TlsHandshakeError (A * HandshakeReader)} {enc ok} `{!Codec op enc ok}
  (field bs : bytes) (k : A -> res TlsHandshakeError B) (x : B) : len bs <= usize_max ->
  ((let? (a, r) := op (new_reader bs) in let? _ := finish field r in k a) = Ok x <-> exists a, ok a /\ bs = enc a /\ k a = Ok x).
Proof.
  intros Hl. rewrite (codec_Ok (new_reader bs) bs _ x (fun a rest => rest = [] /\ k a = Ok x) (hello_reads_new bs Hl)).
  - split.
    + intros (a & rest & Ha & -> & -> & H). exists a. by rewrite app_nil_r.
    + intros (a & Ha & -> & H). exists a, []. by rewrite app_nil_r.
  - intros a rest r' Ha Hr _. rewrite (hello_finish_reads field r' rest Hr). destruct rest; cbn [res_bind]; [tauto|].
    split; [done|by intros [? _]].
Qed.

Lemma whole_returns {A B : Type} {op : HandshakeReader -> res TlsHandshakeError (A * HandshakeReader)} {enc ok} `{!Codec op enc ok}
  (field bs : bytes) (k : A -> res TlsHandshakeError B) : len bs <= usize_max -> (forall a, ok a -> bs = enc a -> returns (k a)) ->
  returns (let? (a, r) := op (new_reader bs) in let? _ := finish field r in k a).
Proof.
  intros Hl Hk. apply (codec_returns (new_reader bs) bs); [by apply hello_reads_new|]. intros a rest r' Ha Hr Hb. rewrite (hello_finish_reads field r' rest Hr).
  destruct rest; [|done]. cbn [res_bind]. rewrite app_nil_r in Hb. by apply Hk.
Qed.

(** Loops: a turn that reads one item and then goes on from what it read. *)
Section loops.
Context {E A T : Type} (op : HandshakeReader -> res E (A * HandshakeReader)) (enc : A -> bytes) (ok : A -> Prop) `{!Codec op enc ok}.
Context (next : T -> A -> bool -> res E T) (turn : T -> HandshakeReader -> res E (T * HandshakeReader)).
Hypothesis turn_next : forall s r bs, reads r bs ->
  turn s r = let? (a, r) := op r in let? n := remaining r in let? t := next s a (n =? 0)%nat in Ok (t, r).
Hypothesis enc_ne : forall a, ok a -> enc a <> [].

(** What the turns make of the items read. *)
Fixpoint items (s : T) (l : list A) : res E T :=
  match l with
  | [] => Ok s
  | a :: l' => let? t := next s a (bool_decide (l' = [])) in items t l'
  end.

Lemma concat_enc_nil (l : list A) : Forall ok l -> concat (map enc l) = [] -> l = [].
Proof. intros [|a l' Ha Hl]; [done|]. cbn. intros [He _]%app_eq_nil. by destruct (enc_ne a Ha). Qed.

Lemma concat_enc_end (l : list A) : Forall ok l -> (length (concat (map enc l)) =? 0)%nat = bool_decide (l = []).
Proof.
  intros Hl. destruct l as [|a l]; [done|]. rewrite bool_decide_false by done. apply Nat.eqb_neq. intros H.
  apply nil_length_inv in H. by apply (concat_enc_nil (a :: l)) in H.
Qed.

Lemma while_remaining_Ok (fuel : nat) (s s' : T) (r : HandshakeReader) (bs : bytes) : (length bs < fuel)%nat -> reads r bs ->
  (while_remaining fuel turn s r = Ok s' <-> exists l, Forall ok l /\ bs = concat (map enc l) /\ items s l = Ok s').
Proof.
  revert s r bs. induction fuel as [|fuel IH]; intros s r bs Hf Hr; [lia|]. cbn [while_remaining]. rewrite (reads_remaining r bs Hr). cbn [res_bind].
  destruct bs as [|b bs]; cbn [length Nat.eqb].
  { split.
    - intros H. exists []. by split_and!; [apply Forall_nil| |].
    - intros (l & Hl & Hb & H). symmetry in Hb. apply (concat_enc_nil l Hl) in Hb as ->. done. }
  rewrite (turn_next s r _ Hr), res_bind_assoc.
  rewrite (codec_Ok (op := op) r (b :: bs) _ s' (fun a rest => exists l, Forall ok l /\ rest = concat (map enc l) /\ items s (a :: l) = Ok s') Hr).
  - split.
    + intros (a & rest & Ha & Hb & l & Hl & -> & H). exists (a :: l). by split_and!; [apply Forall_cons| |].
    + intros ([|a l] & Hl & Hb & H); [done|]. apply Forall_cons in Hl as [Ha Hl]. exists a, (concat (map enc l)). split_and!; [done..|]. by exists l.
  - intros a rest r' Ha Hr' Hb. rewrite (reads_remaining r' rest Hr'). cbn [res_bind items].
    assert (length rest < fuel)%nat.
    { pose proof (enc_ne a Ha). destruct (enc a); [done|]. apply (f_equal length) in Hb. cbn in Hb. rewrite length_app in Hb. cbn in Hf. lia. }
    rewrite res_bind_assoc. split.
    + intros H1. apply res_bind_Ok in H1 as (t & Ht & H1). cbn [res_bind] in H1. apply (IH t r' rest) in H1 as (l & Hl & -> & H1); [|done..].
      exists l. split_and!; [done..|]. rewrite <- (concat_enc_end l Hl), Ht. done.
    + intros (l & Hl & -> & H1). rewrite (concat_enc_end l Hl). apply res_bind_Ok in H1 as (t & -> & H1). cbn [res_bind]. apply (IH t r' (concat (map enc l))); [done..|]. by exists l.
Qed.

Lemma while_remaining_returns (fuel : nat) (s : T) (r : HandshakeReader) (bs : bytes) : (forall s a last, ok a -> returns (next s a last)) ->
  (length bs < fuel)%nat -> reads r bs -> returns (while_remaining fuel turn s r).
Proof.
  intros Hn. revert s r bs. induction fuel as [|fuel IH]; intros s r bs Hf Hr; [lia|]. cbn [while_remaining]. rewrite (reads_remaining r bs Hr). cbn [res_bind].
  destruct bs as [|b bs]; [done|]. cbn [length Nat.eqb]. rewrite (turn_next s r _ Hr), res_bind_assoc. apply (codec_returns r (b :: bs)); [done|].
  intros a rest r' Ha Hr' Hb. rewrite (reads_remaining r' rest Hr'). cbn [res_bind]. rewrite res_bind_assoc. apply res_bind_returns; [by apply Hn|]. intros t _. cbn [res_bind].
  apply (IH t r' rest); [|done]. pose proof (enc_ne a Ha). destruct (enc a); [done|]. apply (f_equal length) in Hb. cbn in Hb, Hf. rewrite length_app in Hb. lia.
Qed.

Lemma read_all_Ok (s s' : T) (bs : bytes) : len bs <= usize_max ->
  (read_all turn s bs = Ok s' <-> exists l, Forall ok l /\ bs = concat (map enc l) /\ items s l = Ok s').
Proof. intros Hl. unfold read_all. apply while_remaining_Ok; [lia|by apply hello_reads_new]. Qed.

Lemma read_all_returns (s : T) (bs : bytes) : (forall s a last, ok a -> returns (next s a last)) -> len bs <= usize_max -> returns (read_all turn s bs).
Proof. intros Hn Hl. unfold read_all. apply (while_remaining_returns _ s _ bs); [done|lia|by apply hello_reads_new]. Qed.
End loops.

(** ** Lists of 16-bit integers *)
Definition u16s (l : list Z) : bytes := concat (map (be_bytes 2) l).

Lemma length_u16s (l : list Z) : length (u16s l) = (2 * length l)%nat.
Proof. unfold u16s. induction l as [|v l IH]; [done|]. cbn [map concat length]. rewrite length_app, IH, length_be_bytes. lia. Qed.

Lemma u16_chunks_u16s {E : Type} (l : list Z) : Forall u16 l -> u16_chunks (u16s l) = Ok l :> res E _.
Proof.
  unfold u16_chunks, u16s. induction 1 as [|v l Hv Hl IH]; [done|]. cbn [map concat]. rewrite chunks_exact_app by (lia || apply length_be_bytes). cbn [fst res_mapM].
  rewrite u16_at_be by done. cbn [res_bind]. by rewrite IH.
Qed.

Lemma even_u16s (bs : bytes) : len bs mod 2 = 0 -> exists l, Forall u16 l /\ bs = u16s l.
Proof.
  intros Hm. assert (H : exists n, length bs = (2 * n)%nat).
  { exists (Z.to_nat (len bs / 2)). pose proof (Z.div_mod (len bs) 2 ltac:(lia)). unfold len in *. lia. }
  clear Hm. destruct H as [n Hn]. revert bs Hn. induction n as [|n IH]; intros bs Hn.
  - exists []. split; [apply Forall_nil; done|]. by apply nil_length_inv.
  - destruct (u16_at_two (E := TlsHandshakeError) (take 2 bs)) as (v & _ & Hv & Hb); [rewrite length_take; lia|].
    destruct (IH (drop 2 bs)) as (l & Hl & Hd); [rewrite length_drop; lia|]. exists (v :: l). split; [by apply Forall_cons|].
    unfold u16s. cbn [map concat]. fold (u16s l). rewrite <- Hb, <- Hd. by rewrite take_drop.
Qed.

(** The lists that may stand in a hello. *)
Definition u16_list (l : list Z) : Prop := l <> [] /\ Forall u16 l.

Lemma u16s_inj (l k : list Z) : Forall u16 l -> Forall u16 k -> u16s l = u16s k -> l = k.
Proof.
  intros Hl Hk H. pose proof (u16_chunks_u16s (E := TlsHandshakeError) l Hl) as Hc. rewrite H, u16_chunks_u16s in Hc by done. by apply Ok_inj in Hc.
Qed.

Lemma u16s_even (l : list Z) : len (u16s l) mod 2 = 0.
Proof. unfold len. rewrite length_u16s, Nat2Z.inj_mul, Z.mul_comm. apply Z.mod_mul. lia. Qed.

Lemma u16s_short (l : list Z) : (len (u16s l) <? 2) = bool_decide (l = []).
Proof. unfold len. rewrite length_u16s. destruct l; [done|]. rewrite bool_decide_false by done. apply Z.ltb_ge. cbn [length]. lia. Qed.

(** The bytes that the code takes for a list, and what it reads in them. *)
Lemma u16_values_cases (bs : bytes) :
  (exists l, u16_list l /\ bs = u16s l /\ (len bs <? 2) || negb (len bs mod 2 =? 0) = false) \/
  ((forall l, u16_list l -> bs <> u16s l) /\ (len bs <? 2) || negb (len bs mod 2 =? 0) = true).
Proof.
  destruct (Z.eqb_spec (len bs mod 2) 0) as [Hm|Hm].
  - destruct (even_u16s bs Hm) as (l & Hl & ->). rewrite u16s_short. destruct l as [|v l].
    + right. split; [|done]. intros l' [Hne Hl'] H. by apply u16s_inj in H; [|apply Forall_nil; done|done].
    + left. exists (v :: l). by rewrite bool_decide_false.
  - right. split; [intros l _ ->; by rewrite u16s_even in Hm|]. by rewrite orb_true_r.
Qed.

Lemma parse_u16_values_Ok (bs field : bytes) (l : list Z) : parse_u16_values bs field = Ok l <-> u16_list l /\ bs = u16s l.
Proof.
  unfold parse_u16_values. destruct (u16_values_cases bs) as [(k & Hk & -> & ->)|(Hno & ->)].
  - rewrite u16_chunks_u16s by apply Hk. split; [intros H; by apply Ok_inj in H as <-|]. intros [Hl H]. by rewrite (u16s_inj _ _ (proj2 Hk) (proj2 Hl) H).
  - split; [done|]. intros [Hl H]. by destruct (Hno l Hl).
Qed.

Lemma parse_u16_values_returns (bs field : bytes) : returns (parse_u16_values bs field).
Proof.
  unfold parse_u16_values. destruct (u16_values_cases bs) as [(k & Hk & -> & ->)|(_ & ->)]; [|done]. by rewrite u16_chunks_u16s by apply Hk.
Qed.

Lemma fits16_usize (bs : bytes) : fits16 bs -> len bs <= usize_max.
Proof. unfold fits16. intros H. etransitivity; [exact H|done]. Qed.

Lemma parse_u16_vector_u8_Ok (bs field : bytes) (l : list Z) : fits16 bs ->
  (parse_u16_vector_u8 bs field = Ok l <-> u16_list l /\ fits8 (u16s l) /\ bs = vec8 (u16s l)).
Proof.
  intros Hb%fits16_usize. unfold parse_u16_vector_u8. rewrite (whole_Ok field bs (fun v => parse_u16_values v field)) by done.
  setoid_rewrite parse_u16_values_Ok. naive_solver.
Qed.

Lemma parse_u16_vector_u16_Ok (bs field : bytes) (l : list Z) : fits16 bs ->
  (parse_u16_vector_u16 bs field = Ok l <-> u16_list l /\ fits16 (u16s l) /\ bs = vec16 (u16s l)).
Proof.
  intros Hb%fits16_usize. unfold parse_u16_vector_u16. rewrite (whole_Ok field bs (fun v => parse_u16_values v field)) by done.
  setoid_rewrite parse_u16_values_Ok. naive_solver.
Qed.

Lemma parse_u16_vectors_return (bs field : bytes) : fits16 bs -> returns (parse_u16_vector_u8 bs field) /\ returns (parse_u16_vector_u16 bs field).
Proof.
  intros Hb%fits16_usize. split.
  - apply (whole_returns field bs (fun v => parse_u16_values v field)); [done|]. intros. apply parse_u16_values_returns.
  - apply (whole_returns field bs (fun v => parse_u16_values v field)); [done|]. intros. apply parse_u16_values_returns.
Qed.

(** Turns that do not look at what is left. *)
Lemma turn_plain {E A T : Type} {op : HandshakeReader -> res E (A * HandshakeReader)} {enc ok} `{!Codec op enc ok}
  (next : T -> A -> res E T) (turn : T -> HandshakeReader -> res E (T * HandshakeReader)) :
  (forall s r, turn s r = let? (a, r) := op r in let? t := next s a in Ok (t, r)) ->
  forall s r bs, reads r bs -> turn s r = let? (a, r) := op r in let? n := remaining r in let? t := next s a in Ok (t, r).
Proof.
  intros Ht s r bs Hr. rewrite Ht. pose proof (codec_sound (op := op) r bs Hr) as S. destruct (op r) as [[a r']| | |]; [|done..].
  destruct S as (_ & rest & _ & Hr'). cbn [res_bind]. by rewrite (reads_remaining r' rest Hr').
Qed.

(** ** Application protocols *)
Definition alpn_next (protocols : list bytes) (protocol : bytes) : res TlsHandshakeError (list bytes) :=
  if bool_decide (protocol = []) then Err InvalidAlpn else Ok (protocols ++ [protocol]).

Lemma alpn_turn_next (s : list bytes) (r : HandshakeReader) :
  alpn_turn s r = let? (a, r) := read_vector_u8 (str "alpn_protocol_name") r in let? t := alpn_next s a in Ok (t, r).
Proof. unfold alpn_turn, alpn_next. destruct (read_vector_u8 _ r) as [[a r']| | |]; [|done..]. cbn [res_bind]. by case_bool_decide. Qed.

Lemma vec8_ne (a : bytes) : fits8 a -> vec8 a <> [].
Proof. done. Qed.

Lemma alpn_items (s s' l : list bytes) :
  items (fun s a _ => alpn_next s a) s l = Ok s' <-> Forall (fun a => a <> []) l /\ s' = s ++ l.
Proof.
  revert s. induction l as [|a l IH]; intros s; cbn [items].
  - rewrite app_nil_r. split; [intros H; apply Ok_inj in H as <-; by split; [apply Forall_nil|]|by intros [_ ->]].
  - rewrite Forall_cons. unfold alpn_next at 1. case_bool_decide as Ha; cbn [res_bind]; [by split; [|intros [[? _] _]]|].
    rewrite IH, <- app_assoc. cbn. tauto.
Qed.

Definition alpn_list (l : list bytes) : Prop := l <> [] /\ Forall (fun a => a <> [] /\ fits8 a) l.

Lemma concat_map_nil {A : Type} (enc : A -> bytes) (l : list A) : (forall a, enc a <> []) -> concat (map enc l) = [] <-> l = [].
Proof. intros He. destruct l as [|a l]; [done|]. split; [|done]. cbn. intros [H _]%app_eq_nil. by destruct (He a). Qed.

Lemma parse_alpn_Ok (bs : bytes) (l : list bytes) : fits16 bs ->
  (parse_alpn_protocols bs = Ok l <-> alpn_list l /\ fits16 (concat (map vec8 l)) /\ bs = vec16 (concat (map vec8 l))).
Proof.
  intros Hb%fits16_usize. unfold parse_alpn_protocols.
  rewrite (whole_Ok _ bs (fun v => if bool_decide (v = []) then Err InvalidAlpn else read_all alpn_turn [] v)) by done.
  assert (H : forall v, fits16 v -> (if bool_decide (v = []) then Err InvalidAlpn else read_all alpn_turn [] v) = Ok l <-> alpn_list l /\ v = concat (map vec8 l)).
  { intros v Hv. case_bool_decide as Hne.
    - subst v. split; [done|]. intros [[Hl _] H]. symmetry in H. by apply (concat_map_nil vec8) in H.
    - rewrite (read_all_Ok _ vec8 fits8 (fun s a _ => alpn_next s a) _ (turn_plain alpn_next alpn_turn alpn_turn_next) vec8_ne) by by apply fits16_usize.
      setoid_rewrite alpn_items. unfold alpn_list. split.
      + intros (k & Hk & -> & Hf & ->). cbn [app]. split_and!; [by intros ->| |done]. by apply Forall_and.
      + intros ((Hl & Hf) & ->). apply Forall_and in Hf as [Hf Hk]. by exists l. }
  split.
  - intros (v & Hv & -> & Hp). apply H in Hp as [Hl ->]; [|done]. done.
  - intros (Hl & Hf & ->). exists (concat (map vec8 l)). split_and!; [done..|]. by apply H.
Qed.

Lemma parse_alpn_returns (bs : bytes) : fits16 bs -> returns (parse_alpn_protocols bs).
Proof.
  intros Hb%fits16_usize. unfold parse_alpn_protocols.
  apply (whole_returns _ bs (fun v => if bool_decide (v = []) then Err InvalidAlpn else read_all alpn_turn [] v)); [done|].
  intros v Hv _. case_bool_decide; [done|].
  apply (read_all_returns _ vec8 fits8 (fun s a _ => alpn_next s a) _ (turn_plain alpn_next alpn_turn alpn_turn_next) vec8_ne); [|by apply fits16_usize].
  intros s a _ _. unfold alpn_next. by case_bool_decide.
Qed.

(** ** Server names *)
Definition server_name_next (s : list byte * option bytes) (entry : byte * bytes) : res TlsHandshakeError (list byte * option bytes) :=
  if existsb (byte_eqb entry.1) s.1 then Err DuplicateServerName
  else if u8 entry.1 =? 0 then
    if negb (is_valid_server_name entry.2) then Err InvalidServerName else Ok (s.1 ++ [entry.1], Some (lowercase entry.2))
  else Ok (s.1 ++ [entry.1], s.2).

Definition encode_server_name (entry : byte * bytes) : bytes := [entry.1] ++ vec16 entry.2.

Lemma valid_name_utf8 (name : bytes) : is_valid_server_name name = true -> utf8_valid name = true.
Proof. unfold is_valid_server_name. destruct (_ || _); [done|]. by destruct (utf8_valid name). Qed.

Lemma server_name_turn_next (s : list byte * option bytes) (r : HandshakeReader) :
  server_name_turn s r = let? (a, r) := both read_u8 (read_vector_u16 (str "server_name")) r in let? t := server_name_next s a in Ok (t, r).
Proof.
  destruct s as [seen name]. unfold server_name_turn, both, server_name_next. destruct (read_u8 r) as [[ty r1]| | |]; [|done..]. cbn [res_bind].
  destruct (read_vector_u16 _ r1) as [[n r2]| | |]; [|done..]. cbn [res_bind fst snd]. destruct (existsb _ seen); [done|]. destruct (u8 ty =? 0); [|done].
  destruct (is_valid_server_name n) eqn:Hn; [|done]. cbn [negb]. by rewrite (valid_name_utf8 n Hn).
Qed.

(** The host name of a list of names. *)
Definition host_name (l : list (byte * bytes)) : option bytes :=
  option_map (fun entry => lowercase entry.2) (List.find (fun entry => byte_eqb entry.1 x00) l).

Definition entry_ok (entry : byte * bytes) : Prop := entry.1 = x00 -> is_valid_server_name entry.2 = true.

Lemma existsb_byte (b : byte) (l : bytes) : existsb (byte_eqb b) l = bool_decide (b ∈ l).
Proof.
  apply eq_true_iff_eq. rewrite bool_decide_eq_true, existsb_exists. split.
  - intros (c & Hc & ->%byte_eqb_eq). by apply list_elem_of_In.
  - intros H. exists b. by rewrite <- list_elem_of_In, byte_eqb_refl.
Qed.

Lemma host_name_None (l : list (byte * bytes)) : x00 ∉ l.*1 -> host_name l = None.
Proof.
  intros Hx. unfold host_name. destruct (List.find _ l) as [e|] eqn:Ef; [|done]. exfalso. apply find_some in Ef as [Hi Hb]. apply byte_eqb_eq in Hb.
  apply Hx. rewrite <- Hb. apply list_elem_of_fmap. exists e. split; [done|]. by apply list_elem_of_In.
Qed.

Lemma server_name_items (l : list (byte * bytes)) (seen seen' : bytes) (name name' : option bytes) : NoDup seen ->
  items (fun s a _ => server_name_next s a) (seen, name) l = Ok (seen', name') <->
  NoDup (seen ++ l.*1) /\ Forall entry_ok l /\ seen' = seen ++ l.*1 /\ name' = match host_name l with Some h => Some h | None => name end.
Proof.
  revert seen name. induction l as [|[ty n] l IH]; intros seen name Hs; cbn [items fmap list_fmap fst].
  { rewrite app_nil_r. split; [intros H; apply Ok_inj in H as [= <- <-]; by split_and!; [|apply Forall_nil| |]|by intros (_ & _ & -> & ->)]. }
  unfold server_name_next at 1. cbn [fst snd]. rewrite existsb_byte. case_bool_decide as Hin; cbn [res_bind].
  { split; [done|]. intros [Hnd _]. apply NoDup_app in Hnd as (_ & Hnd & _). by destruct (Hnd ty Hin); left. }
  assert (Hs' : NoDup (seen ++ [ty])).
  { apply NoDup_app. split_and!; [done| |apply NoDup_singleton]. intros x Hx ->%list_elem_of_singleton. done. }
  assert (Happ : seen ++ ty :: l.*1 = (seen ++ [ty]) ++ l.*1) by by rewrite <- app_assoc. rewrite Happ, Forall_cons.
  unfold host_name. cbn [List.find fst]. destruct (Z.eqb_spec (u8 ty) 0) as [Hty|Hty].
  - assert (ty = x00) as -> by by apply u8_inj. change (byte_eqb x00 x00) with true. cbn [option_map snd].
    assert (He : entry_ok (x00, n) <-> is_valid_server_name n = true) by (unfold entry_ok; cbn; tauto). rewrite He.
    destruct (is_valid_server_name n) eqn:Hn; cbn [negb res_bind]; [|by split; [|intros (_ & [? _] & _)]].
    rewrite IH by done. assert (Hnone : NoDup ((seen ++ [x00]) ++ l.*1) -> host_name l = None).
    { intros (_ & Hnd & _)%NoDup_app. apply host_name_None. intros Hx. apply (Hnd x00); [apply elem_of_app; right; by left|done]. }
    split; [intros (Hnd & ? & -> & ->)|intros (Hnd & [_ ?] & -> & ->)]; by rewrite (Hnone Hnd).
  - assert (ty <> x00) by (by intros ->). rewrite (proj2 (byte_eqb_neq _ _)) by done. cbn [res_bind]. rewrite IH by done. unfold entry_ok at 2. cbn [fst]. unfold host_name. tauto.
Qed.

Lemma server_name_next_returns (s : list byte * option bytes) (a : byte * bytes) : returns (server_name_next s a).
Proof. unfold server_name_next. by repeat case_match. Qed.

Definition entry_fits (entry : byte * bytes) : Prop := True /\ fits16 entry.2.

#[global] Instance server_entry_codec : Codec (both read_u8 (read_vector_u16 (str "server_name"))) encode_server_name entry_fits.
Proof. exact (both_codec _ _ _ _ _ _ read_u8_codec (read_vector_u16_codec _)). Qed.

Lemma encode_server_name_ne (a : byte * bytes) : encode_server_name a <> [].
Proof. done. Qed.

Definition server_name_list_ok (l : list (byte * bytes)) : Prop :=
  l <> [] /\ Forall entry_fits l /\ NoDup l.*1 /\ Forall entry_ok l /\ fits16 (concat (map encode_server_name l)).

Lemma read_server_names (v : bytes) (seen : bytes) (name : option bytes) : fits16 v ->
  (read_all server_name_turn ([], None) v = Ok (seen, name) <->
   exists l, Forall entry_fits l /\ v = concat (map encode_server_name l) /\ NoDup l.*1 /\ Forall entry_ok l /\ seen = l.*1 /\ name = host_name l).
Proof.
  intros Hv. rewrite (read_all_Ok _ encode_server_name entry_fits (fun s a _ => server_name_next s a) _
    (turn_plain server_name_next server_name_turn server_name_turn_next) (fun a _ => encode_server_name_ne a)) by by apply fits16_usize.
  setoid_rewrite server_name_items; [|apply NoDup_nil_2]. cbn [app]. split; intros (l & Hf & -> & Hnd & Ho & -> & ->); exists l; split_and!; try done; by destruct (host_name l).
Qed.

Lemma parse_server_name_Ok (bs : bytes) (name : option bytes) : fits16 bs ->
  (parse_server_name bs = Ok name <-> exists l, server_name_list_ok l /\ bs = vec16 (concat (map encode_server_name l)) /\ name = host_name l).
Proof.
  intros Hb%fits16_usize. unfold parse_server_name.
  rewrite (whole_Ok _ bs (fun v => if bool_decide (v = []) then _ else _)) by done.
  assert (H : forall v, fits16 v -> (if bool_decide (v = []) then Err (MalformedVector (str "server_name_list"))
    else let? s := read_all server_name_turn ([], None) v in Ok s.2) = Ok name <-> exists l, server_name_list_ok l /\ v = concat (map encode_server_name l) /\ name = host_name l).
  { intros v Hv. case_bool_decide as Hne.
    - subst v. split; [done|]. intros (l & (Hl & _) & H & _). symmetry in H. by apply (concat_map_nil _ _ encode_server_name_ne) in H.
    - rewrite res_bind_Ok. split.
      + intros ([seen n] & Hr & Hn). apply Ok_inj in Hn. cbn in Hn. subst n. apply read_server_names in Hr as (l & Hf & -> & Hnd & Ho & _ & ->); [|done].
        exists l. split_and!; [|done..]. split_and!; [by intros ->|done..].
      + intros (l & (_ & Hf & Hnd & Ho & _) & -> & ->). exists (l.*1, host_name l). split; [|done]. apply read_server_names; [done|]. by exists l. }
  split.
  - intros (v & Hv & -> & Hp). apply H in Hp as (l & Hl & -> & ->); [|done]. by exists l.
  - intros (l & Hl & -> & ->). exists (concat (map encode_server_name l)). split_and!; [apply Hl|done|]. apply H; [apply Hl|]. by exists l.
Qed.

Lemma parse_server_name_returns (bs : bytes) : fits16 bs -> returns (parse_server_name bs).
Proof.
  intros Hb%fits16_usize. unfold parse_server_name. apply (whole_returns _ bs (fun v => if bool_decide (v = []) then _ else _)); [done|].
  intros v Hv _. case_bool_decide; [done|]. apply res_bind_returns; [|done].
  apply (read_all_returns _ encode_server_name entry_fits (fun s a _ => server_name_next s a) _
    (turn_plain server_name_next server_name_turn server_name_turn_next) (fun a _ => encode_server_name_ne a)); [|by apply fits16_usize].
  intros. apply server_name_next_returns.
Qed.

(** ** Key shares *)
Definition key_share_next (shares : list TlsKeyShareEntry) (entry : Z * bytes) : res TlsHandshakeError (list TlsKeyShareEntry) :=
  if bool_decide (entry.2 = []) then Err (MalformedVector (str "key_exchange"))
  else if existsb (fun share => group share =? entry.1) shares then Err (DuplicateKeyShareGroup entry.1)
  else Ok (shares ++ [mkKeyShare entry.1 entry.2]).

Definition encode_key_share (share : TlsKeyShareEntry) : bytes := be_bytes 2 (group share) ++ vec16 (key_exchange share).
Definition key_share_ok (share : TlsKeyShareEntry) : Prop := u16 (group share) /\ fits16 (key_exchange share) /\ key_exchange share <> [].

Lemma key_share_turn_next (s : list TlsKeyShareEntry) (r : HandshakeReader) :
  key_share_turn s r = let? (a, r) := both read_u16 (read_vector_u16 (str "key_exchange")) r in let? t := key_share_next s a in Ok (t, r).
Proof.
  unfold key_share_turn, both, key_share_next. destruct (read_u16 r) as [[g r1]| | |]; [|done..]. cbn [res_bind].
  destruct (read_vector_u16 _ r1) as [[n r2]| | |]; [|done..]. cbn [res_bind fst snd]. case_bool_decide; [done|]. by destruct (existsb _ s).
Qed.

Lemma existsb_group (g : Z) (l : list TlsKeyShareEntry) : existsb (fun share => group share =? g) l = bool_decide (g ∈ map group l).
Proof.
  apply eq_true_iff_eq. rewrite bool_decide_eq_true, existsb_exists, list_elem_of_In, in_map_iff. split.
  - intros (c & Hc & Hg%Z.eqb_eq). by exists c.
  - intros (c & Hg & Hc). exists c. split; [done|]. by apply Z.eqb_eq.
Qed.

Definition to_share (entry : Z * bytes) : TlsKeyShareEntry := mkKeyShare entry.1 entry.2.

Lemma key_share_items (l : list (Z * bytes)) (s s' : list TlsKeyShareEntry) : NoDup (map group s) ->
  items (fun s a _ => key_share_next s a) s l = Ok s' <->
  Forall (fun entry => entry.2 <> []) l /\ NoDup (map group (s ++ map to_share l)) /\ s' = s ++ map to_share l.
Proof.
  revert s. induction l as [|[g v] l IH]; intros s Hs; cbn [items map].
  { rewrite app_nil_r. split; [intros H; apply Ok_inj in H as <-; by split_and!; [apply Forall_nil| |]|by intros (_ & _ & ->)]. }
  rewrite Forall_cons. unfold key_share_next at 1. cbn [fst snd]. case_bool_decide as Hv; cbn [res_bind]; [by split; [|intros [[? _] _]]|].
  rewrite existsb_group. change (to_share (g, v)) with (mkKeyShare g v). case_bool_decide as Hin; cbn [res_bind].
  { split; [done|]. intros (_ & Hnd & _). rewrite map_app in Hnd. apply NoDup_app in Hnd as (_ & Hnd & _). by destruct (Hnd g Hin); left. }
  rewrite IH, <- app_assoc; [cbn; tauto|]. rewrite map_app. apply NoDup_app. split_and!; [done| |apply NoDup_singleton].
  by intros x Hx ->%list_elem_of_singleton.
Qed.

Definition key_share_list_ok (l : list TlsKeyShareEntry) : Prop :=
  Forall key_share_ok l /\ NoDup (map group l) /\ fits16 (concat (map encode_key_share l)).

Lemma encode_entry_share (a : Z * bytes) : be_bytes 2 a.1 ++ vec16 a.2 = encode_key_share (to_share a).
Proof. done. Qed.

Lemma entry_share_ne (a : Z * bytes) : be_bytes 2 a.1 ++ vec16 a.2 <> [].
Proof. intros H. apply (f_equal length) in H. rewrite length_app, length_be_bytes in H. done. Qed.

Lemma parse_key_shares_Ok (bs : bytes) (l : list TlsKeyShareEntry) : fits16 bs ->
  (parse_client_key_shares bs = Ok l <-> key_share_list_ok l /\ bs = vec16 (concat (map encode_key_share l))).
Proof.
  intros Hb%fits16_usize. unfold parse_client_key_shares. rewrite (whole_Ok _ bs (fun v => read_all key_share_turn [] v)) by done.
  assert (H : forall v, fits16 v -> read_all key_share_turn [] v = Ok l <-> Forall key_share_ok l /\ NoDup (map group l) /\ v = concat (map encode_key_share l)).
  { intros v Hv. rewrite (read_all_Ok _ (fun a => be_bytes 2 a.1 ++ vec16 a.2) (fun a => u16 a.1 /\ fits16 a.2) (fun s a _ => key_share_next s a) _
      (turn_plain key_share_next key_share_turn key_share_turn_next) (fun a _ => entry_share_ne a)) by by apply fits16_usize.
    setoid_rewrite key_share_items; [|apply NoDup_nil_2]. cbn [app]. split.
    - intros (k & Hk & -> & Hne & Hnd & ->). split_and!; [|done|].
      + assert (Hf : Forall (fun a => (u16 a.1 /\ fits16 a.2) /\ a.2 <> []) k) by by apply Forall_and.
        apply Forall_map. eapply Forall_impl; [exact Hf|]. by intros [g x] [[? ?] ?].
      + rewrite map_map. done.
    - intros (Hf & Hnd & ->). exists (map (fun s => (group s, key_exchange s)) l).
      assert (Hid : map to_share (map (fun s => (group s, key_exchange s)) l) = l) by (rewrite map_map; etransitivity; [|apply map_id]; apply map_ext; by intros []).
      rewrite Hid. split_and!; [| | |done|done].
      + apply Forall_map. eapply Forall_impl; [exact Hf|]. by intros [g x] (? & ? & ?).
      + by rewrite map_map.
      + apply Forall_map. eapply Forall_impl; [exact Hf|]. by intros [g x] (? & ? & ?). }
  split.
  - intros (v & Hv & -> & Hp). apply H in Hp as (Hf & Hnd & ->); [|done]. done.
  - intros ((Hf & Hnd & Hl) & ->). exists (concat (map encode_key_share l)). split_and!; [done..|]. by apply H.
Qed.

Lemma parse_key_shares_returns (bs : bytes) : fits16 bs -> returns (parse_client_key_shares bs).
Proof.
  intros Hb%fits16_usize. unfold parse_client_key_shares. apply (whole_returns _ bs (fun v => read_all key_share_turn [] v)); [done|].
  intros v Hv _. apply (read_all_returns _ (fun a => be_bytes 2 a.1 ++ vec16 a.2) (fun a => u16 a.1 /\ fits16 a.2) (fun s a _ => key_share_next s a) _
      (turn_plain key_share_next key_share_turn key_share_turn_next) (fun a _ => entry_share_ne a)); [|by apply fits16_usize].
  intros s a _ _. unfold key_share_next. by repeat case_match.
Qed.

(** ** The order of the key shares *)
Definition shares_in_order (groups : list Z) (shares : list TlsKeyShareEntry) : Prop :=
  exists positions, Forall2 (fun share i => index_of (group share) groups = Some i) shares positions /\ Sorted lt positions.

Lemma key_share_order_loop (groups : list Z) (shares : list TlsKeyShareEntry) (previous : nat) :
  is_ok (res_foldM (key_share_order groups) (Some previous) shares) = true <->
  exists positions, Forall2 (fun share i => index_of (group share) groups = Some i) shares positions /\ Sorted lt (previous :: positions).
Proof.
  revert previous. induction shares as [|share shares IH]; intros previous; cbn [res_foldM].
  { split; [|done]. intros _. exists []. split; [by apply Forall2_nil|]. by repeat constructor. }
  unfold key_share_order at 1. destruct (index_of (group share) groups) as [i|] eqn:Ei; cbn [ok_or res_bind].
  - destruct (Nat.leb_spec i previous) as [Hle|Hlt]; cbn [res_bind].
    + split; [done|]. intros (ps & Hf & Hs). apply Forall2_cons_inv_l in Hf as (j & ps' & Hj & Hf & ->). inversion Hs as [|? ? _ Hh]; subst.
      inversion Hh; subst. rewrite Ei in Hj. injection Hj as <-. lia.
    + rewrite IH. split.
      * intros (ps & Hf & Hs). exists (i :: ps). split; [by apply Forall2_cons|]. constructor; [done|by constructor].
      * intros (ps & Hf & Hs). apply Forall2_cons_inv_l in Hf as (j & ps' & Hj & Hf & ->). rewrite Ei in Hj. injection Hj as <-. exists ps'. split; [done|].
        by inversion Hs.
  - split; [done|]. intros (ps & Hf & Hs). apply Forall2_cons_inv_l in Hf as (j & ps' & Hj & Hf & ->). by rewrite Ei in Hj.
Qed.

Lemma validate_key_share_groups_Ok (groups : list Z) (shares : list TlsKeyShareEntry) :
  validate_key_share_groups groups shares = Ok tt <-> shares_in_order groups shares.
Proof.
  assert (H : validate_key_share_groups groups shares = Ok tt <-> is_ok (res_foldM (key_share_order groups) None shares) = true).
  { unfold validate_key_share_groups. by destruct (res_foldM _ _ shares). }
  rewrite H. clear H. unfold shares_in_order. destruct shares as [|share shares]; cbn [res_foldM].
  { split; [|done]. intros _. exists []. split; [by apply Forall2_nil|constructor]. }
  unfold key_share_order at 1. destruct (index_of (group share) groups) as [i|] eqn:Ei; cbn [ok_or res_bind].
  - rewrite key_share_order_loop. split.
    + intros (ps & Hf & Hs). exists (i :: ps). by split; [apply Forall2_cons|].
    + intros (ps & Hf & Hs). apply Forall2_cons_inv_l in Hf as (j & ps' & Hj & Hf & ->). rewrite Ei in Hj. injection Hj as <-. by exists ps'.
  - split; [done|]. intros (ps & Hf & Hs). apply Forall2_cons_inv_l in Hf as (j & ps' & Hj & Hf & ->). by rewrite Ei in Hj.
Qed.

Lemma validate_key_share_groups_returns (groups : list Z) (shares : list TlsKeyShareEntry) : returns (validate_key_share_groups groups shares).
Proof.
  unfold validate_key_share_groups. apply res_bind_returns; [|done]. apply res_foldM_returns. intros s a _. unfold key_share_order.
  apply res_bind_returns; [apply ok_or_returns|]. intros i _. by case_match.
Qed.

(** ** The list of extensions *)
Definition encode_extension (e : Z * bytes) : bytes := be_bytes 2 e.1 ++ vec16 e.2.
Definition extension_fits (e : Z * bytes) : Prop := u16 e.1 /\ fits16 e.2.

(** The data of the extension of a type. *)
Definition extension (ty : Z) (raw : list (Z * bytes)) : option bytes := option_map snd (List.find (fun e => e.1 =? ty) raw).

Lemma extension_None (ty : Z) (raw : list (Z * bytes)) : extension ty raw = None <-> ty ∉ raw.*1.
Proof.
  unfold extension. induction raw as [|[t d] raw IH]; [split; [intros _; apply not_elem_of_nil|done]|]. cbn [List.find fst]. rewrite fmap_cons, not_elem_of_cons. cbn [fst].
  destruct (Z.eqb_spec t ty) as [->|Hne]; [split; [done|by intros [? _]]|]. rewrite IH. split; [intros H; split; [congruence|done]|by intros [_ ?]].
Qed.

Lemma extension_app (ty : Z) (raw more : list (Z * bytes)) :
  extension ty (raw ++ more) = match extension ty raw with Some d => Some d | None => extension ty more end.
Proof. unfold extension. induction raw as [|[t d] raw IH]; [done|]. cbn [List.find app fst]. by destruct (t =? ty). Qed.

Lemma extension_snoc (ty' ty : Z) (d : bytes) (raw : list (Z * bytes)) : ty ∉ raw.*1 ->
  extension ty' (raw ++ [(ty, d)]) = if ty =? ty' then Some d else extension ty' raw.
Proof.
  intros Hn. rewrite extension_app. unfold extension at 2. cbn [List.find fst]. destruct (Z.eqb_spec ty ty') as [->|Hne]; cbn [option_map snd].
  - by rewrite (proj2 (extension_None _ _) Hn).
  - by destruct (extension ty' raw).
Qed.

Definition field_is {A : Type} (parse : bytes -> res TlsHandshakeError A) (o : option bytes) (x : option A) : Prop :=
  match o, x with
  | None, None => True
  | Some d, Some a => parse d = Ok a
  | _, _ => False
  end.

Definition name_is (o : option bytes) (x : option bytes) : Prop := match o with None => x = None | Some d => parse_server_name d = Ok x end.

(** What the extensions [raw] mean. *)
Record describes (raw : list (Z * bytes)) (p : ParsedClientHelloExtensions) : Prop := {
  describes_raw : parsed_raw_extensions p = raw;
  describes_name : name_is (extension 0 raw) (parsed_server_name p);
  describes_groups : field_is (fun d => parse_u16_vector_u16 d (str "supported_groups")) (extension 10 raw) (parsed_supported_groups p);
  describes_algorithms : field_is (fun d => parse_u16_vector_u16 d (str "signature_algorithms")) (extension 13 raw) (parsed_signature_algorithms p);
  describes_alpn : field_is parse_alpn_protocols (extension 16 raw) (parsed_alpn_protocols p);
  describes_versions : field_is (fun d => parse_u16_vector_u8 d (str "supported_versions")) (extension 43 raw) (parsed_supported_versions p);
  describes_shares : field_is parse_client_key_shares (extension 51 raw) (parsed_key_shares p);
  describes_psk : parsed_pre_shared_key_present p = bool_decide (is_Some (extension 41 raw))
}.

Lemma field_is_unique {A : Type} (parse : bytes -> res TlsHandshakeError A) (o : option bytes) (x y : option A) :
  field_is parse o x -> field_is parse o y -> x = y.
Proof. destruct o, x, y; cbn; try done. intros H1 H2. rewrite H1 in H2. by apply Ok_inj in H2 as ->. Qed.

Lemma name_is_unique (o x y : option bytes) : name_is o x -> name_is o y -> x = y.
Proof. destruct o; cbn; [|congruence]. intros H1 H2. rewrite H1 in H2. by apply Ok_inj in H2. Qed.

Lemma describes_unique (raw : list (Z * bytes)) (p q : ParsedClientHelloExtensions) : describes raw p -> describes raw q -> p = q.
Proof.
  intros [] []. destruct p, q; cbn in *. subst. f_equal; eauto using field_is_unique, name_is_unique.
Qed.

(** The part of a description that stands in the first extensions. *)
Definition only {A : Type} (o : option bytes) (x : option A) : option A := match o with Some _ => x | None => None end.

Lemma field_is_only {A : Type} (parse : bytes -> res TlsHandshakeError A) (ty : Z) (raw more : list (Z * bytes)) (x : option A) :
  field_is parse (extension ty (raw ++ more)) x -> field_is parse (extension ty raw) (only (extension ty raw) x).
Proof. rewrite extension_app. by destruct (extension ty raw). Qed.

Lemma name_is_only (ty : Z) (raw more : list (Z * bytes)) (x : option bytes) :
  name_is (extension ty (raw ++ more)) x -> name_is (extension ty raw) (only (extension ty raw) x).
Proof. rewrite extension_app. by destruct (extension ty raw). Qed.

Lemma describes_before (raw more : list (Z * bytes)) (p : ParsedClientHelloExtensions) : describes (raw ++ more) p -> exists q, describes raw q.
Proof.
  intros [_ Hn Hg Ha Hl Hv Hs _]. eexists (mkParsed _ _ _ _ _ _ raw (bool_decide (is_Some (extension 41 raw)))).
  split; cbn; [done| | | | | | |done]; by (eapply field_is_only || eapply name_is_only).
Qed.

Definition extension_next (s : list Z * ParsedClientHelloExtensions) (e : Z * bytes) (last : bool) : res TlsHandshakeError (list Z * ParsedClientHelloExtensions) :=
  if existsb (Z.eqb e.1) s.1 then Err (DuplicateExtension e.1)
  else
    let? parsed := read_extension (push_raw s.2 e) e.1 e.2 last in
    Ok (s.1 ++ [e.1], parsed).

Lemma extension_turn_next (s : list Z * ParsedClientHelloExtensions) (r : HandshakeReader) (bs : bytes) : reads r bs ->
  extension_turn s r = let? (a, r) := both read_u16 (read_vector_u16 (str "extension_data")) r in
    let? n := remaining r in let? t := extension_next s a (n =? 0)%nat in Ok (t, r).
Proof.
  intros Hr. destruct s as [seen p]. unfold extension_turn.
  pose proof (codec_sound (op := both read_u16 (read_vector_u16 (str "extension_data"))) r bs Hr) as S. unfold both in *.
  destruct (read_u16 r) as [[ty r1]| | |]; [|done..]. cbn [res_bind] in *.
  destruct (read_vector_u16 _ r1) as [[d r2]| | |]; [|done..]. cbn [res_bind fst snd] in *. destruct S as (_ & rest & _ & Hr2).
  rewrite !(reads_remaining r2 rest Hr2). unfold extension_next. cbn [res_bind fst snd]. destruct (existsb _ seen); [done|]. by destruct (read_extension _ ty d _).
Qed.

Lemma field_snoc {A : Type} (parse : bytes -> res TlsHandshakeError A) (ty' ty : Z) (d : bytes) (raw : list (Z * bytes)) (x y : option A) :
  ty ∉ raw.*1 -> field_is parse (extension ty' raw) x ->
  field_is parse (extension ty' (raw ++ [(ty, d)])) y <-> if ty =? ty' then field_is parse (Some d) y else y = x.
Proof.
  intros Hn Hx. rewrite extension_snoc by done. destruct (ty =? ty'); [done|]. split; [intros Hy; by eapply field_is_unique|by intros ->].
Qed.

Lemma name_snoc (ty' ty : Z) (d : bytes) (raw : list (Z * bytes)) (x y : option bytes) : ty ∉ raw.*1 -> name_is (extension ty' raw) x ->
  name_is (extension ty' (raw ++ [(ty, d)])) y <-> if ty =? ty' then name_is (Some d) y else y = x.
Proof.
  intros Hn Hx. rewrite extension_snoc by done. destruct (ty =? ty'); [done|]. split; [intros Hy; by eapply name_is_unique|by intros ->].
Qed.

Lemma psk_snoc (ty : Z) (d : bytes) (raw : list (Z * bytes)) : ty ∉ raw.*1 ->
  bool_decide (is_Some (extension 41 (raw ++ [(ty, d)]))) = (ty =? 41) || bool_decide (is_Some (extension 41 raw)).
Proof. intros Hn. rewrite extension_snoc by done. destruct (ty =? 41); [|done]. apply bool_decide_true. by eexists. Qed.

(** One more extension. *)
Lemma read_extension_step (raw : list (Z * bytes)) (p q : ParsedClientHelloExtensions) (ty : Z) (d : bytes) (last : bool) :
  describes raw p -> ty ∉ raw.*1 ->
  (read_extension (push_raw p (ty, d)) ty d last = Ok q <-> describes (raw ++ [(ty, d)]) q /\ (ty = 41 -> last = true)).
Proof.
  intros [Hr Hn Hg Ha Hl Hv Hs Hp] Hty. destruct p as [n v g k s a raw' psk]. cbn in Hr, Hn, Hg, Ha, Hl, Hv, Hs, Hp. subst raw' psk. cbn [push_raw].
  assert (Hd : describes (raw ++ [(ty, d)]) q <->
    parsed_raw_extensions q = raw ++ [(ty, d)] /\
    (if ty =? 0 then name_is (Some d) (parsed_server_name q) else parsed_server_name q = n) /\
    (if ty =? 10 then field_is (fun d => parse_u16_vector_u16 d (str "supported_groups")) (Some d) (parsed_supported_groups q) else parsed_supported_groups q = g) /\
    (if ty =? 13 then field_is (fun d => parse_u16_vector_u16 d (str "signature_algorithms")) (Some d) (parsed_signature_algorithms q) else parsed_signature_algorithms q = s) /\
    (if ty =? 16 then field_is parse_alpn_protocols (Some d) (parsed_alpn_protocols q) else parsed_alpn_protocols q = a) /\
    (if ty =? 43 then field_is (fun d => parse_u16_vector_u8 d (str "supported_versions")) (Some d) (parsed_supported_versions q) else parsed_supported_versions q = v) /\
    (if ty =? 51 then field_is parse_client_key_shares (Some d) (parsed_key_shares q) else parsed_key_shares q = k) /\
    parsed_pre_shared_key_present q = (ty =? 41) || bool_decide (is_Some (extension 41 raw))).
  { split.
    - intros [? ? ? ? ? ? ? ?]. split_and!; [done|by eapply name_snoc|by eapply field_snoc..|by rewrite <- (psk_snoc ty d)].
    - intros (? & ? & ? & ? & ? & ? & ? & ?). split; [done|by eapply name_snoc|by eapply field_snoc..|by rewrite (psk_snoc ty d)]. }
  rewrite Hd. clear Hd Hn Hg Ha Hl Hv Hs Hty. destruct q as [n' v' g' k' s' a' raw' psk']. cbn [parsed_raw_extensions parsed_server_name parsed_supported_groups
    parsed_signature_algorithms parsed_alpn_protocols parsed_supported_versions parsed_key_shares parsed_pre_shared_key_present]. unfold read_extension.
  change EXTENSION_SERVER_NAME with 0. change EXTENSION_SUPPORTED_GROUPS with 10. change EXTENSION_SIGNATURE_ALGORITHMS with 13.
  change EXTENSION_APPLICATION_LAYER_PROTOCOL_NEGOTIATION with 16. change EXTENSION_PRE_SHARED_KEY with 41. change EXTENSION_SUPPORTED_VERSIONS with 43.
  change EXTENSION_KEY_SHARE with 51.
  repeat match goal with |- context [?x =? ?y] => destruct (Z.eqb_spec x y); [subst; cbn [Z.eqb Pos.eqb orb field_is name_is]|] end; try done; cbn [orb].
  all: try (rewrite res_bind_Ok; split; [intros (x & Hx & H); apply Ok_inj in H as [= <- <- <- <- <- <- <- <-]; done|]).
  all: try (intros ((-> & H & -> & -> & -> & -> & -> & ->) & _); by eexists).
  all: try (intros ((-> & -> & H & -> & -> & -> & -> & ->) & _); by destruct g' as [x|]; [exists x|]).
  all: try (intros ((-> & -> & -> & H & -> & -> & -> & ->) & _); by destruct s' as [x|]; [exists x|]).
  all: try (intros ((-> & -> & -> & -> & H & -> & -> & ->) & _); by destruct a' as [x|]; [exists x|]).
  all: try (intros ((-> & -> & -> & -> & -> & H & -> & ->) & _); by destruct v' as [x|]; [exists x|]).
  all: try (intros ((-> & -> & -> & -> & -> & -> & H & ->) & _); by destruct k' as [x|]; [exists x|]).
  - destruct last; cbn [negb]; [|by split; [|intros [_ H]; specialize (H eq_refl)]].
    split; [intros H; by apply Ok_inj in H as [= <- <- <- <- <- <- <- <-]|]. by intros ((-> & -> & -> & -> & -> & -> & -> & ->) & _).
  - split; [intros H; by apply Ok_inj in H as [= <- <- <- <- <- <- <- <-]|]. by intros ((-> & -> & -> & -> & -> & -> & -> & ->) & _).
Qed.

Lemma hello_extension_returns (p : ParsedClientHelloExtensions) (ty : Z) (d : bytes) (last : bool) : fits16 d -> returns (read_extension p ty d last).
Proof.
  intros Hd. destruct p. unfold read_extension. pose proof (fun f => parse_u16_vectors_return d f Hd) as Hv.
  repeat match goal with |- returns (if ?c then _ else _) => destruct c end; try done; (apply res_bind_returns; [|done]); try apply Hv;
    eauto using parse_server_name_returns, parse_alpn_returns, parse_key_shares_returns.
Qed.

Lemma existsb_Z (v : Z) (l : list Z) : existsb (Z.eqb v) l = bool_decide (v ∈ l).
Proof.
  apply eq_true_iff_eq. rewrite bool_decide_eq_true, existsb_exists. split.
  - intros (c & Hc & ->%Z.eqb_eq). by apply list_elem_of_In.
  - intros H. exists v. by rewrite <- list_elem_of_In, Z.eqb_refl.
Qed.

(** The pre-shared keys come last. *)
Definition psk_last (l : list (Z * bytes)) : Prop := forall l1 d l2, l = l1 ++ (41, d) :: l2 -> l2 = [].

Lemma psk_last_cons (ty : Z) (d : bytes) (l : list (Z * bytes)) : psk_last ((ty, d) :: l) <-> (ty = 41 -> l = []) /\ psk_last l.
Proof.
  split.
  - intros H. split; [intros ->; by apply (H [] d l)|]. intros l1 d' l2 ->. by apply (H ((ty, d) :: l1) d' l2).
  - intros [H1 H2] [|e l1] d' l2 [= Ht Hl]; [subst; by apply H1|]. by apply (H2 l1 d').
Qed.

Lemma extension_items (l : list (Z * bytes)) (raw : list (Z * bytes)) (p q : ParsedClientHelloExtensions) (seen : list Z) :
  describes raw p -> NoDup raw.*1 ->
  (items extension_next (raw.*1, p) l = Ok (seen, q) <-> NoDup (raw ++ l).*1 /\ psk_last l /\ describes (raw ++ l) q /\ seen = (raw ++ l).*1).
Proof.
  revert raw p. induction l as [|[ty d] l IH]; intros raw p Hp Hnd; cbn [items].
  { rewrite app_nil_r. split.
    - intros H. apply Ok_inj in H as [= <- <-]. split_and!; [done| |done..]. by intros [] d' l2.
    - intros (_ & _ & Hq & ->). by rewrite (describes_unique _ _ _ Hp Hq). }
  unfold extension_next at 1. cbn [fst snd]. rewrite existsb_Z. case_bool_decide as Hin; cbn [res_bind].
  { split; [done|]. intros (H & _). rewrite fmap_app in H. apply NoDup_app in H as (_ & H & _). destruct (H ty Hin). rewrite fmap_cons. by left. }
  assert (Hnd' : NoDup (raw ++ [(ty, d)]).*1).
  { rewrite fmap_app. apply NoDup_app. split_and!; [done| |apply NoDup_singleton]. by intros x Hx ->%list_elem_of_singleton. }
  assert (Happ : raw ++ (ty, d) :: l = (raw ++ [(ty, d)]) ++ l) by by rewrite <- app_assoc. rewrite Happ, psk_last_cons. rewrite res_bind_assoc. cbn [res_bind].
  assert (Hf : raw.*1 ++ [ty] = (raw ++ [(ty, d)]).*1) by by rewrite fmap_app. rewrite Hf. rewrite res_bind_Ok. split.
  - intros (p' & Hr & H). apply (read_extension_step raw p p' ty d _ Hp Hin) in Hr as [Hp' Hlast]. apply (IH _ _ Hp' Hnd') in H as (? & ? & ? & ?).
    split_and!; [done| |done..]. intros Ht. exact (proj1 (bool_decide_eq_true _) (Hlast Ht)).
  - intros (H1 & [Hlast H2] & Hq & ->). destruct (describes_before _ _ _ Hq) as [p' Hp']. exists p'. split.
    + apply (read_extension_step raw p p' ty d _ Hp Hin). split; [done|]. intros Ht. apply bool_decide_true. auto.
    + by apply (IH _ _ Hp' Hnd').
Qed.

Definition extension_list_ok (raw : list (Z * bytes)) : Prop := Forall extension_fits raw /\ NoDup raw.*1 /\ psk_last raw.

Lemma encode_extension_ne (e : Z * bytes) : encode_extension e <> [].
Proof. apply entry_share_ne. Qed.

#[global] Instance extension_codec (field : bytes) : Codec (both read_u16 (read_vector_u16 field)) encode_extension extension_fits.
Proof. exact (both_codec _ _ _ _ _ _ read_u16_codec (read_vector_u16_codec _)). Qed.

Lemma parse_extensions_Ok (bs : bytes) (p : ParsedClientHelloExtensions) : fits16 bs ->
  (parse_client_hello_extensions bs = Ok p <->
   exists raw, extension_list_ok raw /\ bs = concat (map encode_extension raw) /\ describes raw p).
Proof.
  intros Hb. unfold parse_client_hello_extensions. rewrite res_bind_Ok.
  assert (H0 : describes [] no_extensions) by by split.
  setoid_rewrite (read_all_Ok _ encode_extension extension_fits extension_next _ extension_turn_next (fun a _ => encode_extension_ne a)); [|by apply fits16_usize].
  split.
  - intros ([seen q] & (l & Hl & -> & Hi) & Hq). apply Ok_inj in Hq. cbn in Hq. subst q. apply (extension_items l [] _ _ _ H0 (NoDup_nil_2)) in Hi as (Hnd & Hpsk & Hd & _).
    by exists l.
  - intros (raw & (Hf & Hnd & Hpsk) & -> & Hd). exists (raw.*1, p). split; [|done]. exists raw. split_and!; [done..|].
    by apply (extension_items raw [] _ _ _ H0 (NoDup_nil_2)).
Qed.

Lemma parse_extensions_returns (bs : bytes) : fits16 bs -> returns (parse_client_hello_extensions bs).
Proof.
  intros Hb. unfold parse_client_hello_extensions. apply res_bind_returns; [|done].
  apply (read_all_returns _ encode_extension extension_fits extension_next _ extension_turn_next (fun a _ => encode_extension_ne a)); [|by apply fits16_usize].
  intros s [ty d] last [_ Hd]. unfold extension_next. cbn [fst snd]. destruct (existsb _ _); [done|]. apply res_bind_returns; [|done]. by apply hello_extension_returns.
Qed.

(** ** The message *)
Lemma codec_inv {E A B : Type} {op : HandshakeReader -> res E (A * HandshakeReader)} {enc ok} `{!Codec op enc ok} (r : HandshakeReader) (bs : bytes)
  (k : A * HandshakeReader -> res E B) (x : B) : reads r bs -> res_bind (op r) k = Ok x ->
  exists a rest r', ok a /\ bs = enc a ++ rest /\ reads r' rest /\ k (a, r') = Ok x.
Proof.
  intros Hr H. pose proof (codec_sound r bs Hr) as S. apply res_bind_Ok in H as ([a r'] & Ho & H). rewrite Ho in S. destruct S as (Ha & rest & -> & Hr').
  by exists a, rest, r'.
Qed.

Lemma codec_step {E A B : Type} {op : HandshakeReader -> res E (A * HandshakeReader)} {enc ok} `{!Codec op enc ok} (r : HandshakeReader) (a : A) (rest : bytes)
  (k : A * HandshakeReader -> res E B) : reads r (enc a ++ rest) -> ok a -> exists r', reads r' rest /\ res_bind (op r) k = k (a, r').
Proof. intros Hr Ha. destruct (codec_complete r a rest Ha Hr) as (r' & -> & Hr'). by exists r'. Qed.

Definition handshake_message (message_type : byte) (body : bytes) : bytes := message_type :: be_bytes 3 (len body) ++ body.

(** What the code sees of a message with a header. *)
Lemma header_cases (m : bytes) : (length m <? HANDSHAKE_HEADER_SIZE)%nat = true \/
  exists ty l body, m = ty :: l ++ body /\ length l = 3%nat /\ (length m <? HANDSHAKE_HEADER_SIZE)%nat = false.
Proof.
  destruct m as [|ty [|b1 [|b2 [|b3 body]]]]; [by left..|]. right. exists ty, [b1; b2; b3], body. done.
Qed.

Lemma header_parts {E : Type} (ty : byte) (l body : bytes) : length l = 3%nat ->
  index (ty :: l ++ body) 0 = Ok ty :> res E _ /\ declared_length (ty :: l ++ body) = Ok (be_value 0 l) :> res E _ /\
  usize_sub (length (ty :: l ++ body)) HANDSHAKE_HEADER_SIZE = Ok (length body) :> res E _ /\ slice_from (ty :: l ++ body) HANDSHAKE_HEADER_SIZE = Ok body :> res E _.
Proof.
  intros Hl. destruct l as [|b1 [|b2 [|b3 [|]]]]; try done. split_and!; [done| | |].
  - unfold declared_length, index. cbn [lookup list_lookup app expect res_bind]. by rewrite be_value_3.
  - unfold usize_sub, HANDSHAKE_HEADER_SIZE. cbn [length app]. rewrite (proj2 (Nat.leb_le _ _)) by lia. f_equal. lia.
  - by rewrite slice_from_Ok by (unfold HANDSHAKE_HEADER_SIZE; cbn; lia).
Qed.

Lemma header_length (l body : bytes) : length l = 3%nat -> be_value 0 l = Z.of_nat (length body) -> l = be_bytes 3 (len body).
Proof. intros Hl Hb. unfold len. rewrite <- Hb, <- Hl. by rewrite be_bytes_be_value. Qed.

Lemma header_declares (body : bytes) : len body < 16777216 -> be_value 0 (be_bytes 3 (len body)) = len body.
Proof. intros Hb. rewrite be_value_be_bytes, Z.mod_small; [done|]. pose proof (len_nonneg body). split; [lia|exact Hb]. Qed.

Lemma header_fits (l body : bytes) : length l = 3%nat -> be_value 0 l = Z.of_nat (length body) -> len body <= usize_max.
Proof.
  intros Hl Hb. pose proof (be_value_range l) as H. unfold len in *. rewrite Hl in H. change (256 ^ Z.of_nat 3) with 16777216 in H. unfold usize_max, u64_max. lia.
Qed.

Lemma header_inj (ty ty' : byte) (l l' body body' : bytes) : length l = 3%nat -> length l' = 3%nat -> ty :: l ++ body = ty' :: l' ++ body' ->
  ty = ty' /\ l = l' /\ body = body'.
Proof. intros Hl Hl' H. assert (ty = ty' /\ l ++ body = l' ++ body') as [-> H2] by (split; congruence). apply app_inj_1 in H2 as [-> ->]; [done|by rewrite Hl]. Qed.

Definition hello_body (ch : ClientHello) : bytes :=
  be_bytes 2 TLS_LEGACY_RECORD_VERSION ++ random ch ++ vec8 (legacy_session_id ch) ++ vec16 (u16s (cipher_suites ch)) ++ vec8 [x00] ++
  vec16 (concat (map encode_extension (raw_extensions ch))).

Definition encode_client_hello (ch : ClientHello) : bytes := handshake_message HANDSHAKE_TYPE_CLIENT_HELLO (hello_body ch).

(** The extensions of a hello mean what its other fields say. *)
Definition list_field {A : Type} (o : option bytes) (encodes : bytes -> list A -> Prop) (l : list A) : Prop :=
  match o with None => l = [] | Some d => encodes d l end.

Definition u16_vector (d : bytes) (l : list Z) : Prop := u16_list l /\ fits16 (u16s l) /\ d = vec16 (u16s l).

Record hello_ok (ch : ClientHello) : Prop := {
  ok_random : length (random ch) = 32%nat;
  ok_session : len (legacy_session_id ch) <= 32;
  ok_suites : u16_list (cipher_suites ch) /\ fits16 (u16s (cipher_suites ch));
  ok_extensions : extension_list_ok (raw_extensions ch) /\ fits16 (concat (map encode_extension (raw_extensions ch)));
  ok_server_name : match extension 0 (raw_extensions ch) with
                   | None => server_name ch = None
                   | Some d => exists l, server_name_list_ok l /\ d = vec16 (concat (map encode_server_name l)) /\ server_name ch = host_name l
                   end;
  ok_groups : list_field (extension 10 (raw_extensions ch)) u16_vector (supported_groups ch);
  ok_algorithms : list_field (extension 13 (raw_extensions ch)) u16_vector (signature_algorithms ch);
  ok_alpn : list_field (extension 16 (raw_extensions ch))
              (fun d l => alpn_list l /\ fits16 (concat (map vec8 l)) /\ d = vec16 (concat (map vec8 l))) (alpn_protocols ch);
  ok_versions : extension 43 (raw_extensions ch) = Some (vec8 (u16s (supported_versions ch))) /\ u16_list (supported_versions ch) /\
                fits8 (u16s (supported_versions ch)) /\ TLS_VERSION_1_3 ∈ supported_versions ch;
  ok_shares : list_field (extension 51 (raw_extensions ch))
                (fun d l => key_share_list_ok l /\ d = vec16 (concat (map encode_key_share l))) (key_shares ch);
  ok_psk : pre_shared_key_present ch = bool_decide (is_Some (extension 41 (raw_extensions ch)));
  ok_required : pre_shared_key_present ch = false -> is_Some (extension 13 (raw_extensions ch)) /\ is_Some (extension 10 (raw_extensions ch));
  ok_paired : is_Some (extension 10 (raw_extensions ch)) <-> is_Some (extension 51 (raw_extensions ch));
  ok_order : shares_in_order (supported_groups ch) (key_shares ch)
}.

Lemma extension_data_fits (ty : Z) (raw : list (Z * bytes)) (d : bytes) : Forall extension_fits raw -> extension ty raw = Some d -> fits16 d.
Proof.
  intros Hf. unfold extension. destruct (List.find _ raw) as [[t e]|] eqn:Ef; [|done]. cbn. intros [= ->]. apply find_some in Ef as [Hin _].
  apply list_elem_of_In in Hin. rewrite Forall_forall in Hf. by apply Hf in Hin as [_ ?].
Qed.

Lemma field_list {A : Type} (parse : bytes -> res TlsHandshakeError (list A)) (R : bytes -> list A -> Prop) (o : option bytes) (x : option (list A)) :
  (forall d l, o = Some d -> (parse d = Ok l <-> R d l)) ->
  (field_is parse o x <-> list_field o R (default [] x) /\ (is_Some x <-> is_Some o)).
Proof.
  intros H. destruct o as [d|], x as [l|]; cbn.
  - rewrite H by done. split; [|tauto]. intros Hl. split; [done|]. by split; eexists.
  - split; [done|]. intros [_ [_ Hi]]. by destruct (Hi (mk_is_Some (Some d) d eq_refl)).
  - split; [done|]. intros [_ [Hi _]]. by destruct (Hi (mk_is_Some (Some l) l eq_refl)).
  - split; [|done]. intros _. done.
Qed.

(** The fields of a hello that a description gives. *)
Lemma describes_fields (raw : list (Z * bytes)) (n : option bytes) v g k s a raw' psk : Forall extension_fits raw ->
  describes raw (mkParsed n v g k s a raw' psk) <->
  raw' = raw /\ psk = bool_decide (is_Some (extension 41 raw)) /\
  match extension 0 raw with
  | None => n = None
  | Some d => exists l, server_name_list_ok l /\ d = vec16 (concat (map encode_server_name l)) /\ n = host_name l
  end /\
  (list_field (extension 10 raw) u16_vector (default [] g) /\ (is_Some g <-> is_Some (extension 10 raw))) /\
  (list_field (extension 13 raw) u16_vector (default [] s) /\ (is_Some s <-> is_Some (extension 13 raw))) /\
  (list_field (extension 16 raw) (fun d l => alpn_list l /\ fits16 (concat (map vec8 l)) /\ d = vec16 (concat (map vec8 l))) (default [] a) /\
   (is_Some a <-> is_Some (extension 16 raw))) /\
  (list_field (extension 43 raw) (fun d l => u16_list l /\ fits8 (u16s l) /\ d = vec8 (u16s l)) (default [] v) /\ (is_Some v <-> is_Some (extension 43 raw))) /\
  (list_field (extension 51 raw) (fun d l => key_share_list_ok l /\ d = vec16 (concat (map encode_key_share l))) (default [] k) /\
   (is_Some k <-> is_Some (extension 51 raw))).
Proof.
  intros Hf. pose proof (fun ty d => extension_data_fits ty raw d Hf) as Hd.
  rewrite <- (field_list (fun d => parse_u16_vector_u16 d (str "supported_groups")) u16_vector (extension 10 raw) g)
    by (intros d l E; by apply parse_u16_vector_u16_Ok, (Hd 10)).
  rewrite <- (field_list (fun d => parse_u16_vector_u16 d (str "signature_algorithms")) u16_vector (extension 13 raw) s)
    by (intros d l E; by apply parse_u16_vector_u16_Ok, (Hd 13)).
  rewrite <- (field_list parse_alpn_protocols _ (extension 16 raw) a) by (intros d l E; by apply parse_alpn_Ok, (Hd 16)).
  rewrite <- (field_list (fun d => parse_u16_vector_u8 d (str "supported_versions")) _ (extension 43 raw) v)
    by (intros d l E; by apply parse_u16_vector_u8_Ok, (Hd 43)).
  rewrite <- (field_list parse_client_key_shares _ (extension 51 raw) k) by (intros d l E; by apply parse_key_shares_Ok, (Hd 51)).
  assert (Hn : match extension 0 raw with None => n = None
    | Some d => exists l, server_name_list_ok l /\ d = vec16 (concat (map encode_server_name l)) /\ n = host_name l end <-> name_is (extension 0 raw) n).
  { destruct (extension 0 raw) as [d|] eqn:E; [|done]. cbn. symmetry. by apply parse_server_name_Ok, (Hd 0). }
  rewrite Hn. split.
  - intros [? ? ? ? ? ? ? ?]. by split_and!.
  - intros (-> & -> & ? & ? & ? & ? & ? & ?). by split.
Qed.

Lemma existsb_version (l : list Z) : existsb (Z.eqb TLS_VERSION_1_3) l = bool_decide (TLS_VERSION_1_3 ∈ l).
Proof. apply existsb_Z. Qed.

Lemma require_extensions_Ok (g : option (list Z)) (k : option (list TlsKeyShareEntry)) (s : option (list Z)) (psk : bool) :
  require_extensions g k s psk = Ok tt <->
  (psk = false -> is_Some s /\ is_Some g) /\ (is_Some g <-> is_Some k) /\ shares_in_order (default [] g) (default [] k).
Proof.
  unfold require_extensions. assert (Hs : forall {A} (o : option A), bool_decide (o = None) = match o with None => true | Some _ => false end)
    by (intros A []; by case_bool_decide).
  assert (Hi : forall {A} (x : A), is_Some (Some x) <-> True) by (intros; split; [done|by eexists]).
  assert (Hj : forall {A}, is_Some (@None A) <-> False) by (intros; split; [by intros [? ?]|done]).
  destruct psk, g as [g|], k as [k|], s as [s|]; cbn [negb res_bind default]; rewrite ?Hi, ?Hj; cbn [res_bind default from_option id];
    rewrite ?validate_key_share_groups_Ok.
  all: repeat (rewrite ?bool_decide_false by done; rewrite ?bool_decide_true by done; cbn [res_bind]); rewrite ?validate_key_share_groups_Ok.
  all: intuition (try done); try (exists []; split; [by apply Forall2_nil|constructor]).
Qed.

Lemma require_extensions_returns (g : option (list Z)) (k : option (list TlsKeyShareEntry)) (s : option (list Z)) (psk : bool) :
  returns (require_extensions g k s psk).
Proof.
  unfold require_extensions. apply res_bind_returns; [by repeat case_match|]. intros _ _. destruct g, k; try done. apply validate_key_share_groups_returns.
Qed.

Lemma copy_random {E : Type} (bs : bytes) : length bs = 32%nat -> copy_from_slice (repeat x00 32) 0 32 bs = Ok bs :> res E _.
Proof. intros H. rewrite copy_from_slice_Ok by (cbn; lia). by rewrite app_nil_r. Qed.

Lemma compression_vec : vec8 [x00] = [x01; x00].
Proof. reflexivity. Qed.

(** The decision after the body has been read. *)
Definition finish_hello (random session : bytes) (suites : list Z) (parsed : ParsedClientHelloExtensions) : res TlsHandshakeError ClientHello :=
  let 'mkParsed server_name versions groups shares algorithms alpn raw psk := parsed in
  let? supported_versions := ok_or versions (MissingRequiredExtension EXTENSION_SUPPORTED_VERSIONS) in
  if negb (existsb (Z.eqb TLS_VERSION_1_3) supported_versions) then Err Tls13Required
  else
    let? _ := require_extensions groups shares algorithms psk in
    Ok (mkClientHello random session suites server_name supported_versions
         (default [] groups) (default [] shares) (default [] algorithms) (default [] alpn) raw psk).

Lemma default_only {A : Type} (o : option bytes) (R : bytes -> list A -> Prop) (l : list A) : list_field o R l -> default [] (only o (Some l)) = l.
Proof. by destruct o. Qed.

Lemma is_Some_only {A : Type} (o : option bytes) (l : A) : is_Some (only o (Some l)) <-> is_Some o.
Proof. destruct o; cbn; [by split; eexists|done]. Qed.

Lemma finish_hello_Ok (random session : bytes) (suites : list Z) (raw : list (Z * bytes)) (p : ParsedClientHelloExtensions) (ch : ClientHello) :
  length random = 32%nat -> len session <= 32 -> u16_list suites /\ fits16 (u16s suites) ->
  extension_list_ok raw /\ fits16 (concat (map encode_extension raw)) -> describes raw p -> finish_hello random session suites p = Ok ch ->
  hello_ok ch /\ TlsMessages.random ch = random /\ legacy_session_id ch = session /\ cipher_suites ch = suites /\ raw_extensions ch = raw.
Proof.
  intros H1 H2 H3 H4 Hd. destruct p as [n v g k s a raw' psk]. apply describes_fields in Hd as (-> & Hpsk & Hn & [Hg Ig] & [Hs Is] & [Ha Ia] & [Hv Iv] & [Hk Ik]);
    [|apply H4].
  cbn [finish_hello]. destruct v as [v|]; [|done]. cbn [ok_or res_bind]. rewrite existsb_version. destruct (bool_decide_reflect (TLS_VERSION_1_3 ∈ v)) as [Hin|]; [|done]. cbn [negb].
  intros H. apply res_bind_Ok in H as ([] & Hreq & H). apply Ok_inj in H as <-. apply require_extensions_Ok in Hreq as (Hr & Hp & Ho).
  cbn. split; [|done]. split; cbn; try done.
  - destruct (extension 43 raw) as [d|] eqn:Ed; [|by destruct (proj1 Iv (mk_is_Some (Some v) v eq_refl))]. destruct Hv as (? & ? & ->). done.
  - intros Hf. destruct (Hr Hf) as [? ?]. split; [by apply Is|by apply Ig].
  - by rewrite <- Ig, <- Ik.
Qed.

Lemma finish_hello_complete (ch : ClientHello) : hello_ok ch ->
  exists p, describes (raw_extensions ch) p /\ finish_hello (random ch) (legacy_session_id ch) (cipher_suites ch) p = Ok ch.
Proof.
  destruct ch as [rnd session suites n v g k s a raw psk]. intros []. cbn in *.
  exists (mkParsed n (Some v) (only (extension 10 raw) (Some g)) (only (extension 51 raw) (Some k)) (only (extension 13 raw) (Some s)) (only (extension 16 raw) (Some a)) raw psk).
  pose proof (default_only _ _ _ ok_groups0) as Eg. pose proof (default_only _ _ _ ok_algorithms0) as Es. pose proof (default_only _ _ _ ok_alpn0) as Ea.
  pose proof (default_only _ _ _ ok_shares0) as Ek. split.
  - apply describes_fields; [apply ok_extensions0|]. rewrite Eg, Es, Ea, Ek, !is_Some_only. destruct ok_versions0 as (Ev & ? & ? & ?). rewrite Ev. cbn.
    split_and!; try done; by eexists.
  - cbn [finish_hello ok_or res_bind]. rewrite existsb_version, bool_decide_true by apply ok_versions0. cbn [negb].
    rewrite (proj2 (require_extensions_Ok _ _ _ _)); [cbn [res_bind]; by rewrite Eg, Es, Ea, Ek|]. rewrite Eg, Ek, !is_Some_only. done.
Qed.

Lemma finish_hello_returns (random session : bytes) (suites : list Z) (p : ParsedClientHelloExtensions) : returns (finish_hello random session suites p).
Proof.
  destruct p as [n [v|] g k s a raw psk]; [|done]. cbn [finish_hello ok_or res_bind]. case_match; [done|]. apply res_bind_returns; [|done]. apply require_extensions_returns.
Qed.

(** The body of the message. *)
Definition parse_hello_body (body : bytes) : res TlsHandshakeError ClientHello :=
  let? (legacy_version, r) := read_u16 (new_reader body) in
  if negb (legacy_version =? TLS_LEGACY_RECORD_VERSION) then Err (InvalidLegacyVersion legacy_version)
  else
    let? (random_bytes, r) := read_exact (Z.of_nat 32) r in
    let? random := copy_from_slice (repeat x00 32) 0 32 random_bytes in
    let? (legacy_session_id, r) := read_vector_u8 (str "legacy_session_id") r in
    if 32 <? len legacy_session_id then Err (InvalidSessionIdLength (len legacy_session_id))
    else
      let? (cipher_suite_bytes, r) := read_vector_u16 (str "cipher_suites") r in
      if (len cipher_suite_bytes <? 2) || negb (len cipher_suite_bytes mod 2 =? 0) then Err (InvalidCipherSuiteVector (len cipher_suite_bytes))
      else
        let? cipher_suites := u16_chunks cipher_suite_bytes in
        let? (compression_methods, r) := read_vector_u8 (str "legacy_compression_methods") r in
        if negb (bytes_eqb compression_methods [x00]) then Err InvalidCompressionMethods
        else
          let? left_over := remaining r in
          if (left_over =? 0)%nat then Err MissingExtensions
          else
            let? (extension_block, r) := read_vector_u16 (str "extensions") r in
            let? _ := finish (str "ClientHello") r in
            let? parsed := parse_client_hello_extensions extension_block in
            finish_hello random legacy_session_id cipher_suites parsed.

Lemma parse_client_hello_unfold (message : bytes) :
  parse_client_hello message =
    if (length message <? HANDSHAKE_HEADER_SIZE)%nat then Err Truncated
    else
      let? message_type := index message 0 in
      if negb (byte_eqb message_type HANDSHAKE_TYPE_CLIENT_HELLO) then Err (UnexpectedHandshakeType message_type)
      else
        let? declared := declared_length message in
        let? actual := usize_sub (length message) HANDSHAKE_HEADER_SIZE in
        if negb (declared =? Z.of_nat actual) then Err (HandshakeLengthMismatch declared (Z.of_nat actual))
        else let? body := slice_from message HANDSHAKE_HEADER_SIZE in parse_hello_body body.
Proof. reflexivity. Qed.

Lemma parse_hello_body_sound (body : bytes) (ch : ClientHello) : len body <= usize_max -> parse_hello_body body = Ok ch -> body = hello_body ch /\ hello_ok ch.
Proof.
  intros Hl H. unfold parse_hello_body in H.
  apply (codec_inv _ _ _ _ (hello_reads_new body Hl)) in H as (v & b1 & r1 & Hv & -> & Hr1 & H). destruct (Z.eqb_spec v TLS_LEGACY_RECORD_VERSION) as [->|]; [|done]. cbn [negb] in H.
  apply (codec_inv _ _ _ _ Hr1) in H as (rnd & b2 & r2 & Hrnd & -> & Hr2 & H). rewrite copy_random in H by done. cbn [res_bind] in H.
  apply (codec_inv _ _ _ _ Hr2) in H as (sid & b3 & r3 & Hsid & -> & Hr3 & H). destruct (Z.ltb_spec 32 (len sid)) as [|Hsl]; [done|].
  apply (codec_inv _ _ _ _ Hr3) in H as (cs & b4 & r4 & Hcs & -> & Hr4 & H). destruct (u16_values_cases cs) as [(suites & Hsu & -> & Ec)|(_ & Ec)]; rewrite Ec in H; [|done].
  rewrite u16_chunks_u16s in H by apply Hsu. cbn [res_bind] in H.
  apply (codec_inv _ _ _ _ Hr4) in H as (cm & b5 & r5 & Hcm & -> & Hr5 & H). destruct (bytes_eqb cm [x00]) eqn:Ecm; [|done]. apply bytes_eqb_eq in Ecm as ->. cbn [negb] in H.
  rewrite (reads_remaining r5 b5 Hr5) in H. cbn [res_bind] in H. destruct (length b5 =? 0)%nat; [done|].
  apply (codec_inv _ _ _ _ Hr5) in H as (ext & b6 & r6 & Hext & -> & Hr6 & H). rewrite (hello_finish_reads _ r6 b6 Hr6) in H. destruct b6; [|done]. cbn [res_bind] in H.
  apply res_bind_Ok in H as (p & Hp & H). apply parse_extensions_Ok in Hp as (raw & Hraw & -> & Hd); [|done].
  apply (finish_hello_Ok rnd sid suites raw p ch) in H as (Hok & <- & <- & <- & <-); [|done..].
  split; [|done]. unfold hello_body. by rewrite app_nil_r.
Qed.

(** Reads the next value of an encoding in front of the reader. *)
Ltac codec_next Hr r Hr' :=
  match goal with
  | |- context [res_bind (read_exact (Z.of_nat ?n) ?r0) ?k] =>
      destruct (codec_step (op := read_exact (Z.of_nat n)) (enc := fun bs => bs) r0 _ _ k Hr) as (r & Hr' & ->)
  | |- context [res_bind (?op ?r0) ?k] => destruct (codec_step (op := op) r0 _ _ k Hr) as (r & Hr' & ->)
  end; [|cbv iota beta].

Lemma parse_hello_body_complete (ch : ClientHello) : hello_ok ch -> len (hello_body ch) <= usize_max -> parse_hello_body (hello_body ch) = Ok ch.
Proof.
  intros Hok Hl. unfold parse_hello_body. pose proof (hello_reads_new _ Hl) as Hr. rewrite <- (app_nil_r (hello_body ch)) in Hr at 2. unfold hello_body in Hr at 2. rewrite <- !app_assoc in Hr.
  codec_next Hr r1 Hr1; [split; done|]. rewrite Z.eqb_refl. cbn [negb].
  codec_next Hr1 r2 Hr2; [apply Hok|].
  rewrite copy_random by apply Hok. cbn [res_bind]. pose proof (ok_session ch Hok) as Hs.
  codec_next Hr2 r3 Hr3; [unfold fits8; lia|].
  rewrite (proj2 (Z.ltb_ge _ _)) by done. destruct (ok_suites ch Hok) as [Hsu Hfs].
  codec_next Hr3 r4 Hr4; [done|].
  rewrite u16s_short, u16s_even, bool_decide_false by apply Hsu. cbn [Z.eqb negb orb]. rewrite u16_chunks_u16s by apply Hsu. cbn [res_bind].
  codec_next Hr4 r5 Hr5; [done|].
  change (negb (bytes_eqb [x00] [x00])) with false. cbv iota. rewrite (reads_remaining r5 _ Hr5). cbn [res_bind].
  rewrite length_app, (proj2 (Nat.eqb_neq _ _)) by (unfold vec16; rewrite length_app, length_be_bytes; lia).
  codec_next Hr5 r6 Hr6; [apply Hok|].
  rewrite (hello_finish_reads _ r6 [] Hr6). cbn [res_bind]. destruct (finish_hello_complete ch Hok) as (p & Hp & Hf). destruct (ok_extensions ch Hok) as [Hel Hef].
  rewrite (proj2 (parse_extensions_Ok _ p Hef)); [done|]. by exists (raw_extensions ch).
Qed.

Lemma parse_hello_body_returns (body : bytes) : len body <= usize_max -> returns (parse_hello_body body).
Proof.
  intros Hl. unfold parse_hello_body. apply (codec_returns _ _ _ (hello_reads_new body Hl)). intros v b1 r1 _ Hr1 _. case_match; [done|].
  apply (codec_returns _ _ _ Hr1). intros rnd b2 r2 Hrnd Hr2 _. rewrite copy_random by done. cbn [res_bind].
  apply (codec_returns _ _ _ Hr2). intros sid b3 r3 _ Hr3 _. case_match; [done|].
  apply (codec_returns _ _ _ Hr3). intros cs b4 r4 _ Hr4 _. destruct (u16_values_cases cs) as [(suites & Hsu & -> & ->)|(_ & ->)]; [|done].
  rewrite u16_chunks_u16s by apply Hsu. cbn [res_bind].
  apply (codec_returns _ _ _ Hr4). intros cm b5 r5 _ Hr5 _. case_match; [done|]. rewrite (reads_remaining r5 b5 Hr5). cbn [res_bind]. case_match; [done|].
  apply (codec_returns _ _ _ Hr5). intros ext b6 r6 Hext Hr6 _. rewrite (hello_finish_reads _ r6 b6 Hr6). destruct b6; [|done]. cbn [res_bind].
  apply res_bind_returns; [by apply parse_extensions_returns|]. intros p _. apply finish_hello_returns.
Qed.

Lemma len_concat_fits (ch : ClientHello) : hello_ok ch -> len (hello_body ch) < 16777216.
Proof.
  intros Hok. destruct (ok_suites ch Hok) as [_ H2]. destruct (ok_extensions ch Hok) as [_ H3]. pose proof (ok_session ch Hok). pose proof (ok_random ch Hok) as H1.
  unfold hello_body. rewrite !len_app, len_vec8, !len_vec16, len_vec8. unfold fits16 in *. unfold len in *. rewrite length_be_bytes, H1. cbn [length]. lia.
Qed.

Lemma parse_client_hello_encode (ch : ClientHello) : hello_ok ch -> parse_client_hello (encode_client_hello ch) = Ok ch.
Proof.
  intros Hok. pose proof (len_concat_fits ch Hok) as Hl. rewrite parse_client_hello_unfold. unfold encode_client_hello, handshake_message.
  rewrite (proj2 (Nat.ltb_ge _ _)) by (cbn [length]; rewrite length_app, length_be_bytes; unfold HANDSHAKE_HEADER_SIZE; lia).
  destruct (header_parts (E := TlsHandshakeError) HANDSHAKE_TYPE_CLIENT_HELLO (be_bytes 3 (len (hello_body ch))) (hello_body ch) (length_be_bytes 3 _)) as (-> & -> & -> & ->).
  cbn [res_bind]. rewrite header_declares by done. unfold len at 1. rewrite Z.eqb_refl. change (byte_eqb HANDSHAKE_TYPE_CLIENT_HELLO HANDSHAKE_TYPE_CLIENT_HELLO) with true.
  cbn [negb]. apply parse_hello_body_complete; [done|]. unfold usize_max, u64_max. lia.
Qed.

Lemma parse_client_hello_sound (message : bytes) (ch : ClientHello) : parse_client_hello message = Ok ch -> message = encode_client_hello ch /\ hello_ok ch.
Proof.
  rewrite parse_client_hello_unfold. destruct (header_cases message) as [->|(ty & l & body & -> & Hl & ->)]; [done|].
  destruct (header_parts (E := TlsHandshakeError) ty l body Hl) as (-> & -> & -> & ->). cbn [res_bind]. cbv iota.
  destruct (byte_eqb ty HANDSHAKE_TYPE_CLIENT_HELLO) eqn:Et; [|done]. apply byte_eqb_eq in Et as ->. cbn [negb].
  destruct (Z.eqb_spec (be_value 0 l) (Z.of_nat (length body))) as [Hd|]; [|done]. cbn [negb]. intros H.
  apply parse_hello_body_sound in H as [-> Hok]; [|by eapply header_fits]. split; [|done]. unfold encode_client_hello, handshake_message. f_equal. f_equal. by apply header_length.
Qed.

Lemma parse_client_hello_returns (message : bytes) : returns (parse_client_hello message).
Proof.
  rewrite parse_client_hello_unfold. destruct (header_cases message) as [->|(ty & l & body & -> & Hl & ->)]; [done|].
  destruct (header_parts (E := TlsHandshakeError) ty l body Hl) as (-> & -> & -> & ->). cbn [res_bind]. cbv iota. case_match; [done|].
  destruct (Z.eqb_spec (be_value 0 l) (Z.of_nat (length body))) as [Hd|]; [|done]. cbn [negb]. apply parse_hello_body_returns. by eapply header_fits.
Qed.

(** ** What the parser accepts *)

(** C30: a hello is accepted exactly when it is the encoding of a hello that TLS 1.3 allows and BareProxy can
    use: its lengths fit, no extension, name type or key share is repeated, every known extension is
    well formed and means what the fields say, TLS 1.3 is offered, the required extensions are there, the
    key shares follow the order of the groups and pre-shared keys come last. No input makes it panic. *)
Theorem client_hello_exact (message : bytes) (ch : ClientHello) :
  (parse_client_hello message = Ok ch <-> message = encode_client_hello ch /\ hello_ok ch) /\ returns (parse_client_hello message).
Proof.
  split; [split|].
  - apply parse_client_hello_sound.
  - intros [-> Hok]. by apply parse_client_hello_encode.
  - apply parse_client_hello_returns.
Qed.
