(* ===== verification/TlsHello.v ===== *)
(** * The messages of the handshake: [src/tls.rs]

    The errors of the two ends of a handshake, the messages that they build (hellos, retry request,
    encrypted extensions, certificates, signature, finished), and the client's reading of the
    server's hello. *)
From Stdlib Require Import ZArith Lia.
From stdpp Require Import prelude sorting.
From S2P Require Import Prelude Bytes NetAddr Io Uint256 Sha256 Encoding Poly1305 ChaCha20 Primes Curve P256 Ecdsa Der TlsRecord TlsMessages.
Local Open Scope Z_scope.
Set Warnings "-clear-no-such-hyp".

Definition HANDSHAKE_TYPE_SERVER_HELLO : byte := x02.
Definition HANDSHAKE_TYPE_ENCRYPTED_EXTENSIONS : byte := x08.
Definition HANDSHAKE_TYPE_CERTIFICATE : byte := x0b.
Definition HANDSHAKE_TYPE_CERTIFICATE_VERIFY : byte := x0f.
Definition HANDSHAKE_TYPE_FINISHED : byte := x14.
Definition HANDSHAKE_TYPE_MESSAGE_HASH : byte := xfe.
Definition TLS_UINT24_MAX : Z := 0x00ffffff.
Definition TLS_SERVER_CERTIFICATE_VERIFY_CONTEXT : bytes := str "TLS 1.3, server CertificateVerify".
Definition TLS13_HELLO_RETRY_REQUEST_RANDOM : bytes :=
  [xcf; x21; xad; x74; xe5; x9a; x61; x11; xbe; x1d; x8c; x02; x1e; x65; xb8; x91; xc2; xa2; x11; x16; x7a; xbb; x8c; x5e; x07; x9e; x09; xe2; xc8;
   xa8; x33; x9c].

(** ** Errors *)
Inductive TlsServerHandshakeError : Type :=
| ClientHello_error (e : TlsHandshakeError)
| UnsupportedCipherSuite
| UnsupportedGroup
| UnsupportedSignatureAlgorithm
| NoApplicationProtocol_error
| HelloRetryRequired (group : Z)
| InvalidRetryClientHello
| InvalidRetryKeyShare
| InvalidP256KeyShare (e : P256PointError)
| ServerPublicKey (e : P256PointError)
| Random (e : io_error)
| Ecdh (e : P256EcdhError)
| Signing (e : P256EcdsaError)
| KeySchedule (e : HkdfError)
| RecordProtection (e : TlsRecordError)
| EmptyCertificateChain
| EmptyCertificate (index : nat)
| CertificateTooLong (index : nat) (length : Z)
| CertificateListTooLong (length : Z)
| AuthenticationAlreadyStarted
| ServerAuthenticationRequired
| UnexpectedClientFinishedContentType (content_type : ContentType)
| InvalidClientFinished
| ClientFinishedMismatch
| HandshakeMessageTooLong (length : Z).

Definition server_error_to_string (e : TlsServerHandshakeError) : bytes :=
  match e with
  | ClientHello_error error => str "invalid ClientHello: " ++ handshake_error_to_string error
  | UnsupportedCipherSuite => str "client does not offer TLS_CHACHA20_POLY1305_SHA256"
  | UnsupportedGroup => str "client does not support the P-256 key exchange group"
  | UnsupportedSignatureAlgorithm => str "client does not support ecdsa_secp256r1_sha256"
  | NoApplicationProtocol_error => str "client ALPN list contains no protocol supported by BareProxy"
  | HelloRetryRequired group =>
      str "client supports group 0x" ++ hex4 group ++ str " but did not provide a usable key share; HelloRetryRequest is required"
  | InvalidRetryClientHello => str "retried TLS ClientHello changed fields not permitted after HelloRetryRequest"
  | InvalidRetryKeyShare => str "retried TLS ClientHello does not contain exactly one P-256 key share"
  | InvalidP256KeyShare error => str "invalid client P-256 key share: " ++ point_error_to_string error
  | ServerPublicKey error => str "failed to encode server P-256 key share: " ++ point_error_to_string error
  | Random error => str "failed to generate TLS handshake randomness: " ++ Io.message error
  | Ecdh error => str "P-256 ECDH failed: " ++ ecdh_error_to_string error
  | Signing error => str "TLS CertificateVerify signing failed: " ++ ecdsa_error_to_string error
  | KeySchedule error => str "TLS 1.3 key schedule failed: " ++ hkdf_error_to_string error
  | RecordProtection error => str "TLS handshake record protection failed: " ++ record_error_to_string error
  | EmptyCertificateChain => str "TLS server certificate chain cannot be empty"
  | EmptyCertificate index => str "TLS certificate chain entry " ++ to_dec (Z.of_nat index) ++ str " contains no DER certificate bytes"
  | CertificateTooLong index length =>
      str "TLS certificate chain entry " ++ to_dec (Z.of_nat index) ++ str " is " ++ to_dec length ++ str " bytes and exceeds uint24"
  | CertificateListTooLong length => str "TLS Certificate certificate_list is " ++ to_dec length ++ str " bytes and exceeds uint24"
  | AuthenticationAlreadyStarted => str "TLS server authentication flight was already started"
  | ServerAuthenticationRequired => str "TLS server authentication must finish before client Finished"
  | UnexpectedClientFinishedContentType content_type =>
      str "expected encrypted client Finished handshake data, got " ++ content_type_debug content_type
  | InvalidClientFinished => str "malformed TLS client Finished message"
  | ClientFinishedMismatch => str "TLS client Finished verification failed"
  | HandshakeMessageTooLong length => str "TLS handshake message body is " ++ to_dec length ++ str " bytes and exceeds uint24"
  end.

Definition server_alert_description (e : TlsServerHandshakeError) : TlsAlertDescription :=
  match e with
  | ClientHello_error error => handshake_alert_description error
  | UnsupportedCipherSuite | UnsupportedGroup | UnsupportedSignatureAlgorithm | HelloRetryRequired _ => HandshakeFailure
  | NoApplicationProtocol_error => NoApplicationProtocol
  | InvalidRetryClientHello | InvalidRetryKeyShare => IllegalParameter
  | InvalidP256KeyShare _ => IllegalParameter
  | RecordProtection error => record_alert_description error
  | UnexpectedClientFinishedContentType _ => UnexpectedMessage
  | InvalidClientFinished => DecodeError
  | ClientFinishedMismatch => DecryptError
  | ServerPublicKey _ | Random _ | Ecdh _ | Signing _ | KeySchedule _ | EmptyCertificateChain | EmptyCertificate _ | CertificateTooLong _ _
  | CertificateListTooLong _ | AuthenticationAlreadyStarted | ServerAuthenticationRequired | HandshakeMessageTooLong _ => InternalError
  end.

Inductive TlsClientHelloBuildError : Type :=
| InvalidServerName_build
| ZeroPrivateKey
| PublicKey (e : P256PointError).

Definition build_error_to_string (e : TlsClientHelloBuildError) : bytes :=
  match e with
  | InvalidServerName_build => str "invalid TLS client SNI server name"
  | ZeroPrivateKey => str "TLS client P-256 private key cannot be zero"
  | PublicKey error => str "failed to encode TLS client P-256 key share: " ++ point_error_to_string error
  end.

Inductive TlsClientHandshakeError : Type :=
| ClientHello_build (e : TlsClientHelloBuildError)
| Random_client (e : io_error)
| ServerHello_error (e : TlsHandshakeError)
| UnexpectedServerHelloType (message_type : byte)
| ServerHelloLengthMismatch (declared actual : Z)
| InvalidServerHelloLegacyVersion (version : Z)
| InvalidServerHelloSessionIdLength (length : Z)
| HelloRetryRequestUnsupported
| LegacySessionIdMismatch
| UnsupportedCipherSuite_selected (cipher_suite : Z)
| InvalidCompressionMethod (method : byte)
| DuplicateServerHelloExtension (extension_type : Z)
| UnexpectedServerHelloExtension (extension_type : Z)
| MissingServerHelloExtension (extension_type : Z)
| InvalidSelectedVersion (version : Z)
| InvalidServerKeyShareGroup (group : Z)
| InvalidServerKeyShare (e : P256PointError)
| Ecdh_client (e : P256EcdhError)
| KeySchedule_client (e : HkdfError)
| RecordProtection_client (e : TlsRecordError)
| UnexpectedProtectedContentType_client (content_type : ContentType).

Definition client_error_to_string (e : TlsClientHandshakeError) : bytes :=
  match e with
  | ClientHello_build error => str "failed to build ClientHello: " ++ build_error_to_string error
  | Random_client error => str "failed to generate TLS client randomness: " ++ Io.message error
  | ServerHello_error error => str "invalid ServerHello: " ++ handshake_error_to_string error
  | UnexpectedServerHelloType message_type => str "expected TLS ServerHello handshake type 2, got " ++ to_dec (u8 message_type)
  | ServerHelloLengthMismatch declared actual =>
      str "TLS ServerHello declares " ++ to_dec declared ++ str " body bytes but contains " ++ to_dec actual
  | InvalidServerHelloLegacyVersion version => str "TLS 1.3 ServerHello legacy_version must be 0x0303, got 0x" ++ hex4 version
  | InvalidServerHelloSessionIdLength length =>
      str "TLS ServerHello legacy_session_id_echo is " ++ to_dec length ++ str " bytes, exceeding 32"
  | HelloRetryRequestUnsupported => str "TLS client HelloRetryRequest handling is not implemented yet"
  | LegacySessionIdMismatch => str "TLS ServerHello legacy_session_id_echo does not match ClientHello"
  | UnsupportedCipherSuite_selected cipher_suite => str "TLS server selected unsupported cipher suite 0x" ++ hex4 cipher_suite
  | InvalidCompressionMethod method => str "TLS 1.3 ServerHello legacy_compression_method must be zero, got " ++ to_dec (u8 method)
  | DuplicateServerHelloExtension extension_type => str "TLS ServerHello repeats extension type " ++ to_dec extension_type
  | UnexpectedServerHelloExtension extension_type => str "TLS ServerHello contains unexpected extension type " ++ to_dec extension_type
  | MissingServerHelloExtension extension_type => str "TLS ServerHello is missing required extension type " ++ to_dec extension_type
  | InvalidSelectedVersion version => str "TLS server selected unsupported protocol version 0x" ++ hex4 version
  | InvalidServerKeyShareGroup group => str "TLS server selected unsupported key-share group 0x" ++ hex4 group
  | InvalidServerKeyShare error => str "invalid TLS server P-256 key share: " ++ point_error_to_string error
  | Ecdh_client error => str "TLS client P-256 ECDH failed: " ++ ecdh_error_to_string error
  | KeySchedule_client error => str "TLS client handshake key schedule failed: " ++ hkdf_error_to_string error
  | RecordProtection_client error => str "TLS client handshake record protection failed: " ++ record_error_to_string error
  | UnexpectedProtectedContentType_client content_type =>
      str "expected protected TLS handshake content, got " ++ content_type_debug content_type
  end.

(** ** Building messages *)
Definition append_tls_extension {E : Type} (output : bytes) (extension_type : Z) (data : bytes) : res E bytes :=
  let? data_length := try_from u16_max (len data) in
  Ok (output ++ be_bytes 2 extension_type ++ be_bytes 2 data_length ++ data).

(** The three low bytes of a length. *)
Definition uint24 (value : Z) : bytes :=
  [of_u8 (Z.land (Z.shiftr value 16) 0xff); of_u8 (Z.land (Z.shiftr value 8) 0xff); of_u8 (Z.land value 0xff)].

Definition append_uint24 {E : Type} (output : bytes) (value : Z) : res E bytes :=
  if value <=? TLS_UINT24_MAX then Ok (output ++ uint24 value) else Panic.

Definition encode_handshake_message (message_type : byte) (body : bytes) : res TlsServerHandshakeError bytes :=
  if TLS_UINT24_MAX <? len body then Err (HandshakeMessageTooLong (len body))
  else Ok ([message_type] ++ uint24 (len body) ++ body).

Definition build_tls13_server_hello (client_hello : ClientHello) (random server_key_share : bytes) : res TlsServerHandshakeError bytes :=
  let? extensions := append_tls_extension [] EXTENSION_SUPPORTED_VERSIONS (be_bytes 2 TLS_VERSION_1_3) in
  let key_share_extension := be_bytes 2 TLS_GROUP_SECP256R1 ++ be_bytes 2 (len server_key_share mod 65536) ++ server_key_share in
  let? extensions := append_tls_extension extensions EXTENSION_KEY_SHARE key_share_extension in
  let? session_length := try_from u8_max (len (legacy_session_id client_hello)) in
  let? extensions_length := try_from u16_max (len extensions) in
  encode_handshake_message HANDSHAKE_TYPE_SERVER_HELLO
    (be_bytes 2 TLS_LEGACY_RECORD_VERSION ++ random ++ [of_u8 session_length] ++ legacy_session_id client_hello ++
     be_bytes 2 TLS_CHACHA20_POLY1305_SHA256 ++ [x00] ++ be_bytes 2 extensions_length ++ extensions).

Definition build_tls13_hello_retry_request (client_hello : ClientHello) : res TlsServerHandshakeError bytes :=
  let? extensions := append_tls_extension [] EXTENSION_SUPPORTED_VERSIONS (be_bytes 2 TLS_VERSION_1_3) in
  let? extensions := append_tls_extension extensions EXTENSION_KEY_SHARE (be_bytes 2 TLS_GROUP_SECP256R1) in
  let? session_length := try_from u8_max (len (legacy_session_id client_hello)) in
  let? extensions_length := try_from u16_max (len extensions) in
  encode_handshake_message HANDSHAKE_TYPE_SERVER_HELLO
    (be_bytes 2 TLS_LEGACY_RECORD_VERSION ++ TLS13_HELLO_RETRY_REQUEST_RANDOM ++ [of_u8 session_length] ++ legacy_session_id client_hello ++
     be_bytes 2 TLS_CHACHA20_POLY1305_SHA256 ++ [x00] ++ be_bytes 2 extensions_length ++ extensions).

(** The message, and the protocol agreed on. *)
Definition build_tls13_encrypted_extensions (client_hello : ClientHello) : res TlsServerHandshakeError (bytes * option bytes) :=
  let? (extensions, negotiated_alpn) :=
    if offers_http11 client_hello then
      let? name_length := try_from u8_max (len ALPN_HTTP_1_1) in
      let protocol_name_list := [of_u8 name_length] ++ ALPN_HTTP_1_1 in
      let? list_length := try_from u16_max (len protocol_name_list) in
      let alpn_data := be_bytes 2 list_length ++ protocol_name_list in
      let? extensions := append_tls_extension [] EXTENSION_APPLICATION_LAYER_PROTOCOL_NEGOTIATION alpn_data in
      Ok (extensions, Some ALPN_HTTP_1_1)
    else if bool_decide (alpn_protocols client_hello = []) then Ok ([], None)
    else Err NoApplicationProtocol_error in
  let? extensions_length := try_from u16_max (len extensions) in
  let? message := encode_handshake_message HANDSHAKE_TYPE_ENCRYPTED_EXTENSIONS (be_bytes 2 extensions_length ++ extensions) in
  Ok (message, negotiated_alpn).

Definition certificate_entry (certificate_list : bytes) (entry : nat * bytes) : res TlsServerHandshakeError bytes :=
  let '(index, certificate) := entry in
  if bool_decide (certificate = []) then Err (EmptyCertificate index)
  else if TLS_UINT24_MAX <? len certificate then Err (CertificateTooLong index (len certificate))
  else
    let? certificate_list := append_uint24 certificate_list (len certificate) in
    let certificate_list := certificate_list ++ certificate ++ be_bytes 2 0 in
    if TLS_UINT24_MAX <? len certificate_list then Err (CertificateListTooLong (len certificate_list))
    else Ok certificate_list.

Definition build_tls13_certificate (certificate_chain : list bytes) : res TlsServerHandshakeError bytes :=
  if bool_decide (certificate_chain = []) then Err EmptyCertificateChain
  else
    let? certificate_list := res_foldM certificate_entry [] (enumerate certificate_chain) in
    let? body := append_uint24 [x00] (len certificate_list) in
    encode_handshake_message HANDSHAKE_TYPE_CERTIFICATE (body ++ certificate_list).

Definition tls13_server_certificate_verify_content (transcript_hash : bytes) : bytes :=
  repeat x20 64 ++ TLS_SERVER_CERTIFICATE_VERIFY_CONTEXT ++ [x00] ++ transcript_hash.

Definition encode_tls_p256_signature_der {E : Type} (signature : P256Signature) : res E bytes :=
  let '(r, s) := components signature in
  let? r := der_integer_unsigned (to_be_bytes r) in
  let? s := der_integer_unsigned (to_be_bytes s) in
  der_sequence [r; s].

Definition build_tls13_server_certificate_verify (fuel : nat) (signing_key : Scalar) (transcript_hash : bytes) : res TlsServerHandshakeError bytes :=
  let signed_content := tls13_server_certificate_verify_content transcript_hash in
  let? signature := map_err Signing (p256_ecdsa_sign_sha256 fuel signing_key signed_content) in
  let? signature := encode_tls_p256_signature_der signature in
  let? signature_length := try_from u16_max (len signature) in
  encode_handshake_message HANDSHAKE_TYPE_CERTIFICATE_VERIFY
    (be_bytes 2 TLS_SIGNATURE_ECDSA_SECP256R1_SHA256 ++ be_bytes 2 signature_length ++ signature).

(** [.try_into().expect()] of a vector into an array of [n] bytes. *)
Definition to_array {E : Type} (n : nat) (bs : bytes) : res E bytes := if (length bs =? n)%nat then Ok bs else Panic.

Definition tls13_expand_label_array (n : nat) (secret label context : bytes) : res HkdfError bytes :=
  let? expanded := tls13_hkdf_expand_label_sha256 secret label context (Z.of_nat n) in
  to_array n expanded.

Definition tls13_finished_verify_data (handshake_traffic_secret transcript_hash : bytes) : res HkdfError bytes :=
  let? finished_key := tls13_expand_label_array 32 handshake_traffic_secret (str "finished") [] in
  hmac_sha256 finished_key transcript_hash.

Definition build_tls13_finished (handshake_traffic_secret transcript_hash : bytes) : res TlsServerHandshakeError bytes :=
  let? verify_data := map_err KeySchedule (tls13_finished_verify_data handshake_traffic_secret transcript_hash) in
  encode_handshake_message HANDSHAKE_TYPE_FINISHED verify_data.

(** ** The client's hello *)
Definition build_tls13_client_hello (server_name random : bytes) (private_key : Scalar) : res TlsClientHelloBuildError bytes :=
  if negb (is_valid_server_name server_name) then Err InvalidServerName_build
  else if bool_decide (private_key = ZERO) then Err ZeroPrivateKey
  else
    let? point := p256_generator_multiply private_key in
    let? public_key := map_err PublicKey (to_sec1_uncompressed point) in
    let? server_name_length := try_from u16_max (len server_name) in
    let? server_name_list_length := try_from u16_max (len server_name + 3) in
    let server_name_extension := be_bytes 2 server_name_list_length ++ [x00] ++ be_bytes 2 server_name_length ++ server_name in
    let? extensions := append_tls_extension [] EXTENSION_SERVER_NAME server_name_extension in
    let? extensions := append_tls_extension extensions EXTENSION_SUPPORTED_GROUPS [x00; x02; x00; x17] in
    let? extensions := append_tls_extension extensions EXTENSION_SIGNATURE_ALGORITHMS [x00; x02; x04; x03] in
    let alpn_extension := be_bytes 2 9 ++ [x08] ++ ALPN_HTTP_1_1 in
    let? extensions := append_tls_extension extensions EXTENSION_APPLICATION_LAYER_PROTOCOL_NEGOTIATION alpn_extension in
    let? extensions := append_tls_extension extensions EXTENSION_SUPPORTED_VERSIONS [x02; x03; x04] in
    let? key_share_entry_length := try_from u16_max (2 + 2 + len public_key) in
    let? public_key_length := try_from u16_max (len public_key) in
    let key_share_extension := be_bytes 2 key_share_entry_length ++ be_bytes 2 TLS_GROUP_SECP256R1 ++ be_bytes 2 public_key_length ++ public_key in
    let? extensions := append_tls_extension extensions EXTENSION_KEY_SHARE key_share_extension in
    let? extensions_length := try_from u16_max (len extensions) in
    let body :=
      be_bytes 2 TLS_LEGACY_RECORD_VERSION ++ random ++ [x00] ++ be_bytes 2 2 ++ be_bytes 2 TLS_CHACHA20_POLY1305_SHA256 ++ [x01; x00] ++
      be_bytes 2 extensions_length ++ extensions in
    if TLS_UINT24_MAX <? len body then Panic else Ok ([HANDSHAKE_TYPE_CLIENT_HELLO] ++ uint24 (len body) ++ body).

(** ** The server's hello, as the client reads it *)
Record ParsedTls13ServerHello : Type := mkServerHello { legacy_session_id_echo : bytes; server_key_share : bytes }.

Definition server_version (data : bytes) : res TlsHandshakeError Z :=
  let? (version, r) := read_u16 (new_reader data) in
  let? _ := finish (str "ServerHello supported_versions") r in
  Ok version.

Definition server_share (data : bytes) : res TlsClientHandshakeError bytes :=
  let? (group, key_exchange) :=
    map_err ServerHello_error (
      let? (group, r) := read_u16 (new_reader data) in
      let? (key_exchange, r) := read_vector_u16 (str "ServerHello key_exchange") r in
      let? _ := finish (str "ServerHello key_share") r in
      Ok (group, key_exchange)) in
  if negb (group =? TLS_GROUP_SECP256R1) then Err (InvalidServerKeyShareGroup group)
  else if bool_decide (key_exchange = []) then Err (ServerHello_error (MalformedVector (str "ServerHello key_exchange")))
  else Ok key_exchange.

(** The extension types seen, the version and the key share. *)
Definition server_extension_turn (s : list Z * option Z * option bytes) (r : HandshakeReader) :
  res TlsClientHandshakeError (list Z * option Z * option bytes * HandshakeReader) :=
  let '(seen_extensions, selected_version, server_key_share) := s in
  let? (extension_type, r) := map_err ServerHello_error (read_u16 r) in
  let? (extension_data, r) := map_err ServerHello_error (read_vector_u16 (str "ServerHello extension_data") r) in
  if existsb (Z.eqb extension_type) seen_extensions then Err (DuplicateServerHelloExtension extension_type)
  else
    let seen_extensions := seen_extensions ++ [extension_type] in
    if extension_type =? EXTENSION_SUPPORTED_VERSIONS then
      let? version := map_err ServerHello_error (server_version extension_data) in
      Ok (seen_extensions, Some version, server_key_share, r)
    else if extension_type =? EXTENSION_KEY_SHARE then
      let? key_exchange := server_share extension_data in
      Ok (seen_extensions, selected_version, Some key_exchange, r)
    else Err (UnexpectedServerHelloExtension extension_type).

Definition parse_server_hello_body (body : bytes) : res TlsClientHandshakeError ParsedTls13ServerHello :=
  let? (legacy_version, r) := map_err ServerHello_error (read_u16 (new_reader body)) in
  if negb (legacy_version =? TLS_LEGACY_RECORD_VERSION) then Err (InvalidServerHelloLegacyVersion legacy_version)
  else
    let? (random, r) := map_err ServerHello_error (read_exact 32 r) in
    if bytes_eqb random TLS13_HELLO_RETRY_REQUEST_RANDOM then Err HelloRetryRequestUnsupported
    else
      let? (legacy_session_id_echo, r) := map_err ServerHello_error (read_vector_u8 (str "legacy_session_id_echo") r) in
      if 32 <? len legacy_session_id_echo then Err (InvalidServerHelloSessionIdLength (len legacy_session_id_echo))
      else
        let? (cipher_suite, r) := map_err ServerHello_error (read_u16 r) in
        if negb (cipher_suite =? TLS_CHACHA20_POLY1305_SHA256) then Err (UnsupportedCipherSuite_selected cipher_suite)
        else
          let? (compression_method, r) := map_err ServerHello_error (read_u8 r) in
          if negb (u8 compression_method =? 0) then Err (InvalidCompressionMethod compression_method)
          else
            let? (extensions, r) := map_err ServerHello_error (read_vector_u16 (str "ServerHello extensions") r) in
            let? _ := map_err ServerHello_error (finish (str "ServerHello") r) in
            let? s := read_all server_extension_turn ([], None, None) extensions in
            let '(_, selected_version, server_key_share) := s in
            let? selected_version := ok_or selected_version (MissingServerHelloExtension EXTENSION_SUPPORTED_VERSIONS) in
            if negb (selected_version =? TLS_VERSION_1_3) then Err (InvalidSelectedVersion selected_version)
            else
              let? server_key_share := ok_or server_key_share (MissingServerHelloExtension EXTENSION_KEY_SHARE) in
              Ok (mkServerHello legacy_session_id_echo server_key_share).

Definition parse_tls13_server_hello (message : bytes) : res TlsClientHandshakeError ParsedTls13ServerHello :=
  if (length message <? HANDSHAKE_HEADER_SIZE)%nat then Err (ServerHello_error Truncated)
  else
    let? message_type := index message 0 in
    if negb (byte_eqb message_type HANDSHAKE_TYPE_SERVER_HELLO) then Err (UnexpectedServerHelloType message_type)
    else
      let? declared := declared_length message in
      let? actual := usize_sub (length message) HANDSHAKE_HEADER_SIZE in
      if negb (declared =? Z.of_nat actual) then Err (ServerHelloLengthMismatch declared (Z.of_nat actual))
      else
        let? body := slice_from message HANDSHAKE_HEADER_SIZE in
        parse_server_hello_body body.

(** ** What the builders write *)
Lemma uint24_be (v : Z) : uint24 v = be_bytes 3 v.
Proof.
  unfold uint24. cbn [be_bytes app]. change 0xff with (2 ^ 8 - 1). rewrite !land_mask, !Z.shiftr_div_pow2 by lia. change (2 ^ 16) with (256 * 256).
  change (2 ^ 8) with 256. by rewrite Z.div_div by lia.
Qed.

Lemma append_tls_extension_spec {E : Type} (output : bytes) (ty : Z) (data : bytes) : fits16 data ->
  append_tls_extension output ty data = Ok (output ++ encode_extension (ty, data)) :> res E _.
Proof. intros H. unfold append_tls_extension, try_from. by rewrite (proj2 (Z.leb_le _ _)) by exact H. Qed.

Lemma encode_handshake_message_spec (ty : byte) (body : bytes) :
  encode_handshake_message ty body = if decide (len body <= TLS_UINT24_MAX) then Ok (handshake_message ty body) else Err (HandshakeMessageTooLong (len body)).
Proof.
  unfold encode_handshake_message. case_decide; [rewrite (proj2 (Z.ltb_ge _ _)) by done|by rewrite (proj2 (Z.ltb_lt _ _)) by lia].
  rewrite uint24_be. by unfold handshake_message.
Qed.

Lemma encode_extension_eq (ty : Z) (d : bytes) : encode_extension (ty, d) = be_bytes 2 ty ++ be_bytes 2 (len d) ++ d.
Proof. done. Qed.

Lemma len_encode_extension (ty : Z) (d : bytes) : len (encode_extension (ty, d)) = 4 + len d.
Proof. unfold encode_extension. cbn [fst snd]. rewrite len_app, len_vec16. unfold len at 1. rewrite length_be_bytes. lia. Qed.

(** The hello of a server: which random bytes, session and extensions it carries. *)
Definition encode_server_hello (random session : bytes) (extensions : list (Z * bytes)) : bytes :=
  handshake_message HANDSHAKE_TYPE_SERVER_HELLO
    (be_bytes 2 TLS_LEGACY_RECORD_VERSION ++ random ++ vec8 session ++ be_bytes 2 TLS_CHACHA20_POLY1305_SHA256 ++ [x00] ++
     vec16 (concat (map encode_extension extensions))).

Definition version_extension : Z * bytes := (EXTENSION_SUPPORTED_VERSIONS, be_bytes 2 TLS_VERSION_1_3).
Definition share_extension (key_share : bytes) : Z * bytes := (EXTENSION_KEY_SHARE, be_bytes 2 TLS_GROUP_SECP256R1 ++ vec16 key_share).
Definition retry_extension : Z * bytes := (EXTENSION_KEY_SHARE, be_bytes 2 TLS_GROUP_SECP256R1).

Lemma len_be_bytes (n : nat) (v : Z) : len (be_bytes n v) = Z.of_nat n.
Proof. unfold len. by rewrite length_be_bytes. Qed.

(** A hello and a retry request differ in their random bytes and their key share. *)
Lemma server_hello_tail (ch : ClientHello) (random key_share : bytes) : length random = 32%nat -> len (legacy_session_id ch) <= 255 -> fits16 key_share ->
  len key_share <= 1000 ->
  (let? extensions := append_tls_extension (encode_extension version_extension) EXTENSION_KEY_SHARE key_share in
   let? session_length := try_from u8_max (len (legacy_session_id ch)) in
   let? extensions_length := try_from u16_max (len extensions) in
   encode_handshake_message HANDSHAKE_TYPE_SERVER_HELLO
     (be_bytes 2 TLS_LEGACY_RECORD_VERSION ++ random ++ [of_u8 session_length] ++ legacy_session_id ch ++
      be_bytes 2 TLS_CHACHA20_POLY1305_SHA256 ++ [x00] ++ be_bytes 2 extensions_length ++ extensions)) =
  Ok (encode_server_hello random (legacy_session_id ch) [version_extension; (EXTENSION_KEY_SHARE, key_share)]).
Proof.
  intros Hr Hs Hk Hl. rewrite append_tls_extension_spec by done. cbn [res_bind]. unfold try_from. rewrite (proj2 (Z.leb_le _ _)) by exact Hs. cbn [res_bind].
  assert (He : len (encode_extension version_extension ++ encode_extension (EXTENSION_KEY_SHARE, key_share)) = 10 + len key_share)
    by (unfold version_extension; rewrite len_app, !len_encode_extension, len_be_bytes; lia).
  rewrite (proj2 (Z.leb_le _ _)) by (rewrite He; unfold u16_max; lia). cbn [res_bind]. rewrite encode_handshake_message_spec, decide_True.
  - unfold encode_server_hello, vec8, vec16. cbn [map concat]. by rewrite app_nil_r.
  - set (extensions := encode_extension version_extension ++ encode_extension (EXTENSION_KEY_SHARE, key_share)) in *.
    rewrite !len_app, !len_be_bytes, He. unfold len at 1. rewrite Hr. unfold TLS_UINT24_MAX. change (len [of_u8 _]) with 1. change (len [x00]) with 1. lia.
Qed.

Lemma build_server_hello_spec (ch : ClientHello) (random key_share : bytes) : length random = 32%nat -> len (legacy_session_id ch) <= 255 -> length key_share = 65%nat ->
  build_tls13_server_hello ch random key_share = Ok (encode_server_hello random (legacy_session_id ch) [version_extension; share_extension key_share]).
Proof.
  intros Hr Hs Hk. unfold build_tls13_server_hello. rewrite append_tls_extension_spec by (unfold fits16; rewrite len_be_bytes; lia). cbn [res_bind app].
  rewrite Z.mod_small by (unfold len; lia). assert (Hv : len (be_bytes 2 TLS_GROUP_SECP256R1 ++ vec16 key_share) = 69)
    by (rewrite len_app, len_vec16, len_be_bytes; unfold len; lia).
  apply (server_hello_tail ch random (be_bytes 2 TLS_GROUP_SECP256R1 ++ vec16 key_share)); [done|done|unfold fits16; lia|lia].
Qed.

Lemma build_retry_request_spec (ch : ClientHello) : len (legacy_session_id ch) <= 255 ->
  build_tls13_hello_retry_request ch = Ok (encode_server_hello TLS13_HELLO_RETRY_REQUEST_RANDOM (legacy_session_id ch) [version_extension; retry_extension]).
Proof.
  intros Hs. unfold build_tls13_hello_retry_request. rewrite append_tls_extension_spec by (unfold fits16; rewrite len_be_bytes; lia). cbn [res_bind app].
  apply (server_hello_tail ch TLS13_HELLO_RETRY_REQUEST_RANDOM (be_bytes 2 TLS_GROUP_SECP256R1)); [done|done|unfold fits16; rewrite len_be_bytes; lia|rewrite len_be_bytes; lia].
Qed.

(** ** Reading the server's hello *)
Lemma server_version_Ok (d : bytes) (v : Z) : fits16 d -> (server_version d = Ok v <-> u16 v /\ d = be_bytes 2 v).
Proof.
  intros Hd%fits16_usize. unfold server_version. rewrite (whole_Ok (op := read_u16) _ d (fun v => Ok v)) by done. split.
  - intros (a & Ha & -> & H). by apply Ok_inj in H as ->.
  - intros [Hv ->]. by exists v.
Qed.

Lemma be_bytes_2_inj (v w : Z) : u16 v -> u16 w -> be_bytes 2 v = be_bytes 2 w -> v = w.
Proof.
  unfold u16. intros Hv Hw H. apply (f_equal (be_value 0)) in H. rewrite !be_value_be_bytes in H. change (256 ^ Z.of_nat 2) with 65536 in H.
  by rewrite !Z.mod_small in H by lia.
Qed.

Lemma share_inj (v w : Z) (a b : bytes) : u16 v -> u16 w -> be_bytes 2 v ++ vec16 a = be_bytes 2 w ++ vec16 b -> v = w /\ a = b.
Proof.
  intros Hv Hw H. apply app_inj_1 in H as [H1 H2]; [|by rewrite !length_be_bytes]. unfold vec16 in H2. apply app_inj_1 in H2 as [_ ->]; [|by rewrite !length_be_bytes].
  by apply be_bytes_2_inj in H1.
Qed.

Lemma server_share_Ok (d ks : bytes) : fits16 d -> (server_share d = Ok ks <-> ks <> [] /\ fits16 ks /\ d = be_bytes 2 TLS_GROUP_SECP256R1 ++ vec16 ks).
Proof.
  intros Hd%fits16_usize. unfold server_share.
  assert (He : (let? (group, r) := read_u16 (new_reader d) in let? (key_exchange, r) := read_vector_u16 (str "ServerHello key_exchange") r in
      let? _ := finish (str "ServerHello key_share") r in Ok (group, key_exchange)) =
    (let? (a, r) := both read_u16 (read_vector_u16 (str "ServerHello key_exchange")) (new_reader d) in let? _ := finish (str "ServerHello key_share") r in Ok a)).
  { unfold both. destruct (read_u16 (new_reader d)) as [[g r]| | |]; [|done..]. cbn [res_bind]. by destruct (read_vector_u16 _ r) as [[k r']| | |]. }
  rewrite He. clear He.
  pose proof (whole_Ok (op := both read_u16 (read_vector_u16 (str "ServerHello key_exchange"))) (str "ServerHello key_share") d (fun p => Ok p)) as W.
  destruct (let? (a, r) := both read_u16 (read_vector_u16 (str "ServerHello key_exchange")) (new_reader d) in let? _ := finish (str "ServerHello key_share") r in Ok a)
    as [[g k]|e| |] eqn:Eq; cbn [map_err res_bind].
  - destruct (proj1 (W (g, k) Hd) eq_refl) as ([a b] & [Ha Hb] & Hdd & Hp). apply Ok_inj in Hp as [= -> ->]. change (d = be_bytes 2 g ++ vec16 k) in Hdd. cbn [fst snd] in Ha, Hb.
    destruct (Z.eqb_spec g TLS_GROUP_SECP256R1) as [->|Hg]; cbn [negb].
    + case_bool_decide as Hne.
      * split; [done|]. intros (Hne' & Hf & H). rewrite H in Hdd. apply share_inj in Hdd as [_ <-]; done.
      * split; [intros H; by apply Ok_inj in H as <-|]. intros (_ & Hf & H). rewrite H in Hdd. by apply share_inj in Hdd as [_ ->].
    + split; [done|]. intros (_ & _ & H). rewrite H in Hdd. by apply share_inj in Hdd as [<- _].
  - split; [done|]. intros (_ & Hf & H). assert (X : Err e = Ok (TLS_GROUP_SECP256R1, ks) :> res TlsHandshakeError _); [|done]. apply (W _ Hd). by exists (TLS_GROUP_SECP256R1, ks).
  - split; [done|]. intros (_ & Hf & H). assert (X : Panic = Ok (TLS_GROUP_SECP256R1, ks) :> res TlsHandshakeError _); [|done]. apply (W _ Hd). by exists (TLS_GROUP_SECP256R1, ks).
  - split; [done|]. intros (_ & Hf & H). assert (X : Fuel = Ok (TLS_GROUP_SECP256R1, ks) :> res TlsHandshakeError _); [|done]. apply (W _ Hd). by exists (TLS_GROUP_SECP256R1, ks).
Qed.

Definition server_extension_next (s : list Z * option Z * option bytes) (e : Z * bytes) : res TlsClientHandshakeError (list Z * option Z * option bytes) :=
  let '(seen, version, share) := s in
  if existsb (Z.eqb e.1) seen then Err (DuplicateServerHelloExtension e.1)
  else if e.1 =? EXTENSION_SUPPORTED_VERSIONS then
    let? v := map_err ServerHello_error (server_version e.2) in Ok (seen ++ [e.1], Some v, share)
  else if e.1 =? EXTENSION_KEY_SHARE then let? k := server_share e.2 in Ok (seen ++ [e.1], version, Some k)
  else Err (UnexpectedServerHelloExtension e.1).

Definition read_server_extension (r : HandshakeReader) : res TlsClientHandshakeError (Z * bytes * HandshakeReader) :=
  map_err ServerHello_error (both read_u16 (read_vector_u16 (str "ServerHello extension_data")) r).

#[global] Instance read_server_extension_codec : Codec read_server_extension encode_extension extension_fits.
Proof. exact (map_err_codec ServerHello_error _ _ _ (extension_codec _)). Qed.

Lemma server_extension_turn_next s (r : HandshakeReader) :
  server_extension_turn s r = let? (a, r) := read_server_extension r in let? t := server_extension_next s a in Ok (t, r).
Proof.
  destruct s as [[seen version] share]. unfold server_extension_turn, read_server_extension, both, server_extension_next.
  destruct (read_u16 r) as [[ty r1]| | |]; [|done..]. cbn [map_err res_bind]. destruct (read_vector_u16 _ r1) as [[d r2]| | |]; [|done..]. cbn [map_err res_bind fst snd].
  destruct (existsb _ seen); [done|]. destruct (ty =? EXTENSION_SUPPORTED_VERSIONS); [by destruct (server_version d)|].
  destruct (ty =? EXTENSION_KEY_SHARE); [|done]. by destruct (server_share d).
Qed.

Lemma server_extension_next_returns s (e : Z * bytes) : fits16 e.2 -> returns (server_extension_next s e).
Proof.
  intros Hf. pose proof (fits16_usize _ Hf) as Hu. destruct s as [[seen version] share]. unfold server_extension_next. destruct (existsb _ _); [done|].
  destruct (_ =? _); [|destruct (_ =? _); [|done]]; (apply res_bind_returns; [|done]).
  - unfold server_version. pose proof (whole_returns (op := read_u16) (str "ServerHello supported_versions") e.2 (fun v => Ok v) Hu ltac:(done)) as H.
    by destruct (res_bind _ _).
  - unfold server_share. apply res_bind_returns; [|by intros [g k] _; repeat case_match].
    assert (H : returns (let? (group, r) := read_u16 (new_reader e.2) in let? (key_exchange, r) := read_vector_u16 (str "ServerHello key_exchange") r in
      let? _ := finish (str "ServerHello key_share") r in Ok (group, key_exchange))); [|by destruct (res_bind _ _)].
    apply (codec_returns _ _ _ (hello_reads_new e.2 Hu)). intros g b1 r1 _ Hr1 _. apply (codec_returns _ _ _ Hr1). intros k b2 r2 _ Hr2 _.
    rewrite (hello_finish_reads _ r2 b2 Hr2). by destruct b2.
Qed.

(** The two extensions, in either order. *)
Definition server_extensions (key_share : bytes) (l : list (Z * bytes)) : Prop :=
  l = [version_extension; share_extension key_share] \/ l = [share_extension key_share; version_extension].

Lemma server_version_next seen version share (d : bytes) s : existsb (Z.eqb EXTENSION_SUPPORTED_VERSIONS) seen = false -> fits16 d ->
  server_extension_next (seen, version, share) (EXTENSION_SUPPORTED_VERSIONS, d) = Ok s <->
  exists v, u16 v /\ d = be_bytes 2 v /\ s = (seen ++ [EXTENSION_SUPPORTED_VERSIONS], Some v, share).
Proof.
  intros Hs Hd. unfold server_extension_next. cbn [fst snd]. rewrite Hs. cbn [Z.eqb Pos.eqb EXTENSION_SUPPORTED_VERSIONS]. rewrite res_bind_Ok. split.
  - intros (v & Hv & H). apply Ok_inj in H as <-. exists v. destruct (server_version d) eqn:E; try done. apply Ok_inj in Hv as <-. by apply server_version_Ok in E as [? ?].
  - intros (v & Hv & Hd' & ->). exists v. by rewrite (proj2 (server_version_Ok d v Hd)).
Qed.

Lemma server_share_next seen version share (d : bytes) s : existsb (Z.eqb EXTENSION_KEY_SHARE) seen = false -> fits16 d ->
  server_extension_next (seen, version, share) (EXTENSION_KEY_SHARE, d) = Ok s <->
  exists ks, ks <> [] /\ fits16 ks /\ d = be_bytes 2 TLS_GROUP_SECP256R1 ++ vec16 ks /\ s = (seen ++ [EXTENSION_KEY_SHARE], version, Some ks).
Proof.
  intros Hs Hd. unfold server_extension_next. cbn [fst snd]. rewrite Hs. cbn [Z.eqb Pos.eqb EXTENSION_SUPPORTED_VERSIONS EXTENSION_KEY_SHARE]. rewrite res_bind_Ok. split.
  - intros (ks & Hv & H). apply Ok_inj in H as <-. exists ks. by apply server_share_Ok in Hv as (? & ? & ?).
  - intros (ks & Hne & Hf & Hd' & ->). exists ks. by rewrite (proj2 (server_share_Ok d ks Hd)).
Qed.

Lemma server_extension_types seen version share (e : Z * bytes) s : server_extension_next (seen, version, share) e = Ok s ->
  existsb (Z.eqb e.1) seen = false /\ (e.1 = EXTENSION_SUPPORTED_VERSIONS \/ e.1 = EXTENSION_KEY_SHARE).
Proof.
  unfold server_extension_next. destruct (existsb _ seen); [done|]. destruct (Z.eqb_spec e.1 EXTENSION_SUPPORTED_VERSIONS); [by auto|].
  destruct (Z.eqb_spec e.1 EXTENSION_KEY_SHARE); [by auto|done].
Qed.

Lemma server_items (l : list (Z * bytes)) seen (ks : bytes) : Forall extension_fits l ->
  (items (fun s a _ => server_extension_next s a) ([], None, None) l = Ok (seen, Some TLS_VERSION_1_3, Some ks) <->
   ks <> [] /\ fits16 ks /\ server_extensions ks l /\ seen = l.*1).
Proof.
  intros Hf. split.
  - intros H. destruct l as [|[t1 d1] l]; [done|]. apply Forall_cons in Hf as [[_ F1] Hf]. cbn [items] in H. apply res_bind_Ok in H as (s1 & H1 & H).
    destruct (server_extension_types _ _ _ _ _ H1) as [_ [Ht|Ht]]; cbn [fst] in Ht; subst t1.
    + apply server_version_next in H1 as (v & Hv & -> & ->); [|done..]. destruct l as [|[t2 d2] l]; [done|]. apply Forall_cons in Hf as [[_ F2] Hf].
      cbn [items] in H. apply res_bind_Ok in H as (s2 & H2 & H). destruct (server_extension_types _ _ _ _ _ H2) as [Hx [Ht|Ht]]; cbn [fst] in *; subst t2; [done|].
      apply server_share_next in H2 as (k & Hk & Hkf & -> & ->); [|done..]. destruct l as [|[t3 d3] l].
      * cbn [items] in H. apply Ok_inj in H as [= <- -> <-]. split_and!; [done..|by left|done].
      * cbn [items] in H. apply res_bind_Ok in H as (s3 & H3 & H). by destruct (server_extension_types _ _ _ _ _ H3) as [Hy [Ht|Ht]]; cbn [fst] in *; subst t3.
    + apply server_share_next in H1 as (k & Hk & Hkf & -> & ->); [|done..]. destruct l as [|[t2 d2] l]; [done|]. apply Forall_cons in Hf as [[_ F2] Hf].
      cbn [items] in H. apply res_bind_Ok in H as (s2 & H2 & H). destruct (server_extension_types _ _ _ _ _ H2) as [Hx [Ht|Ht]]; cbn [fst] in *; subst t2; [|done].
      apply server_version_next in H2 as (v & Hv & -> & ->); [|done..]. destruct l as [|[t3 d3] l].
      * cbn [items] in H. apply Ok_inj in H as [= <- -> <-]. split_and!; [done..|by right|done].
      * cbn [items] in H. apply res_bind_Ok in H as (s3 & H3 & H). by destruct (server_extension_types _ _ _ _ _ H3) as [Hy [Ht|Ht]]; cbn [fst] in *; subst t3.
  - intros (Hne & Hk & [->| ->] & ->); apply Forall_cons in Hf as [[_ F1] Hf]; apply Forall_cons in Hf as [[_ F2] _]; cbn [items]; apply res_bind_Ok; eexists;
      (split; [|cbn [items]; apply res_bind_Ok; eexists; split; [|reflexivity]]).
    + apply server_version_next; [done..|]. by exists TLS_VERSION_1_3.
    + apply server_share_next; [done..|]. by exists ks.
    + apply server_share_next; [done..|]. by exists ks.
    + apply server_version_next; [done..|]. by exists TLS_VERSION_1_3.
Qed.

Definition server_hello_ok (random session key_share : bytes) (extensions : list (Z * bytes)) : Prop :=
  length random = 32%nat /\ random <> TLS13_HELLO_RETRY_REQUEST_RANDOM /\ len session <= 32 /\ key_share <> [] /\ server_extensions key_share extensions /\
  fits16 (concat (map encode_extension extensions)).

Lemma server_extensions_fit (ks : bytes) (l : list (Z * bytes)) : server_extensions ks l -> fits16 (concat (map encode_extension l)) ->
  Forall extension_fits l /\ fits16 ks.
Proof.
  intros Hl Hf. assert (Hk : len ks + 14 <= 65535).
  { unfold fits16 in Hf. destruct Hl as [->| ->]; unfold version_extension, share_extension in Hf; cbn [map concat] in Hf;
      rewrite app_nil_r, len_app, !len_encode_extension, len_app, len_vec16, !len_be_bytes in Hf; lia. }
  assert (Forall extension_fits [version_extension; share_extension ks] /\ fits16 ks) as [H1 H2].
  { split; [|unfold fits16; lia]. apply Forall_cons. split; [by split; [|unfold fits16; cbn [version_extension snd]; rewrite len_be_bytes; lia]|].
    apply Forall_cons. split; [|by apply Forall_nil]. split; [done|]. unfold fits16. cbn [share_extension snd]. rewrite len_app, len_vec16, len_be_bytes. lia. }
  split; [|done]. destruct Hl as [->| ->]; [done|]. apply Forall_cons in H1 as [? H1]. apply Forall_cons in H1 as [? _]. by repeat (apply Forall_cons; split); try apply Forall_nil.
Qed.

Definition server_hello_bytes (random session : bytes) (extensions : list (Z * bytes)) : bytes :=
  be_bytes 2 TLS_LEGACY_RECORD_VERSION ++ random ++ vec8 session ++ be_bytes 2 TLS_CHACHA20_POLY1305_SHA256 ++ [x00] ++
  vec16 (concat (map encode_extension extensions)).

Lemma read_server_extensions (v : bytes) seen (ks : bytes) : fits16 v ->
  (read_all server_extension_turn ([], None, None) v = Ok (seen, Some TLS_VERSION_1_3, Some ks) <->
   exists l, Forall extension_fits l /\ v = concat (map encode_extension l) /\ ks <> [] /\ fits16 ks /\ server_extensions ks l /\ seen = l.*1).
Proof.
  intros Hv. rewrite (read_all_Ok _ encode_extension extension_fits (fun s a _ => server_extension_next s a) _
    (turn_plain server_extension_next server_extension_turn server_extension_turn_next) (fun a _ => encode_extension_ne a)) by by apply fits16_usize.
  split.
  - intros (l & Hl & -> & H). apply server_items in H; [|done]. by exists l.
  - intros (l & Hl & -> & H). exists l. split_and!; [done..|]. by apply server_items.
Qed.

Lemma fits_version : u16 TLS_LEGACY_RECORD_VERSION.
Proof. done. Qed.
Lemma fits_suite : u16 TLS_CHACHA20_POLY1305_SHA256.
Proof. done. Qed.

Lemma parse_server_hello_sound (body : bytes) (p : ParsedTls13ServerHello) : len body <= usize_max -> parse_server_hello_body body = Ok p ->
  exists random extensions, server_hello_ok random (legacy_session_id_echo p) (server_key_share p) extensions /\
    body = server_hello_bytes random (legacy_session_id_echo p) extensions.
Proof.
  intros Hl H. unfold parse_server_hello_body in H.
  apply (codec_inv (op := fun r => map_err ServerHello_error (read_u16 r)) _ _ _ _ (hello_reads_new body Hl)) in H as (v & b1 & r1 & Hv & -> & Hr1 & H).
  destruct (Z.eqb_spec v TLS_LEGACY_RECORD_VERSION) as [->|]; [|done]. cbn [negb] in H.
  apply (codec_inv (op := fun r => map_err ServerHello_error (read_exact (Z.of_nat 32) r)) (enc := fun bs => bs) _ _ _ _ Hr1) in H as (rnd & b2 & r2 & Hrnd & -> & Hr2 & H).
  destruct (bytes_eqb rnd _) eqn:Er; [done|].
  apply (codec_inv (op := fun r => map_err ServerHello_error (read_vector_u8 _ r)) _ _ _ _ Hr2) in H as (sid & b3 & r3 & Hsid & -> & Hr3 & H).
  destruct (Z.ltb_spec 32 (len sid)) as [|Hsl]; [done|].
  apply (codec_inv (op := fun r => map_err ServerHello_error (read_u16 r)) _ _ _ _ Hr3) in H as (cs & b4 & r4 & Hcs & -> & Hr4 & H).
  destruct (Z.eqb_spec cs TLS_CHACHA20_POLY1305_SHA256) as [->|]; [|done]. cbn [negb] in H.
  apply (codec_inv (op := fun r => map_err ServerHello_error (read_u8 r)) _ _ _ _ Hr4) in H as (cm & b5 & r5 & _ & -> & Hr5 & H).
  destruct (Z.eqb_spec (u8 cm) 0) as [Ec|]; [|done]. assert (cm = x00) as -> by by apply u8_inj. cbn [negb] in H.
  apply (codec_inv (op := fun r => map_err ServerHello_error (read_vector_u16 _ r)) _ _ _ _ Hr5) in H as (ext & b6 & r6 & Hext & -> & Hr6 & H).
  rewrite (hello_finish_reads _ r6 b6 Hr6) in H. destruct b6; [|done]. cbn [map_err res_bind] in H.
  apply res_bind_Ok in H as ([[seen [version|]] [ks|]] & Hread & H); cbn [ok_or res_bind] in H; try done.
  2: { by destruct (negb _). }
  destruct (Z.eqb_spec version TLS_VERSION_1_3) as [->|]; [|done]. cbn [negb] in H. apply Ok_inj in H as <-. cbn [legacy_session_id_echo server_key_share].
  apply read_server_extensions in Hread as (l & Hl' & -> & Hne & Hk & Hs & _); [|done]. exists rnd, l. split.
  - split_and!; try done. intros ->. by rewrite bytes_eqb_refl in Er.
  - unfold server_hello_bytes. by rewrite app_nil_r.
Qed.

Lemma parse_server_hello_complete (rnd sid ks : bytes) (l : list (Z * bytes)) : server_hello_ok rnd sid ks l -> len (server_hello_bytes rnd sid l) <= usize_max ->
  parse_server_hello_body (server_hello_bytes rnd sid l) = Ok (mkServerHello sid ks).
Proof.
  intros (H1 & H2 & H3 & H4 & H5 & H6) Hl. unfold parse_server_hello_body. assert (H8 : fits8 sid) by (unfold fits8; lia).
  pose proof (hello_reads_new _ Hl) as Hr. rewrite <- (app_nil_r (server_hello_bytes rnd sid l)) in Hr at 2. unfold server_hello_bytes in Hr at 2. rewrite <- !app_assoc in Hr.
  destruct (codec_complete (op := read_u16) _ _ _ fits_version Hr) as (r1 & -> & Hr1). cbn [map_err res_bind]. rewrite Z.eqb_refl. cbn [negb].
  destruct (codec_complete (op := read_exact (Z.of_nat 32)) (enc := fun bs => bs) _ _ _ H1 Hr1) as (r2 & E2 & Hr2). change (Z.of_nat 32) with 32 in E2. rewrite E2. cbn [map_err res_bind].
  destruct (bytes_eqb rnd _) eqn:Er; [by apply bytes_eqb_eq in Er|].
  destruct (codec_complete (op := read_vector_u8 (str "legacy_session_id_echo")) r2 sid _ H8 Hr2) as (r3 & -> & Hr3). cbn [map_err res_bind].
  rewrite (proj2 (Z.ltb_ge _ _)) by done.
  destruct (codec_complete (op := read_u16) _ _ _ fits_suite Hr3) as (r4 & -> & Hr4). cbn [map_err res_bind]. rewrite Z.eqb_refl. cbn [negb].
  destruct (codec_complete (op := read_u8) r4 x00 _ I Hr4) as (r5 & -> & Hr5). cbn [map_err res_bind]. change (negb (u8 x00 =? 0)) with false. cbv iota.
  destruct (codec_complete (op := read_vector_u16 (str "ServerHello extensions")) r5 _ [] H6 Hr5) as (r6 & -> & Hr6). cbn [map_err res_bind].
  rewrite (hello_finish_reads _ r6 [] Hr6). cbn [map_err res_bind]. destruct (server_extensions_fit ks l H5 H6) as [Hf Hk].
  rewrite (proj2 (read_server_extensions _ l.*1 ks H6)) by by exists l. done.
Qed.

Lemma parse_server_hello_returns (body : bytes) : len body <= usize_max -> returns (parse_server_hello_body body).
Proof.
  intros Hl. unfold parse_server_hello_body. apply (codec_returns (op := fun r => map_err ServerHello_error (read_u16 r)) _ _ _ (hello_reads_new body Hl)).
  intros v b1 r1 _ Hr1 _. case_match; [done|].
  apply (codec_returns (op := fun r => map_err ServerHello_error (read_exact (Z.of_nat 32) r)) (enc := fun bs => bs) _ _ _ Hr1). intros rnd b2 r2 _ Hr2 _. case_match; [done|].
  apply (codec_returns (op := fun r => map_err ServerHello_error (read_vector_u8 _ r)) _ _ _ Hr2). intros sid b3 r3 _ Hr3 _. case_match; [done|].
  apply (codec_returns (op := fun r => map_err ServerHello_error (read_u16 r)) _ _ _ Hr3). intros cs b4 r4 _ Hr4 _. case_match; [done|].
  apply (codec_returns (op := fun r => map_err ServerHello_error (read_u8 r)) _ _ _ Hr4). intros cm b5 r5 _ Hr5 _. case_match; [done|].
  apply (codec_returns (op := fun r => map_err ServerHello_error (read_vector_u16 _ r)) _ _ _ Hr5). intros ext b6 r6 Hext Hr6 _.
  rewrite (hello_finish_reads _ r6 b6 Hr6). destruct b6; [|done]. cbn [map_err res_bind]. apply res_bind_returns.
  - apply (read_all_returns _ encode_extension extension_fits (fun s a _ => server_extension_next s a) _
      (turn_plain server_extension_next server_extension_turn server_extension_turn_next) (fun a _ => encode_extension_ne a)); [|by apply fits16_usize].
    intros s a _ [_ Ha]. by apply server_extension_next_returns.
  - intros [[seen [version|]] [ks|]] _; cbn [ok_or res_bind]; by repeat case_match.
Qed.

(** A retry request is recognised by its random bytes, whatever follows them. *)
Lemma parse_retry_body (rest : bytes) : len (be_bytes 2 TLS_LEGACY_RECORD_VERSION ++ TLS13_HELLO_RETRY_REQUEST_RANDOM ++ rest) <= usize_max ->
  parse_server_hello_body (be_bytes 2 TLS_LEGACY_RECORD_VERSION ++ TLS13_HELLO_RETRY_REQUEST_RANDOM ++ rest) = Err HelloRetryRequestUnsupported.
Proof.
  intros Hl. unfold parse_server_hello_body. pose proof (hello_reads_new _ Hl) as Hr.
  destruct (codec_complete (op := read_u16) _ _ _ fits_version Hr) as (r1 & -> & Hr1). cbn [map_err res_bind]. rewrite Z.eqb_refl. cbn [negb].
  destruct (codec_complete (op := read_exact (Z.of_nat 32)) (ok := fun bs => length bs = 32%nat) (enc := fun bs => bs) r1 TLS13_HELLO_RETRY_REQUEST_RANDOM rest eq_refl Hr1) as (r2 & E2 & Hr2).
  change (Z.of_nat 32) with 32 in E2. rewrite E2. reflexivity.
Qed.

Lemma parse_tls13_server_hello_message (body : bytes) : len body < 16777216 ->
  parse_tls13_server_hello (handshake_message HANDSHAKE_TYPE_SERVER_HELLO body) = parse_server_hello_body body.
Proof.
  intros Hl. unfold parse_tls13_server_hello, handshake_message. rewrite (proj2 (Nat.ltb_ge _ _)) by (cbn [length]; rewrite length_app, length_be_bytes; unfold HANDSHAKE_HEADER_SIZE; lia).
  destruct (header_parts (E := TlsClientHandshakeError) HANDSHAKE_TYPE_SERVER_HELLO (be_bytes 3 (len body)) body (length_be_bytes 3 _)) as (-> & -> & -> & ->).
  cbn [res_bind]. rewrite header_declares by done. unfold len. rewrite Z.eqb_refl. done.
Qed.

Lemma server_hello_short (random session : bytes) (l : list (Z * bytes)) : length random = 32%nat -> len session <= 32 -> fits16 (concat (map encode_extension l)) ->
  len (server_hello_bytes random session l) < 16777216.
Proof.
  intros Hr Hs Hl. unfold server_hello_bytes. rewrite !len_app, len_vec8, len_vec16, !len_be_bytes. unfold len at 1. rewrite Hr. unfold fits16 in Hl. change (len [x00]) with 1. lia.
Qed.

(** The hello that a server with these random bytes and this share sends, as the client reads it. *)
Lemma parse_own_server_hello (random session key_share : bytes) : length random = 32%nat -> len session <= 32 -> length key_share = 65%nat ->
  parse_tls13_server_hello (encode_server_hello random session [version_extension; share_extension key_share]) =
    if decide (random = TLS13_HELLO_RETRY_REQUEST_RANDOM) then Err HelloRetryRequestUnsupported else Ok (mkServerHello session key_share).
Proof.
  intros Hr Hs Hk. assert (Hf : fits16 (concat (map encode_extension [version_extension; share_extension key_share]))).
  { unfold fits16, version_extension, share_extension. cbn [map concat].
    rewrite app_nil_r, len_app, !len_encode_extension, len_app, len_vec16, !len_be_bytes. unfold len. lia. }
  pose proof (server_hello_short random session _ Hr Hs Hf) as Hl. assert (Hu : len (server_hello_bytes random session [version_extension; share_extension key_share]) <= usize_max)
    by (unfold usize_max, u64_max; lia).
  unfold encode_server_hello. rewrite parse_tls13_server_hello_message by done. destruct (decide _) as [->|Hne]; [by apply parse_retry_body|].
  eapply parse_server_hello_complete; [|exact Hu]. split_and!; [done..|by destruct key_share|by left|done].
Qed.

Lemma server_hello_ok_short (random session ks : bytes) (l : list (Z * bytes)) : server_hello_ok random session ks l -> len (server_hello_bytes random session l) < 16777216.
Proof. intros (? & ? & ? & ? & ? & ?). by apply server_hello_short. Qed.

Lemma parse_tls13_server_hello_sound (message : bytes) (p : ParsedTls13ServerHello) : parse_tls13_server_hello message = Ok p -> exists random extensions,
  server_hello_ok random (legacy_session_id_echo p) (server_key_share p) extensions /\ message = encode_server_hello random (legacy_session_id_echo p) extensions.
Proof.
  unfold parse_tls13_server_hello. destruct (header_cases message) as [->|(ty & l & body & -> & Hl & ->)]; [done|].
  destruct (header_parts (E := TlsClientHandshakeError) ty l body Hl) as (-> & -> & -> & ->). cbn [res_bind]. cbv iota.
  destruct (byte_eqb ty HANDSHAKE_TYPE_SERVER_HELLO) eqn:Et; [|done]. apply byte_eqb_eq in Et as ->. cbn [negb].
  destruct (Z.eqb_spec (be_value 0 l) (Z.of_nat (length body))) as [Hd|]; [|done]. cbn [negb]. pose proof (header_fits l body Hl Hd) as Hb.
  intros (rnd & ext & Hok & ->)%parse_server_hello_sound; [|done]. exists rnd, ext. split; [done|].
  unfold encode_server_hello, handshake_message. f_equal. f_equal. by apply header_length.
Qed.

Lemma parse_tls13_server_hello_returns (message : bytes) : returns (parse_tls13_server_hello message).
Proof.
  unfold parse_tls13_server_hello. destruct (header_cases message) as [->|(ty & l & body & -> & Hl & ->)]; [done|].
  destruct (header_parts (E := TlsClientHandshakeError) ty l body Hl) as (-> & -> & -> & ->). cbn [res_bind]. cbv iota. case_match; [done|].
  destruct (Z.eqb_spec (be_value 0 l) (Z.of_nat (length body))) as [Hd|]; [|done]. cbn [negb]. apply parse_server_hello_returns. by eapply header_fits.
Qed.

(** The client accepts exactly the hellos of a TLS 1.3 server that chose the one cipher suite and group it
    offers, with the two extensions in either order, and never panics; the hello that the server builds
    is read back as its session and key share, and its retry request is refused as one. *)
Theorem server_hello_correct (message : bytes) (p : ParsedTls13ServerHello) (ch : ClientHello) (random key_share : bytes) :
  (parse_tls13_server_hello message = Ok p <-> exists random extensions,
     server_hello_ok random (legacy_session_id_echo p) (server_key_share p) extensions /\
     message = encode_server_hello random (legacy_session_id_echo p) extensions) /\
  returns (parse_tls13_server_hello message) /\
  (length random = 32%nat -> len (legacy_session_id ch) <= 32 -> length key_share = 65%nat -> exists hello,
     build_tls13_server_hello ch random key_share = Ok hello /\
     (random <> TLS13_HELLO_RETRY_REQUEST_RANDOM -> parse_tls13_server_hello hello = Ok (mkServerHello (legacy_session_id ch) key_share))) /\
  (len (legacy_session_id ch) <= 32 -> exists retry, build_tls13_hello_retry_request ch = Ok retry /\
     parse_tls13_server_hello retry = Err HelloRetryRequestUnsupported).
Proof.
  assert (Husize : forall n, n < 16777216 -> n <= usize_max) by (intros n Hn; unfold usize_max, u64_max; lia).
  split; [|split; [apply parse_tls13_server_hello_returns|split]].
  - split; [apply parse_tls13_server_hello_sound|]. intros (rnd & ext & Hok & ->). unfold encode_server_hello. rewrite parse_tls13_server_hello_message by by eapply server_hello_ok_short.
    destruct p as [sid ks]. eapply parse_server_hello_complete; [done|]. by eapply Husize, server_hello_ok_short.
  - intros Hr Hs Hk. exists (encode_server_hello random (legacy_session_id ch) [version_extension; share_extension key_share]).
    split; [apply build_server_hello_spec; [done|lia|done]|]. intros Hne. by rewrite parse_own_server_hello, decide_False.
  - intros Hs. eexists. split; [apply build_retry_request_spec; lia|]. unfold encode_server_hello.
    assert (Hl : len (server_hello_bytes TLS13_HELLO_RETRY_REQUEST_RANDOM (legacy_session_id ch) [version_extension; retry_extension]) < 16777216)
      by (apply server_hello_short; done).
    rewrite parse_tls13_server_hello_message by done. by apply parse_retry_body, Husize.
Qed.

(** ** The client's hello is read by the server *)
Definition client_extensions (name public_key : bytes) : list (Z * bytes) :=
  [(EXTENSION_SERVER_NAME, vec16 (encode_server_name (x00, name)));
   (EXTENSION_SUPPORTED_GROUPS, vec16 (u16s [TLS_GROUP_SECP256R1]));
   (EXTENSION_SIGNATURE_ALGORITHMS, vec16 (u16s [TLS_SIGNATURE_ECDSA_SECP256R1_SHA256]));
   (EXTENSION_APPLICATION_LAYER_PROTOCOL_NEGOTIATION, vec16 (vec8 ALPN_HTTP_1_1));
   (EXTENSION_SUPPORTED_VERSIONS, vec8 (u16s [TLS_VERSION_1_3]));
   (EXTENSION_KEY_SHARE, vec16 (encode_key_share (mkKeyShare TLS_GROUP_SECP256R1 public_key)))].

(** The hello that the client means. *)
Definition client_hello_for (name random public_key : bytes) : ClientHello :=
  mkClientHello random [] [TLS_CHACHA20_POLY1305_SHA256] (Some (lowercase name)) [TLS_VERSION_1_3] [TLS_GROUP_SECP256R1]
    [mkKeyShare TLS_GROUP_SECP256R1 public_key] [TLS_SIGNATURE_ECDSA_SECP256R1_SHA256] [ALPN_HTTP_1_1] (client_extensions name public_key) false.

Lemma valid_name_length (name : bytes) : is_valid_server_name name = true -> name <> [] /\ len name <= 253.
Proof.
  unfold is_valid_server_name. destruct (bool_decide_reflect (name = [])); [done|]. destruct (negb (forallb is_ascii name)); [done|]. cbn [orb].
  destruct (negb (utf8_valid name)); [done|]. destruct (Z.ltb_spec 253 (len name)); [done|]. intros _. by split.
Qed.

Lemma len_client_extensions (name public_key : bytes) :
  len (concat (map encode_extension (client_extensions name public_key))) = 57 + len name + len public_key.
Proof.
  assert (Hu : forall v, len (u16s [v]) = 2) by (intros; unfold len; by rewrite length_u16s).
  unfold client_extensions. cbn [map concat]. rewrite app_nil_r, !len_app, !len_encode_extension, !len_vec16, !len_vec8. unfold encode_server_name, encode_key_share.
  rewrite !len_app, !len_vec16, len_be_bytes, !Hu. cbn [fst snd group key_exchange]. change (len [x00]) with 1. change (len ALPN_HTTP_1_1) with 8. lia.
Qed.

Lemma concat_one {A : Type} (enc : A -> bytes) (a : A) : concat (map enc [a]) = enc a.
Proof. apply app_nil_r. Qed.

Lemma u16_list_one (v : Z) : u16 v -> u16_list [v].
Proof. intros H. split; [done|]. apply Forall_cons. split; [done|by apply Forall_nil]. Qed.

Lemma fits_u16s_one (v : Z) : fits16 (u16s [v]) /\ fits8 (u16s [v]).
Proof. unfold fits16, fits8, len. rewrite length_u16s. cbn. lia. Qed.

Lemma client_extensions_ok (name public_key : bytes) : len name <= 253 -> length public_key = 65%nat ->
  extension_list_ok (client_extensions name public_key) /\ fits16 (concat (map encode_extension (client_extensions name public_key))).
Proof.
  intros Hn Hp. assert (Hf : fits16 (concat (map encode_extension (client_extensions name public_key))))
    by (unfold fits16; rewrite len_client_extensions; unfold len at 2; lia).
  split; [|done]. split_and!.
  - apply Forall_forall. intros [ty d] Hin. split.
    + unfold client_extensions in Hin. cbn [fst]. repeat (apply elem_of_cons in Hin as [[= -> _]|Hin]; [done|]). by apply not_elem_of_nil in Hin.
    + unfold fits16 in *. cbn [snd]. apply list_elem_of_In, in_split in Hin as (l1 & l2 & E). rewrite E, map_app, concat_app in Hf. cbn [map concat] in Hf.
      rewrite !len_app, len_encode_extension in Hf. pose proof (len_nonneg (concat (map encode_extension l1))). pose proof (len_nonneg (concat (map encode_extension l2))). lia.
  - apply (bool_decide_unpack _). by vm_compute.
  - unfold client_extensions. rewrite !psk_last_cons. split_and!; try done. by intros [] d l2.
Qed.

Lemma client_hello_for_ok (name rnd public_key : bytes) : is_valid_server_name name = true -> length rnd = 32%nat -> length public_key = 65%nat ->
  hello_ok (client_hello_for name rnd public_key).
Proof.
  intros Hv Hr Hp. destruct (valid_name_length name Hv) as [Hne Hl]. unfold client_hello_for.
  assert (Hpk : public_key <> []) by by destruct public_key. assert (Hlp : len public_key = 65) by (unfold len; lia).
  assert (Hnm : len (encode_server_name (x00, name)) = 3 + len name) by (unfold encode_server_name; rewrite len_app, len_vec16; cbn [fst snd]; change (len [x00]) with 1; lia).
  assert (Hks : len (encode_key_share (mkKeyShare TLS_GROUP_SECP256R1 public_key)) = 69)
    by (unfold encode_key_share; rewrite len_app, len_vec16, len_be_bytes; cbn [group key_exchange]; lia).
  assert (Hone : forall v, u16 v -> u16_vector (vec16 (u16s [v])) [v]) by (intros v Hv'; split_and!; [by apply u16_list_one|apply fits_u16s_one|done]).
  split; cbn [random legacy_session_id cipher_suites server_name supported_versions supported_groups key_shares signature_algorithms alpn_protocols raw_extensions pre_shared_key_present].
  - done.
  - done.
  - split; [by apply u16_list_one|apply fits_u16s_one].
  - by apply client_extensions_ok.
  - exists [(x00, name)]. rewrite concat_one. split_and!; [|done|done]. split_and!; [done| | | |].
    + apply Forall_cons. split; [|by apply Forall_nil]. split; [done|]. unfold fits16. cbn [snd]. lia.
    + apply NoDup_singleton.
    + apply Forall_cons. split; [intros _; exact Hv|by apply Forall_nil].
    + rewrite concat_one. unfold fits16. lia.
  - by apply Hone.
  - by apply Hone.
  - split_and!; [split; [done|apply Forall_cons; split; [done|by apply Forall_nil]]|by rewrite concat_one|by rewrite concat_one].
  - split_and!; [done|by apply u16_list_one|apply fits_u16s_one|by left].
  - split; [|by rewrite concat_one]. split_and!; [|apply NoDup_singleton|rewrite concat_one; unfold fits16; lia].
    apply Forall_cons. split; [|by apply Forall_nil]. split_and!; [done|unfold fits16; cbn [key_exchange]; lia|done].
  - done.
  - intros _. split; by eexists.
  - split; intros _; by eexists.
  - exists [0%nat]. split; [apply Forall2_cons; split; [done|by apply Forall2_nil]|by repeat constructor].
Qed.

Lemma append_extensions (l : list (Z * bytes)) (ty : Z) (d : bytes) :
  concat (map encode_extension l) ++ encode_extension (ty, d) = concat (map encode_extension (l ++ [(ty, d)])).
Proof. by rewrite map_app, concat_app, concat_one. Qed.

Lemma build_client_hello_spec (name rnd : bytes) (d : Scalar) (point : P256Point) (pk : bytes) : is_valid_server_name name = true -> d <> ZERO ->
  length rnd = 32%nat -> p256_generator_multiply d = Ok point :> res TlsClientHelloBuildError _ -> to_sec1_uncompressed point = Ok pk -> length pk = 65%nat ->
  build_tls13_client_hello name rnd d = Ok (encode_client_hello (client_hello_for name rnd pk)).
Proof.
  intros Hv Hd Hr Hm Hpk Hl. destruct (valid_name_length name Hv) as [_ Hn]. assert (Hlp : len pk = 65) by (unfold len; lia).
  unfold build_tls13_client_hello. rewrite Hv, bool_decide_false by done. cbn [negb]. rewrite Hm. cbn [res_bind]. rewrite Hpk. cbn [map_err res_bind].
  pose proof (len_nonneg name) as H0. unfold try_from at 1 2. rewrite !(proj2 (Z.leb_le _ _)) by (unfold u16_max; lia). cbn [res_bind].
  assert (He : be_bytes 2 (len name + 3) ++ [x00] ++ be_bytes 2 (len name) ++ name = vec16 (encode_server_name (x00, name))).
  { unfold vec16, encode_server_name. cbn [fst snd]. rewrite len_app, len_vec16. change (len [x00]) with 1. by replace (len name + 3) with (1 + (2 + len name)) by lia. }
  rewrite He. rewrite (append_tls_extension_spec []) by (unfold fits16, encode_server_name; rewrite len_vec16, len_app, len_vec16; cbn [fst snd]; change (len [x00]) with 1; lia).
  cbn [res_bind]. rewrite !append_tls_extension_spec by done. cbn [res_bind]. rewrite append_tls_extension_spec by done. cbn [res_bind].
  rewrite append_tls_extension_spec by done. cbn [res_bind]. rewrite append_tls_extension_spec by done. cbn [res_bind].
  unfold try_from at 1 2. rewrite !(proj2 (Z.leb_le _ _)) by (unfold u16_max; lia). cbn [res_bind].
  assert (Hk : be_bytes 2 (2 + 2 + len pk) ++ be_bytes 2 TLS_GROUP_SECP256R1 ++ be_bytes 2 (len pk) ++ pk = vec16 (encode_key_share (mkKeyShare TLS_GROUP_SECP256R1 pk))).
  { unfold vec16, encode_key_share. cbn [group key_exchange]. rewrite len_app, len_vec16, len_be_bytes. by replace (2 + 2 + len pk) with (Z.of_nat 2 + (2 + len pk)) by lia. }
  rewrite Hk. rewrite append_tls_extension_spec by (unfold fits16, encode_key_share; rewrite len_vec16, len_app, len_vec16, len_be_bytes; cbn [group key_exchange]; lia).
  cbn [res_bind].
  match goal with |- context [try_from u16_max (len ?x)] => assert (Hx : x = concat (map encode_extension (client_extensions name pk))) end.
  { unfold client_extensions. cbn [map concat app]. rewrite app_nil_r, <- !app_assoc. reflexivity. }
  rewrite Hx. unfold try_from. rewrite (proj2 (Z.leb_le _ _)) by (rewrite len_client_extensions; unfold u16_max; lia). cbn [res_bind].
  match goal with |- context [TLS_UINT24_MAX <? len ?x] => assert (Hb : x = hello_body (client_hello_for name rnd pk)) end.
  { unfold hello_body, client_hello_for. cbn [random legacy_session_id cipher_suites raw_extensions]. reflexivity. }
  rewrite Hb. pose proof (len_concat_fits _ (client_hello_for_ok name rnd pk Hv Hr Hl)) as Hf. rewrite (proj2 (Z.ltb_ge _ _)) by (unfold TLS_UINT24_MAX; lia).
  rewrite uint24_be. reflexivity.
Qed.

Lemma generator_multiply_spec {E : Type} (d : Scalar) : limbs_ok 4 d ->
  p256_generator_multiply d = Ok (enc_point (multiple _ (value d) gen)) :> res E _.
Proof. intros Hd. unfold p256_generator_multiply. rewrite generator_enc. by apply multiply_enc. Qed.

Lemma sec1_of_point (a : Fp * Fp) : exists pk, to_sec1_uncompressed (enc_point (Some a)) = Ok pk /\ length pk = 65%nat.
Proof.
  cbn [enc_point option_map]. rewrite to_sec1_spec by apply enc_ok. eexists. split; [reflexivity|].
  rewrite !to_be_bytes_spec by apply enc_ok. cbn [length]. by rewrite length_app, !length_be_bytes.
Qed.

(** The hello that the client builds for a valid name and a private key is accepted by the server as the
    name in lower case, the one version, suite, group, signature scheme and protocol, and the public key
    of the private key as the only key share; another name or a zero key is refused, and so is a key
    whose public point is the identity. *)
Theorem client_hello_round_trip (name rnd : bytes) (d : Scalar) (Hd : limbs_ok 4 d) (Hr : length rnd = 32%nat) :
  match build_tls13_client_hello name rnd d with
  | Ok message => is_valid_server_name name = true /\ d <> ZERO /\ exists point pk,
      p256_generator_multiply d = Ok point :> res TlsClientHelloBuildError _ /\ to_sec1_uncompressed point = Ok pk /\
      parse_client_hello message = Ok (client_hello_for name rnd pk) /\ secp256r1_key_share (client_hello_for name rnd pk) = Some pk
  | Err InvalidServerName_build => is_valid_server_name name = false
  | Err ZeroPrivateKey => is_valid_server_name name = true /\ d = ZERO
  | Err (PublicKey _) => is_valid_server_name name = true /\ d <> ZERO /\ multiple _ (value d) gen = None
  | Panic | Fuel => False
  end.
Proof.
  destruct (is_valid_server_name name) eqn:Hv; [|by unfold build_tls13_client_hello; rewrite Hv].
  destruct (decide (d = ZERO)) as [->|Hne]; [unfold build_tls13_client_hello; rewrite Hv; by rewrite bool_decide_true|].
  pose proof (generator_multiply_spec (E := TlsClientHelloBuildError) d Hd) as Hm. destruct (multiple _ (value d) gen) as [a|] eqn:Ep.
  - destruct (sec1_of_point a) as (pk & Hpk & Hl). rewrite (build_client_hello_spec name rnd d _ pk Hv Hne Hr Hm Hpk Hl).
    split_and!; [done|done|]. exists (enc_point (Some a)), pk. split_and!; [done|done| |done]. by apply parse_client_hello_encode, client_hello_for_ok.
  - unfold build_tls13_client_hello. rewrite Hv, bool_decide_false by done. cbn [negb]. rewrite Hm. done.
Qed.

Lemma client_hello_round_trip_witness :
  exists message pk, build_tls13_client_hello (str "Example.org") (repeat x07 32) ONE = Ok message /\
    parse_client_hello message = Ok (client_hello_for (str "Example.org") (repeat x07 32) pk).
Proof.
  pose proof (client_hello_round_trip (str "Example.org") (repeat x07 32) ONE (limbs_of_ok 4 1) eq_refl) as H.
  destruct (build_tls13_client_hello _ _ ONE) as [message|[]| |].
  - destruct H as (_ & _ & point & pk & _ & _ & Hp & _). exists message, pk. split; [reflexivity|exact Hp].
  - vm_compute in H. discriminate H.
  - destruct H as [_ H]. discriminate H.
  - destruct H as (_ & _ & H). discriminate H.
  - destruct H.
  - destruct H.
Defined.
