(* ===== verification/TlsCredentials.v ===== *)
(** * Certificate and CertificateVerify: [src/tls.rs]

    The two messages that authenticate the server, as the encodings of RFC 8446, 4.4.2 and 4.4.3, and
    every reason for which they are not built. *)
From Stdlib Require Import ZArith Zmod Lia.
From stdpp Require Import prelude.
From S2P Require Import Prelude Bytes Io Uint256 Sha256 Encoding Poly1305 ChaCha20 Primes Curve P256 Ecdsa Der Pem Keys TlsRecord TlsMessages TlsHello.
Local Open Scope Z_scope.
Set Warnings "-clear-no-such-hyp".

(** ** Certificate *)
Definition vec24 (bs : bytes) : bytes := be_bytes 3 (len bs) ++ bs.

(** A certificate without extensions. *)
Definition entry_encoding (c : bytes) : bytes := vec24 c ++ be_bytes 2 0.
Definition chain_encoding (chain : list bytes) : bytes := concat (map entry_encoding chain).

Definition certificate_message (chain : list bytes) : bytes := handshake_message HANDSHAKE_TYPE_CERTIFICATE ([x00] ++ vec24 (chain_encoding chain)).

Lemma append_uint24_spec {E : Type} (output : bytes) (v : Z) : v <= TLS_UINT24_MAX -> append_uint24 output v = Ok (output ++ be_bytes 3 v) :> res E _.
Proof. intros Hv. unfold append_uint24. by rewrite (proj2 (Z.leb_le _ _)), uint24_be. Qed.

(** The loop over the chain, from the entry [k] on. *)
Lemma chain_loop (chain done_ : list bytes) : len (chain_encoding done_) <= TLS_UINT24_MAX ->
  match res_foldM certificate_entry (chain_encoding done_) (zip (seq (length done_) (length chain)) chain) with
  | Ok out => out = chain_encoding (done_ ++ chain) /\ Forall (fun c => c <> []) chain /\ len out <= TLS_UINT24_MAX
  | Err (EmptyCertificate i) => (done_ ++ chain) !! i = Some []
  | Err (CertificateTooLong i n) => exists c, (done_ ++ chain) !! i = Some c /\ n = len c /\ TLS_UINT24_MAX < n
  | Err (CertificateListTooLong n) => TLS_UINT24_MAX < n /\ n <= len (chain_encoding (done_ ++ chain))
  | _ => False
  end.
Proof.
  revert done_. induction chain as [|c chain IH]; intros done_ Hl; [by cbn; rewrite app_nil_r|]. cbn [length seq zip res_foldM].
  cbn [zip_with]. unfold certificate_entry at 1. case_bool_decide as Hc; [subst c; cbn; by rewrite lookup_app_r, Nat.sub_diag by lia|].
  destruct (Z.ltb_spec TLS_UINT24_MAX (len c)) as [Hlong|Hshort]; [exists c; by rewrite lookup_app_r, Nat.sub_diag by lia|].
  rewrite append_uint24_spec by lia. cbn [res_bind].
  assert (Henc : (chain_encoding done_ ++ be_bytes 3 (len c)) ++ c ++ be_bytes 2 0 = chain_encoding (done_ ++ [c])).
  { unfold chain_encoding. rewrite map_app, concat_app. cbn [map concat]. unfold entry_encoding, vec24. by rewrite app_nil_r, <- !app_assoc. }
  rewrite Henc. replace (done_ ++ c :: chain) with ((done_ ++ [c]) ++ chain) by (by rewrite <- app_assoc).
  destruct (Z.ltb_spec TLS_UINT24_MAX (len (chain_encoding (done_ ++ [c])))) as [Ho|Ho].
  - split; [done|]. unfold chain_encoding. rewrite (map_app _ (done_ ++ [c])), concat_app, len_app. pose proof (len_nonneg (concat (map entry_encoding chain))). lia.
  - cbn [res_bind]. specialize (IH (done_ ++ [c]) Ho). rewrite length_app in IH. cbn [length] in IH. rewrite Nat.add_1_r in IH.
    destruct (res_foldM _ _ _) as [out|e| |]; [|exact IH|done|done]. destruct IH as (-> & Hall & Hout). split; [done|]. split; [by apply Forall_cons|done].
Qed.

Lemma build_certificate_spec (chain : list bytes) :
  match build_tls13_certificate chain with
  | Ok m => m = certificate_message chain /\ chain <> [] /\ Forall (fun c => c <> []) chain /\ 4 + len (chain_encoding chain) <= TLS_UINT24_MAX
  | Err EmptyCertificateChain => chain = []
  | Err (EmptyCertificate i) => chain !! i = Some []
  | Err (CertificateTooLong i n) => exists c, chain !! i = Some c /\ n = len c /\ TLS_UINT24_MAX < n
  | Err (CertificateListTooLong n) => TLS_UINT24_MAX < n /\ n <= len (chain_encoding chain)
  | Err (HandshakeMessageTooLong n) => TLS_UINT24_MAX < n /\ n = 4 + len (chain_encoding chain)
  | _ => False
  end.
Proof.
  unfold build_tls13_certificate. case_bool_decide as Hne; [done|]. unfold enumerate. pose proof (chain_loop chain [] ltac:(done)) as H.
  change (chain_encoding []) with (@nil byte) in H. cbn [length app] in H. destruct (res_foldM _ _ _) as [out|e| |]; cbn [res_bind]; [|destruct e; done|done|done].
  destruct H as (-> & Hall & Hl).
  rewrite append_uint24_spec by done. cbn [res_bind]. rewrite encode_handshake_message_spec, <- app_assoc.
  assert (Hb : len ([x00] ++ be_bytes 3 (len (chain_encoding chain)) ++ chain_encoding chain) = 4 + len (chain_encoding chain)).
  { rewrite !len_app, len_be_bytes. change (len [x00]) with 1. lia. }
  case_decide as Hd; rewrite Hb in *; [by split_and!|lia].
Qed.

(** ** CertificateVerify *)
Definition certificate_verify_message (r s : Fn) : bytes :=
  handshake_message HANDSHAKE_TYPE_CERTIFICATE_VERIFY
    (be_bytes 2 TLS_SIGNATURE_ECDSA_SECP256R1_SHA256 ++ vec16 (signature_encoding (be_bytes 32 (Zmod.to_Z r)) (be_bytes 32 (Zmod.to_Z s)))).

(** What is signed: 64 spaces, the context, a zero and the hash of the transcript. *)
Definition signed_content (transcript_hash : bytes) : bytes := repeat x20 64 ++ str "TLS 1.3, server CertificateVerify" ++ [x00] ++ transcript_hash.

Lemma build_certificate_verify_spec (fuel : nat) (d : Fn) (th : bytes) : length th = 32%nat ->
  let content := signed_content th in
  match build_tls13_server_certificate_verify fuel (encs d) th with
  | Ok m => d <> Zmod.zero /\ exists n r s, search n d (hash_value content) (initial_generator d content) = Some (r, s) /\ m = certificate_verify_message r s
  | Err e => e = Signing ZeroPrivateScalar /\ d = Zmod.zero
  | Fuel => d <> Zmod.zero /\ search fuel d (hash_value content) (initial_generator d content) = None
  | Panic => False
  end.
Proof.
  intros Hth content. unfold build_tls13_server_certificate_verify. change (tls13_server_certificate_verify_content th) with content.
  assert (Hc : len content <= u64_max / 8).
  { unfold content, signed_content, len. rewrite !length_app, repeat_length, Hth. change (u64_max / 8) with 2305843009213693951. cbn. lia. }
  rewrite sign_spec by exact Hc. destruct (decide (d = Zmod.zero)) as [->|Hd]; [by split|].
  pose proof (sign_loop_spec fuel fuel d (hash_value content) (initial_generator d content) (initial_generator_ok d content)) as Hs.
  destruct (sign_loop fuel fuel _ _ _) as [sg|e| |]; cbn [map_err res_bind]; [|done|done|by rewrite Nat.min_id in Hs].
  destruct Hs as (n & [r s] & Hs & ->). change (@encode_tls_p256_signature_der TlsServerHandshakeError) with (@encode_p256_signature_der TlsServerHandshakeError).
  destruct (signature_encodes (E := TlsServerHandshakeError) r s) as [-> Hl]. cbn [res_bind]. unfold try_from. rewrite (proj2 (Z.leb_le _ _)) by (unfold u16_max; lia). cbn [res_bind].
  rewrite encode_handshake_message_spec, decide_True by (rewrite !len_app, !len_be_bytes; unfold TLS_UINT24_MAX; lia). split; [done|]. by exists n, r, s.
Qed.

(** The messages that authenticate the server are those of RFC 8446: Certificate lists the chain in order, each
    certificate with its length and no extensions, and CertificateVerify carries the RFC 6979 signature, in DER, of
    the context string and the hash of the transcript. A chain is refused exactly for a reason that holds of it;
    only a zero key is refused; the signer may run out of fuel and nothing panics. *)
Theorem server_credentials_correct (chain : list bytes) (fuel : nat) (d : Fn) (th : bytes) (Hth : length th = 32%nat) :
  match build_tls13_certificate chain with
  | Ok m => m = certificate_message chain /\ chain <> [] /\ Forall (fun c => c <> []) chain /\ 4 + len (chain_encoding chain) <= TLS_UINT24_MAX
  | Err EmptyCertificateChain => chain = []
  | Err (EmptyCertificate i) => chain !! i = Some []
  | Err (CertificateTooLong i n) => exists c, chain !! i = Some c /\ n = len c /\ TLS_UINT24_MAX < n
  | Err (CertificateListTooLong n) => TLS_UINT24_MAX < n /\ n <= len (chain_encoding chain)
  | Err (HandshakeMessageTooLong n) => TLS_UINT24_MAX < n /\ n = 4 + len (chain_encoding chain)
  | _ => False
  end /\
  match build_tls13_server_certificate_verify fuel (encs d) th with
  | Ok m => d <> Zmod.zero /\ exists n r s, m = certificate_verify_message r s /\
      search n d (hash_value (signed_content th)) (initial_generator d (signed_content th)) = Some (r, s)
  | Err e => e = Signing ZeroPrivateScalar /\ d = Zmod.zero
  | Fuel => d <> Zmod.zero /\ search fuel d (hash_value (signed_content th)) (initial_generator d (signed_content th)) = None
  | Panic => False
  end.
Proof.
  split; [apply build_certificate_spec|]. pose proof (build_certificate_verify_spec fuel d th Hth) as H. cbv zeta in H.
  destruct (build_tls13_server_certificate_verify fuel (encs d) th); try done. destruct H as (Hd & n & r & s & Hs & Hm). split; [done|]. by exists n, r, s.
Qed.

Lemma server_credentials_correct_witness :
  match build_tls13_certificate [[xaa]; []] with
  | Err (EmptyCertificate i) => [[xaa]; []] !! i = Some (@nil byte)
  | _ => False
  end.
Proof.
  destruct (server_credentials_correct [[xaa]; []] 1 Zmod.one (repeat x00 32) eq_refl) as [H _].
  destruct (build_tls13_certificate [[xaa]; []]) as [m|[]| |] eqn:Eb; try (vm_compute in Eb; discriminate Eb). exact H.
Defined.
