(* ===== verification/TlsHandshake.v ===== *)
(** * The handshake: [src/tls.rs]

    The transcript and the key schedule, the server's negotiation with its retry, its authentication
    and the client's Finished, the state after the handshake, and the client's side of the hellos.
    Random bytes come from the operating system's device, which is a parameter with the law of
    [read_exact]: it fills the buffer or reports an error. *)
From Stdlib Require Import ZArith Lia.
From stdpp Require Import prelude.
From S2P Require Import Prelude Bytes NetAddr Io Uint256 Sha256 Encoding Poly1305 ChaCha20 Primes Curve P256 Ecdsa Der TlsRecord TlsMessages TlsHello.
Local Open Scope Z_scope.
Set Warnings "-clear-no-such-hyp".

Definition TLS_SHA256_HASH_SIZE : nat := 32.
Definition TLS_CHACHA20_POLY1305_KEY_SIZE : nat := 32.
Definition TLS_CHACHA20_POLY1305_IV_SIZE : nat := 12.

(** ** The transcript *)
Definition TlsTranscript : Type := Sha256.
Definition new_transcript : TlsTranscript := Sha256.new.
Definition update_handshake_message {E : Type} (transcript : TlsTranscript) (message : bytes) : res E TlsTranscript := update transcript message.
Definition transcript_hash {E : Type} (transcript : TlsTranscript) : res E bytes := finalize transcript.

Definition after_hello_retry (client_hello_message hello_retry_request : bytes) : res TlsServerHandshakeError TlsTranscript :=
  let? client_hello_hash := sha256 client_hello_message in
  let? message_hash := encode_handshake_message HANDSHAKE_TYPE_MESSAGE_HASH client_hello_hash in
  let? transcript := update_handshake_message new_transcript message_hash in
  update_handshake_message transcript hello_retry_request.

(** ** The key schedule *)
Record Tls13HandshakeKeySchedule : Type := mkHandshakeKeys {
  hs_client_handshake_traffic_secret : bytes;
  hs_server_handshake_traffic_secret : bytes;
  hs_main_secret : bytes;
  hs_client_key : bytes;
  hs_client_iv : bytes;
  hs_server_key : bytes;
  hs_server_iv : bytes
}.

Record Tls13ApplicationKeySchedule : Type := mkApplicationKeys {
  ap_client_application_traffic_secret : bytes;
  ap_server_application_traffic_secret : bytes;
  ap_client_key : bytes;
  ap_client_iv : bytes;
  ap_server_key : bytes;
  ap_server_iv : bytes
}.

Definition derive_tls13_traffic_key_iv (traffic_secret : bytes) : res HkdfError (bytes * bytes) :=
  let? key := tls13_expand_label_array TLS_CHACHA20_POLY1305_KEY_SIZE traffic_secret (str "key") [] in
  let? iv := tls13_expand_label_array TLS_CHACHA20_POLY1305_IV_SIZE traffic_secret (str "iv") [] in
  Ok (key, iv).

Definition derive_tls13_application_key_schedule (main_secret server_finished_transcript_hash : bytes) : res HkdfError Tls13ApplicationKeySchedule :=
  let? client_application_traffic_secret :=
    tls13_expand_label_array TLS_SHA256_HASH_SIZE main_secret (str "c ap traffic") server_finished_transcript_hash in
  let? server_application_traffic_secret :=
    tls13_expand_label_array TLS_SHA256_HASH_SIZE main_secret (str "s ap traffic") server_finished_transcript_hash in
  let? (client_key, client_iv) := derive_tls13_traffic_key_iv client_application_traffic_secret in
  let? (server_key, server_iv) := derive_tls13_traffic_key_iv server_application_traffic_secret in
  Ok (mkApplicationKeys client_application_traffic_secret server_application_traffic_secret client_key client_iv server_key server_iv).

Definition derive_tls13_handshake_key_schedule (shared_secret hello_transcript_hash : bytes) : res HkdfError Tls13HandshakeKeySchedule :=
  let zero_secret := repeat x00 TLS_SHA256_HASH_SIZE in
  let? empty_hash := sha256 [] in
  let? early_secret := hkdf_extract_sha256 zero_secret zero_secret in
  let? derived_early_secret := tls13_expand_label_array TLS_SHA256_HASH_SIZE early_secret (str "derived") empty_hash in
  let? handshake_secret := hkdf_extract_sha256 derived_early_secret shared_secret in
  let? client_handshake_traffic_secret := tls13_expand_label_array TLS_SHA256_HASH_SIZE handshake_secret (str "c hs traffic") hello_transcript_hash in
  let? server_handshake_traffic_secret := tls13_expand_label_array TLS_SHA256_HASH_SIZE handshake_secret (str "s hs traffic") hello_transcript_hash in
  let? derived_handshake_secret := tls13_expand_label_array TLS_SHA256_HASH_SIZE handshake_secret (str "derived") empty_hash in
  let? main_secret := hkdf_extract_sha256 derived_handshake_secret zero_secret in
  let? (client_key, client_iv) := derive_tls13_traffic_key_iv client_handshake_traffic_secret in
  let? (server_key, server_iv) := derive_tls13_traffic_key_iv server_handshake_traffic_secret in
  Ok (mkHandshakeKeys client_handshake_traffic_secret server_handshake_traffic_secret main_secret client_key client_iv server_key server_iv).

(** ** Randomness *)
Class RandomDevice (OS : Type) : Type := {
  read_device : nat -> io OS io_error bytes;
  device_law : forall n s,
    match read_device n s with
    | (Ok bs, _) => length bs = n
    | (Err _, _) => True
    | ((Panic | Fuel), _) => False
    end
}.

Section device.
Context {OS : Type} `{RandomDevice OS}.

Definition fill_random (n : nat) : io OS io_error bytes := if (n =? 0)%nat then io_ret [] else read_device n.

(** The loop of [generate_ephemeral_p256_private_key]: [fuel] bounds the candidates that are drawn. *)
Fixpoint generate_ephemeral_p256_private_key (fuel : nat) : io OS io_error Scalar :=
  match fuel with
  | O => io_lift Fuel
  | S fuel' =>
      let! candidate_bytes := fill_random 32 in
      let! candidate := io_lift (from_be_bytes candidate_bytes) in
      if negb (bool_decide (candidate = ZERO)) && negb (uint_ge candidate P256_GROUP_ORDER) then io_lift (scalar_new candidate)
      else generate_ephemeral_p256_private_key fuel'
  end.
End device.

(** ** Negotiation *)
Record Tls13ServerHelloFlight : Type := mkHelloFlight {
  server_hello : bytes;
  flight_key_share : bytes;
  encrypted_extensions : bytes;
  encrypted_extensions_record : TlsCiphertextRecord;
  negotiated_alpn : option bytes;
  client_handshake_traffic_secret : bytes;
  server_handshake_traffic_secret : bytes;
  main_secret : bytes;
  transcript : TlsTranscript;
  handshake_record_protection : Tls13RecordProtection;
  server_authentication_started : bool
}.

Record Tls13HelloRetryFlight : Type := mkRetryFlight {
  hello_retry_request : bytes;
  retry_client_hello : ClientHello;
  retry_transcript : TlsTranscript
}.

Inductive Tls13ServerFirstFlight : Type :=
| ServerHello (flight : Tls13ServerHelloFlight)
| HelloRetry (flight : Tls13HelloRetryFlight).

Definition validate_tls13_server_client_hello (client_hello : ClientHello) : res TlsServerHandshakeError unit :=
  if negb (offers_chacha20_poly1305_sha256 client_hello) then Err UnsupportedCipherSuite
  else if negb (supports_secp256r1 client_hello) then Err UnsupportedGroup
  else if negb (supports_ecdsa_secp256r1_sha256 client_hello) then Err UnsupportedSignatureAlgorithm
  else Ok tt.

(** What a retried hello may change. *)
Definition may_change (extension_type : Z) : bool :=
  (extension_type =? EXTENSION_KEY_SHARE) || (extension_type =? EXTENSION_PADDING) || (extension_type =? EXTENSION_PRE_SHARED_KEY) ||
  (extension_type =? EXTENSION_EARLY_DATA).

Definition retry_invariant_extensions (client_hello : ClientHello) : list (Z * bytes) :=
  omap (fun '(extension_type, extension_data) => if may_change extension_type then None else Some (extension_type, extension_data))
    (raw_extensions client_hello).

Definition validate_retry_client_hello (original retry : ClientHello) : res TlsServerHandshakeError unit :=
  if negb (bytes_eqb (random original) (random retry)) || negb (bytes_eqb (legacy_session_id original) (legacy_session_id retry))
     || negb (bool_decide (cipher_suites original = cipher_suites retry)) then Err InvalidRetryClientHello
  else if negb (pre_shared_key_present original) && pre_shared_key_present retry then Err InvalidRetryClientHello
  else if has_extension retry EXTENSION_EARLY_DATA || has_extension retry EXTENSION_COOKIE then Err InvalidRetryClientHello
  else
    let? mismatch :=
      if negb (length (key_shares retry) =? 1)%nat then Ok true
      else let? share := index (key_shares retry) 0 in Ok (negb (group share =? TLS_GROUP_SECP256R1)) in
    if mismatch : bool then Err InvalidRetryKeyShare
    else if negb (bool_decide (retry_invariant_extensions original = retry_invariant_extensions retry)) then Err InvalidRetryClientHello
    else Ok tt.

(** What follows the drawing of the server's key and random bytes. *)
Definition build_hello_flight (client_hello_message : bytes) (client_hello : ClientHello) (transcript : TlsTranscript)
  (server_key_share shared_secret server_random : bytes) : res TlsServerHandshakeError Tls13ServerHelloFlight :=
  let? server_hello := build_tls13_server_hello client_hello server_random server_key_share in
  let? transcript := update_handshake_message transcript client_hello_message in
  let? transcript := update_handshake_message transcript server_hello in
  let? hello_transcript_hash := transcript_hash transcript in
  let? key_schedule := map_err KeySchedule (derive_tls13_handshake_key_schedule shared_secret hello_transcript_hash) in
  let protection := new_protection (hs_server_key key_schedule) (hs_server_iv key_schedule) (hs_client_key key_schedule) (hs_client_iv key_schedule) in
  let? (encrypted_extensions, negotiated_alpn) := build_tls13_encrypted_extensions client_hello in
  let? encrypted_extensions_plaintext := map_err RecordProtection (new_plaintext Handshake encrypted_extensions) in
  let '(encrypted, protection) := encrypt_record encrypted_extensions_plaintext 0 protection in
  let? encrypted_extensions_record := map_err RecordProtection encrypted in
  let? transcript := update_handshake_message transcript encrypted_extensions in
  Ok (mkHelloFlight server_hello server_key_share encrypted_extensions encrypted_extensions_record negotiated_alpn
        (hs_client_handshake_traffic_secret key_schedule) (hs_server_handshake_traffic_secret key_schedule) (hs_main_secret key_schedule)
        transcript protection false).

Section negotiation.
Context {OS : Type} `{RandomDevice OS}.

Definition negotiate_tls13_server_hello_from_client_hello (fuel : nat) (client_hello_message : bytes) (client_hello : ClientHello)
  (transcript : TlsTranscript) : io OS TlsServerHandshakeError Tls13ServerHelloFlight :=
  let! encoded_client_key_share := io_lift (ok_or (secp256r1_key_share client_hello) (HelloRetryRequired TLS_GROUP_SECP256R1)) in
  let! client_public_key := io_lift (map_err InvalidP256KeyShare (from_sec1_uncompressed encoded_client_key_share)) in
  let! server_private_key := io_map_err Random (generate_ephemeral_p256_private_key fuel) in
  let! server_public_key := io_lift (p256_generator_multiply server_private_key) in
  let! server_key_share := io_lift (map_err ServerPublicKey (to_sec1_uncompressed server_public_key)) in
  let! shared_secret := io_lift (map_err Ecdh (p256_ecdh server_private_key client_public_key)) in
  let! server_random := io_map_err Random (fill_random 32) in
  io_lift (build_hello_flight client_hello_message client_hello transcript server_key_share shared_secret server_random).

Definition negotiate_tls13_server_first_flight (fuel : nat) (client_hello_message : bytes) : io OS TlsServerHandshakeError Tls13ServerFirstFlight :=
  let! client_hello := io_lift (map_err ClientHello_error (parse_client_hello client_hello_message)) in
  let! _ := io_lift (validate_tls13_server_client_hello client_hello) in
  match secp256r1_key_share client_hello with
  | Some _ =>
      let! flight := negotiate_tls13_server_hello_from_client_hello fuel client_hello_message client_hello new_transcript in
      io_ret (ServerHello flight)
  | None =>
      io_lift (
        let? hello_retry_request := build_tls13_hello_retry_request client_hello in
        let? transcript := after_hello_retry client_hello_message hello_retry_request in
        Ok (HelloRetry (mkRetryFlight hello_retry_request client_hello transcript)))
  end.

Definition negotiate_tls13_server_hello (fuel : nat) (client_hello_message : bytes) : io OS TlsServerHandshakeError Tls13ServerHelloFlight :=
  let! client_hello := io_lift (map_err ClientHello_error (parse_client_hello client_hello_message)) in
  let! _ := io_lift (validate_tls13_server_client_hello client_hello) in
  negotiate_tls13_server_hello_from_client_hello fuel client_hello_message client_hello new_transcript.

Definition continue_with_client_hello (fuel : nat) (flight : Tls13HelloRetryFlight) (client_hello_message : bytes) :
  io OS TlsServerHandshakeError Tls13ServerHelloFlight :=
  let! client_hello := io_lift (map_err ClientHello_error (parse_client_hello client_hello_message)) in
  let! _ := io_lift (validate_tls13_server_client_hello client_hello) in
  let! _ := io_lift (validate_retry_client_hello (retry_client_hello flight) client_hello) in
  negotiate_tls13_server_hello_from_client_hello fuel client_hello_message client_hello (retry_transcript flight).
End negotiation.

(** ** Authentication of the server *)
Record Tls13ServerAuthenticationFlight : Type := mkAuthenticationFlight {
  certificate : bytes;
  certificate_records : list TlsCiphertextRecord;
  certificate_verify : bytes;
  certificate_verify_records : list TlsCiphertextRecord;
  finished : bytes;
  finished_records : list TlsCiphertextRecord
}.

(** One fragment of a message, and its record. *)
Definition encrypt_fragment (fragment : bytes) : io Tls13RecordProtection TlsServerHandshakeError TlsCiphertextRecord :=
  let! plaintext := io_lift (map_err RecordProtection (new_plaintext Handshake fragment)) in
  io_map_err RecordProtection (encrypt_record plaintext 0).

Definition encrypt_handshake_message_records (message : bytes) : io Tls13RecordProtection TlsServerHandshakeError (list TlsCiphertextRecord) :=
  io_mapM encrypt_fragment (chunks (Z.to_nat TLS_PLAINTEXT_FRAGMENT_LIMIT) message).

Definition set_protection (f : Tls13ServerHelloFlight) (p : Tls13RecordProtection) : Tls13ServerHelloFlight :=
  mkHelloFlight (server_hello f) (flight_key_share f) (encrypted_extensions f) (encrypted_extensions_record f) (negotiated_alpn f)
    (client_handshake_traffic_secret f) (server_handshake_traffic_secret f) (main_secret f) (transcript f) p (server_authentication_started f).
Definition set_transcript (f : Tls13ServerHelloFlight) (t : TlsTranscript) : Tls13ServerHelloFlight :=
  mkHelloFlight (server_hello f) (flight_key_share f) (encrypted_extensions f) (encrypted_extensions_record f) (negotiated_alpn f)
    (client_handshake_traffic_secret f) (server_handshake_traffic_secret f) (main_secret f) t (handshake_record_protection f)
    (server_authentication_started f).
Definition set_started (f : Tls13ServerHelloFlight) : Tls13ServerHelloFlight :=
  mkHelloFlight (server_hello f) (flight_key_share f) (encrypted_extensions f) (encrypted_extensions_record f) (negotiated_alpn f)
    (client_handshake_traffic_secret f) (server_handshake_traffic_secret f) (main_secret f) (transcript f) (handshake_record_protection f) true.

Definition on_protection {E A : Type} (m : io Tls13RecordProtection E A) : io Tls13ServerHelloFlight E A :=
  io_zoom handshake_record_protection (fun p f => set_protection f p) m.


Definition authenticate_server (fuel : nat) (certificate_chain : list bytes) (signing_key : Scalar) :
  io Tls13ServerHelloFlight TlsServerHandshakeError Tls13ServerAuthenticationFlight :=
  let! started := gets server_authentication_started in
  if started : bool then io_err AuthenticationAlreadyStarted
  else
    let! certificate := io_lift (build_tls13_certificate certificate_chain) in
    let! before := gets transcript in
    let! next_transcript := io_lift (update_handshake_message before certificate) in
    let! certificate_hash := io_lift (transcript_hash next_transcript) in
    let! certificate_verify := io_lift (build_tls13_server_certificate_verify fuel signing_key certificate_hash) in
    let! next_transcript := io_lift (update_handshake_message next_transcript certificate_verify) in
    let! verify_hash := io_lift (transcript_hash next_transcript) in
    let! secret := gets server_handshake_traffic_secret in
    let! finished := io_lift (build_tls13_finished secret verify_hash) in
    let! next_transcript := io_lift (update_handshake_message next_transcript finished) in
    let! _ := modify set_started in
    let! certificate_records := on_protection (encrypt_handshake_message_records certificate) in
    let! certificate_verify_records := on_protection (encrypt_handshake_message_records certificate_verify) in
    let! finished_records := on_protection (encrypt_handshake_message_records finished) in
    let! _ := modify (fun f => set_transcript f next_transcript) in
    io_ret (mkAuthenticationFlight certificate certificate_records certificate_verify certificate_verify_records finished finished_records).

(** ** The client's Finished *)
Definition finished_limit : nat := HANDSHAKE_HEADER_SIZE + TLS_SHA256_HASH_SIZE.

Definition finished_record (message : bytes) (record : TlsCiphertextRecord) : io Tls13RecordProtection TlsServerHandshakeError bytes :=
  let! plaintext := io_map_err RecordProtection (decrypt_record record) in
  if negb (bool_decide (content_type plaintext = Handshake)) then io_err (UnexpectedClientFinishedContentType (content_type plaintext))
  else
    let message := message ++ fragment plaintext in
    if (finished_limit <? length message)%nat then io_err InvalidClientFinished else io_ret message.

Fixpoint io_foldM {S E A T : Type} (f : T -> A -> io S E T) (t : T) (l : list A) : io S E T :=
  match l with
  | [] => io_ret t
  | a :: l' => let! t := f t a in io_foldM f t l'
  end.

Definition check_finished (message : bytes) : res TlsServerHandshakeError bytes :=
  if negb (length message =? finished_limit)%nat then Err InvalidClientFinished
  else
    let? message_type := index message 0 in
    if negb (byte_eqb message_type HANDSHAKE_TYPE_FINISHED) then Err InvalidClientFinished
    else
      let? declared := declared_length message in
      if negb (declared =? Z.of_nat TLS_SHA256_HASH_SIZE) then Err InvalidClientFinished else Ok message.

Definition decrypt_tls13_client_finished (records : list TlsCiphertextRecord) : io Tls13RecordProtection TlsServerHandshakeError bytes :=
  if bool_decide (records = []) then io_err InvalidClientFinished
  else
    let! message := io_foldM finished_record [] records in
    io_lift (check_finished message).

(** ** After the handshake *)
Inductive Tls13ApplicationEvent : Type :=
| ApplicationData_event (data : bytes)
| CloseNotify_event
| UserCanceled_event
| FatalAlert (description : TlsAlertDescription)
| IgnoredAfterCloseNotify.

Record Tls13ApplicationState : Type := mkApplicationState {
  app_negotiated_alpn : option bytes;
  client_application_traffic_secret : bytes;
  server_application_traffic_secret : bytes;
  app_transcript_hash : bytes;
  record_protection : Tls13RecordProtection;
  close_notify_sent : bool;
  close_notify_received : bool;
  failed : bool
}.

(** [self] is consumed: the flight is used up whether it succeeds or fails. *)
Definition complete_handshake (client_finished_records : list TlsCiphertextRecord) (self : Tls13ServerHelloFlight) :
  res TlsServerHandshakeError Tls13ApplicationState :=
  if negb (server_authentication_started self) then Err ServerAuthenticationRequired
  else
    let? server_finished_transcript_hash := transcript_hash (transcript self) in
    let? application_key_schedule := map_err KeySchedule (derive_tls13_application_key_schedule (main_secret self) server_finished_transcript_hash) in
    let? client_finished := (decrypt_tls13_client_finished client_finished_records (handshake_record_protection self)).1 in
    let? expected_verify_data :=
      map_err KeySchedule (tls13_finished_verify_data (client_handshake_traffic_secret self) server_finished_transcript_hash) in
    let? verify_data := slice_from client_finished HANDSHAKE_HEADER_SIZE in
    if negb (constant_time_eq verify_data expected_verify_data) then Err ClientFinishedMismatch
    else
      let? transcript := update_handshake_message (transcript self) client_finished in
      let? hash := transcript_hash transcript in
      Ok (mkApplicationState (negotiated_alpn self) (ap_client_application_traffic_secret application_key_schedule)
            (ap_server_application_traffic_secret application_key_schedule) hash
            (new_protection (ap_server_key application_key_schedule) (ap_server_iv application_key_schedule)
               (ap_client_key application_key_schedule) (ap_client_iv application_key_schedule)) false false false).

Definition set_record_protection (s : Tls13ApplicationState) (p : Tls13RecordProtection) : Tls13ApplicationState :=
  mkApplicationState (app_negotiated_alpn s) (client_application_traffic_secret s) (server_application_traffic_secret s) (app_transcript_hash s) p
    (close_notify_sent s) (close_notify_received s) (failed s).
Definition set_close_sent (s : Tls13ApplicationState) : Tls13ApplicationState :=
  mkApplicationState (app_negotiated_alpn s) (client_application_traffic_secret s) (server_application_traffic_secret s) (app_transcript_hash s)
    (record_protection s) true (close_notify_received s) (failed s).
Definition set_close_received (s : Tls13ApplicationState) : Tls13ApplicationState :=
  mkApplicationState (app_negotiated_alpn s) (client_application_traffic_secret s) (server_application_traffic_secret s) (app_transcript_hash s)
    (record_protection s) (close_notify_sent s) true (failed s).

(** [fail]: secrets and keys are wiped. *)
Definition fail (s : Tls13ApplicationState) : Tls13ApplicationState :=
  mkApplicationState (app_negotiated_alpn s) (repeat x00 (length (client_application_traffic_secret s)))
    (repeat x00 (length (server_application_traffic_secret s))) (app_transcript_hash s) (erase (record_protection s))
    (close_notify_sent s) (close_notify_received s) true.

Definition on_records {E A : Type} (m : io Tls13RecordProtection E A) : io Tls13ApplicationState E A :=
  io_zoom record_protection (fun p s => set_record_protection s p) m.

Definition encrypt_application_data_record (fragment : bytes) : io Tls13ApplicationState TlsRecordError TlsCiphertextRecord :=
  fun s =>
    if failed s then (Err ConnectionFailed, s)
    else if close_notify_sent s then (Err WriteAfterCloseNotify, s)
    else (let! plaintext := io_lift (new_plaintext ApplicationData fragment) in on_records (encrypt_record plaintext 0)) s.

Definition encrypt_close_notify : io Tls13ApplicationState TlsRecordError TlsCiphertextRecord :=
  fun s =>
    if failed s then (Err ConnectionFailed, s)
    else if close_notify_sent s then (Err CloseNotifyAlreadySent, s)
    else
      (let! plaintext := io_lift (alert_plaintext_record close_notify) in
       let! encrypted := on_records (encrypt_record plaintext 0) in
       let! _ := modify set_close_sent in
       io_ret encrypted) s.

Definition encrypt_fatal_alert (description : TlsAlertDescription) : io Tls13ApplicationState TlsRecordError TlsCiphertextRecord :=
  fun s =>
    if failed s then (Err ConnectionFailed, s)
    else
      (let! alert := io_lift (fatal description) in
       let! plaintext := io_lift (alert_plaintext_record alert) in
       let! encrypted := on_records (encrypt_record plaintext 0) in
       let! _ := modify fail in
       io_ret encrypted) s.

Definition receive_protected_record (record : TlsCiphertextRecord) : io Tls13ApplicationState TlsRecordError Tls13ApplicationEvent :=
  fun s =>
    if failed s then (Err ConnectionFailed, s)
    else
      (let! plaintext := on_records (decrypt_record record) in
       let! received := gets close_notify_received in
       if received : bool then io_ret IgnoredAfterCloseNotify
       else
         match content_type plaintext with
         | ApplicationData => io_ret (ApplicationData_event (fragment plaintext))
         | Alert =>
             let! alert := io_lift (parse_alert (fragment plaintext)) in
             match description alert with
             | CloseNotify => let! _ := modify set_close_received in io_ret CloseNotify_event
             | UserCanceled => io_ret UserCanceled_event
             | description => let! _ := modify fail in io_ret (FatalAlert description)
             end
         | other => io_err (UnexpectedProtectedContentType other)
         end) s.

Definition decrypt_protected_record (record : TlsCiphertextRecord) : io Tls13ApplicationState TlsRecordError TlsPlaintextRecord :=
  fun s => if failed s then (Err ConnectionFailed, s) else on_records (decrypt_record record) s.

(** ** The client *)
Record Tls13ClientHelloFlight : Type := mkClientFlight { client_hello_message : bytes; client_private_key : Scalar; client_transcript : TlsTranscript }.

Record Tls13ClientHandshakeState : Type := mkClientState {
  client_hs_client_secret : bytes;
  client_hs_server_secret : bytes;
  client_main_secret : bytes;
  client_hs_transcript : TlsTranscript;
  client_record_protection : Tls13RecordProtection
}.

Section client.
Context {OS : Type} `{RandomDevice OS}.

Definition new_client_flight (fuel : nat) (server_name : bytes) : io OS TlsClientHandshakeError Tls13ClientHelloFlight :=
  if negb (is_valid_server_name server_name) then io_err (ClientHello_build InvalidServerName_build)
  else
    let! random := io_map_err Random_client (fill_random 32) in
    let! private_key := io_map_err Random_client (generate_ephemeral_p256_private_key fuel) in
    io_lift (
      let? client_hello := map_err ClientHello_build (build_tls13_client_hello server_name random private_key) in
      let? transcript := update_handshake_message new_transcript client_hello in
      Ok (mkClientFlight client_hello private_key transcript)).
End client.

Definition receive_server_hello (server_hello_message : bytes) (self : Tls13ClientHelloFlight) : res TlsClientHandshakeError Tls13ClientHandshakeState :=
  let? server_hello := parse_tls13_server_hello server_hello_message in
  if negb (bool_decide (legacy_session_id_echo server_hello = [])) then Err LegacySessionIdMismatch
  else
    let? server_public_key := map_err InvalidServerKeyShare (from_sec1_uncompressed (server_key_share server_hello)) in
    let? shared_secret := map_err Ecdh_client (p256_ecdh (client_private_key self) server_public_key) in
    let? transcript := update_handshake_message (client_transcript self) server_hello_message in
    let? hello_transcript_hash := transcript_hash transcript in
    let? key_schedule := map_err KeySchedule_client (derive_tls13_handshake_key_schedule shared_secret hello_transcript_hash) in
    Ok (mkClientState (hs_client_handshake_traffic_secret key_schedule) (hs_server_handshake_traffic_secret key_schedule)
          (hs_main_secret key_schedule) transcript
          (new_protection (hs_client_key key_schedule) (hs_client_iv key_schedule) (hs_server_key key_schedule) (hs_server_iv key_schedule))).

Definition decrypt_server_handshake_record (record : TlsCiphertextRecord) : io Tls13ClientHandshakeState TlsClientHandshakeError TlsPlaintextRecord :=
  let! plaintext :=
    io_map_err RecordProtection_client
      (io_zoom client_record_protection
         (fun p s => mkClientState (client_hs_client_secret s) (client_hs_server_secret s) (client_main_secret s) (client_hs_transcript s) p)
         (decrypt_record record)) in
  if negb (bool_decide (content_type plaintext = Handshake)) then io_err (UnexpectedProtectedContentType_client (content_type plaintext))
  else io_ret plaintext.

(** ** The transcript is the hash of the messages *)
Definition limit : Z := u64_max / 8.

(** What has been absorbed does not depend on the error type. *)
Lemma absorbed_any {E F : Type} (t : Sha256) (m : bytes) : absorbed (E := E) t m -> absorbed (E := F) t m.
Proof.
  intros [H ? ? ? ? ?]. split; try done.
  destruct (compress_blocks_Ok (E := Empty_set) SHA256_INITIAL_STATE (Sha256.blocks m)) as (st & Hst & _); [done|apply (chunks_exact_spec 64); lia|].
  assert (Hany : forall G, res_foldM compress_block SHA256_INITIAL_STATE (Sha256.blocks m) = Ok st :> res G _).
  { intros G. rewrite <- (map_err_foldM (fun e : Empty_set => match e with end : G) compress_block compress_block) by apply compress_block_err. by rewrite Hst. }
  rewrite (Hany E) in H. apply Ok_inj in H as <-. apply Hany.
Qed.

(** The transcript has absorbed the messages. *)
Definition hears (t : TlsTranscript) (messages : list bytes) : Prop := absorbed (E := Empty_set) t (concat messages).

Lemma hears_new : hears new_transcript [].
Proof. apply absorbed_new. Qed.

Lemma update_hears {E : Type} (t : TlsTranscript) (messages : list bytes) (m : bytes) : hears t messages -> len (concat messages) + len m <= limit ->
  exists t', update_handshake_message t m = Ok t' :> res E _ /\ hears t' (messages ++ [m]).
Proof.
  intros H Hl. apply (absorbed_any (F := E)) in H. destruct (update_spec t _ m H Hl) as (t' & Ht & H'). exists t'. split; [exact Ht|].
  apply (absorbed_any (F := Empty_set)) in H'. unfold hears. by rewrite concat_app, concat_cons, app_nil_r.
Qed.

Lemma hash_hears {E : Type} (t : TlsTranscript) (messages : list bytes) : hears t messages -> len (concat messages) <= limit ->
  transcript_hash t = Ok (hash (concat messages)) :> res E _.
Proof. intros H Hl. apply (absorbed_any (F := E)) in H. unfold transcript_hash. by rewrite (finalize_spec t _ H Hl), digest_hash. Qed.

Lemma sha256_hash {E : Type} (m : bytes) : len m <= limit -> sha256 m = Ok (hash m) :> res E _.
Proof. intros Hl. by rewrite (sha256_spec m Hl), digest_hash. Qed.

(** ** The key schedule *)
(** RFC 8446, 7.1: HKDF-Expand-Label, for at most one block of output. *)
Definition derived (n : nat) (secret label context : bytes) : bytes := take n (hmac secret (hkdf_label (Z.of_nat n) label context ++ [x01])).

Definition label_ok (label : bytes) : Prop := label <> [] /\ len label <= 20.

Lemma expand_Ok (n : nat) (secret label context : bytes) : length secret = 32%nat -> label_ok label -> len context <= 32 -> (n <= 32)%nat ->
  tls13_expand_label_array n secret label context = Ok (derived n secret label context) /\ length (derived n secret label context) = n.
Proof.
  intros Hs [Hne Hl] Hc Hn. assert (Hd : length (derived n secret label context) = n) by (unfold derived; rewrite length_take, length_hmac; lia).
  split; [|exact Hd]. unfold tls13_expand_label_array, tls13_hkdf_expand_label_sha256. rewrite (proj2 (Z.ltb_ge _ _)) by (unfold HKDF_MAX_OUTPUT_SIZE; lia).
  rewrite build_label_spec; [|unfold u16_max; lia|done|change TLS13_MAX_LABEL_SIZE with 249; lia|change TLS13_MAX_CONTEXT_SIZE with 255; lia].
  cbn [res_bind]. assert (Hls : len secret = 32) by (unfold len; lia). pose proof (len_hkdf_label label context (Z.of_nat n)) as Hi.
  rewrite hkdf_expand_spec by (rewrite ?Hls, ?Hi; change (u64_max / 8) with 2305843009213693951; lia). rewrite Hls. change (32 <? 32) with false. cbv iota.
  rewrite (proj2 (Z.ltb_ge _ _)) by (unfold HKDF_MAX_OUTPUT_SIZE; lia). cbn [res_bind]. rewrite Nat2Z.id.
  assert (He : take n (hkdf_okm secret (hkdf_label (Z.of_nat n) label context) (Z.to_nat (div_ceil (Z.of_nat n) 32))) = derived n secret label context).
  { destruct n as [|n]; [done|]. unfold div_ceil. replace ((Z.of_nat (S n) + 32 - 1) / 32) with 1 by (apply (Z.div_unique _ _ _ (Z.of_nat n)); lia).
    unfold hkdf_okm. change (seq 1 (Z.to_nat 1)) with [1%nat]. cbn [map concat hkdf_t]. by rewrite app_nil_r. }
  rewrite He. unfold to_array. by rewrite Hd, Nat.eqb_refl.
Qed.

(** The hashes are not computed in a proof. *)
#[local] Opaque hash hmac derived.

Lemma extract_Ok {E : Type} (salt ikm : bytes) : length salt = 32%nat -> length ikm = 32%nat -> hkdf_extract_sha256 salt ikm = Ok (hmac salt ikm) :> res E _.
Proof.
  intros Hs Hi. unfold hkdf_extract_sha256, hmac_sha256. rewrite hmac_spec; [cbn [concat]; by rewrite app_nil_r|unfold len; rewrite Hs; change (u64_max / 8) with 2305843009213693951; lia|].
  cbn [concat]. rewrite app_nil_r. unfold len. rewrite Hi. change (u64_max / 8) with 2305843009213693951. lia.
Qed.

(** The labels of the key schedule are in bounds. *)
Ltac label_side := solve [apply length_hmac | assumption | apply repeat_length | split; [discriminate|vm_compute; discriminate] | unfold len; rewrite ?length_hash; cbn [length]; lia | lia].

Definition zero_secret : bytes := repeat x00 32.
Definition early_derived : bytes := derived 32 (hmac zero_secret zero_secret) (str "derived") (hash []).
Definition handshake_secret (shared_secret : bytes) : bytes := hmac early_derived shared_secret.
Definition client_hs_secret (shared_secret hello_hash : bytes) : bytes := derived 32 (handshake_secret shared_secret) (str "c hs traffic") hello_hash.
Definition server_hs_secret (shared_secret hello_hash : bytes) : bytes := derived 32 (handshake_secret shared_secret) (str "s hs traffic") hello_hash.
Definition main_secret_of (shared_secret : bytes) : bytes := hmac (derived 32 (handshake_secret shared_secret) (str "derived") (hash [])) zero_secret.
Definition key_of (secret : bytes) : bytes := derived 32 secret (str "key") [].
Definition iv_of (secret : bytes) : bytes := derived 12 secret (str "iv") [].

(** The schedule of a shared secret and the hash of the hellos. *)
Definition handshake_keys (shared_secret hello_hash : bytes) : Tls13HandshakeKeySchedule :=
  let c := client_hs_secret shared_secret hello_hash in
  let s := server_hs_secret shared_secret hello_hash in
  mkHandshakeKeys c s (main_secret_of shared_secret) (key_of c) (iv_of c) (key_of s) (iv_of s).

Lemma traffic_keys (secret : bytes) : length secret = 32%nat ->
  derive_tls13_traffic_key_iv secret = Ok (key_of secret, iv_of secret) /\ length (key_of secret) = 32%nat /\ length (iv_of secret) = 12%nat.
Proof.
  intros Hs. unfold derive_tls13_traffic_key_iv, key_of, iv_of. change TLS_CHACHA20_POLY1305_KEY_SIZE with 32%nat. change TLS_CHACHA20_POLY1305_IV_SIZE with 12%nat.
  destruct (expand_Ok 32 secret (str "key") []) as [-> Hk]; [label_side..|]. destruct (expand_Ok 12 secret (str "iv") []) as [-> Hi]; [label_side..|]. done.
Qed.

Lemma length_early_derived : length early_derived = 32%nat.
Proof. unfold early_derived. apply expand_Ok; label_side. Qed.

Lemma length_hs_secrets (shared_secret hello_hash : bytes) : length hello_hash = 32%nat ->
  length (client_hs_secret shared_secret hello_hash) = 32%nat /\ length (server_hs_secret shared_secret hello_hash) = 32%nat.
Proof. intros Hh. split; apply expand_Ok; label_side. Qed.

Lemma handshake_schedule_Ok (shared_secret hello_hash : bytes) : length shared_secret = 32%nat -> length hello_hash = 32%nat ->
  derive_tls13_handshake_key_schedule shared_secret hello_hash = Ok (handshake_keys shared_secret hello_hash).
Proof.
  intros Hss Hh. pose proof length_early_derived as He. destruct (length_hs_secrets shared_secret hello_hash Hh) as [Hc Hs].
  unfold derive_tls13_handshake_key_schedule, handshake_keys, client_hs_secret, server_hs_secret, main_secret_of, handshake_secret in *.
  change TLS_SHA256_HASH_SIZE with 32%nat. change (repeat x00 32) with zero_secret. assert (Hz : length zero_secret = 32%nat) by apply repeat_length.
  rewrite sha256_hash by (vm_compute; discriminate). cbn [res_bind]. rewrite extract_Ok by assumption. cbn [res_bind].
  unfold early_derived in *. revert He Hc Hs. generalize (hmac zero_secret zero_secret) (length_hmac zero_secret zero_secret). intros early Hearly He Hc Hs.
  destruct (expand_Ok 32 early (str "derived") (hash [])) as [-> _]; [label_side..|]. cbn [res_bind].
  revert He Hc Hs. generalize (derived 32 early (str "derived") (hash [])). intros salt He Hc Hs. rewrite extract_Ok by assumption. cbn [res_bind].
  revert Hc Hs. generalize (hmac salt shared_secret) (length_hmac salt shared_secret). intros secret Hsecret Hc Hs.
  destruct (expand_Ok 32 secret (str "c hs traffic") hello_hash) as [-> _]; [label_side..|]. cbn [res_bind].
  destruct (expand_Ok 32 secret (str "s hs traffic") hello_hash) as [-> _]; [label_side..|]. cbn [res_bind].
  destruct (expand_Ok 32 secret (str "derived") (hash [])) as [-> Hd]; [label_side..|]. cbn [res_bind]. rewrite extract_Ok by assumption. cbn [res_bind].
  destruct (traffic_keys _ Hc) as (-> & _). cbn [res_bind]. destruct (traffic_keys _ Hs) as (-> & _). reflexivity.
Qed.

Definition client_ap_secret (main_secret finished_hash : bytes) : bytes := derived 32 main_secret (str "c ap traffic") finished_hash.
Definition server_ap_secret (main_secret finished_hash : bytes) : bytes := derived 32 main_secret (str "s ap traffic") finished_hash.

Definition application_keys (main_secret finished_hash : bytes) : Tls13ApplicationKeySchedule :=
  let c := client_ap_secret main_secret finished_hash in
  let s := server_ap_secret main_secret finished_hash in
  mkApplicationKeys c s (key_of c) (iv_of c) (key_of s) (iv_of s).

Lemma application_schedule_Ok (main_secret finished_hash : bytes) : length main_secret = 32%nat -> length finished_hash = 32%nat ->
  derive_tls13_application_key_schedule main_secret finished_hash = Ok (application_keys main_secret finished_hash).
Proof.
  intros Hm Hh. unfold derive_tls13_application_key_schedule. change TLS_SHA256_HASH_SIZE with 32%nat.
  destruct (expand_Ok 32 main_secret (str "c ap traffic") finished_hash) as [-> Hc]; [label_side..|]. cbn [res_bind].
  destruct (expand_Ok 32 main_secret (str "s ap traffic") finished_hash) as [-> Hs]; [label_side..|]. cbn [res_bind].
  destruct (traffic_keys _ Hc) as (-> & _). cbn [res_bind]. destruct (traffic_keys _ Hs) as (-> & _). done.
Qed.

(** The MAC of a Finished message. *)
Definition verify_data (traffic_secret transcript_hash : bytes) : bytes := hmac (derived 32 traffic_secret (str "finished") []) transcript_hash.
Definition finished_message (traffic_secret transcript_hash : bytes) : bytes :=
  handshake_message HANDSHAKE_TYPE_FINISHED (verify_data traffic_secret transcript_hash).

Lemma verify_data_Ok (secret th : bytes) : length secret = 32%nat -> length th = 32%nat ->
  tls13_finished_verify_data secret th = Ok (verify_data secret th) /\ length (verify_data secret th) = 32%nat.
Proof.
  intros Hs Ht. split; [|apply length_hmac]. unfold tls13_finished_verify_data. destruct (expand_Ok 32 secret (str "finished") []) as [-> Hl]; [label_side..|].
  cbn [res_bind]. by apply extract_Ok.
Qed.

Lemma build_finished_Ok (secret th : bytes) : length secret = 32%nat -> length th = 32%nat -> build_tls13_finished secret th = Ok (finished_message secret th).
Proof.
  intros Hs Ht. unfold build_tls13_finished. destruct (verify_data_Ok secret th Hs Ht) as [-> Hl]. cbn [map_err res_bind].
  rewrite encode_handshake_message_spec, decide_True; [done|]. unfold len, TLS_UINT24_MAX. lia.
Qed.

(** ** Drawing a private key *)
Section drawing.
Context {OS : Type} `{RandomDevice OS}.

Lemma fill_random_law (n : nat) (s : OS) :
  match fill_random n s with
  | (Ok bs, _) => length bs = n
  | (Err _, _) => True
  | ((Panic | Fuel), _) => False
  end.
Proof. unfold fill_random. destruct (Nat.eqb_spec n 0) as [->|]; [done|]. apply device_law. Qed.

Definition out_of_range (candidate : bytes) : Prop := be_value 0 candidate = 0 \/ group_order <= be_value 0 candidate.

(** So many candidates, one after the other. *)
Definition draws (n : nat) : io OS io_error (list bytes) := io_mapM fill_random (repeat 32%nat n).

Lemma candidate_value (c : bytes) : length c = 32%nat -> value (limbs_of 4 (be_value 0 c)) = be_value 0 c.
Proof. intros Hc. apply value_limbs_of_small. pose proof (be_value_range c) as Hr. unfold len in Hr. by rewrite Hc in Hr. Qed.

Lemma draws_S (n : nat) (s s1 : OS) (c : bytes) : fill_random 32 s = (Ok c, s1) ->
  draws (S n) s = (let! cs := draws n in io_ret (c :: cs)) s1.
Proof. intros H1. unfold draws. cbn [repeat io_mapM]. unfold io_bind at 1. by rewrite H1. Qed.

(** Which candidates the loop takes. *)
Lemma generate_turn (fuel : nat) (s s1 : OS) (c : bytes) : fill_random 32 s = (Ok c, s1) -> length c = 32%nat ->
  generate_ephemeral_p256_private_key (S fuel) s =
    if decide (out_of_range c) then generate_ephemeral_p256_private_key fuel s1 else (Ok (limbs_of 4 (be_value 0 c)), s1).
Proof.
  intros Hf Hc. cbn [generate_ephemeral_p256_private_key]. unfold io_bind at 1. rewrite Hf. unfold io_bind at 1, io_lift at 1. rewrite from_be_bytes_spec by done.
  set (d := limbs_of 4 (be_value 0 c)). assert (Hd : limbs_ok 4 d) by apply limbs_of_ok. assert (Hv : value d = be_value 0 c) by (by apply candidate_value).
  rewrite (bool_decide_ext _ _ (zero_iff d Hd)), uint_ge_spec by (done || apply order_ok). rewrite order_value, Hv. unfold out_of_range.
  case_bool_decide as H0; [by rewrite decide_True by (by left)|]. destruct (Z.leb_spec group_order (be_value 0 c)); [by rewrite decide_True by (by right)|].
  rewrite decide_False by lia. cbn [negb andb]. unfold io_lift. rewrite scalar_new_enc by done. f_equal. f_equal. symmetry.
  apply (enc_of group_order P256_GROUP_ORDER order_value d Hd). lia.
Qed.

Lemma generate_spec (fuel : nat) (s : OS) :
  match generate_ephemeral_p256_private_key fuel s with
  | (Ok d, s') => exists rejected c, (length rejected < fuel)%nat /\ draws (S (length rejected)) s = (Ok (rejected ++ [c]), s') /\
      Forall out_of_range rejected /\ ~ out_of_range c /\ limbs_ok 4 d /\ value d = be_value 0 c
  | (Err e, s') => draws fuel s = (Err e, s')
  | (Fuel, s') => exists rejected, draws fuel s = (Ok rejected, s') /\ Forall out_of_range rejected
  | (Panic, _) => False
  end.
Proof.
  revert s. induction fuel as [|fuel IH]; intros s; [exists []; split; [done|by apply Forall_nil]|].
  pose proof (fill_random_law 32 s) as Hr. destruct (fill_random 32 s) as [[c|e| |] s1] eqn:Ec; try done.
  2: { cbn [generate_ephemeral_p256_private_key]. unfold draws. cbn [repeat io_mapM]. unfold io_bind. by rewrite Ec. }
  rewrite (generate_turn fuel s s1 c Ec Hr). case_decide as Hc.
  - specialize (IH s1). pose proof (fun n => draws_S n s s1 c Ec) as Hdraws.
    destruct (generate_ephemeral_p256_private_key fuel s1) as [[d|e| |] s2]; try done.
    + destruct IH as (rejected & c' & Hl & Hd & Hall & Hrest). exists (c :: rejected), c'. cbn [length app]. rewrite Hdraws. unfold io_bind. rewrite Hd.
      split; [lia|]. split; [done|]. split; [by apply Forall_cons|done].
    + rewrite Hdraws. unfold io_bind. by rewrite IH.
    + destruct IH as (rejected & Hd & Hall). exists (c :: rejected). rewrite Hdraws. unfold io_bind. rewrite Hd. split; [done|by apply Forall_cons].
  - exists [], c. split_and!; [cbn; lia|exact (draws_S 0 s s1 c Ec)|by apply Forall_nil|done|apply limbs_of_ok|by apply candidate_value].
Qed.

Lemma draws_inv (n : nat) (s s' : OS) (c : bytes) (cs : list bytes) : draws (S n) s = (Ok (c :: cs), s') ->
  exists s1, fill_random 32 s = (Ok c, s1) /\ length c = 32%nat /\ draws n s1 = (Ok cs, s').
Proof.
  unfold draws. cbn [repeat io_mapM]. unfold io_bind. pose proof (fill_random_law 32 s) as Hl. destruct (fill_random 32 s) as [[c1|e| |] s1]; try done.
  destruct (io_mapM fill_random (repeat 32%nat n) s1) as [[cs1|e| |] s2] eqn:Ed; try done. intros [= -> -> ->]. by exists s1.
Qed.

Lemma generate_complete (fuel : nat) (s s' : OS) (rejected : list bytes) (c : bytes) : draws (S (length rejected)) s = (Ok (rejected ++ [c]), s') ->
  Forall out_of_range rejected -> ~ out_of_range c -> (length rejected < fuel)%nat ->
  generate_ephemeral_p256_private_key fuel s = (Ok (limbs_of 4 (be_value 0 c)), s').
Proof.
  intros Hd Hall Hc. revert fuel s Hd. induction Hall as [|r rejected Hr Hall IH]; intros [|fuel] s Hd Hl; cbn [length app] in *; try lia.
  - apply draws_inv in Hd as (s1 & Hf & Hlen & Hd). injection Hd as <-. by rewrite (generate_turn fuel s s1 c Hf Hlen), decide_False.
  - apply draws_inv in Hd as (s1 & Hf & Hlen & Hd). rewrite (generate_turn fuel s s1 r Hf Hlen), decide_True by done. apply IH; [done|lia].
Qed.

(** C31: the loop that draws a private key ends: it takes the first candidate of the device from 1 to the order less
    one as soon as the fuel covers the candidates before it, and draws no further; it ends early only
    with the device's error; out of fuel means that every candidate drawn was out of range. *)
Theorem private_key_drawn (fuel : nat) (s : OS) :
  match generate_ephemeral_p256_private_key fuel s with
  | (Ok d, s') => exists rejected c, (length rejected < fuel)%nat /\ draws (S (length rejected)) s = (Ok (rejected ++ [c]), s') /\
      Forall out_of_range rejected /\ ~ out_of_range c /\ limbs_ok 4 d /\ value d = be_value 0 c
  | (Err e, s') => draws fuel s = (Err e, s')
  | (Fuel, s') => exists rejected, draws fuel s = (Ok rejected, s') /\ Forall out_of_range rejected
  | (Panic, _) => False
  end /\
  (forall rejected c s', draws (S (length rejected)) s = (Ok (rejected ++ [c]), s') -> Forall out_of_range rejected -> ~ out_of_range c ->
     (length rejected < fuel)%nat -> exists d, generate_ephemeral_p256_private_key fuel s = (Ok d, s') /\ value d = be_value 0 c).
Proof.
  split; [apply generate_spec|]. intros rejected c s' Hd Hall Hc Hl. exists (limbs_of 4 (be_value 0 c)). split; [by apply (generate_complete fuel s s' rejected)|].
  assert (length c = 32%nat) as Hlen; [|by apply candidate_value]. clear Hall Hc Hl fuel. revert s Hd. induction rejected as [|r rejected IH]; intros s Hd; cbn [length app] in Hd;
    apply draws_inv in Hd as (s1 & _ & Hr & Hd); [done|by apply (IH s1)].
Qed.
End drawing.

(** A device that plays back a stream of bytes and then fails. *)
#[export, refine] Instance playback : RandomDevice bytes := {
  read_device n s := if (length s <? n)%nat then (Err (mkIoError UnexpectedEof (str "failed to fill whole buffer")), s) else (Ok (take n s), drop n s)
}.
Proof. intros n s. destruct (Nat.ltb_spec (length s) n); [done|]. rewrite length_take. lia. Defined.

Example private_key_second_draw :
  generate_ephemeral_p256_private_key (OS := bytes) 2 (repeat x00 32 ++ repeat x00 31 ++ [x05]) = (Ok (limbs_of 4 5), []).
Proof. vm_compute. reflexivity. Qed.
