(* ===== verification/TlsApplication.v ===== *)
(** * After the handshake: the application state of [src/tls.rs]

    An abstract machine of three flags says what RFC 8446, 6 allows: data until the sender closes,
    nothing after a fatal alert. [Tls13ApplicationState] refines it, and its traces are safe. *)
From Stdlib Require Import ZArith Lia.
From stdpp Require Import prelude.
From S2P Require Import Prelude Bytes Io TlsRecord TlsMessages TlsHello TlsHandshake.
Local Open Scope Z_scope.
Set Warnings "-clear-no-such-hyp".

(** ** The methods as one alphabet *)
Inductive operation : Type :=
| SendData (data : bytes)
| SendClose
| SendFatal (description : TlsAlertDescription)
| Receive (record : TlsCiphertextRecord)
| Open (record : TlsCiphertextRecord).

Inductive output : Type :=
| Sealed (record : TlsCiphertextRecord)
| Event (event : Tls13ApplicationEvent)
| Opened (record : TlsPlaintextRecord).

Definition io_fmap {S E A B : Type} (f : A -> B) (m : io S E A) : io S E B := let! a := m in io_ret (f a).

Definition perform (op : operation) : io Tls13ApplicationState TlsRecordError output :=
  match op with
  | SendData data => io_fmap Sealed (encrypt_application_data_record data)
  | SendClose => io_fmap Sealed encrypt_close_notify
  | SendFatal description => io_fmap Sealed (encrypt_fatal_alert description)
  | Receive record => io_fmap Event (receive_protected_record record)
  | Open record => io_fmap Opened (decrypt_protected_record record)
  end.

(** One operation after the other, whatever their outcomes. *)
Fixpoint perform_all (ops : list operation) (s : Tls13ApplicationState) : list (res TlsRecordError output) * Tls13ApplicationState :=
  match ops with
  | [] => ([], s)
  | op :: ops' =>
      let '(o, s1) := perform op s in
      let '(os, s2) := perform_all ops' s1 in
      (o :: os, s2)
  end.

(** ** The abstract machine *)
Record flags : Type := mkFlags { down : bool; closed_out : bool; closed_in : bool }.

Definition flags_of (s : Tls13ApplicationState) : flags := mkFlags (failed s) (close_notify_sent s) (close_notify_received s).

(** What may happen: a failed connection refuses everything; a refused operation changes nothing; data
    and the close go out only before the close, data and alerts come in only before the peer's close. *)
Inductive transition : flags -> operation -> res TlsRecordError output -> flags -> Prop :=
| t_down out inn op : transition (mkFlags true out inn) op (Err ConnectionFailed) (mkFlags true out inn)
| t_refused out inn op e : transition (mkFlags false out inn) op (Err e) (mkFlags false out inn)
| t_data inn data r : transition (mkFlags false false inn) (SendData data) (Ok (Sealed r)) (mkFlags false false inn)
| t_close inn r : transition (mkFlags false false inn) SendClose (Ok (Sealed r)) (mkFlags false true inn)
| t_fatal out inn d r : is_closure d = false -> transition (mkFlags false out inn) (SendFatal d) (Ok (Sealed r)) (mkFlags true out inn)
| t_receive out r data : transition (mkFlags false out false) (Receive r) (Ok (Event (ApplicationData_event data))) (mkFlags false out false)
| t_cancel out r : transition (mkFlags false out false) (Receive r) (Ok (Event UserCanceled_event)) (mkFlags false out false)
| t_peer_close out r : transition (mkFlags false out false) (Receive r) (Ok (Event CloseNotify_event)) (mkFlags false out true)
| t_peer_fatal out r d : is_closure d = false -> transition (mkFlags false out false) (Receive r) (Ok (Event (FatalAlert d))) (mkFlags true out false)
| t_ignored out r : transition (mkFlags false out true) (Receive r) (Ok (Event IgnoredAfterCloseNotify)) (mkFlags false out true)
| t_open out inn r p : transition (mkFlags false out inn) (Open r) (Ok (Opened p)) (mkFlags false out inn).

Inductive trace : flags -> list operation -> list (res TlsRecordError output) -> flags -> Prop :=
| trace_nil f : trace f [] [] f
| trace_cons f f1 f2 op o ops os : transition f op o f1 -> trace f1 ops os f2 -> trace f (op :: ops) (o :: os) f2.

(** ** The state *)
Definition wiped (s : Tls13ApplicationState) : Prop :=
  record_protection s = mkProtection (repeat x00 32) (repeat x00 12) (repeat x00 32) (repeat x00 12) None None /\
  client_application_traffic_secret s = repeat x00 32 /\ server_application_traffic_secret s = repeat x00 32.

Record state_ok (s : Tls13ApplicationState) : Prop := {
  state_protection : protection_ok (record_protection s);
  state_client_secret : length (client_application_traffic_secret s) = 32%nat;
  state_server_secret : length (server_application_traffic_secret s) = 32%nat;
  state_wiped : failed s = true -> wiped s
}.

Lemma erase_ok (p : Tls13RecordProtection) : protection_ok p -> protection_ok (erase p).
Proof. intros []. by split; cbn; rewrite repeat_length. Qed.

Lemma fail_ok (s : Tls13ApplicationState) : state_ok s -> state_ok (fail s).
Proof.
  intros [[K1 V1 K2 V2] Hc Hs Hw]. split; cbn; rewrite ?repeat_length; [by split; cbn; rewrite repeat_length|done..|].
  intros _. unfold wiped. cbn. unfold erase. by rewrite Hc, Hs, K1, V1, K2, V2.
Qed.

Lemma set_protection_ok (s : Tls13ApplicationState) (p : Tls13RecordProtection) : failed s = false -> state_ok s -> protection_ok p ->
  state_ok (set_record_protection s p).
Proof. intros Hf [Hp Hc Hs Hw] H. split; cbn; try done. by rewrite Hf. Qed.

Lemma close_sent_ok (s : Tls13ApplicationState) : state_ok s -> state_ok (set_close_sent s).
Proof. intros []. by split. Qed.
Lemma close_received_ok (s : Tls13ApplicationState) : state_ok s -> state_ok (set_close_received s).
Proof. intros []. by split. Qed.

#[local] Hint Resolve fail_ok set_protection_ok close_sent_ok close_received_ok set_write_ok set_read_ok state_protection : core.

(** ** Every operation refines the machine *)
Lemma set_record_protection_same (s : Tls13ApplicationState) : set_record_protection s (record_protection s) = s.
Proof. by destruct s. Qed.

Lemma wp_on_records {E A : Type} (m : io Tls13RecordProtection E A) (s : Tls13ApplicationState) Q X :
  wp m (record_protection s) (fun a p => Q a (set_record_protection s p)) (fun e p => X e (set_record_protection s p)) -> wp (on_records m) s Q X.
Proof. unfold wp, on_records, io_zoom. by destruct (m (record_protection s)) as [[]]. Qed.

Lemma wp_seal (r : TlsPlaintextRecord) (s : Tls13ApplicationState) Q X : state_ok s ->
  (forall c p, protection_ok p -> Q c (set_record_protection s p)) -> (forall e, X e s) -> wp (on_records (encrypt_record r 0)) s Q X.
Proof.
  intros Hs HQ HX. apply wp_on_records. unfold wp. pose proof (encrypt_record_total r 0 (record_protection s) (state_protection s Hs) ltac:(done)) as H.
  destruct (encrypt_record r 0 (record_protection s)) as [[c|e| |] p]; try done; [destruct H as (k & _ & ->); auto|subst p; by rewrite set_record_protection_same].
Qed.

Lemma wp_open (r : TlsCiphertextRecord) (s : Tls13ApplicationState) Q X : state_ok s ->
  (forall c p, protection_ok p -> Q c (set_record_protection s p)) -> (forall e, X e s) -> wp (on_records (decrypt_record r)) s Q X.
Proof.
  intros Hs HQ HX. apply wp_on_records. unfold wp. pose proof (decrypt_record_total r (record_protection s) (state_protection s Hs)) as H.
  destruct (decrypt_record r (record_protection s)) as [[c|e| |] p]; try done; [destruct H as (k & _ & ->); auto|subst p; by rewrite set_record_protection_same].
Qed.

(** A method refuses at once when its flag says so. *)
Lemma wp_guard {E A : Type} (flag : Tls13ApplicationState -> bool) (e : E) (m : io Tls13ApplicationState E A) (s : Tls13ApplicationState) Q X :
  (flag s = true -> X e s) -> (flag s = false -> wp m s Q X) -> wp (fun s => if flag s then (Err e, s) else m s) s Q X.
Proof. intros H1 H2. unfold wp. destruct (flag s); [by apply H1|by apply H2]. Qed.

Lemma wp_modify {S E : Type} (f : S -> S) (s : S) (Q : unit -> S -> Prop) (X : E -> S -> Prop) : Q tt (f s) -> wp (modify f) s Q X.
Proof. done. Qed.

Lemma wp_gets {S E A : Type} (f : S -> A) (s : S) (Q : A -> S -> Prop) (X : E -> S -> Prop) : Q (f s) s -> wp (gets f) s Q X.
Proof. done. Qed.

Lemma wp_fmap {S E A B : Type} (f : A -> B) (m : io S E A) (s : S) (Q : B -> S -> Prop) (X : E -> S -> Prop) :
  wp m s (fun a => Q (f a)) X -> wp (io_fmap f m) s Q X.
Proof. intros H. unfold io_fmap. by apply wp_bind. Qed.

Lemma new_plaintext_returns (ty : ContentType) (f : bytes) : returns (new_plaintext ty f).
Proof. unfold new_plaintext. apply res_bind_returns; [apply validate_fragment_returns|done]. Qed.

Lemma fatal_returns (d : TlsAlertDescription) : returns (fatal d).
Proof. unfold fatal. by case_match. Qed.

Lemma parse_alert_returns (f : bytes) : returns (parse_alert f).
Proof. unfold parse_alert. destruct (Nat.eqb_spec (length f) 2); [|done]. destruct f as [|a [|b [|]]]; done. Qed.

(** What an operation may end as, from the flags it began with. *)
Definition ends (s : Tls13ApplicationState) (op : operation) : output -> Tls13ApplicationState -> Prop :=
  fun o s' => state_ok s' /\ transition (flags_of s) op (Ok o) (flags_of s').
Definition refused (s : Tls13ApplicationState) (op : operation) : TlsRecordError -> Tls13ApplicationState -> Prop :=
  fun e s' => state_ok s' /\ transition (flags_of s) op (Err e) (flags_of s').

Section operations.
Variable s : Tls13ApplicationState.
Hypothesis Hok : state_ok s.
Hypothesis Hup : failed s = false.

Lemma flags_up : flags_of s = mkFlags false (close_notify_sent s) (close_notify_received s).
Proof. unfold flags_of. by rewrite Hup. Qed.

Lemma refused_same op e : refused s op e s.
Proof. split; [done|]. rewrite flags_up. constructor. Qed.

Lemma refused_next op e p : protection_ok p -> refused s op e (set_record_protection s p).
Proof. intros Hp. split; [auto|]. unfold flags_of. cbn. rewrite Hup. constructor. Qed.

#[local] Hint Resolve refused_same refused_next new_plaintext_returns fatal_returns parse_alert_returns : core.

Lemma send_data_ends data : wp (encrypt_application_data_record data) s (fun r => ends s (SendData data) (Sealed r)) (refused s (SendData data)).
Proof.
  apply wp_guard; [congruence|]. intros _. apply (wp_guard close_notify_sent); [auto|]. intros Es.
  apply wp_bind, wp_lift; [auto| |auto]. intros r _. apply wp_seal; [done| |auto]. intros c p Hp. split; [auto|]. unfold flags_of. cbn. rewrite Hup, Es. constructor.
Qed.

Lemma send_close_ends : wp encrypt_close_notify s (fun r => ends s SendClose (Sealed r)) (refused s SendClose).
Proof.
  apply wp_guard; [congruence|]. intros _. apply (wp_guard close_notify_sent); [auto|]. intros Es.
  apply wp_bind, wp_lift; [apply new_plaintext_returns| |auto]. intros r _. apply wp_bind, wp_seal; [done| |auto]. intros c p Hp. apply wp_bind, wp_modify, wp_ret.
  split; [auto|]. unfold flags_of. cbn. rewrite Hup, Es. constructor.
Qed.

Lemma send_fatal_ends d : wp (encrypt_fatal_alert d) s (fun r => ends s (SendFatal d) (Sealed r)) (refused s (SendFatal d)).
Proof.
  apply wp_guard; [congruence|]. intros _. apply wp_bind, wp_lift; [auto| |auto]. intros a Ha. unfold fatal in Ha. destruct (is_closure d) eqn:Ed; [done|].
  apply wp_bind, wp_lift; [apply new_plaintext_returns| |auto]. intros r _. apply wp_bind, wp_seal; [done| |auto]. intros c p Hp. apply wp_bind, wp_modify, wp_ret.
  split; [auto|]. unfold flags_of. cbn. rewrite Hup. by constructor.
Qed.

Lemma open_ends r : wp (decrypt_protected_record r) s (fun o => ends s (Open r) (Opened o)) (refused s (Open r)).
Proof.
  apply wp_guard; [congruence|]. intros _. apply wp_open; [done| |auto]. intros c p Hp. split; [auto|]. unfold flags_of. cbn. rewrite Hup. constructor.
Qed.

Lemma receive_ends r : wp (receive_protected_record r) s (fun e => ends s (Receive r) (Event e)) (refused s (Receive r)).
Proof.
  apply wp_guard; [congruence|]. intros _. apply wp_bind, wp_open; [done| |auto]. intros c p Hp. apply wp_bind, wp_gets.
  assert (Hnext : forall o, transition (flags_of s) (Receive r) (Ok (Event o)) (flags_of (set_record_protection s p)) -> ends s (Receive r) (Event o) (set_record_protection s p))
    by (intros o Ho; split; auto).
  unfold flags_of in Hnext at 2. cbn in Hnext. rewrite flags_up, Hup in Hnext. cbn [close_notify_received set_record_protection].
  destruct (close_notify_received s) eqn:Er; [apply wp_ret, Hnext; constructor|].
  destruct (content_type c); [apply wp_err; auto| |apply wp_err; auto|apply wp_ret, Hnext; constructor].
  apply wp_bind, wp_lift; [auto| |auto]. intros [l d] _. cbn [description].
  assert (Hfatal : is_closure d = false -> ends s (Receive r) (Event (FatalAlert d)) (fail (set_record_protection s p))).
  { intros Hd. split; [auto|]. rewrite flags_up, Er. unfold flags_of. cbn. rewrite Er. by constructor. }
  destruct d; try (by apply wp_bind, wp_modify, wp_ret, Hfatal).
  - apply wp_bind, wp_modify, wp_ret. split; [auto|]. rewrite flags_up, Er. unfold flags_of. cbn. rewrite Hup. constructor.
  - apply wp_ret, Hnext. constructor.
Qed.
End operations.

Lemma perform_ends (op : operation) (s : Tls13ApplicationState) : state_ok s ->
  wp (perform op) s (fun o s' => ends s op o s') (refused s op).
Proof.
  intros Hok. destruct (failed s) eqn:Hf.
  - assert (Hr : refused s op ConnectionFailed s) by (split; [done|]; unfold flags_of; rewrite Hf; constructor).
    destruct op; apply wp_fmap; (apply (wp_guard failed); [done|congruence]).
  - destruct op; apply wp_fmap; auto using send_data_ends, send_close_ends, send_fatal_ends, receive_ends, open_ends.
Qed.

Lemma perform_all_trace (ops : list operation) (s : Tls13ApplicationState) : state_ok s ->
  let '(os, s') := perform_all ops s in trace (flags_of s) ops os (flags_of s') /\ state_ok s' /\ length os = length ops.
Proof.
  revert s. induction ops as [|op ops IH]; intros s Hok; [split; [constructor|by split]|]. cbn [perform_all]. pose proof (perform_ends op s Hok) as H. unfold wp in H.
  destruct (perform op s) as [[o|e| |] s1]; try done; destruct H as [Hok1 Ht]; specialize (IH s1 Hok1); destruct (perform_all ops s1) as [os s2];
    destruct IH as (IH & Hok2 & Hl); (split; [by econstructor|split; [done|cbn; by rewrite Hl]]).
Qed.

(** ** What a trace rules out *)
Definition step_of : Type := operation * res TlsRecordError output.

Definition ends_connection (x : step_of) : bool :=
  match x with
  | (SendFatal _, Ok _) | (_, Ok (Event (FatalAlert _))) => true
  | _ => false
  end.
Definition closes_out (x : step_of) : bool := match x with (SendClose, Ok _) => true | _ => false end.
Definition writes (x : step_of) : bool := match x with ((SendClose | SendData _), Ok _) => true | _ => false end.
Definition closes_in (x : step_of) : bool := match x with (Receive _, Ok (Event CloseNotify_event)) => true | _ => false end.
Definition delivers (x : step_of) : bool :=
  match x with
  | (Receive _, Ok (Event IgnoredAfterCloseNotify)) => false
  | (Receive _, Ok _) => true
  | _ => false
  end.

Lemma trace_split f ops os f' (before after : list step_of) (x : step_of) : trace f ops os f' -> combine ops os = before ++ x :: after ->
  exists f1 f2 ops' os', transition f1 x.1 x.2 f2 /\ trace f2 ops' os' f' /\ combine ops' os' = after.
Proof.
  intros Ht. revert before. induction Ht as [f|f f1 f2 op o ops os Hs Ht IH]; intros before E; [by destruct before|]. cbn in E. destruct before as [|y before].
  - injection E as <- E. by exists f, f1, ops, os.
  - injection E as _ E. by apply (IH before).
Qed.

Lemma trace_down f ops os f' : trace f ops os f' -> down f = true -> f' = f /\ Forall (fun x : step_of => x.2 = Err ConnectionFailed) (combine ops os).
Proof.
  induction 1 as [f|f f1 f2 op o ops os Hs Ht IH]; intros Hd; [split; [done|by apply Forall_nil]|]. destruct Hs; cbn in Hd; try discriminate Hd.
  destruct (IH Hd) as [-> H]. split; [done|]. by apply Forall_cons.
Qed.

Lemma trace_closed_out f ops os f' : trace f ops os f' -> closed_out f = true -> Forall (fun x : step_of => writes x = false) (combine ops os).
Proof.
  induction 1 as [f|f f1 f2 op o ops os Hs Ht IH]; intros Hd; [by apply Forall_nil|]. apply Forall_cons.
  destruct Hs; cbn in *; try discriminate Hd; split; auto; by destruct op.
Qed.

Lemma trace_closed_in f ops os f' : trace f ops os f' -> closed_in f = true -> Forall (fun x : step_of => delivers x = false) (combine ops os).
Proof.
  induction 1 as [f|f f1 f2 op o ops os Hs Ht IH]; intros Hd; [by apply Forall_nil|]. apply Forall_cons.
  destruct Hs; cbn in *; try discriminate Hd; split; auto; by destruct op.
Qed.

(** ** The data that gets through *)
Definition data_record (d : bytes) : TlsPlaintextRecord := mkPlaintext ApplicationData TLS_LEGACY_RECORD_VERSION d.
Definition close_record : TlsPlaintextRecord := mkPlaintext Alert TLS_LEGACY_RECORD_VERSION [x01; x00].
Definition sendable (d : bytes) : Prop := len d <= TLS_PLAINTEXT_FRAGMENT_LIMIT.

(** While the state is up and nothing is closed, sending is sealing. *)
Lemma send_all (ds : list bytes) (s : Tls13ApplicationState) : failed s = false -> close_notify_sent s = false -> Forall sendable ds ->
  io_mapM encrypt_application_data_record ds s =
    (let '(r, p) := io_mapM (fun rp => encrypt_record rp.1 rp.2) (map (fun d => (data_record d, 0)) ds) (record_protection s) in (r, set_record_protection s p)).
Proof.
  intros Hf Hc Hall. revert s Hf Hc. induction Hall as [|d ds Hd Hall IH]; intros s Hf Hc; [by cbn; rewrite set_record_protection_same|]. cbn [io_mapM map].
  unfold io_bind at 1 3. unfold encrypt_application_data_record at 1. rewrite Hf, Hc. unfold new_plaintext, validate_plaintext_fragment.
  rewrite (proj2 (Z.ltb_ge _ _)) by exact Hd. cbn [res_bind]. unfold io_bind at 1, io_lift, on_records, io_zoom. cbn [fst snd]. fold (data_record d).
  destruct (encrypt_record (data_record d) 0 (record_protection s)) as [[c|e| |] p]; try done. unfold io_bind. rewrite IH by done. cbn [record_protection set_record_protection].
  by destruct (io_mapM _ _ p) as [[cs|e| |] p'].
Qed.

(** Receiving what opens as data, and then as the close. *)
Lemma receive_all (ds : list bytes) (cs : list TlsCiphertextRecord) (s : Tls13ApplicationState) p : failed s = false -> close_notify_received s = false ->
  io_mapM decrypt_record cs (record_protection s) = (Ok (map received (map data_record ds ++ [close_record])), p) ->
  io_mapM receive_protected_record cs s =
    (Ok (map ApplicationData_event ds ++ [CloseNotify_event]), set_close_received (set_record_protection s p)).
Proof.
  intros Hf Hc. revert cs s Hf Hc. induction ds as [|d ds IH]; intros [|c cs] s Hf Hc; [done| |done|]; cbn [io_mapM map app]; unfold io_bind at 1 3.
  - destruct (decrypt_record c (record_protection s)) as [[r|e| |] p1] eqn:Ed; try done. unfold io_bind at 1.
    destruct (io_mapM decrypt_record cs p1) as [[rs|e| |] p2] eqn:Er; try done. intros [= -> -> ->]. destruct cs; [|by unfold io_mapM, io_bind in Er; repeat case_match; simplify_eq].
    injection Er as <-. unfold receive_protected_record at 1. rewrite Hf. unfold io_bind at 1, on_records, io_zoom. rewrite Ed. unfold io_bind, gets. cbn [close_notify_received set_record_protection].
    rewrite Hc. reflexivity.
  - destruct (decrypt_record c (record_protection s)) as [[r|e| |] p1] eqn:Ed; try done. unfold io_bind at 1.
    destruct (io_mapM decrypt_record cs p1) as [[rs|e| |] p2] eqn:Er; try done. intros [= -> -> ->].
    unfold receive_protected_record at 1. rewrite Hf. unfold io_bind at 1, on_records, io_zoom. rewrite Ed. unfold io_bind at 1, gets. cbn [close_notify_received set_record_protection].
    rewrite Hc. cbn [content_type received data_record]. unfold io_ret at 1. cbn [fragment]. unfold io_bind. by rewrite (IH cs (set_record_protection s p1) Hf Hc Er).
Qed.

Lemma encode_sendable (d : bytes) : sendable d -> exists inner, encode_tls_inner_plaintext (data_record d) 0 = Ok inner.
Proof.
  intros Hd. unfold encode_tls_inner_plaintext, data_record, validate_plaintext_fragment. cbn [content_type fragment]. rewrite (proj2 (Z.ltb_ge _ _)) by exact Hd.
  cbn [res_bind]. rewrite bool_decide_false by done. unfold sendable, TLS_INNER_PLAINTEXT_LIMIT, TLS_PLAINTEXT_FRAGMENT_LIMIT in *. rewrite !(proj2 (Z.ltb_ge _ _)) by lia. by eexists.
Qed.

Definition padless (r : TlsPlaintextRecord) : TlsPlaintextRecord * Z := (r, 0).

(** Data in bounds is refused only when the numbers are used up. *)
Lemma channel_data (ds : list bytes) (tail : list TlsPlaintextRecord) (w r : Tls13RecordProtection) : paired w r -> Forall sendable ds -> tail = [] \/ tail = [close_record] ->
  match io_mapM (fun rp => encrypt_record rp.1 rp.2) (map padless (map data_record ds ++ tail)) w with
  | (Ok cs, w') => exists r', io_mapM decrypt_record cs r = (Ok (map received (map data_record ds ++ tail)), r') /\ paired w' r'
  | (Err e, _) => e = SequenceNumberExhausted Write /\ records_left (write_sequence_number w) < len ds + len tail
  | ((Panic | Fuel), _) => False
  end.
Proof.
  intros Hp Hall Htail. pose proof (channel (map padless (map data_record ds ++ tail)) w r Hp) as H.
  assert (Hl : Forall (fun rp : TlsPlaintextRecord * Z => 0 <= rp.2) (map padless (map data_record ds ++ tail))) by (apply Forall_map, Forall_true; cbn; lia).
  specialize (H Hl). destruct (io_mapM _ _ w) as [[cs|e| |] w']; try done.
  - destruct H as (_ & r' & Hr & Hp'). exists r'. split; [|done]. rewrite Hr. do 2 f_equal. rewrite map_map. done.
  - destruct H as [[-> H]|([rec n] & Hin & He)].
    + split; [done|]. unfold len in *. rewrite !length_map, length_app, length_map in H. lia.
    + exfalso. apply list_elem_of_fmap in Hin as (rec' & [= -> ->] & Hin). cbn [fst snd] in He. apply elem_of_app in Hin as [Hin|Hin].
      * apply list_elem_of_fmap in Hin as (d & -> & Hin). rewrite Forall_forall in Hall. destruct (encode_sendable d (Hall d Hin)) as [inner Hi]. by rewrite Hi in He.
      * destruct Htail as [->| ->]; [by apply elem_of_nil in Hin|]. apply list_elem_of_singleton in Hin as ->. done.
Qed.

(** C35: the application state refines the closure rules of RFC 8446: whatever methods are called, in whatever
    order and with whatever records, every outcome is one the abstract machine allows from the flags at
    that moment, no call panics, and the state stays well formed, with its keys wiped once it has failed. *)
Theorem application_refines_closure (ops : list operation) (s : Tls13ApplicationState) (Hok : state_ok s) :
  let '(os, s') := perform_all ops s in
  trace (flags_of s) ops os (flags_of s') /\ length os = length ops /\ state_ok s' /\ (failed s' = true -> wiped s').
Proof.
  pose proof (perform_all_trace ops s Hok) as H. destruct (perform_all ops s) as [os s']. destruct H as (Ht & Hok' & Hl). split_and!; [done|done|done|apply Hok'].
Qed.

Definition example_state : Tls13ApplicationState :=
  mkApplicationState None (repeat x05 32) (repeat x06 32) (repeat x07 32)
    (new_protection (repeat x01 32) (repeat x02 12) (repeat x03 32) (repeat x04 12)) false false false.

Lemma example_state_ok : state_ok example_state.
Proof. split; [split; reflexivity|reflexivity|reflexivity|discriminate]. Qed.

Lemma application_refines_closure_witness :
  let '(os, s') := perform_all [SendFatal InternalError; SendClose] example_state in
  nth_error os 1 = Some (Err ConnectionFailed) /\ trace (flags_of example_state) [SendFatal InternalError; SendClose] os (flags_of s').
Proof.
  pose proof (application_refines_closure [SendFatal InternalError; SendClose] example_state example_state_ok) as H.
  destruct (perform_all _ example_state) as [os s'] eqn:Ep. split; [|exact (proj1 H)].
  assert (Eo : os = (perform_all [SendFatal InternalError; SendClose] example_state).1) by (rewrite Ep; reflexivity). rewrite Eo. vm_compute. reflexivity.
Defined.

(** Between the state and a peer with the same keys, data arrives as it was sent, in order: what the peer seals
    and then closes is received as its data and one close notification, and what the state seals is
    opened by the peer. Sealing fails only when the 2^64 numbers are used up. *)
Theorem application_data_delivered (requests answers : list bytes) (s : Tls13ApplicationState) (peer : Tls13RecordProtection)
  (Hup : failed s = false) (Hout : close_notify_sent s = false) (Hin : close_notify_received s = false)
  (Hto : paired peer (record_protection s)) (Hfrom : paired (record_protection s) peer)
  (Hreq : Forall sendable requests) (Hans : Forall sendable answers) :
  match io_mapM (fun rp => encrypt_record rp.1 rp.2) (map padless (map data_record requests ++ [close_record])) peer with
  | (Ok cs, peer') => exists s', io_mapM receive_protected_record cs s = (Ok (map ApplicationData_event requests ++ [CloseNotify_event]), s') /\
      close_notify_received s' = true /\ failed s' = false /\ paired peer' (record_protection s')
  | (Err e, _) => e = SequenceNumberExhausted Write /\ records_left (write_sequence_number peer) <= len requests
  | ((Panic | Fuel), _) => False
  end /\
  match io_mapM encrypt_application_data_record answers s with
  | (Ok cs, s') => exists peer', io_mapM decrypt_record cs peer = (Ok (map data_record answers), peer') /\ paired (record_protection s') peer'
  | (Err e, _) => e = SequenceNumberExhausted Write /\ records_left (write_sequence_number (record_protection s)) < len answers
  | ((Panic | Fuel), _) => False
  end.
Proof.
  split.
  - pose proof (channel_data requests [close_record] _ _ Hto Hreq (or_intror eq_refl)) as H.
    destruct (io_mapM _ _ peer) as [[cs|e| |] peer']; try done; [|by destruct H as [-> H]; split; [|change (len [close_record]) with 1 in H; lia]].
    destruct H as (p & Hp & Hpair). exists (set_close_received (set_record_protection s p)). split; [by apply receive_all|]. by split_and!.
  - rewrite send_all by done. pose proof (channel_data answers [] _ _ Hfrom Hans (or_introl eq_refl)) as H. rewrite app_nil_r, map_map in H.
    change (fun x => padless (data_record x)) with (fun d => (data_record d, 0)) in H. destruct (io_mapM _ _ (record_protection s)) as [[cs|e| |] p]; try done.
    + destruct H as (p' & Hp' & Hpair). exists p'. split; [|done]. rewrite Hp'. do 2 f_equal. rewrite map_map. done.
    + destruct H as [-> H]. split; [done|]. by rewrite len_nil, Z.add_0_r in H.
Qed.

Lemma application_data_delivered_witness :
  let peer := new_protection (repeat x03 32) (repeat x04 12) (repeat x01 32) (repeat x02 12) in
  match io_mapM encrypt_application_data_record [str "hello"; []] example_state with
  | (Ok cs, _) => exists peer', io_mapM decrypt_record cs peer = (Ok [data_record (str "hello"); data_record []], peer')
  | _ => False
  end.
Proof.
  cbv zeta. set (peer := new_protection _ _ _ _).
  assert (Hto : paired peer (record_protection example_state)) by (split; [split; reflexivity|split; reflexivity|reflexivity|reflexivity|reflexivity|intros n [= <-]; vm_compute; split; discriminate]).
  assert (Hfrom : paired (record_protection example_state) peer) by (split; [split; reflexivity|split; reflexivity|reflexivity|reflexivity|reflexivity|intros n [= <-]; vm_compute; split; discriminate]).
  assert (Hs : Forall sendable [str "hello"; []]) by (repeat (apply Forall_cons; split; [vm_compute; discriminate|]); apply Forall_nil; exact I).
  destruct (application_data_delivered [] [str "hello"; []] example_state peer eq_refl eq_refl eq_refl Hto Hfrom (Forall_nil_2 _) Hs) as [_ H].
  destruct (io_mapM encrypt_application_data_record _ example_state) as [[cs|e| |] s'].
  - destruct H as (peer' & H & _). exists peer'. exact H.
  - destruct H as [_ H]. vm_compute in H. discriminate H.
  - exact H.
  - exact H.
Defined.

(** C36: no sequence of calls breaks the closing of a connection: after a fatal alert, sent or received, every call is
    refused and the keys are gone; after the close notification is sent no data and no second
    notification are sealed; after the peer's is received nothing more is delivered. *)
Theorem application_closure_safe (ops : list operation) (s : Tls13ApplicationState) (before after : list step_of) (x : step_of) (Hok : state_ok s) :
  let '(os, s') := perform_all ops s in
  combine ops os = before ++ x :: after ->
  (ends_connection x = true -> Forall (fun y => y.2 = Err ConnectionFailed) after /\ failed s' = true /\ wiped s') /\
  (closes_out x = true -> Forall (fun y => writes y = false) after) /\
  (closes_in x = true -> Forall (fun y => delivers y = false) after) /\
  returns x.2.
Proof.
  pose proof (perform_all_trace ops s Hok) as H. destruct (perform_all ops s) as [os s']. destruct H as (Ht & Hok' & _). intros E.
  destruct (trace_split _ _ _ _ before after x Ht E) as (f1 & f2 & ops' & os' & Hs & Hrest & <-). destruct x as [op o]. cbn [fst snd] in Hs. split_and!.
  - intros Hx. destruct (trace_down _ _ _ _ Hrest) as [Hf Hall]; [destruct Hs; try done; by destruct op|]. split; [done|].
    assert (Hfail : failed s' = true) by (change (down (flags_of s') = true); rewrite Hf; destruct Hs; try done; by destruct op). split; [done|by apply Hok'].
  - intros Hx. eapply trace_closed_out; [exact Hrest|]. destruct Hs; try done; by destruct op.
  - intros Hx. eapply trace_closed_in; [exact Hrest|]. destruct Hs; try done; by destruct op.
  - by destruct Hs.
Qed.

(** The steps of three calls: the first sends the close. *)
Definition example_steps : list step_of :=
  combine [SendClose; SendData [x01]; SendClose] (perform_all [SendClose; SendData [x01]; SendClose] example_state).1.

Lemma application_closure_safe_witness : Forall (fun y : step_of => writes y = false) (drop 1 example_steps) /\ length example_steps = 3%nat.
Proof.
  split; [|vm_compute; reflexivity].
  pose proof (application_closure_safe [SendClose; SendData [x01]; SendClose] example_state [] (drop 1 example_steps)
    (SendClose, (perform SendClose example_state).1) example_state_ok) as H.
  assert (E : example_steps = [] ++ (SendClose, (perform SendClose example_state).1) :: drop 1 example_steps) by (vm_compute; reflexivity).
  assert (Ec : closes_out (SendClose, (perform SendClose example_state).1) = true) by (vm_compute; reflexivity).
  unfold example_steps in E at 1. destruct (perform_all [SendClose; SendData [x01]; SendClose] example_state) as [os s'].
  destruct (H E) as (_ & Hc & _). exact (Hc Ec).
Defined.
