(* ===== verification/TlsServer.v ===== *)
(** * The server's handshake: what [src/tls.rs] promises of it

    The flight that answers a hello, the retry, the authentication of the server and the completion by the
    client's Finished, each as the messages, keys and transcript of RFC 8446. *)
From Stdlib Require Import ZArith Zmod Lia.
From stdpp Require Import prelude.
From S2P Require Import Prelude Bytes NetAddr Io Uint256 Sha256 Encoding Poly1305 ChaCha20 Primes Curve P256 Ecdsa Der Pem Keys TlsRecord TlsMessages TlsHello TlsCredentials TlsHandshake.
Local Open Scope Z_scope.
Set Warnings "-clear-no-such-hyp".
#[local] Opaque hash hmac derived.

(** ** Messages are short enough for the transcript *)
Definition small (m : bytes) : Prop := len m <= 16777219.

Lemma small_concat (ms : list bytes) : Forall small ms -> len (concat ms) <= 16777219 * len ms.
Proof. induction 1 as [|m ms Hm Hms IH]; [done|]. cbn [concat]. rewrite len_app, len_cons. unfold small in Hm. lia. Qed.

Lemma small_limit (ms : list bytes) : Forall small ms -> (length ms <= 20)%nat -> len (concat ms) <= limit.
Proof. intros Hs Hl. pose proof (small_concat ms Hs). unfold limit. change (u64_max / 8) with 2305843009213693951. unfold len in *. lia. Qed.

Lemma small_message (ty : byte) (body : bytes) : len body <= TLS_UINT24_MAX -> small (handshake_message ty body).
Proof. intros Hb. unfold small, handshake_message. rewrite len_cons, len_app, len_be_bytes. unfold TLS_UINT24_MAX in Hb. lia. Qed.

Lemma encoded_small (ty : byte) (body m : bytes) : encode_handshake_message ty body = Ok m -> m = handshake_message ty body /\ small m.
Proof. rewrite encode_handshake_message_spec. case_decide; [|done]. intros H'%Ok_inj. subst m. split; [done|by apply small_message]. Qed.

(** A transcript that has heard short messages. *)
Record heard (t : TlsTranscript) (ms : list bytes) : Prop := {
  heard_hears : hears t ms;
  heard_small : Forall small ms;
  heard_few : (length ms <= 20)%nat
}.

Lemma hear {E : Type} (t : TlsTranscript) (ms : list bytes) (m : bytes) : heard t ms -> small m -> (length ms < 20)%nat ->
  exists t', update_handshake_message t m = Ok t' :> res E _ /\ heard t' (ms ++ [m]).
Proof.
  intros [Ht Hs _] Hm Hl. assert (Hall : Forall small (ms ++ [m])) by (apply Forall_app; split; [done|by apply Forall_singleton]).
  assert (Hlen : (length (ms ++ [m]) <= 20)%nat) by (rewrite length_app; cbn [length]; lia).
  pose proof (small_limit _ Hall Hlen) as Hlim. rewrite concat_app, len_app in Hlim. cbn [concat] in Hlim. rewrite app_nil_r in Hlim.
  destruct (update_hears (E := E) t ms m Ht Hlim) as (t' & Hu & Ht'). by exists t'.
Qed.

Lemma heard_hash {E : Type} (t : TlsTranscript) (ms : list bytes) : heard t ms -> transcript_hash t = Ok (hash (concat ms)) :> res E _.
Proof. intros [Ht Hs Hl]. apply hash_hears; [done|by apply small_limit]. Qed.

Lemma heard_new : heard new_transcript [].
Proof. split; [apply hears_new|by apply Forall_nil|cbn; lia]. Qed.

(** ** The flight that answers a hello *)
Definition alpn_for (ch : ClientHello) : option bytes := if offers_http11 ch then Some ALPN_HTTP_1_1 else None.

(** EncryptedExtensions: the one protocol agreed on, or nothing. *)
Definition encrypted_extensions_for (ch : ClientHello) : bytes :=
  handshake_message HANDSHAKE_TYPE_ENCRYPTED_EXTENSIONS
    (vec16 (match alpn_for ch with
            | Some protocol => encode_extension (EXTENSION_APPLICATION_LAYER_PROTOCOL_NEGOTIATION, vec16 (vec8 protocol))
            | None => []
            end)).

Definition protocol_agreed (ch : ClientHello) : Prop := offers_http11 ch = true \/ alpn_protocols ch = [].

Lemma build_encrypted_extensions_spec (ch : ClientHello) :
  (protocol_agreed ch /\ build_tls13_encrypted_extensions ch = Ok (encrypted_extensions_for ch, alpn_for ch)) \/
  (~ protocol_agreed ch /\ build_tls13_encrypted_extensions ch = Err NoApplicationProtocol_error).
Proof.
  unfold build_tls13_encrypted_extensions, encrypted_extensions_for, alpn_for, protocol_agreed. destruct (offers_http11 ch) eqn:Eo; [left; split; [by left|reflexivity]|].
  case_bool_decide; [left; split; [by right|reflexivity]|right; split; [by intros [?|?]|done]].
Qed.

Lemma small_encrypted_extensions (ch : ClientHello) : small (encrypted_extensions_for ch) /\ len (encrypted_extensions_for ch) <= 100 /\ encrypted_extensions_for ch <> [].
Proof. unfold encrypted_extensions_for, alpn_for. destruct (offers_http11 ch); vm_compute; repeat split; discriminate. Qed.

(** A flight as RFC 8446 has it: for a client's hello after [history], the server's random bytes, its key
    share and the secret shared. *)
Record flight_of (history : list bytes) (ch : ClientHello) (rnd ks ss : bytes) (f : Tls13ServerHelloFlight) : Prop := {
  flight_hello : server_hello f = encode_server_hello rnd (legacy_session_id ch) [version_extension; share_extension ks];
  flight_share : flight_key_share f = ks;
  flight_extensions : encrypted_extensions f = encrypted_extensions_for ch;
  flight_alpn : negotiated_alpn f = alpn_for ch;
  flight_client_secret : client_handshake_traffic_secret f = client_hs_secret ss (hash (concat (history ++ [server_hello f])));
  flight_server_secret : server_handshake_traffic_secret f = server_hs_secret ss (hash (concat (history ++ [server_hello f])));
  flight_main_secret : main_secret f = main_secret_of ss;
  flight_record : encrypt_record (mkPlaintext Handshake TLS_LEGACY_RECORD_VERSION (encrypted_extensions f)) 0
      (new_protection (key_of (server_handshake_traffic_secret f)) (iv_of (server_handshake_traffic_secret f))
         (key_of (client_handshake_traffic_secret f)) (iv_of (client_handshake_traffic_secret f))) =
    (Ok (encrypted_extensions_record f), handshake_record_protection f);
  flight_transcript : heard (transcript f) (history ++ [server_hello f; encrypted_extensions f]);
  flight_started : server_authentication_started f = false
}.

Lemma new_protection_ok (k1 v1 k2 v2 : bytes) : length k1 = 32%nat -> length v1 = 12%nat -> length k2 = 32%nat -> length v2 = 12%nat ->
  protection_ok (new_protection k1 v1 k2 v2).
Proof. by split. Qed.

Lemma key_lengths (secret : bytes) : length secret = 32%nat -> length (key_of secret) = 32%nat /\ length (iv_of secret) = 12%nat.
Proof. intros Hs. by destruct (traffic_keys secret Hs) as (_ & ? & ?). Qed.

Lemma small_server_hello (rnd sid ks : bytes) : length rnd = 32%nat -> len sid <= 32 -> length ks = 65%nat ->
  small (encode_server_hello rnd sid [version_extension; share_extension ks]).
Proof.
  intros Hr Hs Hk. apply small_message. rewrite !len_app, len_vec8, len_vec16. cbn [map concat]. unfold share_extension, version_extension.
  rewrite !len_app, !len_encode_extension, ?len_nil. rewrite !len_app, len_vec16, !len_be_bytes. unfold len in *. cbn [length]. unfold TLS_UINT24_MAX. lia.
Qed.

Lemma encrypt_handshake_Ok (m : bytes) (p : Tls13RecordProtection) (n : Z) : m <> [] -> len m <= TLS_PLAINTEXT_FRAGMENT_LIMIT -> protection_ok p ->
  write_sequence_number p = Some n ->
  new_plaintext Handshake m = Ok (mkPlaintext Handshake TLS_LEGACY_RECORD_VERSION m) /\
  exists c, encrypt_record (mkPlaintext Handshake TLS_LEGACY_RECORD_VERSION m) 0 p = (Ok c, set_write_sequence p (next_sequence n)).
Proof.
  intros Hne Hl Hp Hn. assert (Hv : validate_plaintext_fragment Handshake m = Ok tt).
  { unfold validate_plaintext_fragment. rewrite (proj2 (Z.ltb_ge _ _)) by exact Hl. by rewrite bool_decide_false. }
  split; [unfold new_plaintext; by rewrite Hv|]. rewrite (encrypt_record_spec _ 0 n p Hp ltac:(done) Hn). unfold encode_tls_inner_plaintext. cbn [content_type fragment].
  rewrite Hv. cbn [res_bind]. rewrite bool_decide_false by done. unfold TLS_INNER_PLAINTEXT_LIMIT, TLS_PLAINTEXT_FRAGMENT_LIMIT in *.
  rewrite !(proj2 (Z.ltb_ge _ _)) by lia. by eexists.
Qed.

Lemma build_flight_Ok (history : list bytes) (t : TlsTranscript) (message : bytes) (ch : ClientHello) (rnd ks ss : bytes) : heard t history ->
  small message -> (length history < 10)%nat -> length rnd = 32%nat -> len (legacy_session_id ch) <= 32 -> length ks = 65%nat -> length ss = 32%nat ->
  match build_hello_flight message ch t ks ss rnd with
  | Ok f => protocol_agreed ch /\ flight_of (history ++ [message]) ch rnd ks ss f
  | Err e => e = NoApplicationProtocol_error /\ ~ protocol_agreed ch
  | Panic | Fuel => False
  end.
Proof.
  intros Ht Hm Hl Hr Hs Hk Hss. unfold build_hello_flight. rewrite build_server_hello_spec by (done || lia). cbn [res_bind].
  set (sh := encode_server_hello _ _ _). assert (Hsh : small sh) by (by apply small_server_hello).
  destruct (hear (E := TlsServerHandshakeError) t history message Ht Hm ltac:(lia)) as (t1 & -> & Ht1). cbn [res_bind].
  destruct (hear (E := TlsServerHandshakeError) t1 _ sh Ht1 Hsh ltac:(rewrite length_app; cbn [length]; lia)) as (t2 & -> & Ht2). cbn [res_bind].
  rewrite (heard_hash t2 _ Ht2). cbn [res_bind]. set (th := hash (concat ((history ++ [message]) ++ [sh]))). assert (Hth : length th = 32%nat) by apply length_hash.
  rewrite handshake_schedule_Ok by done. cbn [map_err res_bind].
  destruct (length_hs_secrets ss th Hth) as [Hc Hse]. destruct (key_lengths _ Hc) as [Hck Hci]. destruct (key_lengths _ Hse) as [Hsk Hsi].
  destruct (build_encrypted_extensions_spec ch) as [[Ha ->]|[Ha ->]]; [|by split]. cbn [res_bind].
  destruct (small_encrypted_extensions ch) as (Hes & Hel & Hene).
  destruct (encrypt_handshake_Ok (encrypted_extensions_for ch) (new_protection (hs_server_key (handshake_keys ss th)) (hs_server_iv (handshake_keys ss th))
    (hs_client_key (handshake_keys ss th)) (hs_client_iv (handshake_keys ss th))) 0) as [Hpt (c & Henc)]; [done|unfold TLS_PLAINTEXT_FRAGMENT_LIMIT; lia|by apply new_protection_ok|done|].
  rewrite Hpt. cbn [map_err res_bind]. rewrite Henc. cbn [map_err res_bind].
  destruct (hear (E := TlsServerHandshakeError) t2 _ (encrypted_extensions_for ch) Ht2 Hes ltac:(rewrite !length_app; cbn [length]; lia)) as (t3 & -> & Ht3). cbn [res_bind].
  split; [done|]. split; try reflexivity; [exact Henc|]. cbn [transcript server_hello encrypted_extensions]. by rewrite <- app_assoc in Ht3.
Qed.

(** What the flight's protection is. *)
Lemma flight_protection_ok history ch rnd ks ss f : flight_of history ch rnd ks ss f ->
  length (client_handshake_traffic_secret f) = 32%nat /\ length (server_handshake_traffic_secret f) = 32%nat /\ length (main_secret f) = 32%nat /\
  handshake_record_protection f = set_write_sequence (new_protection (key_of (server_handshake_traffic_secret f)) (iv_of (server_handshake_traffic_secret f))
         (key_of (client_handshake_traffic_secret f)) (iv_of (client_handshake_traffic_secret f))) (Some 1) /\ protection_ok (handshake_record_protection f).
Proof.
  intros [Hh Hsh He Ha Hc Hs Hm Hr Ht Hst]. destruct (length_hs_secrets ss (hash (concat (history ++ [server_hello f])))) as [Lc Ls]; [apply length_hash|].
  rewrite <- Hc in Lc. rewrite <- Hs in Ls. destruct (key_lengths _ Lc) as [Hck Hci]. destruct (key_lengths _ Ls) as [Hsk Hsi].
  assert (Lm : length (main_secret f) = 32%nat) by (rewrite Hm; apply length_hmac).
  destruct (small_encrypted_extensions ch) as (_ & Hel & Hene). rewrite <- He in Hel, Hene.
  pose proof (new_protection_ok _ _ _ _ Hsk Hsi Hck Hci) as Hp. revert Hr Hp. set (p := new_protection _ _ _ _). intros Hr Hp.
  destruct (encrypt_handshake_Ok (encrypted_extensions f) p 0) as [_ (c & Henc)]; [done|unfold TLS_PLAINTEXT_FRAGMENT_LIMIT; lia|done|done|].
  rewrite Henc in Hr. apply pair_equal_spec in Hr as [_ Hr]. rewrite <- Hr. change (next_sequence 0) with (Some 1).
  split; [exact Lc|]. split; [exact Ls|]. split; [exact Lm|]. split; [reflexivity|]. by apply set_write_ok.
Qed.

(** ** From a hello to its flight *)
Lemma from_sec1_point (bs : bytes) :
  match from_sec1_uncompressed bs with
  | Ok p => exists a, p = enc_point (Some a) /\ on_curve _ curve_b (Some a) /\ to_sec1_uncompressed p = Ok bs
  | Err _ => True
  | Panic | Fuel => False
  end.
Proof.
  pose proof (from_sec1_returns bs) as Hr. pose proof (fun p => proj1 (sec1_round_trip_spec bs p)) as H.
  destruct (from_sec1_uncompressed bs) as [p|e| |]; try done. destruct (H p eq_refl) as [([a|] & -> & Hc) Hs]; [by exists a|done].
Qed.

Lemma draws_error {OS : Type} `{RandomDevice OS} (n : nat) (s s' : OS) (e : io_error) : draws n s = (Err e, s') -> exists s1, fill_random 32 s1 = (Err e, s').
Proof.
  revert s. induction n as [|n IH]; intros s; [done|]. unfold draws. cbn [repeat io_mapM]. unfold io_bind at 1.
  destruct (fill_random 32 s) as [[c|e1| |] s1] eqn:Ef; try done; [|intros [= -> ->]; by exists s]. unfold io_bind. fold (draws (OS := OS) n).
  destruct (draws n s1) as [[cs|e1| |] s2] eqn:Ed; try done. intros [= -> ->]. by apply (IH s1).
Qed.

(** A private key in range. *)
Definition private_key_ok (d : Scalar) : Prop := limbs_ok 4 d /\ 0 < value d < group_order.

(** The flight [f] answers the hello [ch] after [history], with the private key [d], for the point [a] of the client. *)
Definition answers (history : list bytes) (ch : ClientHello) (d : Scalar) (a : Fp * Fp) (rnd : bytes) (f : Tls13ServerHelloFlight) : Prop :=
  exists share ks x y, secp256r1_key_share ch = Some share /\ from_sec1_uncompressed share = Ok (enc_point (Some a)) /\ on_curve _ curve_b (Some a) /\
    private_key_ok d /\ to_sec1_uncompressed (enc_point (multiple _ (value d) gen)) = Ok ks /\ multiple _ (value d) (Some a) = Some (x, y) /\
    length rnd = 32%nat /\ protocol_agreed ch /\ flight_of history ch rnd ks (be_bytes 32 (Zmod.to_Z x)) f.

(** Why there is no flight. *)
Definition negotiation_fails {OS : Type} `{RandomDevice OS} (ch : ClientHello) (e : TlsServerHandshakeError) (s' : OS) : Prop :=
  match e with
  | HelloRetryRequired group => secp256r1_key_share ch = None /\ group = TLS_GROUP_SECP256R1
  | InvalidP256KeyShare cause => exists share, secp256r1_key_share ch = Some share /\ from_sec1_uncompressed share = Err cause
  | Random cause => exists s1, fill_random 32 s1 = (Err cause, s')
  | ServerPublicKey _ => exists d, private_key_ok d /\ multiple _ (value d) gen = None
  | Ecdh cause => cause = SharedPointAtInfinity /\ exists d a, private_key_ok d /\ on_curve _ curve_b (Some a) /\ multiple _ (value d) (Some a) = None
  | NoApplicationProtocol_error => ~ protocol_agreed ch
  | _ => False
  end.

(** Every candidate key drawn was out of range. *)
Definition no_key_in {OS : Type} `{RandomDevice OS} (fuel : nat) (s s' : OS) : Prop := exists rejected, draws fuel s = (Ok rejected, s') /\ Forall out_of_range rejected.

Lemma negotiate_from_spec {OS : Type} `{RandomDevice OS} (fuel : nat) (message : bytes) (ch : ClientHello) (t : TlsTranscript) (history : list bytes) (s : OS) :
  heard t history -> small message -> (length history < 10)%nat -> len (legacy_session_id ch) <= 32 ->
  match negotiate_tls13_server_hello_from_client_hello fuel message ch t s with
  | (Ok f, _) => exists d a rnd, answers (history ++ [message]) ch d a rnd f
  | (Err e, s') => negotiation_fails ch e s'
  | (Fuel, s') => no_key_in fuel s s'
  | (Panic, _) => False
  end.
Proof.
  intros Ht Hm Hl Hs. unfold negotiate_tls13_server_hello_from_client_hello, io_bind at 1, io_lift at 1.
  destruct (secp256r1_key_share ch) as [share|] eqn:Eshare; [|done]. cbn [ok_or]. unfold io_bind at 1, io_lift at 1.
  pose proof (from_sec1_point share) as Hp. destruct (from_sec1_uncompressed share) as [p|cause| |] eqn:Ep; [|cbn [map_err]; by exists share|done..]. cbn [map_err].
  destruct Hp as (a & -> & Ha & _). unfold io_bind at 1, io_map_err at 1. pose proof (generate_spec fuel s) as Hg.
  destruct (generate_ephemeral_p256_private_key fuel s) as [[d|cause| |] s1]; cbn [map_err]; [|by eapply draws_error|done|done].
  destruct Hg as (_ & c & _ & _ & _ & Hin & Hd & Hv). assert (Hkey : private_key_ok d).
  { split; [done|]. rewrite Hv. pose proof (be_value_range c). unfold out_of_range in Hin. lia. }
  unfold io_bind at 1, io_lift at 1. rewrite generator_multiply_spec by done. unfold io_bind at 1, io_lift at 1.
  destruct (multiple _ (value d) gen) as [g|] eqn:Eg; [|cbn; by exists d]. destruct (sec1_of_point g) as (ks & Hks & Hlk). rewrite Hks. cbn [map_err].
  unfold io_bind at 1, io_lift at 1. rewrite ecdh_spec by done. rewrite decide_False by (destruct Hkey; lia). rewrite decide_False by done.
  destruct (multiple _ (value d) (Some a)) as [[x y]|] eqn:Em; [|cbn; split; [done|by exists d, a]]. cbn [map_err].
  unfold io_bind at 1, io_map_err at 1. pose proof (fill_random_law 32 s1) as Hr. destruct (fill_random 32 s1) as [[rnd|cause| |] s2] eqn:Ef; cbn [map_err]; [|by exists s1|done|done].
  unfold io_lift. pose proof (build_flight_Ok history t message ch rnd ks (be_bytes 32 (Zmod.to_Z x)) Ht Hm Hl Hr Hs Hlk (length_be_bytes 32 _)) as Hf.
  destruct (build_hello_flight _ _ _ _ _ _) as [f|e| |]; [|by destruct Hf as [-> Hf]|done|done]. destruct Hf as [Hagree Hf].
  exists d, a, rnd, share, ks, x, y. rewrite Eg. by split_and!.
Qed.

(** ** The first flight *)
Definition acceptable (ch : ClientHello) : Prop :=
  offers_chacha20_poly1305_sha256 ch = true /\ supports_secp256r1 ch = true /\ supports_ecdsa_secp256r1_sha256 ch = true.

Definition unacceptable (ch : ClientHello) (e : TlsServerHandshakeError) : Prop :=
  match e with
  | UnsupportedCipherSuite => offers_chacha20_poly1305_sha256 ch = false
  | UnsupportedGroup => offers_chacha20_poly1305_sha256 ch = true /\ supports_secp256r1 ch = false
  | UnsupportedSignatureAlgorithm => offers_chacha20_poly1305_sha256 ch = true /\ supports_secp256r1 ch = true /\ supports_ecdsa_secp256r1_sha256 ch = false
  | _ => False
  end.

Lemma validate_hello_spec (ch : ClientHello) :
  match validate_tls13_server_client_hello ch with
  | Ok _ => acceptable ch
  | Err e => unacceptable ch e
  | Panic | Fuel => False
  end.
Proof.
  unfold validate_tls13_server_client_hello, acceptable.
  destruct (offers_chacha20_poly1305_sha256 ch) eqn:E1; [|by cbn]. destruct (supports_secp256r1 ch) eqn:E2; [|by cbn].
  by destruct (supports_ecdsa_secp256r1_sha256 ch) eqn:E3; cbn.
Qed.

(** The retry request, and the transcript that goes on from it: the first hello is replaced by its hash. *)
Definition retry_request_for (ch : ClientHello) : bytes := encode_server_hello TLS13_HELLO_RETRY_REQUEST_RANDOM (legacy_session_id ch) [version_extension; retry_extension].
Definition retry_history (first request : bytes) : list bytes := [handshake_message HANDSHAKE_TYPE_MESSAGE_HASH (hash first); request].

Lemma small_retry_request (ch : ClientHello) : len (legacy_session_id ch) <= 32 -> small (retry_request_for ch).
Proof.
  intros Hs. apply small_message. rewrite !len_app, len_vec8, len_vec16. cbn [map concat]. unfold retry_extension, version_extension.
  rewrite !len_app, !len_encode_extension, ?len_nil, !len_be_bytes. change (len TLS13_HELLO_RETRY_REQUEST_RANDOM) with 32. unfold len in *. cbn [length]. unfold TLS_UINT24_MAX. lia.
Qed.

Lemma after_retry_Ok (first : bytes) (ch : ClientHello) : small first -> len (legacy_session_id ch) <= 32 ->
  exists t, after_hello_retry first (retry_request_for ch) = Ok t /\ heard t (retry_history first (retry_request_for ch)).
Proof.
  intros Hf Hs. unfold after_hello_retry. assert (Hlim : len first <= limit) by (unfold small, limit in *; change (u64_max / 8) with 2305843009213693951; lia).
  rewrite sha256_hash by exact Hlim. cbn [res_bind]. assert (Hh : len (hash first) <= TLS_UINT24_MAX) by (unfold len; rewrite length_hash; unfold TLS_UINT24_MAX; lia).
  rewrite encode_handshake_message_spec, decide_True by exact Hh. cbn [res_bind].
  destruct (hear (E := TlsServerHandshakeError) new_transcript [] _ heard_new (small_message HANDSHAKE_TYPE_MESSAGE_HASH (hash first) Hh) ltac:(cbn; lia)) as (t1 & -> & Ht1). cbn [res_bind].
  destruct (hear (E := TlsServerHandshakeError) t1 _ _ Ht1 (small_retry_request ch Hs) ltac:(cbn; lia)) as (t2 & -> & Ht2). by exists t2.
Qed.

Lemma hello_small (ch : ClientHello) : hello_ok ch -> small (encode_client_hello ch).
Proof. intros Hok. pose proof (len_concat_fits ch Hok) as Hl. apply small_message. unfold TLS_UINT24_MAX. lia. Qed.

(** What a hello that was read is. *)
Lemma read_hello (message : bytes) :
  match parse_client_hello message with
  | Ok ch => message = encode_client_hello ch /\ hello_ok ch /\ small message /\ len (legacy_session_id ch) <= 32
  | Err _ => True
  | Panic | Fuel => False
  end.
Proof.
  pose proof (parse_client_hello_returns message) as Hr. destruct (parse_client_hello message) as [ch|e| |] eqn:Ep; try done.
  destruct (parse_client_hello_sound message ch Ep) as [-> Hok]. split_and!; [done|done|by apply hello_small|apply Hok].
Qed.

(** Why a hello is not answered. *)
Definition hello_refused {OS : Type} `{RandomDevice OS} (message : bytes) (e : TlsServerHandshakeError) (s' : OS) : Prop :=
  match e with
  | ClientHello_error cause => parse_client_hello message = Err cause
  | _ => exists ch, parse_client_hello message = Ok ch /\ (unacceptable ch e \/ (acceptable ch /\ negotiation_fails ch e s'))
  end.

Definition first_flight {OS : Type} (message : bytes) (s s' : OS) (flight : Tls13ServerFirstFlight) : Prop :=
  exists ch, message = encode_client_hello ch /\ hello_ok ch /\ acceptable ch /\
    match flight with
    | ServerHello f => exists d a rnd, answers [message] ch d a rnd f
    | HelloRetry r => s' = s /\ secp256r1_key_share ch = None /\ retry_client_hello r = ch /\ hello_retry_request r = retry_request_for ch /\
        heard (retry_transcript r) (retry_history message (hello_retry_request r))
    end.

Lemma refused_by_negotiation {OS : Type} `{RandomDevice OS} (message : bytes) (ch : ClientHello) (e : TlsServerHandshakeError) (s' : OS) :
  parse_client_hello message = Ok ch -> acceptable ch -> negotiation_fails ch e s' -> hello_refused message e s'.
Proof. intros Hp Ha Hf. destruct e; try (by exists ch; split; [|right]). by destruct Hf. Qed.

Lemma refused_unacceptable {OS : Type} `{RandomDevice OS} (message : bytes) (ch : ClientHello) (e : TlsServerHandshakeError) (s' : OS) :
  parse_client_hello message = Ok ch -> unacceptable ch e -> hello_refused message e s'.
Proof. intros Hp Hu. destruct e; try done; by exists ch; split; [|left]. Qed.

Lemma first_flight_spec {OS : Type} `{RandomDevice OS} (fuel : nat) (message : bytes) (s : OS) :
  match negotiate_tls13_server_first_flight fuel message s with
  | (Ok flight, s') => first_flight message s s' flight
  | (Err e, s') => hello_refused message e s'
  | (Fuel, s') => no_key_in fuel s s'
  | (Panic, _) => False
  end.
Proof.
  unfold negotiate_tls13_server_first_flight, io_bind at 1, io_lift at 1. pose proof (read_hello message) as Hp.
  destruct (parse_client_hello message) as [ch|cause| |] eqn:Ep; cbn [map_err]; [|exact Ep|done|done]. destruct Hp as (Hm & Hok & Hsm & Hsid).
  unfold io_bind at 1, io_lift at 1. pose proof (validate_hello_spec ch) as Hv. destruct (validate_tls13_server_client_hello ch) as [[]|e| |]; [|by eapply refused_unacceptable|done|done].
  destruct (secp256r1_key_share ch) as [share|] eqn:Es.
  - unfold io_bind. pose proof (negotiate_from_spec fuel message ch new_transcript [] s heard_new Hsm ltac:(cbn; lia) Hsid) as Hn.
    destruct (negotiate_tls13_server_hello_from_client_hello fuel message ch new_transcript s) as [[f|e| |] s1]; try done; [by exists ch|by eapply refused_by_negotiation].
  - unfold io_lift. rewrite build_retry_request_spec by lia. cbn [res_bind]. fold (retry_request_for ch).
    destruct (after_retry_Ok message ch Hsm Hsid) as (t & -> & Ht). cbn [res_bind]. exists ch. by split_and!.
Qed.

(** C32: a hello is answered as RFC 8446 says. With a P-256 share it gets the flight whose ServerHello carries the server's
    share and random bytes, whose secrets come from the Diffie-Hellman secret and the hash of both hellos, whose
    EncryptedExtensions are sealed under the first number and name the protocol agreed on, and whose transcript is
    the three messages. Without a share it gets a retry request, and the transcript starts again from the hash of
    the hello. Every refusal has its cause, and nothing panics. *)
Theorem negotiation_correct {OS : Type} `{RandomDevice OS} (fuel : nat) (message : bytes) (s : OS) :
  match negotiate_tls13_server_first_flight fuel message s with
  | (Ok flight, s') => first_flight message s s' flight
  | (Err e, s') => hello_refused message e s'
  | (Fuel, s') => no_key_in fuel s s'
  | (Panic, _) => False
  end.
Proof. apply first_flight_spec. Qed.

(** ** The second hello *)
(** RFC 8446, 4.1.2: what the second hello may be. It repeats the first one but for the share, the padding, the
    pre-shared keys and early data: extensions 51, 21, 41 and 42. Early data it may not offer at all, nor a cookie (44),
    since the request had none; its one share is for secp256r1, which is group 23. *)
Definition kept_in_retry (extension : Z * bytes) : Prop := extension.1 ∉ [51; 21; 41; 42].
#[export] Instance kept_in_retry_dec (extension : Z * bytes) : Decision (kept_in_retry extension).
Proof. unfold kept_in_retry. apply _. Defined.

Record retry_allowed (original retry : ClientHello) : Prop := {
  retry_random : random retry = random original;
  retry_session : legacy_session_id retry = legacy_session_id original;
  retry_suites : cipher_suites retry = cipher_suites original;
  retry_psk : pre_shared_key_present retry = true -> pre_shared_key_present original = true;
  retry_no_early_data : Forall (fun e => e.1 <> 42) (raw_extensions retry);
  retry_no_cookie : Forall (fun e => e.1 <> 44) (raw_extensions retry);
  retry_share : exists key, key_shares retry = [mkKeyShare 23 key];
  retry_extensions : filter kept_in_retry (raw_extensions retry) = filter kept_in_retry (raw_extensions original)
}.

Lemma retry_invariant_filter (ch : ClientHello) : retry_invariant_extensions ch = filter kept_in_retry (raw_extensions ch).
Proof.
  unfold retry_invariant_extensions. induction (raw_extensions ch) as [|[ty data] l IH]; [done|]. rewrite filter_cons. cbn [omap list_omap]. rewrite IH.
  assert (Hm : may_change ty = true <-> ~ kept_in_retry (ty, data)).
  { unfold may_change, kept_in_retry. rewrite !orb_true_iff, !Z.eqb_eq. cbn [fst]. rewrite !elem_of_cons, elem_of_nil. change EXTENSION_KEY_SHARE with 51. change EXTENSION_PADDING with 21.
    change EXTENSION_PRE_SHARED_KEY with 41. change EXTENSION_EARLY_DATA with 42. split; [naive_solver|intros H; apply dec_stable; naive_solver]. }
  destruct (may_change ty); case_decide; try done; exfalso; naive_solver.
Qed.

Lemma has_extension_absent (ch : ClientHello) (n : Z) : has_extension ch n = false <-> Forall (fun e => e.1 <> n) (raw_extensions ch).
Proof.
  unfold has_extension. induction (raw_extensions ch) as [|[ty data] l IH]; [by split|]. cbn [existsb]. rewrite orb_false_iff, Z.eqb_neq, IH, Forall_cons. done.
Qed.

Lemma validate_retry_spec (original retry : ClientHello) :
  match validate_retry_client_hello original retry with
  | Ok _ => retry_allowed original retry
  | Err e => (e = InvalidRetryClientHello \/ e = InvalidRetryKeyShare) /\ ~ retry_allowed original retry
  | Panic | Fuel => False
  end.
Proof.
  unfold validate_retry_client_hello. destruct (bytes_eqb (random original) (random retry)) eqn:E1; cbn [negb orb].
  2: { split; [by left|]. intros [H1 _]. by rewrite H1, bytes_eqb_refl in E1. }
  destruct (bytes_eqb (legacy_session_id original) (legacy_session_id retry)) eqn:E2; cbn [negb orb].
  2: { split; [by left|]. intros [_ H2]. by rewrite H2, bytes_eqb_refl in E2. }
  case_bool_decide as E3; cbn [negb]; [|split; [by left|]; intros []; congruence].
  destruct (negb (pre_shared_key_present original) && pre_shared_key_present retry) eqn:E4.
  { split; [by left|]. intros []. destruct (pre_shared_key_present original), (pre_shared_key_present retry); naive_solver. }
  destruct (has_extension retry EXTENSION_EARLY_DATA) eqn:E5; cbn [orb]; [split; [by left|]; intros [_ _ _ _ H5 _ _ _]; apply (has_extension_absent retry EXTENSION_EARLY_DATA) in H5; congruence|].
  destruct (has_extension retry EXTENSION_COOKIE) eqn:E6; [split; [by left|]; intros [_ _ _ _ _ H6 _ _]; apply (has_extension_absent retry EXTENSION_COOKIE) in H6; congruence|]. apply has_extension_absent in E5, E6.
  destruct (key_shares retry) as [|[g key] [|]] eqn:E7; cbn [length Nat.eqb negb];
    [split; [by right|]; intros [_ _ _ _ _ _ (k & Hk) _]; congruence| |split; [by right|]; intros [_ _ _ _ _ _ (k & Hk) _]; congruence].
  cbn [index lookup list_lookup expect res_bind group]. change (index [mkKeyShare g key] 0) with (Ok (mkKeyShare g key) : res TlsServerHandshakeError _). cbn [res_bind group].
  change TLS_GROUP_SECP256R1 with 23. destruct (Z.eqb_spec g 23) as [->|Hg]; cbn [negb]; [|split; [by right|]; intros [_ _ _ _ _ _ (k & Hk) _]; congruence].
  rewrite !retry_invariant_filter. case_bool_decide as E8; cbn [negb]; [|split; [by left|]; intros []; congruence].
  apply bytes_eqb_eq in E1, E2. split; try done. { by destruct (pre_shared_key_present original), (pre_shared_key_present retry). } by exists key.
Qed.

(** The handshake goes on after a retry request. *)
Definition continued {OS : Type} `{RandomDevice OS} (fuel : nat) (first second : bytes) (ch1 : ClientHello) (s1 : OS) (o : res TlsServerHandshakeError Tls13ServerHelloFlight * OS) : Prop :=
  match o with
  | (Ok f, _) => exists ch2 d a rnd, second = encode_client_hello ch2 /\ hello_ok ch2 /\ acceptable ch2 /\ retry_allowed ch1 ch2 /\
      answers (retry_history first (retry_request_for ch1) ++ [second]) ch2 d a rnd f
  | (Err e, s2) => hello_refused second e s2 \/
      (exists ch2, second = encode_client_hello ch2 /\ acceptable ch2 /\ (e = InvalidRetryClientHello \/ e = InvalidRetryKeyShare) /\ ~ retry_allowed ch1 ch2)
  | (Fuel, s2) => no_key_in fuel s1 s2
  | (Panic, _) => False
  end.

Lemma continue_spec {OS : Type} `{RandomDevice OS} (fuel : nat) (first second : bytes) (ch1 : ClientHello) (r : Tls13HelloRetryFlight) (s1 : OS) :
  retry_client_hello r = ch1 -> heard (retry_transcript r) (retry_history first (retry_request_for ch1)) ->
  continued fuel first second ch1 s1 (continue_with_client_hello fuel r second s1).
Proof.
  intros Hch Ht. unfold continued, continue_with_client_hello, io_bind at 1, io_lift at 1. pose proof (read_hello second) as Hp.
  destruct (parse_client_hello second) as [ch2|cause| |] eqn:Ep; cbn [map_err]; [|by left|done|done]. destruct Hp as (Hm & Hok & Hsm & Hsid).
  unfold io_bind at 1, io_lift at 1. pose proof (validate_hello_spec ch2) as Hv. destruct (validate_tls13_server_client_hello ch2) as [[]|e| |]; [|left; by eapply refused_unacceptable|done|done].
  unfold io_bind at 1, io_lift at 1. rewrite Hch. pose proof (validate_retry_spec ch1 ch2) as Hr. destruct (validate_retry_client_hello ch1 ch2) as [[]|e| |]; [|right; exists ch2; naive_solver|done|done].
  pose proof (negotiate_from_spec fuel second ch2 (retry_transcript r) (retry_history first (retry_request_for ch1)) s1 Ht Hsm ltac:(cbn; lia) Hsid) as Hn.
  destruct (negotiate_tls13_server_hello_from_client_hello fuel second ch2 (retry_transcript r) s1) as [[f|e| |] s2]; try done.
  - destruct Hn as (d & a & rnd & Hn). by exists ch2, d, a, rnd.
  - left. by eapply refused_by_negotiation.
Qed.

(** C33: after a retry request the handshake goes on only from a hello that changes what RFC 8446 lets it change and
    has exactly the share asked for; its flight hashes the first hello's digest, the request and the second
    hello. Any other hello is refused with its cause, and nothing panics. *)
Theorem retry_correct {OS : Type} `{RandomDevice OS} (fuel : nat) (first second : bytes) (s : OS) :
  match negotiate_tls13_server_first_flight fuel first s with
  | (Ok (HelloRetry r), s1) =>
      exists ch1, first = encode_client_hello ch1 /\ secp256r1_key_share ch1 = None /\ hello_retry_request r = retry_request_for ch1 /\
        continued fuel first second ch1 s1 (continue_with_client_hello fuel r second s1)
  | (Ok (ServerHello _), _) | (Err _, _) | (Fuel, _) => True
  | (Panic, _) => False
  end.
Proof.
  pose proof (first_flight_spec fuel first s) as Hfirst. destruct (negotiate_tls13_server_first_flight fuel first s) as [[[f|r]|e| |] s1]; try done.
  destruct Hfirst as (ch1 & Hm1 & Hok1 & Ha1 & _ & Hshare & Hch & Hreq & Ht). rewrite Hreq in Ht. exists ch1. split_and!; try done. by apply continue_spec.
Qed.

(** ** Messages in protected records *)
Lemma io_mapM_app {S E A B : Type} (f : A -> io S E B) (l k : list A) (s : S) :
  io_mapM f (l ++ k) s = (let! bs := io_mapM f l in let! cs := io_mapM f k in io_ret (bs ++ cs)) s.
Proof.
  revert s. induction l as [|a l IH]; intros s; cbn [app io_mapM]; unfold io_bind.
  - cbn. by destruct (io_mapM f k s) as [[]].
  - destruct (f a s) as [[b|e| |] s1]; try done. rewrite IH. unfold io_bind. destruct (io_mapM f l s1) as [[bs|e| |] s2]; try done. cbn.
    by destruct (io_mapM f k s2) as [[cs|e| |] s3].
Qed.

Definition handshake_record (fragment : bytes) : TlsPlaintextRecord := mkPlaintext Handshake TLS_LEGACY_RECORD_VERSION fragment.
Definition fragments (message : bytes) : list bytes := chunks (Z.to_nat TLS_PLAINTEXT_FRAGMENT_LIMIT) message.

Definition fragment_ok (c : bytes) : Prop := c <> [] /\ len c <= TLS_PLAINTEXT_FRAGMENT_LIMIT.

Lemma fragments_ok (m : bytes) : Forall fragment_ok (fragments m) /\ concat (fragments m) = m.
Proof.
  unfold fragments, chunks. set (n := Z.to_nat TLS_PLAINTEXT_FRAGMENT_LIMIT). assert (Hn : (0 < n)%nat) by (apply Nat.ltb_lt; reflexivity).
  assert (HnZ : Z.of_nat n = TLS_PLAINTEXT_FRAGMENT_LIMIT) by reflexivity. clearbody n.
  destruct (chunks_exact_spec n m Hn) as (Hc & Hf & Hr). destruct (chunks_exact n m) as [cs r]. cbn [fst snd] in *.
  assert (Hcs : Forall fragment_ok cs).
  { eapply Forall_impl; [exact Hf|]. intros c Hlen. cbv beta in Hlen. split; [intros ->; cbn in Hlen; lia|unfold len; rewrite Hlen, HnZ; done]. }
  destruct r as [|b r]; [by rewrite app_nil_r in Hc|]. split; [|by rewrite concat_app; cbn [concat]; rewrite app_nil_r].
  apply Forall_app. split; [done|]. apply Forall_singleton. split; [done|unfold len; lia].
Qed.

Lemma length_fragments (m : bytes) : len (fragments m) <= len m.
Proof.
  destruct (fragments_ok m) as [Hok Hc]. rewrite <- Hc at 2. clear Hc. induction Hok as [|c cs [Hne _] Hok IH]; [done|]. cbn [concat]. rewrite len_app, len_cons.
  destruct c; [done|]. rewrite len_cons. pose proof (len_nonneg c). lia.
Qed.

(** Fragments in bounds are records, and their encryption does not depend on the error type. *)
Lemma encrypt_fragments (cs : list bytes) (p : Tls13RecordProtection) : Forall fragment_ok cs ->
  io_mapM encrypt_fragment cs p =
    (let '(r, p') := io_mapM (fun rp => encrypt_record rp.1 rp.2) (map (fun c => (handshake_record c, 0)) cs) p in (map_err RecordProtection r, p')).
Proof.
  intros Hall. revert p. induction Hall as [|c cs [Hne Hl] Hall IH]; intros p; [done|]. cbn [io_mapM map]. unfold io_bind at 1 3.
  unfold encrypt_fragment at 1, new_plaintext, validate_plaintext_fragment. rewrite (proj2 (Z.ltb_ge _ _)) by exact Hl. rewrite bool_decide_false by done. cbn [res_bind map_err].
  unfold io_bind at 1, io_lift, io_map_err. cbn [fst snd]. fold (handshake_record c). destruct (encrypt_record (handshake_record c) 0 p) as [[r|e| |] p1]; try done. cbn [map_err].
  unfold io_bind. rewrite IH. by destruct (io_mapM _ _ p1) as [[rs|e| |] p2].
Qed.

Lemma handshake_channel (cs : list bytes) (w r : Tls13RecordProtection) : paired w r -> Forall fragment_ok cs -> len cs <= records_left (write_sequence_number w) ->
  exists records w' r', io_mapM encrypt_fragment cs w = (Ok records, w') /\ io_mapM decrypt_record records r = (Ok (map handshake_record cs), r') /\ paired w' r'.
Proof.
  intros Hp Hall Hleft. rewrite encrypt_fragments by done. pose proof (channel (map (fun c => (handshake_record c, 0)) cs) w r Hp) as H.
  assert (Hpad : Forall (fun rp : TlsPlaintextRecord * Z => 0 <= rp.2) (map (fun c => (handshake_record c, 0)) cs)) by (apply Forall_map, Forall_true; cbn; lia).
  specialize (H Hpad). destruct (io_mapM _ _ w) as [[records|e| |] w']; [|exfalso|done|done].
  - destruct H as (_ & r' & Hd & Hp'). exists records, w', r'. split; [done|]. split; [|done]. rewrite Hd. do 2 f_equal. by rewrite map_map.
  - destruct H as [[_ H]|([rec n] & Hin & He)]; [unfold len in *; rewrite length_map in H; lia|].
    apply list_elem_of_fmap in Hin as (c & [= -> ->] & Hin). rewrite Forall_forall in Hall. destruct (Hall c Hin) as [Hne Hl]. cbn [fst snd] in He.
    unfold encode_tls_inner_plaintext, validate_plaintext_fragment in He. cbn [content_type fragment handshake_record] in He. rewrite (proj2 (Z.ltb_ge _ _)) in He by exact Hl.
    rewrite bool_decide_false in He by done. cbn [res_bind] in He. rewrite bool_decide_false in He by done. unfold TLS_INNER_PLAINTEXT_LIMIT, TLS_PLAINTEXT_FRAGMENT_LIMIT in *.
    rewrite !(proj2 (Z.ltb_ge _ _)) in He by lia. done.
Qed.

Lemma io_mapM_app_inv {S E A B : Type} (f : A -> io S E B) (l k : list A) (s s' : S) (out : list B) : io_mapM f (l ++ k) s = (Ok out, s') ->
  exists bs cs s1, io_mapM f l s = (Ok bs, s1) /\ io_mapM f k s1 = (Ok cs, s') /\ out = bs ++ cs.
Proof.
  rewrite io_mapM_app. unfold io_bind. destruct (io_mapM f l s) as [[bs|e| |] s1]; try done. destruct (io_mapM f k s1) as [[cs|e| |] s2] eqn:Ek; try done.
  intros [= <- <-]. by exists bs, cs, s1.
Qed.

(** ** One side of a protection moves, the other stays *)
Definition writes_on (p p' : Tls13RecordProtection) : Prop := protection_ok p -> exists n, p' = set_write_sequence p n.
Definition reads_on (p p' : Tls13RecordProtection) : Prop := protection_ok p -> exists n, p' = set_read_sequence p n.

#[export] Instance writes_on_preorder : PreOrder writes_on.
Proof.
  split; [intros p _; exists (write_sequence_number p); by destruct p|]. intros p q r Hpq Hqr Hp. destruct (Hpq Hp) as (n & ->).
  destruct (Hqr (set_write_ok p n Hp)) as (m & ->). by exists m.
Qed.
#[export] Instance reads_on_preorder : PreOrder reads_on.
Proof.
  split; [intros p _; exists (read_sequence_number p); by destruct p|]. intros p q r Hpq Hqr Hp. destruct (Hpq Hp) as (n & ->).
  destruct (Hqr (set_read_ok p n Hp)) as (m & ->). by exists m.
Qed.

Lemma io_mapM_moves {S E A B : Type} (R : relation S) `{!PreOrder R} (f : A -> io S E B) (l : list A) :
  (forall a s, R s (f a s).2) -> forall s, R s (io_mapM f l s).2.
Proof.
  intros Hf. induction l as [|a l IH]; intros s; [reflexivity|]. cbn [io_mapM]. unfold io_bind. specialize (Hf a s).
  destruct (f a s) as [[b|e| |] s1]; try exact Hf. specialize (IH s1). destruct (io_mapM f l s1) as [[bs|e| |] s2]; cbn [snd io_ret] in *; by transitivity s1.
Qed.

Lemma encrypt_record_writes (r : TlsPlaintextRecord) (p : Tls13RecordProtection) : writes_on p (encrypt_record r 0 p).2.
Proof.
  intros Hp. pose proof (encrypt_record_total r 0 p Hp ltac:(done)) as H. destruct (encrypt_record r 0 p) as [[c|e| |] p']; cbn [snd]; [|subst p'; by apply writes_on_preorder|done|done].
  destruct H as (n & _ & ->). by eexists.
Qed.
Lemma decrypt_record_reads (c : TlsCiphertextRecord) (p : Tls13RecordProtection) : reads_on p (decrypt_record c p).2.
Proof.
  intros Hp. pose proof (decrypt_record_total c p Hp) as H. destruct (decrypt_record c p) as [[r|e| |] p']; cbn [snd]; [|subst p'; by apply reads_on_preorder|done|done].
  destruct H as (n & _ & ->). by eexists.
Qed.

Lemma encrypt_fragment_writes (c : bytes) (p : Tls13RecordProtection) : writes_on p (encrypt_fragment c p).2.
Proof.
  unfold encrypt_fragment, io_bind, io_lift, io_map_err. destruct (new_plaintext Handshake c) as [r|e| |]; cbn [map_err]; [|reflexivity..].
  pose proof (encrypt_record_writes r p) as H. by destruct (encrypt_record r 0 p).
Qed.

(** A protection that reads on, and one that writes on, are still the two ends of the other direction. *)
Lemma paired_moves (w r w' r' : Tls13RecordProtection) : paired w r -> reads_on w w' -> writes_on r r' -> paired w' r'.
Proof.
  intros [H1 H2 H3 H4 H5 H6] Hr Hw. destruct (Hr H1) as (n & ->), (Hw H2) as (m & ->). split; try done; [by apply set_read_ok|by apply set_write_ok].
Qed.

(** Three messages, one after the other, in the records of one direction. *)
Lemma seal_three (a b c : bytes) (w r : Tls13RecordProtection) : paired w r -> len a + len b + len c <= records_left (write_sequence_number w) ->
  exists ra rb rc w1 w2 w3 r3, encrypt_handshake_message_records a w = (Ok ra, w1) /\ encrypt_handshake_message_records b w1 = (Ok rb, w2) /\
    encrypt_handshake_message_records c w2 = (Ok rc, w3) /\ paired w3 r3 /\ writes_on w w3 /\
    io_mapM decrypt_record (ra ++ rb ++ rc) r = (Ok (map handshake_record (fragments a ++ fragments b ++ fragments c)), r3).
Proof.
  intros Hp Hl. destruct (handshake_channel (fragments a ++ fragments b ++ fragments c) w r Hp) as (records & w3 & r3 & He & Hd & Hp3).
  - rewrite !Forall_app. split_and!; apply fragments_ok.
  - rewrite !len_app. pose proof (length_fragments a). pose proof (length_fragments b). pose proof (length_fragments c). lia.
  - pose proof (io_mapM_moves writes_on encrypt_fragment (fragments a ++ fragments b ++ fragments c) encrypt_fragment_writes w) as Hw. rewrite He in Hw.
    apply io_mapM_app_inv in He as (ra & rest & w1 & Ha & He & ->). apply io_mapM_app_inv in He as (rb & rc & w2 & Hb & Hc & ->).
    by exists ra, rb, rc, w1, w2, w3, r3.
Qed.

(** ** Authentication of the server *)
(** A flight in use: what it has heard and its secrets. *)
Record flight_ok (history : list bytes) (f : Tls13ServerHelloFlight) : Prop := {
  ok_heard : heard (transcript f) history;
  ok_history : (length history <= 10)%nat;
  ok_server_secret : length (server_handshake_traffic_secret f) = 32%nat;
  ok_client_secret : length (client_handshake_traffic_secret f) = 32%nat;
  ok_main_secret : length (main_secret f) = 32%nat
}.

Lemma answers_ok (history : list bytes) (ch : ClientHello) (d : Scalar) (a : Fp * Fp) (rnd : bytes) (f : Tls13ServerHelloFlight) : (length history <= 4)%nat ->
  answers history ch d a rnd f -> flight_ok (history ++ [server_hello f; encrypted_extensions f]) f.
Proof.
  intros Hl (share & ks & x & y & _ & _ & _ & _ & _ & _ & _ & _ & Hf). destruct (flight_protection_ok _ _ _ _ _ _ Hf) as (Hc & Hs & Hm & _ & _).
  split; try assumption; [exact (flight_transcript _ _ _ _ _ _ Hf)|rewrite length_app; cbn [length]; lia].
Qed.

Definition messages_of (a : Tls13ServerAuthenticationFlight) : list bytes := [certificate a; certificate_verify a; finished a].
Definition records_of (a : Tls13ServerAuthenticationFlight) : list TlsCiphertextRecord :=
  certificate_records a ++ certificate_verify_records a ++ finished_records a.

(** The messages of the authentication, after [history]. *)
Definition authentication_for (history : list bytes) (fuel : nat) (chain : list bytes) (signing_key : Scalar) (secret : bytes) (a : Tls13ServerAuthenticationFlight) : Prop :=
  build_tls13_certificate chain = Ok (certificate a) /\
  build_tls13_server_certificate_verify fuel signing_key (hash (concat (history ++ [certificate a]))) = Ok (certificate_verify a) /\
  finished a = finished_message secret (hash (concat (history ++ [certificate a; certificate_verify a]))).

Lemma small_finished (secret th : bytes) : small (finished_message secret th) /\ len (finished_message secret th) = 36.
Proof.
  assert (Hl : len (verify_data secret th) = 32) by (unfold len; unfold verify_data; by rewrite length_hmac). split.
  - apply small_message. rewrite Hl. discriminate.
  - unfold finished_message, handshake_message. rewrite len_cons, len_app, len_be_bytes, Hl. reflexivity.
Qed.

Lemma certificate_small (chain : list bytes) (m : bytes) : build_tls13_certificate chain = Ok m -> small m.
Proof.
  intros Hb. pose proof (build_certificate_spec chain) as H. rewrite Hb in H. destruct H as (-> & _ & _ & Hl). apply small_message.
  unfold vec24. rewrite !len_app, len_be_bytes. change (len [x00]) with 1. lia.
Qed.

Lemma certificate_message_returns (chain : list bytes) : returns (build_tls13_certificate chain).
Proof. pose proof (build_certificate_spec chain) as H. by destruct (build_tls13_certificate chain). Qed.

Lemma certificate_verify_small (fuel : nat) (d : Fn) (th m : bytes) : length th = 32%nat -> build_tls13_server_certificate_verify fuel (encs d) th = Ok m -> small m.
Proof.
  intros Ht Hb. unfold build_tls13_server_certificate_verify in Hb. apply res_bind_Ok in Hb as (sg & _ & Hb). apply res_bind_Ok in Hb as (sd & _ & Hb).
  apply res_bind_Ok in Hb as (n & _ & Hb). apply encoded_small in Hb as [_ Hb]. exact Hb.
Qed.

Section authentication.
Variables (fuel : nat) (chain : list bytes) (d : Fn) (f : Tls13ServerHelloFlight) (history : list bytes).
Hypothesis Hok : flight_ok history f.
Hypothesis Hnew : server_authentication_started f = false.

(** The messages and the transcript that [authenticate_server] computes before it seals anything. *)
Lemma authentication_messages :
  (exists cert verify, let fin := finished_message (server_handshake_traffic_secret f) (hash (concat (history ++ [cert; verify]))) in
     build_tls13_certificate chain = Ok cert /\ build_tls13_server_certificate_verify fuel (encs d) (hash (concat (history ++ [cert]))) = Ok verify /\
     exists t, heard t (history ++ [cert; verify; fin]) /\
       authenticate_server fuel chain (encs d) f =
         (let! ra := on_protection (encrypt_handshake_message_records cert) in
          let! rb := on_protection (encrypt_handshake_message_records verify) in
          let! rc := on_protection (encrypt_handshake_message_records fin) in
          let! _ := modify (fun f => set_transcript f t) in
          io_ret (mkAuthenticationFlight cert ra verify rb fin rc)) (set_started f)) \/
  (exists e, build_tls13_certificate chain = Err e /\ authenticate_server fuel chain (encs d) f = (Err e, f)) \/
  (exists cert, build_tls13_certificate chain = Ok cert /\
     match build_tls13_server_certificate_verify fuel (encs d) (hash (concat (history ++ [cert]))) with
     | Ok _ | Panic => False
     | Err e => authenticate_server fuel chain (encs d) f = (Err e, f)
     | Fuel => authenticate_server fuel chain (encs d) f = (Fuel, f)
     end).
Proof.
  assert (Hout : authenticate_server fuel chain (encs d) f = authenticate_server fuel chain (encs d) f) by done. revert Hout.
  unfold authenticate_server at 2. unfold io_bind at 1, gets at 1. rewrite Hnew. unfold io_bind at 1, io_lift at 1. pose proof (certificate_message_returns chain) as Hr.
  destruct (build_tls13_certificate chain) as [cert|e| |] eqn:Eb; try done; [|intros Hout; right; left; by exists e]. pose proof (certificate_small chain cert Eb) as Hsc.
  unfold io_bind at 1, gets at 1. unfold io_bind at 1, io_lift at 1. pose proof (ok_history _ _ Hok) as Hh.
  destruct (hear (E := TlsServerHandshakeError) _ _ cert (ok_heard _ _ Hok) Hsc ltac:(lia)) as (t1 & -> & Ht1). unfold io_bind at 1, io_lift at 1. rewrite (heard_hash t1 _ Ht1).
  unfold io_bind at 1, io_lift at 1. set (th := hash (concat (history ++ [cert]))). assert (Hth : length th = 32%nat) by apply length_hash.
  pose proof (build_certificate_verify_spec fuel d th Hth) as Hv. cbv zeta in Hv.
  destruct (build_tls13_server_certificate_verify fuel (encs d) th) as [verify|e| |] eqn:Ev; [|intros Hout; right; right; exists cert; split; [done|]; fold th; by rewrite Ev..].
  pose proof (certificate_verify_small fuel d th verify Hth Ev) as Hsv.
  unfold io_bind at 1, io_lift at 1. destruct (hear (E := TlsServerHandshakeError) t1 _ verify Ht1 Hsv ltac:(rewrite length_app; cbn [length]; lia)) as (t2 & -> & Ht2).
  unfold io_bind at 1, io_lift at 1. rewrite (heard_hash t2 _ Ht2). rewrite <- app_assoc in *. cbn [app] in *. unfold io_bind at 1, gets at 1. unfold io_bind at 1, io_lift at 1.
  rewrite build_finished_Ok by (apply (ok_server_secret _ _ Hok) || apply length_hash). set (fin := finished_message _ _).
  unfold io_bind at 1, io_lift at 1. destruct (hear (E := TlsServerHandshakeError) t2 _ fin Ht2 (proj1 (small_finished _ _)) ltac:(rewrite length_app; cbn [length]; lia)) as (t3 & -> & Ht3).
  unfold io_bind at 1, modify at 1. intros Hout. rewrite <- app_assoc in Ht3.
  left. exists cert, verify. split; [done|]. split; [done|]. by exists t3.
Qed.
End authentication.

Lemma on_protection_run {E A : Type} (m : io Tls13RecordProtection E A) (f : Tls13ServerHelloFlight) (a : A) (p : Tls13RecordProtection) :
  m (handshake_record_protection f) = (Ok a, p) -> on_protection m f = (Ok a, set_protection f p).
Proof. intros Hm. unfold on_protection, io_zoom. by rewrite Hm. Qed.

(** The flight after its authentication. *)
Record authenticated (history : list bytes) (f : Tls13ServerHelloFlight) (a : Tls13ServerAuthenticationFlight) (f' : Tls13ServerHelloFlight) : Prop := {
  auth_heard : heard (transcript f') (history ++ messages_of a);
  auth_started : server_authentication_started f' = true;
  auth_server_secret : server_handshake_traffic_secret f' = server_handshake_traffic_secret f;
  auth_client_secret : client_handshake_traffic_secret f' = client_handshake_traffic_secret f;
  auth_main_secret : main_secret f' = main_secret f;
  auth_alpn : negotiated_alpn f' = negotiated_alpn f;
  auth_extensions : encrypted_extensions_record f' = encrypted_extensions_record f;
  auth_writes : writes_on (handshake_record_protection f) (handshake_record_protection f')
}.

(** Room for the records of three messages of any size. *)
Definition room (p : Tls13RecordProtection) : Prop := 50331657 <= records_left (write_sequence_number p).

Lemma authenticate_spec (fuel : nat) (chain : list bytes) (d : Fn) (f : Tls13ServerHelloFlight) (history : list bytes) (r : Tls13RecordProtection) :
  flight_ok history f -> server_authentication_started f = false -> paired (handshake_record_protection f) r -> room (handshake_record_protection f) ->
  match authenticate_server fuel chain (encs d) f with
  | (Ok a, f') =>
      authentication_for history fuel chain (encs d) (server_handshake_traffic_secret f) a /\ authenticated history f a f' /\
      exists parts r', io_mapM decrypt_record (records_of a) r = (Ok (map handshake_record parts), r') /\ concat parts = concat (messages_of a) /\
        paired (handshake_record_protection f') r'
  | (Err e, f') => f' = f /\ (build_tls13_certificate chain = Err e \/
      exists cert, build_tls13_certificate chain = Ok cert /\ build_tls13_server_certificate_verify fuel (encs d) (hash (concat (history ++ [cert]))) = Err e)
  | (Fuel, f') => f' = f /\ exists cert, build_tls13_certificate chain = Ok cert /\
      build_tls13_server_certificate_verify fuel (encs d) (hash (concat (history ++ [cert]))) = Fuel
  | (Panic, _) => False
  end.
Proof.
  intros Hok Hnew Hp Hroom. destruct (authentication_messages fuel chain d f history Hok Hnew) as [(cert & verify & H)|[(e & Hb & ->)|(cert & Hb & H)]]; [|by split; [|left]|].
  2: { destruct (build_tls13_server_certificate_verify fuel (encs d) _) as [v|e| |] eqn:Ev; try done; rewrite H; split; try done; [right|]; by exists cert. }
  cbv zeta in H. destruct H as (Hb & Hv & t & Ht & ->). set (fin := finished_message _ _) in *.
  pose proof (certificate_small chain cert Hb) as Hsc. pose proof (certificate_verify_small fuel d _ verify (length_hash _) Hv) as Hsv.
  destruct (small_finished (server_handshake_traffic_secret f) (hash (concat (history ++ [cert; verify])))) as [_ Hlf]. fold fin in Hlf. unfold small in *.
  destruct (seal_three cert verify fin _ _ Hp ltac:(unfold room in Hroom; lia)) as (ra & rb & rc & w1 & w2 & w3 & r3 & Ha & Hbb & Hc & Hp3 & Hwr & Hd).
  unfold io_bind at 1. rewrite (on_protection_run _ (set_started f) ra w1 Ha). unfold io_bind at 1. rewrite (on_protection_run _ (set_protection (set_started f) w1) rb w2 Hbb).
  unfold io_bind at 1. rewrite (on_protection_run _ (set_protection (set_protection (set_started f) w1) w2) rc w3 Hc). unfold io_bind, modify, io_ret.
  split; [by split_and!|]. split; [by split|]. exists (fragments cert ++ fragments verify ++ fragments fin), r3. split; [exact Hd|]. split; [|exact Hp3].
  rewrite !concat_app, !(proj2 (fragments_ok _)). unfold messages_of. cbn [concat certificate certificate_verify finished]. by rewrite app_nil_r.
Qed.

(** A flight with fixed secrets, whose protection is [new_protection] of fixed keys. *)
Definition example_protection : Tls13RecordProtection := new_protection (repeat x04 32) (repeat x05 12) (repeat x06 32) (repeat x07 12).
Definition example_peer : Tls13RecordProtection := new_protection (repeat x06 32) (repeat x07 12) (repeat x04 32) (repeat x05 12).
Definition example_flight : Tls13ServerHelloFlight :=
  mkHelloFlight [] [] [] (mkCiphertext 0 []) None (repeat x01 32) (repeat x02 32) (repeat x03 32) new_transcript example_protection false.

Lemma paired_new (k1 v1 k2 v2 : bytes) : length k1 = 32%nat -> length v1 = 12%nat -> length k2 = 32%nat -> length v2 = 12%nat ->
  paired (new_protection k1 v1 k2 v2) (new_protection k2 v2 k1 v1).
Proof. intros. split; try done. intros n Hn. cbn in Hn. injection Hn as <-. by vm_compute. Qed.

Lemma example_flight_ok : flight_ok [] example_flight.
Proof. split; [exact heard_new|cbn; lia|reflexivity..]. Qed.
Lemma example_paired : paired example_protection example_peer /\ paired example_peer example_protection.
Proof. split; by apply paired_new. Qed.

(** The server authenticates itself once. The first call sends Certificate, CertificateVerify over the transcript up to it, and
    Finished over both, in records that the client's end of the channel opens to exactly these messages; the transcript
    then has them, and the secrets are the same. A chain or key that is refused changes nothing, and a second
    call is refused. *)
Theorem authenticate_server_correct (fuel : nat) (chain : list bytes) (d : Fn) (f : Tls13ServerHelloFlight) (history : list bytes) (r : Tls13RecordProtection)
  (Hok : flight_ok history f) (Hnew : server_authentication_started f = false) (Hp : paired (handshake_record_protection f) r)
  (Hroom : room (handshake_record_protection f)) :
  match authenticate_server fuel chain (encs d) f with
  | (Ok a, f') =>
      authentication_for history fuel chain (encs d) (server_handshake_traffic_secret f) a /\ authenticated history f a f' /\
      (exists parts r', io_mapM decrypt_record (records_of a) r = (Ok (map handshake_record parts), r') /\ concat parts = concat (messages_of a) /\
        paired (handshake_record_protection f') r') /\
      forall fuel' chain' key', authenticate_server fuel' chain' key' f' = (Err AuthenticationAlreadyStarted, f')
  | (Err e, f') => f' = f /\ (build_tls13_certificate chain = Err e \/
      exists cert, build_tls13_certificate chain = Ok cert /\ build_tls13_server_certificate_verify fuel (encs d) (hash (concat (history ++ [cert]))) = Err e)
  | (Fuel, f') => f' = f /\ exists cert, build_tls13_certificate chain = Ok cert /\
      build_tls13_server_certificate_verify fuel (encs d) (hash (concat (history ++ [cert]))) = Fuel
  | (Panic, _) => False
  end.
Proof.
  pose proof (authenticate_spec fuel chain d f history r Hok Hnew Hp Hroom) as H. destruct (authenticate_server fuel chain (encs d) f) as [[a|e| |] f']; try done.
  destruct H as (Hm & Ha & Hd). split_and!; try done. intros fuel' chain' key'. unfold authenticate_server, io_bind at 1, gets at 1. by rewrite (auth_started _ _ _ _ Ha).
Qed.

Lemma authenticate_server_correct_witness :
  match authenticate_server 1 [] (encs (Zmod.of_Z group_order 1)) example_flight with
  | (Err e, f') => f' = example_flight /\ e = EmptyCertificateChain
  | _ => False
  end.
Proof.
  pose proof (authenticate_server_correct 1 [] (Zmod.of_Z group_order 1) example_flight [] example_peer example_flight_ok eq_refl (proj1 example_paired) ltac:(vm_compute; discriminate)) as H.
  destruct (authenticate_server 1 [] (encs (Zmod.of_Z group_order 1)) example_flight) as [[a|e| |] f'].
  - destruct H as ((Hc & _) & _). discriminate Hc.
  - destruct H as (Hf & [He|(cert & Hc & _)]); [split; [exact Hf|by injection He]|discriminate Hc].
  - destruct H.
  - destruct H as (_ & cert & Hc & _). discriminate Hc.
Defined.

(** ** The client's Finished *)
Definition opened (records : list TlsCiphertextRecord) (p : Tls13RecordProtection) (message : bytes) : Prop :=
  exists plain p', io_mapM decrypt_record records p = (Ok plain, p') /\ Forall (fun r => content_type r = Handshake) plain /\ message = concat (map fragment plain).

Lemma read_records (records : list TlsCiphertextRecord) (acc : bytes) (p : Tls13RecordProtection) : protection_ok p -> (length acc <= finished_limit)%nat ->
  match (io_foldM finished_record acc records p).1 with
  | Ok m => (length m <= finished_limit)%nat /\ exists rest, m = acc ++ rest /\ opened records p rest
  | Err _ => ~ exists rest, opened records p rest /\ (length (acc ++ rest) <= finished_limit)%nat
  | Panic | Fuel => False
  end.
Proof.
  revert acc p. induction records as [|c records IH]; intros acc p Hp Hl; cbn [io_foldM].
  - split; [done|]. exists []. rewrite app_nil_r. split; [done|]. exists [], p. by split_and!.
  - unfold io_bind, finished_record at 1. unfold io_bind at 1, io_map_err at 1. pose proof (decrypt_record_total c p Hp) as Ht.
    destruct (decrypt_record c p) as [[r|e| |] p1] eqn:Ed; cbn [map_err]; [| |done|done].
    2: { cbn. intros (rest & (plain & p' & Ho & _) & _). cbn [io_mapM] in Ho. unfold io_bind in Ho. by rewrite Ed in Ho. }
    assert (Hp1 : protection_ok p1) by (destruct Ht as (k & _ & ->); by apply set_read_ok).
    assert (Hinv : forall rest, opened (c :: records) p rest -> content_type r = Handshake /\ exists rest', rest = fragment r ++ rest' /\ opened records p1 rest').
    { intros rest (plain & p' & Ho & Hall & ->). cbn [io_mapM] in Ho. unfold io_bind in Ho. rewrite Ed in Ho. destruct (io_mapM decrypt_record records p1) as [[rs|e| |] p2] eqn:Er; try done.
      injection Ho as <- <-. apply Forall_cons in Hall as [Hr Hall]. split; [done|]. exists (concat (map fragment rs)). split; [done|]. by exists rs, p2. }
    destruct (bool_decide_reflect (content_type r = Handshake)) as [Hr|Hr]; cbn [negb].
    2: { cbn. intros (rest & Ho & _). by destruct (Hinv rest Ho). }
    destruct (Nat.ltb_spec finished_limit (length (acc ++ fragment r))) as [Hlong|Hshort].
    { unfold io_err. cbn [fst]. intros (rest & Ho & Hle). destruct (Hinv rest Ho) as (_ & rest' & -> & _). rewrite !length_app in Hle. rewrite !length_app in Hlong. lia. }
    unfold io_ret. specialize (IH (acc ++ fragment r) p1 Hp1 Hshort). destruct (io_foldM finished_record (acc ++ fragment r) records p1) as [[m|e| |] p2]; cbn [fst] in *; try done.
    + destruct IH as (Hm & rest & -> & (plain & p' & Ho & Hall & ->)). split; [done|]. exists (fragment r ++ concat (map fragment plain)). split; [by rewrite app_assoc|].
      exists (r :: plain), p'. split_and!; [|by apply Forall_cons|done]. cbn [io_mapM]. unfold io_bind. by rewrite Ed, Ho.
    + intros (rest & Ho & Hle). destruct (Hinv rest Ho) as (_ & rest' & -> & Ho'). apply IH. exists rest'. by rewrite <- app_assoc.
Qed.

(** A Finished message is a header and 32 bytes. *)
Lemma check_finished_spec (m : bytes) :
  match check_finished m with
  | Ok m' => m' = m /\ exists vd, length vd = 32%nat /\ m = handshake_message HANDSHAKE_TYPE_FINISHED vd
  | Err e => e = InvalidClientFinished /\ ~ exists vd, length vd = 32%nat /\ m = handshake_message HANDSHAKE_TYPE_FINISHED vd
  | Panic | Fuel => False
  end.
Proof.
  unfold check_finished. change finished_limit with 36%nat. destruct (Nat.eqb_spec (length m) 36) as [Hl|Hl]; cbn [negb].
  2: { split; [done|]. intros (vd & Hv & ->). apply Hl. unfold handshake_message. cbn [length]. by rewrite length_app, length_be_bytes, Hv. }
  destruct (header_cases m) as [Hs|(ty & l & body & -> & Hll & _)]; [apply Nat.ltb_lt in Hs; unfold HANDSHAKE_HEADER_SIZE in Hs; lia|].
  assert (Hb : length body = 32%nat) by (cbn [length] in Hl; rewrite length_app in Hl; lia).
  destruct (header_parts (E := TlsServerHandshakeError) ty l body Hll) as (-> & -> & _). cbn [res_bind].
  destruct (byte_eqb ty HANDSHAKE_TYPE_FINISHED) eqn:Et; cbn [negb].
  2: { split; [done|]. intros (vd & Hv & E). apply header_inj in E as (-> & _); [by rewrite byte_eqb_refl in Et|done|apply length_be_bytes]. }
  apply byte_eqb_eq in Et as ->. change (Z.of_nat TLS_SHA256_HASH_SIZE) with 32. destruct (Z.eqb_spec (be_value 0 l) 32) as [Hd|Hd]; cbn [negb].
  - split; [done|]. exists body. split; [done|]. unfold handshake_message. f_equal. f_equal. apply header_length; [done|]. by rewrite Hd, Hb.
  - split; [done|]. intros (vd & Hv & E). apply header_inj in E as (_ & -> & ->); [|done|apply length_be_bytes]. apply Hd. rewrite header_declares; unfold len; by rewrite Hv.
Qed.

Lemma client_finished_spec (records : list TlsCiphertextRecord) (p : Tls13RecordProtection) : protection_ok p ->
  match (decrypt_tls13_client_finished records p).1 with
  | Ok m => opened records p m /\ exists vd, length vd = 32%nat /\ m = handshake_message HANDSHAKE_TYPE_FINISHED vd
  | Err _ => ~ exists vd, length vd = 32%nat /\ opened records p (handshake_message HANDSHAKE_TYPE_FINISHED vd)
  | Panic | Fuel => False
  end.
Proof.
  intros Hp. unfold decrypt_tls13_client_finished. case_bool_decide as Hne.
  { subst records. cbn. intros (vd & _ & (plain & p' & [= <- <-] & _ & E)). discriminate E. }
  unfold io_bind. pose proof (read_records records [] p Hp ltac:(cbn; lia)) as H. destruct (io_foldM finished_record [] records p) as [[m|e| |] p1]; cbn [fst] in *; try done.
  - destruct H as (Hl & rest & -> & Ho). cbn [app] in *. unfold io_lift. cbn [fst]. pose proof (check_finished_spec rest) as Hc. destruct (check_finished rest) as [m|e| |]; try done.
    + by destruct Hc as (-> & Hc).
    + destruct Hc as [_ Hc]. intros (vd & Hv & Ho'). apply Hc. exists vd. split; [done|]. destruct Ho as (pl & q & Hd & _ & ->), Ho' as (pl' & q' & Hd' & _ & E). rewrite Hd in Hd'. by injection Hd' as <- _.
  - intros (vd & Hv & Ho). apply H. exists (handshake_message HANDSHAKE_TYPE_FINISHED vd). split; [done|]. cbn [app]. unfold handshake_message. cbn [length]. rewrite length_app, length_be_bytes, Hv.
    change finished_limit with 36%nat. lia.
Qed.

(** ** The end of the handshake *)
(** The application state after [history] and the client's Finished. *)
Definition application_state_for (history : list bytes) (f : Tls13ServerHelloFlight) : Tls13ApplicationState :=
  let keys := application_keys (main_secret f) (hash (concat history)) in
  let client_finished := finished_message (client_handshake_traffic_secret f) (hash (concat history)) in
  mkApplicationState (negotiated_alpn f) (ap_client_application_traffic_secret keys) (ap_server_application_traffic_secret keys)
    (hash (concat (history ++ [client_finished])))
    (new_protection (ap_server_key keys) (ap_server_iv keys) (ap_client_key keys) (ap_client_iv keys)) false false false.

Lemma verify_data_of (vd : bytes) : slice_from (handshake_message HANDSHAKE_TYPE_FINISHED vd) HANDSHAKE_HEADER_SIZE = Ok vd :> res TlsServerHandshakeError _.
Proof. by destruct (header_parts (E := TlsServerHandshakeError) HANDSHAKE_TYPE_FINISHED (be_bytes 3 (len vd)) vd (length_be_bytes 3 _)) as (_ & _ & _ & H). Qed.

Lemma complete_spec (records : list TlsCiphertextRecord) (f : Tls13ServerHelloFlight) (history : list bytes) : flight_ok history f ->
  protection_ok (handshake_record_protection f) ->
  let expected := finished_message (client_handshake_traffic_secret f) (hash (concat history)) in
  match complete_handshake records f with
  | Ok s => server_authentication_started f = true /\ opened records (handshake_record_protection f) expected /\ s = application_state_for history f
  | Err e => (server_authentication_started f = false /\ e = ServerAuthenticationRequired) \/
             (server_authentication_started f = true /\ ~ opened records (handshake_record_protection f) expected)
  | Panic | Fuel => False
  end.
Proof.
  intros [Ht Hl Hs Hc Hm] Hp expected. unfold complete_handshake. destruct (server_authentication_started f) eqn:Est; [|by left]. cbn [negb].
  rewrite (heard_hash _ _ Ht). cbn [res_bind]. set (th := hash (concat history)) in *. assert (Hth : length th = 32%nat) by apply length_hash.
  rewrite application_schedule_Ok by done. cbn [map_err res_bind]. destruct (verify_data_Ok (client_handshake_traffic_secret f) th Hc Hth) as [Hv Hvl].
  assert (Hexp : expected = handshake_message HANDSHAKE_TYPE_FINISHED (verify_data (client_handshake_traffic_secret f) th)) by done.
  pose proof (client_finished_spec records (handshake_record_protection f) Hp) as Hd. destruct (decrypt_tls13_client_finished records (handshake_record_protection f)).1 as [m|e| |]; cbn [res_bind]; try done.
  2: { right. split; [done|]. rewrite Hexp. intros Ho. apply Hd. by eexists. }
  destruct Hd as (Ho & vd & Hvd & ->). rewrite Hv. cbn [map_err res_bind]. rewrite verify_data_of. cbn [res_bind]. rewrite constant_time_eq_spec.
  case_bool_decide as Heq; cbn [negb].
  - subst vd. rewrite <- Hexp. destruct (hear (E := TlsServerHandshakeError) _ _ expected Ht (proj1 (small_finished _ _)) ltac:(lia)) as (t' & -> & Ht'). cbn [res_bind].
    rewrite (heard_hash _ _ Ht'). cbn [res_bind]. split_and!; [done|by rewrite Hexp|done].
  - right. split; [done|]. intros (pl & q & Hd & _ & E). destruct Ho as (pl' & q' & Hd' & _ & E'). rewrite Hd in Hd'. injection Hd' as <- _. rewrite <- E', Hexp in E.
    apply header_inj in E as (_ & _ & E); [|apply length_be_bytes..]. by apply Heq.
Qed.

(** C10: the handshake completes exactly when the server has authenticated itself and the client's records open to the one
    Finished message that the client's secret and the transcript give, in however many records; the application state then
    has the keys of the main secret and the transcript up to the server's Finished, in their directions, and the hash of
    the whole handshake. Everything else is refused, and nothing panics. *)
Theorem complete_handshake_correct (records : list TlsCiphertextRecord) (f : Tls13ServerHelloFlight) (history : list bytes)
  (Hok : flight_ok history f) (Hp : protection_ok (handshake_record_protection f)) :
  let expected := finished_message (client_handshake_traffic_secret f) (hash (concat history)) in
  returns (complete_handshake records f) /\
  (forall s, complete_handshake records f = Ok s <->
     server_authentication_started f = true /\ opened records (handshake_record_protection f) expected /\ s = application_state_for history f) /\
  (server_authentication_started f = false -> complete_handshake records f = Err ServerAuthenticationRequired).
Proof.
  intros expected. pose proof (complete_spec records f history Hok Hp) as H. cbv zeta in H. fold expected in H. split_and!.
  - by destruct (complete_handshake records f).
  - intros s. destruct (complete_handshake records f) as [s'|e| |]; try done; split.
    + intros [= <-]. exact H.
    + intros (_ & _ & ->). by destruct H as (_ & _ & ->).
    + done.
    + intros (Hs & Ho & _). destruct H as [[Hs' _]|[_ H]]; [congruence|by destruct H].
  - intros Hs. unfold complete_handshake. by rewrite Hs.
Qed.

Lemma complete_handshake_correct_witness :
  complete_handshake [] example_flight = Err ServerAuthenticationRequired /\
  match complete_handshake [mkCiphertext TLS_LEGACY_RECORD_VERSION []] (set_started example_flight) with Err _ => True | _ => False end.
Proof.
  split; [exact (proj2 (proj2 (complete_handshake_correct [] example_flight [] example_flight_ok (pair_writer _ _ (proj1 example_paired)))) eq_refl)|].
  assert (Hok : flight_ok [] (set_started example_flight)) by (split; [exact heard_new|cbn; lia|reflexivity..]).
  pose proof (complete_handshake_correct [mkCiphertext TLS_LEGACY_RECORD_VERSION []] (set_started example_flight) [] Hok (pair_writer _ _ (proj1 example_paired))) as (Hr & Hs & _).
  destruct (complete_handshake [mkCiphertext TLS_LEGACY_RECORD_VERSION []] (set_started example_flight)) as [s|e| |]; try done.
  destruct (proj1 (Hs s) eq_refl) as (_ & (plain & p' & Ho & _) & _). vm_compute in Ho. discriminate Ho.
Defined.
