(* ===== verification/TlsClient.v ===== *)
(** * The client's handshake, and its agreement with the server's: [src/tls.rs]

    The client draws its random bytes and key, and reads the server's hello. Both ends derive the same
    secrets: the two products of the Diffie-Hellman exchange are the same point, by the group law of
    [CurveGroup]. *)
From Stdlib Require Import ZArith Zmod Lia.
From stdpp Require Import prelude.
From S2P Require Import Prelude Bytes NetAddr Io Uint256 Sha256 Encoding Poly1305 ChaCha20 Primes Curve P256 Ecdsa Der Pem Keys TlsRecord TlsMessages TlsHello TlsCredentials TlsHandshake TlsApplication TlsServer.
Local Open Scope Z_scope.
Set Warnings "-clear-no-such-hyp".
#[local] Opaque hash hmac derived.

(** ** The client's flight *)
Definition client_flight_of (name : bytes) (cl : Tls13ClientHelloFlight) : Prop :=
  is_valid_server_name name = true /\ private_key_ok (client_private_key cl) /\ exists rnd pk, length rnd = 32%nat /\
    to_sec1_uncompressed (enc_point (multiple _ (value (client_private_key cl)) gen)) = Ok pk /\ length pk = 65%nat /\
    client_hello_message cl = encode_client_hello (client_hello_for name rnd pk) /\ heard (client_transcript cl) [client_hello_message cl].

Definition client_flight_fails {OS : Type} `{RandomDevice OS} (name : bytes) (e : TlsClientHandshakeError) (s' : OS) : Prop :=
  match e with
  | ClientHello_build InvalidServerName_build => is_valid_server_name name = false
  | ClientHello_build (PublicKey _) => exists d, private_key_ok d /\ multiple _ (value d) gen = None
  | Random_client cause => exists s1, fill_random 32 s1 = (Err cause, s')
  | _ => False
  end.

Lemma generated_key_ok {OS : Type} `{RandomDevice OS} (fuel : nat) (s s' : OS) (d : Scalar) : generate_ephemeral_p256_private_key fuel s = (Ok d, s') -> private_key_ok d.
Proof.
  intros Hg. pose proof (generate_spec fuel s) as Hs. rewrite Hg in Hs. destruct Hs as (_ & c & _ & _ & _ & Hin & Hd & Hv). split; [done|]. rewrite Hv.
  pose proof (be_value_range c). unfold out_of_range in Hin. lia.
Qed.

Lemma new_client_spec {OS : Type} `{RandomDevice OS} (fuel : nat) (name : bytes) (s : OS) :
  match new_client_flight fuel name s with
  | (Ok cl, _) => client_flight_of name cl
  | (Err e, s') => client_flight_fails name e s'
  | (Fuel, s') => exists s1, no_key_in fuel s1 s'
  | (Panic, _) => False
  end.
Proof.
  unfold new_client_flight. destruct (is_valid_server_name name) eqn:Hv; cbn [negb]; [|done]. unfold io_bind at 1, io_map_err at 1.
  pose proof (fill_random_law 32 s) as Hr. destruct (fill_random 32 s) as [[rnd|e| |] s1] eqn:Ef; cbn [map_err]; [|by exists s|done|done].
  unfold io_bind at 1, io_map_err at 1. pose proof (generate_spec fuel s1) as Hg. destruct (generate_ephemeral_p256_private_key fuel s1) as [[d|e| |] s2] eqn:Eg; cbn [map_err]; [|by eapply draws_error|done|by exists s1].
  pose proof (generated_key_ok fuel s1 s2 d Eg) as Hkey. pose proof Hkey as [Hd Hrange]. unfold io_lift.
  assert (Hne : d <> ZERO) by (intros ->; vm_compute in Hrange; destruct Hrange; discriminate).
  pose proof (generator_multiply_spec (E := TlsClientHelloBuildError) d Hd) as Hm. destruct (multiple _ (value d) gen) as [a|] eqn:Ep.
  - destruct (sec1_of_point a) as (pk & Hpk & Hl). rewrite (build_client_hello_spec name rnd d _ pk Hv Hne Hr Hm Hpk Hl). cbn [map_err res_bind].
    destruct (hear (E := TlsClientHandshakeError) new_transcript [] _ heard_new (hello_small _ (client_hello_for_ok name rnd pk Hv Hr Hl)) ltac:(cbn; lia)) as (t & -> & Ht). cbn [res_bind].
    split; [done|]. split; [done|]. exists rnd, pk. cbn [client_private_key]. rewrite Ep. by split_and!.
  - unfold build_tls13_client_hello. rewrite Hv, bool_decide_false by done. cbn [negb]. rewrite Hm. cbn. by exists d.
Qed.

(** ** The server's hello *)
(** What the client knows after the server's hello, for the secret shared. *)
Definition client_state_for (cl : Tls13ClientHelloFlight) (server_hello ss : bytes) (st : Tls13ClientHandshakeState) : Prop :=
  let th := hash (concat [client_hello_message cl; server_hello]) in
  let c := client_hs_secret ss th in
  let s := server_hs_secret ss th in
  client_hs_client_secret st = c /\ client_hs_server_secret st = s /\ client_main_secret st = main_secret_of ss /\
  heard (client_hs_transcript st) [client_hello_message cl; server_hello] /\
  client_record_protection st = new_protection (key_of c) (iv_of c) (key_of s) (iv_of s).

Lemma receive_hello_spec (cl : Tls13ClientHelloFlight) (rnd ks : bytes) (a : Fp * Fp) : private_key_ok (client_private_key cl) ->
  heard (client_transcript cl) [client_hello_message cl] -> length rnd = 32%nat -> length ks = 65%nat -> from_sec1_uncompressed ks = Ok (enc_point (Some a)) ->
  let hello := encode_server_hello rnd [] [version_extension; share_extension ks] in
  match receive_server_hello hello cl with
  | Ok st => rnd <> TLS13_HELLO_RETRY_REQUEST_RANDOM /\ exists x y, multiple _ (value (client_private_key cl)) (Some a) = Some (x, y) /\
      client_state_for cl hello (be_bytes 32 (Zmod.to_Z x)) st
  | Err HelloRetryRequestUnsupported => rnd = TLS13_HELLO_RETRY_REQUEST_RANDOM
  | Err (Ecdh_client cause) => cause = SharedPointAtInfinity /\ multiple _ (value (client_private_key cl)) (Some a) = None
  | _ => False
  end.
Proof.
  intros [Hd Hrange] Ht Hr Hk Ha hello. unfold receive_server_hello. unfold hello at 1. rewrite parse_own_server_hello by done.
  destruct (decide (rnd = _)) as [Hret|Hne]; [done|]. cbn [res_bind legacy_session_id_echo]. rewrite bool_decide_true by done. cbn [negb server_key_share].
  rewrite Ha. cbn [map_err res_bind]. rewrite ecdh_spec by done. rewrite decide_False by lia. rewrite decide_False by done.
  destruct (multiple _ (value (client_private_key cl)) (Some a)) as [[x y]|] eqn:Em; cbn [map_err res_bind]; [|done].
  destruct (hear (E := TlsClientHandshakeError) _ _ hello Ht (small_server_hello rnd [] ks Hr ltac:(done) Hk) ltac:(cbn; lia)) as (t & -> & Ht'). cbn [res_bind].
  rewrite (heard_hash t _ Ht'). cbn [res_bind app] in *. rewrite handshake_schedule_Ok by (apply length_be_bytes || apply length_hash). cbn [map_err res_bind].
  split; [done|]. exists x, y. split; [done|]. by split_and!.
Qed.

(** ** Both ends agree *)
(** One record from one end to the other leaves both directions paired. *)
Lemma send_one (r : TlsPlaintextRecord) (w p w' : Tls13RecordProtection) (c : TlsCiphertextRecord) : paired w p -> paired p w -> encrypt_record r 0 w = (Ok c, w') ->
  exists p', decrypt_record c p = (Ok (received r), p') /\ reads_on p p' /\ paired w' p' /\ paired p' w'.
Proof.
  intros Hwp Hpw He. pose proof (channel [(r, 0)] w p Hwp ltac:(apply Forall_singleton; cbn; lia)) as H. cbn [io_mapM map fst snd] in H. unfold io_bind in H. rewrite He in H. cbn in H.
  destruct H as (_ & p' & Hd & Hp'). unfold io_bind, io_ret in Hd. destruct (decrypt_record c p) as [[r0|e| |] p1] eqn:Ed; try done. injection Hd as -> ->. pose proof (decrypt_record_reads c p) as Hrd. rewrite Ed in Hrd.
  exists p'. split_and!; try done. pose proof (encrypt_record_writes r w) as Hwr. rewrite He in Hwr. exact (paired_moves p w p' w' Hpw Hrd Hwr).
Qed.

(** The two ends in step after [history]: the same secrets, and a channel both ways on which the client has sent nothing. *)
Record in_step (history : list bytes) (f : Tls13ServerHelloFlight) (st : Tls13ClientHandshakeState) : Prop := {
  step_flight : flight_ok history f;
  step_client_secret : client_hs_client_secret st = client_handshake_traffic_secret f;
  step_server_secret : client_hs_server_secret st = server_handshake_traffic_secret f;
  step_main_secret : client_main_secret st = main_secret f;
  step_out : paired (handshake_record_protection f) (client_record_protection st);
  step_in : paired (client_record_protection st) (handshake_record_protection f);
  step_unsent : write_sequence_number (client_record_protection st) = Some 0
}.

(** The two ends after the hellos: the EncryptedExtensions record opens at the client, and then they are in step. *)
Definition agreed (cl : Tls13ClientHelloFlight) (f : Tls13ServerHelloFlight) (st : Tls13ClientHandshakeState) : Prop :=
  heard (client_hs_transcript st) [client_hello_message cl; server_hello f] /\ server_authentication_started f = false /\
  room (handshake_record_protection f) /\
  exists st', decrypt_server_handshake_record (encrypted_extensions_record f) st = (Ok (handshake_record (encrypted_extensions f)), st') /\
    client_hs_transcript st' = client_hs_transcript st /\ in_step [client_hello_message cl; server_hello f; encrypted_extensions f] f st'.

Lemma client_hello_facts (name rnd pk : bytes) : legacy_session_id (client_hello_for name rnd pk) = [] /\ secp256r1_key_share (client_hello_for name rnd pk) = Some pk /\
  acceptable (client_hello_for name rnd pk) /\ protocol_agreed (client_hello_for name rnd pk).
Proof. split_and!; [done|done|by split_and!|by left]. Qed.

Lemma point_of_share (q : curve_point) (a : Fp * Fp) (pk : bytes) : on_curve _ curve_b q -> to_sec1_uncompressed (enc_point q) = Ok pk ->
  from_sec1_uncompressed pk = Ok (enc_point (Some a)) -> q = Some a.
Proof.
  intros Hq Ht Hf. assert (Hv : valid (enc_point q)) by by exists q.
  pose proof (proj2 (sec1_round_trip_spec pk (enc_point q)) (conj Hv Ht)) as Hf'. rewrite Hf in Hf'. apply Ok_inj in Hf'. by apply enc_point_inj in Hf'.
Qed.

Lemma gen_multiple_on_curve (n : Z) : on_curve _ curve_b (multiple _ n gen).
Proof. exact (multiple_on_curve _ field_modulus_prime field_large curve_b n gen gen_on_curve). Qed.

Lemma share_of_point (q : curve_point) (pk : bytes) : on_curve _ curve_b q -> to_sec1_uncompressed (enc_point q) = Ok pk ->
  exists a, q = Some a /\ from_sec1_uncompressed pk = Ok (enc_point (Some a)) /\ length pk = 65%nat.
Proof.
  intros Hq Ht. assert (Hv : valid (enc_point q)) by by exists q. pose proof (proj2 (sec1_round_trip_spec pk (enc_point q)) (conj Hv Ht)) as Hf.
  destruct q as [a|]; [|done]. exists a. split; [done|]. split; [done|]. destruct (sec1_of_point a) as (pk' & Ht' & Hl). rewrite Ht in Ht'. by apply Ok_inj in Ht' as ->.
Qed.

Section agreement.
Variables (name : bytes) (cl : Tls13ClientHelloFlight) (f : Tls13ServerHelloFlight) (ch : ClientHello) (d : Scalar) (a : Fp * Fp) (rnd : bytes).
Hypothesis Hcl : client_flight_of name cl.
Hypothesis Hparse : parse_client_hello (client_hello_message cl) = Ok ch.
Hypothesis Hans : answers [client_hello_message cl] ch d a rnd f.

(** The point that the server read is the client's, and the shared secrets are the same. *)
Lemma shared_secret : exists ks x y g, private_key_ok d /\ legacy_session_id ch = [] /\ length rnd = 32%nat /\ length ks = 65%nat /\
  from_sec1_uncompressed ks = Ok (enc_point (Some g)) /\ multiple _ (value (client_private_key cl)) (Some g) = Some (x, y) /\
  flight_of [client_hello_message cl] ch rnd ks (be_bytes 32 (Zmod.to_Z x)) f.
Proof.
  destruct Hcl as (Hv & Hkey & crnd & pk & Hr & Hpk & Hl & Hm & _). pose proof Hparse as Hp. rewrite Hm in Hp.
  rewrite (parse_client_hello_encode _ (client_hello_for_ok name crnd pk Hv Hr Hl)) in Hp. apply Ok_inj in Hp as <-.
  destruct (client_hello_facts name crnd pk) as (Hsid & Hshare & _ & _). destruct Hans as (share & ks & x & y & Hs & Hf & _ & Hd & Hks & Hmul & Hrnd & _ & Hfl).
  rewrite Hshare in Hs. injection Hs as <-. pose proof (point_of_share _ a pk (gen_multiple_on_curve _) Hpk Hf) as Hcg.
  destruct (share_of_point _ ks (gen_multiple_on_curve _) Hks) as (g & Hg & Hfk & Hlk). exists ks, x, y, g. split_and!; try done.
  rewrite <- Hg, multiples_agree, Hcg by (destruct Hkey, Hd; lia). exact Hmul.
Qed.

(** The EncryptedExtensions record opens at the client, and the channel stays paired. *)
Lemma opens_extensions (ks ss : bytes) (st : Tls13ClientHandshakeState) : flight_of [client_hello_message cl] ch rnd ks ss f ->
  client_state_for cl (server_hello f) ss st -> agreed cl f st.
Proof.
  intros Hf (Hc & Hs & Hm & Ht & Hp). destruct (flight_protection_ok _ _ _ _ _ _ Hf) as (Lc & Ls & Lm & Hpf & _).
  destruct Hf as [_ _ _ _ Fc Fs Fm Fr Ft Fst]. change (concat ([client_hello_message cl] ++ [server_hello f])) with (concat [client_hello_message cl; server_hello f]) in *.
  split; [exact Ht|]. split; [exact Fst|]. split; [by rewrite Hpf|].
  rewrite <- Fc, <- Fs in Hp. destruct (key_lengths _ Lc) as [Hck Hci]. destruct (key_lengths _ Ls) as [Hsk Hsi].
  pose proof (paired_new _ _ _ _ Hsk Hsi Hck Hci) as P1. pose proof (paired_new _ _ _ _ Hck Hci Hsk Hsi) as P2. rewrite <- Hp in P1, P2.
  destruct (send_one _ _ _ _ _ P1 P2 Fr) as (p' & Hd & Hrd & Q1 & Q2).
  unfold decrypt_server_handshake_record, io_bind, io_map_err, io_zoom. rewrite Hd. cbn [map_err received content_type]. rewrite bool_decide_true by done. cbn [negb].
  eexists. split; [reflexivity|]. split; [done|]. destruct (Hrd (pair_reader _ _ P1)) as (n & ->). split; cbn [client_hs_client_secret client_hs_server_secret client_main_secret client_record_protection].
  - split; [exact Ft|cbn [length]; lia|exact Ls|exact Lc|exact Lm].
  - by rewrite Fc.
  - by rewrite Fs.
  - by rewrite Fm.
  - exact Q1.
  - exact Q2.
  - by rewrite Hp.
Qed.

Lemma client_receives :
  match receive_server_hello (server_hello f) cl with
  | Ok st => agreed cl f st
  | Err HelloRetryRequestUnsupported => rnd = TLS13_HELLO_RETRY_REQUEST_RANDOM
  | _ => False
  end.
Proof.
  destruct shared_secret as (ks & x & y & g & Hd & Hsid & Hr & Hk & Hg & Hmul & Hf). pose proof Hcl as (_ & Hkey & _ & _ & _ & _ & _ & _ & Ht).
  pose proof (receive_hello_spec cl rnd ks g Hkey Ht Hr Hk Hg) as H. cbv zeta in H. pose proof (flight_hello _ _ _ _ _ _ Hf) as Hh. rewrite Hsid in Hh. rewrite <- Hh in H.
  destruct (receive_server_hello (server_hello f) cl) as [st|e| |]; try done.
  - destruct H as (_ & x' & y' & Hmul' & Hst). rewrite Hmul in Hmul'. injection Hmul' as <- <-. by eapply opens_extensions.
  - destruct e; try done. destruct H as [_ H]. by rewrite Hmul in H.
Qed.
End agreement.

(** Why a server does not answer the client's hello: its random device, or a product at infinity. *)
Definition hello_unanswered {OS : Type} `{RandomDevice OS} (e : TlsServerHandshakeError) (s' : OS) : Prop :=
  match e with
  | Random cause => exists s1, fill_random 32 s1 = (Err cause, s')
  | ServerPublicKey _ => exists d, private_key_ok d /\ multiple _ (value d) gen = None
  | Ecdh cause => cause = SharedPointAtInfinity /\ exists d a, private_key_ok d /\ on_curve _ curve_b (Some a) /\ multiple _ (value d) (Some a) = None
  | _ => False
  end.

Lemma unanswered {OS : Type} `{RandomDevice OS} (name : bytes) (cl : Tls13ClientHelloFlight) (e : TlsServerHandshakeError) (s' : OS) :
  client_flight_of name cl -> hello_refused (client_hello_message cl) e s' -> hello_unanswered e s'.
Proof.
  intros (Hv & Hkey & crnd & pk & Hr & Hpk & Hl & Hm & _). pose proof (parse_client_hello_encode _ (client_hello_for_ok name crnd pk Hv Hr Hl)) as Hp. rewrite <- Hm in Hp.
  destruct (client_hello_facts name crnd pk) as (_ & Hshare & Hacc & Hagree). destruct (share_of_point _ pk (gen_multiple_on_curve _) Hpk) as (g & _ & Hfk & _).
  destruct Hacc as (A1 & A2 & A3). unfold hello_refused. rewrite Hp. destruct e; intros He; try done; destruct He as (ch & [= <-] & [Hu|[_ Hu]]); cbn in Hu; try done; try naive_solver.
  destruct Hu as (share & [= <-] & Hu). by rewrite Hfk in Hu.
Qed.

(** C9: a client's hello is always answered by a flight, unless the random device fails or a product is the point at
    infinity; from the ServerHello the client derives the server's traffic secrets, main secret and transcript, the
    flight's sealed EncryptedExtensions open at the client to what the server said, and both directions of the channel
    stay in step. The one answer refused is a server random that is the constant of a retry request. *)
Theorem handshake_agreement {OS : Type} `{RandomDevice OS} (fuel : nat) (name : bytes) (cl : Tls13ClientHelloFlight) (s : OS)
  (Hcl : client_flight_of name cl) :
  match negotiate_tls13_server_first_flight fuel (client_hello_message cl) s with
  | (Ok (ServerHello f), _) =>
      match receive_server_hello (server_hello f) cl with
      | Ok st => agreed cl f st
      | Err HelloRetryRequestUnsupported => exists extensions, server_hello f = encode_server_hello TLS13_HELLO_RETRY_REQUEST_RANDOM [] extensions
      | _ => False
      end
  | (Err e, s') => hello_unanswered e s'
  | (Fuel, s') => no_key_in fuel s s'
  | (Ok (HelloRetry _), _) | (Panic, _) => False
  end.
Proof.
  pose proof (first_flight_spec fuel (client_hello_message cl) s) as Hfirst.
  destruct (negotiate_tls13_server_first_flight fuel (client_hello_message cl) s) as [[flight|e| |] s1]; try done; [|by eapply unanswered].
  destruct Hfirst as (ch & Hm & Hok & Hacc & Hflight). pose proof (parse_client_hello_encode ch Hok) as Hp. rewrite <- Hm in Hp.
  destruct flight as [f|r].
  - destruct Hflight as (d & a & rnd & Hans). pose proof (client_receives name cl f ch d a rnd Hcl Hp Hans) as H1.
    destruct (shared_secret name cl f ch d a rnd Hcl Hp Hans) as (ks & x & y & g & _ & Hsid & _ & _ & _ & _ & Hf).
    destruct (receive_server_hello (server_hello f) cl) as [st|e| |]; try done. destruct e; try done. subst rnd. eexists. rewrite <- Hsid. exact (flight_hello _ _ _ _ _ _ Hf).
  - destruct Hflight as (_ & Hnone & _). exfalso. destruct Hcl as (Hv & _ & crnd & pk & Hr & _ & Hl & Hmc & _).
    pose proof (parse_client_hello_encode _ (client_hello_for_ok name crnd pk Hv Hr Hl)) as Hp'. rewrite <- Hmc, Hp in Hp'. apply Ok_inj in Hp' as ->.
    by destruct (client_hello_facts name crnd pk) as (_ & Hs & _).
Qed.











Lemma example_client_flight : exists cl, client_flight_of (str "example.com") cl.
Proof.
  destruct (multiple _ (value ONE) gen) as [a|] eqn:Eg; [|discriminate Eg]. destruct (sec1_of_point a) as (pk & Hpk & Hl). rewrite <- Eg in Hpk.
  assert (Hv : is_valid_server_name (str "example.com") = true) by reflexivity.
  destruct (hear (E := TlsServerHandshakeError) new_transcript [] _ heard_new (hello_small _ (client_hello_for_ok (str "example.com") (repeat x07 32) pk Hv eq_refl Hl)) ltac:(cbn; lia)) as (t & _ & Ht).
  exists (mkClientFlight (encode_client_hello (client_hello_for (str "example.com") (repeat x07 32) pk)) ONE t). split; [exact Hv|]. split; [split; [apply (limbs_of_ok 4 1)|by vm_compute]|]. exists (repeat x07 32), pk. by split_and!.
Qed.

Lemma handshake_agreement_witness : exists cl, client_flight_of (str "example.com") cl /\
  match negotiate_tls13_server_first_flight (OS := bytes) 1 (client_hello_message cl) (repeat x00 31 ++ [x01] ++ repeat x08 32) with
  | (Ok (ServerHello f), _) =>
      match receive_server_hello (server_hello f) cl with
      | Ok st => agreed cl f st
      | Err HelloRetryRequestUnsupported => exists extensions, server_hello f = encode_server_hello TLS13_HELLO_RETRY_REQUEST_RANDOM [] extensions
      | _ => False
      end
  | (Err e, s') => hello_unanswered e s'
  | (Fuel, s') => no_key_in 1 (repeat x00 31 ++ [x01] ++ repeat x08 32) s'
  | (Ok (HelloRetry _), _) | (Panic, _) => False
  end.
Proof.
  destruct example_client_flight as (cl & Hcl). exists cl. split; [exact Hcl|].
  exact (handshake_agreement 1 (str "example.com") cl _ Hcl).
Defined.
