(* ===== verification/Transport.v ===== *)
(** * TLS over a socket: [src/tls_probe.rs]

    Records read from and written to a socket, the server's side of a handshake on it, and the stream of
    application data that is put on top ([TlsApplicationTransport]). A socket is a reader and a writer, as in
    [Io]; random bytes come from the device of [TlsHandshake]. *)
From Stdlib Require Import ZArith Zmod Lia.
From stdpp Require Import prelude.
From S2P Require Import Prelude Bytes NetAddr Config Io Uint256 Sha256 Encoding Poly1305 ChaCha20 Primes Curve P256 Ecdsa Der Pem Keys TlsIdentity TlsRecord TlsMessages TlsHello TlsCredentials TlsHandshake TlsApplication TlsServer.
Local Open Scope Z_scope.
Set Warnings "-clear-no-such-hyp".

Section transport.
Context {R W : Type} {HR : Io.Read R} {HW : Io.Write W}.

Definition record_data {S A : Type} (m : io S TlsRecordError A) : io S io_error A := io_map_err (fun e => invalid_data (record_error_to_string e)) m.

(** ** Records on the wire *)
Definition read_wire_record : io (R * W) io_error bytes :=
  let! header := Io.read_exact TLS_RECORD_HEADER_SIZE in
  let! fragment_length := io_lift (u16_at header 3) in
  if TLS_CIPHERTEXT_FRAGMENT_LIMIT <? fragment_length then
    io_err (invalid_data (str "TLS probe received oversized record fragment of " ++ to_dec fragment_length ++ str " bytes"))
  else
    let! fragment := Io.read_exact (Z.to_nat fragment_length) in
    io_ret (header ++ fragment).

(** The one record that a new decoder cuts out of [wire]. *)
Definition one_record {A : Type} (push : bytes -> io bytes TlsRecordError (list A)) (message wire : bytes) : res io_error A :=
  let '(records, buffered) := push wire [] in
  let? records := map_err (fun e => invalid_data (record_error_to_string e)) records in
  if negb (length records =? 1)%nat || negb (length buffered =? 0)%nat then Err (invalid_data message)
  else expect (list.last records).

Definition decode_plaintext_record (wire : bytes) : res io_error TlsPlaintextRecord :=
  one_record plaintext_push (str "TLS probe expected exactly one complete plaintext record") wire.

Definition decode_ciphertext_record (wire : bytes) : res io_error TlsCiphertextRecord :=
  one_record ciphertext_push (str "TLS probe expected exactly one complete ciphertext record") wire.

Definition write_wire (wire : bytes) : io (R * W) io_error unit :=
  let! _ := do_write wire in
  do_flush.

Definition write_plaintext (record : res TlsRecordError TlsPlaintextRecord) : io (R * W) io_error unit :=
  let! record := record_data (io_lift record) in
  let! wire := record_data (io_lift (serialize_plaintext record)) in
  write_wire wire.

Definition write_fatal_alert (description : TlsAlertDescription) : io (R * W) io_error unit :=
  let! alert := record_data (io_lift (fatal description)) in
  write_plaintext (alert_plaintext_record alert).

Definition write_handshake_message (message : bytes) : io (R * W) io_error unit := write_plaintext (new_plaintext Handshake message).

Definition write_compatibility_change_cipher_spec : io (R * W) io_error unit := write_plaintext (new_plaintext ChangeCipherSpec [x01]).

Fixpoint write_all_records (records : list TlsCiphertextRecord) : io (R * W) io_error unit :=
  match records with
  | [] => io_ret tt
  | record :: records' =>
      let! wire := io_lift (serialize_ciphertext record) in
      let! _ := do_write wire in
      write_all_records records'
  end.

Definition write_ciphertext_records (records : list TlsCiphertextRecord) : io (R * W) io_error unit :=
  let! _ := write_all_records records in
  do_flush.

Definition write_ciphertext_record (record : TlsCiphertextRecord) : io (R * W) io_error unit :=
  let! wire := io_lift (serialize_ciphertext record) in
  write_wire wire.

(** ** Messages of the client *)
(** A ChangeCipherSpec record of the compatibility mode, which is skipped. *)
Definition skip_change_cipher_spec (wire : bytes) : res io_error unit :=
  let? record := decode_plaintext_record wire in
  if negb (bool_decide (content_type record = ChangeCipherSpec)) then Err (invalid_data (str "invalid TLS compatibility change_cipher_spec record"))
  else Ok tt.

Definition accept_handshake_record (second : bool) (wire deframer : bytes) : res io_error (list bytes * bytes) :=
  let? record := decode_plaintext_record wire in
  if second && negb (legacy_record_version record =? TLS_LEGACY_RECORD_VERSION) then
    Err (invalid_data (str "second ClientHello record version must be 0x" ++ hex4 TLS_LEGACY_RECORD_VERSION))
  else
    let '(messages, deframer) := push_record record deframer in
    let? messages := map_err (fun e => invalid_data (record_error_to_string e)) messages in
    if (1 <? length messages)%nat then Err (invalid_data (str "TLS probe received multiple handshake messages while waiting for ClientHello"))
    else Ok (messages, deframer).

Fixpoint read_client_hello_loop (fuel : nat) (allow_compatibility_change_cipher_spec : bool) (deframer : bytes) : io (R * W) io_error bytes :=
  match fuel with
  | O => fun s => (Fuel, s)
  | S fuel' =>
      let! wire := read_wire_record in
      let! first := io_lift (index wire 0) in
      if byte_eqb first (content_type_code ChangeCipherSpec) then
        if negb allow_compatibility_change_cipher_spec then io_err (invalid_data (str "unexpected change_cipher_spec before the first ClientHello"))
        else
          let! _ := io_lift (skip_change_cipher_spec wire) in
          read_client_hello_loop fuel' allow_compatibility_change_cipher_spec deframer
      else if negb (byte_eqb first (content_type_code Handshake)) then
        io_err (invalid_data (str "expected plaintext ClientHello record, got TLS content type " ++ to_dec (u8 first)))
      else
        let! (messages, deframer) := io_lift (accept_handshake_record allow_compatibility_change_cipher_spec wire deframer) in
        match messages with
        | message :: _ =>
            let! _ := record_data (io_lift (require_message_boundary deframer)) in
            io_ret message
        | [] => read_client_hello_loop fuel' allow_compatibility_change_cipher_spec deframer
        end
  end.

(** Every record takes some of the bytes to come. *)
Definition read_client_hello (allow_compatibility_change_cipher_spec : bool) : io (R * W) io_error bytes :=
  fun s => read_client_hello_loop (stream_fuel s) allow_compatibility_change_cipher_spec [] s.

Fixpoint read_client_finished_loop (fuel : nat) : io (R * W) io_error TlsCiphertextRecord :=
  match fuel with
  | O => fun s => (Fuel, s)
  | S fuel' =>
      let! wire := read_wire_record in
      let! first := io_lift (index wire 0) in
      if byte_eqb first (content_type_code ChangeCipherSpec) then
        let! _ := io_lift (skip_change_cipher_spec wire) in
        read_client_finished_loop fuel'
      else if negb (byte_eqb first (content_type_code ApplicationData)) then
        io_err (invalid_data (str "expected protected client Finished record, got TLS content type " ++ to_dec (u8 first)))
      else io_lift (decode_ciphertext_record wire)
  end.

Definition read_client_finished_record : io (R * W) io_error TlsCiphertextRecord := fun s => read_client_finished_loop (stream_fuel s) s.

(** ** Application data *)
Record TlsApplicationTransport : Type := mkTransport {
  socket : R * W;
  application_state : Tls13ApplicationState;
  read_buffer : bytes;
  read_position : nat;
  peer_closed : bool
}.

Definition new_transport (s : R * W) (state : Tls13ApplicationState) : TlsApplicationTransport := mkTransport s state [] 0 false.

Definition on_socket {E A : Type} (m : io (R * W) E A) : io TlsApplicationTransport E A :=
  fun t => let '(a, s) := m (socket t) in (a, mkTransport s (application_state t) (read_buffer t) (read_position t) (peer_closed t)).
Definition on_state {A : Type} (m : io Tls13ApplicationState TlsRecordError A) : io TlsApplicationTransport io_error A :=
  record_data (fun t => let '(a, st) := m (application_state t) in (a, mkTransport (socket t) st (read_buffer t) (read_position t) (peer_closed t))).
Definition set_buffer (t : TlsApplicationTransport) (buffer : bytes) (position : nat) : TlsApplicationTransport :=
  mkTransport (socket t) (application_state t) buffer position (peer_closed t).
Definition set_peer_closed (t : TlsApplicationTransport) : TlsApplicationTransport :=
  mkTransport (socket t) (application_state t) (read_buffer t) (read_position t) true.

Definition send_close_notify : io TlsApplicationTransport io_error unit :=
  let! close_notify := on_state encrypt_close_notify in
  let! wire := io_lift (serialize_ciphertext close_notify) in
  on_socket (write_wire wire).

(** The bytes that are buffered, up to [n]. *)
Definition take_buffered (n : nat) : io TlsApplicationTransport io_error bytes :=
  fun t =>
    let remaining := drop (read_position t) (read_buffer t) in
    let bytes_read := Nat.min (length remaining) n in
    let position := (read_position t + bytes_read)%nat in
    (Ok (take bytes_read remaining), if (position =? length (read_buffer t))%nat then set_buffer t [] 0 else set_buffer t (read_buffer t) position).

Definition receive_event : io TlsApplicationTransport io_error Tls13ApplicationEvent :=
  let! wire := on_socket read_wire_record in
  let! first := io_lift (index wire 0) in
  if negb (byte_eqb first (content_type_code ApplicationData)) then
    io_err (invalid_data (str "expected protected TLS application data, got content type " ++ to_dec (u8 first)))
  else
    let! record := io_lift (decode_ciphertext_record wire) in
    on_state (receive_protected_record record).

Fixpoint transport_read_loop (fuel : nat) (n : nat) : io TlsApplicationTransport io_error bytes :=
  match fuel with
  | O => fun t => (Fuel, t)
  | S fuel' =>
      let! t := gets (fun t => t) in
      if (read_position t <? length (read_buffer t))%nat then take_buffered n
      else if peer_closed t then io_ret []
      else
        let! event := receive_event in
        match event with
        | ApplicationData_event fragment =>
            if bool_decide (fragment = []) then transport_read_loop fuel' n
            else
              let! _ := modify (fun t => set_buffer t fragment 0) in
              transport_read_loop fuel' n
        | CloseNotify_event | IgnoredAfterCloseNotify =>
            let! _ := modify set_peer_closed in
            io_ret []
        | UserCanceled_event => io_err (mkIoError Interrupted (str "TLS peer canceled the connection"))
        | FatalAlert description => io_err (invalid_data (str "TLS peer sent fatal alert " ++ alert_description_debug description))
        end
  end.

(** Every round but the last two reads a record. *)
Definition transport_read (n : nat) : io TlsApplicationTransport io_error bytes :=
  fun t => if (n =? 0)%nat then (Ok [], t) else transport_read_loop (S (stream_fuel (socket t))) n t.

Fixpoint write_fragments (fragments : list bytes) : io TlsApplicationTransport io_error unit :=
  match fragments with
  | [] => io_ret tt
  | fragment :: fragments' =>
      let! record := on_state (encrypt_application_data_record fragment) in
      let! wire := io_lift (serialize_ciphertext record) in
      let! _ := on_socket (do_write wire) in
      write_fragments fragments'
  end.

Definition transport_write (input : bytes) : io TlsApplicationTransport io_error nat :=
  if bool_decide (input = []) then io_ret 0%nat
  else
    let! _ := write_fragments (chunks (Z.to_nat TLS_PLAINTEXT_FRAGMENT_LIMIT) input) in
    io_ret (length input).

Definition transport_flush : io TlsApplicationTransport io_error unit := on_socket do_flush.
End transport.
Arguments TlsApplicationTransport : clear implicits.

(** ** One record on the wire *)
Section wire.
Context {R W : Type} {HR : Io.Read R} {HW : Io.Write W}.
Implicit Types (s : R * W).

Definition wire_of (r : TlsCiphertextRecord) : bytes := match serialize_ciphertext (E := io_error) r with Ok bs => bs | _ => [] end.

Lemma expect_last {A : Type} (l : list A) : length l = 1%nat -> exists a, l = [a] /\ expect (list.last l) = Ok a :> res io_error A.
Proof. destruct l as [|a [|]]; try done. by exists a. Qed.

Lemma one_record_returns {A : Type} (cut : bytes -> res TlsRecordError (option (A * nat))) (loop : bytes -> res TlsRecordError (list A * nat)) (m wire : bytes) :
  (forall buffer input, match decoder_push loop input buffer with
     | (Ok records, rest) => cuts cut (buffer ++ input) records rest | (Err e, rest) => cut_fails cut (buffer ++ input) e /\ rest = buffer ++ input | _ => False end) ->
  returns (one_record (decoder_push loop) m wire).
Proof.
  intros Hd. unfold one_record. specialize (Hd [] wire). destruct (decoder_push loop wire []) as [[records|e| |] rest]; try done. cbn [map_err res_bind].
  destruct (Nat.eqb_spec (length records) 1) as [Hl|]; cbn [negb orb]; [|done]. destruct (negb _); [done|]. by destruct (expect_last records Hl) as (a & _ & ->).
Qed.

Lemma plaintext_push_spec (buffer input : bytes) :
  match plaintext_push input buffer with
  | (Ok records, rest) => cuts plaintext_cut (buffer ++ input) records rest
  | (Err e, rest) => cut_fails plaintext_cut (buffer ++ input) e /\ rest = buffer ++ input
  | ((Panic | Fuel), _) => False
  end.
Proof.
  assert (Hq : forall buffer, plaintext_loop (S (length buffer)) buffer 0 [] = TlsRecord.drain plaintext_cut (S (length buffer)) buffer 0 [])
    by (intros; apply plaintext_loop_drain; lia).
  pose proof (decoder_push_spec _ plaintext_cut_size plaintext_cut_returns _ Hq buffer input) as H. exact H.
Qed.

Lemma ciphertext_push_spec (buffer input : bytes) :
  match ciphertext_push input buffer with
  | (Ok records, rest) => cuts ciphertext_cut (buffer ++ input) records rest
  | (Err e, rest) => cut_fails ciphertext_cut (buffer ++ input) e /\ rest = buffer ++ input
  | ((Panic | Fuel), _) => False
  end.
Proof.
  assert (Hc : forall buffer, ciphertext_loop (S (length buffer)) buffer 0 [] = TlsRecord.drain ciphertext_cut (S (length buffer)) buffer 0 [])
    by (intros; apply ciphertext_loop_drain; lia).
  pose proof (decoder_push_spec _ ciphertext_cut_size ciphertext_cut_returns _ Hc buffer input) as H. exact H.
Qed.

Lemma decode_plaintext_returns (wire : bytes) : returns (decode_plaintext_record wire).
Proof. apply (one_record_returns plaintext_cut), plaintext_push_spec. Qed.

Lemma decode_ciphertext_returns (wire : bytes) : returns (decode_ciphertext_record wire).
Proof. apply (one_record_returns ciphertext_cut), ciphertext_push_spec. Qed.

(** A record that was serialised is the one that is decoded. *)
Lemma wire_of_spec {E : Type} (r : TlsCiphertextRecord) : ciphertext_ok r -> serialize_ciphertext r = Ok (wire_of r) :> res E _ /\ decode_ciphertext_record (wire_of r) = Ok r /\
  exists body, wire_of r = x17 :: x03 :: x03 :: be_bytes 2 (len body) ++ body /\ len body <= TLS_CIPHERTEXT_FRAGMENT_LIMIT.
Proof.
  intros Hok. pose proof Hok as [Hv Hl]. assert (Hs : forall F, serialize_ciphertext r = Ok (x17 :: x03 :: x03 :: be_bytes 2 (len (encrypted_record r)) ++ encrypted_record r) :> res F _).
  { intros F. unfold serialize_ciphertext, ciphertext_header, try_from. rewrite (proj2 (Z.leb_le _ _)) by (unfold u16_max; lia). cbn [res_bind]. rewrite Hv. reflexivity. }
  assert (Hw : wire_of r = x17 :: x03 :: x03 :: be_bytes 2 (len (encrypted_record r)) ++ encrypted_record r) by (unfold wire_of; by rewrite Hs).
  split; [by rewrite Hw, Hs|]. split; [|by exists (encrypted_record r)].
  unfold decode_ciphertext_record, one_record. pose proof (ciphertext_push_spec [] (wire_of r)) as Hp. cbn [app] in Hp.
  destruct (ciphertext_cut_serialized (E := io_error) r [] Hok) as (bs & Hbs & Hcut). rewrite Hs in Hbs. apply Ok_inj in Hbs as <-. rewrite <- Hw, app_nil_r in Hcut.
  assert (Hcuts : cuts ciphertext_cut (wire_of r) [r] []).
  { eapply cuts_step; [exact Hcut|]. rewrite drop_all. by apply cuts_stop. }
  destruct (ciphertext_push (wire_of r) []) as [[records|e| |] rest]; try done.
  - destruct (cuts_det _ _ _ _ _ _ Hp Hcuts) as [-> ->]. reflexivity.
  - destruct Hp as [Hf _]. exfalso. by eapply cuts_fails.
Qed.

(** ** Reading from a socket *)
(** When enough bytes are to come, with nothing but interrupted reads between them, they are read. *)
Lemma read_exact_quiet_loop (fuel n : nat) (acc : bytes) s : (stream_fuel s <= fuel)%nat -> quiet (pending s.1) -> (n <= length (bytes_of (pending s.1)))%nat ->
  wp (read_exact_loop fuel n acc) s (fun bs s' => exists c bs', bs = acc ++ bs' /\ took s c [] s' /\ bytes_of c = bs' /\ length bs' = n) (fun _ _ => False).
Proof.
  revert n acc s. induction fuel as [|fuel IH]; intros n acc s Hf Hq Hn; [unfold stream_fuel in Hf; lia|].
  unfold wp. cbn [read_exact_loop]. destruct (decide (n = 0%nat)) as [->|Hn0].
  { exists [], []. split_and!; [by rewrite app_nil_r|apply took_refl|done|done]. }
  pose proof (wp_do_read n s (fun bs s' => (length bs <= n)%nat /\ took s (data bs) [] s' /\ (bs = [] -> pending s.1 = []))
    (fun e s' => took s [inr e] [] s')) as Hr. unfold wp in Hr.
  destruct (do_read n s) as [[bs|e| |] s1]; [| |exfalso; apply Hr; [lia|auto|auto]..].
  - destruct Hr as (Hle & Ht & Heof); [lia|auto|auto|].
    destruct bs as [|b bs]; [rewrite Heof in Hn by done; cbn in Hn; lia|]. pose proof Ht as [Hp _]. rewrite Hp in Hq, Hn. apply Forall_app in Hq as [_ Hq1].
    rewrite bytes_of_app, bytes_of_data, length_app in Hn.
    pose proof (IH (n - length (b :: bs))%nat (acc ++ b :: bs) s1) as H. apply took_fuel in Ht as Hfu. rewrite length_data in Hfu. cbn [length] in *.
    eapply wp_mono; [apply H; [lia|done|lia]| |done]. cbv beta. intros bs0 s' (c & bs' & -> & Ht' & Hb & Hlen). exists (data (b :: bs) ++ c), ((b :: bs) ++ bs').
    split_and!; [by rewrite app_assoc|by apply (took_trans _ _ _ _ _ [] [] Ht Ht')|by rewrite bytes_of_app, bytes_of_data, Hb|rewrite length_app, Hlen; cbn [length]; lia].
  - assert (Ht : took s [inr e] [] s1) by (apply Hr; [lia|auto|auto]). pose proof Ht as [Hp _]. rewrite Hp in Hq, Hn. apply Forall_cons in Hq as [Hi Hq1].
    rewrite decide_True by exact Hi. apply took_fuel in Ht as Hfu. cbn [length] in Hfu. cbn in Hn.
    eapply wp_mono; [apply (IH n acc s1); [lia|done|done]| |done]. cbv beta. intros bs0 s' (c & bs' & -> & Ht' & Hb & Hlen). exists (inr e :: c), bs'.
    split_and!; [done|by apply (took_trans _ _ _ [inr e] _ [] [] Ht Ht')|done|done].
Qed.

Lemma read_exact_quiet (l rest : bytes) s : quiet (pending s.1) -> bytes_of (pending s.1) = l ++ rest ->
  exists s', Io.read_exact (length l) s = (Ok l, s') /\ quiet (pending s'.1) /\ bytes_of (pending s'.1) = rest /\ written s'.2 = written s.2 /\ (length (pending s'.1) <= length (pending s.1))%nat.
Proof.
  intros Hq Hb. pose proof (read_exact_quiet_loop (stream_fuel s) (length l) [] s ltac:(lia) Hq ltac:(rewrite Hb, length_app; lia)) as H. unfold wp in H. unfold Io.read_exact.
  destruct (read_exact_loop (stream_fuel s) (length l) [] s) as [[bs|e| |] s']; try done. destruct H as (c & bs' & -> & [Hp Hw] & Hc & Hl). cbn [app].
  rewrite Hp in Hq, Hb. rewrite bytes_of_app, Hc in Hb. apply app_inj_1 in Hb as [-> Hr]; [|done]. exists s'. apply Forall_app in Hq as [_ Hq].
  split_and!; [done|done|done|by rewrite Hw, app_nil_r|rewrite Hp, length_app; lia].
Qed.

Lemma read_wire_quiet (r : TlsCiphertextRecord) (rest : bytes) s : ciphertext_ok r -> quiet (pending s.1) -> bytes_of (pending s.1) = wire_of r ++ rest ->
  exists s', read_wire_record s = (Ok (wire_of r), s') /\ quiet (pending s'.1) /\ bytes_of (pending s'.1) = rest /\ written s'.2 = written s.2.
Proof.
  intros Hok Hq Hb. destruct (wire_of_spec (E := io_error) r Hok) as (_ & _ & body & Hw & Hl). rewrite Hw in Hb |- *.
  destruct (be_bytes_2 (len body)) as (a & b & Hab & Hv); [split; [apply len_nonneg|unfold TLS_CIPHERTEXT_FRAGMENT_LIMIT, TLS_PLAINTEXT_FRAGMENT_LIMIT in Hl; lia]|]. rewrite Hab in Hb |- *. cbn [app] in Hb |- *.
  change (x17 :: x03 :: x03 :: a :: b :: body ++ rest) with ([x17; x03; x03; a; b] ++ body ++ rest) in Hb.
  destruct (read_exact_quiet _ _ s Hq Hb) as (s1 & H1 & Hq1 & Hb1 & Hw1 & _). destruct (read_exact_quiet _ _ s1 Hq1 Hb1) as (s2 & H2 & Hq2 & Hb2 & Hw2 & _).
  exists s2. split_and!; [|done|done|congruence]. unfold read_wire_record, io_bind at 1. change TLS_RECORD_HEADER_SIZE with (length [x17; x03; x03; a; b]). rewrite H1.
  unfold io_bind at 1, io_lift at 1. change (u16_at [x17; x03; x03; a; b] 3) with (Ok (be_value 0 [a; b]) : res io_error Z). rewrite Hv. rewrite (proj2 (Z.ltb_ge _ _)) by exact Hl.
  unfold len. rewrite Nat2Z.id. unfold io_bind, io_ret. by rewrite H2.
Qed.
End wire.

(** ** Application data, delivered *)
Section delivery.
Context {R W : Type} {HR : Io.Read R} {HW : Io.Write W}.
Implicit Types (t : TlsApplicationTransport R W).

(** [plain] is what [t] has still to deliver: what is buffered, and the data of the sealed records to come, the
    last of which is the close. *)
Record arriving (t : TlsApplicationTransport R W) (cs : list TlsCiphertextRecord) (fs : list bytes) : Prop := {
  arriving_open : peer_closed t = false;
  arriving_quiet : quiet (pending (socket t).1);
  arriving_bytes : exists rest, bytes_of (pending (socket t).1) = concat (map wire_of cs) ++ rest;
  arriving_ok : Forall ciphertext_ok cs;
  arriving_data : exists st, io_mapM receive_protected_record cs (application_state t) = (Ok (map ApplicationData_event fs ++ [CloseNotify_event]), st)
}.

Definition buffered t : bytes := drop (read_position t) (read_buffer t).

Definition delivers t (plain : bytes) : Prop :=
  (peer_closed t = true /\ plain = buffered t) \/ exists cs fs, arriving t cs fs /\ plain = buffered t ++ concat fs.

Lemma take_buffered_spec (n : nat) t : buffered t <> [] ->
  exists t', take_buffered n t = (Ok (take n (buffered t)), t') /\ buffered t' = drop n (buffered t) /\ socket t' = socket t /\ application_state t' = application_state t /\
    peer_closed t' = peer_closed t.
Proof.
  intros Hne. unfold take_buffered. fold (buffered t). set (k := Nat.min (length (buffered t)) n). assert (Ht : take k (buffered t) = take n (buffered t)).
  { unfold k. destruct (Nat.le_ge_cases (length (buffered t)) n); [rewrite Nat.min_l, !take_ge by lia; done|by rewrite Nat.min_r]. }
  rewrite Ht. eexists. split; [reflexivity|]. assert (Hlen : length (buffered t) = (length (read_buffer t) - read_position t)%nat) by (unfold buffered; by rewrite length_drop).
  destruct (Nat.eqb_spec (read_position t + k) (length (read_buffer t))) as [Hend|Hmore]; cbn [set_buffer socket application_state peer_closed]; split_and!; try done.
  - unfold buffered at 1. cbn [read_position read_buffer set_buffer]. symmetry. cbn. apply drop_ge. rewrite Hlen. unfold k in Hend. lia.
  - unfold buffered. cbn [read_position read_buffer set_buffer]. rewrite drop_drop. destruct (Nat.le_ge_cases n (length (buffered t))) as [Hn|Hn].
    + f_equal. unfold k. lia.
    + assert (k = length (buffered t)) by (unfold k; lia). destruct (buffered t); [done|]. cbn [length] in *. lia.
Qed.

Lemma buffered_ltb t : (read_position t <? length (read_buffer t))%nat = negb (bool_decide (buffered t = [])).
Proof.
  destruct (Nat.ltb_spec (read_position t) (length (read_buffer t))) as [Hl|Hl]; symmetry.
  - apply negb_true_iff, bool_decide_eq_false. intros E. apply (f_equal length) in E. unfold buffered in E. rewrite length_drop in E. cbn in E. lia.
  - apply negb_false_iff, bool_decide_eq_true. by apply drop_ge.
Qed.

(** One record arrives. *)
Lemma receive_event_arriving t (c : TlsCiphertextRecord) (cs : list TlsCiphertextRecord) (fs : list bytes) : arriving t (c :: cs) fs ->
  exists t', read_buffer t' = read_buffer t /\ read_position t' = read_position t /\ peer_closed t' = false /\
    match fs with
    | f :: fs' => receive_event t = (Ok (ApplicationData_event f), t') /\ arriving t' cs fs'
    | [] => receive_event t = (Ok CloseNotify_event, t')
    end.
Proof.
  intros [Ho Hq (rest & Hb) Hok (st & Hd)]. apply Forall_cons in Hok as [Hc Hok]. cbn [map concat] in Hb. rewrite <- app_assoc in Hb.
  destruct (read_wire_quiet c _ (socket t) Hc Hq Hb) as (s' & Hr & Hq' & Hb' & _). destruct (wire_of_spec (E := io_error) c Hc) as (_ & Hdec & body & Hw & _).
  cbn [io_mapM] in Hd. unfold io_bind in Hd. destruct (receive_protected_record c (application_state t)) as [[ev|e| |] st1] eqn:Ev; try done.
  destruct (io_mapM receive_protected_record cs st1) as [[evs|e| |] st2] eqn:Ecs; try done. unfold io_ret in Hd. apply pair_equal_spec in Hd as [Hd ->]. apply Ok_inj in Hd.
  assert (Hrun : receive_event t = (Ok ev, mkTransport s' st1 (read_buffer t) (read_position t) (peer_closed t))).
  { unfold receive_event, io_bind at 1, on_socket. rewrite Hr. unfold io_bind at 1, io_lift at 1. rewrite Hw. change (index (x17 :: _) 0) with (Ok x17 : res io_error byte). rewrite <- Hw.
    change (byte_eqb x17 (content_type_code ApplicationData)) with true. cbn [negb]. unfold io_bind at 1, io_lift at 1. rewrite Hdec. unfold on_state, record_data, io_map_err. cbn [application_state]. by rewrite Ev. }
  eexists. destruct fs as [|f fs].
  - destruct cs as [|c' cs]; [|cbn [map app] in Hd; injection Hd as _ Hd; destruct evs; [|done]; cbn [io_mapM] in Ecs; unfold io_bind in Ecs; repeat case_match; simplify_eq].
    cbn [map app] in Hd. injection Hd as -> _. split_and!; [..|exact Hrun]; done.
  - cbn [map app] in Hd. injection Hd as -> Hevs. split; [|split; [|split; [|split; [exact Hrun|]]]]; try done.
    split; cbn [peer_closed socket application_state]; [done|done|by exists rest|done|]. exists st. by rewrite Ecs, Hevs.
Qed.
Lemma arriving_same t t' (cs : list TlsCiphertextRecord) (fs : list bytes) : socket t' = socket t -> application_state t' = application_state t -> peer_closed t' = peer_closed t ->
  arriving t cs fs -> arriving t' cs fs.
Proof. intros E1 E2 E3 [H1 H2 H3 H4 H5]. split; by rewrite ?E1, ?E2, ?E3. Qed.

Lemma length_bytes_of (l : list Io.event) : (length (bytes_of l) <= length l)%nat.
Proof.
  induction l as [|[b|e] l IH]; [done| |].
  - change (bytes_of (inl b :: l)) with (b :: bytes_of l). cbn [length]. lia.
  - change (bytes_of (inr e :: l)) with (bytes_of l). cbn [length]. lia.
Qed.

Lemma arriving_fuel t (cs : list TlsCiphertextRecord) (fs : list bytes) : arriving t cs fs -> (length cs < stream_fuel (socket t))%nat.
Proof.
  intros [_ _ (rest & Hb) Hok _]. assert (Hl : (length cs <= length (concat (map wire_of cs)))%nat).
  { clear Hb. induction Hok as [|c cs Hc _ IH]; [done|]. cbn [map concat length]. rewrite length_app. destruct (wire_of_spec (E := io_error) c Hc) as (_ & _ & body & -> & _). cbn [length]. lia. }
  assert (Hp : (length (bytes_of (pending (socket t).1)) <= length (pending (socket t).1))%nat) by apply length_bytes_of.
  rewrite Hb, length_app in Hp. unfold stream_fuel. lia.
Qed.

Lemma transport_read_loop_spec (fuel n : nat) t (cs : list TlsCiphertextRecord) (fs : list bytes) : (0 < n)%nat -> arriving t cs fs -> (length cs < fuel)%nat ->
  wp (transport_read_loop fuel n) t (fun bs t' => exists plain', buffered t ++ concat fs = bs ++ plain' /\ (length bs <= n)%nat /\ delivers t' plain' /\
      (bs = [] -> plain' = [] /\ peer_closed t' = true)) (fun _ _ => False).
Proof.
  intros Hn. revert t cs fs. induction fuel as [|fuel IH]; intros t cs fs Ha Hf; [lia|]. cbn [transport_read_loop]. unfold wp, io_bind at 1, gets at 1. rewrite buffered_ltb.
  case_bool_decide as Hb; cbn [negb].
  - rewrite (arriving_open _ _ _ Ha). destruct cs as [|c cs]; [destruct Ha as [_ _ _ _ (st & Hd)]; cbn in Hd; injection Hd as Hd _; by destruct fs|].
    destruct (receive_event_arriving t c cs fs Ha) as (t' & E1 & E2 & E3 & H). assert (Hbuf : buffered t' = buffered t) by (unfold buffered; by rewrite E1, E2).
    unfold io_bind at 1. rewrite Hb. cbn [app]. destruct fs as [|f fs].
    + rewrite H. unfold io_bind, modify, io_ret. exists []. split_and!; [done|cbn; lia| |done]. left. split; [done|]. unfold buffered in *. cbn [read_position read_buffer set_peer_closed]. congruence.
    + destruct H as [-> Ha']. cbn [concat]. case_bool_decide as Hfe.
      * subst f. cbn [app]. specialize (IH t' cs fs Ha' ltac:(cbn [length] in Hf; lia)). rewrite Hbuf, Hb in IH. exact IH.
      * unfold io_bind, modify. assert (Ha2 : arriving (set_buffer t' f 0) cs fs) by by eapply arriving_same; [..|exact Ha'].
        specialize (IH (set_buffer t' f 0) cs fs Ha2 ltac:(cbn [length] in Hf; lia)). exact IH.
  - destruct (take_buffered_spec n t Hb) as (t' & -> & Hbt & E1 & E2 & E3). exists (drop n (buffered t) ++ concat fs).
    split_and!; [by rewrite app_assoc, take_drop|rewrite length_take; lia| |].
    + right. exists cs, fs. split; [by eapply arriving_same|by rewrite Hbt].
    + intros He. destruct (buffered t); [done|]. destruct n; [lia|done].
Qed.

(** C12: the stream of application data obeys the law of a reader. Whatever the peer sealed before its close, and however the
    network cuts it into reads and interrupts them, each read returns some of the data that is next, at least one
    byte and at most as many as asked for, until there is none; then it returns nothing for good. No such read
    fails, panics or loops. *)
Theorem transport_read_correct (n : nat) t (plain : bytes) (Hn : (0 < n)%nat) (Hd : delivers t plain) :
  match transport_read n t with
  | (Ok bs, t') => exists plain', plain = bs ++ plain' /\ (length bs <= n)%nat /\ delivers t' plain' /\ (bs = [] -> plain = [] /\ peer_closed t' = true)
  | (Err _, _) | (Panic, _) | (Fuel, _) => False
  end.
Proof.
  unfold transport_read. rewrite (proj2 (Nat.eqb_neq _ _)) by lia. destruct Hd as [[Hc ->]|(cs & fs & Ha & ->)].
  - cbn [transport_read_loop]. unfold io_bind at 1, gets at 1. rewrite buffered_ltb. case_bool_decide as Hb; cbn [negb].
    + rewrite Hc, Hb. exists []. split_and!; [done|cbn; lia| |done]. left. by split.
    + destruct (take_buffered_spec n t Hb) as (t' & -> & Hbt & E1 & E2 & E3). exists (drop n (buffered t)). split_and!; [by rewrite take_drop|rewrite length_take; lia| |].
      * left. split; [congruence|done].
      * intros He. destruct (buffered t); [done|]. destruct n; [lia|done].
  - pose proof (arriving_fuel t cs fs Ha) as Hf. pose proof (transport_read_loop_spec (S (stream_fuel (socket t))) n t cs fs Hn Ha ltac:(lia)) as H. unfold wp in H.
    destruct (transport_read_loop _ n t) as [[bs|e| |] t']; try done. destruct H as (plain' & E & Hl & Hdel & Hnil). exists plain'. split_and!; try done.
    intros ->. destruct (Hnil eq_refl) as [-> Hcl]. by rewrite E.
Qed.
(** ** What is to be delivered, and what is written *)
(** What a peer with the same keys seals, and then closes, is what the transport delivers. *)
Lemma sealed_delivers (requests : list bytes) (cs : list TlsCiphertextRecord) (rest : bytes) (peer peer' : Tls13RecordProtection) (s : R * W) (st : Tls13ApplicationState) :
  failed st = false -> close_notify_received st = false -> paired peer (record_protection st) -> Forall sendable requests ->
  io_mapM (fun rp => encrypt_record rp.1 rp.2) (map padless (map data_record requests ++ [close_record])) peer = (Ok cs, peer') ->
  quiet (pending s.1) -> bytes_of (pending s.1) = concat (map wire_of cs) ++ rest -> delivers (new_transport s st) (concat requests).
Proof.
  intros Hup Hin Hp Hall He Hq Hb. right. exists cs, requests. split; [|done]. split; cbn [new_transport peer_closed socket application_state]; [done|done|by exists rest| |].
  - pose proof (channel (map padless (map data_record requests ++ [close_record])) peer (record_protection st) Hp) as H. rewrite He in H. apply H. apply Forall_map, Forall_true. cbn. lia.
  - pose proof (channel_data requests [close_record] peer (record_protection st) Hp Hall ltac:(by right)) as H. rewrite He in H. destruct H as (r' & Hd & _).
    eexists. by eapply receive_all.
Qed.

(** One fragment sealed for a peer with the same keys. *)
Lemma seal_data (d : bytes) (st : Tls13ApplicationState) (peer : Tls13RecordProtection) : failed st = false -> close_notify_sent st = false -> sendable d -> paired (record_protection st) peer ->
  match encrypt_application_data_record d st with
  | (Ok c, st') => ciphertext_ok c /\ st' = set_record_protection st (record_protection st') /\
      exists peer', decrypt_record c peer = (Ok (data_record d), peer') /\ paired (record_protection st') peer'
  | (Err e, st') => e = SequenceNumberExhausted Write /\ st' = set_record_protection st (record_protection st')
  | ((Panic | Fuel), _) => False
  end.
Proof.
  intros Hup Hout Hd Hp. pose proof (send_all [d] st Hup Hout ltac:(by apply Forall_singleton)) as Hs. cbn [io_mapM map] in Hs. unfold io_bind in Hs. cbn [fst snd] in Hs.
  pose proof (channel [padless (data_record d)] (record_protection st) peer Hp ltac:(apply Forall_singleton; cbn; lia)) as Hc.
  pose proof (channel_data [d] [] (record_protection st) peer Hp ltac:(by apply Forall_singleton) ltac:(by left)) as Hd'. cbn [map app padless io_mapM fst snd] in Hc, Hd'. unfold io_bind in Hc, Hd'. cbn [fst snd] in Hc, Hd'.
  destruct (encrypt_record (data_record d) 0 (record_protection st)) as [[c|e| |] p1]; cbn in Hs, Hc, Hd'; try done.
  - destruct (encrypt_application_data_record d st) as [[c'|e| |] st']; try done. injection Hs as -> ->. destruct Hc as [Hok (peer' & Hdec & Hp')]. apply Forall_cons in Hok as [Hok _]. split; [exact Hok|]. split; [reflexivity|].
    unfold io_bind, io_ret in Hdec. destruct (decrypt_record c peer) as [[r|e| |] p2]; try done. injection Hdec as -> ->. by exists peer'.
  - destruct (encrypt_application_data_record d st) as [[c'|e'| |] st']; try done. injection Hs as -> ->. by destruct Hd' as [-> _].
Qed.

Definition open_for_writing (st : Tls13ApplicationState) : Prop := failed st = false /\ close_notify_sent st = false.

(** The data of [ds] went out, all of it or the records of a first part and perhaps some bytes of the next. *)
Definition sent_all (ds : list bytes) (peer : Tls13RecordProtection) t t' : Prop :=
  exists cs peer', took (socket t) [] (concat (map wire_of cs)) (socket t') /\ io_mapM decrypt_record cs peer = (Ok (map data_record ds), peer') /\
    paired (record_protection (application_state t')) peer' /\ open_for_writing (application_state t').
Definition sent_some (ds : list bytes) (peer : Tls13RecordProtection) t t' : Prop :=
  exists k cs peer' pre post, took (socket t) [] pre (socket t') /\ concat (map wire_of cs) = pre ++ post /\ io_mapM decrypt_record cs peer = (Ok (map data_record (take k ds)), peer').

Lemma write_fragments_spec (ds : list bytes) t (peer : Tls13RecordProtection) : open_for_writing (application_state t) -> paired (record_protection (application_state t)) peer -> Forall sendable ds ->
  wp (write_fragments ds) t (fun _ t' => sent_all ds peer t t') (fun e t' => sent_some ds peer t t').
Proof.
  intros Hopen Hp Hall. revert t peer Hopen Hp. induction Hall as [|d ds Hd _ IH]; intros t peer Hopen Hp; cbn [write_fragments].
  - apply wp_ret. exists [], peer. split; [apply took_refl|by split].
  - destruct Hopen as [Hup Hout]. pose proof (seal_data d (application_state t) peer Hup Hout Hd Hp) as Hs. unfold wp, io_bind at 1, on_state, record_data, io_map_err.
    destruct (encrypt_application_data_record d (application_state t)) as [[c|e| |] st']; cbn [map_err]; try done.
    2: { exists 0%nat, [], peer, [], []. split; [apply took_refl|by split]. }
    destruct Hs as (Hok & Hst & peer1 & Hdec & Hp1). unfold io_bind at 1, io_lift at 1. destruct (wire_of_spec (E := io_error) c Hok) as (Hser & _ & _). rewrite Hser.
    unfold io_bind at 1, on_socket. cbn [socket application_state read_buffer read_position peer_closed].
    assert (Hopen' : open_for_writing st') by (rewrite Hst; by split). pose proof (wp_do_write (wire_of c) (socket t) (fun _ s' => took (socket t) [] (wire_of c) s')
      (fun _ s' => exists pre post, wire_of c = pre ++ post /\ took (socket t) [] pre s') (fun s1 Ht => Ht) ltac:(intros e s1 pre post Hc Ht; by exists pre, post)) as Hw. unfold wp in Hw.
    destruct (do_write (wire_of c) (socket t)) as [[[]|e| |] s1]; try done.
    + set (t1 := mkTransport s1 st' (read_buffer t) (read_position t) (peer_closed t)). specialize (IH t1 peer1 Hopen' Hp1). unfold wp in IH.
      destruct (write_fragments ds t1) as [[[]|e| |] t']; try done.
      * destruct IH as (cs & peer' & Ht & Hd2 & Hp2 & Ho2). exists (c :: cs), peer'. cbn [map concat io_mapM]. unfold io_bind. rewrite Hdec, Hd2. split; [|by split]. exact (took_trans _ _ _ [] [] _ _ Hw Ht).
      * destruct IH as (k & cs & peer' & pre & post & Ht & Hc & Hd2). exists (S k), (c :: cs), peer', (wire_of c ++ pre), post. cbn [map concat io_mapM take]. unfold io_bind. rewrite Hdec, Hd2, Hc, app_assoc.
        split; [exact (took_trans _ _ _ [] [] _ _ Hw Ht)|done].
    + destruct Hw as (pre & post & Hc & Ht). exists 1%nat, [c], peer1, pre, post. cbn [map concat io_mapM take]. unfold io_bind, io_ret. rewrite Hdec, app_nil_r. by rewrite take_0.
Qed.

Lemma chunks_sendable (input : bytes) : let ds := chunks (Z.to_nat TLS_PLAINTEXT_FRAGMENT_LIMIT) input in Forall sendable ds /\ concat ds = input.
Proof. destruct (fragments_ok input) as [Hf Hc]. split; [|exact Hc]. eapply Forall_impl; [exact Hf|]. by intros c [_ Hl]. Qed.

(** C37: writing to the stream of application data seals the whole input, in records of at most 2^14 bytes that the peer opens to exactly
    the input, in order, and reports its length. When it fails, what has gone out
    begins with the records of a first part of the input, and nothing of it is out of order. *)
Theorem transport_write_correct (input : bytes) t (peer : Tls13RecordProtection)
  (Hopen : open_for_writing (application_state t)) (Hp : paired (record_protection (application_state t)) peer) :
  exists ds, concat ds = input /\ Forall sendable ds /\
    match transport_write input t with
    | (Ok n, t') => n = length input /\ sent_all ds peer t t'
    | (Err _, t') => sent_some ds peer t t'
    | (Panic, _) | (Fuel, _) => False
    end.
Proof.
  destruct (chunks_sendable input) as [Hall Hc]. exists (chunks (Z.to_nat TLS_PLAINTEXT_FRAGMENT_LIMIT) input). split; [exact Hc|]. split; [exact Hall|]. unfold transport_write.
  case_bool_decide as Hi.
  - subst input. unfold io_ret. split; [done|]. exists [], peer. split; [apply took_refl|]. by split.
  - pose proof (write_fragments_spec _ t peer Hopen Hp Hall) as H. unfold wp in H. unfold io_bind, io_ret. destruct (write_fragments _ t) as [[[]|e| |] t']; try done.
Qed.
(** ** Whatever arrives *)
Lemma read_wire_total (s : R * W) : wp read_wire_record s (fun wire s' => exists c, took s c [] s' /\ quiet c /\ bytes_of c = wire /\ (5 <= length wire)%nat) (fun _ s' => exists c, took s c [] s').
Proof.
  unfold read_wire_record. apply wp_bind, wp_read_exact; [|intros e c s' Ht; by exists c]. intros c header s1 Ht1 Hq1 Hb1 Hl1. change TLS_RECORD_HEADER_SIZE with 5%nat in Hl1.
  destruct header as [|h0 [|h1 [|h2 [|h3 [|h4 [|]]]]]]; try discriminate Hl1. apply wp_bind. change (u16_at [h0; h1; h2; h3; h4] 3) with (Ok (be_value 0 [h3; h4]) : res io_error Z).
  unfold wp at 1, io_lift at 1. destruct (_ <? _); [apply wp_err; by exists c|]. apply wp_bind, wp_read_exact; [|intros e c2 s' Ht2; exists (c ++ c2); exact (took_trans _ _ _ _ _ [] [] Ht1 Ht2)].
  intros c2 body s2 Ht2 Hq2 Hb2 Hl2. apply wp_ret. exists (c ++ c2). split; [exact (took_trans _ _ _ _ _ [] [] Ht1 Ht2)|].
  split; [by apply Forall_app|]. rewrite bytes_of_app, Hb1, Hb2. split; [done|]. rewrite length_app. cbn [length]. lia.
Qed.

Lemma index_first {E : Type} (wire : bytes) : (5 <= length wire)%nat -> exists b, index wire 0 = Ok b :> res E byte.
Proof. destruct wire as [|b wire]; cbn [length]; [lia|]. intros _. by exists b. Qed.

(** A transport in use: its state is well formed, and [t'] came from [t] by reading only. *)
Definition read_from t t' : Prop := state_ok (application_state t') /\ written (socket t').2 = written (socket t).2 /\ (stream_fuel (socket t') <= stream_fuel (socket t))%nat.

Lemma receive_event_total t : state_ok (application_state t) ->
  wp receive_event t (fun _ t' => read_from t t' /\ (stream_fuel (socket t') < stream_fuel (socket t))%nat /\ buffered t' = buffered t /\ peer_closed t' = peer_closed t) (fun _ t' => read_from t t').
Proof.
  intros Hok. unfold receive_event, wp, io_bind at 1, on_socket. pose proof (read_wire_total (socket t)) as Hr. unfold wp in Hr.
  assert (Hfrom : forall c s1, took (socket t) c [] s1 -> written s1.2 = written (socket t).2 /\ stream_fuel (socket t) = (length c + stream_fuel s1)%nat).
  { intros c s1 Ht. split; [destruct Ht as [_ ->]; by rewrite app_nil_r|by eapply took_fuel]. }
  destruct (read_wire_record (socket t)) as [[wire|e| |] s1]; try done.
  2: { destruct Hr as (c & Ht). destruct (Hfrom c s1 Ht) as [Hw Hf]. split_and!; cbn [application_state socket]; [done|done|lia]. }
  destruct Hr as (c & Ht & _ & Hbc & H5). destruct (Hfrom c s1 Ht) as [Hw Hf]. pose proof (length_bytes_of c) as Hl. rewrite Hbc in Hl. set (t1 := mkTransport s1 _ _ _ _). assert (Hr1 : read_from t t1) by (split_and!; cbn [t1 application_state socket]; [done|done|lia]).
  unfold io_bind at 1, io_lift at 1. destruct (index_first (E := io_error) wire H5) as (b & ->). destruct (negb _); [exact Hr1|]. unfold io_bind at 1, io_lift at 1.
  pose proof (decode_ciphertext_returns wire) as Hdec. destruct (decode_ciphertext_record wire) as [record|e| |]; try done. unfold on_state, record_data, io_map_err. cbn [t1 application_state].
  pose proof (perform_ends (Receive record) (application_state t) Hok) as Hp. unfold perform, io_fmap, wp, io_bind in Hp.
  destruct (receive_protected_record record (application_state t)) as [[ev|e| |] st]; cbn [map_err]; try done.
  - destruct Hp as [Hp _]. unfold read_from. split_and!; cbn [t1 application_state socket peer_closed]; try done; lia.
  - destruct Hp as [Hp _]. unfold read_from. split_and!; cbn [t1 application_state socket]; [done|done|lia].
Qed.

(** Reading from the stream of application data is safe whatever the peer and the network deliver: a read returns at most the
    bytes asked for or an error, it neither panics nor loops, it writes nothing, and it leaves the keys and secrets of the
    state well formed, wiped when the peer sent a fatal alert. *)
Theorem transport_read_safe (n : nat) t (Hok : state_ok (application_state t)) :
  match transport_read n t with
  | (Ok bs, t') => (length bs <= n)%nat /\ read_from t t'
  | (Err _, t') => read_from t t'
  | (Panic, _) | (Fuel, _) => False
  end.
Proof.
  unfold transport_read. destruct (Nat.eqb_spec n 0) as [->|Hn]; [split; [done|by split]|].
  assert (H : forall fuel t0, state_ok (application_state t0) -> (stream_fuel (socket t0) < fuel)%nat ->
    wp (transport_read_loop fuel n) t0 (fun bs t' => (length bs <= n)%nat /\ read_from t0 t') (fun _ t' => read_from t0 t')).
  2: { specialize (H (S (stream_fuel (socket t))) t Hok ltac:(lia)). exact H. }
  clear t Hok. induction fuel as [|fuel IH]; intros t Hok Hf; [lia|]. cbn [transport_read_loop]. unfold wp, io_bind at 1, gets at 1. rewrite buffered_ltb.
  assert (Hself : read_from t t) by by split. case_bool_decide as Hb; cbn [negb].
  2: { destruct (take_buffered_spec n t Hb) as (t' & -> & _ & E1 & E2 & _). split; [rewrite length_take; lia|]. unfold read_from. rewrite E1, E2. by split. }
  destruct (peer_closed t); [split; [cbn; lia|done]|]. pose proof (receive_event_total t Hok) as Hr. unfold wp in Hr. unfold io_bind at 1.
  destruct (receive_event t) as [[ev|e| |] t']; try done. destruct Hr as ((Hok' & Hw & Hle) & Hlt & _ & _).
  assert (Hnext : forall t2, application_state t2 = application_state t' -> socket t2 = socket t' -> wp (transport_read_loop fuel n) t2 (fun bs t3 => (length bs <= n)%nat /\ read_from t t3) (fun _ t3 => read_from t t3)).
  { intros t2 Ea Es. eapply wp_mono; [apply IH; [by rewrite Ea|rewrite Es; lia]| |]; intros ?; [intros t3 [Hl (A & B & C)]; split; [done|]|intros t3 (A & B & C)];
      (split_and!; [done|rewrite B, Es; done|rewrite Es in C; lia]). }
  destruct ev as [f| | |d|].
  - case_bool_decide; [by apply Hnext|]. unfold io_bind, modify. by apply Hnext.
  - split; [cbn; lia|]. by split_and!.
  - by split_and!.
  - by split_and!.
  - split; [cbn; lia|]. by split_and!.
Qed.
End delivery.

(** ** A transport on a script *)
Definition sealed_hello : list TlsCiphertextRecord :=
  match (io_mapM (fun rp => encrypt_record rp.1 rp.2) (map padless (map data_record [str "hello"] ++ [close_record]))
    (new_protection (repeat x03 32) (repeat x04 12) (repeat x01 32) (repeat x02 12))).1 with Ok cs => cs | _ => [] end.
Definition example_transport : TlsApplicationTransport Script Sink :=
  new_transport ([Data (take 9 (concat (map wire_of sealed_hello))); Data (drop 9 (concat (map wire_of sealed_hello)))], new_sink) example_state.

Lemma example_channel : let peer := new_protection (repeat x03 32) (repeat x04 12) (repeat x01 32) (repeat x02 12) in
  paired peer (record_protection example_state) /\ paired (record_protection example_state) peer.
Proof. split; by apply paired_new. Qed.

Lemma transport_read_correct_witness : delivers example_transport (str "hello") /\
  match transport_read 3 example_transport with
  | (Ok bs, t') => exists plain', str "hello" = bs ++ plain' /\ (length bs <= 3)%nat /\ delivers t' plain'
  | _ => False
  end.
Proof.
  assert (Hd : delivers example_transport (str "hello")).
  { change (str "hello") with (concat [str "hello"]).
    apply (sealed_delivers [str "hello"] sealed_hello [] (new_protection (repeat x03 32) (repeat x04 12) (repeat x01 32) (repeat x02 12))
      (set_write_sequence (new_protection (repeat x03 32) (repeat x04 12) (repeat x01 32) (repeat x02 12)) (Some 2))).
    - reflexivity.
    - reflexivity.
    - exact (proj1 example_channel).
    - apply Forall_singleton. vm_compute. discriminate.
    - vm_compute. reflexivity.
    - apply Forall_app. split; [apply quiet_data|]. apply Forall_app. split; [apply quiet_data|by apply Forall_nil].
    - vm_compute. reflexivity. }
  split; [exact Hd|]. pose proof (transport_read_correct 3 example_transport (str "hello") ltac:(lia) Hd) as H.
  destruct (transport_read 3 example_transport) as [[bs|e| |] t']; try destruct H. destruct H as (E & Hl & Ht & _). eexists. split; [exact E|]. split; [exact Hl|exact Ht].
Defined.

Lemma transport_write_correct_witness :
  match transport_write (str "hello") example_transport with
  | (Ok n, t') => n = 5%nat /\ exists ds, concat ds = str "hello" /\ sent_all ds (new_protection (repeat x03 32) (repeat x04 12) (repeat x01 32) (repeat x02 12)) example_transport t'
  | _ => False
  end.
Proof.
  destruct (transport_write_correct (str "hello") example_transport _ (conj eq_refl eq_refl) (proj2 example_channel)) as (ds & Hc & _ & H).
  destruct (transport_write (str "hello") example_transport) as [[n|e| |] t'] eqn:Ew; [|exfalso|destruct H..].
  - destruct H as [-> H]. split; [reflexivity|]. exists ds. split; [exact Hc|exact H].
  - apply (f_equal (fun r => match r.1 with Err _ => true | _ => false end)) in Ew. vm_compute in Ew. discriminate Ew.
Defined.

Lemma transport_read_safe_witness :
  match transport_read 3 example_transport with
  | (Ok bs, t') => (length bs <= 3)%nat /\ read_from example_transport t'
  | _ => False
  end.
Proof.
  pose proof (transport_read_safe 3 example_transport example_state_ok) as H.
  destruct (transport_read 3 example_transport) as [[bs|e| |] t'] eqn:Er; [exact H|exfalso|exact H..].
  apply (f_equal (fun r => match r.1 with Err _ => true | _ => false end)) in Er. vm_compute in Er. discriminate Er.
Defined.
