(* ===== verification/TlsAccept.v ===== *)
(** * A TLS connection accepted: [src/tls_probe.rs], [handle_connection]

    From the first byte of a connection to its application data: the hello is read, an identity and a route
    are found for the name it asks for, the flights are exchanged, and the client's Finished is checked. The state
    is the socket and the random device. What the probe answers over the connection is here as well. *)
From Stdlib Require Import ZArith Zmod Lia.
From stdpp Require Import prelude.
From S2P Require Import Prelude Bytes NetAddr Config Io Uint256 Sha256 Encoding Poly1305 ChaCha20 Primes Curve P256 Ecdsa Der Pem Keys TlsIdentity TlsRecord TlsMessages TlsHello TlsCredentials TlsHandshake TlsApplication TlsServer Transport.
Local Open Scope Z_scope.
Set Warnings "-clear-no-such-hyp".

Section accept.
Context {R W OS : Type} {HR : Io.Read R} {HW : Io.Write W} `{!RandomDevice OS}.

Definition on_wire {E A : Type} (m : io (R * W) E A) : io ((R * W) * OS) E A := io_zoom fst (fun s st => (s, st.2)) m.
Definition on_device {E A : Type} (m : io OS E A) : io ((R * W) * OS) E A := io_zoom snd (fun os st => (st.1, os)) m.

Definition handshake_data {S A : Type} (m : io S TlsServerHandshakeError A) : io S io_error A :=
  io_map_err (fun e => invalid_data (server_error_to_string e)) m.

Definition write_compatibility (compatibility_mode : bool) : io (R * W) io_error unit :=
  if compatibility_mode then write_compatibility_change_cipher_spec else io_ret tt.

(** The first flight, and the second hello when it is asked for. *)
Definition exchange_hellos (fuel : nat) (compatibility_mode : bool) (first_flight : Tls13ServerFirstFlight) : io ((R * W) * OS) io_error Tls13ServerHelloFlight :=
  match first_flight with
  | ServerHello flight =>
      let! _ := on_wire (write_handshake_message (server_hello flight)) in
      let! _ := on_wire (write_compatibility compatibility_mode) in
      io_ret flight
  | HelloRetry retry =>
      let! _ := on_wire (write_handshake_message (hello_retry_request retry)) in
      let! _ := on_wire (write_compatibility compatibility_mode) in
      let! client_hello2 := on_wire (read_client_hello true) in
      let! flight := handshake_data (on_device (continue_with_client_hello fuel retry client_hello2)) in
      let! _ := on_wire (write_handshake_message (server_hello flight)) in
      io_ret flight
  end.

(** What the server sends after the hellos. *)
Definition send_authentication (flight : Tls13ServerHelloFlight) (authentication : Tls13ServerAuthenticationFlight) : io (R * W) io_error unit :=
  let! _ := write_ciphertext_record (encrypted_extensions_record flight) in
  let! _ := write_ciphertext_records (certificate_records authentication) in
  let! _ := write_ciphertext_records (certificate_verify_records authentication) in
  write_ciphertext_records (finished_records authentication).

(** The server's authentication, and the client's Finished. *)
Definition authenticate_connection (fuel : nat) (identity : TlsIdentity) (flight : Tls13ServerHelloFlight) : io (R * W) io_error Tls13ApplicationState :=
  let '(authentication, flight) := authenticate_server fuel (certificate_chain identity) (signing_key identity) flight in
  let! authentication := handshake_data (io_lift authentication) in
  let! _ := send_authentication flight authentication in
  let! client_finished := read_client_finished_record in
  handshake_data (io_lift (complete_handshake [client_finished] flight)).

(** Whether the configuration, if there is one, has a route for the name. *)
Definition routed (configuration : option Config) (server_name : bytes) : res io_error bool :=
  match configuration with
  | None => Ok true
  | Some configuration =>
      match route_for_host configuration server_name with
      | Ok _ => Ok true
      | Err _ => Ok false
      | Panic => Panic
      | Fuel => Fuel
      end
  end.

(** The alert for a name that is not served; there is no connection then. *)
Definition reject_name : io (R * W) io_error (option Tls13ApplicationState) :=
  let! _ := write_fatal_alert UnrecognizedName in
  io_ret None.

Definition accept_connection (key_fuel nonce_fuel : nat) (identities : TlsIdentityStore) (configuration : option Config) : io ((R * W) * OS) io_error (option Tls13ApplicationState) :=
  let! client_hello1 := on_wire (read_client_hello false) in
  let! parsed_client_hello := io_lift (map_err (fun e => invalid_data (handshake_error_to_string e)) (parse_client_hello client_hello1)) in
  let compatibility_mode := negb (bool_decide (legacy_session_id parsed_client_hello = [])) in
  let! server_name := io_lift (ok_or (server_name parsed_client_hello) (invalid_data (str "TLS probe ClientHello contains no SNI hostname"))) in
  match select identities server_name with
  | None => on_wire reject_name
  | Some identity =>
      let! has_route := io_lift (routed configuration server_name) in
      if negb has_route then on_wire reject_name
      else
        let! first_flight := handshake_data (on_device (negotiate_tls13_server_first_flight key_fuel client_hello1)) in
        let! flight := exchange_hellos key_fuel compatibility_mode first_flight in
        let! application_state := on_wire (authenticate_connection nonce_fuel identity flight) in
        io_ret (Some application_state)
  end.
End accept.

(** ** The probe's answer *)
Section probe.
Context {R W : Type} {HR : Io.Read R} {HW : Io.Write W}.

Definition MAX_PROBE_HTTP_REQUEST : Z := 32 * 1024.

Definition probe_socket {E A : Type} (m : io (R * W) E A) : io ((R * W) * Tls13ApplicationState) E A := io_zoom fst (fun s st => (s, st.2)) m.
Definition probe_state {A : Type} (m : io Tls13ApplicationState TlsRecordError A) : io ((R * W) * Tls13ApplicationState) io_error A :=
  record_data (io_zoom snd (fun a st => (st.1, a)) m).

Fixpoint read_http_request_loop (fuel : nat) (request : bytes) : io ((R * W) * Tls13ApplicationState) io_error bytes :=
  match fuel with
  | O => fun st => (Fuel, st)
  | S fuel' =>
      let! wire := probe_socket read_wire_record in
      let! first := io_lift (index wire 0) in
      if negb (byte_eqb first (content_type_code ApplicationData)) then
        io_err (invalid_data (str "expected protected application-data record, got TLS content type " ++ to_dec (u8 first)))
      else
        let! record := io_lift (decode_ciphertext_record wire) in
        let! event := probe_state (receive_protected_record record) in
        match event with
        | ApplicationData_event fragment =>
            let request := request ++ fragment in
            if MAX_PROBE_HTTP_REQUEST <? len request then io_err (invalid_data (str "TLS probe HTTP request exceeded " ++ to_dec MAX_PROBE_HTTP_REQUEST ++ str " bytes"))
            else
              match windows_position (CRLF ++ CRLF) request with
              | Some _ => io_ret request
              | None => read_http_request_loop fuel' request
              end
        | CloseNotify_event => io_err (invalid_data (str "client sent close_notify before the TLS probe HTTP request"))
        | UserCanceled_event => io_err (invalid_data (str "client canceled the TLS connection before the probe request"))
        | FatalAlert description => io_err (invalid_data (str "client sent fatal TLS alert " ++ alert_description_debug description))
        | IgnoredAfterCloseNotify => io_err (invalid_data (str "TLS probe received application data after close_notify"))
        end
  end.

Definition read_http_request : io ((R * W) * Tls13ApplicationState) io_error bytes := fun st => read_http_request_loop (stream_fuel st.1) [] st.

Definition probe_response : bytes :=
  str "HTTP/1.1 200 OK" ++ CRLF ++ str "Content-Length: 24" ++ CRLF ++ str "Content-Type: text/plain" ++ CRLF ++ str "Connection: close" ++ CRLF ++ CRLF ++
  str "BareProxy TLS probe OK." ++ [LF].

Definition answer_probe : io ((R * W) * Tls13ApplicationState) io_error unit :=
  let! request := read_http_request in
  if negb (starts_with (str "GET / HTTP/1.1" ++ CRLF) request) then io_err (invalid_data (str "TLS probe expected an HTTP/1.1 GET request"))
  else
    let! response_record := probe_state (encrypt_application_data_record probe_response) in
    let! _ := probe_socket (write_ciphertext_record response_record) in
    let! close_notify := probe_state encrypt_close_notify in
    probe_socket (write_ciphertext_record close_notify).
End probe.

(** ** Reading what the client sends *)
Section reads.
Context {R W : Type} {HR : Io.Read R} {HW : Io.Write W}.
Implicit Types (s : R * W).

(** [stream] was read, and nothing written. *)
Definition heard_bytes (stream : bytes) s s' : Prop := exists c, took s c [] s' /\ quiet c /\ bytes_of c = stream.
Definition listened s s' : Prop := exists c, took s c [] s'.

Lemma heard_nil s : heard_bytes [] s s.
Proof. exists []. split; [apply took_refl|]. split; [by apply Forall_nil|done]. Qed.
Lemma heard_trans (a b : bytes) s s1 s2 : heard_bytes a s s1 -> heard_bytes b s1 s2 -> heard_bytes (a ++ b) s s2.
Proof.
  intros (c1 & H1 & Q1 & <-) (c2 & H2 & Q2 & <-). exists (c1 ++ c2). split; [exact (took_trans _ _ _ _ _ [] [] H1 H2)|]. split; [by apply Forall_app|]. by rewrite bytes_of_app.
Qed.
Lemma listened_trans (a : bytes) s s1 s2 : heard_bytes a s s1 -> listened s1 s2 -> listened s s2.
Proof. intros (c1 & H1 & _) (c2 & H2). exists (c1 ++ c2). exact (took_trans _ _ _ _ _ [] [] H1 H2). Qed.
Lemma heard_listened (a : bytes) s s1 : heard_bytes a s s1 -> listened s s1.
Proof. intros (c & H & _). by exists c. Qed.

Lemma read_wire_hears s : wp read_wire_record s (fun wire s' => heard_bytes wire s s' /\ (stream_fuel s' < stream_fuel s)%nat /\ exists b, forall E, index wire 0 = Ok b :> res E byte) (fun _ s' => listened s s').
Proof.
  eapply wp_mono; [apply read_wire_total| |done]. intros wire s' (c & Ht & Hq & Hb & H5). split; [by exists c|].
  pose proof (length_bytes_of c) as Hl. rewrite Hb in Hl. apply took_fuel in Ht. split; [lia|]. destruct wire as [|b wire]; [cbn in H5; lia|]. by exists b.
Qed.

(** The bytes of a record as it was received. *)
Definition record_wire (r : TlsPlaintextRecord) : bytes :=
  content_type_code (content_type r) :: be_bytes 2 (legacy_record_version r) ++ be_bytes 2 (len (fragment r)) ++ fragment r.

Lemma one_record_inv {A : Type} (cut : bytes -> res TlsRecordError (option (A * nat))) (loop : bytes -> res TlsRecordError (list A * nat)) (m wire : bytes) (a : A) :
  (forall buffer input, match decoder_push loop input buffer with
     | (Ok records, rest) => cuts cut (buffer ++ input) records rest | (Err e, rest) => cut_fails cut (buffer ++ input) e /\ rest = buffer ++ input | _ => False end) ->
  one_record (decoder_push loop) m wire = Ok a -> exists n, cut wire = Ok (Some (a, n)) /\ drop n wire = [].
Proof.
  intros Hd. unfold one_record. specialize (Hd [] wire). destruct (decoder_push loop wire []) as [[records|e| |] rest]; try done. cbn [map_err res_bind].
  destruct (Nat.eqb_spec (length records) 1) as [Hl|]; cbn [negb orb]; [|done]. destruct (Nat.eqb_spec (length rest) 0) as [Hr|]; cbn [negb]; [|done].
  destruct (expect_last records Hl) as (a' & -> & ->). intros E. apply Ok_inj in E as ->. apply length_zero_iff_nil in Hr as ->. cbn [app] in Hd.
  inversion Hd as [|l a1 n rs rest' Hcut Hrest]; subst. exists n. split; [exact Hcut|]. inversion Hrest. congruence.
Qed.

Lemma two_bytes (a b : byte) : be_bytes 2 (be_value 0 [a; b]) = [a; b].
Proof. exact (be_bytes_be_value [a; b]). Qed.

Lemma whole_rest (rest : bytes) (n : nat) : (n <= length rest)%nat -> drop n rest = [] -> take n rest = rest /\ Z.of_nat n = len rest.
Proof. intros Hl Hd. apply (f_equal length) in Hd. rewrite length_drop in Hd. cbn [length] in Hd. split; [apply take_ge; lia|unfold len; lia]. Qed.

Lemma decode_plaintext_inv (wire : bytes) (r : TlsPlaintextRecord) : decode_plaintext_record wire = Ok r -> wire = record_wire r.
Proof.
  intros H. destruct (one_record_inv plaintext_cut (fun buffer => plaintext_loop (S (length buffer)) buffer 0 []) _ wire r plaintext_push_spec H) as (n & Hcut & Hd).
  destruct wire as [|t [|v1 [|v2 [|l1 [|l2 rest]]]]]; try done. unfold plaintext_cut in Hcut. apply res_bind_Ok in Hcut as (ct & Hct & Hcut). case_match; [done|].
  set (k := Z.to_nat (be_value 0 [l1; l2])) in *. destruct (Nat.ltb_spec (length rest) k) as [|Hk]; [done|]. apply res_bind_Ok in Hcut as ([] & _ & Hcut). injection Hcut as <- <-. cbn [drop Nat.add] in Hd.
  destruct (whole_rest rest k Hk Hd) as [-> Hlen]. unfold record_wire. cbn [content_type legacy_record_version fragment]. rewrite <- Hlen. unfold k.
  rewrite Z2Nat.id by apply be_value_range. rewrite !two_bytes. cbn [app]. f_equal; [by destruct t; try discriminate Hct; injection Hct as <-|].
  change ((0 * 256 + u8 v1) * 256 + u8 v2) with (be_value 0 [v1; v2]). by rewrite two_bytes.
Qed.

Lemma decode_ciphertext_inv (wire : bytes) (r : TlsCiphertextRecord) : decode_ciphertext_record wire = Ok r -> wire = wire_of r /\ ciphertext_ok r.
Proof.
  intros H. destruct (one_record_inv ciphertext_cut (fun buffer => ciphertext_loop (S (length buffer)) buffer 0 []) _ wire r ciphertext_push_spec H) as (n & Hcut & Hd).
  destruct wire as [|t [|v1 [|v2 [|l1 [|l2 rest]]]]]; try done. unfold ciphertext_cut in Hcut. destruct (byte_eqb t x17) eqn:Et; [|done]. cbn [negb] in Hcut. apply byte_eqb_eq in Et as ->.
  destruct (Z.eqb_spec (be_value 0 [v1; v2]) 0x0303) as [Hv|]; [|done]. cbn [negb] in Hcut. destruct (Z.ltb_spec 16640 (be_value 0 [l1; l2])) as [|Hl]; [done|].
  set (k := Z.to_nat (be_value 0 [l1; l2])) in *. destruct (Nat.ltb_spec (length rest) k) as [|Hk]; [done|]. injection Hcut as <- <-. cbn [drop Nat.add] in Hd.
  destruct (whole_rest rest k Hk Hd) as [-> Hlen]. assert (Hle : len rest = be_value 0 [l1; l2]) by (rewrite <- Hlen; unfold k; rewrite Z2Nat.id by apply be_value_range; done).
  assert (Hok : ciphertext_ok (mkCiphertext 0x0303 rest)) by (split; cbn [cipher_version encrypted_record]; [done|lia]). split; [|exact Hok].
  unfold wire_of, serialize_ciphertext, ciphertext_header, try_from. cbn [cipher_version encrypted_record]. rewrite (proj2 (Z.leb_le _ _)) by (unfold u16_max; lia). cbn [res_bind].
  rewrite Hle, two_bytes, <- Hv, two_bytes. reflexivity.
Qed.

Lemma skip_spec (wire : bytes) : match skip_change_cipher_spec wire with Ok _ => exists r, wire = record_wire r /\ content_type r = ChangeCipherSpec | Err _ => True | Panic | Fuel => False end.
Proof.
  unfold skip_change_cipher_spec. pose proof (decode_plaintext_returns wire) as Hr. destruct (decode_plaintext_record wire) as [r|e| |] eqn:Ed; try done. cbn [res_bind].
  case_bool_decide; cbn [negb]; [|done]. exists r. split; [by apply decode_plaintext_inv|done].
Qed.

Lemma push_record_spec (record : TlsPlaintextRecord) (buffer : bytes) : content_type record = Handshake ->
  match push_record record buffer with
  | (Ok messages, rest) => cuts message_cut (buffer ++ fragment record) messages rest
  | _ => False
  end.
Proof.
  intros Ht. unfold push_record. rewrite bool_decide_true by done. cbn [negb].
  assert (Hq : forall b, message_loop (S (length b)) b 0 [] = TlsRecord.drain message_cut (S (length b)) b 0 []) by (intros; apply message_loop_drain; lia).
  assert (Hr : forall l, returns (message_cut l)) by (intros l; by destruct (message_cut_ok l) as [o ->]).
  pose proof (decoder_push_spec _ message_cut_size Hr _ Hq buffer (fragment record)) as H.
  destruct (decoder_push _ (fragment record) buffer) as [[m|e| |] rest]; [exact H| |exact H..]. destruct H as [H _].
  induction H as [l e He|l m n e _ _ IH]; [|exact IH]. destruct (message_cut_ok l) as [o Ho]. congruence.
Qed.

(** At most one message comes out: none yet, or the whole of what was taken in. *)
Lemma pushed_one (r : TlsPlaintextRecord) (deframer rest : bytes) (messages : list bytes) : cuts message_cut (deframer ++ fragment r) messages rest -> (length messages <= 1)%nat ->
  (messages = [] /\ rest = deframer ++ fragment r) \/ exists m, messages = [m] /\ (rest = [] -> m = deframer ++ fragment r).
Proof.
  intros Hp Hl. destruct messages as [|m [|]]; [left|right|cbn in Hl; lia].
  - by inversion Hp.
  - exists m. split; [done|]. intros ->. inversion Hp as [|l m' n ms' rest' Hcut Hrest]; subst. assert (Hn : drop n (deframer ++ fragment r) = []) by (by inversion Hrest).
    revert Hcut Hn. destruct (deframer ++ fragment r) as [|t [|b1 [|b2 [|b3 body]]]]; try done. unfold message_cut. set (k := Z.to_nat _).
    destruct (Nat.ltb_spec (length body) k) as [|Hk]; [done|]. intros [= <- <-] Hn. cbn [drop Nat.add] in Hn. by destruct (whole_rest body k Hk Hn) as [-> _].
Qed.

(** A record taken in: no message yet, or one. *)
Lemma accept_record_spec (second : bool) (wire deframer : bytes) : index wire 0 = Ok (content_type_code Handshake) :> res io_error byte ->
  match accept_handshake_record second wire deframer with
  | Ok (messages, rest) => exists r, wire = record_wire r /\ content_type r = Handshake /\ (second = true -> legacy_record_version r = TLS_LEGACY_RECORD_VERSION) /\
      ((messages = [] /\ rest = deframer ++ fragment r) \/ exists m, messages = [m] /\ (rest = [] -> m = deframer ++ fragment r))
  | Err _ => True
  | Panic | Fuel => False
  end.
Proof.
  intros Hi. unfold accept_handshake_record. pose proof (decode_plaintext_returns wire) as Hr. destruct (decode_plaintext_record wire) as [r|e| |] eqn:Ed; try done. cbn [res_bind].
  apply decode_plaintext_inv in Ed. assert (Hct : content_type r = Handshake) by (rewrite Ed in Hi; injection Hi; by destruct (content_type r)).
  destruct (second && _) eqn:Es; [done|]. assert (Hv : second = true -> legacy_record_version r = TLS_LEGACY_RECORD_VERSION).
  { intros ->. cbn [andb] in Es. by apply negb_false_iff, Z.eqb_eq in Es. }
  pose proof (push_record_spec r deframer Hct) as Hp. destruct (push_record r deframer) as [[ms|e| |] rest]; try done. cbn [map_err res_bind].
  destruct (Nat.ltb_spec 1 (length ms)) as [|Hl]; [done|]. exists r. split_and!; [done..|]. by apply pushed_one.
Qed.

(** The records that bring a hello: of the handshake, and between them those of the compatibility mode. *)
Definition is_handshake (r : TlsPlaintextRecord) : bool := bool_decide (content_type r = Handshake).
Definition hello_record (second : bool) (r : TlsPlaintextRecord) : Prop :=
  (content_type r = Handshake /\ (second = true -> legacy_record_version r = TLS_LEGACY_RECORD_VERSION)) \/ (content_type r = ChangeCipherSpec /\ second = true).
Definition brings (second : bool) (stream message : bytes) : Prop :=
  exists records, stream = concat (map record_wire records) /\ Forall (hello_record second) records /\ message = concat (map fragment (List.filter is_handshake records)).

Lemma read_client_hello_spec (second : bool) s : wp (read_client_hello second) s (fun m s' => exists stream, heard_bytes stream s s' /\ brings second stream m) (fun _ s' => listened s s').
Proof.
  enough (H : forall fuel s deframer, (stream_fuel s <= fuel)%nat -> wp (read_client_hello_loop fuel second deframer) s
    (fun m s' => exists records, heard_bytes (concat (map record_wire records)) s s' /\ Forall (hello_record second) records /\ m = deframer ++ concat (map fragment (List.filter is_handshake records)))
    (fun _ s' => listened s s')).
  { eapply wp_mono; [apply (H (stream_fuel s) s []); lia| |done]. intros m s' (records & H1 & H2 & ->). eexists. split; [exact H1|]. by exists records. }
  clear s. induction fuel as [|fuel IH]; intros s0 deframer Hf; [unfold stream_fuel in Hf; lia|]. cbn [read_client_hello_loop]. apply wp_bind.
  eapply wp_mono; [apply read_wire_hears| |done]. intros wire s1 (H1 & Hlt & b & Hb). pose proof (heard_listened _ _ _ H1) as Hl1.
  apply wp_bind, wp_lift; [by rewrite Hb| |by rewrite Hb]. intros b' E. rewrite Hb in E. apply Ok_inj in E as <-.
  assert (Hgo : forall r d, wire = record_wire r -> hello_record second r -> d = deframer ++ concat (map fragment (List.filter is_handshake [r])) -> wp (read_client_hello_loop fuel second d) s1
    (fun m s' => exists records, heard_bytes (concat (map record_wire records)) s0 s' /\ Forall (hello_record second) records /\ m = deframer ++ concat (map fragment (List.filter is_handshake records)))
    (fun _ s' => listened s0 s')).
  { intros r d Hw Hr ->. eapply wp_mono; [apply IH; lia| |intros e s2 H2; by eapply listened_trans].
    intros m s2 (records & H2 & Hall & ->). exists (r :: records). split; [cbn [map concat]; rewrite <- Hw; by eapply heard_trans|]. split; [by apply Forall_cons|].
    rewrite <- app_assoc. f_equal. cbn [List.filter]. destruct (is_handshake r); cbn [map concat]; by rewrite ?app_nil_r. }
  destruct (byte_eqb b _) eqn:Eb.
  - destruct second; [|by apply wp_err]. cbn [negb]. pose proof (skip_spec wire) as Hs. apply wp_bind, wp_lift; [by destruct (skip_change_cipher_spec wire)| |done]. intros [] E. rewrite E in Hs.
    destruct Hs as (r & Hw & Hr). apply (Hgo r); [done|by right|]. cbn [List.filter]. unfold is_handshake. by rewrite Hr, app_nil_r.
  - destruct (byte_eqb b (content_type_code Handshake)) eqn:Eh; [|by apply wp_err]. cbn [negb]. apply byte_eqb_eq in Eh as ->.
    pose proof (accept_record_spec second wire deframer (Hb _)) as Ha. apply wp_bind, wp_lift; [by destruct (accept_handshake_record second wire deframer)| |done]. intros [messages d] E. rewrite E in Ha.
    destruct Ha as (r & Hw & Hr & Hv & Hm). assert (Hrec : hello_record second r) by by left. assert (Hfr : List.filter is_handshake [r] = [r]) by (cbn [List.filter]; unfold is_handshake; by rewrite Hr).
    destruct Hm as [[-> ->]|(m & -> & Hm)]; [apply (Hgo r); [done..|rewrite Hfr; cbn [map concat]; by rewrite app_nil_r]|].
    apply wp_bind. unfold record_data. apply wp_map_err, wp_lift; [by destruct d| |done]. intros [] Ed. apply wp_ret. destruct d; [|done]. exists [r]. rewrite Hfr. cbn [map concat].
    rewrite !app_nil_r, <- Hw. split; [done|]. split; [by apply Forall_singleton|by apply Hm].
Qed.

(** The records before the client's Finished, and it. *)
Definition brings_finished (stream : bytes) (fin : TlsCiphertextRecord) : Prop :=
  exists records, stream = concat (map record_wire records) ++ wire_of fin /\ Forall (fun r => content_type r = ChangeCipherSpec) records /\ ciphertext_ok fin.

Lemma read_client_finished_spec s : wp read_client_finished_record s (fun fin s' => exists stream, heard_bytes stream s s' /\ brings_finished stream fin) (fun _ s' => listened s s').
Proof.
  unfold read_client_finished_record, wp. enough (H : forall fuel s, (stream_fuel s <= fuel)%nat ->
    wp (read_client_finished_loop fuel) s (fun fin s' => exists stream, heard_bytes stream s s' /\ brings_finished stream fin) (fun _ s' => listened s s')) by (apply (H (stream_fuel s) s); lia).
  induction fuel as [|fuel IH]; intros s0 Hf; [unfold stream_fuel in Hf; lia|]. cbn [read_client_finished_loop]. apply wp_bind.
  eapply wp_mono; [apply read_wire_hears| |done]. intros wire s1 (H1 & Hlt & b & Hb). pose proof (heard_listened _ _ _ H1) as Hl1.
  apply wp_bind, wp_lift; [by rewrite Hb| |by rewrite Hb]. intros b' E. rewrite Hb in E. apply Ok_inj in E as <-. destruct (byte_eqb b _).
  - pose proof (skip_spec wire) as Hs. apply wp_bind, wp_lift; [by destruct (skip_change_cipher_spec wire)| |done]. intros [] E. rewrite E in Hs. destruct Hs as (r & Hw & Hr).
    eapply wp_mono; [apply IH; lia| |intros e s2 H2; by eapply listened_trans]. intros fin s2 (stream & H2 & records & -> & Hall & Hok).
    exists (wire ++ concat (map record_wire records) ++ wire_of fin). split; [by eapply heard_trans|]. exists (r :: records). cbn [map concat]. rewrite <- Hw, app_assoc. split; [done|]. split; [by apply Forall_cons|done].
  - destruct (negb _); [by apply wp_err|]. apply wp_lift; [apply decode_ciphertext_returns| |done]. intros fin E. apply decode_ciphertext_inv in E as [-> Hok].
    eexists. split; [exact H1|]. exists []. split; [done|]. split; [by apply Forall_nil|done].
Qed.
End reads.

(** ** What the server sends *)
Section writes.
Context {R W : Type} {HR : Io.Read R} {HW : Io.Write W}.
Implicit Types (s : R * W).

(** A record that is not protected, on the wire. *)
Definition plain_wire (ty : ContentType) (fragment : bytes) : bytes := content_type_code ty :: x03 :: x03 :: be_bytes 2 (len fragment) ++ fragment.

(** [out] was sent, or a first part of it. *)
Definition sent (out : bytes) s s' : Prop := took s [] out s'.
Definition sent_part (out : bytes) s s' : Prop := exists pre post, out = pre ++ post /\ took s [] pre s'.

Lemma sent_part_more (a b : bytes) s s1 s2 : sent a s s1 -> sent_part b s1 s2 -> sent_part (a ++ b) s s2.
Proof. intros H1 (pre & post & -> & H2). exists (a ++ pre), post. split; [by rewrite app_assoc|exact (took_trans _ _ _ [] [] _ _ H1 H2)]. Qed.
Lemma sent_part_less (a b : bytes) s s1 : sent_part a s s1 -> sent_part (a ++ b) s s1.
Proof. intros (pre & post & -> & H). exists pre, (post ++ b). by rewrite app_assoc. Qed.

Lemma wp_sent (out : bytes) s : wp (write_wire out) s (fun _ s' => sent out s s') (fun _ s' => sent_part out s s').
Proof.
  unfold write_wire. apply wp_bind, wp_do_write; [|intros e s1 pre post -> Ht; by exists pre, post]. intros s1 H1. apply wp_do_flush.
  - intros s2 H2. unfold sent. rewrite <- (app_nil_r out). exact (took_trans _ _ _ [] [] _ _ H1 H2).
  - intros e s2 H2. exists out, []. split; [by rewrite app_nil_r|]. rewrite <- (app_nil_r out). exact (took_trans _ _ _ [] [] _ _ H1 H2).
Qed.

Lemma wp_plaintext (ty : ContentType) (f : bytes) s : validate_plaintext_fragment ty f = Ok tt -> ty <> ApplicationData ->
  wp (write_plaintext (new_plaintext ty f)) s (fun _ s' => sent (plain_wire ty f) s s') (fun _ s' => sent_part (plain_wire ty f) s s').
Proof.
  intros Hv Hne. assert (Hlen : len f <= TLS_PLAINTEXT_FRAGMENT_LIMIT).
  { unfold validate_plaintext_fragment in Hv. destruct (Z.ltb_spec TLS_PLAINTEXT_FRAGMENT_LIMIT (len f)); [done|lia]. }
  assert (Hs : serialize_plaintext (mkPlaintext ty TLS_LEGACY_RECORD_VERSION f) = Ok (plain_wire ty f)).
  { unfold serialize_plaintext. cbn [content_type fragment legacy_record_version]. rewrite Hv. cbn [res_bind]. rewrite bool_decide_false by done.
    rewrite Z.mod_small; [reflexivity|]. pose proof (len_nonneg f). unfold TLS_PLAINTEXT_FRAGMENT_LIMIT in Hlen. lia. }
  unfold write_plaintext, new_plaintext. rewrite Hv. cbn [res_bind]. unfold record_data, wp, io_bind, io_map_err, io_lift. cbn [map_err]. rewrite Hs. cbn [map_err]. apply wp_sent.
Qed.

Lemma wp_handshake (m : bytes) s : m <> [] -> len m <= TLS_PLAINTEXT_FRAGMENT_LIMIT ->
  wp (write_handshake_message m) s (fun _ s' => sent (plain_wire Handshake m) s s') (fun _ s' => sent_part (plain_wire Handshake m) s s').
Proof.
  intros Hne Hl. apply wp_plaintext; [|done]. unfold validate_plaintext_fragment. rewrite (proj2 (Z.ltb_ge _ _)) by exact Hl. by rewrite bool_decide_false.
Qed.

Definition compatibility_wire (compatibility_mode : bool) : bytes := if compatibility_mode then plain_wire ChangeCipherSpec [x01] else [].

Lemma wp_compatibility (b : bool) s : wp (write_compatibility b) s (fun _ s' => sent (compatibility_wire b) s s') (fun _ s' => sent_part (compatibility_wire b) s s').
Proof. destruct b; [by apply wp_plaintext|]. apply wp_ret, took_refl. Qed.

Definition alert_wire (description : TlsAlertDescription) : bytes := plain_wire Alert [of_u8 2; of_u8 (code description)].

Lemma wp_reject s : wp reject_name s (fun o s' => o = None /\ sent (alert_wire UnrecognizedName) s s') (fun _ s' => sent_part (alert_wire UnrecognizedName) s s').
Proof.
  unfold reject_name, write_fatal_alert. apply wp_bind, wp_bind. unfold record_data. apply wp_map_err, wp_lift; [done| |done]. intros a Ha. injection Ha as <-.
  eapply wp_mono; [apply (wp_plaintext Alert [of_u8 2; of_u8 (code UnrecognizedName)] s); [reflexivity|done]| |done].
  intros [] s' Hs. by apply wp_ret.
Qed.

Lemma wp_ciphertext (c : TlsCiphertextRecord) s : ciphertext_ok c -> wp (write_ciphertext_record c) s (fun _ s' => sent (wire_of c) s s') (fun _ s' => sent_part (wire_of c) s s').
Proof.
  intros Hok. destruct (wire_of_spec (E := io_error) c Hok) as (Hs & _). unfold write_ciphertext_record. rewrite Hs. unfold wp, io_bind at 1, io_lift. apply wp_sent.
Qed.

Lemma wp_ciphertexts (cs : list TlsCiphertextRecord) s : Forall ciphertext_ok cs ->
  wp (write_ciphertext_records cs) s (fun _ s' => sent (concat (map wire_of cs)) s s') (fun _ s' => sent_part (concat (map wire_of cs)) s s').
Proof.
  intros Hall. unfold write_ciphertext_records. apply wp_bind.
  enough (H : wp (write_all_records cs) s (fun _ s' => sent (concat (map wire_of cs)) s s') (fun _ s' => sent_part (concat (map wire_of cs)) s s')).
  { eapply wp_mono; [exact H| |done]. intros [] s1 H1. apply wp_do_flush; intros; [|exists (concat (map wire_of cs)), []; split; [by rewrite app_nil_r|]];
      rewrite <- (app_nil_r (concat (map wire_of cs))); by eapply (took_trans _ _ _ [] [] _ _ H1). }
  revert s. induction Hall as [|c cs Hc _ IH]; intros s; cbn [write_all_records map concat]; [apply wp_ret, took_refl|].
  destruct (wire_of_spec (E := io_error) c Hc) as (Hs & _). rewrite Hs. apply wp_bind, wp_lift; [done| |done]. intros w E. apply Ok_inj in E as <-.
  apply wp_bind, wp_do_write; [|intros e s1 pre post -> Ht; exists pre, (post ++ concat (map wire_of cs)); by rewrite app_assoc]. intros s1 H1.
  eapply wp_mono; [apply IH| |]; intros ? s2 H2; [exact (took_trans _ _ _ [] [] _ _ H1 H2)|by eapply sent_part_more].
Qed.
End writes.

(** ** A flight ready to be sent *)
Lemma server_hello_fits (rnd sid : bytes) (l : list (Z * bytes)) : length rnd = 32%nat -> len sid <= 32 -> len (concat (map encode_extension l)) <= 1000 ->
  encode_server_hello rnd sid l <> [] /\ len (encode_server_hello rnd sid l) <= TLS_PLAINTEXT_FRAGMENT_LIMIT.
Proof.
  intros Hr Hs Hl. split; [done|]. unfold encode_server_hello, handshake_message. rewrite len_cons, !len_app, len_vec8, len_vec16, !len_be_bytes. unfold len at 1. rewrite Hr.
  change (len [x00]) with 1. unfold TLS_PLAINTEXT_FRAGMENT_LIMIT. lia.
Qed.

Lemma own_hello_fits (rnd sid ks : bytes) : length rnd = 32%nat -> len sid <= 32 -> length ks = 65%nat ->
  encode_server_hello rnd sid [version_extension; share_extension ks] <> [] /\ len (encode_server_hello rnd sid [version_extension; share_extension ks]) <= TLS_PLAINTEXT_FRAGMENT_LIMIT.
Proof.
  intros Hr Hs Hk. apply server_hello_fits; [exact Hr|exact Hs|]. cbn [map concat]. unfold share_extension, version_extension. rewrite !len_app, !len_encode_extension, ?len_nil, !len_app, len_vec16, !len_be_bytes.
  unfold len. cbn [length]. lia.
Qed.

Lemma retry_fits (ch : ClientHello) : len (legacy_session_id ch) <= 32 -> retry_request_for ch <> [] /\ len (retry_request_for ch) <= TLS_PLAINTEXT_FRAGMENT_LIMIT.
Proof.
  intros Hs. unfold retry_request_for. apply server_hello_fits; [reflexivity|exact Hs|]. cbn [map concat]. unfold retry_extension, version_extension.
  rewrite !len_app, !len_encode_extension, ?len_nil, !len_be_bytes. lia.
Qed.

Lemma flight_ready (history : list bytes) (ch : ClientHello) (d : Scalar) (a : Fp * Fp) (rnd : bytes) (f : Tls13ServerHelloFlight) : answers history ch d a rnd f -> len (legacy_session_id ch) <= 32 ->
  server_hello f <> [] /\ len (server_hello f) <= TLS_PLAINTEXT_FRAGMENT_LIMIT /\ ciphertext_ok (encrypted_extensions_record f) /\
  server_authentication_started f = false /\ room (handshake_record_protection f) /\ exists r, paired (handshake_record_protection f) r.
Proof.
  intros (share & ks & x & y & _ & _ & _ & _ & Hks & _ & Hr & _ & Hf) Hs.
  assert (Hlk : length ks = 65%nat).
  { destruct (multiple _ (value d) gen) as [g|]; [|done]. destruct (sec1_of_point g) as (ks' & H & Hl). rewrite H in Hks. apply Ok_inj in Hks as <-. exact Hl. }
  destruct (flight_protection_ok _ _ _ _ _ _ Hf) as (Lc & Ls & _ & Hp & _). destruct (key_lengths _ Lc) as [Hck Hci]. destruct (key_lengths _ Ls) as [Hsk Hsi].
  rewrite (flight_hello _ _ _ _ _ _ Hf). destruct (own_hello_fits rnd (legacy_session_id ch) ks Hr Hs Hlk) as [Hne Hfit]. split; [exact Hne|]. split; [exact Hfit|].
  pose proof (paired_new _ _ _ _ Hsk Hsi Hck Hci) as Hpair. pose proof (channel [(mkPlaintext Handshake TLS_LEGACY_RECORD_VERSION (encrypted_extensions f), 0)] _ _ Hpair ltac:(apply Forall_singleton; cbn; lia)) as Hch.
  cbn [io_mapM fst snd] in Hch. unfold io_bind in Hch. rewrite (flight_record _ _ _ _ _ _ Hf) in Hch. unfold io_ret in Hch. destruct Hch as [Hok (r & _ & Hpr)]. apply Forall_cons in Hok as [Hok _].
  split; [exact Hok|]. split; [exact (flight_started _ _ _ _ _ _ Hf)|]. split; [|by exists r]. rewrite Hp. unfold room. cbn. unfold u64_max. lia.
Qed.

(** A record that opens is one that can be sent. *)
Lemma opens_ok (c : TlsCiphertextRecord) (r : TlsPlaintextRecord) (p p' : Tls13RecordProtection) : decrypt_record c p = (Ok r, p') -> ciphertext_ok c.
Proof.
  unfold decrypt_record, commit, validate_chacha20_poly1305_ciphertext. destruct (Z.eqb_spec (cipher_version c) TLS_LEGACY_RECORD_VERSION) as [Hv|]; cbn [negb]; [|done].
  destruct (Z.ltb_spec TLS_CHACHA20_POLY1305_CIPHERTEXT_LIMIT (len (encrypted_record c))) as [|Hl]; [done|]. intros _. split; [exact Hv|].
  change TLS_CHACHA20_POLY1305_CIPHERTEXT_LIMIT with 16401 in Hl. lia.
Qed.

Lemma all_open_ok (cs : list TlsCiphertextRecord) (rs : list TlsPlaintextRecord) (p p' : Tls13RecordProtection) : io_mapM decrypt_record cs p = (Ok rs, p') -> Forall ciphertext_ok cs.
Proof.
  revert rs p. induction cs as [|c cs IH]; intros rs p H; [by apply Forall_nil|]. cbn [io_mapM] in H. unfold io_bind in H.
  destruct (decrypt_record c p) as [[r|e| |] p1] eqn:Ed; try done. destruct (io_mapM decrypt_record cs p1) as [[rs'|e| |] p2] eqn:Em; try done.
  unfold io_ret in H. apply pair_equal_spec in H as [_ ->]. apply Forall_cons. split; [by eapply opens_ok|by eapply IH].
Qed.

Lemma accepted_state_ok (history : list bytes) (f : Tls13ServerHelloFlight) : length (main_secret f) = 32%nat -> state_ok (application_state_for history f).
Proof.
  intros Hm. assert (Hc : forall label, label_ok label -> length (derived 32 (main_secret f) label (hash (concat history))) = 32%nat).
  { intros label Hl. destruct (expand_Ok 32 (main_secret f) label (hash (concat history))) as [_ H]; [label_side..|exact H]. }
  assert (H1 : length (client_ap_secret (main_secret f) (hash (concat history))) = 32%nat) by (apply Hc; split; [done|vm_compute; discriminate]).
  assert (H2 : length (server_ap_secret (main_secret f) (hash (concat history))) = 32%nat) by (apply Hc; split; [done|vm_compute; discriminate]).
  destruct (key_lengths _ H1) as [? ?]. destruct (key_lengths _ H2) as [? ?].
  split; cbn [application_state_for record_protection client_application_traffic_secret server_application_traffic_secret failed application_keys ap_server_key ap_server_iv ap_client_key ap_client_iv
    ap_client_application_traffic_secret ap_server_application_traffic_secret]; [by apply new_protection_ok|done|done|done].
Qed.

(** ** The whole exchange *)
Section composed.
Context {R W OS : Type} {HR : Io.Read R} {HW : Io.Write W} `{!RandomDevice OS}.

(** As [wp], with [F] where the fuel runs out. *)
Definition runs {S E A : Type} (m : io S E A) (s : S) (Q : A -> S -> Prop) (X : E -> S -> Prop) (F : S -> Prop) : Prop :=
  match m s with
  | (Ok a, s') => Q a s'
  | (Err e, s') => X e s'
  | (Fuel, s') => F s'
  | (Panic, _) => False
  end.

Lemma runs_bind {S E A B : Type} (m : io S E A) (k : A -> io S E B) (s : S) Q X F : runs m s (fun a s' => runs (k a) s' Q X F) X F -> runs (io_bind m k) s Q X F.
Proof. unfold runs, io_bind. by destruct (m s) as [[]]. Qed.

Lemma runs_mono {S E A : Type} (m : io S E A) (s : S) (Q Q' : A -> S -> Prop) (X X' : E -> S -> Prop) (F F' : S -> Prop) : runs m s Q X F ->
  (forall a s', Q a s' -> Q' a s') -> (forall e s', X e s' -> X' e s') -> (forall s', F s' -> F' s') -> runs m s Q' X' F'.
Proof. unfold runs. destruct (m s) as [[]]; auto. Qed.

Lemma runs_wp {S E A : Type} (m : io S E A) (s : S) Q X F : wp m s Q X -> runs m s Q X F.
Proof. unfold wp, runs. by destruct (m s) as [[]]. Qed.

Lemma runs_wire {E A : Type} (m : io (R * W) E A) (st : (R * W) * OS) Q X F :
  runs m st.1 (fun a s' => Q a (s', st.2)) (fun e s' => X e (s', st.2)) (fun s' => F (s', st.2)) -> runs (on_wire m) st Q X F.
Proof. unfold runs, on_wire, io_zoom. by destruct (m st.1) as [[]]. Qed.

(** Something was read and written. *)
Definition talked (stream out : bytes) (s s' : R * W) : Prop := exists c, took s c out s' /\ quiet c /\ bytes_of c = stream.
Definition moved (s s' : R * W) : Prop := exists c out, took s c out s'.

Lemma talked_trans (a b out1 out2 : bytes) s s1 s2 : talked a out1 s s1 -> talked b out2 s1 s2 -> talked (a ++ b) (out1 ++ out2) s s2.
Proof.
  intros (c1 & H1 & Q1 & <-) (c2 & H2 & Q2 & <-). exists (c1 ++ c2). split; [exact (took_trans _ _ _ _ _ _ _ H1 H2)|]. split; [by apply Forall_app|]. by rewrite bytes_of_app.
Qed.
Lemma talked_sent (a out1 out2 : bytes) s s1 s2 : talked a out1 s s1 -> sent out2 s1 s2 -> talked a (out1 ++ out2) s s2.
Proof. intros H1 H2. rewrite <- (app_nil_r a). eapply talked_trans; [exact H1|]. exists []. split; [exact H2|]. split; [by apply Forall_nil|done]. Qed.
Lemma talked_heard (a b out : bytes) s s1 s2 : talked a out s s1 -> heard_bytes b s1 s2 -> talked (a ++ b) out s s2.
Proof. intros H1 H2. rewrite <- (app_nil_r out). eapply talked_trans; [exact H1|exact H2]. Qed.
Lemma talked_nil s : talked [] [] s s.
Proof. exists []. split; [apply took_refl|]. split; [by apply Forall_nil|done]. Qed.
Lemma moved_talked (a out : bytes) s s1 s2 : talked a out s s1 -> moved s1 s2 -> moved s s2.
Proof. intros (c1 & H1 & _) (c2 & out2 & H2). exists (c1 ++ c2), (out ++ out2). exact (took_trans _ _ _ _ _ _ _ H1 H2). Qed.
Lemma moved_part (out : bytes) s s1 : sent_part out s s1 -> moved s s1.
Proof. intros (pre & post & _ & H). by exists [], pre. Qed.
Lemma moved_listened s s1 : listened s s1 -> moved s s1.
Proof. intros (c & H). by exists c, []. Qed.
Lemma moved_refl (a out : bytes) s s1 : talked a out s s1 -> moved s s1.
Proof. intros (c & H & _). by exists c, out. Qed.

(** The hellos: what came in, what went out, the messages heard up to the hello that is answered, and its flight. *)
Inductive greeted (compatibility_mode : bool) (first : bytes) : bytes -> bytes -> list bytes -> Tls13ServerHelloFlight -> Prop :=
| greeted_at_once ch d a rnd f :
    first = encode_client_hello ch -> hello_ok ch -> acceptable ch -> answers [first] ch d a rnd f ->
    greeted compatibility_mode first [] (plain_wire Handshake (server_hello f) ++ compatibility_wire compatibility_mode) [first] f
| greeted_again ch ch2 stream second d a rnd f :
    first = encode_client_hello ch -> hello_ok ch -> acceptable ch -> secp256r1_key_share ch = None ->
    brings true stream second -> second = encode_client_hello ch2 -> hello_ok ch2 -> acceptable ch2 -> retry_allowed ch ch2 ->
    answers (retry_history first (retry_request_for ch) ++ [second]) ch2 d a rnd f ->
    greeted compatibility_mode first stream
      ((plain_wire Handshake (retry_request_for ch) ++ compatibility_wire compatibility_mode) ++ plain_wire Handshake (server_hello f))
      (retry_history first (retry_request_for ch) ++ [second]) f.

Lemma greeted_ready (b : bool) (first stream out : bytes) (history : list bytes) (f : Tls13ServerHelloFlight) : greeted b first stream out history f ->
  flight_ok (history ++ [server_hello f; encrypted_extensions f]) f /\ (length (history ++ [server_hello f; encrypted_extensions f]) <= 5)%nat /\
  ciphertext_ok (encrypted_extensions_record f) /\ server_authentication_started f = false /\ room (handshake_record_protection f) /\ exists r, paired (handshake_record_protection f) r.
Proof.
  intros [ch d a rnd f' Hm Hok _ Ha|ch ch2 str2 second d a rnd f' Hm Hok _ _ _ Hm2 Hok2 _ _ Ha];
    (destruct (flight_ready _ _ _ _ _ _ Ha) as (_ & _ & Hc & Hs & Hr & Hp); [by match goal with H : hello_ok ?c |- len (legacy_session_id ?c) <= _ => apply H end|]);
    (split; [eapply answers_ok; [|exact Ha]; cbn; lia|]); (split; [cbn; lia|done]).
Qed.

Lemma exchange_hellos_spec (fuel : nat) (b : bool) (first : bytes) (os : OS) (ff : Tls13ServerFirstFlight) (st : (R * W) * OS) : first_flight first os st.2 ff ->
  runs (exchange_hellos fuel b ff) st (fun f st' => exists stream out history, greeted b first stream out history f /\ talked stream out st.1 st'.1) (fun _ st' => moved st.1 st'.1)
    (fun st' => match ff with HelloRetry _ => no_key_in fuel st.2 st'.2 | ServerHello _ => False end).
Proof.
  intros (ch & Hm & Hok & Hacc & Hff). assert (Hsid : len (legacy_session_id ch) <= 32) by apply Hok. unfold exchange_hellos. destruct ff as [f|r].
  - destruct Hff as (d & a & rnd & Ha). destruct (flight_ready _ _ _ _ _ _ Ha Hsid) as (Hne & Hl & _).
    apply runs_bind, runs_wire, runs_wp. eapply wp_mono; [by apply wp_handshake| |intros e s1; apply moved_part]. intros [] s1 H1.
    apply runs_bind, runs_wire, runs_wp. eapply wp_mono; [apply wp_compatibility| |]; cbn [fst snd].
    + intros [] s2 H2. unfold runs, io_ret. eexists [], _, _. split; [by eapply greeted_at_once|]. eapply talked_sent; [|exact H2]. eapply (talked_sent [] []); [apply talked_nil|exact H1].
    + intros e s2 H2. eapply moved_talked; [exact (talked_sent [] [] _ _ _ _ (talked_nil _) H1)|exact (moved_part _ _ _ H2)].
  - destruct Hff as (_ & Hshare & Hch & Hreq & Ht). rewrite Hreq in Ht |- *. destruct (retry_fits ch Hsid) as [Hne Hl].
    apply runs_bind, runs_wire, runs_wp. eapply wp_mono; [by apply wp_handshake| |intros e s1; apply moved_part]. intros [] s1 H1. cbn [fst snd].
    pose proof (talked_sent [] [] _ _ _ _ (talked_nil st.1) H1) as T1. cbn [app] in T1.
    apply runs_bind, runs_wire, runs_wp. eapply wp_mono; [apply wp_compatibility| |intros e s2 H2; eapply moved_talked; [exact T1|exact (moved_part _ _ _ H2)]]. intros [] s2 H2. cbn [fst snd].
    pose proof (talked_sent _ _ _ _ _ _ T1 H2) as T2.
    apply runs_bind, runs_wire, runs_wp. eapply wp_mono; [apply read_client_hello_spec| |intros e s3 H3; eapply moved_talked; [exact T2|exact (moved_listened _ _ H3)]]. intros second s3 (stream & H3 & Hbr). cbn [fst snd].
    pose proof (talked_heard _ _ _ _ _ _ T2 H3) as T3. cbn [app] in T3.
    apply runs_bind. pose proof (continue_spec fuel first second ch r st.2 Hch Ht) as Hc. unfold handshake_data, on_device, io_map_err, io_zoom, runs at 1. cbn [fst snd].
    destruct (continue_with_client_hello fuel r second st.2) as [[f|e| |] os']; cbn [map_err]; [|by eapply moved_refl|done|exact Hc].
    destruct Hc as (ch2 & d & a & rnd & Hm2 & Hok2 & Hacc2 & Hallow & Ha). destruct (flight_ready _ _ _ _ _ _ Ha ltac:(apply Hok2)) as (Hne2 & Hl2 & _).
    apply runs_bind, runs_wire, runs_wp. eapply wp_mono; [by apply wp_handshake| |intros e s4 H4; eapply moved_talked; [exact T3|exact (moved_part _ _ _ H4)]]. intros [] s4 H4.
    unfold runs, io_ret. eexists _, _, _. split; [by eapply greeted_again|]. by eapply talked_sent.
Qed.

(** What the server sends after the hellos. *)
Definition flight_wire (f : Tls13ServerHelloFlight) (a : Tls13ServerAuthenticationFlight) : bytes :=
  wire_of (encrypted_extensions_record f) ++ concat (map wire_of (records_of a)).

(** The server has authenticated itself after [history], and the client's Finished came over [stream]. *)
Definition authenticated_over (fuel : nat) (identity : TlsIdentity) (history : list bytes) (f : Tls13ServerHelloFlight) (a : Tls13ServerAuthenticationFlight) (stream : bytes) (st : Tls13ApplicationState) : Prop :=
  exists f' fin, authentication_for history fuel (certificate_chain identity) (signing_key identity) (server_handshake_traffic_secret f) a /\
    authenticated history f a f' /\ brings_finished stream fin /\
    opened [fin] (handshake_record_protection f') (finished_message (client_handshake_traffic_secret f) (hash (concat (history ++ messages_of a)))) /\
    st = application_state_for (history ++ messages_of a) f'.

Lemma send_authentication_spec (f f' : Tls13ServerHelloFlight) (a : Tls13ServerAuthenticationFlight) (s : R * W) : encrypted_extensions_record f' = encrypted_extensions_record f ->
  ciphertext_ok (encrypted_extensions_record f) -> Forall ciphertext_ok (records_of a) ->
  wp (send_authentication f' a) s (fun _ s' => talked [] (flight_wire f a) s s') (fun _ s' => moved s s').
Proof.
  intros E Hee Hrec. unfold records_of in Hrec. rewrite !Forall_app in Hrec. destruct Hrec as (Hr1 & Hr2 & Hr3). unfold send_authentication. rewrite E.
  apply wp_bind. eapply wp_mono; [by apply wp_ciphertext| |intros e s1; apply moved_part]. intros [] s1 H1. pose proof (talked_sent [] [] _ _ _ _ (talked_nil s) H1) as T1.
  apply wp_bind. eapply wp_mono; [by apply wp_ciphertexts| |intros e s2 H2; eapply moved_talked; [exact T1|exact (moved_part _ _ _ H2)]]. intros [] s2 H2. pose proof (talked_sent _ _ _ _ _ _ T1 H2) as T2.
  apply wp_bind. eapply wp_mono; [by apply wp_ciphertexts| |intros e s3 H3; eapply moved_talked; [exact T2|exact (moved_part _ _ _ H3)]]. intros [] s3 H3. pose proof (talked_sent _ _ _ _ _ _ T2 H3) as T3.
  eapply wp_mono; [by apply wp_ciphertexts| |intros e s4 H4; eapply moved_talked; [exact T3|exact (moved_part _ _ _ H4)]]. intros [] s4 H4. pose proof (talked_sent _ _ _ _ _ _ T3 H4) as T4.
  unfold flight_wire, records_of. rewrite !map_app, !concat_app, !app_assoc. exact T4.
Qed.

Lemma authenticated_flight_ok (history : list bytes) (f f' : Tls13ServerHelloFlight) (a : Tls13ServerAuthenticationFlight) : flight_ok history f -> (length history <= 5)%nat -> authenticated history f a f' ->
  flight_ok (history ++ messages_of a) f'.
Proof.
  intros [_ _ Hs Hc Hm] Hl [Ah As Asec Acl Am _ _ _]. split; [exact Ah|rewrite length_app; cbn [messages_of length]; lia|congruence..].
Qed.

Lemma runs_data {S A : Type} (r : res TlsServerHandshakeError A) (s : S) (Q : A -> S -> Prop) (X : io_error -> S -> Prop) (F : S -> Prop) :
  match r with Ok a => Q a s | Err e => forall e', X e' s | Fuel => F s | Panic => False end -> runs (handshake_data (io_lift r)) s Q X F.
Proof. unfold runs, handshake_data, io_map_err, io_lift. destruct r; cbn [map_err]; auto. Qed.

Lemma authenticate_connection_spec (fuel : nat) (identity : TlsIdentity) (d : Fn) (f : Tls13ServerHelloFlight) (history : list bytes) (s : R * W) : signing_key identity = encs d ->
  flight_ok history f -> (length history <= 5)%nat -> ciphertext_ok (encrypted_extensions_record f) -> server_authentication_started f = false -> room (handshake_record_protection f) ->
  (exists r, paired (handshake_record_protection f) r) ->
  runs (authenticate_connection fuel identity f) s
    (fun st s' => exists a stream, authenticated_over fuel identity history f a stream st /\ talked stream (flight_wire f a) s s' /\ state_ok st) (fun _ s' => moved s s')
    (fun _ => exists th, build_tls13_server_certificate_verify fuel (signing_key identity) th = Fuel).
Proof.
  intros Hkey Hok Hlen Hee Hnew Hroom (r & Hp). unfold authenticate_connection. pose proof (authenticate_spec fuel (certificate_chain identity) d f history r Hok Hnew Hp Hroom) as H. rewrite <- Hkey in H.
  destruct (authenticate_server fuel (certificate_chain identity) (signing_key identity) f) as [o f'] eqn:Ea. apply runs_bind, runs_data.
  destruct o as [a|e| |]; [|intros _; exists [], []; apply took_refl|done|destruct H as (_ & cert & _ & H); by eexists].
  destruct H as (Hfor & Hauth & parts & r' & Hopen & _ & Hp'). apply runs_bind, runs_wp.
  eapply wp_mono; [apply (send_authentication_spec f f' a s (auth_extensions _ _ _ _ Hauth) Hee), (all_open_ok _ _ _ _ Hopen)| |done]. intros [] s1 T1.
  apply runs_bind, runs_wp. eapply wp_mono; [apply read_client_finished_spec| |intros e s2 H2; eapply moved_talked; [exact T1|exact (moved_listened _ _ H2)]].
  intros fin s2 (stream & H2 & Hbr). pose proof (talked_heard _ _ _ _ _ _ T1 H2) as T2. cbn [app] in T2. apply runs_data.
  pose proof (authenticated_flight_ok _ _ _ _ Hok Hlen Hauth) as Hok'. pose proof (complete_spec [fin] f' _ Hok' (pair_writer _ _ Hp')) as Hc. cbv zeta in Hc. rewrite (auth_client_secret _ _ _ _ Hauth) in Hc.
  destruct (complete_handshake [fin] f') as [st|e| |]; [|intros _; by eapply moved_refl|done|done]. destruct Hc as (_ & Ho & ->).
  exists a, stream. split; [|split; [exact T2|by apply accepted_state_ok, Hok']]. exists f', fin. by split_and!.
Qed.

Lemma select_elem (store : TlsIdentityStore) (name : bytes) (i : TlsIdentity) : select store name = Some i -> i ∈ identities store.
Proof.
  unfold select. destruct (List.find _ (identities store)) as [j|] eqn:E.
  - intros [= <-]. apply List.find_some in E as [E _]. by apply list_elem_of_In.
  - intros E2. apply List.find_some in E2 as [E2 _]. by apply list_elem_of_In.
Qed.

Lemma routed_Ok (configuration : option Config) (name : bytes) : exists b, routed configuration name = Ok b.
Proof.
  destruct configuration as [c|]; [|by exists true]. cbn [routed]. rewrite lookup_cases. destruct (normalized_request name) as [h|]; [|by exists false].
  destruct (List.find _ (routes c)); [by exists true|by exists false].
Qed.

(** The hello that came, and the name it asks for. *)
Definition asked (stream message : bytes) (hello : ClientHello) (name : bytes) : Prop :=
  brings false stream message /\ message = encode_client_hello hello /\ hello_ok hello /\ server_name hello = Some name.

Definition compatible (hello : ClientHello) : bool := negb (bool_decide (legacy_session_id hello = [])).

Definition accepted (nonce_fuel : nat) (store : TlsIdentityStore) (configuration : option Config) (s s' : R * W) (app : Tls13ApplicationState) : Prop :=
  exists message hello name identity stream1 stream2 stream3 out history f a,
    asked stream1 message hello name /\ select store name = Some identity /\ routed configuration name = Ok true /\
    greeted (compatible hello) message stream2 out history f /\
    authenticated_over nonce_fuel identity (history ++ [server_hello f; encrypted_extensions f]) f a stream3 app /\
    talked (stream1 ++ stream2 ++ stream3) (out ++ flight_wire f a) s s' /\ state_ok app.

Definition turned_away (store : TlsIdentityStore) (configuration : option Config) (s s' : R * W) : Prop :=
  exists message hello name stream, asked stream message hello name /\ (select store name = None \/ routed configuration name = Ok false) /\
    talked stream (alert_wire UnrecognizedName) s s'.

Definition signing_fuel (nonce_fuel : nat) (store : TlsIdentityStore) : Prop :=
  exists identity th, identity ∈ identities store /\ build_tls13_server_certificate_verify nonce_fuel (signing_key identity) th = Fuel.

Lemma reject_runs (store : TlsIdentityStore) (configuration : option Config) (stream message : bytes) (hello : ClientHello) (name : bytes) (st : (R * W) * OS) (s1 : R * W) Q F :
  asked stream message hello name -> (select store name = None \/ routed configuration name = Ok false) -> heard_bytes stream st.1 s1 ->
  (forall s2, turned_away store configuration st.1 s2 -> Q None (s2, st.2)) ->
  runs (on_wire reject_name) (s1, st.2) Q (fun _ st' => moved st.1 st'.1) F.
Proof.
  intros Ha Hno H1 HQ. pose proof (talked_heard [] _ _ _ _ _ (talked_nil st.1) H1) as T1. cbn [app] in T1.
  apply runs_wire, runs_wp. eapply wp_mono; [apply wp_reject| |intros e s2 H2; eapply moved_talked; [exact T1|exact (moved_part _ _ _ H2)]].
  intros o s2 [-> H2]. apply HQ. exists message, hello, name, stream. split; [done|]. split; [done|]. exact (talked_sent _ _ _ _ _ _ T1 H2).
Qed.

(** C4: the server's side of a TLS connection, on the bytes of a socket, for any client and any network. When the connection is
    accepted, the client has sent a well-formed hello for a name that an identity and a route serve; what was read
    are its hellos and its Finished, and nothing else; what was written are the retry request if one was needed, the
    ServerHello, and the records that authenticate that very identity over the whole transcript; and the application keys are
    those of that transcript, given only after the client's Finished has been opened and has matched. A
    name that is not served gets the one alert, before any randomness or key is used. Nothing panics or
    loops; only the draws of keys and nonces are bounded by the fuel. *)
Theorem accept_connection_correct (key_fuel nonce_fuel : nat) (store : TlsIdentityStore) (configuration : option Config) (st : (R * W) * OS)
  (Hids : Forall identity_valid (identities store)) :
  match accept_connection key_fuel nonce_fuel store configuration st with
  | (Ok (Some app), st') => accepted nonce_fuel store configuration st.1 st'.1 app
  | (Ok None, st') => turned_away store configuration st.1 st'.1 /\ st'.2 = st.2
  | (Err _, st') => moved st.1 st'.1
  | (Fuel, st') => no_key_in key_fuel st.2 st'.2 \/ signing_fuel nonce_fuel store
  | (Panic, _) => False
  end.
Proof.
  enough (H : runs (accept_connection key_fuel nonce_fuel store configuration) st
    (fun o st' => match o with Some app => accepted nonce_fuel store configuration st.1 st'.1 app | None => turned_away store configuration st.1 st'.1 /\ st'.2 = st.2 end)
    (fun _ st' => moved st.1 st'.1) (fun st' => no_key_in key_fuel st.2 st'.2 \/ signing_fuel nonce_fuel store)).
  { unfold runs in H. by destruct (accept_connection _ _ _ _ st) as [[[app|]|e| |] st']. }
  unfold accept_connection. apply runs_bind, runs_wire, runs_wp. eapply wp_mono; [apply read_client_hello_spec| |intros e s1; apply moved_listened].
  intros message s1 (stream & H1 & Hbr). pose proof (talked_heard [] _ _ _ _ _ (talked_nil st.1) H1) as T1. cbn [app] in T1.
  apply runs_bind. pose proof (read_hello message) as Hp. unfold runs at 1, io_lift at 1. destruct (parse_client_hello message) as [hello|e| |]; cbn [map_err]; [|by eapply moved_refl|done..].
  destruct Hp as (Hm & Hok & _). apply runs_bind. unfold runs at 1, io_lift at 1. destruct (server_name hello) as [name|] eqn:En; cbn [ok_or]; [|by eapply moved_refl].
  assert (Ha : asked stream message hello name) by by split_and!.
  destruct (select store name) as [identity|] eqn:Es; [|eapply reject_runs; [exact Ha|by left|exact H1|done]].
  apply runs_bind. unfold runs at 1, io_lift at 1. destruct (routed_Ok configuration name) as [[|] Er]; rewrite Er; cbn [negb]; [|eapply reject_runs; [exact Ha|by right|exact H1|done]].
  apply runs_bind. pose proof (first_flight_spec key_fuel message st.2) as Hf. unfold handshake_data, on_device, io_map_err, io_zoom, runs at 1. cbn [fst snd].
  destruct (negotiate_tls13_server_first_flight key_fuel message st.2) as [[ff|e| |] os]; cbn [map_err]; [|by eapply moved_refl|done|by left].
  apply runs_bind. assert (Hos : match ff with HelloRetry _ => os = st.2 | ServerHello _ => True end) by (destruct Hf as (ch & _ & _ & _ & Hf); destruct ff; [done|by destruct Hf]).
  eapply runs_mono; [exact (exchange_hellos_spec key_fuel (compatible hello) message st.2 ff (s1, os) Hf)| |intros e st2 H2; by eapply moved_talked|].
  2: { intros st2 H2. left. destruct ff; [done|]. cbn [fst snd] in H2. by rewrite Hos in H2. }
  intros f st2 (stream2 & out & history & Hg & T2). cbn [fst snd] in T2. pose proof (talked_trans _ _ _ _ _ _ _ T1 T2) as T3. cbn [app] in T3.
  destruct (greeted_ready _ _ _ _ _ _ Hg) as (Hfo & Hlen & Hee & Hnew & Hroom & Hpair). rewrite Forall_forall in Hids. destruct (identity_key _ (Hids identity (select_elem _ _ _ Es))) as (d & _ & Hkey).
  apply runs_bind, runs_wire. eapply runs_mono; [exact (authenticate_connection_spec nonce_fuel identity d f _ st2.1 Hkey Hfo Hlen Hee Hnew Hroom Hpair)| |intros e s3 H3; by eapply moved_talked|].
  2: { intros s3 (th & H3). right. exists identity, th. split; [by eapply select_elem|done]. }
  intros app s3 (a & stream3 & Hau & T4 & Hst). unfold runs, io_ret. exists message, hello, name, identity, stream, stream2, stream3, out, history, f, a.
  split_and!; try done. pose proof (talked_trans _ _ _ _ _ _ _ T3 T4) as T5. rewrite <- app_assoc in T5. exact T5.
Qed.
End composed.

(** A hello for a name that an empty store does not serve. *)
Definition example_hello : bytes := encode_client_hello (client_hello_for (str "example.com") (repeat x01 32) (x04 :: repeat x02 64)).
Definition example_client : Script * Sink := ([Data (record_wire (mkPlaintext Handshake 0x0301 example_hello))], new_sink).

Lemma accept_connection_correct_witness :
  match accept_connection 1 1 (mkStore []) None (example_client, [] : bytes) with
  | (Ok None, st') => turned_away (mkStore []) None example_client st'.1 /\ written st'.1.2 = [x15; x03; x03; x00; x02; x02; x70]
  | _ => False
  end.
Proof.
  pose proof (accept_connection_correct 1 1 (mkStore []) None (example_client, [] : bytes) (Forall_nil_2 _)) as H.
  destruct (accept_connection 1 1 (mkStore []) None (example_client, [] : bytes)) as [o st'] eqn:E.
  assert (Eo : o = (accept_connection 1 1 (mkStore []) None (example_client, [] : bytes)).1) by (rewrite E; reflexivity).
  assert (Es : st' = (accept_connection 1 1 (mkStore []) None (example_client, [] : bytes)).2) by (rewrite E; reflexivity). clear E.
  vm_compute in Eo. subst o. split; [exact (proj1 H)|]. rewrite Es. vm_compute. reflexivity.
Defined.

(** ** The probe *)
Section probe_safe.
Context {R W : Type} {HR : Io.Read R} {HW : Io.Write W}.
Implicit Types (st : (R * W) * Tls13ApplicationState).

Lemma wp_probe_state {A : Type} (op : operation) (f : A -> output) (m : io Tls13ApplicationState TlsRecordError A) st : state_ok st.2 -> perform op = io_fmap f m ->
  wp (probe_state m) st (fun a st' => m st.2 = (Ok a, st'.2) /\ st'.1 = st.1 /\ state_ok st'.2) (fun _ st' => state_ok st'.2).
Proof.
  intros Hok E. pose proof (perform_ends op st.2 Hok) as H. rewrite E in H. unfold wp, io_fmap, io_bind in H. unfold wp, probe_state, record_data, io_map_err, io_zoom.
  destruct (m st.2) as [[a|e| |] s']; cbn [map_err fst snd]; try done; [split_and!; [done|done|]|]; by destruct H.
Qed.

Lemma wp_probe_socket {E A : Type} (m : io (R * W) E A) st (Q : A -> R * W -> Prop) : wp m st.1 Q (fun _ _ => True) ->
  wp (probe_socket m) st (fun a st' => Q a st'.1 /\ st'.2 = st.2) (fun _ st' => st'.2 = st.2).
Proof. unfold wp, probe_socket, io_zoom. by destruct (m st.1) as [[]]. Qed.

Lemma read_request_total (fuel : nat) (request : bytes) st : (stream_fuel st.1 <= fuel)%nat -> state_ok st.2 ->
  wp (read_http_request_loop fuel request) st (fun _ st' => state_ok st'.2) (fun _ st' => state_ok st'.2).
Proof.
  revert request st. induction fuel as [|fuel IH]; intros request st Hf Hok; [unfold stream_fuel in Hf; lia|]. cbn [read_http_request_loop]. apply wp_bind.
  eapply wp_mono; [apply (wp_probe_socket _ st _ (wp_mono _ _ _ _ _ _ (read_wire_hears st.1) (fun _ _ H => H) (fun _ _ _ => I)))| |intros e st1 ->; done].
  intros wire st1 [(_ & Hlt & b & Hb) E2]. rewrite <- E2 in Hok. apply wp_bind, wp_lift; [by rewrite Hb| |by rewrite Hb]. intros b' _.
  destruct (negb _); [by apply wp_err|]. apply wp_bind, wp_lift; [apply decode_ciphertext_returns| |done]. intros record _.
  apply wp_bind. eapply wp_mono; [by apply (wp_probe_state (Receive record) Event)| |done]. intros ev st2 (_ & E1 & Hok2). destruct ev; try by apply wp_err.
  destruct (_ <? _); [by apply wp_err|]. destruct (windows_position _ _); [by apply wp_ret|]. apply IH; [rewrite E1; lia|done].
Qed.

(** What is sealed can be sent. *)
Lemma encrypt_ok (r : TlsPlaintextRecord) (p : Tls13RecordProtection) : protection_ok p -> match (encrypt_record r 0 p).1 with Ok c => ciphertext_ok c | _ => True end.
Proof.
  intros Hp. destruct (write_sequence_number p) as [n|] eqn:En.
  - rewrite (encrypt_record_spec r 0 n p Hp ltac:(done) En). destruct (encode_tls_inner_plaintext r 0) as [inner|e| |] eqn:Ee; cbn [fst]; try done. split; [done|]. cbn [encrypted_record]. rewrite len_app.
    destruct (sealed_lengths (write_key p) (write_iv p) n inner) as [L1 L2]; [apply Hp..|]. rewrite L1. unfold len at 2. rewrite L2. destruct (encode_inner_Ok r 0 inner ltac:(done) Ee) as (_ & _ & _ & Hl). lia.
  - unfold encrypt_record, commit. by rewrite En.
Qed.

Lemma seal_ok (r : TlsPlaintextRecord) (s : Tls13ApplicationState) : state_ok s -> match (on_records (encrypt_record r 0) s).1 with Ok c => ciphertext_ok c | _ => True end.
Proof. intros Hs. pose proof (encrypt_ok r _ (state_protection s Hs)) as H. unfold on_records, io_zoom. by destruct (encrypt_record r 0 (record_protection s)). Qed.

Lemma application_data_ok (d : bytes) (s : Tls13ApplicationState) : state_ok s -> match (encrypt_application_data_record d s).1 with Ok c => ciphertext_ok c | _ => True end.
Proof.
  intros Hs. unfold encrypt_application_data_record. destruct (failed s); [done|]. destruct (close_notify_sent s); [done|]. unfold io_bind, io_lift. destruct (new_plaintext ApplicationData d) as [r|e| |]; try done. by apply seal_ok.
Qed.

Lemma close_notify_ok (s : Tls13ApplicationState) : state_ok s -> match (encrypt_close_notify s).1 with Ok c => ciphertext_ok c | _ => True end.
Proof.
  intros Hs. unfold encrypt_close_notify. destruct (failed s); [done|]. destruct (close_notify_sent s); [done|]. unfold io_bind, io_lift, modify, io_ret. destruct (alert_plaintext_record _) as [r|e| |]; try done.
  pose proof (seal_ok r s Hs) as H. by destruct (on_records (encrypt_record r 0) s) as [[c|e| |] s'].
Qed.

(** Whatever the client sends, the probe answers or fails; it neither panics nor loops. *)
Lemma answer_probe_total st : state_ok st.2 -> wp answer_probe st (fun _ st' => state_ok st'.2) (fun _ st' => state_ok st'.2).
Proof.
  intros Hok. unfold answer_probe. apply wp_bind. eapply wp_mono; [apply (read_request_total _ [] st); [lia|exact Hok]| |done]. intros request st1 Hok1.
  destruct (negb _); [by apply wp_err|]. apply wp_bind. eapply wp_mono; [by apply (wp_probe_state (SendData probe_response) Sealed)| |done]. intros c st2 (Ec & _ & Hok2).
  assert (Hw : forall c' st', state_ok st'.2 -> ciphertext_ok c' -> wp (probe_socket (write_ciphertext_record c')) st' (fun _ st'' => state_ok st''.2) (fun _ st'' => state_ok st''.2)).
  { intros c' st' Hok' Hc. eapply wp_mono; [apply (wp_probe_socket _ _ (fun _ _ => True))|by intros ? ? [_ ->]|by intros ? ? ->]. eapply wp_mono; [by apply wp_ciphertext|done|done]. }
  pose proof (application_data_ok probe_response st1.2 Hok1) as Hc. rewrite Ec in Hc.
  apply wp_bind. eapply wp_mono; [by apply Hw| |done]. intros [] st3 Hok3. apply wp_bind. eapply wp_mono; [by apply (wp_probe_state SendClose Sealed)| |done]. intros c2 st4 (Ec2 & _ & Hok4). apply Hw; [done|]. pose proof (close_notify_ok st3.2 Hok3) as H. by rewrite Ec2 in H.
Qed.
End probe_safe.
