(* ===== verification/TlsProbe.v ===== *)
(** * The client probe: [src/tls_client_probe.rs]

    A client that connects to a TLS server, sends its hello, and opens the first protected record with the keys
    that both hellos give. The state is the socket and the random device. *)
From Stdlib Require Import ZArith Zmod Lia.
From stdpp Require Import prelude.
From S2P Require Import Prelude Bytes NetAddr Config Io Uint256 Sha256 Encoding Poly1305 ChaCha20 Primes Curve P256 Ecdsa Der Pem Keys TlsIdentity TlsRecord TlsMessages TlsHello TlsCredentials TlsHandshake TlsApplication TlsServer TlsClient Transport TlsAccept.
Local Open Scope Z_scope.
Set Warnings "-clear-no-such-hyp".
#[local] Opaque hash hmac derived.

Section probe.
Context {R W OS : Type} {HR : Io.Read R} {HW : Io.Write W} `{!RandomDevice OS}.

Definition probe_read_wire_record : io (R * W) io_error bytes :=
  let! header := Io.read_exact TLS_RECORD_HEADER_SIZE in
  let! fragment_length := io_lift (u16_at header 3) in
  if TLS_CIPHERTEXT_FRAGMENT_LIMIT <? fragment_length then
    io_err (invalid_data (str "TLS record fragment is " ++ to_dec fragment_length ++ str " bytes, exceeding the " ++ to_dec TLS_CIPHERTEXT_FRAGMENT_LIMIT ++ str "-byte transport limit"))
  else
    let! fragment := Io.read_exact (Z.to_nat fragment_length) in
    io_ret (header ++ fragment).

(** The one record of [wire], as in [one_record], with [remove(0)]. *)
Definition probe_one_record {A : Type} (push : bytes -> io bytes TlsRecordError (list A)) (message wire : bytes) : res io_error A :=
  let '(records, buffered) := push wire [] in
  let? records := map_err (fun e => invalid_data (record_error_to_string e)) records in
  if negb (length records =? 1)%nat || negb (length buffered =? 0)%nat then Err (invalid_data message)
  else index records 0.

Definition probe_decode_plaintext_record (wire : bytes) : res io_error TlsPlaintextRecord :=
  probe_one_record plaintext_push (str "expected exactly one complete TLS plaintext record") wire.

Definition probe_decode_ciphertext_record (wire : bytes) : res io_error TlsCiphertextRecord :=
  probe_one_record ciphertext_push (str "expected exactly one complete TLS ciphertext record") wire.

Definition alert_error (record : TlsPlaintextRecord) : res io_error io_error :=
  match parse_alert (fragment record) with
  | Ok alert => Ok (invalid_data (str "TLS peer sent plaintext alert level=" ++ to_dec (level alert) ++ str " description=" ++ alert_description_debug (description alert)))
  | Err error => Ok (invalid_data (record_error_to_string error))
  | Panic => Panic
  | Fuel => Fuel
  end.

(** The end of a read that met an alert. *)
Definition fail_with_alert {S A : Type} (wire : bytes) : io S io_error A :=
  let! record := io_lift (probe_decode_plaintext_record wire) in
  let! error := io_lift (alert_error record) in
  io_err error.

Definition take_handshake_record (wire deframer : bytes) : res io_error (list bytes * bytes) :=
  let? record := probe_decode_plaintext_record wire in
  let '(messages, deframer) := push_record record deframer in
  let? messages := map_err (fun e => invalid_data (record_error_to_string e)) messages in
  if (1 <? length messages)%nat then Err (invalid_data (str "TLS server sent multiple plaintext handshake messages while waiting for ServerHello"))
  else Ok (messages, deframer).

Fixpoint read_server_hello_loop (fuel : nat) (deframer : bytes) : io (R * W) io_error bytes :=
  match fuel with
  | O => fun s => (Fuel, s)
  | S fuel' =>
      let! wire := probe_read_wire_record in
      let! value := io_lift (index wire 0) in
      if byte_eqb value (content_type_code Handshake) then
        let! (messages, deframer) := io_lift (take_handshake_record wire deframer) in
        match messages with
        | message :: _ =>
            let! _ := record_data (io_lift (require_message_boundary deframer)) in
            io_ret message
        | [] => read_server_hello_loop fuel' deframer
        end
      else if byte_eqb value (content_type_code Alert) then fail_with_alert wire
      else io_err (invalid_data (str "expected plaintext TLS ServerHello record, got content type " ++ to_dec (u8 value)))
  end.

Definition read_server_hello : io (R * W) io_error bytes := fun s => read_server_hello_loop (stream_fuel s) [] s.

Definition probe_skip_change_cipher_spec (wire : bytes) : res io_error unit :=
  let? record := probe_decode_plaintext_record wire in
  if negb (bool_decide (content_type record = ChangeCipherSpec)) then Err (invalid_data (str "invalid TLS compatibility change_cipher_spec record"))
  else Ok tt.

Fixpoint read_first_protected_loop (fuel : nat) : io (R * W) io_error TlsCiphertextRecord :=
  match fuel with
  | O => fun s => (Fuel, s)
  | S fuel' =>
      let! wire := probe_read_wire_record in
      let! value := io_lift (index wire 0) in
      if byte_eqb value (content_type_code ChangeCipherSpec) then
        let! _ := io_lift (probe_skip_change_cipher_spec wire) in
        read_first_protected_loop fuel'
      else if byte_eqb value (content_type_code ApplicationData) then io_lift (probe_decode_ciphertext_record wire)
      else if byte_eqb value (content_type_code Alert) then fail_with_alert wire
      else io_err (invalid_data (str "expected protected TLS handshake record, got content type " ++ to_dec (u8 value)))
  end.

Definition read_first_protected_server_record : io (R * W) io_error TlsCiphertextRecord := fun s => read_first_protected_loop (stream_fuel s) s.

Definition client_data {S A : Type} (m : io S TlsClientHandshakeError A) : io S io_error A := io_map_err (fun e => invalid_data (client_error_to_string e)) m.

(** [run] on a connected stream, with the state and the record that it reports on. *)
Definition run (fuel : nat) (server_name : bytes) : io ((R * W) * OS) io_error (Tls13ClientHandshakeState * TlsPlaintextRecord) :=
  let! client := client_data (on_device (new_client_flight fuel server_name)) in
  let! _ := on_wire (write_plaintext (new_plaintext Handshake (client_hello_message client))) in
  let! server_hello := on_wire read_server_hello in
  let! handshake := client_data (io_lift (receive_server_hello server_hello client)) in
  let! encrypted_handshake := on_wire read_first_protected_server_record in
  let '(decrypted, handshake) := decrypt_server_handshake_record encrypted_handshake handshake in
  let! decrypted := client_data (io_lift decrypted) in
  let! _ := io_lift (transcript_hash (client_hs_transcript handshake)) in
  io_ret (handshake, decrypted).
End probe.

(** ** What the probe reads *)
Section probe_reads.
Context {R W : Type} {HR : Io.Read R} {HW : Io.Write W}.
Implicit Types (s : R * W).

(** The two readers of a record differ in an error only. *)
Lemma probe_read_wire_hears s : wp probe_read_wire_record s (fun wire s' => heard_bytes wire s s' /\ (stream_fuel s' < stream_fuel s)%nat /\ exists b, forall E, index wire 0 = Ok b :> res E byte) (fun _ s' => listened s s').
Proof.
  pose proof (read_wire_hears s) as H. revert H. unfold wp, probe_read_wire_record, read_wire_record, io_bind. destruct (Io.read_exact TLS_RECORD_HEADER_SIZE s) as [[header|e| |] s1]; try done.
  unfold io_lift. destruct (u16_at header 3) as [n|e| |]; try done. by destruct (_ <? n).
Qed.

Lemma probe_one_record_eq {A : Type} (push : bytes -> io bytes TlsRecordError (list A)) (m wire : bytes) : probe_one_record push m wire = one_record push m wire.
Proof.
  unfold probe_one_record, one_record. destruct (push wire []) as [[records|e| |] rest]; try done. cbn [map_err res_bind]. by destruct records as [|a [|]].
Qed.

Lemma one_record_message {A : Type} (push : bytes -> io bytes TlsRecordError (list A)) (m m' wire : bytes) (a : A) : one_record push m wire = Ok a -> one_record push m' wire = Ok a.
Proof. unfold one_record. destruct (push wire []) as [[records|e| |] rest]; try done. cbn [map_err res_bind]. by destruct (_ || _). Qed.

Lemma probe_plaintext_spec (wire : bytes) : match probe_decode_plaintext_record wire with Ok r => wire = record_wire r | Err _ => True | Panic | Fuel => False end.
Proof.
  unfold probe_decode_plaintext_record. rewrite probe_one_record_eq. assert (H : forall m, returns (one_record plaintext_push m wire)) by (intros m; apply (one_record_returns plaintext_cut), plaintext_push_spec).
  specialize (H (str "expected exactly one complete TLS plaintext record")). destruct (one_record plaintext_push _ wire) as [r|e| |] eqn:E; try done. apply decode_plaintext_inv. by eapply one_record_message.
Qed.

Lemma probe_ciphertext_spec (wire : bytes) : match probe_decode_ciphertext_record wire with Ok r => wire = wire_of r /\ ciphertext_ok r | Err _ => True | Panic | Fuel => False end.
Proof.
  unfold probe_decode_ciphertext_record. rewrite probe_one_record_eq. assert (H : forall m, returns (one_record ciphertext_push m wire)) by (intros m; apply (one_record_returns ciphertext_cut), ciphertext_push_spec).
  specialize (H (str "expected exactly one complete TLS ciphertext record")). destruct (one_record ciphertext_push _ wire) as [r|e| |] eqn:E; try done. apply decode_ciphertext_inv. by eapply one_record_message.
Qed.

Lemma wp_alert {A : Type} (wire : bytes) s (Q : A -> R * W -> Prop) (X : io_error -> R * W -> Prop) : (forall e, X e s) -> wp (fail_with_alert wire) s Q X.
Proof.
  intros HX. pose proof (probe_plaintext_spec wire) as Hp. unfold fail_with_alert. apply wp_bind, wp_lift; [by destruct (probe_decode_plaintext_record wire)| |done]. intros r _.
  pose proof (parse_alert_returns (fragment r)) as Ha. apply wp_bind, wp_lift; [unfold alert_error; by destruct (parse_alert (fragment r))| |done]. intros e _. by apply wp_err.
Qed.

Lemma take_record_spec (wire deframer : bytes) : index wire 0 = Ok (content_type_code Handshake) :> res io_error byte ->
  match take_handshake_record wire deframer with
  | Ok (messages, rest) => exists r, wire = record_wire r /\ content_type r = Handshake /\
      ((messages = [] /\ rest = deframer ++ fragment r) \/ exists m, messages = [m] /\ (rest = [] -> m = deframer ++ fragment r))
  | Err _ => True
  | Panic | Fuel => False
  end.
Proof.
  intros Hi. unfold take_handshake_record. pose proof (probe_plaintext_spec wire) as Hp. destruct (probe_decode_plaintext_record wire) as [r|e| |]; try done. cbn [res_bind].
  assert (Hct : content_type r = Handshake) by (rewrite Hp in Hi; injection Hi; by destruct (content_type r)).
  pose proof (push_record_spec r deframer Hct) as Hr. destruct (push_record r deframer) as [[ms|e| |] rest]; try done. cbn [map_err res_bind].
  destruct (Nat.ltb_spec 1 (length ms)) as [|Hl]; [done|]. exists r. split_and!; [done..|]. by apply pushed_one.
Qed.

Definition brings_server_hello (stream message : bytes) : Prop :=
  exists records, stream = concat (map record_wire records) /\ Forall (fun r => content_type r = Handshake) records /\ message = concat (map fragment records).

Lemma read_server_hello_spec s : wp read_server_hello s (fun m s' => exists stream, heard_bytes stream s s' /\ brings_server_hello stream m) (fun _ s' => listened s s').
Proof.
  enough (H : forall fuel s deframer, (stream_fuel s <= fuel)%nat -> wp (read_server_hello_loop fuel deframer) s
    (fun m s' => exists records, heard_bytes (concat (map record_wire records)) s s' /\ Forall (fun r => content_type r = Handshake) records /\ m = deframer ++ concat (map fragment records))
    (fun _ s' => listened s s')).
  { eapply wp_mono; [apply (H (stream_fuel s) s []); lia| |done]. intros m s' (records & H1 & H2 & ->). eexists. split; [exact H1|]. by exists records. }
  clear s. induction fuel as [|fuel IH]; intros s0 deframer Hf; [unfold stream_fuel in Hf; lia|]. cbn [read_server_hello_loop]. apply wp_bind.
  eapply wp_mono; [apply probe_read_wire_hears| |done]. intros wire s1 (H1 & Hlt & b & Hb). pose proof (heard_listened _ _ _ H1) as Hl1.
  apply wp_bind, wp_lift; [by rewrite Hb| |by rewrite Hb]. intros b' E. rewrite Hb in E. apply Ok_inj in E as <-.
  destruct (byte_eqb b (content_type_code Handshake)) eqn:Eh; [|destruct (byte_eqb b (content_type_code Alert)); [by apply wp_alert|by apply wp_err]]. apply byte_eqb_eq in Eh as ->.
  pose proof (take_record_spec wire deframer (Hb _)) as Ha. apply wp_bind, wp_lift; [by destruct (take_handshake_record wire deframer)| |done]. intros [messages d] E. rewrite E in Ha.
  destruct Ha as (r & Hw & Hr & [[-> ->]|(m & -> & Hm)]).
  - eapply wp_mono; [apply IH; lia| |intros e s2 H2; by eapply listened_trans]. intros m s2 (records & H2 & Hall & ->). exists (r :: records).
    split; [cbn [map concat]; rewrite <- Hw; by eapply heard_trans|]. split; [by apply Forall_cons|]. cbn [map concat]. by rewrite app_assoc.
  - apply wp_bind. unfold record_data. apply wp_map_err, wp_lift; [by destruct d| |done]. intros [] Ed. apply wp_ret. destruct d; [|done]. exists [r]. cbn [map concat].
    rewrite !app_nil_r, <- Hw. split; [done|]. split; [by apply Forall_singleton|by apply Hm].
Qed.

Lemma probe_skip_spec (wire : bytes) : match probe_skip_change_cipher_spec wire with Ok _ => exists r, wire = record_wire r /\ content_type r = ChangeCipherSpec | Err _ => True | Panic | Fuel => False end.
Proof.
  unfold probe_skip_change_cipher_spec. pose proof (probe_plaintext_spec wire) as Hp. destruct (probe_decode_plaintext_record wire) as [r|e| |]; try done. cbn [res_bind].
  case_bool_decide; cbn [negb]; [|done]. by exists r.
Qed.

Lemma read_first_protected_spec s : wp read_first_protected_server_record s (fun c s' => exists stream, heard_bytes stream s s' /\ brings_finished stream c) (fun _ s' => listened s s').
Proof.
  unfold read_first_protected_server_record, wp. enough (H : forall fuel s, (stream_fuel s <= fuel)%nat ->
    wp (read_first_protected_loop fuel) s (fun c s' => exists stream, heard_bytes stream s s' /\ brings_finished stream c) (fun _ s' => listened s s')) by (apply (H (stream_fuel s) s); lia).
  induction fuel as [|fuel IH]; intros s0 Hf; [unfold stream_fuel in Hf; lia|]. cbn [read_first_protected_loop]. apply wp_bind.
  eapply wp_mono; [apply probe_read_wire_hears| |done]. intros wire s1 (H1 & Hlt & b & Hb). pose proof (heard_listened _ _ _ H1) as Hl1.
  apply wp_bind, wp_lift; [by rewrite Hb| |by rewrite Hb]. intros b' E. rewrite Hb in E. apply Ok_inj in E as <-. destruct (byte_eqb b (content_type_code ChangeCipherSpec)).
  - pose proof (probe_skip_spec wire) as Hs. apply wp_bind, wp_lift; [by destruct (probe_skip_change_cipher_spec wire)| |done]. intros [] E. rewrite E in Hs. destruct Hs as (r & Hw & Hr).
    eapply wp_mono; [apply IH; lia| |intros e s2 H2; by eapply listened_trans]. intros c s2 (stream & H2 & records & -> & Hall & Hok).
    exists (wire ++ concat (map record_wire records) ++ wire_of c). split; [by eapply heard_trans|]. exists (r :: records). cbn [map concat]. rewrite <- Hw, app_assoc. split; [done|]. split; [by apply Forall_cons|done].
  - destruct (byte_eqb b (content_type_code ApplicationData)); [|destruct (byte_eqb b (content_type_code Alert)); [by apply wp_alert|by apply wp_err]].
    pose proof (probe_ciphertext_spec wire) as Hc. apply wp_lift; [by destruct (probe_decode_ciphertext_record wire)| |done]. intros c E. rewrite E in Hc. destruct Hc as [-> Hok].
    eexists. split; [exact H1|]. exists []. split; [done|]. split; [by apply Forall_nil|done].
Qed.
End probe_reads.

(** ** What the probe reads whole *)
Section probe_progress.
Context {R W : Type} {HR : Io.Read R} {HW : Io.Write W}.
Implicit Types (s : R * W).

(** Bytes are to come, with nothing but interrupted reads between them. *)
Definition coming (bs : bytes) s : Prop := quiet (pending s.1) /\ bytes_of (pending s.1) = bs.

(** A record as it goes over the wire, without or with protection. *)
Definition framed_wire (ty : byte) (body : bytes) : bytes := ty :: x03 :: x03 :: be_bytes 2 (len body) ++ body.

Lemma probe_read_coming (ty : byte) (body rest : bytes) s : len body <= TLS_CIPHERTEXT_FRAGMENT_LIMIT -> coming (framed_wire ty body ++ rest) s ->
  exists s', probe_read_wire_record s = (Ok (framed_wire ty body), s') /\ coming rest s'.
Proof.
  intros Hl [Hq Hb]. unfold framed_wire in *. destruct (be_bytes_2 (len body)) as (a & b & Hab & Hv); [split; [apply len_nonneg|unfold TLS_CIPHERTEXT_FRAGMENT_LIMIT, TLS_PLAINTEXT_FRAGMENT_LIMIT in Hl; lia]|].
  rewrite Hab in Hb |- *. change ((ty :: x03 :: x03 :: [a; b] ++ body) ++ rest) with ([ty; x03; x03; a; b] ++ body ++ rest) in Hb.
  destruct (read_exact_quiet _ _ s Hq Hb) as (s1 & H1 & Hq1 & Hb1 & _). destruct (read_exact_quiet _ _ s1 Hq1 Hb1) as (s2 & H2 & Hq2 & Hb2 & _).
  exists s2. split; [|done]. unfold probe_read_wire_record, io_bind at 1. change TLS_RECORD_HEADER_SIZE with (length [ty; x03; x03; a; b]). rewrite H1.
  unfold io_bind at 1, io_lift at 1. change (u16_at [ty; x03; x03; a; b] 3) with (Ok (be_value 0 [a; b]) : res io_error Z). rewrite Hv. rewrite (proj2 (Z.ltb_ge _ _)) by exact Hl.
  unfold len. rewrite Nat2Z.id. unfold io_bind, io_ret. by rewrite H2.
Qed.

Lemma probe_decode_plain (ty : ContentType) (body : bytes) : ty <> ApplicationData -> validate_plaintext_fragment ty body = Ok tt ->
  probe_decode_plaintext_record (plain_wire ty body) = Ok (mkPlaintext ty TLS_LEGACY_RECORD_VERSION body).
Proof.
  intros Hne Hv. set (r := mkPlaintext ty TLS_LEGACY_RECORD_VERSION body). assert (Hlen : len body <= TLS_PLAINTEXT_FRAGMENT_LIMIT).
  { unfold validate_plaintext_fragment in Hv. destruct (Z.ltb_spec TLS_PLAINTEXT_FRAGMENT_LIMIT (len body)); [done|lia]. }
  assert (Hs : serialize_plaintext r = Ok (plain_wire ty body)).
  { unfold serialize_plaintext. cbn [r content_type fragment legacy_record_version]. rewrite Hv. cbn [res_bind]. rewrite bool_decide_false by done.
    rewrite Z.mod_small; [reflexivity|]. pose proof (len_nonneg body). unfold TLS_PLAINTEXT_FRAGMENT_LIMIT in Hlen. lia. }
  pose proof (plaintext_cut_serialized r _ [] ltac:(split; done) Hs) as Hcut. rewrite app_nil_r in Hcut. unfold probe_decode_plaintext_record. rewrite probe_one_record_eq. unfold one_record.
  assert (Hcuts : cuts plaintext_cut (plain_wire ty body) [r] []) by (eapply cuts_step; [exact Hcut|]; rewrite drop_all; by apply cuts_stop).
  pose proof (plaintext_push_spec [] (plain_wire ty body)) as Hp. cbn [app] in Hp. destruct (plaintext_push (plain_wire ty body) []) as [[records|e| |] rest]; try done.
  - destruct (cuts_det _ _ _ _ _ _ Hp Hcuts) as [-> ->]. reflexivity.
  - destruct Hp as [Hf _]. exfalso. by eapply cuts_fails.
Qed.

Lemma probe_decode_cipher (c : TlsCiphertextRecord) : ciphertext_ok c -> probe_decode_ciphertext_record (wire_of c) = Ok c.
Proof.
  intros Hok. destruct (wire_of_spec (E := io_error) c Hok) as (_ & Hd & _). unfold probe_decode_ciphertext_record. rewrite probe_one_record_eq. by eapply one_record_message.
Qed.

(** A handshake message that fits in one record is taken out of it. *)
Lemma take_whole_message (message : bytes) : framed message -> len message <= TLS_PLAINTEXT_FRAGMENT_LIMIT -> take_handshake_record (plain_wire Handshake message) [] = Ok ([message], []).
Proof.
  intros Hf Hl. assert (Hne : message <> []) by (by destruct Hf as (? & ? & ? & ? & ? & -> & _)). unfold take_handshake_record. rewrite probe_decode_plain; [|done|].
  2: { unfold validate_plaintext_fragment. rewrite (proj2 (Z.ltb_ge _ _)) by exact Hl. by rewrite bool_decide_false. }
  cbn [res_bind]. set (r := mkPlaintext _ _ _). pose proof (push_record_spec r [] eq_refl) as Hp. cbn [app r fragment] in Hp.
  pose proof (message_cuts [message] [] ltac:(by apply Forall_singleton) eq_refl) as Hc. cbn [concat app] in Hc. rewrite !app_nil_r in Hc.
  assert (Hpush : push_record r [] = (Ok [message], [])).
  { destruct (push_record r []) as [[ms|e| |] rest]; try done. by destruct (cuts_det _ _ _ _ _ _ Hp Hc) as [-> ->]. }
  rewrite Hpush. reflexivity.
Qed.

Lemma read_server_hello_coming (message rest : bytes) s : framed message -> len message <= TLS_PLAINTEXT_FRAGMENT_LIMIT ->
  coming (plain_wire Handshake message ++ rest) s -> exists s', read_server_hello s = (Ok message, s') /\ coming rest s'.
Proof.
  intros Hf Hl Hc. destruct (probe_read_coming (content_type_code Handshake) message rest s) as (s' & Hr & Hc'); [unfold TLS_CIPHERTEXT_FRAGMENT_LIMIT; lia|exact Hc|].
  exists s'. split; [|exact Hc']. unfold read_server_hello, stream_fuel. cbn [read_server_hello_loop]. unfold io_bind at 1. rewrite Hr. unfold io_bind at 1, io_lift at 1.
  change (index (framed_wire (content_type_code Handshake) message) 0) with (Ok (content_type_code Handshake) : res io_error byte). cbn iota beta.
  change (byte_eqb (content_type_code Handshake) (content_type_code Handshake)) with true. cbn iota. unfold io_bind at 1, io_lift at 1.
  change (framed_wire (content_type_code Handshake) message) with (plain_wire Handshake message). by rewrite (take_whole_message message Hf Hl).
Qed.

(** The records of compatibility mode are skipped. *)
Lemma read_first_protected_coming (skipped fuel : nat) (c : TlsCiphertextRecord) (rest : bytes) s : ciphertext_ok c -> (skipped < fuel)%nat ->
  coming (concat (replicate skipped (plain_wire ChangeCipherSpec [x01])) ++ wire_of c ++ rest) s ->
  exists s', read_first_protected_loop fuel s = (Ok c, s') /\ coming rest s'.
Proof.
  intros Hok. revert fuel s. induction skipped as [|n IH]; intros fuel s Hf Hc; (destruct fuel as [|fuel]; [lia|]); cbn [replicate concat app] in Hc; cbn [read_first_protected_loop].
  - destruct (wire_of_spec (E := io_error) c Hok) as (_ & _ & body & Hw & Hl). rewrite Hw in Hc. destruct (probe_read_coming x17 body rest s Hl Hc) as (s' & Hr & Hc').
    exists s'. split; [|exact Hc']. unfold io_bind at 1. rewrite Hr. unfold io_bind at 1, io_lift at 1. change (index (framed_wire x17 body) 0) with (Ok x17 : res io_error byte). cbn iota beta.
    change (byte_eqb x17 (content_type_code ChangeCipherSpec)) with false. change (byte_eqb x17 (content_type_code ApplicationData)) with true. cbn iota.
    change (framed_wire x17 body) with (x17 :: x03 :: x03 :: be_bytes 2 (len body) ++ body). rewrite <- Hw. unfold io_lift. by rewrite (probe_decode_cipher c Hok).
  - rewrite <- app_assoc in Hc. destruct (probe_read_coming (content_type_code ChangeCipherSpec) [x01] _ s ltac:(done) Hc) as (s1 & Hr & Hc1).
    destruct (IH fuel s1 ltac:(lia) Hc1) as (s' & Hs & Hc'). exists s'. split; [|exact Hc']. unfold io_bind at 1. rewrite Hr. unfold io_bind at 1, io_lift at 1.
    change (index (framed_wire (content_type_code ChangeCipherSpec) [x01]) 0) with (Ok (content_type_code ChangeCipherSpec) : res io_error byte). cbn iota beta.
    change (byte_eqb (content_type_code ChangeCipherSpec) (content_type_code ChangeCipherSpec)) with true. cbn iota. unfold io_bind at 1, io_lift at 1, probe_skip_change_cipher_spec.
    change (framed_wire (content_type_code ChangeCipherSpec) [x01]) with (plain_wire ChangeCipherSpec [x01]). rewrite probe_decode_plain by done. cbn [res_bind content_type]. rewrite bool_decide_true by done. exact Hs.
Qed.
End probe_progress.

(** ** The whole probe *)
Section probe_correct.
Context {R W OS : Type} {HR : Io.Read R} {HW : Io.Write W} `{!RandomDevice OS}.

Lemma client_hello_fits (name rnd pk : bytes) : is_valid_server_name name = true -> length rnd = 32%nat -> length pk = 65%nat ->
  encode_client_hello (client_hello_for name rnd pk) <> [] /\ len (encode_client_hello (client_hello_for name rnd pk)) <= TLS_PLAINTEXT_FRAGMENT_LIMIT.
Proof.
  intros Hv Hr Hp. split; [done|]. destruct (valid_name_length name Hv) as [_ Hn]. unfold encode_client_hello, handshake_message, hello_body. cbn [client_hello_for random legacy_session_id cipher_suites raw_extensions].
  rewrite len_cons, !len_app, !len_vec8, !len_vec16, len_client_extensions, !len_be_bytes. unfold len in *. rewrite Hr, Hp, length_u16s. cbn [length]. unfold TLS_PLAINTEXT_FRAGMENT_LIMIT. lia.
Qed.

(** SEC 1, 2.3.3: an uncompressed point. *)
Definition sec1_point (a : Fp * Fp) : bytes := x04 :: be_bytes 32 (Zmod.to_Z a.1) ++ be_bytes 32 (Zmod.to_Z a.2).

Lemma sec1_point_Ok (a : Fp * Fp) : to_sec1_uncompressed (enc_point (Some a)) = Ok (sec1_point a).
Proof.
  cbn [enc_point option_map]. rewrite to_sec1_spec by apply enc_ok. rewrite !to_be_bytes_spec by apply enc_ok. unfold sec1_point.
  rewrite <- !(value_enc field_modulus P256_FIELD_MODULUS field_ok field_value field_modulus_prime). by destruct a.
Qed.

(** What a server's hello gives the client: its share is a point of the curve, and the keys are those of RFC 8446 for the
    abscissa of its product with the client's private key and the hash of both hellos. *)
Definition keyed_by (cl : Tls13ClientHelloFlight) (message : bytes) (st : Tls13ClientHandshakeState) : Prop :=
  exists rnd extensions a x y, server_hello_ok rnd [] (sec1_point a) extensions /\ message = encode_server_hello rnd [] extensions /\
    on_curve _ curve_b (Some a) /\ multiple _ (value (client_private_key cl)) (Some a) = Some (x, y) /\
    client_state_for cl message (be_bytes 32 (Zmod.to_Z x)) st.

(** Whatever message is taken for the server's hello, the client answers. *)
Lemma receive_any (cl : Tls13ClientHelloFlight) (message : bytes) : private_key_ok (client_private_key cl) -> heard (client_transcript cl) [client_hello_message cl] ->
  match receive_server_hello message cl with
  | Ok st => keyed_by cl message st
  | Err _ => True
  | Panic | Fuel => False
  end.
Proof.
  intros [Hd Hrange] Ht. unfold receive_server_hello. pose proof (parse_tls13_server_hello_returns message) as Hr. destruct (parse_tls13_server_hello message) as [p|e| |] eqn:Ep; try done. cbn [res_bind].
  apply parse_tls13_server_hello_sound in Ep as (rnd & ext & Hok & Hm). assert (Hsm : small message).
  { rewrite Hm. apply server_hello_ok_short in Hok. apply small_message. unfold server_hello_bytes in Hok. unfold TLS_UINT24_MAX. lia. }
  case_bool_decide as Hsid; cbn [negb]; [|done]. rewrite Hsid in Hok, Hm. pose proof (from_sec1_point (server_key_share p)) as Hp. destruct (from_sec1_uncompressed (server_key_share p)) as [q|e| |]; try done. cbn [map_err res_bind].
  destruct Hp as (a & -> & Ha & Hs1). rewrite sec1_point_Ok in Hs1. apply Ok_inj in Hs1. rewrite <- Hs1 in Hok. rewrite ecdh_spec by done. rewrite decide_False by lia. rewrite decide_False by done.
  destruct (multiple _ (value (client_private_key cl)) (Some a)) as [[x y]|] eqn:Em; cbn [map_err res_bind]; [|done].
  destruct (hear (E := TlsClientHandshakeError) _ _ message Ht Hsm ltac:(cbn; lia)) as (t & -> & Ht'). cbn [res_bind]. rewrite (heard_hash t _ Ht'). cbn [res_bind].
  rewrite handshake_schedule_Ok by (apply length_be_bytes || apply length_hash). cbn [map_err res_bind].
  exists rnd, ext, a, x, y. by split_and!.
Qed.

(** A record that the server sealed as its first, under its handshake key. *)
Definition sealed_by_server (st : Tls13ClientHandshakeState) (r : TlsPlaintextRecord) (c : TlsCiphertextRecord) (st' : Tls13ClientHandshakeState) : Prop :=
  exists zeros, c = sealed_record (key_of (client_hs_server_secret st)) (iv_of (client_hs_server_secret st)) 0 r zeros /\ content_type r = Handshake /\
    st' = mkClientState (client_hs_client_secret st) (client_hs_server_secret st) (client_main_secret st) (client_hs_transcript st)
            (set_read_sequence (client_record_protection st) (Some 1)).

Lemma decrypt_first (cl : Tls13ClientHelloFlight) (message : bytes) (c : TlsCiphertextRecord) (h : Tls13ClientHandshakeState) : keyed_by cl message h ->
  match decrypt_server_handshake_record c h with
  | (Ok r, h') => sealed_by_server h r c h'
  | (Err _, _) => True
  | ((Panic | Fuel), _) => False
  end.
Proof.
  intros (rnd & ext & a & x & y & _ & _ & _ & _ & Hst). unfold client_state_for in Hst. cbv zeta in Hst. destruct Hst as (Hc & Hs & _ & _ & Hp).
  pose proof (length_hs_secrets (be_bytes 32 (Zmod.to_Z x)) _ (length_hash (concat [client_hello_message cl; message]))) as [Lc Ls]. rewrite <- Hc in Lc, Hp. rewrite <- Hs in Ls, Hp.
  destruct (key_lengths _ Lc) as [? ?]. destruct (key_lengths _ Ls) as [? ?].
  assert (Hok : protection_ok (client_record_protection h)) by (rewrite Hp; by apply new_protection_ok).
  unfold decrypt_server_handshake_record, io_bind, io_map_err, io_zoom. pose proof (decrypt_record_sound c (client_record_protection h) Hok) as Hd.
  destruct (decrypt_record c (client_record_protection h)) as [[r|e| |] p]; cbn [map_err]; [|exact I|exact Hd|exact Hd]. destruct Hd as (k & zeros & Hk & Hcr & ->). clear Hc Hs.
  case_bool_decide as Hct; cbn [negb]; [|exact I]. rewrite Hp in Hk. injection Hk as <-. exists zeros. split; [by rewrite Hcr, Hp|]. by split.
Qed.

Lemma runs_client_data {S A : Type} (r : res TlsClientHandshakeError A) (s : S) (Q : A -> S -> Prop) (X : io_error -> S -> Prop) (F : S -> Prop) :
  match r with Ok a => Q a s | Err e => forall e', X e' s | Fuel => F s | Panic => False end -> runs (client_data (io_lift r)) s Q X F.
Proof. unfold runs, client_data, io_map_err, io_lift. destruct r; cbn [map_err]; auto. Qed.

Definition probed (name : bytes) (s s' : R * W) (h : Tls13ClientHandshakeState) (r : TlsPlaintextRecord) : Prop :=
  exists cl message handshake stream1 stream2 c, client_flight_of name cl /\ brings_server_hello stream1 message /\ keyed_by cl message handshake /\
    brings_finished stream2 c /\ sealed_by_server handshake r c h /\
    talked (stream1 ++ stream2) (plain_wire Handshake (client_hello_message cl)) s s'.

(** A server whose answer to the hello, as it is proved of this program's, arrives whole: its hello in one record,
    the records of compatibility mode, and the sealed EncryptedExtensions; and the client could send its hello. *)
Definition answered (fuel : nat) (name : bytes) (st : (R * W) * OS) : Prop :=
  exists cl os s1 ch d a rnd f skipped rest,
    new_client_flight fuel name st.2 = (Ok cl, os) /\ write_handshake_message (client_hello_message cl) st.1 = (Ok tt, s1) /\
    parse_client_hello (client_hello_message cl) = Ok ch /\ answers [client_hello_message cl] ch d a rnd f /\ rnd <> TLS13_HELLO_RETRY_REQUEST_RANDOM /\
    coming (plain_wire Handshake (server_hello f) ++ concat (replicate skipped (plain_wire ChangeCipherSpec [x01])) ++
      wire_of (encrypted_extensions_record f) ++ rest) s1.

Lemma framed_message (ty : byte) (body : bytes) : len body < 16777216 -> framed (handshake_message ty body).
Proof.
  intros Hl. pose proof (length_be_bytes 3 (len body)) as Hn. destruct (be_bytes 3 (len body)) as [|b1 [|b2 [|b3 []]]] eqn:E; try discriminate Hn.
  exists ty, b1, b2, b3, body. unfold handshake_message. rewrite E. split; [done|]. rewrite <- E, be_value_be_bytes, Z.mod_small; [done|]. pose proof (len_nonneg body). cbn. lia.
Qed.

Lemma skipped_fits (skipped : nat) (front back : bytes) (s : R * W) : coming (front ++ concat (replicate skipped (plain_wire ChangeCipherSpec [x01])) ++ back) s ->
  (skipped < stream_fuel s)%nat.
Proof.
  intros [_ Hb]. pose proof (length_bytes_of (pending s.1)) as H. rewrite Hb, !length_app in H. unfold stream_fuel.
  assert (skipped <= length (concat (replicate skipped (plain_wire ChangeCipherSpec [x01]))))%nat; [|lia].
  clear. induction skipped as [|n IH]; [done|]. cbn [replicate concat]. rewrite length_app. change (length (plain_wire ChangeCipherSpec [x01])) with 6%nat. lia.
Qed.

Lemma answered_succeeds (fuel : nat) (name : bytes) (st : (R * W) * OS) : answered fuel name st -> exists o st', run fuel name st = (Ok o, st').
Proof.
  intros (cl & os & s1 & ch & d & a & rnd & f & skipped & rest & Hnew & Hsend & Hch & Hans & Hrnd & Hc).
  pose proof (new_client_spec fuel name st.2) as Hcl. rewrite Hnew in Hcl. pose proof (read_hello (client_hello_message cl)) as Hsid. rewrite Hch in Hsid. destruct Hsid as (_ & _ & _ & Hsid).
  destruct (flight_ready _ _ _ _ _ _ Hans Hsid) as (_ & Hfit & Hok & _). pose proof Hans as (? & ks & ? & ? & _ & _ & _ & _ & _ & _ & _ & _ & Hf).
  assert (Hfr : framed (server_hello f)).
  { rewrite (flight_hello _ _ _ _ _ _ Hf) in Hfit |- *. apply framed_message. unfold encode_server_hello, handshake_message in Hfit.
    rewrite len_cons, len_app, len_be_bytes in Hfit. unfold TLS_PLAINTEXT_FRAGMENT_LIMIT in Hfit. lia. }
  destruct (read_server_hello_coming _ _ s1 Hfr Hfit Hc) as (s2 & Hread & Hc2). pose proof (skipped_fits skipped [] _ s2 Hc2) as Hfuel.
  destruct (read_first_protected_coming skipped (stream_fuel s2) _ rest s2 Hok Hfuel Hc2) as (s3 & Hfirst & _).
  pose proof (client_receives name cl f ch d a rnd Hcl Hch Hans) as Hrec.
  destruct (receive_server_hello (server_hello f) cl) as [h|[]| |] eqn:Er; try done. destruct Hrec as (Ht & _ & _ & h' & Hdec & Ht' & _). rewrite <- Ht' in Ht.
  unfold write_handshake_message in Hsend. unfold run, client_data, on_device, on_wire, io_map_err, io_zoom, io_lift, io_ret.
  unfold io_bind at 1. rewrite Hnew. cbn [map_err]. unfold io_bind at 1. cbn [fst snd]. rewrite Hsend. unfold io_bind at 1. cbn [fst snd]. rewrite Hread.
  unfold io_bind at 1. rewrite Er. cbn [map_err]. unfold io_bind at 1, read_first_protected_server_record. cbn [fst snd]. rewrite Hfirst, Hdec.
  unfold io_bind at 1. cbn [map_err]. unfold io_bind at 1. rewrite (heard_hash _ _ Ht). eauto.
Qed.

(** C40: the client probe sends the one hello for the name, reads the server's hello and the first protected record and nothing
    else. It reports success only when that hello is one for TLS 1.3 with a point of the curve, and the record is a record of the
    handshake that was sealed, as the first, under the server's key of RFC 8446: from the product of the server's point with the
    client's private key, and the hash of both hellos. It does report success when a server's answer arrives whole that is one of
    those this program gives. Whatever the server sends, the probe neither panics nor loops; only the draw of its key is bounded by the
    fuel. *)
Theorem client_probe_correct (fuel : nat) (name : bytes) (st : (R * W) * OS) :
  match run fuel name st with
  | (Ok (h, r), st') => probed name st.1 st'.1 h r
  | (Err _, st') => moved st.1 st'.1 /\ ~ answered fuel name st
  | (Fuel, st') => st'.1 = st.1 /\ exists os, no_key_in fuel os st'.2
  | (Panic, _) => False
  end.
Proof.
  enough (H : runs (run fuel name) st (fun o st' => probed name st.1 st'.1 o.1 o.2) (fun _ st' => moved st.1 st'.1) (fun st' => st'.1 = st.1 /\ exists os, no_key_in fuel os st'.2)).
  { unfold runs in H. destruct (run fuel name st) as [[[h r]|e| |] st'] eqn:E; try done. split; [exact H|].
    intros (o & st1 & E1)%answered_succeeds. congruence. }
  unfold run. apply runs_bind. pose proof (new_client_spec fuel name st.2) as Hc. unfold client_data at 1, on_device, io_map_err, io_zoom, runs at 1. cbn [fst snd].
  destruct (new_client_flight fuel name st.2) as [[cl|e| |] os]; cbn [map_err]; [|by eapply moved_refl, talked_nil|done|by destruct Hc as (s1 & Hc); split; [|by exists s1]].
  pose proof Hc as (Hv & Hkey & rnd & pk & Hr & _ & Hpk & Hm & Ht). destruct (client_hello_fits name rnd pk Hv Hr Hpk) as [Hne Hl]. rewrite <- Hm in Hne, Hl.
  apply runs_bind, runs_wire, runs_wp. eapply wp_mono; [exact (wp_handshake _ st.1 Hne Hl)| |intros e s1 H1; exact (moved_part _ _ _ H1)]. intros [] s1 H1.
  pose proof (talked_sent [] [] _ _ _ _ (talked_nil st.1) H1) as T1. cbn [app fst snd] in *.
  apply runs_bind, runs_wire, runs_wp. eapply wp_mono; [apply read_server_hello_spec| |intros e s2 H2; eapply moved_talked; [exact T1|exact (moved_listened _ _ H2)]].
  intros message s2 (stream1 & H2 & Hb1). pose proof (talked_heard _ _ _ _ _ _ T1 H2) as T2. cbn [app fst snd] in *.
  apply runs_bind, runs_client_data. pose proof (receive_any cl message Hkey Ht) as Hrec. destruct (receive_server_hello message cl) as [handshake|e| |] eqn:Er; [|intros _; by eapply moved_refl|done..].
  apply runs_bind, runs_wire, runs_wp. eapply wp_mono; [apply read_first_protected_spec| |intros e s3 H3; eapply moved_talked; [exact T2|exact (moved_listened _ _ H3)]].
  intros c s3 (stream2 & H3 & Hb2). pose proof (talked_heard _ _ _ _ _ _ T2 H3) as T3. pose proof (decrypt_first cl message c handshake Hrec) as Hd.
  destruct (decrypt_server_handshake_record c handshake) as [o h] eqn:Ed. apply runs_bind, runs_client_data. destruct o as [r|e| |]; [|intros _; by eapply moved_refl|done..].
  pose proof Hd as (zeros & _ & _ & ->). pose proof Hrec as (_ & _ & _ & _ & _ & _ & _ & _ & _ & _ & _ & _ & Hh & _).
  apply runs_bind. unfold runs at 1, io_lift at 1. cbn [client_hs_transcript]. rewrite (heard_hash _ _ Hh). unfold runs, io_ret. cbn [fst snd].
  by exists cl, message, handshake, stream1, stream2, c.
Qed.
End probe_correct.
